(* ===== verification/_CoqProject ===== *)
-Q . S2P
Prelude.v
Registrar.v
RestartManager.v
ContainerState.v
GoStrings.v
IdTools.v
StdCopy.v
Reference.v
ReferenceStore.v
LayerStore.v
LayerInv.v
LayerSafety.v
ImageStore.v
VolumeStore.v
TruncIndex.v
ContainerNames.v
Events.v
Transfer.v
ShellParser.v
Json.v
DockerfileParser.v
GoSlice.v
BFlags.v
Builder.v
BuilderSpec.v
BuilderRun.v
ImageDelete.v
ImageDeleteSpec.v
Locker.v
FileStore.v
Filepath.v
Symlink.v
CopyPaths.v
Changes.v
Tar.v
Unpack.v
LayerDiff.v
Breakout.v
Libcontainerd.v
Lifecycle.v
LifecycleInv.v
LifecycleSafety.v
LifecycleStop.v
LifecycleFaults.v
DeviceIds.v
DeviceSet.v
DeviceSetLogic.v
DeviceSetInv.v
DeviceSetOps.v
DeviceSetBoot.v
DeviceSetCrash.v
DeviceSetSafety.v
DeviceSetFaults.v
BytesPipe.v
BytesPipeSpec.v
BytesPipeSafety.v
TailFile.v
JsonLog.v
LogFile.v
LogFileSpec.v
LogSafety.v
