(* ===== verification/Prelude.v ===== *)
(** * A verification of the container engine's bookkeeping

    The program is a fork of the Docker engine: a daemon that keeps images,
    layers, containers and volumes on behalf of concurrent API requests.  What
    this development models is the part of it that decides, in the daemon's own
    Go code, which object exists, who refers to it, what it is called and what
    happens to it next, and what it does to the trees and thin devices that
    images and containers are made of.  The code around that part (HTTP
    handlers, gRPC to containerd, the vendored libraries, the kernel) is not
    modelled; where the modelled code calls it, it is an argument: a type class
    of operations that may fail, a record of functions, an oracle that decides
    the fate of every call, or the result of a call.

    ** Files and sources (paths under src/)

    - [Prelude]: Go results ([outcome]), state passing with errors and panics
      ([ST]) and its Hoare triples ([hoare]), 64-bit integers ([wrap64]), list
      and finite-map lemmas, the hint database [dao], the tactics [case_step].
    - [GoStrings]: bytes, UTF-8 and the functions of strings, strconv and
      unicode that the code uses.
    - [Registrar]: pkg/registrar/registrar.go, names reserved to keys.
    - [TruncIndex]: pkg/truncindex/truncindex.go, identifiers by unique prefix,
      over the class [PatriciaTrie] for the vendored trie.
    - [ContainerNames]: daemon/names.go, daemon/rename.go, the look-ups of
      daemon/container.go, on the two components above.
    - [RestartManager]: restartmanager/restartmanager.go, with its sleeping
      goroutines as a step relation.
    - [ContainerState]: container/state.go, state_unix.go, health.go,
      daemon/health.go, monitor.go, pause.go, unpause.go: the state machine of
      a container, its wait channels and its health probes.
    - [IdTools]: pkg/idtools/idtools.go, id mappings and the subid parser.
    - [StdCopy]: pkg/stdcopy/stdcopy.go, the stream multiplexer.
    - [Reference], [ReferenceStore]: reference/reference.go and store.go, image
      names and the table of tags and digests, over a [Grammar] for the regular
      expressions of the distribution library.
    - [LayerStore], [LayerInv], [LayerSafety]: layer/layer_store.go,
      ro_layer.go, mounted_layer.go and the chain identifiers of layer.go, over
      the classes [GraphDriver] and [MetadataStore].
    - [ImageStore]: image/store.go, image/fs.go, on the interface
      [LayerGetReleaser] with its laws [RetainLaws], which the layer store
      implements.
    - [VolumeStore]: volume/store/store.go and errors.go, over the class
      [VolumeDrivers].
    - [Events]: pkg/pubsub/publisher.go, daemon/events/events.go, filter.go.
    - [Transfer]: distribution/xfer/transfer.go, the scheduler of downloads and
      uploads.
    - [ShellParser]: builder/dockerfile/shell_parser.go, the expansion of
      variables in the words of a Dockerfile.
    - [Json]: the part of encoding/json that decodes the JSON form of an
      instruction.
    - [DockerfileParser]: builder/dockerfile/parser, from text to instructions.
    - [GoSlice]: slices over shared arrays, with [append].
    - [BFlags]: builder/dockerfile/bflag.go, the flags of an instruction.
    - [Builder]: builder/dockerfile (dispatchers.go, evaluator.go, internals.go,
      builder.go and the files of the platform), and the merging of
      configurations of daemon/commit.go that it runs through; [BuilderSpec]
      and [BuilderRun] are its theorems.
    - [ImageDelete]: daemon/image_delete.go, image_tag.go and the look-up of
      daemon/image.go, on [ReferenceStore], [ImageStore] and the containers of
      container/memory_store.go; [ImageDeleteSpec] has the abstract machine it
      refines and the theorems.
    - [Locker]: pkg/locker/locker.go, locks by name, and
      daemon/graphdriver/counter.go, the counter of the graph drivers.
    - [FileStore]: layer/filestore.go, the metadata files of layers, an
      instance of the class [MetadataStore].
    - [Filepath]: the functions of path/filepath that the code uses.
    - [Symlink]: pkg/symlink/fs.go, links followed in the scope of a root, and
      the resource paths of container/container.go.
    - [CopyPaths]: pkg/archive/copy.go, container/archive.go: where docker cp
      reads and writes.
    - [Changes], [Tar], [Unpack], [LayerDiff]: pkg/archive, the changes between
      two trees (changes.go, changes_linux.go), the archive made of them
      (archive.go, archive_unix.go), the unpacking of archives and layers
      (diff.go, archive.go), and the three of them composed; [Breakout]: the
      entries that the check on paths lets pass.
    - [Libcontainerd], [Lifecycle]: libcontainerd (container_linux.go,
      client_linux.go, queue_linux.go, pausemonitor_linux.go) and the commands
      of daemon/start.go, stop.go, kill.go, restart.go, delete.go, pause.go,
      monitor.go, for one container: threads of atomic actions, containerd
      being the environment.  [LifecycleInv], [LifecycleSafety],
      [LifecycleStop] and [LifecycleFaults] are the invariant and the theorems.
    - [DeviceIds], [DeviceSet]: daemon/graphdriver/devmapper/deviceset.go, the
      device sets of the device-mapper driver, with the calls of
      pkg/devicemapper/devmapper.go; [DeviceSetLogic] is a program logic with
      a condition for crashes, [DeviceSetInv], [DeviceSetOps], [DeviceSetBoot]
      and [DeviceSetCrash] the invariant and the specifications of the
      operations and of the start, [DeviceSetSafety] and [DeviceSetFaults] the
      theorems.
    - [BytesPipe]: pkg/ioutils/bytespipe.go and buffer.go, with
      [BytesPipeSpec] and [BytesPipeSafety].
    - [TailFile]: pkg/tailfile/tailfile.go and pkg/ioutils/multireader.go;
      [JsonLog]: pkg/jsonlog; [LogFile]: daemon/logger (copier.go, context.go,
      jsonfilelog, loggerutils/rotatefilewriter.go) and the command docker
      logs, with [LogFileSpec] and [LogSafety].

    ** How the code is translated

    A struct is a [Record], an enumeration or an error type an [Inductive], a Go
    map a [gmap].  A method is a function of the state that keeps every
    mutation made before an error return or a panic; a deferred function is a
    combinator around the rest of the body.  A pointer to a shared object is a
    location of a heap, or the key the object is kept under.  A slice is a
    list, except in the builder, where several slices share an array and the
    arrays are modelled.  The daemon behind the builder is the function of the
    calls made so far that answers the next one, and the calls are part of the
    state, so that theorems speak of what was committed.  A channel that is
    only closed is a boolean and closing it twice a panic.  A mutex makes the
    region it protects one step: where a method gives the lock up in between,
    the model has several steps and the theorems range over their
    interleavings.  In [DeviceSet] every call of the kernel or of the file
    system asks an oracle whether it does its work, fails, or is the one at
    which the process dies; memory is lost then and disk and pool stay.  A wait
    on a condition variable ends a step, and the thread goes on only after a
    broadcast ([BytesPipe]).

    ** What the theorems show

    - Safety of shared objects.  A layer is destroyed only when no reference, no
      child, no mount and no operation in progress holds it, in every sequence
      of API calls ([layer_api_safe]) and every interleaving of the locked
      regions ([layer_regions_safe]); no call of [panic] in that code is reached;
      what a layer's chain identifier says is what it holds
      ([layers_content_addressed], [Register_content]).  Images keep their
      layers ([images_keep_layers]) and a volume in use is not removed
      ([no_removal_while_referenced]).  An image that is deleted has no child,
      no tag and no running container, forced or not ([ImageDelete_safe]), and
      every tag still points to an image afterwards
      ([ImageDelete_keeps_stores]).  RUN gives back the configuration it
      borrowed, and no build argument reaches the environment or the command
      of an image ([run_keeps_config]).
    - The language of Dockerfiles: what is written is what is parsed
      ([exec_form], [pairs_roundtrip], [continuation_joins], [Parse_lines]) and
      expanded ([plain_words], [substitution_forms], [escape_roundtrip],
      [env_expands]), and parsing, expanding and dispatching end
      ([ParseLine_terminates], [ProcessWord_total], [dispatch_depth]).
    - Refinement.  The registrar, the reference store and the index of
      identifiers, each of which keeps two structures in step, implement one
      finite map or set ([registrar_refines_name_map],
      [store_refines_reference_map], [index_refines_set]); the reference store
      also across a restart ([restart_transparent]).  The builder on shared
      arrays implements one on plain lists ([BuildFromConfig_refines]).  The
      deletion of an image, with its pruning, is a sequence of steps of a small
      machine on tags and children ([ImageDelete_refines]).
    - State machines over all schedules: container states and wait channels
      ([reachable_flags_consistent], [WaitStop_released], [StateChanged_total]),
      restarts ([at_most_one_pending_restart], [no_restart_after_cancel],
      [on_failure_retry_limit]), transfers ([slots_exact], [slots_bounded],
      [transfer_lifecycle]), locks by name ([locker_correct]).
    - Failure paths: a rename and the release of a mount are all or nothing
      ([rename_atomic], [release_mount_atomic]), and a layer is on disk
      completely or not at all ([Commit_atomic]).
    - Trees: the layer made of the changes between two trees and unpacked over
      the old one gives the new one ([layer_roundtrip]); the changes are the
      differences ([Changes_spec]), also when unchanged subtrees are skipped
      ([ChangesDirs_prunes]).  Following links in a root is what a process
      confined to it does, and does not leave it
      ([FollowSymlinkInScope_chroot], [FollowSymlinkInScope_confined],
      [ResolvePath_confined]); a copy lands where the links of its destination
      lead ([CopyTo_lands]).
    - The life of a container, in every interleaving of API calls and events:
      at most one process ([one_process]), one removal ([removed_once]), no
      restart after a stop ([stop_prevents_restart]), locks in pairs
      ([handler_discipline]).
    - Thin devices, with deaths at any call and failures of every call but the
      reading and removing of metadata files, as long as no start finds an open
      transaction whose device has its file: two devices never share a thin
      device ([device_ids_unique]); a crash is rolled back and touches no other
      device, when no transaction was open before ([crash_recovery]); a new
      device is a snapshot of its base ([AddDevice_snapshot]).  What a start
      that does find one leaves is [rollback_leaves_device].
    - Buffered pipes, in every interleaving: a queue ([pipe_fifo]) of bounded
      size ([pipe_bounded]).
    - Logs, when no call fails: what a container writes is what docker logs
      shows if the log is not rotated ([output_is_shown]), and of rotated files
      the last records, selected by time ([docker_logs]); the files read as one behave like one file
      ([multi_refines_file]) and its tail is the last lines ([TailFile_spec]).
    - Round trips: StdCopy after stdWriter, the subid file, the printing of
      references, image configurations, volume labels, the metadata of a layer
      ([stored_layer_loads]).
    - Behaviour the code did not intend, proved as it is:
      [normalize_loses_location], [rename_race], [Create_without_RootFS],
      [Parse_long_line], [onbuild_comment_panics], [shell_room_corrupts],
      [ImageDelete_tag_like_id], [ImageDelete_not_a_tag],
      [half_removed_layer_stuck], [RefCounter_race], [long_path_refused],
      [breakout_dotdot], [pause_exec_deadlock], [restart_leaves_stopped],
      [failed_restart_blocks_start], [rollback_leaves_device],
      [stale_device_destroys], [pool_never_accepted], [large_write_deadlock],
      [rotation_failure_final], [seek_cur_wrong], [read_beyond_length],
      [rotation_race], [torn_record].

    ** Bounds and fuel

    The loops of [StdCopy] take fuel, and [StdCopy_roundtrip] is proved for an
    explicit amount computed from the input.  [releaseLayer] walks parent
    pointers with fuel one more than the location it starts from; parents have
    smaller locations, and the theorems show that it never runs out.  The
    decoders of [GoStrings] take the length of the string, the parser of a line
    its length (ONBUILD calls it on a part of the line), the expansion of a word
    three steps per character, the dispatcher two levels (FROM runs triggers,
    which cannot be FROM), the pruning of images one more than there are
    images; each amount is shown to be enough.  Links are followed for 255
    elements and destinations of copies for eleven links because the code stops
    there; walks of trees take the height of the tree.  The search for a free
    device identifier makes 2^24 turns, by doubling ([until_pos]), and the
    creation of a device retries one more than that; a removal of a busy device
    retries 200 times, as in the code.  A write to a pipe takes two turns more
    than it has bytes and a read one per buffer.  The tail of a file takes two
    turns more than it has blocks of 1024 bytes, the writer of JSON strings one
    per byte, and the reader of a log one more than it has bytes.  Go integers are 64-bit where
    sums can overflow (ids, delays) and unbounded where they count objects in
    memory.

    ** What is not modelled

    The bytes of tar streams and their compression, the graph drivers other
    than device-mapper, and of that one the loopback files, the options and the
    status; the digest functions (parameters); the goroutine of a transfer's
    watcher (it only prints progress); the build context (archives, downloads,
    .dockerignore); the labels that an image event copies; mounts, networks and
    volumes at the start of a container (recorded calls that may fail); the
    registry protocol, the API server and client, the command line, swarm, the
    network, the other log drivers and the following of a log.  Those are for the most part conversations
    with other programs (a registry, swarmkit, libnetwork, the kernel) of which
    the repository has only one side. *)

From stdpp Require Export base tactics option numbers strings sorting gmap list.

(** ** Go values *)

(** A Go function that may return an error, or panic.  [Ok a] is the return
    of a value with a nil error, [Err e] the return of a non-nil error and
    [Panic msg] a call of [panic] (or a run-time panic). *)
Inductive outcome (E A : Type) : Type :=
| Ok (a : A)
| Err (e : E)
| Panic (msg : string).
Arguments Ok {E A} a.
Arguments Err {E A} e.
Arguments Panic {E A} msg.

Definition is_ok {E A} (o : outcome E A) : bool :=
  match o with Ok _ => true | _ => false end.

Definition panics {E A} (o : outcome E A) : bool :=
  match o with Panic _ => true | _ => false end.

(** State passing with errors and panics: the state is kept on every path,
    as a Go method keeps the mutations it made before it returned an error. *)
Definition ST (S E A : Type) : Type := S → outcome E A * S.

#[global] Instance ST_ret S E : MRet (ST S E) := λ A a s, (Ok a, s).
#[global] Instance ST_bind S E : MBind (ST S E) := λ A B k m s,
  match m s with
  | (Ok a, s') => k a s'
  | (Err e, s') => (Err e, s')
  | (Panic msg, s') => (Panic msg, s')
  end.

#[global] Instance ST_fmap S E : FMap (ST S E) := λ A B f m, m ≫= λ a, mret (f a).

Definition st_get {S E} : ST S E S := λ s, (Ok s, s).
Definition st_put {S E} (s' : S) : ST S E unit := λ _, (Ok tt, s').
Definition st_modify {S E} (f : S → S) : ST S E unit := λ s, (Ok tt, f s).
Definition st_gets {S E A} (f : S → A) : ST S E A := λ s, (Ok (f s), s).
Definition st_fail {S E A} (e : E) : ST S E A := λ s, (Err e, s).
Definition st_panic {S E A} (msg : string) : ST S E A := λ s, (Panic msg, s).

(** [st_try m] runs [m] and gives the error it returned as a value, as in
    [if err := f(); err != nil { ... }]; a panic is not caught. *)
Definition st_try {S E A} (m : ST S E A) : ST S E (sum A E) := λ s,
  match m s with
  | (Ok a, s') => (Ok (inl a), s')
  | (Err e, s') => (Ok (inr e), s')
  | (Panic msg, s') => (Panic msg, s')
  end.

(** ** Reasoning about state passing *)

(** [hoare P m Q R]: from a state in [P], [m] does not panic; it returns a
    value and a state in [Q], or an error and a state in [R]. *)
Definition hoare {S E A} (P : S → Prop) (m : ST S E A) (Q : A → S → Prop) (R : E → S → Prop) : Prop :=
  ∀ s, P s → match m s with
             | (Ok a, s') => Q a s'
             | (Err e, s') => R e s'
             | (Panic _, _) => False
             end.

Section hoare.
Context {S E : Type}.

Lemma hoare_ret {A} (a : A) (Q : A → S → Prop) (R : E → S → Prop) :
  hoare (Q a) (mret a) Q R.
Proof. by intros s Hs. Qed.

Lemma hoare_ret' {A} (P : S → Prop) (a : A) (Q : A → S → Prop) (R : E → S → Prop) :
  (∀ s, P s → Q a s) → hoare P (mret a) Q R.
Proof. intros H s Hs. by apply H. Qed.

Lemma hoare_fail {A} (P : S → Prop) e (Q : A → S → Prop) (R : E → S → Prop) :
  (∀ s, P s → R e s) → hoare P (st_fail e) Q R.
Proof. intros H s Hs. by apply H. Qed.

Lemma hoare_bind {A B} P (m : ST S E A) (k : A → ST S E B) Q Q' R :
  hoare P m Q' R → (∀ a, hoare (Q' a) (k a) Q R) → hoare P (m ≫= k) Q R.
Proof.
  intros Hm Hk s Hs. specialize (Hm s Hs). unfold mbind, ST_bind.
  destruct (m s) as [[a|e|x] s']; [|done..]. by apply Hk.
Qed.

Lemma hoare_fmap {A B} P (f : A → B) (m : ST S E A) Q R :
  hoare P m (λ a, Q (f a)) R → hoare P (f <$> m) Q R.
Proof. intros Hm. eapply hoare_bind; [exact Hm|]. intros a s Hs. exact Hs. Qed.

Lemma hoare_conseq {A} P P' (m : ST S E A) Q Q' R R' :
  hoare P' m Q' R' → (∀ s, P s → P' s) → (∀ a s, Q' a s → Q a s) → (∀ e s, R' e s → R e s) →
  hoare P m Q R.
Proof.
  intros Hm HP HQ HR s Hs. specialize (Hm s (HP s Hs)).
  destruct (m s) as [[a|e|x] s']; auto.
Qed.

(** [st_gets] makes the value known through the state it was read from. *)
Lemma hoare_gets_bind {A B} (P : S → Prop) (f : S → A) (k : A → ST S E B) Q R :
  (∀ a, hoare (λ s, P s ∧ f s = a) (k a) Q R) → hoare P (st_gets f ≫= k) Q R.
Proof. intros Hk s Hs. exact (Hk (f s) s (conj Hs eq_refl)). Qed.

Lemma hoare_try {A} P (m : ST S E A) Q (R : E → S → Prop) :
  hoare P m (λ a, Q (inl a)) (λ e, Q (inr e)) → hoare P (st_try m) Q R.
Proof.
  intros Hm s Hs. specialize (Hm s Hs). unfold st_try.
  destruct (m s) as [[a|e|x] s']; done.
Qed.

Lemma hoare_pre {A} (P : S → Prop) (φ : Prop) (m : ST S E A) Q R :
  (φ → hoare P m Q R) → hoare (λ s, P s ∧ φ) m Q R.
Proof. intros H s [Hs Hφ]. by apply (H Hφ). Qed.
End hoare.

(** ** Machine integers: Go's [int] and [int64] on a 64-bit platform. *)
Definition wrap64 (z : Z) : Z := ((z + 2 ^ 63) `mod` 2 ^ 64 - 2 ^ 63)%Z.

Definition in_int64 (z : Z) : Prop := (- 2 ^ 63 ≤ z < 2 ^ 63)%Z.

#[global] Instance in_int64_dec z : Decision (in_int64 z).
Proof. unfold in_int64. apply _. Defined.

Lemma wrap64_id z : in_int64 z → wrap64 z = z.
Proof. unfold in_int64, wrap64. intros. rewrite Z.mod_small; lia. Qed.

Lemma wrap64_range z : in_int64 (wrap64 z).
Proof.
  unfold in_int64, wrap64.
  pose proof (Z.mod_pos_bound (z + 2 ^ 63) (2 ^ 64)). lia.
Qed.

(** ** Lists *)

(** [append(l[:i], l[i+1:]...)] at the first index [i] holding [x], nothing
    when there is none: the loop-and-break removal used across the code. *)
Fixpoint remove_first {A} `{EqDecision A} (x : A) (l : list A) : list A :=
  match l with
  | [] => []
  | y :: l' => if decide (y = x) then l' else y :: remove_first x l'
  end.

Section remove_first.
Context {A : Type} `{EqDecision A}.
Implicit Types (x y : A) (l : list A).

Lemma remove_first_subseteq x l y : y ∈ remove_first x l → y ∈ l.
Proof. induction l; simpl; [done|]. case_decide; set_solver. Qed.

Lemma remove_first_ne x l y : y ≠ x → y ∈ remove_first x l ↔ y ∈ l.
Proof. intros Hne. induction l; simpl; [done|]. case_decide; set_solver. Qed.

Lemma remove_first_NoDup x l : NoDup l → NoDup (remove_first x l).
Proof.
  induction 1 as [|y l Hy Hl IH]; simpl; [constructor|].
  case_decide; [done|]. constructor; [|done].
  by intros ?%remove_first_subseteq.
Qed.

Lemma remove_first_gone x l : NoDup l → x ∉ remove_first x l.
Proof.
  induction 1 as [|y l Hy Hl IH]; simpl; [set_solver|].
  case_decide; set_solver.
Qed.

Lemma remove_first_elem x l y :
  NoDup l → y ∈ remove_first x l ↔ y ∈ l ∧ y ≠ x.
Proof.
  intros Hl. destruct (decide (y = x)) as [->|Hne].
  - pose proof (remove_first_gone x l Hl). naive_solver.
  - rewrite remove_first_ne by done. naive_solver.
Qed.

Lemma remove_first_Permutation x l : x ∈ l → l ≡ₚ x :: remove_first x l.
Proof.
  induction l as [|y l IH]; intros Hx; simpl; [by apply elem_of_nil in Hx|].
  destruct (decide (y = x)) as [->|Hne]; [done|].
  apply elem_of_cons in Hx as [->|Hx]; [done|]. rewrite (IH Hx) at 1. apply Permutation_swap.
Qed.
End remove_first.

Lemma filter_none {A} (P : A → Prop) `{!∀ x, Decision (P x)} l :
  Forall (λ x, ¬ P x) l → filter P l = [].
Proof. induction 1; [done|]. by rewrite filter_cons_False. Qed.

(** ** Counting in finite maps *)

(** The number of bindings of [m] that satisfy [P]. *)
Definition count_map {K} `{Countable K} {V} (P : K * V → Prop)
    `{!∀ kv, Decision (P kv)} (m : gmap K V) : nat :=
  size (filter P m).

Section count_map.
Context {K : Type} `{Countable K} {V : Type}.
Implicit Types (m : gmap K V).

Lemma count_map_empty (P : K * V → Prop) `{!∀ kv, Decision (P kv)} :
  count_map P (∅ : gmap K V) = 0.
Proof. unfold count_map. by rewrite map_filter_empty, map_size_empty. Qed.

Lemma count_map_insert (P : K * V → Prop) `{!∀ kv, Decision (P kv)} m k v :
  m !! k = None →
  count_map P (<[k:=v]> m) = (if decide (P (k, v)) then 1 else 0) + count_map P m.
Proof.
  intros Hk. unfold count_map. case_decide as HP.
  - rewrite map_filter_insert_True by done.
    rewrite map_size_insert_None; [lia|].
    apply map_lookup_filter_None. by left.
  - rewrite map_filter_insert_not'; [lia|done|]. by rewrite Hk.
Qed.

Lemma count_map_delete (P : K * V → Prop) `{!∀ kv, Decision (P kv)} m k v :
  m !! k = Some v →
  count_map P m = (if decide (P (k, v)) then 1 else 0) + count_map P (delete k m).
Proof.
  intros Hk. rewrite <-(insert_delete_id m k v) at 1 by done.
  apply count_map_insert, lookup_delete_eq.
Qed.

Lemma count_map_ext (P Q : K * V → Prop)
    `{!∀ kv, Decision (P kv), !∀ kv, Decision (Q kv)} m :
  (∀ k v, m !! k = Some v → P (k, v) ↔ Q (k, v)) →
  count_map P m = count_map Q m.
Proof.
  intros HPQ. unfold count_map. f_equal. apply map_filter_ext.
  intros k v Hk. by apply HPQ.
Qed.

Lemma count_map_0 (P : K * V → Prop) `{!∀ kv, Decision (P kv)} m k v :
  count_map P m = 0 → m !! k = Some v → ¬ P (k, v).
Proof.
  unfold count_map. intros Hc Hk HP. apply map_size_empty_inv in Hc.
  assert (filter P m !! k = Some v) as Hf by (by apply map_lookup_filter_Some).
  rewrite Hc in Hf. by rewrite lookup_empty in Hf.
Qed.

Lemma count_map_pos (P : K * V → Prop) `{!∀ kv, Decision (P kv)} m k v :
  m !! k = Some v → P (k, v) → 0 < count_map P m.
Proof.
  intros Hk HP. rewrite (count_map_delete P m k v Hk).
  case_decide; [lia|done].
Qed.
End count_map.

(** ** Automation *)

Create HintDb dao.
#[export] Hint Resolve wrap64_range remove_first_NoDup : dao.
#[export] Hint Extern 1 (_ ∉ remove_first _ _) => (apply remove_first_gone) : dao.

(** Case analysis on the innermost [match] or [if] of the goal, keeping the
    equation, with the contradictory cases closed. *)
Ltac case_step :=
  match goal with
  | |- context [match ?x with _ => _ end] =>
      lazymatch x with
      | context [match _ with _ => _ end] => fail
      | _ => let E := fresh "E" in destruct x eqn:E
      end
  end; simplify_eq/=.

(** The same on a hypothesis. *)
Ltac case_step_in H :=
  match type of H with
  | context [match ?x with _ => _ end] =>
      lazymatch x with
      | context [match _ with _ => _ end] => fail
      | _ => let E := fresh "E" in destruct x eqn:E
      end
  end; simplify_eq/=.
