(* ===== verification/Registrar.v ===== *)
(** * pkg/registrar: names reserved to keys

    Models [src/pkg/registrar/registrar.go].  A [Registrar] keeps two maps,
    [idx] from a key to the list of names reserved to it (in the order of
    reservation) and [names] from a name to its key.  Every exported method
    takes the mutex for its whole body (or for the whole part that touches
    the maps), so a method is one atomic state transformer here.

    Shown: the two maps stay inverse to each other ([Inv]) along every
    sequence of calls, and the pair of maps refines the single finite map
    [names] with the obvious operations. *)

From S2P Require Import Prelude.

Inductive error := ErrNameReserved | ErrNameNotReserved | ErrNoSuchKey.

Record Registrar := mkRegistrar {
  idx : gmap string (list string);
  names : gmap string string;
}.

Definition NewRegistrar : Registrar := mkRegistrar ∅ ∅.

(** Reading a missing key of [idx] gives the nil slice. *)
Definition idx_get (r : Registrar) (key : string) : list string :=
  default [] (idx r !! key).

Definition Reserve (name key : string) (r : Registrar) : option error * Registrar :=
  match names r !! name with
  | Some k => if decide (k ≠ key) then (Some ErrNameReserved, r) else (None, r)
  | None =>
      (None, mkRegistrar (<[key := idx_get r key ++ [name]]> (idx r))
                         (<[name := key]> (names r)))
  end.

Definition Release (name : string) (r : Registrar) : Registrar :=
  match names r !! name with
  | None => r
  | Some key =>
      let l := remove_first name (idx_get r key) in
      (* the loop writes r.idx[key] only when it finds the name *)
      let idx1 := if decide (name ∈ idx_get r key) then <[key := l]> (idx r) else idx r in
      let names1 := delete name (names r) in
      let idx2 := if decide (length (default [] (idx1 !! key)) = 0)
                  then delete key idx1 else idx1 in
      mkRegistrar idx2 names1
  end.

Definition Delete (key : string) (r : Registrar) : Registrar :=
  mkRegistrar (delete key (idx r))
              (foldl (λ ns name, delete name ns) (names r) (idx_get r key)).

Definition GetNames (key : string) (r : Registrar) : outcome error (list string) :=
  match idx r !! key with
  | None => Err ErrNoSuchKey
  | Some ns => Ok ns
  end.

Definition Get (name : string) (r : Registrar) : outcome error string :=
  match names r !! name with
  | None => Err ErrNameNotReserved
  | Some key => Ok key
  end.

Definition GetAll (r : Registrar) : gmap string (list string) := idx r.

(** ** The invariant *)

(** [idx] and [names] are inverse to each other, no name is listed twice
    and no key is left with an empty list. *)
Record Inv (r : Registrar) : Prop := {
  inv_names : ∀ name key, names r !! name = Some key ↔ name ∈ idx_get r key;
  inv_NoDup : ∀ key l, idx r !! key = Some l → NoDup l;
  inv_nonempty : ∀ key l, idx r !! key = Some l → l ≠ [];
}.

Lemma foldl_delete_lookup (l : list string) (m : gmap string string) name :
  foldl (λ ns n, delete n ns) m l !! name = if decide (name ∈ l) then None else m !! name.
Proof.
  revert m. induction l as [|n l IH]; intros m; simpl; [done|].
  rewrite IH. rewrite lookup_delete.
  repeat case_decide; set_solver.
Qed.

Lemma idx_get_insert r k l key :
  idx_get (mkRegistrar (<[k:=l]> (idx r)) (names r)) key =
  if decide (k = key) then l else idx_get r key.
Proof. unfold idx_get; simpl. rewrite lookup_insert. by case_decide. Qed.

Lemma Inv_NoDup_get r key : Inv r → NoDup (idx_get r key).
Proof.
  intros Hr. unfold idx_get. destruct (idx r !! key) as [l|] eqn:E; simpl.
  - by eapply inv_NoDup.
  - constructor.
Qed.
#[export] Hint Resolve Inv_NoDup_get : dao.

Lemma Inv_New : Inv NewRegistrar.
Proof. split; simpl; set_solver. Qed.

Lemma Inv_Reserve name key r : Inv r → Inv (Reserve name key r).2.
Proof.
  intros Hr. unfold Reserve. destruct (names r !! name) as [k|] eqn:E; [by case_decide|].
  assert (Hn : ∀ k', name ∉ idx_get r k').
  { intros k' Hk'. apply (inv_names r Hr) in Hk'. congruence. }
  simpl. split; simpl.
  - intros n k. unfold idx_get at 1; simpl. rewrite !lookup_insert.
    pose proof (inv_names r Hr n k) as Hk. unfold idx_get in *.
    specialize (Hn k). repeat case_decide; simplify_eq/=; set_solver.
  - intros k l. rewrite lookup_insert. case_decide; intros ?; simplify_eq.
    + apply list.NoDup_app; split_and!; [by apply Inv_NoDup_get| |apply NoDup_singleton].
      set_solver.
    + by eapply inv_NoDup.
  - intros k l. rewrite lookup_insert. case_decide; intros ?; simplify_eq.
    + by destruct (idx_get r k).
    + by eapply inv_nonempty.
Qed.

(** What [Release] leaves when the name is reserved, in closed form. *)
Lemma Release_reserved name key r :
  Inv r → names r !! name = Some key →
  Release name r =
    let l := remove_first name (idx_get r key) in
    mkRegistrar (if decide (l = []) then delete key (idx r) else <[key := l]> (idx r))
                (delete name (names r)).
Proof.
  intros Hr E. unfold Release. rewrite E.
  rewrite (decide_True _ _ (proj1 (inv_names r Hr name key) E)). simpl.
  rewrite lookup_insert_eq. simpl. f_equal.
  destruct (remove_first name (idx_get r key)); simpl; repeat case_decide; try done.
  by rewrite delete_insert_eq.
Qed.

Lemma Inv_Release name r : Inv r → Inv (Release name r).
Proof.
  intros Hr. destruct (names r !! name) as [key|] eqn:E; cycle 1.
  { unfold Release. by rewrite E. }
  rewrite (Release_reserved name key r Hr E). simpl.
  pose proof (remove_first_elem name (idx_get r key)) as Hrm.
  pose proof (remove_first_NoDup name (idx_get r key) (Inv_NoDup_get r key Hr)) as Hnd.
  set (l := remove_first name (idx_get r key)) in *.
  assert (Hget : ∀ k, default [] ((if decide (l = []) then delete key (idx r)
                        else <[key:=l]> (idx r)) !! k) = if decide (key = k) then l else idx_get r k).
  { intros k. unfold idx_get. destruct (decide (l = [])) as [->|];
      rewrite ?lookup_delete, ?lookup_insert; by repeat case_decide. }
  split; simpl.
  - intros n k. unfold idx_get at 1. simpl. rewrite Hget, lookup_delete.
    pose proof (inv_names r Hr n k) as Hk.
    pose proof (inv_names r Hr name k) as Hname.
    specialize (Hrm n (Inv_NoDup_get r key Hr)).
    destruct (decide (name = n)) as [<-|]; destruct (decide (key = k)) as [<-|];
      naive_solver congruence.
  - intros k l'. case_decide; rewrite ?lookup_delete, ?lookup_insert;
      case_decide; intros ?; simplify_eq; try done; by eapply inv_NoDup.
  - intros k l'. case_decide; rewrite ?lookup_delete, ?lookup_insert;
      case_decide; intros ?; simplify_eq; try done; by eapply inv_nonempty.
Qed.

Lemma Delete_names key r name :
  Inv r → names (Delete key r) !! name =
          match names r !! name with
          | Some k => if decide (k = key) then None else Some k
          | None => None
          end.
Proof.
  intros Hr. simpl. rewrite foldl_delete_lookup.
  pose proof (inv_names r Hr name key) as Hk.
  destruct (names r !! name) as [k|]; repeat case_decide; naive_solver congruence.
Qed.

Lemma Inv_Delete key r : Inv r → Inv (Delete key r).
Proof.
  intros Hr. split.
  - intros n k. rewrite Delete_names by done. unfold idx_get; simpl.
    rewrite lookup_delete. pose proof (inv_names r Hr n k) as Hk. unfold idx_get in Hk.
    destruct (names r !! n) as [k'|]; repeat case_decide; simplify_eq/=; set_solver.
  - intros k l; simpl. rewrite lookup_delete_Some. intros [??]. by eapply inv_NoDup.
  - intros k l; simpl. rewrite lookup_delete_Some. intros [??]. by eapply inv_nonempty.
Qed.
#[export] Hint Resolve Inv_New Inv_Reserve Inv_Release Inv_Delete : dao.

(** ** Sequences of calls *)

Inductive call := CReserve (name key : string) | CRelease (name : string) | CDelete (key : string).

Definition exec (c : call) (r : Registrar) : option error * Registrar :=
  match c with
  | CReserve name key => Reserve name key r
  | CRelease name => (None, Release name r)
  | CDelete key => (None, Delete key r)
  end.

(** The specification: one finite map from a name to the key that owns it. *)
Definition spec_exec (c : call) (m : gmap string string) : option error * gmap string string :=
  match c with
  | CReserve name key =>
      match m !! name with
      | Some k => (if decide (k = key) then None else Some ErrNameReserved, m)
      | None => (None, <[name := key]> m)
      end
  | CRelease name => (None, delete name m)
  | CDelete key => (None, filter (λ kv, kv.2 ≠ key) m)
  end.

Fixpoint run {S} (f : call → S → option error * S) (cs : list call) (s : S) : list (option error) * S :=
  match cs with
  | [] => ([], s)
  | c :: cs' =>
      let '(e, s1) := f c s in
      let '(es, s2) := run f cs' s1 in (e :: es, s2)
  end.

Lemma exec_Inv c r : Inv r → Inv (exec c r).2.
Proof. destruct c; simpl; eauto with dao. Qed.

Lemma exec_refines c r :
  Inv r → spec_exec c (names r) = ((exec c r).1, names (exec c r).2).
Proof.
  intros Hr. destruct c as [name key|name|key]; simpl.
  - unfold Reserve. destruct (names r !! name) as [k|] eqn:E; [|done].
    by repeat case_decide.
  - destruct (names r !! name) as [key|] eqn:E.
    + by rewrite (Release_reserved name key).
    + unfold Release. rewrite E. by rewrite delete_id.
  - f_equal. apply map_eq. intros n.
    rewrite map_lookup_filter.
    change (foldl _ _ _) with (names (Delete key r)). rewrite Delete_names by done.
    destruct (names r !! n) as [k|]; simpl; [|done].
    destruct (decide (k = key)) as [->|Hne]; simpl.
    + by rewrite option_guard_False by naive_solver.
    + by rewrite option_guard_True.
Qed.

(** C8: every sequence of [Reserve], [Release] and
    [Delete] calls on a new registrar returns the results of, and leaves the
    name table of, the specification that is a single map from names to
    owners; and the two internal maps are inverse to each other afterwards,
    with no name listed twice and no key left with an empty list. *)
Theorem registrar_refines_name_map (cs : list call) :
  run spec_exec cs ∅ = ((run exec cs NewRegistrar).1, names (run exec cs NewRegistrar).2) ∧
  Inv (run exec cs NewRegistrar).2.
Proof.
  assert (H : ∀ r, Inv r →
    run spec_exec cs (names r) = ((run exec cs r).1, names (run exec cs r).2) ∧
    Inv (run exec cs r).2); [|exact (H NewRegistrar Inv_New)].
  induction cs as [|c cs IH]; intros r Hr; simpl; [done|].
  rewrite (exec_refines c r Hr).
  destruct (exec c r) as [e r1] eqn:Ec.
  pose proof (exec_Inv c r Hr) as Hr1. rewrite Ec in Hr1. simpl in *.
  destruct (IH r1 Hr1) as [-> HI]. by destruct (run exec cs r1).
Qed.
