(* ===== verification/RestartManager.v ===== *)
(** * restartmanager: when a container is restarted, and after which delay

    Models [src/restartmanager/restartmanager.go].  The manager's fields are
    a record; [ShouldRestart], [Cancel] and [SetPolicy] are functions on it.
    [ShouldRestart] starts a goroutine that sleeps for [rm.timeout] or until
    [rm.cancel] is closed: the goroutines are part of the world here
    ([waiter]), and the scheduler's choices are the labels of [step].  The
    restart policy is the engine-api's [container.RestartPolicy].

    Durations are [time.Duration] values: nanoseconds in an [int64]. *)

From S2P Require Import Prelude.
Local Open Scope Z_scope.

Record RestartPolicy := mkPolicy { Name : string; MaximumRetryCount : Z }.

Definition IsNone (p : RestartPolicy) : bool :=
  bool_decide (Name p = "no") || bool_decide (Name p = "").
Definition IsAlways (p : RestartPolicy) : bool := bool_decide (Name p = "always").
Definition IsOnFailure (p : RestartPolicy) : bool := bool_decide (Name p = "on-failure").
Definition IsUnlessStopped (p : RestartPolicy) : bool := bool_decide (Name p = "unless-stopped").

Definition backoffMultiplier : Z := 2.
Definition defaultTimeout : Z := 100 * 10 ^ 6.
Definition second : Z := 10 ^ 9.

Record restartManager := mkRM {
  policy : RestartPolicy;
  restartCount : Z;
  timeout : Z;
  active : bool;
  cancel : bool;      (* the channel rm.cancel is closed *)
  canceled : bool;
  once : bool;        (* the embedded sync.Once has run *)
}.

Inductive error := ErrRestartCanceled | ErrActive.

Definition New (p : RestartPolicy) (count : Z) : restartManager :=
  mkRM p count 0 false false false false.

Definition SetPolicy (p : RestartPolicy) (rm : restartManager) : restartManager :=
  mkRM p (restartCount rm) (timeout rm) (active rm) (cancel rm) (canceled rm) (once rm).

(** The timeout after lines 70-77.  [executionDuration.Seconds() >= 10] holds
    exactly of the durations of at least ten seconds. *)
Definition next_timeout (executionDuration t : Z) : Z :=
  let t := if bool_decide (10 * second ≤ executionDuration) then 0 else t in
  if bool_decide (t = 0) then defaultTimeout else wrap64 (t * backoffMultiplier).

(** The switch of lines 79-90. *)
Definition policy_restarts (rm : restartManager) (exitCode : Z) (hasBeenManuallyStopped : bool) : bool :=
  if IsAlways (policy rm) then true
  else if IsUnlessStopped (policy rm) && negb hasBeenManuallyStopped then true
  else if IsOnFailure (policy rm) then
    let max := MaximumRetryCount (policy rm) in
    if bool_decide (max = 0) || bool_decide (restartCount rm < max)
    then bool_decide (exitCode ≠ 0) else false
  else false.

(** The three results of [ShouldRestart]: an error, [false, nil, nil], or
    [true] with the channel of a new goroutine that sleeps for [d]. *)
Inductive verdict := Refused (e : error) | NoRestart | Restart (d : Z).

Definition ShouldRestart (exitCode : Z) (hasBeenManuallyStopped : bool)
    (executionDuration : Z) (rm : restartManager) : verdict * restartManager :=
  if IsNone (policy rm) then (NoRestart, rm)
  else if canceled rm then (Refused ErrRestartCanceled, rm)
  else if active rm then (Refused ErrActive, rm)
  else
    let t := next_timeout executionDuration (timeout rm) in
    if policy_restarts rm exitCode hasBeenManuallyStopped then
      (Restart t,
       mkRM (policy rm) (restartCount rm + 1) t true (cancel rm) (canceled rm) (once rm))
    else
      (NoRestart,
       mkRM (policy rm) (restartCount rm) t false (cancel rm) (canceled rm) (once rm)).

Definition Cancel (rm : restartManager) : restartManager :=
  if once rm then rm
  else mkRM (policy rm) (restartCount rm) (timeout rm) (active rm) true true true.

(** ** Goroutines *)

Inductive waiter_status := Sleeping | Fired | SentCanceled.
#[global] Instance waiter_status_eq_dec : EqDecision waiter_status.
Proof. solve_decision. Defined.

Record waiter := mkWaiter { delay : Z; status : waiter_status }.

Record world := mkWorld { rm : restartManager; waiters : list waiter }.

Inductive label :=
| LShouldRestart (exitCode : Z) (manuallyStopped : bool) (duration : Z)
| LTimer (i : nat)        (* time.After fires in goroutine i (lines 109-113) *)
| LCanceled (i : nat)     (* goroutine i receives from rm.cancel (lines 106-108) *)
| LCancel
| LSetPolicy (p : RestartPolicy).

Definition with_active (b : bool) (rm : restartManager) : restartManager :=
  mkRM (policy rm) (restartCount rm) (timeout rm) b (cancel rm) (canceled rm) (once rm).

(** One step, with the verdict when the step is a call; [None] when the label
    is not enabled. *)
Definition step (l : label) (w : world) : option (option verdict * world) :=
  match l with
  | LShouldRestart ec ms d =>
      let '(v, rm') := ShouldRestart ec ms d (rm w) in
      Some (Some v, mkWorld rm' match v with
                                | Restart t => waiters w ++ [mkWaiter t Sleeping]
                                | _ => waiters w
                                end)
  | LTimer i =>
      match waiters w !! i with
      | Some (mkWaiter d Sleeping) =>
          Some (None, mkWorld (with_active false (rm w)) (<[i := mkWaiter d Fired]> (waiters w)))
      | _ => None
      end
  | LCanceled i =>
      match waiters w !! i with
      | Some (mkWaiter d Sleeping) =>
          if cancel (rm w) then
            Some (None, mkWorld (rm w) (<[i := mkWaiter d SentCanceled]> (waiters w)))
          else None
      | _ => None
      end
  | LCancel => Some (None, mkWorld (Cancel (rm w)) (waiters w))
  | LSetPolicy p => Some (None, mkWorld (SetPolicy p (rm w)) (waiters w))
  end.

(** A run: the labels taken and the verdicts of the calls among them. *)
Inductive runs : world → list label → list verdict → world → Prop :=
| runs_nil w : runs w [] [] w
| runs_cons w l ov w1 ls vs w2 :
    step l w = Some (ov, w1) → runs w1 ls vs w2 →
    runs w (l :: ls) (option_list ov ++ vs) w2.

Definition init (p : RestartPolicy) (count : Z) : world := mkWorld (New p count) [].

Definition sleeping (ws : list waiter) : list waiter := filter (λ w, status w = Sleeping) ws.
Definition is_restart (v : verdict) : bool := match v with Restart _ => true | _ => false end.
Definition granted (vs : list verdict) : Z :=
  Z.of_nat (length (filter (λ v, is_restart v = true) vs)).

(** ** Invariants *)

(** Every sleeping goroutine is announced by [active]; there is at most one;
    the closed channel, the flag and the [Once] agree. *)
Record Inv (w : world) : Prop := {
  inv_active : active (rm w) = false → sleeping (waiters w) = [];
  inv_one : (length (sleeping (waiters w)) ≤ 1)%nat;
  inv_cancel : canceled (rm w) = cancel (rm w) ∧ once (rm w) = cancel (rm w);
}.

Lemma sleeping_snoc ws d : sleeping (ws ++ [mkWaiter d Sleeping]) = sleeping ws ++ [mkWaiter d Sleeping].
Proof. unfold sleeping. rewrite filter_app. by rewrite filter_cons_True. Qed.

(** Waking goroutine [i] removes it from the sleeping ones. *)
Lemma sleeping_wake ws i d st :
  ws !! i = Some (mkWaiter d Sleeping) → st ≠ Sleeping →
  length (sleeping ws) = S (length (sleeping (<[i := mkWaiter d st]> ws))).
Proof.
  intros Hi Hst. pose proof (lookup_lt_Some _ _ _ Hi).
  rewrite <-(take_drop_middle ws i _ Hi) at 1.
  rewrite insert_take_drop by done. unfold sleeping.
  rewrite !filter_app, filter_cons_True, filter_cons_False by done.
  rewrite !length_app. simpl. lia.
Qed.

Lemma step_Inv l w ov w' : Inv w → step l w = Some (ov, w') → Inv w'.
Proof.
  intros [Ha Ho Hc] Hs. destruct l as [ec ms d|i|i| |p]; simpl in Hs.
  - unfold ShouldRestart in Hs.
    destruct (IsNone (policy (rm w))); [by simplify_eq|].
    destruct (canceled (rm w)) eqn:Ecan; [by simplify_eq; split; simpl; rewrite ?Ecan|].
    destruct (active (rm w)) eqn:Eact; [by simplify_eq; split; simpl; rewrite ?Ecan, ?Eact|].
    specialize (Ha eq_refl).
    destruct (policy_restarts (rm w) ec ms); simplify_eq; split; simpl; auto; try done.
    rewrite sleeping_snoc, Ha. simpl. lia.
  - destruct (waiters w !! i) as [[d []]|] eqn:Hi; simplify_eq.
    pose proof (sleeping_wake _ _ _ Fired Hi ltac:(done)) as Hw.
    split; simpl; [|lia|done].
    intros _. apply nil_length_inv. lia.
  - destruct (waiters w !! i) as [[d []]|] eqn:Hi; simplify_eq.
    destruct (cancel (rm w)) eqn:Ecan; simplify_eq.
    pose proof (sleeping_wake _ _ _ SentCanceled Hi ltac:(done)) as Hw.
    split; simpl; [|lia|by rewrite Ecan].
    intros Hact. apply Ha in Hact. rewrite Hact in Hw. simpl in Hw. lia.
  - simplify_eq. unfold Cancel. destruct (once (rm w)) eqn:Eo; split; simpl; auto.
    by rewrite Eo.
  - simplify_eq. by split.
Qed.

Lemma runs_Inv w ls vs w' : Inv w → runs w ls vs w' → Inv w'.
Proof. intros H. induction 1; eauto using step_Inv. Qed.

Lemma Inv_init p count : Inv (init p count).
Proof. split; simpl; auto. Qed.
#[export] Hint Resolve Inv_init step_Inv runs_Inv : dao.

(** C16: in every reachable world at most one restart is pending: at most one
    goroutine is asleep, and while one is asleep the manager is active, so
    that a further [ShouldRestart] starts no second one. *)
Theorem at_most_one_pending_restart p count ls vs w :
  runs (init p count) ls vs w →
  (length (sleeping (waiters w)) ≤ 1)%nat ∧
  (sleeping (waiters w) ≠ [] → active (rm w) = true).
Proof.
  intros Hr. pose proof (runs_Inv _ _ _ _ (Inv_init p count) Hr) as HI.
  split; [apply HI|]. intros Hne. destruct (active (rm w)) eqn:E; [done|].
  by apply (inv_active w HI) in E.
Qed.

Lemma at_most_one_pending_restart_witness :
  (length (sleeping (waiters (mkWorld (mkRM (mkPolicy "always" 0) 1 defaultTimeout true false false false)
     [mkWaiter defaultTimeout Sleeping]))) ≤ 1)%nat.
Proof.
  refine (proj1 (at_most_one_pending_restart (mkPolicy "always" 0) 0
    [LShouldRestart 1 false 0; LShouldRestart 1 false 0] [Restart defaultTimeout; Refused ErrActive] _ _)).
  eapply (runs_cons _ _ (Some _)); [vm_compute; reflexivity|].
  eapply (runs_cons _ _ (Some _)); [vm_compute; reflexivity|]. constructor.
Defined.

(** ** Cancellation *)

Lemma step_canceled l w ov w' :
  canceled (rm w) = true → step l w = Some (ov, w') →
  canceled (rm w') = true ∧ (∀ v, ov = Some v → is_restart v = false).
Proof.
  intros Hc Hs. destruct l as [ec ms d|i|i| |p]; simpl in Hs.
  - unfold ShouldRestart in Hs. rewrite Hc in Hs.
    destruct (IsNone (policy (rm w))); simplify_eq/=; naive_solver.
  - destruct (waiters w !! i) as [[d []]|]; simplify_eq/=. naive_solver.
  - destruct (waiters w !! i) as [[d []]|]; simplify_eq/=.
    destruct (cancel (rm w)); simplify_eq/=. naive_solver.
  - unfold Cancel in Hs. destruct (once (rm w)); simplify_eq/=; naive_solver.
  - simplify_eq/=. naive_solver.
Qed.

(** Once [Cancel] has run, no call of [ShouldRestart] grants a restart,
    whatever is called and scheduled afterwards (also after [SetPolicy]). *)
Theorem no_restart_after_cancel p count ls0 vs0 w ls vs w' :
  runs (init p count) ls0 vs0 w →
  runs (mkWorld (Cancel (rm w)) (waiters w)) ls vs w' →
  Forall (λ v, is_restart v = false) vs.
Proof.
  intros Hr0. pose proof (runs_Inv _ _ _ _ (Inv_init p count) Hr0) as HI.
  assert (Hc : canceled (rm (mkWorld (Cancel (rm w)) (waiters w))) = true).
  { simpl. unfold Cancel. destruct (inv_cancel w HI) as [Hc Ho].
    destruct (once (rm w)) eqn:E; [|done]. congruence. }
  clear Hr0 HI. induction 1 as [|w0 l ov w1 ls vs w2 Hs Hr IH]; [constructor|].
  destruct (step_canceled _ _ _ _ Hc Hs) as [Hc1 Hv].
  apply Forall_app. split; [|by apply IH].
  destruct ov as [v|]; simpl; [|constructor]. constructor; [by apply Hv|constructor].
Qed.

Lemma no_restart_after_cancel_witness :
  Forall (λ v, is_restart v = false) [Refused ErrRestartCanceled].
Proof.
  eapply (no_restart_after_cancel (mkPolicy "always" 0) 0 [] [] _ [LShouldRestart 1 false 0]).
  - constructor.
  - eapply (runs_cons _ _ (Some (Refused ErrRestartCanceled)) _ [] []); [vm_compute; reflexivity|].
    constructor.
Defined.

(** ** Retry limit *)

Definition not_SetPolicy (l : label) : Prop := match l with LSetPolicy _ => False | _ => True end.

Lemma step_on_failure l w ov w' m :
  policy (rm w) = mkPolicy "on-failure" m → m ≠ 0 → not_SetPolicy l →
  step l w = Some (ov, w') →
  policy (rm w') = mkPolicy "on-failure" m ∧
  restartCount (rm w') = restartCount (rm w) + granted (option_list ov) ∧
  (granted (option_list ov) = 0 ∨ restartCount (rm w) < m ∧ granted (option_list ov) = 1).
Proof.
  intros Hp Hm Hl Hs.
  assert (Hquiet : ∀ rm', policy rm' = policy (rm w) → restartCount rm' = restartCount (rm w) →
    granted (option_list ov) = 0 →
    policy rm' = mkPolicy "on-failure" m ∧
    restartCount rm' = restartCount (rm w) + granted (option_list ov) ∧
    (granted (option_list ov) = 0 ∨ restartCount (rm w) < m ∧ granted (option_list ov) = 1)).
  { intros rm' -> -> ->. split_and!; [done|lia|by left]. }
  destruct l as [ec ms d|i|i| |p]; simpl in Hs; [..|done].
  - unfold ShouldRestart in Hs.
    destruct (IsNone (policy (rm w))) eqn:E; [by rewrite Hp in E|].
    destruct (canceled (rm w)); [by simplify_eq; apply Hquiet|].
    destruct (active (rm w)); [by simplify_eq; apply Hquiet|].
    destruct (policy_restarts (rm w) ec ms) eqn:Er; simplify_eq; [|by apply Hquiet].
    split_and!; [done..|]. right. split; [|done].
    unfold policy_restarts in Er. rewrite Hp in Er. simpl in Er.
    rewrite (bool_decide_false (m = 0)) in Er by done. simpl in Er.
    by destruct (bool_decide_reflect (restartCount (rm w) < m)).
  - destruct (waiters w !! i) as [[d []]|]; simplify_eq. by apply Hquiet.
  - destruct (waiters w !! i) as [[d []]|]; simplify_eq.
    destruct (cancel (rm w)); simplify_eq. by apply Hquiet.
  - simplify_eq. unfold Cancel. destruct (once (rm w)); by apply Hquiet.
Qed.

Lemma granted_app vs1 vs2 : granted (vs1 ++ vs2) = granted vs1 + granted vs2.
Proof. unfold granted. rewrite filter_app, length_app. lia. Qed.

(** Under the policy [on-failure:m] with [m <> 0], a manager created with
    restart count [count <= m] grants at most [m - count] restarts over its
    whole life, in every interleaving of calls, timers and cancellation (as
    long as the policy is not replaced). *)
Theorem on_failure_retry_limit m count ls vs w :
  m ≠ 0 → count ≤ m → Forall not_SetPolicy ls →
  runs (init (mkPolicy "on-failure" m) count) ls vs w →
  granted vs ≤ m - count.
Proof.
  intros Hm Hcm Hls Hr.
  assert (H : ∀ w0, policy (rm w0) = mkPolicy "on-failure" m → restartCount (rm w0) ≤ m →
    runs w0 ls vs w → granted vs ≤ m - restartCount (rm w0)).
  { clear Hr. intros w0 Hp Hc Hr. revert Hls Hp Hc.
    induction Hr as [w0|w0 l ov w1 ls vs w2 Hs Hr IH]; intros Hls Hp Hc.
    - unfold granted; simpl; lia.
    - inversion_clear Hls as [|? ? Hl Hls'].
      destruct (step_on_failure _ _ _ _ m Hp Hm Hl Hs) as (Hp1 & Hc1 & Hg).
      rewrite granted_app. specialize (IH Hls' Hp1). lia. }
  apply (H (init (mkPolicy "on-failure" m) count)); simpl; auto.
Qed.

Lemma on_failure_retry_limit_witness :
  granted [Restart defaultTimeout; NoRestart] ≤ 1 - 0.
Proof.
  eapply (on_failure_retry_limit 1 0 [LShouldRestart 7 false 0; LTimer 0; LShouldRestart 7 false 0]);
    [done|lia|repeat constructor|].
  eapply (runs_cons _ _ (Some (Restart _)) _ _ [NoRestart]); [vm_compute; reflexivity|].
  eapply (runs_cons _ _ None); [vm_compute; reflexivity|].
  eapply (runs_cons _ _ (Some NoRestart) _ [] []); [vm_compute; reflexivity|]. constructor.
Defined.

(** ** Back-off *)

(** The delays of [n] consecutive restarts of a container that exits within
    ten seconds each time, from a manager whose timeout is [t]. *)
Fixpoint quick_restarts (n : nat) (d t : Z) : Z :=
  match n with
  | O => t
  | S n' => next_timeout d (quick_restarts n' d t)
  end.

(** The delay before the [k]-th consecutive quick restart is
    [100ms * 2^(k-1)]: for [k <= 37] the doubling stays inside [int64] (the
    38th doubling would not), and a run of ten seconds or more brings the
    next delay back to 100ms whatever it was. *)
Theorem backoff_doubles_and_resets k d :
  (1 ≤ k ≤ 37)%nat → d < 10 * second →
  quick_restarts k d 0 = defaultTimeout * 2 ^ (Z.of_nat k - 1) ∧
  in_int64 (defaultTimeout * 2 ^ (Z.of_nat k - 1)) ∧
  (∀ d' t, 10 * second ≤ d' → next_timeout d' t = defaultTimeout).
Proof.
  intros Hk Hd.
  assert (Hb : ∀ j, (1 ≤ j ≤ 37)%nat → 0 < defaultTimeout * 2 ^ (Z.of_nat j - 1) < 2 ^ 63).
  { intros j Hj. assert (0 < 2 ^ (Z.of_nat j - 1) ≤ 2 ^ 36).
    { split; [apply Z.pow_pos_nonneg; lia|apply Z.pow_le_mono_r; lia]. }
    unfold defaultTimeout. lia. }
  split_and!.
  - destruct Hk as [Hk1 Hk2]. revert Hk2. induction Hk1 as [|k Hk1 IH]; intros Hk2.
    + cbn [quick_restarts]. unfold next_timeout.
      by rewrite (bool_decide_false (10 * second ≤ d)) by lia.
    + change (quick_restarts (S k) d 0) with (next_timeout d (quick_restarts k d 0)).
      rewrite IH by lia. unfold next_timeout.
      rewrite (bool_decide_false (10 * second ≤ d)) by lia.
      pose proof (Hb k ltac:(lia)). pose proof (Hb (S k) ltac:(lia)) as HbS.
      rewrite bool_decide_false by lia. unfold backoffMultiplier.
      replace (defaultTimeout * 2 ^ (Z.of_nat k - 1) * 2)
        with (defaultTimeout * 2 ^ (Z.of_nat (S k) - 1)).
      * apply wrap64_id. unfold in_int64. lia.
      * replace (Z.of_nat (S k) - 1) with (Z.succ (Z.of_nat k - 1)) by lia.
        rewrite Z.pow_succ_r by lia. ring.
  - pose proof (Hb k Hk). unfold in_int64. lia.
  - intros d' t Hd'. unfold next_timeout. by rewrite (bool_decide_true (10 * second ≤ d')) by done.
Qed.

Lemma backoff_doubles_and_resets_witness : quick_restarts 4 0 0 = 800 * 10 ^ 6.
Proof.
  rewrite (proj1 (backoff_doubles_and_resets 4 0 ltac:(lia) ltac:(vm_compute; reflexivity))).
  reflexivity.
Defined.
