(* ===== verification/ContainerState.v ===== *)
(** * container.State, its health checks, and the daemon's state machine

    Models [src/container/state.go], [src/container/state_unix.go],
    [src/container/health.go], [src/daemon/health.go],
    [src/daemon/monitor.go] ([StateChanged]), [src/daemon/pause.go] and
    [src/daemon/unpause.go], on Linux.

    A wait channel is a number; [chans] records the channels made and the
    ones closed, so that closing a channel twice, which panics in Go, is
    visible.  Instants are integers, [0] being the zero [time.Time].  The
    streams, the log driver, the network and the mounts a container also has
    are not part of the model; writing the container to disk may fail, which
    is an argument of the handlers ([todisk]). *)

From S2P Require Import Prelude.
Local Open Scope Z_scope.

(** ** Health *)

Definition Starting : string := "starting".
Definition Healthy : string := "healthy".
Definition Unhealthy : string := "unhealthy".

Record HealthcheckResult := mkResult { ResExitCode : Z; Output : string }.

Record Health := mkHealth {
  Status : string;
  FailingStreak : Z;
  Log : list HealthcheckResult;
  stop : bool;              (* the monitor channel is not nil *)
}.

Definition Health_String (h : Health) : string :=
  if negb (stop h) then Unhealthy
  else if bool_decide (Status h = Starting) then "health: starting" else Status h.

(** The boolean says that a new channel was made, and a monitor is to be
    started on it. *)
Definition OpenMonitorChannel (h : Health) : bool * Health :=
  if negb (stop h) then (true, mkHealth (Status h) (FailingStreak h) (Log h) true) else (false, h).

Definition CloseMonitorChannel (h : Health) : Health :=
  if stop h then mkHealth (Status h) (FailingStreak h) (Log h) false else h.

(** ** State *)

Record State := mkState {
  Running : bool;
  Paused : bool;
  Restarting : bool;
  OOMKilled : bool;
  RemovalInProgress : bool;
  Dead : bool;
  Pid : Z;
  exitCode : Z;
  error : string;
  StartedAt : Z;
  FinishedAt : Z;
  waitChan : nat;
  health : option Health;
}.

(** The channels of the process: [made] have been created, numbered from 0. *)
Record chans := mkChans { made : nat; closed : gset nat }.

Record ExitStatus := mkExit { ES_ExitCode : Z; ES_OOMKilled : bool }.

(** A computation on a state and the channels; [Panic] is the run-time panic
    of closing a closed channel. *)
Definition S_op := (State * chans) → outcome string unit * (State * chans).

Definition NewState (ch : chans) : State * chans :=
  (mkState false false false false false false 0 0 "" 0 0 (made ch) None,
   mkChans (S (made ch)) (closed ch)).

Section strings.
(** [units.HumanDuration] and the decimal printer of an [int]. *)
Variables (HumanDuration : Z → string) (itoa : Z → string).

Definition State_String (now : Z) (s : State) : string :=
  if Running s then
    if Paused s then "Up " +:+ HumanDuration (now - StartedAt s) +:+ " (Paused)"
    else if Restarting s then
      "Restarting (" +:+ itoa (exitCode s) +:+ ") " +:+ HumanDuration (now - FinishedAt s) +:+ " ago"
    else match health s with
         | Some h => "Up " +:+ HumanDuration (now - StartedAt s) +:+ " (" +:+ Health_String h +:+ ")"
         | None => "Up " +:+ HumanDuration (now - StartedAt s)
         end
  else if RemovalInProgress s then "Removal In Progress"
  else if Dead s then "Dead"
  else if bool_decide (StartedAt s = 0) then "Created"
  else if bool_decide (FinishedAt s = 0) then ""
  else "Exited (" +:+ itoa (exitCode s) +:+ ") " +:+ HumanDuration (now - FinishedAt s) +:+ " ago".
End strings.

Definition StateString (s : State) : string :=
  if Running s then
    if Paused s then "paused" else if Restarting s then "restarting" else "running"
  else if Dead s then "dead"
  else if bool_decide (StartedAt s = 0) then "created"
  else "exited".

Definition IsValidStateString (s : string) : bool :=
  if bool_decide (s ≠ "paused") && bool_decide (s ≠ "restarting") && bool_decide (s ≠ "running")
     && bool_decide (s ≠ "dead") && bool_decide (s ≠ "created") && bool_decide (s ≠ "exited")
  then false else true.

Definition setFromExitStatus (e : ExitStatus) (s : State) : State :=
  mkState (Running s) (Paused s) (Restarting s) (ES_OOMKilled e) (RemovalInProgress s) (Dead s)
    (Pid s) (ES_ExitCode e) (error s) (StartedAt s) (FinishedAt s) (waitChan s) (health s).

Definition SetRunning (now pid : Z) (initial : bool) (s : State) : State :=
  mkState true false false (OOMKilled s) (RemovalInProgress s) (Dead s) pid 0 ""
    (if initial then now else StartedAt s) (FinishedAt s) (waitChan s) (health s).

(** [close(s.waitChan); s.waitChan = make(chan struct{})]. *)
Definition fire_waiters (sc : State * chans) : outcome string unit * (State * chans) :=
  let '(s, ch) := sc in
  if decide (waitChan s ∈ closed ch) then (Panic "close of closed channel", sc)
  else
    (Ok tt,
     (mkState (Running s) (Paused s) (Restarting s) (OOMKilled s) (RemovalInProgress s) (Dead s)
        (Pid s) (exitCode s) (error s) (StartedAt s) (FinishedAt s) (made ch) (health s),
      mkChans (S (made ch)) ({[waitChan s]} ∪ closed ch))).

Definition SetStopped (now : Z) (e : ExitStatus) : S_op := λ '(s, ch),
  let s1 := mkState false false false (OOMKilled s) (RemovalInProgress s) (Dead s) 0
              (exitCode s) (error s) (StartedAt s) now (waitChan s) (health s) in
  fire_waiters (setFromExitStatus e s1, ch).

Definition SetRestarting (now : Z) (e : ExitStatus) : S_op := λ '(s, ch),
  let s1 := mkState true (Paused s) true (OOMKilled s) (RemovalInProgress s) (Dead s) 0
              (exitCode s) (error s) (StartedAt s) now (waitChan s) (health s) in
  fire_waiters (setFromExitStatus e s1, ch).

Definition SetError (e : string) (s : State) : State :=
  mkState (Running s) (Paused s) (Restarting s) (OOMKilled s) (RemovalInProgress s) (Dead s)
    (Pid s) (exitCode s) e (StartedAt s) (FinishedAt s) (waitChan s) (health s).

Definition SetExitCode (ec : Z) (s : State) : State :=
  mkState (Running s) (Paused s) (Restarting s) (OOMKilled s) (RemovalInProgress s) (Dead s)
    (Pid s) ec (error s) (StartedAt s) (FinishedAt s) (waitChan s) (health s).

(** The boolean is the result: the container was already in that state. *)
Definition SetRemovalInProgress (s : State) : bool * State :=
  if RemovalInProgress s then (true, s)
  else (false, mkState (Running s) (Paused s) (Restarting s) (OOMKilled s) true (Dead s)
         (Pid s) (exitCode s) (error s) (StartedAt s) (FinishedAt s) (waitChan s) (health s)).

Definition ResetRemovalInProgress (s : State) : State :=
  mkState (Running s) (Paused s) (Restarting s) (OOMKilled s) false (Dead s)
    (Pid s) (exitCode s) (error s) (StartedAt s) (FinishedAt s) (waitChan s) (health s).

Definition SetDead (s : State) : State :=
  mkState (Running s) (Paused s) (Restarting s) (OOMKilled s) (RemovalInProgress s) true
    (Pid s) (exitCode s) (error s) (StartedAt s) (FinishedAt s) (waitChan s) (health s).

Definition set_paused (b : bool) (s : State) : State :=
  mkState (Running s) b (Restarting s) (OOMKilled s) (RemovalInProgress s) (Dead s)
    (Pid s) (exitCode s) (error s) (StartedAt s) (FinishedAt s) (waitChan s) (health s).

Definition set_health (h : option Health) (s : State) : State :=
  mkState (Running s) (Paused s) (Restarting s) (OOMKilled s) (RemovalInProgress s) (Dead s)
    (Pid s) (exitCode s) (error s) (StartedAt s) (FinishedAt s) (waitChan s) h.

(** [WaitStop] up to the point where it blocks: it returns the exit code at
    once, or waits on a channel. *)
Definition WaitStop_begin (s : State) : Z + nat :=
  if negb (Running s) then inl (exitCode s) else inr (waitChan s).

(** The results [wait] and the rest of [WaitStop] can produce when the waiter
    is scheduled ([select] picks any ready case); none while it stays blocked.
    A negative timeout waits for the channel alone. *)
Definition WaitStop_end (waited : nat) (timeout : Z) (expired : bool) (s : State) (ch : chans)
    : list (outcome string Z) :=
  (if bool_decide (waited ∈ closed ch) then [Ok (exitCode s)] else []) ++
  (if bool_decide (timeout < 0) then [] else if expired then [Err "Timed out"] else []).

(** ** The daemon's view of one container *)

(** [Config.Healthcheck]: [None] when it is nil. *)
Record HealthConfig := mkHC { Test : list string; Retries : Z }.

Record execConfig := mkExec { ExecRunning : bool; ExecExitCode : option Z }.

Record Container := mkContainer {
  ID : string;
  state : State;
  RestartCount : Z;
  HasBeenManuallyStopped : bool;
  Healthcheck : option HealthConfig;
  ExecCommands : gmap string execConfig;
  monitors : nat;             (* running health monitor goroutines *)
  events : list string;       (* what LogContainerEvent was called with *)
}.

Definition with_state (s : State) (c : Container) : Container :=
  mkContainer (ID c) s (RestartCount c) (HasBeenManuallyStopped c) (Healthcheck c)
    (ExecCommands c) (monitors c) (events c).

Definition with_monitors (n : nat) (c : Container) : Container :=
  mkContainer (ID c) (state c) (RestartCount c) (HasBeenManuallyStopped c) (Healthcheck c)
    (ExecCommands c) n (events c).

Definition LogContainerEvent (e : string) (c : Container) : Container :=
  mkContainer (ID c) (state c) (RestartCount c) (HasBeenManuallyStopped c) (Healthcheck c)
    (ExecCommands c) (monitors c) (events c ++ [e]).

(** [getProbe(c) != nil]. *)
Definition getProbe (c : Container) : bool :=
  match Healthcheck c with
  | None => false
  | Some hc =>
      match Test hc with
      | [] => false
      | t :: _ => bool_decide (t = "CMD") || bool_decide (t = "CMD-SHELL")
      end
  end.

(** [go monitor(...)] adds a goroutine; writing to the stop channel returns
    when the goroutine has read it, which ends it. *)
Definition closeMonitor (h : Health) (c : Container) : Container :=
  with_monitors (if stop h then pred (monitors c) else monitors c)
    (with_state (set_health (Some (CloseMonitorChannel h)) (state c)) c).

Definition updateHealthMonitor (c : Container) : Container :=
  match health (state c) with
  | None => c
  | Some h =>
      let wantRunning := Running (state c) && negb (Paused (state c)) && getProbe c in
      if wantRunning then
        let '(opened, h') := OpenMonitorChannel h in
        with_monitors (if opened then S (monitors c) else monitors c)
          (with_state (set_health (Some h') (state c)) c)
      else closeMonitor h c
  end.

Definition stopHealthchecks (c : Container) : Container :=
  match health (state c) with
  | None => c
  | Some h => closeMonitor h c
  end.

Definition initHealthMonitor (c : Container) : Container :=
  if negb (getProbe c) then c
  else
    let c1 := stopHealthchecks c in
    let h' := match health (state c1) with
              | Some h => mkHealth Starting 0 (Log h) (stop h)
              | None => mkHealth Starting 0 [] false
              end in
    updateHealthMonitor (with_state (set_health (Some h') (state c1)) c1).

(** [defaultProbeRetries] and [maxLogEntries]. *)
Definition defaultProbeRetries : Z := 3.
Definition maxLogEntries : nat := 5.

(** [handleProbeResult]; the code reads [c.Config.Healthcheck] and
    [c.State.Health] without a nil check: a missing one is a nil
    dereference. *)
Definition probe_health (retries : Z) (r : HealthcheckResult) (h : Health) : Health :=
  let log := if decide (maxLogEntries ≤ length (Log h))%nat
             then drop (length (Log h) + 1 - maxLogEntries) (Log h) ++ [r]
             else Log h ++ [r] in
  if bool_decide (ResExitCode r = 0) then mkHealth Healthy 0 log (stop h)
  else
    let streak := FailingStreak h + 1 in
    mkHealth (if bool_decide (retries ≤ streak) then Unhealthy else Status h) streak log (stop h).

Definition effective_retries (hc : HealthConfig) : Z :=
  if bool_decide (Retries hc ≤ 0) then defaultProbeRetries else Retries hc.

Definition handleProbeResult (r : HealthcheckResult) (c : Container) : outcome string Container :=
  match Healthcheck c, health (state c) with
  | Some hc, Some h =>
      let h' := probe_health (effective_retries hc) r h in
      let c' := with_state (set_health (Some h') (state c)) c in
      Ok (if bool_decide (Status h ≠ Status h')
          then LogContainerEvent ("health_status: " +:+ Status h') c' else c')
  | _, _ => Panic "nil pointer dereference"
  end.

(** *** libcontainerd's events *)

Inductive StateKind :=
| StateOOM | StateExit | StateRestart | StateExitProcess
| StateStart | StateRestore | StatePause | StateResume
| StateOther.              (* start-process, live: no case of the switch *)

Record StateInfo := mkSI {
  SI_State : StateKind; SI_Pid : Z; SI_ExitCode : Z; SI_ProcessID : string; SI_OOMKilled : bool }.

Definition platformConstructExitStatus (e : StateInfo) : ExitStatus :=
  mkExit (SI_ExitCode e) (SI_OOMKilled e).

(** [daemon.Cleanup] as far as the modelled state goes: the exec commands are
    unregistered. *)
Definition Cleanup (c : Container) : Container :=
  mkContainer (ID c) (state c) (RestartCount c) (HasBeenManuallyStopped c) (Healthcheck c)
    ∅ (monitors c) (events c).

Definition on_state (f : S_op) (c : Container) (ch : chans) : outcome string Container * chans :=
  match f (state c, ch) with
  | (Ok _, (s', ch')) => (Ok (with_state s' c), ch')
  | (Err e, (_, ch')) => (Err e, ch')
  | (Panic m, (_, ch')) => (Panic m, ch')
  end.

(** [StateChanged] for a container that the daemon knows; [todisk] is the
    result of [c.ToDisk()].  The first component is the returned error. *)
Definition StateChanged (now : Z) (todisk : option string) (e : StateInfo) (c : Container) (ch : chans)
    : outcome string (option string * Container) * chans :=
  match SI_State e with
  | StateOOM => (Ok (None, LogContainerEvent "oom" (updateHealthMonitor c)), ch)
  | StateExit =>
      match on_state (SetStopped now (platformConstructExitStatus e)) c ch with
      | (Ok c1, ch') =>
          (Ok (todisk, Cleanup (LogContainerEvent "die" (updateHealthMonitor c1))), ch')
      | (Err x, ch') => (Err x, ch')
      | (Panic m, ch') => (Panic m, ch')
      end
  | StateRestart =>
      let c0 := mkContainer (ID c) (state c) (RestartCount c + 1) (HasBeenManuallyStopped c)
                  (Healthcheck c) (ExecCommands c) (monitors c) (events c) in
      match on_state (SetRestarting now (platformConstructExitStatus e)) c0 ch with
      | (Ok c1, ch') => (Ok (todisk, updateHealthMonitor (LogContainerEvent "die" c1)), ch')
      | (Err x, ch') => (Err x, ch')
      | (Panic m, ch') => (Panic m, ch')
      end
  | StateExitProcess =>
      (* the entry is removed from the container's store; the exec object
         itself (with its exit code) stays in the daemon's store *)
      (Ok (None, mkContainer (ID c) (state c) (RestartCount c) (HasBeenManuallyStopped c)
                   (Healthcheck c) (delete (SI_ProcessID e) (ExecCommands c)) (monitors c) (events c)), ch)
  | StateStart | StateRestore =>
      let initial := match SI_State e with StateStart => true | _ => false end in
      let s1 := SetRunning now (SI_Pid e) initial (state c) in
      let c1 := mkContainer (ID c) s1 (RestartCount c) false (Healthcheck c)
                  (ExecCommands c) (monitors c) (events c) in
      match todisk with
      | Some err => (Ok (Some err, c1), ch)
      | None => (Ok (None, LogContainerEvent "start" (initHealthMonitor c1)), ch)
      end
  | StatePause =>
      (Ok (None, LogContainerEvent "pause" (updateHealthMonitor (with_state (set_paused true (state c)) c))), ch)
  | StateResume =>
      (Ok (None, LogContainerEvent "unpause" (updateHealthMonitor (with_state (set_paused false (state c)) c))), ch)
  | StateOther => (Ok (None, c), ch)
  end.

(** *** Pausing *)

Inductive pause_error := errNotRunning | ErrAlreadyPaused | ErrNotPaused
                       | errContainerIsRestarting | ErrContainerd (e : string).

(** The guards of [containerPause] and [containerUnpause]; [None] means that
    containerd is asked, which answers with the [pause] or [resume] event. *)
Definition containerPause_guard (s : State) : option pause_error :=
  if negb (Running s) then Some errNotRunning
  else if Paused s then Some ErrAlreadyPaused
  else if Restarting s then Some errContainerIsRestarting
  else None.

Definition containerUnpause_guard (s : State) : option pause_error :=
  if negb (Running s) then Some errNotRunning
  else if negb (Paused s) then Some ErrNotPaused
  else None.

(** The requests, with the answer of containerd; a granted request changes
    nothing until the event arrives. *)
Definition containerPause (containerd : option string) (s : State) : option pause_error :=
  match containerPause_guard s with
  | Some e => Some e
  | None => ErrContainerd <$> containerd
  end.

Definition containerUnpause (containerd : option string) (s : State) : option pause_error :=
  match containerUnpause_guard s with
  | Some e => Some e
  | None => ErrContainerd <$> containerd
  end.

(** ** Reachable states *)

Record sys := mkSys { cont : Container; sch : chans }.

Definition boot (id : string) (hc : option HealthConfig) : sys :=
  let '(s, ch) := NewState (mkChans 0 ∅) in
  mkSys (mkContainer id s 0 false hc ∅ 0 []) ch.

(** What can happen to a container: an event of libcontainerd (a [pause] or
    [resume] event only as the answer to an accepted request), the result of
    a health probe, a removal in progress, its end, or its death, the error
    and exit code recorded by a failed start. *)
Inductive lstep : sys → sys → Prop :=
| lstep_event now td e c ch err c' ch' :
    SI_State e ≠ StatePause → SI_State e ≠ StateResume →
    StateChanged now td e c ch = (Ok (err, c'), ch') →
    lstep (mkSys c ch) (mkSys c' ch')
| lstep_pause now td e c ch err c' ch' :
    SI_State e = StatePause → containerPause None (state c) = None →
    StateChanged now td e c ch = (Ok (err, c'), ch') →
    lstep (mkSys c ch) (mkSys c' ch')
| lstep_resume now td e c ch err c' ch' :
    SI_State e = StateResume → containerUnpause None (state c) = None →
    StateChanged now td e c ch = (Ok (err, c'), ch') →
    lstep (mkSys c ch) (mkSys c' ch')
| lstep_probe r c ch c' :
    handleProbeResult r c = Ok c' → lstep (mkSys c ch) (mkSys c' ch)
| lstep_removal c ch : lstep (mkSys c ch) (mkSys (with_state (SetRemovalInProgress (state c)).2 c) ch)
| lstep_reset c ch : lstep (mkSys c ch) (mkSys (with_state (ResetRemovalInProgress (state c)) c) ch)
| lstep_dead c ch : lstep (mkSys c ch) (mkSys (with_state (SetDead (state c)) c) ch)
| lstep_error m ec c ch :
    lstep (mkSys c ch) (mkSys (with_state (SetExitCode ec (SetError m (state c))) c) ch)
| lstep_stop_probes c ch : lstep (mkSys c ch) (mkSys (stopHealthchecks c) ch).

(** The flags agree with each other, the wait channel is open, and there is
    exactly one health monitor when the health record has a stop channel. *)
Record flags_ok (s : State) : Prop := {
  fo_paused : Paused s = true → Running s = true;
  fo_restarting : Restarting s = true → Running s = true ∧ Pid s = 0;
  fo_stopped : Running s = false → Pid s = 0;
}.

Record chan_ok (s : State) (ch : chans) : Prop := {
  co_made : (waitChan s < made ch)%nat;
  co_open : waitChan s ∉ closed ch;
  co_closed : ∀ n, n ∈ closed ch → (n < made ch)%nat;
}.

Definition health_ok (c : Container) : Prop :=
  match health (state c) with
  | None => monitors c = 0%nat
  | Some h => monitors c = (if stop h then 1 else 0)%nat ∧ (length (Log h) ≤ maxLogEntries)%nat
  end.

Definition Inv (x : sys) : Prop :=
  flags_ok (state (cont x)) ∧ chan_ok (state (cont x)) (sch x) ∧ health_ok (cont x).

(** Setters of other fields keep the parts of the invariant they do not touch. *)
Lemma fire_waiters_ok s ch :
  chan_ok s ch → ∃ s' ch', fire_waiters (s, ch) = (Ok tt, (s', ch')) ∧ chan_ok s' ch' ∧
    waitChan s ∈ closed ch' ∧ closed ch ⊆ closed ch' ∧
    Running s' = Running s ∧ Paused s' = Paused s ∧ Restarting s' = Restarting s ∧
    Pid s' = Pid s ∧ health s' = health s.
Proof.
  intros [Hm Ho Hc]. unfold fire_waiters. rewrite decide_False by done.
  eexists _, _. split; [reflexivity|]. simpl. split_and!; auto; try set_solver.
  split; simpl.
  - lia.
  - intros [?%elem_of_singleton|?%Hc]%elem_of_union; lia.
  - intros n [->%elem_of_singleton|?%Hc]%elem_of_union; lia.
Qed.

(** The health functions touch only the health record and the monitors. *)
Definition same_but_health (c c' : Container) : Prop :=
  ∃ h, state c' = set_health h (state c) ∧ Healthcheck c' = Healthcheck c.

Lemma set_health_flags h s : flags_ok (set_health h s) ↔ flags_ok s.
Proof. split; intros [???]; by split. Qed.

Lemma set_health_chan h s ch : chan_ok (set_health h s) ch ↔ chan_ok s ch.
Proof. split; intros [???]; by split. Qed.

Lemma set_health_id s : set_health (health s) s = s.
Proof. by destruct s. Qed.

Lemma set_health_set_health h h' s : set_health h (set_health h' s) = set_health h s.
Proof. done. Qed.

Lemma closeMonitor_ok h c :
  health (state c) = Some h → health_ok c → health_ok (closeMonitor h c).
Proof.
  unfold health_ok. intros -> [Hm Hl]. simpl. unfold CloseMonitorChannel.
  destruct (stop h) eqn:E; simpl; rewrite ?E; split; try done; lia.
Qed.

Lemma updateHealthMonitor_ok c : health_ok c → health_ok (updateHealthMonitor c).
Proof.
  intros Hc. unfold updateHealthMonitor. destruct (health (state c)) as [h|] eqn:Eh; [|done].
  destruct (_ && _); [|by apply closeMonitor_ok].
  unfold health_ok in *. rewrite Eh in Hc. destruct Hc as [Hm Hl].
  unfold OpenMonitorChannel. destruct (stop h) eqn:E; simpl; rewrite ?E; split; try done; lia.
Qed.

Lemma updateHealthMonitor_same c : same_but_health c (updateHealthMonitor c).
Proof.
  unfold updateHealthMonitor, same_but_health, closeMonitor.
  destruct (health (state c)) as [h|] eqn:E.
  - destruct (_ && _); [destruct (OpenMonitorChannel h)|]; simpl; eauto.
  - exists (health (state c)). by rewrite set_health_id.
Qed.

Lemma stopHealthchecks_ok c : health_ok c → health_ok (stopHealthchecks c).
Proof.
  intros Hc. unfold stopHealthchecks. destruct (health (state c)) eqn:E; [|done].
  by apply closeMonitor_ok.
Qed.

Lemma stopHealthchecks_same c : same_but_health c (stopHealthchecks c).
Proof.
  unfold stopHealthchecks, same_but_health, closeMonitor.
  destruct (health (state c)) as [h|] eqn:E; simpl; eauto.
  exists (health (state c)). by rewrite set_health_id.
Qed.

Lemma initHealthMonitor_ok c : health_ok c → health_ok (initHealthMonitor c).
Proof.
  intros Hc. unfold initHealthMonitor. destruct (getProbe c); [|done]. simpl.
  apply updateHealthMonitor_ok. apply stopHealthchecks_ok in Hc.
  unfold health_ok in *. simpl.
  destruct (health (state (stopHealthchecks c))); simpl; [done|].
  split; [done|]. unfold maxLogEntries. lia.
Qed.

Lemma initHealthMonitor_same c : same_but_health c (initHealthMonitor c).
Proof.
  unfold initHealthMonitor. destruct (getProbe c); simpl.
  - destruct (stopHealthchecks_same c) as (h & Hs & Hh).
    destruct (updateHealthMonitor_same (with_state (set_health (Some
      match health (state (stopHealthchecks c)) with
      | Some h => mkHealth Starting 0 (Log h) (stop h)
      | None => mkHealth Starting 0 [] false
      end) (state (stopHealthchecks c))) (stopHealthchecks c))) as (h2 & Hs2 & Hh2).
    exists h2. rewrite Hs2, Hh2. simpl. by rewrite Hs.
  - exists (health (state c)). by rewrite set_health_id.
Qed.

(** The waiter's half of the invariant: a channel handed to a waiter of a
    running container is closed, or still the container's, which runs. *)
Definition waiter_ok (w : nat) (s : State) (ch : chans) : Prop :=
  w ∈ closed ch ∨ (waitChan s = w ∧ Running s = true).

Lemma Inv_same_but_health c c' ch :
  same_but_health c c' → flags_ok (state c) → chan_ok (state c) ch → health_ok c' →
  Inv (mkSys c' ch).
Proof.
  intros (h & Hs & _) Hf Hc Hh. split_and!; simpl; [..|done]; rewrite Hs.
  - by apply set_health_flags.
  - by apply set_health_chan.
Qed.

Lemma waiter_same_but_health w c c' ch :
  same_but_health c c' → waiter_ok w (state c) ch → waiter_ok w (state c') ch.
Proof. intros (h & Hs & _). unfold waiter_ok. by rewrite Hs. Qed.

Lemma SetStopped_ok now e s ch :
  flags_ok s → chan_ok s ch → ∃ s' ch',
    SetStopped now e (s, ch) = (Ok tt, (s', ch')) ∧ flags_ok s' ∧ chan_ok s' ch' ∧
    health s' = health s ∧ (∀ w, waiter_ok w s ch → waiter_ok w s' ch').
Proof.
  intros Hf Hc. unfold SetStopped.
  set (s1 := setFromExitStatus _ _).
  destruct (fire_waiters_ok s1 ch) as (s' & ch' & -> & Hc' & Hw & Hsub & Hr & Hp & Hre & Hpid & Hh).
  { by destruct Hc; split. }
  exists s', ch'. split_and!; auto.
  - split; rewrite ?Hr, ?Hp, ?Hre, ?Hpid; simpl; naive_solver.
  - intros w [?|[<- _]]; left; [set_solver|done].
Qed.

Lemma SetRestarting_ok now e s ch :
  flags_ok s → chan_ok s ch → ∃ s' ch',
    SetRestarting now e (s, ch) = (Ok tt, (s', ch')) ∧ flags_ok s' ∧ chan_ok s' ch' ∧
    health s' = health s ∧ (∀ w, waiter_ok w s ch → waiter_ok w s' ch').
Proof.
  intros Hf Hc. unfold SetRestarting.
  set (s1 := setFromExitStatus _ _).
  destruct (fire_waiters_ok s1 ch) as (s' & ch' & -> & Hc' & Hw & Hsub & Hr & Hp & Hre & Hpid & Hh).
  { by destruct Hc; split. }
  exists s', ch'. split_and!; auto.
  - split; rewrite ?Hr, ?Hp, ?Hre, ?Hpid; simpl; naive_solver.
  - intros w [?|[<- _]]; left; [set_solver|done].
Qed.

Lemma after_update c ch :
  flags_ok (state c) → chan_ok (state c) ch → health_ok c →
  Inv (mkSys (updateHealthMonitor c) ch) ∧
  ∀ w, waiter_ok w (state c) ch → waiter_ok w (state (updateHealthMonitor c)) ch.
Proof.
  intros Hf Hc Hh. pose proof (updateHealthMonitor_same c). split.
  - apply (Inv_same_but_health c); auto using updateHealthMonitor_ok.
  - intros w. by apply waiter_same_but_health.
Qed.

Lemma after_init c ch :
  flags_ok (state c) → chan_ok (state c) ch → health_ok c →
  Inv (mkSys (initHealthMonitor c) ch) ∧
  ∀ w, waiter_ok w (state c) ch → waiter_ok w (state (initHealthMonitor c)) ch.
Proof.
  intros Hf Hc Hh. pose proof (initHealthMonitor_same c). split.
  - apply (Inv_same_but_health c); auto using initHealthMonitor_ok.
  - intros w. by apply waiter_same_but_health.
Qed.

(** A handler that sets the state to [s'] (and the channels to [ch']) and then
    brings the health monitor up to date. *)
Lemma after_set c s' ch ch' :
  health s' = health (state c) → flags_ok s' → chan_ok s' ch' → health_ok c →
  (∀ w, waiter_ok w (state c) ch → waiter_ok w s' ch') →
  Inv (mkSys (updateHealthMonitor (with_state s' c)) ch') ∧
  (∀ w, waiter_ok w (state c) ch → waiter_ok w (state (updateHealthMonitor (with_state s' c))) ch').
Proof.
  intros Hh' Hf Hc Hh Hw.
  destruct (after_update (with_state s' c) ch') as [HI Hw']; auto.
  unfold health_ok in *; simpl. by rewrite Hh'.
Qed.

Lemma StateChanged_ok now td e c ch :
  Inv (mkSys c ch) → (SI_State e = StatePause → Running (state c) = true) →
  ∃ err c' ch', StateChanged now td e c ch = (Ok (err, c'), ch') ∧ Inv (mkSys c' ch') ∧
    (∀ w, waiter_ok w (state c) ch → waiter_ok w (state c') ch').
Proof.
  intros (Hf & Hc & Hh) Hp. simpl in *. unfold StateChanged, on_state. destruct (SI_State e) eqn:Ee.
  - eexists _, _, _. split; [reflexivity|]. by apply after_update.
  - destruct (SetStopped_ok now (platformConstructExitStatus e) _ _ Hf Hc)
      as (s' & ch' & -> & Hf' & Hc' & Hh' & Hw).
    eexists _, _, _. split; [reflexivity|]. by apply (after_set c s' ch ch').
  - cbn [state]. destruct (SetRestarting_ok now (platformConstructExitStatus e) _ _ Hf Hc)
      as (s' & ch' & -> & Hf' & Hc' & Hh' & Hw).
    eexists _, _, _. split; [reflexivity|].
    match goal with |- context [LogContainerEvent _ (with_state _ ?c0)] =>
      by apply (after_set (LogContainerEvent "die" c0) s' ch ch') end.
  - eexists _, _, _. by split; [reflexivity|].
  - destruct td; (eexists _, _, _; split; [reflexivity|]).
    + split; [|intros w [?|[??]]; [by left|by right]].
      split_and!; simpl; [by split|by destruct Hc; split|done].
    + match goal with |- context [initHealthMonitor ?c1] =>
        destruct (after_init c1 ch) as [HI Hw]; [by split|by destruct Hc; split|done|] end.
      split; [done|]. intros w [?|[??]]; apply Hw; [by left|by right].
  - destruct td; (eexists _, _, _; split; [reflexivity|]).
    + split; [|intros w [?|[??]]; [by left|by right]].
      split_and!; simpl; [by split|by destruct Hc; split|done].
    + match goal with |- context [initHealthMonitor ?c1] =>
        destruct (after_init c1 ch) as [HI Hw]; [by split|by destruct Hc; split|done|] end.
      split; [done|]. intros w [?|[??]]; apply Hw; [by left|by right].
  - eexists _, _, _. split; [reflexivity|].
    apply (after_set c (set_paused true (state c)) ch ch); auto.
    + by destruct Hf; split; simpl; auto.
    + by destruct Hc; split.
  - eexists _, _, _. split; [reflexivity|].
    apply (after_set c (set_paused false (state c)) ch ch); auto.
    + by destruct Hf; split; simpl; auto.
    + by destruct Hc; split.
  - eexists _, _, _. by split; [reflexivity|].
Qed.

Lemma probe_health_log retries r h :
  (length (Log h) ≤ maxLogEntries)%nat → (length (Log (probe_health retries r h)) ≤ maxLogEntries)%nat.
Proof.
  intros Hl. unfold probe_health, maxLogEntries in *.
  case_decide; case_bool_decide; simpl; rewrite length_app, ?length_drop; simpl; lia.
Qed.

Lemma lstep_Inv x y :
  lstep x y → Inv x → Inv y ∧ ∀ w, waiter_ok w (state (cont x)) (sch x) → waiter_ok w (state (cont y)) (sch y).
Proof.
  intros Hs Hx. pose proof Hx as (Hf & Hc & Hh).
  destruct Hs as [now td e c ch err c' ch' Hn1 Hn2 Hs|now td e c ch err c' ch' Hn1 Hg Hs
    |now td e c ch err c' ch' Hn1 Hg Hs|r c ch c' Hs|c ch|c ch|c ch|m ec c ch|c ch]; simpl in *.
  - destruct (StateChanged_ok now td e c ch Hx) as (? & ? & ? & Hs' & ?); [congruence|].
    rewrite Hs' in Hs. by simplify_eq.
  - destruct (StateChanged_ok now td e c ch Hx) as (? & ? & ? & Hs' & ?).
    { intros _. unfold containerPause, containerPause_guard in Hg. by destruct (Running (state c)). }
    rewrite Hs' in Hs. by simplify_eq.
  - destruct (StateChanged_ok now td e c ch Hx) as (? & ? & ? & Hs' & ?); [congruence|].
    rewrite Hs' in Hs. by simplify_eq.
  - unfold handleProbeResult in Hs. unfold Inv, health_ok in Hh |- *.
    destruct (Healthcheck c) as [hc|]; [|done]. destruct (health (state c)) as [h|] eqn:Eh; [|done].
    simplify_eq. destruct Hh as [Hm Hl].
    pose proof (probe_health_log (effective_retries hc) r h Hl).
    assert (stop (probe_health (effective_retries hc) r h) = stop h) as Hstop
      by (unfold probe_health; by case_bool_decide).
    case_bool_decide; simpl; rewrite Hstop; (split; [split_and!|]; auto);
      solve [by apply set_health_flags|by apply set_health_chan].
  - split; [|unfold SetRemovalInProgress; by destruct (RemovalInProgress (state c))].
    unfold SetRemovalInProgress. destruct (RemovalInProgress (state c)); [done|].
    split_and!; destruct Hf, Hc; solve [done|by split].
  - split; [|done]. split_and!; destruct Hf, Hc; solve [done|by split].
  - split; [|done]. split_and!; destruct Hf, Hc; solve [done|by split].
  - split; [|done]. split_and!; destruct Hf, Hc; solve [done|by split].
  - pose proof (stopHealthchecks_same c). split.
    + apply (Inv_same_but_health c); auto using stopHealthchecks_ok.
    + intros w. by apply waiter_same_but_health.
Qed.

Definition reachable (id : string) (hc : option HealthConfig) (x : sys) : Prop :=
  rtc lstep (boot id hc) x.

Lemma boot_Inv id hc : Inv (boot id hc).
Proof.
  split_and!; simpl; [by split|split; simpl; [lia|set_solver..]|done].
Qed.

Lemma steps_Inv x y :
  rtc lstep x y → Inv x →
  Inv y ∧ ∀ w, waiter_ok w (state (cont x)) (sch x) → waiter_ok w (state (cont y)) (sch y).
Proof.
  induction 1 as [x|x y z Hxy _ IH]; intros Hx; [done|].
  destruct (lstep_Inv _ _ Hxy Hx) as [Hy Hw]. destruct (IH Hy) as [Hz Hw'].
  split; [done|]. intros w Hw0. by apply Hw', Hw.
Qed.

(** In every reachable state a paused or restarting container has its
    running flag set, a stopped or restarting one has process id 0, and the
    one-word state shown to the user ("paused", "restarting", ...) is valid
    and is "paused" exactly when the paused flag is set. *)
Theorem reachable_flags_consistent id hc x :
  reachable id hc x →
  let s := state (cont x) in
  (Paused s = true ∨ Restarting s = true → Running s = true) ∧
  (Running s = false ∨ Restarting s = true → Pid s = 0) ∧
  IsValidStateString (StateString s) = true ∧
  (StateString s = "paused" ↔ Paused s = true).
Proof.
  intros Hr s. destruct (steps_Inv _ _ Hr (boot_Inv id hc)) as [(Hf & _ & _) _].
  fold s in Hf. destruct Hf as [Hp Hre Hst]. split_and!.
  - naive_solver.
  - naive_solver.
  - unfold StateString. repeat case_step; vm_compute; reflexivity.
  - unfold StateString. destruct (Paused s) eqn:Ep; [by rewrite Hp|].
    split; [|done]. repeat case_step; done.
Qed.

(** No event handler panics, and there is never more than one health
    monitor: in a reachable state every event of libcontainerd (a [pause]
    only after an accepted request) is handled without closing a closed
    channel, the number of monitor goroutines is 1 exactly when the health
    record has a stop channel, and at most five probe results are kept. *)
Theorem StateChanged_total id hc x now td e :
  reachable id hc x →
  (SI_State e = StatePause → containerPause_guard (state (cont x)) = None) →
  (∃ err c' ch', StateChanged now td e (cont x) (sch x) = (Ok (err, c'), ch')) ∧
  (monitors (cont x) ≤ 1)%nat ∧
  (∀ h, health (state (cont x)) = Some h →
     (stop h = true ↔ monitors (cont x) = 1%nat) ∧ (length (Log h) ≤ 5)%nat).
Proof.
  intros Hr Hg. destruct (steps_Inv _ _ Hr (boot_Inv id hc)) as [HI _].
  destruct x as [c ch]. simpl in *. split_and!.
  - destruct (StateChanged_ok now td e c ch HI) as (? & ? & ? & ? & _); [|by eauto].
    intros Hp. specialize (Hg Hp). unfold containerPause_guard in Hg.
    by destruct (Running (state c)).
  - destruct HI as (_ & _ & Hh). unfold health_ok in Hh. simpl in Hh.
    destruct (health (state c)) as [h|]; [destruct Hh; destruct (stop h)|]; lia.
  - intros h Eh. destruct HI as (_ & _ & Hh). unfold health_ok in Hh. simpl in Hh.
    rewrite Eh in Hh. unfold maxLogEntries in Hh. destruct Hh. destruct (stop h); naive_solver lia.
Qed.

(** Nobody waits for ever on a stopped container: a caller of [WaitStop]
    that found the container running and blocked on its wait channel is
    released in every later reachable state in which the container is not
    running, and then gets the recorded exit code. *)
Theorem WaitStop_released id hc x y w :
  reachable id hc x → WaitStop_begin (state (cont x)) = inr w →
  rtc lstep x y → Running (state (cont y)) = false →
  Ok (exitCode (state (cont y))) ∈ WaitStop_end w (-1) false (state (cont y)) (sch y).
Proof.
  intros Hr Hw Hxy Hstop. destruct (steps_Inv _ _ Hr (boot_Inv id hc)) as [Hx _].
  unfold WaitStop_begin in Hw. destruct (Running (state (cont x))) eqn:Er; simplify_eq/=.
  destruct (steps_Inv _ _ Hxy Hx) as [_ Hwait].
  destruct (Hwait (waitChan (state (cont x)))) as [Hc|[_ ?]]; [by right| |congruence].
  unfold WaitStop_end. rewrite bool_decide_true by done. set_solver.
Qed.

(** *** Health results *)

(** The longest failing suffix of a list of exit codes. *)
Fixpoint trailing_failures (rs : list Z) : nat :=
  match rs with
  | [] => 0
  | r :: rs' =>
      if bool_decide (trailing_failures rs' = length rs') && bool_decide (r ≠ 0)
      then S (length rs') else trailing_failures rs'
  end.

Lemma trailing_failures_le rs : (trailing_failures rs ≤ length rs)%nat.
Proof. induction rs; simpl; [lia|]. case_step; lia. Qed.

Lemma trailing_failures_snoc rs r :
  trailing_failures (rs ++ [r]) = if bool_decide (r = 0) then 0%nat else S (trailing_failures rs).
Proof.
  induction rs as [|x rs IH]; simpl.
  - repeat case_bool_decide; simpl; try done; lia.
  - rewrite IH, length_app. simpl.
    pose proof (trailing_failures_le rs).
    repeat case_bool_decide; simplify_eq/=; try lia; auto.
Qed.

(** After any sequence of probe results, a freshly initialised health
    record has as failing streak the number of failures since the last
    success; it is unhealthy exactly when that number reached the effective
    number of retries, and otherwise healthy when some probe succeeded and
    starting when none did; and it keeps the last five results, oldest
    first. *)
Theorem health_after_probes retries rs :
  1 ≤ retries →
  let h := foldl (λ h r, probe_health retries r h) (mkHealth Starting 0 [] true) rs in
  let codes := map ResExitCode rs in
  FailingStreak h = Z.of_nat (trailing_failures codes) ∧
  Log h = drop (length rs - maxLogEntries) rs ∧
  Status h = if bool_decide (retries ≤ Z.of_nat (trailing_failures codes)) then Unhealthy
             else if bool_decide (0 ∈ codes) then Healthy else Starting.
Proof.
  intros Hret h codes. subst h codes.
  induction rs as [|r rs IH] using rev_ind.
  - simpl. split_and!; [done..|]. rewrite bool_decide_false by lia.
    done.
  - rewrite foldl_snoc, map_app. set (h := foldl _ _ rs) in *.
    destruct IH as (Hs & Hl & Ht). simpl map. rewrite trailing_failures_snoc.
    unfold probe_health. rewrite Hl, Hs, Ht.
    set (k := trailing_failures (map ResExitCode rs)) in *.
    assert (Hlog : (if decide (maxLogEntries ≤ length (drop (length rs - maxLogEntries) rs))%nat
      then drop (length (drop (length rs - maxLogEntries) rs) + 1 - maxLogEntries)
             (drop (length rs - maxLogEntries) rs) ++ [r]
      else drop (length rs - maxLogEntries) rs ++ [r]) =
      drop (length (rs ++ [r]) - maxLogEntries) (rs ++ [r])).
    { rewrite length_drop, length_app, drop_drop. simpl. unfold maxLogEntries.
      rewrite drop_app_le by lia. destruct (decide _);
        match goal with |- drop ?a _ ++ _ = drop ?b _ ++ _ => by replace a with b by lia end. }
    rewrite Hlog. split_and!.
    + repeat case_bool_decide; simpl; try done; lia.
    + repeat case_bool_decide; done.
    + destruct (bool_decide_reflect (ResExitCode r = 0)) as [Hr|Hr]; simpl.
      * rewrite bool_decide_false by lia. by rewrite bool_decide_true by set_solver.
      * replace (bool_decide (retries ≤ Z.of_nat (S k))) with (bool_decide (retries ≤ Z.of_nat k + 1))
          by (apply bool_decide_ext; lia).
        destruct (bool_decide_reflect (retries ≤ Z.of_nat k + 1)); [done|].
        rewrite bool_decide_false by lia.
        by rewrite (bool_decide_ext (0 ∈ map ResExitCode rs ++ [ResExitCode r])
                     (0 ∈ map ResExitCode rs)) by set_solver.
Qed.

(** *** Probe output: [limitedBuffer] *)

Definition maxOutputLen : nat := 4096.

Record limitedBuffer := mkLB { lb_buf : list Byte.byte; truncated : bool }.

(** [min] and the slices work on [int]; the room left is never negative
    because the buffer never exceeds the limit (see the theorem below). *)
Definition lb_Write (data : list Byte.byte) (b : limitedBuffer) : Z * limitedBuffer :=
  let bufLen := Z.of_nat (length (lb_buf b)) in
  let dataLen := Z.of_nat (length data) in
  let keep := Z.min (Z.of_nat maxOutputLen - bufLen) dataLen in
  let buf' := if bool_decide (0 < keep) then lb_buf b ++ take (Z.to_nat keep) data else lb_buf b in
  (dataLen, mkLB buf' (if bool_decide (keep < dataLen) then true else truncated b)).

(** Whatever the probe writes, and in whatever pieces, every write
    reports all its bytes as written, the buffer holds exactly the first
    4096 bytes of the output, and the truncation mark ("...") is set exactly
    when the output is longer. *)
Theorem limitedBuffer_prefix (ds : list (list Byte.byte)) :
  let b := foldl (λ b d, (lb_Write d b).2) (mkLB [] false) ds in
  lb_buf b = take maxOutputLen (concat ds) ∧
  truncated b = bool_decide (maxOutputLen < length (concat ds))%nat ∧
  (∀ d b', (lb_Write d b').1 = Z.of_nat (length d)).
Proof.
  intros b. subst b. induction ds as [|d ds IH] using rev_ind.
  - split_and!; [done|by rewrite bool_decide_false by (simpl; lia)|done].
  - rewrite foldl_snoc. destruct IH as (Hb & Ht & _).
    revert Hb Ht. generalize (foldl (λ b d, (lb_Write d b).2) (mkLB [] false) ds). intros b Hb Ht.
    rewrite concat_app, concat_cons, app_nil_r. set (xs := concat ds) in *.
    unfold lb_Write; simpl. rewrite Hb, Ht, length_take. clear Hb Ht.
    split_and!; [..|done].
    + rewrite take_app. case_bool_decide as Hk.
      * f_equal. replace (Z.to_nat _) with ((maxOutputLen - length xs) `min` length d)%nat by lia.
        by rewrite <-take_take, firstn_all.
      * rewrite (nil_length_inv (take (maxOutputLen - length xs) d)), app_nil_r; [done|].
        rewrite length_take. lia.
    + rewrite length_app. repeat case_bool_decide; try done; lia.
Qed.

(** ** Witnesses: a container that is started, paused, and exits *)

Definition ex_start : StateInfo := mkSI StateStart 42 0 "" false.
Definition ex_pause : StateInfo := mkSI StatePause 0 0 "" false.
Definition ex_exit : StateInfo := mkSI StateExit 0 137 "" true.

Definition after (e : StateInfo) (x : sys) : sys :=
  match StateChanged 7 None e (cont x) (sch x) with
  | (Ok (_, c), ch) => mkSys c ch
  | _ => x
  end.

Definition ex_hc : option HealthConfig := Some (mkHC ["CMD"; "true"] 2).
Definition ex_started : sys := after ex_start (boot "c1" ex_hc).
Definition ex_paused : sys := after ex_pause ex_started.
Definition ex_exited : sys := after ex_exit ex_started.

Lemma ex_reach_started : reachable "c1" ex_hc ex_started.
Proof.
  eapply rtc_l; [|apply rtc_refl].
  apply (lstep_event 7 None ex_start (cont (boot "c1" ex_hc)) (sch (boot "c1" ex_hc)) None);
    [done|done|vm_compute; reflexivity].
Qed.

Lemma ex_reach_paused : reachable "c1" ex_hc ex_paused.
Proof.
  eapply rtc_r; [apply ex_reach_started|].
  apply (lstep_pause 7 None ex_pause (cont ex_started) (sch ex_started) None);
    [done|vm_compute; reflexivity|vm_compute; reflexivity].
Qed.

Lemma ex_step_exit : lstep ex_started ex_exited.
Proof.
  apply (lstep_event 7 None ex_exit (cont ex_started) (sch ex_started) None);
    [done|done|vm_compute; reflexivity].
Qed.

Lemma reachable_flags_consistent_witness :
  Paused (state (cont ex_paused)) = true ∧ Running (state (cont ex_paused)) = true.
Proof.
  split; [vm_compute; reflexivity|].
  refine (proj1 (reachable_flags_consistent "c1" ex_hc ex_paused ex_reach_paused) _).
  left. vm_compute. reflexivity.
Defined.

Lemma StateChanged_total_witness : (monitors (cont ex_started) ≤ 1)%nat.
Proof.
  refine (proj1 (proj2 (StateChanged_total "c1" ex_hc ex_started 7 None ex_pause ex_reach_started _))).
  vm_compute. reflexivity.
Defined.

Lemma WaitStop_released_witness :
  Ok 137 ∈ WaitStop_end 0 (-1) false (state (cont ex_exited)) (sch ex_exited).
Proof.
  apply (WaitStop_released "c1" ex_hc ex_started ex_exited 0 ex_reach_started).
  - vm_compute. reflexivity.
  - apply rtc_once, ex_step_exit.
  - vm_compute. reflexivity.
Defined.

Lemma health_after_probes_witness :
  Status (foldl (λ h r, probe_health 2 r h) (mkHealth Starting 0 [] true)
            [mkResult 0 ""; mkResult 1 "x"; mkResult 1 "y"]) = Unhealthy.
Proof.
  rewrite (proj2 (proj2 (health_after_probes 2 [mkResult 0 ""; mkResult 1 "x"; mkResult 1 "y"] ltac:(lia)))).
  reflexivity.
Defined.
