(* ===== verification/GoStrings.v ===== *)
(** * Go strings: bytes, runes and the library functions the code calls

    A Go [string] is a sequence of bytes: the [string] of this development is
    Rocq's, a sequence of 8-bit characters.  A [rune] is a code point, an
    [N].  This file has the part of the Go standard library used by the
    modelled code: UTF-8 decoding and encoding ([unicode/utf8]), the character
    classes of [unicode], and the functions of [strings] and [strconv]. *)

From S2P Require Import Prelude.
From Stdlib Require Export Ascii.
Local Open Scope N_scope.

Abbreviation rune := N (only parsing).

Definition byte_val (a : ascii) : N := N_of_ascii a.
Definition byte_of (n : N) : ascii := ascii_of_N n.

Definition RuneError : rune := 0xFFFD.

(** ** UTF-8 *)

(** [n] is a continuation byte in the range [lo, hi]. *)
Definition in_range (lo hi n : N) : bool := (lo <=? n) && (n <=? hi).

(** The range of the second byte after the first byte [b0] of a sequence of
    three or four bytes (the table [acceptRanges] of unicode/utf8). *)
Definition accept_lo (b0 : N) : N :=
  if b0 =? 0xE0 then 0xA0 else if b0 =? 0xF0 then 0x90 else 0x80.
Definition accept_hi (b0 : N) : N :=
  if b0 =? 0xED then 0x9F else if b0 =? 0xF4 then 0x8F else 0xBF.

(** [utf8.DecodeRuneInString]: the first rune of a string and the rest of it;
    an invalid sequence gives [RuneError] and a width of one byte. *)
Definition DecodeRune (s : string) : option (rune * string) :=
  match s with
  | EmptyString => None
  | String a0 s1 =>
      let b0 := byte_val a0 in
      let bad := Some (RuneError, s1) in
      if b0 <? 0x80 then Some (b0, s1)
      else if in_range 0xC2 0xDF b0 then
        match s1 with
        | String a1 s2 =>
            let b1 := byte_val a1 in
            if in_range 0x80 0xBF b1 then Some ((b0 - 0xC0) * 64 + (b1 - 0x80), s2) else bad
        | _ => bad
        end
      else if in_range 0xE0 0xEF b0 then
        match s1 with
        | String a1 (String a2 s3) =>
            let b1 := byte_val a1 in let b2 := byte_val a2 in
            if in_range (accept_lo b0) (accept_hi b0) b1 && in_range 0x80 0xBF b2
            then Some (((b0 - 0xE0) * 64 + (b1 - 0x80)) * 64 + (b2 - 0x80), s3) else bad
        | _ => bad
        end
      else if in_range 0xF0 0xF4 b0 then
        match s1 with
        | String a1 (String a2 (String a3 s4)) =>
            let b1 := byte_val a1 in let b2 := byte_val a2 in let b3 := byte_val a3 in
            if in_range (accept_lo b0) (accept_hi b0) b1 && in_range 0x80 0xBF b2 && in_range 0x80 0xBF b3
            then Some ((((b0 - 0xF0) * 64 + (b1 - 0x80)) * 64 + (b2 - 0x80)) * 64 + (b3 - 0x80), s4)
            else bad
        | _ => bad
        end
      else bad
  end.

(** A code point that has an encoding: not a surrogate, at most U+10FFFF. *)
Definition valid_rune (r : rune) : bool :=
  (r <? 0xD800) || ((0xDFFF <? r) && (r <=? 0x10FFFF)).

(** [string(r)]: the UTF-8 encoding of a rune, that of [RuneError] when it has
    none. *)
Definition EncodeRune (r0 : rune) : string :=
  let r := if valid_rune r0 then r0 else RuneError in
  if r <? 0x80 then String (byte_of r) ""
  else if r <? 0x800 then
    String (byte_of (0xC0 + r / 64)) (String (byte_of (0x80 + r mod 64)) "")
  else if r <? 0x10000 then
    String (byte_of (0xE0 + r / 4096))
      (String (byte_of (0x80 + r / 64 mod 64)) (String (byte_of (0x80 + r mod 64)) ""))
  else
    String (byte_of (0xF0 + r / 262144))
      (String (byte_of (0x80 + r / 4096 mod 64))
        (String (byte_of (0x80 + r / 64 mod 64)) (String (byte_of (0x80 + r mod 64)) ""))).

(** The runes of a string with the bytes each was decoded from. *)
Fixpoint decode_go (fuel : nat) (s : string) : list rune :=
  match fuel with
  | O => []
  | S fuel' =>
      match DecodeRune s with
      | None => []
      | Some (r, s') => r :: decode_go fuel' s'
      end
  end.

Definition runes (s : string) : list rune := decode_go (String.length s) s.

Definition of_runes (rs : list rune) : string :=
  foldr (λ r s, EncodeRune r +:+ s) "" rs.

(** ** Character classes ([unicode]) *)

(** [unicode.IsSpace] in full: the Latin-1 cases and the property White_Space
    above U+00FF. *)
Definition IsSpace (r : rune) : bool :=
  if r <=? 0xFF then
    (r =? 9) || (r =? 10) || (r =? 11) || (r =? 12) || (r =? 13) || (r =? 32) || (r =? 0x85) || (r =? 0xA0)
  else
    (r =? 0x1680) || in_range 0x2000 0x200a r || (r =? 0x2028) || (r =? 0x2029)
    || (r =? 0x202f) || (r =? 0x205f) || (r =? 0x3000).

(** [unicode.IsDigit] and [unicode.IsLetter] on Latin-1; the tables for the
    rest of Unicode are parameters of the functions that use them. *)
Record UnicodeTables := mkTables { digit_above : rune → bool; letter_above : rune → bool }.

Definition IsDigit (T : UnicodeTables) (r : rune) : bool :=
  if r <=? 0xFF then in_range 48 57 r else digit_above T r.

Definition IsLetter (T : UnicodeTables) (r : rune) : bool :=
  if r <=? 0xFF then
    in_range 65 90 r || in_range 97 122 r || (r =? 0xAA) || (r =? 0xB5) || (r =? 0xBA)
    || in_range 0xC0 0xD6 r || in_range 0xD8 0xF6 r || in_range 0xF8 0xFF r
  else letter_above T r.

(** No digits or letters outside Latin-1. *)
Definition latin1 : UnicodeTables := mkTables (λ _, false) (λ _, false).

(** ** [strings] *)

Fixpoint HasPrefix (s p : string) : bool :=
  match p with
  | EmptyString => true
  | String a p' =>
      match s with
      | EmptyString => false
      | String b s' => if ascii_dec a b then HasPrefix s' p' else false
      end
  end.

(** [strings.Contains(s, c)] for a one-byte [c]. *)
Fixpoint ContainsByte (c : ascii) (s : string) : bool :=
  match s with
  | EmptyString => false
  | String a s' => if ascii_dec a c then true else ContainsByte c s'
  end.

(** [strings.SplitN(s, c, 2)] for a one-byte [c]: the part before the first
    [c], and the part after it when there is one. *)
Fixpoint Cut (c : ascii) (s : string) : string * option string :=
  match s with
  | EmptyString => ("", None)
  | String a s' =>
      if ascii_dec a c then ("", Some s')
      else let '(x, y) := Cut c s' in (String a x, y)
  end.

(** [strings.Split(s, c)] for a one-byte [c]. *)
Fixpoint Split (c : ascii) (s : string) : list string :=
  match s with
  | EmptyString => [""]
  | String a s' =>
      if ascii_dec a c then "" :: Split c s'
      else match Split c s' with
           | [] => [String a ""]
           | x :: xs => String a x :: xs
           end
  end.

Definition Join (c : string) (l : list string) : string :=
  match l with
  | [] => ""
  | x :: xs => foldl (λ acc y, acc +:+ c +:+ y) x xs
  end.

(** [strings.TrimLeftFunc(s, unicode.IsSpace)]. *)
Fixpoint trim_left_go (fuel : nat) (s : string) : string :=
  match fuel with
  | O => s
  | S fuel' =>
      match DecodeRune s with
      | None => s
      | Some (r, s') => if IsSpace r then trim_left_go fuel' s' else s
      end
  end.
Definition TrimLeftSpace (s : string) : string := trim_left_go (String.length s) s.

(** The bytes of [s] up to the end of its last rune that is not a space: UTF-8
    is self-synchronizing, so that this is what decoding from the end gives. *)
Fixpoint trim_right_go (fuel : nat) (s : string) : string :=
  match fuel with
  | O => s
  | S fuel' =>
      match DecodeRune s with
      | None => ""
      | Some (r, s') =>
          let t := trim_right_go fuel' s' in
          match t with
          | EmptyString => if IsSpace r then "" else String.substring 0 (String.length s - String.length s') s
          | _ => String.substring 0 (String.length s - String.length s') s +:+ t
          end
      end
  end.
Definition TrimRightSpace (s : string) : string := trim_right_go (String.length s) s.

Definition TrimSpace (s : string) : string := TrimRightSpace (TrimLeftSpace s).

(** [strings.ToLower] on ASCII; a string with a byte above 0x7F is given to the
    parameter, which stands for the Unicode case tables. *)
Definition lower_byte (a : ascii) : ascii :=
  if in_range 65 90 (byte_val a) then byte_of (byte_val a + 32) else a.

Fixpoint is_ascii (s : string) : bool :=
  match s with
  | EmptyString => true
  | String a s' => (byte_val a <? 0x80) && is_ascii s'
  end.

Fixpoint map_bytes (f : ascii → ascii) (s : string) : string :=
  match s with
  | EmptyString => EmptyString
  | String a s' => String (f a) (map_bytes f s')
  end.

Definition ToLower (unicode_lower : string → string) (s : string) : string :=
  if is_ascii s then map_bytes lower_byte s else unicode_lower s.

(** ** [strconv.Atoi] on a 64-bit platform *)

Definition digit_val (a : ascii) : option Z :=
  if in_range 48 57 (byte_val a) then Some (Z.of_N (byte_val a) - 48)%Z else None.

Fixpoint parse_digits (acc : Z) (s : string) : option Z :=
  match s with
  | EmptyString => Some acc
  | String a s' =>
      match digit_val a with
      | None => None
      | Some d => parse_digits (acc * 10 + d)%Z s'
      end
  end.

(** An optional sign and at least one digit, with a value in [int64]. *)
Definition Atoi (s : string) : option Z :=
  let '(neg, t) := match s with
                   | String "-" t => (true, t)
                   | String "+" t => (false, t)
                   | _ => (false, s)
                   end in
  match t with
  | EmptyString => None
  | _ =>
      match parse_digits 0 t with
      | None => None
      | Some v =>
          let v := if neg then (- v)%Z else v in
          if decide (in_int64 v) then Some v else None
      end
  end.

(** ** Facts *)

Lemma byte_val_of n : n < 256 → byte_val (byte_of n) = n.
Proof. apply N_ascii_embedding. Qed.

Lemma app_nil_str s : s +:+ "" = s.
Proof. induction s as [|a s IH]; simpl; [done|]. change (String a s +:+ "") with (String a (s +:+ "")). by rewrite IH. Qed.

Lemma app_cons_str a s t : String a s +:+ t = String a (s +:+ t).
Proof. done. Qed.

Lemma app_empty_str s : "" +:+ s = s.
Proof. done. Qed.

Lemma app_assoc_str s t u : (s +:+ t) +:+ u = s +:+ (t +:+ u).
Proof. induction s as [|a s IH]; [done|]. rewrite !app_cons_str. by rewrite IH. Qed.

Lemma length_app_str s t : String.length (s +:+ t) = (String.length s + String.length t)%nat.
Proof. induction s as [|a s IH]; [done|]. rewrite app_cons_str. simpl. by rewrite IH. Qed.

Create Rewrite HintDb gostr.
#[export] Hint Rewrite app_nil_str app_cons_str app_empty_str app_assoc_str length_app_str : gostr.

Lemma DecodeRune_shorter s r s' :
  DecodeRune s = Some (r, s') → (String.length s' < String.length s)%nat.
Proof.
  destruct s as [|a s]; [done|]. unfold DecodeRune.
  repeat case_match; intros; simplify_eq; simpl; lia.
Qed.

Lemma DecodeRune_nonempty s : s ≠ "" → ∃ r s', DecodeRune s = Some (r, s').
Proof.
  destruct s as [|a s]; [done|]. intros _. unfold DecodeRune.
  repeat case_match; eauto.
Qed.

Lemma decode_go_enough s : ∀ n, (String.length s ≤ n)%nat → decode_go n s = runes s.
Proof.
  unfold runes.
  assert (H : ∀ k s m n, (String.length s ≤ k)%nat → (k ≤ m)%nat → (k ≤ n)%nat →
            decode_go m s = decode_go n s).
  { clear s. induction k as [|k IH]; intros s m n Hs Hm Hn.
    - destruct s; [|simpl in Hs; lia]. by destruct m, n.
    - destruct m as [|m]; [lia|]. destruct n as [|n]; [lia|]. simpl.
      destruct (DecodeRune s) as [[r s']|] eqn:E; [|done].
      apply DecodeRune_shorter in E. f_equal. apply IH; lia. }
  intros n Hn. by apply (H (String.length s)).
Qed.

Lemma runes_decode s r s' : DecodeRune s = Some (r, s') → runes s = r :: runes s'.
Proof.
  intros E. pose proof (DecodeRune_shorter _ _ _ E) as Hlt. unfold runes at 1.
  destruct (String.length s) as [|n] eqn:En; [lia|]. simpl. rewrite E.
  f_equal. apply decode_go_enough. lia.
Qed.

Lemma runes_empty : runes "" = [].
Proof. done. Qed.

Ltac byte_range :=
  repeat match goal with
  | |- context [(?a =? ?b)] => destruct (N.eqb_spec a b); [|]; try lia
  | |- context [(?a <? ?b)] => destruct (N.ltb_spec a b); [|]; try lia
  | |- context [(?a <=? ?b)] => destruct (N.leb_spec a b); [|]; try lia
  end.

(** Decoding undoes encoding, whatever follows. *)
Lemma DecodeRune_Encode r s :
  valid_rune r = true → DecodeRune (EncodeRune r +:+ s) = Some (r, s).
Proof.
  intros Hv. unfold EncodeRune. rewrite Hv.
  assert (Hr : r < 0xD800 ∨ 0xDFFF < r ≤ 0x10FFFF).
  { unfold valid_rune in Hv. rewrite orb_true_iff, andb_true_iff, !N.ltb_lt, N.leb_le in Hv. lia. }
  clear Hv.
  pose proof (N.div_mod r 64 ltac:(done)) as D1. pose proof (N.mod_lt r 64 ltac:(done)) as M1.
  pose proof (N.div_mod (r / 64) 64 ltac:(done)) as D2.
  pose proof (N.mod_lt (r / 64) 64 ltac:(done)) as M2.
  pose proof (N.div_mod (r / 64 / 64) 64 ltac:(done)) as D3.
  pose proof (N.mod_lt (r / 64 / 64) 64 ltac:(done)) as M3.
  replace (r / 4096) with (r / 64 / 64) by (rewrite N.Div0.div_div; done).
  replace (r / 262144) with (r / 64 / 64 / 64) by (rewrite !N.Div0.div_div; done).
  set (m1 := r mod 64) in *. set (m2 := r / 64 mod 64) in *. set (m3 := r / 64 / 64 mod 64) in *.
  set (q3 := r / 64 / 64 / 64) in *. set (q2 := r / 64 / 64) in *. set (q1 := r / 64) in *.
  clearbody m1 m2 m3 q3 q2 q1.
  destruct (N.ltb_spec r 0x80);
    [|destruct (N.ltb_spec r 0x800); [|destruct (N.ltb_spec r 0x10000)]];
    rewrite ?app_cons_str, app_empty_str; unfold DecodeRune, in_range, accept_lo, accept_hi;
    rewrite !byte_val_of by lia; byte_range; simpl; f_equal; f_equal; lia.
Qed.

Lemma runes_Encode r s : valid_rune r = true → runes (EncodeRune r +:+ s) = r :: runes s.
Proof. intros Hr. by apply runes_decode, DecodeRune_Encode. Qed.

(** A sequence of code points survives being written as a Go string. *)
Lemma of_runes_app xs ys : of_runes (xs ++ ys) = of_runes xs +:+ of_runes ys.
Proof. induction xs as [|x xs IH]; [done|]. simpl. by rewrite IH, app_assoc_str. Qed.

Lemma runes_of_runes rs s :
  Forall (λ r, valid_rune r = true) rs → runes (of_runes rs +:+ s) = rs ++ runes s.
Proof.
  induction 1 as [|r rs Hr _ IH]; [done|]. simpl. rewrite app_assoc_str.
  rewrite runes_Encode by done. by rewrite IH.
Qed.

(** ASCII strings: one byte per rune. *)
Fixpoint bytes (s : string) : list N :=
  match s with
  | EmptyString => []
  | String a s' => byte_val a :: bytes s'
  end.

Lemma DecodeRune_ascii a s : byte_val a < 0x80 → DecodeRune (String a s) = Some (byte_val a, s).
Proof. intros H. unfold DecodeRune. destruct (N.ltb_spec (byte_val a) 0x80); [done|lia]. Qed.

Lemma runes_ascii s t : is_ascii s = true → runes (s +:+ t) = bytes s ++ runes t.
Proof.
  induction s as [|a s IH]; [done|]. simpl. intros [Ha Hs]%andb_true_iff.
  apply N.ltb_lt in Ha. rewrite app_cons_str.
  rewrite (runes_decode _ _ _ (DecodeRune_ascii a _ Ha)). by rewrite IH.
Qed.

Lemma Encode_byte a : byte_val a < 0x80 → EncodeRune (byte_val a) = String a "".
Proof.
  intros Ha. unfold EncodeRune, valid_rune.
  destruct (N.ltb_spec (byte_val a) 0xD800); [|lia]. simpl.
  destruct (N.ltb_spec (byte_val a) 0x80); [|lia].
  unfold byte_of, byte_val. by rewrite ascii_N_embedding.
Qed.

Lemma of_runes_ascii s : is_ascii s = true → of_runes (bytes s) = s.
Proof.
  induction s as [|a s IH]; [done|]. simpl. intros [Ha%N.ltb_lt Hs]%andb_true_iff.
  rewrite IH by done. by rewrite Encode_byte.
Qed.

(** *** Splitting *)

Lemma ContainsByte_app c s t : ContainsByte c (s +:+ t) = ContainsByte c s || ContainsByte c t.
Proof.
  induction s as [|a s IH]; [done|]. rewrite app_cons_str. simpl.
  destruct (ascii_dec a c); [done|]. apply IH.
Qed.

Lemma Cut_none c s : ContainsByte c s = false → Cut c s = (s, None).
Proof.
  induction s as [|a s IH]; [done|]. simpl. destruct (ascii_dec a c); [done|].
  intros H. by rewrite IH.
Qed.

Lemma Cut_none_inv c s x : Cut c s = (x, None) → x = s.
Proof.
  revert x. induction s as [|a s IH]; intros x; simpl; [congruence|]. destruct (ascii_dec a c); [done|].
  destruct (Cut c s) as [x' [y|]]; [done|]. intros [= <-]. by rewrite (IH x' eq_refl).
Qed.

Lemma Cut_app c s t : ContainsByte c s = false → Cut c (s +:+ String c t) = (s, Some t).
Proof.
  induction s as [|a s IH]; simpl.
  - by destruct (ascii_dec c c).
  - destruct (ascii_dec a c); [done|]. intros H. by rewrite IH.
Qed.

Lemma Split_none c s : ContainsByte c s = false → Split c s = [s].
Proof.
  induction s as [|a s IH]; [done|]. simpl. destruct (ascii_dec a c); [done|].
  intros H. by rewrite IH.
Qed.

Lemma Split_app c s t : ContainsByte c s = false → Split c (s +:+ String c t) = s :: Split c t.
Proof.
  induction s as [|a s IH]; simpl.
  - by destruct (ascii_dec c c).
  - destruct (ascii_dec a c); [done|]. intros H. by rewrite IH.
Qed.
