(* ===== verification/IdTools.v ===== *)
(** * pkg/idtools: user-namespace id mappings

    Models [src/pkg/idtools/idtools.go]: the translation of ids between the
    host and a container ([ToHost], [ToContainer], [GetRootUIDGID]), the
    construction of a mapping from subordinate id ranges ([createIDMap],
    [CreateIDMappings]) and the parser of /etc/subuid and /etc/subgid.  Ids
    are Go [int]s: sums wrap at 64 bits ([wrap64]).  The nil slice, which
    means "no mapping", is [None].  A subid file is the list of lines that
    [bufio.Scanner] delivers, [None] when it cannot be opened.

    [sort.Sort] is modelled by a merge sort; ranges with equal starts, whose
    order Go leaves open, overlap, and the theorems exclude overlaps. *)

From S2P Require Import Prelude.
From S2P Require Import GoStrings.
Local Open Scope Z_scope.

Record IDMap := mkIDMap { ContainerID : Z; HostID : Z; Size : Z }.
Record subIDRange := mkRange { Start : Z; Length : Z }.

Inductive error :=
| ErrHostUnmapped (id : Z) | ErrContainerUnmapped (id : Z)
| ErrOpen | ErrFormat | ErrAtoi
| ErrNoSubuid (user : string) | ErrNoSubgid (group : string).

Fixpoint ToContainer_loop (hostID : Z) (l : list IDMap) : outcome error Z :=
  match l with
  | [] => Err (ErrHostUnmapped hostID)
  | m :: l' =>
      if bool_decide (HostID m ≤ hostID) &&
         bool_decide (hostID ≤ wrap64 (wrap64 (HostID m + Size m) - 1))
      then Ok (wrap64 (ContainerID m + wrap64 (hostID - HostID m)))
      else ToContainer_loop hostID l'
  end.

Definition ToContainer (hostID : Z) (idMap : option (list IDMap)) : outcome error Z :=
  match idMap with None => Ok hostID | Some l => ToContainer_loop hostID l end.

Fixpoint ToHost_loop (contID : Z) (l : list IDMap) : outcome error Z :=
  match l with
  | [] => Err (ErrContainerUnmapped contID)
  | m :: l' =>
      if bool_decide (ContainerID m ≤ contID) &&
         bool_decide (contID ≤ wrap64 (wrap64 (ContainerID m + Size m) - 1))
      then Ok (wrap64 (HostID m + wrap64 (contID - ContainerID m)))
      else ToHost_loop contID l'
  end.

Definition ToHost (contID : Z) (idMap : option (list IDMap)) : outcome error Z :=
  match idMap with None => Ok contID | Some l => ToHost_loop contID l end.

Definition GetRootUIDGID (uidMap gidMap : option (list IDMap)) : outcome error (Z * Z) :=
  let root m := match m with None => Ok 0 | Some _ => ToHost 0 m end in
  match root uidMap with
  | Ok uid =>
      match root gidMap with
      | Ok gid => Ok (uid, gid)
      | Err e => Err e
      | Panic m => Panic m
      end
  | Err e => Err e
  | Panic m => Panic m
  end.

(** [ranges] sorted by start. *)
Definition range_le (a b : subIDRange) : Prop := Start a ≤ Start b.
#[global] Instance range_le_dec a b : Decision (range_le a b).
Proof. unfold range_le. apply _. Defined.
#[global] Instance range_le_trans : Transitive range_le.
Proof. unfold range_le. intros ???. lia. Qed.
#[global] Instance range_le_total : Total range_le.
Proof. unfold range_le. intros ??. lia. Qed.

Fixpoint createIDMap_loop (containerID : Z) (l : list subIDRange) : list IDMap :=
  match l with
  | [] => []
  | r :: l' => mkIDMap containerID (Start r) (Length r)
               :: createIDMap_loop (wrap64 (containerID + Length r)) l'
  end.

Definition createIDMap (subidRanges : list subIDRange) : list IDMap :=
  createIDMap_loop 0 (merge_sort range_le subidRanges).

(** The loop of [parseSubidFile]: the ranges found so far are returned with
    the error. *)
Fixpoint parseSubid_loop (username : string) (acc : list subIDRange) (lines : list string)
    : list subIDRange * option error :=
  match lines with
  | [] => (acc, None)
  | line :: lines' =>
      let text := TrimSpace line in
      if bool_decide (text = "") || HasPrefix text "#" then parseSubid_loop username acc lines'
      else
        match Split ":"%char text with
        | [p0; p1; p2] =>
            if bool_decide (p0 = username) || bool_decide (username = "ALL") then
              match Atoi p1 with
              | None => (acc, Some ErrAtoi)
              | Some startid =>
                  match Atoi p2 with
                  | None => (acc, Some ErrAtoi)
                  | Some len => parseSubid_loop username (acc ++ [mkRange startid len]) lines'
                  end
              end
            else parseSubid_loop username acc lines'
        | _ => (acc, Some ErrFormat)
        end
  end.

Definition parseSubidFile (file : option (list string)) (username : string)
    : list subIDRange * option error :=
  match file with
  | None => ([], Some ErrOpen)
  | Some lines => parseSubid_loop username [] lines
  end.

(** [subuid] and [subgid] stand for the contents of the two files. *)
Definition CreateIDMappings (subuid subgid : option (list string)) (username groupname : string)
    : outcome error (list IDMap * list IDMap) :=
  match parseSubidFile subuid username with
  | (_, Some e) => Err e
  | (us, None) =>
      match parseSubidFile subgid groupname with
      | (_, Some e) => Err e
      | (gs, None) =>
          if decide (length us = 0)%nat then Err (ErrNoSubuid username)
          else if decide (length gs = 0)%nat then Err (ErrNoSubgid groupname)
          else Ok (createIDMap us, createIDMap gs)
      end
  end.

(** ** Mappings made from ranges *)

(** The number of ids a list of ranges covers. *)
Fixpoint total (l : list subIDRange) : Z :=
  match l with [] => 0 | r :: l' => Length r + total l' end.

(** Ranges a system can have: starts and lengths are not negative, the last
    id of each range and the total fit in an [int]. *)
Definition range_ok (r : subIDRange) : Prop :=
  0 ≤ Start r ∧ 0 ≤ Length r ∧ Start r + Length r < 2 ^ 63.

Definition ranges_ok (l : list subIDRange) : Prop :=
  Forall range_ok l ∧ total l < 2 ^ 63.

Definition in_host_range (h : Z) (r : subIDRange) : Prop := Start r ≤ h < Start r + Length r.

(** No host id is in two of the ranges. *)
Definition disjoint_ranges (l : list subIDRange) : Prop :=
  ∀ i j r s h, l !! i = Some r → l !! j = Some s →
    in_host_range h r → in_host_range h s → i = j.

Lemma total_nonneg l : Forall range_ok l → 0 ≤ total l.
Proof. induction 1 as [|r l (? & ? & ?) _ IH]; simpl; lia. Qed.

Lemma total_perm l1 l2 : l1 ≡ₚ l2 → total l1 = total l2.
Proof. induction 1; simpl; lia. Qed.

Lemma disjoint_ranges_tail r l : disjoint_ranges (r :: l) → disjoint_ranges l.
Proof. intros H i j a b h Hi Hj Ha Hb. specialize (H (S i) (S j) a b h Hi Hj Ha Hb). lia. Qed.

Lemma disjoint_ranges_head r l h s :
  disjoint_ranges (r :: l) → in_host_range h r → s ∈ l → in_host_range h s → False.
Proof.
  intros H Hr Hs Hh. apply list_elem_of_lookup in Hs as [j Hj].
  by specialize (H 0%nat (S j) r s h eq_refl Hj Hr Hh).
Qed.

Lemma disjoint_ranges_perm l1 l2 : l1 ≡ₚ l2 → disjoint_ranges l1 → disjoint_ranges l2.
Proof.
  intros Hp%symmetry Hd i j r s h Hi Hj Hr Hs.
  destruct (proj1 (Permutation_inj _ _) Hp) as (_ & f & Hf & Hlook).
  rewrite Hlook in Hi, Hj. apply Hf. by eapply Hd.
Qed.

Section loop.
Implicit Types (c h : Z) (l : list subIDRange).

(** [ToHost] on a mapping built from container id [c0] on: the ids from [c0]
    to [c0 + total l] are exactly the mapped ones. *)
Lemma ToHost_loop_spec l c0 c :
  0 ≤ c0 → Forall range_ok l → c0 + total l < 2 ^ 63 →
  (c0 ≤ c < c0 + total l →
     ∃ h r, ToHost_loop c (createIDMap_loop c0 l) = Ok h ∧ r ∈ l ∧ in_host_range h r) ∧
  (¬ (c0 ≤ c < c0 + total l) → c < 2 ^ 63 → - 2 ^ 63 ≤ c →
     ToHost_loop c (createIDMap_loop c0 l) = Err (ErrContainerUnmapped c)).
Proof.
  revert c0. induction l as [|r l IH]; intros c0 Hc0 Hl Ht; simpl in *.
  - split; [lia|done].
  - inversion_clear Hl as [|? ? (Hs & Hlen & Hsum) Hl'].
    pose proof (total_nonneg l Hl').
    rewrite !(wrap64_id (c0 + Length r)) by (unfold in_int64; lia).
    rewrite (wrap64_id (c0 + Length r - 1)) by (unfold in_int64; lia).
    destruct (IH (c0 + Length r)) as [IHok IHerr]; [lia|done|lia|].
    destruct (bool_decide_reflect (c0 ≤ c)), (bool_decide_reflect (c ≤ c0 + Length r - 1)); simpl.
    + split; [|lia]. intros _.
      rewrite (wrap64_id (c - c0)) by (unfold in_int64; lia).
      rewrite wrap64_id by (unfold in_int64; lia).
      eexists _, r. split; [done|]. unfold in_host_range. split; [set_solver|lia].
    + split; [|intros; apply IHerr; lia].
      intros Hc. destruct IHok as (h & r' & ? & ? & ?); [lia|]. set_solver.
    + split; [lia|]. intros; apply IHerr; lia.
    + split; [lia|]. intros; apply IHerr; lia.
Qed.

(** The two translations are inverse on the mapped ids. *)
Lemma ToHost_ToContainer_loop l c0 c h :
  0 ≤ c0 → Forall range_ok l → c0 + total l < 2 ^ 63 → disjoint_ranges l →
  0 ≤ c < 2 ^ 63 →
  ToHost_loop c (createIDMap_loop c0 l) = Ok h →
  ToContainer_loop h (createIDMap_loop c0 l) = Ok c.
Proof.
  revert c0. induction l as [|r l IH]; intros c0 Hc0 Hl Ht Hd Hc; simpl in *; [done|].
  inversion_clear Hl as [|? ? (Hs & Hlen & Hsum) Hl'].
  pose proof (total_nonneg l Hl').
  rewrite !(wrap64_id (c0 + Length r)) by (unfold in_int64; lia).
  rewrite (wrap64_id (c0 + Length r - 1)) by (unfold in_int64; lia).
  rewrite (wrap64_id (Start r + Length r)) by (unfold in_int64; lia).
  rewrite (wrap64_id (Start r + Length r - 1)) by (unfold in_int64; lia).
  destruct (bool_decide_reflect (c0 ≤ c)), (bool_decide_reflect (c ≤ c0 + Length r - 1)); simpl.
  1: { rewrite (wrap64_id (c - c0)) by (unfold in_int64; lia).
  rewrite wrap64_id by (unfold in_int64; lia). intros ?; simplify_eq.
  rewrite !bool_decide_true by lia. simpl.
  rewrite (wrap64_id (Start r + (c - c0) - Start r)) by (unfold in_int64; lia).
  rewrite wrap64_id by (unfold in_int64; lia). f_equal. lia. }
  all: intros Hh; pose proof (IH (c0 + Length r) ltac:(lia) Hl' ltac:(lia)
    (disjoint_ranges_tail _ _ Hd) Hc Hh) as Hcont;
    destruct (bool_decide_reflect (Start r ≤ h)),
    (bool_decide_reflect (h ≤ Start r + Length r - 1)); simpl; try done;
    exfalso;
    destruct (ToHost_loop_spec l (c0 + Length r) c ltac:(lia) Hl' ltac:(lia)) as [Hok Herr];
    destruct (decide (c0 + Length r ≤ c < c0 + Length r + total l)) as [Hin|Hout];
    [destruct (Hok Hin) as (h' & s & Hh' & Hsin & Hrange); rewrite Hh in Hh'; simplify_eq;
    eapply (disjoint_ranges_head r l); [done| |exact Hsin|exact Hrange];
    unfold in_host_range in *; lia
    |rewrite Herr in Hh by lia; done].
Qed.
End loop.

(** For non-overlapping subordinate id ranges whose sum fits in an [int],
    [createIDMap] gives a mapping whose mapped container ids are exactly
    [0 .. n-1], [n] being the sum of the lengths; [ToHost] sends each into one
    of the given ranges, and [ToContainer] brings it back. *)
Theorem createIDMap_bijection (rs : list subIDRange) (c : Z) :
  ranges_ok rs → disjoint_ranges rs → in_int64 c →
  (0 ≤ c < total rs →
     ∃ h r, ToHost c (Some (createIDMap rs)) = Ok h ∧ r ∈ rs ∧ in_host_range h r ∧
            ToContainer h (Some (createIDMap rs)) = Ok c) ∧
  (¬ (0 ≤ c < total rs) →
     ToHost c (Some (createIDMap rs)) = Err (ErrContainerUnmapped c)).
Proof.
  intros [Hok Ht] Hd Hc. unfold in_int64 in Hc.
  pose proof (merge_sort_Permutation range_le rs) as Hp. unfold createIDMap.
  set (l := merge_sort range_le rs) in *.
  assert (Hl : Forall range_ok l) by (by rewrite Hp).
  assert (Htl : total l = total rs) by (by apply total_perm).
  assert (Hdl : disjoint_ranges l) by (by eapply disjoint_ranges_perm).
  destruct (ToHost_loop_spec l 0 c) as [Hin Hout]; [lia|done|lia|]. simpl. split.
  - intros Hr. destruct Hin as (h & r & Hh & Hrin & Hrange); [lia|].
    exists h, r. split_and!; [done|by rewrite <-Hp|done|].
    eapply ToHost_ToContainer_loop; try done; lia.
  - intros Hr. apply Hout; lia.
Qed.

Lemma createIDMap_bijection_witness :
  ToContainer 200005 (Some (createIDMap [mkRange 200000 10; mkRange 100000 100])) = Ok 105 ∧
  ToHost 110 (Some (createIDMap [mkRange 200000 10; mkRange 100000 100])) = Err (ErrContainerUnmapped 110).
Proof.
  assert (Hd : disjoint_ranges [mkRange 200000 10; mkRange 100000 100]).
  { intros [|[|i]] [|[|j]] r s h Hi Hj; simplify_eq/=; unfold in_host_range; simpl; lia. }
  assert (Ho : ranges_ok [mkRange 200000 10; mkRange 100000 100]).
  { split; [|simpl; lia]. repeat constructor; simpl; lia. }
  split.
  - destruct (proj1 (createIDMap_bijection _ 105 Ho Hd ltac:(vm_compute; split; [discriminate|reflexivity]))
                ltac:(simpl; lia)) as (h & r & Hh & _ & _ & Hb).
    vm_compute in Hh. injection Hh as <-. exact Hb.
  - apply (proj2 (createIDMap_bijection _ 110 Ho Hd ltac:(vm_compute; split; [discriminate|reflexivity]))).
    simpl. lia.
Defined.

(** ** Parsing *)

(** A line of a subid file: an entry, or a comment or blank line. *)
Inductive subid_line := Entry (user : string) (start len : string) | Other (text : string).

(** An entry has no colon in its fields and no blank to trim. *)
Definition line_ok (l : subid_line) : Prop :=
  match l with
  | Entry u a b =>
      ContainsByte ":" u = false ∧ ContainsByte ":" a = false ∧ ContainsByte ":" b = false ∧
      TrimSpace (u +:+ ":" +:+ a +:+ ":" +:+ b) = u +:+ ":" +:+ a +:+ ":" +:+ b ∧
      HasPrefix (u +:+ ":" +:+ a +:+ ":" +:+ b) "#" = false ∧
      is_Some (Atoi a) ∧ is_Some (Atoi b)
  | Other t => TrimSpace t = "" ∨ HasPrefix (TrimSpace t) "#" = true
  end.

Definition print_line (l : subid_line) : string :=
  match l with
  | Entry u a b => u +:+ ":" +:+ a +:+ ":" +:+ b
  | Other t => t
  end.

(** The ranges a file is meant to give to a user. *)
Definition meant (username : string) (l : subid_line) : list subIDRange :=
  match l with
  | Entry u a b =>
      if bool_decide (u = username) || bool_decide (username = "ALL")
      then [mkRange (default 0 (Atoi a)) (default 0 (Atoi b))] else []
  | Other _ => []
  end.

Lemma Split_entry u a b :
  ContainsByte ":" u = false → ContainsByte ":" a = false → ContainsByte ":" b = false →
  Split ":" (u +:+ ":" +:+ a +:+ ":" +:+ b) = [u; a; b].
Proof.
  intros Hu Ha Hb. change (":" +:+ a +:+ ":" +:+ b) with (String ":" (a +:+ String ":" b)).
  by rewrite !Split_app, Split_none.
Qed.

Lemma parseSubid_loop_print username lines acc :
  Forall line_ok lines →
  parseSubid_loop username acc (map print_line lines) = (acc ++ concat (map (meant username) lines), None).
Proof.
  intros Hl. revert acc. induction Hl as [|l lines Hl _ IH]; intros acc; simpl.
  { by rewrite app_nil_r. }
  destruct l as [u a b|t]; simpl in *.
  - destruct Hl as (Hu & Ha & Hb & Htrim & Hpre & [x Hx] & [y Hy]).
    rewrite Htrim, Hpre, (Split_entry u a b) by done. rewrite orb_false_r.
    rewrite bool_decide_false by (by destruct u). rewrite Hx, Hy. simpl.
    destruct (_ || _); rewrite IH; simpl; by rewrite <-?app_assoc.
  - destruct Hl as [Ht|Ht].
    + rewrite bool_decide_true by done. simpl. by rewrite IH.
    + rewrite Ht, orb_true_r. by rewrite IH.
Qed.

(** A subid file made of well-formed entries, comments and blank lines is
    parsed without error, and gives a user the ranges of that user's lines
    in file order (all ranges for the special name ALL). *)
Theorem parseSubidFile_roundtrip username (lines : list subid_line) :
  Forall line_ok lines →
  parseSubidFile (Some (map print_line lines)) username =
    (concat (map (meant username) lines), None).
Proof. intros Hl. unfold parseSubidFile. by rewrite parseSubid_loop_print. Qed.

Lemma parseSubidFile_roundtrip_witness :
  parseSubidFile (Some ["# map"; "dockremap:100000:65536"; "u:1:2"]) "dockremap" =
    ([mkRange 100000 65536], None).
Proof.
  apply (parseSubidFile_roundtrip "dockremap"
    [Other "# map"; Entry "dockremap" "100000" "65536"; Entry "u" "1" "2"]).
  repeat apply Forall_cons_2; [| | |apply Forall_nil_2]; vm_compute;
    repeat (split || eexists || right || reflexivity).
Defined.
