(* ===== verification/StdCopy.v ===== *)
(** * pkg/stdcopy: multiplexing stdout and stderr over one connection

    Models [src/pkg/stdcopy/stdcopy.go]: [stdWriter.Write], which puts an
    8-byte header (stream type, big-endian [uint32] length) before each
    payload, and [StdCopy], which splits the stream again.

    An [io.Writer] is a state [W] with a function [wr] that takes the bytes and
    gives the count and the error.  An [io.Reader] is the data to come, a
    schedule that says how many bytes each call hands out (at most what the
    caller has room for; zero is allowed), the final error ([io.EOF] or
    another), and whether the last bytes come together with it. *)

From S2P Require Import Prelude.
From Stdlib Require Import Strings.Byte.
Local Open Scope Z_scope.

Abbreviation byte := Byte.byte.

#[global] Instance byte_eq_dec : EqDecision byte := Byte.byte_eq_dec.

Definition b2z (b : byte) : Z := Z.of_N (Byte.to_N b).
Definition z2b (z : Z) : byte := default Byte.x00 (Byte.of_N (Z.to_N (z `mod` 256))).

(** [StdType]. *)
Inductive StdType := Stdin | Stdout | Stderr.

Definition std_byte (t : StdType) : byte :=
  match t with Stdin => Byte.x00 | Stdout => Byte.x01 | Stderr => Byte.x02 end.

Definition stdWriterPrefixLen : nat := 8.
Definition stdWriterFdIndex : nat := 0.
Definition stdWriterSizeIndex : nat := 4.
Definition startingBufLen : nat := 32 * 1024 + stdWriterPrefixLen + 1.

(** [binary.BigEndian.PutUint32] and [Uint32]. *)
Definition PutUint32 (v : Z) : list byte :=
  [z2b (v `div` 2 ^ 24); z2b (v `div` 2 ^ 16); z2b (v `div` 2 ^ 8); z2b v].

Definition Uint32 (bs : list byte) : Z :=
  match bs with
  | b0 :: b1 :: b2 :: b3 :: _ =>
      ((b2z b0 * 256 + b2z b1) * 256 + b2z b2) * 256 + b2z b3
  | _ => 0
  end.

Definition header (prefix : byte) (p : list byte) : list byte :=
  [prefix; Byte.x00; Byte.x00; Byte.x00] ++ PutUint32 (Z.of_nat (length p) `mod` 2 ^ 32).

Section writer.
Context {W E : Type}.
Variable wr : W → list byte → Z * option E * W.

Record stdWriter := mkStdWriter { Writer : option W; prefix : byte }.

Inductive werror := ErrNotInstantiated | ErrUnderlying (e : E).

Definition NewStdWriter (w : W) (t : StdType) : stdWriter := mkStdWriter (Some w) (std_byte t).

(** [None] for [p] is the nil slice. *)
Definition Write (w : stdWriter) (p : option (list byte)) : Z * option werror * stdWriter :=
  match Writer w with
  | None => (0, Some ErrNotInstantiated, w)
  | Some u =>
      match p with
      | None => (0, None, w)
      | Some p =>
          let '(n, err, u') := wr u (header (prefix w) p ++ p) in
          let n := n - Z.of_nat stdWriterPrefixLen in
          ((if bool_decide (n < 0) then 0 else n), ErrUnderlying <$> err,
           mkStdWriter (Some u') (prefix w))
      end
  end.
End writer.

(** ** Readers *)

Inductive rerror := EOF | EOther (m : string).
#[global] Instance rerror_eq_dec : EqDecision rerror.
Proof. solve_decision. Defined.

Record reader := mkReader { rem : list byte; sched : list nat; fin : rerror; early : bool }.

Definition Read (cap : nat) (r : reader) : list byte * option rerror * reader :=
  match rem r with
  | [] => ([], Some (fin r), r)
  | _ =>
      let k := match sched r with [] => cap | n :: _ => min n cap end in
      let rest := drop k (rem r) in
      (take k (rem r),
       if early r && bool_decide (rest = []) then Some (fin r) else None,
       mkReader rest (tail (sched r)) (fin r) (early r))
  end.

(** ** StdCopy *)

Inductive cerror := CRead (m : string) | CHeader (b : byte) | CShortWrite | CWrite (m : string).

(** The result of reading until [need] bytes are buffered. *)
Inductive filled :=
| Filled (b : list byte) (r : reader)
| AtEOF (b : list byte)
| ReadError (m : string).

(** [for nr < need { nr2, er = src.Read(buf[nr:]); ... }]; [b] is [buf[:nr]].
    [None] when the fuel is used up. *)
Fixpoint fill (fuel : nat) (bufLen need : nat) (b : list byte) (r : reader) : option filled :=
  if decide (need ≤ length b)%nat then Some (Filled b r)
  else
    match fuel with
    | O => None
    | S fuel' =>
        let '(chunk, er, r') := Read (bufLen - length b) r in
        let b' := b ++ chunk in
        match er with
        | Some EOF => if decide (length b' < need)%nat then Some (AtEOF b') else Some (Filled b' r')
        | Some (EOther m) => Some (ReadError m)
        | None => fill fuel' bufLen need b' r'
        end
    end.

Section copy.
Context {W : Type}.
Variable wr : W → list byte → Z * option string * W.

Record copied := mkCopied { dstout : W; dsterr : W; written : Z; cerr : option cerror }.

(** The switch on the first byte: does the frame go to [dsterr]? *)
Definition route (fd : byte) : option bool :=
  if decide (fd = std_byte Stdin) then Some false
  else if decide (fd = std_byte Stdout) then Some false
  else if decide (fd = std_byte Stderr) then Some true
  else None.

(** The main loop; [buf] is [buf[:nr]], [w] the number of bytes written so
    far. *)
Fixpoint copy_loop (fuel : nat) (bufLen : nat) (buf : list byte) (r : reader)
    (out err : W) (w : Z) : option copied :=
  match fuel with
  | O => None
  | S fuel' =>
      match fill fuel bufLen stdWriterPrefixLen buf r with
      | None => None
      | Some (AtEOF _) => Some (mkCopied out err w None)
      | Some (ReadError m) => Some (mkCopied out err 0 (Some (CRead m)))
      | Some (Filled buf1 r1) =>
          let fd := nth stdWriterFdIndex buf1 Byte.x00 in
          match route fd with
          | None => Some (mkCopied out err 0 (Some (CHeader fd)))
          | Some to_err =>
              let frameSize := Z.to_nat (Uint32 (drop stdWriterSizeIndex buf1)) in
              let need := (frameSize + stdWriterPrefixLen)%nat in
              let bufLen1 := if decide (bufLen < need)%nat
                             then (bufLen + (need - bufLen + 1))%nat else bufLen in
              match fill fuel bufLen1 need buf1 r1 with
              | None => None
              | Some (AtEOF _) => Some (mkCopied out err w None)
              | Some (ReadError m) => Some (mkCopied out err 0 (Some (CRead m)))
              | Some (Filled buf2 r2) =>
                  let frame := take frameSize (drop stdWriterPrefixLen buf2) in
                  let '(nw, ew, dst) := wr (if to_err then err else out) frame in
                  let out' := if to_err then out else dst in
                  let err' := if to_err then dst else err in
                  match ew with
                  | Some m => Some (mkCopied out' err' 0 (Some (CWrite m)))
                  | None =>
                      if decide (nw ≠ Z.of_nat frameSize) then
                        Some (mkCopied out' err' 0 (Some CShortWrite))
                      else copy_loop fuel' bufLen1 (drop need buf2) r2 out' err' (w + nw)
                  end
              end
          end
      end
  end.

Definition StdCopy (fuel : nat) (out err : W) (src : reader) : option copied :=
  copy_loop fuel startingBufLen [] src out err 0.
End copy.

(** ** Bytes *)

Lemma b2z_range b : 0 ≤ b2z b < 256.
Proof. unfold b2z. pose proof (Byte.to_N_bounded b). lia. Qed.

Lemma b2z_z2b z : b2z (z2b z) = z `mod` 256.
Proof.
  unfold b2z, z2b. pose proof (Z.mod_pos_bound z 256 ltac:(lia)).
  destruct (Byte.of_N (Z.to_N (z `mod` 256))) as [b|] eqn:E; simpl.
  - apply Byte.to_of_N in E. rewrite E. lia.
  - apply Byte.of_N_None_iff in E. lia.
Qed.

Lemma Uint32_PutUint32 v l : Uint32 (PutUint32 v ++ l) = v `mod` 2 ^ 32.
Proof.
  simpl. rewrite !b2z_z2b.
  pose proof (Z.div_mod v 256 ltac:(lia)). pose proof (Z.div_mod (v `div` 256) 256 ltac:(lia)).
  pose proof (Z.div_mod (v `div` 256 `div` 256) 256 ltac:(lia)).
  pose proof (Z.div_mod v (2 ^ 32) ltac:(lia)).
  replace (v `div` 2 ^ 8) with (v `div` 256) by done.
  replace (v `div` 2 ^ 16) with (v `div` 256 `div` 256) by (rewrite Z.div_div; [done|lia..]).
  replace (v `div` 2 ^ 24) with (v `div` 256 `div` 256 `div` 256) by (rewrite !Z.div_div; [done|lia..]).
  replace (v `div` 2 ^ 32) with (v `div` 256 `div` 256 `div` 256 `div` 256) in *
    by (rewrite !Z.div_div; [done|lia..]).
  pose proof (Z.div_mod (v `div` 256 `div` 256 `div` 256) 256 ltac:(lia)). lia.
Qed.

(** ** Reading *)

(** What is still to be seen of the stream: the buffered bytes and the data to
    come. *)
Lemma Read_spec cap r : rem r ≠ [] → (0 < cap)%nat →
  let '(chunk, er, r') := Read cap r in
  chunk ++ rem r' = rem r ∧ fin r' = fin r ∧
  (length (rem r') + length (sched r') < length (rem r) + length (sched r))%nat ∧
  (er = None ∨ er = Some (fin r) ∧ rem r' = []).
Proof.
  intros Hr Hcap. unfold Read. destruct (rem r) as [|b l] eqn:E; [done|]. simpl.
  set (k := match sched r with [] => cap | n :: _ => min n cap end).
  split_and!.
  - apply take_drop.
  - done.
  - rewrite length_drop. subst k. destruct (sched r) as [|n ns]; simpl; lia.
  - destruct (early r); simpl; [|by left]. case_bool_decide; [by right|by left].
Qed.

(** With enough fuel, [fill] ends: it buffers [need] bytes when they are still
    to come, and reaches the end of the stream otherwise. *)
Lemma fill_spec fuel bufLen need b r :
  fin r = EOF → (need ≤ bufLen)%nat → (length (rem r) + length (sched r) < fuel)%nat →
  if decide (need ≤ length b + length (rem r))%nat
  then ∃ b' r', fill fuel bufLen need b r = Some (Filled b' r') ∧ b' ++ rem r' = b ++ rem r ∧
         (need ≤ length b')%nat ∧ fin r' = EOF ∧
         (length (rem r') + length (sched r') ≤ length (rem r) + length (sched r))%nat
  else fill fuel bufLen need b r = Some (AtEOF (b ++ rem r)).
Proof.
  revert b r. induction fuel as [|fuel IH]; intros b r Hfin Hbuf Hfuel; [lia|].
  cbn [fill]. destruct (decide (need ≤ length b)%nat) as [Hb|Hb].
  { rewrite decide_True by lia. by exists b, r. }
  destruct (decide (rem r = [])) as [Hr|Hr].
  { unfold Read. rewrite Hr, Hfin. simpl. rewrite app_nil_r.
    rewrite decide_False by lia. by rewrite decide_True by lia. }
  pose proof (Read_spec (bufLen - length b) r Hr ltac:(lia)) as HR.
  destruct (Read (bufLen - length b) r) as [[chunk er] r'].
  destruct HR as (Happ & Hf & Hlt & Her).
  assert (Hlen : (length chunk + length (rem r') = length (rem r))%nat).
  { by rewrite <-Happ, length_app. }
  destruct Her as [->|[-> Hnil]].
  - specialize (IH (b ++ chunk) r'). rewrite Hf in IH. specialize (IH Hfin Hbuf ltac:(lia)).
    rewrite length_app, <-app_assoc, Happ in IH.
    destruct (decide (need ≤ length b + length (rem r))%nat).
    + rewrite decide_True in IH by lia. destruct IH as (b2 & r2 & ? & ? & ? & ? & ?).
      exists b2, r2. split_and!; auto; lia.
    + by rewrite decide_False in IH by lia.
  - rewrite Hfin. rewrite Hnil in *. rewrite app_nil_r in Happ. subst chunk.
    simpl in Hlen. rewrite length_app.
    destruct (decide (need ≤ length b + length (rem r))%nat).
    + rewrite decide_False by lia. exists (b ++ rem r), r'.
      rewrite Hnil, app_nil_r, length_app. split_and!; auto; simpl in *; try lia; congruence.
    + by rewrite decide_True by lia.
Qed.

(** ** Round trip *)

(** A writer that takes everything. *)
Definition sink (w : list byte) (p : list byte) : Z * option string * list byte :=
  (Z.of_nat (length p), None, w ++ p).

(** The connection after the writers of the streams wrote the frames, in
    order, to it. *)
Definition mux_frame (conn : list byte) (f : StdType * list byte) : list byte :=
  match Write sink (NewStdWriter conn f.1) (Some f.2) with
  | (_, _, w) => default [] (Writer w)
  end.
Definition mux (frames : list (StdType * list byte)) : list byte := foldl mux_frame [] frames.

Definition to_stderr (f : StdType * list byte) : bool :=
  match f.1 with Stderr => true | _ => false end.
Definition payload (sel : bool) (frames : list (StdType * list byte)) : list byte :=
  concat (map (λ f, if Bool.eqb (to_stderr f) sel then f.2 else []) frames).

Definition wire (f : StdType * list byte) : list byte := header (std_byte f.1) f.2 ++ f.2.

Lemma mux_wire frames conn : foldl mux_frame conn frames = conn ++ concat (map wire frames).
Proof.
  revert conn. induction frames as [|f fs IH]; intros conn; simpl; [by rewrite app_nil_r|].
  rewrite IH. unfold mux_frame. simpl. by rewrite <-app_assoc.
Qed.

Lemma header_length b p : length (header b p) = stdWriterPrefixLen.
Proof. done. Qed.

Lemma header_size b p l :
  Z.of_nat (length p) < 2 ^ 32 →
  Z.to_nat (Uint32 (drop stdWriterSizeIndex (header b p ++ l))) = length p.
Proof.
  intros Hp. change (drop stdWriterSizeIndex (header b p ++ l))
    with (PutUint32 (Z.of_nat (length p) `mod` 2 ^ 32) ++ l).
  rewrite Uint32_PutUint32, Z.mod_mod, Z.mod_small by lia. lia.
Qed.

Lemma route_std t : route (std_byte t) = Some (match t with Stderr => true | _ => false end).
Proof. by destruct t. Qed.

Lemma prefix_of_app {A} (b r h l : list A) :
  b ++ r = h ++ l → (length h ≤ length b)%nat → ∃ b', b = h ++ b' ∧ b' ++ r = l.
Proof.
  intros E Hl. exists (drop (length h) b).
  assert (Hh : take (length h) b = h).
  { rewrite <-(take_app_le b r) by done. rewrite E. by rewrite take_app_length. }
  split.
  - rewrite <-Hh at 1. by rewrite take_drop.
  - rewrite <-(take_drop (length h) b), Hh, <-app_assoc in E. by simplify_list_eq.
Qed.

(** One turn of the main loop on a complete frame. *)
Lemma copy_loop_frame fuel bufLen b r out err w t p rest :
  fin r = EOF → (stdWriterPrefixLen ≤ bufLen)%nat → Z.of_nat (length p) < 2 ^ 32 →
  b ++ rem r = wire (t, p) ++ rest →
  (length (rem r) + length (sched r) < S fuel)%nat →
  ∃ b' r' bufLen',
    copy_loop sink (S fuel) bufLen b r out err w =
      copy_loop sink fuel bufLen' b' r' (if to_stderr (t, p) then out else out ++ p)
        (if to_stderr (t, p) then err ++ p else err) (w + Z.of_nat (length p)) ∧
    b' ++ rem r' = rest ∧ fin r' = EOF ∧ (stdWriterPrefixLen ≤ bufLen')%nat ∧
    (length (rem r') + length (sched r') ≤ length (rem r) + length (sched r))%nat.
Proof.
  intros Hfin Hbuf Hp Hb Hfuel.
  assert (Hlen : (length b + length (rem r) = 8 + length p + length rest)%nat).
  { apply (f_equal length) in Hb. rewrite !length_app in Hb. done. }
  pose proof (fill_spec (S fuel) bufLen stdWriterPrefixLen b r Hfin Hbuf Hfuel) as Hf1.
  rewrite decide_True in Hf1 by (unfold stdWriterPrefixLen; lia).
  destruct Hf1 as (b1 & r1 & E1 & Hb1 & Hl1 & Hfin1 & Hm1).
  rewrite Hb in Hb1. unfold wire in Hb1. simpl fst in Hb1. simpl snd in Hb1.
  rewrite <-app_assoc in Hb1.
  destruct (prefix_of_app b1 (rem r1) (header (std_byte t) p) (p ++ rest)) as (b1' & -> & Hb1');
    [done|by rewrite header_length|].
  cbn [copy_loop]. rewrite E1. simpl nth.
  change (nth stdWriterFdIndex (header (std_byte t) p ++ b1') Byte.x00) with (std_byte t).
  rewrite route_std, header_size by done.
  set (bufLen1 := if decide _ then _ else _).
  assert (Hbuf1 : (length p + stdWriterPrefixLen ≤ bufLen1)%nat).
  { subst bufLen1. destruct (decide _); lia. }
  pose proof (fill_spec (S fuel) bufLen1 (length p + stdWriterPrefixLen)
    (header (std_byte t) p ++ b1') r1 Hfin1 Hbuf1 ltac:(lia)) as Hf2.
  rewrite decide_True in Hf2.
  2: { apply (f_equal length) in Hb1'. rewrite !length_app in *. rewrite header_length in *. lia. }
  destruct Hf2 as (b2 & r2 & E2 & Hb2 & Hl2 & Hfin2 & Hm2). rewrite E2.
  rewrite <-app_assoc, Hb1', app_assoc in Hb2.
  destruct (prefix_of_app b2 (rem r2) (header (std_byte t) p ++ p) rest) as (b2' & -> & Hb2');
    [done|rewrite length_app, header_length; lia|].
  assert (Hframe : take (length p) (drop stdWriterPrefixLen ((header (std_byte t) p ++ p) ++ b2')) = p).
  { rewrite <-app_assoc. change (drop stdWriterPrefixLen (header (std_byte t) p ++ p ++ b2')) with (p ++ b2').
    by rewrite take_app_length. }
  assert (Hdrop : drop (length p + stdWriterPrefixLen) ((header (std_byte t) p ++ p) ++ b2') = b2').
  { rewrite drop_app_ge; rewrite length_app, header_length; [|lia].
    by replace (length p + stdWriterPrefixLen - (stdWriterPrefixLen + length p))%nat with 0%nat by lia. }
  rewrite Hframe, Hdrop. unfold sink at 1.
  destruct (decide (Z.of_nat (length p) ≠ Z.of_nat (length p))); [done|].
  exists b2', r2, bufLen1. split_and!; auto; [|lia|lia].
  by destruct t.
Qed.

(** The loop gets past complete frames, whatever follows them. *)
Lemma copy_loop_frames frames rest : ∀ fuel bufLen b r out err w,
  Forall (λ f, Z.of_nat (length f.2) < 2 ^ 32) frames →
  fin r = EOF → (stdWriterPrefixLen ≤ bufLen)%nat →
  b ++ rem r = concat (map wire frames) ++ rest →
  (length (rem r) + length (sched r) + length frames < fuel)%nat →
  ∃ fuel' bufLen' b' r',
    copy_loop sink fuel bufLen b r out err w =
      copy_loop sink (S fuel') bufLen' b' r' (out ++ payload false frames) (err ++ payload true frames)
        (w + Z.of_nat (length (payload false frames) + length (payload true frames))) ∧
    b' ++ rem r' = rest ∧ fin r' = EOF ∧ (stdWriterPrefixLen ≤ bufLen')%nat ∧
    (length (rem r') + length (sched r') < S fuel')%nat.
Proof.
  induction frames as [|[t p] frames IH]; intros fuel bufLen b r out err w Hall Hfin Hbuf Hb Hfuel.
  - destruct fuel as [|fuel]; [lia|]. exists fuel, bufLen, b, r.
    unfold payload; simpl. rewrite !app_nil_r, Z.add_0_r. split_and!; auto. simpl in Hfuel. lia.
  - destruct fuel as [|fuel]; [lia|]. simpl in Hfuel.
    apply Forall_cons in Hall as [Hp Hall]. cbn [snd] in Hp.
    destruct (copy_loop_frame fuel bufLen b r out err w t p (concat (map wire frames) ++ rest))
      as (b' & r' & bufLen' & -> & Hb' & Hfin' & Hbuf' & Hm); [done..| |lia|].
    { rewrite Hb. simpl. by rewrite <-app_assoc. }
    destruct (IH fuel bufLen' b' r' (if to_stderr (t, p) then out else out ++ p)
      (if to_stderr (t, p) then err ++ p else err) (w + Z.of_nat (length p)))
      as (f2 & l2 & b2 & r2 & -> & ?); [done..|lia|].
    exists f2, l2, b2, r2. split; [|done].
    assert (Hpay : ∀ sel, payload sel ((t, p) :: frames) =
      (if Bool.eqb (to_stderr (t, p)) sel then p else []) ++ payload sel frames) by done.
    rewrite !Hpay. destruct (to_stderr (t, p)); simpl Bool.eqb; cbv iota;
      rewrite ?length_app, <-?app_assoc; f_equal; simpl; lia.
Qed.

(** C9: the multiplexer and the demultiplexer are inverse: whatever frames
    (each shorter than 2^32 bytes) are written to stdin, stdout and stderr
    writers over one connection, and however the reader cuts the stream into
    chunks, [StdCopy] returns with no error, having written to [dstout]
    exactly the stdin and stdout payloads and to [dsterr] the stderr
    payloads, in order, and reports the total number of bytes. *)
Theorem StdCopy_roundtrip (frames : list (StdType * list byte)) (sched : list nat) (early : bool) fuel :
  Forall (λ f, Z.of_nat (length f.2) < 2 ^ 32) frames →
  (length (mux frames) + length sched + length frames < fuel)%nat →
  StdCopy sink fuel [] [] (mkReader (mux frames) sched EOF early) =
    Some (mkCopied (payload false frames) (payload true frames)
            (Z.of_nat (length (payload false frames) + length (payload true frames))) None).
Proof.
  intros Hall Hfuel. unfold StdCopy.
  assert (Hm : mux frames = concat (map wire frames)) by apply mux_wire.
  destruct (copy_loop_frames frames [] fuel startingBufLen []
    (mkReader (mux frames) sched EOF early) [] [] 0) as (f & l & b & r & -> & Hb & Hfin & Hbuf & Hf);
    [done|done|unfold startingBufLen; lia|simpl; by rewrite Hm, app_nil_r|done|].
  apply app_nil in Hb as [-> Hr].
  pose proof (fill_spec (S f) l stdWriterPrefixLen [] r Hfin Hbuf Hf) as Hfill.
  rewrite Hr in Hfill. rewrite decide_False in Hfill by (simpl; unfold stdWriterPrefixLen; lia).
  cbn [copy_loop]. by rewrite Hfill.
Qed.

Lemma StdCopy_roundtrip_witness :
  StdCopy sink 60 [] []
    (mkReader (mux [(Stdout, [Byte.x61; Byte.x62]); (Stderr, [Byte.x63])]) [3; 0; 1; 9]%nat EOF true) =
    Some (mkCopied [Byte.x61; Byte.x62] [Byte.x63] 3 None).
Proof.
  apply (StdCopy_roundtrip [(Stdout, [Byte.x61; Byte.x62]); (Stderr, [Byte.x63])] [3; 0; 1; 9]%nat true 60).
  - repeat constructor.
  - vm_compute. lia.
Defined.

(** A header whose first byte is no stream type stops the copy with an
    error; every frame before it has been delivered, but the byte count
    reported with the error is 0, not the number of bytes written. *)
Theorem StdCopy_bad_header (frames : list (StdType * list byte)) (fd : byte) (hdr junk : list byte)
    (sched : list nat) (early : bool) fuel :
  Forall (λ f, Z.of_nat (length f.2) < 2 ^ 32) frames →
  route fd = None → length hdr = 7%nat →
  (length (mux frames ++ fd :: hdr ++ junk) + length sched + length frames < fuel)%nat →
  StdCopy sink fuel [] [] (mkReader (mux frames ++ fd :: hdr ++ junk) sched EOF early) =
    Some (mkCopied (payload false frames) (payload true frames) 0 (Some (CHeader fd))).
Proof.
  intros Hall Hfd Hhdr Hfuel. unfold StdCopy.
  assert (Hm : mux frames = concat (map wire frames)) by apply mux_wire.
  destruct (copy_loop_frames frames (fd :: hdr ++ junk) fuel startingBufLen []
    (mkReader (mux frames ++ fd :: hdr ++ junk) sched EOF early) [] [] 0)
    as (f & l & b & r & -> & Hb & Hfin & Hbuf & Hf);
    [done|done|unfold startingBufLen; lia|simpl; by rewrite Hm|done|].
  assert (Hlen : (8 ≤ length b + length (rem r))%nat).
  { apply (f_equal length) in Hb. rewrite length_app in Hb. rewrite Hb. simpl.
    rewrite length_app. lia. }
  pose proof (fill_spec (S f) l stdWriterPrefixLen b r Hfin Hbuf Hf) as Hfill.
  rewrite decide_True in Hfill by (unfold stdWriterPrefixLen; lia).
  destruct Hfill as (b1 & r1 & E1 & Hb1 & Hl1 & _). rewrite Hb in Hb1.
  destruct b1 as [|fd' b1]; [simpl in Hl1; unfold stdWriterPrefixLen in Hl1; lia|].
  simplify_eq/=. cbn [copy_loop]. rewrite E1. simpl nth. by rewrite Hfd.
Qed.

Lemma StdCopy_bad_header_witness :
  StdCopy sink 60 [] []
    (mkReader (mux [(Stdout, [Byte.x61; Byte.x62])] ++ Byte.x09 :: replicate 7 Byte.x00 ++ []) [3]%nat EOF true) =
    Some (mkCopied [Byte.x61; Byte.x62] [] 0 (Some (CHeader Byte.x09))).
Proof.
  apply (StdCopy_bad_header [(Stdout, [Byte.x61; Byte.x62])] Byte.x09 (replicate 7 Byte.x00) [] [3]%nat true 60);
    [repeat constructor|reflexivity|reflexivity|vm_compute; lia].
Defined.
