(* ===== verification/Reference.v ===== *)
(** * reference: image names

    Models [src/reference/reference.go]: the normal form of a repository name
    ([normalize]), the split of a name into registry host and remote name
    ([splitHostname]), and the references built on a name.  The grammar of
    github.com/docker/distribution/reference is a parameter ([Grammar]): its
    parser and the three regular expressions that accept a name, a tag and a
    digest.  A [Named] value is one of the three structs that implement the
    interface. *)

From S2P Require Import Prelude.
From S2P Require Import GoStrings.

Definition DefaultTag : string := "latest".
Definition DefaultHostname : string := "docker.io".
Definition LegacyDefaultHostname : string := "index.docker.io".
Definition DefaultRepoPrefix : string := "library/".

(** [namedRef], [taggedRef] and [canonicalRef]. *)
Inductive Named :=
| namedRef (name : string)
| taggedRef (name tag : string)
| canonicalRef (name digest : string).

#[global] Instance Named_eq_dec : EqDecision Named.
Proof. solve_decision. Defined.

#[global] Instance Named_countable : Countable Named.
Proof.
  refine (inj_countable'
    (λ r, match r with
          | namedRef n => inl n
          | taggedRef n t => inr (inl (n, t))
          | canonicalRef n d => inr (inr (n, d))
          end)
    (λ x, match x with
          | inl n => namedRef n
          | inr (inl (n, t)) => taggedRef n t
          | inr (inr (n, d)) => canonicalRef n d
          end) _).
  by intros [].
Defined.

Definition Name (r : Named) : string :=
  match r with namedRef n => n | taggedRef n _ => n | canonicalRef n _ => n end.

Definition ref_String (r : Named) : string :=
  match r with
  | namedRef n => n
  | taggedRef n t => n +:+ ":" +:+ t
  | canonicalRef n d => n +:+ "@" +:+ d
  end.

Definition isCanonical (r : Named) : bool := match r with canonicalRef _ _ => true | _ => false end.

Definition IsNameOnly (r : Named) : bool := match r with namedRef _ => true | _ => false end.

(** "latest" is a valid tag, so that [WithTag] does not fail here. *)
Definition WithDefaultTag (r : Named) : Named :=
  match r with namedRef n => taggedRef n DefaultTag | _ => r end.

(** ** Host names *)

Definition splitHostname (name : string) : string * string :=
  let '(hostname, remoteName) :=
    match Cut "/" name with
    | (_, None) => (DefaultHostname, name)
    | (h, Some rest) =>
        if negb (ContainsByte "." h || ContainsByte ":" h) && bool_decide (h ≠ "localhost")
        then (DefaultHostname, name) else (h, rest)
    end in
  let hostname := if bool_decide (hostname = LegacyDefaultHostname) then DefaultHostname else hostname in
  let remoteName :=
    if bool_decide (hostname = DefaultHostname) && negb (ContainsByte "/" remoteName)
    then DefaultRepoPrefix +:+ remoteName else remoteName in
  (hostname, remoteName).

Definition Hostname (r : Named) : string := (splitHostname (Name r)).1.
Definition RemoteName (r : Named) : string := (splitHostname (Name r)).2.
Definition FullName (r : Named) : string :=
  let '(hostname, remoteName) := splitHostname (Name r) in hostname +:+ "/" +:+ remoteName.

(** [strings.TrimPrefix]. *)
Fixpoint TrimPrefix (s p : string) {struct p} : string :=
  match p with
  | EmptyString => s
  | String a p' => match s with String _ s' => TrimPrefix s' p' | EmptyString => s end
  end.

Inductive error := ErrNotLowercase | ErrHexName | ErrInvalidFormat | ErrParse.

Definition normalize (unicode_lower : string → string) (name : string) : outcome error string :=
  let '(host, remoteName) := splitHostname name in
  if bool_decide (ToLower unicode_lower remoteName ≠ remoteName) then Err ErrNotLowercase
  else if bool_decide (host = DefaultHostname) then
    if HasPrefix remoteName DefaultRepoPrefix then Ok (TrimPrefix remoteName DefaultRepoPrefix)
    else Ok remoteName
  else Ok name.

(** [v1.ValidateID]: 64 lower-case hexadecimal digits. *)
Definition is_hex (a : ascii) : bool :=
  in_range 48 57 (byte_val a) || in_range 97 102 (byte_val a).
Fixpoint all_bytes (f : ascii → bool) (s : string) : bool :=
  match s with EmptyString => true | String a s' => f a && all_bytes f s' end.
Definition ValidateID (id : string) : bool :=
  bool_decide (String.length id = 64) && all_bytes is_hex id.

Definition validateName (name : string) : option error :=
  if ValidateID name then Some ErrHexName else None.

(** ** The grammar of the distribution library *)

(** What [distreference.ParseNamed] returns: a name, with a tag, a digest, or
    both. *)
Record distref := mkDist { dr_name : string; dr_tag : string; dr_digest : string }.

Record Grammar := mkGrammar {
  dist_ParseNamed : string → option distref;
  name_ok : string → bool;      (* anchoredNameRegexp and the length limit *)
  tag_ok : string → bool;       (* anchoredTagRegexp *)
  digest_ok : string → bool;    (* anchoredDigestRegexp *)
  ParseDigest : string → bool;  (* digest.ParseDigest succeeds *)
  unicode_lower : string → string;  (* strings.ToLower outside ASCII *)
}.

Section parse.
Variable G : Grammar.

Definition WithName (name : string) : outcome error Named :=
  match normalize (unicode_lower G) name with
  | Ok name =>
      match validateName name with
      | Some e => Err e
      | None => if name_ok G name then Ok (namedRef name) else Err ErrInvalidFormat
      end
  | Err e => Err e
  | Panic m => Panic m
  end.

Definition WithTag (r : Named) (tag : string) : outcome error Named :=
  if tag_ok G tag then Ok (taggedRef (Name r) tag) else Err ErrInvalidFormat.

Definition WithDigest (r : Named) (digest : string) : outcome error Named :=
  if digest_ok G digest then Ok (canonicalRef (Name r) digest) else Err ErrInvalidFormat.

(** A reference with a tag and a digest implements [distreference.Canonical]:
    the tag is dropped. *)
Definition ParseNamed (s : string) : outcome error Named :=
  match dist_ParseNamed G s with
  | None => Err ErrParse
  | Some d =>
      match WithName (dr_name d) with
      | Ok r =>
          if bool_decide (dr_digest d ≠ "") then WithDigest r (dr_digest d)
          else if bool_decide (dr_tag d ≠ "") then WithTag r (dr_tag d)
          else Ok r
      | e => e
      end
  end.

(** The digest of an image identifier, or a reference. *)
Definition ParseIDOrReference (idOrRef : string) : outcome error (string + Named) :=
  let idOrRef := if ValidateID idOrRef then "sha256:" +:+ idOrRef else idOrRef in
  if ParseDigest G idOrRef then Ok (inl idOrRef)
  else match ParseNamed idOrRef with
       | Ok r => Ok (inr r)
       | Err e => Err e
       | Panic m => Panic m
       end.
End parse.

(** ** References that the grammar admits *)

(** No [@] in a name or a tag, no colon in a tag, no [@] in a digest. *)
Definition wf_ref (r : Named) : Prop :=
  match r with
  | namedRef n => ContainsByte "@" n = false
  | taggedRef n t =>
      ContainsByte "@" n = false ∧ ContainsByte "@" t = false ∧ ContainsByte ":" t = false
  | canonicalRef n d => ContainsByte "@" n = false ∧ ContainsByte "@" d = false
  end.

#[global] Instance wf_ref_dec r : Decision (wf_ref r).
Proof. destruct r; simpl; apply _. Defined.

Lemma last_colon n t n' t' :
  ContainsByte ":" t = false → ContainsByte ":" t' = false →
  n +:+ ":" +:+ t = n' +:+ ":" +:+ t' → n = n' ∧ t = t'.
Proof.
  intros Ht Ht'. revert n'. induction n as [|a n IH]; intros [|b n'] E.
  - change (String ":" t = String ":" t') in E. by simplify_eq.
  - change (String ":" t = String b (n' +:+ ":" +:+ t')) in E. simplify_eq.
    rewrite ContainsByte_app in Ht. change (":" +:+ t') with (String ":" t') in Ht. simpl in Ht.
    by rewrite orb_true_r in Ht.
  - change (String a (n +:+ ":" +:+ t) = String ":" t') in E. simplify_eq.
    rewrite ContainsByte_app in Ht'. change (":" +:+ t) with (String ":" t) in Ht'. simpl in Ht'.
    by rewrite orb_true_r in Ht'.
  - rewrite !app_cons_str in E. simplify_eq. destruct (IH n') as [-> ->]; done.
Qed.

(** Among tagged and canonical references, the string determines the
    reference. *)
Lemma ref_String_inj r1 r2 :
  wf_ref r1 → wf_ref r2 → IsNameOnly r1 = false → IsNameOnly r2 = false →
  ref_String r1 = ref_String r2 → r1 = r2.
Proof.
  intros H1 H2 N1 N2 E. destruct r1 as [|n t|n d], r2 as [|n' t'|n' d']; try done; simpl in *.
  - destruct (last_colon n t n' t') as [-> ->]; naive_solver.
  - exfalso. destruct H1 as (Hn & Ht & _). apply (f_equal (ContainsByte "@")) in E.
    rewrite !ContainsByte_app, Hn, Ht in E. simpl in E. by rewrite orb_true_r in E.
  - exfalso. destruct H2 as (Hn & Ht & _). apply (f_equal (ContainsByte "@")) in E.
    rewrite !ContainsByte_app, Hn, Ht in E. simpl in E. by rewrite orb_true_r in E.
  - destruct H1 as [Hn Hd], H2 as [Hn' Hd'].
    pose proof (Cut_app "@" n d Hn) as C. pose proof (Cut_app "@" n' d' Hn') as C'.
    change ("@" +:+ d) with (String "@" d) in E. change ("@" +:+ d') with (String "@" d') in E.
    rewrite E, C' in C. by simplify_eq.
Qed.

Lemma WithDefaultTag_wf r : wf_ref r → wf_ref (WithDefaultTag r) ∧ IsNameOnly (WithDefaultTag r) = false.
Proof. destruct r; simpl; split; auto. Qed.

Lemma WithDefaultTag_name r : Name (WithDefaultTag r) = Name r.
Proof. by destruct r. Qed.

(** ** The location a name denotes *)

(** [splitHostname] takes a first component for a registry host. *)
Definition hostlike (h : string) : bool :=
  ContainsByte "." h || ContainsByte ":" h || bool_decide (h = "localhost").

(** The remote names of docker.io that keep their location when the host is
    dropped: an official image, or a path under a user that neither looks like
    a host nor is [library]. *)
Definition droppable (remote : string) : bool :=
  match Cut "/" remote with
  | (h, Some rest) =>
      if bool_decide (h = "library") then negb (ContainsByte "/" rest) else negb (hostlike h)
  | (_, None) => false
  end.

Lemma splitHostname_host h rest :
  ContainsByte "/" h = false → hostlike h = false →
  splitHostname (h +:+ String "/" rest) = (DefaultHostname, h +:+ String "/" rest).
Proof.
  intros Hh Hl. unfold splitHostname. rewrite Cut_app by done.
  unfold hostlike in Hl. apply orb_false_iff in Hl as [Hl Hloc].
  rewrite Hl. simpl. apply bool_decide_eq_false in Hloc.
  rewrite bool_decide_eq_true_2 by done. simpl.
  rewrite ContainsByte_app. simpl. by rewrite orb_true_r.
Qed.

Lemma splitHostname_official x :
  ContainsByte "/" x = false → splitHostname x = (DefaultHostname, DefaultRepoPrefix +:+ x).
Proof. intros Hx. unfold splitHostname. rewrite Cut_none by done. simpl. by rewrite Hx. Qed.

Lemma Cut_Some c s h rest : Cut c s = (h, Some rest) → s = h +:+ String c rest ∧ ContainsByte c h = false.
Proof.
  revert h. induction s as [|a s IH]; intros h; simpl; [done|].
  destruct (ascii_dec a c) as [->|Hne]; intros E.
  - by simplify_eq.
  - destruct (Cut c s) as [h' [r|]]; simplify_eq.
    destruct (IH h' eq_refl) as [-> Hc]. split; [done|]. simpl.
    by destruct (ascii_dec a c).
Qed.

Lemma HasPrefix_library h rest :
  ContainsByte "/" h = false →
  HasPrefix (h +:+ String "/" rest) DefaultRepoPrefix = bool_decide (h = "library").
Proof.
  intros Hh. unfold DefaultRepoPrefix.
  do 7 (destruct h as [|? h]; [done|]; rewrite app_cons_str; cbn [HasPrefix];
        match goal with |- context [ascii_dec ?a ?b] => destruct (ascii_dec a b) as [<-|Hc] end;
        [|symmetry; apply bool_decide_eq_false; naive_solver]).
  destruct h as [|a h]; [by destruct rest|]. rewrite app_cons_str. cbn [HasPrefix].
  match goal with |- context [ascii_dec ?a ?b] => destruct (ascii_dec a b) as [<-|Hc] end; [done|].
  symmetry. apply bool_decide_eq_false. naive_solver.
Qed.

(** What [normalize] returns for the remote name of a docker.io repository. *)
Lemma normalize_docker_io ul name r n :
  splitHostname name = (DefaultHostname, r) → normalize ul name = Ok n →
  ToLower ul r = r ∧
  n = if HasPrefix r DefaultRepoPrefix then TrimPrefix r DefaultRepoPrefix else r.
Proof.
  unfold normalize. intros ->. destruct (decide (ToLower ul r = r)) as [Hl|Hl].
  - rewrite (bool_decide_eq_false_2 (ToLower ul r ≠ r)) by naive_solver. simpl.
    intros E. split; [done|]. by destruct (HasPrefix r DefaultRepoPrefix); simplify_eq.
  - by rewrite (bool_decide_eq_true_2 (ToLower ul r ≠ r)).
Qed.

(** A normalised name denotes the same registry and the same remote
    repository as the name it was made from, and is a fixed point of
    [normalize] -- for every registry other than docker.io, and on docker.io
    for the official images and for the repositories of a user whose name does
    not look like a host. *)
Theorem normalize_keeps_location ul name n :
  normalize ul name = Ok n →
  (splitHostname name).1 ≠ DefaultHostname ∨ droppable (splitHostname name).2 = true →
  splitHostname n = splitHostname name ∧ normalize ul n = Ok n.
Proof.
  intros Hn Hc. assert (splitHostname n = splitHostname name) as Hs.
  { destruct (splitHostname name) as [h r] eqn:Hs; simpl in Hc.
    destruct (decide (h = DefaultHostname)) as [->|Hh].
    - destruct (normalize_docker_io ul name r n Hs Hn) as [_ ->].
      destruct Hc as [|Hd]; [done|]. unfold droppable in Hd.
      destruct (Cut "/" r) as [h [rest|]] eqn:Hr; [|done].
      apply Cut_Some in Hr as [-> Hh]. rewrite HasPrefix_library by done.
      case_bool_decide; subst.
      + simpl. apply negb_true_iff in Hd. by apply splitHostname_official.
      + apply negb_true_iff in Hd. by apply splitHostname_host.
    - unfold normalize in Hn. rewrite Hs in Hn.
      rewrite (bool_decide_eq_false_2 (h = DefaultHostname)) in Hn by done.
      by case_bool_decide; simplify_eq. }
  split; [done|]. unfold normalize in *. rewrite Hs.
  destruct (splitHostname name) as [h r]. case_bool_decide; [done|].
  case_bool_decide; [|naive_solver]. by destruct (HasPrefix _ _); simplify_eq.
Qed.

Lemma normalize_keeps_location_witness :
  splitHostname "redis" = splitHostname "docker.io/library/redis" ∧ normalize id "redis" = Ok "redis".
Proof. apply (normalize_keeps_location id "docker.io/library/redis"); [reflexivity|]. by right. Defined.

Lemma splitHostname_hostlike h rest :
  ContainsByte "/" h = false → hostlike h = true → h ≠ LegacyDefaultHostname → h ≠ DefaultHostname →
  splitHostname (h +:+ String "/" rest) = (h, rest).
Proof.
  intros Hh Hl H1 H2. unfold splitHostname. rewrite Cut_app by done. unfold hostlike in Hl.
  assert (negb (ContainsByte "." h || ContainsByte ":" h) && bool_decide (h ≠ "localhost") = false) as ->.
  { destruct (ContainsByte "." h || ContainsByte ":" h); [done|]. simpl in *.
    apply bool_decide_eq_true in Hl. by subst. }
  by rewrite bool_decide_eq_false_2, bool_decide_eq_false_2 by done.
Qed.

(** Outside that domain the location is lost: for a repository of docker.io
    whose first component looks like a host, [normalize] succeeds and the name
    it returns denotes a repository of that host. *)
Theorem normalize_loses_location ul u r :
  ContainsByte "/" u = false → hostlike u = true → u ≠ LegacyDefaultHostname → u ≠ DefaultHostname →
  let name := "docker.io/" +:+ u +:+ "/" +:+ r in
  ToLower ul (u +:+ "/" +:+ r) = u +:+ "/" +:+ r →
  normalize ul name = Ok (u +:+ "/" +:+ r) ∧
  splitHostname name = (DefaultHostname, u +:+ "/" +:+ r) ∧
  splitHostname (u +:+ "/" +:+ r) = (u, r).
Proof.
  intros Hu Hl H1 H2 name Hlow. change ("/" +:+ r) with (String "/" r) in *.
  assert (splitHostname name = (DefaultHostname, u +:+ String "/" r)) as Hs.
  { unfold name. change ("docker.io/" +:+ u +:+ String "/" r)
      with ("docker.io" +:+ String "/" (u +:+ String "/" r)).
    unfold splitHostname. rewrite Cut_app by done. simpl. rewrite ContainsByte_app. simpl.
    by rewrite orb_true_r. }
  split_and!; [|done|by apply splitHostname_hostlike].
  unfold normalize. rewrite Hs. rewrite (bool_decide_eq_false_2 (ToLower _ _ ≠ _)) by naive_solver.
  rewrite bool_decide_eq_true_2 by done. rewrite HasPrefix_library by done.
  rewrite bool_decide_eq_false_2; [done|]. by intros ->.
Qed.

Lemma normalize_loses_location_witness :
  normalize id "docker.io/foo.bar/baz" = Ok "foo.bar/baz" ∧
  splitHostname "docker.io/foo.bar/baz" = ("docker.io", "foo.bar/baz") ∧
  splitHostname "foo.bar/baz" = ("foo.bar", "baz").
Proof. apply (normalize_loses_location id "foo.bar" "baz"); done. Defined.
