(* ===== verification/ReferenceStore.v ===== *)
(** * reference: the tag store

    Models [src/reference/store.go]: the table of repositories (name, then the
    string of the reference, to an image ID), the reverse cache from image ID
    to references, and the JSON file they are saved to.  A Go map of maps is a
    [gmap] of [gmap]s; a nil inner map and an absent key behave alike in every
    operation and are both [None].  The only outside effect is the atomic write
    of the file: its success is an argument of the operations that save.

    The abstract state is one finite map from references to image IDs, and
    every operation is shown to return what that map says. *)

From S2P Require Import Prelude.
From S2P Require Import GoStrings.
From S2P Require Import Reference.

Abbreviation ID := string.

(** ** Maps of maps *)

Section nested.
Context {K1 K2 V : Type} `{Countable K1, Countable K2}.
Implicit Types m : gmap K1 (gmap K2 V).

(** [m[i][j]]. *)
Definition nget m (i : K1) (j : K2) : option V := m !! i ≫= λ r, r !! j.

(** [if m[i] == nil { m[i] = make(..) }; m[i][j] = v]. *)
Definition nadd m (i : K1) (j : K2) (v : V) : gmap K1 (gmap K2 V) :=
  <[i := <[j := v]> (default ∅ (m !! i))]> m.

(** [if m[i] != nil { delete(m[i], j); if len(m[i]) == 0 { delete(m, i) } }]. *)
Definition ndrop m (i : K1) (j : K2) : gmap K1 (gmap K2 V) :=
  match m !! i with
  | None => m
  | Some r => let r' := delete j r in
              if decide (size r' = 0) then delete i m else <[i := r']> m
  end.

Definition no_empty m : Prop := ∀ i r, m !! i = Some r → r ≠ ∅.

Lemma nget_nadd m i j v i' j' :
  nget (nadd m i j v) i' j' = if decide (i' = i ∧ j' = j) then Some v else nget m i' j'.
Proof.
  unfold nget, nadd. destruct (decide (i' = i)) as [->|Hi].
  - rewrite lookup_insert_eq. simpl. destruct (decide (j' = j)) as [->|Hj].
    + rewrite lookup_insert_eq, decide_True; done.
    + rewrite lookup_insert_ne, decide_False by naive_solver. by destruct (m !! i).
  - rewrite lookup_insert_ne, decide_False by naive_solver. done.
Qed.

Lemma nget_ndrop m i j i' j' :
  nget (ndrop m i j) i' j' = if decide (i' = i ∧ j' = j) then None else nget m i' j'.
Proof.
  unfold nget, ndrop. destruct (m !! i) as [r|] eqn:Hm.
  - destruct (decide (size _ = 0)) as [Hs|Hs].
    + apply map_size_empty_inv in Hs. destruct (decide (i' = i)) as [->|Hi].
      * rewrite lookup_delete_eq, Hm. simpl. destruct (decide _) as [|Hd]; [done|].
        rewrite <-(lookup_delete_ne r j j') by naive_solver. by rewrite Hs, lookup_empty.
      * rewrite lookup_delete_ne, decide_False by naive_solver. done.
    + destruct (decide (i' = i)) as [->|Hi].
      * rewrite lookup_insert_eq, Hm. simpl. destruct (decide (j' = j)) as [->|Hj].
        -- by rewrite lookup_delete_eq, decide_True.
        -- rewrite lookup_delete_ne, decide_False by naive_solver. done.
      * rewrite lookup_insert_ne, decide_False by naive_solver. done.
  - destruct (decide _) as [[-> ->]|]; [|done]. by rewrite Hm.
Qed.

Lemma no_empty_nadd m i j v : no_empty m → no_empty (nadd m i j v).
Proof.
  intros Hm i' r. unfold nadd. destruct (decide (i' = i)) as [->|Hi].
  - rewrite lookup_insert_eq. intros [= <-]. apply insert_non_empty.
  - rewrite lookup_insert_ne by done. apply Hm.
Qed.

Lemma no_empty_ndrop m i j : no_empty m → no_empty (ndrop m i j).
Proof.
  intros Hm i' r. unfold ndrop. destruct (m !! i) as [r0|] eqn:Hi; [|apply Hm].
  destruct (decide _) as [Hs|Hs].
  - destruct (decide (i' = i)) as [->|]; [by rewrite lookup_delete_eq|].
    rewrite lookup_delete_ne by done. apply Hm.
  - destruct (decide (i' = i)) as [->|].
    + rewrite lookup_insert_eq. intros [= <-] He. apply Hs. by rewrite He, map_size_empty.
    + rewrite lookup_insert_ne by done. apply Hm.
Qed.
End nested.

#[export] Hint Resolve no_empty_nadd no_empty_ndrop : dao.

(** ** The store *)

Record store := mkStore {
  Repositories : gmap string (gmap string ID);
  referencesByIDCache : gmap ID (gmap string Named);
  disk : option (gmap string (gmap string ID));   (* the file at jsonPath *)
}.

Inductive store_error :=
| ErrDoesNotExist | ErrDigestAsTag | ErrAmbiguous | ErrOverwriteDigest | ErrConflict | ErrSave.

#[global] Instance store_error_eq_dec : EqDecision store_error.
Proof. solve_decision. Defined.

(** [json.Marshal] writes the exported field only; [AtomicWriteFile] replaces
    the file or leaves it. *)
Definition save (write_ok : bool) (s : store) : option store_error * store :=
  if write_ok then (None, mkStore (Repositories s) (referencesByIDCache s) (Some (Repositories s)))
  else (Some ErrSave, s).

(** [digest.Canonical], the name of the digest algorithm. *)
Definition digest_Canonical : string := "sha256".

Definition addReference (write_ok : bool) (ref : Named) (id : ID) (force : bool) (s : store)
  : option store_error * store :=
  if bool_decide (Name ref = digest_Canonical) then (Some ErrAmbiguous, s)
  else
    let repository := default ∅ (Repositories s !! Name ref) in
    let s := mkStore (<[Name ref := repository]> (Repositories s)) (referencesByIDCache s) (disk s) in
    let refStr := ref_String ref in
    let add (cache : gmap ID (gmap string Named)) :=
      save write_ok
        (mkStore (<[Name ref := <[refStr := id]> repository]> (Repositories s))
           (nadd cache id refStr ref) (disk s)) in
    match repository !! refStr with
    | Some oldID =>
        if isCanonical ref then (Some ErrOverwriteDigest, s)
        else if negb force then (Some ErrConflict, s)
        else add (ndrop (referencesByIDCache s) oldID refStr)
    | None => add (referencesByIDCache s)
    end.

Definition AddTag (write_ok : bool) (ref : Named) (id : ID) (force : bool) (s : store)
  : option store_error * store :=
  if isCanonical ref then (Some ErrDigestAsTag, s)
  else addReference write_ok (WithDefaultTag ref) id force s.

(** The argument has the interface type [Canonical]. *)
Definition AddDigest (write_ok : bool) (name digest : string) (id : ID) (force : bool) (s : store)
  : option store_error * store :=
  addReference write_ok (canonicalRef name digest) id force s.

Definition Delete (write_ok : bool) (ref : Named) (s : store) : (bool * option store_error) * store :=
  let ref := WithDefaultTag ref in
  let repoName := Name ref in
  match Repositories s !! repoName with
  | None => ((false, Some ErrDoesNotExist), s)
  | Some repository =>
      let refStr := ref_String ref in
      match repository !! refStr with
      | Some id =>
          let repository := delete refStr repository in
          let repos := if decide (size repository = 0) then delete repoName (Repositories s)
                       else <[repoName := repository]> (Repositories s) in
          let '(err, s) :=
            save write_ok (mkStore repos (ndrop (referencesByIDCache s) id refStr) (disk s)) in
          ((true, err), s)
      | None => ((false, Some ErrDoesNotExist), s)
      end
  end.

Definition Get (ref : Named) (s : store) : outcome store_error ID :=
  let ref := WithDefaultTag ref in
  match Repositories s !! Name ref with
  | None => Err ErrDoesNotExist
  | Some repository =>
      match repository !! ref_String ref with
      | None => Err ErrDoesNotExist
      | Some id => Ok id
      end
  end.

(** [lexicalRefs] and [lexicalAssociations]. *)
Definition ref_le (a b : Named) : Prop := String.le (ref_String a) (ref_String b).
Definition assoc_le (a b : Named * ID) : Prop := ref_le a.1 b.1.

#[global] Instance ref_le_dec : RelDecision ref_le.
Proof. intros a b. unfold ref_le. apply _. Defined.
#[global] Instance assoc_le_dec : RelDecision assoc_le.
Proof. intros a b. unfold assoc_le. apply _. Defined.

Definition References (id : ID) (s : store) : list Named :=
  merge_sort ref_le (map_to_list (default ∅ (referencesByIDCache s !! id))).*2.

Section named.
Variable G : Grammar.

(** One [Association] per entry, nil when an entry does not parse. *)
Definition associations (r : gmap string ID) : option (list (Named * ID)) :=
  mapM (λ '(refStr, refID), match ParseNamed G refStr with
                            | Ok ref => Some (ref, refID)
                            | _ => None
                            end) (map_to_list r).

Definition ReferencesByName (ref : Named) (s : store) : list (Named * ID) :=
  match Repositories s !! Name ref with
  | None => []
  | Some repository =>
      match associations repository with
      | None => []
      | Some l => merge_sort assoc_le l
      end
  end.

(** The cache that [reload] builds from the decoded repositories. *)
Definition reload_entry (cache : gmap ID (gmap string Named)) (e : string * ID)
  : gmap ID (gmap string Named) :=
  match ParseNamed G e.1 with
  | Ok ref => nadd cache e.2 e.1 ref
  | _ => cache
  end.

Definition reload_cache (repos : gmap string (gmap string ID)) : gmap ID (gmap string Named) :=
  foldl reload_entry ∅ (concat (map_to_list <$> (map_to_list repos).*2)).

(** [NewReferenceStore] on the file [f]: load it, or create it. *)
Definition NewReferenceStore (write_ok : bool) (f : option (gmap string (gmap string ID)))
  : outcome store_error store :=
  match f with
  | Some repos => Ok (mkStore repos (reload_cache repos) f)
  | None => match save write_ok (mkStore ∅ ∅ None) with
            | (None, s) => Ok s
            | (Some e, _) => Err e
            end
  end.
End named.

(** ** Specification: one map from references to images *)

Abbreviation spec := (gmap Named ID).

Definition spec_add (write_ok : bool) (ref : Named) (id : ID) (force : bool) (m : spec)
  : option store_error * spec :=
  if bool_decide (Name ref = digest_Canonical) then (Some ErrAmbiguous, m)
  else if bool_decide (is_Some (m !! ref)) && isCanonical ref then (Some ErrOverwriteDigest, m)
  else if bool_decide (is_Some (m !! ref)) && negb force then (Some ErrConflict, m)
  else (if write_ok then None else Some ErrSave, <[ref := id]> m).

Definition spec_references (id : ID) (m : spec) : list Named :=
  merge_sort ref_le (map_to_list (filter (λ kv, kv.2 = id) m)).*1.

Inductive op :=
| OAddTag (ref : Named) (id : ID) (force write_ok : bool)
| OAddDigest (name digest : string) (id : ID) (force write_ok : bool)
| ODelete (ref : Named) (write_ok : bool)
| OGet (ref : Named)
| OReferences (id : ID).

Inductive res :=
| RErr (e : option store_error)
| RDeleted (done : bool) (e : option store_error)
| RGet (o : outcome store_error ID)
| RRefs (l : list Named).

Definition exec (o : op) (s : store) : res * store :=
  match o with
  | OAddTag ref id force w => let '(e, s') := AddTag w ref id force s in (RErr e, s')
  | OAddDigest n d id force w => let '(e, s') := AddDigest w n d id force s in (RErr e, s')
  | ODelete ref w => let '(b, e, s') := Delete w ref s in (RDeleted b e, s')
  | OGet ref => (RGet (Get ref s), s)
  | OReferences id => (RRefs (References id s), s)
  end.

Definition spec_exec (o : op) (m : spec) : res * spec :=
  match o with
  | OAddTag ref id force w =>
      if isCanonical ref then (RErr (Some ErrDigestAsTag), m)
      else let '(e, m') := spec_add w (WithDefaultTag ref) id force m in (RErr e, m')
  | OAddDigest n d id force w =>
      let '(e, m') := spec_add w (canonicalRef n d) id force m in (RErr e, m')
  | ODelete ref w =>
      if bool_decide (is_Some (m !! WithDefaultTag ref))
      then (RDeleted true (if w then None else Some ErrSave), delete (WithDefaultTag ref) m)
      else (RDeleted false (Some ErrDoesNotExist), m)
  | OGet ref => (RGet (match m !! WithDefaultTag ref with
                       | Some id => Ok id
                       | None => Err ErrDoesNotExist
                       end), m)
  | OReferences id => (RRefs (spec_references id m), m)
  end.

Fixpoint run {S} (f : op → S → res * S) (ops : list op) (s : S) : list res * S :=
  match ops with
  | [] => ([], s)
  | o :: ops => let '(r, s) := f o s in let '(rs, s) := run f ops s in (r :: rs, s)
  end.

(** The references a caller can build. *)
Definition wf_op (o : op) : Prop :=
  match o with
  | OAddTag ref _ _ _ | ODelete ref _ | OGet ref => wf_ref ref
  | OAddDigest n d _ _ _ => wf_ref (canonicalRef n d)
  | OReferences _ => True
  end.

#[global] Instance wf_op_dec o : Decision (wf_op o).
Proof. destruct o; simpl; apply _. Defined.

(** ** The simulation relation *)

(** The references that can be keys. *)
Definition stored (r : Named) : Prop := wf_ref r ∧ IsNameOnly r = false.

Record sim (s : store) (m : spec) : Prop := mkSim {
  sim_stored : ∀ ref, is_Some (m !! ref) → stored ref;
  sim_repos : ∀ ref, stored ref → nget (Repositories s) (Name ref) (ref_String ref) = m !! ref;
  sim_keys : ∀ n k id, nget (Repositories s) n k = Some id →
             ∃ ref, stored ref ∧ Name ref = n ∧ ref_String ref = k;
  sim_cache : ∀ id k ref, nget (referencesByIDCache s) id k = Some ref ↔
              m !! ref = Some id ∧ ref_String ref = k;
  sim_tidy : no_empty (Repositories s) ∧ no_empty (referencesByIDCache s);
}.

(** [sim] does not look at the file. *)
Lemma sim_save s m w : sim s m → sim (save w s).2 m.
Proof. intros [????[??]]. unfold save. destruct w; [|done]. by constructor. Qed.

Lemma sim_init : sim (mkStore ∅ ∅ None) ∅.
Proof.
  constructor.
  - by intros ref [? ?].
  - done.
  - done.
  - intros id k ref. split; [done|]. by intros [? ?].
  - by split; intros ? ?.
Qed.

(** Adding a binding that was absent, or removed from the cache just before. *)
Lemma sim_add s m ref id cache' :
  sim s m → stored ref →
  (∀ i k, nget cache' i k =
     match m !! ref with
     | Some old => if decide (i = old ∧ k = ref_String ref) then None
                   else nget (referencesByIDCache s) i k
     | None => nget (referencesByIDCache s) i k
     end) →
  no_empty cache' →
  sim (mkStore (nadd (Repositories s) (Name ref) (ref_String ref) id)
         (nadd cache' id (ref_String ref) ref) (disk s)) (<[ref := id]> m).
Proof.
  intros [H1 H2 H3 H4 [H5 H6]] Hr Hc Hne. constructor; simpl.
  - intros r. destruct (decide (r = ref)) as [->|]; [done|]. rewrite lookup_insert_ne by done. apply H1.
  - intros r Hs. rewrite nget_nadd. destruct (decide _) as [[Hn Hk]|Hd].
    + destruct Hr, Hs. rewrite (ref_String_inj r ref) by done. by rewrite lookup_insert_eq.
    + rewrite lookup_insert_ne by (intros <-; naive_solver). by apply H2.
  - intros n k i. rewrite nget_nadd. destruct (decide _) as [[-> ->]|]; [naive_solver|]. apply H3.
  - intros i k r. rewrite nget_nadd. destruct (decide _) as [[-> ->]|Hd].
    + split; [intros [= <-]; by rewrite lookup_insert_eq|]. intros [Hi Hk].
      assert (stored r) as Hsr.
      { destruct (decide (r = ref)) as [->|]; [done|]. rewrite lookup_insert_ne in Hi by done. by apply H1. }
      destruct Hr, Hsr. f_equal. symmetry. by apply ref_String_inj.
    + rewrite Hc. destruct (decide (r = ref)) as [->|Hrr].
      * rewrite lookup_insert_eq. destruct (m !! ref) as [old|] eqn:Ho.
        -- destruct (decide _) as [|Hd']; [naive_solver|]. rewrite H4. naive_solver.
        -- rewrite H4. naive_solver.
      * rewrite lookup_insert_ne by done. destruct (m !! ref) as [old|] eqn:Ho; [|apply H4].
        destruct (decide _) as [[-> ->]|]; [|apply H4]. split; [done|]. intros [Hi Hk].
        destruct Hrr, Hr, (H1 r (mk_is_Some _ _ Hi)). by apply ref_String_inj.
  - auto with dao.
Qed.

Lemma sim_drop s m ref id :
  sim s m → stored ref → m !! ref = Some id →
  sim (mkStore (ndrop (Repositories s) (Name ref) (ref_String ref))
         (ndrop (referencesByIDCache s) id (ref_String ref)) (disk s)) (delete ref m).
Proof.
  intros [H1 H2 H3 H4 [H5 H6]] Hr Hid. constructor; simpl.
  - intros r. rewrite lookup_delete. destruct (decide _); [by intros [? ?]|apply H1].
  - intros r Hs. rewrite nget_ndrop, lookup_delete. destruct (decide _) as [[Hn Hk]|Hd].
    + destruct Hr, Hs. rewrite (ref_String_inj r ref) by done. by rewrite decide_True.
    + rewrite decide_False by (intros ->; naive_solver). by apply H2.
  - intros n k i. rewrite nget_ndrop. destruct (decide _); [done|apply H3].
  - intros i k r. rewrite nget_ndrop, lookup_delete. destruct (decide (_ ∧ _)) as [[-> ->]|Hd].
    + split; [done|]. destruct (decide _) as [|Hne]; [naive_solver|]. intros [Hi Hk].
      destruct Hne, Hr, (H1 r (mk_is_Some _ _ Hi)). symmetry. by apply ref_String_inj.
    + rewrite H4. destruct (decide _) as [->|]; naive_solver.
  - auto with dao.
Qed.

Lemma default_nget s n k :
  (default ∅ (Repositories s !! n) : gmap string ID) !! k = nget (Repositories s) n k.
Proof. unfold nget. by destruct (_ !! n). Qed.

Lemma addReference_sim w ref id force s m :
  sim s m → stored ref →
  (addReference w ref id force s).1 = (spec_add w ref id force m).1 ∧
  sim (addReference w ref id force s).2 (spec_add w ref id force m).2.
Proof.
  intros Hs Hr. unfold addReference, spec_add. case_bool_decide; [done|]. simpl.
  rewrite default_nget, (sim_repos s m) by done. rewrite insert_insert_eq.
  fold (nadd (Repositories s) (Name ref) (ref_String ref) id).
  destruct (m !! ref) as [old|] eqn:Ho.
  - rewrite bool_decide_eq_true_2 by done. simpl.
    assert (mkStore (<[Name ref := default ∅ (Repositories s !! Name ref)]> (Repositories s))
              (referencesByIDCache s) (disk s) = s) as ->.
    { destruct (Repositories s !! Name ref) eqn:E; simpl.
      - rewrite insert_id by done. by destruct s.
      - pose proof (sim_repos s m Hs ref Hr) as Hn. unfold nget in Hn. by rewrite E, Ho in Hn. }
    destruct (isCanonical ref); [done|]. destruct force; simpl; [|done].
    split; [by destruct w|]. apply sim_save, sim_add; try done.
    + intros i k. by rewrite nget_ndrop, Ho.
    + apply no_empty_ndrop, Hs.
  - rewrite bool_decide_eq_false_2 by (by intros [? ?]). simpl.
    split; [by destruct w|]. apply sim_save, sim_add; try done.
    + intros i k. by rewrite Ho.
    + apply Hs.
Qed.

Lemma Delete_sim w ref s m :
  sim s m → wf_ref ref →
  let o := Delete w ref s in let o' := spec_exec (ODelete ref w) m in
  RDeleted o.1.1 o.1.2 = o'.1 ∧ sim o.2 o'.2.
Proof.
  intros Hs Hw. pose proof (WithDefaultTag_wf ref Hw) as Hr. simpl.
  unfold Delete. set (r := WithDefaultTag ref) in *.
  pose proof (sim_repos s m Hs r Hr) as Hn. unfold nget in Hn.
  destruct (Repositories s !! Name r) as [rep|] eqn:E; simpl in Hn.
  - rewrite Hn. destruct (m !! r) as [id|] eqn:Ho.
    + rewrite bool_decide_eq_true_2 by done.
      assert ((if decide (size (delete (ref_String r) rep) = 0) then delete (Name r) (Repositories s)
              else <[Name r := delete (ref_String r) rep]> (Repositories s))
              = ndrop (Repositories s) (Name r) (ref_String r)) as ->.
      { unfold ndrop. by rewrite E. }
      pose proof (sim_save _ _ w (sim_drop s m r id Hs Hr Ho)) as Hsave.
      destruct (save w _) as [e s'] eqn:Es. simpl in *. split; [|done].
      unfold save in Es. by destruct w; simplify_eq.
    + by rewrite bool_decide_eq_false_2 by (by intros [? ?]).
  - rewrite <-Hn. by rewrite bool_decide_eq_false_2 by (by intros [? ?]).
Qed.

#[global] Instance ref_le_trans : Transitive ref_le.
Proof. intros a b c. unfold ref_le. by transitivity (ref_String b). Qed.
#[global] Instance ref_le_total : Total ref_le.
Proof. intros a b. unfold ref_le. apply (total String.le). Qed.

Lemma References_spec id s m : sim s m → References id s = spec_references id m.
Proof.
  intros Hs. unfold References, spec_references.
  assert (∀ r, r ∈ (map_to_list (default ∅ (referencesByIDCache s !! id))).*2 ↔ m !! r = Some id) as Hl.
  { intros r. rewrite list_elem_of_fmap. split.
    - intros ([k r'] & -> & Hk%elem_of_map_to_list). simpl.
      apply (sim_cache s m Hs id k r'). unfold nget. by destruct (referencesByIDCache s !! id).
    - intros Hr. assert (nget (referencesByIDCache s) id (ref_String r) = Some r) as Hg
        by (by apply (sim_cache s m)).
      exists (ref_String r, r). split; [done|]. apply elem_of_map_to_list.
      unfold nget in Hg. by destruct (referencesByIDCache s !! id). }
  assert (∀ r, r ∈ (map_to_list (filter (λ kv : Named * ID, kv.2 = id) m)).*1 ↔ m !! r = Some id) as Hr.
  { intros r. rewrite list_elem_of_fmap. split.
    - intros ([r' i] & -> & Hk%elem_of_map_to_list%map_lookup_filter_Some). simpl in *. naive_solver.
    - intros Hm. exists (r, id). split; [done|]. by apply elem_of_map_to_list, map_lookup_filter_Some. }
  apply (Sorted_unique_strong ref_le).
  - intros a b. rewrite !merge_sort_Permutation, Hl, Hr. intros Ha Hb Hab Hba.
    destruct (sim_stored s m Hs a), (sim_stored s m Hs b); [done..|].
    apply ref_String_inj; try done. by apply (anti_symm String.le).
  - apply (Sorted_merge_sort _).
  - apply (Sorted_merge_sort _).
  - rewrite !merge_sort_Permutation. apply NoDup_Permutation.
    + apply NoDup_fmap_2_strong; [|apply NoDup_map_to_list].
      intros [k1 r] [k2 r2] H1%elem_of_map_to_list H2%elem_of_map_to_list Hrr. simpl in Hrr. subst r2.
      assert (nget (referencesByIDCache s) id k1 = Some r ∧ nget (referencesByIDCache s) id k2 = Some r)
        as [[_ <-]%(sim_cache s m Hs) [_ <-]%(sim_cache s m Hs)]; [|done].
      unfold nget. by destruct (referencesByIDCache s !! id).
    + apply NoDup_fst_map_to_list.
    + intros r. by rewrite Hl, Hr.
Qed.

(** Every operation returns what the specification returns and keeps the
    simulation. *)
Lemma exec_sim o s m :
  wf_op o → sim s m →
  (exec o s).1 = (spec_exec o m).1 ∧ sim (exec o s).2 (spec_exec o m).2.
Proof.
  intros Hw Hs. destruct o as [ref id f w|n d id f w|ref w|ref|id]; simpl in *.
  - unfold AddTag. destruct (isCanonical ref); [done|].
    destruct (addReference_sim w (WithDefaultTag ref) id f s m Hs (WithDefaultTag_wf ref Hw)) as [E H].
    destruct (addReference _ _ _ _ _), (spec_add _ _ _ _ _). naive_solver.
  - unfold AddDigest.
    destruct (addReference_sim w (canonicalRef n d) id f s m Hs) as [E H]; [done|].
    destruct (addReference _ _ _ _ _), (spec_add _ _ _ _ _). naive_solver.
  - pose proof (Delete_sim w ref s m Hs Hw) as H. simpl in H.
    by destruct (Delete w ref s) as [[b e] s'].
  - split; [|done]. f_equal. unfold Get. pose proof (WithDefaultTag_wf ref Hw) as Hr.
    rewrite <-(sim_repos s m Hs _ Hr). unfold nget. by destruct (Repositories s !! _).
  - split; [|done]. f_equal. by apply References_spec.
Qed.

(** C7: for every sequence of operations on well-formed references, from an
    empty store, the store returns exactly what one finite map from references
    to image IDs returns: tags move only with [force], a digest is never
    overwritten, the reverse cache agrees with the table, so that [References]
    gives all references of an image and only those, in lexical order. *)
Theorem store_refines_reference_map ops :
  Forall wf_op ops →
  (run exec ops (mkStore ∅ ∅ None)).1 = (run spec_exec ops (∅ : spec)).1.
Proof.
  intros Hw. assert (∀ s m, sim s m → (run exec ops s).1 = (run spec_exec ops m).1) as H;
    [|by apply H, sim_init].
  induction Hw as [|o ops Ho _ IH]; intros s m Hs; simpl; [done|].
  destruct (exec_sim o s m Ho Hs) as [E Hs'].
  destruct (exec o s) as [r s'], (spec_exec o m) as [r' m']. simpl in *. subst.
  specialize (IH s' m' Hs').
  destruct (run exec ops s'), (run spec_exec ops m'). simpl in *. by subst.
Qed.

Lemma store_refines_reference_map_witness :
  (run exec [OAddTag (namedRef "redis") "id1" false true; OAddTag (taggedRef "redis" "latest") "id2" false true;
             OAddTag (taggedRef "redis" "latest") "id2" true true; OAddDigest "redis" "sha256:aa" "id2" false true;
             OReferences "id2"; OReferences "id1"] (mkStore ∅ ∅ None)).1
  = [RErr None; RErr (Some ErrConflict); RErr None; RErr None;
     RRefs [taggedRef "redis" "latest"; canonicalRef "redis" "sha256:aa"]; RRefs []].
Proof. rewrite store_refines_reference_map; [vm_compute; reflexivity|repeat constructor]. Defined.

(** ** The grammar, restart and lookup by name *)

(** What the store relies on in github.com/docker/distribution: the parser
    splits the string of a reference into the parts it was built from; names
    and tags have no [@], tags no colon, digests no [@]; the empty string is
    neither a tag nor a digest and "latest" is a tag. *)
Class GrammarLaws (G : Grammar) : Prop := {
  law_name : ∀ n, name_ok G n = true → dist_ParseNamed G n = Some (mkDist n "" "");
  law_tag : ∀ n t, name_ok G n = true → tag_ok G t = true →
    dist_ParseNamed G (n +:+ ":" +:+ t) = Some (mkDist n t "");
  law_digest : ∀ n d, name_ok G n = true → digest_ok G d = true → ParseDigest G d = true →
    dist_ParseNamed G (n +:+ "@" +:+ d) = Some (mkDist n "" d);
  law_name_chars : ∀ n, name_ok G n = true → ContainsByte "@" n = false;
  law_tag_chars : ∀ t, tag_ok G t = true →
    t ≠ "" ∧ ContainsByte "@" t = false ∧ ContainsByte ":" t = false;
  law_digest_chars : ∀ d, digest_ok G d = true → d ≠ "" ∧ ContainsByte "@" d = false;
  law_latest : tag_ok G DefaultTag = true;
}.

Section laws.
Context (G : Grammar) `{!GrammarLaws G}.

(** The references that [WithName], [WithTag] and [WithDigest] make from a
    name in normal form. *)
Definition valid_name (n : string) : bool :=
  name_ok G n && negb (ValidateID n) &&
  match normalize (unicode_lower G) n with Ok n' => bool_decide (n' = n) | _ => false end.

Definition valid_ref (r : Named) : bool :=
  valid_name (Name r) &&
  match r with
  | namedRef _ => true
  | taggedRef _ t => tag_ok G t
  | canonicalRef _ d => digest_ok G d && ParseDigest G d
  end.

Lemma valid_ref_wf r : valid_ref r = true → wf_ref r.
Proof.
  unfold valid_ref, valid_name. rewrite !andb_true_iff. intros [[[Hn _] _] Hr].
  apply law_name_chars in Hn. destruct r; simpl in *; [done|..].
  - by apply law_tag_chars in Hr as (_ & ? & ?).
  - apply andb_true_iff in Hr as [Hr _]. by apply law_digest_chars in Hr as [_ ?].
Qed.

Lemma valid_ref_WithDefaultTag r : valid_ref r = true → valid_ref (WithDefaultTag r) = true.
Proof.
  destruct r; try done. unfold valid_ref. simpl. rewrite law_latest. by rewrite !andb_true_r.
Qed.

Lemma WithName_valid n : valid_name n = true → WithName G n = Ok (namedRef n).
Proof.
  unfold valid_name, WithName, validateName. rewrite !andb_true_iff, negb_true_iff.
  intros [[Hn Hv] Hz]. destruct (normalize _ n); try done.
  apply bool_decide_eq_true in Hz. subst. by rewrite Hv, Hn.
Qed.

Lemma ParseNamed_valid r : valid_ref r = true → ParseNamed G (ref_String r) = Ok r.
Proof.
  intros Hv. unfold valid_ref in Hv. apply andb_true_iff in Hv as [Hn Hr].
  pose proof (WithName_valid _ Hn) as Hw.
  unfold valid_name in Hn. rewrite !andb_true_iff in Hn. destruct Hn as [[Hn _] _].
  unfold ParseNamed. destruct r as [n|n t|n d]; simpl in *.
  - rewrite law_name by done. simpl. by rewrite Hw.
  - rewrite law_tag by done. simpl. rewrite Hw.
    rewrite bool_decide_eq_true_2 by (by apply law_tag_chars in Hr as [? _]).
    unfold WithTag. by rewrite Hr.
  - apply andb_true_iff in Hr as [Hd Hp]. rewrite law_digest by done. simpl. rewrite Hw.
    rewrite bool_decide_eq_true_2 by (by apply law_digest_chars in Hd as [? _]).
    unfold WithDigest. by rewrite Hd.
Qed.

Definition valid_spec (m : spec) : Prop := ∀ ref, is_Some (m !! ref) → valid_ref ref = true.

Definition valid_op (o : op) : bool :=
  match o with
  | OAddTag ref _ _ _ | ODelete ref _ | OGet ref => valid_ref ref
  | OAddDigest n d _ _ _ => valid_ref (canonicalRef n d)
  | OReferences _ => true
  end.

Lemma valid_op_wf o : valid_op o = true → wf_op o.
Proof. destruct o; try apply valid_ref_wf. done. Qed.

Lemma spec_add_valid w ref id f m :
  valid_ref ref = true → valid_spec m → valid_spec (spec_add w ref id f m).2.
Proof.
  intros Hr Hm. unfold spec_add. do 3 (case_match; [done|]). simpl. intros r.
  destruct (decide (r = ref)) as [->|]; [done|]. rewrite lookup_insert_ne by done. apply Hm.
Qed.

Lemma spec_exec_valid o m : valid_op o = true → valid_spec m → valid_spec (spec_exec o m).2.
Proof.
  intros Ho Hm. destruct o as [ref id f w|n d id f w|ref w|ref|id]; simpl in *; try done.
  - destruct (isCanonical ref); [done|].
    pose proof (spec_add_valid w _ id f m (valid_ref_WithDefaultTag ref Ho) Hm).
    by destruct (spec_add _ _ _ _ _).
  - pose proof (spec_add_valid w _ id f m Ho Hm). by destruct (spec_add _ _ _ _ _).
  - case_bool_decide; [|done]. intros r. simpl. rewrite lookup_delete.
    destruct (decide _); [by intros [? ?]|apply Hm].
Qed.

(** The states after a run. *)
Lemma run_sim ops s m :
  forallb valid_op ops = true → sim s m → valid_spec m →
  sim (run exec ops s).2 (run spec_exec ops m).2 ∧ valid_spec (run spec_exec ops m).2.
Proof.
  revert s m. induction ops as [|o ops IH]; intros s m; simpl; [done|].
  rewrite andb_true_iff. intros [Ho Hops] Hs Hm.
  destruct (exec_sim o s m (valid_op_wf o Ho) Hs) as [_ Hs'].
  pose proof (spec_exec_valid o m Ho Hm) as Hm'.
  destruct (exec o s) as [r s'], (spec_exec o m) as [r' m'].
  destruct (IH s' m' Hops Hs' Hm'). by destruct (run exec ops s'), (run spec_exec ops m').
Qed.

Lemma exec_sim_run ops s m :
  forallb valid_op ops = true → sim s m → (run exec ops s).1 = (run spec_exec ops m).1.
Proof.
  revert s m. induction ops as [|o ops IH]; intros s m; simpl; [done|].
  rewrite andb_true_iff. intros [Ho Hops] Hs.
  destruct (exec_sim o s m (valid_op_wf o Ho) Hs) as [E Hs'].
  destruct (exec o s) as [r s'], (spec_exec o m) as [r' m']. simpl in *. subst.
  specialize (IH s' m' Hops Hs').
  destruct (run exec ops s'), (run spec_exec ops m'). simpl in *. by subst.
Qed.

(** What [reload] puts in the cache. *)
Lemma reload_entries l c :
  (∀ i k ref, nget c i k = Some ref → ParseNamed G k = Ok ref) →
  ∀ i k ref, nget (foldl (reload_entry G) c l) i k = Some ref ↔
    nget c i k = Some ref ∨ ((k, i) ∈ l ∧ ParseNamed G k = Ok ref).
Proof.
  revert c. induction l as [|[k0 i0] l IH]; intros c Hc i k ref; simpl.
  { set_solver. }
  rewrite IH; unfold reload_entry; simpl.
  - destruct (ParseNamed G k0) as [r0|e|e] eqn:Hp.
    + rewrite nget_nadd. destruct (decide _) as [[-> ->]|Hd].
      * rewrite Hp, elem_of_cons. split; [naive_solver|]. intros [H%Hc|[_ [= ->]]]; [|by left].
        left. congruence.
      * rewrite elem_of_cons. naive_solver.
    + rewrite elem_of_cons. split; [naive_solver|].
      intros [?|[[[= -> ->]|?] ?]]; [by left|congruence|naive_solver].
    + rewrite elem_of_cons. split; [naive_solver|].
      intros [?|[[[= -> ->]|?] ?]]; [by left|congruence|naive_solver].
  - intros i' k' r'. destruct (ParseNamed G k0) as [r0|e|e] eqn:Hp; [|apply Hc..].
    rewrite nget_nadd. destruct (decide _) as [[-> ->]|]; [congruence|apply Hc].
Qed.

Lemma reload_no_empty l c : no_empty c → no_empty (foldl (reload_entry G) c l).
Proof.
  revert c. induction l as [|[k i] l IH]; intros c Hc; simpl; [done|].
  apply IH. unfold reload_entry. destruct (ParseNamed G _); auto with dao.
Qed.

Lemma elem_of_entries (repos : gmap string (gmap string ID)) k i :
  (k, i) ∈ concat (map_to_list <$> (map_to_list repos).*2) ↔ ∃ n, nget repos n k = Some i.
Proof.
  rewrite list_elem_of_In, in_concat. setoid_rewrite <-list_elem_of_In. split.
  - intros (x & Hx & Hk). apply list_elem_of_fmap in Hx as (r & -> & Hr).
    apply list_elem_of_fmap in Hr as ([n r'] & -> & Hn%elem_of_map_to_list).
    apply elem_of_map_to_list in Hk. exists n. unfold nget. by rewrite Hn.
  - intros (n & Hn). unfold nget in Hn. destruct (repos !! n) as [r|] eqn:Hr; [|done].
    exists (map_to_list r). split.
    + apply list_elem_of_fmap. exists r. split; [done|]. apply list_elem_of_fmap.
      exists (n, r). split; [done|]. by apply elem_of_map_to_list.
    + by apply elem_of_map_to_list.
Qed.

Lemma reload_sim s m d :
  sim s m → valid_spec m → sim (mkStore (Repositories s) (reload_cache G (Repositories s)) d) m.
Proof.
  intros Hs Hv. pose proof Hs as [H1 H2 H3 H4 [H5 H6]]. constructor; simpl; [done..| |].
  - intros i k ref. unfold reload_cache. rewrite reload_entries by done.
    rewrite elem_of_entries. split.
    + intros [?|[[n Hn] Hp]]; [done|].
      destruct (H3 n k i Hn) as (r & Hr & <- & <-). rewrite H2 in Hn by done.
      rewrite (ParseNamed_valid r) in Hp by eauto. by simplify_eq.
    + intros [Hm <-]. right. split; [|by eauto using ParseNamed_valid].
      exists (Name ref). by rewrite H2 by eauto.
  - split; [done|]. apply reload_no_empty. by intros i r.
Qed.
End laws.

(** A concrete grammar that satisfies the laws: lower-case names without a
    port, one tag or one digest. *)
Definition name_byte (a : ascii) : bool :=
  in_range 97 122 (byte_val a) || in_range 48 57 (byte_val a) ||
  bool_decide (a = "/"%char) || bool_decide (a = "."%char) || bool_decide (a = "-"%char).

Definition word (s : string) : bool := bool_decide (s ≠ "") && all_bytes name_byte s.

Definition simple_grammar : Grammar := {|
  dist_ParseNamed s :=
    match Cut "@" s with
    | (n, Some d) => if word n then Some (mkDist n "" d) else None
    | (s', None) => match Cut ":" s' with
                    | (n, Some t) => if word n then Some (mkDist n t "") else None
                    | (n, None) => if word n then Some (mkDist n "" "") else None
                    end
    end;
  name_ok := word; tag_ok := word; digest_ok := word; ParseDigest := word;
  unicode_lower := id |}.

Lemma name_byte_not c s :
  name_byte c = false → word s = true → s ≠ "" ∧ ContainsByte c s = false.
Proof.
  intros Hc. unfold word. rewrite andb_true_iff, bool_decide_eq_true. intros [Hs Ha].
  split; [done|]. clear Hs. induction s as [|a s IH]; simpl in *; [done|].
  apply andb_true_iff in Ha as [Ha Hs]. destruct (ascii_dec a c) as [->|]; [congruence|]. by apply IH.
Qed.

#[global] Instance simple_grammar_laws : GrammarLaws simple_grammar.
Proof.
  assert (∀ s, word s = true → s ≠ "" ∧ ContainsByte "@" s = false ∧ ContainsByte ":" s = false) as Hw.
  { intros s Hs. destruct (name_byte_not "@" s), (name_byte_not ":" s); done. }
  constructor; simpl; try (intros; naive_solver).
  - intros n Hn. rewrite Cut_none, Cut_none by naive_solver. by rewrite Hn.
  - intros n t Hn Ht. rewrite Cut_none.
    + change (":" +:+ t) with (String ":" t). rewrite Cut_app by naive_solver. by rewrite Hn.
    + rewrite !ContainsByte_app. simpl. destruct (Hw n Hn) as (_ & -> & _), (Hw t Ht) as (_ & -> & _). done.
  - intros n d Hn Hd _. change ("@" +:+ d) with (String "@" d).
    rewrite Cut_app by naive_solver. by rewrite Hn.
Qed.

(** Parsing the string of a reference gives the reference back, for every
    reference whose name is in normal form. *)
Theorem ParseNamed_String G `{!GrammarLaws G} r :
  valid_ref G r = true → ParseNamed G (ref_String r) = Ok r.
Proof. apply ParseNamed_valid. apply _. Qed.

Lemma ParseNamed_String_witness :
  ParseNamed simple_grammar "quay.io/redis:latest" = Ok (taggedRef "quay.io/redis" "latest").
Proof. apply (ParseNamed_String simple_grammar (taggedRef "quay.io/redis" "latest")). vm_compute. reflexivity. Defined.

(** A daemon restart is invisible.  After any sequence of operations on
    valid references, the store that [NewReferenceStore] loads from the saved
    repositories answers every later sequence of operations as the running
    store does: the cache rebuilt by parsing the keys is the cache that was
    lost. *)
Theorem restart_transparent G `{!GrammarLaws G} w ops ops' :
  let s := (run exec ops (mkStore ∅ ∅ None)).2 in
  forallb (valid_op G) ops = true → forallb (valid_op G) ops' = true →
  ∃ s', NewReferenceStore G w (Some (Repositories s)) = Ok s' ∧
        (run exec ops' s').1 = (run exec ops' s).1.
Proof.
  intros s Hops Hops'.
  destruct (run_sim G ops (mkStore ∅ ∅ None) ∅ Hops sim_init) as [Hs Hv]; [by intros ? [? ?]|].
  eexists. split; [reflexivity|].
  rewrite (exec_sim_run G ops' _ _ Hops' (reload_sim G s _ _ Hs Hv)).
  symmetry. by apply (exec_sim_run G).
Qed.

Lemma restart_transparent_witness :
  let ops := [OAddTag (namedRef "redis") "id1" false true; OAddTag (taggedRef "redis" "v2") "id2" false true] in
  let ops' := [OReferences "id1"; ODelete (namedRef "redis") true; OReferences "id1"] in
  let s := (run exec ops (mkStore ∅ ∅ None)).2 in
  ∃ s', NewReferenceStore simple_grammar true (Some (Repositories s)) = Ok s' ∧
        (run exec ops' s').1 = (run exec ops' s).1.
Proof. apply (restart_transparent simple_grammar); vm_compute; reflexivity. Defined.

#[global] Instance assoc_le_trans : Transitive assoc_le.
Proof. intros a b c. unfold assoc_le. by transitivity b.1. Qed.
#[global] Instance assoc_le_total : Total assoc_le.
Proof. intros a b. unfold assoc_le. apply (total ref_le). Qed.

Lemma associations_valid G `{!GrammarLaws G} (l : list (string * ID)) (f : string → Named) :
  (∀ k i, (k, i) ∈ l → valid_ref G (f k) = true ∧ ref_String (f k) = k) →
  mapM (λ '(refStr, refID), match ParseNamed G refStr with
                            | Ok ref => Some (ref, refID)
                            | _ => None
                            end) l = Some ((λ '(k, i), (f k, i)) <$> l).
Proof.
  induction l as [|[k i] l IH]; intros Hl; simpl; [done|].
  destruct (Hl k i) as [Hv Hk]; [left|]. rewrite <-Hk at 1. rewrite ParseNamed_valid by done.
  simpl. rewrite IH; [done|]. intros k' i' ?. apply (Hl k' i'). by right.
Qed.

Lemma ReferencesByName_entries G `{!GrammarLaws G} ref s m :
  sim s m → valid_spec G m →
  ∃ l, associations G (default ∅ (Repositories s !! Name ref)) = Some l ∧ NoDup l ∧
       ∀ r id, (r, id) ∈ l ↔ m !! r = Some id ∧ Name r = Name ref.
Proof.
  intros Hs Hv. set (rep := default ∅ (Repositories s !! Name ref)).
  set (f k := match ParseNamed G k with Ok r => r | _ => namedRef k end).
  assert (∀ r, valid_ref G r = true → f (ref_String r) = r) as Hf.
  { intros r Hr. unfold f. by rewrite ParseNamed_valid. }
  assert (∀ k i, rep !! k = Some i ↔ ∃ r, m !! r = Some i ∧ Name r = Name ref ∧ ref_String r = k) as Hrep.
  { intros k i. unfold rep. rewrite default_nget. split.
    - intros Hk. destruct (sim_keys s m Hs _ _ _ Hk) as (r & Hr & Hn & <-).
      exists r. rewrite <-Hn, (sim_repos s m) in Hk by done. done.
    - intros (r & Hm & <- & <-). rewrite (sim_repos s m); [done..|]. eauto using sim_stored. }
  assert (∀ k i, (k, i) ∈ map_to_list rep → valid_ref G (f k) = true ∧ ref_String (f k) = k) as Hval.
  { intros k i Hk%elem_of_map_to_list. apply Hrep in Hk as (r & Hm & _ & <-).
    rewrite Hf by eauto. eauto. }
  eexists. split; [by apply associations_valid|]. split.
  - apply NoDup_fmap_2_strong; [|apply NoDup_map_to_list].
    intros [k i] [k' i'] H1 H2 [= E ->]. f_equal.
    rewrite <-(proj2 (Hval _ _ H1)), <-(proj2 (Hval _ _ H2)). by rewrite E.
  - intros r id. rewrite list_elem_of_fmap. split.
    + intros ([k i] & [= -> ->] & Hk%elem_of_map_to_list).
      apply Hrep in Hk as (r' & Hm & Hn & <-). rewrite Hf by eauto. done.
    + intros [Hm Hn]. exists (ref_String r, id). rewrite Hf by eauto. split; [done|].
      apply elem_of_map_to_list, Hrep. eauto.
Qed.

(** After any sequence of operations on valid references,
    [ReferencesByName] gives each tag and digest of the repository exactly
    once, with the image it is set to, in lexical order. *)
Theorem ReferencesByName_exact G `{!GrammarLaws G} ops ref :
  forallb (valid_op G) ops = true →
  let s := (run exec ops (mkStore ∅ ∅ None)).2 in
  let m := (run spec_exec ops (∅ : spec)).2 in
  let l := ReferencesByName G ref s in
  Sorted assoc_le l ∧ NoDup l ∧ ∀ r id, (r, id) ∈ l ↔ m !! r = Some id ∧ Name r = Name ref.
Proof.
  intros Hops s m l.
  destruct (run_sim G ops (mkStore ∅ ∅ None) ∅ Hops sim_init) as [Hs Hv]; [by intros ? [? ?]|].
  destruct (ReferencesByName_entries G ref s m Hs Hv) as (l0 & E & Hnd & Hl).
  unfold l, ReferencesByName. destruct (Repositories s !! Name ref) as [rep|]; simpl in E.
  - rewrite E. split; [apply (Sorted_merge_sort _)|].
    rewrite merge_sort_Permutation. split; [done|]. intros r id. by rewrite merge_sort_Permutation.
  - change (Some [] = Some l0) in E. simplify_eq. by split; [constructor|].
Qed.

Lemma ReferencesByName_exact_witness :
  let ops := [OAddTag (namedRef "redis") "id1" false true; OAddTag (taggedRef "redis" "v2") "id2" false true] in
  (taggedRef "redis" "v2", "id2") ∈ ReferencesByName simple_grammar (namedRef "redis")
    (run exec ops (mkStore ∅ ∅ None)).2.
Proof.
  apply (ReferencesByName_exact simple_grammar); vm_compute; [reflexivity|]. split; reflexivity.
Defined.
