(* ===== verification/LayerStore.v ===== *)
(** * layer: the reference-counted layer store

    Models [src/layer/layer_store.go], [ro_layer.go], [mounted_layer.go] and the
    chain identifiers of [layer.go].  A [*roLayer] is a location of the heap
    [layers]; it is allocated when the layer is published in [layerMap] (the
    object that a failed registration drops is garbage), so a parent always
    has a smaller location than its child.  The handles given to callers carry
    the identity of the [referencedCacheLayer] they point to.

    The graph driver and the metadata store are interfaces in the code and
    type classes here: every operation of them may fail, and every theorem
    holds for all instances.  Mutex regions are the units of interleaving: an
    operation is composed of regions, and what it holds between two of them is
    a retained parent pointer. *)

From S2P Require Import Prelude.

Abbreviation loc := nat.

(** [graphdriver.Driver], over a state [D] of the driver. *)
Class GraphDriver (D : Type) := {
  drv_Create : string → string → D → option string * D;
  drv_CreateReadWrite : string → string → D → option string * D;
  drv_Remove : string → D → option string * D;
  drv_Get : string → D → outcome string string * D;
  drv_Put : string → D → option string * D;
  drv_ApplyDiff : string → string → string → D → outcome string Z * D;
}.

(** [MetadataStore] and [MetadataTransaction], over a state [M] of the backend
    and transactions [TX]; [Desc] is the type of distribution descriptors. *)
Class MetadataStore (M TX Desc : Type) := {
  StartTransaction : M → outcome string TX * M;
  tx_SetSize : TX → Z → M → option string * M;
  tx_SetParent : TX → string → M → option string * M;
  tx_SetDiffID : TX → string → M → option string * M;
  tx_SetCacheID : TX → string → M → option string * M;
  tx_SetDescriptor : TX → Desc → M → option string * M;
  tx_TarSplitWriter : TX → M → option string * M;
  tx_Commit : TX → string → M → option string * M;
  tx_Cancel : TX → M → option string * M;
  md_GetSize : string → M → outcome string Z;
  md_GetParent : string → M → outcome string string;
  md_GetDiffID : string → M → outcome string string;
  md_GetCacheID : string → M → outcome string string;
  md_GetDescriptor : string → M → outcome string Desc;
  md_SetMountID : string → string → M → option string * M;
  md_SetInitID : string → string → M → option string * M;
  md_SetMountParent : string → string → M → option string * M;
  md_GetMountID : string → M → outcome string string;
  md_GetInitID : string → M → outcome string string;
  md_GetMountParent : string → M → outcome string string;
  md_List : M → outcome string (list string * list string);
  md_Remove : string → M → option string * M;
  md_RemoveMount : string → M → option string * M;
}.

Inductive lerror :=
| ErrLayerDoesNotExist | ErrLayerNotRetained | ErrMountDoesNotExist | ErrMountNameConflict
| ErrMaxDepthExceeded | EOther (msg : string).

Definition maxLayerDepth : nat := 125.

(** [Metadata]. *)
Record Metadata := mkMetadata { md_ChainID : string; md_DiffID : string; md_Size : Z; md_DiffSize : Z }.

(** A [Layer] in the hands of a caller: a [*referencedCacheLayer], or a bare
    [*roLayer] obtained from [Parent]. *)
Inductive Layer := refLayer (id : nat) (l : loc) | bareLayer (l : loc).

Definition Layer_target (h : Layer) : loc := match h with refLayer _ l | bareLayer l => l end.

(** A [RWLayer] in the hands of a caller: identity, and name of its mount. *)
Record RWLayer := mkRW { rw_id : nat; rw_Name : string }.

Section store.
Context {D M TX Desc : Type} `{!GraphDriver D} `{!MetadataStore M TX Desc}.
(** [digest.FromBytes], the digest of a descriptor ("" when empty), the
    descriptor without content, and [asm.NewInputTarStream]'s error. *)
Context (FromBytes : string → string) (desc_Digest : Desc → string) (emptyDesc : Desc).
Context (NewInputTarStream : string → option string).

Record roLayer := mkRo {
  chainID : string; diffID : string; parent : option loc; cacheID : string; ro_size : Z;
  descriptor : Desc; referenceCount : nat; references : gset nat }.

Record mountedLayer := mkMounted {
  ml_name : string; mountID : string; initID : string; ml_parent : option loc;
  ml_references : gset nat }.

Record layerStore := mkLS {
  store : M; driver : D;
  layers : gmap loc roLayer;        (* the heap of layers *)
  next_loc : loc;
  layerMap : gmap string loc;
  mounts : gmap string mountedLayer;
  next_ref : nat }.                 (* fresh identities of references *)

Definition L (A : Type) : Type := ST layerStore lerror A.

Definition with_store (m : M) (s : layerStore) : layerStore :=
  mkLS m (driver s) (layers s) (next_loc s) (layerMap s) (mounts s) (next_ref s).
Definition with_driver (d : D) (s : layerStore) : layerStore :=
  mkLS (store s) d (layers s) (next_loc s) (layerMap s) (mounts s) (next_ref s).
Definition with_layers (h : gmap loc roLayer) (s : layerStore) : layerStore :=
  mkLS (store s) (driver s) h (next_loc s) (layerMap s) (mounts s) (next_ref s).
Definition with_layerMap (m : gmap string loc) (s : layerStore) : layerStore :=
  mkLS (store s) (driver s) (layers s) (next_loc s) m (mounts s) (next_ref s).
Definition with_mounts (m : gmap string mountedLayer) (s : layerStore) : layerStore :=
  mkLS (store s) (driver s) (layers s) (next_loc s) (layerMap s) m (next_ref s).
Definition with_next_ref (n : nat) (s : layerStore) : layerStore :=
  mkLS (store s) (driver s) (layers s) (next_loc s) (layerMap s) (mounts s) n.

(** Calls of the driver and of the metadata store. *)
Definition err_of {A} (o : outcome string A) : outcome lerror A :=
  match o with Ok a => Ok a | Err e => Err (EOther e) | Panic m => Panic m end.
Definition drv (f : D → option string * D) : L unit := λ s,
  let '(e, d) := f (driver s) in
  (match e with None => Ok tt | Some e => Err (EOther e) end, with_driver d s).
Definition drv_val {A} (f : D → outcome string A * D) : L A := λ s,
  let '(o, d) := f (driver s) in
  (match o with Ok a => Ok a | Err e | Panic e => Err (EOther e) end, with_driver d s).
Definition md (f : M → option string * M) : L unit := λ s,
  let '(e, m) := f (store s) in
  (match e with None => Ok tt | Some e => Err (EOther e) end, with_store m s).
Definition md_val {A} (f : M → outcome string A * M) : L A := λ s,
  let '(o, m) := f (store s) in
  (match o with Ok a => Ok a | Err e | Panic e => Err (EOther e) end, with_store m s).
Definition md_read {A} (f : M → outcome string A) : L A := λ s,
  (match f (store s) with Ok a => Ok a | Err e | Panic e => Err (EOther e) end, s).

(** [if err := f(); err != nil { log }]. *)
Definition ignore_err {A} (m : L A) : L unit := st_try m ≫= λ _, mret tt.

(** [defer func() { if err != nil { cleanup } }()] around a body whose [err]
    variable may be set although the function returns no error: the body
    gives the flag beside its value. *)
Definition defer_on_err {A} (cleanup : L unit) (body : L (A * bool)) : L (A * bool) := λ s,
  match body s with
  | (Ok (a, false), s') => (Ok (a, false), s')
  | (Ok (a, true), s') => (cleanup ≫= λ _, mret (a, true)) s'
  | (Err e, s') => (cleanup ≫= λ _, st_fail e) s'
  | (Panic m, s') => (Panic m, s')
  end.

(** ** The heap *)

Definition deref (l : loc) : L roLayer := λ s,
  match layers s !! l with
  | Some x => (Ok x, s)
  | None => (Panic "nil pointer dereference", s)
  end.

Definition assign (l : loc) (x : roLayer) : L unit := st_modify (λ s, with_layers (<[l := x]> (layers s)) s).

Definition set_referenceCount (n : nat) (x : roLayer) : roLayer :=
  mkRo (chainID x) (diffID x) (parent x) (cacheID x) (ro_size x) (descriptor x) n (references x).
Definition set_references (r : gset nat) (x : roLayer) : roLayer :=
  mkRo (chainID x) (diffID x) (parent x) (cacheID x) (ro_size x) (descriptor x) (referenceCount x) r.

(** ** roLayer *)

(** Recursion along the parent pointers; [S l] steps are enough from [l]. *)
Fixpoint depth_fuel (fuel : nat) (h : gmap loc roLayer) (l : loc) : option nat :=
  match fuel with
  | 0 => None
  | S fuel => x ← h !! l; match parent x with
                          | None => Some 1
                          | Some p => n ← depth_fuel fuel h p; Some (n + 1)
                          end
  end.
Definition depth (h : gmap loc roLayer) (l : loc) : option nat := depth_fuel (S l) h l.

Fixpoint Size_fuel (fuel : nat) (h : gmap loc roLayer) (l : loc) : option Z :=
  match fuel with
  | 0 => None
  | S fuel => x ← h !! l; match parent x with
                          | None => Some (wrap64 (0 + ro_size x))
                          | Some p => n ← Size_fuel fuel h p; Some (wrap64 (n + ro_size x))
                          end
  end.
Definition Size (h : gmap loc roLayer) (l : loc) : option Z := Size_fuel (S l) h l.

Definition getReference (l : loc) : L Layer :=
  x ← deref l;
  id ← st_gets next_ref;
  _ ← st_modify (with_next_ref (S id));
  _ ← assign l (set_references ({[ id ]} ∪ references x) x);
  mret (refLayer id l).

Definition hasReference (ref : Layer) (x : roLayer) : bool :=
  match ref with refLayer id _ => bool_decide (id ∈ references x) | bareLayer _ => false end.

Definition hasReferences (x : roLayer) : bool := bool_decide (0 < size (references x)).

Definition deleteReference (ref : Layer) (x : roLayer) : roLayer :=
  match ref with
  | refLayer id _ => set_references (references x ∖ {[ id ]}) x
  | bareLayer _ => x
  end.

(** [createChainIDFromParent], "" being the empty chain. *)
Fixpoint createChainIDFromParent (parent : string) (dgsts : list string) : string :=
  match dgsts with
  | [] => parent
  | d :: dgsts =>
      if bool_decide (parent = "") then createChainIDFromParent d dgsts
      else createChainIDFromParent (FromBytes (parent +:+ " " +:+ d)) dgsts
  end.

Definition CreateChainID (dgsts : list string) : string := createChainIDFromParent "" dgsts.

(** ** layerStore: read-only layers *)

Definition getWithoutLock (c : string) : L (option loc) :=
  m ← st_gets layerMap;
  match m !! c with
  | None => mret None
  | Some l =>
      x ← deref l;
      _ ← assign l (set_referenceCount (S (referenceCount x)) x);
      mret (Some l)
  end.

Definition Get (c : string) : L Layer :=
  o ← getWithoutLock c;
  match o with
  | None => st_fail ErrLayerDoesNotExist
  | Some l => getReference l
  end.

Definition deleteLayer (l : loc) (x : roLayer) : L Metadata :=
  _ ← drv (drv_Remove (cacheID x));
  _ ← md (md_Remove (chainID x));
  h ← st_gets layers;
  match Size h l with
  | Some n => mret (mkMetadata (chainID x) (diffID x) n (ro_size x))
  | None => st_panic "nil pointer dereference"
  end.

(** The loop of [releaseLayer]; [depth > 0] holds from the second turn on. *)
Fixpoint releaseLayer_loop (fuel : nat) (l : loc) (depth : nat) (removed : list Metadata)
  : L (list Metadata) :=
  match fuel with
  | 0 => st_panic "out of fuel"
  | S fuel =>
      x ← deref l;
      if decide (referenceCount x = 0) then st_panic "layer not retained"
      else
        let x := set_referenceCount (referenceCount x - 1) x in
        _ ← assign l x;
        if decide (referenceCount x ≠ 0) then mret removed
        else if bool_decide (length removed = 0) && bool_decide (0 < depth)
        then st_panic "cannot remove layer with child"
        else if hasReferences x then st_panic "cannot delete referenced layer"
        else
          metadata ← deleteLayer l x;
          _ ← st_modify (λ s, with_layerMap (delete (chainID x) (layerMap s)) s);
          let removed := removed ++ [metadata] in
          match parent x with
          | None => mret removed
          | Some p => releaseLayer_loop fuel p (S depth) removed
          end
  end.

Definition releaseLayer (l : loc) : L (list Metadata) := releaseLayer_loop (S l) l 0 [].

Definition Release (ref : Layer) : L (list Metadata) :=
  y ← deref (Layer_target ref);
  m ← st_gets layerMap;
  match m !! chainID y with
  | None => mret []
  | Some l =>
      x ← deref l;
      if negb (hasReference ref x) then st_fail ErrLayerNotRetained
      else _ ← assign l (deleteReference ref x); releaseLayer l
  end.

(** [applyTar]: the size the driver reports and the digest of the stream. *)
Definition applyTar (tx : TX) (ts pid cache : string) : L (string * Z) :=
  _ ← md (tx_TarSplitWriter tx);
  match NewInputTarStream ts with
  | Some e => st_fail (EOther e)
  | None =>
      applySize ← drv_val (drv_ApplyDiff cache pid ts);
      mret (FromBytes ts, applySize)
  end.

Definition storeLayer (tx : TX) (x : roLayer) (parentChain : option string) : L unit :=
  _ ← md (tx_SetDiffID tx (diffID x));
  _ ← md (tx_SetSize tx (ro_size x));
  _ ← md (tx_SetCacheID tx (cacheID x));
  _ ← (if bool_decide (desc_Digest (descriptor x) ≠ "") then md (tx_SetDescriptor tx (descriptor x))
       else mret tt);
  match parentChain with
  | Some c => md (tx_SetParent tx c)
  | None => mret tt
  end.

(** [ls.layerMap[layer.chainID] = layer] for the new object. *)
Definition publish (x : roLayer) : L loc := λ s,
  let l := next_loc s in
  (Ok l, mkLS (store s) (driver s) (<[l := x]> (layers s)) (S l)
           (<[chainID x := l]> (layerMap s)) (mounts s) (next_ref s)).

(** The last region of [registerWithDescriptor], under [layerL]: the flag
    says that [err] is set although a layer is returned. *)
Definition register_finish (tx : TX) (x : roLayer) : L (Layer * bool) :=
  existing ← getWithoutLock (chainID x);
  match existing with
  | Some l => ref ← getReference l; mret (ref, true)
  | None =>
      _ ← md (tx_Commit tx (chainID x));
      l ← publish x;
      ref ← getReference l;
      mret (ref, false)
  end.

(** From the creation of the layer on, with the parent retained. *)
Definition register_layer (ts : string) (p : option (loc * roLayer)) (desc : Desc) (newID : string)
  : L (Layer * bool) :=
  let pid := match p with Some (_, y) => cacheID y | None => "" end in
  _ ← drv (drv_Create newID pid);
  tx ← md_val StartTransaction;
  defer_on_err
    (_ ← ignore_err (drv (drv_Remove newID)); ignore_err (md (tx_Cancel tx)))
    ('(diff, applySize) ← applyTar tx ts pid newID;
     let chain := match p with
                  | None => diff
                  | Some (_, y) => createChainIDFromParent (chainID y) [diff]
                  end in
     let x := mkRo chain diff (fst <$> p) newID applySize desc 1 ∅ in
     _ ← storeLayer tx x (chainID ∘ snd <$> p);
     register_finish tx x).

Definition registerWithDescriptor (ts parentID : string) (desc : Desc) (newID : string) : L Layer :=
  if bool_decide (parentID = "") then fst <$> register_layer ts None desc newID
  else
    p ← getWithoutLock parentID;
    match p with
    | None => st_fail ErrLayerDoesNotExist
    | Some p =>
        y ← deref p;
        fst <$> defer_on_err (ignore_err (releaseLayer p))
          (h ← st_gets layers;
           match depth h p with
           | None => st_panic "nil pointer dereference"
           | Some n => if decide (maxLayerDepth ≤ n) then st_fail ErrMaxDepthExceeded
                       else register_layer ts (Some (p, y)) desc newID
           end)
    end.

Definition Register (ts parentID newID : string) : L Layer :=
  registerWithDescriptor ts parentID emptyDesc newID.

(** ** layerStore: mounts *)

Definition mount_getReference (name : string) : L RWLayer := λ s,
  match mounts s !! name with
  | None => (Panic "nil pointer dereference", s)
  | Some m =>
      let id := next_ref s in
      (Ok (mkRW id name),
       with_next_ref (S id)
         (with_mounts (<[name := mkMounted (ml_name m) (mountID m) (initID m) (ml_parent m)
                                   ({[ id ]} ∪ ml_references m)]> (mounts s)) s))
  end.

Definition saveMount (m : mountedLayer) : L unit :=
  _ ← md (md_SetMountID (ml_name m) (mountID m));
  _ ← (if bool_decide (initID m ≠ "") then md (md_SetInitID (ml_name m) (initID m)) else mret tt);
  _ ← match ml_parent m with
      | Some p => y ← deref p; md (md_SetMountParent (ml_name m) (chainID y))
      | None => mret tt
      end;
  st_modify (λ s, with_mounts (<[ml_name m := m]> (mounts s)) s).

(** [initFunc] is the caller's function on the path of the mounted layer. *)
Definition initMount (graphID pid : string) (initFunc : string → option string) : L string :=
  let initID := graphID +:+ "-init" in
  _ ← drv (drv_Create initID pid);
  p ← drv_val (drv_Get initID);
  match initFunc p with
  | Some e => _ ← ignore_err (drv (drv_Put initID)); st_fail (EOther e)
  | None => _ ← drv (drv_Put initID); mret initID
  end.

Definition create_mount (name : string) (p : option (loc * roLayer))
    (initFunc : option (string → option string)) (newID : string) : L RWLayer :=
  let pid := match p with Some (_, y) => cacheID y | None => "" end in
  init ← match initFunc with
         | None => mret ""
         | Some f => initMount newID pid f
         end;
  let pid := match initFunc with None => pid | Some _ => init end in
  _ ← drv (drv_CreateReadWrite newID pid);
  _ ← saveMount (mkMounted name newID init (fst <$> p) ∅);
  mount_getReference name.

Definition CreateRWLayer (name parentID : string) (initFunc : option (string → option string))
    (newID : string) : L RWLayer :=
  ms ← st_gets mounts;
  match ms !! name with
  | Some _ => st_fail ErrMountNameConflict
  | None =>
      if bool_decide (parentID = "") then create_mount name None initFunc newID
      else
        p ← getWithoutLock parentID;
        match p with
        | None => st_fail ErrLayerDoesNotExist
        | Some p =>
            y ← deref p;
            fst <$> defer_on_err (ignore_err (releaseLayer p))
              ((λ r, (r, false)) <$> create_mount name (Some (p, y)) initFunc newID)
        end
  end.

Definition GetRWLayer (id : string) : L RWLayer :=
  ms ← st_gets mounts;
  match ms !! id with
  | None => st_fail ErrMountDoesNotExist
  | Some _ => mount_getReference id
  end.

Definition GetMountID (id : string) : L string :=
  ms ← st_gets mounts;
  match ms !! id with
  | None => st_fail ErrMountDoesNotExist
  | Some m => mret (mountID m)
  end.

Definition set_ml_references (r : gset nat) (m : mountedLayer) : mountedLayer :=
  mkMounted (ml_name m) (mountID m) (initID m) (ml_parent m) r.

Definition put_mount (m : mountedLayer) : L unit :=
  st_modify (λ s, with_mounts (<[ml_name m := m]> (mounts s)) s).

(** The removal of the mount's storage: the init layer only if there is one. *)
Definition remove_mount_storage (m : mountedLayer) : L unit :=
  _ ← drv (drv_Remove (mountID m));
  _ ← (if bool_decide (initID m ≠ "") then drv (drv_Remove (initID m)) else mret tt);
  md (md_RemoveMount (ml_name m)).

(** [ReleaseRWLayer] up to [delete(ls.mounts, m.Name())]: [None] when it
    returns early without an error, else the parent that is left to release. *)
Definition release_mount (ref : RWLayer) : L (option (option loc)) :=
  ms ← st_gets mounts;
  match ms !! rw_Name ref with
  | None => mret None
  | Some m =>
      if bool_decide (rw_id ref ∉ ml_references m) then st_fail ErrLayerNotRetained
      else
        let m' := set_ml_references (ml_references m ∖ {[ rw_id ref ]}) m in
        _ ← put_mount m';
        if bool_decide (0 < size (ml_references m')) then mret None
        else
          r ← st_try (remove_mount_storage m');
          match r with
          | inr e =>
              (* retakeReference *)
              _ ← put_mount (set_ml_references ({[ rw_id ref ]} ∪ ml_references m') m');
              st_fail e
          | inl _ =>
              _ ← st_modify (λ s, with_mounts (delete (ml_name m') (mounts s)) s);
              mret (Some (ml_parent m'))
          end
  end.

Definition ReleaseRWLayer (ref : RWLayer) : L (list Metadata) :=
  r ← release_mount ref;
  match r with
  | Some (Some p) => releaseLayer p
  | _ => mret []
  end.

(** [cacheParent] of a mount, the base of its diff. *)
Definition cacheParent (m : mountedLayer) : L string :=
  if bool_decide (initID m ≠ "") then mret (initID m)
  else match ml_parent m with
       | Some p => cacheID <$> deref p
       | None => mret ""
       end.

(** ** Restoring a store from its metadata *)

(** The recursion follows the stored parents; it is the Go stack that bounds
    it, here [fuel]. *)
Fixpoint loadLayer (fuel : nat) (c : string) : L loc :=
  match fuel with
  | 0 => st_panic "stack overflow"
  | S fuel =>
      m ← st_gets layerMap;
      match m !! c with
      | Some l => mret l
      | None =>
          diff ← md_read (md_GetDiffID c);
          sz ← md_read (md_GetSize c);
          cache ← md_read (md_GetCacheID c);
          parentID ← md_read (md_GetParent c);
          desc ← md_read (md_GetDescriptor c);
          p ← (if bool_decide (parentID ≠ "") then Some <$> loadLayer fuel parentID else mret None);
          publish (mkRo c diff p cache sz desc 0 ∅)
      end
  end.

Definition retain (l : loc) : L unit :=
  x ← deref l; assign l (set_referenceCount (S (referenceCount x)) x).

Definition loadMount (fuel : nat) (name : string) : L unit :=
  ms ← st_gets mounts;
  match ms !! name with
  | Some _ => mret tt
  | None =>
      mid ← md_read (md_GetMountID name);
      iid ← md_read (md_GetInitID name);
      parentID ← md_read (md_GetMountParent name);
      p ← (if bool_decide (parentID ≠ "")
           then p ← loadLayer fuel parentID; _ ← retain p; mret (Some p)
           else mret None);
      put_mount (mkMounted name mid iid p ∅)
  end.

Fixpoint for_each {A B} (f : A → L B) (l : list A) : L unit :=
  match l with [] => mret tt | a :: l => _ ← f a; for_each f l end.

Definition load_one (fuel : nat) (c : string) : L unit :=
  r ← st_try (loadLayer fuel c);
  match r with
  | inr _ => mret tt                          (* logged *)
  | inl l => x ← deref l; match parent x with Some p => retain p | None => mret tt end
  end.

Definition NewStoreFromGraphDriver (fuel : nat) (m : M) (d : D) : outcome lerror unit * layerStore :=
  (ids ← md_read md_List;
   _ ← for_each (load_one fuel) ids.1;
   for_each (λ name, ignore_err (loadMount fuel name)) ids.2)
  (mkLS m d ∅ 0 ∅ ∅ 0).
End store.
