(* ===== verification/LayerInv.v ===== *)
(** * layer: the reference counts of the layer store

    The invariant of [LayerStore]: the count of every layer in [layerMap] is
    the number of its holders -- references given to callers, child layers,
    mounts, and parent pointers retained by operations in progress.  Every
    mutex region keeps it, for every behaviour of the driver and of the
    metadata store, and under it no [panic] of the code is reached. *)

From S2P Require Import Prelude.
From S2P Require Import LayerStore.

Section inv.
Context {D M TX Desc : Type} `{!GraphDriver D} `{!MetadataStore M TX Desc}.
Context (FromBytes : string → string).

Abbreviation LS := (@layerStore D M Desc).
Implicit Types (s : LS) (H : list loc) (x : @roLayer Desc).

(** ** Holders *)

(** A layer that callers can reach. *)
Definition live s (l : loc) : Prop := ∃ x, layers s !! l = Some x ∧ layerMap s !! chainID x = Some l.

Definition par s (l : loc) : option loc := layers s !! l ≫= parent.

Definition children s (l : loc) : nat := count_map (λ kv, par s kv.2 = Some l) (layerMap s).

Definition mounted s (l : loc) : nat := count_map (λ kv, ml_parent kv.2 = Some l) (mounts s).

(** Operations in progress that retain [l]. *)
Definition held (l : loc) H : nat := length (filter (λ y, y = l) H).

(** [ds] are the diff IDs of the layers from the root to [l]. *)
Inductive chain_of (h : gmap loc (@roLayer Desc)) : loc → list string → Prop :=
| chain_root l x : h !! l = Some x → parent x = None → chain_of h l [diffID x]
| chain_child l x p ds :
    h !! l = Some x → parent x = Some p → chain_of h p ds → chain_of h l (ds ++ [diffID x]).

(** The layer is at most [maxLayerDepth] deep and its chain ID is the digest
    of the chain; asked of stores that were not loaded from metadata. *)
Context (strict : bool).

(** Layers that handles of callers point to; they stay allocated. *)
Context (K : list loc).

Definition addressed s (l : loc) : Prop :=
  ∃ x ds, layers s !! l = Some x ∧ chain_of (layers s) l ds ∧ length ds ≤ maxLayerDepth ∧
          chainID x = CreateChainID FromBytes ds.

Record Inv H s : Prop := mkInv {
  inv_map : ∀ c l, layerMap s !! c = Some l → ∃ x, layers s !! l = Some x ∧ chainID x = c;
  inv_parent : ∀ c l x p, layerMap s !! c = Some l → layers s !! l = Some x → parent x = Some p →
    p < l ∧ live s p;
  inv_mount : ∀ n m, mounts s !! n = Some m →
    ml_name m = n ∧ ∀ p, ml_parent m = Some p → live s p;
  inv_held : ∀ l, l ∈ H → live s l;
  inv_fresh_loc : ∀ l x, layers s !! l = Some x → l < next_loc s;
  inv_fresh_ref : ∀ l x i, layers s !! l = Some x → i ∈ references x → i < next_ref s;
  inv_fresh_rw : ∀ n m i, mounts s !! n = Some m → i ∈ ml_references m → i < next_ref s;
  inv_count : ∀ c l x, layerMap s !! c = Some l → layers s !! l = Some x →
    referenceCount x = size (references x) + children s l + mounted s l + held l H;
  inv_chain : strict = true → ∀ l, live s l → addressed s l;
  inv_heap : ∀ l x p, layers s !! l = Some x → parent x = Some p → is_Some (layers s !! p);
  inv_alloc : ∀ l, l ∈ K → is_Some (layers s !! l);
}.

(** States that differ in the driver and the metadata store only. *)
Definition core s s' : Prop :=
  layers s' = layers s ∧ next_loc s' = next_loc s ∧ layerMap s' = layerMap s ∧
  mounts s' = mounts s ∧ next_ref s' = next_ref s.

Definition core_closed (P : LS → Prop) : Prop := ∀ s s', core s s' → P s → P s'.

Lemma live_core s s' l : core s s' → live s l → live s' l.
Proof. unfold core, live. by intros (-> & _ & -> & _ & _). Qed.

Lemma Inv_core H : core_closed (Inv H).
Proof.
  intros s s' Hc [I1 I2 I3 I4 I5 I6 I7 I8 I9 I10 I11]. pose proof Hc as (E1 & E2 & E3 & E4 & E5).
  constructor; rewrite ?E1, ?E2, ?E3, ?E4, ?E5; try done.
  - intros c l x p H1 H2 H3. destruct (I2 c l x p H1 H2 H3). eauto using live_core.
  - intros n m Hm. destruct (I3 n m Hm). split; [done|]. eauto using live_core.
  - eauto using live_core.
  - unfold children, mounted, par. rewrite E1, E3, E4. apply I8.
  - unfold addressed, live in *. rewrite E1, E3. apply I9.
Qed.

Lemma core_closed_and (P Q : LS → Prop) :
  core_closed P → core_closed Q → core_closed (λ s, P s ∧ Q s).
Proof. intros HP HQ s s' Hc [??]. split; eauto. Qed.

Lemma core_closed_deref l x : core_closed (λ s, layers s !! l = Some x).
Proof. by intros s s' (-> & _). Qed.

(** ** Actions on the driver and the metadata store *)

Definition inert {A} (m : ST LS lerror A) : Prop :=
  ∀ P, core_closed P → hoare P m (λ _, P) (λ _, P).

Lemma inert_drv f : inert (drv f).
Proof.
  intros P HP s Hs. unfold drv. destruct (f _) as [[e|] d]; eapply HP; eauto; by repeat split.
Qed.
Lemma inert_drv_val {A} (f : D → outcome string A * D) : inert (drv_val f).
Proof.
  intros P HP s Hs. unfold drv_val. destruct (f _) as [[a|e|e] d]; eapply HP; eauto; by repeat split.
Qed.
Lemma inert_md f : inert (md f).
Proof.
  intros P HP s Hs. unfold md. destruct (f _) as [[e|] d]; eapply HP; eauto; by repeat split.
Qed.
Lemma inert_md_val {A} (f : M → outcome string A * M) : inert (md_val f).
Proof.
  intros P HP s Hs. unfold md_val. destruct (f _) as [[a|e|e] d]; eapply HP; eauto; by repeat split.
Qed.
Lemma inert_ret {A} (a : A) : inert (mret a).
Proof. by intros P HP s Hs. Qed.
Lemma inert_fail {A} e : inert (st_fail (A:=A) e).
Proof. by intros P HP s Hs. Qed.
Lemma inert_bind {A B} (m : ST LS lerror A) (k : A → ST LS lerror B) :
  inert m → (∀ a, inert (k a)) → inert (m ≫= k).
Proof. intros Hm Hk P HP. eapply hoare_bind; [by apply Hm|]. intros a. by apply Hk. Qed.
Lemma hoare_inert {A B} P (m : ST LS lerror A) (k : A → ST LS lerror B) Q :
  inert m → core_closed P → (∀ a, hoare P (k a) Q (λ _, P)) → hoare P (m ≫= k) Q (λ _, P).
Proof. intros Hm HP Hk. eapply hoare_bind; [by apply Hm|]. exact Hk. Qed.
Lemma inert_ignore {A} (m : ST LS lerror A) : inert m → inert (ignore_err m).
Proof.
  intros Hm P HP. apply (hoare_bind _ _ _ _ (λ _, P)).
  - apply (hoare_try P m (λ _, P)). by apply Hm.
  - intros a. apply (hoare_ret tt (λ _, P)).
Qed.

(** ** Changing one layer *)

Definition bump s (l : loc) (x : @roLayer Desc) (n : nat) : LS :=
  with_next_ref n (with_layers (<[l := x]> (layers s)) s).

Lemma held_cons l l' H : held l (l' :: H) = (if decide (l' = l) then 1 else 0) + held l H.
Proof. unfold held. rewrite filter_cons. by destruct (decide _). Qed.

Lemma held_pos l H : l ∈ H → 0 < held l H.
Proof.
  intros Hl. unfold held. destruct (filter _ H) eqn:E; [|simpl; lia].
  assert (l ∈ filter (λ y, y = l) H) as Hf by (by apply list_elem_of_filter).
  rewrite E in Hf. set_solver.
Qed.

Lemma held_0 l H : l ∉ H → held l H = 0.
Proof using Type.
  induction H as [|k H IH]; intros Hl; [done|]. rewrite held_cons.
  rewrite decide_False by set_solver. apply IH. set_solver.
Qed.

Section bump.
Context s l x x' (n : nat) (Hx : layers s !! l = Some x).
Context (Hc : chainID x' = chainID x) (Hp : parent x' = parent x) (Hd : diffID x' = diffID x).

Lemma live_bump l' : live (bump s l x' n) l' ↔ live s l'.
Proof.
  unfold live, bump. simpl. destruct (decide (l' = l)) as [->|].
  - rewrite lookup_insert_eq. split; intros (y & Hy & Hm); simplify_eq.
    + exists x. by rewrite <-Hc.
    + exists x'. by rewrite Hc.
  - by rewrite lookup_insert_ne.
Qed.

Lemma par_bump l' : par (bump s l x' n) l' = par s l'.
Proof.
  unfold par, bump. simpl. destruct (decide (l' = l)) as [->|].
  - rewrite lookup_insert_eq, Hx. simpl. done.
  - by rewrite lookup_insert_ne.
Qed.

Lemma children_bump l' : children (bump s l x' n) l' = children s l'.
Proof. unfold children. apply count_map_ext. intros c k _. simpl. by rewrite par_bump. Qed.

Lemma chain_bump k ds : chain_of (layers s) k ds → chain_of (layers (bump s l x' n)) k ds.
Proof.
  simpl. induction 1 as [k y Hy Hpy|k y p ds Hy Hpy _ IH].
  - destruct (decide (k = l)) as [->|]; simplify_eq.
    + rewrite <-Hd. apply chain_root; [by rewrite lookup_insert_eq|congruence].
    + apply chain_root; [by rewrite lookup_insert_ne|done].
  - destruct (decide (k = l)) as [->|]; simplify_eq.
    + rewrite <-Hd. eapply chain_child; [by rewrite lookup_insert_eq|by rewrite Hp|done].
    + eapply chain_child; [by rewrite lookup_insert_ne|done..].
Qed.

Lemma Inv_bump H H' :
  Inv H s → next_ref s ≤ n →
  (∀ i, i ∈ references x' → i < n) →
  (∀ k, k ∈ H' → live s k) →
  (∀ k, k ≠ l → held k H' = held k H) →
  (live s l → referenceCount x' = size (references x') + children s l + mounted s l + held l H') →
  Inv H' (bump s l x' n).
Proof.
  intros [I1 I2 I3 I4 I5 I6 I7 I8 I9 I10 I11] Hn Hfr Hh Hheld Hcount. constructor; simpl.
  - intros c k Hk. destruct (I1 c k Hk) as (y & Hy & <-). destruct (decide (k = l)) as [->|].
    + rewrite lookup_insert_eq. simplify_eq. eauto.
    + rewrite lookup_insert_ne by done. eauto.
  - intros c k y p Hk Hy Hpy. rewrite live_bump. destruct (decide (k = l)) as [->|].
    + rewrite lookup_insert_eq in Hy. simplify_eq. rewrite Hp in Hpy. eauto.
    + rewrite lookup_insert_ne in Hy by done. eauto.
  - intros m ml Hm. destruct (I3 m ml Hm) as [? Hl]. split; [done|].
    intros p Hp'. rewrite live_bump. eauto.
  - intros k Hk. rewrite live_bump. eauto.
  - intros k y. destruct (decide (k = l)) as [->|]; [eauto|].
    rewrite lookup_insert_ne by done. eauto.
  - intros k y i. destruct (decide (k = l)) as [->|].
    + rewrite lookup_insert_eq. intros [= <-]. apply Hfr.
    + rewrite lookup_insert_ne by done. intros Hy Hi. pose proof (I6 k y i Hy Hi). lia.
  - intros m ml i Hm Hi. pose proof (I7 m ml i Hm Hi). lia.
  - intros c k y Hk. rewrite children_bump. unfold mounted. simpl. fold (mounted s k).
    destruct (decide (k = l)) as [->|].
    + rewrite lookup_insert_eq. intros [= <-]. apply Hcount.
      destruct (I1 c l Hk) as (z & Hz & <-). simplify_eq. by exists x.
    + rewrite lookup_insert_ne by done. intros Hy. rewrite Hheld by done. eauto.
  - intros Hst k. rewrite live_bump. intros Hk.
    destruct (I9 Hst k Hk) as (y & ds & Hy & Hch & Hlen & Hid). unfold addressed. simpl.
    destruct (decide (k = l)) as [->|]; simplify_eq.
    + exists x', ds. rewrite lookup_insert_eq, Hc. eauto using chain_bump.
    + exists y, ds. rewrite lookup_insert_ne by done. eauto using chain_bump.
  - intros k y p Hy Hpy. apply lookup_insert_is_Some'. right. destruct (decide (k = l)) as [->|].
    + rewrite lookup_insert_eq in Hy. simplify_eq. rewrite Hp in Hpy. eauto.
    + rewrite lookup_insert_ne in Hy by done. eauto.
  - intros k Hk. apply lookup_insert_is_Some'. right. eauto.
Qed.
End bump.

Lemma with_layers_bump s l x : with_layers (<[l := x]> (layers s)) s = bump s l x (next_ref s).
Proof. by destruct s. Qed.

(** The count of a live layer. *)
Lemma live_count H s l x :
  Inv H s → live s l → layers s !! l = Some x →
  referenceCount x = size (references x) + children s l + mounted s l + held l H.
Proof. intros I (y & Hy & Hm) Hx. simplify_eq. by eapply inv_count. Qed.

(** ** Regions of the read-only layers *)

(** [get] retains the layer. *)
Lemma getWithoutLock_spec H c :
  hoare (Inv H) (getWithoutLock c)
    (λ o s, match o with
            | None => Inv H s ∧ layerMap s !! c = None
            | Some l => Inv (l :: H) s ∧ layerMap s !! c = Some l
            end) (λ _ _, False).
Proof.
  intros s I. unfold getWithoutLock, mbind, ST_bind. simpl.
  destruct (layerMap s !! c) as [l|] eqn:Hl; [|done].
  destruct (inv_map H s I c l Hl) as (x & Hx & Hc). unfold deref. rewrite Hx. simpl.
  rewrite with_layers_bump.
  assert (live s l) as Hlive by (exists x; by rewrite Hc). split; [|done].
  eapply Inv_bump; [done..|exact I|done|simpl; eauto using inv_fresh_ref| | |].
  - intros k [->|?]%elem_of_cons; [done|]. by eapply inv_held.
  - intros k Hk. rewrite held_cons, decide_False by done. done.
  - intros _. simpl. rewrite held_cons, decide_True by done.
    rewrite (live_count H s l x) by done. lia.
Qed.

(** [r] is a valid reference to the layer [l] published as [c]. *)
Definition gives (c : string) (l : loc) (r : Layer) s : Prop :=
  ∃ y id, r = refLayer id l ∧ layers s !! l = Some y ∧ layerMap s !! c = Some l ∧
          chainID y = c ∧ id ∈ references y.

Lemma gives_core c l r : core_closed (gives c l r).
Proof. unfold gives. by intros s s' (-> & _ & -> & _). Qed.

(** [getReference] turns the retained pointer into a reference. *)
Lemma getReference_spec H c l :
  hoare (λ s, Inv (l :: H) s ∧ layerMap s !! c = Some l) (getReference l)
    (λ r s, Inv H s ∧ gives c l r s) (λ _ _, False).
Proof.
  intros s [I Hcl]. assert (live s l) as Hlive by (eapply inv_held; [exact I|left]).
  pose proof Hlive as (x & Hx & Hm). unfold getReference, mbind, ST_bind, deref. rewrite Hx. simpl.
  set (x' := set_references _ x).
  change (with_layers _ _) with (bump s l x' (S (next_ref s))).
  assert (next_ref s ∉ references x) as Hfresh.
  { intros Hi. pose proof (inv_fresh_ref _ s I l x _ Hx Hi). lia. }
  split.
  - eapply Inv_bump; [done..|exact I|lia| | | |].
    + intros i. simpl. rewrite elem_of_union, elem_of_singleton. intros [->|Hi]; [lia|].
      pose proof (inv_fresh_ref _ s I l x i Hx Hi). lia.
    + intros k Hk. eapply inv_held; [exact I|]. by right.
    + intros k Hk. rewrite held_cons, decide_False by done. done.
    + intros _. simpl. rewrite size_union by set_solver. rewrite size_singleton.
      rewrite (live_count (l :: H) s l x) by done. rewrite held_cons, decide_True by done. lia.
  - destruct (inv_map _ s I c l Hcl) as (y & Hy & Hyc). simplify_eq.
    exists x', (next_ref s). simpl. rewrite lookup_insert_eq. set_solver.
Qed.

(** A layer without holders has no child, no mount and is not retained. *)
Lemma no_holders H s l x :
  Inv H s → live s l → layers s !! l = Some x → referenceCount x = 0 →
  references x = ∅ ∧ children s l = 0 ∧ mounted s l = 0 ∧ l ∉ H.
Proof.
  intros I Hl Hx H0. pose proof (live_count H s l x I Hl Hx) as Hc. rewrite H0 in Hc.
  assert (size (references x) = 0) as Hs by lia. apply size_empty_inv in Hs.
  split; [by apply leibniz_equiv|]. split; [lia|]. split; [lia|].
  intros Hin. pose proof (held_pos l H Hin). lia.
Qed.

(** ** Recursion along the parents *)

Lemma depth_Size_live H s fuel l :
  Inv H s → live s l → l < fuel →
  is_Some (depth_fuel fuel (layers s) l) ∧ is_Some (Size_fuel fuel (layers s) l).
Proof.
  intros I. revert l. induction fuel as [|fuel IH]; intros l Hl Hlt; [lia|].
  destruct Hl as (x & Hx & Hm). simpl. rewrite Hx. simpl.
  destruct (parent x) as [p|] eqn:Hp; [|by eauto].
  destruct (inv_parent H s I _ l x p Hm Hx Hp) as [Hpl Hlp].
  destruct (IH p Hlp) as [[d ->] [z ->]]; [lia|]. simpl. by eauto.
Qed.

(** ** Removing a layer without holders *)

Section remove.
Context H s l x (I : Inv H s) (Hx : layers s !! l = Some x).
Context (Hm : layerMap s !! chainID x = Some l) (H0 : referenceCount x = 0).

Abbreviation s' := (with_layerMap (delete (chainID x) (layerMap s)) s).

Lemma live_remove k : live s' k ↔ live s k ∧ k ≠ l.
Proof using Hm Hx.
  unfold live. simpl. split.
  - intros (y & Hy & Hk). destruct (decide (chainID x = chainID y)) as [E|E].
    + by rewrite E, lookup_delete_eq in Hk.
    + rewrite lookup_delete_ne in Hk by done. split; [eauto|]. intros ->. by simplify_eq.
  - intros [(y & Hy & Hk) Hne]. exists y. split; [done|].
    rewrite lookup_delete_ne; [done|]. intros E. rewrite <-E in Hk. by simplify_eq.
Qed.

Lemma children_remove k :
  children s k = (if decide (parent x = Some k) then 1 else 0) + children s' k.
Proof using Hm Hx.
  unfold children. rewrite (count_map_delete _ (layerMap s) (chainID x) l Hm). f_equal.
  unfold par. simpl. rewrite Hx. simpl. done.
Qed.

Lemma Inv_remove : Inv (option_list (parent x) ++ H) s'.
Proof using I Hx Hm H0.
  destruct (no_holders H s l x I (ex_intro _ x (conj Hx Hm)) Hx H0) as (_ & Hch & Hmt & Hh).
  pose proof I as [I1 I2 I3 I4 I5 I6 I7 I8 I9 I10 I11].
  assert (∀ c k, delete (chainID x) (layerMap s) !! c = Some k → layerMap s !! c = Some k ∧ k ≠ l) as Hd.
  { intros c k Hk. apply lookup_delete_Some in Hk as [Hne Hk]. split; [done|]. intros ->.
    destruct (I1 c l Hk) as (y & Hy & <-). by simplify_eq. }
  constructor; simpl; try done.
  - intros c k Hk. apply Hd in Hk as [Hk _]. eauto.
  - intros c k y p Hk Hy Hp. apply Hd in Hk as [Hk _].
    destruct (I2 c k y p Hk Hy Hp) as [Hlt Hlp]. split; [done|]. rewrite live_remove. split; [done|].
    intros ->. apply (count_map_0 _ _ c k) in Hch; [|done].
    apply Hch. unfold par. simpl. by rewrite Hy.
  - intros n m Hn. destruct (I3 n m Hn) as [? Hl]. split; [done|]. intros p Hp.
    rewrite live_remove. split; [by eauto|]. intros ->.
    by apply (count_map_0 _ _ n m) in Hmt.
  - intros k [Hk|Hk]%elem_of_app; rewrite live_remove.
    + destruct (parent x) as [p|] eqn:Hp; simpl in Hk; [|by apply elem_of_nil in Hk].
      apply list_elem_of_singleton in Hk as ->.
      destruct (I2 _ l x p Hm Hx Hp) as [? ?]. split; [done|lia].
    + split; [by eauto|]. by intros ->.
  - intros c k y Hk Hy. apply Hd in Hk as [Hk Hne]. rewrite (I8 c k y Hk Hy), (children_remove k).
    unfold mounted. simpl. destruct (parent x) as [p|]; simpl; [|lia]. rewrite held_cons.
    destruct (decide (p = k)) as [->|].
    + rewrite decide_True by done. lia.
    + rewrite decide_False by congruence. lia.
  - intros Hst k. rewrite live_remove. intros [Hk _]. by apply I9.
Qed.
End remove.

(** ** releaseLayer *)

(** The layer [k] is published as [c] and referenced through [R]. *)
Definition keeps (k : loc) (cR : string * gset nat) s : Prop :=
  ∃ y, layers s !! k = Some y ∧ chainID y = cR.1 ∧ layerMap s !! cR.1 = Some k ∧ references y = cR.2.

Lemma keeps_core k R : core_closed (keeps k R).
Proof. unfold keeps. by intros s s' (-> & _ & -> & _). Qed.

Lemma keeps_bump k R s l x x' n :
  layers s !! l = Some x → chainID x' = chainID x → references x' = references x →
  keeps k R s → keeps k R (bump s l x' n).
Proof.
  intros Hx Hc Hr (y & Hy & Hyc & Hm & HR). unfold keeps, bump. simpl.
  destruct (decide (k = l)) as [->|].
  - rewrite lookup_insert_eq. simplify_eq. exists x'. by rewrite Hc, Hr.
  - rewrite lookup_insert_ne by done. eauto.
Qed.

(** [layerMap] is [m0] without the layers of [removed]. *)
Definition map_minus (m0 : gmap string loc) (removed : list Metadata) s : Prop :=
  ∀ c, layerMap s !! c = if decide (c ∈ md_ChainID <$> removed) then None else m0 !! c.

Lemma map_minus_core m0 r : core_closed (map_minus m0 r).
Proof. unfold map_minus. intros s s' (_ & _ & -> & _). done. Qed.

Lemma deleteLayer_spec P H l x :
  core_closed P → (∀ s, P s → Inv H s ∧ live s l) →
  hoare P (deleteLayer l x) (λ r s, P s ∧ md_ChainID r = chainID x) (λ _, P).
Proof.
  intros HP HI. unfold deleteLayer.
  apply hoare_inert; [apply inert_drv|done|intros _].
  apply hoare_inert; [apply inert_md|done|intros _].
  apply hoare_gets_bind. intros h s [Hs <-]. destruct (HI s Hs) as [I Hl].
  destruct (depth_Size_live H s (S l) l I Hl) as [_ [z Hz]]; [lia|].
  unfold Size. rewrite Hz. done.
Qed.

Definition keeps_all (F : list (loc * (string * gset nat))) s : Prop := Forall (λ kR, keeps kR.1 kR.2 s) F.

Lemma keeps_all_core F : core_closed (keeps_all F).
Proof. intros s s' Hc HF. eapply Forall_impl; [exact HF|]. intros kR. by apply keeps_core. Qed.

Lemma keeps_remove k R s l x :
  layers s !! l = Some x → layerMap s !! chainID x = Some l → references x = ∅ → R.2 ≠ ∅ →
  keeps k R s → keeps k R (with_layerMap (delete (chainID x) (layerMap s)) s).
Proof.
  intros Hx Hm He HR (y & Hy & Hyc & Hk & Hr). exists y. split_and!; [done..| |done]. simpl.
  rewrite lookup_delete_ne; [done|]. intros E. rewrite <-E in Hk. simplify_eq. congruence.
Qed.

Lemma map_minus_remove m0 r s d c :
  md_ChainID d = c → map_minus m0 r s →
  map_minus m0 (r ++ [d]) (with_layerMap (delete c (layerMap s)) s).
Proof.
  intros Hd Hr c'. simpl. rewrite lookup_delete, fmap_app. simpl. rewrite Hd.
  destruct (decide (c = c')) as [->|]; [rewrite decide_True by set_solver; done|].
  rewrite Hr. destruct (decide (c' ∈ md_ChainID <$> r)).
  - rewrite decide_True by set_solver. done.
  - rewrite decide_False by set_solver. done.
Qed.

(** What [releaseLayer] and everything around it keeps: the references of
    [F] stay valid, and [layerMap] has lost the layers reported. *)
Definition released H F m0 r s : Prop := Inv H s ∧ keeps_all F s ∧ map_minus m0 r s.

Lemma released_core H F m0 r : core_closed (released H F m0 r).
Proof. apply core_closed_and, core_closed_and; auto using Inv_core, keeps_all_core, map_minus_core. Qed.

(** The count of a retained layer can be decremented. *)
Lemma release_decrement H F m0 r s l x :
  released (l :: H) F m0 r s → layers s !! l = Some x →
  referenceCount x ≠ 0 ∧
  released H F m0 r (bump s l (set_referenceCount (referenceCount x - 1) x) (next_ref s)).
Proof.
  intros (I & HK & HM) Hx.
  assert (live s l) as Hlive by (eapply inv_held; [exact I|left]).
  pose proof (live_count _ s l x I Hlive Hx) as Hc.
  rewrite held_cons, decide_True in Hc by done. split; [lia|]. split_and!; [|eapply Forall_impl; [exact HK|]|exact HM].
  - eapply Inv_bump; [done..|exact I|lia|simpl; eauto using inv_fresh_ref| | |].
    + intros k Hk. eapply inv_held; [exact I|by right].
    + intros k Hk. rewrite held_cons, decide_False by done. done.
    + intros _. simpl. lia.
  - intros [k R]. by eapply keeps_bump.
Qed.

Lemma releaseLayer_loop_spec H F m0 fuel l depth removed :
  Forall (λ kR, kR.2.2 ≠ ∅) F → l < fuel → depth = 0 ∨ removed ≠ [] →
  hoare (released (l :: H) F m0 removed) (releaseLayer_loop fuel l depth removed)
    (λ r, released H F m0 r) (λ _ s, ∃ r, released H F m0 r s).
Proof.
  intros HF. revert l depth removed. induction fuel as [|fuel IH]; intros l dp removed Hl Hd; [lia|].
  intros s Hs. assert (live s l) as (x & Hx & Hm) by (eapply inv_held; [apply Hs|left]).
  destruct (release_decrement _ _ _ _ _ _ _ Hs Hx) as [Hn0 Hs1]. simpl.
  unfold mbind at 1, ST_bind at 1. unfold deref at 1. rewrite Hx. rewrite decide_False by done.
  set (x1 := set_referenceCount _ x) in *. unfold mbind at 1, ST_bind at 1. simpl.
  rewrite with_layers_bump. set (s1 := bump s l x1 _) in *.
  destruct (decide (referenceCount x - 1 ≠ 0)) as [|Hz]; [exact Hs1|].
  assert (layers s1 !! l = Some x1) as Hx1 by (unfold s1; simpl; by rewrite lookup_insert_eq).
  assert (layerMap s1 !! chainID x1 = Some l) as Hm1 by done.
  destruct (no_holders H s1 l x1) as (He & _ & _ & _);
    [apply Hs1|by exists x1|done|simpl; lia|].
  assert (bool_decide (length removed = 0) && bool_decide (0 < dp) = false) as ->.
  { destruct Hd as [->|Hd]; [by rewrite andb_false_r|]. by destruct removed. }
  assert (hasReferences x1 = false) as ->.
  { unfold hasReferences. rewrite He, size_empty. done. }
  set (P := λ s, released H F m0 removed s ∧ layers s !! l = Some x1 ∧ layerMap s !! chainID x1 = Some l).
  assert (core_closed P) as HP.
  { apply core_closed_and; [apply released_core|]. intros ? ? (-> & _ & -> & _). done. }
  refine (hoare_bind P _ _ _ (λ d s, P s ∧ md_ChainID d = chainID x1) _ _ _ s1 _); [| |by unfold P].
  { eapply hoare_conseq; [apply (deleteLayer_spec P H); [done|]|done..|].
    - intros s0 (Hr & Hx0 & Hm0). split; [apply Hr|]. by exists x1.
    - intros _ s0 [Hr _]. by exists removed. }
  intros d s0 ((Hr & Hx0 & Hm0) & Hd0). unfold mbind, ST_bind. simpl.
  assert (released (option_list (parent x) ++ H) F m0 (removed ++ [d])
    (with_layerMap (delete (chainID x1) (layerMap s0)) s0)) as Hfin.
  { destruct Hr as (I0 & HK0 & HM0). split_and!.
    - change (parent x) with (parent x1). eapply Inv_remove; try done. simpl. lia.
    - unfold keeps_all in *. rewrite Forall_forall in HF, HK0 |- *. intros kR HkR.
      eapply keeps_remove; eauto.
    - by apply map_minus_remove. }
  destruct (parent x) as [p|] eqn:Hp; [|exact Hfin].
  apply (IH p (S dp) (removed ++ [d])); [|right; by destruct removed|exact Hfin].
  destruct (inv_parent _ s (proj1 Hs) _ l x p Hm Hx Hp). lia.
Qed.

Lemma releaseLayer_spec H F m0 l :
  Forall (λ kR, kR.2.2 ≠ ∅) F →
  hoare (released (l :: H) F m0 []) (releaseLayer l)
    (λ r, released H F m0 r) (λ _ s, ∃ r, released H F m0 r s).
Proof. intros HF. apply releaseLayer_loop_spec; [done|lia|by left]. Qed.

(** Without a frame. *)
Lemma releaseLayer_Inv H l :
  hoare (Inv (l :: H)) (releaseLayer l) (λ _, Inv H) (λ _, Inv H).
Proof.
  intros s I. assert (released (l :: H) [] (layerMap s) [] s) as Hr.
  { split_and!; [done|constructor|by intros c]. }
  pose proof (releaseLayer_spec H [] (layerMap s) l (Forall_nil_2 _) s Hr) as Hs.
  destruct (releaseLayer l s) as [[r|e|e] s']; [apply Hs| |done].
  destruct Hs as [r Hs]. apply Hs.
Qed.

(** ** Publishing a layer *)

Lemma createChainIDFromParent_snoc p ds d :
  createChainIDFromParent FromBytes p (ds ++ [d]) =
  createChainIDFromParent FromBytes (createChainIDFromParent FromBytes p ds) [d].
Proof.
  revert p. induction ds as [|d' ds IH]; intros p; [done|]. simpl. case_bool_decide; apply IH.
Qed.

Lemma chain_mono h l x k ds :
  h !! l = None → chain_of h k ds → chain_of (<[l := x]> h) k ds.
Proof.
  intros Hl. induction 1 as [k y Hy Hpy|k y p ds Hy Hpy _ IH].
  - apply chain_root; [|done]. rewrite lookup_insert_ne; [done|]. intros ->. congruence.
  - eapply chain_child; [|done..]. rewrite lookup_insert_ne; [done|]. intros ->. congruence.
Qed.

(** The chain ID that [registerWithDescriptor] computes, with room for one
    more layer above the parent. *)
Definition new_layer_ok (p : option loc) (x : @roLayer Desc) s : Prop :=
  parent x = p ∧ referenceCount x = 1 ∧ references x = ∅ ∧
  (strict = true →
   match p with
   | None => chainID x = CreateChainID FromBytes [diffID x]
   | Some l => ∃ y ds, layers s !! l = Some y ∧ chain_of (layers s) l ds ∧
                 length ds < maxLayerDepth ∧ chainID y = CreateChainID FromBytes ds ∧
                 chainID x = createChainIDFromParent FromBytes (chainID y) [diffID x]
   end).

Lemma new_layer_ok_core p x : core_closed (new_layer_ok p x).
Proof. unfold new_layer_ok. by intros s s' (-> & _). Qed.

Section publish.
Context H p x s (I : Inv (option_list p ++ H) s) (Hc : layerMap s !! chainID x = None).
Context (Hn : new_layer_ok p x s).

Abbreviation l := (next_loc s).
Abbreviation s' := (publish x s).2.

Lemma publish_unused : layers s !! l = None.
Proof using I. destruct (layers s !! l) eqn:E; [|done]. apply (inv_fresh_loc _ s I) in E. lia. Qed.

Lemma publish_not_live k : live s k → k ≠ l.
Proof using I. intros (y & Hy & _) ->. by rewrite publish_unused in Hy. Qed.

Lemma publish_layers k y : k ≠ l → layers s' !! k = Some y → layers s !! k = Some y.
Proof using Type. intros Hne. simpl. by rewrite lookup_insert_ne. Qed.

Lemma publish_map c k :
  layerMap s' !! c = Some k → (c = chainID x ∧ k = l) ∨ (k ≠ l ∧ layerMap s !! c = Some k).
Proof using I.
  simpl. intros [[-> ->]|[Hne Hk]]%lookup_insert_Some; [by left|right]. split; [|done].
  intros ->. destruct (inv_map _ s I c _ Hk) as (y & Hy & _). by rewrite publish_unused in Hy.
Qed.

Lemma publish_live k : live s k → live s' k.
Proof using I Hc.
  intros Hk. pose proof (publish_not_live k Hk). destruct Hk as (y & Hy & Hk). exists y. simpl.
  rewrite !lookup_insert_ne; [done| |done]. intros E. by rewrite E, Hk in Hc.
Qed.

Lemma publish_children k : children s' k = (if decide (p = Some k) then 1 else 0) + children s k.
Proof using I Hc Hn.
  destruct Hn as (Hpx & _). unfold children. simpl. rewrite count_map_insert by done. f_equal.
  - unfold par. simpl. rewrite lookup_insert_eq. simpl. by rewrite Hpx.
  - apply count_map_ext. intros c k' Hk'. unfold par. simpl. rewrite lookup_insert_ne; [done|].
    intros <-. destruct (inv_map _ s I c l Hk') as (? & ? & _). by rewrite publish_unused in *.
Qed.

(** Nothing holds the location that is about to be allocated. *)
Lemma unused_no_holders : children s l = 0 ∧ mounted s l = 0 ∧ held l H = 0 ∧ p ≠ Some l.
Proof using I.
  split_and!.
  - unfold children, count_map. apply map_size_empty_iff, map_empty. intros c.
    apply map_lookup_filter_None. right. intros k Hk. simpl. intros Hp.
    destruct (inv_map _ s I c k Hk) as (z & Hz & <-). unfold par in Hp. rewrite Hz in Hp. simpl in Hp.
    destruct (inv_parent _ s I _ k z l Hk Hz Hp) as [_ Hll]. by apply (publish_not_live l).
  - unfold mounted, count_map. apply map_size_empty_iff, map_empty. intros n.
    apply map_lookup_filter_None. right. intros m Hm. simpl. intros Hp.
    destruct (inv_mount _ s I n m Hm) as [_ Hll]. by apply (publish_not_live l); [apply Hll|].
  - apply held_0. intros Hin. apply (publish_not_live l); [|done].
    apply (inv_held _ s I), elem_of_app. by right.
  - intros Hp. apply (publish_not_live l); [|done]. apply (inv_held _ s I). rewrite Hp. simpl. left.
Qed.

Lemma publish_count c k y :
  layerMap s' !! c = Some k → layers s' !! k = Some y →
  referenceCount y = size (references y) + children s' k + mounted s' k + held k (l :: H).
Proof using I Hc Hn.
  intros Hk Hy. rewrite publish_children, held_cons. change (mounted s' k) with (mounted s k).
  destruct unused_no_holders as (E1 & E2 & E3 & E4), Hn as (_ & Hrc & Href & _).
  apply publish_map in Hk as [[-> ->]|[Hne Hk]].
  - simpl in Hy. rewrite lookup_insert_eq in Hy. simplify_eq.
    rewrite E1, E2, E3, Hrc, Href, size_empty, decide_False, decide_True by done. lia.
  - apply publish_layers in Hy; [|done]. rewrite (inv_count _ s I c k y Hk Hy).
    rewrite (decide_False (P := l = k)) by done. destruct p as [q|]; simpl; [|lia].
    rewrite held_cons. destruct (decide (q = k)) as [->|].
    + rewrite decide_True by done. lia.
    + rewrite decide_False by congruence. lia.
Qed.

Lemma publish_addressed k : strict = true → live s' k → addressed s' k.
Proof using I Hc Hn.
  intros Hst Hk. pose proof publish_unused as Hu. destruct (decide (k = l)) as [->|Hne].
  - destruct Hn as (Hpx & _ & _ & Hstrict). specialize (Hstrict Hst). unfold addressed. simpl.
    rewrite lookup_insert_eq. destruct p as [q|].
    + destruct Hstrict as (y & ds & Hy & Hds & Hlen & Hyc & Hxc). exists x, (ds ++ [diffID x]).
      split_and!; [done| | |].
      * eapply chain_child; [by rewrite lookup_insert_eq|done|].
        by apply chain_mono.
      * rewrite length_app. simpl. lia.
      * unfold CreateChainID. rewrite createChainIDFromParent_snoc.
        fold (CreateChainID FromBytes ds). by rewrite <-Hyc.
    + exists x, [diffID x]. split_and!; [done| |simpl; unfold maxLayerDepth; lia|done].
      apply chain_root; [by rewrite lookup_insert_eq|done].
  - destruct Hk as (y & Hy & Hk). apply publish_layers in Hy; [|done].
    apply publish_map in Hk as [[_ ?]|[_ Hk]]; [done|].
    destruct (inv_chain _ s I Hst k) as (z & ds & Hz & Hds & Hlen & Hid); [by exists y|].
    exists z, ds. simpl. rewrite lookup_insert_ne by done.
    eauto using chain_mono.
Qed.

Lemma Inv_publish : Inv (l :: H) s'.
Proof using I Hc Hn.
  pose proof I as [I1 I2 I3 I4 I5 I6 I7 _ _ I10 I11].
  constructor; [| | | | | |exact I7|exact publish_count|by intros; apply publish_addressed| |].
  all: cbn [next_loc next_ref mounts publish snd].
  - intros c k [[-> ->]|[Hne Hk]]%publish_map; simpl.
    + rewrite lookup_insert_eq. eauto.
    + destruct (I1 c k Hk) as (y & Hy & Hyc). exists y. by rewrite lookup_insert_ne.
  - intros c k y q Hk Hy Hq. apply publish_map in Hk as [[-> ->]|[Hne Hk]].
    + simpl in Hy. rewrite lookup_insert_eq in Hy. injection Hy as <-. rewrite (proj1 Hn) in Hq.
      assert (live s q) as Hlq by (apply I4; rewrite Hq; simpl; left). split; [|by apply publish_live].
      destruct Hlq as (z & Hz & _). by apply I5 in Hz.
    + apply publish_layers in Hy; [|done]. destruct (I2 c k y q Hk Hy Hq). auto using publish_live.
  - intros n m Hm. destruct (I3 n m Hm) as [? Hl']. split; [done|]. eauto using publish_live.
  - intros k [->|Hk]%elem_of_cons.
    + exists x. simpl. by rewrite !lookup_insert_eq.
    + apply publish_live, I4. apply elem_of_app. by right.
  - intros k y. destruct (decide (k = l)) as [->|Hne]; [lia|]. intros Hy%publish_layers; [|done].
    apply I5 in Hy. lia.
  - intros k y i. destruct (decide (k = l)) as [->|Hne].
    + simpl. rewrite lookup_insert_eq. intros [= <-]. rewrite (proj1 (proj2 (proj2 Hn))). set_solver.
    + intros Hy%publish_layers; [|done]. eauto.
  - intros k y q. destruct (decide (k = l)) as [->|Hne]; simpl.
    + rewrite lookup_insert_eq. intros [= <-]. rewrite (proj1 Hn). intros Hq.
      assert (live s q) as (z & Hz & _) by (apply I4; rewrite Hq; simpl; left).
      apply lookup_insert_is_Some'. by right.
    + rewrite lookup_insert_ne by done. intros Hy Hq. apply lookup_insert_is_Some'. right. eauto.
  - intros k Hk. simpl. apply lookup_insert_is_Some'. right. eauto.
Qed.
End publish.

Lemma publish_spec H p x :
  hoare (λ s, (Inv (option_list p ++ H) s ∧ layerMap s !! chainID x = None) ∧ new_layer_ok p x s)
    (publish x) (λ l s, Inv (l :: H) s ∧ layerMap s !! chainID x = Some l) (λ _ _, False).
Proof.
  intros s [[I Hc] Hn]. split; [exact (Inv_publish H p x s I Hc Hn)|]. simpl. apply lookup_insert_eq.
Qed.

(** ** Deferred clean-up *)

Lemma hoare_defer {A} P (body : ST LS lerror (A * bool)) cleanup C Q :
  hoare P body (λ af s, if af.2 then C s else Q s) (λ _, C) →
  hoare C cleanup (λ _, Q) (λ _ _, False) →
  hoare P (defer_on_err cleanup body) (λ _, Q) (λ _, Q).
Proof.
  intros Hb Hc s Hs. specialize (Hb s Hs). unfold defer_on_err.
  destruct (body s) as [[[a []]|e|m] s'] eqn:E; simpl in *; try done.
  - specialize (Hc s' Hb). unfold mbind, ST_bind. by destruct (cleanup s') as [[?|?|?] ?].
  - specialize (Hc s' Hb). unfold mbind, ST_bind. by destruct (cleanup s') as [[?|?|?] ?].
Qed.

(** A clean-up of the driver and the metadata store only. *)
Lemma hoare_defer_inert {A} P (body : ST LS lerror (A * bool)) cleanup C Q (G : A → LS → Prop) :
  (∀ P', core_closed P' → hoare P' cleanup (λ _, P') (λ _ _, False)) → core_closed C →
  (∀ a, core_closed (G a)) →
  hoare P body (λ af s, (if af.2 then C s else Q s) ∧ G af.1 s) (λ _, C) →
  hoare P (defer_on_err cleanup body) (λ af s, (if af.2 then C s else Q s) ∧ G af.1 s) (λ _, C).
Proof.
  intros Hc HC HG Hb s Hs. specialize (Hb s Hs). unfold defer_on_err.
  destruct (body s) as [[[a []]|e|m] s'] eqn:E; simpl in *; try done.
  - specialize (Hc _ (core_closed_and _ _ HC (HG a)) s' Hb).
    unfold mbind, ST_bind. by destruct (cleanup s') as [[?|?|?] ?].
  - specialize (Hc C HC s' Hb). unfold mbind, ST_bind. by destruct (cleanup s') as [[?|?|?] ?].
Qed.

Lemma ignore_err_spec {A} P (m : ST LS lerror A) Q :
  hoare P m (λ _, Q) (λ _, Q) → hoare P (ignore_err m) (λ _, Q) (λ _ _, False).
Proof.
  intros Hm. apply (hoare_bind _ _ _ _ (λ _, Q)).
  - by apply (hoare_try P m (λ _, Q)).
  - intros a. apply (hoare_ret tt (λ _, Q)).
Qed.

Lemma cleanup_spec (m1 m2 : ST LS lerror unit) P :
  inert m1 → inert m2 → core_closed P →
  hoare P (ignore_err m1 ≫= λ _, ignore_err m2) (λ _, P) (λ _ _, False).
Proof.
  intros H1 H2 HP. apply (hoare_bind _ _ _ _ (λ _, P)).
  - apply ignore_err_spec. by apply H1.
  - intros _. apply ignore_err_spec. by apply H2.
Qed.

(** ** The operations on read-only layers *)


Lemma Get_spec H c :
  hoare (Inv H) (Get c) (λ r s, Inv H s ∧ ∃ l, gives c l r s) (λ _, Inv H).
Proof.
  eapply hoare_bind.
  { eapply hoare_conseq; [apply getWithoutLock_spec|done|intros ? ? Hx; exact Hx|done]. }
  intros [l|]; simpl.
  - eapply hoare_conseq; [apply (getReference_spec H c)|done|intros r s [??]; split; [done|by exists l]|done].
  - apply hoare_fail. by intros s [? _].
Qed.

(** A reference that is given back is a retained pointer. *)
Lemma drop_reference H s l x id :
  Inv H s → layers s !! l = Some x → layerMap s !! chainID x = Some l → id ∈ references x →
  Inv (l :: H) (bump s l (set_references (references x ∖ {[ id ]}) x) (next_ref s)).
Proof.
  intros I Hx Hm Hid. assert (live s l) as Hlive by (by exists x).
  eapply Inv_bump; [done..|exact I|lia| | | |].
  - intros i. simpl. rewrite elem_of_difference. intros [Hi _]. by eapply inv_fresh_ref.
  - intros k [->|?]%elem_of_cons; [done|]. by eapply inv_held.
  - intros k Hk. rewrite held_cons, decide_False by done. done.
  - intros _. simpl. rewrite (live_count H s l x), held_cons, decide_True by done.
    rewrite size_difference by set_solver. rewrite size_singleton.
    assert (0 < size (references x)); [|lia].
    apply Nat.neq_0_lt_0. intros E%size_empty_inv. set_solver.
Qed.

Lemma Release_Inv H ref :
  hoare (λ s, Inv H s ∧ is_Some (layers s !! Layer_target ref)) (Release ref) (λ _, Inv H) (λ _, Inv H).
Proof.
  intros s [I [y Hy]]. unfold Release, mbind, ST_bind, deref. rewrite Hy. simpl.
  destruct (layerMap s !! chainID y) as [l|] eqn:Hl; [|done].
  destruct (inv_map H s I _ l Hl) as (x & Hx & Hc). rewrite Hx. simpl.
  destruct ref as [id k|k]; simpl; [|done].
  destruct (decide (id ∈ references x)) as [Hid|Hid].
  - rewrite bool_decide_eq_true_2 by done. simpl. rewrite with_layers_bump.
    apply (releaseLayer_Inv H l). apply drop_reference; try done. by rewrite Hc.
  - by rewrite bool_decide_eq_false_2 by done.
Qed.

(** [getWithoutLock] leaves [layerMap] and the mounts. *)
Lemma getWithoutLock_frame c s o s' :
  getWithoutLock c s = (o, s') →
  layerMap s' = layerMap s ∧ mounts s' = mounts s ∧ (o = Ok None → s' = s).
Proof.
  unfold getWithoutLock, mbind, ST_bind, mret, ST_ret. simpl.
  destruct (layerMap s !! c) as [k|]; [|by intros; simplify_eq].
  unfold deref. destruct (layers s !! k); by intros; simplify_eq.
Qed.

(** [m0] is what [layerMap] had at the chain ID before: the reference given
    is to that layer, if there was one. *)
Definition registered (m0 : option loc) (c : string) (r : Layer) s : Prop :=
  ∃ l, gives c l r s ∧ ∀ l0, m0 = Some l0 → l = l0.

Lemma gives_registered_core m0 c r : core_closed (registered m0 c r).
Proof. intros s s' Hc (l & Hg & Hl). exists l. split; [|done]. by eapply gives_core. Qed.

Lemma register_finish_spec H p tx x m0 :
  hoare (λ s, (Inv (option_list p ++ H) s ∧ new_layer_ok p x s) ∧ layerMap s !! chainID x = m0)
    (register_finish tx x)
    (λ af s, (if af.2 then Inv (option_list p ++ H) s else Inv H s) ∧ registered m0 (chainID x) af.1 s)
    (λ _, Inv (option_list p ++ H)).
Proof.
  unfold register_finish. intros s [[I Hn] Hm0].
  pose proof (getWithoutLock_spec (option_list p ++ H) (chainID x) s I) as Hg.
  unfold mbind at 1, ST_bind at 1.
  destruct (getWithoutLock (chainID x) s) as [[[l|]|e|e] s0] eqn:E; try done;
    apply getWithoutLock_frame in E as (Em & _ & Es).
  - pose proof (getReference_spec _ (chainID x) l s0 Hg) as Hr.
    unfold mbind, ST_bind. destruct (getReference l s0) as [[r|e|e] s1]; try done.
    destruct Hr as [Hr Hgv]. split; [done|]. exists l. split; [done|]. intros l0.
    destruct Hg as [_ Hg]. rewrite Em, Hm0 in Hg. congruence.
  - rewrite (Es eq_refl) in *. destruct Hg as [_ Hc]. clear Em Es s0.
    rewrite Hc in Hm0. subst m0.
    set (P := λ s, (Inv (option_list p ++ H) s ∧ layerMap s !! chainID x = None) ∧ new_layer_ok p x s).
    assert (core_closed P) as HP.
    { apply core_closed_and; [|apply new_layer_ok_core]. apply core_closed_and; [apply Inv_core|].
      intros ?? (_ & _ & -> & _). done. }
    refine (hoare_bind P _ _ _ (λ _, P) _ _ _ s _); [| |done].
    { eapply hoare_conseq; [by apply inert_md|done..|]. by intros _ s' [[? _] _]. }
    intros _. eapply hoare_bind; [eapply hoare_conseq; [apply publish_spec|done..]|].
    intros l. eapply hoare_bind; [eapply hoare_conseq; [apply (getReference_spec H (chainID x))|done..]|].
    intros r. apply hoare_ret'. intros s' [? ?]. split; [done|]. by exists l.
Qed.

Lemma chain_of_det h l ds ds' : chain_of h l ds → chain_of h l ds' → ds = ds'.
Proof.
  intros Hds. revert ds'. induction Hds as [l x Hx Hp|l x p ds Hx Hp _ IH]; intros ds' Hds';
    destruct Hds' as [l x' Hx' Hp'|l x' p' ds' Hx' Hp' Hc']; simplify_eq; [done|].
  by rewrite (IH ds').
Qed.

Lemma depth_chain fuel h l n : depth_fuel fuel h l = Some n → ∃ ds, chain_of h l ds ∧ length ds = n.
Proof.
  revert l n. induction fuel as [|fuel IH]; intros l n; simpl; [done|].
  destruct (h !! l) as [x|] eqn:Hx; simpl; [|done]. destruct (parent x) as [p|] eqn:Hp.
  - destruct (depth_fuel fuel h p) as [m|] eqn:Hd; simpl; [|done]. intros [= <-].
    destruct (IH p m Hd) as (ds & Hds & <-). exists (ds ++ [diffID x]).
    split; [by eapply chain_child|]. rewrite length_app. simpl. lia.
  - intros [= <-]. exists [diffID x]. split; [by apply chain_root|done].
Qed.

(** The parent read when the registration began: its identifiers do not
    change, and there is room for a child. *)
Definition parent_ok (p : option (loc * @roLayer Desc)) s : Prop :=
  match p with
  | None => True
  | Some (l, y0) => ∃ y, layers s !! l = Some y ∧ chainID y = chainID y0 ∧
      (strict = true → ∃ ds, chain_of (layers s) l ds ∧ length ds < maxLayerDepth ∧
                             chainID y = CreateChainID FromBytes ds)
  end.

Lemma parent_ok_core p : core_closed (parent_ok p).
Proof. unfold parent_ok. intros s s' (-> & _). done. Qed.

(** The chain ID of the content [ts] above [p]. *)
Definition expected_chain (p : option string) (ts : string) : string :=
  match p with
  | None => FromBytes ts
  | Some c => createChainIDFromParent FromBytes c [FromBytes ts]
  end.

(** The release of the parent does not touch the reference just given. *)
Lemma releaseLayer_registered H p m0 c r :
  hoare (λ s, Inv (p :: H) s ∧ registered m0 c r s) (ignore_err (releaseLayer p))
    (λ _ s, Inv H s ∧ registered m0 c r s) (λ _ _, False).
Proof.
  apply ignore_err_spec. intros s [I (l & (y & id & -> & Hy & Hm & Hyc & Hid) & Hl)].
  set (F := [(l, (c, references y))]).
  assert (Forall (λ kR : loc * (string * gset nat), kR.2.2 ≠ ∅) F) as HF.
  { constructor; [|constructor]. simpl. set_solver. }
  assert (released (p :: H) F (layerMap s) [] s) as Hr.
  { split_and!; [done| |by intros c']. constructor; [|constructor]. by exists y. }
  assert (∀ s' r', released H F (layerMap s) r' s' → Inv H s' ∧ registered m0 c (refLayer id l) s') as Hfin.
  { intros s' r' (I' & HK & _). split; [done|]. apply Forall_cons in HK as [(y' & Hy' & Hc' & Hm' & HR') _].
    exists l. split; [|done]. exists y', id. simpl in *. by rewrite HR'. }
  pose proof (releaseLayer_spec H F (layerMap s) p HF s Hr) as Hs.
  destruct (releaseLayer p s) as [[r'|e|e] s']; [by eapply Hfin| |done].
  destruct Hs as [r' Hs]. by eapply Hfin.
Qed.

Lemma hoare_defer_release {A} P (body : ST LS lerror (A * bool)) H p (G : A → LS → Prop) :
  hoare P body (λ af s, (if af.2 then Inv (p :: H) s else Inv H s) ∧ G af.1 s) (λ _, Inv (p :: H)) →
  (∀ a, hoare (λ s, Inv (p :: H) s ∧ G a s) (ignore_err (releaseLayer p)) (λ _ s, Inv H s ∧ G a s)
          (λ _ _, False)) →
  hoare P (fst <$> defer_on_err (ignore_err (releaseLayer p)) body) (λ a s, Inv H s ∧ G a s) (λ _, Inv H).
Proof.
  intros Hb Hc. apply hoare_fmap. intros s Hs. specialize (Hb s Hs). unfold defer_on_err.
  destruct (body s) as [[[a []]|e|m] s'] eqn:E; simpl in *; try done.
  - specialize (Hc a s' Hb). unfold mbind, ST_bind. by destruct (ignore_err _ s') as [[?|?|?] ?].
  - pose proof (ignore_err_spec _ _ _ (releaseLayer_Inv H p) s' Hb) as Hr.
    unfold mbind, ST_bind. by destruct (ignore_err _ s') as [[?|?|?] ?].
Qed.

Definition parent_chain (parentID : string) : option string :=
  if bool_decide (parentID = "") then None else Some parentID.

(** ** The operations on mounts *)

Lemma Inv_mounts H H' s ms n :
  Inv H s → next_ref s ≤ n →
  (∀ k m, ms !! k = Some m → ml_name m = k ∧ (∀ p, ml_parent m = Some p → live s p) ∧
                             ∀ i, i ∈ ml_references m → i < n) →
  (∀ l, l ∈ H' → live s l) →
  (∀ l, live s l → mounted (with_mounts ms s) l + held l H' = mounted s l + held l H) →
  Inv H' (with_next_ref n (with_mounts ms s)).
Proof.
  intros [I1 I2 I3 I4 I5 I6 I7 I8 I9 I10 I11] Hn Hms Hlive Hcnt. constructor; simpl; try done.
  - intros k m Hk. destruct (Hms k m Hk) as (? & ? & _). done.
  - intros k y i Hk Hi. pose proof (I6 k y i Hk Hi). lia.
  - intros k m i Hk. by apply (Hms k m Hk).
  - intros c l x Hm Hx. rewrite (I8 c l x Hm Hx).
    destruct (I1 c l Hm) as (y & Hy & <-). simplify_eq.
    specialize (Hcnt l (ex_intro _ x (conj Hx Hm))).
    unfold mounted in *. simpl in *. unfold children, par in *. simpl. lia.
Qed.

Lemma mounted_insert s k m l :
  mounts s !! k = None →
  mounted (with_mounts (<[k := m]> (mounts s)) s) l =
  (if decide (ml_parent m = Some l) then 1 else 0) + mounted s l.
Proof. intros Hk. unfold mounted. simpl. by rewrite count_map_insert. Qed.

Lemma mounted_delete s k m l :
  mounts s !! k = Some m →
  mounted s l = (if decide (ml_parent m = Some l) then 1 else 0) +
                mounted (with_mounts (delete k (mounts s)) s) l.
Proof. intros Hk. unfold mounted. simpl. by rewrite (count_map_delete _ _ _ _ Hk). Qed.

Lemma mounted_update s k m m' l :
  mounts s !! k = Some m → ml_parent m' = ml_parent m →
  mounted (with_mounts (<[k := m']> (mounts s)) s) l = mounted s l.
Proof.
  intros Hk Hp. rewrite (mounted_delete s k m l Hk). rewrite <-insert_delete_eq.
  unfold mounted. simpl. rewrite count_map_insert by apply lookup_delete_eq. simpl. by rewrite Hp.
Qed.

(** The parent pointer of the new mount was retained. *)
Lemma Inv_mount_insert H s m :
  Inv (option_list (ml_parent m) ++ H) s → mounts s !! ml_name m = None → ml_references m = ∅ →
  Inv H (with_mounts (<[ml_name m := m]> (mounts s)) s).
Proof.
  intros I Hm Hr.
  replace (with_mounts _ s) with (with_next_ref (next_ref s) (with_mounts (<[ml_name m := m]> (mounts s)) s))
    by (by destruct s).
  eapply Inv_mounts; [exact I|done| | |].
  - intros k m' [[<- <-]|[_ Hk]]%lookup_insert_Some.
    + split_and!; [done| |rewrite Hr; set_solver]. intros p Hp. eapply inv_held; [exact I|].
      rewrite Hp. simpl. left.
    + destruct (inv_mount _ s I k m' Hk). split_and!; [done..|]. eauto using inv_fresh_rw.
  - intros l Hl. eapply inv_held; [exact I|]. apply elem_of_app. by right.
  - intros l _. rewrite mounted_insert by done. destruct (ml_parent m) as [p|]; simpl; [|lia].
    rewrite held_cons. destruct (decide (p = l)) as [->|].
    + rewrite decide_True by done. lia.
    + rewrite decide_False by congruence. lia.
Qed.

Lemma Inv_mount_delete H s k m :
  Inv H s → mounts s !! k = Some m →
  Inv (option_list (ml_parent m) ++ H) (with_mounts (delete k (mounts s)) s).
Proof.
  intros I Hm.
  replace (with_mounts _ s) with (with_next_ref (next_ref s) (with_mounts (delete k (mounts s)) s))
    by (by destruct s).
  eapply Inv_mounts; [exact I|done| | |].
  - intros k' m' [_ Hk]%lookup_delete_Some. destruct (inv_mount _ s I k' m' Hk).
    split_and!; [done..|]. eauto using inv_fresh_rw.
  - intros l [Hl|Hl]%elem_of_app; [|by eapply inv_held].
    destruct (ml_parent m) as [p|] eqn:Hp; simpl in Hl; [|by apply elem_of_nil in Hl].
    apply list_elem_of_singleton in Hl as ->. by apply (inv_mount _ s I k m).
  - intros l _. rewrite (mounted_delete s k m l Hm). destruct (ml_parent m) as [p|]; simpl; [|lia].
    rewrite held_cons. destruct (decide (p = l)) as [->|].
    + rewrite decide_True by done. lia.
    + rewrite decide_False by congruence. lia.
Qed.

Lemma Inv_mount_update H s k m refs n :
  Inv H s → mounts s !! k = Some m → next_ref s ≤ n → (∀ i, i ∈ refs → i < n) →
  Inv H (with_next_ref n (with_mounts (<[k := set_ml_references refs m]> (mounts s)) s)).
Proof.
  intros I Hm Hn Hr. eapply Inv_mounts; [exact I|done| | |].
  - intros k' m' [[<- <-]|[_ Hk]]%lookup_insert_Some.
    + destruct (inv_mount _ s I k m Hm). done.
    + destruct (inv_mount _ s I k' m' Hk). split_and!; [done..|]. intros i Hi.
      pose proof (inv_fresh_rw _ s I k' m' i Hk Hi). lia.
  - intros l Hl. by eapply inv_held.
  - intros l _. by rewrite (mounted_update s k m).
Qed.

Lemma mount_getReference_Inv H name :
  hoare (λ s, Inv H s ∧ is_Some (mounts s !! name)) (mount_getReference name)
    (λ r s, Inv H s ∧ rw_Name r = name ∧
            ∃ m, mounts s !! name = Some m ∧ rw_id r ∈ ml_references m) (λ _ _, False).
Proof.
  intros s [I [m Hm]]. unfold mount_getReference. rewrite Hm. split.
  - eapply (Inv_mount_update H s name m); [done..|lia|].
    intros i [->%elem_of_singleton|Hi]%elem_of_union; [lia|].
    pose proof (inv_fresh_rw _ s I name m i Hm Hi). lia.
  - split; [done|]. simpl. rewrite lookup_insert_eq. eexists. split; [done|]. simpl. set_solver.
Qed.

Lemma GetRWLayer_Inv H id : hoare (Inv H) (GetRWLayer id) (λ _, Inv H) (λ _, Inv H).
Proof.
  apply hoare_gets_bind. intros ms. destruct (ms !! id) eqn:Hm; [|apply hoare_fail; by intros s [? _]].
  eapply hoare_conseq; [apply mount_getReference_Inv| |by intros ? ? [? _]|done].
  intros s [I <-]. by rewrite Hm.
Qed.

Lemma saveMount_Inv H m :
  ml_references m = ∅ →
  hoare (λ s, Inv (option_list (ml_parent m) ++ H) s ∧ mounts s !! ml_name m = None) (saveMount m)
    (λ _ s, Inv H s ∧ mounts s !! ml_name m = Some m) (λ _, Inv (option_list (ml_parent m) ++ H)).
Proof.
  intros Hr. set (C := Inv (option_list (ml_parent m) ++ H)).
  set (P := λ s, C s ∧ mounts s !! ml_name m = None).
  assert (core_closed P) as HP.
  { apply core_closed_and; [apply Inv_core|]. intros ?? (_ & _ & _ & -> & _). done. }
  assert (∀ e : lerror, ∀ s, P s → C s) as HPC by (by intros _ s [? _]).
  unfold saveMount. apply (hoare_bind P _ _ _ (λ _, P));
    [eapply hoare_conseq; [by apply inert_md|done..|exact HPC]|intros _].
  apply (hoare_bind P _ _ _ (λ _, P)).
  { apply (hoare_conseq P P _ _ (λ _, P) _ (λ _, P)); [|done..|exact HPC].
    case_bool_decide; [by apply inert_md|by apply inert_ret]. }
  intros _. apply (hoare_bind P _ _ _ (λ _, P)).
  { destruct (ml_parent m) as [p|] eqn:Hp; [|by apply hoare_ret'].
    intros s Hs. assert (live s p) as (y & Hy & _) by (eapply inv_held; [apply Hs|simpl; left]).
    unfold mbind, ST_bind, deref. rewrite Hy.
    refine (hoare_conseq P P _ _ (λ _, P) _ (λ _, P) _ _ _ _ s Hs); [by apply inert_md|done..|exact HPC]. }
  intros _ s [I Hm]. simpl. rewrite lookup_insert_eq. split; [|done]. by apply Inv_mount_insert.
Qed.

Lemma initMount_inert graphID pid f : inert (initMount graphID pid f).
Proof.
  unfold initMount. apply inert_bind; [apply inert_drv|intros _].
  apply inert_bind; [apply inert_drv_val|intros p]. destruct (f p).
  - apply inert_bind; [apply inert_ignore, inert_drv|intros _; apply inert_fail].
  - apply inert_bind; [apply inert_drv|intros _; apply inert_ret].
Qed.

Lemma create_mount_Inv H name p f newID :
  hoare (λ s, Inv (option_list (fst <$> p) ++ H) s ∧ mounts s !! name = None)
    (create_mount name p f newID) (λ _, Inv H) (λ _, Inv (option_list (fst <$> p) ++ H)).
Proof.
  set (C := Inv (option_list (fst <$> p) ++ H)). set (P := λ s, C s ∧ mounts s !! name = None).
  assert (core_closed P) as HP.
  { apply core_closed_and; [apply Inv_core|]. intros ?? (_ & _ & _ & -> & _). done. }
  assert (∀ e : lerror, ∀ s, P s → C s) as HPC by (by intros _ s [? _]).
  unfold create_mount. apply (hoare_bind P _ _ _ (λ _, P)).
  { apply (hoare_conseq P P _ _ (λ _, P) _ (λ _, P)); [|done..|exact HPC].
    destruct f; [by apply initMount_inert|by apply inert_ret]. }
  intros init. apply (hoare_bind P _ _ _ (λ _, P));
    [eapply hoare_conseq; [by apply inert_drv|done..|exact HPC]|intros _].
  eapply hoare_bind.
  { eapply hoare_conseq; [by apply (saveMount_Inv H)|done|intros ? ? Hx; exact Hx|done]. }
  intros u. eapply hoare_conseq; [apply mount_getReference_Inv| |by intros ? ? [? _]|done].
  intros s [I Hm]. split; [done|]. simpl in Hm. by rewrite Hm.
Qed.

Lemma CreateRWLayer_Inv H name parentID f newID :
  hoare (Inv H) (CreateRWLayer name parentID f newID) (λ _, Inv H) (λ _, Inv H).
Proof.
  apply hoare_gets_bind. intros ms. destruct (ms !! name) as [m|] eqn:Hm.
  { apply hoare_fail. by intros s [? _]. }
  case_bool_decide.
  - eapply hoare_conseq; [apply (create_mount_Inv H name None)| |done..]. by intros s [? <-].
  - intros s [I <-]. pose proof (getWithoutLock_spec H parentID s I) as Hg.
    unfold mbind at 1, ST_bind at 1.
    destruct (getWithoutLock parentID s) as [[[l|]|e|e] s0] eqn:E; [|by destruct Hg|done..].
    assert (mounts s0 = mounts s) as Hms.
    { unfold getWithoutLock, mbind, ST_bind, mret, ST_ret in E. simpl in E.
      destruct (layerMap s !! parentID) as [k|]; [|by simplify_eq].
      unfold deref in E. destruct (layers s !! k); by simplify_eq. }
    destruct Hg as [Hg _]. clear E.
    assert (live s0 l) as (y & Hy & _) by (eapply inv_held; [exact Hg|left]).
    unfold mbind, ST_bind, deref. rewrite Hy.
    refine (hoare_fmap (λ s', s' = s0) _ _ _ _ _ s0 eq_refl).
    apply (hoare_defer _ _ _ (Inv (l :: H))); [|apply ignore_err_spec, releaseLayer_Inv].
    apply hoare_fmap. eapply hoare_conseq; [apply (create_mount_Inv H name (Some (l, y)))| |done..].
    intros s' ->. split; [done|]. by rewrite Hms.
Qed.

Lemma remove_mount_storage_inert m : inert (remove_mount_storage m).
Proof.
  unfold remove_mount_storage. apply inert_bind; [apply inert_drv|intros _].
  apply inert_bind; [|intros _; apply inert_md].
  case_bool_decide; [apply inert_drv|apply inert_ret].
Qed.

Lemma put_mount_next s m : with_mounts (<[ml_name m := m]> (mounts s)) s =
  with_next_ref (next_ref s) (with_mounts (<[ml_name m := m]> (mounts s)) s).
Proof. by destruct s. Qed.

Lemma release_mount_Inv H ref :
  hoare (Inv H) (release_mount ref)
    (λ r, match r with None => Inv H | Some p => Inv (option_list p ++ H) end)
    (λ _ s, Inv H s).
Proof.
  intros s I. unfold release_mount, mbind at 1, ST_bind at 1, st_gets.
  destruct (mounts s !! rw_Name ref) as [m|] eqn:Hm; [|done].
  destruct (inv_mount _ s I _ m Hm) as [Hname _].
  case_bool_decide as Hin; [done|].
  set (m' := set_ml_references _ m). unfold mbind at 1, ST_bind at 1, put_mount at 1, st_modify at 1.
  assert (Inv H (with_mounts (<[ml_name m' := m']> (mounts s)) s)) as I1.
  { rewrite put_mount_next. change (ml_name m') with (ml_name m). rewrite Hname.
    apply Inv_mount_update; [done..|]. intros i [Hi _]%elem_of_difference. by eapply inv_fresh_rw. }
  set (s1 := with_mounts _ s) in *. case_bool_decide; [exact I1|].
  set (P := λ s, Inv H s ∧ mounts s !! ml_name m' = Some m' ∧ next_ref s1 = next_ref s).
  assert (core_closed P) as HP.
  { apply core_closed_and; [apply Inv_core|]. intros ?? (_ & _ & _ & -> & ->). done. }
  refine (hoare_bind P _ _ _ (λ _, P) _ _ _ s1 _).
  - apply (hoare_try P _ (λ _, P)). by apply remove_mount_storage_inert.
  - intros [u|e] s2 (I2 & Hm2 & Hn2); unfold mbind, ST_bind, put_mount, st_modify.
    + change (ml_parent m') with (ml_parent m).
      exact (Inv_mount_delete H s2 (ml_name m') m' I2 Hm2).
    + rewrite put_mount_next. simpl. change (ml_name m') with (ml_name m) in *.
      apply (Inv_mount_update H s2 (ml_name m) m'); [done..|].
      intros i [->%elem_of_singleton|[Hi _]%elem_of_difference]%elem_of_union.
      * rewrite <-Hn2. unfold s1. simpl. by eapply inv_fresh_rw.
      * rewrite <-Hn2. unfold s1. simpl. by eapply inv_fresh_rw.
  - split; [done|]. unfold s1. simpl. by rewrite lookup_insert_eq.
Qed.

Lemma ReleaseRWLayer_Inv H ref : hoare (Inv H) (ReleaseRWLayer ref) (λ _, Inv H) (λ _, Inv H).
Proof.
  eapply hoare_bind; [apply release_mount_Inv|].
  intros [[p|]|]; [apply releaseLayer_Inv|by intros s I..].
Qed.

(** The empty store. *)
Lemma LInv_init m d : K = [] → Inv [] (mkLS m d ∅ 0 ∅ ∅ 0).
Proof.
  intros HK. constructor; simpl; try done; try (intros; set_solver).
  intros _ l (x & Hx & _). done.
Qed.

(** [Release] and the other references. *)
Lemma Release_keeps H s ch l id1 id2 k :
  Inv H s → is_Some (layers s !! k) →
  (∀ y, layers s !! k = Some y → layerMap s !! chainID y = Some l → id1 ≠ id2) → gives ch l (refLayer id1 l) s →
  gives ch l (refLayer id1 l) (Release (refLayer id2 k) s).2.
Proof.
  intros I [y Hy] Hne Hg. unfold Release, mbind, ST_bind, deref. simpl. rewrite Hy. simpl.
  destruct (layerMap s !! chainID y) as [l2|] eqn:Hl2; [|done].
  destruct (inv_map _ s I _ l2 Hl2) as (x & Hx & Hc). rewrite Hx. simpl.
  case_bool_decide as Hid; simpl; [|done]. rewrite with_layers_bump.
  assert (layerMap s !! chainID x = Some l2) as Hm by (by rewrite Hc).
  pose proof (drop_reference _ s l2 x id2 I Hx Hm Hid) as I'.
  set (s1 := bump s l2 _ _) in *.
  destruct Hg as (z & id & [= <-] & Hz & Hzm & Hzc & Hzid).
  assert (∃ R, id1 ∈ R ∧ keeps l (ch, R) s1) as (R & HR & HK).
  { destruct (decide (l = l2)) as [->|Hll].
    - simplify_eq. specialize (Hne y Hy Hl2). exists (references z ∖ {[id2]}). split; [set_solver|].
      eexists. unfold s1. simpl. by rewrite lookup_insert_eq.
    - exists (references z). split; [done|]. exists z. unfold s1. simpl. by rewrite lookup_insert_ne. }
  assert (Forall (λ kR : loc * (string * gset nat), kR.2.2 ≠ ∅) [(l, (ch, R))]) as HF.
  { constructor; [|constructor]. simpl. set_solver. }
  assert (released (l2 :: H) [(l, (ch, R))] (layerMap s1) [] s1) as Hr.
  { split_and!; [done|by constructor|by intros c]. }
  pose proof (releaseLayer_spec H _ (layerMap s1) l2 HF s1 Hr) as Hs.
  assert (∀ r (s' : LS), released H [(l, (ch, R))] (layerMap s1) r s' →
    gives ch l (refLayer id1 l) s') as Hfin.
  { intros r s' (_ & HK' & _). apply Forall_cons in HK' as [(z' & Hz' & Hc' & Hm' & HR') _].
    exists z', id1. simpl in *. by rewrite HR'. }
  destruct (releaseLayer l2 s1) as [[r|e|e] s']; simpl; [by eapply Hfin| |done].
  destruct Hs as [r Hs]. by eapply Hfin.
Qed.

Lemma Release_keeps_handle H s ch c2 l id1 id2 k :
  Inv H s → gives c2 k (refLayer id2 k) s → refLayer id1 l ≠ refLayer id2 k →
  gives ch l (refLayer id1 l) s → gives ch l (refLayer id1 l) (Release (refLayer id2 k) s).2.
Proof.
  intros I (y & id & _ & Hy & Hm & Hyc & _) Hne Hg.
  eapply Release_keeps; [exact I|by exists y| |done]. intros z Hz Hzm. congruence.
Qed.

(** ** Registration *)

Context (desc_Digest : Desc → string).
Context (NewInputTarStream : string → option string).

Lemma applyTar_inert tx ts pid cache : inert (applyTar FromBytes NewInputTarStream tx ts pid cache).
Proof. unfold applyTar. destruct (NewInputTarStream ts); eauto 10 using inert_bind, inert_md, inert_drv_val, inert_ret, inert_fail. Qed.

Lemma storeLayer_inert tx x c : inert (storeLayer desc_Digest tx x c).
Proof.
  unfold storeLayer. do 3 (apply inert_bind; [apply inert_md|intros _]).
  apply inert_bind; [case_bool_decide; [apply inert_md|apply inert_ret]|intros _].
  destruct c; [apply inert_md|apply inert_ret].
Qed.

Lemma applyTar_spec P tx ts pid cache :
  core_closed P →
  hoare P (applyTar FromBytes NewInputTarStream tx ts pid cache)
    (λ ds s, P s ∧ ds.1 = FromBytes ts) (λ _, P).
Proof.
  intros HP. unfold applyTar. apply hoare_inert; [apply inert_md|done|intros _].
  destruct (NewInputTarStream ts); [by apply hoare_fail|].
  apply hoare_inert; [apply inert_drv_val|done|intros z]. by apply hoare_ret'.
Qed.

Lemma register_layer_spec H p ts desc newID m0 :
  let c := expected_chain (chainID ∘ snd <$> p) ts in
  hoare (λ s, (Inv (option_list (fst <$> p) ++ H) s ∧ parent_ok p s) ∧ layerMap s !! c = m0)
    (register_layer FromBytes desc_Digest NewInputTarStream ts p desc newID)
    (λ af s, (if af.2 then Inv (option_list (fst <$> p) ++ H) s else Inv H s) ∧ registered m0 c af.1 s)
    (λ _, Inv (option_list (fst <$> p) ++ H)).
Proof.
  intros c. set (C := Inv (option_list (fst <$> p) ++ H)).
  set (P := λ s, (C s ∧ parent_ok p s) ∧ layerMap s !! c = m0).
  assert (core_closed P) as HP.
  { apply core_closed_and; [apply core_closed_and; [apply Inv_core|apply parent_ok_core]|].
    intros ?? (_ & _ & -> & _). done. }
  assert (∀ e : lerror, ∀ s, P s → C s) as HPC by (by intros _ s [[? _] _]).
  unfold register_layer.
  apply (hoare_bind P _ _ _ (λ _, P));
    [eapply hoare_conseq; [by apply inert_drv|done..|exact HPC]|intros _].
  apply (hoare_bind P _ _ _ (λ _, P));
    [eapply hoare_conseq; [by apply inert_md_val|done..|exact HPC]|intros tx].
  apply hoare_defer_inert; [|apply Inv_core| |].
  { intros P' HP'. apply cleanup_spec; [apply inert_drv|apply inert_md|done]. }
  { intros r. apply gives_registered_core. }
  eapply hoare_bind; [eapply hoare_conseq; [by apply (applyTar_spec P)|done|intros ?? Hx; exact Hx|exact HPC]|].
  intros [diff sz]. apply hoare_pre. simpl. intros ->.
  apply (hoare_bind P _ _ _ (λ _, P));
    [eapply hoare_conseq; [by apply storeLayer_inert|done..|exact HPC]|intros _].
  set (x := mkRo _ _ _ _ _ _ _ _).
  assert (chainID x = c) as <- by (unfold c; by destruct p as [[??]|]).
  eapply hoare_conseq; [apply (register_finish_spec H (fst <$> p) tx x m0)| |done..].
  intros s [[Hs Hp] Hm]. split; [|done]. split; [done|]. split_and!; [done..|]. intros Hst.
  destruct p as [[l y0]|]; simpl in *; [|done].
  destruct Hp as (y & Hy & Hyc & Hroom). destruct (Hroom Hst) as (ds & Hds & Hlen & Hid).
  exists y, ds. by rewrite <-Hyc.
Qed.

Lemma registerWithDescriptor_spec H ts parentID desc newID m0 :
  let c := expected_chain (parent_chain parentID) ts in
  hoare (λ s, Inv H s ∧ layerMap s !! c = m0)
    (registerWithDescriptor FromBytes desc_Digest NewInputTarStream ts parentID desc newID)
    (λ r s, Inv H s ∧ registered m0 c r s) (λ _, Inv H).
Proof.
  intros c. unfold registerWithDescriptor. unfold parent_chain in c. destruct (bool_decide (parentID = "")).
  - apply hoare_fmap. eapply hoare_conseq; [apply (register_layer_spec H None)| | |done].
    + by intros s [I Hm].
    + by intros [a []] s.
  - intros s [I Hm0]. pose proof (getWithoutLock_spec H parentID s I) as Hg.
    unfold mbind at 1, ST_bind at 1.
    destruct (getWithoutLock parentID s) as [[[l|]|e|e] s0] eqn:E; [|by destruct Hg|done..].
    apply getWithoutLock_frame in E as (Em & _ & _). destruct Hg as [Hg Hl].
    destruct (inv_map _ s0 Hg _ l Hl) as (y & Hy & Hyc).
    unfold mbind, ST_bind, deref. rewrite Hy.
    refine (hoare_defer_release (λ s', s' = s0) _ H l (registered m0 c) _ _ s0 eq_refl);
      [|intros r; apply releaseLayer_registered].
    intros s' ->. unfold st_gets.
    assert (live s0 l) as Hlive by (exists y; by rewrite Hyc).
    destruct (depth_Size_live _ s0 (S l) l Hg Hlive) as [[n Hn] _]; [lia|].
    unfold depth. rewrite Hn. destruct (decide (maxLayerDepth ≤ n)); [done|].
    assert (c = expected_chain (chainID ∘ snd <$> Some (l, y)) ts) as Hcc by (simpl; by rewrite Hyc).
    rewrite Hcc. apply (register_layer_spec H (Some (l, y))). rewrite <-Hcc, Em. split; [|done].
    split; [done|]. exists y. split_and!; [done..|].
    intros Hst. destruct (inv_chain _ s0 Hg Hst l Hlive) as (z & ds & Hz & Hds & _ & Hid).
    simplify_eq. exists ds. split_and!; [done| |done].
    destruct (depth_chain _ _ _ _ Hn) as (ds' & Hds' & <-). rewrite (chain_of_det _ _ _ _ Hds Hds'). lia.
Qed.
End inv.









#[export] Hint Resolve inert_drv inert_drv_val inert_md inert_md_val inert_ret inert_fail
  inert_ignore Inv_core core_closed_and core_closed_deref : dao.
#[export] Hint Resolve inert_bind | 2 : dao.
