(* ===== verification/LayerSafety.v ===== *)
(** * layer: safety of the store for its callers

    Two ways to use the store: sequences of whole API calls by one client
    ([exec]), and the regions under the mutexes taken one at a time by any
    number of operations in progress ([cstep]). *)

From S2P Require Import Prelude.
From S2P Require Import LayerStore.
From S2P Require Import LayerInv.

Section safety.
Context {D M TX Desc : Type} `{!GraphDriver D} `{!MetadataStore M TX Desc}.
Context (FromBytes : string → string).

Abbreviation LS := (@layerStore D M Desc).
Abbreviation Inv K := (Inv (D:=D) (M:=M) (Desc:=Desc) FromBytes true K).

Definition void {A} (o : outcome lerror A) : outcome lerror unit :=
  match o with Ok _ => Ok tt | Err e => Err e | Panic m => Panic m end.

(** ** Operations in progress *)

(** The parent pointers retained by them. *)
Record config := mkCfg { cs : LS; inflight : list loc }.

(** The layer that [registerWithDescriptor] is about to publish over the
    retained parent [p]: identifiers and depth of a parent do not change. *)
Definition may_publish (p : option loc) (x : @roLayer Desc) (s : LS) : Prop :=
  parent x = p ∧ referenceCount x = 1 ∧ references x = ∅ ∧
  match p with
  | None => chainID x = diffID x
  | Some l => ∃ y n, layers s !! l = Some y ∧ depth (layers s) l = Some n ∧ n < maxLayerDepth ∧
                     chainID x = createChainIDFromParent FromBytes (chainID y) [diffID x]
  end.

Definition drop (p : option loc) (H : list loc) : list loc :=
  match p with Some l => remove_first l H | None => H end.

(** One region; its outcome is the label. *)
Inductive cstep : config → outcome lerror unit → config → Prop :=
| cs_get_parent s H c o s' :            (* ls.get(parent) *)
    getWithoutLock c s = (o, s') →
    cstep (mkCfg s H) (void o) (mkCfg s' (match o with Ok (Some l) => l :: H | _ => H end))
| cs_Get s H c o s' :
    Get c s = (o, s') → cstep (mkCfg s H) (void o) (mkCfg s' H)
| cs_Release s H r o s' :
    is_Some (layers s !! Layer_target r) → Release r s = (o, s') →
    cstep (mkCfg s H) (void o) (mkCfg s' H)
| cs_release_parent s H l o s' :        (* deferred, or the end of ReleaseRWLayer *)
    l ∈ H → releaseLayer l s = (o, s') →
    cstep (mkCfg s H) (void o) (mkCfg s' (remove_first l H))
| cs_publish s H p tx x o s' :          (* the last region of a registration *)
    (∀ l, p = Some l → l ∈ H) → may_publish p x s → register_finish tx x s = (o, s') →
    cstep (mkCfg s H) (void o) (mkCfg s' (match o with Ok (_, false) => drop p H | _ => H end))
| cs_save_mount s H m o s' :            (* the end of CreateRWLayer *)
    (∀ l, ml_parent m = Some l → l ∈ H) → mounts s !! ml_name m = None → ml_references m = ∅ →
    (saveMount m ≫= λ _, mount_getReference (ml_name m)) s = (o, s') →
    cstep (mkCfg s H) (void o) (mkCfg s' (match o with Ok _ => drop (ml_parent m) H | _ => H end))
| cs_GetRWLayer s H n o s' :
    GetRWLayer n s = (o, s') → cstep (mkCfg s H) (void o) (mkCfg s' H)
| cs_release_mount s H r o s' :         (* ReleaseRWLayer before its layerL region *)
    release_mount r s = (o, s') →
    cstep (mkCfg s H) (void o) (mkCfg s' (match o with Ok (Some (Some l)) => l :: H | _ => H end))
| cs_outside s H m d :                  (* driver and metadata calls outside the mutexes *)
    cstep (mkCfg s H) (Ok tt) (mkCfg (with_store m (with_driver d s)) H).

Inductive reachable : config → Prop :=
| reach_init m d : reachable (mkCfg (mkLS m d ∅ 0 ∅ ∅ 0) [])
| reach_step c o c' : reachable c → cstep c o c' → reachable c'.

(** ** Lemmas *)

Lemma held_perm l H H' : H ≡ₚ H' → held l H = held l H'.
Proof. intros Hp. unfold held. by rewrite Hp. Qed.

Lemma Inv_perm K H H' s : H ≡ₚ H' → Inv K H s → Inv K H' s.
Proof.
  intros Hp [I1 I2 I3 I4 I5 I6 I7 I8 I9 I10 I11]. constructor; try done.
  - intros l. rewrite <-Hp. apply I4.
  - intros c l x Hm Hx. rewrite <-(held_perm l H H' Hp). eauto.
Qed.

Lemma drop_perm p H :
  (∀ l, p = Some l → l ∈ H) → H ≡ₚ option_list p ++ drop p H.
Proof. destruct p as [l|]; simpl; [|done]. intros Hl. by apply remove_first_Permutation, Hl. Qed.

Lemma may_publish_ok K p x s H :
  Inv K H s → (∀ l, p = Some l → l ∈ H) → may_publish p x s → new_layer_ok FromBytes true p x s.
Proof.
  intros I Hp (E1 & E2 & E3 & E4). split_and!; [done..|]. intros _. destruct p as [l|]; [|done].
  destruct E4 as (y & n & Hy & Hd & Hn & Hc).
  destruct (inv_chain _ _ _ _ s I eq_refl l) as (z & ds & Hz & Hds & _ & Hid); [by eapply inv_held; eauto|].
  simplify_eq. exists y, ds. split_and!; [done..| |done|done].
  destruct (depth_chain _ _ _ _ Hd) as (ds' & Hds' & <-). by rewrite (chain_of_det _ _ _ _ Hds Hds').
Qed.

(** A region from a state with the invariant. *)
Lemma region {A} P (m : ST LS lerror A) Q R s o s' :
  hoare P m Q R → P s → m s = (o, s') →
  match o with Ok a => Q a s' | Err e => R e s' | Panic _ => False end.
Proof. intros Hm Hs E. specialize (Hm s Hs). by rewrite E in Hm. Qed.

Lemma cstep_Inv K c o c' :
  Inv K (inflight c) (cs c) → cstep c o c' → panics o = false ∧ Inv K (inflight c') (cs c').
Proof.
  intros I Hstep. destruct Hstep as
    [s H c o s' E|s H c o s' E|s H r o s' Hr E|s H l o s' Hl E|s H p tx x o s' Hp Hx E
    |s H m o s' Hp Hm Hr E|s H n o s' E|s H r o s' E|s H m d]; simpl in *.
  - pose proof (region _ _ _ _ _ _ _ (getWithoutLock_spec FromBytes true K H c) I E) as Hs.
    destruct o as [[l|]|e|e]; naive_solver.
  - pose proof (region _ _ _ _ _ _ _ (Get_spec FromBytes true K H c) I E) as Hs.
    destruct o as [r|e|e]; naive_solver.
  - pose proof (region _ _ _ _ _ _ _ (Release_Inv FromBytes true K H r) (conj I Hr) E) as Hs.
    destruct o as [l|e|e]; naive_solver.
  - pose proof (Inv_perm K _ _ s (remove_first_Permutation l H Hl) I) as I'.
    pose proof (region _ _ _ _ _ _ _ (releaseLayer_Inv FromBytes true K _ l) I' E) as Hs.
    destruct o as [r|e|e]; naive_solver.
  - pose proof (may_publish_ok K p x s H I Hp Hx) as Hn.
    pose proof (Inv_perm K _ _ s (drop_perm p H Hp) I) as I'.
    pose proof (region _ _ _ _ _ _ _ (register_finish_spec FromBytes true K (drop p H) p tx x _)
      (conj (conj I' Hn) eq_refl) E) as Hs.
    destruct o as [[r f]|e|e]; [| |done].
    + destruct Hs as [Hs _]. split; [done|]. destruct f; [|done].
      eapply Inv_perm; [symmetry; by apply drop_perm|done].
    + split; [done|]. eapply Inv_perm; [symmetry; by apply drop_perm|done].
  - pose proof (Inv_perm K _ _ s (drop_perm _ H Hp) I) as I'.
    assert (hoare (λ s, Inv K (option_list (ml_parent m) ++ drop (ml_parent m) H) s ∧ mounts s !! ml_name m = None)
      (saveMount m ≫= λ _, mount_getReference (ml_name m))
      (λ _, Inv K (drop (ml_parent m) H)) (λ _, Inv K (option_list (ml_parent m) ++ drop (ml_parent m) H))) as Hh.
    { eapply hoare_bind; [by apply saveMount_Inv|]. intros u.
      eapply hoare_conseq; [apply mount_getReference_Inv| |by intros ?? [? _]|done].
      intros s0 [I0 Hm0]. by rewrite Hm0. }
    pose proof (region _ _ _ _ _ _ _ Hh (conj I' Hm) E) as Hs.
    destruct o as [r|e|e]; simpl; split; try done. eapply Inv_perm; [symmetry; by apply drop_perm|done].
  - pose proof (region _ _ _ _ _ _ _ (GetRWLayer_Inv FromBytes true K H n) I E) as Hs.
    destruct o as [r|e|e]; naive_solver.
  - pose proof (region _ _ _ _ _ _ _ (release_mount_Inv FromBytes true K H r) I E) as Hs.
    destruct o as [[[l|]|]|e|e]; naive_solver.
  - split; [done|]. eapply Inv_core; [|exact I]. by repeat split.
Qed.

Lemma reachable_Inv c : reachable c → Inv [] (inflight c) (cs c).
Proof.
  induction 1 as [m d|c o c' _ IH Hs]; [by apply LInv_init|]. by apply (cstep_Inv [] c o c').
Qed.

(** ** One client *)

Context (desc_Digest : Desc → string) (emptyDesc : Desc).
Context (NewInputTarStream : string → option string).

(** A call; the handles are those that earlier calls returned, by index. *)
Inductive call :=
| CRegister (ts parentID newID : string)
| CRegisterWithDescriptor (ts parentID newID : string) (desc : Desc)
| CGet (c : string)
| CRelease (i : nat)
| CReleaseParent (i : nat)     (* Release(handle.Parent()) *)
| CCreateRWLayer (name parentID newID : string) (initFunc : option (string → option string))
| CGetRWLayer (name : string)
| CGetMountID (name : string)
| CReleaseRWLayer (i : nat).

Record client := mkClient { st : LS; handles : list Layer; rwhandles : list RWLayer }.

Definition keep_handle (o : outcome lerror Layer * LS) (c : client) : outcome lerror unit * client :=
  (void o.1, mkClient o.2 (handles c ++ match o.1 with Ok h => [h] | _ => [] end) (rwhandles c)).
Definition keep_rw (o : outcome lerror RWLayer * LS) (c : client) : outcome lerror unit * client :=
  (void o.1, mkClient o.2 (handles c) (rwhandles c ++ match o.1 with Ok h => [h] | _ => [] end)).
Definition keep_none {A} (o : outcome lerror A * LS) (c : client) : outcome lerror unit * client :=
  (void o.1, mkClient o.2 (handles c) (rwhandles c)).

Definition exec (k : call) (c : client) : outcome lerror unit * client :=
  match k with
  | CRegister ts p id => keep_handle (Register FromBytes desc_Digest emptyDesc NewInputTarStream ts p id (st c)) c
  | CRegisterWithDescriptor ts p id d =>
      keep_handle (registerWithDescriptor FromBytes desc_Digest NewInputTarStream ts p d id (st c)) c
  | CGet x => keep_handle (Get x (st c)) c
  | CRelease i => match handles c !! i with
                  | Some h => keep_none (Release h (st c)) c
                  | None => (Ok tt, c)
                  end
  | CReleaseParent i =>
      match handles c !! i ≫= λ h, layers (st c) !! Layer_target h ≫= parent with
      | Some p => keep_none (Release (bareLayer p) (st c)) c
      | None => (Ok tt, c)
      end
  | CCreateRWLayer n p id f => keep_rw (CreateRWLayer n p f id (st c)) c
  | CGetRWLayer n => keep_rw (GetRWLayer n (st c)) c
  | CGetMountID n => keep_none (GetMountID n (st c)) c
  | CReleaseRWLayer i => match rwhandles c !! i with
                         | Some h => keep_none (ReleaseRWLayer h (st c)) c
                         | None => (Ok tt, c)
                         end
  end.

Fixpoint run (ks : list call) (c : client) : list (outcome lerror unit) * client :=
  match ks with
  | [] => ([], c)
  | k :: ks => let '(o, c) := exec k c in let '(os, c) := run ks c in (o :: os, c)
  end.

Definition start (m : M) (d : D) : client := mkClient (mkLS m d ∅ 0 ∅ ∅ 0) [] [].

Definition CInv (c : client) : Prop := Inv (Layer_target <$> handles c) [] (st c).

Lemma Inv_K K K' H s :
  Inv K H s → (∀ l, l ∈ K' → l ∈ K ∨ is_Some (layers s !! l)) → Inv K' H s.
Proof.
  intros [I1 I2 I3 I4 I5 I6 I7 I8 I9 I10 I11] HK. constructor; try done.
  intros l Hl. destruct (HK l Hl); auto.
Qed.

Lemma gives_alloc c l r s : gives (D:=D) (M:=M) (Desc:=Desc) c l r s → is_Some (layers s !! Layer_target r).
Proof. intros (y & id & -> & Hy & _). by exists y. Qed.

(** A call that returns a layer handle. *)
Lemma exec_handle (m : ST LS lerror Layer) c :
  hoare (Inv (Layer_target <$> handles c) []) m
    (λ r s, Inv (Layer_target <$> handles c) [] s ∧ is_Some (layers s !! Layer_target r))
    (λ _, Inv (Layer_target <$> handles c) []) →
  CInv c → panics (keep_handle (m (st c)) c).1 = false ∧ CInv (keep_handle (m (st c)) c).2.
Proof.
  intros Hm I. specialize (Hm _ I). unfold keep_handle, CInv. simpl.
  destruct (m (st c)) as [[r|e|e] s']; simpl in *; [|by rewrite app_nil_r|done].
  split; [done|]. destruct Hm as [I' Ha]. eapply Inv_K; [exact I'|].
  intros l. rewrite fmap_app. simpl. set_solver.
Qed.

Lemma exec_plain {A} (m : ST LS lerror A) c :
  hoare (Inv (Layer_target <$> handles c) []) m (λ _, Inv (Layer_target <$> handles c) [])
    (λ _, Inv (Layer_target <$> handles c) []) →
  CInv c → panics (keep_none (m (st c)) c).1 = false ∧ CInv (keep_none (m (st c)) c).2.
Proof.
  intros Hm I. specialize (Hm _ I). unfold keep_none, CInv. simpl.
  by destruct (m (st c)) as [[r|e|e] s'].
Qed.

Lemma exec_rw (m : ST LS lerror RWLayer) c :
  hoare (Inv (Layer_target <$> handles c) []) m (λ _, Inv (Layer_target <$> handles c) [])
    (λ _, Inv (Layer_target <$> handles c) []) →
  CInv c → panics (keep_rw (m (st c)) c).1 = false ∧ CInv (keep_rw (m (st c)) c).2.
Proof.
  intros Hm I. specialize (Hm _ I). unfold keep_rw, CInv. simpl.
  by destruct (m (st c)) as [[r|e|e] s'].
Qed.

Lemma register_handle K ts p d id :
  hoare (Inv K []) (registerWithDescriptor FromBytes desc_Digest NewInputTarStream ts p d id)
    (λ r s, Inv K [] s ∧ is_Some (layers s !! Layer_target r)) (λ _, Inv K []).
Proof.
  intros s I. set (m0 := layerMap s !! expected_chain FromBytes (parent_chain p) ts).
  pose proof (registerWithDescriptor_spec FromBytes true K desc_Digest NewInputTarStream
    [] ts p d id m0 s (conj I eq_refl)) as Hr.
  destruct (registerWithDescriptor _ _ _ _ _ _ _ s) as [[r|e|e] s']; [|done..].
  destruct Hr as [I' (l & Hg & _)]. eauto using gives_alloc.
Qed.

Lemma exec_CInv k c : CInv c → panics (exec k c).1 = false ∧ CInv (exec k c).2.
Proof.
  intros I. destruct k as [ts p id|ts p id d|x|i|i|n p id f|n|n|i]; simpl.
  - apply exec_handle; [apply register_handle|done].
  - apply exec_handle; [apply register_handle|done].
  - apply exec_handle; [|done]. eapply hoare_conseq; [apply Get_spec|done| |done].
    intros r s [I' [l Hg]]. eauto using gives_alloc.
  - destruct (handles c !! i) as [h|] eqn:Hh; [|done].
    assert (is_Some (layers (st c) !! Layer_target h)) as Ha.
    { eapply inv_alloc; [exact I|]. apply list_elem_of_fmap. exists h. split; [done|].
      by eapply list_elem_of_lookup_2. }
    pose proof (Release_Inv FromBytes true (Layer_target <$> handles c) [] h (st c) (conj I Ha)) as Hr.
    unfold keep_none, CInv. simpl. by destruct (Release h (st c)) as [[?|?|?] ?].
  - destruct (handles c !! i ≫= _) as [q|] eqn:Hq; [|done].
    destruct (handles c !! i) as [h|] eqn:Hh; [|done]. simpl in Hq.
    destruct (layers (st c) !! Layer_target h) as [x|] eqn:Hx; [|done]. simpl in Hq.
    pose proof (inv_heap _ _ _ _ _ I _ x q Hx Hq) as Ha.
    pose proof (Release_Inv FromBytes true (Layer_target <$> handles c) [] (bareLayer q) (st c) (conj I Ha)) as Hr.
    unfold keep_none, CInv. simpl. by destruct (Release (bareLayer q) (st c)) as [[?|?|?] ?].
  - apply exec_rw; [apply CreateRWLayer_Inv|done].
  - apply exec_rw; [apply GetRWLayer_Inv|done].
  - apply exec_plain; [|done]. unfold GetMountID. apply hoare_gets_bind. intros ms.
    destruct (ms !! n); [apply hoare_ret'|apply hoare_fail]; by intros s [? _].
  - destruct (rwhandles c !! i) as [h|]; [|done]. apply exec_plain; [apply ReleaseRWLayer_Inv|done].
Qed.

Lemma run_CInv ks c : CInv c → Forall (λ o, panics o = false) (run ks c).1 ∧ CInv (run ks c).2.
Proof.
  revert c. induction ks as [|k ks IH]; intros c I; simpl; [done|].
  destruct (exec_CInv k c I) as [Hp I']. destruct (exec k c) as [o c1]. simpl in *.
  destruct (IH c1 I') as [Hps I2]. destruct (run ks c1) as [os c2]. simpl in *. by split; [constructor|].
Qed.

Lemma start_CInv m d : CInv (start m d).
Proof. by apply LInv_init. Qed.

End safety.

(** ** Properties *)

Section properties.
Context {D M TX Desc : Type} `{!GraphDriver D} `{!MetadataStore M TX Desc}.
Context (FromBytes : string → string) (desc_Digest : Desc → string) (emptyDesc : Desc).
Context (NewInputTarStream : string → option string).

Abbreviation run := (run FromBytes desc_Digest emptyDesc NewInputTarStream).

(** C1: for every graph driver and metadata store, however their operations
    fail, and for every sequence of API calls of a client, no call panics, and
    after it the count of each published layer is exactly the number of
    references given out, child layers and mounts. *)
Theorem layer_api_safe (ks : list call) (m : M) (d : D) :
  let '(os, c) := run ks (start m d) in
  Forall (λ o, panics o = false) os ∧
  ∀ ch l x, layerMap (st c) !! ch = Some l → layers (st c) !! l = Some x →
    referenceCount x = size (references x) + children (st c) l + mounted (st c) l.
Proof.
  destruct (run_CInv FromBytes desc_Digest emptyDesc NewInputTarStream ks _ (start_CInv FromBytes m d)) as [Hp I].
  destruct (run ks (start m d)) as [os c]. split; [done|]. intros ch l x Hl Hx.
  rewrite (inv_count _ _ _ _ _ I ch l x Hl Hx). unfold held. simpl. lia.
Qed.

(** C2: the same for any interleaving of the mutex regions of any number of
    concurrent operations: no region panics, and each count is the number of
    holders, the parents retained by operations in progress included. *)
Theorem layer_regions_safe c o c' :
  reachable FromBytes c → cstep FromBytes c o c' →
  panics o = false ∧
  ∀ ch l x, layerMap (cs c') !! ch = Some l → layers (cs c') !! l = Some x →
    referenceCount x =
      size (references x) + children (cs c') l + mounted (cs c') l + held l (inflight c').
Proof.
  intros Hr Hs. destruct (cstep_Inv FromBytes [] c o c' (reachable_Inv FromBytes c Hr) Hs) as [Hp I].
  split; [done|]. intros ch l x. apply (inv_count _ _ _ _ _ I).
Qed.

(** Layers are addressed by content: a published layer is found under the
    digest of the diff IDs from its root, and is at most 125 layers deep. *)
Theorem layers_content_addressed (ks : list call) (m : M) (d : D) ch l :
  layerMap (st (run ks (start m d)).2) !! ch = Some l →
  ∃ ds, chain_of (layers (st (run ks (start m d)).2)) l ds ∧
        1 ≤ length ds ≤ maxLayerDepth ∧ ch = CreateChainID FromBytes ds.
Proof.
  intros Hl.
  destruct (run_CInv FromBytes desc_Digest emptyDesc NewInputTarStream ks _ (start_CInv FromBytes m d)) as [_ I].
  destruct (inv_map _ _ _ _ _ I ch l Hl) as (x & Hx & <-).
  destruct (inv_chain _ _ _ _ _ I eq_refl l) as (y & ds & Hy & Hds & Hlen & Hid); [by exists x|].
  simplify_eq. exists ds. split_and!; [done| |done|done].
  destruct Hds; rewrite ?length_app; simpl; lia.
Qed.

(** [Register] gives a valid reference to the layer with the digest of its
    content over the parent; when that layer was already published, the
    reference is to the existing one. *)
Theorem Register_content (ks : list call) (m : M) (d : D) ts p newID r s' :
  let s := st (run ks (start m d)).2 in
  let c := expected_chain FromBytes (parent_chain p) ts in
  Register FromBytes desc_Digest emptyDesc NewInputTarStream ts p newID s = (Ok r, s') →
  ∃ l, gives c l r s' ∧ ∀ l0, layerMap s !! c = Some l0 → l = l0.
Proof.
  intros s c E.
  destruct (run_CInv FromBytes desc_Digest emptyDesc NewInputTarStream ks _ (start_CInv FromBytes m d)) as [_ I].
  pose proof (registerWithDescriptor_spec FromBytes true _ desc_Digest NewInputTarStream
    [] ts p emptyDesc newID _ s (conj I eq_refl)) as Hr.
  unfold Register in E. rewrite E in Hr. destruct Hr as [_ (l & Hg & Hl)]. by exists l.
Qed.

(** Giving back one reference never invalidates another, whatever the
    driver and the metadata store do: the layer of every other reference
    stays published with that reference. *)
Theorem Release_keeps_others (ks : list call) (m : M) (d : D) ch l id1 id2 k :
  let c := (run ks (start m d)).2 in
  refLayer id2 k ∈ handles c → id1 ≠ id2 → gives ch l (refLayer id1 l) (st c) →
  gives ch l (refLayer id1 l) (Release (refLayer id2 k) (st c)).2.
Proof.
  intros c Hin Hne Hg.
  destruct (run_CInv FromBytes desc_Digest emptyDesc NewInputTarStream ks _ (start_CInv FromBytes m d)) as [_ I].
  eapply Release_keeps; [exact I| |done|done]. eapply (inv_alloc _ _ _ _ _ I).
  apply list_elem_of_fmap. by exists (refLayer id2 k).
Qed.

(** A mount is forgotten only after its storage and its metadata are
    removed: when any of these removals fails, [ReleaseRWLayer] returns the
    error with the table of mounts, references included, as it was. *)
Theorem release_mount_atomic (ks : list call) (m0 : M) (d : D) (ref : RWLayer) s' e :
  let s := st (run ks (start m0 d)).2 in
  release_mount ref s = (Err e, s') → mounts s' = mounts s ∧ layers s' = layers s.
Proof.
  intros s.
  destruct (run_CInv FromBytes desc_Digest emptyDesc NewInputTarStream ks _ (start_CInv FromBytes m0 d)) as [_ I].
  assert (∀ n m, mounts s !! n = Some m → ml_name m = n) as Hn.
  { intros n m Hm. by apply (inv_mount _ _ _ _ _ I n m). }
  clearbody s.
  unfold release_mount, mbind, ST_bind, st_gets, st_try, put_mount, st_modify, st_fail.
  destruct (mounts s !! rw_Name ref) as [m|] eqn:Hm; [|done].
  case_bool_decide as Hin; [intros [= _ <-]; done|]. simpl.
  case_bool_decide; [done|].
  set (m' := set_ml_references _ m). set (s1 := with_mounts _ s).
  pose proof (remove_mount_storage_inert m' (core s1)
    (λ a b '(conj E1 (conj E2 (conj E3 (conj E4 E5)))) '(conj F1 (conj F2 (conj F3 (conj F4 F5)))),
    conj (eq_trans E1 F1) (conj (eq_trans E2 F2) (conj (eq_trans E3 F3)
    (conj (eq_trans E4 F4) (eq_trans E5 F5)))))
    s1 (conj eq_refl (conj eq_refl (conj eq_refl (conj eq_refl eq_refl))))) as Hi.
  destruct (remove_mount_storage m' s1) as [[u|e'|e'] s2]; [done| |done].
  intros [= <- <-]. destruct Hi as (E1 & _ & _ & E4 & _). simpl. rewrite E1, E4. split; [|done].
  unfold s1. simpl. rewrite insert_insert_eq. apply insert_id. rewrite (Hn _ _ Hm), Hm.
  f_equal. destruct m as [n i j q R]. unfold set_ml_references. simpl in *. f_equal.
  apply union_difference_L. set_solver.
Qed.
End properties.

(** ** Instances on scripts: the n-th operation fails as the script says *)

Definition scripted (d : list bool) : option string * list bool :=
  match d with
  | true :: d' => (Some "failed", d')
  | false :: d' => (None, d')
  | [] => (None, [])
  end.

Definition scripted_val {A} (a : A) (d : list bool) : outcome string A * list bool :=
  match scripted d with (None, d') => (Ok a, d') | (Some e, d') => (Err e, d') end.

#[local] Instance script_driver : GraphDriver (list bool) := {|
  drv_Create _ _ := scripted; drv_CreateReadWrite _ _ := scripted; drv_Remove _ := scripted;
  drv_Get id := scripted_val id; drv_Put _ := scripted;
  drv_ApplyDiff _ _ ts := scripted_val (Z.of_nat (String.length ts)) |}.

#[local] Instance script_store : MetadataStore (list bool) unit string := {|
  StartTransaction := scripted_val tt;
  tx_SetSize _ _ := scripted; tx_SetParent _ _ := scripted; tx_SetDiffID _ _ := scripted;
  tx_SetCacheID _ _ := scripted; tx_SetDescriptor _ _ := scripted; tx_TarSplitWriter _ := scripted;
  tx_Commit _ _ := scripted; tx_Cancel _ := scripted;
  md_GetSize _ _ := Err "no"; md_GetParent _ _ := Err "no"; md_GetDiffID _ _ := Err "no";
  md_GetCacheID _ _ := Err "no"; md_GetDescriptor _ _ := Err "no";
  md_SetMountID _ _ := scripted; md_SetInitID _ _ := scripted; md_SetMountParent _ _ := scripted;
  md_GetMountID _ _ := Err "no"; md_GetInitID _ _ := Err "no"; md_GetMountParent _ _ := Err "no";
  md_List _ := Ok ([], []); md_Remove _ := scripted; md_RemoveMount _ := scripted |}.

(** A digest for examples. *)
Definition tag_digest (b : string) : string := "d(" +:+ b +:+ ")".

Definition ex_run := run tag_digest (λ d : string, d) "" (λ _, None).

Definition ex_calls : list (@call string) :=
  [CRegister "base" "" "id1"; CRegister "app" "d(base)" "id2"; CGet "d(base)"; CRelease 0].

Lemma layer_regions_safe_witness :
  let s0 : @layerStore (list bool) (list bool) string := mkLS [] [] ∅ 0 ∅ ∅ 0 in
  let x := mkRo "d(base)" "d(base)" None "id1" 4 "" 1 ∅ in
  let s1 := (register_finish tt x s0).2 in
  panics (Ok (E := lerror) tt) = false ∧
  ∀ ch l y, layerMap s1 !! ch = Some l → layers s1 !! l = Some y →
    referenceCount y = size (references y) + children s1 l + mounted s1 l + held l [].
Proof.
  intros s0 x s1.
  apply (layer_regions_safe tag_digest (mkCfg s0 []) (Ok tt) (mkCfg s1 [])).
  - apply reach_init.
  - apply (cs_publish tag_digest s0 [] None tt x (Ok (refLayer 0 0, false)) s1); [done| |reflexivity].
    repeat split; reflexivity.
Defined.

Lemma layers_content_addressed_witness :
  ∃ ds, chain_of (layers (st (ex_run ex_calls (start [] [])).2)) 1 ds ∧
        1 ≤ length ds ≤ maxLayerDepth ∧ "d(d(base) d(app))" = CreateChainID tag_digest ds.
Proof.
  apply (layers_content_addressed tag_digest (λ d : string, d) "" (λ _, None) ex_calls [] []).
  vm_compute. reflexivity.
Defined.

Lemma Register_content_witness :
  let s := st (ex_run ex_calls (start [] [])).2 in
  ∃ l, gives "d(d(base) d(app))" l (refLayer 3 1)
         (Register tag_digest (λ d : string, d) "" (λ _, None) "app" "d(base)" "id9" s).2 ∧
       ∀ l0, layerMap s !! "d(d(base) d(app))" = Some l0 → l = l0.
Proof.
  apply (Register_content tag_digest (λ d : string, d) "" (λ _, None) ex_calls [] [] "app" "d(base)" "id9").
  vm_compute. reflexivity.
Defined.

Lemma Release_keeps_others_witness :
  let c := (ex_run ex_calls (start [] [])).2 in
  gives "d(base)" 0 (refLayer 2 0) (Release (refLayer 1 1) (st c)).2.
Proof.
  apply (Release_keeps_others tag_digest (λ d : string, d) "" (λ _, None) ex_calls [] []).
  - vm_compute. right. left.
  - lia.
  - eexists _, 2. repeat split; vm_compute; reflexivity.
Defined.

Lemma release_mount_atomic_witness :
  let c := (ex_run [CCreateRWLayer "c1" "" "m1" None] (start [] [false; true])).2 in
  mounts (release_mount (mkRW 0 "c1") (st c)).2 = mounts (st c) ∧
  layers (release_mount (mkRW 0 "c1") (st c)).2 = layers (st c).
Proof.
  apply (release_mount_atomic tag_digest (λ d : string, d) "" (λ _, None)
    [CCreateRWLayer "c1" "" "m1" None] [] [false; true] (mkRW 0 "c1") _ (EOther "failed")).
  vm_compute. reflexivity.
Defined.
