(* ===== verification/ImageStore.v ===== *)
(** * image: the image store

    Models [src/image/store.go], the file backend [src/image/fs.go] and the
    chain of a [RootFS].  The layer store is used through the interface
    [LayerGetReleaser], whose laws ([RetainLaws]) say what a reference to a
    layer guarantees; [LayerStore] is an instance.  The files are two finite
    maps, and the script [io] says which of the next writes and removals fail.
    JSON decoding, the digest function, the validation of digests and the
    prefix search of the distribution library are parameters. *)

From S2P Require Import Prelude.
From S2P Require Import LayerStore.
From S2P Require Import LayerInv.
From S2P Require Import LayerSafety.

Abbreviation ID := string.

(** ** The layer store as the image store sees it *)

Class LayerGetReleaser (LS : Type) := {
  lgr_Get : string → LS → outcome lerror Layer * LS;
  lgr_Release : Layer → LS → outcome lerror (list Metadata) * LS;
}.

(** [retained c h s]: the layer with chain ID [c] is published and the handle
    [h] keeps it.  A handle from [Get] is new; it stays valid until it is given
    back itself, whatever else is done. *)
Class RetainLaws (LS : Type) `{!LayerGetReleaser LS} := {
  linv : LS → Prop;
  retained : string → Layer → LS → Prop;
  law_Get c s o s' : linv s → lgr_Get c s = (o, s') →
    panics o = false ∧ linv s' ∧
    (∀ c' h', retained c' h' s → retained c' h' s') ∧
    (∀ h, o = Ok h → retained c h s' ∧ ∀ c', ¬ retained c' h s);
  law_Release c h s o s' : linv s → retained c h s → lgr_Release h s = (o, s') →
    panics o = false ∧ linv s' ∧
    (∀ c' h', h' ≠ h → retained c' h' s → retained c' h' s');
}.

(** ** Images *)

Record Image := mkImage {
  RootFS : option (list string);      (* the diff IDs, [None] for a nil pointer *)
  History : list bool;                (* the EmptyLayer flags *)
}.

Inductive ierror :=
| EDecode | ENoRootFS | EHistory | EEmptyData | ENotFound | EVerify | EIO | EDigest
| EUnrecognized | EUnknownParent | ENoSuchImage | ELayer (e : lerror).

(** ** The file backend *)

Record fs := mkFS {
  content : gmap ID string;
  metadata : gmap (ID * string) string;
  io : list bool;                     (* [true]: the next write or removal fails *)
}.

(** The outcome of one write or removal. *)
Definition tick (s : fs) : bool * fs :=
  match io s with
  | b :: l => (negb b, mkFS (content s) (metadata s) l)
  | [] => (true, s)
  end.

Section image.
Context (FromBytes : string → string).

Definition fs_Get (id : ID) (s : fs) : outcome ierror string :=
  match content s !! id with
  | None => Err ENotFound
  | Some c => if bool_decide (FromBytes c = id) then Ok c else Err EVerify
  end.

Definition fs_Set (data : string) (s : fs) : outcome ierror ID * fs :=
  if bool_decide (data = "") then (Err EEmptyData, s)
  else
    let id := FromBytes data in
    let '(ok, s) := tick s in
    if ok then (Ok id, mkFS (<[id := data]> (content s)) (metadata s) (io s)) else (Err EIO, s).

Definition fs_Delete (id : ID) (s : fs) : outcome ierror unit * fs :=
  let '(ok, s) := tick s in
  if negb ok then (Err EIO, s)
  else
    let s := mkFS (content s) (filter (λ kv, kv.1.1 ≠ id) (metadata s)) (io s) in
    let '(ok, s) := tick s in
    match ok, content s !! id with
    | true, Some _ => (Ok tt, mkFS (delete id (content s)) (metadata s) (io s))
    | true, None => (Err ENotFound, s)
    | false, _ => (Err EIO, s)
    end.

Definition fs_SetMetadata (id : ID) (key data : string) (s : fs) : outcome ierror unit * fs :=
  match fs_Get id s with
  | Ok _ =>
      let '(ok, s) := tick s in
      if negb ok then (Err EIO, s)
      else
        let '(ok, s) := tick s in
        if ok then (Ok tt, mkFS (content s) (<[(id, key) := data]> (metadata s)) (io s)) else (Err EIO, s)
  | Err e => (Err e, s)
  | Panic m => (Panic m, s)
  end.

Definition fs_GetMetadata (id : ID) (key : string) (s : fs) : outcome ierror string :=
  match fs_Get id s with
  | Ok _ => match metadata s !! (id, key) with Some d => Ok d | None => Err ENotFound end
  | Err e => Err e
  | Panic m => Panic m
  end.

Definition fs_DeleteMetadata (id : ID) (key : string) (s : fs) : outcome ierror unit * fs :=
  let '(ok, s) := tick s in
  if ok then (Ok tt, mkFS (content s) (delete (id, key) (metadata s)) (io s)) else (Err EIO, s).

Section walk.
Context (Validate : string → bool).

(** The IDs [Walk] visits: the directory listing, sorted, without the names
    that are no digest. *)
Definition fs_Walk (s : fs) : list ID :=
  filter (λ id, Validate id = true) (merge_sort String.le (map_to_list (content s)).*1).
End walk.

(** ** The store *)

Context {LS : Type} `{!LayerGetReleaser LS}.
(** [json.Unmarshal] into an [Image], [Digest.Validate], [Set.Lookup]. *)
Context (Unmarshal : string → option Image) (Validate : string → bool).
Context (Lookup : gset ID → string → option ID).

Record imageMeta := mkMeta { im_layer : option Layer; im_children : gset ID }.

Record store := mkIS {
  ls : LS;
  images : gmap ID imageMeta;
  backend : fs;
  digestSet : gset ID;
}.

Definition with_images (m : gmap ID imageMeta) (s : store) : store := mkIS (ls s) m (backend s) (digestSet s).
Definition with_backend (b : fs) (s : store) : store := mkIS (ls s) (images s) b (digestSet s).
Definition with_ls (l : LS) (s : store) : store := mkIS l (images s) (backend s) (digestSet s).
Definition with_digestSet (d : gset ID) (s : store) : store := mkIS (ls s) (images s) (backend s) d.

Definition IM (A : Type) : Type := ST store ierror A.

Definition on_fs {A} (f : fs → outcome ierror A * fs) : IM A := λ s,
  let '(o, b) := f (backend s) in (o, with_backend b s).
Definition on_ls {A} (f : LS → outcome lerror A * LS) : IM A := λ s,
  let '(o, l) := f (ls s) in
  (match o with Ok a => Ok a | Err e => Err (ELayer e) | Panic m => Panic m end, with_ls l s).

(** [RootFS.ChainID]. *)
Definition ChainID (r : list string) : string := CreateChainID FromBytes r.

(** [NewFromJSON]. *)
Definition NewFromJSON (src : string) : outcome ierror Image :=
  match Unmarshal src with
  | None => Err EDecode
  | Some img => match RootFS img with None => Err ENoRootFS | Some _ => Ok img end
  end.

(** [img.RootFS.ChainID()] through the pointer. *)
Definition image_chain (img : Image) : IM string :=
  match RootFS img with
  | Some r => mret (ChainID r)
  | None => st_panic "nil pointer dereference"
  end.

Definition digestSet_Add (id : ID) : IM unit := λ s,
  if Validate id then (Ok tt, with_digestSet ({[ id ]} ∪ digestSet s) s) else (Err EDigest, s).

Definition digestSet_Remove (id : ID) : IM unit := λ s,
  if Validate id then (Ok tt, with_digestSet (digestSet s ∖ {[ id ]}) s) else (Err EDigest, s).

(** The reference the image will hold, none for an image without layers. *)
Definition get_layer (chain : string) : IM (option Layer) :=
  if bool_decide (chain ≠ "") then Some <$> on_ls (lgr_Get chain) else mret None.

Definition Create (config : string) : IM ID :=
  match Unmarshal config with
  | None => st_fail EDecode
  | Some img =>
      match RootFS img with
      | None => st_panic "nil pointer dereference"     (* img.RootFS.DiffIDs *)
      | Some diffIDs =>
          if decide (length diffIDs < length (filter (λ e, e = false) (History img))) then st_fail EHistory
          else
            imageID ← on_fs (fs_Set config);
            m ← st_gets images;
            match m !! imageID with
            | Some _ => mret imageID
            | None =>
                layerID ← image_chain img;
                l ← get_layer layerID;
                _ ← st_modify (λ s, with_images (<[imageID := mkMeta l ∅]> (images s)) s);
                r ← st_try (digestSet_Add imageID);
                match r with
                | inr e => _ ← st_modify (λ s, with_images (delete imageID (images s)) s); st_fail e
                | inl _ => mret imageID
                end
            end
      end
  end.

Definition Search (term : string) : IM ID :=
  d ← st_gets digestSet;
  match Lookup d term with
  | Some id => mret id
  | None => st_fail ENoSuchImage
  end.

Definition GetParent (id : ID) (s : store) : outcome ierror ID := fs_GetMetadata id "parent" (backend s).

(** [Get], with the parent of the result, "" when there is none. *)
Definition Get (id : ID) (s : store) : outcome ierror (Image * ID) :=
  match fs_Get id (backend s) with
  | Ok config =>
      match NewFromJSON config with
      | Ok img => Ok (img, match GetParent id s with Ok p => p | _ => "" end)
      | Err e => Err e
      | Panic m => Panic m
      end
  | Err e => Err e
  | Panic m => Panic m
  end.

(** [if parent, err := is.GetParent(id); err == nil && is.images[parent] != nil
    { delete(is.images[parent].children, id) }]. *)
Definition unlink_parent (id : ID) : IM unit := st_modify (λ s,
  match GetParent id s with
  | Ok p => match images s !! p with
            | Some pm => with_images (<[p := mkMeta (im_layer pm) (im_children pm ∖ {[ id ]})]> (images s)) s
            | None => s
            end
  | _ => s
  end).

(** The loop over the children, the errors ignored. *)
Definition orphan_children (cs : gset ID) : IM unit := λ s,
  (Ok tt, with_backend (foldl (λ b c, (fs_DeleteMetadata c "parent" b).2) (backend s) (elements cs)) s).

Definition Delete (id : ID) : IM (list Metadata) :=
  m ← st_gets images;
  match m !! id with
  | None => st_fail EUnrecognized
  | Some meta =>
      _ ← orphan_children (im_children meta);
      _ ← unlink_parent id;
      _ ← st_try (digestSet_Remove id);
      _ ← st_modify (λ s, with_images (delete id (images s)) s);
      _ ← st_try (on_fs (fs_Delete id));
      match im_layer meta with
      | Some l => on_ls (lgr_Release l)
      | None => mret []
      end
  end.

(** [parentMeta] is a pointer: it is read again when the child is added. *)
Definition SetParent (id p : ID) : IM unit :=
  m ← st_gets images;
  match m !! p with
  | None => st_fail EUnknownParent
  | Some _ =>
      _ ← unlink_parent id;
      _ ← st_modify (λ s, match images s !! p with
                          | Some pm => with_images (<[p := mkMeta (im_layer pm) ({[ id ]} ∪ im_children pm)]> (images s)) s
                          | None => s
                          end);
      on_fs (fs_SetMetadata id "parent" p)
  end.

Definition Children (id : ID) (s : store) : list ID :=
  match images s !! id with
  | Some m => elements (im_children m)
  | None => []
  end.

Definition imagesMap (all : bool) (s : store) : gmap ID (Image * ID) :=
  omap (λ img, img)
    (map_imap (λ id m,
       if negb all && bool_decide (0 < length (Children id s)) then Some None
       else match Get id s with Ok r => Some (Some r) | _ => Some None end) (images s)).

Definition Heads : store → gmap ID (Image * ID) := imagesMap false.
Definition Map : store → gmap ID (Image * ID) := imagesMap true.

(** [restore]: the walk, then the children. *)
Definition restore_image (id : ID) : IM unit := λ s,
  match Get id s with
  | Ok (img, _) =>
      (chain ← image_chain img;
       l ← get_layer chain;
       _ ← digestSet_Add id;
       st_modify (λ s, with_images (<[id := mkMeta l ∅]> (images s)) s)) s
  | _ => (Ok tt, s)                   (* logged *)
  end.

Fixpoint restore_walk (ids : list ID) : IM unit :=
  match ids with [] => mret tt | id :: ids => _ ← restore_image id; restore_walk ids end.

Definition restore_child (id : ID) (s : store) : store :=
  match GetParent id s with
  | Ok p => match images s !! p with
            | Some pm => with_images (<[p := mkMeta (im_layer pm) ({[ id ]} ∪ im_children pm)]> (images s)) s
            | None => s
            end
  | _ => s
  end.

Definition restore : IM unit :=
  b ← st_gets backend;
  _ ← restore_walk (fs_Walk Validate b);
  m ← st_gets images;
  st_modify (λ s, foldl (flip restore_child) s (map_to_list m).*1).

Definition NewImageStore (b : fs) (l : LS) : outcome ierror unit * store := restore (mkIS l ∅ b ∅).
End image.

(** ** The layer store keeps the laws *)

Section retains.
Context {D M TX Desc : Type} `{!GraphDriver D} `{!MetadataStore M TX Desc}.
Context (FromBytes : string → string) (strict : bool).

Abbreviation LS := (@layerStore D M Desc).

#[local] Instance layerStore_lgr : LayerGetReleaser LS :=
  {| lgr_Get := LayerStore.Get; lgr_Release := LayerStore.Release |}.

Definition layer_inv (s : LS) : Prop := ∃ H, Inv FromBytes strict [] H s.
Definition layer_retained (c : string) (h : Layer) (s : LS) : Prop := ∃ l, gives c l h s.

Lemma gives_bump c k h (s : LS) l x x' n :
  layers s !! l = Some x → chainID x' = chainID x → references x ⊆ references x' →
  gives c k h s → gives c k h (bump s l x' n).
Proof.
  intros Hx Hc Hr (y & id & -> & Hy & Hm & Hyc & Hid). unfold gives, bump. simpl.
  destruct (decide (k = l)) as [->|].
  - simplify_eq. exists x', id. rewrite lookup_insert_eq, Hc. set_solver.
  - exists y, id. by rewrite lookup_insert_ne.
Qed.

Lemma Get_law c s o s' :
  layer_inv s → LayerStore.Get c s = (o, s') →
  panics o = false ∧ layer_inv s' ∧
  (∀ c' h', layer_retained c' h' s → layer_retained c' h' s') ∧
  (∀ h, o = Ok h → layer_retained c h s' ∧ ∀ c', ¬ layer_retained c' h s).
Proof.
  intros [H I] E. pose proof (region _ _ _ _ _ _ _ (Get_spec FromBytes strict [] H c) I E) as Hs.
  revert E. unfold LayerStore.Get, getWithoutLock, mbind, ST_bind, st_gets, mret, ST_ret, deref.
  destruct (layerMap s !! c) as [l|] eqn:Hl.
  2:{ intros [= <- <-]. split_and!; [done|by exists H|done|done]. }
  destruct (inv_map _ _ _ _ s I c l Hl) as (x & Hx & Hc). rewrite Hx. simpl.
  unfold getReference, mbind, ST_bind, deref. simpl. rewrite lookup_insert_eq. simpl.
  intros [= <- <-]. destruct Hs as [I' [l' Hg]].
  split_and!; [done|by exists H| |].
  - intros c' h' [k Hk]. exists k.
    apply (gives_bump c' k h' (bump s l (set_referenceCount (S (referenceCount x)) x) (next_ref s)) l
             (set_referenceCount (S (referenceCount x)) x) _ (S (next_ref s))).
    + simpl. by rewrite lookup_insert_eq.
    + done.
    + simpl. set_solver.
    + by eapply gives_bump.
  - intros h [= <-]. split; [by exists l'|]. intros c' [k (y & id & [= <- <-] & Hy & _ & _ & Hid)].
    pose proof (inv_fresh_ref _ _ _ _ s I _ y _ Hy Hid). lia.
Qed.

Lemma Release_law c h s o s' :
  layer_inv s → layer_retained c h s → LayerStore.Release h s = (o, s') →
  panics o = false ∧ layer_inv s' ∧
  (∀ c' h', h' ≠ h → layer_retained c' h' s → layer_retained c' h' s').
Proof.
  intros [H I] [l Hg] E. pose proof Hg as (y & id & -> & Hy & Hm & Hyc & Hid).
  assert (is_Some (layers s !! Layer_target (refLayer id l))) as Ha by (by exists y).
  pose proof (region _ _ _ _ _ _ _ (Release_Inv FromBytes strict [] H (refLayer id l)) (conj I Ha) E) as Hs.
  split_and!; [by destruct o|exists H; by destruct o|].
  intros c' h' Hne [k Hk]. exists k. replace s' with (Release (refLayer id l) s).2 by (by rewrite E).
  assert (∃ id', h' = refLayer id' k) as [id' ->] by (destruct Hk as (? & ? & -> & _); eauto).
  by eapply Release_keeps_handle.
Qed.

#[local] Instance layerStore_retains : RetainLaws LS := {|
  linv := layer_inv; retained := layer_retained; law_Get := Get_law; law_Release := Release_law |}.
End retains.

(** ** Histories of a store *)

Section histories.
Context (FromBytes : string → string).
Context {LS : Type} `{!LayerGetReleaser LS} `{!RetainLaws LS}.
Context (Unmarshal : string → option Image) (Validate : string → bool).

Abbreviation istore := (@store LS).
Implicit Types (s : istore).

(** The operations that change the store, and the other users of the layers. *)
Inductive iop := OCreate (config : string) | ODelete (id : ID) | OSetParent (id p : ID) | OEnv (l : LS).

Definition void_i {A} (o : outcome ierror A * istore) : outcome ierror unit * istore :=
  (match o.1 with Ok _ => Ok tt | Err e => Err e | Panic m => Panic m end, o.2).

Definition iexec (op : iop) (s : istore) : outcome ierror unit * istore :=
  match op with
  | OCreate c => void_i (Create FromBytes Unmarshal Validate c s)
  | ODelete id => void_i (Delete FromBytes Validate id s)
  | OSetParent id p => void_i (SetParent FromBytes id p s)
  | OEnv l => (Ok tt, with_ls l s)
  end.

(** The references that images hold. *)
Definition held (s : istore) (h : Layer) : Prop := ∃ id m, images s !! id = Some m ∧ im_layer m = Some h.

(** A configuration that decodes has a RootFS; the other users of the layer
    store may take references and give back their own, in whatever way, but not
    those of the images. *)
Definition proper (s : istore) (op : iop) : Prop :=
  match op with
  | OCreate c => ∀ img, Unmarshal c = Some img → RootFS img ≠ None
  | OEnv l => linv l ∧ ∀ c h, held s h → retained c h (ls s) → retained c h l
  | _ => True
  end.

(** Among the steps of the other users are the calls of the interface: [Get],
    and [Release] of a reference that no image holds. *)
Lemma env_Get_proper c s :
  linv (ls s) → proper s (OEnv (lgr_Get c (ls s)).2).
Proof.
  intros Hl. destruct (lgr_Get c (ls s)) as [o l'] eqn:E. destruct (law_Get _ _ _ _ Hl E) as (_ & Hl' & Hk & _).
  split; [done|]. intros c' h _. apply Hk.
Qed.

Lemma env_Release_proper c h s :
  linv (ls s) → retained c h (ls s) → ¬ held s h → proper s (OEnv (lgr_Release h (ls s)).2).
Proof.
  intros Hl Hr Hh. destruct (lgr_Release h (ls s)) as [o l'] eqn:E.
  destruct (law_Release _ _ _ _ _ Hl Hr E) as (_ & Hl' & Hk).
  split; [done|]. intros c' h' Hh'. apply Hk. by intros ->.
Qed.

(** [SetParent] is called on images that were created. *)
Definition careful (s : istore) (op : iop) : Prop :=
  proper s op ∧ match op with OSetParent id _ => is_ok (fs_Get FromBytes id (backend s)) = true | _ => True end.

Inductive ireach (P : istore → iop → Prop) (l0 : LS) (script : list bool) : istore → Prop :=
| ir_init : ireach P l0 script (mkIS l0 ∅ (mkFS ∅ ∅ script) ∅)
| ir_step s op o s' : ireach P l0 script s → P s op → iexec op s = (o, s') → ireach P l0 script s'.

(** ** Images keep their layers *)

(** The image [id] of a configuration with the layers [r]. *)
Definition config_of (id : ID) (r : list string) : Prop :=
  ∃ config img, FromBytes config = id ∧ Unmarshal config = Some img ∧ RootFS img = Some r.

Definition layer_ok (l : LS) (id : ID) (m : imageMeta) : Prop :=
  ∃ r, config_of id r ∧
    match im_layer m with
    | Some h => ChainID FromBytes r ≠ "" ∧ retained (ChainID FromBytes r) h l
    | None => ChainID FromBytes r = ""
    end.

Record IInv (s : istore) : Prop := mkIInv {
  ii_ls : linv (ls s);
  ii_layer : ∀ id m, images s !! id = Some m → layer_ok (ls s) id m;
  ii_distinct : ∀ id1 id2 m1 m2 h, images s !! id1 = Some m1 → images s !! id2 = Some m2 →
    im_layer m1 = Some h → im_layer m2 = Some h → id1 = id2;
}.

(** Changes outside the layers of the images. *)
Lemma IInv_ext s s' :
  IInv s → ls s' = ls s →
  (∀ id m', images s' !! id = Some m' → ∃ m, images s !! id = Some m ∧ im_layer m' = im_layer m) →
  IInv s'.
Proof.
  intros [I1 I2 I3] Hl Hm. constructor; rewrite ?Hl; [done|..].
  - intros id m' Hid. destruct (Hm id m' Hid) as (m & Hid0 & E).
    destruct (I2 id m Hid0) as (r & Hr & Hlay). exists r. by rewrite E.
  - intros id1 id2 m1 m2 h H1 H2 E1 E2.
    destruct (Hm id1 m1 H1) as (n1 & ? & ?), (Hm id2 m2 H2) as (n2 & ? & ?).
    apply (I3 id1 id2 n1 n2 h); congruence.
Qed.

Lemma IInv_env s l :
  IInv s → linv l → (∀ c h, held s h → retained c h (ls s) → retained c h l) → IInv (with_ls l s).
Proof.
  intros [I1 I2 I3] Hl Hk. constructor; simpl; [done| |done].
  intros id m Hm. destruct (I2 id m Hm) as (r & Hr & Hlay). exists r. split; [done|].
  destruct (im_layer m) as [h|] eqn:Eh; [|done]. destruct Hlay as [Hne Hret]. split; [done|].
  apply Hk; [by exists id, m|done].
Qed.

Lemma on_fs_IInv {A} (f : fs → outcome ierror A * fs) s o s' :
  IInv s → on_fs f s = (o, s') → IInv s' ∧ images s' = images s ∧ ls s' = ls s.
Proof.
  unfold on_fs. intros I. destruct (f (backend s)) as [o' b]. intros [= <- <-].
  split_and!; [|done..]. eapply IInv_ext; eauto.
Qed.

Lemma get_layer_spec chain s o s' :
  IInv s → get_layer chain s = (o, s') →
  panics o = false ∧ IInv s' ∧ images s' = images s ∧
  ∀ l, o = Ok l → match l with
                  | Some h => chain ≠ "" ∧ retained chain h (ls s') ∧
                              ∀ id m, images s !! id = Some m → im_layer m ≠ Some h
                  | None => chain = ""
                  end.
Proof.
  intros I. unfold get_layer. case_bool_decide as Hc.
  - unfold fmap, ST_fmap, mbind, ST_bind, on_ls. destruct (lgr_Get chain (ls s)) as [o0 l] eqn:E.
    destruct (law_Get chain (ls s) o0 l (ii_ls s I) E) as (Hp & Hl & Hk & Hn).
    pose proof (IInv_env s l I Hl (λ c h _, Hk c h)) as I'. destruct o0 as [h|e|e]; [| |done]; intros [= <- <-].
    + split_and!; [done..|]. intros l0 [= <-]. destruct (Hn h eq_refl) as [Hr Hnew].
      split_and!; [done..|]. intros id m Hm Em.
      destruct (ii_layer s I id m Hm) as (r & _ & Hlay). rewrite Em in Hlay. naive_solver.
    + by split_and!.
  - intros [= <- <-]. split_and!; [done..|]. intros l [= <-]. done.
Qed.

(** A new entry with a layer of its own. *)
Lemma IInv_insert s id r l :
  IInv s → config_of id r → images s !! id = None →
  match l with
  | Some h => ChainID FromBytes r ≠ "" ∧ retained (ChainID FromBytes r) h (ls s) ∧
              ∀ id m, images s !! id = Some m → im_layer m ≠ Some h
  | None => ChainID FromBytes r = ""
  end →
  IInv (with_images (<[id := mkMeta l ∅]> (images s)) s).
Proof.
  intros [I1 I2 I3] Hr Hid Hl. constructor; simpl; [done|..].
  - intros k m [[<- <-]|[_ Hk]]%lookup_insert_Some; [|by apply I2].
    exists r. split; [done|]. simpl. destruct l; naive_solver.
  - intros id1 id2 m1 m2 h [[<- <-]|[_ H1]]%lookup_insert_Some [[<- <-]|[_ H2]]%lookup_insert_Some E1 E2;
      simpl in *; subst; [done|naive_solver..].
Qed.

Lemma IInv_delete s id : IInv s → IInv (with_images (delete id (images s)) s).
Proof. intros I. eapply IInv_ext; [exact I|done|]. simpl. intros k m [_ Hk]%lookup_delete_Some. eauto. Qed.

Lemma Create_IInv config s o s' :
  IInv s → proper s (OCreate config) →
  Create FromBytes Unmarshal Validate config s = (o, s') → panics o = false ∧ IInv s'.
Proof.
  intros I Hp. unfold Create. destruct (Unmarshal config) as [img|] eqn:Hu; [|by intros [= <- <-]].
  destruct (RootFS img) as [r|] eqn:Hr; [|by destruct (Hp img Hu)].
  destruct (decide _); [by intros [= <- <-]|]. unfold mbind at 1, ST_bind at 1.
  destruct (on_fs (fs_Set FromBytes config) s) as [o1 s1] eqn:E1.
  destruct (on_fs_IInv _ _ _ _ I E1) as (I1 & Hm1 & _).
  assert (∀ id, o1 = Ok id → id = FromBytes config) as Hid.
  { intros id ->. unfold on_fs, fs_Set in E1. destruct (bool_decide _); [done|].
    destruct (tick (backend s)) as [[] b]; by simplify_eq. }
  destruct o1 as [id|e|e]; [|by intros [= <- <-]|].
  2:{ unfold on_fs, fs_Set in E1. destruct (bool_decide _); [done|].
      destruct (tick (backend s)) as [[] b]; by simplify_eq. }
  rewrite (Hid id eq_refl) in *. clear Hid. set (k := FromBytes config) in *.
  unfold mbind at 1, ST_bind at 1, st_gets.
  destruct (images s1 !! k) eqn:Hk; [by intros [= <- <-]|].
  unfold mbind at 1, ST_bind at 1, image_chain. rewrite Hr.
  unfold mret at 1, ST_ret at 1. unfold mbind at 1, ST_bind at 1.
  destruct (get_layer (ChainID FromBytes r) s1) as [o2 s2] eqn:E2.
  destruct (get_layer_spec _ _ _ _ I1 E2) as (Hp2 & I2 & Hm2 & Hl).
  destruct o2 as [l|e|e]; [|by intros [= <- <-]|done].
  assert (IInv (with_images (<[k := mkMeta l ∅]> (images s2)) s2)) as I3.
  { apply (IInv_insert s2 k r l); [done| |by rewrite Hm2|].
    - by exists config, img.
    - specialize (Hl l eq_refl). rewrite Hm2. done. }
  unfold mbind, ST_bind, st_modify, st_try, digestSet_Add. destruct (Validate k).
  - intros [= <- <-]. split; [done|]. by eapply IInv_ext; eauto.
  - intros [= <- <-]. split; [done|]. by apply IInv_delete.
Qed.

Lemma unlink_parent_IInv id s : IInv s → IInv ((unlink_parent FromBytes id s).2).
Proof.
  intros I. unfold unlink_parent, st_modify. simpl.
  destruct (GetParent FromBytes id s) as [p| |]; [|done..]. destruct (images s !! p) as [pm|] eqn:Hp; [|done].
  eapply IInv_ext; [exact I|done|]. simpl. intros k m [[<- <-]|[_ Hk]]%lookup_insert_Some; eauto.
Qed.

Lemma unlink_parent_ls id s : ls (unlink_parent FromBytes id s).2 = ls s.
Proof.
  unfold unlink_parent, st_modify. simpl. destruct (GetParent FromBytes id s) as [p| |]; [|done..].
  by destruct (images s !! p).
Qed.

Lemma unlink_parent_layer id s k m :
  images s !! k = Some m →
  ∃ m', images (unlink_parent FromBytes id s).2 !! k = Some m' ∧ im_layer m' = im_layer m.
Proof.
  intros Hk. unfold unlink_parent, st_modify. simpl.
  destruct (GetParent FromBytes id s) as [p| |]; [|eauto..].
  destruct (images s !! p) as [pm|] eqn:Hp; [|eauto]. simpl. destruct (decide (k = p)) as [->|].
  - rewrite lookup_insert_eq. simplify_eq. eauto.
  - rewrite lookup_insert_ne by done. eauto.
Qed.

Lemma SetParent_IInv id p s o s' :
  IInv s → SetParent FromBytes id p s = (o, s') → panics o = false ∧ IInv s'.
Proof.
  intros I. unfold SetParent, mbind, ST_bind, st_gets.
  destruct (images s !! p) eqn:Hp; [|by intros [= <- <-]].
  pose proof (unlink_parent_IInv id s I) as I1.
  destruct (unlink_parent FromBytes id s) as [o1 s1] eqn:E1. simpl in I1.
  assert (o1 = Ok tt) as -> by (unfold unlink_parent, st_modify in E1; by simplify_eq).
  unfold st_modify. intros E.
  assert (IInv (match images s1 !! p with
                | Some pm => with_images (<[p := mkMeta (im_layer pm) ({[ id ]} ∪ im_children pm)]> (images s1)) s1
                | None => s1
                end)) as I2.
  { destruct (images s1 !! p) as [pm|] eqn:Hp1; [|done].
    eapply IInv_ext; [exact I1|done|]. simpl. intros k m [[<- <-]|[_ Hk]]%lookup_insert_Some; eauto. }
  split; [|by eapply on_fs_IInv]. unfold on_fs, fs_SetMetadata, fs_Get in E.
  repeat case_match; simplify_eq; done.
Qed.

(** [Delete] up to the release of the layer. *)
Definition delete_entry (id : ID) (meta : imageMeta) : ST istore ierror unit :=
  _ ← orphan_children (im_children meta);
  _ ← unlink_parent FromBytes id;
  _ ← st_try (digestSet_Remove Validate id);
  _ ← st_modify (λ s, with_images (delete id (images s)) s);
  _ ← st_try (on_fs (fs_Delete id));
  mret tt.

Lemma Delete_entry id s meta :
  images s !! id = Some meta →
  Delete FromBytes Validate id s =
    (delete_entry id meta ≫= λ _, match im_layer meta with
                                  | Some l => on_ls (lgr_Release l)
                                  | None => mret []
                                  end) s.
Proof.
  intros Hm. unfold Delete, delete_entry, mbind, ST_bind, st_gets. rewrite Hm. simpl.
  unfold unlink_parent, st_modify, st_try, digestSet_Remove. simpl.
  destruct (Validate id); simpl;
    match goal with |- context [on_fs (fs_Delete id) ?x] => destruct (on_fs (fs_Delete id) x) as [[|e|e] s'] end;
    done.
Qed.

Lemma fs_Delete_no_panic id b : panics (fs_Delete id b).1 = false.
Proof. unfold fs_Delete. repeat case_match; by simplify_eq/=. Qed.

(** The entry is gone, the other images and the layers are as before. *)
Lemma delete_entry_spec id meta s :
  let s1 := with_backend (foldl (λ b c, (fs_DeleteMetadata c "parent" b).2) (backend s)
              (elements (im_children meta))) s in
  let s2 := (unlink_parent FromBytes id s1).2 in
  ∃ s', delete_entry id meta s = (Ok tt, s') ∧ ls s' = ls s ∧
        images s' = delete id (images s2) ∧ backend s' = (fs_Delete id (backend s2)).2.
Proof.
  intros s1 s2. unfold delete_entry, mbind, ST_bind, orphan_children. fold s1.
  assert (unlink_parent FromBytes id s1 = (Ok tt, s2)) as -> by done.
  unfold st_try, digestSet_Remove, st_modify, on_fs.
  assert (ls s2 = ls s) as Hl by (unfold s2; by rewrite unlink_parent_ls).
  destruct (Validate id); simpl;
    pose proof (fs_Delete_no_panic id (backend s2)) as Hp;
    destruct (fs_Delete id (backend s2)) as [[u|e|e] b]; try done; by eexists.
Qed.

Lemma Delete_IInv id s o s' :
  IInv s → Delete FromBytes Validate id s = (o, s') → panics o = false ∧ IInv s'.
Proof.
  intros I. destruct (images s !! id) as [meta|] eqn:Hm.
  2:{ unfold Delete, mbind, ST_bind, st_gets. rewrite Hm. by intros [= <- <-]. }
  rewrite (Delete_entry id s meta Hm).
  destruct (delete_entry_spec id meta s) as (s1 & E & Hl & Him & _). unfold mbind, ST_bind. rewrite E.
  assert (∀ k m', images s1 !! k = Some m' → k ≠ id ∧ ∃ m, images s !! k = Some m ∧ im_layer m' = im_layer m) as Hsub.
  { intros k m'. rewrite Him. intros [Hne Hk]%lookup_delete_Some. split; [done|].
    set (s0 := with_backend _ s) in Hk. destruct (images s !! k) as [m|] eqn:Hks.
    - destruct (unlink_parent_layer id s0 k m) as (m2 & Hm2 & El); [done|].
      rewrite Hm2 in Hk. simplify_eq. eauto.
    - exfalso. unfold unlink_parent, st_modify in Hk. simpl in Hk.
      destruct (GetParent FromBytes id s0) as [p| |]; [|by unfold s0 in Hk; simpl in Hk; congruence..].
      destruct (images s !! p) as [pm|] eqn:Hp; simpl in Hk; [|congruence].
      apply lookup_insert_Some in Hk as [[-> _]|[_ Hk]]; congruence. }
  assert (IInv s1) as I1.
  { eapply IInv_ext; [exact I|done|]. intros k m' Hk. by destruct (Hsub k m' Hk). }
  destruct (im_layer meta) as [h|] eqn:Hh; [|by intros [= <- <-]].
  unfold on_ls. destruct (lgr_Release h (ls s1)) as [o1 l] eqn:E1. intros [= <- <-].
  destruct (ii_layer s I id meta Hm) as (r & _ & Hlay). rewrite Hh in Hlay. destruct Hlay as [_ Hret].
  rewrite <-Hl in Hret.
  destruct (law_Release _ h (ls s1) o1 l (ii_ls s1 I1) Hret E1) as (Hp & Hlinv & Hkeep).
  split; [by destruct o1|]. destruct I1 as [J1 J2 J3]. constructor; simpl; [done| |done].
  intros k m' Hk. destruct (J2 k m' Hk) as (r' & Hr' & Hlay'). exists r'. split; [done|].
  destruct (im_layer m') as [h'|] eqn:Eh; [|done]. destruct Hlay' as [? Hret']. split; [done|].
  apply Hkeep; [|done]. intros ->. destruct (Hsub k m' Hk) as [Hne (m & Hks & Em)].
  apply Hne, (ii_distinct s I k id m meta h); congruence.
Qed.

Lemma ireach_IInv l0 script s :
  linv l0 → ireach proper l0 script s → IInv s.
Proof.
  intros Hl. induction 1 as [|s op o s' _ IH Hp E].
  - constructor; simpl; [done|..]; intros *; by rewrite lookup_empty.
  - destruct op as [c|id|id p|l]; unfold iexec, void_i in E.
    + destruct (Create _ _ _ c s) as [o1 s1] eqn:E1. simplify_eq. by eapply Create_IInv.
    + destruct (Delete _ _ id s) as [o1 s1] eqn:E1. simplify_eq. by eapply Delete_IInv.
    + destruct (SetParent _ id p s) as [o1 s1] eqn:E1. simplify_eq. by eapply SetParent_IInv.
    + simplify_eq. destruct Hp. by apply IInv_env.
Qed.

(** ** Children and parents *)

Definition child_of s (c p : ID) : Prop := ∃ m, images s !! p = Some m ∧ c ∈ im_children m.

Definition parent_md s (c : ID) : option ID := metadata (backend s) !! (c, "parent").

(** No write fails, metadata belongs to stored images, and the children maps
    are the inverse of the parent files. *)
Record CInv s : Prop := mkCInv {
  ci_io : io (backend s) = [];
  ci_meta : ∀ c k d, metadata (backend s) !! (c, k) = Some d →
    ∃ x, content (backend s) !! c = Some x ∧ FromBytes x = c;
  ci_coh : ∀ c p, child_of s c p ↔ parent_md s c = Some p;
}.

Lemma GetParent_md s c p : CInv s → GetParent FromBytes c s = Ok p ↔ parent_md s c = Some p.
Proof.
  intros C. unfold GetParent, fs_GetMetadata, fs_Get, parent_md. split.
  - intros E. repeat case_match; by simplify_eq.
  - intros E. destruct (ci_meta s C c _ p E) as (x & -> & Hx). rewrite bool_decide_eq_true_2 by done.
    by rewrite E.
Qed.

Lemma tick_nil b : io b = [] → tick b = (true, b).
Proof. unfold tick. by intros ->. Qed.

(** Under the invariant, [unlink_parent id] removes [id] from every children map. *)
Lemma unlink_child id s c p :
  (∀ q, GetParent FromBytes id s = Ok q ↔ child_of s id q) →
  child_of (unlink_parent FromBytes id s).2 c p ↔ child_of s c p ∧ c ≠ id.
Proof.
  intros Hq. unfold unlink_parent, st_modify. simpl.
  destruct (GetParent FromBytes id s) as [q|e|e] eqn:E.
  - destruct (proj1 (Hq q) eq_refl) as (qm & Hqm & Hin). rewrite Hqm. unfold child_of. simpl.
    destruct (decide (p = q)) as [->|Hne].
    + rewrite lookup_insert_eq. split.
      * intros (m & [= <-] & [Hc Hn]%elem_of_difference). split; [by exists qm|set_solver].
      * intros [(m & Hm & Hc) Hn]. simplify_eq. eexists. split; [done|]. set_solver.
    + rewrite lookup_insert_ne by done. split; [|naive_solver].
      intros (m & Hm & Hc). split; [eauto|]. intros ->.
      assert (Ok q = Ok (E := ierror) p) by (apply Hq; by exists m). naive_solver.
  - split; [|by intros [? _]]. intros Hc. split; [done|]. intros ->. by apply Hq in Hc.
  - split; [|by intros [? _]]. intros Hc. split; [done|]. intros ->. by apply Hq in Hc.
Qed.

Lemma unlink_backend id s : backend (unlink_parent FromBytes id s).2 = backend s.
Proof.
  unfold unlink_parent, st_modify. simpl. destruct (GetParent FromBytes id s) as [q|e|e]; [|done..].
  by destruct (images s !! q).
Qed.

Lemma Create_CInv config s o s' :
  CInv s → Create FromBytes Unmarshal Validate config s = (o, s') → CInv s'.
Proof.
  intros C. unfold Create. destruct (Unmarshal config) as [img|]; [|by intros [= <- <-]].
  destruct (RootFS img) as [r|] eqn:Hr; [|by intros [= <- <-]]. destruct (decide _); [by intros [= <- <-]|].
  unfold mbind at 1, ST_bind at 1, on_fs, fs_Set. case_bool_decide; [by intros [= <- <-]; destruct s|].
  rewrite (tick_nil _ (ci_io s C)). set (id := FromBytes config).
  set (b := mkFS (<[id := config]> (content (backend s))) (metadata (backend s)) (io (backend s))).
  assert (∀ l m d, (∀ c p, child_of (mkIS l m b d) c p ↔ child_of s c p) → CInv (mkIS l m b d)) as HC.
  { intros l m d Hch. constructor; simpl; [apply C| |].
    - intros c k x Hx. destruct (decide (c = id)) as [->|].
      + rewrite lookup_insert_eq. by exists config.
      + rewrite lookup_insert_ne by done. by eapply ci_meta.
    - intros c p. rewrite Hch. apply C. }
  unfold mbind at 1, ST_bind at 1, st_gets. simpl.
  destruct (images s !! id) as [m|] eqn:Hid; [intros [= <- <-]; by apply HC|].
  assert (∀ c, ¬ child_of s c id) as Hno by (intros c (m & Hm & _); congruence).
  unfold image_chain. rewrite Hr. unfold mbind, ST_bind, mret, ST_ret.
  destruct (get_layer _ _) as [o1 s1] eqn:E1.
  assert (∃ l, s1 = mkIS l (images s) b (digestSet s)) as [l ->].
  { unfold get_layer, fmap, ST_fmap, mbind, ST_bind, mret, ST_ret, on_ls in E1.
    case_bool_decide; [|by simplify_eq; eexists].
    destruct (lgr_Get _ _) as [[?|?|?] l]; simplify_eq; by eexists. }
  destruct o1 as [lay|e|e]; [|intros [= <- <-]; by apply HC..].
  unfold st_modify, st_try, digestSet_Add. simpl. destruct (Validate id); intros [= <- <-]; apply HC.
  - intros c p. unfold child_of. simpl. destruct (decide (p = id)) as [->|].
    + rewrite lookup_insert_eq. split; [intros (m & [= <-] & Hc); set_solver|].
      intros Hc. by destruct (Hno c).
    + by rewrite lookup_insert_ne.
  - intros c p. unfold child_of. simpl. by rewrite delete_insert_id.
Qed.

Lemma SetParent_CInv id p s o s' :
  CInv s → careful s (OSetParent id p) → SetParent FromBytes id p s = (o, s') → CInv s'.
Proof.
  intros C [_ Hok]. unfold SetParent, mbind, ST_bind, st_gets.
  destruct (images s !! p) as [pm0|] eqn:Hp; [|by intros [= <- <-]].
  assert (∀ q, GetParent FromBytes id s = Ok q ↔ child_of s id q) as Hq.
  { intros q. rewrite (GetParent_md s id q C). symmetry. apply C. }
  pose proof (λ c q, unlink_child id s c q Hq) as Hun. pose proof (unlink_backend id s) as Hb.
  destruct (unlink_parent_layer id s p pm0 Hp) as (pm & Hpm & _).
  destruct (unlink_parent FromBytes id s) as [o1 s1] eqn:E1. simpl in *.
  assert (o1 = Ok tt) as -> by (unfold unlink_parent, st_modify in E1; by simplify_eq).
  unfold st_modify. rewrite Hpm. unfold on_fs, fs_SetMetadata. simpl. rewrite Hb.
  destruct (fs_Get FromBytes id (backend s)) as [x| |] eqn:Hx; [|done..].
  rewrite !(tick_nil _ (ci_io s C)). simpl. intros [= <- <-].
  constructor; simpl; [apply C| |].
  - intros c k d [[E <-]|[_ Hk]]%lookup_insert_Some; [|by eapply ci_meta]. simplify_eq.
    unfold fs_Get in Hx. repeat case_match; simplify_eq. exists x. by rewrite bool_decide_eq_true in *.
  - intros c q. unfold parent_md, child_of. simpl. specialize (Hun c q). unfold child_of in Hun.
    destruct (decide (q = p)) as [->|Hqp].
    + rewrite lookup_insert_eq. destruct (decide (c = id)) as [->|Hc].
      * rewrite lookup_insert_eq. split; [done|]. intros _. eexists. split; [done|]. set_solver.
      * rewrite lookup_insert_ne by congruence. fold (parent_md s c). rewrite <-(ci_coh s C). unfold child_of.
        rewrite Hpm in Hun. split.
        -- intros (m & [= <-] & Hm). apply Hun. exists pm. split; [done|]. set_solver.
        -- intros Hm. destruct (proj2 Hun (conj Hm Hc)) as (m & [= <-] & Hin).
           eexists. split; [done|]. set_solver.
    + rewrite lookup_insert_ne by done. destruct (decide (c = id)) as [->|Hc].
      * rewrite lookup_insert_eq. naive_solver.
      * rewrite lookup_insert_ne by congruence. fold (parent_md s c). rewrite <-(ci_coh s C). unfold child_of. naive_solver.
Qed.

Lemma orphan_fold l b :
  io b = [] →
  let b' := foldl (λ b c, (fs_DeleteMetadata c "parent" b).2) b l in
  io b' = [] ∧ content b' = content b ∧
  ∀ c k, metadata b' !! (c, k) =
    if decide (k = "parent" ∧ c ∈ l) then None else metadata b !! (c, k).
Proof.
  revert b. induction l as [|x l IH]; intros b Hb; simpl.
  { split_and!; [done..|]. intros c k. rewrite decide_False by set_solver. done. }
  unfold fs_DeleteMetadata at 2 4 6. rewrite (tick_nil b Hb). simpl.
  destruct (IH (mkFS (content b) (delete (x, "parent") (metadata b)) (io b)) Hb) as (H1 & H2 & H3).
  split_and!; [done..|]. intros c k. rewrite H3. simpl.
  destruct (decide (k = "parent" ∧ c ∈ l)) as [[-> ?]|Hn].
  - rewrite decide_True by set_solver. done.
  - destruct (decide (x = c ∧ k = "parent")) as [[-> ->]|Hne].
    + rewrite lookup_delete_eq, decide_True by set_solver. done.
    + rewrite lookup_delete_ne by naive_solver. rewrite decide_False; [done|].
      intros [-> [->|?]%elem_of_cons]; naive_solver.
Qed.

Lemma fs_Delete_nil id b :
  io b = [] →
  let b' := (fs_Delete id b).2 in
  io b' = [] ∧ (∀ c, c ≠ id → content b' !! c = content b !! c) ∧
  ∀ c k, metadata b' !! (c, k) = if decide (c = id) then None else metadata b !! (c, k).
Proof.
  intros Hb. unfold fs_Delete. rewrite (tick_nil b Hb). simpl.
  rewrite tick_nil by done. simpl.
  assert (∀ c k, filter (λ kv : (ID * string) * string, kv.1.1 ≠ id) (metadata b) !! (c, k)
                 = if decide (c = id) then None else metadata b !! (c, k)) as Hf.
  { intros c k. destruct (decide (c = id)) as [->|Hne].
    - apply map_lookup_filter_None. right. simpl. naive_solver.
    - destruct (metadata b !! (c, k)) as [d|] eqn:E.
      + by apply map_lookup_filter_Some.
      + apply map_lookup_filter_None. by left. }
  destruct (content b !! id); simpl; split_and!; try done.
  intros c Hc. by rewrite lookup_delete_ne.
Qed.

Lemma GetParent_Ok s c p : GetParent FromBytes c s = Ok p → parent_md s c = Some p.
Proof. unfold GetParent, fs_GetMetadata, fs_Get, parent_md. intros E. repeat case_match; by simplify_eq. Qed.

(** The children maps after the children of [id] lost their parent file ([s1])
    and [id] was unlinked. *)
Lemma Delete_children id s s1 (cs : list ID) c p :
  CInv s → images s1 = images s → (∀ c, c ∈ cs ↔ parent_md s c = Some id) →
  (∀ c, parent_md s1 c = if decide (c ∈ cs) then None else parent_md s c) →
  (∀ q, parent_md s1 id = Some q → GetParent FromBytes id s1 = Ok q) → p ≠ id →
  child_of (unlink_parent FromBytes id s1).2 c p ↔ c ≠ id ∧ child_of s c p.
Proof.
  intros C Him Hcs Hmd HG Hp.
  assert (∀ c q, child_of s1 c q ↔ child_of s c q) as Hs1 by (intros; unfold child_of; by rewrite Him).
  destruct (decide (id ∈ cs)) as [Hin|Hin].
  - assert (∀ q, GetParent FromBytes id s1 ≠ Ok q) as Hno.
    { intros q Hq%GetParent_Ok. rewrite Hmd, decide_True in Hq by done. done. }
    assert ((unlink_parent FromBytes id s1).2 = s1) as ->.
    { unfold unlink_parent, st_modify. simpl.
      destruct (GetParent FromBytes id s1) as [q| |] eqn:E; [by destruct (Hno q)|done..]. }
    rewrite Hs1. split; [|naive_solver]. intros Hc. split; [|done]. intros ->.
    apply (ci_coh s C) in Hc. apply Hcs in Hin. congruence.
  - rewrite unlink_child, Hs1; [naive_solver|]. intros q. rewrite Hs1, (ci_coh s C).
    assert (parent_md s1 id = parent_md s id) as Hid by (by rewrite Hmd, decide_False).
    rewrite <-Hid. split; [apply GetParent_Ok|apply HG].
Qed.

Lemma Delete_CInv id s o s' : CInv s → Delete FromBytes Validate id s = (o, s') → CInv s'.
Proof.
  intros C. destruct (images s !! id) as [meta|] eqn:Hm.
  2:{ unfold Delete, mbind, ST_bind, st_gets. rewrite Hm. by intros [= <- <-]. }
  rewrite (Delete_entry id s meta Hm).
  destruct (delete_entry_spec id meta s) as (s3 & E & _ & Him & Hb). unfold mbind, ST_bind. rewrite E.
  set (cs := elements (im_children meta)) in *.
  set (s1 := with_backend _ s) in *. set (s2 := (unlink_parent FromBytes id s1).2) in *.
  destruct (orphan_fold cs (backend s) (ci_io s C)) as (O1 & O2 & O3).
  assert (backend s2 = backend s1) as Hb2 by apply unlink_backend. rewrite Hb2 in Hb.
  destruct (fs_Delete_nil id (backend s1) O1) as (F1 & F2 & F3).
  assert (∀ c, c ∈ cs ↔ parent_md s c = Some id) as Hcs.
  { intros c. rewrite <-(ci_coh s C). unfold cs, child_of. rewrite elem_of_elements, Hm. naive_solver. }
  assert (∀ c, parent_md s1 c = if decide (c ∈ cs) then None else parent_md s c) as Hmd1.
  { intros c. unfold parent_md. simpl. rewrite O3. destruct (decide (c ∈ cs)).
    - by rewrite decide_True. - rewrite decide_False; naive_solver. }
  assert (∀ q, parent_md s1 id = Some q → GetParent FromBytes id s1 = Ok q) as HG.
  { intros q Hq. unfold GetParent, fs_GetMetadata, fs_Get. unfold parent_md in Hq. simpl in *.
    rewrite O2. rewrite Hq. pose proof Hq as Hq'. rewrite O3 in Hq'. case_decide; [done|].
    destruct (ci_meta s C id _ q Hq') as (x & -> & Hx). by rewrite bool_decide_eq_true_2. }
  assert (CInv s3) as C3.
  { constructor.
    - by rewrite Hb.
    - intros c k d. rewrite Hb, F3. destruct (decide (c = id)); [done|]. rewrite F2 by done.
      simpl. rewrite O3, O2. case_decide; [done|]. apply (ci_meta s C).
    - intros c p. unfold parent_md. rewrite Hb, F3. fold (parent_md s1 c).
      assert (child_of s3 c p ↔ p ≠ id ∧ c ≠ id ∧ child_of s c p) as ->.
      { unfold child_of at 1. rewrite Him. setoid_rewrite lookup_delete_Some.
        pose proof (Delete_children id s s1 cs c p C eq_refl Hcs Hmd1 HG) as Hch.
        unfold child_of in *. naive_solver. }
      rewrite (ci_coh s C), Hmd1. destruct (decide (c = id)); [naive_solver|].
      destruct (decide (c ∈ cs)) as [Hin|Hin].
      + apply Hcs in Hin. naive_solver.
      + split; [naive_solver|]. intros Hp. split_and!; [|done..]. intros ->. by apply Hin, Hcs. }
  destruct (im_layer meta) as [h|]; [|by intros [= <- <-]].
  unfold on_ls. destruct (lgr_Release h (ls s3)) as [o1 l]. intros [= <- <-].
  destruct C3 as [C31 C32 C33]. by constructor.
Qed.

Lemma ireach_CInv l0 s : ireach careful l0 [] s → CInv s.
Proof.
  induction 1 as [|s op o s' _ IH Hp E].
  - constructor; simpl; [done|done|]. intros c p. split; [|done]. by intros (m & Hm & _).
  - destruct op as [c|id|id p|l]; unfold iexec, void_i in E.
    + destruct (Create _ _ _ c s) as [o1 s1] eqn:E1. simplify_eq. by eapply Create_CInv.
    + destruct (Delete _ _ id s) as [o1 s1] eqn:E1. simplify_eq. by eapply Delete_CInv.
    + destruct (SetParent _ id p s) as [o1 s1] eqn:E1. simplify_eq. by eapply SetParent_CInv.
    + simplify_eq. destruct IH as [I1 I2 I3]. by constructor.
Qed.

(** C18: whatever writes fail, and whatever references the other users of the
    layer store take and give back (their own, not those of the images), every
    image keeps the layer of its configuration: it holds a valid reference of
    its own to the layer with the chain ID of its RootFS, different images hold
    different references, and no operation panics.  The configurations that are
    given to [Create] have a RootFS when they can be decoded; one without makes
    it panic ([Create_without_RootFS]). *)
Theorem images_keep_layers l0 script s :
  linv l0 → ireach proper l0 script s →
  (∀ id m, images s !! id = Some m → layer_ok (ls s) id m) ∧
  (∀ id1 id2 m1 m2 h, images s !! id1 = Some m1 → images s !! id2 = Some m2 →
     im_layer m1 = Some h → im_layer m2 = Some h → id1 = id2) ∧
  ∀ op, proper s op → panics (iexec op s).1 = false.
Proof.
  intros Hl Hr. pose proof (ireach_IInv l0 script s Hl Hr) as I.
  split_and!; [apply I|apply I|]. intros op Hp.
  destruct op as [c|id|id p|l]; unfold iexec, void_i; [| | |done].
  - destruct (Create _ _ _ c s) as [o1 s1] eqn:E1. destruct (Create_IInv c s o1 s1 I Hp E1). by destruct o1.
  - destruct (Delete _ _ id s) as [o1 s1] eqn:E1. destruct (Delete_IInv id s o1 s1 I E1). by destruct o1.
  - destruct (SetParent _ id p s) as [o1 s1] eqn:E1. destruct (SetParent_IInv id p s o1 s1 I E1). by destruct o1.
Qed.

(** When no write fails, the children maps in memory are the inverse of the
    parent files on disk: [c] is a child of [p] exactly when [GetParent c] is
    [p], after any sequence of creations, deletions and changes of parent. *)
Theorem children_match_parents l0 s c p :
  ireach careful l0 [] s →
  c ∈ Children p s ↔ GetParent FromBytes c s = Ok p.
Proof.
  intros C%ireach_CInv. rewrite (GetParent_md s c p C), <-(ci_coh s C). unfold Children, child_of.
  destruct (images s !! p) as [m|] eqn:Hm.
  - rewrite elem_of_elements. naive_solver.
  - split; [by intros ?%elem_of_nil|]. intros (m & ? & _). congruence.
Qed.

(** An image is stored under the digest of its configuration, and [Get]
    returns that configuration decoded. *)
Theorem Create_Get config s id s' :
  Create FromBytes Unmarshal Validate config s = (Ok id, s') →
  id = FromBytes config ∧
  ∃ img p, Unmarshal config = Some img ∧ Get FromBytes Unmarshal id s' = Ok (img, p).
Proof.
  unfold Create. destruct (Unmarshal config) as [img|] eqn:Hu; [|done].
  destruct (RootFS img) as [r|] eqn:Hr; [|done]. destruct (decide _); [done|].
  unfold mbind at 1, ST_bind at 1, on_fs, fs_Set. case_bool_decide; [done|].
  destruct (tick (backend s)) as [[] b]; [|done]. set (k := FromBytes config).
  set (b' := mkFS (<[k := config]> (content b)) _ _).
  assert (∀ s', backend s' = b' →
    ∃ img' p, Some img = Some img' ∧ Get FromBytes Unmarshal k s' = Ok (img', p)) as HG.
  { intros s0 Hb. unfold Get. rewrite Hb. unfold fs_Get. simpl. rewrite lookup_insert_eq.
    rewrite bool_decide_eq_true_2 by done. unfold NewFromJSON. rewrite Hu, Hr. eauto. }
  unfold mbind at 1, ST_bind at 1, st_gets. simpl.
  destruct (images s !! k); [intros [= <- <-]; split; [done|]; by apply HG|].
  unfold image_chain. rewrite Hr. unfold mbind, ST_bind, mret, ST_ret.
  destruct (get_layer _ _) as [o1 s1] eqn:E1.
  assert (backend s1 = b') as Hb1.
  { unfold get_layer, fmap, ST_fmap, mbind, ST_bind, mret, ST_ret, on_ls in E1.
    case_bool_decide; [|by simplify_eq].
    destruct (lgr_Get _ _) as [[?|?|?] l]; by simplify_eq. }
  destruct o1 as [lay|e|e]; [|done..].
  unfold st_modify, st_try, digestSet_Add. simpl. destruct (Validate k); [|done].
  intros [= <- <-]. split; [done|]. by apply HG.
Qed.

(** [Create] dereferences the RootFS of the decoded configuration before it
    checks anything: a configuration without one makes it panic. *)
Theorem Create_without_RootFS config img s :
  Unmarshal config = Some img → RootFS img = None →
  Create FromBytes Unmarshal Validate config s = (Panic "nil pointer dereference", s).
Proof. intros Hu Hr. unfold Create. by rewrite Hu, Hr. Qed.
End histories.

(** ** Witnesses: the layer store on scripts, configurations named by their text *)

#[local] Existing Instance script_driver.
#[local] Existing Instance script_store.

Definition ex_unmarshal (c : string) : option Image :=
  if bool_decide (c = "norootfs") then Some (mkImage None [])
  else if bool_decide (c = "app") then Some (mkImage (Some ["d(base)"]) [false; true])
  else Some (mkImage (Some []) []).

Definition ex_layers : @layerStore (list bool) (list bool) string :=
  st (ex_run [CRegister "base" "" "id1"] (start [] [])).2.

#[local] Instance ex_lgr : LayerGetReleaser (@layerStore (list bool) (list bool) string) := layerStore_lgr.
#[local] Instance ex_retains : RetainLaws (@layerStore (list bool) (list bool) string) :=
  layerStore_retains tag_digest true.

Lemma ex_layers_inv : linv ex_layers.
Proof.
  exists []. eapply Inv_K; [apply (run_CInv tag_digest (λ d : string, d) "" (λ _, None) _ _ (start_CInv tag_digest [] []))|].
  intros l Hl. by apply elem_of_nil in Hl.
Qed.

Definition ex_s1 := (iexec tag_digest ex_unmarshal (λ _, true) (OCreate "app") (mkIS ex_layers ∅ (mkFS ∅ ∅ []) ∅)).2.
Definition ex_s2 := (iexec tag_digest ex_unmarshal (λ _, true) (OCreate "child") ex_s1).2.
Definition ex_s3 := (iexec tag_digest ex_unmarshal (λ _, true) (OSetParent "d(child)" "d(app)") ex_s2).2.

Lemma ex_proper c s : c ≠ "norootfs" → proper ex_unmarshal s (OCreate c).
Proof.
  intros Hc img. simpl. unfold ex_unmarshal. rewrite bool_decide_eq_false_2 by done.
  case_bool_decide; by intros [= <-].
Qed.

Lemma ex_reach : ireach tag_digest ex_unmarshal (λ _, true) (careful tag_digest ex_unmarshal) ex_layers [] ex_s3.
Proof.
  eapply (ir_step _ _ _ _ _ _ ex_s2 (OSetParent "d(child)" "d(app)")); [| |apply surjective_pairing].
  - eapply (ir_step _ _ _ _ _ _ ex_s1 (OCreate "child")); [| |apply surjective_pairing].
    + eapply (ir_step _ _ _ _ _ _ _ (OCreate "app")); [apply ir_init| |apply surjective_pairing].
      split; [by apply ex_proper|done].
    + split; [by apply ex_proper|done].
  - split; [done|]. vm_compute. reflexivity.
Qed.

(** The one who registered the base layer gives its reference back. *)
Definition ex_handle : Layer := refLayer 0 0.
Definition ex_s4 := (iexec tag_digest ex_unmarshal (λ _, true) (OEnv (lgr_Release ex_handle (ls ex_s1)).2) ex_s1).2.

Lemma ex_reach1 : ireach tag_digest ex_unmarshal (λ _, true) (proper ex_unmarshal) ex_layers [] ex_s1.
Proof.
  eapply (ir_step _ _ _ _ _ _ _ (OCreate "app")); [apply ir_init| |apply surjective_pairing].
  by apply ex_proper.
Qed.

Lemma ex_handle_free : ¬ held ex_s1 ex_handle.
Proof.
  intros (id & m & Hm & Hh).
  assert (images ex_s1 = {[ "d(app)" := mkMeta (Some (refLayer 1 0)) ∅ ]}) as E by (vm_compute; reflexivity).
  rewrite E in Hm. apply lookup_singleton_Some in Hm as [_ <-]. done.
Qed.

Lemma ex_reach4 : ireach tag_digest ex_unmarshal (λ _, true) (proper ex_unmarshal) ex_layers [] ex_s4.
Proof.
  eapply (ir_step _ _ _ _ _ _ ex_s1 (OEnv (lgr_Release ex_handle (ls ex_s1)).2)); [apply ex_reach1| |reflexivity].
  apply (env_Release_proper _ "d(base)"); [|eexists 0, _, 0; vm_compute; eauto|apply ex_handle_free].
  pose proof (ireach_IInv tag_digest ex_unmarshal (λ _, true) ex_layers [] ex_s1 ex_layers_inv ex_reach1) as I. apply I.
Qed.

Lemma images_keep_layers_witness :
  layer_ok tag_digest ex_unmarshal (ls ex_s4) "d(app)" (default (mkMeta None ∅) (images ex_s4 !! "d(app)")) ∧
  ls ex_s4 ≠ ls ex_s1.
Proof.
  split.
  - apply (images_keep_layers tag_digest ex_unmarshal (λ _, true) ex_layers [] ex_s4 ex_layers_inv ex_reach4).
    vm_compute. reflexivity.
  - intros E. apply (f_equal (λ s, references <$> layers s !! 0)) in E. vm_compute in E. discriminate.
Defined.

Lemma children_match_parents_witness :
  "d(child)" ∈ Children "d(app)" ex_s3 ↔ GetParent tag_digest "d(child)" ex_s3 = Ok "d(app)".
Proof. apply (children_match_parents tag_digest ex_unmarshal (λ _, true) ex_layers), ex_reach. Defined.

Lemma Create_Get_witness :
  "d(app)" = tag_digest "app" ∧
  ∃ img p, ex_unmarshal "app" = Some img ∧ Get tag_digest ex_unmarshal "d(app)" ex_s1 = Ok (img, p).
Proof.
  apply (Create_Get tag_digest ex_unmarshal (λ _, true) "app" (mkIS ex_layers ∅ (mkFS ∅ ∅ []) ∅)).
  vm_compute. reflexivity.
Defined.

Lemma Create_without_RootFS_witness :
  Create tag_digest ex_unmarshal (λ _, true) "norootfs" ex_s1 = (Panic "nil pointer dereference", ex_s1).
Proof. apply (Create_without_RootFS tag_digest ex_unmarshal (λ _, true) "norootfs" (mkImage None [])); reflexivity. Defined.
