(* ===== verification/VolumeStore.v ===== *)
(** * volume/store: the volume store

    Models [src/volume/store/store.go] and [errors.go]: the cache of volumes by
    name, the references of containers to volumes, the labels in memory and in
    the metadata database.  The volume drivers ([volumedrivers] and the drivers
    themselves) are a type class, every call of which may fail; so may a
    transaction of the database, as the script [db_io] says.  The per-name lock
    makes each operation atomic.  [normaliseVolumeName] is the identity on
    Unix. *)

From S2P Require Import Prelude.

Abbreviation labels_t := (gmap string string).

(** A volume of a driver, and [volumeWrapper]: its labels and scope when it is
    wrapped. *)
Record Volume := mkVolume { v_Name : string; v_DriverName : string; v_wrap : option (labels_t * string) }.

Definition unwrapVolume (v : Volume) : Volume := mkVolume (v_Name v) (v_DriverName v) None.
Definition volumeWrapper (v : Volume) (l : labels_t) (scope : string) : Volume :=
  mkVolume (v_Name v) (v_DriverName v) (Some (l, scope)).

Definition DefaultDriverName : string := "local".

(** The drivers, named; [GetDriver ""] is the local driver. *)
Class VolumeDrivers (D : Type) := {
  GetDriver : string → D → outcome string string * D;
  GetAllDrivers : D → outcome string (list string) * D;
  vd_Get : string → string → D → outcome string Volume * D;
  vd_Create : string → string → labels_t → D → outcome string Volume * D;
  vd_Remove : string → Volume → D → outcome string unit * D;
  vd_List : string → D → outcome string (list Volume) * D;
  vd_Scope : string → string;
}.

Inductive verror :=
| errVolumeInUse (refs : list string) | errNoSuchVolume | errInvalidName | errNameConflict
| EDriver (m : string) | EDB.

(** [IsInUse], [IsNotExist] and [IsNameConflict] on the wrapped error. *)
Definition IsInUse (e : verror) : bool := match e with errVolumeInUse _ => true | _ => false end.
Definition IsNotExist (e : verror) : bool := match e with errNoSuchVolume => true | _ => false end.
Definition IsNameConflict (e : verror) : bool := match e with errNameConflict => true | _ => false end.

Section volumes.
Context {D : Type} `{!VolumeDrivers D}.
(** [volume.IsVolumeNameValid]. *)
Context (IsVolumeNameValid : string → outcome string bool).

Record VolumeStore := mkVS {
  names : gmap string Volume;
  refs : gmap string (list string);
  labels : gmap string labels_t;
  db : option (gmap string labels_t);     (* the volumes bucket; None without a root path *)
  db_io : list bool;                      (* [true]: the next transaction fails *)
  drivers : D;
}.

Definition V (A : Type) : Type := ST VolumeStore verror A.

Definition with_names m (s : VolumeStore) := mkVS m (refs s) (labels s) (db s) (db_io s) (drivers s).
Definition with_refs m (s : VolumeStore) := mkVS (names s) m (labels s) (db s) (db_io s) (drivers s).
Definition with_labels m (s : VolumeStore) := mkVS (names s) (refs s) m (db s) (db_io s) (drivers s).

(** [New]: [found] is what the volumes bucket holds when the database is
    opened; the directory, the file and the bucket are made first, each of which
    may fail. *)
Definition New (rootPath : bool) (found : gmap string labels_t) (io : list bool) (d : D) :
    outcome verror VolumeStore :=
  if rootPath then
    if existsb id (take 3 io) then Err EDB else Ok (mkVS ∅ ∅ ∅ (Some found) (drop 3 io) d)
  else Ok (mkVS ∅ ∅ ∅ None io d).

Definition drv {A} (f : D → outcome string A * D) : V A := λ s,
  let '(o, d) := f (drivers s) in
  (match o with Ok a => Ok a | Err e | Panic e => Err (EDriver e) end,
   mkVS (names s) (refs s) (labels s) (db s) (db_io s) d).

(** [s.db.Update]: nothing without a database. *)
Definition db_update (f : gmap string labels_t → gmap string labels_t) : V unit := λ s,
  match db s with
  | None => (Ok tt, s)
  | Some m =>
      match db_io s with
      | true :: l => (Err EDB, mkVS (names s) (refs s) (labels s) (db s) l (drivers s))
      | false :: l => (Ok tt, mkVS (names s) (refs s) (labels s) (Some (f m)) l (drivers s))
      | [] => (Ok tt, mkVS (names s) (refs s) (labels s) (Some (f m)) [] (drivers s))
      end
  end.

(** ** Names *)

Definition getNamed (name : string) : V (option Volume) := st_gets (λ s, names s !! name).

Definition setNamed (v : Volume) (ref : string) : V unit := st_modify (λ s,
  let s := with_names (<[v_Name v := v]> (names s)) s in
  if bool_decide (0 < String.length ref)
  then with_refs (<[v_Name v := default [] (refs s !! v_Name v) ++ [ref]]> (refs s)) s
  else s).

Definition purge (name : string) : V unit := st_modify (λ s,
  with_labels (delete name (labels s)) (with_refs (delete name (refs s)) (with_names (delete name (names s)) s))).

(** ** Looking a volume up *)

(** The probe of all drivers: the first that has the volume. *)
Fixpoint probe (ds : list string) (name : string) (l : labels_t) : V Volume :=
  match ds with
  | [] => st_fail errNoSuchVolume
  | d :: ds =>
      r ← st_try (drv (vd_Get d name));
      match r with
      | inl v => mret (volumeWrapper v l (vd_Scope (D:=D) d))
      | inr _ => probe ds name l
      end
  end.

Definition getVolume (name : string) : V Volume :=
  _ ← db_update (λ m, m);
  l ← st_gets (λ s, default ∅ (db s ≫= λ m, m !! name));
  o ← getNamed name;
  match o with
  | Some v =>
      vd ← drv (GetDriver (v_DriverName v));
      vol ← drv (vd_Get vd name);
      mret (volumeWrapper vol l (vd_Scope (D:=D) vd))
  | None =>
      ds ← drv GetAllDrivers;
      probe ds name l
  end.

Definition Get (name : string) : V Volume :=
  v ← getVolume name;
  _ ← setNamed v "";
  mret v.

Definition GetWithRef (name driverName ref : string) : V Volume :=
  vd ← drv (GetDriver driverName);
  v ← drv (vd_Get vd name);
  _ ← setNamed v ref;
  ls ← st_gets labels;
  mret (volumeWrapper v (default ∅ (ls !! name)) (vd_Scope (D:=D) vd)).

(** ** Creating *)

(** From [vd, err := volumedrivers.GetDriver(driverName)] on. *)
Definition create_new (name driverName : string) (opts lbls : labels_t) : V Volume :=
  vd ← drv (GetDriver driverName);
  r ← st_try (drv (vd_Get vd name));
  match r with
  | inl v => mret v
  | inr _ =>
      v ← drv (vd_Create vd name opts);
      _ ← st_modify (λ s, with_labels (<[name := lbls]> (labels s)) s);
      _ ← db_update (λ m, <[name := lbls]> m);
      mret (volumeWrapper v lbls (vd_Scope (D:=D) vd))
  end.

Definition create (name driverName : string) (opts lbls : labels_t) : V Volume :=
  match IsVolumeNameValid name with
  | Err e | Panic e => st_fail (EDriver e)
  | Ok false => st_fail errInvalidName
  | Ok true =>
      o ← getNamed name;
      match o with
      | Some v =>
          if bool_decide (v_DriverName v ≠ driverName) && bool_decide (driverName ≠ "") &&
             bool_decide (driverName ≠ DefaultDriverName)
          then st_fail errNameConflict else mret v
      | None =>
          if bool_decide (driverName = "") then
            r ← st_try (getVolume name);
            match r with
            | inl v => mret v
            | inr _ => create_new name driverName opts lbls
            end
          else create_new name driverName opts lbls
      end
  end.

Definition CreateWithRef (name driverName ref : string) (opts lbls : labels_t) : V Volume :=
  v ← create name driverName opts lbls;
  _ ← setNamed v ref;
  mret v.

Definition Create (name driverName : string) (opts lbls : labels_t) : V Volume :=
  v ← create name driverName opts lbls;
  _ ← setNamed v "";
  mret v.

(** ** References and removal *)

Definition Remove (v : Volume) : V unit :=
  let name := v_Name v in
  rs ← st_gets refs;
  match rs !! name with
  | Some (r :: l) => st_fail (errVolumeInUse (r :: l))
  | _ =>
      r ← st_try (drv (GetDriver (v_DriverName v)));
      match r with
      | inr _ => st_panic "nil pointer dereference"        (* vd.Name() on the nil driver *)
      | inl vd =>
          _ ← drv (vd_Remove vd (unwrapVolume v));
          purge name
      end
  end.

Definition Dereference (v : Volume) (ref : string) : V unit := st_modify (λ s,
  with_refs (<[v_Name v := filter (λ r, r ≠ ref) (default [] (refs s !! v_Name v))]> (refs s)) s).

Definition Refs (v : Volume) (s : VolumeStore) : list string := default [] (refs s !! v_Name v).

Definition FilterByUsed (vols : list Volume) (used : bool) (s : VolumeStore) : list Volume :=
  filter (λ v, let l := length (default [] (refs s !! v_Name v)) in
               (used && bool_decide (0 < l)) || (negb used && bool_decide (l = 0)) = true) vols.

Definition FilterByDriver (name : string) : V (list Volume) :=
  vd ← drv (GetDriver name);
  l ← drv (vd_List vd);
  ls ← st_gets labels;
  mret ((λ v, volumeWrapper v (default ∅ (ls !! v_Name v)) (vd_Scope (D:=D) vd)) <$> l).

(** ** Listing *)

(** The lists of the drivers, in the order the answers arrive, and the drivers
    that failed. *)
Fixpoint list_all (ds : list string) : V (list Volume * list string) :=
  match ds with
  | [] => mret ([], [])
  | d :: ds =>
      ls ← st_gets labels;
      r ← st_try (drv (vd_List d));
      '(vols, bad) ← list_all ds;
      match r with
      | inl vs => mret (((λ v, volumeWrapper v (default ∅ (ls !! v_Name v)) (vd_Scope (D:=D) d)) <$> vs) ++ vols, bad)
      | inr _ => mret (vols, d :: bad)
      end
  end.

Definition list_volumes : V (list Volume * list string) :=
  ds ← drv GetAllDrivers;
  '(vols, bad) ← list_all ds;
  ns ← st_gets names;
  mret (vols ++ filter (λ v, v_DriverName v ∈ bad) (map_to_list ns).*2, bad).

(** A volume whose name is cached for another driver is left out. *)
Definition not_conflicting (ns : gmap string Volume) (v : Volume) : bool :=
  match ns !! v_Name v with
  | Some w => bool_decide (v_DriverName w = v_DriverName v)
  | None => true
  end.

Definition List : V (list Volume * list string) :=
  '(vols, bad) ← list_volumes;
  ns ← st_gets names;
  mret (filter (λ v, not_conflicting ns v = true) vols, bad).

(** ** Histories *)

Inductive op :=
| OCreateWithRef (name driverName ref : string) (opts lbls : labels_t)
| OCreate (name driverName : string) (opts lbls : labels_t)
| OGetWithRef (name driverName ref : string)
| OGet (name : string)
| ODereference (v : Volume) (ref : string)
| ORemove (v : Volume).

(** What a call did to the references of a volume. *)
Inductive event :=
| Referenced (name ref : string) | Dereferenced (name ref : string) | Removed (name : string).

Definition exec (o : op) (s : VolumeStore) : list event * outcome verror unit * VolumeStore :=
  match o with
  | OCreateWithRef n d r opts l =>
      match CreateWithRef n d r opts l s with
      | (Ok v, s') => ([Referenced (v_Name v) r], Ok tt, s')
      | (Err e, s') => ([], Err e, s')
      | (Panic m, s') => ([], Panic m, s')
      end
  | OCreate n d opts l =>
      match Create n d opts l s with
      | (Ok v, s') => ([], Ok tt, s')
      | (Err e, s') => ([], Err e, s')
      | (Panic m, s') => ([], Panic m, s')
      end
  | OGetWithRef n d r =>
      match GetWithRef n d r s with
      | (Ok v, s') => ([Referenced (v_Name v) r], Ok tt, s')
      | (Err e, s') => ([], Err e, s')
      | (Panic m, s') => ([], Panic m, s')
      end
  | OGet n =>
      match Get n s with
      | (Ok v, s') => ([], Ok tt, s')
      | (Err e, s') => ([], Err e, s')
      | (Panic m, s') => ([], Panic m, s')
      end
  | ODereference v r => ([Dereferenced (v_Name v) r], Ok tt, (Dereference v r s).2)
  | ORemove v =>
      match Remove v s with
      | (Ok _, s') => ([Removed (v_Name v)], Ok tt, s')
      | (Err e, s') => ([], Err e, s')
      | (Panic m, s') => ([], Panic m, s')
      end
  end.

Fixpoint run (ops : list op) (s : VolumeStore) : list event * VolumeStore :=
  match ops with
  | [] => ([], s)
  | o :: ops => let '(ev, _, s) := exec o s in let '(evs, s) := run ops s in (ev ++ evs, s)
  end.

(** The references to [n] that are not yet given back, from the events. *)
Definition outstanding_step (n : string) (l : list string) (e : event) : list string :=
  match e with
  | Referenced m r => if bool_decide (m = n) && bool_decide (r ≠ "") then l ++ [r] else l
  | Dereferenced m r => if bool_decide (m = n) then filter (λ x, x ≠ r) l else l
  | Removed m => if bool_decide (m = n) then [] else l
  end.

Definition outstanding (n : string) (evs : list event) : list string :=
  foldl (outstanding_step n) [] evs.

(** Actions that leave the references alone. *)
Definition keeps_refs {A} (m : V A) : Prop :=
  ∀ R, hoare (λ s, refs s = R) m (λ _ s, refs s = R) (λ _ s, refs s = R).

Lemma keeps_refs_drv {A} (f : D → outcome string A * D) : keeps_refs (drv f).
Proof. intros R s Hs. unfold drv. by destruct (f (drivers s)) as [[?|?|?] ?]. Qed.
Lemma keeps_refs_db f : keeps_refs (db_update f).
Proof. intros R s Hs. unfold db_update. destruct (db s); [|done]. by destruct (db_io s) as [|[] ?]. Qed.
Lemma keeps_refs_gets {A} (f : VolumeStore → A) : keeps_refs (st_gets f).
Proof. by intros R s Hs. Qed.
Lemma keeps_refs_ret {A} (a : A) : keeps_refs (mret a).
Proof. by intros R s Hs. Qed.
Lemma keeps_refs_fail {A} e : keeps_refs (st_fail (A:=A) e).
Proof. by intros R s Hs. Qed.
Lemma keeps_refs_bind {A B} (m : V A) (k : A → V B) :
  keeps_refs m → (∀ a, keeps_refs (k a)) → keeps_refs (m ≫= k).
Proof. intros Hm Hk R. eapply hoare_bind; [apply Hm|]. intros a. apply Hk. Qed.
Lemma keeps_refs_try {A} (m : V A) : keeps_refs m → keeps_refs (st_try m).
Proof. intros Hm R. apply (hoare_try _ m (λ _ s, refs s = R)). apply Hm. Qed.
Lemma keeps_refs_labels f : keeps_refs (st_modify (λ s, with_labels (f s) s)).
Proof. by intros R s Hs. Qed.

Lemma keeps_refs_probe ds n l : keeps_refs (probe ds n l).
Proof.
  induction ds as [|d ds IH]; simpl; [apply keeps_refs_fail|].
  apply keeps_refs_bind; [apply keeps_refs_try, keeps_refs_drv|]. intros [v|e]; [apply keeps_refs_ret|done].
Qed.

Lemma keeps_refs_getVolume n : keeps_refs (getVolume n).
Proof.
  unfold getVolume. apply keeps_refs_bind; [apply keeps_refs_db|intros _].
  apply keeps_refs_bind; [apply keeps_refs_gets|intros l].
  apply keeps_refs_bind; [apply keeps_refs_gets|intros [v|]].
  - apply keeps_refs_bind; [apply keeps_refs_drv|intros vd].
    apply keeps_refs_bind; [apply keeps_refs_drv|intros vol; apply keeps_refs_ret].
  - apply keeps_refs_bind; [apply keeps_refs_drv|intros ds; apply keeps_refs_probe].
Qed.

Lemma keeps_refs_create_new n d opts l : keeps_refs (create_new n d opts l).
Proof.
  unfold create_new. apply keeps_refs_bind; [apply keeps_refs_drv|intros vd].
  apply keeps_refs_bind; [apply keeps_refs_try, keeps_refs_drv|intros [v|e]; [apply keeps_refs_ret|]].
  apply keeps_refs_bind; [apply keeps_refs_drv|intros v].
  apply keeps_refs_bind; [apply keeps_refs_labels|intros _].
  apply keeps_refs_bind; [apply keeps_refs_db|intros _; apply keeps_refs_ret].
Qed.

Lemma keeps_refs_create n d opts l : keeps_refs (create n d opts l).
Proof.
  unfold create. destruct (IsVolumeNameValid n) as [[]|e|e]; try apply keeps_refs_fail.
  apply keeps_refs_bind; [apply keeps_refs_gets|intros [v|]].
  - case_match; [apply keeps_refs_fail|apply keeps_refs_ret].
  - case_match; [|apply keeps_refs_create_new].
    apply keeps_refs_bind; [apply keeps_refs_try, keeps_refs_getVolume|].
    intros [v|e]; [apply keeps_refs_ret|apply keeps_refs_create_new].
Qed.

(** [setNamed] adds the reference. *)
Lemma setNamed_refs v r s n :
  default [] (refs (setNamed v r s).2 !! n) = outstanding_step n (default [] (refs s !! n)) (Referenced (v_Name v) r).
Proof.
  unfold setNamed, st_modify, outstanding_step. simpl.
  destruct r as [|a r]; simpl; [by rewrite andb_false_r|].
  case_bool_decide; subst; simpl; [by rewrite lookup_insert_eq|by rewrite lookup_insert_ne].
Qed.

(** A lookup or creation followed by [setNamed]. *)
Lemma then_setNamed m r s v s' n :
  keeps_refs m → (m ≫= λ v, setNamed v r ≫= λ _, mret v) s = (Ok v, s') →
  default [] (refs s' !! n) = outstanding_step n (default [] (refs s !! n)) (Referenced (v_Name v) r).
Proof.
  intros Hm. specialize (Hm (refs s) s eq_refl). unfold mbind, ST_bind.
  destruct (m s) as [[w|e|e] s1]; [|done..]. intros E.
  assert (v = w ∧ s' = (setNamed w r s1).2) as [-> ->] by (unfold setNamed, st_modify, mret, ST_ret in *; by simplify_eq).
  rewrite setNamed_refs, Hm. done.
Qed.

Lemma then_setNamed_err m r s e s' :
  keeps_refs m → (m ≫= λ v, setNamed v r ≫= λ _, mret v) s = (Err e, s') → refs s' = refs s.
Proof.
  intros Hm. specialize (Hm (refs s) s eq_refl). unfold mbind, ST_bind.
  destruct (m s) as [[w|e'|e'] s1]; [|by intros [= <- <-]|done].
  unfold setNamed, st_modify. done.
Qed.

Lemma GetWithRef_refs n d r s v s' k :
  GetWithRef n d r s = (Ok v, s') →
  default [] (refs s' !! k) = outstanding_step k (default [] (refs s !! k)) (Referenced (v_Name v) r).
Proof.
  unfold GetWithRef, mbind, ST_bind, drv, st_gets, mret, ST_ret. simpl.
  destruct (GetDriver d (drivers s)) as [[vd|e|e] d1]; [|done..]. simpl.
  destruct (vd_Get vd n d1) as [[w|e|e] d2]; [|done..].
  set (s1 := mkVS _ _ _ _ _ d2). intros E.
  assert (v_Name v = v_Name w ∧ s' = (setNamed w r s1).2) as [-> ->]
    by (unfold setNamed, st_modify in *; by simplify_eq).
  by rewrite setNamed_refs.
Qed.

Lemma GetWithRef_err n d r s e s' : GetWithRef n d r s = (Err e, s') → refs s' = refs s.
Proof.
  unfold GetWithRef, mbind, ST_bind, drv, st_gets, mret, ST_ret. simpl.
  destruct (GetDriver d (drivers s)) as [[vd|e1|e1] d1]; [|by intros [= <- <-]..]. simpl.
  destruct (vd_Get vd n d1) as [[w|e1|e1] d2]; [|by intros [= <- <-]..]. done.
Qed.

Lemma create_no_panic n d r opts l s e s' :
  (create n d opts l ≫= λ v, setNamed v r ≫= λ _, mret v) s ≠ (Panic e, s').
Proof.
  pose proof (keeps_refs_create n d opts l (refs s) s eq_refl) as Hk. unfold mbind, ST_bind.
  by destruct (create n d opts l s) as [[?|?|?] ?].
Qed.

(** A removal that succeeds found no reference. *)
Lemma Remove_Ok v s u s' :
  Remove v s = (Ok u, s') →
  default [] (refs s !! v_Name v) = [] ∧ refs s' = delete (v_Name v) (refs s).
Proof.
  unfold Remove, mbind, ST_bind, st_gets, st_try, drv. simpl.
  destruct (refs s !! v_Name v) as [[|r l]|] eqn:Hr; [| done |].
  all: destruct (GetDriver (v_DriverName v) (drivers s)) as [[vd|e|e] d1]; [|done..]; simpl;
    destruct (vd_Remove vd (unwrapVolume v) d1) as [[w|e|e] d2]; [|done..];
    unfold purge, st_modify; by intros [= <- <-].
Qed.

Lemma Remove_fail v s o s' : Remove v s = (o, s') → is_ok o = false → refs s' = refs s.
Proof.
  unfold Remove, mbind, ST_bind, st_gets, st_try, drv. simpl.
  destruct (refs s !! v_Name v) as [[|r l]|] eqn:Hr; [|by intros [= <- <-]|].
  all: destruct (GetDriver (v_DriverName v) (drivers s)) as [[vd|e1|e1] d1]; simpl; [|by intros [= <- <-]..];
    destruct (vd_Remove vd (unwrapVolume v) d1) as [[w|e1|e1] d2]; by intros [= <- <-].
Qed.

Definition tracked (s : VolumeStore) (evs : list event) : Prop := ∀ n, default [] (refs s !! n) = outstanding n evs.

Lemma outstanding_snoc n evs e : outstanding n (evs ++ [e]) = outstanding_step n (outstanding n evs) e.
Proof. unfold outstanding. by rewrite foldl_app. Qed.

Lemma tracked_same s s' evs : tracked s evs → refs s' = refs s → tracked s' (evs ++ []).
Proof. intros Ht E n. by rewrite app_nil_r, E. Qed.

Lemma exec_tracked o s evs :
  tracked s evs →
  tracked (exec o s).2 (evs ++ (exec o s).1.1) ∧
  ∀ n pre post, (exec o s).1.1 = pre ++ Removed n :: post → outstanding n (evs ++ pre) = [].
Proof.
  intros Ht. destruct o as [n d r opts l|n d opts l|n d r|n|v r|v]; simpl.
  - destruct (CreateWithRef n d r opts l s) as [[v|e|e] s'] eqn:E; simpl; (split; [|by intros ? [|? []] ?]).
    + intros k. rewrite outstanding_snoc, <-Ht. eapply then_setNamed; [apply keeps_refs_create|exact E].
    + eapply tracked_same; [done|]. eapply then_setNamed_err; [apply keeps_refs_create|exact E].
    + exfalso. by apply (create_no_panic n d r opts l s e s').
  - destruct (Create n d opts l s) as [[v|e|e] s'] eqn:E; simpl; (split; [|by intros ? [|? []] ?]).
    + intros k. rewrite app_nil_r, <-Ht.
      erewrite then_setNamed; [|apply keeps_refs_create|exact E]. simpl. by rewrite andb_false_r.
    + eapply tracked_same; [done|]. eapply then_setNamed_err; [apply keeps_refs_create|exact E].
    + exfalso. by apply (create_no_panic n d "" opts l s e s').
  - destruct (GetWithRef n d r s) as [[v|e|e] s'] eqn:E; simpl; (split; [|by intros ? [|? []] ?]).
    + intros k. rewrite outstanding_snoc, <-Ht. by eapply GetWithRef_refs.
    + eapply tracked_same; [done|]. by eapply GetWithRef_err.
    + exfalso. revert E. unfold GetWithRef, mbind, ST_bind, drv, st_gets, mret, ST_ret. simpl.
      repeat case_match; by intros; simplify_eq.
  - destruct (Get n s) as [[v|e|e] s'] eqn:E; simpl; (split; [|by intros ? [|? []] ?]).
    + intros k. rewrite app_nil_r, <-Ht.
      erewrite then_setNamed; [|apply keeps_refs_getVolume|exact E]. simpl. by rewrite andb_false_r.
    + eapply tracked_same; [done|]. eapply then_setNamed_err; [apply keeps_refs_getVolume|exact E].
    + exfalso. pose proof (keeps_refs_getVolume n (refs s) s eq_refl) as Hk.
      unfold Get, mbind, ST_bind in E. by destruct (getVolume n s) as [[?|?|?] ?].
  - split; [|by intros ? [|? []] ?]. intros k. rewrite outstanding_snoc, <-Ht. simpl.
    case_bool_decide; subst; [by rewrite lookup_insert_eq|by rewrite lookup_insert_ne].
  - destruct (Remove v s) as [[u|e|e] s'] eqn:E; simpl.
    + apply Remove_Ok in E as [E1 E2]. split.
      * intros k. rewrite outstanding_snoc, <-Ht, E2. simpl. rewrite lookup_delete.
        case_bool_decide; subst; [by rewrite decide_True|by rewrite decide_False].
      * intros n [|? []] post; [|done..]. intros [= <- <-]. by rewrite app_nil_r, <-Ht.
    + split; [|by intros ? [|? []] ?]. eapply tracked_same; [done|]. by eapply Remove_fail.
    + split; [|by intros ? [|? []] ?]. eapply tracked_same; [done|]. by eapply Remove_fail.
Qed.

Lemma run_tracked ops s evs :
  tracked s evs →
  tracked (run ops s).2 (evs ++ (run ops s).1) ∧
  ∀ n pre post, (run ops s).1 = pre ++ Removed n :: post → outstanding n (evs ++ pre) = [].
Proof.
  revert s evs. induction ops as [|o ops IH]; intros s evs Ht; simpl.
  { rewrite app_nil_r. split; [done|]. by intros n [|] post. }
  destruct (exec_tracked o s evs Ht) as [Ht' Hrem].
  destruct (exec o s) as [[ev out] s1]. simpl in *.
  destruct (IH s1 (evs ++ ev) Ht') as [IH1 IH2]. destruct (run ops s1) as [evs2 s2]. simpl in *.
  rewrite <-app_assoc in IH1. split; [done|]. intros n pre post E.
  apply app_eq_app in E as [l [[-> El]|[-> El]]].
  - destruct l as [|e l]; simpl in El.
    + specialize (IH2 n [] post (eq_sym El)). by rewrite !app_nil_r in IH2.
    + injection El as <- ->. by eapply Hrem.
  - rewrite app_assoc. by eapply IH2.
Qed.
End volumes.

(** ** Properties *)

Section properties.
Context {D : Type} `{!VolumeDrivers D} (IsVolumeNameValid : string → outcome string bool).

(** C19: a volume in use is never removed.  In every history of a store that was
    opened, for every behaviour of the drivers, whatever the database holds and
    whichever of its transactions fail, [Refs] is the list of references taken
    and not given back, and a removal succeeds only when that list is empty. *)
Theorem no_removal_while_referenced (ops : list op) (rootPath : bool) found (io : list bool) (d : D) s0 :
  New rootPath found io d = Ok s0 →
  let '(evs, s) := run IsVolumeNameValid ops s0 in
  (∀ v, Refs v s = outstanding (v_Name v) evs) ∧
  ∀ n pre post, evs = pre ++ Removed n :: post → outstanding n pre = [].
Proof.
  intros Hs0. assert (tracked s0 []) as Ht.
  { intros n. unfold New in Hs0. destruct rootPath; [destruct (existsb _ _)|]; by simplify_eq. }
  destruct (run_tracked IsVolumeNameValid ops _ [] Ht) as [H1 H2].
  destruct (run IsVolumeNameValid ops s0) as [evs s]. split; [intros v; apply H1|apply H2].
Qed.

(** Labels survive: when [Create] makes a new volume and the database works,
    a later [Get] that finds the volume returns it with the labels it was
    created with, whatever the driver. *)
Theorem Create_labels n drv opts l (s s1 s2 : @VolumeStore D) vd d1 e d2 v v2 m :
  names s !! n = None → drv ≠ "" → db s = Some m → db_io s = [] →
  GetDriver drv (drivers s) = (Ok vd, d1) → vd_Get vd n d1 = (Err e, d2) →
  Create IsVolumeNameValid n drv opts l s = (Ok v, s1) → Get n s1 = (Ok v2, s2) →
  (∃ sc, v_wrap v = Some (l, sc)) ∧ ∃ sc, v_wrap v2 = Some (l, sc).
Proof.
  intros Hn Hd Hdb Hio Hdrv Hget. unfold Create, create.
  destruct (IsVolumeNameValid n) as [[]|?|?]; [|done..].
  unfold create_new, mbind, ST_bind, getNamed, st_gets, st_try, VolumeStore.drv. rewrite Hn.
  rewrite bool_decide_eq_false_2 by done.
  rewrite Hdrv. simpl. rewrite Hget. simpl.
  destruct (vd_Create vd n opts d2) as [[w|?|?] d3]; [|done..]. simpl.
  unfold st_modify, db_update. simpl. rewrite Hdb, Hio. unfold setNamed, st_modify, mret, ST_ret. simpl.
  intros [= <- <-]. unfold Get, getVolume, mbind, ST_bind, db_update, st_gets, getNamed. simpl.
  rewrite lookup_insert_eq. simpl. intros E. split; [by eexists|].
  assert (∀ ds (s : @VolumeStore D) o s', probe ds n l s = (o, s') → ∀ v, o = Ok v → ∃ sc, v_wrap v = Some (l, sc)) as Hpr.
  { induction ds as [|d ds IH]; intros s0 o s' Ep v0 ->; [done|]. simpl in Ep.
    unfold mbind, ST_bind, st_try in Ep. destruct (VolumeStore.drv (vd_Get d n) s0) as [[w0|?|?] s00]; [|by eapply IH|done].
    unfold mret, ST_ret in Ep. simplify_eq. by eexists. }
  destruct (decide (v_Name w = n)) as [Hw|Hw].
  - rewrite Hw, lookup_insert_eq in E. unfold VolumeStore.drv, setNamed, st_modify, mret, ST_ret in E.
    simpl in E. repeat (case_match; simplify_eq/=; try done); by eexists.
  - rewrite lookup_insert_ne, Hn in E by done. unfold VolumeStore.drv at 1 in E. simpl in E.
    destruct (GetAllDrivers d3) as [[ds|?|?] d4]; [|done..].
    destruct (probe ds n l _) as [[w0|?|?] s4] eqn:Ep; [|done..].
    destruct (Hpr _ _ _ _ Ep w0 eq_refl) as [sc Hsc]. unfold setNamed, st_modify, mret, ST_ret in E.
    simplify_eq. by exists sc.
Qed.

(** [Remove] of a volume whose driver cannot be found dereferences the nil
    driver to build its error: it panics. *)
Theorem Remove_unknown_driver v (s : @VolumeStore D) e d1 :
  default [] (refs s !! v_Name v) = [] → GetDriver (v_DriverName v) (drivers s) = (Err e, d1) →
  (Remove v s).1 = Panic "nil pointer dereference".
Proof.
  intros Hr Hd. unfold Remove, mbind, ST_bind, st_gets, st_try, VolumeStore.drv. simpl.
  destruct (refs s !! v_Name v) as [[|]|]; simpl in *; [|done|]; by rewrite Hd.
Qed.
End properties.

(** A driver [local] with a set of volumes. *)
#[local] Instance local_driver : VolumeDrivers (gset string) := {|
  GetDriver n d := if bool_decide (n = "") || bool_decide (n = "local") then (Ok "local", d) else (Err "no driver", d);
  GetAllDrivers d := (Ok ["local"], d);
  vd_Get vd n d := if bool_decide (n ∈ d) then (Ok (mkVolume n vd None), d) else (Err "no volume", d);
  vd_Create vd n _ d := (Ok (mkVolume n vd None), {[ n ]} ∪ d);
  vd_Remove _ v d := (Ok tt, d ∖ {[ v_Name v ]});
  vd_List vd d := (Ok ((λ n, mkVolume n vd None) <$> elements d), d);
  vd_Scope _ := "local" |}.

Definition ex_store (io : list bool) : @VolumeStore (gset string) := mkVS ∅ ∅ ∅ (Some ∅) io ∅.

(** The database fails when a volume is to be made, and works the next time; the
    first removal is refused because the volume is in use. *)
Lemma no_removal_while_referenced_witness :
  let v := mkVolume "v" "local" None in
  let ops := [OCreateWithRef "v" "local" "c1" ∅ ∅; OCreateWithRef "v" "local" "c2" ∅ ∅; ORemove v;
              ODereference v "c2"; ORemove v] in
  let '(evs, s) := run (λ _, Ok true) ops (ex_store [true; false]) in
  evs = [Referenced "v" "c2"; Dereferenced "v" "c2"; Removed "v"] ∧
  ∀ n pre post, evs = pre ++ Removed n :: post → outstanding n pre = [].
Proof.
  intros v ops.
  pose proof (no_removal_while_referenced (λ _, Ok true) ops true ∅ [false; false; false; true; false] ∅
    (ex_store [true; false]) eq_refl) as H.
  assert ((run (λ _, Ok true) ops (ex_store [true; false])).1 =
    [Referenced "v" "c2"; Dereferenced "v" "c2"; Removed "v"]) as E by (vm_compute; reflexivity).
  destruct (run (λ _, Ok true) ops (ex_store [true; false])) as [evs s]. split; [exact E|apply H].
Defined.

Lemma Create_labels_witness :
  let l : labels_t := {[ "a" := "b" ]} in
  let r := Create (λ _, Ok true) "v" "local" ∅ l (ex_store []) in
  (∃ sc, v_wrap (mkVolume "v" "local" (Some (l, "local"))) = Some (l, sc)) ∧
  ∃ sc, v_wrap (mkVolume "v" "local" (Some (l, "local"))) = Some (l, sc).
Proof.
  intros l r.
  apply (Create_labels (λ _, Ok true) "v" "local" ∅ l (ex_store []) r.2 (Get "v" r.2).2 "local" ∅ "no volume" ∅ _ _ ∅);
    try (vm_compute; reflexivity). done.
Defined.

Lemma Remove_unknown_driver_witness :
  (Remove (mkVolume "v" "gone" None) (ex_store [])).1 = Panic "nil pointer dereference".
Proof. apply (Remove_unknown_driver (mkVolume "v" "gone" None) _ "no driver" ∅); reflexivity. Defined.
