(* ===== verification/TruncIndex.v ===== *)
(** * pkg/truncindex: identifiers by unique prefix

    Models [src/pkg/truncindex/truncindex.go].  The trie
    ([github.com/tchap/go-patricia]) is third-party code: the class
    [PatriciaTrie] holds the operations used, and [TrieLaws] what their
    documentation promises, that a trie is a set of keys, [Insert] does not
    replace and says whether it inserted, [Delete] says whether it deleted,
    and [VisitSubtree] visits each key that starts with the prefix once.

    The methods take the lock of the index for their whole body, so each is
    one atomic transformer. *)

From S2P Require Import Prelude GoStrings.

Class PatriciaTrie (T : Type) := {
  trie_new : T;
  trie_Insert : string → T → bool * T;
  trie_Delete : string → T → bool * T;
  trie_subtree : string → T → list string;   (* the keys in the order of the visit *)
  trie_keys : T → list string;               (* the order of Visit *)
}.

Class TrieLaws (T : Type) {PT : PatriciaTrie T} := {
  keys_new : trie_keys trie_new = [];
  keys_NoDup t : NoDup (trie_keys t);
  Insert_result k t : (trie_Insert k t).1 = bool_decide (k ∉ trie_keys t);
  Insert_keys k t x : x ∈ trie_keys (trie_Insert k t).2 ↔ x = k ∨ x ∈ trie_keys t;
  Delete_result k t : (trie_Delete k t).1 = bool_decide (k ∈ trie_keys t);
  Delete_keys k t x : x ∈ trie_keys (trie_Delete k t).2 ↔ x ≠ k ∧ x ∈ trie_keys t;
  subtree_NoDup p t : NoDup (trie_subtree p t);
  subtree_keys p t x : x ∈ trie_subtree p t ↔ HasPrefix x p = true ∧ x ∈ trie_keys t;
}.

Inductive error :=
| ErrEmptyPrefix
| ErrIllegalChar
| ErrNotExist
| ErrAmbiguousPrefix (prefix : string)
| ErrIdExists (id : string)
| ErrFailedInsert (id : string)
| ErrNoSuchId (id : string).

Section TruncIndex.
Context {T : Type} {PT : PatriciaTrie T}.

Record TruncIndex := mkIndex { trie : T; ids : gset string }.

Definition addID (id : string) : ST TruncIndex error unit :=
  if ContainsByte " "%char id then st_fail ErrIllegalChar
  else if decide (id = "") then st_fail ErrEmptyPrefix
  else
    idx ← st_get;
    if decide (id ∈ ids idx) then st_fail (ErrIdExists id)
    else
      st_put (mkIndex (trie idx) ({[id]} ∪ ids idx));;
      idx ← st_get;
      let '(inserted, t) := trie_Insert id (trie idx) in
      st_put (mkIndex t (ids idx));;
      if negb inserted then st_fail (ErrFailedInsert id) else mret tt.

(** The errors of the initial identifiers are dropped. *)
Definition NewTruncIndex (l : list string) : TruncIndex :=
  foldl (λ idx id, (addID id idx).2) (mkIndex trie_new ∅) l.

Definition Add (id : string) : ST TruncIndex error unit :=
  r ← st_try (addID id);
  match r with inl _ => mret tt | inr e => st_fail e end.

Definition Delete (id : string) : ST TruncIndex error unit :=
  idx ← st_get;
  if decide (id ∉ ids idx ∨ id = "") then st_fail (ErrNoSuchId id)
  else
    st_put (mkIndex (trie idx) (ids idx ∖ {[id]}));;
    idx ← st_get;
    let '(deleted, t) := trie_Delete id (trie idx) in
    st_put (mkIndex t (ids idx));;
    if negb deleted then st_fail (ErrNoSuchId id) else mret tt.

(** The visitor of [Get], folded over the visit: the variable [id] it
    captures, until it returns an error. *)
Fixpoint subTreeVisit (id : string) (prefixes : list string) : string * option error :=
  match prefixes with
  | [] => (id, None)
  | prefix :: rest =>
      if decide (id ≠ "") then ("", Some (ErrAmbiguousPrefix prefix))
      else subTreeVisit prefix rest
  end.

Definition Get (s : string) (idx : TruncIndex) : outcome error string :=
  if decide (s = "") then Err ErrEmptyPrefix
  else match subTreeVisit "" (trie_subtree s (trie idx)) with
       | (_, Some e) => Err e
       | (id, None) => if decide (id ≠ "") then Ok id else Err ErrNotExist
       end.

Definition Iterate (idx : TruncIndex) : list string := trie_keys (trie idx).

(** ** The set of identifiers *)

(** The trie and the map hold the same identifiers, none of them empty. *)
Definition Inv (idx : TruncIndex) : Prop :=
  (∀ x, x ∈ trie_keys (trie idx) ↔ x ∈ ids idx) ∧ "" ∉ ids idx.

Inductive call := CAdd (id : string) | CDelete (id : string).

Definition exec (c : call) : ST TruncIndex error unit :=
  match c with CAdd id => Add id | CDelete id => Delete id end.

Fixpoint run (cs : list call) (idx : TruncIndex) : list (outcome error unit) * TruncIndex :=
  match cs with
  | [] => ([], idx)
  | c :: cs' =>
      let '(r, idx1) := exec c idx in
      let '(rs, idx2) := run cs' idx1 in (r :: rs, idx2)
  end.

(** The specification: a set of identifiers. *)
Definition spec_exec (c : call) (X : gset string) : outcome error unit * gset string :=
  match c with
  | CAdd id =>
      if ContainsByte " "%char id then (Err ErrIllegalChar, X)
      else if decide (id = "") then (Err ErrEmptyPrefix, X)
      else if decide (id ∈ X) then (Err (ErrIdExists id), X)
      else (Ok tt, {[id]} ∪ X)
  | CDelete id => if decide (id ∈ X) then (Ok tt, X ∖ {[id]}) else (Err (ErrNoSuchId id), X)
  end.

Fixpoint spec_run (cs : list call) (X : gset string) : list (outcome error unit) * gset string :=
  match cs with
  | [] => ([], X)
  | c :: cs' =>
      let '(r, X1) := spec_exec c X in
      let '(rs, X2) := spec_run cs' X1 in (r :: rs, X2)
  end.

(** The identifiers that a prefix stands for. *)
Definition matching (s : string) (X : gset string) : gset string :=
  filter (λ x, HasPrefix x s = true) X.

Context {TL : TrieLaws T}.

Lemma addID_refines id idx :
  Inv idx → (spec_exec (CAdd id) (ids idx)).1 = (addID id idx).1 ∧
            (spec_exec (CAdd id) (ids idx)).2 = ids (addID id idx).2 ∧ Inv (addID id idx).2.
Proof using TL.
  intros [Hk He]. unfold addID; simpl. destruct (ContainsByte _ id); [done|].
  destruct (decide (id = "")) as [->|Hne]; [done|].
  unfold mbind, ST_bind, st_get; simpl. destruct (decide (id ∈ ids idx)) as [Hin|Hin]; [done|].
  simpl. destruct (trie_Insert id (trie idx)) as [b t] eqn:Ei.
  pose proof (Insert_result id (trie idx)) as Hr. pose proof (Insert_keys id (trie idx)) as Hi.
  rewrite Ei in Hr, Hi; simpl in Hr, Hi. rewrite bool_decide_eq_true_2 in Hr by (by rewrite Hk).
  subst b. simpl. unfold Inv; simpl. set_solver.
Qed.

Lemma index_exec_refines c idx :
  Inv idx → spec_exec c (ids idx) = ((exec c idx).1, ids (exec c idx).2) ∧ Inv (exec c idx).2.
Proof using TL.
  intros HI. destruct c as [id|id].
  - destruct (addID_refines id idx HI) as (H1 & H2 & H3).
    unfold exec, Add, st_try, mbind, ST_bind in *. destruct (addID id idx) as [[[]|e|m] idx'];
      destruct (spec_exec _ _); simplify_eq/=; done.
  - destruct HI as [Hk He]. simpl. unfold Delete, mbind, ST_bind, st_get; simpl.
    destruct (decide (id ∈ ids idx)) as [Hin|Hin].
    + rewrite decide_False by set_solver. simpl.
      destruct (trie_Delete id (trie idx)) as [b t] eqn:Ed.
      pose proof (Delete_result id (trie idx)) as Hr. pose proof (Delete_keys id (trie idx)) as Hd.
      rewrite Ed in Hr, Hd; simpl in Hr, Hd. rewrite bool_decide_eq_true_2 in Hr by (by rewrite Hk).
      subst b. simpl. unfold Inv; simpl. set_solver.
    + rewrite decide_True by (by left). done.
Qed.

Lemma index_run_refines cs idx :
  Inv idx → spec_run cs (ids idx) = ((run cs idx).1, ids (run cs idx).2) ∧ Inv (run cs idx).2.
Proof using TL.
  revert idx. induction cs as [|c cs IH]; intros idx HI; simpl; [done|].
  destruct (index_exec_refines c idx HI) as [-> HI1]. destruct (exec c idx) as [r idx1]. simpl in *.
  destruct (IH idx1 HI1) as [-> HI2]. by destruct (run cs idx1).
Qed.

Lemma index_Inv_New l : Inv (NewTruncIndex l).
Proof using TL.
  unfold NewTruncIndex. assert (H : Inv (mkIndex trie_new ∅)).
  { split; simpl; [rewrite keys_new|]; set_solver. }
  revert H. generalize (mkIndex trie_new ∅).
  induction l as [|id l IH]; intros idx HI; simpl; [done|]. apply IH, addID_refines, HI.
Qed.

(** What [Get] answers, by the identifiers visited. *)
Lemma subTreeVisit_spec l :
  "" ∉ l → subTreeVisit "" l = match l with
                               | [] => ("", None)
                               | [x] => (x, None)
                               | _ :: y :: _ => ("", Some (ErrAmbiguousPrefix y))
                               end.
Proof.
  intros Hl. destruct l as [|x [|y l]]; simpl; [done|done|].
  by rewrite decide_True by set_solver.
Qed.

Lemma index_Get_spec s idx :
  Inv idx → s ≠ "" →
  match Get s idx with
  | Ok id => matching s (ids idx) = {[id]}
  | Err ErrNotExist => matching s (ids idx) = ∅
  | Err (ErrAmbiguousPrefix x) => x ∈ matching s (ids idx) ∧ 2 ≤ size (matching s (ids idx))
  | _ => False
  end.
Proof using TL.
  intros [Hk He] Hs. unfold Get. rewrite decide_False by done.
  assert (Hl : ∀ x, x ∈ trie_subtree s (trie idx) ↔ x ∈ matching s (ids idx)).
  { intros x. unfold matching. rewrite subtree_keys, elem_of_filter, Hk. done. }
  pose proof (subtree_NoDup s (trie idx)) as Hnd.
  assert (Hm : matching s (ids idx) = list_to_set (trie_subtree s (trie idx))) by set_solver.
  assert (Hne : "" ∉ trie_subtree s (trie idx)).
  { rewrite Hl. unfold matching. rewrite elem_of_filter. naive_solver. }
  rewrite subTreeVisit_spec, Hm by done. clear Hm Hl.
  destruct (trie_subtree s (trie idx)) as [|x [|y l]]; [done| |].
  - case_decide; [set_solver|]. set_solver.
  - split; [set_solver|]. rewrite size_list_to_set by done. simpl. lia.
Qed.

(** An index is a set of identifiers: any sequence of [Add] and [Delete]
    calls on a new index returns what the set does, and afterwards [Get]
    finds the identifier a prefix stands for exactly when there is one and
    only one, says that there is none exactly when there is none, and
    otherwise, when there are two or more, that the prefix is ambiguous. *)
Theorem index_refines_set (cs : list call) (s : string) :
  spec_run cs ∅ = ((run cs (NewTruncIndex [])).1, ids (run cs (NewTruncIndex [])).2) ∧
  let idx := (run cs (NewTruncIndex [])).2 in
  (∀ id, Get s idx = Ok id ↔ s ≠ "" ∧ matching s (ids idx) = {[id]}) ∧
  (Get s idx = Err ErrNotExist ↔ s ≠ "" ∧ matching s (ids idx) = ∅) ∧
  ((∃ x, Get s idx = Err (ErrAmbiguousPrefix x)) ↔ s ≠ "" ∧ 2 ≤ size (matching s (ids idx))).
Proof using TL.
  destruct (index_run_refines cs (NewTruncIndex []) (index_Inv_New [])) as [H1 H2].
  split; [exact H1|]. intros idx.
  destruct (decide (s = "")) as [->|Hs]; [unfold Get; simpl; naive_solver|].
  pose proof (index_Get_spec s idx H2 Hs) as Hg.
  assert (H0 : matching s (ids idx) = ∅ → ¬ 2 ≤ size (matching s (ids idx))).
  { intros ->. rewrite size_empty. lia. }
  assert (Hx : ∀ x, matching s (ids idx) = {[x]} → ¬ 2 ≤ size (matching s (ids idx))).
  { intros x ->. rewrite size_singleton. lia. }
  destruct (Get s idx) as [id|[]|] eqn:E; try done; naive_solver set_solver.
Qed.

(** The error of an ambiguous prefix does not carry the prefix that was
    asked for but the second identifier found: the field [prefix] of
    [ErrAmbiguousPrefix] is an identifier of the index that extends it. *)
Theorem ambiguous_error_names_an_id (cs : list call) (s x : string) :
  Get s (run cs (NewTruncIndex [])).2 = Err (ErrAmbiguousPrefix x) →
  x ∈ ids (run cs (NewTruncIndex [])).2 ∧ HasPrefix x s = true.
Proof using TL.
  intros E. destruct (decide (s = "")) as [->|Hs]; [done|].
  destruct (index_run_refines cs (NewTruncIndex []) (index_Inv_New [])) as [_ HI].
  pose proof (index_Get_spec s _ HI Hs) as Hg. rewrite E in Hg. destruct Hg as [Hg _].
  unfold matching in Hg. set_solver.
Qed.
End TruncIndex.
Arguments TruncIndex : clear implicits.

(** ** A trie *)

(** A list of strings is a trie in the sense of the laws. *)
#[global] Instance list_trie : PatriciaTrie (list string) := {|
  trie_new := [];
  trie_Insert k l := if decide (k ∈ l) then (false, l) else (true, k :: l);
  trie_Delete k l := (bool_decide (k ∈ l), filter (λ x, x ≠ k) l);
  trie_subtree p l := filter (λ x, HasPrefix x p = true) (remove_dups l);
  trie_keys l := remove_dups l;
|}.

#[global] Instance list_trie_laws : TrieLaws (list string).
Proof.
  split; simpl.
  - done.
  - intros t. apply NoDup_remove_dups.
  - intros k t. case_decide as H; simpl; symmetry;
      [apply bool_decide_eq_false_2|apply bool_decide_eq_true_2]; rewrite elem_of_remove_dups; naive_solver.
  - intros k t x. rewrite !elem_of_remove_dups. case_decide; simpl; set_solver.
  - intros k t. apply bool_decide_ext. by rewrite elem_of_remove_dups.
  - intros k t x. rewrite !elem_of_remove_dups, list_elem_of_filter. done.
  - intros p t. apply NoDup_filter, NoDup_remove_dups.
  - intros p t x. rewrite list_elem_of_filter. done.
Qed.

Lemma index_refines_set_witness :
  TrieLaws (list string) ∧
  Get (T := list string) "ab" (run [CAdd "abc"; CAdd "abd"; CDelete "abc"] (NewTruncIndex [])).2 = Ok "abd".
Proof.
  split; [apply _|].
  apply (index_refines_set (T := list string) [CAdd "abc"; CAdd "abd"; CDelete "abc"] "ab").
  split; [discriminate|]. vm_compute. reflexivity.
Defined.

Lemma ambiguous_error_names_an_id_witness :
  "abc" ∈ ids (run (T := list string) [CAdd "abc"; CAdd "abd"] (NewTruncIndex [])).2.
Proof.
  apply (ambiguous_error_names_an_id (T := list string) [CAdd "abc"; CAdd "abd"] "ab" "abc").
  vm_compute. reflexivity.
Defined.
