(* ===== verification/ContainerNames.v ===== *)
(** * daemon: the names of containers

    Models [src/daemon/names.go] (choosing, validating and reserving names),
    [src/daemon/rename.go] ([ContainerRename]) and the look-ups of
    [src/daemon/container.go], on the name registrar ([Registrar.v]) and the
    index of identifiers ([TruncIndex.v]).

    What the world decides is an argument: the random names drawn, the result
    of each write of a container's configuration, the answer of the network
    controller and, for [ContainerRename], what other requests do to the name
    table after it has released the old name and before it ends.

    Shown: a name that is handed out is reserved to the identifier it is
    handed out for, and no other reservation changes; a rename that fails
    alone leaves the names as they were; one that succeeds moves the
    reservation; and a rename that fails while another request takes the old
    name leaves two containers with one name. *)

From S2P Require Import Prelude GoStrings TruncIndex Registrar.

Inductive error :=
| ErrInvalidName (name : string)
| ErrConflict (name id : string)
| ErrReserving (name : string) (e : Registrar.error)
| ErrRegistrar (e : Registrar.error)
| ErrIndex (e : TruncIndex.error)
| ErrNoName
| ErrNoSuchContainer (name : string)
| ErrNoEntity (name : string)
| ErrEmptyNames
| ErrSameName
| ErrAllocating (e : error)
| ErrAlreadyLoaded
| ErrEmptyID
| ErrWrite
| ErrNetwork.

(** The fields of [container.Container] that naming reads and writes. *)
Record container := mkContainer {
  cID : string;
  cName : string;
  IsAnonymousEndpoint : bool;
  Running : bool;
}.

(** [ToDisk] writes the configuration and then the host configuration: the
    second write can fail after the first has been committed. *)
Inductive write_result := WriteOk | WriteFail | WritePartial.

(** [netController] is nil, [SandboxByID] fails, [sb.Rename] fails, or it
    succeeds. *)
Inductive net_result := NoController | SandboxError | RenameError | RenameOk.

(** What happens around a [ContainerRename]. *)
Record env := mkEnv {
  toDisk : write_result;       (* of the write of the new name *)
  toDisk_undo : write_result;  (* of the write of the old name after a failure *)
  network : net_result;
  others : Registrar → Registrar;
}.

(** *** Characters of names *)

Definition alnum (a : ascii) : bool :=
  let n := byte_val a in
  (in_range 48 57 n || in_range 65 90 n || in_range 97 122 n)%N.

Definition name_char (a : ascii) : bool :=
  alnum a || bool_decide (a = "_"%char ∨ a = "."%char ∨ a = "-"%char).

Fixpoint all_chars (P : ascii → bool) (s : string) : bool :=
  match s with "" => true | String a s' => P a && all_chars P s' end.

(** [^/?[a-zA-Z0-9][a-zA-Z0-9_.-]+$] *)
Definition validContainerNamePattern (name : string) : bool :=
  let body := match name with String "/" s => s | s => s end in
  match body with
  | String a (String b s) => alnum a && name_char b && all_chars name_char s
  | _ => false
  end.

(** [if name[0] != '/' { name = "/" + name }], on a name that is not empty. *)
Definition with_slash (name : string) : string :=
  match name with String "/" _ => name | _ => String "/" name end.

(** [stringid.TruncateID]. *)
Definition TruncateID (id : string) : string :=
  let id := match Cut ":"%char id with (_, Some rest) => rest | (_, None) => id end in
  String.substring 0 12 id.

Section daemon.
Context {T : Type} {PT : PatriciaTrie T}.

Record daemon := mkDaemon {
  nameIndex : Registrar;
  idIndex : TruncIndex T;
  containers : gmap string container;
  disk : gmap string container;
  eventlog : list (string * string);   (* rename events: container, old name *)
}.

Definition set_names (f : Registrar → Registrar) : ST daemon error unit := st_modify (λ d,
  mkDaemon (f (nameIndex d)) (idIndex d) (containers d) (disk d) (eventlog d)).

Definition nameIndex_Reserve (name id : string) : ST daemon error (option Registrar.error) := λ d,
  let '(e, r) := Registrar.Reserve name id (nameIndex d) in
  (Ok e, mkDaemon r (idIndex d) (containers d) (disk d) (eventlog d)).

Definition reserveName (id name : string) : ST daemon error string :=
  if negb (validContainerNamePattern name) then st_fail (ErrInvalidName name)
  else
    let name := with_slash name in
    e ← nameIndex_Reserve name id;
    match e with
    | None => mret name
    | Some ErrNameReserved =>
        r ← st_gets (λ d, Registrar.Get name (nameIndex d));
        match r with
        | Ok id' => st_fail (ErrConflict name id')
        | Err e => st_fail (ErrRegistrar e)
        | Panic m => st_panic m
        end
    | Some e => st_fail (ErrReserving name e)
    end.

Definition releaseName (name : string) : ST daemon error unit :=
  set_names (Registrar.Release name).

(** The loop of [generateNewName] from turn [i], with [n] turns left; [rand]
    is [namesgenerator.GetRandomName]. *)
Fixpoint generateNewName_loop (rand : nat → string) (id : string) (i n : nat) : ST daemon error string :=
  match n with
  | 0 =>
      let name := String "/" (TruncateID id) in
      e ← nameIndex_Reserve name id;
      match e with None => mret name | Some e => st_fail (ErrRegistrar e) end
  | S n' =>
      if decide (rand i = "") then st_panic "index out of range"
      else
        let name := with_slash (rand i) in
        e ← nameIndex_Reserve name id;
        match e with
        | None => mret name
        | Some ErrNameReserved => generateNewName_loop rand id (S i) n'
        | Some e => st_fail (ErrRegistrar e)
        end
  end.

Definition generateNewName (rand : nat → string) (id : string) : ST daemon error string :=
  generateNewName_loop rand id 0 6.

(** [id] is the identifier that [stringid.GenerateNonCryptoID] gave. *)
Definition generateIDAndName (rand : nat → string) (id name : string) : ST daemon error (string * string) :=
  if decide (name = "") then
    name ← generateNewName rand id; mret (id, name)
  else
    name ← reserveName id name; mret (id, name).

Definition validateID (id : string) : option error :=
  if decide (id = "") then Some ErrEmptyID else None.

(** ** Look-ups *)

Definition GetByName (name : string) (d : daemon) : outcome error string :=
  if decide (name = "") then Err ErrNoName
  else
    match Registrar.Get (with_slash name) (nameIndex d) with
    | Ok id => match containers d !! id with
               | Some _ => Ok id
               | None => Err (ErrNoEntity id)
               end
    | _ => Err (ErrNoEntity name)
    end.

(** The container is given by its key in the map; [None] is the nil pointer
    that the last line returns for an identifier that is in the index and
    not in the map. *)
Definition GetContainer (prefixOrName : string) (d : daemon) : outcome error (option string) :=
  if decide (prefixOrName = "") then Err ErrNoName
  else match containers d !! prefixOrName with
  | Some _ => Ok (Some prefixOrName)
  | None =>
      match GetByName prefixOrName d with
      | Ok id => Ok (Some id)
      | _ =>
          match TruncIndex.Get prefixOrName (idIndex d) with
          | Ok id => Ok (match containers d !! id with Some _ => Some id | None => None end)
          | Err ErrNotExist => Err (ErrNoSuchContainer prefixOrName)
          | Err e => Err (ErrIndex e)
          | Panic m => Panic m
          end
      end
  end.

Definition Exists (id : string) (d : daemon) : bool :=
  match GetContainer id d with Ok (Some _) => true | _ => false end.

(** ** Registration *)

Definition Register (c : container) : ST daemon error unit := st_modify (λ d,
  mkDaemon (nameIndex d) (TruncIndex.Add (cID c) (idIndex d)).2
           (<[cID c := c]> (containers d)) (disk d) (eventlog d)).

Definition ToDisk (r : write_result) (c : container) : ST daemon error unit := λ d,
  let written := mkDaemon (nameIndex d) (idIndex d) (containers d) (<[cID c := c]> (disk d)) (eventlog d) in
  match r with
  | WriteOk => (Ok tt, written)
  | WriteFail => (Err ErrWrite, d)
  | WritePartial => (Err ErrWrite, written)
  end.

(** The container is not in the daemon yet: the call returns it, with the
    name it was given.  The error of the write is only logged. *)
Definition registerName (rand : nat → string) (wr : write_result) (c : container) : ST daemon error container :=
  loaded ← st_gets (Exists (cID c));
  if (loaded : bool) then st_fail ErrAlreadyLoaded
  else match validateID (cID c) with
  | Some e => st_fail e
  | None =>
      c ← (if decide (cName c = "") then
             name ← generateNewName rand (cID c);
             let c := mkContainer (cID c) name (IsAnonymousEndpoint c) (Running c) in
             st_try (ToDisk wr c);; mret c
           else mret c);
      e ← nameIndex_Reserve (cName c) (cID c);
      match e with None => mret c | Some e => st_fail (ErrRegistrar e) end
  end.

(** ** Renaming *)

Definition get_container (id : string) : ST daemon error container := λ d,
  match containers d !! id with
  | Some c => (Ok c, d)
  | None => (Panic "invalid memory address or nil pointer dereference", d)
  end.

Definition set_name (id name : string) (anonymous : bool) : ST daemon error unit :=
  c ← get_container id;
  st_modify (λ d, mkDaemon (nameIndex d) (idIndex d)
    (<[id := mkContainer (cID c) name anonymous (Running c)]> (containers d)) (disk d) (eventlog d)).

Definition log_rename (id oldName : string) : ST daemon error unit := st_modify (λ d,
  mkDaemon (nameIndex d) (idIndex d) (containers d) (disk d) (eventlog d ++ [(id, oldName)])).

(** [defer func() { if err != nil { undo } }()] around the rest of the body. *)
Definition on_error {A} (undo : ST daemon error unit) (m : ST daemon error A) : ST daemon error A :=
  r ← st_try m;
  match r with
  | inl a => mret a
  | inr e => undo;; st_fail e
  end.

Definition rename_sandbox (E : env) : ST daemon error unit :=
  match network E with
  | NoController | RenameOk => mret tt
  | SandboxError | RenameError => st_fail ErrNetwork
  end.

(** The first deferred function. *)
Definition rename_rollback (key id oldName newName : string) (anonymous : bool) : ST daemon error unit :=
  set_name key oldName anonymous;;
  st_try (reserveName id oldName);;
  releaseName newName.

(** The body that the first deferred function guards: from the
    release of the old name to the end. *)
Definition rename_body (E : env) (key : string) (c : container) (oldName : string) : ST daemon error unit :=
  releaseName oldName;;
  set_names (others E);;
  (c ← get_container key; ToDisk (toDisk E) c);;
  if negb (Running c) then log_rename (cID c) oldName
  else
    on_error
      (set_name key oldName (IsAnonymousEndpoint c);;
       (c ← get_container key; st_try (ToDisk (toDisk_undo E) c));;
       mret tt)
      (rename_sandbox E;; log_rename (cID c) oldName).

Definition ContainerRename (E : env) (oldName newName : string) : ST daemon error unit :=
  if decide (oldName = "" ∨ newName = "") then st_fail ErrEmptyNames
  else
    let newName := with_slash newName in
    found ← st_gets (GetContainer oldName);
    match found with
    | Err e => st_fail e
    | Panic m => st_panic m
    | Ok None => st_panic "invalid memory address or nil pointer dereference"
    | Ok (Some key) =>
        c ← get_container key;
        let oldName := cName c in
        let oldIsAnonymousEndpoint := IsAnonymousEndpoint c in
        if decide (oldName = newName) then st_fail ErrSameName
        else
          r ← st_try (reserveName (cID c) newName);
          match r with
          | inr e => st_fail (ErrAllocating e)
          | inl newName =>
              set_name key newName false;;
              on_error
                (rename_rollback key (cID c) oldName newName oldIsAnonymousEndpoint)
                (rename_body E key c oldName)
          end
    end.

(** ** Names that are handed out *)

Abbreviation owners d := (names (nameIndex d)).

(** The rest of the daemon, which the functions on names do not touch. *)
Definition same_but_names (d d' : daemon) : Prop :=
  idIndex d' = idIndex d ∧ containers d' = containers d ∧ disk d' = disk d ∧ eventlog d' = eventlog d.

(** The name is reserved to [id], and nothing else changed; or it was
    refused, and nothing changed. *)
Definition name_given (id : string) (d : daemon) (r : outcome error string) (d' : daemon) : Prop :=
  same_but_names d d' ∧ Inv (nameIndex d') ∧
  match r with
  | Ok name => (owners d !! name = None ∨ owners d !! name = Some id) ∧
               owners d' = <[name := id]> (owners d) ∧ HasPrefix name "/" = true
  | Err _ => d' = d
  | Panic _ => False
  end.

Lemma Reserve_cases name id d :
  Inv (nameIndex d) →
  match nameIndex_Reserve name id d with
  | (Ok None, d') => (owners d !! name = None ∨ owners d !! name = Some id) ∧
                     owners d' = <[name := id]> (owners d) ∧ Inv (nameIndex d') ∧ same_but_names d d'
  | (Ok (Some e), d') => e = ErrNameReserved ∧ d' = d ∧ ∃ k, owners d !! name = Some k ∧ k ≠ id
  | _ => False
  end.
Proof.
  intros HI. unfold nameIndex_Reserve. pose proof (Inv_Reserve name id _ HI) as HI'.
  pose proof (exec_refines (CReserve name id) _ HI) as Hx. simpl in Hx.
  unfold Reserve in *. destruct (names (nameIndex d) !! name) as [k|] eqn:E.
  - destruct (decide (k ≠ id)) as [Hne|Heq]; [by destruct d; eauto|].
    apply dec_stable in Heq as ->. rewrite insert_id by done.
    split_and!; [by right|done|done|done].
  - simpl in *. by split_and!; [left|..].
Qed.

Lemma HasPrefix_nil s : HasPrefix s "" = true.
Proof. by destruct s. Qed.

Lemma with_slash_prefix name : HasPrefix (with_slash name) "/" = true.
Proof. destruct name as [|a s]; [done|]. by destruct a as [[] [] [] [] [] [] [] []], s. Qed.

Lemma with_slash_idem name : with_slash (with_slash name) = with_slash name.
Proof. destruct name as [|a s]; [done|]. by destruct a as [[] [] [] [] [] [] [] []]. Qed.

Lemma reserveName_gives id name d :
  Inv (nameIndex d) → name_given id d (reserveName id name d).1 (reserveName id name d).2.
Proof.
  intros HI. unfold reserveName. destruct (validContainerNamePattern name); simpl; [|done].
  pose proof (Reserve_cases (with_slash name) id d HI) as Hc. unfold mbind, ST_bind.
  destruct (nameIndex_Reserve (with_slash name) id d) as [[[e|]|e|m] d'] eqn:E; [| |done..].
  - destruct Hc as (-> & -> & k & Hk & ?). unfold st_gets, Registrar.Get. by rewrite Hk.
  - destruct Hc as (? & ? & ? & ?). unfold name_given; simpl.
    split_and!; auto using with_slash_prefix.
Qed.

Lemma generateNewName_gives rand id i n d :
  Inv (nameIndex d) → (∀ j, rand j ≠ "") →
  let '(r, d') := generateNewName_loop rand id i n d in name_given id d r d'.
Proof.
  intros HI Hr. revert i. induction n as [|n IH]; intros i; simpl.
  - pose proof (Reserve_cases (String "/" (TruncateID id)) id d HI) as Hc. unfold mbind, ST_bind.
    destruct (nameIndex_Reserve _ id d) as [[[e|]|e|m] d'] eqn:E; [| |done..].
    + by destruct Hc as (-> & -> & _).
    + destruct Hc as (? & ? & ? & ?). unfold name_given; simpl.
      split_and!; auto using HasPrefix_nil.
  - rewrite decide_False by done.
    pose proof (Reserve_cases (with_slash (rand i)) id d HI) as Hc. unfold mbind, ST_bind.
    destruct (nameIndex_Reserve _ id d) as [[[e|]|e|m] d'] eqn:E; [| |done..].
    + destruct Hc as (-> & -> & _). apply IH.
    + destruct Hc as (? & ? & ? & ?). unfold name_given; simpl.
    split_and!; auto using with_slash_prefix.
Qed.

(** Creating a container's identifier and name hands out a name that is
    reserved, in the name table, to that identifier and was not reserved to
    another one before; it starts with a slash; no other reservation changes.
    A refusal leaves the daemon as it was.  This holds whatever names the
    generator draws, for a name that is asked for and for one that is made. *)
Theorem generateIDAndName_reserves (rand : nat → string) (id name : string) (d : daemon) :
  Inv (nameIndex d) → (∀ j, rand j ≠ "") →
  let '(r, d') := generateIDAndName rand id name d in
  same_but_names d d' ∧ Inv (nameIndex d') ∧
  match r with
  | Ok (id', name') =>
      id' = id ∧ (∀ k, owners d !! name' = Some k → k = id) ∧
      owners d' = <[name' := id]> (owners d) ∧ HasPrefix name' "/" = true
  | Err _ => d' = d
  | Panic _ => False
  end.
Proof.
  intros HI Hr. unfold generateIDAndName, mbind, ST_bind. case_decide.
  - pose proof (generateNewName_gives rand id 0 6 d HI Hr) as Hg.
    unfold generateNewName. destruct (generateNewName_loop rand id 0 6 d) as [[n|e|m] d'];
      destruct Hg as (? & ? & ?); [|done..]. naive_solver congruence.
  - pose proof (reserveName_gives id name d HI) as Hg.
    destruct (reserveName id name d) as [[n|e|m] d']; destruct Hg as (? & ? & ?); [|done..].
    naive_solver congruence.
Qed.

(** ** Renaming *)

(** The container [key] is known to the daemon and owns its name. *)
Record named (d : daemon) (key : string) (c : container) : Prop := {
  named_inv : Inv (nameIndex d);
  named_container : containers d !! key = Some c;
  named_id : cID c = key;
  named_owner : owners d !! cName c = Some key;
  named_valid : validContainerNamePattern (cName c) = true;
  named_slash : with_slash (cName c) = cName c;
}.

Definition renamed (c : container) (name : string) : container :=
  mkContainer (cID c) name false (Running c).

Definition with_names (r : Registrar) (d : daemon) : daemon :=
  mkDaemon r (idIndex d) (containers d) (disk d) (eventlog d).

Lemma names_Release name r : Inv r → names (Release name r) = delete name (names r).
Proof. intros HI. pose proof (exec_refines (CRelease name) r HI) as H. simpl in H. congruence. Qed.

Lemma reserveName_free id name d :
  validContainerNamePattern name = true → with_slash name = name → owners d !! name = None →
  reserveName id name d = (Ok name, with_names (Reserve name id (nameIndex d)).2 d) ∧
  names (Reserve name id (nameIndex d)).2 = <[name := id]> (owners d).
Proof.
  intros Hv Hs Hn. unfold reserveName, mbind, ST_bind, nameIndex_Reserve. rewrite Hv. simpl. rewrite Hs.
  unfold Reserve. by rewrite Hn.
Qed.

(** The first deferred function, from the state in which the new name has
    been reserved and the old one released. *)
Lemma rename_undo d d1 key c c1 newName :
  named d key c → owners d !! newName = None → newName ≠ cName c →
  Inv (nameIndex d1) → owners d1 = delete (cName c) (<[newName := key]> (owners d)) →
  containers d1 = <[key := c1]> (containers d) → cID c1 = key → Running c1 = Running c →
  ∃ r, rename_rollback key key (cName c) newName (IsAnonymousEndpoint c) d1 =
       (Ok tt, mkDaemon r (idIndex d1) (containers d) (disk d1) (eventlog d1)) ∧
       names r = owners d ∧ Inv r.
Proof.
  intros [HI Hc Hid Ho Hv Hs] Hnew Hne HI1 Ho1 Hc1 Hid1 Hr1.
  unfold rename_rollback, set_name, get_container, st_modify, st_try, mbind, ST_bind.
  rewrite Hc1, lookup_insert_eq; simpl. set (d2 := mkDaemon _ _ _ _ _).
  destruct (reserveName_free key (cName c) d2) as [-> Hn]; [done|done|simpl; rewrite Ho1; by rewrite lookup_delete_eq|].
  simpl. unfold releaseName, set_names, st_modify; simpl. eexists. split_and!.
  - unfold with_names; simpl. rewrite Hc1, insert_insert_eq.
    replace (mkContainer (cID c1) (cName c) (IsAnonymousEndpoint c) (Running c1)) with c
      by (destruct c; simpl in *; congruence).
    by rewrite (insert_id (containers d) key c).
  - rewrite names_Release by (by apply Inv_Reserve). simpl in Hn. rewrite Hn, Ho1.
    rewrite insert_delete_eq. rewrite insert_insert_ne by done.
    rewrite (insert_id (owners d) (cName c)) by done. by apply delete_insert_id.
  - apply Inv_Release, Inv_Reserve, HI1.
Qed.

Lemma rename_body_cases E d key c c1 r1 :
  (∀ r, others E r = r) → named d key c → cID c1 = key → Running c1 = Running c → disk d !! key = Some c →
  let d1 := mkDaemon r1 (idIndex d) (<[key := c1]> (containers d)) (disk d) (eventlog d) in
  let r2 := Release (cName c) r1 in
  match rename_body E key c (cName c) d1 with
  | (Ok _, d') => d' = mkDaemon r2 (idIndex d) (<[key := c1]> (containers d)) (<[key := c1]> (disk d))
                               (eventlog d ++ [(key, cName c)])
  | (Err _, d') => ∃ c' dk, d' = mkDaemon r2 (idIndex d) (<[key := c']> (containers d)) dk (eventlog d) ∧
                   cID c' = key ∧ Running c' = Running c ∧
                   (toDisk E ≠ WritePartial → toDisk_undo E ≠ WriteFail → dk = disk d)
  | (Panic _, _) => False
  end.
Proof.
  intros Ho [HI Hc Hid _ _ _] Hid1 Hr1 Hd d1 r2.
  assert (Hback : mkContainer (cID c1) (cName c) (IsAnonymousEndpoint c) (Running c1) = c)
    by (destruct c; simpl in *; congruence).
  unfold rename_body, releaseName, set_names, on_error, set_name, get_container, st_modify, st_try, mbind, ST_bind.
  simpl. rewrite Ho, lookup_insert_eq. fold r2. unfold ToDisk at 1 2.
  destruct (toDisk E); simpl; [|by eexists c1, _; split_and!|by eexists c1, _; split_and!].
  rewrite Hid1. destruct (Running c) eqn:Er; simpl; [|by rewrite Hid].
  unfold rename_sandbox. destruct (network E); simpl; [by rewrite Hid| | |by rewrite Hid];
    rewrite lookup_insert_eq; simpl; rewrite lookup_insert_eq, Hback, insert_insert_eq; unfold ToDisk;
    destruct (toDisk_undo E); simpl; eexists c, _; (split; [done|]); split_and!; try done;
    intros _ _; by rewrite Hid, insert_insert_eq, insert_id.
Qed.

(** C20: a rename is all or nothing.  When no other request interferes, a
    rename that succeeds moves the reservation from the old name to the new
    one, in the name table, in the container and on disk, and logs it; a
    rename that fails, wherever it does, leaves every reservation, every
    container and the event log as they were; and the disk too, except when
    the write that failed had already replaced the configuration, or when
    writing the old name back fails as well. *)
Theorem rename_atomic (E : env) (oldName newName : string) (d : daemon) (key : string) (c : container) :
  (∀ r, others E r = r) → named d key c → GetContainer oldName d = Ok (Some key) →
  disk d !! key = Some c →
  (owners d !! with_slash newName = Some key → with_slash newName = cName c) →
  let '(r, d') := ContainerRename E oldName newName d in
  let new := with_slash newName in
  Inv (nameIndex d') ∧
  match r with
  | Ok _ =>
      owners d' = <[new := key]> (delete (cName c) (owners d)) ∧
      containers d' = <[key := renamed c new]> (containers d) ∧
      disk d' = <[key := renamed c new]> (disk d) ∧
      eventlog d' = eventlog d ++ [(key, cName c)]
  | Err _ =>
      owners d' = owners d ∧ containers d' = containers d ∧ eventlog d' = eventlog d ∧
      (toDisk E ≠ WritePartial → toDisk_undo E ≠ WriteFail → disk d' = disk d)
  | Panic _ => False
  end.
Proof.
  intros Ho Hn Hg Hdisk Hown. pose proof Hn as [HI Hc Hid Hc_own Hv Hs].
  unfold ContainerRename, st_gets, mbind, ST_bind. case_decide as He; [done|].
  rewrite Hg. unfold get_container at 1. rewrite Hc. case_decide as Hsame; [done|].
  set (new := with_slash newName) in *.
  pose proof (reserveName_gives (cID c) new d HI) as Hr. unfold st_try at 1.
  destruct (reserveName (cID c) new d) as [[n|e|m] d1] eqn:Er; cbn in Hr;
    [|destruct Hr as (_ & _ & ->); by split_and!|by destruct Hr as (_ & _ & [])].
  assert (n = new) as ->.
  { unfold reserveName, mbind, ST_bind in Er. destruct (negb _); [done|].
    destruct (nameIndex_Reserve _ _ _) as [[[[]|]|?|?] ?]; try done; cycle 1.
    { injection Er as <- _. apply with_slash_idem. }
    unfold st_gets in Er. by destruct (Registrar.Get _ _). }
  destruct Hr as ((Hi1 & Hc1 & Hd1 & He1) & HI1 & Hfree & Hown1 & _). simpl in *.
  assert (owners d !! new = None) as Hnew by (destruct Hfree as [|Hf]; [done|]; rewrite Hid in Hf; exfalso; apply Hsame; symmetry; auto).
  unfold set_name at 1, get_container at 1, st_modify at 1, mbind at 1, ST_bind at 1. rewrite Hc1, Hc.
  fold (renamed c new). rewrite Hi1, Hd1, He1. simpl.
  pose proof (rename_body_cases E d key c (renamed c new) (nameIndex d1) Ho Hn Hid eq_refl Hdisk) as Hb.
  simpl in Hb. unfold on_error.
  assert (HR : names (Release (cName c) (nameIndex d1)) = delete (cName c) (<[new := key]> (owners d))).
  { rewrite names_Release, Hown1 by done. by rewrite Hid. }
  unfold st_try, mbind, ST_bind. rewrite Hc1. destruct (rename_body E key c (cName c) _) as [[[]|e|m] d2]; [| |done].
  - subst d2. simpl. split_and!; eauto using Inv_Release. rewrite HR. by apply delete_insert_ne.
  - destruct Hb as (c' & dk & -> & Hid' & Hr' & Hdk).
    edestruct (rename_undo d (mkDaemon (Release (cName c) (nameIndex d1)) (idIndex d) (<[key := c']> (containers d)) dk (eventlog d)) key c c' new)
      as (r & Hu & Hnr & HIr); eauto using Inv_Release.
    rewrite Hid, Hu. simpl. by split_and!.
Qed.

(** The old name is released before the rename is sure to succeed.  When
    another request reserves it in between and the write then fails, the
    rollback gives the container its old name back and fails, silently, to
    reserve it: the container keeps a name that the name table gives to the
    other one, and owns no name. *)
Theorem rename_race (E : env) (oldName newName other : string) (d : daemon) (key : string) (c : container) :
  named d key c → GetContainer oldName d = Ok (Some key) → newName ≠ "" →
  owners d !! with_slash newName = None → validContainerNamePattern (with_slash newName) = true →
  other ≠ key → (∀ r, others E r = (Reserve (cName c) other r).2) → toDisk E = WriteFail →
  (∀ name, owners d !! name = Some key → name = cName c) →
  let '(r, d') := ContainerRename E oldName newName d in
  r = Err ErrWrite ∧ containers d' !! key = Some c ∧ owners d' !! cName c = Some other ∧
  ∀ name, owners d' !! name ≠ Some key.
Proof.
  intros [HI Hc Hid Ho Hv Hs] Hg Hne Hnew Hnv Hother Hoth Hw Honly.
  set (new := with_slash newName) in *.
  assert (Hdiff : cName c ≠ new) by congruence.
  assert (Hold : oldName ≠ "") by (intros ->; by unfold GetContainer in Hg).
  unfold ContainerRename. rewrite decide_False by naive_solver. fold new.
  unfold st_gets, mbind, ST_bind. rewrite Hg. unfold get_container at 1. rewrite Hc.
  rewrite decide_False by done. rewrite Hid.
  destruct (reserveName_free key new d) as [Hr Hn1]; [done|apply with_slash_idem|done|].
  unfold st_try at 1. rewrite Hr. unfold on_error, rename_body, rename_rollback, set_name, get_container,
    releaseName, set_names, st_modify, st_try, mbind, ST_bind; simpl. rewrite Hc; simpl.
  rewrite lookup_insert_eq, Hw; simpl. rewrite lookup_insert_eq; simpl.
  set (r1 := (Reserve new key (nameIndex d)).2) in *.
  set (r2 := others E (Release (cName c) r1)).
  assert (HI1 : Inv r1) by (by apply Inv_Reserve).
  assert (Hr2 : names r2 = <[cName c := other]> (delete (cName c) (<[new := key]> (owners d)))).
  { unfold r2. rewrite Hoth. pose proof (names_Release (cName c) r1 HI1) as HR. rewrite Hn1 in HR.
    unfold Reserve. rewrite HR. by rewrite lookup_delete_eq. }
  assert (HI2 : Inv r2) by (unfold r2; rewrite Hoth; by apply Inv_Reserve, Inv_Release).
  set (d3 := mkDaemon r2 _ _ _ _).
  assert (Hcf : reserveName key (cName c) d3 = (Err (ErrConflict (cName c) other), d3)).
  { unfold reserveName, nameIndex_Reserve, mbind, ST_bind. rewrite Hv; simpl. rewrite Hs.
    unfold Reserve, Registrar.Get, st_gets. simpl. by rewrite Hr2, lookup_insert_eq, decide_True; simpl;
      rewrite ?Hr2, ?lookup_insert_eq. }
  rewrite Hcf; simpl. split_and!; [done| | |].
  - rewrite insert_insert_eq, lookup_insert_eq. by destruct c.
  - rewrite names_Release, Hr2 by done. by rewrite lookup_delete_ne, lookup_insert_eq.
  - intros name. rewrite names_Release, Hr2, insert_delete_eq by done. intros Hk.
    apply lookup_delete_Some in Hk as [Hk1 Hk]. apply lookup_insert_Some in Hk as [[_ ?]|[Hk2 Hk]]; [done|].
    apply lookup_insert_Some in Hk as [[? _]|[_ Hk]]; [done|]. by apply Hk2, eq_sym, Honly.
Qed.
End daemon.
Arguments daemon : clear implicits.

(** ** Witnesses *)

Definition ex_container : container := mkContainer "id1" "/old" false true.

Definition ex_daemon : daemon (list string) :=
  mkDaemon (Reserve "/old" "id1" NewRegistrar).2 (NewTruncIndex ["id1"])
           {["id1" := ex_container]} {["id1" := ex_container]} [].

Lemma ex_named : named ex_daemon "id1" ex_container.
Proof. split; try (vm_compute; reflexivity). apply Inv_Reserve, Inv_New. Qed.

Lemma generateIDAndName_reserves_witness :
  Inv (nameIndex ex_daemon) ∧
  names (nameIndex (generateIDAndName (λ _, "old") "abcdef0123456789" "" ex_daemon).2) !! "/abcdef012345" =
  Some "abcdef0123456789".
Proof.
  split; [apply ex_named|].
  pose proof (generateIDAndName_reserves (λ _, "old") "abcdef0123456789" "" ex_daemon) as H.
  destruct (generateIDAndName (λ _, "old") "abcdef0123456789" "" ex_daemon) as [r d'] eqn:E.
  assert (Hr : r = Ok ("abcdef0123456789", "/abcdef012345")).
  { vm_compute in E. injection E as <- _. reflexivity. }
  subst r. destruct H as (_ & _ & _ & _ & H & _); [apply ex_named|discriminate|].
  simpl. rewrite H. vm_compute. reflexivity.
Defined.

(** The network controller refuses, and writing the old name back works. *)
Definition ex_refused : env := mkEnv WriteOk WriteOk RenameError (λ r, r).

Lemma rename_atomic_witness :
  (ContainerRename ex_refused "old" "new" ex_daemon).1 = Err ErrNetwork ∧
  disk (ContainerRename ex_refused "old" "new" ex_daemon).2 !! "id1" = Some ex_container.
Proof.
  split; [vm_compute; reflexivity|].
  pose proof (rename_atomic ex_refused "old" "new" ex_daemon "id1" ex_container (λ r, eq_refl) ex_named
                eq_refl eq_refl) as H.
  destruct (ContainerRename ex_refused "old" "new" ex_daemon) as [r d'] eqn:E.
  assert (Hr : r = Err ErrNetwork) by (vm_compute in E; injection E as <- _; reflexivity).
  subst r. destruct H as (_ & _ & _ & _ & H); [vm_compute; discriminate|].
  simpl. rewrite H; [reflexivity|discriminate|discriminate].
Defined.

Definition ex_taken : env := mkEnv WriteFail WriteOk NoController (λ r, (Reserve "/old" "id2" r).2).

Lemma rename_race_witness :
  names (nameIndex (ContainerRename ex_taken "old" "new" ex_daemon).2) !! "/old" = Some "id2" ∧
  containers (ContainerRename ex_taken "old" "new" ex_daemon).2 !! "id1" = Some ex_container.
Proof.
  pose proof (rename_race ex_taken "old" "new" "id2" ex_daemon "id1" ex_container ex_named) as H.
  destruct (ContainerRename ex_taken "old" "new" ex_daemon) as [r d'].
  destruct H as (_ & H1 & H2 & _); try reflexivity; try discriminate; [|split; assumption].
  intros name Hk. change (({["/old" := "id1"]} : gmap string string) !! name = Some "id1") in Hk.
  apply lookup_singleton_Some in Hk as [<- _]. reflexivity.
Defined.
