(* ===== verification/Events.v ===== *)
(** * pkg/pubsub and daemon/events: the event stream

    Models [src/pkg/pubsub/publisher.go] (Section [Publisher]),
    [src/daemon/events/events.go] and [src/daemon/events/filter.go].

    A subscriber is its channel: a queue of at most [buffer] messages.  The
    send of [sendTopic] waits for room until a timeout; as the receiver may
    run at any time, it is one step that queues the message or, when the
    channel is still full at the timeout, drops it.  The arguments of a
    filter ([engine-api/types/filters]) are third-party code and a parameter,
    [FilterArgs]; a time is its [UnixNano], and the zero time is [None].

    Shown: a subscriber receives, in order, every published message its topic
    accepts as long as its channel has room; and subscribing with a time
    range returns exactly the last 64 events of the range that the filter
    accepts, when the clock did not go backwards. *)

From S2P Require Import Prelude GoStrings Reference.

Section Publisher.
Context {V : Type}.

Record subscriber := mkSubscriber { topic : option (V → bool); queue : list V }.

Record Publisher := mkPublisher {
  buffer : nat;
  subscribers : gmap nat subscriber;
  next_chan : nat;
}.

Definition NewPublisher (b : nat) : Publisher := mkPublisher b ∅ 0.

Definition Len (p : Publisher) : nat := size (subscribers p).

Definition accepts (t : option (V → bool)) (v : V) : bool :=
  match t with None => true | Some f => f v end.

Definition SubscribeTopic (t : option (V → bool)) (p : Publisher) : nat * Publisher :=
  (next_chan p, mkPublisher (buffer p) (<[next_chan p := mkSubscriber t []]> (subscribers p))
                            (S (next_chan p))).

Definition Subscribe (p : Publisher) : nat * Publisher := SubscribeTopic None p.

(** A channel is closed when it leaves the map: closing it again panics. *)
Definition Evict (ch : nat) (p : Publisher) : outcome Empty_set unit * Publisher :=
  (match subscribers p !! ch with
   | Some _ => Ok tt
   | None => Panic "close of closed channel"
   end, mkPublisher (buffer p) (delete ch (subscribers p)) (next_chan p)).

Definition sendTopic (b : nat) (v : V) (s : subscriber) : subscriber :=
  if negb (accepts (topic s) v) then s
  else if decide (length (queue s) < b) then mkSubscriber (topic s) (queue s ++ [v])
  else s.

Definition Publish (v : V) (p : Publisher) : Publisher :=
  if decide (size (subscribers p) = 0) then p
  else mkPublisher (buffer p) (sendTopic (buffer p) v <$> subscribers p) (next_chan p).

Definition Close (p : Publisher) : Publisher := mkPublisher (buffer p) ∅ (next_chan p).

(** [<-ch] by the subscriber, when a message is queued. *)
Definition Receive (ch : nat) (p : Publisher) : option V * Publisher :=
  match subscribers p !! ch with
  | Some (mkSubscriber t (v :: q)) =>
      (Some v, mkPublisher (buffer p) (<[ch := mkSubscriber t q]> (subscribers p)) (next_chan p))
  | _ => (None, p)
  end.

(** ** Histories *)

Inductive pub_call :=
| PSubscribe (t : option (V → bool))
| PPublish (v : V)
| PEvict (ch : nat)
| PReceive (ch : nat).

(** What the subscriber [c] receives by the call, and the state after it. *)
Definition pub_exec (c : nat) (x : pub_call) (p : Publisher) : list V * Publisher :=
  match x with
  | PSubscribe t => ([], (SubscribeTopic t p).2)
  | PPublish v => ([], Publish v p)
  | PEvict ch => ([], (Evict ch p).2)
  | PReceive ch => let '(v, p') := Receive ch p in (if decide (ch = c) then option_list v else [], p')
  end.

Fixpoint pub_run (c : nat) (xs : list pub_call) (p : Publisher) : list V * Publisher :=
  match xs with
  | [] => ([], p)
  | x :: xs' =>
      let '(r1, p1) := pub_exec c x p in
      let '(r2, p2) := pub_run c xs' p1 in (r1 ++ r2, p2)
  end.

Definition published (xs : list pub_call) : list V :=
  omap (λ x, match x with PPublish v => Some v | _ => None end) xs.

Lemma Publish_lookup v p ch :
  subscribers (Publish v p) !! ch = sendTopic (buffer p) v <$> subscribers p !! ch.
Proof.
  unfold Publish. case_decide as Hs; simpl; [|by rewrite lookup_fmap].
  apply map_size_empty_inv in Hs. by rewrite Hs, lookup_empty.
Qed.

Lemma Receive_other ch c p :
  ch ≠ c → subscribers (Receive ch p).2 !! c = subscribers p !! c.
Proof.
  intros Hne. unfold Receive. destruct (subscribers p !! ch) as [[t [|v q]]|] eqn:E; try done.
  simpl. by rewrite lookup_insert_ne.
Qed.

Lemma pub_buffer c x p : buffer (pub_exec c x p).2 = buffer p.
Proof.
  destruct x as [t|v|ch|ch]; simpl; try done.
  - unfold Publish. by case_decide.
  - unfold Receive. by destruct (subscribers p !! ch) as [[t [|v q]]|].
Qed.

(** What one call gives a subscriber with topic [t]. *)
Definition sent_by (t : option (V → bool)) (x : pub_call) : list V :=
  match x with PPublish v => if accepts t v then [v] else [] | _ => [] end.

Lemma published_cons t x xs :
  filter (λ v, accepts t v = true) (published (x :: xs)) =
  sent_by t x ++ filter (λ v, accepts t v = true) (published xs).
Proof.
  destruct x as [t'|v|ch|ch]; unfold published; simpl; try done.
  rewrite filter_cons. by destruct (accepts t v).
Qed.

Lemma pub_step c x p s :
  subscribers p !! c = Some s → c < next_chan p → x ≠ PEvict c →
  length (queue s) + length (sent_by (topic s) x) ≤ buffer p →
  ∃ s1, subscribers (pub_exec c x p).2 !! c = Some s1 ∧ c < next_chan (pub_exec c x p).2 ∧
        topic s1 = topic s ∧ (pub_exec c x p).1 ++ queue s1 = queue s ++ sent_by (topic s) x.
Proof.
  intros Hs Hc He Hb. destruct x as [t|v|ch|ch]; simpl in *.
  - exists s. rewrite lookup_insert_ne, app_nil_r by lia. split_and!; auto.
  - eexists. split_and!.
    + by rewrite Publish_lookup, Hs.
    + unfold Publish. by case_decide.
    + unfold sendTopic. destruct (negb _); [done|]. by case_decide.
    + unfold sendTopic. destruct (accepts (topic s) v) eqn:Ea; simpl in *; [|by rewrite app_nil_r].
      rewrite decide_True by lia. done.
  - exists s. rewrite lookup_delete_ne, app_nil_r by congruence. done.
  - destruct (decide (ch = c)) as [->|Hne].
    + unfold Receive. rewrite Hs. destruct s as [t [|v q]]; simpl.
      * by eexists.
      * eexists. rewrite lookup_insert_eq, app_nil_r. done.
    + exists s. pose proof (Receive_other ch c p Hne) as Ho.
      assert (next_chan (Receive ch p).2 = next_chan p) as Hn.
      { unfold Receive. by destruct (subscribers p !! ch) as [[t [|v q]]|]. }
      destruct (Receive ch p) as [o p']. simpl in *. rewrite Ho, Hn, app_nil_r. done.
Qed.

(** A subscriber misses nothing and gets nothing it did not ask for: over
    any history of publishing, receiving and subscribing and evicting of
    others, what it has received, followed by what its channel still holds,
    is what the channel held at first followed by the published messages its
    topic accepts, in the order of publishing; the only condition is that the
    messages fit in the channel. *)
Theorem subscriber_gets_all (c : nat) (xs : list pub_call) (p : Publisher) (s : subscriber) :
  subscribers p !! c = Some s → c < next_chan p → PEvict c ∉ xs →
  length (queue s) + length (filter (λ v, accepts (topic s) v = true) (published xs)) ≤ buffer p →
  ∃ q, subscribers (pub_run c xs p).2 !! c = Some (mkSubscriber (topic s) q) ∧
       (pub_run c xs p).1 ++ q = queue s ++ filter (λ v, accepts (topic s) v = true) (published xs).
Proof.
  revert p s. induction xs as [|x xs IH]; intros p s Hs Hc He Hb; cbn [pub_run].
  { exists (queue s). rewrite app_nil_r. by destruct s. }
  rewrite published_cons in Hb |- *. rewrite length_app in Hb. rewrite not_elem_of_cons in He. destruct He as [He1 He2].
  destruct (pub_step c x p s Hs Hc) as (s1 & Hs1 & Hc1 & Ht & Hq); [congruence|lia|].
  pose proof (pub_buffer c x p) as Hbuf. destruct (pub_exec c x p) as [r1 p1]. simpl in *.
  apply (f_equal length) in Hq as Hlen. rewrite !length_app in Hlen.
  destruct (IH p1 s1 Hs1 Hc1 He2) as (q & Hq1 & Hq2); [rewrite Ht, Hbuf; lia|].
  exists q. destruct (pub_run c xs p1) as [r2 p2]. simpl in *. rewrite Ht in *. split; [done|].
  by rewrite <-app_assoc, Hq2, app_assoc, Hq, <-app_assoc.
Qed.
End Publisher.
Arguments Publisher : clear implicits.
Arguments subscriber : clear implicits.
Arguments pub_call : clear implicits.

(** ** Events *)

Record Actor := mkActor { actor_ID : string; Attributes : gmap string string }.

Record Message := mkMessage {
  Status : string; msg_ID : string; From : string;   (* deprecated fields *)
  Type_ : string; Action : string; msg_Actor : Actor;
  Time : Z; TimeNano : Z;
}.

Definition ContainerEventType := "container".
Definition DaemonEventType := "daemon".
Definition ImageEventType := "image".
Definition NetworkEventType := "network".
Definition PluginEventType := "plugin".
Definition VolumeEventType := "volume".

Definition eventsLimit : nat := 64.
Definition bufferSize : nat := 1024.

Record Events := mkEvents { events : list Message; pub : Publisher Message }.

Definition New : Events := mkEvents [] (NewPublisher bufferSize).

(** [filters.Args]. *)
Record FilterArgs := mkFilterArgs {
  fa_Len : nat;
  fa_ExactMatch : string → string → bool;
  fa_FuzzyMatch : string → string → bool;
  fa_Include : string → bool;
  fa_MatchKVList : string → gmap string string → bool;
}.

Section filter.
Context (G : Grammar) (ef : FilterArgs).

Definition stripTag (image : string) : string :=
  match ParseNamed G image with
  | Ok ref => Name ref
  | _ => image
  end.

Definition matchLabels (attributes : gmap string string) : bool :=
  if negb (fa_Include ef "label") then true else fa_MatchKVList ef "label" attributes.

(** A missing key of a Go map reads as the empty string. *)
Definition attr (name : string) (ev : Message) : string :=
  default "" (Attributes (msg_Actor ev) !! name).

Definition fuzzyMatchName (ev : Message) (eventType : string) : bool :=
  fa_FuzzyMatch ef eventType (actor_ID (msg_Actor ev)) || fa_FuzzyMatch ef eventType (attr "name" ev).

Definition matchDaemon (ev : Message) : bool := fuzzyMatchName ev DaemonEventType.
Definition matchContainer (ev : Message) : bool := fuzzyMatchName ev ContainerEventType.
Definition matchPlugin (ev : Message) : bool := fuzzyMatchName ev PluginEventType.
Definition matchVolume (ev : Message) : bool := fuzzyMatchName ev VolumeEventType.
Definition matchNetwork (ev : Message) : bool := fuzzyMatchName ev NetworkEventType.

Definition matchImage (ev : Message) : bool :=
  let id := actor_ID (msg_Actor ev) in
  let nameAttr := if decide (Type_ ev = ImageEventType) then "name" else "image" in
  let imageName := attr nameAttr ev in
  fa_ExactMatch ef "image" id || fa_ExactMatch ef "image" imageName ||
  fa_ExactMatch ef "image" (stripTag id) || fa_ExactMatch ef "image" (stripTag imageName).

Definition Include (ev : Message) : bool :=
  fa_ExactMatch ef "event" (Action ev) &&
  fa_ExactMatch ef "type" (Type_ ev) &&
  matchDaemon ev &&
  matchContainer ev &&
  matchPlugin ev &&
  matchVolume ev &&
  matchNetwork ev &&
  matchImage ev &&
  matchLabels (Attributes (msg_Actor ev)).
End filter.

(** [Log], at the time [now] (in nanoseconds). *)
Definition new_message (now : Z) (action eventType : string) (actor : Actor) : Message :=
  let jm id status from :=
    mkMessage status id from eventType action actor (now / 10 ^ 9)%Z now in
  if decide (eventType = ContainerEventType) then
    jm (actor_ID actor) action (default "" (Attributes actor !! "image"))
  else if decide (eventType = ImageEventType) then jm (actor_ID actor) action ""
  else jm "" "" "".

(** The slice never outgrows the capacity it was made with. *)
Definition push (jm : Message) (l : list Message) : list Message :=
  if decide (length l = eventsLimit) then
    (* copy(e.events, e.events[1:]) leaves the last element in place *)
    <[length l - 1 := jm]> (tail l ++ drop (length l - 1) l)
  else l ++ [jm].

Definition Log (now : Z) (action eventType : string) (actor : Actor) (e : Events) : Events :=
  let jm := new_message now action eventType actor in
  mkEvents (push jm (events e)) (Publish jm (pub e)).

Definition Events_Subscribe (e : Events) : list Message * nat * Events :=
  let '(ch, p) := Subscribe (pub e) in (events e, ch, mkEvents (events e) p).

Definition Events_Evict (ch : nat) (e : Events) : outcome Empty_set unit * Events :=
  let '(r, p) := Evict ch (pub e) in (r, mkEvents (events e) p).

Definition SubscribersCount (e : Events) : nat := Len (pub e).

(** The loop of [loadBufferedEvents], over the events from the last one. *)
Fixpoint load_loop (since until : Z) (t : option (Message → bool)) (l : list Message)
    (buffered : list Message) : list Message :=
  match l with
  | [] => buffered
  | ev :: l' =>
      if decide (TimeNano ev < since)%Z then buffered
      else if decide (until > 0 ∧ TimeNano ev > until)%Z then load_loop since until t l' buffered
      else load_loop since until t l' (if accepts t ev then ev :: buffered else buffered)
  end.

Definition loadBufferedEvents (since until : option Z) (t : option (Message → bool)) (e : Events) : list Message :=
  match since, until with
  | None, None => []
  | _, _ => load_loop (default 0%Z since) (default 0%Z until) t (reverse (events e)) []
  end.

Definition Events_SubscribeTopic (G : Grammar) (since until : option Z) (ef : option FilterArgs)
    (e : Events) : list Message * nat * Events :=
  let t := match ef with
           | Some f => if decide (0 < fa_Len f) then Some (Include G f) else None
           | None => None
           end in
  let buffered := loadBufferedEvents since until t e in
  let '(ch, p) := match t with Some _ => SubscribeTopic t (pub e) | None => Subscribe (pub e) end in
  (buffered, ch, mkEvents (events e) p).

(** ** The buffer *)

(** The last [n] elements. *)
Definition last_n {A} (n : nat) (l : list A) : list A := drop (length l - n) l.

Lemma push_full jm x m : length (x :: m) = eventsLimit → push jm (x :: m) = m ++ [jm].
Proof.
  intros Hl. unfold push. rewrite decide_True by done. simpl. rewrite Nat.sub_0_r.
  destruct (drop (length m) (x :: m)) as [|y [|z l]] eqn:E;
    apply (f_equal length) in E; rewrite length_drop in E; simpl in E; try lia.
  rewrite insert_app_r_alt, Nat.sub_diag by lia. done.
Qed.

Lemma push_last l jm : push jm (last_n eventsLimit l) = last_n eventsLimit (l ++ [jm]).
Proof.
  destruct (decide (eventsLimit ≤ length l)) as [Hl|Hl]; unfold last_n; rewrite length_app; simpl.
  - destruct (drop (length l - eventsLimit) l) as [|x m] eqn:E;
      apply (f_equal length) in E as Hlen; rewrite length_drop in Hlen; simpl in Hlen;
      [unfold eventsLimit in *; lia|].
    rewrite push_full by (simpl; lia). rewrite drop_app_le by (unfold eventsLimit in *; lia). f_equal.
    replace (length l + 1 - eventsLimit) with (S (length l - eventsLimit)) by lia.
    by rewrite <-Nat.add_1_r, <-drop_drop, E.
  - replace (length l - eventsLimit) with 0 by lia.
    replace (length l + 1 - eventsLimit) with 0 by lia. rewrite !drop_0.
    unfold push. by rewrite decide_False by lia.
Qed.

(** A call of [Log] and the time it is made at. *)
Record log_call := mkLog { lc_now : Z; lc_action : string; lc_type : string; lc_actor : Actor }.

Definition message (x : log_call) : Message :=
  new_message (lc_now x) (lc_action x) (lc_type x) (lc_actor x).

Definition log_all (xs : list log_call) (e : Events) : Events :=
  foldl (λ e x, Log (lc_now x) (lc_action x) (lc_type x) (lc_actor x) e) e xs.

Lemma TimeNano_message x : TimeNano (message x) = lc_now x.
Proof. unfold message, new_message. by repeat case_decide. Qed.

Lemma log_all_events xs : events (log_all xs New) = last_n eventsLimit (message <$> xs).
Proof.
  unfold log_all. induction xs as [|x xs IH] using rev_ind; [done|].
  rewrite foldl_snoc, fmap_app. simpl. rewrite IH. apply push_last.
Qed.

(** The event is in the range and the topic accepts it; a bound that is not
    given, or an [until] of zero, is no bound. *)
Definition wanted (since until : option Z) (t : option (Message → bool)) (ev : Message) : bool :=
  (default 0 since <=? TimeNano ev)%Z &&
  match until with Some u => (u <=? 0)%Z || (TimeNano ev <=? u)%Z | None => true end &&
  accepts t ev.

Lemma load_loop_spec since until t l acc :
  StronglySorted Z.le (TimeNano <$> l) →
  load_loop (default 0%Z since) (default 0%Z until) t (reverse l) acc =
  filter (λ ev, wanted since until t ev = true) l ++ acc.
Proof.
  revert acc. induction l as [|ev l IH] using rev_ind; intros acc Hs; [done|].
  rewrite fmap_app in Hs. apply StronglySorted_app in Hs as (Hle & Hs & _).
  rewrite reverse_snoc, filter_app, <-app_assoc. cbn [load_loop].
  assert (Hlast : filter (λ ev, wanted since until t ev = true) [ev] =
    if wanted since until t ev then [ev] else []).
  { rewrite filter_cons. by destruct (wanted since until t ev). }
  rewrite Hlast.
  assert (Hw : wanted since until t ev = (default 0 since <=? TimeNano ev)%Z &&
    match until with Some u => (u <=? 0)%Z || (TimeNano ev <=? u)%Z | None => true end && accepts t ev) by done.
  rewrite Hw. clear Hw Hlast. case_decide as Hsince.
  - rewrite (proj2 (Z.leb_gt _ _)) by lia. simpl.
    rewrite (filter_none _ l); [done|].
    apply Forall_forall. intros ev' Hin. unfold wanted.
    assert (TimeNano ev' ≤ TimeNano ev)%Z.
    { apply Hle; [by apply list_elem_of_fmap_2|by apply list_elem_of_fmap_2, list_elem_of_singleton]. }
    rewrite (proj2 (Z.leb_gt _ _)) by lia. done.
  - rewrite (proj2 (Z.leb_le _ _)) by lia. simpl. case_decide as Huntil.
    + rewrite IH by done. destruct until as [u|]; simpl in *; [|lia].
      rewrite (proj2 (Z.leb_gt u 0)), (proj2 (Z.leb_gt _ u)) by lia. done.
    + rewrite IH by done. destruct until as [u|]; simpl in *; [|by destruct (accepts t ev)].
      replace ((u <=? 0)%Z || (TimeNano ev <=? u)%Z) with true by lia. by destruct (accepts t ev).
Qed.

(** A client that subscribes with a time range is given exactly the
    events, among the last 64 logged, that were logged in the range and that
    its filter includes, in their order; and nothing when it gives no range.
    The clock must not have gone backwards: the loop stops at the first event
    before the range. *)
Theorem SubscribeTopic_buffered (G : Grammar) (since until : option Z) (ef : option FilterArgs)
    (xs : list log_call) :
  StronglySorted Z.le (lc_now <$> xs) →
  let t := match ef with
           | Some f => if decide (0 < fa_Len f) then Some (Include G f) else None
           | None => None
           end in
  (Events_SubscribeTopic G since until ef (log_all xs New)).1.1 =
  match since, until with
  | None, None => []
  | _, _ => filter (λ ev, wanted since until t ev = true) (last_n eventsLimit (message <$> xs))
  end.
Proof.
  intros Hs t. unfold Events_SubscribeTopic. fold t.
  destruct (match t with Some _ => _ | None => _ end) as [ch p]. simpl.
  assert (Hsorted : StronglySorted Z.le (TimeNano <$> last_n eventsLimit (message <$> xs))).
  { unfold last_n. rewrite fmap_drop, <-list_fmap_compose.
    rewrite (list_fmap_ext _ lc_now) by (intros ?? _; apply TimeNano_message).
    eapply StronglySorted_app_1_r. by rewrite take_drop. }
  unfold loadBufferedEvents. rewrite log_all_events.
  pose proof (load_loop_spec since until t _ [] Hsorted) as H. rewrite app_nil_r in H.
  destruct since, until; done.
Qed.

(** ** Witnesses *)

Definition ex_topic (v : nat) : bool := negb (v =? 2).

Definition ex_calls : list (pub_call nat) :=
  [PPublish 1; PSubscribe None; PReceive 0; PPublish 2; PPublish 3].

Definition ex_publisher : Publisher nat := (SubscribeTopic (Some ex_topic) (NewPublisher 4)).2.

Lemma subscriber_gets_all_witness : (pub_run 0 ex_calls ex_publisher).1 ++ [3] = [1; 3].
Proof.
  destruct (subscriber_gets_all 0 ex_calls ex_publisher (mkSubscriber (Some ex_topic) []))
    as (q & H1 & H2).
  - reflexivity.
  - vm_compute. lia.
  - unfold ex_calls. rewrite !not_elem_of_cons. repeat split; try discriminate. apply not_elem_of_nil.
  - vm_compute. lia.
  - vm_compute in H1. injection H1 as <-. etransitivity; [exact H2|]. vm_compute. reflexivity.
Defined.

Definition ex_logs : list log_call :=
  [mkLog 5 "create" "container" (mkActor "c1" ∅); mkLog 7 "start" "container" (mkActor "c1" ∅);
   mkLog 7 "pull" "image" (mkActor "i1" ∅); mkLog 9 "die" "container" (mkActor "c1" ∅)].

Definition ex_filter : FilterArgs :=
  mkFilterArgs 1 (λ f s, negb (bool_decide (f = "type")) || bool_decide (s = "container"))
               (λ _ _, true) (λ _, false) (λ _ _, true).

Definition ex_grammar : Grammar :=
  mkGrammar (λ _, None) (λ _, false) (λ _, false) (λ _, false) (λ _, false) (λ s, s).

Lemma SubscribeTopic_buffered_witness :
  Action <$> (Events_SubscribeTopic ex_grammar (Some 6%Z) (Some 8%Z) (Some ex_filter) (log_all ex_logs New)).1.1 = ["start"].
Proof.
  rewrite (SubscribeTopic_buffered ex_grammar (Some 6%Z) (Some 8%Z) (Some ex_filter) ex_logs).
  - vm_compute. reflexivity.
  - vm_compute. repeat constructor; discriminate.
Defined.
