(* ===== verification/Transfer.v ===== *)
(** * distribution/xfer: the transfer manager

    Models [src/distribution/xfer/transfer.go]: a [transfer] with its
    watchers and its channels, and the [transferManager] that shares one
    transfer among the callers that ask for the same key and bounds the
    number of transfers that move data at a time.

    A channel that is only ever closed is a boolean (true once closed), and
    closing it a second time panics.  The unit of interleaving is the part of
    a method or goroutine between two blocking points, which the mutexes make
    atomic: [ETransfer] is [Transfer] under [tm.mu], [EMonInactive],
    [EMonDone] and [EMonClose] are the steps of the goroutine that
    [Transfer] starts, [EProgress], [EEnd] and [ERunning] are those of
    [Broadcast].  The job itself, the [DoFunc], is not code of this file: it
    may do anything, as long as it closes its channels once and only after
    [start] is closed ([allowed]), as [makeDownloadFunc] and
    [makeDownloadFuncFromDownload] of [download.go] do.

    Shown: over every interleaving, the slots of the manager are counted
    exactly, handed on in the order of the requests and bounded by the limit;
    no channel is closed twice; a key has at most one live transfer; a
    transfer nobody watches is cancelled, and its resources are released only
    after it is over, once nobody watches it. *)

From S2P Require Import Prelude.

(** No method of this file returns an error. *)
Definition err := Empty_set.

(** ** A transfer *)

Record transfer := mkTransfer {
  watchers : gset nat;
  lastProgress : option string;   (* with hasLastProgress *)
  cancelled : bool;               (* ctx.Done() is closed *)
  running : bool;                 (* closed: the transfer is over *)
  released : bool;                (* closed *)
  broadcastDone : bool;
  closed : bool;
}.

Definition NewTransfer : transfer := mkTransfer ∅ None false false false false false.

Definition close_released : ST transfer err unit := t ← st_get;
  if released t then st_panic "close of closed channel"
  else st_put (mkTransfer (watchers t) (lastProgress t) (cancelled t) (running t) true
                          (broadcastDone t) (closed t)).

(** The watcher [w] is new; its goroutine writes progress and changes nothing. *)
Definition Watch (w : nat) : ST transfer err unit := st_modify (λ t,
  mkTransfer ({[w]} ∪ watchers t) (lastProgress t) (cancelled t) (running t) (released t)
             (broadcastDone t) (closed t)).

(** The [releaseChan] of a watcher is closed by [Release], which first takes
    the watcher out of the map: it is closed already when the watcher is not
    in the map. *)
Definition Release (w : nat) : ST transfer err unit :=
  t0 ← st_get;
  st_put (mkTransfer (watchers t0 ∖ {[w]}) (lastProgress t0) (cancelled t0) (running t0)
                     (released t0) (broadcastDone t0) (closed t0));;
  t ← st_get;
  (if decide (watchers t = ∅) then
     if closed t then
       if released t then mret tt else close_released
     else st_put (mkTransfer (watchers t) (lastProgress t) true (running t) (released t)
                             (broadcastDone t) (closed t))
   else mret tt);;
  if decide (w ∈ watchers t0) then mret tt else st_panic "close of closed channel".

Definition Close : ST transfer err unit :=
  t0 ← st_get;
  st_put (mkTransfer (watchers t0) (lastProgress t0) (cancelled t0) (running t0)
                     (released t0) (broadcastDone t0) true);;
  if decide (watchers t0 = ∅) then close_released else mret tt.

(** [Broadcast], one turn of its loop: a progress value, or the end of the
    master channel; then, at the end, [close(t.running)] out of the lock. *)
Definition Broadcast_turn (p : option string) : ST transfer err unit := st_modify (λ t,
  match p with
  | Some v => mkTransfer (watchers t) (Some v) (cancelled t) (running t) (released t)
                         (broadcastDone t) (closed t)
  | None => mkTransfer (watchers t) (lastProgress t) (cancelled t) (running t) (released t)
                       true (closed t)
  end).

Definition Broadcast_exit : ST transfer err unit := t ← st_get;
  if running t then st_panic "close of closed channel"
  else st_put (mkTransfer (watchers t) (lastProgress t) (cancelled t) true (released t)
                          (broadcastDone t) (closed t)).

(** ** The manager *)

Record transferManager := mkManager {
  concurrencyLimit : Z;
  activeTransfers : Z;
  transfers : gmap string nat;
  waitingTransfers : list nat;   (* the start channel of a session is named by the session *)
}.

(** The goroutine that [Transfer] starts: in its select loop with both
    channels; with [inactive = nil]; between [tm.mu.Unlock()] and
    [xfer.Close()]; returned. *)
Inductive monitor := MonBoth | MonDone | MonClosing | MonExit.

#[global] Instance monitor_eq_dec : EqDecision monitor.
Proof. solve_decision. Defined.

(** What one call of [Transfer] that starts a transfer creates. *)
Record session := mkSession {
  xfer : transfer;
  skey : string;
  start : bool;      (* closed *)
  inactive : bool;   (* closed *)
  mon : monitor;
}.

Record world := mkWorld {
  tm : transferManager;
  sessions : list session;
  next_watcher : nat;
}.

Definition NewTransferManager (limit : Z) : world :=
  mkWorld (mkManager limit 0 ∅ []) [] 0.

Definition set_tm (f : transferManager → transferManager) : ST world err unit :=
  st_modify (λ w, mkWorld (f (tm w)) (sessions w) (next_watcher w)).

Definition get_session (i : nat) : ST world err session := λ w,
  match sessions w !! i with
  | Some s => (Ok s, w)
  | None => (Panic "invalid memory address or nil pointer dereference", w)
  end.

Definition put_session (i : nat) (s : session) : ST world err unit :=
  st_modify (λ w, mkWorld (tm w) (<[i := s]> (sessions w)) (next_watcher w)).

(** A method of the transfer of session [i]. *)
Definition on_xfer {A} (i : nat) (m : ST transfer err A) : ST world err A := λ w,
  match sessions w !! i with
  | Some s =>
      let '(o, t) := m (xfer s) in
      (o, mkWorld (tm w) (<[i := mkSession t (skey s) (start s) (inactive s) (mon s)]> (sessions w))
                  (next_watcher w))
  | None => (Panic "invalid memory address or nil pointer dereference", w)
  end.

Definition close_start (i : nat) : ST world err unit := s ← get_session i;
  if start s then st_panic "close of closed channel"
  else put_session i (mkSession (xfer s) (skey s) true (inactive s) (mon s)).

Definition SetConcurrency (n : Z) : ST world err unit :=
  set_tm (λ t, mkManager n (activeTransfers t) (transfers t) (waitingTransfers t)).

Definition fresh_watcher : ST world err nat := λ w,
  (Ok (next_watcher w), mkWorld (tm w) (sessions w) (S (next_watcher w))).

(** What a turn of the loop of [Transfer] gives its caller: the transfer and
    the watcher, or the cancelled transfer whose end it has to wait for
    before it tries again. *)
Inductive result := Joined (i w : nat) | Cancelled (i : nat).

Definition Transfer_start (key : string) : ST world err result :=
  t ← st_gets tm;
  i ← st_gets (λ w, length (sessions w));
  let free := (concurrencyLimit t =? 0)%Z || (activeTransfers t <? concurrencyLimit t)%Z in
  (if free then
     set_tm (λ t, mkManager (concurrencyLimit t) (activeTransfers t + 1) (transfers t) (waitingTransfers t))
   else
     set_tm (λ t, mkManager (concurrencyLimit t) (activeTransfers t) (transfers t)
                            (waitingTransfers t ++ [i])));;
  st_modify (λ w, mkWorld (tm w) (sessions w ++ [mkSession NewTransfer key free false MonBoth])
                          (next_watcher w));;
  wt ← fresh_watcher;
  on_xfer i (Watch wt);;
  set_tm (λ t, mkManager (concurrencyLimit t) (activeTransfers t) (<[key := i]> (transfers t))
                         (waitingTransfers t));;
  mret (Joined i wt).

Definition Transfer (key : string) : ST world err result :=
  t ← st_gets tm;
  match transfers t !! key with
  | None => Transfer_start key
  | Some i =>
      wt ← fresh_watcher;
      on_xfer i (Watch wt);;
      s ← get_session i;
      if cancelled (xfer s) then on_xfer i (Release wt);; mret (Cancelled i)
      else mret (Joined i wt)
  end.

Definition inactivate (i : nat) : ST world err unit :=
  s ← get_session i;
  if start s then
    t ← st_gets tm;
    match waitingTransfers t with
    | j :: _ =>
        close_start j;;
        set_tm (λ t, mkManager (concurrencyLimit t) (activeTransfers t) (transfers t)
                               (tail (waitingTransfers t)))
    | [] => set_tm (λ t, mkManager (concurrencyLimit t) (activeTransfers t - 1) (transfers t)
                                   (waitingTransfers t))
    end
  else mret tt.

Definition set_mon (i : nat) (m : monitor) : ST world err unit := s ← get_session i;
  put_session i (mkSession (xfer s) (skey s) (start s) (inactive s) m).

(** The [case <-inactive] branch. *)
Definition monitor_inactive (i : nat) : ST world err unit :=
  inactivate i;; set_mon i MonDone.

(** The [case <-xfer.Done()] branch up to the unlock, and the rest of it. *)
Definition monitor_done (i : nat) : ST world err unit :=
  s ← get_session i;
  (if decide (mon s = MonBoth) then inactivate i else mret tt);;
  set_tm (λ t, mkManager (concurrencyLimit t) (activeTransfers t) (delete (skey s) (transfers t))
                         (waitingTransfers t));;
  set_mon i MonClosing.

Definition monitor_close (i : nat) : ST world err unit :=
  on_xfer i Close;; set_mon i MonExit.

(** The job closes its [inactive] channel. *)
Definition close_inactive (i : nat) : ST world err unit := s ← get_session i;
  if inactive s then st_panic "close of closed channel"
  else put_session i (mkSession (xfer s) (skey s) (start s) true (mon s)).

(** ** Interleavings *)

Inductive event :=
| ESetConcurrency (n : Z)
| ETransfer (key : string)
| EWatch (i : nat)
| ERelease (i w : nat)
| EProgress (i : nat) (p : string)
| EInactive (i : nat)
| EEnd (i : nat)
| ERunning (i : nat)
| EMonInactive (i : nat)
| EMonDone (i : nat)
| EMonClose (i : nat).

Definition exec (e : event) : ST world err unit :=
  match e with
  | ESetConcurrency n => SetConcurrency n
  | ETransfer key => Transfer key;; mret tt
  | EWatch i => wt ← fresh_watcher; on_xfer i (Watch wt)
  | ERelease i wt => on_xfer i (Release wt)
  | EProgress i p => on_xfer i (Broadcast_turn (Some p))
  | EInactive i => close_inactive i
  | EEnd i => on_xfer i (Broadcast_turn None)
  | ERunning i => on_xfer i Broadcast_exit
  | EMonInactive i => monitor_inactive i
  | EMonDone i => monitor_done i
  | EMonClose i => monitor_close i
  end.

(** Whether an event can happen: the guard of each goroutine (the channel it
    waits on is closed, its own program counter), and for the job and the
    callers what they must respect: the job waits for [start] and closes each
    channel once, a watcher is released once, and a limit satisfies [lim]. *)
Definition allowed (lim : Z → bool) (e : event) (w : world) : bool :=
  let at_ i (P : session → bool) := from_option P false (sessions w !! i) in
  match e with
  | ESetConcurrency n => lim n
  | ETransfer _ => true
  | EWatch i => at_ i (λ _, true)
  | ERelease i wt => at_ i (λ s, bool_decide (wt ∈ watchers (xfer s)))
  | EProgress i _ => at_ i (λ s, negb (broadcastDone (xfer s)))
  | EInactive i => at_ i (λ s, start s && negb (inactive s) && negb (broadcastDone (xfer s)))
  | EEnd i => at_ i (λ s, start s && negb (broadcastDone (xfer s)))
  | ERunning i => at_ i (λ s, broadcastDone (xfer s) && negb (running (xfer s)))
  | EMonInactive i => at_ i (λ s, inactive s && bool_decide (mon s = MonBoth))
  | EMonDone i => at_ i (λ s, running (xfer s) && bool_decide (mon s = MonBoth ∨ mon s = MonDone))
  | EMonClose i => at_ i (λ s, bool_decide (mon s = MonClosing))
  end.

Inductive reachable (lim : Z → bool) : world → Prop :=
| reach_new n : lim n = true → reachable lim (NewTransferManager n)
| reach_step e w w' :
    reachable lim w → allowed lim e w = true → exec e w = (Ok tt, w') → reachable lim w'.

(** ** The invariant *)

(** The session holds one of the slots that [activeTransfers] counts. *)
Definition holds_slot (s : session) : bool := start s && bool_decide (mon s = MonBoth).

(** The session is in the map of the manager. *)
Definition live (s : session) : bool := bool_decide (mon s = MonBoth ∨ mon s = MonDone).

Definition slots (l : list session) : nat := length (filter (λ s, holds_slot s = true) l).

Record SInv (s : session) : Prop := {
  si_inactive : inactive s = true → start s = true;
  si_done : broadcastDone (xfer s) = true → start s = true;
  si_running : running (xfer s) = true → broadcastDone (xfer s) = true;
  si_mon : mon s ≠ MonBoth → start s = true;
  si_dead : live s = false → running (xfer s) = true;
  si_closed : closed (xfer s) = bool_decide (mon s = MonExit);
  si_released : released (xfer s) = true → closed (xfer s) = true;
  si_unwatched : watchers (xfer s) = ∅ → closed (xfer s) = true → released (xfer s) = true;
  si_cancel : watchers (xfer s) = ∅ → closed (xfer s) = false → cancelled (xfer s) = true;
}.

Section invariant.
Context (lim : Z → bool) (lim_nonneg : ∀ n, lim n = true → (0 ≤ n)%Z).

(** [d] is the number of slots that are counted and not held, other than
    zero only inside a step. *)
Record Inv (d : Z) (w : world) : Prop := {
  inv_limit : lim (concurrencyLimit (tm w)) = true;
  inv_active : activeTransfers (tm w) = (Z.of_nat (slots (sessions w)) + d)%Z;
  inv_bound L : (∀ n, lim n = true → 0 < n ≤ L)%Z → (activeTransfers (tm w) ≤ L)%Z;
  inv_waiting i : i ∈ waitingTransfers (tm w) ↔ ∃ s, sessions w !! i = Some s ∧ start s = false;
  inv_fifo : StronglySorted lt (waitingTransfers (tm w));
  inv_busy : waitingTransfers (tm w) ≠ [] → (0 < activeTransfers (tm w))%Z;
  inv_keys k i : transfers (tm w) !! k = Some i ↔
                 ∃ s, sessions w !! i = Some s ∧ skey s = k ∧ live s = true;
  inv_sessions i s : sessions w !! i = Some s → SInv s;
}.

Lemma slots_insert l i s s' :
  l !! i = Some s →
  (Z.of_nat (slots (<[i := s']> l)) = Z.of_nat (slots l) - Z.b2z (holds_slot s) + Z.b2z (holds_slot s'))%Z.
Proof.
  unfold slots. revert i. induction l as [|x l IH]; intros [|i] Hi; simplify_eq/=.
  - rewrite !filter_cons. repeat case_decide; destruct (holds_slot s), (holds_slot s'); simpl in *; try done; lia.
  - specialize (IH i Hi). rewrite !filter_cons. case_decide; simpl; lia.
Qed.

Lemma slots_app l s : (Z.of_nat (slots (l ++ [s])) = Z.of_nat (slots l) + Z.b2z (holds_slot s))%Z.
Proof.
  unfold slots. rewrite filter_app, length_app, Nat2Z.inj_add. f_equal.
  rewrite filter_cons, filter_nil. case_decide; destruct (holds_slot s); simpl; done.
Qed.

(** Changing one session without touching what the manager keeps of it. *)
Lemma Inv_update d d' w i s s' n :
  Inv d w → sessions w !! i = Some s → SInv s' →
  skey s' = skey s → start s' = start s → live s' = live s →
  (d' = d + Z.b2z (holds_slot s) - Z.b2z (holds_slot s'))%Z →
  Inv d' (mkWorld (tm w) (<[i := s']> (sessions w)) n).
Proof.
  intros [] Hi Hs' Hk Hst Hl ->. split; simpl; try done.
  - rewrite (slots_insert _ _ _ _ Hi). lia.
  - intros j. rewrite inv_waiting0. split; intros (sj & Hj & Hsj).
    + destruct (decide (i = j)) as [->|]; simplify_eq.
      * exists s'. rewrite list_lookup_insert_eq; [|by eapply lookup_lt_Some]. split; congruence.
      * exists sj. by rewrite list_lookup_insert_ne.
    + apply list_lookup_insert_Some in Hj as [(-> & -> & _)|[? Hj]]; [exists s|exists sj]; split; congruence.
  - intros k j. rewrite inv_keys0. split; intros (sj & Hj & Hkj & Hlj).
    + destruct (decide (i = j)) as [->|]; simplify_eq.
      * exists s'. rewrite list_lookup_insert_eq; [|by eapply lookup_lt_Some]. split_and!; congruence.
      * exists sj. by rewrite list_lookup_insert_ne.
    + apply list_lookup_insert_Some in Hj as [(-> & -> & _)|[? Hj]]; [exists s|exists sj]; split_and!; congruence.
  - intros j sj Hj. apply list_lookup_insert_Some in Hj as [(-> & -> & _)|[? Hj]]; eauto.
Qed.

(** A started session gives its slot to the transfer that has waited longest,
    or gives it back. *)
Lemma inactivate_spec d w i s :
  Inv d w → sessions w !! i = Some s → start s = true →
  ∃ w', inactivate i w = (Ok tt, w') ∧ Inv (d - 1) w' ∧ sessions w' !! i = Some s.
Proof.
  intros HI Hi Hst. unfold inactivate, get_session, mbind, ST_bind, st_gets.
  rewrite Hi, Hst. destruct HI. destruct (waitingTransfers (tm w)) as [|j l] eqn:Hw; simpl.
  - eexists. split_and!; [done| |done]. split; simpl; rewrite ?Hw; try done; [lia|].
    intros L HL. specialize (inv_bound0 L HL). lia.
  - assert (∃ sj, sessions w !! j = Some sj ∧ start sj = false) as (sj & Hj & Hsj)
      by (apply inv_waiting0; left).
    assert (Hij : i ≠ j) by congruence.
    unfold close_start, get_session, put_session, set_tm, st_modify, mbind, ST_bind.
    rewrite Hj, Hsj. simpl. eexists. split_and!; [done| |simpl; by rewrite list_lookup_insert_ne].
    apply StronglySorted_inv in inv_fifo0 as [Hsorted Hmin].
    assert (mon sj = MonBoth) as Hmon.
    { destruct (decide (mon sj = MonBoth)) as [|Hm]; [done|].
      rewrite (si_mon sj (inv_sessions0 j sj Hj) Hm) in Hsj. done. }
    split; simpl; rewrite ?Hw; simpl; try done.
    + rewrite (slots_insert _ _ _ _ Hj). unfold holds_slot; simpl.
      rewrite Hsj, Hmon. simpl. lia.
    + intros k. specialize (inv_waiting0 k). rewrite elem_of_cons in inv_waiting0.
      rewrite Forall_forall in Hmin. specialize (Hmin k). split.
      * intros Hk. destruct (proj1 inv_waiting0 (or_intror Hk)) as (sk & ? & ?).
        exists sk. split; [|done]. rewrite list_lookup_insert_ne; [done|].
        intros <-. specialize (Hmin Hk). lia.
      * intros (sk & Hk & Hsk).
        apply list_lookup_insert_Some in Hk as [(-> & <- & _)|[? Hk]]; [done|].
        destruct (proj2 inv_waiting0) as [->|]; [by exists sk|done|done].
    + intros _. by apply inv_busy0.
    + intros k m. rewrite inv_keys0. split; intros (sm & Hm & Hkm & Hlm).
      * destruct (decide (j = m)) as [->|]; simplify_eq.
        -- eexists. rewrite list_lookup_insert_eq by (by eapply lookup_lt_Some). split; [done|].
           split; [done|]. unfold live in *; simpl. done.
        -- exists sm. by rewrite list_lookup_insert_ne.
      * apply list_lookup_insert_Some in Hm as [(-> & <- & _)|[? Hm]]; [exists sj|exists sm]; done.
    + intros m sm Hm. apply list_lookup_insert_Some in Hm as [(-> & <- & _)|[? Hm]]; [|by eauto].
      destruct (inv_sessions0 m sj Hj). split; simpl; try done.
Qed.

Lemma Inv_next d w n : Inv d w → Inv d (mkWorld (tm w) (sessions w) n).
Proof. intros []. by split. Qed.

Lemma on_xfer_keeps d w i s (m : ST transfer err unit) t' :
  Inv d w → sessions w !! i = Some s → m (xfer s) = (Ok tt, t') →
  SInv (mkSession t' (skey s) (start s) (inactive s) (mon s)) →
  ∃ w', on_xfer i m w = (Ok tt, w') ∧ Inv d w' ∧ tm w' = tm w ∧
        sessions w' !! i = Some (mkSession t' (skey s) (start s) (inactive s) (mon s)).
Proof.
  intros HI Hi Hm Hs. unfold on_xfer. rewrite Hi, Hm. eexists. split_and!; [done| |done|].
  - eapply Inv_update; try done. unfold holds_slot; simpl. lia.
  - simpl. apply list_lookup_insert_eq. by eapply lookup_lt_Some.
Qed.

(** *** The methods of a transfer keep the invariant of its session *)

Definition with_xfer (s : session) (t : transfer) : session :=
  mkSession t (skey s) (start s) (inactive s) (mon s).

Lemma Watch_SInv s wt t' :
  SInv s → Watch wt (xfer s) = (Ok tt, t') → SInv (with_xfer s t').
Proof. intros [] Hm. unfold Watch, st_modify in Hm. simplify_eq. split; simpl; try done; set_solver. Qed.

Lemma Release_SInv s wt :
  SInv s → wt ∈ watchers (xfer s) →
  ∃ t', Release wt (xfer s) = (Ok tt, t') ∧ SInv (with_xfer s t').
Proof.
  intros [] Hw. unfold Release, close_released, st_get, st_put, mbind, ST_bind; simpl.
  destruct (decide (watchers (xfer s) ∖ {[wt]} = ∅)) as [He|He];
    [destruct (closed (xfer s)) eqn:Ec; [destruct (released (xfer s)) eqn:Er|]|];
    simpl; rewrite (decide_True (P := wt ∈ watchers (xfer s))) by done; eexists; (split; [done|]);
    split; simpl; try done; congruence.
Qed.

Lemma Close_SInv s :
  SInv s → mon s = MonClosing →
  ∃ t', Close (xfer s) = (Ok tt, t') ∧
        SInv (mkSession t' (skey s) (start s) (inactive s) MonExit).
Proof.
  intros [] Hmon. rewrite Hmon in *. simpl in *. unfold Close, close_released, st_get, st_put, mbind, ST_bind; simpl.
  unfold live in *. rewrite Hmon in *. simpl in *.
  destruct (released (xfer s)) eqn:Er; [specialize (si_released0 eq_refl); congruence|].
  case_decide; eexists; (split; [done|]); split; simpl; try done; eauto.
Qed.

(** *** Steps of the manager *)

Lemma set_mon_eq i m w s :
  sessions w !! i = Some s →
  set_mon i m w = (Ok tt, mkWorld (tm w)
    (<[i := mkSession (xfer s) (skey s) (start s) (inactive s) m]> (sessions w)) (next_watcher w)).
Proof. intros Hi. unfold set_mon, get_session, mbind, ST_bind. by rewrite Hi. Qed.

Lemma monitor_inactive_keeps w i s :
  Inv 0 w → sessions w !! i = Some s → inactive s = true → mon s = MonBoth →
  ∃ w', monitor_inactive i w = (Ok tt, w') ∧ Inv 0 w'.
Proof.
  intros HI Hi Hin Hmon. pose proof (inv_sessions _ _ HI i s Hi) as Hs.
  destruct (inactivate_spec 0 w i s HI Hi (si_inactive s Hs Hin)) as (w1 & E & HI1 & Hi1).
  unfold monitor_inactive, mbind, ST_bind. rewrite E, (set_mon_eq i _ w1 s Hi1).
  eexists. split; [done|]. pose proof (si_inactive s Hs Hin) as Hst.
  eapply Inv_update; try done; unfold live, holds_slot; simpl; rewrite ?Hmon, ?Hst; try done.
  destruct Hs. split; unfold live in *; simpl; rewrite ?Hmon in *; done.
Qed.

(** Taking the session out of the map. *)
Lemma Inv_drop d w i s :
  Inv d w → sessions w !! i = Some s → live s = true → running (xfer s) = true →
  Inv (d + Z.b2z (holds_slot s))
      (mkWorld (mkManager (concurrencyLimit (tm w)) (activeTransfers (tm w))
                          (delete (skey s) (transfers (tm w))) (waitingTransfers (tm w)))
               (<[i := mkSession (xfer s) (skey s) (start s) (inactive s) MonClosing]> (sessions w))
               (next_watcher w)).
Proof.
  intros HI Hi Hl Hrun. pose proof (inv_sessions _ _ HI i s Hi) as Hs. destruct HI.
  split; simpl; try done.
  - rewrite (slots_insert _ _ _ _ Hi). unfold holds_slot; simpl. rewrite andb_false_r. simpl. lia.
  - intros j. rewrite inv_waiting0. split; intros (sj & Hj & Hsj).
    + destruct (decide (i = j)) as [->|]; simplify_eq.
      * pose proof (si_done _ Hs (si_running _ Hs Hrun)). congruence.
      * exists sj. by rewrite list_lookup_insert_ne.
    + apply list_lookup_insert_Some in Hj as [(-> & <- & _)|[? Hj]]; eauto.
  - intros k j. rewrite lookup_delete_Some, inv_keys0. split.
    + intros (Hk & sj & Hj & Hkj & Hlj). exists sj. rewrite list_lookup_insert_ne by naive_solver. done.
    + intros (sj & Hj & Hkj & Hlj).
      apply list_lookup_insert_Some in Hj as [(-> & <- & _)|[Hij Hj]]; [done|].
      split; [|by exists sj]. intros Heq.
      assert (transfers (tm w) !! k = Some i) by (apply inv_keys0; exists s; by rewrite Heq).
      assert (transfers (tm w) !! k = Some j) by (apply inv_keys0; by exists sj). congruence.
  - intros j sj Hj. apply list_lookup_insert_Some in Hj as [(-> & <- & _)|[? Hj]]; [|by eauto].
    destruct Hs. unfold live in *. split; simpl; try done; [by eauto|].
    rewrite si_closed0. apply bool_decide_eq_true in Hl. by destruct Hl as [Hl|Hl]; rewrite Hl.
Qed.

Lemma monitor_done_keeps w i s :
  Inv 0 w → sessions w !! i = Some s → running (xfer s) = true → live s = true →
  ∃ w', monitor_done i w = (Ok tt, w') ∧ Inv 0 w'.
Proof.
  intros HI Hi Hrun Hl. pose proof (inv_sessions _ _ HI i s Hi) as Hs.
  pose proof (si_done _ Hs (si_running _ Hs Hrun)) as Hst.
  unfold monitor_done, get_session, mbind, ST_bind. rewrite Hi.
  case_decide as Hmon.
  - destruct (inactivate_spec 0 w i s HI Hi Hst) as (w1 & E & HI1 & Hi1). rewrite E. simpl.
    unfold set_tm, st_modify. rewrite (set_mon_eq i _ _ s) by done. eexists. split; [done|].
    assert (holds_slot s = true) as Hh by (unfold holds_slot; by rewrite Hst, Hmon).
    pose proof (Inv_drop _ _ _ _ HI1 Hi1 Hl Hrun) as H. rewrite Hh in H. exact H.
  - simpl. unfold set_tm, st_modify. rewrite (set_mon_eq i _ _ s) by done. eexists. split; [done|].
    assert (holds_slot s = false) as Hh.
    { unfold holds_slot. rewrite bool_decide_eq_false_2 by done. apply andb_false_r. }
    pose proof (Inv_drop _ _ _ _ HI Hi Hl Hrun) as H. rewrite Hh in H. exact H.
Qed.

Lemma monitor_close_keeps w i s :
  Inv 0 w → sessions w !! i = Some s → mon s = MonClosing →
  ∃ w', monitor_close i w = (Ok tt, w') ∧ Inv 0 w'.
Proof.
  intros HI Hi Hmon. pose proof (inv_sessions _ _ HI i s Hi) as Hs.
  destruct (Close_SInv s Hs Hmon) as (t' & Ec & Hs').
  unfold monitor_close, on_xfer, mbind, ST_bind. rewrite Hi, Ec.
  erewrite set_mon_eq; [|simpl; apply list_lookup_insert_eq; by eapply lookup_lt_Some].
  simpl. rewrite list_insert_insert_eq. eexists. split; [done|].
  eapply Inv_update; try done; unfold live, holds_slot; simpl; rewrite Hmon; try done.
  by destruct (start s).
Qed.

(** *** Starting a transfer *)

Definition has_slot (t : transferManager) : bool :=
  (concurrencyLimit t =? 0)%Z || (activeTransfers t <? concurrencyLimit t)%Z.

Definition started (key : string) (w : world) : world :=
  let n := length (sessions w) in
  let free := has_slot (tm w) in
  mkWorld (mkManager (concurrencyLimit (tm w)) (activeTransfers (tm w) + Z.b2z free)
                     (<[key := n]> (transfers (tm w)))
                     (waitingTransfers (tm w) ++ if free then [] else [n]))
          (sessions w ++ [mkSession (mkTransfer {[next_watcher w]} None false false false false false)
                                    key free false MonBoth])
          (S (next_watcher w)).

Lemma Transfer_start_eq key w :
  Transfer_start key w = (Ok (Joined (length (sessions w)) (next_watcher w)), started key w).
Proof.
  unfold Transfer_start, started, set_tm, st_modify, st_gets, fresh_watcher, on_xfer, mbind, ST_bind.
  fold (has_slot (tm w)). destruct (has_slot (tm w)) eqn:Ef; simpl;
    rewrite lookup_app_r, Nat.sub_diag by lia; simpl;
    (rewrite insert_app_r_alt, Nat.sub_diag by lia); simpl;
    repeat f_equal; rewrite ?app_nil_r; try lia; set_solver.
Qed.

Lemma Inv_started key w : Inv 0 w → transfers (tm w) !! key = None → Inv 0 (started key w).
Proof using lim_nonneg.
  intros HI Hk. destruct HI. set (n := length (sessions w)).
  assert (Hlt : ∀ i s, sessions w !! i = Some s → i < n).
  { intros i s Hi. by eapply lookup_lt_Some. }
  assert (Hlk : ∀ s0 i s, (sessions w ++ [s0]) !! i = Some s ↔
                  sessions w !! i = Some s ∨ i = n ∧ s = s0).
  { intros s0 i s. rewrite lookup_app_Some, list_lookup_singleton_Some. unfold n. split.
    - intros [?|(? & ? & <-)]; [by left|right; split; [lia|done]].
    - intros [?|[-> ->]]; [by left|right; split_and!; [lia|lia|done]]. }
  pose proof (lim_nonneg _ inv_limit0) as Hpos.
  unfold started. fold n. unfold has_slot.
  split; simpl; try done.
  - rewrite slots_app. unfold holds_slot; simpl. rewrite andb_true_r. lia.
  - intros L HL. specialize (inv_bound0 L HL). specialize (HL _ inv_limit0).
    destruct (Z.eqb_spec (concurrencyLimit (tm w)) 0); [lia|].
    destruct (Z.ltb_spec (activeTransfers (tm w)) (concurrencyLimit (tm w))); simpl; lia.
  - intros i. setoid_rewrite Hlk. rewrite elem_of_app, inv_waiting0.
    destruct (_ || _); set_solver.
  - destruct (_ || _); [by rewrite app_nil_r|].
    apply StronglySorted_app_2; [|done|by repeat constructor].
    intros i j Hi Hj. apply list_elem_of_singleton in Hj. subst j.
    apply inv_waiting0 in Hi as (? & Hi & ?). by eapply Hlt.
  - intros _. destruct (Z.eqb_spec (concurrencyLimit (tm w)) 0); simpl; [lia|].
    destruct (Z.ltb_spec (activeTransfers (tm w)) (concurrencyLimit (tm w))); simpl; lia.
  - intros k i. setoid_rewrite Hlk. rewrite lookup_insert_Some, inv_keys0. split.
    + intros [[<- <-]|(? & s & ? & ? & ?)]; [eexists; split; [by right|done]|exists s; auto].
    + intros (s & [Hi|[-> ->]] & Hks & Hls); [|by left].
      right. split; [|by exists s]. intros ->.
      assert (transfers (tm w) !! k = Some i) by (apply inv_keys0; by exists s). congruence.
  - intros i s. rewrite Hlk. intros [Hi|[-> ->]]; [by eauto|].
    unfold live; split; simpl; try done; set_solver.
Qed.

Lemma Transfer_keeps key w :
  Inv 0 w → ∃ r w', Transfer key w = (Ok r, w') ∧ Inv 0 w'.
Proof using lim_nonneg.
  intros HI. unfold Transfer, st_gets, mbind at 1, ST_bind at 1.
  destruct (transfers (tm w) !! key) as [i|] eqn:Ek; cycle 1.
  { rewrite Transfer_start_eq. eauto using Inv_started. }
  apply (inv_keys _ _ HI) in Ek as (s & Hi & Hks & Hls).
  unfold fresh_watcher, mbind, ST_bind. set (w0 := mkWorld _ _ _).
  destruct (on_xfer_keeps 0 w0 i s (Watch (next_watcher w)) _ (Inv_next _ _ _ HI) Hi eq_refl)
    as (w1 & -> & HI1 & Htm & Hi1).
  { eapply Watch_SInv; [|done]. by eapply inv_sessions. }
  unfold get_session at 1. rewrite Hi1. simpl. destruct (cancelled (xfer s)); [|by eauto].
  pose proof (inv_sessions _ _ HI1 _ _ Hi1) as Hs1.
  destruct (Release_SInv _ (next_watcher w) Hs1) as (t' & Er & Hs'); [set_solver|].
  destruct (on_xfer_keeps _ _ _ _ _ _ HI1 Hi1 Er Hs') as (w2 & -> & HI2 & _). eauto.
Qed.

Lemma exec_keeps e w :
  Inv 0 w → allowed lim e w = true → ∃ w', exec e w = (Ok tt, w') ∧ Inv 0 w'.
Proof using lim_nonneg.
  intros HI Ha. assert (Hone : ∀ i s (m : ST transfer err unit) t',
    sessions w !! i = Some s → m (xfer s) = (Ok tt, t') → SInv (with_xfer s t') →
    ∃ w', on_xfer i m w = (Ok tt, w') ∧ Inv 0 w').
  { intros i s m t' Hi Hm Hs. destruct (on_xfer_keeps 0 w i s m t') as (w' & ? & ? & _); eauto. }
  destruct e as [n|key|i|i wt|i p|i|i|i|i|i|i]; cbn [exec allowed] in *;
    try (destruct (sessions w !! i) as [s|] eqn:Hi; simpl in Ha; [|done];
         pose proof (inv_sessions _ _ HI i s Hi) as Hs).
  - eexists. split; [done|]. destruct HI. by split.
  - destruct (Transfer_keeps key w HI) as (r & w' & E & ?). exists w'.
    unfold mbind, ST_bind. by rewrite E.
  - unfold fresh_watcher, mbind, ST_bind.
    destruct (on_xfer_keeps 0 _ i s (Watch (next_watcher w)) _ (Inv_next 0 w (S (next_watcher w)) HI) Hi eq_refl)
      as (w' & ? & ? & _); [by eapply Watch_SInv|eauto].
  - apply bool_decide_eq_true in Ha. destruct (Release_SInv s wt Hs Ha) as (t' & ? & ?). eauto.
  - eapply Hone; [done..|]. destruct Hs. by split.
  - apply andb_true_iff in Ha as [[Hst Hin]%andb_true_iff Hbd].
    unfold close_inactive, get_session, mbind, ST_bind. rewrite Hi.
    destruct (inactive s); [done|]. eexists. split; [done|].
    eapply Inv_update; try done; [|unfold holds_slot; simpl; lia]. destruct Hs. by split.
  - apply andb_true_iff in Ha as [Hst Hbd].
    eapply Hone; [done..|]. destruct Hs. by split.
  - apply andb_true_iff in Ha as [Hbd Hrun].
    eapply Hone; [done|unfold Broadcast_exit, mbind, ST_bind, st_get; by destruct (running (xfer s))|].
    destruct Hs. by split.
  - apply andb_true_iff in Ha as [Hin Hm%bool_decide_eq_true].
    by eapply monitor_inactive_keeps.
  - apply andb_true_iff in Ha as [Hrun Hm]. by eapply monitor_done_keeps.
  - apply bool_decide_eq_true in Ha. by eapply monitor_close_keeps.
Qed.

Lemma manager_Inv_New n : lim n = true → Inv 0 (NewTransferManager n).
Proof using lim_nonneg.
  intros Hn. split; simpl; try done.
  - intros L HL. specialize (HL n Hn). lia.
  - intros i. split; [by intros ?%elem_of_nil|]. intros (? & ? & ?); by rewrite lookup_nil in *.
  - constructor.
  - intros k i. rewrite lookup_empty. split; [done|]. intros (? & ? & ?); by rewrite lookup_nil in *.
Qed.

Lemma manager_Inv w : reachable lim w → Inv 0 w.
Proof using lim_nonneg.
  induction 1 as [n Hn|e w w' _ IH Ha He]; [by apply manager_Inv_New|].
  destruct (exec_keeps e w IH Ha) as (w'' & E & ?). congruence.
Qed.
End invariant.

(** ** Properties *)

(** The limits a configuration accepts: not negative. *)
Definition config_limit (n : Z) : bool := (0 <=? n)%Z.

(** The limits from 1 to [L]. *)
Definition limit_upto (L : Z) (n : Z) : bool := ((0 <? n) && (n <=? L))%Z.

Lemma config_limit_nonneg n : config_limit n = true → (0 ≤ n)%Z.
Proof. unfold config_limit. lia. Qed.

Lemma limit_upto_nonneg L n : limit_upto L n = true → (0 ≤ n)%Z.
Proof. unfold limit_upto. lia. Qed.

(** C17: the manager counts its slots exactly, whatever the interleaving of
    callers, jobs, broadcasts and monitors and however the limit is changed:
    [activeTransfers] is the number of transfers that were started and have
    not been made inactive; the queue holds exactly the transfers that were
    not started, each once, oldest request first; while some transfer waits,
    another one holds a slot it will pass on; and no step panics (no channel
    is closed twice, and no step fails). *)
Theorem slots_exact (w : world) :
  reachable config_limit w →
  activeTransfers (tm w) = Z.of_nat (slots (sessions w)) ∧
  (∀ i, i ∈ waitingTransfers (tm w) ↔ ∃ s, sessions w !! i = Some s ∧ start s = false) ∧
  StronglySorted lt (waitingTransfers (tm w)) ∧
  (waitingTransfers (tm w) ≠ [] → ∃ i s, sessions w !! i = Some s ∧ holds_slot s = true) ∧
  ∀ e, allowed config_limit e w = true → ∃ w', exec e w = (Ok tt, w').
Proof.
  intros Hw. pose proof (manager_Inv _ config_limit_nonneg w Hw) as HI. split_and!.
  - rewrite (inv_active _ _ _ HI). lia.
  - apply (inv_waiting _ _ _ HI).
  - apply (inv_fifo _ _ _ HI).
  - intros Hne. pose proof (inv_busy _ _ _ HI Hne) as Hb. rewrite (inv_active _ _ _ HI) in Hb.
    unfold slots in Hb. destruct (filter _ (sessions w)) as [|s l] eqn:Ef; simpl in Hb; [lia|].
    assert (s ∈ filter (λ s, holds_slot s = true) (sessions w)) as Hin by (rewrite Ef; left).
    apply list_elem_of_filter in Hin as [? Hin]. apply list_elem_of_lookup in Hin as [i ?]. eauto.
  - intros e Ha. destruct (exec_keeps _ config_limit_nonneg e w HI Ha) as (w' & ? & _). eauto.
Qed.

Lemma inactivate_pops w i s w' :
  sessions w !! i = Some s → start s = true → inactivate i w = (Ok tt, w') →
  waitingTransfers (tm w') = tail (waitingTransfers (tm w)).
Proof.
  intros Hi Hst. unfold inactivate, get_session, mbind, ST_bind, st_gets. rewrite Hi, Hst.
  destruct (waitingTransfers (tm w)) as [|j l] eqn:Hw; simpl.
  - unfold set_tm, st_modify. intros ?. by simplify_eq/=.
  - unfold close_start, get_session, mbind, ST_bind.
    destruct (sessions w !! j) as [sj|]; [|done]. destruct (start sj); [done|].
    unfold put_session, set_tm, st_modify; simpl. intros ?. by simplify_eq/=; rewrite Hw.
Qed.

(** With limits between 1 and [L] (changed at will in that range), at most
    [L] transfers are ever active at a time; and each time an active transfer
    becomes inactive or ends, the request that has waited longest is the one
    that leaves the queue. *)
Theorem slots_bounded (L : Z) (w : world) (i : nat) (s : session) (e : event) (w' : world) :
  reachable (limit_upto L) w →
  sessions w !! i = Some s → mon s = MonBoth →
  e = EMonInactive i ∨ e = EMonDone i →
  allowed (limit_upto L) e w = true → exec e w = (Ok tt, w') →
  (Z.of_nat (slots (sessions w)) ≤ L)%Z ∧
  (Z.of_nat (slots (sessions w')) ≤ L)%Z ∧
  waitingTransfers (tm w') = tail (waitingTransfers (tm w)).
Proof.
  intros Hw Hi Hmon He Ha Hex.
  assert (Hbound : ∀ w, reachable (limit_upto L) w → (Z.of_nat (slots (sessions w)) ≤ L)%Z).
  { intros w0 H0. pose proof (manager_Inv _ (limit_upto_nonneg L) w0 H0) as HI.
    assert (activeTransfers (tm w0) ≤ L)%Z; [|rewrite (inv_active _ _ _ HI) in *; lia].
    apply (inv_bound _ _ _ HI). unfold limit_upto. lia. }
  split_and!; [by apply Hbound|eapply Hbound, reach_step; eauto|].
  pose proof (manager_Inv _ (limit_upto_nonneg L) w Hw) as HI.
  pose proof (inv_sessions _ _ _ HI i s Hi) as Hs.
  assert (start s = true) as Hst.
  { destruct He as [-> | ->]; simpl in Ha; rewrite Hi in Ha; simpl in Ha;
      apply andb_true_iff in Ha as [Hc _]; [by apply Hs|by apply si_done, si_running]. }
  destruct (inactivate_spec _ 0 w i s HI Hi Hst) as (w1 & E & _ & Hi1).
  rewrite <-(inactivate_pops w i s w1 Hi Hst E).
  destruct He as [-> | ->]; simpl in Hex; revert Hex.
  - unfold monitor_inactive, mbind, ST_bind. rewrite E, (set_mon_eq _ _ w1 s Hi1).
    intros ?. by simplify_eq/=.
  - unfold monitor_done, get_session, mbind, ST_bind. rewrite Hi, decide_True, E by done.
    unfold set_tm, st_modify. rewrite (set_mon_eq _ _ _ s) by done. intros ?. by simplify_eq/=.
Qed.

(** One key has at most one transfer in the manager, the one that is not
    over yet for it; a transfer nobody watches has been cancelled (or is
    over); and [Released] is closed only after the transfer is over and the
    manager has let it go, and is closed once it has and no watcher is left. *)
Theorem transfer_lifecycle (w : world) (i : nat) (s : session) :
  reachable config_limit w → sessions w !! i = Some s →
  (live s = true ↔ transfers (tm w) !! skey s = Some i) ∧
  (∀ j s', sessions w !! j = Some s' → live s = true → live s' = true → skey s' = skey s → j = i) ∧
  (live s = false → running (xfer s) = true) ∧
  (watchers (xfer s) = ∅ → closed (xfer s) = false → cancelled (xfer s) = true) ∧
  (released (xfer s) = true → mon s = MonExit ∧ running (xfer s) = true) ∧
  (mon s = MonExit → watchers (xfer s) = ∅ → released (xfer s) = true).
Proof.
  intros Hw Hi. pose proof (manager_Inv _ config_limit_nonneg w Hw) as HI.
  pose proof (inv_keys _ _ _ HI) as Hk. pose proof (inv_sessions _ _ _ HI i s Hi) as Hs.
  assert (Hlive : live s = true ↔ transfers (tm w) !! skey s = Some i).
  { rewrite Hk. split; [eauto|]. intros (s' & ? & _ & ?). congruence. }
  split_and!; try apply Hs; [done|..].
  - intros j s' Hj Hl Hl' Hkey. apply Hlive in Hl.
    assert (transfers (tm w) !! skey s = Some j) by (apply Hk; eauto). congruence.
  - intros Hr%(si_released _ Hs). pose proof Hr as Hc. rewrite (si_closed _ Hs) in Hc.
    apply bool_decide_eq_true in Hc. split; [done|]. apply (si_dead _ Hs).
    unfold live. by rewrite Hc.
  - intros Hm He. apply (si_unwatched _ Hs He). rewrite (si_closed _ Hs). by rewrite Hm.
Qed.

(** ** Runs *)

Fixpoint run (lim : Z → bool) (es : list event) (w : world) : option world :=
  match es with
  | [] => Some w
  | e :: es' =>
      if allowed lim e w then
        match exec e w with (Ok _, w') => run lim es' w' | _ => None end
      else None
  end.

Lemma run_reachable lim es w w' :
  reachable lim w → run lim es w = Some w' → reachable lim w'.
Proof.
  revert w. induction es as [|e es IH]; intros w Hw Hr; simplify_eq/=; [done|].
  destruct (allowed lim e w) eqn:Ea; [|done]. destruct (exec e w) as [[[]|e'|m] w1] eqn:Ee; [|done..].
  eapply IH; [|done]. by eapply reach_step.
Qed.

(** Two slots, three requests: the third waits, and a repeated request joins
    the first transfer. *)
Definition ex_events : list event :=
  [ETransfer "a"; ETransfer "b"; ETransfer "c"; ETransfer "a"; EProgress 0 "50%"].

Definition ex_world : world :=
  default (NewTransferManager 2) (run (limit_upto 2) ex_events (NewTransferManager 2)).

Lemma ex_reachable lim :
  lim 2%Z = true → run lim ex_events (NewTransferManager 2) = Some ex_world → reachable lim ex_world.
Proof. intros H1 H2. eapply run_reachable; [|exact H2]. by apply reach_new. Qed.

Lemma slots_exact_witness :
  reachable config_limit ex_world ∧ activeTransfers (tm ex_world) = 2%Z ∧
  waitingTransfers (tm ex_world) = [2].
Proof.
  assert (H : reachable config_limit ex_world) by (apply ex_reachable; vm_compute; reflexivity).
  destruct (slots_exact ex_world H) as [H1 _].
  split; [exact H|]. split; [rewrite H1; vm_compute; reflexivity|vm_compute; reflexivity].
Defined.

(** The first transfer ends and its slot goes to the third request. *)
Definition ex_over : world :=
  default ex_world (run (limit_upto 2) [EEnd 0; ERunning 0] ex_world).

Lemma slots_bounded_witness :
  waitingTransfers (tm ex_over) = [2] ∧
  waitingTransfers (tm (exec (EMonDone 0) ex_over).2) = [].
Proof.
  split; [vm_compute; reflexivity|].
  destruct (sessions ex_over !! 0) as [s|] eqn:E; [|vm_compute in E; discriminate E].
  apply (slots_bounded 2 ex_over 0 s (EMonDone 0)).
  - apply (run_reachable (limit_upto 2) (ex_events ++ [EEnd 0; ERunning 0]) (NewTransferManager 2));
      [apply reach_new; reflexivity|vm_compute; reflexivity].
  - exact E.
  - vm_compute in E. injection E as <-. reflexivity.
  - right. reflexivity.
  - vm_compute. reflexivity.
  - vm_compute. reflexivity.
Defined.

Lemma transfer_lifecycle_witness :
  ∃ s, sessions ex_world !! 0 = Some s ∧ transfers (tm ex_world) !! "a" = Some 0.
Proof.
  destruct (sessions ex_world !! 0) as [s|] eqn:E; [|vm_compute in E; discriminate E].
  exists s. split; [reflexivity|].
  assert (H : reachable config_limit ex_world) by (apply ex_reachable; vm_compute; reflexivity).
  destruct (transfer_lifecycle ex_world 0 s H E) as [H1 _].
  vm_compute in E. injection E as <-. apply H1. reflexivity.
Defined.

(** What the contract of the job is for: a job that makes itself inactive
    before it was started is not counted out when its monitor looks, and is
    counted in later, when its turn in the queue comes.  The slot is lost:
    all transfers are over, and one is counted active. *)
Fixpoint run_any (es : list event) (w : world) : world :=
  match es with [] => w | e :: es' => run_any es' (exec e w).2 end.

Example early_inactive_loses_slot :
  let w := run_any [ETransfer "a"; ETransfer "b"; EInactive 1; EMonInactive 1;
                    EEnd 0; ERunning 0; EMonDone 0; EMonClose 0;
                    EEnd 1; ERunning 1; EMonDone 1; EMonClose 1] (NewTransferManager 1) in
  activeTransfers (tm w) = 1%Z ∧ mon <$> sessions w = [MonExit; MonExit].
Proof. vm_compute. done. Qed.
