(* ===== verification/ShellParser.v ===== *)
(** * builder/dockerfile: quotes and variables in the words of a Dockerfile

    Models [src/builder/dockerfile/shell_parser.go]: [ProcessWord] and
    [ProcessWords] remove quotes and escapes from a word and replace [$name],
    [${name}], [${name:-word}] and [${name:+word}] by values of the
    environment.  The [text/scanner] the code reads from is the list of the
    runes that are left (a byte order mark at the start is dropped, as
    [Peek] does); [Peek] looks at its head and [Next] removes it.

    The three methods that call each other take fuel, one unit a call and a
    turn of a loop; every call of [processDollar] has consumed a rune, so
    three units for each rune are enough (theorem [ProcessWord_total]).

    Shown: the parser terminates on every input; a word without special
    characters is left as it is, and is split exactly at its spaces; any
    string survives being escaped; and the forms of substitution. *)

From S2P Require Import Prelude GoStrings.
Local Open Scope N_scope.

Inductive error :=
| ErrUnsupportedModifier (modifier : option rune)   (* [None] is the end of the word *)
| ErrMissingColon.

(** ** The words being built *)

Record wordsStruct := mkWords { word : string; words : list string; inWord : bool }.

Definition no_words : wordsStruct := mkWords "" [] false.

Definition addRawChar (ch : rune) (w : wordsStruct) : wordsStruct :=
  mkWords (word w +:+ EncodeRune ch) (words w) true.

Definition addChar (ch : rune) (w : wordsStruct) : wordsStruct :=
  if IsSpace ch && inWord w then
    if bool_decide (word w ≠ "") then mkWords "" (words w ++ [word w]) false else w
  else if negb (IsSpace ch) then addRawChar ch w
  else w.

(** [scan.Init(strings.NewReader(str))]: the runes the scanner will give. *)
Definition scanner_init (str : string) : list rune :=
  match runes str with
  | ch :: rs => if ch =? 0xFEFF then rs else ch :: rs
  | [] => []
  end.

Definition addString (str : string) (w : wordsStruct) : wordsStruct :=
  foldl (λ w ch, addChar ch w) w (scanner_init str).

Definition addRawString (str : string) (w : wordsStruct) : wordsStruct :=
  mkWords (word w +:+ str) (words w) true.

Definition getWords (w : wordsStruct) : list string :=
  if bool_decide (word w ≠ "") then words w ++ [word w] else words w.

(** ** The environment *)

Definition getEnv (envs : list string) (name : string) : string :=
  (fix go (l : list string) : string :=
     match l with
     | [] => ""
     | env :: l' =>
         match Cut "="%char env with
         | (_, None) => if decide (name = env) then "" else go l'
         | (k, Some v) => if decide (name = k) then v else go l'
         end
     end) envs.

(** ** The parser *)

Section shellWord.
Context (T : UnicodeTables) (envs : list string).

(** The loop of [processName]. *)
Fixpoint processName (name : string) (rs : list rune) : string * list rune :=
  match rs with
  | [] => (name, [])
  | ch :: rs' =>
      if bool_decide (name = "") && IsDigit T ch then (EncodeRune ch, rs')
      else if negb (IsLetter T ch) && negb (IsDigit T ch) && negb (ch =? 95) then (name, rs)
      else processName (name +:+ EncodeRune ch) rs'
  end.

(** After the opening quote. *)
Fixpoint processSingleQuote (result : string) (rs : list rune) : string * list rune :=
  match rs with
  | [] => (result, [])
  | ch :: rs' => if ch =? 39 then (result, rs') else processSingleQuote (result +:+ EncodeRune ch) rs'
  end.

(** [None] is out of fuel. *)
Definition then_ {A B} (m : option (outcome error A)) (k : A → option (outcome error B)) : option (outcome error B) :=
  match m with
  | Some (Ok a) => k a
  | Some (Err e) => Some (Err e)
  | Some (Panic m) => Some (Panic m)
  | None => None
  end.

(** [processStopOn]: [stop] is the rune to stop on, [None] for [scanner.EOF];
    [result] and [w] are the two variables of the loop.
    [processDoubleQuote]: the loop after the opening quote.
    [processDollar]: after the dollar sign. *)
Fixpoint processStopOn (fuel : nat) (stop : option rune) (result : string) (w : wordsStruct)
    (rs : list rune) {struct fuel} : option (outcome error (string * list string * list rune)) :=
  match fuel with
  | O => None
  | S fuel =>
      match rs with
      | [] => Some (Ok (result, getWords w, []))
      | ch :: rs' =>
          if bool_decide (stop = Some ch) then Some (Ok (result, getWords w, rs'))
          else if ch =? 39 then
            let '(tmp, rs'') := processSingleQuote "" rs' in
            processStopOn fuel stop (result +:+ tmp) (addRawString tmp w) rs''
          else if ch =? 34 then
            then_ (processDoubleQuote fuel "" rs') (λ '(tmp, rs''),
              processStopOn fuel stop (result +:+ tmp) (addRawString tmp w) rs'')
          else if ch =? 36 then
            then_ (processDollar fuel rs') (λ '(tmp, rs''),
              processStopOn fuel stop (result +:+ tmp) (addString tmp w) rs'')
          else if ch =? 92 then
            match rs' with
            | [] => Some (Ok (result, getWords w, []))
            | ch' :: rs'' => processStopOn fuel stop (result +:+ EncodeRune ch') (addRawChar ch' w) rs''
            end
          else processStopOn fuel stop (result +:+ EncodeRune ch) (addChar ch w) rs'
      end
  end
with processDoubleQuote (fuel : nat) (result : string) (rs : list rune) {struct fuel}
    : option (outcome error (string * list rune)) :=
  match fuel with
  | O => None
  | S fuel =>
      match rs with
      | [] => Some (Ok (result, []))
      | ch :: rs' =>
          if ch =? 34 then Some (Ok (result, rs'))
          else if ch =? 36 then
            then_ (processDollar fuel rs') (λ '(tmp, rs''), processDoubleQuote fuel (result +:+ tmp) rs'')
          else if ch =? 92 then
            match rs' with
            | [] => processDoubleQuote fuel result []
            | chNext :: rs'' =>
                if (chNext =? 34) || (chNext =? 36)
                then processDoubleQuote fuel (result +:+ EncodeRune chNext) rs''
                else processDoubleQuote fuel (result +:+ EncodeRune ch) rs'
            end
          else processDoubleQuote fuel (result +:+ EncodeRune ch) rs'
      end
  end
with processDollar (fuel : nat) (rs : list rune) {struct fuel} : option (outcome error (string * list rune)) :=
  match fuel with
  | O => None
  | S fuel =>
      if bool_decide (head rs = Some 123) then
        let '(name, rs1) := processName "" (tail rs) in
        if bool_decide (head rs1 = Some 125) then Some (Ok (getEnv envs name, tail rs1))
        else if bool_decide (head rs1 = Some 58) then
          let modifier := head (tail rs1) in
          then_ (processStopOn fuel (Some 125) "" no_words (tail (tail rs1))) (λ '(word, _, rs2),
            let newValue := getEnv envs name in
            if bool_decide (modifier = Some 43) then
              Some (Ok (if bool_decide (newValue ≠ "") then word else newValue, rs2))
            else if bool_decide (modifier = Some 45) then
              Some (Ok (if bool_decide (newValue = "") then word else newValue, rs2))
            else Some (Err (ErrUnsupportedModifier modifier)))
        else Some (Err ErrMissingColon)
      else
        let '(name, rs1) := processName "" rs in
        if bool_decide (name = "") then Some (Ok ("$", rs1)) else Some (Ok (getEnv envs name, rs1))
  end.

Definition enough (rs : list rune) : nat := (3 * length rs + 3)%nat.

Definition process (w : string) : option (outcome error (string * list string * list rune)) :=
  let rs := scanner_init w in processStopOn (enough rs) None "" no_words rs.

Definition ProcessWord (w : string) : option (outcome error string) :=
  then_ (process w) (λ '(result, _, _), Some (Ok result)).

Definition ProcessWords (w : string) : option (outcome error (list string)) :=
  then_ (process w) (λ '(_, ws, _), Some (Ok ws)).
End shellWord.


(** ** Termination *)

Section termination.
Context (T : UnicodeTables) (envs : list string).

Lemma processName_shorter name rs : (length (processName T name rs).2 ≤ length rs)%nat.
Proof.
  revert name. induction rs as [|ch rs IH]; intros name; simpl; [lia|].
  destruct (_ && _); simpl; [lia|]. destruct (_ && _); simpl; [lia|].
  specialize (IH (name +:+ EncodeRune ch)). lia.
Qed.

Lemma processSingleQuote_shorter result rs : (length (processSingleQuote result rs).2 ≤ length rs)%nat.
Proof.
  revert result. induction rs as [|ch rs IH]; intros result; simpl; [lia|].
  destruct (ch =? 39); simpl; [lia|]. specialize (IH (result +:+ EncodeRune ch)). lia.
Qed.

(** The call returned, by a value with at most [n] runes left or by an error. *)
Definition returns {A} (n : nat) (rest : A → list rune) (m : option (outcome error A)) : Prop :=
  match m with
  | Some (Ok a) => (length (rest a) ≤ n)%nat
  | Some (Err _) => True
  | _ => False
  end.

Lemma returns_then {A B} n n' rA rB (m : option (outcome error A)) (k : A → option (outcome error B)) :
  returns n rA m → (∀ a, (length (rA a) ≤ n)%nat → returns n' rB (k a)) → returns n' rB (then_ m k).
Proof. intros Hm Hk. destruct m as [[a|e|x]|]; simpl in *; auto. Qed.

Lemma returns_le {A} n n' (r : A → list rune) m : returns n r m → (n ≤ n')%nat → returns n' r m.
Proof. destruct m as [[a|e|x]|]; simpl; lia. Qed.

Lemma process_returns fuel :
  (∀ stop result w rs, (3 * length rs + 3 ≤ fuel)%nat →
     returns (length rs) snd (processStopOn T envs fuel stop result w rs)) ∧
  (∀ result rs, (3 * length rs + 2 ≤ fuel)%nat →
     returns (length rs) snd (processDoubleQuote T envs fuel result rs)) ∧
  (∀ rs, (3 * length rs + 1 ≤ fuel)%nat → returns (length rs) snd (processDollar T envs fuel rs)).
Proof.
  induction fuel as [|fuel (IHs & IHq & IHd)]; (split_and!; [intros stop result w rs Hf|intros result rs Hf|intros rs Hf]);
    [lia|lia|lia|..]; simpl.
  - destruct rs as [|ch rs]; simpl in *; [lia|].
    destruct (bool_decide _); simpl; [lia|].
    destruct (ch =? 39).
    { pose proof (processSingleQuote_shorter "" rs) as Hl. destruct (processSingleQuote "" rs) as [tmp rs'].
      simpl in Hl. eapply returns_le; [apply IHs|]; lia. }
    destruct (ch =? 34).
    { eapply returns_then; [apply IHq; lia|]. intros [tmp rs'] Hl. simpl in Hl.
      eapply returns_le; [apply IHs|]; lia. }
    destruct (ch =? 36).
    { eapply returns_then; [apply IHd; lia|]. intros [tmp rs'] Hl. simpl in Hl.
      eapply returns_le; [apply IHs|]; lia. }
    destruct (ch =? 92); [destruct rs as [|ch' rs]; simpl in *; [lia|]|];
      (eapply returns_le; [apply IHs|]); lia.
  - destruct rs as [|ch rs]; simpl in *; [lia|]. destruct (ch =? 34); simpl; [lia|].
    destruct (ch =? 36).
    { eapply returns_then; [apply IHd; lia|]. intros [tmp rs'] Hl. simpl in Hl.
      eapply returns_le; [apply IHq|]; lia. }
    destruct (ch =? 92); [destruct rs as [|ch' rs]; [|destruct (_ || _)]|];
      (eapply returns_le; [apply IHq|]); simpl in *; lia.
  - case_bool_decide as Hh.
    + destruct rs as [|ch rs]; [done|]. simpl in *.
      pose proof (processName_shorter "" rs) as Hn. destruct (processName T "" rs) as [name rs1]. simpl in Hn.
      assert (length (tail rs1) ≤ length rs1)%nat by (destruct rs1; simpl; lia).
      assert (length (tail (tail rs1)) ≤ length (tail rs1))%nat by (destruct (tail rs1); simpl; lia).
      case_bool_decide; simpl; [lia|]. case_bool_decide; simpl; [|done].
      eapply returns_then; [apply IHs; lia|]. intros [[word ws] rs2] Hl. simpl in Hl.
      repeat case_bool_decide; simpl; auto; lia.
    + pose proof (processName_shorter "" rs) as Hn. destruct (processName T "" rs) as [name rs1].
      by case_bool_decide.
Qed.

(** More fuel does not change a result. *)
Definition le_result {A} (m m' : option (outcome error A)) : Prop := ∀ r, m = Some r → m' = Some r.

Lemma le_then {A B} (m m' : option (outcome error A)) (k k' : A → option (outcome error B)) :
  le_result m m' → (∀ a, le_result (k a) (k' a)) → le_result (then_ m k) (then_ m' k').
Proof.
  intros Hm Hk r. destruct m as [[a|e|x]|]; simpl; intros E; simplify_eq/=;
    rewrite (Hm _ eq_refl); simpl; [by apply Hk|done|done].
Qed.

Lemma process_mono fuel :
  (∀ stop result w rs, le_result (processStopOn T envs fuel stop result w rs)
                                 (processStopOn T envs (S fuel) stop result w rs)) ∧
  (∀ result rs, le_result (processDoubleQuote T envs fuel result rs)
                          (processDoubleQuote T envs (S fuel) result rs)) ∧
  (∀ rs, le_result (processDollar T envs fuel rs) (processDollar T envs (S fuel) rs)).
Proof.
  induction fuel as [|fuel (IHs & IHq & IHd)];
    (split_and!; [intros stop result w rs|intros result rs|intros rs]); [done..| | |].
  - cbn [processStopOn]. destruct rs as [|ch rs]; [by intros r|].
    destruct (bool_decide _); [by intros r|].
    destruct (ch =? 39); [destruct (processSingleQuote "" rs); apply IHs|].
    destruct (ch =? 34); [apply le_then; [apply IHq|intros []; apply IHs]|].
    destruct (ch =? 36); [apply le_then; [apply IHd|intros []; apply IHs]|].
    destruct (ch =? 92); [destruct rs; [by intros r|]|]; apply IHs.
  - cbn [processDoubleQuote]. destruct rs as [|ch rs]; [by intros r|].
    destruct (ch =? 34); [by intros r|].
    destruct (ch =? 36); [apply le_then; [apply IHd|intros []; apply IHq]|].
    destruct (ch =? 92); [destruct rs; [|destruct (_ || _)]|]; apply IHq.
  - cbn [processDollar]. destruct (bool_decide (head rs = _)); [|by intros r].
    destruct (processName T "" (tail rs)) as [name rs1].
    destruct (bool_decide _); [by intros r|]. destruct (bool_decide _); [|by intros r].
    apply le_then; [apply IHs|]. intros [[]] r. done.
Qed.

Lemma process_more fuel fuel' stop result w rs r :
  (fuel ≤ fuel')%nat → processStopOn T envs fuel stop result w rs = Some r →
  processStopOn T envs fuel' stop result w rs = Some r.
Proof.
  induction 1 as [|fuel' _ IH]; [done|]. intros E. by apply (proj1 (process_mono fuel')), IH.
Qed.

(** C32: the parser of words terminates: on every word it returns a value or an
    error and does not panic, within a number of calls and loop turns that is
    three for each rune of the word and three more; and the result is the same
    for any larger number. *)
Theorem ProcessWord_total (w : string) :
  ((∃ s, ProcessWord T envs w = Some (Ok s)) ∨ (∃ e, ProcessWord T envs w = Some (Err e))) ∧
  ∀ fuel, (enough (scanner_init w) ≤ fuel)%nat →
    processStopOn T envs fuel None "" no_words (scanner_init w) = process T envs w.
Proof.
  pose proof (proj1 (process_returns (enough (scanner_init w))) None "" no_words (scanner_init w) ltac:(done)) as H.
  unfold ProcessWord, process. split.
  - destruct (processStopOn _ _ _ _ _ _ _) as [[[[s ws] rs]|e|m]|]; simpl in *; [left|right| |]; eauto; done.
  - intros fuel Hf. destruct (processStopOn T envs (enough _) _ _ _ _) as [r|] eqn:E; [|done].
    by eapply process_more.
Qed.
End termination.

(** ** Words without special characters *)

(** Not a quote, a dollar sign or a backslash. *)
Definition plain (ch : rune) : bool :=
  negb (ch =? 39) && negb (ch =? 34) && negb (ch =? 36) && negb (ch =? 92).

(** The reference for splitting, [strings.Fields]: the maximal runs of runes
    that are not spaces. *)
Fixpoint split_runes (P : rune → bool) (rs : list rune) : list (list rune) :=
  match rs with
  | [] => [[]]
  | ch :: rs' =>
      if P ch then [] :: split_runes P rs'
      else match split_runes P rs' with
           | [] => [[ch]]
           | x :: xs => (ch :: x) :: xs
           end
  end.

Definition Fields (rs : list rune) : list string :=
  of_runes <$> filter (λ x, x ≠ []) (split_runes IsSpace rs).

Section plain.
Context (T : UnicodeTables) (envs : list string).

Lemma EncodeRune_nonempty r : EncodeRune r ≠ "".
Proof. unfold EncodeRune. repeat case_match; done. Qed.

Lemma plain_process stop result w rs fuel :
  Forall (λ ch, plain ch = true ∧ stop ≠ Some ch) rs → (length rs < fuel)%nat →
  processStopOn T envs fuel stop result w rs =
  Some (Ok (result +:+ of_runes rs, getWords (foldl (λ w ch, addChar ch w) w rs), [])).
Proof.
  intros Hall. revert result w fuel. induction Hall as [|ch rs [Hp Hst] _ IH];
    intros result w [|fuel] Hf; simpl in *; try lia.
  - by rewrite app_nil_str.
  - rewrite bool_decide_false by done. unfold plain in Hp.
    repeat (apply andb_true_iff in Hp as [Hp ?]). rewrite negb_true_iff in *.
    repeat match goal with H : (_ =? _) = false |- _ => rewrite H; clear H end.
    rewrite IH by lia. by rewrite app_assoc_str.
Qed.

(** The splitter in the middle of a word, of which [cur] has been read. *)
Definition glue (cur : list rune) (l : list (list rune)) : list (list rune) :=
  match l with [] => [cur] | x :: xs => (cur ++ x) :: xs end.

Lemma of_runes_empty cur : of_runes cur = "" ↔ cur = [].
Proof.
  split; [|by intros ->]. destruct cur as [|ch cur]; [done|]. simpl.
  pose proof (EncodeRune_nonempty ch). by destruct (EncodeRune ch).
Qed.

Lemma split_runes_cons P rs : ∃ x xs, split_runes P rs = x :: xs.
Proof. destruct rs as [|ch rs]; simpl; [eauto|]. destruct (P ch); [eauto|]. destruct (split_runes P rs); eauto. Qed.

Lemma addChar_Fields rs : ∀ cur ws,
  getWords (foldl (λ w ch, addChar ch w) (mkWords (of_runes cur) ws (bool_decide (cur ≠ []))) rs) =
  ws ++ (of_runes <$> filter (λ x, x ≠ []) (glue cur (split_runes IsSpace rs))).
Proof.
  induction rs as [|ch rs IH]; intros cur ws; cbn [foldl split_runes].
  - unfold getWords; simpl. rewrite app_nil_r, (bool_decide_ext _ (cur ≠ [])) by (by rewrite of_runes_empty).
    case_bool_decide; [by rewrite filter_cons_True|]. rewrite filter_cons_False by naive_solver. by rewrite app_nil_r.
  - unfold addChar at 2; cbn [inWord word words]. destruct (IsSpace ch); simpl.
    + rewrite app_nil_r. case_bool_decide as Hc.
      * rewrite bool_decide_true by (by rewrite of_runes_empty).
        rewrite filter_cons_True by done. pose proof (IH [] (ws ++ [of_runes cur])) as H.
        rewrite bool_decide_false in H by naive_solver. simpl in H |- *. rewrite H.
        destruct (split_runes_cons IsSpace rs) as (x & xs & ->). by rewrite <-app_assoc.
      * subst cur. rewrite filter_cons_False by naive_solver.
        pose proof (IH [] ws) as H. rewrite bool_decide_false in H by naive_solver. simpl in H |- *. rewrite H.
        destruct (split_runes_cons IsSpace rs) as (x & xs & ->). done.
    + unfold addRawChar; simpl.
      specialize (IH (cur ++ [ch]) ws). rewrite of_runes_app in IH. simpl in IH.
      rewrite app_nil_str, bool_decide_true in IH by (by destruct cur). rewrite IH.
      destruct (split_runes_cons IsSpace rs) as (x & xs & ->). simpl. by rewrite <-app_assoc.
Qed.

(** On a word with none of the characters that are special, the parser is
    the identity, and [ProcessWords] is [strings.Fields], the split at white
    space, whatever the environment. *)
Theorem plain_words (rs : list rune) :
  Forall (λ ch, valid_rune ch = true ∧ plain ch = true) rs → head rs ≠ Some 0xFEFF →
  ProcessWord T envs (of_runes rs) = Some (Ok (of_runes rs)) ∧
  ProcessWords T envs (of_runes rs) = Some (Ok (Fields rs)).
Proof.
  intros Hall Hbom.
  assert (Hi : scanner_init (of_runes rs) = rs).
  { unfold scanner_init. rewrite <-(app_nil_str (of_runes rs)), runes_of_runes, runes_empty, app_nil_r
      by (eapply Forall_impl; [done|]; naive_solver).
    destruct rs as [|ch rs]; [done|]. destruct (N.eqb_spec ch 0xFEFF); [|done]. naive_solver. }
  unfold ProcessWord, ProcessWords, process. rewrite Hi.
  rewrite plain_process; [|eapply Forall_impl; [done|]; naive_solver|unfold enough; lia].
  simpl. split; [done|]. do 2 f_equal.
  pose proof (addChar_Fields rs [] []) as H. simpl in H.
  unfold no_words. rewrite H. unfold Fields. by destruct (split_runes_cons IsSpace rs) as (x & xs & ->).
Qed.

(** ** Escapes *)

(** Every rune after a backslash. *)
Definition escape (rs : list rune) : list rune := rs ≫= λ ch, [92; ch].

Lemma escape_process result w rs fuel :
  (length rs < fuel)%nat →
  processStopOn T envs fuel None result w (escape rs) =
  Some (Ok (result +:+ of_runes rs, getWords (foldl (λ w ch, addRawChar ch w) w rs), [])).
Proof.
  revert result w fuel. induction rs as [|ch rs IH]; intros result w [|fuel] Hf; simpl in *; try lia.
  - by rewrite app_nil_str.
  - fold (escape rs). rewrite IH by lia. by rewrite app_assoc_str.
Qed.

Lemma addRawChars w rs :
  foldl (λ w ch, addRawChar ch w) w rs =
  mkWords (word w +:+ of_runes rs) (words w) (inWord w || bool_decide (rs ≠ [])).
Proof.
  revert w. induction rs as [|ch rs IH]; intros [wd ws b]; simpl.
  - by rewrite app_nil_str, orb_false_r.
  - rewrite IH. simpl. by rewrite app_assoc_str, orb_true_r.
Qed.

(** Every string survives being escaped: the word in which each character
    of it comes after a backslash is expanded to the string itself, as one
    word, whatever quotes, spaces, dollar signs and backslashes it has. *)
Theorem escape_roundtrip (rs : list rune) :
  Forall (λ ch, valid_rune ch = true) rs →
  ProcessWord T envs (of_runes (escape rs)) = Some (Ok (of_runes rs)) ∧
  ProcessWords T envs (of_runes (escape rs)) = Some (Ok (if decide (rs = []) then [] else [of_runes rs])).
Proof.
  intros Hall.
  assert (Hi : scanner_init (of_runes (escape rs)) = escape rs).
  { unfold scanner_init. rewrite <-(app_nil_str (of_runes (escape rs))), runes_of_runes, runes_empty, app_nil_r.
    - by destruct rs.
    - unfold escape. induction Hall; simpl; [done|]. by repeat constructor. }
  unfold ProcessWord, ProcessWords, process. rewrite Hi, escape_process; cycle 1.
  { unfold enough. assert (length rs ≤ length (escape rs))%nat; [|lia].
    clear. induction rs as [|ch rs IH]; simpl in *; [lia|]. fold (escape rs). lia. }
  simpl. split; [done|]. rewrite addRawChars. unfold getWords; simpl. rewrite app_empty_str.
  case_decide as Hrs; [by rewrite Hrs|]. by rewrite bool_decide_true by (by rewrite of_runes_empty).
Qed.
End plain.

(** ** Substitution *)

Section substitution.
Context (T : UnicodeTables) (envs : list string).

Definition name_char (ch : rune) : bool := IsLetter T ch || IsDigit T ch || (ch =? 95).

(** A name: letters, digits and underscores, not starting with a digit. *)
Definition ident (n : list rune) : Prop :=
  n ≠ [] ∧ Forall (λ ch, name_char ch = true) n ∧ from_option (λ ch, IsDigit T ch = false) True (head n).

Lemma processName_ident name n rest :
  Forall (λ ch, name_char ch = true) n →
  (name = "" → from_option (λ ch, IsDigit T ch = false) True (head (n ++ rest))) →
  from_option (λ ch, name_char ch = false) True (head rest) →
  processName T name (n ++ rest) = (name +:+ of_runes n, rest).
Proof.
  intros Hn. revert name. induction Hn as [|ch n Hch _ IH]; intros name Hd Hr.
  - simpl. rewrite app_nil_str. destruct rest as [|ch rest]; [done|]. simpl in *.
    unfold name_char in Hr. rewrite !orb_false_iff in Hr. destruct Hr as [[-> Hdig] ->].
    rewrite Hdig, andb_false_r. done.
  - simpl. assert (bool_decide (name = "") && IsDigit T ch = false) as ->.
    { case_bool_decide; [|done]. simpl. by apply Hd. }
    unfold name_char in Hch. rewrite !orb_true_iff in Hch.
    assert (negb (IsLetter T ch) && negb (IsDigit T ch) && negb (ch =? 95) = false) as ->
      by (destruct (IsLetter T ch), (IsDigit T ch), (ch =? 95); naive_solver).
    rewrite IH; [by rewrite app_assoc_str| |done]. intros H.
    pose proof (EncodeRune_nonempty ch). by destruct name, (EncodeRune ch).
Qed.

(** A plain word up to the rune to stop on. *)
Lemma stop_plain stop result w rs rest fuel :
  Forall (λ ch, plain ch = true ∧ ch ≠ stop) rs → (length rs < fuel)%nat →
  ∃ ws, processStopOn T envs fuel (Some stop) result w (rs ++ stop :: rest) =
        Some (Ok (result +:+ of_runes rs, ws, rest)).
Proof.
  intros Hall. revert result w fuel. induction Hall as [|ch rs [Hp Hst] _ IH];
    intros result w [|fuel] Hf; simpl in *; try lia.
  - rewrite bool_decide_true by done. rewrite app_nil_str. eauto.
  - rewrite bool_decide_false by congruence. unfold plain in Hp.
    repeat (apply andb_true_iff in Hp as [Hp ?]). rewrite negb_true_iff in *.
    repeat match goal with H : (_ =? _) = false |- _ => rewrite H; clear H end.
    rewrite <-app_assoc_str. apply IH. lia.
Qed.

Lemma stop_dollar fuel result w rs :
  processStopOn T envs (S fuel) None result w (36 :: rs) =
  then_ (processDollar T envs fuel rs) (λ '(tmp, rs'),
    processStopOn T envs fuel None (result +:+ tmp) (addString tmp w) rs').
Proof. done. Qed.

Lemma dollar_brace fuel rs name rs1 :
  processName T "" rs = (name, rs1) → head rs1 = Some 58 →
  processDollar T envs (S fuel) (123 :: rs) =
  then_ (processStopOn T envs fuel (Some 125) "" no_words (tail (tail rs1))) (λ '(word, _, rs2),
    let newValue := getEnv envs name in
    let modifier := head (tail rs1) in
    if bool_decide (modifier = Some 43) then
      Some (Ok (if bool_decide (newValue ≠ "") then word else newValue, rs2))
    else if bool_decide (modifier = Some 45) then
      Some (Ok (if bool_decide (newValue = "") then word else newValue, rs2))
    else Some (Err (ErrUnsupportedModifier modifier))).
Proof. intros Hn H58. destruct rs1 as [|c rs1]; [done|]. injection H58 as ->. simpl. by rewrite Hn. Qed.

Lemma dollar_word fuel rs r :
  Forall (λ ch, valid_rune ch = true) rs → (fuel ≤ 3 * length rs)%nat →
  processDollar T envs (S fuel) rs = Some r → (∀ v rest, r = Ok (v, rest) → rest = []) →
  ProcessWord T envs (of_runes (36 :: rs)) =
  Some (match r with Ok (v, _) => Ok v | Err e => Err e | Panic m => Panic m end).
Proof.
  intros Hv Hf Hd Hr. unfold ProcessWord, process, scanner_init.
  rewrite <-(app_nil_str (of_runes _)), runes_of_runes, runes_empty, app_nil_r by (by constructor).
  change (36 =? 0xFEFF) with false. cbn [fst snd].
  assert (H : processStopOn T envs (S (S fuel)) None "" no_words (36 :: rs) =
    Some (match r with
          | Ok (v, _) => Ok (v, getWords (addString v no_words), [])
          | Err e => Err e | Panic m => Panic m end)).
  { rewrite stop_dollar, Hd. destruct r as [[v rest]|e|x]; [|done..]. simpl. by rewrite (Hr v rest). }
  rewrite (process_more T envs (S (S fuel)) (enough (36 :: rs)) None "" no_words (36 :: rs) _
             ltac:(unfold enough; simpl; lia) H). by destruct r as [[v rest]|e|x].
Qed.

Lemma processName_ident' n rest :
  ident n → from_option (λ ch, name_char ch = false) True (head rest) →
  processName T "" (n ++ rest) = (of_runes n, rest).
Proof.
  intros (Hne & Hname & Hdig) Hr. rewrite processName_ident; [done|done| |done].
  intros _. by destruct n.
Qed.

(** [${n:xd}] after the dollar sign. *)
Lemma brace_modifier n d x fuel :
  ident n → Forall (λ ch, plain ch = true ∧ ch ≠ 125) d → (length d < fuel)%nat →
  let v := getEnv envs (of_runes n) in
  processDollar T envs (S fuel) (123 :: n ++ (58 :: x :: d) ++ [125]) =
  Some (if bool_decide (x = 43) then Ok (if decide (v = "") then "" else of_runes d, [])
        else if bool_decide (x = 45) then Ok (if decide (v = "") then of_runes d else v, [])
        else Err (ErrUnsupportedModifier (Some x))).
Proof.
  intros Hid Hd Hf v.
  rewrite (dollar_brace fuel _ _ _ (processName_ident' n ((58 :: x :: d) ++ [125]) Hid eq_refl)) by done.
  simpl. destruct (stop_plain 125 "" no_words d [] fuel Hd Hf) as [ws ->]. simpl. fold v. clearbody v.
  repeat case_bool_decide; repeat case_decide; simplify_eq; try done; naive_solver.
Qed.

(** Substitution.  For a name [n] whose value in the environment is [v]
    (empty when it is not set), [$n] and [${n}] stand for [v], [${n:-d}] for
    [v] when it is not empty and for [d] otherwise, [${n:+d}] for [d] when [v]
    is not empty and for the empty string otherwise, and [${n:md}] with any
    other modifier [m] is refused. *)
Theorem substitution_forms (n d : list rune) (m : rune) :
  ident n → Forall (λ ch, valid_rune ch = true) (m :: n ++ d) →
  Forall (λ ch, plain ch = true ∧ ch ≠ 125) d → m ≠ 43 → m ≠ 45 →
  let v := getEnv envs (of_runes n) in
  let brace rest := of_runes (36 :: 123 :: n ++ rest ++ [125]) in
  ProcessWord T envs (of_runes (36 :: n)) = Some (Ok v) ∧
  ProcessWord T envs (brace []) = Some (Ok v) ∧
  ProcessWord T envs (brace (58 :: 45 :: d)) = Some (Ok (if decide (v = "") then of_runes d else v)) ∧
  ProcessWord T envs (brace (58 :: 43 :: d)) = Some (Ok (if decide (v = "") then "" else of_runes d)) ∧
  ProcessWord T envs (brace (58 :: m :: d)) = Some (Err (ErrUnsupportedModifier (Some m))).
Proof.
  intros Hid Hv Hd Hm1 Hm2 v brace.
  apply Forall_cons in Hv as [Hvm [Hvn Hvd]%Forall_app].
  assert (Hword : ∀ x, valid_rune x = true → ProcessWord T envs (brace (58 :: x :: d)) =
    Some (if bool_decide (x = 43) then Ok (if decide (v = "") then "" else of_runes d)
          else if bool_decide (x = 45) then Ok (if decide (v = "") then of_runes d else v)
          else Err (ErrUnsupportedModifier (Some x)))).
  { intros x Hx. unfold brace. set (rs := 123 :: n ++ (58 :: x :: d) ++ [125]).
    assert (Hrs : Forall (λ ch, valid_rune ch = true) rs)
      by (unfold rs; by repeat (rewrite Forall_app || rewrite Forall_cons)).
    assert (Hf : (length d + 2 ≤ 3 * length rs)%nat)
      by (unfold rs; simpl; rewrite length_app; simpl; rewrite length_app; simpl; lia).
    pose proof (brace_modifier n d x (length d + 2) Hid Hd ltac:(lia)) as Hm. fold v rs in Hm.
    erewrite dollar_word; [|exact Hrs|exact Hf|exact Hm|]; repeat case_bool_decide; naive_solver. }
  split_and!.
  - rewrite (dollar_word 1 n (Ok (v, []))); [done|done|destruct Hid; destruct n; simpl; [done|lia]| |naive_solver].
    pose proof (processName_ident' n [] Hid I) as Hp. rewrite app_nil_r in Hp. cbn [processDollar].
    destruct Hid as (Hne & Hname & _). rewrite bool_decide_false, Hp, bool_decide_false; [done|by rewrite of_runes_empty|].
    destruct n as [|ch n']; [done|]. intros [= ->]. by apply Forall_cons in Hname as [? _].
  - change (brace []) with (of_runes (36 :: 123 :: n ++ [125])).
    rewrite (dollar_word 1 (123 :: n ++ [125]) (Ok (v, [])));
      [done|by repeat (rewrite Forall_app || rewrite Forall_cons)|simpl; lia| |naive_solver].
    cbn [processDollar]. rewrite bool_decide_true by done. simpl. by rewrite (processName_ident' n [125] Hid eq_refl).
  - by rewrite Hword.
  - by rewrite Hword.
  - rewrite Hword by done. by rewrite !bool_decide_false by done.
Qed.
End substitution.

(** ** Witnesses *)

Lemma ProcessWord_total_witness :
  processStopOn latin1 ["x=1"] 100 None "" no_words (scanner_init "a${x:-b}") = process latin1 ["x=1"] "a${x:-b}".
Proof. apply (ProcessWord_total latin1 ["x=1"] "a${x:-b}"). vm_compute. lia. Defined.

Lemma plain_words_witness :
  ProcessWords latin1 [] (of_runes [97; 32; 9; 98; 99]) = Some (Ok ["a"; "bc"]).
Proof.
  apply (plain_words latin1 [] [97; 32; 9; 98; 99]).
  - repeat constructor.
  - discriminate.
Defined.

Lemma escape_roundtrip_witness :
  ProcessWords latin1 [] (of_runes (escape [36; 32; 39; 92])) = Some (Ok ["$ '\"]).
Proof. apply (escape_roundtrip latin1 [] [36; 32; 39; 92]). repeat constructor. Defined.

Lemma substitution_forms_witness :
  ProcessWord latin1 ["y=1"] "${x:-d}" = Some (Ok "d") ∧ ProcessWord latin1 ["x=1"] "${x:+d}" = Some (Ok "d").
Proof.
  split.
  - apply (substitution_forms latin1 ["y=1"] [120] [100] 42); try discriminate; repeat constructor; discriminate.
  - apply (substitution_forms latin1 ["x=1"] [120] [100] 42); try discriminate; repeat constructor; discriminate.
Defined.
