(* ===== verification/Json.v ===== *)
(** * The JSON decoder of the Go standard library

    What the code uses of [encoding/json]: [json.NewDecoder(r).Decode(&v)]
    for a [v] of type [[]interface{}].  The decoder reads one value and leaves
    what follows it unread.  A string is decoded as [unquote] does: escapes
    are replaced, a surrogate pair is one rune, a lone surrogate and an invalid
    UTF-8 sequence are U+FFFD.  A number is checked against the grammar and
    then given to [strconv.ParseFloat], whose range check is the parameter
    [float_ok].

    The functions take fuel, one unit a call: two calls at most are made for
    each byte, and [Decode] gives twice the length of its input and two more.
    [Decode_print] shows that a printed
    array of strings is read back. *)

From S2P Require Import Prelude GoStrings.
Local Open Scope N_scope.

#[warnings="-register-all"] Inductive value :=
| JNull
| JBool (b : bool)
| JNumber (s : string)
| JString (s : string)
| JArray (l : list value)
| JObject (l : list (string * value)).

(** Space, tab, line feed, carriage return. *)
Definition json_space (a : ascii) : bool :=
  let n := byte_val a in (n =? 32) || (n =? 9) || (n =? 10) || (n =? 13).

Fixpoint skip_space (s : string) : string :=
  match s with
  | String a s' => if json_space a then skip_space s' else s
  | "" => ""
  end.

(** *** Strings *)

Definition hex_val (a : ascii) : option N :=
  let n := byte_val a in
  if in_range 48 57 n then Some (n - 48)
  else if in_range 97 102 n then Some (n - 87)
  else if in_range 65 70 n then Some (n - 55)
  else None.

(** [getu4], after the backslash: the code unit of [uXXXX] and the rest. *)
Definition getu4 (s : string) : option (N * string) :=
  match s with
  | String u (String a (String b (String c (String d s')))) =>
      if byte_val u =? 117 then
        x ← hex_val a; y ← hex_val b; z ← hex_val c; t ← hex_val d;
        Some (((x * 16 + y) * 16 + z) * 16 + t, s')
      else None
  | _ => None
  end.

Definition is_surrogate (r : rune) : bool := in_range 0xD800 0xDFFF r.

(** [utf16.DecodeRune] on a pair that is one. *)
Definition surrogate_pair (r1 r2 : rune) : option rune :=
  if in_range 0xD800 0xDBFF r1 && in_range 0xDC00 0xDFFF r2
  then Some ((r1 - 0xD800) * 1024 + (r2 - 0xDC00) + 0x10000) else None.

Definition simple_escape (a : ascii) : option ascii :=
  let n := byte_val a in
  if (n =? 34) || (n =? 92) || (n =? 47) then Some a
  else if n =? 98 then Some (byte_of 8)
  else if n =? 102 then Some (byte_of 12)
  else if n =? 110 then Some (byte_of 10)
  else if n =? 114 then Some (byte_of 13)
  else if n =? 116 then Some (byte_of 9)
  else None.

(** The rune of [uXXXX] and what is left: a pair takes the next escape too. *)
Definition unicode_escape (s : string) : option (rune * string) :=
  '(r, s') ← getu4 s;
  if is_surrogate r then
    match s' with
    | String bs s1 =>
        if byte_val bs =? 92 then
          match getu4 s1 with
          | Some (r2, s2) =>
              match surrogate_pair r r2 with
              | Some rr => Some (rr, s2)
              | None => Some (RuneError, s')
              end
          | None => Some (RuneError, s')
          end
        else Some (RuneError, s')
    | "" => Some (RuneError, s')
    end
  else Some (r, s').

(** After the opening quote. *)
Fixpoint parse_string (fuel : nat) (acc : string) (s : string) : option (string * string) :=
  match fuel with
  | O => None
  | S fuel =>
      match s with
      | "" => None
      | String a s' =>
          if byte_val a =? 34 then Some (acc, s')
          else if byte_val a <? 32 then None
          else if byte_val a =? 92 then
            match s' with
            | "" => None
            | String e s'' =>
                match simple_escape e with
                | Some c => parse_string fuel (acc +:+ String c "") s''
                | None =>
                    match unicode_escape s' with
                    | Some (r, s3) => parse_string fuel (acc +:+ EncodeRune r) s3
                    | None => None
                    end
                end
            end
          else
            match DecodeRune s with
            | Some (r, s'') => parse_string fuel (acc +:+ EncodeRune r) s''
            | None => None
            end
      end
  end.

(** *** Numbers *)

Definition is_digit (a : ascii) : bool := in_range 48 57 (byte_val a).

Fixpoint take_digits (s : string) : string * string :=
  match s with
  | String a s' => if is_digit a then let '(d, r) := take_digits s' in (String a d, r) else ("", s)
  | "" => ("", "")
  end.

(** At least one digit. *)
Definition digits1 (s : string) : option (string * string) :=
  match take_digits s with
  | ("", _) => None
  | (d, r) => Some (d, r)
  end.

Definition number_int (s : string) : option (string * string) :=
  match s with
  | String "0" s' => Some ("0", s')
  | _ => digits1 s
  end.

Definition number_frac (s : string) : option (string * string) :=
  match s with
  | String "." s' => '(d, r) ← digits1 s'; Some (String "." d, r)
  | _ => Some ("", s)
  end.

Definition number_exp (s : string) : option (string * string) :=
  match s with
  | String e s' =>
      if (byte_val e =? 101) || (byte_val e =? 69) then
        match s' with
        | String sg s'' =>
            if (byte_val sg =? 43) || (byte_val sg =? 45)
            then '(d, r) ← digits1 s''; Some (String e (String sg d), r)
            else '(d, r) ← digits1 s'; Some (String e d, r)
        | "" => None
        end
      else Some ("", s)
  | "" => Some ("", "")
  end.

Definition parse_number (s : string) : option (string * string) :=
  let '(sign, s0) := match s with String "-" s' => ("-", s') | _ => ("", s) end in
  '(i, s1) ← number_int s0;
  '(f, s2) ← number_frac s1;
  '(e, s3) ← number_exp s2;
  Some (sign +:+ i +:+ f +:+ e, s3).

(** *** Values *)

Fixpoint strip_prefix (p s : string) : option string :=
  match p, s with
  | "", _ => Some s
  | String a p', String b s' => if ascii_dec a b then strip_prefix p' s' else None
  | _, "" => None
  end.

Section decode.
Context (float_ok : string → bool).

(** [parse_items] and [parse_members] read from after an opening bracket or a
    comma, the first time with [first = true]. *)
Fixpoint parse_value (fuel : nat) (s : string) {struct fuel} : option (value * string) :=
  match fuel with
  | O => None
  | S fuel =>
      match skip_space s with
      | "" => None
      | String a s' as s0 =>
          let n := byte_val a in
          if n =? 34 then '(x, r) ← parse_string fuel "" s'; Some (JString x, r)
          else if n =? 91 then '(l, r) ← parse_items fuel true s'; Some (JArray l, r)
          else if n =? 123 then '(l, r) ← parse_members fuel true s'; Some (JObject l, r)
          else if n =? 116 then r ← strip_prefix "true" s0; Some (JBool true, r)
          else if n =? 102 then r ← strip_prefix "false" s0; Some (JBool false, r)
          else if n =? 110 then r ← strip_prefix "null" s0; Some (JNull, r)
          else '(x, r) ← parse_number s0; if float_ok x then Some (JNumber x, r) else None
      end
  end
with parse_items (fuel : nat) (first : bool) (s : string) {struct fuel} : option (list value * string) :=
  match fuel with
  | O => None
  | S fuel =>
      match skip_space s with
      | String "]" r => if first then Some ([], r) else None
      | s0 =>
          '(v, r) ← parse_value fuel s0;
          match skip_space r with
          | String "]" r' => Some ([v], r')
          | String "," r' => '(l, r'') ← parse_items fuel false r'; Some (v :: l, r'')
          | _ => None
          end
      end
  end
with parse_members (fuel : nat) (first : bool) (s : string) {struct fuel} : option (list (string * value) * string) :=
  match fuel with
  | O => None
  | S fuel =>
      match skip_space s with
      | String "}" r => if first then Some ([], r) else None
      | String q s' =>
          if byte_val q =? 34 then
            '(k, r) ← parse_string fuel "" s';
            match skip_space r with
            | String ":" r1 =>
                '(v, r2) ← parse_value fuel r1;
                match skip_space r2 with
                | String "}" r' => Some ([(k, v)], r')
                | String "," r' => '(l, r'') ← parse_members fuel false r'; Some ((k, v) :: l, r'')
                | _ => None
                end
            | _ => None
            end
          else None
      | "" => None
      end
  end.

(** [Decode] of an array: the elements, [None] for an error.  (The value
    [null] leaves the slice nil, which has no elements.) *)
Definition Decode (s : string) : option (list value) :=
  match parse_value (2 * String.length s + 2) s with
  | Some (JArray l, _) => Some l
  | Some (JNull, _) => Some []
  | _ => None
  end.
End decode.

(** ** Printing arrays of strings *)

Definition hex_digit (n : N) : ascii := byte_of (if n <? 10 then 48 + n else 87 + n).

Definition quote : ascii := byte_of 34.
Definition backslash : ascii := byte_of 92.

Definition print_rune (r : rune) : string :=
  if (r =? 34) || (r =? 92) then String backslash (String (byte_of r) "")
  else if r <? 32 then
    String backslash ("u00" +:+ String (hex_digit (r / 16)) (String (hex_digit (r mod 16)) ""))
  else EncodeRune r.

Definition print_runes (rs : list rune) : string := foldr (λ r s, print_rune r +:+ s) "" rs.

Definition print_string (rs : list rune) : string :=
  String quote (print_runes rs +:+ String quote "").

(** The elements after the first one, and the closing bracket. *)
Fixpoint print_rest (l : list (list rune)) : string :=
  match l with
  | [] => "]"
  | x :: l' => String "," (print_string x +:+ print_rest l')
  end.

Definition print_array (l : list (list rune)) : string :=
  match l with
  | [] => "[]"
  | x :: l' => String "[" (print_string x +:+ print_rest l')
  end.

Lemma EncodeRune_first r :
  valid_rune r = true → 32 ≤ r → r ≠ 34 → r ≠ 92 →
  ∃ a t, EncodeRune r = String a t ∧ 32 ≤ byte_val a ∧ byte_val a ≠ 34 ∧ byte_val a ≠ 92.
Proof.
  intros Hv H32 H34 H92. unfold EncodeRune. rewrite Hv.
  assert (Hr : r < 0xD800 ∨ 0xDFFF < r ≤ 0x10FFFF).
  { unfold valid_rune in Hv. rewrite orb_true_iff, andb_true_iff, !N.ltb_lt, N.leb_le in Hv. lia. }
  destruct (N.ltb_spec r 0x80); [|destruct (N.ltb_spec r 0x800); [|destruct (N.ltb_spec r 0x10000)]];
    eexists _, _; (split; [reflexivity|]); rewrite byte_val_of; try lia;
    match goal with
    | |- context [?x / ?d] =>
        first [assert (x / d < 16) by (apply N.Div0.div_lt_upper_bound; lia)
              |assert (x / d < 32) by (apply N.Div0.div_lt_upper_bound; lia)];
        generalize dependent (x / d); intros; lia
    end.
Qed.

Lemma control_escape r rest :
  r < 32 → simple_escape (byte_of 117) = None ∧
  unicode_escape ("u00" +:+ String (hex_digit (r / 16)) (String (hex_digit (r mod 16)) rest)) = Some (r, rest).
Proof.
  intros Hr. split; [done|].
  assert (Hin : In r (map N.of_nat (seq 0 32))).
  { apply in_map_iff. exists (N.to_nat r). split; [lia|]. apply in_seq. lia. }
  cbn in Hin. repeat (destruct Hin as [<-|Hin]; [done|]). done.
Qed.

Lemma parse_string_print rs fuel acc rest :
  Forall (λ r, valid_rune r = true) rs → (length rs < fuel)%nat →
  parse_string fuel acc (print_runes rs +:+ String quote rest) = Some (acc +:+ of_runes rs, rest).
Proof.
  intros Hall. revert fuel acc. induction Hall as [|r rs Hr _ IH]; intros [|fuel] acc Hf;
    simpl in Hf; try lia; simpl.
  - by rewrite app_nil_str.
  - rewrite app_assoc_str. unfold print_rune.
    destruct (decide (r = 34)) as [->|H34].
    { change (parse_string fuel (acc +:+ EncodeRune 34) (print_runes rs +:+ String quote rest) =
              Some (acc +:+ (EncodeRune 34 +:+ of_runes rs), rest)). rewrite IH by lia. by rewrite app_assoc_str. }
    destruct (decide (r = 92)) as [->|H92].
    { change (parse_string fuel (acc +:+ EncodeRune 92) (print_runes rs +:+ String quote rest) =
              Some (acc +:+ (EncodeRune 92 +:+ of_runes rs), rest)). rewrite IH by lia. by rewrite app_assoc_str. }
    rewrite (proj2 (N.eqb_neq _ _) H34), (proj2 (N.eqb_neq _ _) H92). simpl.
    destruct (N.ltb_spec r 32) as [H32|H32].
    + destruct (control_escape r (print_runes rs +:+ String quote rest) H32) as [He Hu].
      rewrite app_cons_str. change (byte_val backslash =? 34) with false.
      change (byte_val backslash <? 32) with false. change (byte_val backslash =? 92) with true. cbn iota.
      rewrite !app_assoc_str, !app_cons_str in *. rewrite !app_empty_str in *.
      change (simple_escape "u"%char) with (@None ascii). cbn iota. rewrite Hu, IH by lia. by rewrite app_assoc_str.
    + destruct (EncodeRune_first r Hr H32 H34 H92) as (a & t & Ea & Ha1 & Ha2 & Ha3).
      pose proof (DecodeRune_Encode r (print_runes rs +:+ String quote rest) Hr) as Hd.
      rewrite Ea in Hd |- *. rewrite app_cons_str in Hd |- *.
      rewrite (proj2 (N.eqb_neq _ _) Ha2), (proj2 (N.eqb_neq _ _) Ha3), (proj2 (N.ltb_ge _ _) Ha1).
      rewrite Hd. rewrite IH by lia. by rewrite app_assoc_str, Ea.
Qed.

Section printed.
Context (float_ok : string → bool).

Abbreviation valid_runes rs := (Forall (λ r, valid_rune r = true) rs).

(** What a printed array needs: its runes and three bytes for each string. *)
Definition weight (l : list (list rune)) : nat := foldr (λ x n, (length x + 3 + n)%nat) O l.

Lemma parse_value_string rs fuel rest :
  valid_runes rs → (length rs + 1 < fuel)%nat →
  parse_value float_ok fuel (print_string rs +:+ rest) = Some (JString (of_runes rs), rest).
Proof.
  intros Hv Hf. destruct fuel as [|fuel]; [lia|].
  change (print_string rs +:+ rest) with (String quote ((print_runes rs +:+ String quote "") +:+ rest)).
  rewrite app_assoc_str, app_cons_str, app_empty_str.
  assert (E : ∀ t, parse_value float_ok (S fuel) (String quote t) =
    ('(x, r) ← parse_string fuel "" t; Some (JString x, r))) by done.
  by rewrite E, parse_string_print by (done || lia).
Qed.

Lemma parse_items_step fuel first x t :
  valid_runes x → (length x + 1 < fuel)%nat →
  parse_items float_ok (S fuel) first (print_string x +:+ t) =
  match skip_space t with
  | String "]" r' => Some ([JString (of_runes x)], r')
  | String "," r' => '(l, r'') ← parse_items float_ok fuel false r'; Some (JString (of_runes x) :: l, r'')
  | _ => None
  end.
Proof.
  intros Hx Hf. transitivity ('(v, r) ← parse_value float_ok fuel (print_string x +:+ t);
    match skip_space r with
    | String "]" r' => Some ([v], r')
    | String "," r' => '(l, r'') ← parse_items float_ok fuel false r'; Some (v :: l, r'')
    | _ => None
    end); [done|]. by rewrite parse_value_string.
Qed.

Lemma parse_items_print l : ∀ x first fuel rest,
  Forall (λ x, valid_runes x) (x :: l) → (weight (x :: l) < fuel)%nat →
  parse_items float_ok fuel first (print_string x +:+ print_rest l +:+ rest) =
  Some (JString ∘ of_runes <$> (x :: l), rest).
Proof.
  induction l as [|y l IH]; intros x first fuel rest [Hx Hl]%Forall_cons Hf; simpl in Hf;
    (destruct fuel as [|fuel]; [lia|]); rewrite parse_items_step by (done || lia).
  - done.
  - cbn [print_rest]. rewrite app_cons_str, app_assoc_str. cbn [skip_space].
    change (json_space ","%char) with false. cbn iota. rewrite IH; [done|done|]. simpl. lia.
Qed.

Lemma print_runes_length rs : (length rs ≤ String.length (print_runes rs))%nat.
Proof.
  induction rs as [|r rs IH]; simpl; [lia|]. rewrite length_app_str.
  assert (1 ≤ String.length (print_rune r))%nat; [|lia].
  unfold print_rune, EncodeRune. repeat case_match; simpl; lia.
Qed.

Lemma print_string_length x : (length x + 2 ≤ String.length (print_string x))%nat.
Proof. unfold print_string. simpl. rewrite length_app_str. simpl. pose proof (print_runes_length x). lia. Qed.

Lemma print_rest_length l : (weight l ≤ String.length (print_rest l))%nat.
Proof.
  induction l as [|y l IH]; [simpl; lia|]. cbn [print_rest String.length]. rewrite length_app_str.
  pose proof (print_string_length y). cbn [weight foldr]. fold (weight l). lia.
Qed.

Lemma print_length x l : (weight (x :: l) ≤ String.length (print_array (x :: l)))%nat.
Proof.
  pose proof (print_string_length x). pose proof (print_rest_length l).
  cbn [print_array String.length]. rewrite length_app_str. cbn [weight foldr]. fold (weight l). lia.
Qed.

(** A printed array of strings is decoded to the strings it was printed
    from, whatever characters they have, and whatever follows the array. *)
Lemma Decode_print (l : list (list rune)) (rest : string) :
  Forall (λ x, valid_runes x) l →
  Decode float_ok (print_array l +:+ rest) = Some (JString ∘ of_runes <$> l).
Proof.
  intros Hl. unfold Decode. destruct l as [|x l].
  { replace (2 * String.length (print_array [] +:+ rest) + 2)%nat with (S (S (2 * String.length rest + 4)));
      [done|]. rewrite length_app_str. simpl. lia. }
  pose proof (print_length x l) as Hlen. rewrite length_app_str.
  assert (E : ∀ f t, parse_value float_ok (S f) (String "[" t) =
    ('(l, r) ← parse_items float_ok f true t; Some (JArray l, r))) by done.
  rewrite Nat.add_comm. change (2 + ?n)%nat with (S (S n)).
  cbn [print_array]. rewrite app_cons_str, app_assoc_str, E, parse_items_print; [done|done|].
  cbn [print_array] in Hlen. lia.
Qed.
End printed.

