(* ===== verification/DockerfileParser.v ===== *)
(** * builder/dockerfile/parser: Dockerfiles to parse trees

    Models [src/builder/dockerfile/parser]: [parser.go] (directives,
    continuation lines, [ParseLine] and [Parse]), [line_parsers.go] (the
    parsers of the arguments of each instruction) and [utils.go] (splitting an
    instruction into command, flags and arguments).

    A [*Node] that may be nil is an [option Node]; the attributes, of which
    only [json] is ever set, are a boolean.  The regular expressions are
    written out as the functions on strings they denote.  The lines are those
    that [bufio.Scanner] delivers: without their newline and one carriage
    return before it, up to the first line of 64 KiB or more, where the scanner
    stops ([ScanLines]).  [ParseLine] calls itself on the argument of ONBUILD,
    which is shorter than the line: its fuel is the length of the line.

    Shown: an instruction in the JSON form gives exactly the strings of the
    array; words are split where they were joined; a line broken by the escape
    character is the same instruction; and how the nodes are numbered. *)

From S2P Require Import Prelude GoStrings Json.
Local Open Scope N_scope.

#[warnings="-register-all"] Inductive Node := mkNode {
  Value : string;
  Next : option Node;
  Children : list (option Node);
  json : bool;              (* Attributes["json"] *)
  Original : string;
  Flags : list string;
  StartLine : Z;
  EndLine : Z;
}.

Record Directive := mkDirective {
  EscapeToken : ascii;      (* with LineContinuationRegex, which it determines *)
  LookingForDirectives : bool;
  EscapeSeen : bool;
}.

Inductive error :=
| ErrInvalidEscape (s : string)
| ErrEscapeTwice
| ErrTwoArguments (key : string)
| ErrNoEquals (word : string)
| ErrNotStringArray
| ErrNotJSONArray (rest : string)
| ErrJSON.

Section parser.
Context (unicode_lower : string → string) (float_ok : string → bool).

(** ** Regular expressions *)

(** [[\t\v\f\r ]] *)
Definition token_space (a : ascii) : bool :=
  let n := byte_val a in (n =? 9) || (n =? 11) || (n =? 12) || (n =? 13) || (n =? 32).

Fixpoint skip_token_space (s : string) : string :=
  match s with
  | String a s' => if token_space a then skip_token_space s' else s
  | "" => ""
  end.

(** [tokenWhitespace.Split(s, 2)]: the part before the first run of white
    space, and the part after it when there is one. *)
Fixpoint split2 (s : string) : string * option string :=
  match s with
  | "" => ("", None)
  | String a s' =>
      if token_space a then ("", Some (skip_token_space s'))
      else let '(x, y) := split2 s' in (String a x, y)
  end.

(** [tokenWhitespace.Split(s, -1)]; [inside] a run of white space. *)
Fixpoint split_all_go (inside : bool) (s : string) : list string :=
  match s with
  | "" => [""]
  | String a s' =>
      if token_space a then
        if inside then split_all_go true s' else "" :: split_all_go true s'
      else match split_all_go false s' with
           | x :: xs => String a x :: xs
           | [] => [String a ""]
           end
  end.
Definition split_all (s : string) : list string := split_all_go false s.

(** Space or tab. *)
Definition blank (a : ascii) : bool := let n := byte_val a in (n =? 9) || (n =? 32).

Fixpoint skip_blank (s : string) : string :=
  match s with
  | String a s' => if blank a then skip_blank s' else s
  | "" => ""
  end.

(** [^#[ \t]*escape[ \t]*=[ \t]*(?P<escapechar>.).*$]: the group.  The blanks
    after the equals sign give one back when nothing else is left. *)
Definition tokenEscapeCommand (s : string) : option string :=
  match s with
  | String "#" s1 =>
      s2 ← strip_prefix "escape" (skip_blank s1);
      s3 ← strip_prefix "=" (skip_blank s2);
      match DecodeRune (skip_blank s3) with
      | Some (r, rest) =>
          (* the bytes of the rune *)
          Some (String.substring 0 (String.length (skip_blank s3) - String.length rest) (skip_blank s3))
      | None =>
          (* only blanks are left: the last one, when there is one *)
          match String.get (String.length s3 - 1) s3 with
          | Some a => Some (String a "")
          | None => None
          end
      end
  | _ => None
  end.

(** [^#.*$] on a line. *)
Definition stripComments (line : string) : string :=
  match line with String "#" _ => "" | _ => line end.

(** Only blanks. *)
Fixpoint all_blank (s : string) : bool :=
  match s with "" => true | String a s' => blank a && all_blank s' end.

(** [\<token>[ \t]*$]: the line without the match, when there is one.  The
    blanks cannot hold the token, so there is one match at most. *)
Fixpoint LineContinuation (token : ascii) (s : string) : option string :=
  match s with
  | "" => None
  | String a s' =>
      if bool_decide (a = token) && all_blank s' then Some ""
      else s0 ← LineContinuation token s'; Some (String a s0)
  end.

Definition DefaultEscapeToken : string := "\".

Definition SetEscapeToken (s : string) (d : Directive) : outcome error Directive :=
  match s with
  | String a "" =>
      if bool_decide (a = "`"%char ∨ a = "\"%char)
      then Ok (mkDirective a (LookingForDirectives d) (EscapeSeen d))
      else Err (ErrInvalidEscape s)
  | _ => Err (ErrInvalidEscape s)
  end.

(** ** Nodes *)

Definition node (value : string) (next : option Node) : Node :=
  mkNode value next [] false "" [] 0 0.

(** The nodes of the values, linked by [Next]. *)
Definition chain (values : list string) : option Node :=
  foldr (λ v n, Some (node v n)) None values.

(** ** Words (line_parsers.go) *)

Inductive phase := inSpaces | inWord | inQuote.

Record wstate := mkW { ph : phase; wd : string; quote_ : rune; blankOK : bool; found : list string }.

Definition push (w : wstate) : list string :=
  if blankOK w || bool_decide (wd w ≠ "") then found w ++ [wd w] else found w.

(** The loop of [parseWords]; the tests at the end of the input are the case
    of the empty list. *)
Fixpoint parseWords_loop (esc : rune) (rs : list rune) (w : wstate) {struct rs} : list string :=
  match rs with
  | [] => match ph w with inSpaces => found w | _ => push w end
  | ch :: rs' =>
      let in_word w :=
        if IsSpace ch then parseWords_loop esc rs' (mkW inSpaces "" (quote_ w) false (push w))
        else
          let w := if (ch =? 39) || (ch =? 34) then mkW inQuote (wd w) ch true (found w) else w in
          if ch =? esc then
            match rs' with
            | [] => parseWords_loop esc rs' w
            | ch' :: rs'' =>
                parseWords_loop esc rs''
                  (mkW (ph w) (wd w +:+ EncodeRune ch +:+ EncodeRune ch') (quote_ w) (blankOK w) (found w))
            end
          else parseWords_loop esc rs' (mkW (ph w) (wd w +:+ EncodeRune ch) (quote_ w) (blankOK w) (found w)) in
      match ph w with
      | inSpaces =>
          if IsSpace ch then parseWords_loop esc rs' w
          else in_word (mkW inWord (wd w) (quote_ w) (blankOK w) (found w))
      | inWord => in_word w
      | inQuote =>
          let w := if ch =? quote_ w then mkW inWord (wd w) (quote_ w) (blankOK w) (found w) else w in
          if (ch =? esc) && negb (quote_ w =? 39) then
            match rs' with
            | [] => parseWords_loop esc rs' (mkW inWord (wd w) (quote_ w) (blankOK w) (found w))
            | ch' :: rs'' =>
                parseWords_loop esc rs''
                  (mkW (ph w) (wd w +:+ EncodeRune ch +:+ EncodeRune ch') (quote_ w) (blankOK w) (found w))
            end
          else parseWords_loop esc rs' (mkW (ph w) (wd w +:+ EncodeRune ch) (quote_ w) (blankOK w) (found w))
      end
  end.

Definition parseWords (rest : string) (d : Directive) : list string :=
  parseWords_loop (byte_val (EscapeToken d)) (runes rest) (mkW inSpaces "" 0 false []).

(** ** The parsers of arguments *)

(** The node, whether the attribute [json] is set, or an error. *)
Definition parsed := outcome error (option Node * bool).

Definition parseIgnore (rest : string) (d : Directive) : parsed := Ok (Some (node "" None), false).

(** [name=value] words, as the values of the linked nodes. *)
Fixpoint nameVals (words : list string) : outcome error (list string) :=
  match words with
  | [] => Ok []
  | word :: words' =>
      match Cut "=" word with
      | (_, None) => Err (ErrNoEquals word)
      | (name, Some value) =>
          match nameVals words' with
          | Ok l => Ok (name :: value :: l)
          | Err e => Err e
          | Panic m => Panic m
          end
      end
  end.

Definition parseNameVal (rest key : string) (d : Directive) : parsed :=
  match parseWords rest d with
  | [] => Ok (None, false)
  | (word :: _) as words =>
      if negb (ContainsByte "=" word) then
        match split2 rest with
        | (_, None) => Err (ErrTwoArguments key)
        | (name, Some value) => Ok (chain [name; value], false)
        end
      else
        match nameVals words with
        | Ok l => Ok (chain l, false)
        | Err e => Err e
        | Panic m => Panic m
        end
  end.

Definition parseEnv (rest : string) (d : Directive) : parsed := parseNameVal rest "ENV" d.
Definition parseLabel (rest : string) (d : Directive) : parsed := parseNameVal rest "LABEL" d.

Definition parseNameOrNameVal (rest : string) (d : Directive) : parsed :=
  Ok (chain (parseWords rest d), false).

Definition parseStringsWhitespaceDelimited (rest : string) (d : Directive) : parsed :=
  if bool_decide (rest = "") then Ok (None, false) else Ok (chain (split_all rest), false).

Definition parseString (rest : string) (d : Directive) : parsed :=
  if bool_decide (rest = "") then Ok (None, false) else Ok (Some (node rest None), false).

(** All elements are strings. *)
Fixpoint json_strings (l : list value) : option (list string) :=
  match l with
  | [] => Some []
  | JString s :: l' => s' ← json_strings l'; Some (s :: s')
  | _ :: _ => None
  end.

Definition parseJSON (rest0 : string) (d : Directive) : parsed :=
  let rest := TrimLeftSpace rest0 in
  if negb (HasPrefix rest "[") then Err (ErrNotJSONArray rest)
  else match Decode float_ok rest with
  | None => Err ErrJSON
  | Some l =>
      match json_strings l with
      | None => Err ErrNotStringArray
      | Some ss => Ok (chain ss, true)
      end
  end.

Definition parseMaybeJSON (rest : string) (d : Directive) : parsed :=
  if bool_decide (rest = "") then Ok (None, false)
  else match parseJSON rest d with
       | Ok r => Ok r
       | Err ErrNotStringArray => Err ErrNotStringArray
       | _ => Ok (Some (node rest None), false)
       end.

Definition parseMaybeJSONToList (rest : string) (d : Directive) : parsed :=
  match parseJSON rest d with
  | Ok r => Ok r
  | Err ErrNotStringArray => Err ErrNotStringArray
  | _ => parseStringsWhitespaceDelimited rest d
  end.

(** [unicode.IsSpace(rune(b))] of a byte. *)
Definition byte_space (a : ascii) : bool := IsSpace (byte_val a).

(** The string up to the first byte on which [P] holds, and from it on. *)
Fixpoint span_until (P : ascii → bool) (s : string) : string * string :=
  match s with
  | "" => ("", "")
  | String a s' => if P a then ("", s) else let '(x, y) := span_until P s' in (String a x, y)
  end.

Definition parseHealthConfig (rest : string) (d : Directive) : parsed :=
  let '(typ, after) := span_until byte_space rest in
  let '(_, next) := span_until (λ a, negb (byte_space a)) after in
  if bool_decide (typ = "") then Ok (None, false)
  else match parseMaybeJSON next d with
       | Ok (cmd, attrs) => Ok (Some (node typ cmd), attrs)
       | Err e => Err e
       | Panic m => Panic m
       end.

(** ** Commands and flags (utils.go) *)

(** [extractBuilderFlags]: [s] is [line[pos:]].  A byte is read as a rune of
    its own.  The result is what is left of the line, and the flags. *)
Fixpoint extractBuilderFlags_loop (s : string) (w : wstate) {struct s} : string * list string :=
  match s with
  | "" =>
      match ph w with
      | inSpaces => ("", found w)
      | _ => ("", if bool_decide (wd w ≠ "--") then push w else found w)
      end
  | String a s' =>
      let ch := byte_val a in
      let add (p : phase) (w : wstate) :=
        (* [\] takes the next byte as it is; at the end of the line it is dropped *)
        if ch =? 92 then
          match s' with
          | "" => extractBuilderFlags_loop s' (mkW inWord (wd w) (quote_ w) (blankOK w) (found w))
          | String b s'' =>
              extractBuilderFlags_loop s''
                (mkW p (wd w +:+ EncodeRune (byte_val b)) (quote_ w) (blankOK w) (found w))
          end
        else extractBuilderFlags_loop s' (mkW p (wd w +:+ EncodeRune ch) (quote_ w) (blankOK w) (found w)) in
      let in_word (w : wstate) :=
        if IsSpace ch then
          if bool_decide (wd w = "--") then (s, found w)
          else extractBuilderFlags_loop s' (mkW inSpaces "" (quote_ w) false (push w))
        else if (ch =? 39) || (ch =? 34) then
          extractBuilderFlags_loop s' (mkW inQuote (wd w) ch true (found w))
        else add inWord w in
      match ph w with
      | inSpaces =>
          if IsSpace ch then extractBuilderFlags_loop s' w
          else if HasPrefix s "--" then in_word (mkW inWord (wd w) (quote_ w) (blankOK w) (found w))
          else (s, found w)
      | inWord => in_word w
      | inQuote =>
          if ch =? quote_ w then extractBuilderFlags_loop s' (mkW inWord (wd w) (quote_ w) (blankOK w) (found w))
          else add inQuote w
      end
  end.

Definition extractBuilderFlags (line : string) : string * list string :=
  extractBuilderFlags_loop line (mkW inSpaces "" 0 false []).

(** The command, its flags and its arguments. *)
Definition splitCommand (line : string) : string * list string * string :=
  match split2 (TrimSpace line) with
  | (cmd, None) => (ToLower unicode_lower cmd, [], TrimSpace "")
  | (cmd, Some rest) =>
      let '(args, flags) := extractBuilderFlags rest in
      (ToLower unicode_lower cmd, flags, TrimSpace args)
  end.

(** ** Lines (parser.go) *)

(** The table [dispatch], without ONBUILD. *)
Definition dispatch (cmd : string) : string → Directive → parsed :=
  if bool_decide (cmd ∈ ["add"; "copy"; "volume"]) then parseMaybeJSONToList
  else if bool_decide (cmd ∈ ["cmd"; "entrypoint"; "run"; "shell"]) then parseMaybeJSON
  else if bool_decide (cmd ∈ ["from"; "maintainer"; "stopsignal"; "user"; "workdir"]) then parseString
  else if bool_decide (cmd = "arg") then parseNameOrNameVal
  else if bool_decide (cmd = "env") then parseEnv
  else if bool_decide (cmd = "label") then parseLabel
  else if bool_decide (cmd = "expose") then parseStringsWhitespaceDelimited
  else if bool_decide (cmd = "healthcheck") then parseHealthConfig
  else parseIgnore.

(** [parseSubCommand], with [ParseLine] as an argument. *)
Definition parseSubCommand (ParseLine : string → Directive → outcome error (string * option Node * Directive))
    (rest : string) (d : Directive) : parsed :=
  if bool_decide (rest = "") then Ok (None, false)
  else match ParseLine rest d with
       | Ok (_, child, _) => Ok (Some (mkNode "" None [child] false "" [] 0 0), false)
       | Err e => Err e
       | Panic m => Panic m
       end.

Definition fullDispatch (ParseLine : string → Directive → outcome error (string * option Node * Directive))
    (cmd args : string) (d : Directive) : parsed :=
  if bool_decide (cmd = "onbuild") then parseSubCommand ParseLine args d else dispatch cmd args d.

(** The first lines of [ParseLine]: [Some] when the line is an escape directive. *)
Definition escape_directive (line : string) (d : Directive) : option (outcome error Directive) :=
  if LookingForDirectives d then
    s ← tokenEscapeCommand (ToLower unicode_lower line);
    Some (if EscapeSeen d then Err ErrEscapeTwice
          else match SetEscapeToken s d with
               | Ok d' => Ok (mkDirective (EscapeToken d') (LookingForDirectives d') true)
               | Err e => Err e
               | Panic m => Panic m
               end)
  else None.

(** What is left of the line, the node, and the directives after it. *)
Fixpoint ParseLine (fuel : nat) (line : string) (d : Directive) {struct fuel}
    : outcome error (string * option Node * Directive) :=
  match fuel with
  | O => Panic "stack overflow"
  | S fuel =>
      match escape_directive line d with
      | Some (Ok d') => Ok ("", None, d')
      | Some (Err e) => Err e
      | Some (Panic m) => Panic m
      | None =>
          let d := mkDirective (EscapeToken d) false (EscapeSeen d) in
          let line := stripComments line in
          if bool_decide (line = "") then Ok ("", None, d)
          else match LineContinuation (EscapeToken d) line with
          | Some line' => Ok (line', None, d)
          | None =>
              let '(cmd, flags, args) := splitCommand line in
              match fullDispatch (ParseLine fuel) cmd args d with
              | Ok (sexp, attrs) => Ok ("", Some (mkNode cmd sexp [] attrs line flags 0 0), d)
              | Err e => Err e
              | Panic m => Panic m
              end
          end
      end
  end.

Definition parse_line (line : string) (d : Directive) := ParseLine (S (String.length line)) line d.

(** *** [bufio.Scanner] with [bufio.ScanLines] *)

Definition MaxScanTokenSize : nat := 64 * 1024.

Definition dropCR (s : string) : string :=
  match String.get (String.length s - 1) s with
  | Some a => if byte_val a =? 13 then String.substring 0 (String.length s - 1) s else s
  | None => s
  end.

(** The lines of a file: the part after the last newline is one when it is not
    empty. *)
Fixpoint split_lines (s : string) : list string :=
  match s with
  | "" => []
  | String a s' =>
      if byte_val a =? 10 then "" :: split_lines s'
      else match split_lines s' with
           | x :: xs =>
               (* [x] continues this line unless a newline came between *)
               String a x :: xs
           | [] => [String a ""]
           end
  end.

(** Scanning stops for good at a line that does not fit in the buffer. *)
Fixpoint scan (lines : list string) : list string :=
  match lines with
  | [] => []
  | l :: ls => if decide (String.length l < MaxScanTokenSize)%nat then dropCR l :: scan ls else []
  end.

Definition ScanLines (s : string) : list string := scan (split_lines s).

(** *** [Parse] *)

Record root := mkRoot { r_start : Z; r_end : Z; r_children : list Node }.

Definition add_child (n : Node) (startLine currentLine : Z) (r : root) : root :=
  mkRoot (if (r_start r <? 0)%Z then currentLine else r_start r) currentLine
         (r_children r ++ [mkNode (Value n) (Next n) (Children n) (json n) (Original n) (Flags n)
                                  startLine currentLine]).

Definition utf8bom : string := String (byte_of 0xEF) (String (byte_of 0xBB) (String (byte_of 0xBF) "")).

Definition TrimPrefix (s p : string) : string := default s (strip_prefix p s).

(** The two nested loops.  [pending] is [Some] in the inner loop: the text of
    the continued line and the number of its first line. *)
Fixpoint parse_loop (lines : list string) (currentLine : Z) (pending : option (string * Z))
    (d : Directive) (r : root) : outcome error (root * Directive) :=
  match lines, pending with
  | [], None => Ok (r, d)
  | [], Some (line, startLine) =>
      if bool_decide (line = "") then Ok (r, d)
      else match parse_line line d with
           | Ok (_, Some child, d') => Ok (add_child child startLine currentLine r, d')
           | Ok (_, None, d') => Ok (r, d')
           | Err e => Err e
           | Panic m => Panic m
           end
  | scanned :: lines', None =>
      let bytes := if bool_decide (currentLine = 0%Z) then TrimPrefix scanned utf8bom else scanned in
      let currentLine := (currentLine + 1)%Z in
      match parse_line (TrimLeftSpace bytes) d with
      | Ok (_, Some child, d') => parse_loop lines' currentLine None d' (add_child child currentLine currentLine r)
      | Ok (line, None, d') =>
          parse_loop lines' currentLine (if bool_decide (line = "") then None else Some (line, currentLine)) d' r
      | Err e => Err e
      | Panic m => Panic m
      end
  | newline :: lines', Some (line, startLine) =>
      let currentLine := (currentLine + 1)%Z in
      if bool_decide (stripComments (TrimSpace newline) = "")
      then parse_loop lines' currentLine (Some (line, startLine)) d r
      else match parse_line (line +:+ newline) d with
           | Ok (_, Some child, d') => parse_loop lines' currentLine None d' (add_child child startLine currentLine r)
           | Ok (line', None, d') => parse_loop lines' currentLine (Some (line', startLine)) d' r
           | Err e => Err e
           | Panic m => Panic m
           end
  end.

(** The tree, and the directives, which the caller keeps for the next file. *)
Definition Parse (file : string) (d : Directive) : outcome error (root * Directive) :=
  parse_loop (ScanLines file) 0 None d (mkRoot (-1) 0 []).
End parser.

(** ** Lengths: what each step leaves of its input *)

Lemma substring_length n s : (String.length (String.substring 0 n s) ≤ n)%nat.
Proof. revert n. induction s as [|a s IH]; intros [|n]; simpl; try lia. specialize (IH n). lia. Qed.

Lemma trim_left_length n s : (String.length (trim_left_go n s) ≤ String.length s)%nat.
Proof.
  revert s. induction n as [|n IH]; intros s; simpl; [lia|].
  destruct (DecodeRune s) as [[r s']|] eqn:E; [|lia]. apply DecodeRune_shorter in E.
  destruct (IsSpace r); [|lia]. specialize (IH s'). lia.
Qed.

Lemma trim_right_length n s : (String.length (trim_right_go n s) ≤ String.length s)%nat.
Proof.
  revert s. induction n as [|n IH]; intros s; simpl; [lia|].
  destruct (DecodeRune s) as [[r s']|] eqn:E; [|simpl; lia]. apply DecodeRune_shorter in E.
  specialize (IH s'). pose proof (substring_length (String.length s - String.length s') s) as Hs.
  destruct (trim_right_go n s') as [|a t]; [destruct (IsSpace r); simpl; lia|].
  rewrite length_app_str. simpl in *. lia.
Qed.

Lemma TrimSpace_length s : (String.length (TrimSpace s) ≤ String.length s)%nat.
Proof.
  unfold TrimSpace, TrimRightSpace, TrimLeftSpace. etransitivity; [apply trim_right_length|apply trim_left_length].
Qed.

Lemma skip_token_space_length s : (String.length (skip_token_space s) ≤ String.length s)%nat.
Proof. induction s as [|a s IH]; simpl; [lia|]. destruct (token_space a); simpl; lia. Qed.

Lemma split2_length s x y : split2 s = (x, Some y) → (String.length y < String.length s)%nat.
Proof.
  revert x. induction s as [|a s IH]; intros x; simpl; [done|].
  destruct (token_space a); [intros [= _ <-]; pose proof (skip_token_space_length s); lia|].
  destruct (split2 s) as [x' [y'|]]; intros [= _ <-]. specialize (IH x' eq_refl). lia.
Qed.

Lemma extractBuilderFlags_length s w :
  (String.length (extractBuilderFlags_loop s w).1 ≤ String.length s)%nat.
Proof.
  remember (String.length s) as n eqn:Hn. assert (Hle : (String.length s ≤ n)%nat) by lia. clear Hn.
  revert s w Hle. induction n as [|n IH]; intros s w Hle;
    (destruct s as [|a s]; [simpl; destruct (ph w); simpl; lia|]); simpl in Hle; [lia|].
  assert (Hs : ∀ w, (String.length (extractBuilderFlags_loop s w).1 ≤ S n)%nat)
    by (intros w'; specialize (IH s w' ltac:(lia)); lia).
  assert (Hb : ∀ b s'' w, s = String b s'' → (String.length (extractBuilderFlags_loop s'' w).1 ≤ S n)%nat).
  { intros b s'' w' ->. simpl in Hle. specialize (IH s'' w' ltac:(lia)). lia. }
  cbn [extractBuilderFlags_loop].
  repeat match goal with
  | |- (String.length (if ?b then _ else _).1 ≤ _)%nat => destruct b
  | |- (String.length (match ?p with inSpaces => _ | inWord => _ | inQuote => _ end).1 ≤ _)%nat => destruct p
  | |- (String.length (match ?x with "" => _ | String _ _ => _ end).1 ≤ _)%nat => destruct x as [|b s''] eqn:Es
  end; simpl; try lia; eauto.
Qed.

Abbreviation valid_runes rs := (Forall (λ r, valid_rune r = true) rs).

Section facts.
Context (unicode_lower : string → string) (float_ok : string → bool).

Abbreviation ParseLine := (ParseLine unicode_lower float_ok).
Abbreviation parse_line := (parse_line unicode_lower float_ok).
Abbreviation splitCommand := (splitCommand unicode_lower).

Lemma splitCommand_length line :
  ((splitCommand line).2 ≠ "" → String.length (splitCommand line).2 < String.length line)%nat.
Proof.
  unfold splitCommand. destruct (split2 (TrimSpace line)) as [cmd [rest|]] eqn:E; [|done].
  apply split2_length in E. pose proof (TrimSpace_length line).
  pose proof (extractBuilderFlags_length rest (mkW inSpaces "" 0 false [])) as Hx.
  unfold extractBuilderFlags. destruct (extractBuilderFlags_loop _ _) as [args flags]. simpl in *.
  pose proof (TrimSpace_length args). lia.
Qed.

Lemma stripComments_length line : (String.length (stripComments line) ≤ String.length line)%nat.
Proof. destruct line as [|a s]; [done|]. by destruct a as [[] [] [] [] [] [] [] []]; simpl; try lia. Qed.

(** The parsers of arguments do not panic. *)
Lemma nameVals_no_panic ws : panics (nameVals ws) = false.
Proof.
  induction ws as [|w ws IH]; [done|]. simpl. destruct (Cut _ w) as [n [v|]]; [|done]. by destruct (nameVals ws).
Qed.

Lemma dispatch_no_panic cmd args d : panics (dispatch float_ok cmd args d) = false.
Proof.
  assert (Hj : ∀ r, panics (parseJSON float_ok r d) = false).
  { intros r. unfold parseJSON. repeat case_match; done. }
  assert (Hm : ∀ r, panics (parseMaybeJSON float_ok r d) = false).
  { intros r. unfold parseMaybeJSON. repeat case_match; done. }
  assert (Hn : ∀ r k, panics (parseNameVal r k d) = false).
  { intros r k. unfold parseNameVal. destruct (parseWords r d) as [|w ws]; [done|].
    destruct (negb _); [by destruct (split2 r) as [? []]|].
    pose proof (nameVals_no_panic (w :: ws)). by destruct (nameVals (w :: ws)). }
  assert (Hs : ∀ r, panics (parseStringsWhitespaceDelimited r d) = false).
  { intros r. unfold parseStringsWhitespaceDelimited. by case_bool_decide. }
  assert (Hl : panics (parseMaybeJSONToList float_ok args d) = false).
  { unfold parseMaybeJSONToList. repeat case_match; auto. }
  assert (Hstr : panics (parseString args d) = false).
  { unfold parseString. by case_bool_decide. }
  assert (Hh : panics (parseHealthConfig float_ok args d) = false).
  { unfold parseHealthConfig. destruct (span_until _ _) as [t a]. destruct (span_until _ _) as [? n].
    case_bool_decide; [done|]. specialize (Hm n). by destruct (parseMaybeJSON _ _ _) as [[]| |]. }
  unfold dispatch, parseEnv, parseLabel. repeat (case_bool_decide; auto).
Qed.

(** *** One line: the fuel *)

Lemma escape_directive_no_panic line d m : escape_directive unicode_lower line d ≠ Some (Panic m).
Proof.
  unfold escape_directive, SetEscapeToken. destruct (LookingForDirectives d); [|done].
  destruct (tokenEscapeCommand _) as [s|]; simpl; [|done].
  destruct (EscapeSeen d); [done|]. destruct s as [|b [|]]; try done. by case_bool_decide.
Qed.

Lemma fullDispatch_ext f g cmd args d :
  (args ≠ "" → f args d = g args d) → fullDispatch float_ok f cmd args d = fullDispatch float_ok g cmd args d.
Proof.
  intros H. unfold fullDispatch, parseSubCommand. case_bool_decide; [|done]. case_bool_decide; [done|].
  by rewrite H.
Qed.

Lemma fullDispatch_no_panic f cmd args d :
  (args ≠ "" → panics (f args d) = false) → panics (fullDispatch float_ok f cmd args d) = false.
Proof.
  intros H. unfold fullDispatch, parseSubCommand. case_bool_decide; [|apply dispatch_no_panic].
  case_bool_decide; [done|]. specialize (H ltac:(done)). by destruct (f args d) as [[[]]| |].
Qed.

Lemma split_args_shorter line cmd flags args :
  splitCommand (stripComments line) = (cmd, flags, args) → args ≠ "" →
  (String.length args < String.length line)%nat.
Proof.
  intros E Ha. pose proof (splitCommand_length (stripComments line)) as H. rewrite E in H.
  pose proof (stripComments_length line). specialize (H Ha). simpl in H. lia.
Qed.

Lemma ParseLine_fuel f1 : ∀ f2 line d,
  (String.length line < f1)%nat → (String.length line < f2)%nat → ParseLine f1 line d = ParseLine f2 line d.
Proof.
  induction f1 as [|f1 IH]; intros [|f2] line d H1 H2; try lia. cbn [DockerfileParser.ParseLine].
  destruct (escape_directive _ line d) as [[]|]; try done.
  case_bool_decide; [done|]. destruct (LineContinuation _ _); [done|].
  destruct (splitCommand (stripComments line)) as [[cmd flags] args] eqn:E.
  rewrite (fullDispatch_ext (ParseLine f1) (ParseLine f2)); [done|].
  intros Ha. pose proof (split_args_shorter _ _ _ _ E Ha). apply IH; lia.
Qed.

Lemma ParseLine_no_panic f : ∀ line d, (String.length line < f)%nat → panics (ParseLine f line d) = false.
Proof.
  induction f as [|f IH]; intros line d Hf; [lia|]. cbn [DockerfileParser.ParseLine].
  destruct (escape_directive _ line d) as [[| |m]|] eqn:Ee; try done.
  { by apply escape_directive_no_panic in Ee. }
  case_bool_decide; [done|]. destruct (LineContinuation _ _); [done|].
  destruct (splitCommand (stripComments line)) as [[cmd flags] args] eqn:E.
  pose proof (fullDispatch_no_panic (ParseLine f) cmd args (mkDirective (EscapeToken d) false (EscapeSeen d))) as Hp.
  cbn [EscapeToken] in Hp |- *.
  destruct (fullDispatch _ _ _ _ _) as [[]| |]; [done|done|]. apply Hp. intros Ha.
  pose proof (split_args_shorter _ _ _ _ E Ha). apply IH. lia.
Qed.

(** Parsing a line ends: nested ONBUILD instructions call the parser again
    on a part of the line that is shorter, so with the length of the line as
    fuel, or any more, the result is the same, and it is a node or an error. *)
Theorem ParseLine_terminates fuel line d :
  (String.length line < fuel)%nat →
  ParseLine fuel line d = parse_line line d ∧ panics (parse_line line d) = false.
Proof.
  intros Hf. unfold parse_line. split; [apply ParseLine_fuel; lia|apply ParseLine_no_panic; lia].
Qed.

(** *** Instructions in the JSON form *)

Lemma parseJSON_print l rest d :
  Forall (λ x, valid_runes x) l →
  parseJSON float_ok (print_array l +:+ rest) d = Ok (chain (of_runes <$> l), true).
Proof.
  intros Hl. pose proof (Decode_print float_ok l rest Hl) as Hd. unfold parseJSON.
  assert (E : TrimLeftSpace (print_array l +:+ rest) = print_array l +:+ rest) by by destruct l.
  rewrite E. replace (HasPrefix (print_array l +:+ rest) "[") with true by by destruct l.
  simpl. rewrite Hd. assert (Hs : json_strings (JString ∘ of_runes <$> l) = Some (of_runes <$> l)).
  { clear. induction l as [|x l IH]; [done|]. rewrite !fmap_cons. simpl. by rewrite IH. }
  by rewrite Hs.
Qed.

(** The JSON form: when the arguments of RUN, CMD, ENTRYPOINT, SHELL, ADD,
    COPY or VOLUME start with a JSON array of strings, the node has exactly
    these strings, one by one, and is marked as JSON, whatever characters
    they have and whatever follows the array on the line. *)
Theorem exec_form cmd l rest d :
  cmd ∈ ["add"; "copy"; "volume"; "cmd"; "entrypoint"; "run"; "shell"] →
  Forall (λ x, valid_runes x) l →
  dispatch float_ok cmd (print_array l +:+ rest) d = Ok (chain (of_runes <$> l), true).
Proof.
  intros Hcmd Hl. pose proof (parseJSON_print l rest d Hl) as Hp.
  assert (Hne : print_array l +:+ rest ≠ "") by by destruct l.
  assert (Hm : parseMaybeJSON float_ok (print_array l +:+ rest) d = Ok (chain (of_runes <$> l), true)).
  { unfold parseMaybeJSON. by rewrite bool_decide_false, Hp. }
  assert (Ht : parseMaybeJSONToList float_ok (print_array l +:+ rest) d = Ok (chain (of_runes <$> l), true)).
  { unfold parseMaybeJSONToList. by rewrite Hp. }
  unfold dispatch. case_bool_decide as H1; [done|]. case_bool_decide as H2; [done|].
  exfalso. set_solver.
Qed.

(** *** Continued lines *)

Lemma LineContinuation_app tok a bl :
  blank tok = false → all_blank bl = true → LineContinuation tok (a +:+ String tok bl) = Some a.
Proof.
  intros Ht Hb. induction a as [|c a IH].
  - rewrite app_empty_str. simpl. by rewrite bool_decide_true, Hb.
  - rewrite app_cons_str. simpl. rewrite IH. simpl.
    assert (all_blank (a +:+ String tok bl) = false) as ->; [|by rewrite andb_false_r].
    clear IH. induction a as [|c' a IH]; [rewrite app_empty_str|rewrite app_cons_str]; simpl.
    + by rewrite Ht.
    + by rewrite IH, andb_false_r.
Qed.

(** An instruction starts with a character that is neither white space nor
    the mark of a comment. *)
Definition starts (line : string) : bool :=
  match line with
  | "" => false
  | String c _ => (byte_val c <? 0x80) && negb (IsSpace (byte_val c)) && negb (bool_decide (c = "#"%char))
  end.

Lemma starts_trim line t : starts line = true → TrimLeftSpace (line +:+ t) = line +:+ t.
Proof.
  destruct line as [|c s]; [done|]. simpl. rewrite !andb_true_iff. intros [[Hc Hs] _].
  unfold TrimLeftSpace. rewrite app_cons_str. cbn [String.length trim_left_go].
  rewrite DecodeRune_ascii by (by apply N.ltb_lt). by destruct (IsSpace _).
Qed.

Lemma starts_comment line t : starts line = true → stripComments (line +:+ t) = line +:+ t.
Proof.
  destruct line as [|c s]; [done|]. simpl. rewrite !andb_true_iff. intros [_ Hc]. rewrite app_cons_str.
  apply negb_true_iff, bool_decide_eq_false in Hc.
  by destruct c as [[] [] [] [] [] [] [] []].
Qed.

Abbreviation parse_loop := (parse_loop unicode_lower float_ok).

(** The nodes without their line numbers. *)
Definition unnumbered (r : root) : list Node :=
  (λ n, mkNode (Value n) (Next n) (Children n) (json n) (Original n) (Flags n) 0 0) <$> r_children r.

Definition same_nodes (x y : outcome error (root * Directive)) : Prop :=
  match x, y with
  | Ok (r, d), Ok (r', d') => unnumbered r = unnumbered r' ∧ d = d'
  | Err e, Err e' => e = e'
  | Panic m, Panic m' => m = m'
  | _, _ => False
  end.

Lemma add_child_same n s1 s2 c1 c2 r1 r2 :
  unnumbered r1 = unnumbered r2 → unnumbered (add_child n s1 c1 r1) = unnumbered (add_child n s2 c2 r2).
Proof. unfold unnumbered, add_child. cbn [r_children]. intros H. by rewrite !fmap_app, H. Qed.

(** Past the first line, the nodes do not depend on where the lines are. *)
Lemma parse_loop_shift lines : ∀ c1 c2 p d r1 r2 s1 s2,
  (0 < c1)%Z → (0 < c2)%Z → unnumbered r1 = unnumbered r2 →
  same_nodes (parse_loop lines c1 ((λ l, (l, s1)) <$> p) d r1) (parse_loop lines c2 ((λ l, (l, s2)) <$> p) d r2).
Proof.
  induction lines as [|l lines IH]; intros c1 c2 p d r1 r2 s1 s2 H1 H2 Hr.
  - destruct p as [p|]; [|done]. simpl. case_bool_decide; [done|].
    destruct (parse_line p d) as [[[? [n|]] ?]| |]; simpl; try done. split; [by apply add_child_same|done].
  - destruct p as [p|]; simpl.
    + case_bool_decide; [apply (IH _ _ (Some p)); [lia|lia|done]|].
      destruct (parse_line (p +:+ l) d) as [[[l' [n|]] d']| |]; simpl; try done.
      * apply (IH _ _ None d' _ _ 0%Z 0%Z); [lia|lia|by apply add_child_same].
      * apply (IH _ _ (Some l')); [lia|lia|done].
    + rewrite !bool_decide_false by lia.
      destruct (parse_line (TrimLeftSpace l) d) as [[[l' [n|]] d']| |]; simpl; try done.
      * apply (IH _ _ None d' _ _ 0%Z 0%Z); [lia|lia|by apply add_child_same].
      * case_bool_decide; [apply (IH _ _ None d' _ _ 0%Z 0%Z); [lia|lia|done]|].
        apply (IH _ _ (Some l')); [lia|lia|done].
Qed.

Lemma all_blank_trim s : all_blank s = true → TrimSpace s = "".
Proof.
  intros H. unfold TrimSpace, TrimLeftSpace. assert (E : trim_left_go (String.length s) s = ""); [|by rewrite E].
  induction s as [|c s IH]; [done|]. simpl in H. apply andb_true_iff in H as [Hc Hs].
  assert (Hv : byte_val c = 9 ∨ byte_val c = 32).
  { unfold blank in Hc. apply orb_true_iff in Hc as [Hc|Hc]; apply N.eqb_eq in Hc; auto. }
  cbn [String.length trim_left_go]. rewrite DecodeRune_ascii by (destruct Hv as [->| ->]; done).
  destruct Hv as [->| ->]; simpl; auto.
Qed.

Lemma all_blank_app s t : all_blank (s +:+ t) = all_blank s && all_blank t.
Proof. induction s as [|c s IH]; [done|]. rewrite app_cons_str. simpl. by rewrite IH, andb_assoc. Qed.

(** Comments and blank lines inside an instruction are skipped. *)
Lemma parse_loop_comments cs lines c l sl d r :
  Forall (λ x, stripComments (TrimSpace x) = "") cs →
  parse_loop (cs ++ lines) c (Some (l, sl)) d r =
  parse_loop lines (c + Z.of_nat (length cs)) (Some (l, sl)) d r.
Proof.
  intros H. revert c. induction H as [|x cs Hx _ IH]; intros c; simpl.
  - by rewrite Z.add_0_r.
  - rewrite bool_decide_true by done. rewrite IH. f_equal. lia.
Qed.

Lemma parse_line_empty a b d d' :
  LookingForDirectives d = false → starts a = true → stripComments (TrimSpace b) ≠ "" →
  parse_line (a +:+ b) d ≠ Ok ("", None, d').
Proof.
  intros Hd Ha Hb. unfold parse_line. cbn [DockerfileParser.ParseLine]. unfold escape_directive.
  rewrite Hd, starts_comment by done. rewrite bool_decide_false by (by destruct a). cbn [EscapeToken].
  destruct (LineContinuation _ _) as [l'|] eqn:E.
  - intros [= -> _]. destruct a as [|x a]; [done|]. rewrite app_cons_str in E. simpl in E.
    destruct (_ && _) eqn:Hand in E; [|by destruct (LineContinuation _ (a +:+ b))].
    apply andb_true_iff in Hand as [_ Hbl]. rewrite all_blank_app in Hbl. apply andb_true_iff in Hbl as [_ Hbl].
    by rewrite all_blank_trim in Hb.
  - destruct (splitCommand (a +:+ b)) as [[]]. by destruct (fullDispatch _ _ _ _ _) as [[]| |].
Qed.

(** A line that ends in the escape character is continued: an instruction
    broken over two lines, with any number of comments and blank lines in
    between, gives the nodes that the same instruction on one line gives (or
    the same error), wherever it is in the file but for its line numbers. *)
Theorem continuation_joins lines a bl b cs c d r :
  LookingForDirectives d = false → blank (EscapeToken d) = false → (0 < c)%Z →
  starts a = true → all_blank bl = true →
  Forall (λ x, stripComments (TrimSpace x) = "") cs → stripComments (TrimSpace b) ≠ "" →
  same_nodes (parse_loop ((a +:+ String (EscapeToken d) bl) :: cs ++ b :: lines) c None d r)
             (parse_loop ((a +:+ b) :: lines) c None d r).
Proof.
  intros Hd Ht Hc Ha Hbl Hcs Hb.
  assert (Hfirst : parse_line (a +:+ String (EscapeToken d) bl) d = Ok (a, None, d)).
  { unfold parse_line. cbn [DockerfileParser.ParseLine]. unfold escape_directive. rewrite Hd.
    rewrite starts_comment by done. rewrite bool_decide_false by (by destruct a).
    cbn [EscapeToken]. rewrite LineContinuation_app by done. destruct d; simpl in *. by subst. }
  assert (Hane : a ≠ "") by by destruct a.
  cbn [DockerfileParser.parse_loop]. rewrite !bool_decide_false by lia.
  rewrite !starts_trim by done. rewrite Hfirst. cbn iota. rewrite bool_decide_false by done.
  rewrite parse_loop_comments by done. cbn [DockerfileParser.parse_loop]. rewrite bool_decide_false by done.
  destruct (parse_line (a +:+ b) d) as [[[l' [n|]] d']| |] eqn:E; try done.
  - apply (parse_loop_shift _ _ _ None d' _ _ 0%Z 0%Z); [lia|lia|by apply add_child_same].
  - rewrite bool_decide_false; [apply (parse_loop_shift _ _ _ (Some l')); [lia|lia|done]|].
    intros ->. eapply parse_line_empty; [..|exact E]; try done.
Qed.

(** *** Line numbers *)

(** The children lie one after the other in the lines up to [c]; the root ends
    with the last one and starts at the line where the first one ENDS. *)
Fixpoint numbered (after : Z) (ns : list Node) (c : Z) : Prop :=
  match ns with
  | [] => (after ≤ c)%Z
  | n :: ns' => (after < StartLine n ≤ EndLine n)%Z ∧ numbered (EndLine n) ns' c
  end.

Definition root_ok (r : root) (c : Z) : Prop :=
  numbered 0 (r_children r) c ∧
  r_start r = default (-1)%Z (EndLine <$> head (r_children r)) ∧
  r_end r = default 0%Z (EndLine <$> last (r_children r)).

Lemma numbered_mono after ns c c' : (c ≤ c')%Z → numbered after ns c → numbered after ns c'.
Proof. revert after. induction ns as [|n ns IH]; simpl; intros after Hc; [lia|]. intros [? ?]. auto. Qed.

Lemma numbered_snoc after ns c n c' :
  numbered after ns c → (c < StartLine n ≤ EndLine n)%Z → (EndLine n ≤ c')%Z → numbered after (ns ++ [n]) c'.
Proof. revert after. induction ns as [|m ns IH]; simpl; intros after H1 H2 H3; [lia|]. destruct H1. split; auto. Qed.

Lemma numbered_head after ns c n : (0 ≤ after)%Z → numbered after ns c → head ns = Some n → (0 < EndLine n)%Z.
Proof. destruct ns; [done|]. simpl. intros ? [? _] [= ->]. lia. Qed.

Lemma add_child_ok n s c c0 r :
  root_ok r c0 → (c0 < s ≤ c)%Z → root_ok (add_child n s c r) c.
Proof.
  intros (Hn & Hs & He) Hb. unfold add_child. split; [|split]; simpl.
  - eapply numbered_snoc; [exact Hn|simpl; lia..].
  - rewrite Hs. destruct (r_children r) as [|m ns] eqn:E; simpl; [done|].
    pose proof (numbered_head 0 (m :: ns) c0 m ltac:(lia) Hn eq_refl).
    by rewrite (proj2 (Z.ltb_ge _ _)) by lia.
  - by rewrite last_snoc.
Qed.

Lemma root_ok_mono r c c' : (c ≤ c')%Z → root_ok r c → root_ok r c'.
Proof. intros Hc (? & ? & ?). split; [by eapply numbered_mono|done]. Qed.

Lemma parse_loop_ok lines : ∀ c p d r c0 r' d',
  root_ok r c0 → (c0 ≤ c)%Z → (∀ l s, p = Some (l, s) → c0 < s ≤ c)%Z →
  parse_loop lines c p d r = Ok (r', d') → root_ok r' (c + Z.of_nat (length lines)).
Proof.
  induction lines as [|l lines IH]; intros c p d r c0 r' d1 Hr Hc Hp.
  - destruct p as [[t s]|]; simpl.
    + specialize (Hp t s eq_refl). case_bool_decide; [intros [= <- _]; apply (root_ok_mono _ c0); [lia|done]|].
      destruct (parse_line t d) as [[[? [n|]] ?]| |]; intros [= <- _].
      * apply (root_ok_mono _ c); [lia|by eapply add_child_ok].
      * apply (root_ok_mono _ c0); [lia|done].
    + intros [= <- _]. apply (root_ok_mono _ c0); [lia|done].
  - cbn [length]. rewrite Nat2Z.inj_succ. replace (c + Z.succ (Z.of_nat (length lines)))%Z with (c + 1 + Z.of_nat (length lines))%Z by lia.
    destruct p as [[t s]|]; simpl.
    + specialize (Hp t s eq_refl). case_bool_decide.
      { eapply (IH _ _ _ _ c0); [done|lia|]. intros ? ? [= <- <-]. lia. }
      destruct (parse_line (t +:+ l) d) as [[[l' [n|]] d']| |]; try done.
      * eapply (IH _ _ _ _ (c + 1)%Z); [|lia|done]. eapply add_child_ok; [done|lia].
      * eapply (IH _ _ _ _ c0); [done|lia|]. intros ? ? [= <- <-]. lia.
    + destruct (parse_line _ d) as [[[l' [n|]] d']| |]; try done.
      * eapply (IH _ _ _ _ (c + 1)%Z); [|lia|done]. eapply add_child_ok; [done|lia].
      * eapply (IH _ _ _ _ c0); [done|lia|]. case_bool_decide; [done|]. intros ? ? [= <- <-]. lia.
Qed.

(** Line numbers: the instructions of a parsed file take up separate,
    increasing ranges of its lines, the root ends with the last instruction,
    and starts at the line where the first instruction ends (not where it
    starts). *)
Theorem Parse_lines file d r d' :
  Parse unicode_lower float_ok file d = Ok (r, d') → root_ok r (Z.of_nat (length (ScanLines file))).
Proof.
  unfold Parse. intros H. eapply (parse_loop_ok _ 0 None d _ 0) in H; [done|done|lia|done].
Qed.

(** *** Lines that are too long *)

Lemma newline_byte c : (byte_val c =? 10) = bool_decide (c = byte_of 10).
Proof. by destruct c as [[] [] [] [] [] [] [] []]. Qed.

Lemma split_lines_nl l t : ContainsByte (byte_of 10) l = false →
  split_lines (l +:+ String (byte_of 10) t) = l :: split_lines t.
Proof.
  induction l as [|c l IH]; [done|]. rewrite app_cons_str. cbn [ContainsByte split_lines].
  destruct (ascii_dec c (byte_of 10)) as [|Hc]; [done|]. intros Hl.
  by rewrite newline_byte, bool_decide_false, IH.
Qed.

(** The text of lines, each ended by a newline. *)
Definition text (ls : list string) : string := foldr (λ l t, l +:+ String (byte_of 10) t) "" ls.

Lemma split_lines_text ls t :
  Forall (λ l, ContainsByte (byte_of 10) l = false) ls → split_lines (text ls +:+ t) = ls ++ split_lines t.
Proof.
  induction 1 as [|l ls Hl _ IH]; [by rewrite app_empty_str|]. simpl.
  by rewrite app_assoc_str, app_cons_str, split_lines_nl, IH.
Qed.

Lemma split_lines_long long t :
  long ≠ "" → ContainsByte (byte_of 10) long = false →
  ∃ l ls, split_lines (long +:+ t) = l :: ls ∧ (String.length long ≤ String.length l)%nat.
Proof.
  induction long as [|c s IH]; [done|]. intros _. cbn [ContainsByte]. rewrite app_cons_str. cbn [split_lines].
  destruct (ascii_dec c (byte_of 10)) as [|Hc]; [done|]. intros Hs. rewrite newline_byte, bool_decide_false by done.
  destruct s as [|c' s].
  - destruct (split_lines ("" +:+ t)); eexists _, _; (split; [done|simpl; lia]).
  - destruct (IH ltac:(done) Hs) as (l & ls & -> & Hle). eexists _, _. split; [done|]. simpl in *. lia.
Qed.

Lemma MaxScanTokenSize_pos : (0 < MaxScanTokenSize)%nat.
Proof. apply Nat.mul_pos_pos; lia. Qed.

Lemma scan_app ls ls' l :
  (MaxScanTokenSize ≤ String.length l)%nat → scan (ls ++ l :: ls') = scan ls.
Proof.
  intros Hl. induction ls as [|x ls IH]; cbn [app scan].
  - by rewrite decide_False by lia.
  - destruct (decide _); [by rewrite IH|done].
Qed.

(** What Parse makes of a line that does not fit in the scanner's buffer:
    the line, and everything after it, is ignored, and the file is parsed as
    if it ended before it, without an error. *)
Theorem Parse_long_line ls long rest d :
  Forall (λ l, ContainsByte (byte_of 10) l = false) ls → ContainsByte (byte_of 10) long = false →
  (MaxScanTokenSize ≤ String.length long)%nat →
  Parse unicode_lower float_ok (text ls +:+ long +:+ rest) d = Parse unicode_lower float_ok (text ls) d.
Proof.
  intros Hls Hlong Hlen. unfold Parse, ScanLines.
  rewrite <- (app_nil_str (text ls)) at 2. rewrite !split_lines_text by done.
  assert (Hne : long ≠ "") by (intros ->; pose proof MaxScanTokenSize_pos; change (String.length "") with O in Hlen; lia).
  destruct (split_lines_long long rest Hne Hlong) as (l & ls' & -> & Hle).
  by rewrite scan_app, app_nil_r by lia.
Qed.

(** *** Words and name=value pairs *)

(** A word as it is written: characters that stand for themselves and quoted
    pieces, in which there may be spaces. *)
Inductive piece := Plain (r : rune) | Quoted (q : rune) (rs : list rune).

Definition piece_ok (esc : rune) (p : piece) : bool :=
  match p with
  | Plain r => valid_rune r && negb (IsSpace r || (r =? 39) || (r =? 34) || (r =? esc))
  | Quoted q rs =>
      ((q =? 39) || (q =? 34)) && negb (q =? esc) &&
      forallb (λ r, valid_rune r && negb (r =? q) && negb (r =? esc)) rs
  end.

Definition piece_runes (p : piece) : list rune :=
  match p with Plain r => [r] | Quoted q rs => q :: rs ++ [q] end.

Definition word_runes (w : list piece) : list rune := w ≫= piece_runes.
Definition word_text (w : list piece) : string := of_runes (word_runes w).

Definition word_ok (esc : rune) (w : list piece) : bool := negb (bool_decide (w = [])) && forallb (piece_ok esc) w.

Lemma quoted_loop esc q rs : ∀ t wd f,
  forallb (λ r, valid_rune r && negb (r =? q) && negb (r =? esc)) rs = true → (q =? esc) = false →
  parseWords_loop esc (rs ++ q :: t) (mkW inQuote wd q true f) =
  parseWords_loop esc t (mkW inWord (wd +:+ of_runes (rs ++ [q])) q true f).
Proof.
  induction rs as [|r rs IH]; intros t wd f Hrs Hq.
  - cbn. by rewrite N.eqb_refl, Hq, app_nil_str.
  - cbn [forallb] in Hrs. rewrite !andb_true_iff, !negb_true_iff in Hrs. destruct Hrs as [[[_ Hne] He] Hrs].
    cbn [app parseWords_loop ph quote_]. rewrite Hne, He. cbn [andb].
    rewrite IH by done. cbn [DockerfileParser.wd]. simpl. by rewrite app_assoc_str.
Qed.

Lemma piece_loop esc p t wd q b f :
  piece_ok esc p = true →
  ∃ q' b', parseWords_loop esc (piece_runes p ++ t) (mkW inWord wd q b f) =
           parseWords_loop esc t (mkW inWord (wd +:+ of_runes (piece_runes p)) q' b' f).
Proof.
  destruct p as [r|q' rs]; cbn [piece_ok piece_runes]; intros H; rewrite !andb_true_iff, negb_true_iff, ?orb_false_iff in H.
  - destruct H as [_ [[[Hs H39] H34] He]]. exists q, b. cbn [app parseWords_loop ph]. rewrite Hs, H39, H34, He. simpl. by rewrite app_nil_str.
  - destruct H as [[Hq He] Hrs]. exists q', true. cbn [app]. rewrite <- app_assoc. cbn [app]. cbn [parseWords_loop ph].
    assert (IsSpace q' = false) as -> by (apply orb_true_iff in Hq as [->%N.eqb_eq| ->%N.eqb_eq]; done).
    rewrite Hq, He. cbn [DockerfileParser.wd quote_ blankOK found ph]. rewrite quoted_loop by done.
    simpl. by rewrite app_assoc_str.
Qed.

Lemma word_loop esc w : ∀ t wd q b f,
  forallb (piece_ok esc) w = true →
  ∃ q' b', parseWords_loop esc (word_runes w ++ t) (mkW inWord wd q b f) =
           parseWords_loop esc t (mkW inWord (wd +:+ word_text w) q' b' f).
Proof.
  induction w as [|p w IH]; intros t wd q b f Hw.
  - exists q, b. unfold word_text. simpl. by rewrite app_nil_str.
  - cbn [forallb] in Hw. apply andb_true_iff in Hw as [Hp Hw].
    assert (Ew : word_runes (p :: w) = piece_runes p ++ word_runes w) by done.
    unfold word_text. rewrite Ew, of_runes_app, <- app_assoc.
    destruct (piece_loop esc p (word_runes w ++ t) wd q b f Hp) as (q1 & b1 & ->).
    destruct (IH t (wd +:+ of_runes (piece_runes p)) q1 b1 f Hw) as (q2 & b2 & ->).
    exists q2, b2. by rewrite app_assoc_str.
Qed.

(** The first character of a word starts it. *)
Lemma word_start esc w : word_ok esc w = true →
  ∃ r rs, word_runes w = r :: rs ∧ IsSpace r = false ∧ word_text w ≠ "".
Proof.
  unfold word_ok. rewrite andb_true_iff, negb_true_iff, bool_decide_eq_false. intros [Hne Hw].
  destruct w as [|p w]; [done|]. cbn [forallb] in Hw. apply andb_true_iff in Hw as [Hp _].
  assert (Ht : ∀ r rs, of_runes (r :: rs) ≠ "").
  { intros r rs. simpl. unfold EncodeRune. repeat case_match; rewrite app_cons_str; done. }
  destruct p as [r|q rs]; cbn [piece_ok] in Hp; rewrite !andb_true_iff, ?negb_true_iff, ?orb_false_iff in Hp.
  - exists r, (word_runes w). split_and!; [done|tauto|apply Ht].
  - exists q, ((rs ++ [q]) ++ word_runes w). split_and!; [done| |apply Ht].
    destruct Hp as [[Hq _] _]. apply orb_true_iff in Hq as [->%N.eqb_eq| ->%N.eqb_eq]; done.
Qed.

Lemma word_valid esc w : word_ok esc w = true → valid_runes (word_runes w).
Proof.
  unfold word_ok. rewrite andb_true_iff. intros [_ Hw]. induction w as [|p w IH]; [constructor|].
  cbn [forallb] in Hw. apply andb_true_iff in Hw as [Hp Hw].
  change (word_runes (p :: w)) with (piece_runes p ++ word_runes w). apply Forall_app. split; [|auto].
  destruct p as [r|q rs]; cbn [piece_ok piece_runes] in *; rewrite !andb_true_iff in Hp.
  - constructor; [tauto|constructor].
  - destruct Hp as [[Hq _] Hrs].
    assert (valid_rune q = true) by (apply orb_true_iff in Hq as [->%N.eqb_eq| ->%N.eqb_eq]; done).
    constructor; [done|]. apply Forall_app. split; [|by constructor].
    apply Forall_forall. intros r Hr. rewrite forallb_forall in Hrs. apply list_elem_of_In in Hr.
    specialize (Hrs r Hr). rewrite !andb_true_iff in Hrs. tauto.
Qed.

(** From between words, the first character of a word is read as inside it. *)
Lemma enter_word esc r rs q b f : IsSpace r = false →
  parseWords_loop esc (r :: rs) (mkW inSpaces "" q b f) = parseWords_loop esc (r :: rs) (mkW inWord "" q b f).
Proof. intros Hr. cbn [parseWords_loop ph]. by rewrite Hr. Qed.

Definition join_words (ws : list (list piece)) : string := String.concat " " (word_text <$> ws).

Lemma words_loop esc ws : ∀ f q,
  forallb (word_ok esc) ws = true →
  parseWords_loop esc (runes (join_words ws)) (mkW inSpaces "" q false f) = f ++ (word_text <$> ws).
Proof.
  induction ws as [|w ws IH]; intros f q Hws; [by rewrite app_nil_r|].
  cbn [forallb] in Hws. apply andb_true_iff in Hws as [Hw Hws].
  destruct (word_start esc w Hw) as (r & rs & Er & Hr & Hne). pose proof (word_valid esc w Hw) as Hv.
  assert (Hw' : forallb (piece_ok esc) w = true) by (unfold word_ok in Hw; apply andb_true_iff in Hw; tauto).
  assert (Hstep : ∀ t, ∃ q' b', parseWords_loop esc (word_runes w ++ t) (mkW inSpaces "" q false f) =
    parseWords_loop esc t (mkW inWord (word_text w) q' b' f)).
  { intros t. destruct (word_loop esc w t "" q false f Hw') as (q' & b' & E).
    exists q', b'. rewrite Er in *. cbn [app] in *. by rewrite enter_word, E. }
  assert (Hpush : ∀ q' b', push (mkW inWord (word_text w) q' b' f) = f ++ [word_text w]).
  { intros q' b'. unfold push. cbn [DockerfileParser.wd found blankOK].
    by rewrite (bool_decide_true (word_text w ≠ "")), orb_true_r. }
  destruct ws as [|w' ws].
  - unfold join_words. simpl. rewrite <- (app_nil_str (word_text w)). unfold word_text at 1.
    rewrite runes_of_runes, runes_empty by done. destruct (Hstep []) as (q' & b' & ->).
    cbn [parseWords_loop ph]. rewrite Hpush. by rewrite app_nil_str.
  - assert (Ej : join_words (w :: w' :: ws) = word_text w +:+ String " " (join_words (w' :: ws))) by done.
    rewrite Ej. unfold word_text at 1. rewrite runes_of_runes by done.
    rewrite (runes_decode (String " " _) 32 (join_words (w' :: ws))) by done.
    destruct (Hstep (32 :: runes (join_words (w' :: ws)))) as (q' & b' & ->).
    cbn [parseWords_loop ph]. change (IsSpace 32) with true. cbn iota.
    rewrite Hpush. cbn [quote_]. rewrite IH by done. by rewrite <- app_assoc.
Qed.

(** ENV and LABEL: pairs written [name=value] and joined by spaces, where
    names and values have any characters and quoted pieces (with spaces, if
    need be) but no escape character, are parsed to the list of exactly these
    names and values in order, the quotes kept. *)
Theorem pairs_roundtrip key ps d :
  ps ≠ [] →
  Forall (λ '(k, v), word_ok (byte_val (EscapeToken d)) (k ++ Plain 61 :: v) = true ∧
                     ContainsByte "=" (word_text k) = false) ps →
  parseNameVal (join_words ((λ '(k, v), k ++ Plain 61 :: v) <$> ps)) key d =
  Ok (chain (ps ≫= λ '(k, v), [word_text k; word_text v]), false).
Proof.
  intros Hne Hps.
  set (ws := (λ '(k, v), k ++ Plain 61 :: v) <$> ps).
  assert (Hws : forallb (word_ok (byte_val (EscapeToken d))) ws = true).
  { apply forallb_forall. intros w Hw. apply list_elem_of_In, list_elem_of_fmap in Hw as ((k & v) & -> & Hin).
    rewrite Forall_forall in Hps. by apply (Hps _ Hin). }
  assert (Etext : ∀ k v, word_text (k ++ Plain 61 :: v) = word_text k +:+ String "=" (word_text v)).
  { intros k v. unfold word_text, word_runes. by rewrite bind_app, of_runes_app. }
  assert (Hnv : nameVals (word_text <$> ws) = Ok (ps ≫= λ '(k, v), [word_text k; word_text v])).
  { subst ws. clear Hne Hws. induction Hps as [|[k v] ps [_ Hk] _ IH]; [done|].
    cbn [fmap list_fmap nameVals]. rewrite Etext, Cut_app by done. by rewrite IH. }
  unfold parseNameVal, parseWords. rewrite words_loop by done. cbn [app].
  destruct ps as [|[k v] ps]; [done|]. subst ws. cbn [fmap list_fmap] in *.
  rewrite Etext in *. rewrite ContainsByte_app. cbn [ContainsByte].
  rewrite orb_true_r. cbn [negb]. by rewrite Hnv.
Qed.
End facts.

(** ** Witnesses *)

Definition dir0 : Directive := mkDirective "\" true false.
Definition dir1 : Directive := mkDirective "\" false false.

Lemma ParseLine_terminates_witness :
  ParseLine id (λ _, true) 100 "onbuild run echo" dir1 = parse_line id (λ _, true) "onbuild run echo" dir1 ∧
  panics (parse_line id (λ _, true) "onbuild run echo" dir1) = false.
Proof. apply (ParseLine_terminates id (λ _, true) 100 "onbuild run echo" dir1). vm_compute. lia. Defined.

Lemma exec_form_witness :
  dispatch (λ _, true) "run" (print_array [[115; 104]; [34; 32; 233]] +:+ " x") dir1 =
  Ok (chain ["sh"; of_runes [34; 32; 233]], true).
Proof. apply (exec_form id (λ _, true) "run" [[115; 104]; [34; 32; 233]] " x" dir1); [set_solver|repeat constructor]. Defined.

Lemma continuation_joins_witness :
  same_nodes (parse_loop id (λ _, true) ["run a \  "; " # note"; ""; "b"; "cmd c"] 3 None dir1 (mkRoot (-1) 0 []))
             (parse_loop id (λ _, true) ["run a b"; "cmd c"] 3 None dir1 (mkRoot (-1) 0 [])).
Proof.
  apply (continuation_joins id (λ _, true) ["cmd c"] "run a " "  " "b" [" # note"; ""] 3 dir1 (mkRoot (-1) 0 []));
    [done|done|lia|done|done|repeat constructor|done].
Defined.

Lemma Parse_lines_witness :
  ∃ r d', Parse id (λ _, true) (text ["# c"; "run a \"; "  b"; ""; "cmd d"]) dir0 = Ok (r, d') ∧
       r_start r = 3%Z ∧ root_ok r (Z.of_nat (length (ScanLines (text ["# c"; "run a \"; "  b"; ""; "cmd d"])))).
Proof.
  eexists _, _. split; [vm_compute; reflexivity|]. split; [reflexivity|].
  eapply (Parse_lines id (λ _, true) _ dir0). vm_compute. reflexivity.
Defined.

Fixpoint repeated (c : ascii) (n : nat) : string :=
  match n with O => "" | S n' => String c (repeated c n') end.

Lemma repeated_length c n : String.length (repeated c n) = n.
Proof. induction n as [|n IH]; [done|]. simpl. by rewrite IH. Qed.

Lemma repeated_byte b c n : b ≠ c → ContainsByte b (repeated c n) = false.
Proof. intros H. induction n as [|n IH]; [done|]. simpl. destruct (ascii_dec c b); congruence. Qed.

Lemma Parse_long_line_witness :
  Parse id (λ _, true) (text ["from a"] +:+ repeated "x" MaxScanTokenSize +:+ text [""; "run b"]) dir0 =
  Parse id (λ _, true) (text ["from a"]) dir0.
Proof.
  apply (Parse_long_line id (λ _, true) ["from a"] (repeated "x" MaxScanTokenSize) (text [""; "run b"]) dir0).
  - repeat constructor.
  - apply repeated_byte. discriminate.
  - rewrite repeated_length. apply Nat.le_refl.
Defined.

Lemma pairs_roundtrip_witness :
  parseNameVal (join_words [[Plain 97; Plain 61; Quoted 34 [98; 32; 99]]; [Plain 100; Plain 61; Plain 101]]) "ENV" dir1 =
  Ok (chain ["a"; of_runes [34; 98; 32; 99; 34]; "d"; "e"], false).
Proof.
  apply (pairs_roundtrip "ENV" [([Plain 97], [Quoted 34 [98; 32; 99]]); ([Plain 100], [Plain 101])] dir1);
    [done|repeat constructor].
Defined.
