(* ===== verification/GoSlice.v ===== *)
(** * Go slices of strings, with their backing arrays

    A slice is a pointer to an array, a length and a capacity (every slice of
    the modelled code starts at the first element of its array).  [append]
    writes into the array when the capacity allows it, and so shows through
    every other slice of the same array; otherwise it copies the elements to a
    new array.  How much larger than needed the new array is, is left to the
    runtime: the parameter [grow].  The code only asks for the length of a
    slice, so that nil and empty slices are not told apart. *)

From S2P Require Import Prelude.

Record slice := mkSlice { arr : nat; len : nat; cap : nat }.

#[global] Instance slice_eq_dec : EqDecision slice.
Proof. solve_decision. Defined.

Abbreviation heap := (list (list string)).

Definition nil_slice : slice := mkSlice 0 0 0.

Definition cells (h : heap) (a : nat) : list string := default [] (h !! a).

Definition contents (h : heap) (s : slice) : list string := take (len s) (cells h (arr s)).

(** A new array for [xs] with capacity [c], or what [xs] needs. *)
Definition alloc (h : heap) (xs : list string) (c : nat) : heap * slice :=
  (h ++ [xs ++ replicate (c - length xs) ""], mkSlice (length h) (length xs) (c `max` length xs)).

Definition write_at (i : nat) (ys l : list string) : list string := take i l ++ ys ++ drop (i + length ys) l.

Definition append (grow : nat → nat → nat) (h : heap) (s : slice) (ys : list string) : heap * slice :=
  if decide (len s + length ys ≤ cap s)
  then (<[arr s := write_at (len s) ys (cells h (arr s))]> h, mkSlice (arr s) (len s + length ys) (cap s))
  else alloc h (contents h s ++ ys) (grow (cap s) (len s + length ys)).

(** [s[i] = x] *)
Definition set_index (h : heap) (s : slice) (i : nat) (x : string) : heap :=
  <[arr s := <[i := x]> (cells h (arr s))]> h.

(** ** Well-formed slices and separation *)

Definition slice_ok (h : heap) (s : slice) : Prop :=
  len s ≤ cap s ∧ (cap s = 0 ∨ length (cells h (arr s)) = cap s).

(** No room to append in place. *)
Definition full (s : slice) : Prop := len s = cap s.

(** Not the same array. *)
Definition apart (s t : slice) : Prop := cap s = 0 ∨ cap t = 0 ∨ arr s ≠ arr t.

Lemma apart_sym s t : apart s t → apart t s.
Proof. unfold apart. intuition. Qed.

Lemma cells_alloc h xs c a :
  cells (alloc h xs c).1 a = if decide (a = length h) then xs ++ replicate (c - length xs) "" else cells h a.
Proof.
  unfold cells. cbn [alloc fst]. case_decide as Ha.
  - subst. by rewrite lookup_app_r, Nat.sub_diag by lia.
  - destruct (decide (a < length h)).
    + by rewrite lookup_app_l by lia.
    + rewrite !lookup_ge_None_2; [done|lia|rewrite length_app; simpl; lia].
Qed.

Lemma cells_insert h a l b :
  a < length h → cells (<[a := l]> h) b = if decide (b = a) then l else cells h b.
Proof.
  intros Ha. unfold cells. case_decide as Hb.
  - subst. by rewrite list_lookup_insert_eq.
  - by rewrite list_lookup_insert_ne.
Qed.

Lemma slice_ok_bound h s : slice_ok h s → cap s ≠ 0 → arr s < length h.
Proof.
  intros [_ [|Hl]] Hc; [done|]. destruct (decide (arr s < length h)) as [|Hn]; [done|].
  unfold cells in Hl. rewrite lookup_ge_None_2 in Hl by lia. simpl in Hl. lia.
Qed.

Lemma write_at_length i ys l : i + length ys ≤ length l → length (write_at i ys l) = length l.
Proof. intros H. unfold write_at. rewrite !length_app, length_take, length_drop. lia. Qed.

Lemma alloc_ok h xs c : slice_ok (alloc h xs c).1 (alloc h xs c).2 ∧ contents (alloc h xs c).1 (alloc h xs c).2 = xs.
Proof.
  unfold slice_ok, contents. pose proof (cells_alloc h xs c (length h)) as E. rewrite decide_True in E by done.
  simpl in *. rewrite E. split; [split; [lia|]|by rewrite take_app_length].
  right. rewrite length_app, length_replicate. lia.
Qed.

Lemma alloc_other h xs c t :
  slice_ok h t → slice_ok (alloc h xs c).1 t ∧ contents (alloc h xs c).1 t = contents h t ∧ apart (alloc h xs c).2 t.
Proof.
  intros Ht. pose proof (slice_ok_bound h t Ht) as Hb. unfold apart.
  destruct (decide (cap t = 0)) as [Hz|Hz].
  - destruct Ht as [Hle _]. unfold slice_ok, contents. assert (len t = 0) as -> by lia.
    split_and!; [lia|by left|done|auto].
  - specialize (Hb Hz). unfold slice_ok, contents. rewrite cells_alloc, decide_False by lia.
    destruct Ht. split_and!; [done|done|done|]. right. right. simpl. lia.
Qed.

(** What [append] gives, whether in place or not. *)
Lemma append_spec grow h s ys h' s' :
  slice_ok h s → append grow h s ys = (h', s') →
  slice_ok h' s' ∧ contents h' s' = contents h s ++ ys.
Proof.
  intros Hok. pose proof (slice_ok_bound h s Hok) as Hb. destruct Hok as [Hle Hc].
  unfold append. case_decide as Hroom; [intros [= <- <-]|intros E].
  - destruct (decide (cap s = 0)) as [Hz|Hz].
    { assert (ys = []) as -> by (destruct ys; [done|simpl in *; lia]).
      unfold slice_ok, contents. simpl. rewrite Nat.add_0_r, app_nil_r.
      assert (len s = 0) as -> by lia. split; [|done]. split; [lia|by left]. }
    destruct Hc as [|Hc]; [done|]. specialize (Hb Hz). unfold slice_ok, contents. simpl.
    rewrite cells_insert, decide_True by done. split.
    + split; [lia|]. right. rewrite write_at_length; lia.
    + unfold write_at. rewrite app_assoc, take_app_le; [|rewrite length_app, length_take; lia].
      apply take_ge. rewrite length_app, length_take. lia.
  - pose proof (alloc_ok h (contents h s ++ ys) (grow (cap s) (len s + length ys))) as Ha. by rewrite E in Ha.
Qed.

(** A slice keeps its contents when another one is appended to, unless it
    reaches past the end of that one in the same array. *)
Lemma append_other grow h s ys h' s' t :
  slice_ok h s → slice_ok h t → append grow h s ys = (h', s') →
  apart s t ∨ full s ∨ len t ≤ len s →
  slice_ok h' t ∧ contents h' t = contents h t.
Proof.
  intros Hs Ht Happ Hsep. pose proof (slice_ok_bound h s Hs) as Hbs. pose proof (slice_ok_bound h t Ht) as Hbt.
  destruct (decide (cap t = 0)) as [Hz|Hz].
  { destruct Ht as [Hle _]. unfold slice_ok, contents. assert (len t = 0) as -> by lia.
    split; [split; [lia|by left]|done]. }
  specialize (Hbt Hz). unfold append in Happ. case_decide as Hroom; simplify_eq.
  - destruct (decide (cap s = 0)) as [Hzs|Hzs].
    { assert (ys = []) as -> by (destruct ys; [done|simpl in *; lia]).
      assert (Hnop : write_at (len s) [] (cells h (arr s)) = cells h (arr s))
        by (unfold write_at; simpl; by rewrite Nat.add_0_r, take_drop).
      rewrite Hnop. assert (Hsame : cells (<[arr s:=cells h (arr s)]> h) (arr t) = cells h (arr t)).
      { destruct (decide (arr s < length h)) as [Hb|Hb].
        - rewrite cells_insert by done. by case_decide; [f_equal|].
        - by rewrite list_insert_ge by lia. }
      unfold slice_ok, contents. by rewrite Hsame. }
    specialize (Hbs Hzs). unfold slice_ok, contents. rewrite cells_insert by done.
    case_decide as Ha; [|by destruct Ht].
    destruct Hs as [Hle [?|Hc]]; [done|]. destruct Ht as [Hlt Hct].
    rewrite write_at_length by lia. rewrite Ha in Hct. split; [done|].
    destruct Hsep as [[?|[?|?]]|[Hfull|Hlen]]; [done|done|congruence| |].
    + assert (ys = []) as -> by (destruct ys; [done|simpl in *; unfold full in *; lia]).
      unfold write_at. simpl. by rewrite Nat.add_0_r, take_drop, Ha.
    + unfold write_at. rewrite take_app_le by (rewrite length_take; lia).
      rewrite take_take, Ha. f_equal. lia.
  - pose proof (alloc_other h (contents h s ++ ys) (grow (cap s) (len s + length ys)) t Ht) as Ha.
    rewrite Happ in Ha. tauto.
Qed.

(** Separation is kept. *)
Lemma append_apart grow h s ys h' s' t :
  slice_ok h t → append grow h s ys = (h', s') → apart s t ∨ (full s ∧ ys ≠ []) → apart s' t.
Proof.
  intros Ht Happ Hsep. pose proof (slice_ok_bound h t Ht) as Hbt. unfold append in Happ.
  case_decide as Hroom; [|unfold alloc in Happ]; simplify_eq; unfold apart in *; simpl.
  - destruct Hsep as [|[Hf Hy]]; [done|]. destruct ys; [done|]. simpl in Hroom. unfold full in Hf. lia.
  - destruct (decide (cap t = 0)); [auto|]. specialize (Hbt ltac:(done)). right. right. lia.
Qed.

Lemma set_index_spec h s i x :
  slice_ok h s → i < len s →
  slice_ok (set_index h s i x) s ∧ contents (set_index h s i x) s = <[i := x]> (contents h s).
Proof.
  intros Hok Hi. pose proof (slice_ok_bound h s Hok) as Hb. destruct Hok as [Hle Hc].
  specialize (Hb ltac:(lia)). unfold set_index, slice_ok, contents. rewrite cells_insert, decide_True by done.
  rewrite length_insert. split; [done|]. by rewrite take_insert_lt.
Qed.

Lemma set_index_other h s i x t :
  slice_ok h s → i < len s → slice_ok h t → apart s t →
  slice_ok (set_index h s i x) t ∧ contents (set_index h s i x) t = contents h t.
Proof.
  intros Hs Hi Ht Hap. pose proof (slice_ok_bound h s Hs) as Hb. pose proof (slice_ok_bound h t Ht).
  specialize (Hb ltac:(destruct Hs; lia)). destruct (decide (cap t = 0)) as [Hz|Hz].
  { destruct Ht as [Hle _]. unfold slice_ok, contents. assert (len t = 0) as -> by lia.
    split; [split; [lia|by left]|done]. }
  unfold set_index, slice_ok, contents. rewrite cells_insert by done. rewrite decide_False; [done|].
  intros Heq. destruct Hs as [Hs1 _]. destruct Hap as [?|[?|?]]; [lia|done|congruence].
Qed.
