(* ===== verification/BFlags.v ===== *)
(** * builder/dockerfile/bflag.go: the flags of an instruction

    A handler declares its flags ([AddBool], [AddString]) and then calls
    [Parse] on the words of the instruction that start with two dashes.  A
    [*Flag] that a declaration returns is the entry of its name in [flags]; a
    handler reads it there after [Parse]. *)

From S2P Require Import Prelude GoStrings.

Inductive FlagType := boolType | stringType.

Record Flag := mkFlag { flagType : FlagType; Value : string }.

Inductive error :=
| ErrDuplicateDefined (name : string)
| ErrSettingUp (e : error)
| ErrNoDashes (arg : string)
| ErrUnknownFlag (arg : string)
| ErrDuplicateFlag (arg : string)
| ErrMissingValue (arg : string)
| ErrNotBoolean (arg value : string).

Record BFlags := mkBFlags {
  Args : list string;
  flags : gmap string Flag;
  used : gset string;
  bf_Err : option error;
}.

Definition NewBFlags : BFlags := mkBFlags [] ∅ ∅ None.

(** Whether the flag was added: the pointer is not nil. *)
Definition addFlag (name : string) (f : Flag) (bf : BFlags) : bool * BFlags :=
  match flags bf !! name with
  | Some _ => (false, mkBFlags (Args bf) (flags bf) (used bf) (Some (ErrDuplicateDefined name)))
  | None => (true, mkBFlags (Args bf) (<[name := f]> (flags bf)) (used bf) (bf_Err bf))
  end.

Definition AddBool (name : string) (def : bool) (bf : BFlags) : bool * BFlags :=
  addFlag name (mkFlag boolType (if def then "true" else "false")) bf.

Definition AddString (name def : string) (bf : BFlags) : bool * BFlags :=
  addFlag name (mkFlag stringType def) bf.

Definition IsUsed (name : string) (bf : BFlags) : bool := bool_decide (name ∈ used bf).

Definition IsTrue (f : Flag) : outcome error bool :=
  match flagType f with
  | boolType => Ok (bool_decide (Value f = "true"))
  | stringType => Panic "Trying to use IsTrue on a non-boolean"
  end.

Section parse.
Context (unicode_lower : string → string).

(** The value a flag takes; [value] is [None] when there is no equals sign. *)
Definition flag_value (arg : string) (value : option string) (f : Flag) : outcome error string :=
  match flagType f with
  | boolType =>
      if bool_decide (value = Some "") then Err (ErrMissingValue arg)
      else
        let lower := ToLower unicode_lower (default "" value) in
        if bool_decide (lower = "") then Ok "true"
        else if bool_decide (lower = "true" ∨ lower = "false") then Ok lower
        else Err (ErrNotBoolean arg (default "" value))
  | stringType =>
      match value with
      | None => Err (ErrMissingValue arg)
      | Some v => Ok v
      end
  end.

(** The loop over the arguments. *)
Fixpoint Parse_loop (args : list string) : ST BFlags error unit :=
  match args with
  | [] => mret tt
  | arg0 :: args' =>
      if negb (HasPrefix arg0 "--") then st_fail (ErrNoDashes arg0)
      else if bool_decide (arg0 = "--") then mret tt
      else
        let '(arg, value) := Cut "=" (String.substring 2 (String.length arg0 - 2) arg0) in
        bf ← st_get;
        match flags bf !! arg with
        | None => st_fail (ErrUnknownFlag arg)
        | Some flag =>
            if bool_decide (arg ∈ used bf) then st_fail (ErrDuplicateFlag arg)
            else
              st_put (mkBFlags (Args bf) (flags bf) ({[arg]} ∪ used bf) (bf_Err bf)) ;;
              match flag_value arg value flag with
              | Ok v =>
                  st_modify (λ bf, mkBFlags (Args bf) (<[arg := mkFlag (flagType flag) v]> (flags bf))
                                            (used bf) (bf_Err bf)) ;;
                  Parse_loop args'
              | Err e => st_fail e
              | Panic m => st_panic m
              end
        end
  end.

Definition Parse : ST BFlags error unit :=
  bf ← st_get;
  match bf_Err bf with
  | Some e => st_fail (ErrSettingUp e)
  | None => Parse_loop (Args bf)
  end.

(** ** Facts *)

Lemma substring_all s : String.substring 0 (String.length s) s = s.
Proof. induction s as [|a s IH]; [done|]. simpl. by rewrite IH. Qed.

(** [--name=value] *)
Definition assignment (nv : string * string) : string := "--" +:+ nv.1 +:+ String "=" nv.2.

Lemma Parse_loop_assignments avs : ∀ bf,
  NoDup avs.*1 →
  Forall (λ nv, ContainsByte "=" nv.1 = false ∧
                (∃ v, flags bf !! nv.1 = Some (mkFlag stringType v)) ∧ nv.1 ∉ used bf) avs →
  Parse_loop (assignment <$> avs) bf =
  (Ok tt, mkBFlags (Args bf) (list_to_map (prod_map id (mkFlag stringType) <$> avs) ∪ flags bf)
                   (list_to_set avs.*1 ∪ used bf) (bf_Err bf)).
Proof.
  induction avs as [|[n w] avs IH]; intros bf Hnd Hall.
  - simpl. rewrite (left_id_L ∅ (∪)), (left_id_L ∅ (∪)). by destruct bf.
  - rewrite fmap_cons in *. apply NoDup_cons in Hnd as [Hn Hnd].
    apply Forall_cons in Hall as [[Heq [[v Hv] Hu]] Hall]. simpl in Heq, Hv, Hu, Hn.
    assert (Earg : assignment (n, w) = String "-" (String "-" (n +:+ String "=" w))) by done.
    cbn [Parse_loop]. rewrite Earg. assert (HasPrefix (String "-" (String "-" (n +:+ String "=" w))) "--" = true) as ->
      by (cbn; by destruct (n +:+ String "=" w)).
    cbn [negb].
    rewrite bool_decide_false by (by destruct n).
    replace (String.substring 2 _ _) with (n +:+ String "=" w).
    2:{ simpl. by rewrite Nat.sub_0_r, substring_all. }
    rewrite Cut_app by done. unfold mbind, ST_bind, st_get. cbv beta iota. rewrite Hv.
    rewrite bool_decide_false by done. simpl. rewrite IH; [|done|].
    + simpl. f_equal. f_equal.
      * rewrite <- insert_union_l. unfold id. rewrite insert_union_r; [done|].
        apply not_elem_of_list_to_map_1. rewrite <- list_fmap_compose. done.
      * set_solver.
    + apply Forall_forall. intros [n' w'] Hin. rewrite Forall_forall in Hall.
      destruct (Hall _ Hin) as (H1 & [v' H2] & H3). simpl in *.
      assert (n' ≠ n) by (intros ->; apply Hn; apply list_elem_of_fmap; by exists (n, w')).
      split_and!; [done| |set_solver]. exists v'. by rewrite lookup_insert_ne.
Qed.
End parse.

(** Flags: when each of some declared string flags is given once, in any
    order, [Parse] succeeds, gives each of them its value and marks exactly
    them as used, and leaves the other flags at their defaults. *)
Theorem BFlags_Parse unicode_lower bf avs :
  bf_Err bf = None → Args bf = assignment <$> avs → NoDup avs.*1 → used bf = ∅ →
  Forall (λ nv, ContainsByte "=" nv.1 = false ∧ ∃ v, flags bf !! nv.1 = Some (mkFlag stringType v)) avs →
  ∃ bf', Parse unicode_lower bf = (Ok tt, bf') ∧
    (∀ n w, (n, w) ∈ avs → flags bf' !! n = Some (mkFlag stringType w)) ∧
    (∀ n, n ∉ avs.*1 → flags bf' !! n = flags bf !! n) ∧
    used bf' = list_to_set avs.*1.
Proof.
  intros He Ha Hnd Hu Hall. unfold Parse, mbind, ST_bind, st_get. rewrite He, Ha.
  rewrite Parse_loop_assignments; [|done|].
  2:{ eapply Forall_impl; [exact Hall|]. intros nv [? ?]. rewrite Hu. set_solver. }
  eexists. split; [done|]. simpl. split_and!.
  - intros n w Hin. apply lookup_union_Some_l. apply elem_of_list_to_map.
    + by rewrite <- list_fmap_compose.
    + apply list_elem_of_fmap. by exists (n, w).
  - intros n Hn. apply lookup_union_r. apply not_elem_of_list_to_map_1. by rewrite <- list_fmap_compose.
  - rewrite Hu. set_solver.
Qed.

Lemma BFlags_Parse_witness :
  let bf := mkBFlags ["--retries=3"; "--interval=5s"]
              (<["interval" := mkFlag stringType ""]> (<["timeout" := mkFlag stringType ""]>
               (<["retries" := mkFlag stringType ""]> ∅))) ∅ None in
  ∃ bf', Parse id bf = (Ok tt, bf') ∧
    (∀ n w, (n, w) ∈ [("retries", "3"); ("interval", "5s")] → flags bf' !! n = Some (mkFlag stringType w)) ∧
    (∀ n, n ∉ ["retries"; "interval"] → flags bf' !! n = flags bf !! n) ∧
    used bf' = list_to_set ["retries"; "interval"].
Proof.
  intros bf. apply (BFlags_Parse id bf [("retries", "3"); ("interval", "5s")]); try done.
  - repeat constructor; set_solver.
  - repeat constructor; by eexists.
Defined.

(** Parsing flags never panics. *)
Lemma Parse_no_panic unicode_lower bf : panics (Parse unicode_lower bf).1 = false.
Proof.
  unfold Parse, mbind, ST_bind, st_get. destruct (bf_Err bf); [done|].
  generalize (Args bf). intros args. revert bf. induction args as [|arg0 args IH]; intros bf; [done|].
  cbn [Parse_loop]. destruct (negb _); [done|]. case_bool_decide; [done|].
  destruct (Cut _ _) as [arg value]. unfold mbind, ST_bind, st_get. destruct (flags bf !! arg) as [flag|]; [|done].
  case_bool_decide; [done|]. unfold st_put, st_modify. unfold flag_value.
  destruct (flagType flag); [|destruct value; [apply IH|done]].
  repeat (case_bool_decide; [done || apply IH|]). done.
Qed.
