(* ===== verification/Builder.v ===== *)
(** * builder/dockerfile: evaluating a Dockerfile

    Models [src/builder/dockerfile]: [evaluator.go] (the dispatch of a parsed
    instruction, with the expansion of variables), [dispatchers.go] and
    [dispatchers_unix.go] (the handler of each instruction), [support.go], the
    parts of [internals.go] that commit, run and look up images, and
    [builder.go] (whole builds, and the changes of [docker commit]).

    The lists of the run configuration are slices over one heap of arrays
    ([GoSlice]): the handlers append to them and hand them on, and which of
    them share an array decides what ends up in the image.  The array of
    [defaultShell] is at address 0.

    The daemon is behind the interface [builder.Backend].  It is modelled by
    its replies, functions of all the calls made so far, and the calls are
    recorded in the state with the configuration as it is at that moment.
    Printing is left out, and so are the resource limits, which are passed on
    from the options unchanged.  Reading the build context ([download],
    [calcCopyInfo]) is a reply as well.

    FROM runs the triggers of the base image through the dispatcher again;
    triggers cannot be FROM, so the depth is two: the fuel of [dispatch]. *)

From stdpp Require Import pretty.
From S2P Require Import Prelude GoStrings ShellParser Reference Json DockerfileParser GoSlice BFlags.

(** ** Data *)

Record HealthConfig := mkHealth { Test : list string; Interval : Z; Timeout : Z; Retries : Z }.

(** [container.Config], the fields the builder uses; its lists are slices in
    the builder, and lists where the configuration is handed over. *)
Record Config (L : Type) := mkConfig {
  User : string;
  ExposedPorts : gset string;
  Env : L;
  Cmd : L;
  Healthcheck : option HealthConfig;
  ArgsEscaped : bool;
  Image : string;
  Volumes : gset string;
  WorkingDir : string;
  Entrypoint : L;
  OnBuild : L;
  Labels : gmap string string;
  StopSignal : string;
  Shell : L;
}.
Arguments mkConfig {L}.
Arguments User {L}. Arguments ExposedPorts {L}. Arguments Env {L}. Arguments Cmd {L}.
Arguments Healthcheck {L}. Arguments ArgsEscaped {L}. Arguments Image {L}. Arguments Volumes {L}.
Arguments WorkingDir {L}. Arguments Entrypoint {L}. Arguments OnBuild {L}. Arguments Labels {L}.
Arguments StopSignal {L}. Arguments Shell {L}.

(** A configuration as others see it; [None] is a nil slice. *)
Abbreviation config := (Config (option (list string))).

Definition map_config {A B} (f : A → B) (c : Config A) : Config B :=
  mkConfig (User c) (ExposedPorts c) (f (Env c)) (f (Cmd c)) (Healthcheck c) (ArgsEscaped c) (Image c)
    (Volumes c) (WorkingDir c) (f (Entrypoint c)) (f (OnBuild c)) (Labels c) (StopSignal c) (f (Shell c)).

Record image_ := mkImage { ImageID : string; RunConfig : option config }.

(** [copyInfo], with what the builder asks of the [FileInfo]. *)
Record copyInfo := mkCopyInfo { fi_Name : string; fi_Hash : option string; decompress : bool }.

Record Options := mkOptions {
  BuildArgs : gmap string string;
  NoCache : bool;
  PullParent : bool;
  Remove : bool;
  ForceRemove : bool;
  Tags : list string;
  opt_Labels : gmap string string;
}.

(** Calls of the daemon and of the build context.  [Commit] makes an image with
    the configuration it is given; it also writes the configuration of the
    container into the image (as ContainerConfig, and its command in the
    history), which is the object that the builder gave to [ContainerCreate]
    and has gone on changing. *)
Inductive call :=
| GetImageOnBuild (name : string)
| PullOnBuild (name : string)
| GetCachedImageOnBuild (parent : string) (cfg : config)
| ContainerCreate (cfg : config)
| ContainerUpdateCmdOnBuild (id : string) (cmd : list string)
| ContainerStart (id : string)
| ContainerAttachRaw (id : string)
| ContainerWait (id : string)
| ContainerRm (id : string)
| Commit (id author : string) (cfg containerCfg : config)
| CopyOnBuild (id dest : string) (info : copyInfo)
| Download (url : string)
| CalcCopyInfo (cmdName orig : string) (allowLocalDecompression : bool)
| TagImageWithReference (id : string) (ref : Named).

(** The replies, given the calls made before. *)
Record Backend := mkBackend {
  re_image : list call → string → option image_;
  re_pull : list call → string → string + image_;
  is_cache : bool;                                    (* b.docker is an ImageCache *)
  re_cached : list call → string → config → string + string;
  re_getimage : list call → string → string + option config;   (* GetImage, its Config *)
  re_create : list call → config → string + string;
  re_unit : list call → call → option string;         (* an error, for the other calls *)
  re_wait : list call → string → Z;
  re_commit : list call → string → string + string;
  re_download : list call → string → string + copyInfo;
  re_copyinfo : list call → string → string + list copyInfo;
  re_cancelled : list call → bool;                    (* clientCtx is done *)
}.

Inductive error :=
| ErrAtLeastOneArgument (command : string)
| ErrExactlyOneArgument (command : string)
| ErrTooManyArguments (command : string)
| ErrFlags (e : BFlags.error)
| ErrParse (e : DockerfileParser.error)
| ErrWord (e : ShellParser.error)
| ErrReference (e : Reference.error)
| ErrNoSource                                        (* Please provide a source image *)
| ErrChainedOnbuild
| ErrTrigger (instruction : string)
| ErrNormaliseNothing
| ErrNotJSON (command : string)
| ErrInterval
| ErrDuration
| ErrRetries
| ErrHealthcheck
| ErrNoneArguments
| ErrUnknownHealthType (typ : string)
| ErrPorts
| ErrEmptyVolume
| ErrSignal (s : string)
| ErrNoContext (cmdName : string)
| ErrCopyFormat (cmdName : string)
| ErrURLSource (cmdName : string)
| ErrNoSources
| ErrManySources (cmdName : string)
| ErrNonZero (code : Z)
| ErrCancelled
| ErrUnknownInstruction (cmd : string)
| ErrEmptyDockerfile
| ErrNoDockerfile
| ErrTagDigest
| ErrLeftoverArgs (args : list string)
| ErrNoImage
| ErrNoCommand
| ErrInvalidChange (cmd : string)
| ErrBackend (msg : string).

Record Builder := mkBuilder {
  b_heap : list (list string);
  runConfig : Config slice;
  b_image : string;
  noBaseImage : bool;
  b_maintainer : string;
  cmdSet : bool;
  disableCommit : bool;
  cacheBusted : bool;
  allowedBuildArgs : gset string;
  options : Options;
  directive : Directive;
  b_flags : BFlags;
  tmpContainers : gset string;
  has_context : bool;
  calls : list call;
}.

Abbreviation M := (ST Builder error).

(** ** The configuration in the state *)

Definition set_config (f : Config slice → Config slice) (b : Builder) : Builder :=
  mkBuilder (b_heap b) (f (runConfig b)) (b_image b) (noBaseImage b) (b_maintainer b) (cmdSet b)
    (disableCommit b) (cacheBusted b) (allowedBuildArgs b) (options b) (directive b) (b_flags b)
    (tmpContainers b) (has_context b) (calls b).

Definition set_heap (h : list (list string)) (b : Builder) : Builder :=
  mkBuilder h (runConfig b) (b_image b) (noBaseImage b) (b_maintainer b) (cmdSet b)
    (disableCommit b) (cacheBusted b) (allowedBuildArgs b) (options b) (directive b) (b_flags b)
    (tmpContainers b) (has_context b) (calls b).

Definition set_image (i : string) (b : Builder) : Builder :=
  mkBuilder (b_heap b) (runConfig b) i (noBaseImage b) (b_maintainer b) (cmdSet b)
    (disableCommit b) (cacheBusted b) (allowedBuildArgs b) (options b) (directive b) (b_flags b)
    (tmpContainers b) (has_context b) (calls b).

Definition set_flags (f : BFlags) (b : Builder) : Builder :=
  mkBuilder (b_heap b) (runConfig b) (b_image b) (noBaseImage b) (b_maintainer b) (cmdSet b)
    (disableCommit b) (cacheBusted b) (allowedBuildArgs b) (options b) (directive b) f
    (tmpContainers b) (has_context b) (calls b).

Definition set_calls (cs : list call) (b : Builder) : Builder :=
  mkBuilder (b_heap b) (runConfig b) (b_image b) (noBaseImage b) (b_maintainer b) (cmdSet b)
    (disableCommit b) (cacheBusted b) (allowedBuildArgs b) (options b) (directive b) (b_flags b)
    (tmpContainers b) (has_context b) cs.

Definition set_directive (d : Directive) (b : Builder) : Builder :=
  mkBuilder (b_heap b) (runConfig b) (b_image b) (noBaseImage b) (b_maintainer b) (cmdSet b)
    (disableCommit b) (cacheBusted b) (allowedBuildArgs b) (options b) d (b_flags b)
    (tmpContainers b) (has_context b) (calls b).

Definition set_tmp (t : gset string) (b : Builder) : Builder :=
  mkBuilder (b_heap b) (runConfig b) (b_image b) (noBaseImage b) (b_maintainer b) (cmdSet b)
    (disableCommit b) (cacheBusted b) (allowedBuildArgs b) (options b) (directive b) (b_flags b)
    t (has_context b) (calls b).

Definition set_Cmd {L} (s : L) (c : Config L) : Config L :=
  mkConfig (User c) (ExposedPorts c) (Env c) s (Healthcheck c) (ArgsEscaped c) (Image c)
    (Volumes c) (WorkingDir c) (Entrypoint c) (OnBuild c) (Labels c) (StopSignal c) (Shell c).
Definition set_Env {L} (s : L) (c : Config L) : Config L :=
  mkConfig (User c) (ExposedPorts c) s (Cmd c) (Healthcheck c) (ArgsEscaped c) (Image c)
    (Volumes c) (WorkingDir c) (Entrypoint c) (OnBuild c) (Labels c) (StopSignal c) (Shell c).
Definition set_Image {L} (i : string) (c : Config L) : Config L :=
  mkConfig (User c) (ExposedPorts c) (Env c) (Cmd c) (Healthcheck c) (ArgsEscaped c) i
    (Volumes c) (WorkingDir c) (Entrypoint c) (OnBuild c) (Labels c) (StopSignal c) (Shell c).
Definition set_ArgsEscaped {L} (c : Config L) : Config L :=
  mkConfig (User c) (ExposedPorts c) (Env c) (Cmd c) (Healthcheck c) true (Image c)
    (Volumes c) (WorkingDir c) (Entrypoint c) (OnBuild c) (Labels c) (StopSignal c) (Shell c).
Definition set_Entrypoint {L} (s : L) (c : Config L) : Config L :=
  mkConfig (User c) (ExposedPorts c) (Env c) (Cmd c) (Healthcheck c) (ArgsEscaped c) (Image c)
    (Volumes c) (WorkingDir c) s (OnBuild c) (Labels c) (StopSignal c) (Shell c).
Definition set_OnBuild {L} (s : L) (c : Config L) : Config L :=
  mkConfig (User c) (ExposedPorts c) (Env c) (Cmd c) (Healthcheck c) (ArgsEscaped c) (Image c)
    (Volumes c) (WorkingDir c) (Entrypoint c) s (Labels c) (StopSignal c) (Shell c).
Definition set_Shell {L} (s : L) (c : Config L) : Config L :=
  mkConfig (User c) (ExposedPorts c) (Env c) (Cmd c) (Healthcheck c) (ArgsEscaped c) (Image c)
    (Volumes c) (WorkingDir c) (Entrypoint c) (OnBuild c) (Labels c) (StopSignal c) s.
Definition set_Labels {L} (l : gmap string string) (c : Config L) : Config L :=
  mkConfig (User c) (ExposedPorts c) (Env c) (Cmd c) (Healthcheck c) (ArgsEscaped c) (Image c)
    (Volumes c) (WorkingDir c) (Entrypoint c) (OnBuild c) l (StopSignal c) (Shell c).
Definition set_Healthcheck {L} (h : HealthConfig) (c : Config L) : Config L :=
  mkConfig (User c) (ExposedPorts c) (Env c) (Cmd c) (Some h) (ArgsEscaped c) (Image c)
    (Volumes c) (WorkingDir c) (Entrypoint c) (OnBuild c) (Labels c) (StopSignal c) (Shell c).
Definition set_ExposedPorts {L} (p : gset string) (c : Config L) : Config L :=
  mkConfig (User c) p (Env c) (Cmd c) (Healthcheck c) (ArgsEscaped c) (Image c)
    (Volumes c) (WorkingDir c) (Entrypoint c) (OnBuild c) (Labels c) (StopSignal c) (Shell c).
Definition set_Volumes {L} (v : gset string) (c : Config L) : Config L :=
  mkConfig (User c) (ExposedPorts c) (Env c) (Cmd c) (Healthcheck c) (ArgsEscaped c) (Image c)
    v (WorkingDir c) (Entrypoint c) (OnBuild c) (Labels c) (StopSignal c) (Shell c).
Definition set_User {L} (u : string) (c : Config L) : Config L :=
  mkConfig u (ExposedPorts c) (Env c) (Cmd c) (Healthcheck c) (ArgsEscaped c) (Image c)
    (Volumes c) (WorkingDir c) (Entrypoint c) (OnBuild c) (Labels c) (StopSignal c) (Shell c).
Definition set_WorkingDir {L} (w : string) (c : Config L) : Config L :=
  mkConfig (User c) (ExposedPorts c) (Env c) (Cmd c) (Healthcheck c) (ArgsEscaped c) (Image c)
    (Volumes c) w (Entrypoint c) (OnBuild c) (Labels c) (StopSignal c) (Shell c).
Definition set_StopSignal {L} (s : string) (c : Config L) : Config L :=
  mkConfig (User c) (ExposedPorts c) (Env c) (Cmd c) (Healthcheck c) (ArgsEscaped c) (Image c)
    (Volumes c) (WorkingDir c) (Entrypoint c) (OnBuild c) (Labels c) s (Shell c).

(** The configuration as it would be printed now. *)
Definition observe (h : list (list string)) (s : slice) : option (list string) :=
  if bool_decide (s = nil_slice) then None else Some (contents h s).

Definition view (b : Builder) : config := map_config (observe (b_heap b)) (runConfig b).

(** [defer f()] around the rest of a body: [f] runs however it ends. *)
Definition deferred {A} (f : Builder → Builder) (m : M A) : M A := λ b, let '(r, b') := m b in (r, f b').

Definition modify_config (f : Config slice → Config slice) : M unit := st_modify (set_config f).

Definition lift {E A} (inj : E → error) (o : outcome E A) : M A :=
  match o with Ok a => mret a | Err e => st_fail (inj e) | Panic m => st_panic m end.

Definition read (s : slice) : M (list string) := st_gets (λ b, contents (b_heap b) s).

Definition defaultShell : slice := mkSlice 0 2 2.
Definition defaultShell_array : list string := ["/bin/sh"; "-c"].

(** ** Paths and names *)

(** [filepath.Clean] of a path that starts with a slash: its components. *)
Fixpoint clean_components (acc cs : list string) : list string :=
  match cs with
  | [] => reverse acc
  | c :: cs' =>
      if bool_decide (c = "" ∨ c = ".") then clean_components acc cs'
      else if bool_decide (c = "..") then clean_components (tail acc) cs'
      else clean_components (c :: acc) cs'
  end.

Definition Clean_rooted (s : string) : string := "/" +:+ Join "/" (clean_components [] (Split "/" s)).

Definition IsAbs (s : string) : bool := HasPrefix s "/".

(** [filepath.Join("/", a, b)] *)
Definition Join_root (a b : string) : string := Clean_rooted ("/" +:+ "/" +:+ a +:+ "/" +:+ b).

Definition normaliseWorkdir (current requested : string) : outcome error string :=
  if bool_decide (requested = "") then Err ErrNormaliseNothing
  else if negb (IsAbs requested) then Ok (Join_root current requested)
  else Ok requested.

Definition HasSuffixByte (s : string) (c : ascii) : bool :=
  bool_decide (String.get (String.length s - 1) s = Some c).

Definition normaliseDest (workingDir requested : string) : string :=
  if negb (IsAbs requested) then
    let dest := Join_root workingDir requested in
    if HasSuffixByte requested "/" then dest +:+ "/" else dest
  else requested.

(** [urlutil.IsURL] *)
Definition IsURL (s : string) : bool := HasPrefix s "http://" || HasPrefix s "https://".

(** [pkg/signal]: the names in [SignalMap] with their numbers on Linux. *)
Definition SignalMap : list (string * Z) :=
  ([("ABRT", 6); ("ALRM", 14); ("BUS", 7); ("CHLD", 17); ("CLD", 17); ("CONT", 18); ("FPE", 8); ("HUP", 1);
    ("ILL", 4); ("INT", 2); ("IO", 29); ("IOT", 6); ("KILL", 9); ("PIPE", 13); ("POLL", 29); ("PROF", 27);
    ("PWR", 30); ("QUIT", 3); ("SEGV", 11); ("STKFLT", 16); ("STOP", 19); ("SYS", 31); ("TERM", 15);
    ("TRAP", 5); ("TSTP", 20); ("TTIN", 21); ("TTOU", 22); ("UNUSED", 31); ("URG", 23); ("USR1", 10);
    ("USR2", 12); ("VTALRM", 26); ("WINCH", 28); ("XCPU", 24); ("XFSZ", 25); ("RTMIN", 34); ("RTMAX", 64)]
   ++ ((λ i, ("RTMIN+" +:+ pretty i, 34 + Z.of_nat i)) <$> seq 1 15)
   ++ ((λ i, ("RTMAX-" +:+ pretty i, 64 - Z.of_nat i)) <$> seq 1 14))%Z.

Fixpoint assoc {A} (k : string) (l : list (string * A)) : option A :=
  match l with
  | [] => None
  | (k', v) :: l' => if decide (k = k') then Some v else assoc k l'
  end.

Definition upper_byte (a : ascii) : ascii :=
  if in_range 97 122 (byte_val a) then byte_of (byte_val a - 32) else a.

(** [strings.ToUpper], with the Unicode tables as a parameter. *)
Definition ToUpper (unicode_upper : string → string) (s : string) : string :=
  if is_ascii s then map_bytes upper_byte s else unicode_upper s.

Definition ParseSignal (unicode_upper : string → string) (rawSignal : string) : option Z :=
  match Atoi rawSignal with
  | Some s => if decide (s = 0%Z) then None else Some s
  | None => assoc (Reference.TrimPrefix (ToUpper unicode_upper rawSignal) "SIG") SignalMap
  end.

(** [\s] *)
Definition re_space (a : ascii) : bool :=
  let n := byte_val a in (n =? 9)%N || (n =? 10)%N || (n =? 12)%N || (n =? 13)%N || (n =? 32)%N.

Fixpoint skip_re_space (s : string) : string :=
  match s with
  | String a s' => if re_space a then skip_re_space s' else s
  | "" => ""
  end.

(** The rest of [s] after [p], in any case. *)
Fixpoint strip_prefix_fold (p s : string) : option string :=
  match p, s with
  | "", _ => Some s
  | String a p', String b s' => if decide (upper_byte b = a) then strip_prefix_fold p' s' else None
  | _, "" => None
  end.

(** [regexp.MustCompile(`(?i)^\s*ONBUILD\s*`).ReplaceAllString(original, "")] *)
Definition strip_onbuild (original : string) : string :=
  match strip_prefix_fold "ONBUILD" (skip_re_space original) with
  | Some rest => skip_re_space rest
  | None => original
  end.

(** [runconfigopts.ConvertKVStringsToMap] *)
Definition ConvertKVStringsToMap (values : list string) : gmap string string :=
  foldl (λ m v, let '(k, x) := Cut "=" v in <[k := default "" x]> m) ∅ values.

Definition DefaultPathEnv : string := "/usr/local/sbin:/usr/local/bin:/usr/sbin:/usr/bin:/sbin:/bin".

Definition BuiltinAllowedBuildArgs : gset string :=
  list_to_set ["HTTP_PROXY"; "http_proxy"; "HTTPS_PROXY"; "https_proxy"; "FTP_PROXY"; "ftp_proxy";
               "NO_PROXY"; "no_proxy"].

(** [fmt.Sprintf("%v", l)] of a list of strings. *)
Definition Sprint_list (l : list string) : string := "[" +:+ Join " " l +:+ "]".

(** ** Operations *)

Section builder.
Context (T : UnicodeTables) (unicode_lower unicode_upper : string → string) (float_ok : string → bool).
(** [%q] of a string and of a health configuration; [time.ParseDuration];
    [nat.ParsePortSpecs], of which the ports are used; sha256 in hexadecimal. *)
Context (quote : string → string) (quote_health : HealthConfig → string).
Context (ParseDuration : string → option Z) (ParsePortSpecs : list string → option (gset string)).
Context (sha256_hex : string → string) (grammar : Grammar).
(** The runtime: how much capacity [append] and the JSON decoder reserve, and
    in which order a map is iterated. *)
Context (grow : nat → nat → nat) (decode_cap : nat → nat) (range : gmap string string → list (string * string)).
Context (docker : Backend).

Definition append_ (s : slice) (ys : list string) : M slice := λ b,
  let '(h, s') := GoSlice.append grow (b_heap b) s ys in (Ok s', set_heap h b).

(** A new array of exactly these elements: a composite literal. *)
Definition literal (xs : list string) : M slice := λ b,
  let '(h, s) := alloc (b_heap b) xs (length xs) in (Ok s, set_heap h b).

(** A list decoded from JSON, or null. *)
Definition decoded (xs : option (list string)) : M slice := λ b,
  match xs with
  | None => (Ok nil_slice, b)
  | Some xs => let '(h, s) := alloc (b_heap b) xs (decode_cap (length xs)) in (Ok s, set_heap h b)
  end.

Definition decoded_config (c : config) : M (Config slice) :=
  env ← decoded (Env c); cmd ← decoded (Cmd c); entrypoint ← decoded (Entrypoint c);
  onbuild ← decoded (OnBuild c); shell ← decoded (Shell c);
  mret (mkConfig (User c) (ExposedPorts c) env cmd (Healthcheck c) (ArgsEscaped c) (Image c)
          (Volumes c) (WorkingDir c) entrypoint onbuild (Labels c) (StopSignal c) shell).

(** A call: it is recorded, and the reply depends on the calls before. *)
Definition do_call {A} (c : call) (reply : list call → A) : M A := λ b,
  (Ok (reply (calls b)), set_calls (calls b ++ [c]) b).

Definition or_fail {A} (m : M (string + A)) : M A :=
  r ← m; match r with inl e => st_fail (ErrBackend e) | inr a => mret a end.

Definition unit_call (c : call) : M unit :=
  r ← do_call c (λ h, re_unit docker h c);
  match r with Some e => st_fail (ErrBackend e) | None => mret tt end.

Definition flags_Parse : M unit := λ b,
  let '(r, f) := BFlags.Parse unicode_lower (b_flags b) in
  (match r with Ok _ => Ok tt | Err e => Err (ErrFlags e) | Panic m => Panic m end, set_flags f b).

(** *** support.go, getShell *)

Definition handleJSONArgs (args : slice) (json : bool) : M slice :=
  if bool_decide (len args = 0) then literal []
  else if json then mret args
  else l ← read args; literal [Join " " l].

Definition getShell : M slice :=
  b ← st_get; mret (if bool_decide (len (Shell (runConfig b)) = 0) then defaultShell else Shell (runConfig b)).

(** *** internals.go *)

Definition probeCache : M bool :=
  b ← st_get;
  if negb (is_cache docker) || NoCache (options b) || cacheBusted b then mret false
  else
    cache ← or_fail (do_call (GetCachedImageOnBuild (b_image b) (view b))
                             (λ h, re_cached docker h (b_image b) (view b)));
    if bool_decide (cache = "") then
      st_modify (λ b, mkBuilder (b_heap b) (runConfig b) (b_image b) (noBaseImage b) (b_maintainer b) (cmdSet b)
        (disableCommit b) true (allowedBuildArgs b) (options b) (directive b) (b_flags b)
        (tmpContainers b) (has_context b) (calls b)) ;;
      mret false
    else st_modify (set_image cache) ;; mret true.

(** *** What the daemon does to the configuration it is given

    [ContainerCreate] gets a pointer to the builder's configuration, and
    completes it from the image (daemon/commit.go, [merge]); the new container
    keeps the pointer.  The image is read from the store for this call. *)

(** The loop over the environment of the image. *)
Fixpoint merge_env (imageEnv : list string) : M unit :=
  match imageEnv with
  | [] => mret tt
  | e :: imageEnv' =>
      env ← st_gets (λ b, Env (runConfig b));
      l ← read env;
      (if bool_decide (Exists (λ u, (Cut "=" u).1 = (Cut "=" e).1) l) then mret tt
       else (env' ← append_ env [e]; modify_config (set_Env env'))) ;;
      merge_env imageEnv'
  end.

Definition merge_health (user : option HealthConfig) (image : option HealthConfig) : option HealthConfig :=
  match image, user with
  | None, _ => user
  | Some _, None => image
  | Some i, Some u =>
      Some (mkHealth (if bool_decide (Test u = []) then Test i else Test u)
                     (if bool_decide (Interval u = 0%Z) then Interval i else Interval u)
                     (if bool_decide (Timeout u = 0%Z) then Timeout i else Timeout u)
                     (if bool_decide (Retries u = 0%Z) then Retries i else Retries u))
  end.

(** The fields that are not lists. *)
Definition merge_fields (i u : Config slice) : Config slice :=
  mkConfig (if bool_decide (User u = "") then User i else User u)
    (ExposedPorts u ∪ ExposedPorts i)
    (Env u) (Cmd u) (merge_health (Healthcheck u) (Healthcheck i)) (ArgsEscaped u) (Image u)
    (Volumes u ∪ Volumes i)
    (if bool_decide (WorkingDir u = "") then WorkingDir i else WorkingDir u)
    (Entrypoint u) (OnBuild u) (Labels u ∪ Labels i)
    (if bool_decide (StopSignal u = "") then StopSignal i else StopSignal u) (Shell u).

Definition merge (imageConf : Config slice) : M unit :=
  modify_config (merge_fields imageConf) ;;
  env ← st_gets (λ b, Env (runConfig b));
  (if bool_decide (len env = 0) then modify_config (set_Env (Env imageConf))
   else (l ← read (Env imageConf); merge_env l)) ;;
  u ← st_gets runConfig;
  if bool_decide (len (Entrypoint u) = 0) then
    (if bool_decide (len (Cmd u) = 0) then modify_config (set_Cmd (Cmd imageConf)) else mret tt) ;;
    (if bool_decide (Entrypoint u = nil_slice) then modify_config (set_Entrypoint (Entrypoint imageConf)) else mret tt)
  else mret tt.

Definition mergeAndVerifyConfig : M unit :=
  b ← st_get;
  (if bool_decide (Image (runConfig b) = "") then mret tt
   else
     img ← (match re_getimage docker (calls b) (Image (runConfig b)) with
            | inl e => st_fail (ErrBackend e)
            | inr img => mret img
            end);
     match img with
     | None => mret tt
     | Some c => i ← decoded_config c; merge i
     end) ;;
  u ← st_gets runConfig;
  if bool_decide (len (Entrypoint u) = 0) && bool_decide (len (Cmd u) = 0) then st_fail ErrNoCommand
  else mret tt.

(** [daemon.getEntrypointAndArgs] of [newContainer]: the arguments of the
    container are appended to the entry point, in its array. *)
Definition getEntrypointAndArgs : M unit :=
  u ← st_gets runConfig;
  if bool_decide (len (Entrypoint u) = 0) then mret tt
  else (l ← read (Cmd u); append_ (Entrypoint u) l ;; mret tt).

(** [b.docker.ContainerCreate] *)
Definition container_create : M string :=
  mergeAndVerifyConfig ;;
  getEntrypointAndArgs ;;
  b ← st_get;
  or_fail (do_call (ContainerCreate (view b)) (λ h, re_create docker h (view b))).

Definition create : M string :=
  b ← st_get;
  if bool_decide (b_image b = "") && negb (noBaseImage b) then st_fail ErrNoSource
  else
    modify_config (set_Image (b_image b)) ;;
    cmd ← st_gets (λ b, Cmd (runConfig b));           (* config := *b.runConfig *)
    id ← container_create;
    st_modify (λ b, set_tmp ({[id]} ∪ tmpContainers b) b) ;;
    l ← read cmd;
    unit_call (ContainerUpdateCmdOnBuild id l) ;;
    mret id.

(** The second half of [commit]: [autoConfig] is the configuration with the
    command [autoCmd]. *)
Definition commit_container (id : string) (autoCmd : slice) : M unit :=
  b ← st_get;
  let autoConfig := view (set_config (set_Cmd autoCmd) b) in
  imageID ← or_fail (do_call (Commit id (b_maintainer b) autoConfig (view b)) (λ h, re_commit docker h id));
  st_modify (set_image imageID).

Definition commit (id : string) (autoCmd : slice) (comment : string) : M unit :=
  b ← st_get;
  if disableCommit b then mret tt
  else if bool_decide (b_image b = "") && negb (noBaseImage b) then st_fail ErrNoSource
  else
    modify_config (set_Image (b_image b)) ;;
    if bool_decide (id = "") then
      sh ← getShell;
      nop ← append_ sh ["#(nop) "; comment];
      modify_config (set_Cmd nop) ;;
      deferred (set_config (set_Cmd (Cmd (runConfig b))))
        (hit ← probeCache;
         if hit : bool then mret tt else (id ← create; commit_container id autoCmd))
    else commit_container id autoCmd.

(** [b.commit("", b.runConfig.Cmd, comment)] *)
Definition commit_config (comment : string) : M unit :=
  c ← st_gets (λ b, Cmd (runConfig b)); commit "" c comment.

(** The container runs to its end.  The output is attached while the
    container starts; the calls are recorded in the order in which their
    results are looked at. *)
Definition run_container (cID : string) : M unit :=
  unit_call (ContainerStart cID) ;;
  unit_call (ContainerAttachRaw cID) ;;
  ret ← do_call (ContainerWait cID) (λ h, re_wait docker h cID);
  if bool_decide (ret ≠ 0%Z) then st_fail (ErrNonZero ret)
  else (b ← st_get; if re_cancelled docker (calls b) then st_fail ErrCancelled else mret tt).

Definition removeContainer (c : string) : M unit := unit_call (ContainerRm c).

(** The loop of [clearTmp]: it stops at the first error. *)
Fixpoint clearTmp_loop (cs : list string) : M unit :=
  match cs with
  | [] => mret tt
  | c :: cs' =>
      r ← st_try (removeContainer c);
      match r with
      | inr _ => mret tt
      | inl _ => st_modify (λ b, set_tmp (tmpContainers b ∖ {[c]}) b) ;; clearTmp_loop cs'
      end
  end.

Definition clearTmp : M unit := b ← st_get; clearTmp_loop (elements (tmpContainers b)).

Definition isBuildArgAllowed (b : Builder) (arg : string) : bool :=
  bool_decide (arg ∈ BuiltinAllowedBuildArgs) || bool_decide (arg ∈ allowedBuildArgs b).

(** The sources of ADD and COPY. *)
Fixpoint copy_sources (allowRemote allowLocalDecompression : bool) (cmdName : string) (origs : list string)
    : M (list copyInfo) :=
  match origs with
  | [] => mret []
  | orig :: origs' =>
      infos ← (if IsURL orig then
                 if negb allowRemote then st_fail (ErrURLSource cmdName)
                 else (fi ← or_fail (do_call (Download orig) (λ h, re_download docker h orig));
                       mret [mkCopyInfo (fi_Name fi) (fi_Hash fi) false])
               else or_fail (do_call (CalcCopyInfo cmdName orig allowLocalDecompression)
                                     (λ h, re_copyinfo docker h orig)));
      rest ← copy_sources allowRemote allowLocalDecompression cmdName origs';
      mret (infos ++ rest)
  end.

(** [srcHash] and [origPaths] *)
Definition source_hash (infos : list copyInfo) : string * string :=
  match infos with
  | [fi] => (default "" (fi_Hash fi), fi_Name fi)
  | _ => ("multi:" +:+ sha256_hex (Join "," (omap fi_Hash infos)), Join " " (fi_Name <$> infos))
  end.

Fixpoint copy_all (id dest : string) (infos : list copyInfo) : M unit :=
  match infos with
  | [] => mret tt
  | info :: infos' => unit_call (CopyOnBuild id dest info) ;; copy_all id dest infos'
  end.

Definition runContextCommand (args : list string) (allowRemote allowLocalDecompression : bool) (cmdName : string)
    : M unit :=
  b ← st_get;
  if negb (has_context b) then st_fail (ErrNoContext cmdName)
  else if decide (length args < 2) then st_fail (ErrCopyFormat cmdName)
  else
    let dest := default "" (last args) in
    modify_config (set_Image (b_image b)) ;;
    infos ← copy_sources allowRemote allowLocalDecompression cmdName (take (length args - 1) args);
    if bool_decide (infos = []) then st_fail ErrNoSources
    else if bool_decide (1 < length infos) && negb (HasSuffixByte dest "/") then st_fail (ErrManySources cmdName)
    else
      let '(srcHash, origPaths) := source_hash infos in
      cmd ← st_gets (λ b, Cmd (runConfig b));
      sh ← getShell;
      nop ← append_ sh ["#(nop) " +:+ cmdName +:+ " " +:+ srcHash +:+ " in " +:+ dest +:+ " "];
      modify_config (set_Cmd nop) ;;
      deferred (set_config (set_Cmd cmd))
        (hit ← probeCache;
         if hit : bool then mret tt
         else
           id ← container_create;
           st_modify (λ b, set_tmp ({[id]} ∪ tmpContainers b) b) ;;
           b ← st_get;
           copy_all id (normaliseDest (WorkingDir (runConfig b)) dest) infos ;;
           commit id cmd (cmdName +:+ " " +:+ origPaths +:+ " in " +:+ dest)).

(** *** dispatchers.go *)

(** The pairs of an even number of arguments. *)
Fixpoint pairs (l : list string) : list (string * string) :=
  match l with
  | x :: y :: l' => (x, y) :: pairs l'
  | _ => []
  end.

(** [" " + name + "=" + value], for each pair. *)
Definition pairs_comment (command : string) (ps : list (string * string)) : string :=
  foldl (λ s '(k, v), s +:+ " " +:+ k +:+ "=" +:+ v) command ps.

(** The first variable of that name. *)
Fixpoint env_index (name : string) (l : list string) : option nat :=
  match l with
  | [] => None
  | e :: l' => if bool_decide ((Cut "=" e).1 = name) then Some 0 else S <$> env_index name l'
  end.

Fixpoint env_loop (ps : list (string * string)) : M unit :=
  match ps with
  | [] => mret tt
  | (k, v) :: ps' =>
      s ← st_gets (λ b, Env (runConfig b));
      l ← read s;
      match env_index k l with
      | Some i => st_modify (λ b, set_heap (set_index (b_heap b) s i (k +:+ "=" +:+ v)) b)
      | None => s' ← append_ s [k +:+ "=" +:+ v]; modify_config (set_Env s')
      end ;;
      env_loop ps'
  end.

Definition env (args : slice) : M unit :=
  l ← read args;
  if bool_decide (len args = 0) then st_fail (ErrAtLeastOneArgument "ENV")
  else if negb (Nat.even (len args)) then st_fail (ErrTooManyArguments "ENV")
  else flags_Parse ;; env_loop (pairs l) ;; commit_config (pairs_comment "ENV" (pairs l)).

Definition maintainer (args : slice) : M unit :=
  l ← read args;
  match l with
  | [a] =>
      flags_Parse ;;
      st_modify (λ b, mkBuilder (b_heap b) (runConfig b) (b_image b) (noBaseImage b) a (cmdSet b)
        (disableCommit b) (cacheBusted b) (allowedBuildArgs b) (options b) (directive b) (b_flags b)
        (tmpContainers b) (has_context b) (calls b)) ;;
      commit_config ("MAINTAINER " +:+ a)
  | _ => st_fail (ErrExactlyOneArgument "MAINTAINER")
  end.

Definition label (args : slice) : M unit :=
  l ← read args;
  if bool_decide (len args = 0) then st_fail (ErrAtLeastOneArgument "LABEL")
  else if negb (Nat.even (len args)) then st_fail (ErrTooManyArguments "LABEL")
  else
    flags_Parse ;;
    modify_config (λ c, set_Labels (foldl (λ m '(k, v), <[k := v]> m) (Labels c) (pairs l)) c) ;;
    commit_config (pairs_comment "LABEL" (pairs l)).

Definition add (args : slice) : M unit :=
  l ← read args;
  if decide (len args < 2) then st_fail (ErrAtLeastOneArgument "ADD")
  else flags_Parse ;; runContextCommand l true true "ADD".

Definition dispatchCopy (args : slice) : M unit :=
  l ← read args;
  if decide (len args < 2) then st_fail (ErrAtLeastOneArgument "COPY")
  else flags_Parse ;; runContextCommand l false false "COPY".

Definition onbuild (args : slice) (original : string) : M unit :=
  l ← read args;
  match l with
  | [] => st_fail (ErrAtLeastOneArgument "ONBUILD")
  | a :: _ =>
      flags_Parse ;;
      let triggerInstruction := ToUpper unicode_upper (TrimSpace a) in
      if bool_decide (triggerInstruction = "ONBUILD") then st_fail ErrChainedOnbuild
      else if bool_decide (triggerInstruction = "MAINTAINER" ∨ triggerInstruction = "FROM")
      then st_fail (ErrTrigger triggerInstruction)
      else
        let original := strip_onbuild original in
        s ← st_gets (λ b, OnBuild (runConfig b));
        s' ← append_ s [original];
        modify_config (set_OnBuild s') ;;
        commit_config ("ONBUILD " +:+ original)
  end.

(** [b.runConfig.WorkingDir, err = normaliseWorkdir(...)] assigns on errors too. *)
Definition workdir (args : slice) : M unit :=
  l ← read args;
  match l with
  | [a] =>
      flags_Parse ;;
      cur ← st_gets (λ b, WorkingDir (runConfig b));
      match normaliseWorkdir cur a with
      | Ok w => modify_config (set_WorkingDir w) ;; commit_config ("WORKDIR " +:+ w)
      | Err e => modify_config (set_WorkingDir "") ;; st_fail e
      | Panic m => st_panic m
      end
  | _ => st_fail (ErrExactlyOneArgument "WORKDIR")
  end.

(** The build arguments that are allowed and that the configuration does not
    set, as [name=value], in the order of the iteration. *)
Definition build_env (b : Builder) : list string :=
  let configEnv := ConvertKVStringsToMap (contents (b_heap b) (Env (runConfig b))) in
  (λ '(k, v), k +:+ "=" +:+ v) <$>
    filter (λ '(k, v), isBuildArgAllowed b k = true ∧ configEnv !! k = None) (range (BuildArgs (options b))).

(** [sort.Strings] *)
Definition sort_strings (l : list string) : list string := merge_sort String.le l.

(** The body of [run] after the two deferred functions are set up: [cmd] and
    [env] are the stashed slices, [command] is [config.Cmd]. *)
Definition run_body (cmd env command : slice) : M unit :=
  b ← st_get;
  let cmdBuildEnv := sort_strings (build_env b) in
  saveCmd ← (match cmdBuildEnv with
             | [] => mret command
             | _ => tmpEnv ← literal ["|" +:+ pretty (length cmdBuildEnv)];
                    tmpEnv ← append_ tmpEnv cmdBuildEnv;
                    l ← read command; append_ tmpEnv l
             end);
  modify_config (set_Cmd saveCmd) ;;
  hit ← probeCache;
  if hit : bool then mret tt
  else
    modify_config (set_Cmd command) ;;
    e ← st_gets (λ b, Env (runConfig b));
    e' ← append_ e cmdBuildEnv;
    modify_config (set_Env e') ;;
    modify_config set_ArgsEscaped ;;
    cID ← create;
    run_container cID ;;
    modify_config (set_Env env) ;;
    modify_config (set_Cmd saveCmd) ;;
    commit cID cmd "run".

Definition run (args0 : slice) (json : bool) : M unit :=
  b ← st_get;
  if bool_decide (b_image b = "") && negb (noBaseImage b) then st_fail ErrNoSource
  else
    flags_Parse ;;
    args ← handleJSONArgs args0 json;
    command ← (if json then mret args else (sh ← getShell; l ← read args; append_ sh l));
    u ← st_gets runConfig;
    (if bool_decide (len (Entrypoint u) = 0) && bool_decide (len (Cmd u) = 0)
     then modify_config (set_Cmd command) else mret tt) ;;
    deferred (set_config (set_Cmd (Cmd u))) (deferred (set_config (set_Env (Env u)))
      (run_body (Cmd u) (Env u) command)).

Definition cmd (args : slice) (json : bool) : M unit :=
  flags_Parse ;;
  parsed ← handleJSONArgs args json;
  cmdSlice ← (if json then mret parsed else (sh ← getShell; l ← read parsed; append_ sh l));
  modify_config (set_Cmd cmdSlice) ;;
  l ← read cmdSlice;
  commit_config ("CMD " +:+ Sprint_list (quote <$> l)) ;;
  if bool_decide (len args = 0) then mret tt
  else st_modify (λ b, mkBuilder (b_heap b) (runConfig b) (b_image b) (noBaseImage b) (b_maintainer b) true
        (disableCommit b) (cacheBusted b) (allowedBuildArgs b) (options b) (directive b) (b_flags b)
        (tmpContainers b) (has_context b) (calls b)).

Definition parseOptInterval (s : string) : outcome error Z :=
  if bool_decide (s = "") then Ok 0%Z
  else match ParseDuration s with
       | None => Err ErrDuration
       | Some d => if decide (d ≤ 0)%Z then Err ErrInterval else Ok d
       end.

(** [strconv.ParseInt(s, 10, 32)] and the check of the number of retries. *)
Definition parseRetries (s : string) : outcome error Z :=
  if bool_decide (s = "") then Ok 0%Z
  else match Atoi s with
       | Some r => if decide (- 2 ^ 31 ≤ r < 2 ^ 31)%Z
                   then if decide (r < 1)%Z then Err ErrRetries else Ok r
                   else Err ErrRetries
       | None => Err ErrRetries
       end.

Definition add_string_flag (name : string) : M unit :=
  st_modify (λ b, set_flags (BFlags.AddString name "" (b_flags b)).2 b).

(** [fl.Value] *)
Definition flag_of (name : string) : M string :=
  st_gets (λ b, default "" (BFlags.Value <$> BFlags.flags (b_flags b) !! name)).

Definition healthcheck (args : slice) (json : bool) : M unit :=
  l ← read args;
  match l with
  | [] => st_fail ErrHealthcheck
  | typ0 :: args =>
      let typ := ToUpper unicode_upper typ0 in
      (if bool_decide (typ = "NONE") then
         if bool_decide (args = []) then modify_config (set_Healthcheck (mkHealth [typ] 0 0 0))
         else st_fail ErrNoneArguments
       else
         add_string_flag "interval" ;; add_string_flag "timeout" ;; add_string_flag "retries" ;;
         flags_Parse ;;
         if bool_decide (typ ≠ "CMD") then st_fail (ErrUnknownHealthType typ)
         else if bool_decide (args = []) then st_fail ErrHealthcheck
         else
           let test := if json then "CMD" :: args else ["CMD-SHELL"; Join " " args] in
           i ← flag_of "interval"; interval ← lift id (parseOptInterval i);
           t ← flag_of "timeout"; timeout ← lift id (parseOptInterval t);
           r ← flag_of "retries"; retries ← lift id (parseRetries r);
           modify_config (set_Healthcheck (mkHealth test interval timeout retries))) ;;
      h ← st_gets (λ b, Healthcheck (runConfig b));
      commit_config ("HEALTHCHECK " +:+ default "" (quote_health <$> h))
  end.

Definition entrypoint (args : slice) (json : bool) : M unit :=
  flags_Parse ;;
  parsed ← handleJSONArgs args json;
  (if json then modify_config (set_Entrypoint parsed)
   else if bool_decide (len parsed = 0) then modify_config (set_Entrypoint nil_slice)
   else (sh ← getShell; l ← read parsed; s ← append_ sh (take 1 l); modify_config (set_Entrypoint s))) ;;
  b ← st_get;
  (if cmdSet b then mret tt else modify_config (set_Cmd nil_slice)) ;;
  s ← st_gets (λ b, Entrypoint (runConfig b));
  l ← read s;
  commit_config ("ENTRYPOINT " +:+ Sprint_list (quote <$> l)).

Definition expose (args : slice) : M unit :=
  l ← read args;
  if bool_decide (len args = 0) then st_fail (ErrAtLeastOneArgument "EXPOSE")
  else
    flags_Parse ;;
    match ParsePortSpecs l with
    | None => st_fail ErrPorts
    | Some ports =>
        modify_config (λ c, set_ExposedPorts (ExposedPorts c ∪ ports) c) ;;
        commit_config ("EXPOSE " +:+ Join " " (sort_strings (elements ports)))
    end.

Definition user (args : slice) : M unit :=
  l ← read args;
  match l with
  | [a] => flags_Parse ;; modify_config (set_User a) ;; commit_config ("USER " +:+ Sprint_list l)
  | _ => st_fail (ErrExactlyOneArgument "USER")
  end.

(** The volumes before an empty one are kept when it is refused. *)
Fixpoint volume_loop (vs : list string) : M unit :=
  match vs with
  | [] => mret tt
  | v :: vs' =>
      let v := TrimSpace v in
      if bool_decide (v = "") then st_fail ErrEmptyVolume
      else modify_config (λ c, set_Volumes ({[v]} ∪ Volumes c) c) ;; volume_loop vs'
  end.

Definition volume (args : slice) : M unit :=
  l ← read args;
  if bool_decide (len args = 0) then st_fail (ErrAtLeastOneArgument "VOLUME")
  else flags_Parse ;; volume_loop l ;; commit_config ("VOLUME " +:+ Sprint_list l).

Definition stopSignal (args : slice) : M unit :=
  l ← read args;
  match l with
  | [sig] =>
      match ParseSignal unicode_upper sig with
      | None => st_fail (ErrSignal sig)
      | Some _ => modify_config (set_StopSignal sig) ;; commit_config ("STOPSIGNAL " +:+ Sprint_list l)
      end
  | _ => st_fail (ErrExactlyOneArgument "STOPSIGNAL")
  end.

(** Declare a build argument, with its default. *)
Definition declare_arg (name : string) (value : option string) (b : Builder) : Builder :=
  let o := options b in
  let args := match value, BuildArgs o !! name with
              | Some v, None => <[name := v]> (BuildArgs o)
              | _, _ => BuildArgs o
              end in
  mkBuilder (b_heap b) (runConfig b) (b_image b) (noBaseImage b) (b_maintainer b) (cmdSet b)
    (disableCommit b) (cacheBusted b) ({[name]} ∪ allowedBuildArgs b)
    (mkOptions args (NoCache o) (PullParent o) (Remove o) (ForceRemove o) (Tags o) (opt_Labels o))
    (directive b) (b_flags b) (tmpContainers b) (has_context b) (calls b).

Definition arg (args : slice) : M unit :=
  l ← read args;
  match l with
  | [a] =>
      let '(name, value) := Cut "=" a in
      st_modify (declare_arg name value) ;; commit_config ("ARG " +:+ a)
  | _ => st_fail (ErrExactlyOneArgument "ARG")
  end.

Definition shell (args : slice) (json : bool) : M unit :=
  flags_Parse ;;
  shellSlice ← handleJSONArgs args json;
  if bool_decide (len shellSlice = 0) then st_fail (ErrAtLeastOneArgument "SHELL")
  else if json then
    modify_config (set_Shell shellSlice) ;;
    l ← read shellSlice; commit_config ("SHELL " +:+ Sprint_list l)
  else st_fail (ErrNotJSON "SHELL").

(** *** evaluator.go *)

Definition replaceEnvAllowed (cmd : string) : bool :=
  bool_decide (cmd ∈ ["env"; "label"; "add"; "copy"; "workdir"; "expose"; "volume"; "user"; "stopsignal"; "arg"]).

Definition allowWordExpansion (cmd : string) : bool := bool_decide (cmd = "expose").

(** The values of the nodes after this one. *)
Fixpoint next_values (n : Node) : list string :=
  match Next n with
  | None => []
  | Some n' => DockerfileParser.Value n' :: next_values n'
  end.

Definition lift_word {A} (r : option (outcome ShellParser.error A)) : M A :=
  match r with
  | Some o => lift ErrWord o
  | None => st_panic "stack overflow"
  end.

(** The build arguments are appended to the environment of the configuration,
    one by one. *)
Fixpoint append_args (envs : slice) (args : list (string * string)) : M slice :=
  match args with
  | [] => mret envs
  | (k, v) :: args' =>
      b ← st_get;
      if isBuildArgAllowed b k then envs' ← append_ envs [k +:+ "=" +:+ v]; append_args envs' args'
      else append_args envs args'
  end.

(** The loop over the arguments: [strList] grows by what each one expands to. *)
Fixpoint expand (cmd : string) (envs : slice) (vals : list string) (strList : slice) : M slice :=
  match vals with
  | [] => mret strList
  | str :: vals' =>
      e ← read envs;
      ws ← (if replaceEnvAllowed cmd then
              if allowWordExpansion cmd then lift_word (ProcessWords T e str)
              else (λ w, [w]) <$> lift_word (ProcessWord T e str)
            else mret [str]);
      s ← append_ strList ws;
      expand cmd envs vals' s
  end.

(** [evaluateTable]; [from_] is the handler of FROM. *)
Definition evaluate (from_ : slice → M unit) (name : string) (args : slice) (json : bool) (original : string)
    : option (M unit) :=
  if bool_decide (name = "add") then Some (add args)
  else if bool_decide (name = "arg") then Some (arg args)
  else if bool_decide (name = "cmd") then Some (cmd args json)
  else if bool_decide (name = "copy") then Some (dispatchCopy args)
  else if bool_decide (name = "entrypoint") then Some (entrypoint args json)
  else if bool_decide (name = "env") then Some (env args)
  else if bool_decide (name = "expose") then Some (expose args)
  else if bool_decide (name = "from") then Some (from_ args)
  else if bool_decide (name = "healthcheck") then Some (healthcheck args json)
  else if bool_decide (name = "label") then Some (label args)
  else if bool_decide (name = "maintainer") then Some (maintainer args)
  else if bool_decide (name = "onbuild") then Some (onbuild args original)
  else if bool_decide (name = "run") then Some (run args json)
  else if bool_decide (name = "shell") then Some (shell args json)
  else if bool_decide (name = "stopsignal") then Some (stopSignal args)
  else if bool_decide (name = "user") then Some (user args)
  else if bool_decide (name = "volume") then Some (volume args)
  else if bool_decide (name = "workdir") then Some (workdir args)
  else None.

Definition nil_dereference {A} : M A := st_panic "invalid memory address or nil pointer dereference".

(** [dispatch], with the handler of FROM as a parameter. *)
Definition dispatch_with (from_ : slice → M unit) (ast : option Node) : M unit :=
  match ast with
  | None => nil_dereference
  | Some ast =>
      let cmd := DockerfileParser.Value ast in
      strList ← literal [];
      (* the node whose successors are the arguments, after the special case of ONBUILD *)
      start ← (if bool_decide (cmd = "onbuild") then
                 match Next ast with
                 | None => st_fail (ErrAtLeastOneArgument "ONBUILD")
                 | Some next =>
                     match Children next with
                     | Some child :: _ => s ← append_ strList [DockerfileParser.Value child]; mret (child, s)
                     | _ => nil_dereference
                     end
                 end
               else mret (ast, strList));
      let '(node, strList) := start in
      b ← st_get;
      envs ← append_args (Env (runConfig b)) (range (BuildArgs (options b)));
      args ← expand cmd envs (next_values node) strList;
      match evaluate from_ cmd args (DockerfileParser.json ast) (Original ast) with
      | Some f =>
          st_modify (set_flags (BFlags.mkBFlags (DockerfileParser.Flags ast) ∅ ∅ None)) ;;
          f
      | None => st_fail (ErrUnknownInstruction (ToUpper unicode_upper cmd))
      end
  end.

(** The children of a trigger, run one after the other. *)
Fixpoint run_trigger (dispatch : option Node → M unit) (ns : list Node) : M unit :=
  match ns with
  | [] => mret tt
  | n :: ns' =>
      let value := ToUpper unicode_upper (DockerfileParser.Value n) in
      if bool_decide (value = "ONBUILD") then st_fail ErrChainedOnbuild
      else if bool_decide (value = "MAINTAINER" ∨ value = "FROM") then st_fail (ErrTrigger (DockerfileParser.Value n))
      else dispatch (Some n) ;; run_trigger dispatch ns'
  end.

(** [parser.Parse(..., &b.directive)] *)
Definition parse_text (text : string) : M root :=
  b ← st_get;
  r ← lift ErrParse (DockerfileParser.Parse unicode_lower float_ok text (directive b));
  st_modify (set_directive r.2) ;;
  mret r.1.

Fixpoint run_triggers (dispatch : option Node → M unit) (steps : list string) : M unit :=
  match steps with
  | [] => mret tt
  | step :: steps' =>
      ast ← parse_text step;
      run_trigger dispatch (r_children ast) ;;
      run_triggers dispatch steps'
  end.

Definition processImageFrom (dispatch : option Node → M unit) (img : option image_) : M unit :=
  (match img with
   | Some i =>
       st_modify (set_image (ImageID i)) ;;
       match RunConfig i with
       | Some c => c' ← decoded_config c; modify_config (λ _, c')
       | None => mret tt
       end
   | None => mret tt
   end) ;;
  e ← st_gets (λ b, Env (runConfig b));
  l ← read e;
  (match ConvertKVStringsToMap l !! "PATH" with
   | Some _ => mret tt
   | None => e' ← append_ e ["PATH=" +:+ DefaultPathEnv]; modify_config (set_Env e')
   end) ;;
  match img with
  | None => mret tt
  | Some _ =>
      triggers ← st_gets (λ b, OnBuild (runConfig b));
      l ← read triggers;
      empty ← literal [];
      modify_config (set_OnBuild empty) ;;
      run_triggers dispatch l
  end.

Definition from (dispatch : option Node → M unit) (args : slice) : M unit :=
  l ← read args;
  match l with
  | [name] =>
      flags_Parse ;;
      b ← st_get;
      if bool_decide (name = "scratch") then
        st_modify (λ b, mkBuilder (b_heap b) (runConfig b) "" true (b_maintainer b) (cmdSet b)
          (disableCommit b) (cacheBusted b) (allowedBuildArgs b) (options b) (directive b) (b_flags b)
          (tmpContainers b) (has_context b) (calls b)) ;;
        processImageFrom dispatch None
      else
        local ← (if PullParent (options b) then mret None
                 else do_call (GetImageOnBuild name) (λ h, re_image docker h name));
        match local with
        | Some i => processImageFrom dispatch (Some i)
        | None =>
            i ← or_fail (do_call (PullOnBuild name) (λ h, re_pull docker h name));
            processImageFrom dispatch (Some i)
        end
  | _ => st_fail (ErrExactlyOneArgument "FROM")
  end.

(** Two levels: the instructions of the Dockerfile, and the triggers. *)
Fixpoint dispatch (fuel : nat) (ast : option Node) : M unit :=
  match fuel with
  | O => st_panic "stack overflow"
  | S fuel => dispatch_with (from (dispatch fuel)) ast
  end.

(** *** builder.go *)

Definition new_config : Config slice :=
  mkConfig "" ∅ nil_slice nil_slice None false "" ∅ "" nil_slice nil_slice ∅ "" nil_slice.

Definition NewBuilder (opts : Options) (context : bool) : Builder :=
  mkBuilder [defaultShell_array] new_config "" false "" false false false ∅ opts
    (mkDirective "\" true false) BFlags.NewBFlags ∅ context [].

Fixpoint sanitizeRepoAndTags (uniqNames : gset string) (names : list string) : outcome error (list Named) :=
  match names with
  | [] => Ok []
  | repo :: names' =>
      if bool_decide (repo = "") then sanitizeRepoAndTags uniqNames names'
      else match ParseNamed grammar repo with
      | Err e => Err (ErrReference e)
      | Panic m => Panic m
      | Ok ref0 =>
          let ref := WithDefaultTag ref0 in
          if isCanonical ref then Err ErrTagDigest
          else match (if IsNameOnly ref then WithTag grammar ref DefaultTag else Ok ref) with
          | Err e => Err (ErrReference e)
          | Panic m => Panic m
          | Ok ref =>
              if bool_decide (ref_String ref ∈ uniqNames) then sanitizeRepoAndTags uniqNames names'
              else match sanitizeRepoAndTags ({[ref_String ref]} ∪ uniqNames) names' with
                   | Ok l => Ok (ref :: l)
                   | r => r
                   end
          end
      end
  end.

(** The file of the context; [None] when it cannot be opened. *)
Definition parseDockerfile (file : option string) : M root :=
  match file with
  | None => st_fail ErrNoDockerfile
  | Some text => if bool_decide (text = "") then st_fail ErrEmptyDockerfile else parse_text text
  end.

Definition label_line (labels : gmap string string) : string :=
  foldl (λ s '(k, v), s +:+ quote k +:+ "=" +:+ quote v +:+ " ") "LABEL " (range labels).

Fixpoint build_steps (ns : list (option Node)) : M unit :=
  match ns with
  | [] => mret tt
  | n :: ns' =>
      b ← st_get;
      if re_cancelled docker (calls b) then st_fail ErrCancelled
      else
        r ← st_try (dispatch 2 n);
        match r with
        | inr e => (if ForceRemove (options b) then clearTmp else mret tt) ;; st_fail e
        | inl _ => (if Remove (options b) then clearTmp else mret tt) ;; build_steps ns'
        end
  end.

Fixpoint tag_all (id : string) (refs : list Named) : M unit :=
  match refs with
  | [] => mret tt
  | r :: refs' => unit_call (TagImageWithReference id r) ;; tag_all id refs'
  end.

Definition build (file : option string) : M string :=
  ast ← parseDockerfile file;
  b ← st_get;
  repoAndTags ← lift id (sanitizeRepoAndTags ∅ (Tags (options b)));
  labels ← (if bool_decide (opt_Labels (options b) = ∅) then mret []
            else r ← lift ErrParse (parse_line unicode_lower float_ok (label_line (opt_Labels (options b))) (directive b));
                 st_modify (set_directive r.2) ;;
                 mret [r.1.2]);
  build_steps ((Some <$> r_children ast) ++ labels) ;;
  b ← st_get;
  let leftover := filter (λ a, isBuildArgAllowed b a = false) (range (BuildArgs (options b))).*1 in
  if bool_decide (leftover ≠ []) then st_fail (ErrLeftoverArgs leftover)
  else if bool_decide (b_image b = "") then st_fail ErrNoImage
  else tag_all (b_image b) repoAndTags ;; mret (b_image b).

Definition validCommitCommands (cmd : string) : bool :=
  bool_decide (cmd ∈ ["cmd"; "entrypoint"; "healthcheck"; "env"; "expose"; "label"; "onbuild"; "user"; "volume"; "workdir"]).

Fixpoint dispatch_all (ns : list Node) : M unit :=
  match ns with
  | [] => mret tt
  | n :: ns' => dispatch 2 (Some n) ;; dispatch_all ns'
  end.

(** [BuildFromConfig]: the builder of [docker commit --change], on the heap
    in which the slices of [config] are. *)
Definition BuildFromConfig (h : list (list string)) (config : Config slice) (changes : list string)
    : outcome error (Builder.config) * Builder :=
  let b0 := NewBuilder (mkOptions ∅ false false false false [] ∅) false in
  match DockerfileParser.Parse unicode_lower float_ok (Join (String (byte_of 10) "") changes) (directive b0) with
  | Err e => (Err (ErrParse e), b0)
  | Panic m => (Panic m, b0)
  | Ok (ast, d) =>
      match list_find (λ n, validCommitCommands (DockerfileParser.Value n) = false) (r_children ast) with
      | Some (_, n) => (Err (ErrInvalidChange (DockerfileParser.Value n)), b0)
      | None =>
          let b := mkBuilder h config "" false "" false true false ∅ (options b0) d (b_flags b0)
                     ∅ false [] in
          match dispatch_all (r_children ast) b with
          | (Ok _, b') => (Ok (view b'), b')
          | (Err e, b') => (Err e, b')
          | (Panic m, b') => (Panic m, b')
          end
      end
  end.
End builder.
