(* ===== verification/BuilderSpec.v ===== *)
(** * builder/dockerfile: what the instructions do to the configuration

    The builder of [Builder] keeps the lists of its configuration in arrays
    that handlers share and append to.  Here a second, abstract builder works
    on plain lists ([change]), and [BuildFromConfig], the builder behind
    [docker commit --change], is shown to implement it as long as the array of
    the shell has no room left after its elements ([Inv]).  When it has,
    [append] on the shell overwrites what an earlier instruction stored, and
    the commands of the image are not those of the Dockerfile. *)

From S2P Require Import Prelude GoStrings ShellParser Reference Json DockerfileParser GoSlice BFlags Builder.

(** ** The invariant of the arrays *)

(** The slices of a configuration, and the shell it defaults to. *)
Definition slices (c : Config slice) : list slice :=
  [Env c; Cmd c; Entrypoint c; OnBuild c; Shell c; defaultShell].

(** [s] does not share its array with any of [ts]. *)
Definition alone (s : slice) (ts : list slice) : Prop := Forall (apart s) ts.

Record Inv (h : list (list string)) (c : Config slice) : Prop := {
  inv_ok : Forall (slice_ok h) (slices c);
  inv_default : contents h defaultShell = defaultShell_array;
  inv_env : alone (Env c) [Cmd c; Entrypoint c; OnBuild c; Shell c; defaultShell];
  inv_entrypoint : alone (Entrypoint c) [Cmd c; OnBuild c; Shell c; defaultShell];
  inv_onbuild : alone (OnBuild c) [Cmd c; Shell c; defaultShell];
  inv_shell : full (Shell c);
}.

(** What a change of the heap leaves as it was. *)
Definition keeps (h h' : list (list string)) (ts : list slice) : Prop :=
  Forall (λ t, slice_ok h' t ∧ contents h' t = contents h t) ts.

Lemma keeps_observe h h' ts t : keeps h h' ts → t ∈ ts → observe h' t = observe h t.
Proof.
  unfold keeps. rewrite Forall_forall. intros H Ht. destruct (H t Ht) as [_ E]. unfold observe. by rewrite E.
Qed.

Lemma keeps_config h h' c :
  keeps h h' (slices c) → map_config (observe h') c = map_config (observe h) c.
Proof.
  intros H. unfold map_config.
  rewrite !(keeps_observe h h' _ _ H) by (unfold slices; set_solver). done.
Qed.

Lemma keeps_trans h h1 h2 ts : keeps h h1 ts → keeps h1 h2 ts → keeps h h2 ts.
Proof.
  unfold keeps. rewrite !Forall_forall. intros H1 H2 t Ht. destruct (H1 t Ht), (H2 t Ht). split; [done|congruence].
Qed.

Lemma keeps_inv h h' c : Inv h c → keeps h h' (slices c) → Inv h' c.
Proof.
  intros [Hok Hd He Hn Ho Hs] Hk. split; try done.
  - eapply Forall_impl; [exact Hk|]. by intros t [? _].
  - unfold keeps in Hk. rewrite Forall_forall in Hk. rewrite <- Hd. apply Hk. unfold slices. set_solver.
Qed.

Lemma alloc_keeps h ts xs k : Forall (slice_ok h) ts → keeps h (alloc h xs k).1 ts.
Proof.
  intros H. eapply Forall_impl; [exact H|]. intros t Ht. by destruct (alloc_other h xs k t Ht) as (? & ? & _).
Qed.

Lemma alloc_alone h ts xs k : Forall (slice_ok h) ts → alone (alloc h xs k).2 ts.
Proof.
  intros H. eapply Forall_impl; [exact H|]. intros t Ht. by destruct (alloc_other h xs k t Ht) as (_ & _ & ?).
Qed.

Lemma append_keeps grow h s ys h' s' ts :
  slice_ok h s → Forall (slice_ok h) ts → alone s ts → GoSlice.append grow h s ys = (h', s') → keeps h h' ts.
Proof.
  intros Hs Hts Ha E. apply Forall_forall. intros t Ht. unfold alone in Ha. rewrite Forall_forall in Hts, Ha.
  eapply append_other; eauto.
Qed.

Lemma append_alone grow h s ys h' s' ts :
  Forall (slice_ok h) ts → alone s ts → GoSlice.append grow h s ys = (h', s') → alone s' ts.
Proof.
  intros Hts Ha E. apply Forall_forall. intros t Ht. unfold alone in Ha. rewrite Forall_forall in Hts, Ha.
  eapply append_apart; eauto.
Qed.

(** A full array is not written to: [append] copies. *)
Lemma append_full grow h s ys : full s → ys ≠ [] →
  GoSlice.append grow h s ys = alloc h (contents h s ++ ys) (grow (cap s) (len s + length ys)).
Proof.
  intros Hf Hy. unfold GoSlice.append. rewrite decide_False; [done|]. unfold full in Hf.
  destruct ys; [done|]. simpl. lia.
Qed.

(** A slice that is not empty is not nil. *)
Lemma observe_nonempty h s xs : contents h s = xs → xs ≠ [] → observe h s = Some xs.
Proof.
  intros E Hx. unfold observe. rewrite bool_decide_false; [by rewrite E|]. intros ->. by subst.
Qed.

Lemma append_observe grow h s ys h' s' :
  slice_ok h s → ys ≠ [] → GoSlice.append grow h s ys = (h', s') →
  slice_ok h' s' ∧ observe h' s' = Some (default [] (observe h s) ++ ys).
Proof.
  intros Hs Hy E. destruct (append_spec _ _ _ _ _ _ Hs E) as [Hok Hc]. split; [done|].
  assert (contents h s = default [] (observe h s)) as <-.
  { unfold observe. case_bool_decide as Hn; [by rewrite Hn|done]. }
  apply observe_nonempty; [done|]. by destruct (contents h s), ys.
Qed.

(** Takes apart the invariant and proves the one of a changed configuration. *)
Ltac inv_solve :=
  unfold alone, keeps, slices in *; rewrite ?Forall_cons in *; destruct_and?;
  cbn [Env Cmd Entrypoint OnBuild Shell set_Env set_Cmd set_Entrypoint set_OnBuild set_Shell] in *;
  repeat match goal with |- _ ∧ _ => split end;
  first [done | by apply apart_sym | by apply Forall_nil_2 | congruence].

Section inv.
Context (h : list (list string)) (c : Config slice) (HInv : Inv h c).

Lemma inv_slice t : t ∈ slices c → slice_ok h t.
Proof. pose proof (inv_ok h c HInv) as H. rewrite Forall_forall in H. apply H. Qed.

(** Appending to the environment, in place or not. *)
Lemma append_Env grow ys h' s' :
  ys ≠ [] → GoSlice.append grow h (Env c) ys = (h', s') →
  Inv h' (set_Env s' c) ∧
  map_config (observe h') (set_Env s' c) =
  set_Env (Some (default [] (observe h (Env c)) ++ ys)) (map_config (observe h) c).
Proof.
  intros Hy E. pose proof (inv_env h c HInv) as Ha.
  assert (Hts : Forall (slice_ok h) [Cmd c; Entrypoint c; OnBuild c; Shell c; defaultShell]).
  { apply Forall_forall. intros t Ht. apply inv_slice. unfold slices. set_solver. }
  assert (Henv : slice_ok h (Env c)) by (apply inv_slice; unfold slices; set_solver).
  pose proof (append_keeps _ _ _ _ _ _ _ Henv Hts Ha E) as Hk.
  destruct (append_observe _ _ _ _ _ _ Henv Hy E) as [Hok' Hobs].
  split.
  - destruct HInv as [_ Hd _ Hn Ho Hs]. split; try done.
    + constructor; [done|]. eapply Forall_impl; [exact Hk|]. by intros t [? _].
    + unfold keeps in Hk. rewrite Forall_forall in Hk. rewrite <- Hd. apply Hk. set_solver.
    + by eapply append_alone.
  - unfold map_config. cbn [User ExposedPorts Env Cmd Healthcheck ArgsEscaped Image Volumes WorkingDir Entrypoint
      OnBuild Labels StopSignal Shell set_Env].
    rewrite Hobs, !(keeps_observe h h' _ _ Hk) by set_solver. done.
Qed.

Lemma append_OnBuild grow ys h' s' :
  ys ≠ [] → GoSlice.append grow h (OnBuild c) ys = (h', s') →
  Inv h' (set_OnBuild s' c) ∧
  map_config (observe h') (set_OnBuild s' c) =
  set_OnBuild (Some (default [] (observe h (OnBuild c)) ++ ys)) (map_config (observe h) c).
Proof.
  intros Hy E.
  assert (Ha : alone (OnBuild c) [Env c; Cmd c; Entrypoint c; Shell c; defaultShell]).
  { destruct HInv as [_ _ He Hn Ho _]. inv_solve. }
  assert (Hts : Forall (slice_ok h) [Env c; Cmd c; Entrypoint c; Shell c; defaultShell]).
  { apply Forall_forall. intros t Ht. apply inv_slice. unfold slices. set_solver. }
  assert (Hon : slice_ok h (OnBuild c)) by (apply inv_slice; unfold slices; set_solver).
  pose proof (append_keeps _ _ _ _ _ _ _ Hon Hts Ha E) as Hk.
  pose proof (append_alone _ _ _ _ _ _ _ Hts Ha E) as Ha'.
  destruct (append_observe _ _ _ _ _ _ Hon Hy E) as [Hok' Hobs].
  split.
  - destruct HInv as [_ Hd He Hn Ho Hs]. split; inv_solve.
  - unfold map_config. cbn [User ExposedPorts Env Cmd Healthcheck ArgsEscaped Image Volumes WorkingDir Entrypoint
      OnBuild Labels StopSignal Shell set_OnBuild].
    rewrite Hobs, !(keeps_observe h h' _ _ Hk) by set_solver. done.
Qed.

(** A new command that does not share an array the others append to. *)
Lemma Inv_set_Cmd s : slice_ok h s → alone s [Env c; Entrypoint c; OnBuild c] → Inv h (set_Cmd s c).
Proof.
  intros Hs Ha. destruct HInv as [Hok Hd He Hn Ho Hsh]. split; inv_solve.
Qed.

Lemma Inv_set_Entrypoint s :
  slice_ok h s → alone s [Env c; Cmd c; OnBuild c; Shell c; defaultShell] → Inv h (set_Entrypoint s c).
Proof.
  intros Hs Ha. destruct HInv as [Hok Hd He Hn Ho Hsh]. split; inv_solve.
Qed.
End inv.

Lemma set_index_Env h c i x :
  Inv h c → i < len (Env c) →
  Inv (set_index h (Env c) i x) c ∧
  map_config (observe (set_index h (Env c) i x)) c =
  set_Env (Some (<[i := x]> (contents h (Env c)))) (map_config (observe h) c).
Proof.
  intros HInv Hi.
  assert (Henv : slice_ok h (Env c)) by (apply (inv_slice h c HInv); unfold slices; set_solver).
  destruct (set_index_spec h (Env c) i x Henv Hi) as [Hok Hc].
  assert (Hk : keeps h (set_index h (Env c) i x) [Cmd c; Entrypoint c; OnBuild c; Shell c; defaultShell]).
  { pose proof (inv_env h c HInv) as Ha. unfold alone in Ha. rewrite Forall_forall in Ha.
    apply Forall_forall. intros t Ht. apply set_index_other; auto.
    apply (inv_slice h c HInv). unfold slices. set_solver. }
  split.
  - destruct HInv as [_ Hd He Hn Ho Hs]. split; inv_solve.
  - assert (Hobs : observe (set_index h (Env c) i x) (Env c) = Some (<[i := x]> (contents h (Env c)))).
    { apply observe_nonempty; [done|]. intros Hnil. apply (f_equal length) in Hnil.
      rewrite length_insert in Hnil. unfold contents in Hnil. rewrite length_take in Hnil. simpl in Hnil.
      destruct Henv as [? [?|?]]; lia. }
    unfold map_config, set_Env. cbn [User ExposedPorts Env Cmd Healthcheck ArgsEscaped Image Volumes WorkingDir
      Entrypoint OnBuild Labels StopSignal Shell].
    rewrite Hobs, !(keeps_observe h _ _ _ Hk) by set_solver. done.
Qed.

(** ** The abstract builder *)

Definition obind {E A B} (o : outcome E A) (k : A → outcome E B) : outcome E B :=
  match o with Ok a => k a | Err e => Err e | Panic m => Panic m end.

(** The shell that a configuration names. *)
Definition shell_of (c : config) : list string :=
  match Shell c with
  | Some (x :: l) => x :: l
  | _ => defaultShell_array
  end.

(** The command of CMD. *)
Definition command_of (args : list string) (json : bool) (c : config) : list string :=
  if json then args else shell_of c ++ match args with [] => [] | _ => [Join " " args] end.

(** The entry point of ENTRYPOINT. *)
Definition entrypoint_of (args : list string) (json : bool) (c : config) : option (list string) :=
  if json then Some args
  else match args with [] => None | _ => Some (shell_of c ++ [Join " " args]) end.

Definition set_env (env : list string) (kv : string * string) : list string :=
  let e := kv.1 +:+ "=" +:+ kv.2 in
  match env_index kv.1 env with
  | Some i => <[i := e]> env
  | None => env ++ [e]
  end.

Section change.
Context (T : UnicodeTables) (unicode_lower unicode_upper : string → string) (float_ok : string → bool).
Context (quote : string → string) (quote_health : HealthConfig → string).
Context (ParseDuration : string → option Z) (ParsePortSpecs : list string → option (gset string)).
Context (sha256_hex : string → string) (grammar : Grammar).
Context (grow : nat → nat → nat) (decode_cap : nat → nat) (range : gmap string string → list (string * string)).
Context (docker : Backend).

(** The flags of an instruction that declares none. *)
Definition flags_ok (fl : list string) : outcome error unit :=
  match (BFlags.Parse unicode_lower (mkBFlags fl ∅ ∅ None)).1 with
  | Ok _ => Ok tt
  | Err e => Err (ErrFlags e)
  | Panic m => Panic m
  end.

(** The flags of HEALTHCHECK: interval, timeout and retries. *)
Definition health_flags (fl : list string) : outcome error (string * string * string) :=
  let bf := mkBFlags fl (<["retries" := mkFlag stringType ""]> (<["timeout" := mkFlag stringType ""]>
              (<["interval" := mkFlag stringType ""]> ∅))) ∅ None in
  let value n (bf : BFlags) := default "" (BFlags.Value <$> BFlags.flags bf !! n) in
  match BFlags.Parse unicode_lower bf with
  | (Ok _, bf') => Ok (value "interval" bf', value "timeout" bf', value "retries" bf')
  | (Err e, _) => Err (ErrFlags e)
  | (Panic m, _) => Panic m
  end.

Definition health_of (args : list string) (json : bool) (fl : list string) : outcome error HealthConfig :=
  match args with
  | [] => Err ErrHealthcheck
  | typ0 :: args =>
      let typ := ToUpper unicode_upper typ0 in
      if bool_decide (typ = "NONE") then
        if bool_decide (args = []) then Ok (mkHealth [typ] 0 0 0) else Err ErrNoneArguments
      else
        obind (health_flags fl) (λ '(i, t, r),
          if bool_decide (typ ≠ "CMD") then Err (ErrUnknownHealthType typ)
          else if bool_decide (args = []) then Err ErrHealthcheck
          else
            obind (parseOptInterval ParseDuration i) (λ interval,
            obind (parseOptInterval ParseDuration t) (λ timeout,
            obind (parseRetries r) (λ retries,
            Ok (mkHealth (if json then "CMD" :: args else ["CMD-SHELL"; Join " " args]) interval timeout retries)))))
  end.

(** The configuration, and whether CMD was given. *)
Abbreviation astate := (config * bool)%type.

(** One change; the instructions of [docker commit --change]. *)
Definition change (name : string) (args : list string) (json : bool) (original : string) (fl : list string)
    (a : astate) : outcome error astate :=
  let '(c, cset) := a in
  let only_flags (k : outcome error astate) := obind (flags_ok fl) (λ _, k) in
  if bool_decide (name = "cmd") then
    only_flags (Ok (set_Cmd (Some (command_of args json c)) c, cset || negb (bool_decide (args = []))))
  else if bool_decide (name = "entrypoint") then
    only_flags (let c' := set_Entrypoint (entrypoint_of args json c) c in
                Ok (if cset then c' else set_Cmd None c', cset))
  else if bool_decide (name = "env") then
    if bool_decide (args = []) then Err (ErrAtLeastOneArgument "ENV")
    else if negb (Nat.even (length args)) then Err (ErrTooManyArguments "ENV")
    else only_flags (Ok (set_Env (Some (foldl set_env (default [] (Env c)) (pairs args))) c, cset))
  else if bool_decide (name = "label") then
    if bool_decide (args = []) then Err (ErrAtLeastOneArgument "LABEL")
    else if negb (Nat.even (length args)) then Err (ErrTooManyArguments "LABEL")
    else only_flags (Ok (set_Labels (foldl (λ m '(k, v), <[k := v]> m) (Labels c) (pairs args)) c, cset))
  else if bool_decide (name = "expose") then
    if bool_decide (args = []) then Err (ErrAtLeastOneArgument "EXPOSE")
    else only_flags (match ParsePortSpecs args with
                     | None => Err ErrPorts
                     | Some ports => Ok (set_ExposedPorts (ExposedPorts c ∪ ports) c, cset)
                     end)
  else if bool_decide (name = "user") then
    match args with
    | [u] => only_flags (Ok (set_User u c, cset))
    | _ => Err (ErrExactlyOneArgument "USER")
    end
  else if bool_decide (name = "workdir") then
    match args with
    | [w] => only_flags (obind (normaliseWorkdir (WorkingDir c) w) (λ w', Ok (set_WorkingDir w' c, cset)))
    | _ => Err (ErrExactlyOneArgument "WORKDIR")
    end
  else if bool_decide (name = "volume") then
    if bool_decide (args = []) then Err (ErrAtLeastOneArgument "VOLUME")
    else only_flags (if bool_decide (Exists (λ v, TrimSpace v = "") args) then Err ErrEmptyVolume
                     else Ok (set_Volumes (list_to_set (TrimSpace <$> args) ∪ Volumes c) c, cset))
  else if bool_decide (name = "onbuild") then
    match args with
    | [] => Err (ErrAtLeastOneArgument "ONBUILD")
    | t :: _ =>
        only_flags
          (let trigger := ToUpper unicode_upper (TrimSpace t) in
           if bool_decide (trigger = "ONBUILD") then Err ErrChainedOnbuild
           else if bool_decide (trigger = "MAINTAINER" ∨ trigger = "FROM") then Err (ErrTrigger trigger)
           else Ok (set_OnBuild (Some (default [] (OnBuild c) ++ [strip_onbuild original])) c, cset))
    end
  else if bool_decide (name = "healthcheck") then
    obind (health_of args json fl) (λ h, Ok (set_Healthcheck h c, cset))
  else Err (ErrUnknownInstruction (ToUpper unicode_upper name)).

Definition words_outcome {A} (r : option (outcome ShellParser.error A)) : outcome error A :=
  match r with
  | Some (Ok a) => Ok a
  | Some (Err e) => Err (ErrWord e)
  | Some (Panic m) => Panic m
  | None => Panic "stack overflow"
  end.

(** The arguments with their variables replaced. *)
Fixpoint expanded (name : string) (env vals : list string) : outcome error (list string) :=
  match vals with
  | [] => Ok []
  | v :: vals' =>
      obind (if replaceEnvAllowed name then
               if allowWordExpansion name then words_outcome (ProcessWords T env v)
               else obind (words_outcome (ProcessWord T env v)) (λ w, Ok [w])
             else Ok [v])
        (λ ws, obind (expanded name env vals') (λ l, Ok (ws ++ l)))
  end.

Definition change_node (n : Node) (a : astate) : outcome error astate :=
  let name := DockerfileParser.Value n in
  let env := default [] (Env a.1) in
  let go (pre : list string) (n' : Node) :=
    obind (expanded name env (next_values n')) (λ l,
      change name (pre ++ l) (DockerfileParser.json n) (Original n) (DockerfileParser.Flags n) a) in
  if bool_decide (name = "onbuild") then
    match Next n with
    | None => Err (ErrAtLeastOneArgument "ONBUILD")
    | Some next =>
        match Children next with
        | Some child :: _ => go [DockerfileParser.Value child] child
        | _ => Panic "invalid memory address or nil pointer dereference"
        end
    end
  else go [] n.

Fixpoint change_all (ns : list Node) (a : astate) : outcome error astate :=
  match ns with
  | [] => Ok a
  | n :: ns' => obind (change_node n a) (change_all ns')
  end.

(** The changes of [docker commit --change], on lists. *)
Definition changed (c : config) (changes : list string) : outcome error config :=
  match DockerfileParser.Parse unicode_lower float_ok (Join (String (byte_of 10) "") changes)
          (mkDirective "\" true false) with
  | Err e => Err (ErrParse e)
  | Panic m => Panic m
  | Ok (ast, _) =>
      match list_find (λ n, validCommitCommands (DockerfileParser.Value n) = false) (r_children ast) with
      | Some (_, n) => Err (ErrInvalidChange (DockerfileParser.Value n))
      | None => obind (change_all (r_children ast) (c, false)) (λ a, Ok a.1)
      end
  end.
End change.

(** ** Refinement *)

(** A builder that only changes the configuration. *)
Definition quiet (b : Builder) : Prop := disableCommit b = true ∧ BuildArgs (options b) = ∅.

Definition R (b : Builder) (a : config * bool) : Prop :=
  Inv (b_heap b) (runConfig b) ∧ quiet b ∧ a = (view b, cmdSet b).

Definition matches (x : outcome error unit * Builder) (y : outcome error (config * bool)) : Prop :=
  match x.1, y with
  | Ok _, Ok a => R x.2 a
  | Err e, Err e' => e = e'
  | Panic m, Panic m' => m = m'
  | _, _ => False
  end.

(** The slice of the arguments, of which the handler is the only owner. *)
Definition args_ok (b : Builder) (args : slice) (l : list string) : Prop :=
  slice_ok (b_heap b) args ∧ contents (b_heap b) args = l ∧ alone args (slices (runConfig b)) ∧ args ≠ nil_slice.

Lemma contents_length h s : slice_ok h s → length (contents h s) = len s.
Proof. intros [Hl [Hz|Hc]]; unfold contents; rewrite length_take; lia. Qed.

Lemma args_len b args l : args_ok b args l → len args = length l.
Proof. intros (Hok & <- & _). by rewrite contents_length. Qed.

Lemma args_empty b args l : args_ok b args l → bool_decide (len args = 0) = bool_decide (l = []).
Proof. intros H. apply args_len in H. apply bool_decide_ext. rewrite H. apply length_zero_iff_nil. Qed.

(** The first command of a sequence, when its result is known. *)
Lemma bind_ok {A B} (m : M A) (k : A → M B) b x b' : m b = (Ok x, b') → (m ≫= k) b = k x b'.
Proof. intros E. unfold mbind, ST_bind. by rewrite E. Qed.

(** [read args] in front of the rest. *)
Lemma read_step {A} b args l (k : list string → M A) :
  args_ok b args l → (read args ≫= k) b = k l b.
Proof. intros (_ & <- & _). done. Qed.

(** [append] on the shell of a quiet builder copies. *)
Lemma shell_slice b : 
  Inv (b_heap b) (runConfig b) →
  ∃ sh, getShell b = (Ok sh, b) ∧ slice_ok (b_heap b) sh ∧ full sh ∧
        contents (b_heap b) sh = shell_of (view b) ∧ (sh = Shell (runConfig b) ∨ sh = defaultShell) ∧ sh ≠ nil_slice.
Proof.
  intros HInv. set (sh := if bool_decide (len (Shell (runConfig b)) = 0) then defaultShell else Shell (runConfig b)).
  exists sh. split; [done|].
  assert (Hok : slice_ok (b_heap b) (Shell (runConfig b))) by (apply (inv_slice _ _ HInv); unfold slices; set_solver).
  pose proof (contents_length _ _ Hok) as Hl.
  assert (Hsh : shell_of (view b) = if bool_decide (len (Shell (runConfig b)) = 0) then defaultShell_array
                                    else contents (b_heap b) (Shell (runConfig b))).
  { unfold shell_of, view, map_config, observe. cbn [Shell]. rewrite <- Hl.
    case_bool_decide as Hn; [rewrite Hn; done|].
    by destruct (contents (b_heap b) (Shell (runConfig b))). }
  rewrite Hsh. unfold sh. case_bool_decide as Hz.
  - split_and!; [|done|apply (inv_default _ _ HInv)|auto|done].
    apply (inv_slice _ _ HInv). unfold slices. set_solver.
  - split_and!; [done|apply (inv_shell _ _ HInv)|done|auto|]. intros E. by rewrite E in Hz.
Qed.

Lemma alloc_not_nil h c xs k : Inv h c → (alloc h xs k).2 ≠ nil_slice.
Proof.
  intros HInv [= Hlen _ _]. assert (Hd : slice_ok h defaultShell).
  { apply (inv_slice _ _ HInv). unfold slices. set_solver. }
  apply slice_ok_bound in Hd; [|done]. simpl in Hd. lia.
Qed.

(** A composite literal is a slice of its own. *)
Lemma literal_step b xs :
  Inv (b_heap b) (runConfig b) →
  ∃ h s, literal xs b = (Ok s, set_heap h b) ∧ keeps (b_heap b) h (slices (runConfig b)) ∧
    args_ok (set_heap h b) s xs.
Proof.
  intros HInv. pose proof (inv_ok _ _ HInv) as Hok.
  exists (alloc (b_heap b) xs (length xs)).1, (alloc (b_heap b) xs (length xs)).2.
  split_and!; [done|by apply alloc_keeps|]. unfold args_ok.
  split_and!; [apply alloc_ok|apply alloc_ok|by apply alloc_alone|by eapply alloc_not_nil].
Qed.

(** [handleJSONArgs]: a slice of its own with the command line. *)
Lemma handleJSONArgs_step b args l json :
  Inv (b_heap b) (runConfig b) → args_ok b args l →
  ∃ h s, handleJSONArgs args json b = (Ok s, set_heap h b) ∧
    keeps (b_heap b) h (slices (runConfig b)) ∧ slice_ok h s ∧
    contents h s = (if json then l else match l with [] => [] | _ => [Join " " l] end) ∧
    alone s (slices (runConfig b)) ∧ s ≠ nil_slice.
Proof.
  intros HInv Hargs. pose proof (args_empty _ _ _ Hargs) as He. pose proof (inv_ok _ _ HInv) as Hok.
  unfold handleJSONArgs. rewrite He. clear He. case_bool_decide as Hl.
  - subst l. destruct (literal_step b [] HInv) as (h & s & -> & ? & ? & ? & ? & ?). exists h, s. by destruct json.
  - destruct json.
    + exists (b_heap b), args. destruct Hargs as (? & ? & ? & ?). split_and!; try done; [by destruct b|].
      apply Forall_forall. intros t Ht. rewrite Forall_forall in Hok. split; [by apply Hok|done].
    + rewrite (read_step _ _ _ _ Hargs). destruct (literal_step b [Join " " l] HInv) as (h & s & -> & ? & ? & ? & ? & ?).
      exists h, s. by destruct l.
Qed.

Lemma bind_eq {A B} (m : M A) (k : A → M B) b :
  (m ≫= k) b = match m b with
               | (Ok x, b') => k x b'
               | (Err e, b') => (Err e, b')
               | (Panic x, b') => (Panic x, b')
               end.
Proof. done. Qed.

Lemma bind_assoc_st {A B C} (m : M A) (f : A → M B) (k : B → M C) b :
  (m ≫= λ x, f x ≫= k) b = ((m ≫= f) ≫= k) b.
Proof. unfold mbind, ST_bind. by destruct (m b) as [[] ?]. Qed.

Section steps.
Context (unicode_lower : string → string) (grow : nat → nat → nat) (decode_cap : nat → nat) (docker : Backend).

Abbreviation commit_config := (commit_config grow decode_cap docker).

Lemma commit_quiet b comment : disableCommit b = true → commit_config comment b = (Ok tt, b).
Proof. intros H. unfold commit_config, commit, mbind, ST_bind, st_gets, st_get. by rewrite H. Qed.

Lemma flags_step {A} (k : M A) b fl :
  b_flags b = mkBFlags fl ∅ ∅ None →
  ∃ f, (flags_Parse unicode_lower ;; k) b =
       match flags_ok unicode_lower fl with
       | Ok _ => k (set_flags f b)
       | Err e => (Err e, set_flags f b)
       | Panic m => (Panic m, set_flags f b)
       end.
Proof.
  intros E. unfold flags_ok, flags_Parse, mbind, ST_bind. rewrite E.
  destruct (BFlags.Parse _ _) as [[[]|e|m] f]; by exists f.
Qed.

Lemma append_nothing h s : slice_ok h s → GoSlice.append grow h s [] = (h, s).
Proof.
  intros [Hl _]. unfold GoSlice.append. simpl. rewrite Nat.add_0_r, decide_True by done.
  unfold write_at. simpl. rewrite Nat.add_0_r, take_drop. f_equal; [|by destruct s].
  unfold cells. destruct (h !! arr s) as [x|] eqn:E; simpl.
  - by rewrite list_insert_id.
  - apply list_insert_ge. by apply lookup_ge_None.
Qed.

(** [append(getShell(b.runConfig), l...)]: the shell itself, or a copy. *)
Lemma shell_append_step b l :
  Inv (b_heap b) (runConfig b) →
  ∃ h s, (sh ← getShell; append_ grow sh l) b = (Ok s, set_heap h b) ∧
    keeps (b_heap b) h (slices (runConfig b)) ∧ slice_ok h s ∧
    observe h s = Some (shell_of (view b) ++ l) ∧
    alone s [Env (runConfig b); Entrypoint (runConfig b); OnBuild (runConfig b)] ∧
    (l ≠ [] → alone s (slices (runConfig b))).
Proof.
  intros HInv. destruct (shell_slice b HInv) as (sh & Eg & Hok & Hf & Hc & Hsh & Hn).
  pose proof (inv_ok _ _ HInv) as Hall.
  unfold mbind, ST_bind, append_. rewrite Eg. destruct (decide (l = [])) as [->|Hl].
  - rewrite append_nothing by done. exists (b_heap b), sh. split_and!; [done| |done| | |done].
    + apply Forall_forall. intros t Ht. rewrite Forall_forall in Hall. split; [by apply Hall|done].
    + unfold observe. rewrite bool_decide_false by done. by rewrite Hc, app_nil_r.
    + destruct HInv as [_ _ He Hn' Ho _]. destruct Hsh as [->| ->]; inv_solve.
  - rewrite append_full by done.
    set (k := grow (cap sh) (len sh + length l)). set (xs := contents (b_heap b) sh ++ l).
    destruct (alloc (b_heap b) xs k) as [h s] eqn:Ea. exists h, s.
    pose proof (alloc_keeps (b_heap b) _ xs k Hall) as Hk. pose proof (alloc_alone (b_heap b) _ xs k Hall) as Hal.
    pose proof (alloc_ok (b_heap b) xs k) as [Hs Hcs]. rewrite Ea in Hk, Hal, Hs, Hcs. cbn [fst snd] in *.
    split_and!; [done|done|done| | |done].
    + rewrite <- Hc. apply observe_nonempty; [done|]. subst xs. by destruct (contents (b_heap b) sh), l.
    + inv_solve.
Qed.

(** The command of CMD and RUN. *)
Lemma command_step b args l (json : bool) :
  Inv (b_heap b) (runConfig b) → args_ok b args l →
  ∃ h s, (parsed ← handleJSONArgs args json;
          (if json then mret parsed else (sh ← getShell; l ← read parsed; append_ grow sh l)) : M slice) b =
         (Ok s, set_heap h b) ∧
    keeps (b_heap b) h (slices (runConfig b)) ∧ slice_ok h s ∧
    observe h s = Some (command_of l json (view b)) ∧
    alone s [Env (runConfig b); Entrypoint (runConfig b); OnBuild (runConfig b)].
Proof.
  intros HInv Hargs.
  destruct (handleJSONArgs_step b args l json HInv Hargs) as (h & s & E & Hk & Hok & Hc & Ha & Hn).
  rewrite (bind_ok _ _ _ _ _ E). unfold command_of. destruct json.
  - exists h, s. split_and!; [done|done|done| |inv_solve].
    unfold observe. rewrite bool_decide_false by done. by rewrite Hc.
  - pose proof (keeps_inv _ _ _ HInv Hk) as HInv'.
    destruct (shell_append_step (set_heap h b) (contents h s) HInv') as (h2 & s2 & E2 & Hk2 & Hok2 & Ho2 & Ha2 & _).
    exists h2, s2. split_and!; [exact E2| |done| |done].
    + by eapply keeps_trans.
    + rewrite Ho2, Hc. f_equal. f_equal. unfold shell_of. unfold view. simpl. by rewrite (keeps_observe _ _ _ _ Hk) by (unfold slices; set_solver).
Qed.
End steps.

Lemma env_index_lt k l i : env_index k l = Some i → i < length l.
Proof.
  revert i. induction l as [|e l IH]; intros i; [done|]. simpl. case_bool_decide; [intros [= <-]; lia|].
  destruct (env_index k l) as [j|]; [|done]. intros [= <-]. specialize (IH j eq_refl). lia.
Qed.

Lemma set_Env_same {L} (c : Config L) : set_Env (Env c) c = c.
Proof. by destruct c. Qed.

Lemma set_config_same b f : f (runConfig b) = runConfig b → set_config f b = b.
Proof. intros E. unfold set_config. rewrite E. by destruct b. Qed.

Lemma set_heap_same b : set_heap (b_heap b) b = b.
Proof. by destruct b. Qed.

(** The loop of ENV. *)
Lemma env_loop_step grow ps : ∀ b,
  Inv (b_heap b) (runConfig b) →
  ∃ h s, env_loop grow ps b = (Ok tt, set_config (set_Env s) (set_heap h b)) ∧
    Inv h (set_Env s (runConfig b)) ∧
    map_config (observe h) (set_Env s (runConfig b)) =
    set_Env (match ps with
             | [] => observe (b_heap b) (Env (runConfig b))
             | _ => Some (foldl set_env (default [] (Env (view b))) ps)
             end) (view b).
Proof.
  induction ps as [|[k v] ps IH]; intros b HInv.
  - exists (b_heap b), (Env (runConfig b)).
    rewrite set_Env_same, set_heap_same, set_config_same by apply set_Env_same.
    split_and!; [reflexivity|done|reflexivity].
  - assert (Henv : slice_ok (b_heap b) (Env (runConfig b))).
    { apply (inv_slice _ _ HInv). unfold slices. set_solver. }
    assert (Hcont : contents (b_heap b) (Env (runConfig b)) = default [] (Env (view b))).
    { unfold view, map_config, observe. cbn [Env]. case_bool_decide as Hn; [by rewrite Hn|done]. }
    assert (Hstep : ∃ h s, env_loop grow ((k, v) :: ps) b = env_loop grow ps (set_config (set_Env s) (set_heap h b)) ∧
      Inv h (set_Env s (runConfig b)) ∧
      map_config (observe h) (set_Env s (runConfig b)) =
      set_Env (Some (set_env (default [] (Env (view b))) (k, v))) (view b)).
    { cbn [env_loop]. unfold read, mbind, ST_bind, st_gets, st_modify. cbv beta iota.
      unfold set_env. rewrite <- Hcont. cbn [fst snd].
      destruct (env_index k (contents (b_heap b) (Env (runConfig b)))) as [i|] eqn:Ei.
      - apply env_index_lt in Ei. rewrite (contents_length _ _ Henv) in Ei.
        destruct (set_index_Env (b_heap b) (runConfig b) i (k +:+ "=" +:+ v) HInv Ei) as [HI HV].
        exists (set_index (b_heap b) (Env (runConfig b)) i (k +:+ "=" +:+ v)), (Env (runConfig b)).
        rewrite set_Env_same. split_and!; [|done|done].
        rewrite set_config_same by apply set_Env_same. reflexivity.
      - unfold append_. destruct (GoSlice.append _ _ _ _) as [h s] eqn:Ea.
        destruct (append_Env (b_heap b) (runConfig b) HInv grow [k +:+ "=" +:+ v] h s ltac:(done) Ea) as [HI HV].
        exists h, s. split_and!; [done|done|]. rewrite HV. f_equal. f_equal. f_equal. by rewrite Hcont. }
    destruct Hstep as (h & s & -> & HI & HV).
    destruct (IH (set_config (set_Env s) (set_heap h b)) HI) as (h2 & s2 & -> & HI2 & HV2).
    exists h2, s2. split_and!; [done|exact HI2|]. cbn [foldl].
    change (map_config (observe h2) (set_Env s2 (runConfig b))) with
      (map_config (observe h2) (set_Env s2 (set_Env s (runConfig b)))).
    cbn [runConfig set_config set_heap] in HV2. rewrite HV2. unfold view. cbn [runConfig set_config set_heap b_heap].
    change (observe h (Env (set_Env s (runConfig b)))) with (Env (map_config (observe h) (set_Env s (runConfig b)))).
    rewrite HV. by destruct ps.
Qed.

Lemma pairs_nonempty l : l ≠ [] → Nat.even (length l) = true → pairs l ≠ [].
Proof. by destruct l as [|x [|y l]]. Qed.

(** The instructions that set fields which are not lists. *)
Lemma field_refines grow decode_cap docker b (f : Config slice → Config slice) (g : config → config) bf comment :
  Inv (b_heap b) (runConfig b) → quiet b →
  (∀ c, slices (f c) = slices c) → (∀ h c, map_config (observe h) (f c) = g (map_config (observe h) c)) →
  matches ((modify_config f ;; commit_config grow decode_cap docker comment) (set_flags bf b))
          (Ok (g (view b), cmdSet b)).
Proof.
  intros HInv Hq Hs Hg. unfold modify_config, mbind, ST_bind, st_modify.
  rewrite commit_quiet by apply Hq. split_and!; [|done|].
  - destruct HInv as [H1 H2 H3 H4 H5 H6]. simpl. specialize (Hs (runConfig b)). unfold slices in Hs. injection Hs as E1 E2 E3 E4 E5.
    split; unfold slices; rewrite ?E1, ?E2, ?E3, ?E4, ?E5; done.
  - f_equal. symmetry. apply Hg.
Qed.

Lemma volume_loop_step vs : ∀ b,
  volume_loop vs b =
  (if bool_decide (Exists (λ v, TrimSpace v = "") vs) then
     (Err ErrEmptyVolume, (volume_loop vs b).2)
   else (Ok tt, set_config (λ c, set_Volumes (list_to_set (TrimSpace <$> vs) ∪ Volumes c) c) b)).
Proof.
  induction vs as [|v vs IH]; intros b0.
  - simpl. destruct b0 as [? [] ? ? ? ? ? ? ? ? ? ? ? ? ?]. unfold set_config, set_Volumes. simpl.
    by rewrite (left_id_L ∅ (∪)).
  - cbn [volume_loop]. destruct (decide (TrimSpace v = "")) as [Hv|Hv].
    + rewrite !bool_decide_true; [done|by left|done].
    + rewrite (bool_decide_false (TrimSpace v = "")) by done.
      unfold mbind, ST_bind, modify_config, st_modify. rewrite IH.
      rewrite (bool_decide_ext (Exists _ (v :: vs)) (Exists (λ v, TrimSpace v = "") vs)).
      2:{ rewrite Exists_cons. tauto. }
      case_bool_decide; [done|]. f_equal. unfold set_config, set_Volumes. simpl. f_equal. f_equal. set_solver.
Qed.

Section handlers.
Context (T : UnicodeTables) (unicode_lower unicode_upper : string → string) (float_ok : string → bool).
Context (quote : string → string) (quote_health : HealthConfig → string).
Context (ParseDuration : string → option Z) (ParsePortSpecs : list string → option (gset string)).
Context (sha256_hex : string → string) (grammar : Grammar).
Context (grow : nat → nat → nat) (decode_cap : nat → nat) (range : gmap string string → list (string * string)).
Context (docker : Backend).

Abbreviation change := (change unicode_lower unicode_upper ParseDuration ParsePortSpecs).

(** An instruction in a state where its arguments and its flags are ready. *)
Context (b : Builder) (a : config * bool) (args : slice) (l fl : list string).
Context (HR : R b a) (Hargs : args_ok b args l) (Hfl : b_flags b = mkBFlags fl ∅ ∅ None).

(** The flags, and then the rest in a state that differs in them only. *)
Ltac flags_first :=
  match goal with
  | |- context [(flags_Parse unicode_lower ;; ?k) b] =>
      destruct (flags_step unicode_lower k b fl Hfl) as [f ->];
      destruct (flags_ok unicode_lower fl) as [[]|e|m]; cbn [obind]; [|done..]
  end.

Lemma cmd_refines json original :
  matches (cmd unicode_lower quote grow decode_cap docker args json b) (change "cmd" l json original fl a).
Proof.
  destruct HR as (HInv & Hq & ->). unfold change. simpl. unfold cmd. flags_first.
  set (b1 := set_flags f b).
  destruct (command_step grow b1 args l json HInv Hargs) as (h & s & E & Hk & Hok & Ho & Ha).
  rewrite bind_assoc_st, (bind_ok _ _ _ _ _ E).
  set (b2 := set_config (set_Cmd s) (set_heap h b1)).
  assert (HR2 : R b2 (set_Cmd (Some (command_of l json (view b))) (view b), cmdSet b)).
  { split_and!; [|done|].
    - apply Inv_set_Cmd; [by eapply keeps_inv|done|done].
    - f_equal. change (view b2) with (set_Cmd (observe h s) (map_config (observe h) (runConfig b))).
      by rewrite Ho, (keeps_config (b_heap b) h (runConfig b) Hk). }
  unfold mbind, ST_bind. unfold modify_config, st_modify, read, st_gets.
  fold b2. rewrite commit_quiet by apply Hq. rewrite (args_empty _ _ _ Hargs).
  destruct HR2 as (Hi2 & Hq2 & Heq2). apply pair_eq in Heq2 as [Hv2 Hs2].
  destruct (bool_decide (l = [])).
  - rewrite orb_false_r. split_and!; [done|done|]. by rewrite Hv2.
  - rewrite orb_true_r. split_and!; [done|done|]. unfold view. simpl. f_equal. exact Hv2.
Qed.

Lemma entrypoint_refines json original :
  matches (entrypoint unicode_lower quote grow decode_cap docker args json b) (change "entrypoint" l json original fl a).
Proof.
  destruct HR as (HInv & Hq & ->). unfold change. simpl. unfold entrypoint. flags_first.
  set (b1 := set_flags f b).
  destruct (handleJSONArgs_step b1 args l json HInv Hargs) as (h & s & E & Hk & Hok & Hc & Ha & Hn).
  rewrite (bind_ok _ _ _ _ _ E).
  pose proof (keeps_inv _ _ _ HInv Hk) as HInv1.
  (* the entry point is set *)
  assert (Hset : ∃ h2 s2,
    (if json then modify_config (set_Entrypoint s)
     else if bool_decide (len s = 0) then modify_config (set_Entrypoint nil_slice)
     else (sh ← getShell; l ← read s; s ← append_ grow sh (take 1 l); modify_config (set_Entrypoint s)))
      (set_heap h b1) = (Ok tt, set_config (set_Entrypoint s2) (set_heap h2 b1)) ∧
    keeps (b_heap b) h2 (slices (runConfig b)) ∧ slice_ok h2 s2 ∧
    observe h2 s2 = entrypoint_of l json (view b) ∧
    alone s2 [Env (runConfig b); Cmd (runConfig b); OnBuild (runConfig b); Shell (runConfig b); defaultShell]).
  { unfold entrypoint_of. rewrite <- (contents_length h s Hok), Hc. destruct json; [|destruct l as [|x l']].
    - exists h, s. split_and!; [done|done|done| |inv_solve].
      unfold observe. rewrite bool_decide_false by done. by rewrite Hc.
    - exists h, nil_slice. split_and!; [done|done|split; [done|by left]|done|].
      repeat constructor; by left.
    - rewrite bool_decide_false by done.
      destruct (shell_append_step grow (set_heap h b1) (contents h s) HInv1)
        as (h2 & s2 & E2 & Hk2 & Hok2 & Ho2 & _ & Ha2).
      exists h2, s2. split_and!; [| |done| |].
      + rewrite Hc in E2. unfold mbind, ST_bind in E2 |- *.
        destruct (getShell _) as [[sh| |] b2] eqn:Eg; [|done..].
        unfold read, st_gets. injection Eg as _ <-. simpl. rewrite Hc. simpl. simpl in E2. rewrite E2. done.
      + by eapply keeps_trans.
      + rewrite Ho2, Hc. do 2 f_equal. unfold shell_of, view. simpl.
        by rewrite (keeps_observe _ _ _ _ Hk) by (unfold slices; set_solver).
      + rewrite Hc in Ha2. specialize (Ha2 ltac:(done)). simpl in Ha2. inv_solve. }
  destruct Hset as (h2 & s2 & E2 & Hk2 & Hok2 & Ho2 & Ha2). rewrite (bind_ok _ _ _ _ _ E2).
  set (b2 := set_config (set_Entrypoint s2) (set_heap h2 b1)).
  assert (HI2 : Inv h2 (set_Entrypoint s2 (runConfig b))).
  { apply Inv_set_Entrypoint; [exact (keeps_inv _ _ _ HInv Hk2)|done|done]. }
  assert (Hv2 : map_config (observe h2) (set_Entrypoint s2 (runConfig b)) =
                set_Entrypoint (entrypoint_of l json (view b)) (view b)).
  { change (map_config (observe h2) (set_Entrypoint s2 (runConfig b))) with
      (set_Entrypoint (observe h2 s2) (map_config (observe h2) (runConfig b))).
    by rewrite Ho2, (keeps_config (b_heap b) h2 (runConfig b) Hk2). }
  unfold mbind, ST_bind, st_get, read, st_gets. change (cmdSet b2) with (cmdSet b).
  destruct (cmdSet b) eqn:Ecs; simpl; rewrite commit_quiet by apply Hq; split_and!; try done.
  - unfold view. simpl. by rewrite Hv2, Ecs.
  - apply Inv_set_Cmd; [done|split; [done|by left]|]. repeat constructor; by left.
  - unfold view. simpl. rewrite Ecs.
    change (map_config (observe h2) (set_Cmd nil_slice (set_Entrypoint s2 (runConfig b)))) with
      (set_Cmd (observe h2 nil_slice) (map_config (observe h2) (set_Entrypoint s2 (runConfig b)))).
    by rewrite Hv2.
Qed.

Lemma env_refines json original :
  matches (Builder.env unicode_lower grow decode_cap docker args b) (change "env" l json original fl a).
Proof.
  destruct HR as (HInv & Hq & ->). unfold change. simpl. unfold Builder.env.
  rewrite (read_step _ _ _ _ Hargs), (args_empty _ _ _ Hargs), (args_len _ _ _ Hargs).
  case_bool_decide as Hl; [done|]. destruct (Nat.even (length l)) eqn:Hev; [|done]. cbn [negb].
  flags_first. destruct (env_loop_step grow (pairs l) (set_flags f b) HInv) as (h & s & E & HI & HV).
  rewrite (bind_ok _ _ _ _ _ E), commit_quiet by apply Hq. split_and!; [done|done|].
  unfold view. simpl. f_equal. simpl in HV. rewrite HV.
  pose proof (pairs_nonempty l Hl Hev). by destruct (pairs l).
Qed.

Lemma label_refines json original :
  matches (label unicode_lower grow decode_cap docker args b) (change "label" l json original fl a).
Proof.
  destruct HR as (HInv & Hq & ->). unfold change. simpl. unfold label.
  rewrite (read_step _ _ _ _ Hargs), (args_empty _ _ _ Hargs), (args_len _ _ _ Hargs).
  case_bool_decide as Hl; [done|]. destruct (Nat.even (length l)) eqn:Hev; [|done]. cbn [negb].
  flags_first.
  apply (field_refines grow decode_cap docker b (λ c, set_Labels (foldl (λ m '(k, v), <[k := v]> m) (Labels c) (pairs l)) c)
           (λ c, set_Labels (foldl (λ m '(k, v), <[k := v]> m) (Labels c) (pairs l)) c)); done.
Qed.

Lemma expose_refines json original :
  matches (expose unicode_lower ParsePortSpecs grow decode_cap docker args b) (change "expose" l json original fl a).
Proof.
  destruct HR as (HInv & Hq & ->). unfold change. simpl. unfold expose.
  rewrite (read_step _ _ _ _ Hargs), (args_empty _ _ _ Hargs). case_bool_decide as Hl; [done|].
  flags_first. destruct (ParsePortSpecs l) as [ports|]; [|done].
  apply (field_refines grow decode_cap docker b (λ c, set_ExposedPorts (ExposedPorts c ∪ ports) c) (λ c, set_ExposedPorts (ExposedPorts c ∪ ports) c)); done.
Qed.

Lemma user_refines json original :
  matches (user unicode_lower grow decode_cap docker args b) (change "user" l json original fl a).
Proof.
  destruct HR as (HInv & Hq & ->). unfold change. simpl. unfold user.
  rewrite (read_step _ _ _ _ Hargs). destruct l as [|u [|]]; [done| |done].
  flags_first. by apply (field_refines grow decode_cap docker b (set_User u) (set_User u)).
Qed.

Lemma workdir_refines json original :
  matches (workdir unicode_lower grow decode_cap docker args b) (change "workdir" l json original fl a).
Proof.
  destruct HR as (HInv & Hq & ->). unfold change. simpl. unfold workdir.
  rewrite (read_step _ _ _ _ Hargs). destruct l as [|w [|]]; [done| |done].
  flags_first. unfold mbind at 1, ST_bind at 1, st_gets.
  change (WorkingDir (runConfig (set_flags f b))) with (WorkingDir (runConfig b)).
  destruct (normaliseWorkdir (WorkingDir (runConfig b)) w) as [w'|e|m]; cbn [obind]; [|exact eq_refl..].
  by apply (field_refines grow decode_cap docker b (set_WorkingDir w') (set_WorkingDir w')).
Qed.

Lemma volume_refines json original :
  matches (volume unicode_lower grow decode_cap docker args b) (change "volume" l json original fl a).
Proof.
  destruct HR as (HInv & Hq & ->). unfold change. simpl. unfold volume.
  rewrite (read_step _ _ _ _ Hargs), (args_empty _ _ _ Hargs). case_bool_decide as Hl; [done|].
  flags_first. unfold mbind, ST_bind. rewrite volume_loop_step. case_bool_decide; [done|].
  pose proof (field_refines grow decode_cap docker b (λ c, set_Volumes (list_to_set (TrimSpace <$> l) ∪ Volumes c) c)
    (λ c, set_Volumes (list_to_set (TrimSpace <$> l) ∪ Volumes c) c) f ("VOLUME " +:+ Sprint_list l)) as Hf.
  by apply Hf.
Qed.

Lemma onbuild_refines json original :
  matches (onbuild unicode_lower unicode_upper grow decode_cap docker args original b) (change "onbuild" l json original fl a).
Proof.
  destruct HR as (HInv & Hq & ->). unfold change. simpl. unfold onbuild.
  rewrite (read_step _ _ _ _ Hargs). destruct l as [|t l']; [done|]. flags_first.
  case_bool_decide; [done|]. case_bool_decide; [done|].
  unfold mbind, ST_bind, st_gets, append_. destruct (GoSlice.append _ _ _ _) as [h s] eqn:Ea.
  destruct (append_OnBuild (b_heap b) (runConfig b) HInv grow [strip_onbuild original] h s ltac:(done) Ea) as [HI HV].
  unfold modify_config, st_modify. rewrite commit_quiet by apply Hq. split_and!; [done|done|].
  f_equal. symmetry. exact HV.
Qed.

(** The three flags of HEALTHCHECK are declared, and parsed. *)
Lemma health_flags_step {A} (k : M A) :
  ∃ f, (add_string_flag "interval" ;; add_string_flag "timeout" ;; add_string_flag "retries" ;;
        flags_Parse unicode_lower ;; k) b =
       match health_flags unicode_lower fl with
       | Ok _ => k (set_flags f b)
       | Err e => (Err e, set_flags f b)
       | Panic m => (Panic m, set_flags f b)
       end ∧
       (∀ i t r, health_flags unicode_lower fl = Ok (i, t, r) →
          default "" (BFlags.Value <$> BFlags.flags f !! "interval") = i ∧
          default "" (BFlags.Value <$> BFlags.flags f !! "timeout") = t ∧
          default "" (BFlags.Value <$> BFlags.flags f !! "retries") = r).
Proof.
  assert (Eadd : (BFlags.AddString "retries" "" (BFlags.AddString "timeout" "" (BFlags.AddString "interval" ""
      (mkBFlags fl ∅ ∅ None)).2).2).2 =
    mkBFlags fl (<["retries" := mkFlag stringType ""]> (<["timeout" := mkFlag stringType ""]>
              (<["interval" := mkFlag stringType ""]> ∅))) ∅ None) by reflexivity.
  unfold add_string_flag, flags_Parse, mbind, ST_bind, st_modify. cbn [b_flags set_flags]. rewrite Hfl, Eadd.
  unfold health_flags. destruct (BFlags.Parse _ _) as [[[]|e|m] f]; exists f; (split; [done|]).
  - by intros i t r [= <- <- <-].
  - done.
  - done.
Qed.

Lemma healthcheck_refines json original :
  matches (healthcheck unicode_lower unicode_upper quote_health ParseDuration grow decode_cap docker args json b)
          (change "healthcheck" l json original fl a).
Proof.
  destruct HR as (HInv & Hq & ->). unfold change. simpl. unfold healthcheck.
  rewrite (read_step _ _ _ _ Hargs). destruct l as [|typ0 l']; [done|]. unfold health_of.
  assert (Hend : ∀ f h, matches
    ((h ← st_gets (λ b, Healthcheck (runConfig b));
      commit_config grow decode_cap docker ("HEALTHCHECK " +:+ default "" (quote_health <$> h)))
      (set_config (set_Healthcheck h) (set_flags f b))) (Ok (set_Healthcheck h (view b), cmdSet b))).
  { intros f h. apply (field_refines grow decode_cap docker b (set_Healthcheck h) (set_Healthcheck h)); done. }
  case_bool_decide as Htyp.
  - case_bool_decide; [|done]. cbn [obind].
    specialize (Hend (b_flags b) (mkHealth [ToUpper unicode_upper typ0] 0 0 0)).
    replace (set_flags (b_flags b) b) with b in Hend by (by destruct b). exact Hend.
  - rewrite bind_eq.
    match goal with
    | |- context [(add_string_flag "interval" ;; add_string_flag "timeout" ;; add_string_flag "retries" ;;
                   flags_Parse unicode_lower ;; ?k) b] =>
        destruct (health_flags_step k) as (f & -> & Hvals)
    end.
    destruct (health_flags unicode_lower fl) as [[[i t] r]|e|m]; cbn [obind]; [|done..].
    destruct (Hvals i t r eq_refl) as (Hi & Ht & Hr).
    case_bool_decide; [done|]. case_bool_decide; [done|].
    unfold flag_of. rewrite !bind_eq. unfold st_gets at 1. cbn [b_flags set_flags]. rewrite Hi.
    destruct (parseOptInterval ParseDuration i) as [iv|e|m]; cbn [obind lift]; [|done..].
    rewrite (bind_ok (mret iv) _ (set_flags f b) iv (set_flags f b)) by done.
    rewrite (bind_ok (st_gets _) _ (set_flags f b) t (set_flags f b)) by (unfold st_gets; simpl; by rewrite Ht).
    destruct (parseOptInterval ParseDuration t) as [tv|e|m]; cbn [obind lift]; [|done..].
    rewrite (bind_ok (mret tv) _ (set_flags f b) tv (set_flags f b)) by done.
    rewrite (bind_ok (st_gets _) _ (set_flags f b) r (set_flags f b)) by (unfold st_gets; simpl; by rewrite Hr).
    destruct (parseRetries r) as [rv|e|m]; cbn [obind lift]; [|done..]. apply Hend.
Qed.
End handlers.

(** ** Dispatch *)

Lemma append_not_nil grow h s ys h' s' :
  slice_ok h s → s ≠ nil_slice → GoSlice.append grow h s ys = (h', s') → s' ≠ nil_slice.
Proof.
  intros Hok Hn E ->. destruct (append_spec _ _ _ _ _ _ Hok E) as [_ Hc].
  unfold GoSlice.append in E. case_decide as Hroom.
  - injection E as _ E1 E2 E3. apply Hn. destruct s as [x y z]; simpl in *. unfold nil_slice. f_equal; lia.
  - pose proof (contents_length _ _ Hok) as Hl. change (contents h' nil_slice) with (@nil string) in Hc.
    apply (f_equal length) in Hc. rewrite length_app in Hc. destruct Hok. simpl in Hc. lia.
Qed.

(** One more argument. *)
Lemma append_args_step grow b s acc ws :
  Inv (b_heap b) (runConfig b) → args_ok b s acc →
  ∃ h s', append_ grow s ws b = (Ok s', set_heap h b) ∧ keeps (b_heap b) h (slices (runConfig b)) ∧
    args_ok (set_heap h b) s' (acc ++ ws).
Proof.
  intros HInv (Hok & Hc & Ha & Hn). pose proof (inv_ok _ _ HInv) as Hall.
  unfold append_. destruct (GoSlice.append grow (b_heap b) s ws) as [h s'] eqn:E. exists h, s'.
  destruct (append_spec _ _ _ _ _ _ Hok E) as [Hok' Hc'].
  split_and!; [done|by eapply append_keeps|].
  split_and!; [done|by rewrite <- Hc|exact (append_alone _ _ _ _ _ _ _ Hall Ha E)|].
  exact (append_not_nil _ _ _ _ _ _ Hok Hn E).
Qed.

Lemma R_keeps b h a : R b a → keeps (b_heap b) h (slices (runConfig b)) → R (set_heap h b) a.
Proof.
  intros (HInv & Hq & ->) Hk. split_and!; [by eapply keeps_inv|done|].
  unfold view. simpl. by rewrite (keeps_config _ _ _ Hk).
Qed.

Lemma words_lift {A} (r : option (outcome ShellParser.error A)) b :
  lift_word r b = (match words_outcome r with Ok x => Ok x | Err e => Err e | Panic m => Panic m end, b).
Proof. by destruct r as [[]|]. Qed.

Lemma expand_step T grow name vals : ∀ b s acc a,
  R b a → args_ok b s acc →
  match expanded T name (contents (b_heap b) (Env (runConfig b))) vals with
  | Ok l => ∃ h s', expand T grow name (Env (runConfig b)) vals s b = (Ok s', set_heap h b) ∧
              keeps (b_heap b) h (slices (runConfig b)) ∧ args_ok (set_heap h b) s' (acc ++ l)
  | Err e => ∃ b', expand T grow name (Env (runConfig b)) vals s b = (Err e, b')
  | Panic m => ∃ b', expand T grow name (Env (runConfig b)) vals s b = (Panic m, b')
  end.
Proof.
  induction vals as [|v vals IH]; intros b s acc a HR Hargs; cbn [expanded expand].
  - exists (b_heap b), s. rewrite set_heap_same, app_nil_r. split_and!; [done| |done].
    destruct HR as [HInv _]. pose proof (inv_ok _ _ HInv) as Hall.
    eapply Forall_impl; [exact Hall|]. by intros.
  - set (env := contents (b_heap b) (Env (runConfig b))).
    match goal with |- context [obind ?o _] => set (o1 := o) end.
    assert (Eo : (if replaceEnvAllowed name then
       if allowWordExpansion name then lift_word (ProcessWords T env v)
       else (λ w : string, [w]) <$> lift_word (ProcessWord T env v) else mret [v]) b =
       (match o1 with Ok x => Ok x | Err e => Err e | Panic m => Panic m end, b)).
    { subst o1. destruct (replaceEnvAllowed name); [|done]. destruct (allowWordExpansion name); [apply words_lift|].
      unfold fmap, ST_fmap. rewrite bind_eq, words_lift. by destruct (words_outcome _). }
    assert (Estep : expand T grow name (Env (runConfig b)) (v :: vals) s b =
      match o1 with
      | Ok ws => (s' ← append_ grow s ws; expand T grow name (Env (runConfig b)) vals s') b
      | Err e => (Err e, b)
      | Panic m => (Panic m, b)
      end).
    { cbn [expand]. unfold read. rewrite bind_eq. unfold st_gets at 1. cbv beta iota. fold env.
      rewrite bind_eq, Eo. by destruct o1. }
    cbn [expand] in Estep. destruct o1 as [ws|e|m]; cbn [obind]; [|by exists b..].
    destruct HR as (HInv & HR'). destruct (append_args_step grow b s acc ws HInv Hargs) as (h & s1 & E1 & Hk & Hargs1).
    rewrite (bind_ok _ _ _ _ _ E1) in Estep.
    assert (Henv : contents h (Env (runConfig b)) = env).
    { unfold keeps in Hk. rewrite Forall_forall in Hk. apply Hk. unfold slices. set_solver. }
    pose proof (R_keeps b h a (conj HInv HR') Hk) as HR1.
    specialize (IH (set_heap h b) s1 (acc ++ ws) a HR1 Hargs1). cbn [b_heap runConfig set_heap] in IH. rewrite Henv in IH.
    rewrite <- Estep in IH. destruct (expanded T name env vals) as [l|e|m]; cbn [obind]; [|done..].
    destruct IH as (h2 & s2 & E2 & Hk2 & Hargs2). exists h2, s2. split_and!; [done|by eapply keeps_trans|].
    by rewrite app_assoc.
Qed.

Section build.
Context (T : UnicodeTables) (unicode_lower unicode_upper : string → string) (float_ok : string → bool).
Context (quote : string → string) (quote_health : HealthConfig → string).
Context (ParseDuration : string → option Z) (ParsePortSpecs : list string → option (gset string)).
Context (sha256_hex : string → string).
Context (grow : nat → nat → nat) (decode_cap : nat → nat) (range : gmap string string → list (string * string)).
Context (docker : Backend).
(** Iterating an empty map does nothing. *)
Context (range_empty : range ∅ = []).

Abbreviation change := (change unicode_lower unicode_upper ParseDuration ParsePortSpecs).
Abbreviation change_node := (change_node T unicode_lower unicode_upper ParseDuration ParsePortSpecs).
Abbreviation evaluate := (evaluate unicode_lower unicode_upper quote quote_health ParseDuration ParsePortSpecs
  sha256_hex grow decode_cap range docker).
Abbreviation dispatch := (dispatch T unicode_lower unicode_upper float_ok quote quote_health ParseDuration
  ParsePortSpecs sha256_hex grow decode_cap range docker).
Abbreviation dispatch_with := (dispatch_with T unicode_lower unicode_upper quote quote_health ParseDuration
  ParsePortSpecs sha256_hex grow decode_cap range docker).

(** Each instruction of a change has its handler. *)
Lemma evaluate_refines from_ name args l json original fl b a :
  validCommitCommands name = true → R b a → args_ok b args l → b_flags b = mkBFlags fl ∅ ∅ None →
  ∃ f, evaluate from_ name args json original = Some f ∧ matches (f b) (change name l json original fl a).
Proof.
  intros Hv HR Ha Hf. unfold validCommitCommands in Hv. apply bool_decide_eq_true in Hv.
  rewrite !elem_of_cons, elem_of_nil in Hv.
  destruct_or! Hv; subst; try done; (eexists; split; [reflexivity|]).
  - by eapply cmd_refines.
  - by eapply entrypoint_refines.
  - by eapply healthcheck_refines.
  - by eapply env_refines.
  - by eapply expose_refines.
  - by eapply label_refines.
  - by eapply onbuild_refines.
  - by eapply user_refines.
  - by eapply volume_refines.
  - by eapply workdir_refines.
Qed.

(** The arguments are expanded and the handler is called. *)
Lemma dispatch_rest from_ n node s pre b a :
  validCommitCommands (DockerfileParser.Value n) = true → R b a → args_ok b s pre →
  matches
    ((b ← st_get;
      envs ← append_args grow (Env (runConfig b)) (range (BuildArgs (options b)));
      args ← expand T grow (DockerfileParser.Value n) envs (next_values node) s;
      match evaluate from_ (DockerfileParser.Value n) args (DockerfileParser.json n) (Original n) with
      | Some f => st_modify (set_flags (mkBFlags (DockerfileParser.Flags n) ∅ ∅ None)) ;; f
      | None => st_fail (ErrUnknownInstruction (ToUpper unicode_upper (DockerfileParser.Value n)))
      end) b)
    (obind (expanded T (DockerfileParser.Value n) (default [] (Env a.1)) (next_values node)) (λ l,
       change (DockerfileParser.Value n) (pre ++ l) (DockerfileParser.json n) (Original n) (DockerfileParser.Flags n) a)).
Proof.
  intros Hv HR Hargs. pose proof HR as (HInv & [_ Hba] & Ea).
  rewrite (bind_ok st_get _ b b b) by done. rewrite Hba, range_empty. cbn [append_args].
  rewrite (bind_ok (mret _) _ b (Env (runConfig b)) b) by done.
  assert (Henv : default [] (Env a.1) = contents (b_heap b) (Env (runConfig b))).
  { rewrite Ea. unfold view, map_config, observe. cbn [fst Env]. case_bool_decide as Hn; [by rewrite Hn|done]. }
  rewrite Henv. pose proof (expand_step T grow (DockerfileParser.Value n) (next_values node) b s pre a HR Hargs) as He.
  destruct (expanded T _ _ _) as [l|e|m]; cbn [obind].
  - destruct He as (h & s' & E & Hk & Hargs'). rewrite (bind_ok _ _ _ _ _ E).
    set (b' := set_flags (mkBFlags (DockerfileParser.Flags n) ∅ ∅ None) (set_heap h b)).
    assert (HR' : R b' a) by exact (R_keeps b h a HR Hk).
    destruct (evaluate_refines from_ (DockerfileParser.Value n) s' (pre ++ l) (DockerfileParser.json n) (Original n)
      (DockerfileParser.Flags n) b' a Hv HR' Hargs' eq_refl) as (f & -> & Hm). exact Hm.
  - destruct He as [b' E]. rewrite bind_eq, E. done.
  - destruct He as [b' E]. rewrite bind_eq, E. done.
Qed.

Lemma dispatch_refines n b a :
  validCommitCommands (DockerfileParser.Value n) = true → R b a →
  matches (dispatch 2 (Some n) b) (change_node n a).
Proof.
  intros Hv HR. pose proof HR as (HInv & _). cbn [Builder.dispatch]. unfold Builder.dispatch_with, change_node.
  destruct (literal_step b [] HInv) as (h & s & E & Hk & Hargs). rewrite (bind_ok _ _ _ _ _ E).
  pose proof (R_keeps b h a HR Hk) as HR1.
  destruct (decide (DockerfileParser.Value n = "onbuild")) as [Hon|Hon].
  - rewrite !(bool_decide_true (DockerfileParser.Value n = "onbuild")) by done.
    destruct (Next n) as [next|]; [|done]. destruct (Children next) as [|[child|] cs]; [done| |done].
    destruct HR1 as (HInv1 & HR1). 
    destruct (append_args_step grow (set_heap h b) s [] [DockerfileParser.Value child] HInv1 Hargs)
      as (h2 & s2 & E2 & Hk2 & Hargs2).
    rewrite bind_eq. rewrite (bind_ok _ _ _ _ _ E2). cbn iota. unfold mret, ST_ret.
    apply dispatch_rest; [done| |done]. exact (R_keeps _ h2 a (conj HInv1 HR1) Hk2).
  - rewrite !(bool_decide_false (DockerfileParser.Value n = "onbuild")) by done.
    rewrite bind_eq. unfold mret, ST_ret. by apply dispatch_rest.
Qed.

Lemma dispatch_all_refines ns : ∀ b a,
  Forall (λ n, validCommitCommands (DockerfileParser.Value n) = true) ns → R b a →
  matches (dispatch_all T unicode_lower unicode_upper float_ok quote quote_health ParseDuration ParsePortSpecs
             sha256_hex grow decode_cap range docker ns b)
          (change_all T unicode_lower unicode_upper ParseDuration ParsePortSpecs ns a).
Proof.
  induction ns as [|n ns IH]; intros b a Hall HR; [done|].
  apply Forall_cons in Hall as [Hn Hall]. pose proof (dispatch_refines n b a Hn HR) as Hm.
  cbn [dispatch_all change_all]. rewrite bind_eq. unfold matches in Hm.
  destruct (dispatch 2 (Some n) b) as [[[]|e|m] b']; destruct (change_node n a) as [a'|e'|m']; try done; cbn [obind].
  by apply IH.
Qed.

(** C21: [docker commit --change]: when the array of the shell is full, the
    builder that works on shared arrays gives, for every list of changes,
    exactly the configuration (or the error, or the panic) that the abstract
    builder on plain lists gives: no instruction disturbs what another one
    stored. *)
Theorem BuildFromConfig_refines h c changes :
  Inv h c →
  (BuildFromConfig T unicode_lower unicode_upper float_ok quote quote_health ParseDuration ParsePortSpecs
     sha256_hex grow decode_cap range docker h c changes).1 =
  changed T unicode_lower unicode_upper float_ok ParseDuration ParsePortSpecs (map_config (observe h) c) changes.
Proof.
  intros HInv. unfold BuildFromConfig, changed. cbn [directive NewBuilder].
  destruct (DockerfileParser.Parse _ _ _ _) as [[ast d]|e|m]; [|done..].
  destruct (list_find _ (r_children ast)) as [[i n]|] eqn:Ef; [done|].
  match goal with |- context [dispatch_all _ _ _ _ _ _ _ _ _ _ _ _ _ _ ?b] => set (b0 := b) end.
  assert (HR : R b0 (map_config (observe h) c, false)) by done.
  assert (Hall : Forall (λ n, validCommitCommands (DockerfileParser.Value n) = true) (r_children ast)).
  { apply list_find_None in Ef. eapply Forall_impl; [exact Ef|]. intros n Hn. apply not_false_is_true, Hn. }
  pose proof (dispatch_all_refines (r_children ast) b0 _ Hall HR) as Hm. unfold matches in Hm.
  destruct (dispatch_all _ _ _ _ _ _ _ _ _ _ _ _ _ _ _) as [[[]|e|m] b'];
    destruct (change_all _ _ _ _ _ _ _) as [a'|e'|m']; try done; cbn [obind]; simpl in *.
  - by destruct Hm as (_ & _ & ->).
  - by subst.
  - by subst.
Qed.
End build.

(** ** A witness *)

(** A daemon without a cache on which everything succeeds; every image has
    the configuration [img]. *)
Definition easy_daemon (img : option config) : Backend :=
  mkBackend (λ _ _, Some (mkImage "base" img)) (λ _ _, inl "no registry") false (λ _ _ _, inr "")
    (λ _ _, inr img) (λ _ _, inr "container") (λ _ _, None) (λ _ _, 0%Z) (λ _ _, inr "image")
    (λ _ _, inl "no network") (λ _ _, inl "no context") (λ _, false).

(** The capacities of Go's runtime for short slices of strings: [append]
    doubles, the JSON decoder starts with four elements. *)
Definition doubling (c n : nat) : nat := n `max` (2 * c).
Definition decoder_cap (n : nat) : nat := n `max` 4.

Definition heap1 : list (list string) := [defaultShell_array; ["A=1"; ""]; ["/bin/bash"; "-c"]].
Definition config1 : Config slice :=
  mkConfig "" ∅ (mkSlice 1 1 2) nil_slice None false "" ∅ "/" nil_slice nil_slice ∅ "" (mkSlice 2 2 2).

(** The slices of a concrete configuration. *)
Ltac concrete_slices :=
  unfold alone, slices, slice_ok, apart, full; repeat (apply Forall_cons; split); try apply Forall_nil_2;
  vm_compute; lia.

Lemma Inv_config1 : Inv heap1 config1.
Proof. split; [concrete_slices|done|concrete_slices..]. Qed.

Lemma BuildFromConfig_refines_witness :
  (BuildFromConfig latin1 id id (λ _, true) id (λ _, "") (λ _, None) (λ _, None) id doubling decoder_cap
     map_to_list (easy_daemon None) heap1 config1 ["ENV B=$A"; "CMD serve"; "ENTRYPOINT run"; "WORKDIR x/../y"]).1 =
  changed latin1 id id (λ _, true) (λ _, None) (λ _, None) (map_config (observe heap1) config1)
    ["ENV B=$A"; "CMD serve"; "ENTRYPOINT run"; "WORKDIR x/../y"] ∧
  is_ok (changed latin1 id id (λ _, true) (λ _, None) (λ _, None) (map_config (observe heap1) config1)
    ["ENV B=$A"; "CMD serve"; "ENTRYPOINT run"; "WORKDIR x/../y"]) = true.
Proof.
  split; [|vm_compute; reflexivity].
  apply (BuildFromConfig_refines latin1 id id (λ _, true) id (λ _, "") (λ _, None) (λ _, None) id doubling decoder_cap
     map_to_list (easy_daemon None) eq_refl heap1 config1 ["ENV B=$A"; "CMD serve"; "ENTRYPOINT run"; "WORKDIR x/../y"]).
  exact Inv_config1.
Defined.
