(* ===== verification/BuilderRun.v ===== *)
(** * builder/dockerfile: RUN, and shells with room in their array

    RUN changes the configuration for the time of its container: it sets the
    command, adds the build arguments to the environment, and puts both back.
    In between the daemon completes the configuration from the image, on the
    same slices.  [run_keeps_config] shows that the two lists come back
    unchanged and that no build argument reaches the configuration or the
    environment of an image, because every write goes past the end of the
    stashed slices; [build_args_in_history] that they are recorded in the
    command of its history, as they are meant to be.  The invariant is a set of tracked
    slices ([Frame]) that all steps keep.

    [shell_room_corrupts] is a build in which the array of the shell has room:
    CMD does not store the command it is given. *)

From S2P Require Import Prelude GoStrings ShellParser Reference Json DockerfileParser GoSlice BFlags Builder BuilderSpec.

Lemma append_keeps_ok grow h s ys h' s' t :
  slice_ok h s → slice_ok h t → GoSlice.append grow h s ys = (h', s') → slice_ok h' t.
Proof.
  intros Hs Ht E. pose proof (slice_ok_bound h s Hs) as Hb. unfold GoSlice.append in E. case_decide as Hroom.
  - injection E as <- _. destruct Ht as [Hl Hc]. split; [done|].
    destruct (decide (cap s = 0)) as [Hz|Hz].
    { assert (ys = []) as -> by (destruct ys; [done|simpl in *; lia]).
      pose proof (append_nothing grow h s Hs) as En. unfold GoSlice.append in En.
      rewrite decide_True in En by (simpl; lia). injection En as -> _. done. }
    specialize (Hb Hz). rewrite cells_insert by done. case_decide as Ha; [|done].
    destruct Hs as [_ [?|Hcs]]; [done|]. rewrite write_at_length by lia. rewrite Ha in Hc. done.
  - by destruct (alloc_other h (contents h s ++ ys) (grow (cap s) (len s + length ys)) t Ht) as [? _]; rewrite E in *.
Qed.

Section frame.
(** The stashed slices, what they hold, and the calls before the instruction. *)
Context (Env0 Cmd0 : slice) (env0 cmd0 : list string) (calls0 : list call).

(** Appending to the slice does not reach into the stashed ones. *)
Definition safe (s : slice) : Prop := ∀ t, t ∈ [Env0; Cmd0] → apart s t ∨ len t ≤ len s.

Definition good (h : list (list string)) (s : slice) : Prop := slice_ok h s ∧ safe s.

(** What a stashed slice shows. *)
Definition stashed (s : slice) (l : list string) : option (list string) :=
  if bool_decide (s = nil_slice) then None else Some l.

(** A call that does not commit, or commits the stashed lists. *)
Definition harmless (c : call) : Prop :=
  match c with
  | Commit _ _ cfg ccfg => Env cfg = stashed Env0 env0 ∧ Cmd cfg = stashed Cmd0 cmd0 ∧ Env ccfg = stashed Env0 env0
  | _ => True
  end.

Record Frame (ts : list slice) (b : Builder) : Prop := {
  fr_env : slice_ok (b_heap b) Env0 ∧ contents (b_heap b) Env0 = env0;
  fr_cmd : slice_ok (b_heap b) Cmd0 ∧ contents (b_heap b) Cmd0 = cmd0;
  fr_Env : good (b_heap b) (Env (runConfig b));
  fr_Entrypoint : good (b_heap b) (Entrypoint (runConfig b));
  fr_tracked : Forall (good (b_heap b)) ts;
  fr_calls : ∃ new, calls b = calls0 ++ new ∧ Forall harmless new;
}.

Abbreviation stable m := (∀ ts, hoare (Frame ts) m (λ _, Frame ts) (λ _, Frame ts)).

Lemma good_append grow h s ys h' s' :
  (∀ t, t ∈ [Env0; Cmd0] → slice_ok h t) →
  good h s → GoSlice.append grow h s ys = (h', s') → good h' s'.
Proof.
  intros Hst [Hok Hs] E. split; [by eapply append_spec|]. intros t Ht. unfold GoSlice.append in E.
  case_decide.
  - injection E as _ <-. destruct (Hs t Ht) as [Ha|Ha]; [left; exact Ha|right; simpl; lia].
  - left. destruct (alloc_other h (contents h s ++ ys) (grow (cap s) (len s + length ys)) t (Hst t Ht)) as (_ & _ & Ha).
    by rewrite E in Ha.
Qed.

Lemma Frame_append ts b grow s ys h' s' :
  Frame ts b → good (b_heap b) s → GoSlice.append grow (b_heap b) s ys = (h', s') →
  Frame (s' :: ts) (set_heap h' b).
Proof.
  intros [[He1 He2] [Hc1 Hc2] HE HN HT HC] Hg E.
  assert (Hst : ∀ t, t ∈ [Env0; Cmd0] → slice_ok (b_heap b) t) by set_solver.
  assert (Hother : ∀ t, t ∈ [Env0; Cmd0] → slice_ok h' t ∧ contents h' t = contents (b_heap b) t).
  { intros t Ht. destruct Hg as [Hok Hs]. apply (append_other grow (b_heap b) s ys h' s' t Hok (Hst t Ht) E).
    destruct (Hs t Ht); auto. }
  assert (Hgood : ∀ t, good (b_heap b) t → good h' t).
  { intros t [Ht1 Ht2]. split; [|done]. destruct Hg as [Hok _]. exact (append_keeps_ok _ _ _ _ _ _ _ Hok Ht1 E). }
  destruct (Hother Env0) as [? Hce]; [set_solver|]. destruct (Hother Cmd0) as [? Hcc]; [set_solver|].
  split; simpl; [split; [done|congruence]|split; [done|congruence]|by apply Hgood|by apply Hgood| |done].
  constructor; [exact (good_append _ _ _ _ _ _ Hst Hg E)|]. eapply Forall_impl; [exact HT|]. apply Hgood.
Qed.

Lemma Frame_alloc ts b xs k h' s' :
  Frame ts b → alloc (b_heap b) xs k = (h', s') → Frame (s' :: ts) (set_heap h' b).
Proof.
  intros [[He1 He2] [Hc1 Hc2] [HE1 HE2] [HN1 HN2] HT HC] E.
  assert (Hother : ∀ t, slice_ok (b_heap b) t → slice_ok h' t ∧ contents h' t = contents (b_heap b) t ∧ apart s' t).
  { intros t Ht. pose proof (alloc_other (b_heap b) xs k t Ht) as H. by rewrite E in H. }
  destruct (Hother Env0 He1) as (? & Hce & ?). destruct (Hother Cmd0 Hc1) as (? & Hcc & ?).
  split; simpl; [split; [done|congruence]|split; [done|congruence]| | | |done].
  - split; [by apply Hother|done].
  - split; [by apply Hother|done].
  - constructor.
    + split; [by pose proof (alloc_ok (b_heap b) xs k) as H'; rewrite E in H'; destruct H'|].
      intros t Ht. left. set_solver.
    + eapply Forall_impl; [exact HT|]. intros t [Ht1 Ht2]. split; [by apply Hother|done].
Qed.

Lemma Frame_weaken ts ts' b : Frame ts b → ts' ⊆ ts → Frame ts' b.
Proof.
  intros [? ? ? ? HT ?] Hsub. split; try done. rewrite Forall_forall in HT. apply Forall_forall. auto.
Qed.

Lemma Frame_tracked ts b s : Frame ts b → s ∈ ts → good (b_heap b) s.
Proof. intros [? ? ? ? HT ?] Hs. rewrite Forall_forall in HT. auto. Qed.

(** *** Steps *)

Lemma Frame_config ts b f :
  Frame ts b → good (b_heap b) (Env (f (runConfig b))) → good (b_heap b) (Entrypoint (f (runConfig b))) →
  Frame ts (set_config f b).
Proof. intros [? ? ? ? ? ?] ? ?. by split. Qed.

(** An assignment to another field. *)
Lemma stable_modify f :
  (∀ c, Env (f c) = Env c ∧ Entrypoint (f c) = Entrypoint c) → stable (modify_config f).
Proof.
  intros Hf ts b Hb. destruct (Hf (runConfig b)) as [E1 E2]. apply Frame_config; [done|..].
  - rewrite E1. by apply Hb.
  - rewrite E2. by apply Hb.
Qed.

Lemma hoare_set_Env ts s : s ∈ ts → hoare (Frame ts) (modify_config (set_Env s)) (λ _, Frame ts) (λ _, Frame ts).
Proof. intros Hs b Hb. apply Frame_config; [done|by eapply Frame_tracked|by apply Hb]. Qed.

Lemma hoare_set_Entrypoint ts s :
  s ∈ ts → hoare (Frame ts) (modify_config (set_Entrypoint s)) (λ _, Frame ts) (λ _, Frame ts).
Proof. intros Hs b Hb. apply Frame_config; [done|by apply Hb|by eapply Frame_tracked]. Qed.

Lemma hoare_append grow ts s ys :
  s ∈ ts → hoare (Frame ts) (append_ grow s ys) (λ s', Frame (s' :: ts)) (λ _, Frame ts).
Proof.
  intros Hs b Hb. unfold append_. destruct (GoSlice.append _ _ _ _) as [h s'] eqn:E.
  eapply Frame_append; [done|by eapply Frame_tracked|done].
Qed.

(** The current environment and entry point may be tracked. *)
Lemma hoare_track_Env {A} ts (k : slice → M A) Q (E : error → Builder → Prop) :
  (∀ s, hoare (Frame (s :: ts)) (k s) Q E) →
  hoare (Frame ts) (st_gets (λ b, Env (runConfig b)) ≫= k) Q E.
Proof. intros Hk b Hb. apply (Hk (Env (runConfig b)) b). destruct Hb. split; try done. by constructor. Qed.

Lemma hoare_literal ts xs : hoare (Frame ts) (literal xs) (λ s, Frame (s :: ts)) (λ _, Frame ts).
Proof. intros b Hb. unfold literal. destruct (alloc _ _ _) as [h s] eqn:E. by eapply Frame_alloc. Qed.

Lemma hoare_read {A} (P : Builder → Prop) s (k : list string → M A) Q E :
  (∀ l, hoare P (k l) Q E) → hoare P (read s ≫= k) Q E.
Proof. intros Hk b Hb. by apply (Hk _ b). Qed.

Lemma hoare_get {A} (P : Builder → Prop) (k : Builder → M A) Q E :
  (∀ b, hoare P (k b) Q E) → hoare P (st_get ≫= k) Q E.
Proof. intros Hk b Hb. by apply (Hk b b). Qed.

Lemma hoare_gets {A B} (P : Builder → Prop) (f : Builder → A) (k : A → M B) Q E :
  (∀ x, hoare P (k x) Q E) → hoare P (st_gets f ≫= k) Q E.
Proof. intros Hk b Hb. by apply (Hk _ b). Qed.

(** *** Calls *)

Lemma Frame_call ts b c : Frame ts b → harmless c → Frame ts (set_calls (calls b ++ [c]) b).
Proof.
  intros [? ? ? ? ? [new [E Hn]]] Hc. split; try done. exists (new ++ [c]). simpl.
  rewrite E, app_assoc. split; [done|]. apply Forall_app. split; [done|by constructor].
Qed.

Lemma stable_call {A} c (reply : list call → A) : harmless c → stable (do_call c reply).
Proof. intros Hc ts b Hb. by apply Frame_call. Qed.

Lemma stable_or_fail {A} (m : M (string + A)) : stable m → stable (or_fail m).
Proof. intros Hm ts. eapply hoare_bind; [apply Hm|]. by intros [e|x] b Hb. Qed.

Lemma stable_unit_call docker c : harmless c → stable (unit_call docker c).
Proof. intros Hc ts. eapply hoare_bind; [by apply stable_call|]. by intros [e|] b Hb. Qed.

Lemma stable_ret {A} (x : A) : stable (mret x : M A).
Proof. by intros ts b Hb. Qed.

Lemma stable_fail {A} e : stable (st_fail e : M A).
Proof. by intros ts b Hb. Qed.

(** Changes of the builder outside the heap, the configuration and the calls. *)
Lemma stable_field f :
  (∀ b, b_heap (f b) = b_heap b ∧ runConfig (f b) = runConfig b ∧ calls (f b) = calls b) →
  stable (st_modify f : M unit).
Proof.
  intros Hf ts b [? ? ? ? ? ?]. destruct (Hf b) as (E1 & E2 & E3). split; simpl; rewrite ?E1, ?E2, ?E3; done.
Qed.

(** *** The daemon's part *)

Context (grow : nat → nat → nat) (decode_cap : nat → nat).
Context (range : gmap string string → list (string * string)) (docker : Backend).

Lemma hoare_weaken {A} ts ts' (m : M A) :
  ts ⊆ ts' → hoare (Frame ts') m (λ _, Frame ts') (λ _, Frame ts') → hoare (Frame ts') m (λ _, Frame ts) (λ _, Frame ts).
Proof.
  intros Hsub Hm. eapply hoare_conseq; [exact Hm|done|..]; intros ? ? H'; exact (Frame_weaken _ _ _ H' Hsub).
Qed.

(** A sequence of stable steps; what was tracked inside may be forgotten. *)
Lemma hoare_seq {A B} ts ts' (m : M A) (k : A → M B) :
  ts ⊆ ts' → hoare (Frame ts') m (λ _, Frame ts') (λ _, Frame ts') →
  (∀ x, hoare (Frame ts') (k x) (λ _, Frame ts) (λ _, Frame ts)) →
  hoare (Frame ts') (m ≫= k) (λ _, Frame ts) (λ _, Frame ts).
Proof.
  intros Hsub Hm Hk. eapply hoare_bind; [|exact Hk].
  eapply hoare_conseq; [exact Hm|done|done|]. intros ? ? H'. exact (Frame_weaken _ _ _ H' Hsub).
Qed.

(** A step that adds a tracked slice. *)
Lemma hoare_new {B} ts ts' (m : M slice) (k : slice → M B) :
  ts ⊆ ts' → hoare (Frame ts') m (λ s, Frame (s :: ts')) (λ _, Frame ts') →
  (∀ s, hoare (Frame (s :: ts')) (k s) (λ _, Frame ts) (λ _, Frame ts)) →
  hoare (Frame ts') (m ≫= k) (λ _, Frame ts) (λ _, Frame ts).
Proof.
  intros Hsub Hm Hk. eapply hoare_bind; [|exact Hk].
  eapply hoare_conseq; [exact Hm|done|done|]. intros ? ? H'. exact (Frame_weaken _ _ _ H' Hsub).
Qed.

Lemma stable_merge_env es : stable (merge_env grow es).
Proof.
  induction es as [|e es IH]; intros ts; [apply stable_ret|]. cbn [merge_env].
  apply hoare_track_Env. intros s. apply hoare_read. intros l. apply hoare_seq; [set_solver| |].
  - case_bool_decide; [apply stable_ret|]. apply hoare_new; [done|apply hoare_append; set_solver|].
    intros s'. eapply hoare_weaken; [|apply hoare_set_Env]; set_solver.
  - intros _. eapply hoare_weaken; [|apply IH]. set_solver.
Qed.

Lemma hoare_decoded ts xs : hoare (Frame ts) (decoded decode_cap xs) (λ s, Frame (s :: ts)) (λ _, Frame ts).
Proof.
  intros b Hb. destruct xs as [xs|]; simpl.
  - by eapply (Frame_alloc ts b xs (decode_cap (length xs))).
  - destruct Hb. split; try done. constructor; [|done]. split; [split; [done|by left]|]. intros t _. left. by left.
Qed.

Lemma hoare_decoded_config ts c :
  hoare (Frame ts) (decoded_config decode_cap c)
    (λ i, Frame (Env i :: Cmd i :: Entrypoint i :: ts)) (λ _, Frame ts).
Proof.
  unfold decoded_config.
  assert (Hstep : ∀ ts' xs (k : slice → M (Config slice)), ts ⊆ ts' →
    (∀ s, hoare (Frame (s :: ts')) (k s) (λ i, Frame (Env i :: Cmd i :: Entrypoint i :: ts)) (λ _, Frame ts)) →
    hoare (Frame ts') (decoded decode_cap xs ≫= k) (λ i, Frame (Env i :: Cmd i :: Entrypoint i :: ts)) (λ _, Frame ts)).
  { intros ts' xs k Hsub Hk. eapply hoare_bind; [|exact Hk].
    eapply hoare_conseq; [apply hoare_decoded|done|done|]. intros ? ? H'. exact (Frame_weaken _ _ _ H' Hsub). }
  do 5 (apply Hstep; [set_solver|]; intros ?).
  intros b Hb. eapply Frame_weaken; [exact Hb|]. simpl. set_solver.
Qed.

Lemma hoare_merge ts i :
  Env i ∈ ts → Entrypoint i ∈ ts → hoare (Frame ts) (merge grow i) (λ _, Frame ts) (λ _, Frame ts).
Proof.
  intros He Hn. unfold merge. apply hoare_seq; [done|by apply stable_modify|]. intros _.
  apply hoare_gets. intros env. apply hoare_seq; [done| |].
  - case_bool_decide; [by apply hoare_set_Env|]. apply hoare_read. intros l. apply stable_merge_env.
  - intros _. apply hoare_gets. intros u. case_bool_decide; [|apply stable_ret].
    apply hoare_seq; [done| |].
    + case_bool_decide; [by apply stable_modify|apply stable_ret].
    + intros _. case_bool_decide; [by apply hoare_set_Entrypoint|apply stable_ret].
Qed.

Lemma stable_mergeAndVerifyConfig : stable (mergeAndVerifyConfig grow decode_cap docker).
Proof.
  intros ts. unfold mergeAndVerifyConfig. apply hoare_get. intros b0.
  apply hoare_seq; [done| |].
  - case_bool_decide; [apply stable_ret|]. apply hoare_seq; [done| |].
    + destruct (re_getimage _ _ _); [apply stable_fail|apply stable_ret].
    + intros [c|]; [|apply stable_ret]. eapply hoare_bind; [apply hoare_decoded_config|]. intros i.
      eapply hoare_weaken; [|apply hoare_merge]; set_solver.
  - intros _. apply hoare_gets. intros u. destruct (_ && _); [apply stable_fail|apply stable_ret].
Qed.

Lemma stable_getEntrypointAndArgs : stable (getEntrypointAndArgs grow).
Proof.
  intros ts. unfold getEntrypointAndArgs. intros b Hb.
  assert (Hb' : Frame (Entrypoint (runConfig b) :: ts) b).
  { destruct Hb. split; try done. by constructor. }
  change (((u ← st_gets runConfig; if bool_decide (len (Entrypoint u) = 0) then mret tt
    else (l ← read (Cmd u); append_ grow (Entrypoint u) l ;; mret tt)) : M unit) b)
    with (((if bool_decide (len (Entrypoint (runConfig b)) = 0) then mret tt
    else (l ← read (Cmd (runConfig b)); append_ grow (Entrypoint (runConfig b)) l ;; mret tt)) : M unit) b).
  case_bool_decide; [exact Hb|].
  pose proof (hoare_read (Frame (Entrypoint (runConfig b) :: ts)) (Cmd (runConfig b))
    (λ l, append_ grow (Entrypoint (runConfig b)) l ;; mret tt) (λ _, Frame ts) (λ _, Frame ts)) as H'.
  apply H'; [|done]. intros l. apply hoare_new; [set_solver|apply hoare_append; set_solver|].
  intros s b' Hb''. eapply Frame_weaken; [exact Hb''|]. set_solver.
Qed.

Lemma stable_container_create : stable (container_create grow decode_cap docker).
Proof.
  intros ts. unfold container_create. apply hoare_seq; [done|apply stable_mergeAndVerifyConfig|]. intros _.
  apply hoare_seq; [done|apply stable_getEntrypointAndArgs|]. intros _. apply hoare_get. intros b.
  apply stable_or_fail. intros ts'. by apply stable_call.
Qed.

Lemma stable_create : stable (create grow decode_cap docker).
Proof.
  intros ts. unfold create. apply hoare_get. intros b. destruct (_ && _); [apply stable_fail|].
  apply hoare_seq; [done|by apply stable_modify|]. intros _. apply hoare_gets. intros cmd.
  apply hoare_seq; [done|apply stable_container_create|]. intros id.
  apply hoare_seq; [done|by apply stable_field|]. intros _. apply hoare_read. intros l.
  apply hoare_seq; [done|by apply stable_unit_call|]. intros _. apply stable_ret.
Qed.

Lemma stable_probeCache : stable (probeCache docker).
Proof.
  intros ts. unfold probeCache. apply hoare_get. intros b. destruct (_ || _); [apply stable_ret|].
  apply hoare_seq; [done|apply stable_or_fail; by apply stable_call|]. intros cache.
  case_bool_decide; (apply hoare_seq; [done|by apply stable_field|]; intros _; apply stable_ret).
Qed.

Lemma stable_run_container cID : stable (run_container docker cID).
Proof.
  intros ts. unfold run_container. do 2 (apply hoare_seq; [done|by apply stable_unit_call|]; intros _).
  apply hoare_seq; [done|by apply stable_call|]. intros ret. case_bool_decide; [apply stable_fail|].
  apply hoare_get. intros b.
  destruct (re_cancelled _ _); [apply stable_fail|apply stable_ret].
Qed.

(** *** The commit, and the whole instruction *)

(** Container identifiers are not empty. *)
Context (ids : ∀ h c id, re_create docker h c = inr id → id ≠ "").

Lemma hoare_commit_container ts id :
  hoare (λ b, Frame ts b ∧ Env (runConfig b) = Env0) (commit_container docker id Cmd0)
    (λ _, Frame ts) (λ _, Frame ts).
Proof.
  intros b [Hb HE]. unfold commit_container. rewrite (bind_ok st_get _ b b b) by done.
  assert (Hc : harmless (Commit id (b_maintainer b) (view (set_config (set_Cmd Cmd0) b)) (view b))).
  { destruct Hb as [[_ He] [_ Hc] _ _ _ _]. unfold harmless, view, map_config, observe, stashed. cbn.
    by rewrite HE, He, Hc. }
  pose proof (stable_or_fail (do_call (Commit id (b_maintainer b) (view (set_config (set_Cmd Cmd0) b)) (view b))
    (λ h, re_commit docker h id)) (stable_call _ _ Hc) ts) as Hm.
  apply (hoare_bind (Frame ts) _ _ (λ _, Frame ts) (λ _, Frame ts) (λ _, Frame ts) Hm); [|done].
  intros i. by apply stable_field.
Qed.

Lemma hoare_commit ts cID :
  cID ≠ "" → hoare (λ b, Frame ts b ∧ Env (runConfig b) = Env0) (commit grow decode_cap docker cID Cmd0 "run")
    (λ _, Frame ts) (λ _, Frame ts).
Proof.
  intros Hid. unfold commit. apply hoare_get. intros b.
  destruct (disableCommit b); [intros b' [? _]; done|]. destruct (_ && _); [intros b' [? _]; done|].
  eapply (hoare_bind _ _ _ _ (λ _ b, Frame ts b ∧ Env (runConfig b) = Env0)).
  - intros b' [Hb HE]. split; [|done]. apply Frame_config; [done|by apply Hb|by apply Hb].
  - intros _. rewrite bool_decide_false by done. apply hoare_commit_container.
Qed.

Lemma bind_inv {A B} (m : M A) (k : A → M B) b y b' :
  (m ≫= k) b = (Ok y, b') → ∃ x b1, m b = (Ok x, b1) ∧ k x b1 = (Ok y, b').
Proof. rewrite bind_eq. destruct (m b) as [[x| |] b1]; [|done..]. eauto. Qed.

Lemma create_id b id b' : create grow decode_cap docker b = (Ok id, b') → id ≠ "".
Proof.
  unfold create. rewrite (bind_ok st_get _ b b b) by done. destruct (_ && _); [done|].
  intros (? & ? & _ & H)%bind_inv. apply bind_inv in H as (? & ? & _ & H).
  apply bind_inv in H as (i & b2 & Hc & H). do 3 apply bind_inv in H as (? & ? & _ & H).
  injection H as <- _. unfold container_create in Hc.
  do 3 apply bind_inv in Hc as (? & ? & _ & Hc). unfold or_fail in Hc. apply bind_inv in Hc as (r & ? & Hr & Hc).
  injection Hr as <- <-. destruct (re_create _ _ _) as [e|j] eqn:Er; [done|]. injection Hc as <- _. by eapply ids.
Qed.

Lemma hoare_create ts :
  hoare (Frame ts) (create grow decode_cap docker) (λ id b, Frame ts b ∧ id ≠ "") (λ _, Frame ts).
Proof.
  intros b Hb. pose proof (stable_create ts b Hb) as H. pose proof (create_id b) as Hid.
  destruct (create _ _ _ b) as [[id|e|m] b']; [|done..]. split; [done|by eapply Hid].
Qed.

Lemma hoare_run_body ts command :
  Env0 ∈ ts → hoare (Frame ts) (run_body grow decode_cap range docker Cmd0 Env0 command) (λ _, Frame ts) (λ _, Frame ts).
Proof.
  intros H0. unfold run_body. apply hoare_get. intros b. set (be := sort_strings _).
  eapply (hoare_bind _ _ _ _ (λ _, Frame ts)).
  { destruct be as [|e es]; [apply stable_ret|]. apply hoare_new; [done|apply hoare_literal|]. intros s1.
    apply hoare_new; [set_solver|apply hoare_append; set_solver|]. intros s2. apply hoare_read. intros l.
    eapply hoare_conseq; [apply (hoare_append grow (s2 :: s1 :: ts)); set_solver|done|..].
    - intros ? ? H'. eapply Frame_weaken; [exact H'|]. set_solver.
    - intros ? ? H'. eapply Frame_weaken; [exact H'|]. set_solver. }
  intros saveCmd. apply hoare_seq; [done|by apply stable_modify|]. intros _.
  apply hoare_seq; [done|apply stable_probeCache|]. intros [|]; [apply stable_ret|].
  apply hoare_seq; [done|by apply stable_modify|]. intros _. apply hoare_track_Env. intros e.
  apply hoare_new; [set_solver|apply hoare_append; set_solver|]. intros e'.
  apply hoare_seq; [set_solver|apply hoare_set_Env; set_solver|]. intros _.
  apply hoare_seq; [set_solver|by apply stable_modify|]. intros _.
  eapply (hoare_bind _ _ _ _ (λ id b, Frame ts b ∧ id ≠ "")).
  { eapply hoare_conseq; [apply hoare_create|done|..].
    - intros id b' [H' ?]. split; [|done]. eapply Frame_weaken; [exact H'|]. set_solver.
    - intros ? ? H'. eapply Frame_weaken; [exact H'|]. set_solver. }
  intros cID. apply hoare_pre. intros Hid.
  apply hoare_seq; [done|apply stable_run_container|]. intros _.
  eapply (hoare_bind _ _ _ _ (λ _ b, Frame ts b ∧ Env (runConfig b) = Env0)).
  { intros b' Hb'. split; [by apply (hoare_set_Env ts Env0 H0 b')|done]. }
  intros _. eapply (hoare_bind _ _ _ _ (λ _ b, Frame ts b ∧ Env (runConfig b) = Env0)).
  { intros b' [Hb' HE']. split; [|done]. apply Frame_config; [done|by apply Hb'|by apply Hb']. }
  intros _. by apply hoare_commit.
Qed.
End frame.

(** From [b] to [b'] the environment and the command are the same, and so they
    are in the configuration of every image committed in between; so is the
    environment of the container that the image is made from. *)
Definition leaves_no_trace (b b' : Builder) : Prop :=
  Env (view b') = Env (view b) ∧ Cmd (view b') = Cmd (view b) ∧
  ∃ new, calls b' = calls b ++ new ∧
    ∀ id author cfg ccfg, Commit id author cfg ccfg ∈ new →
      Env cfg = Env (view b) ∧ Cmd cfg = Cmd (view b) ∧ Env ccfg = Env (view b).

Lemma stashed_observe h s : observe h s = stashed s (contents h s).
Proof. done. Qed.

Section run.
Context (unicode_lower : string → string) (grow : nat → nat → nat) (decode_cap : nat → nat).
Context (range : gmap string string → list (string * string)) (docker : Backend).

(** The state before the body of RUN. *)
Lemma run_frame b h f :
  Inv (b_heap b) (runConfig b) → keeps (b_heap b) h (slices (runConfig b)) →
  (∀ c, Env (f c) = Env c ∧ Entrypoint (f c) = Entrypoint c) →
  ∀ bf, Frame (Env (runConfig b)) (Cmd (runConfig b)) (contents (b_heap b) (Env (runConfig b)))
    (contents (b_heap b) (Cmd (runConfig b))) (calls b) [Env (runConfig b)]
    (set_config f (set_heap h (set_flags bf b))).
Proof.
  intros HInv Hk Hf bf. destruct (Hf (runConfig b)) as [E1 E2].
  pose proof (inv_env _ _ HInv) as He. pose proof (inv_entrypoint _ _ HInv) as Hn.
  unfold keeps, slices, alone in *. rewrite !Forall_cons in Hk, He, Hn. destruct_and!.
  assert (Henv : good (Env (runConfig b)) (Cmd (runConfig b)) h (Env (runConfig b))).
  { split; [done|]. intros t Ht. apply elem_of_cons in Ht as [->|Ht]; [by right|].
    apply list_elem_of_singleton in Ht as ->. by left. }
  split; simpl; rewrite ?E1, ?E2; try done.
  - split; [done|]. intros t Ht. left. apply elem_of_cons in Ht as [->|Ht]; [by apply apart_sym|].
    by apply list_elem_of_singleton in Ht as ->.
  - by constructor.
  - exists []. by rewrite app_nil_r.
Qed.

(** C22: RUN leaves no trace of its build arguments in the configuration: whatever
    happens (a failing command, a failing daemon, a cache hit), afterwards the
    environment and the command of the configuration are what they were,
    although the daemon and the instruction itself appended to both in between;
    every image committed on the way has exactly that environment and command in
    its configuration, and that environment in the configuration of its
    container.  (The command of the container, which the history shows, does
    name the build arguments: [build_args_in_history].)  Conditions ([Inv]): the
    environment, the entry point and the triggers share no array with another
    slice of the configuration, and the array of the shell has no room after its
    elements ([shell_room_corrupts] is a build where it has); and containers
    have identifiers that are not empty. *)
Theorem run_keeps_config b args l json r b' :
  Inv (b_heap b) (runConfig b) → args_ok b args l →
  (∀ h c id, re_create docker h c = inr id → id ≠ "") →
  run unicode_lower grow decode_cap range docker args json b = (r, b') →
  panics r = false ∧ leaves_no_trace b b'.
Proof.
  intros HInv Hargs Hids. unfold run. rewrite (bind_ok st_get _ b b b) by done.
  assert (Hnone : ∀ b1, Env (view b1) = Env (view b) → Cmd (view b1) = Cmd (view b) → calls b1 = calls b →
    leaves_no_trace b b1).
  { intros b1 H1 H2 H3. split_and!; [done|done|]. exists []. rewrite H3, app_nil_r. split; [done|]. set_solver. }
  destruct (_ && _); [intros [= <- <-]; split; [done|by apply Hnone]|].
  rewrite bind_eq. unfold flags_Parse at 1. pose proof (Parse_no_panic unicode_lower (b_flags b)) as Hnp.
  destruct (BFlags.Parse _ _) as [[[]|e|m] bf]; [|intros [= <- <-]; split; [done|by apply Hnone]|done].
  destruct (command_step grow (set_flags bf b) args l json HInv Hargs) as (h & s & E & Hk & Hok & _ & Ha).
  rewrite bind_assoc_st, (bind_ok _ _ _ _ _ E). unfold st_gets. rewrite bind_eq. cbv beta iota.
  set (b2 := set_heap h (set_flags bf b)).
  assert (Hpre : ∃ f, (∀ c, Env (f c) = Env c ∧ Entrypoint (f c) = Entrypoint c) ∧
    (if bool_decide (len (Entrypoint (runConfig b2)) = 0) && bool_decide (len (Cmd (runConfig b2)) = 0)
     then modify_config (set_Cmd s) else mret tt) b2 = (Ok tt, set_config f b2)).
  { destruct (_ && _); [by exists (set_Cmd s)|]. exists id. split; [done|]. by rewrite set_config_same. }
  destruct Hpre as (f & Hf & Ef). rewrite (bind_ok _ _ _ _ _ Ef). unfold deferred.
  pose proof (run_frame b h f HInv Hk Hf bf) as Hfr. fold b2 in Hfr.
  pose proof (hoare_run_body _ _ _ _ _ grow decode_cap range docker Hids [Env (runConfig b)] s
    (list_elem_of_here _ _) _ Hfr) as Hbody.
  change (Cmd (runConfig b2)) with (Cmd (runConfig b)). change (Env (runConfig b2)) with (Env (runConfig b)).
  destruct (run_body _ _ _ _ _ _ _ _) as [r4 b4]. intros [= <- <-].
  assert (Hend : Frame (Env (runConfig b)) (Cmd (runConfig b)) (contents (b_heap b) (Env (runConfig b)))
    (contents (b_heap b) (Cmd (runConfig b))) (calls b) [Env (runConfig b)] b4 ∧ panics r4 = false) by (by destruct r4).
  destruct Hend as [[[_ He] [_ Hc] _ _ _ [new [En Hn]]] Hr]. split; [done|].
  unfold leaves_no_trace, view, map_config. cbn [Env Cmd runConfig set_config set_Env set_Cmd b_heap].
  rewrite !stashed_observe, He, Hc. split_and!; [done|done|]. exists new. split; [exact En|].
  intros cid author cfg ccfg Hin. rewrite Forall_forall in Hn. exact (Hn _ Hin).
Qed.
End run.

(** ** The depth of dispatching *)

Section depth.
Context (T : UnicodeTables) (unicode_lower unicode_upper : string → string) (float_ok : string → bool).
Context (quote : string → string) (quote_health : HealthConfig → string).
Context (ParseDuration : string → option Z) (ParsePortSpecs : list string → option (gset string)).
Context (sha256_hex : string → string).
Context (grow : nat → nat → nat) (decode_cap : nat → nat) (range : gmap string string → list (string * string)).
Context (docker : Backend).

Abbreviation dispatch := (dispatch T unicode_lower unicode_upper float_ok quote quote_health ParseDuration
  ParsePortSpecs sha256_hex grow decode_cap range docker).
Abbreviation dispatch_with := (dispatch_with T unicode_lower unicode_upper quote quote_health ParseDuration
  ParsePortSpecs sha256_hex grow decode_cap range docker).

(** The fuel that [build] gives to the dispatcher. *)
Definition levels : nat := 2.

(** What dereferencing a nil pointer does. *)
Definition nil_panic {A} : outcome error A := Panic "invalid memory address or nil pointer dereference".

Lemma bind_ext {A B} (m : M A) (k k' : A → M B) b :
  (∀ x b', k x b' = k' x b') → (m ≫= k) b = (m ≫= k') b.
Proof. intros H. rewrite !bind_eq. by destruct (m b) as [[x| |] b']. Qed.

Lemma evaluate_ext f g name args json original b :
  (name = "from" → ∀ b, f args b = g args b) →
  match Builder.evaluate unicode_lower unicode_upper quote quote_health ParseDuration ParsePortSpecs
          sha256_hex grow decode_cap range docker f name args json original,
        Builder.evaluate unicode_lower unicode_upper quote quote_health ParseDuration ParsePortSpecs
          sha256_hex grow decode_cap range docker g name args json original with
  | Some m, Some m' => m b = m' b
  | None, None => True
  | _, _ => False
  end.
Proof.
  intros H. unfold Builder.evaluate. destruct (decide (name = "from")) as [->|Hn]; [by apply H|].
  rewrite !(bool_decide_false (name = "from")) by done. repeat (case_bool_decide; [done|]). done.
Qed.

(** The handler of FROM matters for FROM only. *)
Lemma dispatch_with_ext f g n b :
  (∀ node, n = Some node → DockerfileParser.Value node = "from" → ∀ args b, f args b = g args b) →
  dispatch_with f n b = dispatch_with g n b.
Proof.
  intros H. destruct n as [n|]; [|done]. unfold Builder.dispatch_with.
  apply bind_ext. intros s b1. apply bind_ext. intros [node s2] b2. apply bind_ext. intros b3 b4.
  apply bind_ext. intros envs b5. apply bind_ext. intros args b6.
  pose proof (evaluate_ext f g (DockerfileParser.Value n) args (DockerfileParser.json n) (Original n)
    (set_flags (mkBFlags (DockerfileParser.Flags n) ∅ ∅ None) b6)) as He.
  destruct (Builder.evaluate _ _ _ _ _ _ _ _ _ _ _ f _ _ _ _), (Builder.evaluate _ _ _ _ _ _ _ _ _ _ _ g _ _ _ _);
    try (exfalso; apply He; by eauto). 
  - rewrite !bind_eq. apply He. eauto.
  - done.
Qed.

Lemma run_trigger_ext f g ns : ∀ b,
  (∀ n b, DockerfileParser.Value n ≠ "from" → f (Some n) b = g (Some n) b) →
  run_trigger unicode_upper f ns b = run_trigger unicode_upper g ns b.
Proof.
  induction ns as [|n ns IH]; intros b H; [done|]. cbn [run_trigger].
  case_bool_decide; [done|]. case_bool_decide as Hf; [done|].
  rewrite !bind_eq, H; [|by intros E; apply Hf; right; rewrite E].
  destruct (g (Some n) b) as [[[]| |] b']; [|done..]. by apply IH.
Qed.

Lemma from_ext f g args b :
  (∀ n b, DockerfileParser.Value n ≠ "from" → f (Some n) b = g (Some n) b) →
  from unicode_lower unicode_upper float_ok grow decode_cap docker f args b =
  from unicode_lower unicode_upper float_ok grow decode_cap docker g args b.
Proof.
  intros H.
  assert (Ht : ∀ ls b, run_triggers unicode_lower unicode_upper float_ok f ls b =
                       run_triggers unicode_lower unicode_upper float_ok g ls b).
  { induction ls as [|l ls IH]; intros b1; [done|]. cbn [run_triggers]. apply bind_ext. intros ast b2.
    rewrite !bind_eq, (run_trigger_ext f g) by done.
    destruct (run_trigger _ g _ b2) as [[[]| |] b3]; [|done..]. apply IH. }
  assert (Hp : ∀ img b, processImageFrom unicode_lower unicode_upper float_ok grow decode_cap f img b =
                        processImageFrom unicode_lower unicode_upper float_ok grow decode_cap g img b).
  { intros img b1. unfold processImageFrom. do 4 (apply bind_ext; intros ? ?).
    destruct img; [|done]. do 4 (apply bind_ext; intros ? ?). apply Ht. }
  unfold from. apply bind_ext. intros l b1. destruct l as [|name [|]]; [done| |done].
  apply bind_ext. intros [] b2. apply bind_ext. intros b3 b4. case_bool_decide.
  - apply bind_ext. intros [] b5. apply Hp.
  - apply bind_ext. intros [i|] b5; [apply Hp|]. apply bind_ext. intros i b6. apply Hp.
Qed.

(** Dispatching ends: the triggers that FROM runs cannot be FROM, so two
    levels are enough, whatever the instruction and the state of the builder:
    with more fuel the result is the same. *)
Theorem dispatch_depth fuel n b : dispatch (levels + fuel) n b = dispatch levels n b.
Proof.
  unfold levels. cbn [plus Builder.dispatch]. apply dispatch_with_ext. intros node _ _ args b1. apply from_ext. intros n' b2 Hn.
  destruct fuel as [|fuel]; [done|]. cbn [Builder.dispatch]. apply dispatch_with_ext.
  intros node' [= <-] E. done.
Qed.

(** ONBUILD with nothing but a comment after it: the parser gives a node
    whose only child is nil, and dispatching it dereferences the nil pointer,
    in every state of the builder. *)
Theorem onbuild_comment_panics d b :
  LookingForDirectives d = false → EscapeToken d = "\"%char →
  ∃ n d', parse_line unicode_lower float_ok "ONBUILD # later" d = Ok ("", Some n, d') ∧
    (dispatch levels (Some n) b).1 = nil_panic.
Proof.
  intros Hd He. destruct d as [tok look seen]. simpl in Hd, He. subst. eexists _, _. split; [reflexivity|].
  unfold levels. cbn [Builder.dispatch]. unfold Builder.dispatch_with. rewrite bind_eq. by destruct (literal [] b) as [[| |] b1] eqn:E.
Qed.
End depth.

(** ** Variables *)

Lemma getEnv_cons e env k :
  getEnv (e :: env) k =
  match Cut "=" e with
  | (_, None) => if decide (k = e) then "" else getEnv env k
  | (k', Some v) => if decide (k = k') then v else getEnv env k
  end.
Proof. reflexivity. Qed.

(** An entry for another variable is passed over. *)
Lemma getEnv_skip e env env' k k' v :
  (Cut "=" e).1 ≠ k → getEnv env' k' = (if decide (k' = k) then v else getEnv env k') →
  getEnv (e :: env') k' = if decide (k' = k) then v else getEnv (e :: env) k'.
Proof.
  intros He IH. rewrite !getEnv_cons, IH. destruct (Cut "=" e) as [ke [ve|]] eqn:Ee; simpl in He.
  - destruct (decide (k' = ke)) as [->|]; [by rewrite decide_False|done].
  - apply Cut_none_inv in Ee as Ek. subst ke. destruct (decide (k' = e)) as [->|]; [by rewrite decide_False|done].
Qed.

(** ENV: after it the variable has the new value wherever a later
    instruction expands it, and every other variable expands as before. *)
Theorem env_expands k v env k' :
  ContainsByte "=" k = false →
  getEnv (set_env env (k, v)) k' = if decide (k' = k) then v else getEnv env k'.
Proof.
  intros Hk. assert (Hcut : Cut "=" (k +:+ "=" +:+ v) = (k, Some v)) by exact (Cut_app _ k v Hk).
  unfold set_env. cbn [fst snd]. induction env as [|e env IH].
  - cbn [env_index app]. rewrite getEnv_cons, Hcut. done.
  - cbn [env_index]. case_bool_decide as He.
    + cbn [list_insert insert]. rewrite !getEnv_cons, Hcut. case_decide; [done|].
      destruct (Cut "=" e) as [ke [ve|]] eqn:Ee; simpl in He; subst ke; [by rewrite decide_False|].
      apply Cut_none_inv in Ee as ->. by rewrite decide_False.
    + destruct (env_index k env) as [i|] eqn:Ei; cbn [fmap option_fmap option_map app insert list_insert];
        by apply getEnv_skip.
Qed.

(** ** Witnesses, and a build *)

Definition any_grammar : Grammar :=
  mkGrammar (λ s, Some (mkDist s "" "")) (λ _, true) (λ _, true) (λ _, true) (λ _, false) id.

Definition build_with (img : option config) (file : list string) : outcome error string * Builder :=
  build latin1 id id (λ _, true) id (λ _, "") (λ _, None) (λ _, None) id any_grammar doubling decoder_cap
    map_to_list (easy_daemon img) (Some (text file)) (NewBuilder (mkOptions ∅ false false false false [] ∅) false).

(** The commands of the images that a build commits. *)
Definition committed (b : Builder) : list (option (list string)) :=
  omap (λ c, match c with Commit _ _ cfg _ => Some (Cmd cfg) | _ => None end) (calls b).

Definition with_shell (sh : list string) : config :=
  mkConfig "" ∅ None None None false "" ∅ "" None None ∅ "" (Some sh).

(** A shell with room in its array: on a base image whose shell has two
    elements, which the JSON decoder puts in an array of four, the command of
    CMD is overwritten by the comment of its own commit, and the image runs
    the comment's first word; with the default shell the same Dockerfile gives
    the command that is written there. *)
Theorem shell_room_corrupts :
  committed (build_with (Some (with_shell ["/bin/bash"; "-c"])) ["FROM base"; "CMD serve"]).2 =
    [Some ["/bin/bash"; "-c"; "#(nop) "]] ∧
  committed (build_with None ["FROM base"; "CMD serve"]).2 = [Some ["/bin/sh"; "-c"; "serve"]].
Proof. split; vm_compute; reflexivity. Qed.

(** A builder on an image, with one build argument, and the words of a RUN. *)
Definition builder1 : Builder :=
  mkBuilder (heap1 ++ [["make"; "all"]]) config1 "image" false "" false false false {["V"]}
    (mkOptions {["V" := "2"]} false false false false [] ∅) (mkDirective "\" false false) NewBFlags ∅ false [].

(** The build argument is in the command of the container that was committed,
    and in no environment. *)
Example build_args_in_history :
  omap (λ c, match c with Commit _ _ cfg ccfg => Some (Env cfg, Env ccfg, Cmd ccfg) | _ => None end)
    (calls (run id doubling decoder_cap map_to_list (easy_daemon None) (mkSlice 3 2 2) true builder1).2) =
  [(Env (view builder1), Env (view builder1), Some ["|1"; "V=2"; "make"; "all"])].
Proof. vm_compute. reflexivity. Qed.

Lemma run_keeps_config_witness :
  ∃ r b', run id doubling decoder_cap map_to_list (easy_daemon None) (mkSlice 3 2 2) true builder1 = (r, b') ∧
    committed b' = [Cmd (view builder1)] ∧
    panics r = false ∧ leaves_no_trace builder1 b'.
Proof.
  eexists _, _. split; [vm_compute; reflexivity|]. split; [vm_compute; reflexivity|].
  eapply (run_keeps_config id doubling decoder_cap map_to_list (easy_daemon None) builder1 (mkSlice 3 2 2) ["make"; "all"] true).
  - split; [concrete_slices|done|concrete_slices..].
  - split_and!; [concrete_slices|done|concrete_slices|done].
  - intros h c cid [= <-]. done.
  - vm_compute. reflexivity.
Defined.

Lemma onbuild_comment_panics_witness :
  ∃ n d', parse_line id (λ _, true) "ONBUILD # later" (mkDirective "\" false false) = Ok ("", Some n, d') ∧
    (dispatch latin1 id id (λ _, true) id (λ _, "") (λ _, None) (λ _, None) id doubling decoder_cap
       map_to_list (easy_daemon None) levels (Some n) builder1).1 = nil_panic.
Proof.
  apply (onbuild_comment_panics latin1 id id (λ _, true) id (λ _, "") (λ _, None) (λ _, None) id doubling decoder_cap
       map_to_list (easy_daemon None) (mkDirective "\" false false) builder1); done.
Defined.

Lemma env_expands_witness : getEnv (set_env ["A=1"; "B=2"] ("A", "x=y")) "A" = "x=y".
Proof. apply (env_expands "A" "x=y" ["A=1"; "B=2"] "A"). done. Defined.
