(* ===== verification/ImageDelete.v ===== *)
(** * daemon: deleting and tagging images

    Models [src/daemon/image_delete.go], the lookup of [src/daemon/image.go]
    ([GetImageID]), [src/daemon/image_tag.go], [imageNotExistToErrcode] of
    [src/daemon/errors.go] and the map of [src/container/memory_store.go],
    on top of the image store, the reference store and the containers.

    The state is a [Daemon]: the two stores, the containers, the image events
    that were logged, and the variable [records] that [ImageDelete] shares by
    pointer with [imageDeleteHelper]; what it holds when the call returns is
    the list the call returns.  The script [ref_io] says which of the next
    writes of the reference store fail.

    Go leaves three things open, and they are parameters: the order in which
    a map is iterated ([range]), the grammar of references ([Grammar]), and
    whether [return records, f(&records)] reads [records] after the call
    ([late]).

    The promise of [ImageDelete] is an abstract machine ([dstep]) on the tags
    and the children maps: it removes a tag of the target, or drops an image
    that has no child, no tag and no running container.  [ImageDelete] only
    makes such steps, and its records and events are those of the steps. *)

From S2P Require Import Prelude.
From S2P Require Import GoStrings.
From S2P Require Import Reference.
From S2P Require Import ReferenceStore.
From S2P Require Import LayerStore.
From S2P Require Import LayerInv.
From S2P Require Import LayerSafety.
From S2P Require Import ImageStore.
From S2P Require Import ContainerNames.

Abbreviation ID := string.

(** ** Data *)

Record Container := mkContainer { cont_ID : string; ImageID : ID; Running : bool }.

Definition memoryStore : Type := gmap string Container.

Definition mem_Add (id : string) (c : Container) (s : memoryStore) : memoryStore := <[id := c]> s.
Definition mem_Get (id : string) (s : memoryStore) : option Container := s !! id.
Definition mem_Delete (id : string) (s : memoryStore) : memoryStore := delete id s.
Definition mem_Size (s : memoryStore) : nat := size s.

(** [types.ImageDelete]: one of its two fields is set. *)
Inductive ImageDeleteRecord := Untagged (s : string) | Deleted (s : string).

(** [conflictType]: a set of bits. *)
Definition conflictDependentChild : N := 1.
Definition conflictRunningContainer : N := 2.
Definition conflictActiveReference : N := 4.
Definition conflictStoppedContainer : N := 8.
Definition conflictHard : N := N.lor conflictDependentChild conflictRunningContainer.
Definition conflictSoft : N := N.lor conflictActiveReference conflictStoppedContainer.

Record imageDeleteConflict := mkConflict { hard : bool; used : bool; imgID : ID; message : string }.

Definition conflict_Error (idc : imageDeleteConflict) : string :=
  "conflict: unable to delete " +:+ TruncateID (imgID idc) +:+ " (" +:+
  (if hard idc then "cannot be forced" else "must be forced") +:+ ") - " +:+ message idc.

Inductive derror :=
| EReference (e : Reference.error)                 (* a name that does not parse *)
| EImageDoesNotExist (refOrID : string)
| ENotFoundError (msg : string)                    (* errors.NewRequestNotFoundError *)
| EReferenceInUse (imageRef container image : string)
| EConflict (c : imageDeleteConflict)
| ERefStore (e : store_error)
| EImageStore (e : ierror)
| EOutOfFuel.

Definition isImageIDPrefix (imageID possiblePrefix : string) : bool :=
  if HasPrefix imageID possiblePrefix then true
  else match Cut ":" imageID with
       | (_, Some rest) => HasPrefix rest possiblePrefix
       | (_, None) => false
       end.

(** The loop of [isSingleReference]: [None] is the early [return false]. *)
Fixpoint single_loop (refs : list Named) (singleRef : option Named) (canonicalRefs : gset string)
  : option (option Named * gset string) :=
  match refs with
  | [] => Some (singleRef, canonicalRefs)
  | r :: refs =>
      if isCanonical r then single_loop refs singleRef ({[ Name r ]} ∪ canonicalRefs)
      else match singleRef with
           | None => single_loop refs (Some r) canonicalRefs
           | Some _ => None
           end
  end.

Definition isSingleReference (repoRefs : list Named) : bool :=
  match repoRefs with
  | [] => false
  | [_] => true
  | r0 :: _ =>
      match single_loop repoRefs None ∅ with
      | None => false
      | Some (singleRef, canonicalRefs) =>
          let singleRef := default r0 singleRef in
          bool_decide (size canonicalRefs = 1) && bool_decide (Name singleRef ∈ canonicalRefs)
      end
  end.

Section daemon.
Context {LS : Type} `{!LayerGetReleaser LS}.

Record Daemon := mkDaemon {
  imageStore : @ImageStore.store LS;
  referenceStore : ReferenceStore.store;
  ref_io : list bool;                          (* [true]: the next save fails *)
  containers : memoryStore;
  events : list (string * ID * string);        (* action, image, name *)
  records : list ImageDeleteRecord;
}.

Definition set_imageStore (s : @ImageStore.store LS) (d : Daemon) : Daemon :=
  mkDaemon s (referenceStore d) (ref_io d) (containers d) (events d) (records d).
Definition set_referenceStore (s : ReferenceStore.store) (io : list bool) (d : Daemon) : Daemon :=
  mkDaemon (imageStore d) s io (containers d) (events d) (records d).
Definition set_events (e : list (string * ID * string)) (d : Daemon) : Daemon :=
  mkDaemon (imageStore d) (referenceStore d) (ref_io d) (containers d) e (records d).
Definition set_records (r : list ImageDeleteRecord) (d : Daemon) : Daemon :=
  mkDaemon (imageStore d) (referenceStore d) (ref_io d) (containers d) (events d) r.

Definition DM (A : Type) : Type := ST Daemon derror A.

Definition add_record (r : ImageDeleteRecord) : DM unit := st_modify (λ d, set_records (records d ++ [r]) d).

Definition LogImageEvent (imageID refName action : string) : DM unit :=
  st_modify (λ d, set_events (events d ++ [(action, imageID, refName)]) d).

(** [return nil, err]. *)
Definition return_nil (e : derror) : DM unit := _ ← st_modify (set_records []); st_fail e.

Context (G : Grammar) (FromBytes : string → string).
Context (Unmarshal : string → option Image) (Validate : string → bool).
Context (Lookup : gset ID → string → option ID).
Context (range : memoryStore → list Container) (late : bool).

(** ** Lookups *)

Definition First (f : Container → bool) (s : memoryStore) : option Container :=
  snd <$> list_find (λ c, f c = true) (range s).

Definition refs_of (id : ID) (d : Daemon) : list Named := References id (referenceStore d).

Definition GetImageID (refOrID : string) (d : Daemon) : outcome derror ID :=
  match ParseIDOrReference G refOrID with
  | Err e => Err (EReference e)
  | Panic m => Panic m
  | Ok (inl id) =>
      match ImageStore.Get FromBytes Unmarshal id (imageStore d) with
      | Ok _ => Ok id
      | Err _ => Err (EImageDoesNotExist refOrID)
      | Panic m => Panic m
      end
  | Ok (inr ref) =>
      match ReferenceStore.Get ref (referenceStore d) with
      | Ok id => Ok id
      | _ =>
          let by_tag :=
            match ref with
            | taggedRef n t =>
                match (Search Lookup t (imageStore d)).1 with
                | Ok id => if existsb (λ r, bool_decide (Name r = n)) (refs_of id d) then Some id else None
                | _ => None
                end
            | _ => None
            end in
          match by_tag with
          | Some id => Ok id
          | None => match (Search Lookup refOrID (imageStore d)).1 with
                    | Ok id => Ok id
                    | _ => Err (EImageDoesNotExist refOrID)
                    end
          end
      end
  end.

Definition imageNotExistToErrcode (err : derror) : derror :=
  match err with
  | EImageDoesNotExist refOrID =>
      if ContainsByte "@" refOrID then ENotFoundError ("No such image: " +:+ refOrID)
      else match ParseNamed G refOrID with
           | Ok ref =>
               let tag := match ref with taggedRef _ t => t | _ => DefaultTag end in
               ENotFoundError ("No such image: " +:+ Name ref +:+ ":" +:+ tag)
           | _ => ENotFoundError ("No such image: " +:+ refOrID +:+ ":" +:+ DefaultTag)
           end
  | _ => err
  end.

Definition getContainerUsingImage (imageID : ID) (d : Daemon) : option Container :=
  First (λ c, bool_decide (ImageID c = imageID)) (containers d).

(** ** Conflicts *)

Definition has (mask bit : N) : bool := negb (N.land mask bit =? 0)%N.

Definition checkImageDeleteConflict (id : ID) (mask : N) (d : Daemon) : option imageDeleteConflict :=
  let running := First (λ c, Running c && bool_decide (ImageID c = id)) (containers d) in
  let stopped := First (λ c, negb (Running c) && bool_decide (ImageID c = id)) (containers d) in
  if has mask conflictDependentChild && bool_decide (0 < length (Children id (imageStore d)))
  then Some (mkConflict true false id "image has dependent child images")
  else
    match (if has mask conflictRunningContainer then running else None) with
    | Some c => Some (mkConflict true true id ("image is being used by running container " +:+ TruncateID (cont_ID c)))
    | None =>
        if has mask conflictActiveReference && bool_decide (0 < length (refs_of id d))
        then Some (mkConflict false false id "image is referenced in one or more repositories")
        else
          match (if has mask conflictStoppedContainer then stopped else None) with
          | Some c => Some (mkConflict false true id ("image is being used by stopped container " +:+ TruncateID (cont_ID c)))
          | None => None
          end
    end.

Definition imageIsDangling (id : ID) (d : Daemon) : bool :=
  negb (bool_decide (0 < length (refs_of id d)) || bool_decide (0 < length (Children id (imageStore d)))).

(** ** Removing references *)

Definition removeImageRef (ref : Named) : DM Named := λ d,
  let ref := WithDefaultTag ref in
  let write_ok := match ref_io d with b :: _ => negb b | [] => true end in
  let '(deleted, err, s) := ReferenceStore.Delete write_ok ref (referenceStore d) in
  let d := set_referenceStore s (if deleted then tail (ref_io d) else ref_io d) d in
  (match err with None => Ok ref | Some e => Err (ERefStore e) end, d).

(** The loop of [removeAllReferencesToImageID], also that of [ImageDelete] on
    an image ID. *)
Fixpoint untag_all (id : ID) (refs : list Named) : DM unit :=
  match refs with
  | [] => mret tt
  | imageRef :: refs =>
      parsedRef ← removeImageRef imageRef;
      _ ← LogImageEvent id id "untag";
      _ ← add_record (Untagged (ref_String parsedRef));
      untag_all id refs
  end.

Definition removeAllReferencesToImageID (id : ID) : DM unit :=
  imageRefs ← st_gets (refs_of id);
  untag_all id imageRefs.

(** The digests of the repository [name] are removed, the other references
    returned. *)
Fixpoint untag_digests (name : string) (refs : list Named) : DM (list Named) :=
  match refs with
  | [] => mret []
  | repoRef :: refs =>
      if isCanonical repoRef && bool_decide (name = Name repoRef) then
        _ ← removeImageRef repoRef;
        _ ← add_record (Untagged (ref_String repoRef));
        untag_digests name refs
      else
        remainingRefs ← untag_digests name refs;
        mret (repoRef :: remainingRefs)
  end.

(** ** Deleting *)

Definition image_store_Delete (id : ID) : DM (list Metadata) := λ d,
  let '(o, s) := ImageStore.Delete FromBytes Validate id (imageStore d) in
  (match o with Ok l => Ok l | Err e => Err (EImageStore e) | Panic m => Panic m end, set_imageStore s d).

Fixpoint add_layers (l : list Metadata) : DM unit :=
  match l with
  | [] => mret tt
  | removedLayer :: l => _ ← add_record (Deleted (md_ChainID removedLayer)); add_layers l
  end.

(** One image, its parent returned. *)
Definition delete_image (id : ID) : DM ID :=
  s ← st_gets imageStore;
  let parent := match GetParent FromBytes id s with Ok p => p | _ => "" end in
  _ ← removeAllReferencesToImageID id;
  removedLayers ← image_store_Delete id;
  _ ← LogImageEvent id id "delete";
  _ ← add_record (Deleted id);
  _ ← add_layers removedLayers;
  mret parent.

Fixpoint imageDeleteHelper (fuel : nat) (id : ID) (force prune quiet : bool) : DM unit :=
  match fuel with
  | O => st_fail EOutOfFuel
  | S fuel =>
      let c := if force then conflictHard else N.lor conflictHard conflictSoft in
      d ← st_get;
      match checkImageDeleteConflict id c d with
      | Some conflict =>
          if quiet && (negb (imageIsDangling id d) || used conflict) then mret tt
          else st_fail (EConflict conflict)
      | None =>
          parent ← delete_image id;
          if negb prune || bool_decide (parent = "") then mret tt
          else imageDeleteHelper fuel parent false true true
      end
  end.

(** Every recursive call has one image less. *)
Definition helper_fuel (d : Daemon) : nat := S (size (images (imageStore d))).

(** [return records, daemon.imageDeleteHelper(imgID, &records, ...)]. *)
Definition finish (id : ID) (force prune quiet : bool) : DM unit := λ d,
  let '(o, d') := imageDeleteHelper (helper_fuel d) id force prune quiet d in
  (o, if late then d' else set_records (records d) d').

(** The branch for a repository reference. *)
Definition delete_by_reference (imageRef : string) (id : ID) (force prune : bool) : DM unit :=
  repoRefs ← st_gets (refs_of id);
  user ← st_gets (getContainerUsingImage id);
  match (if negb force && isSingleReference repoRefs then user else None) with
  | Some c => return_nil (EReferenceInUse imageRef (TruncateID (cont_ID c)) (TruncateID id))
  | None =>
      match ParseNamed G imageRef with
      | Err e => return_nil (EReference e)
      | Panic m => st_panic m
      | Ok parsedRef =>
          r ← st_try (removeImageRef parsedRef);
          match r with
          | inr e => return_nil e
          | inl parsedRef =>
              _ ← LogImageEvent id id "untag";
              _ ← add_record (Untagged (ref_String parsedRef));
              repoRefs ← st_gets (refs_of id);
              let foundRepoTagRef :=
                existsb (λ r, negb (isCanonical r) && bool_decide (Name parsedRef = Name r)) repoRefs in
              repoRefs ← (if isCanonical parsedRef || foundRepoTagRef then mret repoRefs
                          else untag_digests (Name parsedRef) repoRefs);
              if bool_decide (0 < length repoRefs) then mret tt
              else finish id force prune true
          end
      end
  end.

(** The branch for an image ID. *)
Definition delete_by_id (id : ID) (force prune : bool) : DM unit :=
  repoRefs ← st_gets (refs_of id);
  d ← st_get;
  if isSingleReference repoRefs then
    let c := if force then conflictHard
             else N.lor conflictHard (N.ldiff conflictSoft conflictActiveReference) in
    match checkImageDeleteConflict id c d with
    | Some conflict => return_nil (EConflict conflict)
    | None =>
        r ← st_try (untag_all id repoRefs);
        match r with
        | inr e => return_nil e
        | inl _ => finish id force prune false
        end
    end
  else finish id force prune false.

Definition ImageDelete (imageRef : string) (force prune : bool) : DM unit :=
  _ ← st_modify (set_records []);
  d ← st_get;
  match GetImageID imageRef d with
  | Err e => return_nil (imageNotExistToErrcode e)
  | Panic m => st_panic m
  | Ok id =>
      if negb (isImageIDPrefix id imageRef) then delete_by_reference imageRef id force prune
      else delete_by_id id force prune
  end.

(** ** Tagging *)

Definition TagImageWithReference (imageID : ID) (newTag : Named) : DM unit := λ d,
  let write_ok := match ref_io d with b :: _ => negb b | [] => true end in
  let '(err, s) := AddTag write_ok newTag imageID true (referenceStore d) in
  let io := match err with None | Some ErrSave => tail (ref_io d) | _ => ref_io d end in
  let d := set_referenceStore s io d in
  match err with
  | Some e => (Err (ERefStore e), d)
  | None => LogImageEvent imageID (ref_String newTag) "tag" d
  end.

Definition TagImage (imageName repository tag : string) : DM unit := λ d,
  match GetImageID imageName d with
  | Err e => (Err e, d)
  | Panic m => (Panic m, d)
  | Ok imageID =>
      match WithName G repository with
      | Err e => (Err (EReference e), d)
      | Panic m => (Panic m, d)
      | Ok newTag =>
          match (if bool_decide (tag ≠ "") then WithTag G newTag tag else Ok newTag) with
          | Err e => (Err (EReference e), d)
          | Panic m => (Panic m, d)
          | Ok newTag => TagImageWithReference imageID newTag d
          end
      end
  end.
End daemon.
