(* ===== verification/ImageDeleteSpec.v ===== *)
(** * daemon: what deleting an image does

    The abstract machine behind [ImageDelete], the refinement theorem and its
    consequences.  The machine sees the tags (one map from references to image
    IDs, as in [ReferenceStore]) and the children of every image; a step
    removes a tag of the target or drops an image that nothing depends on. *)

From S2P Require Import Prelude.
From S2P Require Import GoStrings.
From S2P Require Import Reference.
From S2P Require Import ReferenceStore.
From S2P Require Import LayerStore.
From S2P Require Import LayerInv.
From S2P Require Import LayerSafety.
From S2P Require Import ImageStore.
From S2P Require Import ContainerNames.
From S2P Require Import ImageDelete.

(** ** The abstract machine *)

Record view := mkView { tags : gmap Named ID; kids : gmap ID (gset ID) }.

Definition in_use (cs : memoryStore) (id : ID) : Prop := ∃ k c, cs !! k = Some c ∧ ImageID c = id.
Definition in_use_running (cs : memoryStore) (id : ID) : Prop :=
  ∃ k c, cs !! k = Some c ∧ ImageID c = id ∧ Running c = true.

(** The image is gone; of the others, at most its entry among the children. *)
Definition dropped (id : ID) (k k' : gmap ID (gset ID)) : Prop :=
  k' !! id = None ∧
  ∀ x, x ≠ id → match k !! x, k' !! x with
                | Some a, Some b => b ⊆ a ∧ a ⊆ {[ id ]} ∪ b
                | None, None => True
                | _, _ => False
                end.

Inductive label := LUntag (r : Named) (logged : bool) | LDrop (id : ID) (layers : list Metadata).

Inductive dstep (cs : memoryStore) (force : bool) (tgt : ID) : label → view → view → Prop :=
| step_untag r logged t k :
    t !! r = Some tgt →
    dstep cs force tgt (LUntag r logged) (mkView t k) (mkView (delete r t) k)
| step_drop id layers t k k' :
    k !! id = Some ∅ → (∀ r, t !! r ≠ Some id) → ¬ in_use_running cs id →
    (¬ in_use cs id ∨ force = true ∧ id = tgt) → dropped id k k' →
    dstep cs force tgt (LDrop id layers) (mkView t k) (mkView t k').

Inductive dsteps (cs : memoryStore) (force : bool) (tgt : ID) : view → list label → view → Prop :=
| steps_nil v : dsteps cs force tgt v [] v
| steps_cons l tr v1 v2 v3 :
    dstep cs force tgt l v1 v2 → dsteps cs force tgt v2 tr v3 → dsteps cs force tgt v1 (l :: tr) v3.

(** What the steps are reported as. *)
Definition record_of (l : label) : list ImageDeleteRecord :=
  match l with
  | LUntag r _ => [Untagged (ref_String r)]
  | LDrop id layers => Deleted id :: (Deleted ∘ md_ChainID <$> layers)
  end.
Definition event_of (tgt : ID) (l : label) : list (string * ID * string) :=
  match l with
  | LUntag _ true => [("untag", tgt, tgt)]
  | LUntag _ false => []
  | LDrop id _ => [("delete", id, id)]
  end.
Definition recs (tr : list label) : list ImageDeleteRecord := concat (record_of <$> tr).
Definition evs (tgt : ID) (tr : list label) : list (string * ID * string) := concat (event_of tgt <$> tr).

Definition drops (tr : list label) : list ID :=
  omap (λ l, match l with LDrop id _ => Some id | LUntag _ _ => None end) tr.
Definition untags (tr : list label) : list Named :=
  omap (λ l, match l with LUntag r _ => Some r | LDrop _ _ => None end) tr.

(** The images dropped are [id], its parent, and so on. *)
Fixpoint lineage (par : ID → outcome ierror ID) (id : ID) (l : list ID) : Prop :=
  match l with
  | [] => True
  | x :: l' => x = id ∧ (l' = [] ∨ ∃ p, par id = Ok p ∧ lineage par p l')
  end.

Section machine.
Context (cs : memoryStore) (force : bool) (tgt : ID).
Abbreviation step := (dstep cs force tgt).
Abbreviation steps := (dsteps cs force tgt).

Lemma steps_app v1 tr1 v2 tr2 v3 : steps v1 tr1 v2 → steps v2 tr2 v3 → steps v1 (tr1 ++ tr2) v3.
Proof. induction 1; simpl; [done|]. intros. econstructor; eauto. Qed.

Lemma steps_one l v v' : step l v v' → steps v [l] v'.
Proof. intros. econstructor; [done|constructor]. Qed.

Lemma recs_app tr1 tr2 : recs (tr1 ++ tr2) = recs tr1 ++ recs tr2.
Proof. unfold recs. by rewrite fmap_app, concat_app. Qed.
Lemma evs_app tr1 tr2 : evs tgt (tr1 ++ tr2) = evs tgt tr1 ++ evs tgt tr2.
Proof. unfold evs. by rewrite fmap_app, concat_app. Qed.
Lemma drops_app tr1 tr2 : drops (tr1 ++ tr2) = drops tr1 ++ drops tr2.
Proof. apply omap_app. Qed.

(** Tags: those of the target that were removed are gone, the others kept. *)
Lemma steps_tags v tr v' :
  steps v tr v' →
  (∀ r, r ∈ untags tr → tags v !! r = Some tgt) ∧
  ∀ r, tags v' !! r = if decide (r ∈ untags tr) then None else tags v !! r.
Proof.
  induction 1 as [v|l tr v1 v2 v3 Hl _ [IH1 IH2]].
  { split; [by intros r ?%elem_of_nil|]. intros r. by rewrite decide_False by apply not_elem_of_nil. }
  inversion Hl as [r logged t k Hr|id layers t k k' ????? ]; subst; simpl in *.
  - split.
    + intros r' [->|Hr']%elem_of_cons; [done|]. apply IH1 in Hr'. by apply lookup_delete_Some in Hr' as [_ ?].
    + intros r'. rewrite IH2. destruct (decide (r' ∈ untags tr)) as [|Hn].
      * rewrite decide_True by (by right). done.
      * destruct (decide (r' = r)) as [->|].
        -- rewrite decide_True by (by left). apply lookup_delete_eq.
        -- rewrite decide_False by (by rewrite not_elem_of_cons). by rewrite lookup_delete_ne.
  - done.
Qed.

Lemma step_kids_mono l v v' x : step l v v' → kids v !! x = None → kids v' !! x = None.
Proof.
  destruct 1 as [|id layers t k k' Hk _ _ _ [Hd Hd']]; simpl; [done|]. intros Hx.
  destruct (decide (x = id)) as [->|Hne]; [done|].
  specialize (Hd' x Hne). rewrite Hx in Hd'. by destruct (k' !! x).
Qed.

Lemma steps_kids_mono v tr v' x : steps v tr v' → kids v !! x = None → kids v' !! x = None.
Proof. induction 1; eauto using step_kids_mono. Qed.

(** An image that is not there is not dropped. *)
Lemma steps_drops_alive v tr v' x : steps v tr v' → kids v !! x = None → x ∉ drops tr.
Proof.
  induction 1 as [v|l tr v1 v2 v3 Hl _ IH]; intros Hx; [by apply not_elem_of_nil|].
  pose proof (step_kids_mono l v1 v2 x Hl Hx) as Hx2. apply IH in Hx2.
  destruct Hl as [|id layers t k k' Hk]; simpl in *; [done|].
  rewrite not_elem_of_cons. split; [|done]. intros ->. congruence.
Qed.

(** The images that disappear are those dropped. *)
Lemma steps_gone v tr v' x :
  steps v tr v' → kids v !! x ≠ None → kids v' !! x = None ↔ x ∈ drops tr.
Proof.
  induction 1 as [v|l tr v1 v2 v3 Hl Hs IH]; intros Hx.
  { simpl. rewrite elem_of_nil. naive_solver. }
  destruct Hl as [|id layers t k k' Hk _ _ _ [Hd Hd']]; simpl in *; [by apply IH|].
  rewrite elem_of_cons. destruct (decide (x = id)) as [->|Hne].
  - split; [by left|]. intros _. by eapply steps_kids_mono.
  - specialize (Hd' x Hne). destruct (k !! x); [|done]. destruct (k' !! x); [|done].
    rewrite IH by done. naive_solver.
Qed.

(** [v'] has fewer images than [v]: whoever lost a child lost it for good, and
    an image goes after its children. *)
Definition closed (v v' : view) : Prop :=
  ∀ x a, kids v !! x = Some a → ∀ c, c ∈ a →
    kids v' !! c = None ∨ ∃ b, kids v' !! x = Some b ∧ c ∈ b.

Lemma step_closed l v v' : step l v v' → closed v v'.
Proof.
  destruct 1 as [r logged t k|id layers t k k' Hk _ _ _ [Hd Hd']]; intros x a Hx c Hc; simpl in *; [eauto|].
  destruct (decide (x = id)) as [->|Hne]; [rewrite Hx in Hk; set_solver|].
  specialize (Hd' x Hne). rewrite Hx in Hd'. destruct (k' !! x) as [b|]; [|done].
  destruct (decide (c = id)) as [->|]; [by left|]. right. exists b. set_solver.
Qed.

Lemma steps_closed v tr v' : steps v tr v' → closed v v'.
Proof.
  induction 1 as [v|l tr v1 v2 v3 Hl Hs IH]; intros x a Hx c Hc; [eauto|].
  destruct (step_closed l v1 v2 Hl x a Hx c Hc) as [Hn|(b & Hb & Hcb)].
  - left. by eapply steps_kids_mono.
  - by eapply IH.
Qed.

(** Every drop leaves one image less. *)
Lemma steps_size v tr v' : steps v tr v' → size (kids v') + length (drops tr) = size (kids v).
Proof.
  induction 1 as [v|l tr v1 v2 v3 Hl _ IH]; simpl; [lia|].
  destruct Hl as [|id layers t k k' Hk _ _ _ [Hd Hd']]; simpl in *; [done|].
  assert (dom k' = dom k ∖ {[ id ]}) as Hdom.
  { apply set_eq. intros x. rewrite elem_of_difference, elem_of_singleton, !elem_of_dom.
    destruct (decide (x = id)) as [->|Hne]; [rewrite Hd; split; [by intros [? ?]|naive_solver]|].
    specialize (Hd' x Hne). destruct (k !! x), (k' !! x); try done; naive_solver. }
  rewrite <-!size_dom in *. rewrite Hdom, size_difference, size_singleton in IH.
  - assert (size (dom k) ≠ 0); [|lia]. intros ?%size_empty_inv. apply elem_of_dom_2 in Hk. set_solver.
  - apply elem_of_dom_2 in Hk. set_solver.
Qed.

(** What is known of a dropped image at the start. *)
Lemma steps_drop_safe v tr v' x :
  steps v tr v' → x ∈ drops tr →
  ¬ in_use_running cs x ∧ (¬ in_use cs x ∨ force = true ∧ x = tgt) ∧
  (x ≠ tgt → ∀ r, tags v !! r ≠ Some x) ∧ ∀ r, tags v' !! r ≠ Some x.
Proof.
  intros Hs. induction Hs as [v|l tr v1 v2 v3 Hl Hs IH]; [by intros ?%elem_of_nil|].
  destruct (steps_tags _ _ _ Hs) as [_ Ht3].
  destruct Hl as [r logged t k Hr|id layers t k k' Hk Hnt Hrun Huse Hd]; simpl in *.
  - intros Hx. destruct (IH Hx) as (H1 & H2 & H3 & H4). split_and!; try done.
    intros Hne r' Hr'. apply (H3 Hne r'). rewrite lookup_delete_ne; [done|]. intros ->. congruence.
  - intros [->|Hx]%elem_of_cons; [|by apply IH].
    split_and!; [done..|intros _; apply Hnt|]. intros r Hr. rewrite Ht3 in Hr. case_decide; [done|]. by apply (Hnt r).
Qed.
End machine.

Lemma lineage_ext par par' id l :
  (∀ x, x ∈ l → par x = par' x) → lineage par id l → lineage par' id l.
Proof.
  revert id. induction l as [|x l IH]; intros id He; simpl; [done|].
  intros [-> [->|(p & Hp & Hl)]]; split; try done; [by left|right].
  exists p. rewrite <-(He id) by (by left). split; [done|]. apply IH; [|done]. intros y Hy. apply He. by right.
Qed.

(** ** Facts about the stores *)

Lemma fs_Delete_other id b x k :
  x ≠ id → content (fs_Delete id b).2 !! x = content b !! x ∧
           metadata (fs_Delete id b).2 !! (x, k) = metadata b !! (x, k).
Proof.
  intros Hx. assert (∀ b, content (tick b).2 = content b ∧ metadata (tick b).2 = metadata b) as Ht.
  { intros b'. unfold tick. by destruct (io b'). }
  assert (filter (λ kv : (ID * string) * string, kv.1.1 ≠ id) (metadata b) !! (x, k) = metadata b !! (x, k)) as Hf.
  { destruct (metadata b !! (x, k)) as [y|] eqn:E.
    - by apply map_lookup_filter_Some.
    - apply map_lookup_filter_None. by left. }
  unfold fs_Delete. destruct (Ht b) as [Hc Hm]. destruct (tick b) as [ok1 b1]. simpl in *.
  destruct ok1; simpl; [|by rewrite Hc, Hm].
  set (b2 := mkFS _ _ _). destruct (Ht b2) as [Hc2 Hm2]. destruct (tick b2) as [ok2 b3]. simpl in *.
  destruct ok2; [|simpl; rewrite Hc2, Hm2; simpl; by rewrite Hc, Hm].
  destruct (content b3 !! id); simpl; rewrite ?lookup_delete_ne by done; rewrite Hc2, Hm2; simpl; by rewrite Hc, Hm.
Qed.

Section stores.
Context {LS : Type} `{!LayerGetReleaser LS} (FromBytes : string → string) (Validate : string → bool).
Abbreviation istore := (@ImageStore.store LS).
Implicit Types (s : istore).

Definition children_map s : gmap ID (gset ID) := im_children <$> images s.

Lemma unlink_dropped id s :
  dropped id (children_map s) (im_children <$> delete id (images (unlink_parent FromBytes id s).2)).
Proof.
  split; [by rewrite lookup_fmap, lookup_delete_eq|]. intros x Hx. unfold children_map.
  rewrite !lookup_fmap, lookup_delete_ne by done. unfold unlink_parent, st_modify. simpl.
  destruct (GetParent FromBytes id s) as [p| |]; try (destruct (images s !! x); simpl; set_solver).
  destruct (images s !! p) as [pm|] eqn:Hp; [|destruct (images s !! x); simpl; set_solver]. simpl.
  destruct (decide (x = p)) as [->|].
  - rewrite Hp, lookup_insert_eq. simpl. split; [set_solver|]. intros c Hc.
    destruct (decide (c = id)); set_solver.
  - rewrite lookup_insert_ne by done. destruct (images s !! x); simpl; set_solver.
Qed.

(** [Delete] on an image without children. *)
Lemma Delete_dropped id s o s' :
  ImageStore.Delete FromBytes Validate id s = (o, s') →
  (images s !! id = None ∧ s' = s ∧ o = Err EUnrecognized) ∨
  ∃ meta, images s !! id = Some meta ∧
    (im_children meta = ∅ →
       dropped id (children_map s) (children_map s') ∧
       ∀ x, x ≠ id → GetParent FromBytes x s' = GetParent FromBytes x s).
Proof.
  destruct (images s !! id) as [meta|] eqn:Hm.
  2:{ unfold ImageStore.Delete, mbind, ST_bind, st_gets. rewrite Hm. intros [= <- <-]. by left. }
  rewrite (Delete_entry FromBytes Validate id s meta Hm). intros E. right. exists meta. split; [done|]. intros Hc.
  destruct (delete_entry_spec FromBytes Validate id meta s) as (s1 & E1 & _ & Him & Hb).
  unfold mbind, ST_bind, mret, ST_ret in E. rewrite E1 in E.
  assert (images s' = images s1 ∧ backend s' = backend s1) as [Hi' Hb'].
  { destruct (im_layer meta) as [h|]; [|by simplify_eq]. unfold on_ls in E.
    destruct (lgr_Release h (ls s1)) as [o1 l]. by simplify_eq. }
  rewrite Hc, elements_empty in Him, Hb. cbn [foldl] in Him, Hb.
  assert (with_backend (backend s) s = s) as Hs by (by destruct s). rewrite Hs in Him, Hb.
  rewrite unlink_backend in Hb. split.
  - unfold children_map at 2. rewrite Hi', Him. apply unlink_dropped.
  - intros x Hx. unfold GetParent, fs_GetMetadata, fs_Get. rewrite Hb', Hb.
    destruct (fs_Delete_other id (backend s) x "parent" Hx) as [-> ->]. done.
Qed.
End stores.

(** ** References of one repository *)

Lemma single_loop_eq l s c :
  single_loop l s c =
    match option_list s ++ filter (λ r, isCanonical r = false) l with
    | [] => Some (None, list_to_set (Name <$> filter (λ r, isCanonical r = true) l) ∪ c)
    | [x] => Some (Some x, list_to_set (Name <$> filter (λ r, isCanonical r = true) l) ∪ c)
    | _ => None
    end.
Proof.
  revert s c. induction l as [|r l IH]; intros s c; simpl.
  { rewrite app_nil_r, union_empty_l_L. by destruct s. }
  rewrite !filter_cons. destruct (isCanonical r) eqn:Hr.
  - rewrite IH. do 2 (case_decide; try congruence). simpl.
    assert (∀ X : gset string, X ∪ ({[Name r]} ∪ c) = {[Name r]} ∪ X ∪ c) as HX by (intros; set_solver).
    by rewrite HX.
  - do 2 (case_decide; try congruence). destruct s as [x|]; simpl; [done|]. by rewrite IH.
Qed.

Lemma split_length l :
  length (filter (λ r, isCanonical r = false) l) + length (filter (λ r, isCanonical r = true) l) = length l.
Proof.
  induction l as [|r l IH]; [done|]. rewrite !filter_cons. simpl.
  destruct (isCanonical r); repeat (case_decide; try congruence); simpl; lia.
Qed.

(** [isSingleReference] is what its comment says: there are references, all of
    one repository, with at most one tag among them. *)
Theorem isSingleReference_spec l :
  isSingleReference l = true ↔
  l ≠ [] ∧ (∀ r r', r ∈ l → r' ∈ l → Name r = Name r') ∧ length (filter (λ r, isCanonical r = false) l) ≤ 1.
Proof.
  destruct l as [|r0 [|r1 l]]; simpl; [naive_solver|..].
  { split; [intros _|done]. split_and!; [done| |rewrite filter_cons; case_decide; simpl; lia].
    intros r r' ->%list_elem_of_singleton ->%list_elem_of_singleton. done. }
  set (l' := r0 :: r1 :: l). change (if isCanonical r0 then _ else _) with (single_loop l' None ∅).
  rewrite single_loop_eq, union_empty_r_L. simpl.
  set (T := filter (λ r, isCanonical r = false) l'). set (C := filter (λ r, isCanonical r = true) l').
  assert (∀ r, r ∈ l' ↔ r ∈ T ∨ r ∈ C) as Hl.
  { intros r. unfold T, C. rewrite !list_elem_of_filter. destruct (isCanonical r); naive_solver. }
  assert (∀ n : string, size (list_to_set (Name <$> C) : gset string) = 1 → n ∈ (list_to_set (Name <$> C) : gset string) →
          ∀ r, r ∈ C → Name r = n) as Hone.
  { intros n [x Hx]%size_1_elem_of Hn r Hr. assert (Name r ∈ (list_to_set (Name <$> C) : gset string)) as Hr'
      by (apply elem_of_list_to_set, list_elem_of_fmap; eauto).
    rewrite Hx, elem_of_singleton in Hn, Hr'. congruence. }
  assert (∀ n : string, C ≠ [] → (∀ r, r ∈ C → Name r = n) →
          (list_to_set (Name <$> C) : gset string) = {[ n ]}) as Hsingle.
  { intros n HC Hn. apply set_eq. intros x. rewrite elem_of_list_to_set, list_elem_of_fmap, elem_of_singleton.
    destruct C as [|c0 C']; [done|]. split; [naive_solver|]. intros ->. exists c0. split; [symmetry; apply Hn; by left|by left]. }
  assert (length T + length C = length l') as Hlen.
  { apply split_length. }
  destruct T as [|t [|t' T']] eqn:HT; simpl.
  - rewrite andb_true_iff, !bool_decide_eq_true. split.
    + intros [H1 H2]. assert (∀ r, r ∈ l' → Name r = Name r0) as Hn.
      { intros r [[]%elem_of_nil|Hr]%Hl. by apply Hone. }
      split_and!; [done| |lia]. intros r r' Hr Hr'. by rewrite (Hn r), (Hn r').
    + intros (_ & Hn & _). rewrite (Hsingle (Name r0)).
      * by rewrite size_singleton, elem_of_singleton.
      * intros ->. simpl in Hlen. lia.
      * intros r Hr. apply Hn; [apply Hl; by right|by left].
  - rewrite andb_true_iff, !bool_decide_eq_true. split.
    + intros [H1 H2]. assert (∀ r, r ∈ l' → Name r = Name t) as Hn.
      { intros r [->%list_elem_of_singleton|Hr]%Hl; [done|]. by apply Hone. }
      split_and!; [done| |lia]. intros r r' Hr Hr'. by rewrite (Hn r), (Hn r').
    + intros (_ & Hn & _). rewrite (Hsingle (Name t)).
      * by rewrite size_singleton, elem_of_singleton.
      * intros ->. simpl in Hlen. lia.
      * intros r Hr. apply Hn; apply Hl; [by right|left; by left].
  - split; [done|]. intros (_ & _ & ?). lia.
Qed.

(** ** The operations as steps *)

Section refine.
Context {LS : Type} `{!LayerGetReleaser LS}.
Context (G : Grammar) `{!GrammarLaws G} (FromBytes : string → string).
Context (Unmarshal : string → option Image) (Validate : string → bool).
Context (Lookup : gset ID → string → option ID).
Context (range : memoryStore → list Container) (late : bool).
(** A range over a map visits each entry. *)
Context (range_all : ∀ s c, c ∈ range s ↔ ∃ k, s !! k = Some c).

Abbreviation Daemon := (@ImageDelete.Daemon LS).
Implicit Types (d : Daemon) (m : spec).

Definition view_of (m : spec) (d : Daemon) : view := mkView m (children_map (imageStore d)).
Definition parent_in (d : Daemon) (x : ID) : outcome ierror ID := GetParent FromBytes x (imageStore d).

Lemma First_None f s : First range f s = None → ∀ k c, s !! k = Some c → f c = false.
Proof.
  unfold First. intros H k c Hk. apply fmap_None, list_find_None in H.
  rewrite Forall_forall in H. destruct (f c) eqn:E; [|done].
  exfalso. apply (H c); [|done]. apply range_all. eauto.
Qed.

Lemma Children_kids id d : Children id (imageStore d) = [] → ∀ a, children_map (imageStore d) !! id = Some a → a = ∅.
Proof.
  unfold Children, children_map. intros H a. rewrite lookup_fmap. destruct (images _ !! id) as [m|]; [|done].
  intros [= <-]. apply elements_empty_iff in H. by apply leibniz_equiv.
Qed.

(** An image without conflicts for the mask of [imageDeleteHelper]. *)
Lemma check_None id (force : bool) d :
  checkImageDeleteConflict range id (if force then conflictHard else N.lor conflictHard conflictSoft) d = None →
  Children id (imageStore d) = [] ∧ ¬ in_use_running (containers d) id ∧
  (force = false → refs_of id d = [] ∧ ¬ in_use (containers d) id).
Proof.
  unfold checkImageDeleteConflict.
  assert (∀ b : bool, has (if b then conflictHard else N.lor conflictHard conflictSoft) conflictDependentChild = true ∧
               has (if b then conflictHard else N.lor conflictHard conflictSoft) conflictRunningContainer = true ∧
               has (if b then conflictHard else N.lor conflictHard conflictSoft) conflictActiveReference = negb b ∧
               has (if b then conflictHard else N.lor conflictHard conflictSoft) conflictStoppedContainer = negb b) as Hm
    by (by intros []).
  destruct (Hm force) as (-> & -> & -> & ->). clear Hm. simpl.
  case_bool_decide as Hc; [done|].
  destruct (First range (λ c, Running c && bool_decide (ImageID c = id)) _) as [c|] eqn:Hr; [done|]. intros H.
  assert (¬ in_use_running (containers d) id) as Hrun.
  { intros (k & c & Hk & Hi & HR). pose proof (First_None _ _ Hr k c Hk) as Hf. simpl in Hf.
    by rewrite HR, bool_decide_eq_true_2 in Hf. }
  split_and!; [by destruct (Children _ _); simpl in *; [|lia]|done|]. intros ->. simpl in H.
  case_bool_decide as Href; [done|]. destruct (First range (λ c, negb (Running c) && bool_decide (ImageID c = id)) _) as [c|] eqn:Hs; [done|].
  split; [by destruct (refs_of _ _); simpl in *; [|lia]|]. intros (k & c & Hk & Hi).
  pose proof (First_None _ _ Hs k c Hk) as Hf. simpl in Hf.
  rewrite (bool_decide_eq_true_2 _ Hi), andb_true_r in Hf. apply Hrun. exists k, c. by destruct (Running c).
Qed.

Lemma refs_of_spec id d m r :
  sim (referenceStore d) m → r ∈ refs_of id d ↔ m !! r = Some id.
Proof.
  intros Hs. unfold refs_of. rewrite (References_spec id _ m Hs). unfold spec_references.
  rewrite merge_sort_Permutation, list_elem_of_fmap. split.
  - intros ([r' i] & -> & [Hk Hi]%elem_of_map_to_list%map_lookup_filter_Some). simpl in *. by subst.
  - intros Hm. exists (r, id). split; [done|]. by apply elem_of_map_to_list, map_lookup_filter_Some.
Qed.

Lemma refs_of_NoDup id d m : sim (referenceStore d) m → NoDup (refs_of id d).
Proof.
  intros Hs. unfold refs_of. rewrite (References_spec id _ m Hs). unfold spec_references.
  rewrite merge_sort_Permutation. apply NoDup_fst_map_to_list.
Qed.

(** [removeImageRef]: the reference is removed, or it was not there, or the
    file was not written. *)
Lemma removeImageRef_spec ref d m o d' :
  sim (referenceStore d) m → wf_ref ref → removeImageRef ref d = (o, d') →
  imageStore d' = imageStore d ∧ containers d' = containers d ∧ events d' = events d ∧ records d' = records d ∧
  let r := WithDefaultTag ref in
  (o = Err (ERefStore ErrDoesNotExist) ∧ m !! r = None ∧ sim (referenceStore d') m) ∨
  (is_Some (m !! r) ∧ (o = Ok r ∨ o = Err (ERefStore ErrSave)) ∧ sim (referenceStore d') (delete r m)).
Proof.
  intros Hs Hw. unfold removeImageRef. set (w := match ref_io d with [] => true | b :: _ => negb b end).
  assert (wf_ref (WithDefaultTag ref)) as Hw' by (by destruct (WithDefaultTag_wf ref Hw)).
  pose proof (Delete_sim w (WithDefaultTag ref) (referenceStore d) m Hs Hw') as H. simpl in H.
  assert (WithDefaultTag (WithDefaultTag ref) = WithDefaultTag ref) as Hi by (by destruct ref). rewrite Hi in H.
  destruct (ReferenceStore.Delete w (WithDefaultTag ref) (referenceStore d)) as [[b e] s] eqn:E.
  simpl in H. intros [= <- <-]. simpl. split_and!; try done.
  case_bool_decide as Hm; simpl in H; destruct H as [H1 H2]; simplify_eq.
  - right. split_and!; [done| |done]. destruct w; [by left|by right].
  - left. split_and!; [done| |done]. by apply eq_None_not_Some.
Qed.

Section target.
Context (force : bool) (tgt : ID).

(** From [d] with the tags [m], the steps [tr] were made; with [full], the
    records and events of all of them were added. *)
Record ran (full : bool) (d : Daemon) (m : spec) (tr : list label) (d' : Daemon) (m' : spec) : Prop := mkRan {
  ran_sim : sim (referenceStore d') m';
  ran_conts : containers d' = containers d;
  ran_steps : dsteps (containers d) force tgt (view_of m d) tr (view_of m' d');
  ran_log : full = true → records d' = records d ++ recs tr ∧ events d' = events d ++ evs tgt tr;
  ran_parent : ∀ x, x ∉ drops tr → parent_in d' x = parent_in d x;
}.

Lemma ran_refl b d m : sim (referenceStore d) m → ran b d m [] d m.
Proof. intros Hs. constructor; try done; [constructor|]. unfold recs, evs. simpl. by rewrite !app_nil_r. Qed.

Lemma ran_trans b d m tr d1 m1 tr' d2 m2 :
  ran true d m tr d1 m1 → ran b d1 m1 tr' d2 m2 → ran b d m (tr ++ tr') d2 m2.
Proof.
  intros [A1 A2 A3 A4 A5] [B1 B2 B3 B4 B5]. constructor; [done|congruence|..].
  - rewrite A2 in B3. by eapply steps_app.
  - intros ->. destruct (A4 eq_refl) as [R1 V1], (B4 eq_refl) as [R2 V2].
    rewrite R2, R1, V2, V1, recs_app, evs_app, !app_assoc. done.
  - intros x. rewrite drops_app, not_elem_of_app. intros [? ?]. rewrite B5, A5; done.
Qed.

Lemma ran_weaken b d m tr d' m' : ran true d m tr d' m' → ran b d m tr d' m'.
Proof. intros [????]. constructor; auto. Qed.

(** A step that only changes the tags. *)
Lemma ran_untag b r (logged : bool) d m d' :
  m !! r = Some tgt → sim (referenceStore d') (delete r m) →
  imageStore d' = imageStore d → containers d' = containers d →
  (b = true → records d' = records d ++ [Untagged (ref_String r)] ∧
              events d' = events d ++ (if logged then [("untag", tgt, tgt)] else [])) →
  ran b d m [LUntag r logged] d' (delete r m).
Proof.
  intros Hr Hs Hi Hc Hl. constructor; [done|done|..].
  - apply steps_one. unfold view_of. rewrite Hi. by constructor.
  - intros E. destruct (Hl E) as [-> ->]. unfold recs, evs. simpl. by destruct logged.
  - intros x _. unfold parent_in. by rewrite Hi.
Qed.

Lemma stored_WithDefaultTag r : stored r → WithDefaultTag r = r.
Proof. intros [_ H]. by destruct r. Qed.

(** Removing tags of the target one after the other. *)
Lemma untag_all_ran refs d m o d' :
  sim (referenceStore d) m → NoDup refs → (∀ r, r ∈ refs → m !! r = Some tgt) →
  untag_all tgt refs d = (o, d') →
  ∃ tr m', ran (is_ok o) d m tr d' m' ∧ drops tr = [] ∧ imageStore d' = imageStore d ∧ panics o = false ∧
    (o = Ok tt → ∀ r, m' !! r = if decide (r ∈ refs) then None else m !! r).
Proof.
  revert d m. induction refs as [|r refs IH]; intros d m Hs Hnd Hr E; simpl in E.
  { unfold mret, ST_ret in E. simplify_eq. exists [], m. split_and!; try done. by apply ran_refl. }
  apply NoDup_cons in Hnd as [Hni Hnd]. unfold mbind at 1, ST_bind at 1 in E.
  assert (m !! r = Some tgt) as Hmr by (apply Hr; by left).
  assert (stored r) as Hst by (by eapply sim_stored).
  destruct (removeImageRef r d) as [o1 d1] eqn:E1.
  destruct (removeImageRef_spec r d m o1 d1 Hs (proj1 Hst) E1) as (Hi & Hc & Hev & Hrec & Hcase).
  rewrite (stored_WithDefaultTag r Hst) in Hcase.
  destruct Hcase as [(_ & Hn & _)|(_ & [->| ->] & Hs1)]; [congruence| |].
  - set (d2 := set_records (records d1 ++ [Untagged (ref_String r)])
                 (set_events (events d1 ++ [("untag", tgt, tgt)]) d1)).
    change (untag_all tgt refs d2 = (o, d')) in E.
    assert (ran true d m [LUntag r true] d2 (delete r m)) as HR.
    { apply ran_untag; try done. unfold d2. simpl. by rewrite Hev, Hrec. }
    destruct (IH d2 (delete r m)) as (tr & m' & HR' & Hd & Hi' & Hp & Hm'); [done|done| |done|].
    { intros r' Hr'. rewrite lookup_delete_ne by (by intros ->). apply Hr. by right. }
    exists ([LUntag r true] ++ tr), m'. split_and!; [by eapply ran_trans|done|by rewrite Hi'|done|].
    intros Ho r'. rewrite (Hm' Ho). rewrite lookup_delete.
    destruct (decide (r' = r)) as [->|Hne].
    + rewrite (decide_True (P := r = r)) by done. rewrite (decide_True (P := r ∈ r :: refs)) by (by left). by case_decide.
    + rewrite (decide_False (P := r = r')) by done.
      destruct (decide (r' ∈ refs)).
      * by rewrite decide_True by (by right).
      * rewrite decide_False; [done|]. by rewrite not_elem_of_cons.
  - simplify_eq. exists [LUntag r true], (delete r m). split_and!; try done. by apply ran_untag.
Qed.

Lemma untag_digests_ran name refs d m o d' :
  sim (referenceStore d) m → NoDup refs → (∀ r, r ∈ refs → m !! r = Some tgt) →
  untag_digests name refs d = (o, d') →
  ∃ tr m', ran (is_ok o) d m tr d' m' ∧ drops tr = [] ∧ imageStore d' = imageStore d ∧ panics o = false.
Proof.
  revert d m o d'. induction refs as [|r refs IH]; intros d m o d' Hs Hnd Hr E; simpl in E.
  { unfold mret, ST_ret in E. simplify_eq. exists [], m. split_and!; try done. by apply ran_refl. }
  apply NoDup_cons in Hnd as [Hni Hnd].
  assert (m !! r = Some tgt) as Hmr by (apply Hr; by left).
  assert (stored r) as Hst by (by eapply sim_stored).
  destruct (isCanonical r && _).
  - unfold mbind at 1, ST_bind at 1 in E. destruct (removeImageRef r d) as [o1 d1] eqn:E1.
    destruct (removeImageRef_spec r d m o1 d1 Hs (proj1 Hst) E1) as (Hi & Hc & Hev & Hrec & Hcase).
    rewrite (stored_WithDefaultTag r Hst) in Hcase.
    destruct Hcase as [(_ & Hn & _)|(_ & [->| ->] & Hs1)]; [congruence| |].
    + set (d2 := set_records (records d1 ++ [Untagged (ref_String r)]) d1).
      change (untag_digests name refs d2 = (o, d')) in E.
      assert (ran true d m [LUntag r false] d2 (delete r m)) as HR.
      { apply ran_untag; try done. unfold d2. simpl. by rewrite Hev, Hrec, app_nil_r. }
      destruct (IH d2 (delete r m) o d') as (tr & m' & HR' & Hd & Hi' & Hp); [done|done| |done|].
      { intros r' Hr'. rewrite lookup_delete_ne by (by intros ->). apply Hr. by right. }
      exists ([LUntag r false] ++ tr), m'. split_and!; [by eapply ran_trans|done|by rewrite Hi'|done].
    + simplify_eq. exists [LUntag r false], (delete r m). split_and!; try done. by apply ran_untag.
  - unfold mbind, ST_bind, mret, ST_ret in E. destruct (untag_digests name refs d) as [o1 d1] eqn:E1.
    destruct (IH d m o1 d1 Hs Hnd) as (tr & m' & HR & Hd & Hi & Hp); [|done|].
    { intros r' ?. apply Hr. by right. }
    exists tr, m'. destruct o1; by simplify_eq.
Qed.

(** All references to the image go: it is the target, or it has none. *)
Lemma remove_all_ran id d m o d' :
  sim (referenceStore d) m → id = tgt ∨ refs_of id d = [] →
  removeAllReferencesToImageID id d = (o, d') →
  ∃ tr m', ran (is_ok o) d m tr d' m' ∧ drops tr = [] ∧ imageStore d' = imageStore d ∧ panics o = false ∧
    (o = Ok tt → ∀ r, m' !! r ≠ Some id).
Proof.
  intros Hs Hid E. unfold removeAllReferencesToImageID, mbind, ST_bind, st_gets in E.
  pose proof (λ r, refs_of_spec id d m r Hs) as Href. destruct Hid as [->|Hn].
  - destruct (untag_all_ran (refs_of tgt d) d m o d' Hs) as (tr & m' & HR & Hd & Hi & Hp & Hm);
      [by eapply refs_of_NoDup|by intros r ?%Href|done|].
    exists tr, m'. split_and!; try done. intros Ho r. rewrite (Hm Ho). case_decide as Hr; [done|]. by rewrite <-Href.
  - rewrite Hn in E, Href. simpl in E. unfold mret, ST_ret in E. simplify_eq. exists [], m.
    split_and!; try done; [by apply ran_refl|]. intros _ r Hr%Href. by apply elem_of_nil in Hr.
Qed.

Lemma add_layers_eq l d : add_layers l d = (Ok tt, set_records (records d ++ (Deleted ∘ md_ChainID <$> l)) d).
Proof.
  revert d. induction l as [|x l IH]; intros d; simpl.
  - rewrite app_nil_r. by destruct d.
  - unfold mbind, ST_bind, add_record, st_modify. rewrite IH. simpl. by rewrite <-app_assoc.
Qed.

(** The image store's [Delete] is a drop, reported or not. *)
Lemma image_store_Delete_ran id d m o d1 :
  sim (referenceStore d) m → Children id (imageStore d) = [] → ¬ in_use_running (containers d) id →
  (¬ in_use (containers d) id ∨ force = true ∧ id = tgt) → (∀ r, m !! r ≠ Some id) →
  image_store_Delete FromBytes Validate id d = (o, d1) →
  (d1 = d ∧ o = Err (EImageStore EUnrecognized)) ∨
  ∀ b layers d', imageStore d' = imageStore d1 → referenceStore d' = referenceStore d → containers d' = containers d →
    (b = true → records d' = records d ++ record_of (LDrop id layers) ∧ events d' = events d ++ [("delete", id, id)]) →
    ran b d m [LDrop id layers] d' m ∧ children_map (imageStore d') !! id = None.
Proof.
  intros Hs Hch Hrun Huse Hnt E. unfold image_store_Delete in E.
  destruct (ImageStore.Delete FromBytes Validate id (imageStore d)) as [o1 s1] eqn:ED.
  destruct (Delete_dropped FromBytes Validate id _ _ _ ED) as [(Hn & -> & ->)|(meta & Hm & Hd)].
  { left. simplify_eq. by destruct d. }
  right. intros b layers d' Hi Hr Hc Hl. simplify_eq. simpl in Hi.
  assert (children_map (imageStore d) !! id = Some (im_children meta)) as Hk
    by (unfold children_map; by rewrite lookup_fmap, Hm).
  pose proof (Children_kids id d Hch _ Hk) as He. destruct (Hd He) as [Hdrop Hpar]. rewrite He in Hk.
  split; [|rewrite Hi; apply Hdrop]. constructor; [by rewrite Hr|done|..].
  - apply steps_one. unfold view_of. rewrite Hi. by constructor.
  - intros Hb. destruct (Hl Hb) as [-> ->]. unfold recs, evs. simpl. by rewrite app_nil_r.
  - intros x Hx. unfold parent_in. rewrite Hi. apply Hpar. simpl in Hx. by apply not_elem_of_cons in Hx as [? _].
Qed.

Lemma delete_image_ran id d m o d' :
  sim (referenceStore d) m → Children id (imageStore d) = [] → ¬ in_use_running (containers d) id →
  (¬ in_use (containers d) id ∨ force = true ∧ id = tgt) → id = tgt ∨ refs_of id d = [] →
  delete_image FromBytes Validate id d = (o, d') →
  ∃ tr m', ran (is_ok o) d m tr d' m' ∧ (drops tr = [] ∨ drops tr = [id]) ∧
    ∀ p, o = Ok p → drops tr = [id] ∧ children_map (imageStore d') !! id = None ∧
                    (p ≠ "" → parent_in d id = Ok p).
Proof.
  intros Hs Hch Hrun Huse Hid E. unfold delete_image, mbind at 1, ST_bind at 1, st_gets in E.
  unfold mbind at 1, ST_bind at 1 in E.
  destruct (removeAllReferencesToImageID id d) as [o1 d1] eqn:E1.
  destruct (remove_all_ran id d m o1 d1 Hs Hid E1) as (tr & m1 & HR & Hdr & Hi & Hp & Hnt).
  destruct o1 as [[]|e|e]; [|simplify_eq; exists tr, m1; split_and!; [done|by left|done]|done].
  unfold mbind at 1, ST_bind at 1 in E.
  destruct (image_store_Delete FromBytes Validate id d1) as [o2 d2] eqn:E2.
  pose proof (ran_conts _ _ _ _ _ _ HR) as Hcs.
  destruct (image_store_Delete_ran id d1 m1 o2 d2 (ran_sim _ _ _ _ _ _ HR)) as [[-> ->]|HD];
    [by rewrite Hi|by rewrite Hcs|by rewrite Hcs|by apply Hnt|done| |].
  { simplify_eq. exists tr, m1. split_and!; [by apply ran_weaken|by left|done]. }
  assert (referenceStore d2 = referenceStore d1 ∧ containers d2 = containers d1 ∧
          events d2 = events d1 ∧ records d2 = records d1) as (H1 & H2 & H3 & H4).
  { unfold image_store_Delete in E2. destruct (ImageStore.Delete _ _ _ _). by simplify_eq. }
  destruct o2 as [layers|e|e].
  - unfold mbind, ST_bind, LogImageEvent, add_record, st_modify in E. rewrite add_layers_eq in E.
    unfold mret, ST_ret in E. injection E as Ho Hd'. subst o.
    destruct (HD true layers d') as [HR' Hk]; [by rewrite <-Hd'..| |].
    { intros _. rewrite <-Hd'. simpl. rewrite H3, H4. by rewrite <-app_assoc. }
    exists (tr ++ [LDrop id layers]), m1. split_and!; [by eapply ran_trans| |].
    + right. by rewrite drops_app, Hdr.
    + intros p [= <-]. rewrite drops_app, Hdr. split_and!; [done|done|]. unfold parent_in.
      by destruct (GetParent FromBytes id (imageStore d)).
  - injection E as Ho Hd'. subst o d'. destruct (HD false [] d2) as [HR' _]; [done..|].
    exists (tr ++ [LDrop id []]), m1. split_and!; [by eapply ran_trans| |done]. right. by rewrite drops_app, Hdr.
  - injection E as Ho Hd'. subst o d'. destruct (HD false [] d2) as [HR' _]; [done..|].
    exists (tr ++ [LDrop id []]), m1. split_and!; [by eapply ran_trans| |done]. right. by rewrite drops_app, Hdr.
Qed.

Lemma helper_ran fuel id f prune quiet d m o d' :
  sim (referenceStore d) m → (f = true → force = true ∧ id = tgt) →
  imageDeleteHelper FromBytes Validate range fuel id f prune quiet d = (o, d') →
  ∃ tr m', ran (is_ok o) d m tr d' m' ∧ lineage (parent_in d) id (drops tr) ∧
           (prune = false → length (drops tr) ≤ 1) ∧ (o = Ok tt → quiet = false → id ∈ drops tr).
Proof.
  revert id f prune quiet d m o. induction fuel as [|fuel IH]; intros id f prune quiet d m o Hs Hf E; simpl in E.
  { unfold st_fail in E. simplify_eq. exists [], m. split_and!; simpl; [by apply ran_refl|done|lia|done]. }
  unfold mbind at 1, ST_bind at 1, st_get in E.
  destruct (checkImageDeleteConflict range id _ d) as [c|] eqn:Hcheck.
  { exists [], m. assert (d' = d) as -> by (repeat case_match; unfold mret, ST_ret, st_fail in E; by simplify_eq).
    split_and!; simpl; [by apply ran_refl|done|lia|]. intros -> ->. simpl in E. by unfold st_fail in E. }
  destruct (check_None id f d Hcheck) as (Hch & Hrun & Hsoft).
  unfold mbind, ST_bind in E. destruct (delete_image FromBytes Validate id d) as [o1 d1] eqn:E1.
  destruct (delete_image_ran id d m o1 d1 Hs Hch Hrun) as (tr & m1 & HR & Hdr & Hok); [| |done|].
  { destruct f; [right; by apply Hf|left; by apply Hsoft]. }
  { destruct f; [left; by apply Hf|right; by apply Hsoft]. }
  assert (lineage (parent_in d) id (drops tr) ∧ length (drops tr) ≤ 1) as [Hlin Hlen].
  { destruct Hdr as [-> | ->]; simpl; [split; [done|lia]|]. split; [split; [done|by left]|lia]. }
  destruct o1 as [p|e|e]; [|simplify_eq; exists tr, m1; done..].
  destruct (Hok p eq_refl) as (Hd & Hk & Hpar).
  destruct (negb prune || bool_decide (p = "")) eqn:Hstop.
  { unfold mret, ST_ret in E. simplify_eq. exists tr, m1. split_and!; try done. intros _ _. rewrite Hd. by left. }
  apply orb_false_iff in Hstop as [Hpr Hp%bool_decide_eq_false]. apply negb_false_iff in Hpr as ->.
  destruct (IH p false true true d1 m1 o (ran_sim _ _ _ _ _ _ HR)) as (tr' & m' & HR' & Hlin' & _); [done|done|].
  exists (tr ++ tr'), m'. split_and!; [by eapply ran_trans| |done|intros _ _; rewrite drops_app, Hd; by left].
  rewrite drops_app, Hd. simpl. split; [done|]. right. exists p. split; [by apply Hpar|].
  eapply lineage_ext; [|exact Hlin']. intros x Hx. apply (ran_parent _ _ _ _ _ _ HR). rewrite Hd.
  rewrite list_elem_of_singleton. intros ->.
  by apply (steps_drops_alive _ _ _ _ _ _ id (ran_steps _ _ _ _ _ _ HR')) in Hx.
Qed.

Lemma finish_ran id prune quiet d m o d' :
  sim (referenceStore d) m → id = tgt →
  finish FromBytes Validate range late id force prune quiet d = (o, d') →
  ∃ tr m', ran (is_ok o && late) d m tr d' m' ∧ (is_ok o = true → events d' = events d ++ evs tgt tr) ∧
           lineage (parent_in d) tgt (drops tr) ∧
           (prune = false → length (drops tr) ≤ 1) ∧ (o = Ok tt → quiet = false → tgt ∈ drops tr).
Proof.
  intros Hs -> E. unfold finish in E.
  destruct (imageDeleteHelper _ _ _ _ tgt force prune quiet d) as [o1 d1] eqn:E1.
  destruct (helper_ran (helper_fuel d) tgt force prune quiet d m o1 d1 Hs) as (tr & m' & HR & Hrest); [done|done|].
  injection E as -> <-. exists tr, m'. split; [|split; [|done]].
  2:{ intros Ho. destruct (ran_log _ _ _ _ _ _ HR Ho) as [_ ?]. by destruct late. }
  destruct late.
  - by rewrite andb_true_r.
  - rewrite andb_false_r. destruct HR as [????]. by constructor.
Qed.
End target.

Lemma ParseNamed_wf s r : ParseNamed G s = Ok r → wf_ref r.
Proof.
  unfold ParseNamed. destruct (dist_ParseNamed G s) as [dr|]; [|done].
  destruct (WithName G (dr_name dr)) as [r0| |] eqn:Hn; [|done..].
  assert (∃ n, r0 = namedRef n ∧ ContainsByte "@" n = false) as (n & -> & Hat).
  { unfold WithName in Hn. destruct (normalize _ _) as [n| |]; [|done..]. destruct (validateName n); [done|].
    destruct (name_ok G n) eqn:Hok; [|done]. simplify_eq. eauto using law_name_chars. }
  unfold WithDigest, WithTag. repeat case_match; intros; simplify_eq; simpl; eauto.
  - split; [done|]. by eapply law_digest_chars.
  - split; [done|]. by eapply law_tag_chars.
Qed.

(** [digest.ParseDigest] accepts the digest of 64 hexadecimal digits. *)
Context (sha256_digest : ∀ id, ValidateID id = true → ParseDigest G ("sha256:" +:+ id) = true).

Lemma HasPrefix_refl s : HasPrefix s s = true.
Proof. induction s as [|a s IH]; simpl; [done|]. by destruct (ascii_dec a a). Qed.

(** A digest is a prefix of the identifier it names; anything else is the
    reference that [ParseNamed] gives. *)
Lemma ParseIDOrReference_cases imageRef x :
  ParseIDOrReference G imageRef = Ok x →
  match x with
  | inl id => isImageIDPrefix id imageRef = true
  | inr ref => ParseNamed G imageRef = Ok ref
  end.
Proof.
  unfold ParseIDOrReference. destruct (ValidateID imageRef) eqn:Hv.
  - rewrite sha256_digest by done. intros [= <-]. unfold isImageIDPrefix.
    assert (Cut ":" ("sha256:" +:+ imageRef) = ("sha256", Some imageRef)) as -> by done.
    rewrite HasPrefix_refl. by destruct (HasPrefix _ _).
  - destruct (ParseDigest G imageRef).
    + intros [= <-]. unfold isImageIDPrefix. by rewrite HasPrefix_refl.
    + destruct (ParseNamed G imageRef) as [r| |]; [|done..]. by intros [= <-].
Qed.

Lemma reference_Get_spec ref s m :
  sim s m → wf_ref ref →
  ReferenceStore.Get ref s = match m !! WithDefaultTag ref with Some id => Ok id | None => Err ErrDoesNotExist end.
Proof.
  intros Hs Hw. destruct (exec_sim (OGet ref) s m Hw Hs) as [E _]. simpl in E. congruence.
Qed.

(** A reference that was resolved is a tag of the image, or no tag. *)
Lemma GetImageID_reference imageRef id r d m :
  sim (referenceStore d) m → GetImageID G FromBytes Unmarshal Lookup imageRef d = Ok id →
  isImageIDPrefix id imageRef = false → ParseNamed G imageRef = Ok r →
  m !! WithDefaultTag r = Some id ∨ m !! WithDefaultTag r = None.
Proof.
  intros Hs HG Hpre Hp. unfold GetImageID in HG.
  destruct (ParseIDOrReference G imageRef) as [[i|ref]| |] eqn:HE; [| |done..];
    apply ParseIDOrReference_cases in HE.
  - destruct (ImageStore.Get _ _ _ _); simplify_eq. congruence.
  - assert (ref = r) as -> by congruence. pose proof (ParseNamed_wf _ _ Hp) as Hw.
    rewrite (reference_Get_spec r _ m Hs Hw) in HG. destruct (m !! WithDefaultTag r); [left; congruence|by right].
Qed.

(** ** The refinement *)

(** What [ImageDelete] did, with the outcome [o]: the steps [tr] for the target
    [tgt], and on success at least what was asked for. *)
Definition deletes (imageRef : string) (force prune : bool) (d : Daemon) (m : spec)
    (o : outcome derror unit) (d' : Daemon) (tgt : ID) (tr : list label) (m' : spec) : Prop :=
  ran force tgt (is_ok o && late) (set_records [] d) m tr d' m' ∧
  (o = Ok tt → events d' = events d ++ evs tgt tr) ∧
  lineage (parent_in d) tgt (drops tr) ∧
  (prune = false → length (drops tr) ≤ 1) ∧
  (tr ≠ [] ∨ o = Ok tt → GetImageID G FromBytes Unmarshal Lookup imageRef d = Ok tgt) ∧
  (o = Ok tt → if isImageIDPrefix tgt imageRef then tgt ∈ drops tr
               else ∃ r, ParseNamed G imageRef = Ok r ∧ WithDefaultTag r ∈ untags tr).

Lemma ran_events force tgt d m tr1 d1 m1 tr (o : outcome derror unit) d' :
  ran force tgt true (set_records [] d) m tr1 d1 m1 → (is_ok o = true → events d' = events d1 ++ evs tgt tr) →
  o = Ok tt → events d' = events d ++ evs tgt (tr1 ++ tr).
Proof.
  intros HR He ->. rewrite He, evs_app by done.
  destruct (ran_log _ _ _ _ _ _ _ _ HR eq_refl) as [_ ->]. by rewrite app_assoc.
Qed.

Lemma ran_false_records force tgt l d m tr d' m' :
  ran force tgt false d m tr d' m' → ran force tgt false d m tr (set_records l d') m'.
Proof. intros [????]. by constructor. Qed.

(** Nothing but the records was changed. *)
Lemma refused imageRef force prune d m o d' tgt :
  is_ok o = false → sim (referenceStore d') m → imageStore d' = imageStore d → containers d' = containers d →
  deletes imageRef force prune d m o d' tgt [] m.
Proof.
  intros Ho Hs Hi Hc. unfold deletes. rewrite Ho. split_and!; simpl; try done; [|by intros ->|lia|by intros [?| ->]|by intros ->].
  constructor; try done.
  - unfold view_of. simpl. rewrite Hi. constructor.
  - intros x _. unfold parent_in. simpl. by rewrite Hi.
Qed.

Lemma delete_by_id_deletes imageRef tgt force prune d m o d' :
  sim (referenceStore d) m → GetImageID G FromBytes Unmarshal Lookup imageRef d = Ok tgt →
  isImageIDPrefix tgt imageRef = true →
  delete_by_id FromBytes Validate range late tgt force prune (set_records [] d) = (o, d') →
  ∃ tr m', deletes imageRef force prune d m o d' tgt tr m'.
Proof.
  intros Hs HG Hpre E. set (d0 := set_records [] d) in E.
  unfold delete_by_id, mbind at 1, ST_bind at 1, st_gets in E. unfold mbind at 1, ST_bind at 1, st_get in E.
  destruct (isSingleReference (refs_of tgt d0)).
  2:{ destruct (finish_ran force tgt tgt prune false d0 m o d' Hs eq_refl E) as (tr & m' & HR & He & Hl & Hp & Hd).
      exists tr, m'. split_and!; try done; [by intros ->; apply He|]. rewrite Hpre. auto. }
  destruct (checkImageDeleteConflict range tgt _ d0) as [c|].
  { unfold return_nil, mbind, ST_bind, st_modify, st_fail in E. simplify_eq. exists [], m. by apply refused. }
  unfold mbind, ST_bind, st_try in E. destruct (untag_all tgt (refs_of tgt d0) d0) as [o1 d1] eqn:E1.
  destruct (untag_all_ran force tgt (refs_of tgt d0) d0 m o1 d1 Hs) as (tr1 & m1 & HR1 & Hd1 & Hi1 & Hp1 & _);
    [by eapply refs_of_NoDup|intros r; by apply refs_of_spec|done|].
  assert (∀ x, parent_in d1 x = parent_in d x) as Hpar by (intros x; unfold parent_in; by rewrite Hi1).
  destruct o1 as [[]|e|e]; [| |done].
  - destruct (finish_ran force tgt tgt prune false d1 m1 o d' (ran_sim _ _ _ _ _ _ _ _ HR1) eq_refl E)
      as (tr & m' & HR & He & Hl & Hp & Hd).
    exists (tr1 ++ tr), m'. unfold deletes. rewrite drops_app, Hd1, Hpre. simpl.
    split_and!; [by eapply ran_trans|by eapply ran_events| |done..|auto]. eapply lineage_ext; [|exact Hl]. auto.
  - unfold return_nil, mbind, ST_bind, st_modify, st_fail in E. simplify_eq. exists tr1, m1.
    unfold deletes. rewrite Hd1. split_and!; simpl; try done; [by apply ran_false_records|lia].
Qed.

(** The digests of the repository, when its last tag was removed. *)
Lemma untag_rest_ran force tgt (keep : bool) name d m o d' :
  sim (referenceStore d) m →
  (if keep then mret (refs_of tgt d) else untag_digests name (refs_of tgt d)) d = (o, d') →
  ∃ tr m', ran force tgt (is_ok o) d m tr d' m' ∧ drops tr = [] ∧ imageStore d' = imageStore d ∧ panics o = false.
Proof.
  intros Hs E. destruct keep.
  - unfold mret, ST_ret in E. simplify_eq. exists [], m. split_and!; try done. by apply ran_refl.
  - eapply untag_digests_ran; [done|by eapply refs_of_NoDup| |done]. intros r. by apply refs_of_spec.
Qed.

(** The end of the branch: stop with references left, or delete the image. *)
Lemma after_untag imageRef tgt force prune d m r tr (o1 : outcome derror (list Named)) d1 m1 o d' :
  GetImageID G FromBytes Unmarshal Lookup imageRef d = Ok tgt → isImageIDPrefix tgt imageRef = false →
  ParseNamed G imageRef = Ok r → panics o1 = false →
  ran force tgt (is_ok o1) (set_records [] d) m tr d1 m1 → drops tr = [] → imageStore d1 = imageStore d →
  WithDefaultTag r ∈ untags tr →
  match o1 with
  | Ok repoRefs => (if bool_decide (0 < length repoRefs) then mret tt
                    else finish FromBytes Validate range late tgt force prune true) d1
  | Err e => (Err e, d1)
  | Panic msg => (Panic msg, d1)
  end = (o, d') →
  ∃ tr' m', deletes imageRef force prune d m o d' tgt tr' m'.
Proof.
  intros HG Hpre Hp Hnp HR Hd Hi Hr E. destruct o1 as [l|e|e]; [| |done].
  - case_bool_decide.
    + unfold mret, ST_ret in E. simplify_eq. exists tr, m1. unfold deletes. rewrite Hd, Hpre.
      split_and!; simpl; [by apply ran_weaken|by intros _; apply (ran_log _ _ _ _ _ _ _ _ HR)|done|lia|done|eauto].
    + destruct (finish_ran force tgt tgt prune true d1 m1 o d' (ran_sim _ _ _ _ _ _ _ _ HR) eq_refl E)
        as (tr' & m' & HR' & He & Hl & Hlen & _).
      exists (tr ++ tr'), m'. unfold deletes. rewrite drops_app, Hd, Hpre. simpl.
      split_and!; [by eapply ran_trans|by eapply ran_events| |done..|].
      * eapply lineage_ext; [|exact Hl]. intros x _. unfold parent_in. by rewrite Hi.
      * intros _. exists r. split; [done|]. unfold untags. rewrite omap_app. set_solver.
  - simplify_eq. exists tr, m1. unfold deletes. rewrite Hd. by split_and!; simpl; [|..|lia| |].
Qed.

Lemma delete_by_reference_deletes imageRef tgt force prune d m o d' :
  sim (referenceStore d) m → GetImageID G FromBytes Unmarshal Lookup imageRef d = Ok tgt →
  isImageIDPrefix tgt imageRef = false →
  delete_by_reference G FromBytes Validate range late imageRef tgt force prune (set_records [] d) = (o, d') →
  ∃ tr m', deletes imageRef force prune d m o d' tgt tr m'.
Proof.
  intros Hs HG Hpre E. set (d0 := set_records [] d) in E.
  unfold delete_by_reference, mbind at 1, ST_bind at 1, st_gets in E. unfold mbind at 1, ST_bind at 1 in E.
  destruct (if negb force && isSingleReference _ then _ else None) as [c|].
  { unfold return_nil, mbind, ST_bind, st_modify, st_fail in E. simplify_eq. exists [], m. by apply refused. }
  destruct (ParseNamed G imageRef) as [r|e|e] eqn:Hp.
  2:{ unfold return_nil, mbind, ST_bind, st_modify, st_fail in E. simplify_eq. exists [], m. by apply refused. }
  2:{ unfold st_panic in E. simplify_eq. exists [], m. by apply refused. }
  unfold mbind at 1, ST_bind at 1, st_try in E. destruct (removeImageRef r d0) as [o1 d1] eqn:E1.
  destruct (removeImageRef_spec r d0 m o1 d1 Hs (ParseNamed_wf _ _ Hp) E1) as (Hi & Hc & Hev & Hrec & Hcase).
  set (ref := WithDefaultTag r) in *.
  assert (is_Some (m !! ref) → m !! ref = Some tgt) as Htgt.
  { intros [x Hx]. destruct (GetImageID_reference imageRef tgt r d m Hs HG Hpre Hp); [done|]. fold ref in H. congruence. }
  destruct Hcase as [(-> & Hn & Hs1)|(Hsome%Htgt & [->| ->] & Hs1)].
  - unfold return_nil, mbind, ST_bind, st_modify, st_fail in E. simplify_eq. exists [], m. by apply refused.
  - set (d2 := set_records (records d1 ++ [Untagged (ref_String ref)])
                 (set_events (events d1 ++ [("untag", tgt, tgt)]) d1)).
    assert (ran force tgt true d0 m [LUntag ref true] d2 (delete ref m)) as HR1.
    { apply ran_untag; try done. unfold d2. simpl. by rewrite Hev, Hrec. }
    unfold mbind at 1, ST_bind at 1, LogImageEvent, st_modify in E.
    unfold mbind at 1, ST_bind at 1, add_record, st_modify in E.
    unfold mbind at 1, ST_bind at 1, st_gets in E. fold d2 in E. unfold mbind, ST_bind in E.
    match type of E with (match ?x with _ => _ end) = _ => destruct x as [o3 d3] eqn:E3 end.
    destruct (untag_rest_ran force tgt _ (Name ref) d2 (delete ref m) o3 d3 Hs1 E3)
      as (tr2 & m2 & HR2 & Hd2 & Hi2 & Hp2).
    apply (after_untag imageRef tgt force prune d m r ([LUntag ref true] ++ tr2) o3 d3 m2); try done.
    + by eapply ran_trans.
    + by rewrite Hi2.
    + by left.
  - unfold return_nil, mbind, ST_bind, st_modify, st_fail in E. simplify_eq.
    exists [LUntag ref true], (delete ref m).
    split_and!; simpl; try done; [by apply ran_untag|lia].
Qed.

Lemma ImageDelete_refines_aux imageRef force prune d m o d' :
  sim (referenceStore d) m →
  ImageDelete G FromBytes Unmarshal Validate Lookup range late imageRef force prune d = (o, d') →
  ∃ tgt tr m', deletes imageRef force prune d m o d' tgt tr m'.
Proof.
  intros Hs E. unfold ImageDelete, mbind at 1, ST_bind at 1, st_modify in E.
  unfold mbind, ST_bind, st_get in E.
  assert (∀ d0, GetImageID G FromBytes Unmarshal Lookup imageRef (set_records [] d0)
                = GetImageID G FromBytes Unmarshal Lookup imageRef d0) as Hset by done.
  rewrite Hset in E. destruct (GetImageID G FromBytes Unmarshal Lookup imageRef d) as [tgt|e|e] eqn:HG.
  - destruct (isImageIDPrefix tgt imageRef) eqn:Hpre; simpl in E; exists tgt.
    + by apply delete_by_id_deletes.
    + by apply delete_by_reference_deletes.
  - unfold return_nil, mbind, ST_bind, st_modify, st_fail in E. simplify_eq. exists "", [], m. by apply refused.
  - unfold st_panic in E. simplify_eq. exists "", [], m. by apply refused.
Qed.

(** C23: whatever it is asked and whatever fails, [ImageDelete] only removes
    tags of the image the name resolves to and drops images that have no
    child, no tag and no running container (and, unless it is the target and
    the call is forced, no container at all).  The images dropped are the
    target, its parent, and so on, only the target without [prune].  When the
    call succeeds, what was named is gone: the image, if an identifier was
    given, the tag otherwise; the events are those of the steps, in order, and
    so are the records when the return statement reads them after the call that
    adds to them ([late]; the language leaves the order open, and with the other
    one the records of the last part are missing: [early_read]). *)
Theorem ImageDelete_refines imageRef force prune d m o d' :
  sim (referenceStore d) m →
  ImageDelete G FromBytes Unmarshal Validate Lookup range late imageRef force prune d = (o, d') →
  ∃ tgt tr m', deletes imageRef force prune d m o d' tgt tr m'.
Proof. apply ImageDelete_refines_aux. Qed.

(** C24: nothing in use is deleted, with or without [force].  An image that
    disappears has lost all its children before it, no running container was
    created from it and no tag points to it any more; without [force] no
    container at all was created from it; and if it is not the image that was
    named, it had no tag and no container to begin with. *)
Theorem ImageDelete_safe imageRef force prune d m o d' x :
  sim (referenceStore d) m →
  ImageDelete G FromBytes Unmarshal Validate Lookup range late imageRef force prune d = (o, d') →
  x ∈ dom (images (imageStore d)) → x ∉ dom (images (imageStore d')) →
  (∀ c, c ∈ Children x (imageStore d) → c ∉ dom (images (imageStore d'))) ∧
  ¬ in_use_running (containers d) x ∧ refs_of x d' = [] ∧
  (force = false → ¬ in_use (containers d) x) ∧
  (GetImageID G FromBytes Unmarshal Lookup imageRef d ≠ Ok x → ¬ in_use (containers d) x ∧ refs_of x d = []).
Proof.
  intros Hs E Hx Hx'. destruct (ImageDelete_refines_aux imageRef force prune d m o d' Hs E)
    as (tgt & tr & m' & HR & _ & _ & _ & HG & _).
  pose proof (ran_steps _ _ _ _ _ _ _ _ HR) as Hst.
  assert (∀ y (e : Daemon), children_map (imageStore e) !! y = None ↔ y ∉ dom (images (imageStore e))) as Hk.
  { intros y e. unfold children_map. by rewrite lookup_fmap, fmap_None, not_elem_of_dom. }
  assert (x ∈ drops tr) as Hin.
  { apply (steps_gone _ _ _ _ _ _ x Hst); simpl; [|by apply Hk]. intros Hn. by apply Hk in Hn. }
  destruct (steps_drop_safe _ _ _ _ _ _ x Hst Hin) as (S1 & S2 & S3 & S4). simpl in S1, S2, S3, S4.
  assert (tr ≠ []) as Htr by (by intros ->; apply elem_of_nil in Hin).
  split_and!; [|done| | |].
  - intros c Hc. apply Hk. unfold Children in Hc. destruct (images (imageStore d) !! x) as [meta|] eqn:Hm;
      [|by apply elem_of_nil in Hc]. apply elem_of_elements in Hc.
    destruct (steps_closed _ _ _ _ _ _ Hst x (im_children meta)) with c as [?|(b & Hb & _)]; [|done|done|].
    { simpl. unfold children_map. by rewrite lookup_fmap, Hm. }
    simpl in Hb. apply Hk in Hx'. congruence.
  - apply elem_of_nil_inv. intros r Hr%(refs_of_spec x d' m' r (ran_sim _ _ _ _ _ _ _ _ HR)). by apply (S4 r).
  - intros ->. naive_solver.
  - rewrite HG by (by left). intros Hne. assert (x ≠ tgt) as Hne' by congruence. split; [naive_solver|].
    apply elem_of_nil_inv. intros r Hr%(refs_of_spec x d m r Hs). by apply (S3 Hne' r).
Qed.

(** ** Termination of pruning *)

(** The errors of deleting one image are those of the stores. *)
Definition store_fault (e : derror) : Prop :=
  match e with ERefStore _ | EImageStore _ => True | _ => False end.

Lemma untag_all_errors id l d e d' : untag_all id l d = (Err e, d') → store_fault e.
Proof.
  revert d. induction l as [|r l IH]; intros d E; simpl in E; [done|].
  unfold mbind at 1, ST_bind at 1 in E. destruct (removeImageRef r d) as [[x|x|x] d1] eqn:E1; [by apply IH in E| |done].
  unfold removeImageRef in E1. destruct (ReferenceStore.Delete _ _ _) as [[b [x'|]] s]; by simplify_eq.
Qed.

Lemma delete_image_errors id d e d' :
  delete_image FromBytes Validate id d = (Err e, d') → store_fault e.
Proof.
  intros E. unfold delete_image, mbind at 1, ST_bind at 1, st_gets in E. unfold mbind at 1, ST_bind at 1 in E.
  destruct (removeAllReferencesToImageID id d) as [[?|?|?] d1] eqn:E1; [|simplify_eq; by apply untag_all_errors in E1|done].
  unfold mbind at 1, ST_bind at 1, image_store_Delete in E.
  destruct (ImageStore.Delete _ _ _ _) as [[?|?|?] s2]; [|by simplify_eq|done].
  unfold mbind, ST_bind, LogImageEvent, add_record, st_modify in E. by rewrite add_layers_eq in E.
Qed.

(** The model stopped for lack of fuel, which the code does not. *)
Definition exhausted {A} (r : outcome derror A * Daemon) : Prop := r.1 = Err EOutOfFuel.

(** A recursive call has one image less. *)
Lemma delete_image_smaller id (f : bool) d m p d' :
  sim (referenceStore d) m →
  checkImageDeleteConflict range id (if f then conflictHard else N.lor conflictHard conflictSoft) d = None →
  delete_image FromBytes Validate id d = (Ok p, d') →
  size (images (imageStore d')) < size (images (imageStore d)) ∧ ∃ m', sim (referenceStore d') m'.
Proof.
  intros Hs Hcheck E. destruct (check_None id f d Hcheck) as (Hch & Hrun & Hsoft).
  destruct (delete_image_ran f id id d m (Ok p) d' Hs Hch Hrun) as (tr & m' & HR & _ & Hok); [|by left|done|].
  { destruct f; [by right|left; by apply Hsoft]. }
  split; [|exists m'; apply HR]. destruct (Hok p eq_refl) as [Hd _].
  pose proof (steps_size _ _ _ _ _ _ (ran_steps _ _ _ _ _ _ _ _ HR)) as Hsz. rewrite Hd in Hsz.
  simpl in Hsz. unfold children_map in Hsz. rewrite !map_size_fmap in Hsz. lia.
Qed.

(** Pruning ends.  More fuel than there are images is never used up, and
    the result does not depend on how much there is: the recursion over the
    parents visits every image at most once, also when the parent files on
    disk form a cycle. *)
Theorem imageDeleteHelper_terminates n id force prune quiet d m :
  sim (referenceStore d) m → size (images (imageStore d)) < n →
  imageDeleteHelper FromBytes Validate range n id force prune quiet d =
    imageDeleteHelper FromBytes Validate range (helper_fuel d) id force prune quiet d ∧
  ¬ exhausted (imageDeleteHelper FromBytes Validate range n id force prune quiet d).
Proof.
  assert (∀ n n' id (f : bool) prune quiet d m, sim (referenceStore d) m →
    size (images (imageStore d)) < n → size (images (imageStore d)) < n' →
    imageDeleteHelper FromBytes Validate range n id f prune quiet d =
      imageDeleteHelper FromBytes Validate range n' id f prune quiet d ∧
    ¬ exhausted (imageDeleteHelper FromBytes Validate range n id f prune quiet d)) as H.
  2:{ intros Hs Hn. apply (H _ _ id force prune quiet d m Hs Hn). unfold helper_fuel. lia. }
  clear n id force prune quiet d m. intros n. induction n as [|n IH]; intros [|n'] id f prune quiet d m Hs Hn Hn'; [lia..|]. simpl.
  unfold mbind at 1 3 5, ST_bind at 1 3 5, st_get.
  destruct (checkImageDeleteConflict range id _ d) as [c|] eqn:Hcheck; [by destruct (quiet && _)|].
  unfold mbind, ST_bind. destruct (delete_image FromBytes Validate id d) as [o1 d1] eqn:E1.
  destruct o1 as [p|e|e]; [| |done].
  2:{ apply delete_image_errors in E1. split; [done|]. simpl. by intros [= ->]. }
  destruct (delete_image_smaller id f d m p d1 Hs Hcheck E1) as [Hsz [m' Hm']].
  destruct (negb prune || _); [done|]. apply (IH n' p false true true d1 m' Hm'); lia.
Qed.

(** A quiet deletion reports no conflict.  [imageDeleteHelper] keeps a
    conflict to itself "unless the image is dangling or not being used": no
    conflict is of that kind, as an image without tags and children conflicts
    only with a container that uses it. *)
Theorem quiet_reports_no_conflict n id force prune d c :
  (imageDeleteHelper FromBytes Validate range n id force prune true d).1 ≠ Err (EConflict c).
Proof.
  revert id force prune d. induction n as [|n IH]; intros id f prune d; simpl; [done|].
  unfold mbind at 1, ST_bind at 1, st_get.
  destruct (checkImageDeleteConflict range id _ d) as [c'|] eqn:Hcheck.
  - assert (negb (imageIsDangling id d) || used c' = true) as ->; [|done].
    unfold imageIsDangling. rewrite negb_involutive. unfold checkImageDeleteConflict in Hcheck.
    repeat case_match; simplify_eq; simpl; rewrite ?orb_true_r; try done;
      by (match goal with H : _ && bool_decide _ = true |- _ => apply andb_true_iff in H as [_ ->] end; rewrite ?orb_true_r).
  - unfold mbind, ST_bind. destruct (delete_image FromBytes Validate id d) as [o1 d1] eqn:E1.
    destruct o1 as [p|e|e]; [|..]; [destruct (negb prune || _); [done|apply IH]| |done].
    simpl. intros [= ->]. by apply delete_image_errors in E1.
Qed.

(** ** Names that are not removed *)

(** [removeImageRef] on a reference that is not a tag. *)
Lemma removeImageRef_missing r d m :
  sim (referenceStore d) m → wf_ref r → m !! WithDefaultTag r = None →
  removeImageRef r d = (Err (ERefStore ErrDoesNotExist), d).
Proof.
  intros Hs Hw Hn. assert (wf_ref (WithDefaultTag r)) as Hw' by (by destruct (WithDefaultTag_wf r Hw)).
  assert (stored (WithDefaultTag r)) as Hst by apply (WithDefaultTag_wf r Hw).
  pose proof (sim_repos _ m Hs _ Hst) as Hl. rewrite Hn in Hl. unfold nget in Hl.
  unfold removeImageRef, ReferenceStore.Delete.
  assert (WithDefaultTag (WithDefaultTag r) = WithDefaultTag r) as -> by (by destruct r).
  destruct (Repositories (referenceStore d) !! Name (WithDefaultTag r)) as [rep|]; simpl in Hl; [rewrite Hl|];
    by destruct d.
Qed.

(** The comment of [removeImageRef] calls it idempotent, but a name that is
    not a tag is an error: a name "repository:id" that [GetImageID] resolves
    through the identifier in the place of the tag is refused, whatever
    [force] says, and nothing changes. *)
Theorem ImageDelete_not_a_tag imageRef id r prune d m :
  sim (referenceStore d) m → GetImageID G FromBytes Unmarshal Lookup imageRef d = Ok id →
  isImageIDPrefix id imageRef = false → ParseNamed G imageRef = Ok r → m !! WithDefaultTag r = None →
  ImageDelete G FromBytes Unmarshal Validate Lookup range late imageRef true prune d
    = (Err (ERefStore ErrDoesNotExist), set_records [] d).
Proof.
  intros Hs HG Hpre Hp Hn. unfold ImageDelete, mbind, ST_bind, st_modify, st_get.
  change (GetImageID G FromBytes Unmarshal Lookup imageRef (set_records [] d))
    with (GetImageID G FromBytes Unmarshal Lookup imageRef d). rewrite HG, Hpre. simpl.
  unfold delete_by_reference, mbind, ST_bind, st_gets, st_try. simpl. rewrite Hp.
  rewrite (removeImageRef_missing r (set_records [] d) m Hs (ParseNamed_wf _ _ Hp) Hn). done.
Qed.

(** The answer is a conflict on [id], and only the records were reset. *)
Definition conflict_on (id : ID) (d : Daemon) (r : outcome derror unit * Daemon) : Prop :=
  ∃ c, r = (Err (EConflict c), set_records [] d) ∧ imgID c = id.

Lemma check_refs id d :
  refs_of id d ≠ [] →
  ∃ c, checkImageDeleteConflict range id (N.lor conflictHard conflictSoft) d = Some c ∧ imgID c = id.
Proof.
  intros Hr. unfold checkImageDeleteConflict. simpl.
  assert (bool_decide (0 < length (refs_of id d)) = true) as ->
    by (apply bool_decide_eq_true_2; destruct (refs_of id d); simpl; [done|lia]).
  repeat case_match; try (simplify_eq; eauto; fail).
Qed.

(** A tag that is spelled like the beginning of its image's identifier (as
    "sha:latest", given by "sha") is taken for an identifier: when the image
    has a tag in another repository too, removing the tag without [force]
    fails with a conflict and leaves it. *)
Theorem ImageDelete_tag_like_id imageRef id prune d :
  GetImageID G FromBytes Unmarshal Lookup imageRef d = Ok id →
  isImageIDPrefix id imageRef = true → isSingleReference (refs_of id d) = false → refs_of id d ≠ [] →
  conflict_on id d (ImageDelete G FromBytes Unmarshal Validate Lookup range late imageRef false prune d).
Proof.
  intros HG Hpre Hsingle Hr. unfold ImageDelete, mbind, ST_bind, st_modify, st_get.
  change (GetImageID G FromBytes Unmarshal Lookup imageRef (set_records [] d))
    with (GetImageID G FromBytes Unmarshal Lookup imageRef d). rewrite HG, Hpre. simpl.
  unfold delete_by_id, mbind, ST_bind, st_gets, st_get.
  change (refs_of id (set_records [] d)) with (refs_of id d). rewrite Hsingle.
  unfold finish, helper_fuel. cbn [imageDeleteHelper]. unfold mbind, ST_bind, st_get.
  destruct (check_refs id (set_records [] d) Hr) as (c & -> & Hc). simpl. exists c. by destruct late.
Qed.

(** ** Tagging *)

Lemma WithName_shape repository n :
  WithName G repository = Ok n → ∃ name, n = namedRef name ∧ ContainsByte "@" name = false.
Proof.
  unfold WithName. destruct (normalize _ _) as [x| |]; [|done..]. destruct (validateName x); [done|].
  destruct (name_ok G x) eqn:Hok; [|done]. intros [= <-]. eauto using law_name_chars.
Qed.

Lemma AddTag_forced w r id s m e s' :
  sim s m → wf_ref r → AddTag w r id true s = (e, s') → e = None →
  sim s' (<[WithDefaultTag r := id]> m).
Proof.
  intros Hs Hw E ->. destruct (exec_sim (OAddTag r id true w) s m Hw Hs) as [E1 E2]. simpl in E1, E2.
  rewrite E in E1, E2. destruct (isCanonical r); [done|]. unfold spec_add in E1, E2.
  repeat case_bool_decide; try done; repeat case_match; simplify_eq/=; done.
Qed.

(** A tag that was set resolves to the image it was set for, and every other
    tag is as before. *)
Theorem TagImage_sets imageName repository tag d m d' :
  sim (referenceStore d) m →
  TagImage G FromBytes Unmarshal Lookup imageName repository tag d = (Ok tt, d') →
  ∃ id n, let r := if bool_decide (tag ≠ "") then taggedRef (Name n) tag else n in
    GetImageID G FromBytes Unmarshal Lookup imageName d = Ok id ∧ WithName G repository = Ok n ∧
    ReferenceStore.Get r (referenceStore d') = Ok id ∧
    sim (referenceStore d') (<[WithDefaultTag r := id]> m) ∧
    events d' = events d ++ [("tag", id, ref_String r)] ∧ imageStore d' = imageStore d.
Proof.
  intros Hs E. unfold TagImage in E.
  destruct (GetImageID G FromBytes Unmarshal Lookup imageName d) as [id| |]; [|done..].
  destruct (WithName G repository) as [n| |] eqn:Hn; [|done..].
  destruct (WithName_shape _ _ Hn) as (name & -> & Hat). exists id, (namedRef name). simpl.
  set (r := if bool_decide (tag ≠ "") then taggedRef name tag else namedRef name).
  assert (wf_ref r ∧ TagImageWithReference id r d = (Ok tt, d')) as [Hw E'].
  { unfold r. case_bool_decide; [|done]. unfold WithTag in E. destruct (tag_ok G tag) eqn:Ht; [|done].
    split; [|done]. split; [done|]. by eapply law_tag_chars. }
  unfold TagImageWithReference in E'.
  destruct (AddTag _ r id true (referenceStore d)) as [e s'] eqn:EA. destruct e as [e|]; [done|].
  unfold LogImageEvent, st_modify in E'. simplify_eq. simpl.
  pose proof (AddTag_forced _ r id _ m _ s' Hs Hw EA eq_refl) as Hs'.
  split_and!; try done. rewrite (reference_Get_spec r s' _ Hs' Hw). by rewrite lookup_insert_eq.
Qed.

(** ** Invariants across the components *)

(** [P] of the image store is kept by what changes it: its own [Delete]. *)
Section keeps.
Context (P : @ImageStore.store LS → Prop).
Context (P_Delete : ∀ id s o s', P s → ImageStore.Delete FromBytes Validate id s = (o, s') → P s').

Definition keeps {A} (f : ST Daemon derror A) : Prop := ∀ d, P (imageStore d) → P (imageStore (f d).2).

Lemma keeps_bind {A B} (f : ST Daemon derror A) (k : A → ST Daemon derror B) :
  keeps f → (∀ a, keeps (k a)) → keeps (f ≫= k).
Proof.
  intros Hf Hk d Hd. unfold mbind, ST_bind. specialize (Hf d Hd). destruct (f d) as [[a|e|e] d1]; [|done..].
  by apply Hk.
Qed.

Lemma keeps_same {A} (f : ST Daemon derror A) : (∀ d, imageStore (f d).2 = imageStore d) → keeps f.
Proof. intros H d Hd. by rewrite H. Qed.

Lemma keeps_try {A} (f : ST Daemon derror A) : keeps f → keeps (st_try f).
Proof. intros Hf d Hd. unfold st_try. specialize (Hf d Hd). by destruct (f d) as [[a|e|e] d1]. Qed.

Lemma keeps_removeImageRef r : keeps (removeImageRef r).
Proof.
  apply keeps_same. intros d. unfold removeImageRef. by destruct (ReferenceStore.Delete _ _ _) as [[b e] s].
Qed.

Lemma keeps_store_Delete id : keeps (image_store_Delete FromBytes Validate id).
Proof.
  intros d Hd. unfold image_store_Delete. destruct (ImageStore.Delete _ _ _ _) as [o s] eqn:E. simpl. eauto.
Qed.

(** The primitives, then the control structure. *)
Ltac keeps :=
  repeat first
    [ apply keeps_bind; [|intros]
    | apply keeps_try
    | apply keeps_removeImageRef
    | apply keeps_store_Delete
    | assumption
    | apply keeps_same; intros; reflexivity
    | case_match ].

Lemma keeps_untag_all id l : keeps (untag_all id l).
Proof. induction l; simpl; keeps. Qed.
Lemma keeps_untag_digests name l : keeps (untag_digests name l).
Proof. induction l; simpl; keeps. Qed.
Lemma keeps_add_layers l : keeps (add_layers l).
Proof. induction l; simpl; keeps. Qed.

Lemma keeps_helper n id force prune quiet : keeps (imageDeleteHelper FromBytes Validate range n id force prune quiet).
Proof.
  revert id force prune quiet. induction n as [|n IH]; intros; simpl; unfold delete_image, removeAllReferencesToImageID;
    keeps; auto using keeps_untag_all, keeps_add_layers.
Qed.

Lemma keeps_finish id force prune quiet : keeps (finish FromBytes Validate range late id force prune quiet).
Proof.
  intros d Hd. unfold finish. pose proof (keeps_helper (helper_fuel d) id force prune quiet d Hd) as H.
  destruct (imageDeleteHelper _ _ _ _ _ _ _ _ _) as [o d']. simpl in *. by destruct late.
Qed.

Lemma keeps_ImageDelete imageRef force prune :
  keeps (ImageDelete G FromBytes Unmarshal Validate Lookup range late imageRef force prune).
Proof.
  unfold ImageDelete, delete_by_reference, delete_by_id, return_nil.
  keeps; auto using keeps_untag_all, keeps_untag_digests, keeps_finish.
Qed.
End keeps.

(** Every tag points to an image that is there. *)
Definition tags_live (d : Daemon) : Prop := ∀ id, refs_of id d ≠ [] → id ∈ dom (images (imageStore d)).

(** [ImageDelete] keeps the stores in step, whatever fails on the way:
    every tag still points to an image that is there, every image keeps a
    reference of its own to its layer, and when no write of the image store
    fails the children maps stay the inverse of the parent files. *)
Theorem ImageDelete_keeps_stores `{!RetainLaws LS} imageRef force prune d m o d' :
  sim (referenceStore d) m → tags_live d →
  IInv FromBytes Unmarshal (imageStore d) →
  ImageDelete G FromBytes Unmarshal Validate Lookup range late imageRef force prune d = (o, d') →
  tags_live d' ∧ IInv FromBytes Unmarshal (imageStore d') ∧
  (CInv FromBytes (imageStore d) → CInv FromBytes (imageStore d')).
Proof.
  intros Hs Hlive HI E. assert (d' = (ImageDelete G FromBytes Unmarshal Validate Lookup range late imageRef force prune d).2)
    as Hd' by (by rewrite E).
  split_and!; [|rewrite Hd'; eapply keeps_ImageDelete; [|done]; intros ????? ED; by eapply Delete_IInv in ED as [_ ?]
               |intros C; rewrite Hd'; eapply keeps_ImageDelete; [|done]; intros; by eapply Delete_CInv].
  destruct (ImageDelete_refines_aux imageRef force prune d m o d' Hs E) as (tgt & tr & m' & HR & _).
  pose proof (ran_steps _ _ _ _ _ _ _ _ HR) as Hst. pose proof (ran_sim _ _ _ _ _ _ _ _ HR) as Hs'.
  intros id Hid. destruct (refs_of id d') as [|r l] eqn:Hl; [done|].
  assert (m' !! r = Some id) as Hr by (apply (refs_of_spec id d' m' r Hs'); rewrite Hl; by left).
  destruct (steps_tags _ _ _ _ _ _ Hst) as [_ Ht]. simpl in Ht. pose proof Hr as Hr0. rewrite Ht in Hr0.
  case_decide; [done|]. apply (refs_of_spec id d m r Hs) in Hr0.
  assert (id ∈ dom (images (imageStore d))) as Hin by (apply Hlive; intros Hn; rewrite Hn in Hr0; by apply elem_of_nil in Hr0).
  apply elem_of_dom. destruct (images (imageStore d') !! id) as [x|] eqn:Hx; [done|]. exfalso.
  assert (id ∈ drops tr) as Hdrop.
  { apply (steps_gone _ _ _ _ _ _ id Hst); simpl; unfold children_map; rewrite lookup_fmap.
    - apply elem_of_dom in Hin as [y ->]. done.
    - by rewrite Hx. }
  destruct (steps_drop_safe _ _ _ _ _ _ id Hst Hdrop) as (_ & _ & _ & S4). by apply (S4 r).
Qed.
End refine.

(** ** Witnesses: two images, a parent and its child *)

(** Names as in [simple_grammar]; a digest is "sha256:" and 64 digits. *)
Definition is_digest (s : string) : bool :=
  match Cut ":" s with (alg, Some hex) => bool_decide (alg = "sha256") && ValidateID hex | _ => false end.

Definition digest_grammar : Grammar := {|
  dist_ParseNamed := dist_ParseNamed simple_grammar;
  name_ok := word; tag_ok := word; digest_ok := word; ParseDigest := is_digest; unicode_lower := id |}.

#[global] Instance digest_grammar_laws : GrammarLaws digest_grammar.
Proof.
  destruct simple_grammar_laws as [L1 L2 L3 L4 L5 L6 L7]. constructor; try done.
  intros n d Hn Hd _. by apply L3.
Qed.

Lemma digest_grammar_sha256 id : ValidateID id = true → ParseDigest digest_grammar ("sha256:" +:+ id) = true.
Proof. intros H. exact H. Qed.

(** [Set.Lookup]: the one identifier with the prefix. *)
Definition ex_Lookup (ds : gset ID) (t : string) : option ID :=
  match filter (λ id, isImageIDPrefix id t = true) (elements ds) with [id] => Some id | _ => None end.

Definition ex_range (s : memoryStore) : list Container := (map_to_list s).*2.

Lemma ex_range_all s c : c ∈ ex_range s ↔ ∃ k, s !! k = Some c.
Proof.
  unfold ex_range. rewrite list_elem_of_fmap. split.
  - intros ([k c'] & -> & Hk%elem_of_map_to_list). eauto.
  - intros [k Hk]. exists (k, c). split; [done|]. by apply elem_of_map_to_list.
Qed.

#[local] Existing Instance ex_lgr.
#[local] Existing Instance ex_retains.

Abbreviation ex_LS := (@layerStore (list bool) (list bool) string).

Definition ex_ops : list ReferenceStore.op := [OAddTag (namedRef "redis") "d(child)" false true].
Definition ex_tags : spec := (ReferenceStore.run ReferenceStore.spec_exec ex_ops ∅).2.

(** The child is tagged, a stopped container uses the parent. *)
Definition ex_daemon : @ImageDelete.Daemon ex_LS :=
  ImageDelete.mkDaemon ex_s3 (ReferenceStore.run ReferenceStore.exec ex_ops (mkStore ∅ ∅ None)).2 []
    {[ "c1" := mkContainer "c1" "d(app)" false ]} [] [].

Definition ex_delete (late : bool) (imageRef : string) (force prune : bool) (d : @ImageDelete.Daemon ex_LS) :=
  ImageDelete digest_grammar tag_digest ex_unmarshal (λ _, true) ex_Lookup ex_range late imageRef force prune d.

Lemma ex_sim : sim (referenceStore ex_daemon) ex_tags.
Proof. apply (run_sim digest_grammar ex_ops _ _ eq_refl sim_init). by intros r [? ?]. Qed.

(** One image with tags in two repositories, one of them a prefix of its ID. *)
Definition ex_ops2 : list ReferenceStore.op :=
  [OAddTag (namedRef "redis") "d(app)" false true; OAddTag (namedRef "d") "d(app)" false true].
Definition ex_tags2 : spec := (ReferenceStore.run ReferenceStore.spec_exec ex_ops2 ∅).2.
Definition ex_daemon2 : @ImageDelete.Daemon ex_LS :=
  ImageDelete.mkDaemon ex_s1 (ReferenceStore.run ReferenceStore.exec ex_ops2 (mkStore ∅ ∅ None)).2 [] ∅ [] [].

Lemma ex_sim2 : sim (referenceStore ex_daemon2) ex_tags2.
Proof. apply (run_sim digest_grammar ex_ops2 _ _ eq_refl sim_init). by intros r [? ?]. Qed.

(** The records of the first call: the tag and the child, and not the parent. *)
Example ex_records :
  let r := ex_delete true "redis" false true ex_daemon in
  (r.1, records r.2, (λ e, e.1.1) <$> events r.2) =
    (Ok tt, [Untagged "redis:latest"; Deleted "d(child)"], ["untag"; "delete"]).
Proof. vm_compute. reflexivity. Qed.

Lemma ImageDelete_refines_witness :
  ∃ tgt tr m', deletes digest_grammar tag_digest ex_unmarshal ex_Lookup true "redis" false true ex_daemon ex_tags
                 (Ok tt) (ex_delete true "redis" false true ex_daemon).2 tgt tr m'.
Proof.
  apply (ImageDelete_refines digest_grammar tag_digest ex_unmarshal (λ _, true) ex_Lookup ex_range true ex_range_all
           digest_grammar_sha256 "redis" false true ex_daemon ex_tags).
  - apply ex_sim.
  - vm_compute. reflexivity.
Defined.

(** The child is gone, and nothing referred to it. *)
Lemma ImageDelete_safe_witness :
  let d' := (ex_delete true "redis" false true ex_daemon).2 in
  (∀ c, c ∈ Children "d(child)" (imageStore ex_daemon) → c ∉ dom (images (imageStore d'))) ∧
  ¬ in_use_running (containers ex_daemon) "d(child)" ∧ refs_of "d(child)" d' = [] ∧
  (false = false → ¬ in_use (containers ex_daemon) "d(child)") ∧
  (GetImageID digest_grammar tag_digest ex_unmarshal ex_Lookup "redis" ex_daemon ≠ Ok "d(child)" →
     ¬ in_use (containers ex_daemon) "d(child)" ∧ refs_of "d(child)" ex_daemon = []).
Proof.
  intros d'. apply (ImageDelete_safe digest_grammar tag_digest ex_unmarshal (λ _, true) ex_Lookup ex_range true ex_range_all
    digest_grammar_sha256 "redis" false true ex_daemon ex_tags (Ok tt) d' "d(child)").
  - apply ex_sim.
  - vm_compute. reflexivity.
  - apply elem_of_dom. vm_compute. eauto.
  - apply not_elem_of_dom. vm_compute. reflexivity.
Defined.

Lemma imageDeleteHelper_terminates_witness :
  let helper n := imageDeleteHelper tag_digest (λ _, true) ex_range n "d(child)" true true false ex_daemon in
  helper 7 = helper (helper_fuel ex_daemon) ∧ ¬ exhausted (helper 7).
Proof.
  apply (imageDeleteHelper_terminates tag_digest (λ _, true) ex_range ex_range_all 7 "d(child)" true true false ex_daemon ex_tags).
  - apply ex_sim.
  - apply Nat.ltb_lt. vm_compute. reflexivity.
Defined.

(** "redis:d" resolves through the identifier "d(app)"; it cannot be removed. *)
Lemma ImageDelete_not_a_tag_witness :
  ex_delete true "redis:d" true false ex_daemon2 = (Err (ERefStore ErrDoesNotExist), set_records [] ex_daemon2).
Proof.
  apply (ImageDelete_not_a_tag digest_grammar tag_digest ex_unmarshal (λ _, true) ex_Lookup ex_range true
           "redis:d" "d(app)" (taggedRef "redis" "d") false ex_daemon2 ex_tags2).
  - apply ex_sim2.
  - vm_compute. reflexivity.
  - vm_compute. reflexivity.
  - vm_compute. reflexivity.
  - vm_compute. reflexivity.
Defined.

(** The tag "d:latest" cannot be removed by its name "d". *)
Lemma ImageDelete_tag_like_id_witness :
  conflict_on "d(app)" ex_daemon2 (ex_delete true "d" false false ex_daemon2).
Proof.
  apply (ImageDelete_tag_like_id digest_grammar tag_digest ex_unmarshal (λ _, true) ex_Lookup ex_range true
           "d" "d(app)" false ex_daemon2).
  - vm_compute. reflexivity.
  - vm_compute. reflexivity.
  - vm_compute. reflexivity.
  - vm_compute. discriminate.
Defined.

Lemma ireach_mono {LS} `{!LayerGetReleaser LS} (FromBytes : string → string) Unmarshal Validate
    (P Q : @ImageStore.store LS → iop → Prop) l0 script s :
  (∀ s op, P s op → Q s op) →
  ireach FromBytes Unmarshal Validate P l0 script s → ireach FromBytes Unmarshal Validate Q l0 script s.
Proof. intros H. induction 1; [apply ir_init|]. eapply ir_step; eauto. Qed.

Lemma ex_IInv : IInv tag_digest ex_unmarshal (imageStore ex_daemon).
Proof.
  apply (ireach_IInv tag_digest ex_unmarshal (λ _, true) ex_layers []); [apply ex_layers_inv|].
  eapply ireach_mono; [|apply ex_reach]. by intros s op [? _].
Qed.

Lemma ex_live : tags_live ex_daemon.
Proof.
  intros id Hid. destruct (refs_of id ex_daemon) as [|r l] eqn:Hl; [done|].
  assert (r ∈ refs_of id ex_daemon) as Hr by (rewrite Hl; by left).
  apply (refs_of_spec id ex_daemon ex_tags r ex_sim) in Hr.
  assert (ex_tags = {[ taggedRef "redis" "latest" := "d(child)" ]}) as Ht.
  { unfold ex_tags, ex_ops, ReferenceStore.run, ReferenceStore.spec_exec, spec_add. cbn [isCanonical WithDefaultTag Name].
    rewrite lookup_empty. rewrite !bool_decide_eq_false_2 by (by intros [? ?] || done). done. }
  rewrite Ht in Hr. apply lookup_singleton_Some in Hr as [_ <-]. apply elem_of_dom. vm_compute. eauto.
Qed.

Lemma ImageDelete_keeps_stores_witness :
  let d' := (ex_delete true "redis" false true ex_daemon).2 in
  tags_live d' ∧ IInv tag_digest ex_unmarshal (imageStore d') ∧
  (CInv tag_digest (imageStore ex_daemon) → CInv tag_digest (imageStore d')).
Proof.
  intros d'. apply (ImageDelete_keeps_stores digest_grammar tag_digest ex_unmarshal (λ _, true) ex_Lookup ex_range true
    ex_range_all digest_grammar_sha256 "redis" false true ex_daemon ex_tags (Ok tt) d').
  - apply ex_sim.
  - apply ex_live.
  - apply ex_IInv.
  - vm_compute. reflexivity.
Defined.

(** When [records] is read before the call, a deletion by identifier removes
    the image and its tags and returns an empty list. *)
Example early_read :
  let report late := let r := ex_delete late "d" true false ex_daemon2 in (r.1, records r.2) in
  report true = (Ok tt, [Untagged "d:latest"; Untagged "redis:latest"; Deleted "d(app)"]) ∧
  report false = (Ok tt, []).
Proof. vm_compute. done. Qed.
