(* ===== verification/Locker.v ===== *)
(** * pkg/locker and the reference counter of the graph drivers

    Models [src/pkg/locker/locker.go] (Section [Locker]): locks with a name
    that come into being when they are first taken and go when nobody needs
    them.  [Lock] gives up the main mutex before it waits for the lock of the
    name, so that it is three steps of a thread: find or make the lock and
    announce oneself, take its mutex, withdraw the announcement.  [Unlock]
    keeps the main mutex throughout and is one step.  The theorem ranges over
    all interleavings of any number of threads.

    Models [src/daemon/graphdriver/counter.go] (Section [RefCounter]), which
    returns a count that it reads after giving up its mutex: two steps. *)

From S2P Require Import Prelude.

(** ** Counting threads *)

Lemma count_map_replace {K V} `{Countable K} (P : K * V → Prop) `{!∀ kv, Decision (P kv)} (m : gmap K V) k v v' :
  m !! k = Some v →
  count_map P (<[k := v']> m) + (if decide (P (k, v)) then 1 else 0)
  = count_map P m + (if decide (P (k, v')) then 1 else 0).
Proof.
  intros Hk. rewrite <-(insert_delete_eq m k v'), count_map_insert by apply lookup_delete_eq.
  rewrite (count_map_delete P m k v Hk). lia.
Qed.

Lemma count_map_one {K V} `{Countable K} (P : K * V → Prop) `{!∀ kv, Decision (P kv)} (m : gmap K V) k1 k2 v1 v2 :
  count_map P m ≤ 1 → m !! k1 = Some v1 → m !! k2 = Some v2 → P (k1, v1) → P (k2, v2) → k1 = k2.
Proof.
  intros Hc H1 H2 P1 P2. destruct (decide (k1 = k2)) as [|Hne]; [done|].
  rewrite (count_map_delete P m k1 v1 H1), decide_True in Hc by done.
  assert (0 < count_map P (delete k1 m)); [|lia].
  apply (count_map_pos P _ k2 v2); [|done]. by rewrite lookup_delete_ne.
Qed.

Lemma count_map_exists {K V} `{Countable K} (P : K * V → Prop) `{!∀ kv, Decision (P kv)} (m : gmap K V) :
  0 < count_map P m → ∃ k v, m !! k = Some v ∧ P (k, v).
Proof.
  unfold count_map. intros Hs. destruct (map_choose (filter P m)) as (k & v & Hk).
  - intros E. rewrite E, map_size_empty in Hs. lia.
  - apply map_lookup_filter_Some in Hk as [? ?]. eauto.
Qed.

Section Locker.
Abbreviation loc := nat.

(** ** The code *)

Record lockCtr := mkCtr { mu : bool; waiters : nat }.

Record Locker := mkLocker {
  locks : gmap string loc;
  heap : gmap loc lockCtr;             (* the [*lockCtr] that were made *)
  next : loc;
}.

Inductive lock_error := ErrNoSuchLock.

Definition New : Locker := mkLocker ∅ ∅ 0.

Definition inc (c : lockCtr) : lockCtr := mkCtr (mu c) (S (waiters c)).
Definition dec (c : lockCtr) : lockCtr := mkCtr (mu c) (waiters c - 1).
Definition count (c : lockCtr) : nat := waiters c.

Definition update (l : loc) (f : lockCtr → lockCtr) (s : Locker) : Locker :=
  mkLocker (locks s) (alter f l (heap s)) (next s).

(** [Lock] up to [l.mu.Unlock()]: the lock of the name, with one waiter more. *)
Definition Lock_enter (name : string) (s : Locker) : loc * Locker :=
  match locks s !! name with
  | Some l => (l, update l inc s)
  | None =>
      let l := next s in
      (l, update l inc (mkLocker (<[name := l]> (locks s)) (<[l := mkCtr false 0]> (heap s)) (S l)))
  end.

(** [nameLock.Lock()] when the mutex is free, [None] while it is not. *)
Definition Lock_acquire (l : loc) (s : Locker) : option Locker :=
  match heap s !! l with
  | Some (mkCtr false _) => Some (update l (λ c, mkCtr true (waiters c)) s)
  | _ => None
  end.

(** [nameLock.dec()]. *)
Definition Lock_dec (l : loc) (s : Locker) : Locker := update l dec s.

Definition Unlock (name : string) (s : Locker) : outcome lock_error unit * Locker :=
  match locks s !! name with
  | None => (Err ErrNoSuchLock, s)
  | Some l =>
      match heap s !! l with
      | None => (Panic "nil pointer dereference", s)
      | Some c =>
          let s := if decide (count c = 0) then mkLocker (delete name (locks s)) (heap s) (next s) else s in
          if mu c then (Ok tt, update l (λ c, mkCtr false (waiters c)) s)
          else (Panic "sync: unlock of unlocked mutex", s)
      end
  end.

(** ** Threads *)

(** Where a thread that is not idle is. *)
Inductive pc :=
| Waiting (name : string) (l : loc)    (* announced *)
| Acquired (name : string) (l : loc)   (* has the mutex, still announced *)
| Holding (name : string).             (* [Lock] returned *)

Record world := mkWorld { lk : Locker; threads : gmap nat pc }.

Inductive step : world → world → Prop :=
| s_enter t name s ts l s' :
    ts !! t = None → Lock_enter name s = (l, s') →
    step (mkWorld s ts) (mkWorld s' (<[t := Waiting name l]> ts))
| s_acquire t name l s ts s' :
    ts !! t = Some (Waiting name l) → Lock_acquire l s = Some s' →
    step (mkWorld s ts) (mkWorld s' (<[t := Acquired name l]> ts))
| s_dec t name l s ts :
    ts !! t = Some (Acquired name l) →
    step (mkWorld s ts) (mkWorld (Lock_dec l s) (<[t := Holding name]> ts))
| s_unlock t name s ts o s' :
    ts !! t = Some (Holding name) → Unlock name s = (o, s') →
    step (mkWorld s ts) (mkWorld s' (delete t ts)).

Inductive reachable : world → Prop :=
| r_init : reachable (mkWorld New ∅)
| r_step w w' : reachable w → step w w' → reachable w'.

Definition announced (name : string) (x : nat * pc) : Prop :=
  match x.2 with Waiting n _ | Acquired n _ => n = name | Holding _ => False end.
Definition owns (name : string) (x : nat * pc) : Prop :=
  match x.2 with Acquired n _ | Holding n => n = name | Waiting _ _ => False end.

#[local] Instance announced_dec name x : Decision (announced name x).
Proof. unfold announced. destruct x.2; apply _. Defined.
#[local] Instance owns_dec name x : Decision (owns name x).
Proof. unfold owns. destruct x.2; apply _. Defined.

Definition target (p : pc) : option loc := match p with Waiting _ l | Acquired _ l => Some l | Holding _ => None end.
Definition pc_name (p : pc) : string := match p with Waiting n _ | Acquired n _ | Holding n => n end.

(** ** The invariant *)

(** The threads that announced themselves for a name, and those that own it. *)
Definition n_announced (name : string) (ts : gmap nat pc) : nat := count_map (announced name) ts.
Definition n_owns (name : string) (ts : gmap nat pc) : nat := count_map (owns name) ts.

(** The lock of a name counts the threads that announced themselves, its mutex
    is taken when one owns it, and it is in the map as long as there are any. *)
Definition name_ok (s : Locker) (name : string) (a o : nat) : Prop :=
  match locks s !! name with
  | Some l => ∃ c, heap s !! l = Some c ∧ waiters c = a ∧ o = (if mu c then 1 else 0) ∧ 0 < a + o
  | None => a = 0 ∧ o = 0
  end.

Record LInv (w : world) : Prop := mkLInv {
  li_fresh : ∀ name l, locks (lk w) !! name = Some l → l < next (lk w);
  li_inj : ∀ n1 n2 l, locks (lk w) !! n1 = Some l → locks (lk w) !! n2 = Some l → n1 = n2;
  li_target : ∀ t p l, threads w !! t = Some p → target p = Some l → locks (lk w) !! pc_name p = Some l;
  li_name : ∀ name, name_ok (lk w) name (n_announced name (threads w)) (n_owns name (threads w));
}.

Lemma LInv_start : LInv (mkWorld New ∅).
Proof.
  by constructor; simpl; intros *; rewrite ?lookup_empty.
Qed.

Definition ann (name : string) (p : option pc) : nat :=
  match p with Some (Waiting n _ | Acquired n _) => if decide (n = name) then 1 else 0 | _ => 0 end.
Definition own (name : string) (p : option pc) : nat :=
  match p with Some (Acquired n _ | Holding n) => if decide (n = name) then 1 else 0 | _ => 0 end.

(** A thread moves from [ts !! t] to [p]. *)
Lemma n_announced_step name ts t p :
  n_announced name (partial_alter (λ _, p) t ts) + ann name (ts !! t) = n_announced name ts + ann name p.
Proof.
  assert (∀ q : pc, (if decide (announced name (t, q)) then 1 else 0) = ann name (Some q)) as Hq.
  { intros [n l|n l|n]; unfold announced; simpl; repeat case_decide; done. }
  unfold n_announced. destruct (ts !! t) as [q|] eqn:Ht, p as [p|].
  - rewrite <-!Hq. apply count_map_replace, Ht.
  - change (partial_alter (λ _, None) t ts) with (delete t ts).
    rewrite (count_map_delete (announced name) ts t q Ht), Hq. simpl. lia.
  - change (partial_alter (λ _, Some p) t ts) with (<[t := p]> ts).
    rewrite count_map_insert by done. rewrite Hq. simpl. lia.
  - change (partial_alter (λ _, None) t ts) with (delete t ts). by rewrite delete_id.
Qed.

Lemma n_owns_step name ts t p :
  n_owns name (partial_alter (λ _, p) t ts) + own name (ts !! t) = n_owns name ts + own name p.
Proof.
  assert (∀ q : pc, (if decide (owns name (t, q)) then 1 else 0) = own name (Some q)) as Hq.
  { intros [n l|n l|n]; unfold owns; simpl; repeat case_decide; done. }
  unfold n_owns. destruct (ts !! t) as [q|] eqn:Ht, p as [p|].
  - rewrite <-!Hq. apply count_map_replace, Ht.
  - change (partial_alter (λ _, None) t ts) with (delete t ts).
    rewrite (count_map_delete (owns name) ts t q Ht), Hq. simpl. lia.
  - change (partial_alter (λ _, Some p) t ts) with (<[t := p]> ts).
    rewrite count_map_insert by done. rewrite Hq. simpl. lia.
  - change (partial_alter (λ _, None) t ts) with (delete t ts). by rewrite delete_id.
Qed.

(** A change of one lock leaves the other names alone. *)
Lemma name_ok_other s l f name l' :
  locks s !! name = Some l' → l' ≠ l → ∀ a o, name_ok s name a o → name_ok (update l f s) name a o.
Proof.
  intros Hn Hl a o. unfold name_ok. simpl. rewrite Hn, lookup_alter_ne by done. done.
Qed.

(** What is to be shown after a thread [t] at the name [n] moved to [p]: the
    map of the locks changed at [n] only, and the other locks are as before. *)
Lemma LInv_move s ts s' t p n l0 :
  LInv (mkWorld s ts) →
  (ts !! t = None ∨ ∃ q, ts !! t = Some q ∧ pc_name q = n) → (∀ q, p = Some q → pc_name q = n) →
  next s ≤ next s' → (∀ n', n' ≠ n → locks s' !! n' = locks s !! n') →
  (∀ l', l' ≠ l0 → l' < next s → heap s' !! l' = heap s !! l') →
  (∀ n', n' ≠ n → locks s !! n' ≠ Some l0) →
  (∀ l, locks s' !! n = Some l → l = l0 ∧ l < next s') →
  (∀ t' q l, ts !! t' = Some q → t' ≠ t → pc_name q = n → target q = Some l → locks s' !! n = Some l) →
  (∀ q l, p = Some q → target q = Some l → locks s' !! n = Some l) →
  name_ok s' n (n_announced n ts + ann n p - ann n (ts !! t)) (n_owns n ts + own n p - own n (ts !! t)) →
  LInv (mkWorld s' (partial_alter (λ _, p) t ts)).
Proof.
  intros [I1 I2 I3 I4] Hold Hnew Hnext Hlocks Hheap Hl0 Hl Hothers Hp Hname. simpl in *.
  constructor; simpl.
  - intros n' l Hn'. destruct (decide (n' = n)) as [->|Hne]; [by apply Hl|].
    rewrite Hlocks in Hn' by done. apply I1 in Hn'. lia.
  - intros n1 n2 l H1 H2. destruct (decide (n1 = n)) as [->|N1], (decide (n2 = n)) as [->|N2]; [done|..].
    + destruct (Hl l H1) as [-> _]. rewrite Hlocks in H2 by done. by apply Hl0 in H2.
    + destruct (Hl l H2) as [-> _]. rewrite Hlocks in H1 by done. by apply Hl0 in H1.
    + rewrite Hlocks in H1, H2 by done. eauto.
  - intros t' q l Ht' Hq'. destruct (decide (t' = t)) as [->|Hne].
    + rewrite lookup_partial_alter_eq in Ht'. subst p. rewrite (Hnew q) by done. eauto.
    + rewrite lookup_partial_alter_ne in Ht' by done. destruct (decide (pc_name q = n)) as [E|N].
      * rewrite E. eauto.
      * rewrite Hlocks by done. eauto.
  - intros n'. pose proof (n_announced_step n' ts t p) as Ha. pose proof (n_owns_step n' ts t p) as Ho.
    destruct (decide (n' = n)) as [->|Hne].
    + replace (n_announced n (partial_alter _ t ts)) with (n_announced n ts + ann n p - ann n (ts !! t)) by lia.
      replace (n_owns n (partial_alter _ t ts)) with (n_owns n ts + own n p - own n (ts !! t)) by lia. done.
    + assert (∀ x, x = ts !! t ∨ x = p → ann n' x = 0 ∧ own n' x = 0) as H0.
      { intros x Hx. assert (∀ q, x = Some q → pc_name q = n) as Hxq.
        { intros q ->. destruct Hx as [Hx|Hx]; [|by apply Hnew]. destruct Hold as [Hold|(q' & Hold & <-)]; congruence. }
        destruct x as [[m l|m l|m]|]; [specialize (Hxq _ eq_refl); simpl in *; subst; by rewrite ?decide_False..|done]. }
      destruct (H0 (ts !! t)) as [A1 A2]; [by left|]. destruct (H0 p) as [B1 B2]; [by right|].
      rewrite A1, B1, !Nat.add_0_r in Ha. rewrite A2, B2, !Nat.add_0_r in Ho. rewrite Ha, Ho.
      specialize (I4 n'). unfold name_ok in *. rewrite Hlocks by done.
      destruct (locks s !! n') as [l'|] eqn:El; [|done]. rewrite Hheap; [done| |by eapply I1].
      intros ->. by apply (Hl0 n').
Qed.

Lemma step_enter s ts t name l s' :
  LInv (mkWorld s ts) → ts !! t = None → Lock_enter name s = (l, s') →
  LInv (mkWorld s' (<[t := Waiting name l]> ts)).
Proof.
  intros I Ht E. pose proof (li_name _ I name) as Hn. unfold name_ok in Hn. simpl in Hn.
  unfold Lock_enter in E. destruct (locks s !! name) as [l1|] eqn:Hl.
  - simplify_eq. destruct Hn as (c & Hc & Hw & Ho & Hpos).
    apply (LInv_move s ts _ t (Some (Waiting name l)) name l I); simpl; [by left|naive_solver|lia|done| | | | | |].
    + intros l' ? _. by rewrite lookup_alter_ne.
    + intros n' Hne Hn'. by apply Hne, (li_inj _ I n' name l).
    + intros l' Hl'. rewrite Hl in Hl'. simplify_eq. split; [done|]. by apply (li_fresh _ I name).
    + intros t' q l' Ht' _ Hq Htg. rewrite <-Hq. by apply (li_target _ I t' q l').
    + by intros q l' [= <-] [= <-].
    + unfold name_ok. simpl. rewrite Hl, lookup_alter_eq, Hc, Ht. simpl. rewrite decide_True by done.
      eexists. split; [done|]. simpl. rewrite Hw, Ho. split_and!; lia.
  - simplify_eq. destruct Hn as [Ha Ho].
    apply (LInv_move s ts _ t (Some (Waiting name (next s))) name (next s) I); simpl; [by left|naive_solver|lia| | | | | | |].
    + intros n' ?. by rewrite lookup_insert_ne.
    + intros l' ? _. by rewrite lookup_alter_ne, lookup_insert_ne.
    + intros n' _ Hn'. apply (li_fresh _ I) in Hn'. simpl in Hn'. lia.
    + intros l' Hl'. rewrite lookup_insert_eq in Hl'. simplify_eq. split; [done|lia].
    + intros t' q l' Ht' _ Hq Htg. pose proof (li_target _ I t' q l' Ht' Htg) as Hx. simpl in Hx. congruence.
    + intros q l' [= <-] [= <-]. by rewrite lookup_insert_eq.
    + unfold name_ok. simpl. rewrite lookup_insert_eq, lookup_alter_eq, lookup_insert_eq, Ht. simpl.
      rewrite decide_True by done. eexists. split; [done|]. simpl. rewrite Ha, Ho. split_and!; lia.
Qed.

Lemma owner_counted ts t p name : ts !! t = Some p → own name (Some p) ≤ n_owns name ts.
Proof.
  intros Ht. unfold n_owns. destruct (decide (owns name (t, p))) as [Ho|Ho].
  - pose proof (count_map_pos (owns name) ts t p Ht Ho). destruct p; simpl; try case_decide; lia.
  - destruct p; simpl; try case_decide; simplify_eq; try lia; by destruct Ho.
Qed.

Lemma announced_counted ts t p name : ts !! t = Some p → ann name (Some p) ≤ n_announced name ts.
Proof.
  intros Ht. unfold n_announced. destruct (decide (announced name (t, p))) as [Ho|Ho].
  - pose proof (count_map_pos (announced name) ts t p Ht Ho). destruct p; simpl; try case_decide; lia.
  - destruct p; simpl; try case_decide; simplify_eq; try lia; by destruct Ho.
Qed.

(** The lock of a thread that is waiting for it or has just taken it. *)
Lemma target_lock s ts t p l :
  LInv (mkWorld s ts) → ts !! t = Some p → target p = Some l →
  locks s !! pc_name p = Some l ∧
  ∃ c, heap s !! l = Some c ∧ waiters c = n_announced (pc_name p) ts ∧
       n_owns (pc_name p) ts = (if mu c then 1 else 0) ∧ 0 < waiters c.
Proof.
  intros I Ht Hp. pose proof (li_target _ I t p l Ht Hp) as Hl. simpl in Hl. split; [done|].
  pose proof (li_name _ I (pc_name p)) as Hn. unfold name_ok in Hn. simpl in Hn. rewrite Hl in Hn.
  destruct Hn as (c & Hc & Hw & Ho & _). exists c. split_and!; try done.
  pose proof (announced_counted ts t p (pc_name p) Ht) as Ha.
  destruct p; simpl in *; [rewrite decide_True in Ha by done; lia..|done].
Qed.

(** A thread of the name [n] moves and the lock [l] of [n] is changed. *)
Lemma LInv_update s ts t q p l f c :
  LInv (mkWorld s ts) → ts !! t = Some q → locks s !! pc_name q = Some l → heap s !! l = Some c →
  pc_name p = pc_name q → (target p = None ∨ target p = Some l) →
  name_ok (update l f s) (pc_name q) (n_announced (pc_name q) ts + ann (pc_name q) (Some p) - ann (pc_name q) (Some q))
    (n_owns (pc_name q) ts + own (pc_name q) (Some p) - own (pc_name q) (Some q)) →
  LInv (mkWorld (update l f s) (<[t := p]> ts)).
Proof.
  intros I Ht Hl Hc Hpn Hpt Hn.
  apply (LInv_move s ts _ t (Some p) (pc_name q) l I); simpl; [right; eauto|by intros ? [= <-]|lia|done| | | | | |].
  - intros l' ? _. by rewrite lookup_alter_ne.
  - intros n' Hne Hn'. by apply Hne, (li_inj _ I n' (pc_name q) l).
  - intros l' Hl'. rewrite Hl in Hl'. simplify_eq. split; [done|]. by apply (li_fresh _ I (pc_name q)).
  - intros t' q' l' Ht' _ Hq Htg. rewrite <-Hq. by apply (li_target _ I t' q' l').
  - intros q' l' [= <-] Htg. destruct Hpt; congruence.
  - by rewrite Ht.
Qed.

Lemma step_acquire s ts t name l s' :
  LInv (mkWorld s ts) → ts !! t = Some (Waiting name l) → Lock_acquire l s = Some s' →
  LInv (mkWorld s' (<[t := Acquired name l]> ts)).
Proof.
  intros I Ht E. destruct (target_lock s ts t _ l I Ht eq_refl) as (Hl & c & Hc & Hw & Ho & Hpos). simpl in *.
  unfold Lock_acquire in E. rewrite Hc in E. destruct c as [[] w]; simplify_eq.
  eapply LInv_update; [done..|by right|]. unfold name_ok. simpl. rewrite Hl, lookup_alter_eq, Hc. simpl.
  rewrite !decide_True by done. eexists. split; [done|]. simpl in *. rewrite Ho. split_and!; lia.
Qed.

Lemma step_dec s ts t name l :
  LInv (mkWorld s ts) → ts !! t = Some (Acquired name l) →
  LInv (mkWorld (Lock_dec l s) (<[t := Holding name]> ts)).
Proof.
  intros I Ht. destruct (target_lock s ts t _ l I Ht eq_refl) as (Hl & c & Hc & Hw & Ho & Hpos). simpl in *.
  pose proof (owner_counted ts t _ name Ht) as Hown. simpl in Hown. rewrite decide_True in Hown by done.
  destruct c as [[] w]; simpl in *; [|lia].
  eapply LInv_update; [done..|by left|]. unfold name_ok. simpl. rewrite Hl, lookup_alter_eq, Hc. simpl.
  rewrite !decide_True by done. eexists. split; [done|]. simpl. rewrite Ho. split_and!; lia.
Qed.

(** The owner of a name unlocks it: no error, no panic. *)
Lemma step_unlock s ts t name o s' :
  LInv (mkWorld s ts) → ts !! t = Some (Holding name) → Unlock name s = (o, s') →
  o = Ok tt ∧ LInv (mkWorld s' (delete t ts)).
Proof.
  intros I Ht E. pose proof (owner_counted ts t _ name Ht) as Hown. simpl in Hown.
  rewrite decide_True in Hown by done.
  pose proof (li_name _ I name) as Hn. unfold name_ok in Hn. simpl in Hn. unfold Unlock in E.
  destruct (locks s !! name) as [l|] eqn:Hl; [|lia]. destruct Hn as (c & Hc & Hw & Ho & _).
  rewrite Hc in E. destruct (mu c) eqn:Hmu; [|lia]. simplify_eq. split; [done|].
  assert (∀ n', n' ≠ name → locks s !! n' ≠ Some l) as Hl0.
  { intros n' Hne Hn'. by apply Hne, (li_inj _ I n' name l). }
  assert (∀ t' q l', ts !! t' = Some q → t' ≠ t → pc_name q = name → target q = Some l' →
            locks s !! name = Some l' ∧ count c ≠ 0) as Hoth.
  { intros t' q l' Ht' _ Hq Htg. split; [rewrite <-Hq; by apply (li_target _ I t' q l')|].
    destruct (target_lock s ts t' q l' I Ht' Htg) as (_ & c' & _ & Hw' & _ & Hp). rewrite Hq in Hw'.
    unfold count. lia. }
  apply (LInv_move s ts _ t None name l I); simpl; [right; eauto|by intros|by case_decide| | |done| | |by intros|].
  - intros n' ?. case_decide; simpl; [by rewrite lookup_delete_ne|done].
  - intros l' ? _. rewrite lookup_alter_ne by done. by case_decide.
  - intros l' Hl'. case_decide; simpl in *; [by rewrite lookup_delete_eq in Hl'|]. rewrite Hl in Hl'. simplify_eq.
    split; [done|]. by apply (li_fresh _ I name).
  - intros t' q l' Ht' Hne Hq Htg. destruct (Hoth t' q l' Ht' Hne Hq Htg) as [Hx Hz]. by rewrite decide_False.
  - unfold name_ok. simpl. rewrite Ht. simpl. rewrite (decide_True (P := name = name)) by done.
    unfold count. case_decide; simpl.
    + rewrite lookup_delete_eq. lia.
    + rewrite Hl, lookup_alter_eq, Hc. eexists. split; [done|]. simpl. rewrite Ho. split_and!; lia.
Qed.

Lemma reachable_LInv w : reachable w → LInv w.
Proof.
  induction 1 as [|w w' _ IH Hs]; [apply LInv_start|]. destruct Hs.
  - by eapply step_enter.
  - by eapply step_acquire.
  - by eapply step_dec.
  - by eapply step_unlock.
Qed.

(** In every interleaving of any number of threads: at most one thread is
    between [Lock(name)] and [Unlock(name)]; the thread that is there unlocks
    without an error or a panic; a thread that waits while no other has the
    lock can take it; and the map has an entry for exactly the names that a
    thread holds or waits for, so that locks are neither lost nor leaked. *)
Theorem locker_correct w :
  reachable w →
  (∀ name t1 t2 p1 p2, threads w !! t1 = Some p1 → threads w !! t2 = Some p2 →
     owns name (t1, p1) → owns name (t2, p2) → t1 = t2) ∧
  (∀ t name, threads w !! t = Some (Holding name) → (Unlock name (lk w)).1 = Ok tt) ∧
  (∀ t name l, threads w !! t = Some (Waiting name l) →
     (∀ t' p, threads w !! t' = Some p → ¬ owns name (t', p)) → is_Some (Lock_acquire l (lk w))) ∧
  (∀ name, is_Some (locks (lk w) !! name) ↔ ∃ t p, threads w !! t = Some p ∧ pc_name p = name).
Proof.
  intros Hr. pose proof (reachable_LInv w Hr) as I. destruct w as [s ts]. simpl. split_and!.
  - intros name t1 t2 p1 p2 H1 H2. apply (count_map_one (owns name) ts t1 t2 p1 p2); [|done..].
    pose proof (li_name _ I name) as Hn. unfold name_ok, n_owns in Hn. simpl in Hn.
    destruct (locks s !! name); [|lia]. destruct Hn as (c & _ & _ & -> & _). destruct (mu c); lia.
  - intros t name Ht. destruct (Unlock name s) as [o s'] eqn:E. by destruct (step_unlock s ts t name o s' I Ht E).
  - intros t name l Ht Hno. destruct (target_lock s ts t _ l I Ht eq_refl) as (Hl & c & Hc & _ & Ho & _). simpl in *.
    unfold Lock_acquire. rewrite Hc. destruct c as [[] x]; simpl in *; [|done].
    destruct (count_map_exists (owns name) ts) as (t' & p & Ht' & Hown); [unfold n_owns in Ho; lia|].
    by destruct (Hno t' p Ht').
  - intros name. pose proof (li_name _ I name) as Hn. unfold name_ok, n_announced, n_owns in Hn. simpl in Hn. split.
    + intros [l Hl]. rewrite Hl in Hn. destruct Hn as (c & _ & _ & _ & Hpos).
      destruct (decide (0 < count_map (announced name) ts)) as [Ha|Ha].
      * destruct (count_map_exists _ ts Ha) as (t & p & Ht & Hp). exists t, p. split; [done|]. by destruct p.
      * destruct (count_map_exists (owns name) ts) as (t & p & Ht & Hp); [lia|]. exists t, p. split; [done|]. by destruct p.
    + intros (t & p & Ht & <-). destruct (locks s !! pc_name p); [done|]. destruct Hn as [H1 H2].
      pose proof (count_map_0 _ ts t p H1 Ht). pose proof (count_map_0 _ ts t p H2 Ht). by destruct p.
Qed.

(** Two threads for one name: the second waits. *)
Definition ex_world : world :=
  let '(l, s1) := Lock_enter "v" New in
  let s2 := default s1 (Lock_acquire l s1) in
  let '(l', s3) := Lock_enter "v" s2 in
  mkWorld s3 (<[1 := Waiting "v" l']> (<[0 := Acquired "v" l]> ∅)).

Lemma ex_world_reachable : reachable ex_world.
Proof.
  eapply r_step; [eapply r_step; [eapply r_step; [apply r_init|]|]|].
  - by apply (s_enter 0 "v").
  - by eapply (s_acquire 0 "v" 0).
  - by apply (s_enter 1 "v").
Qed.

Lemma locker_correct_witness :
  (∀ t1 t2 p1 p2, threads ex_world !! t1 = Some p1 → threads ex_world !! t2 = Some p2 →
     owns "v" (t1, p1) → owns "v" (t2, p2) → t1 = t2) ∧ is_Some (locks (lk ex_world) !! "v").
Proof.
  destruct (locker_correct ex_world ex_world_reachable) as (H1 & _ & _ & H4). split; [apply (H1 "v")|].
  apply H4. exists 1, (Waiting "v" 0). split; reflexivity.
Defined.
End Locker.

(** ** The reference counter *)

Section RefCounter.
Local Open Scope Z_scope.

Record minfo := mkMinfo { mi_check : bool; mi_count : Z }.

(** The table; entries are never removed, so that a pointer into it is its key. *)
Definition RefCounter : Type := gmap string minfo.

Definition NewRefCounter : RefCounter := ∅.

(** The entry of a path, made and checked on first use; [mounted] is what
    [IsMounted] says at that time. *)
Definition checked (path : string) (mounted : bool) (c : RefCounter) : minfo :=
  let m := default (mkMinfo false 0) (c !! path) in
  if mi_check m then m
  else mkMinfo true (if mounted then wrap64 (mi_count m + 1) else mi_count m).

(** The regions of [Increment] and [Decrement] under the mutex. *)
Definition Increment_locked (path : string) (mounted : bool) (c : RefCounter) : RefCounter :=
  let m := checked path mounted c in
  <[path := mkMinfo (mi_check m) (wrap64 (mi_count m + 1))]> c.
Definition Decrement_locked (path : string) (mounted : bool) (c : RefCounter) : RefCounter :=
  let m := checked path mounted c in
  <[path := mkMinfo (mi_check m) (wrap64 (mi_count m - 1))]> c.

(** [return m.count], after [c.mu.Unlock()]. *)
Definition read_count (path : string) (c : RefCounter) : Z :=
  mi_count (default (mkMinfo false 0) (c !! path)).

(** The calls when nothing happens in between. *)
Definition Increment (path : string) (mounted : bool) (c : RefCounter) : Z * RefCounter :=
  let c := Increment_locked path mounted c in (read_count path c, c).
Definition Decrement (path : string) (mounted : bool) (c : RefCounter) : Z * RefCounter :=
  let c := Decrement_locked path mounted c in (read_count path c, c).

(** A history of calls: the sign of the call, its path, and whether the path
    is mounted when the call looks. *)
Record use := mkUse { up : bool; use_path : string; mounted_then : bool }.

Definition apply_use (c : RefCounter) (u : use) : RefCounter :=
  if up u then Increment_locked (use_path u) (mounted_then u) c
  else Decrement_locked (use_path u) (mounted_then u) c.

Definition uses_of (path : string) (us : list use) : list use := filter (λ u, use_path u = path) us.

(** The users of the path: one for a mount found at first, one per call. *)
Definition users (us : list use) : Z :=
  (match us with u :: _ => if mounted_then u then 1 else 0 | [] => 0 end)
  + foldr (λ u n, (if up u then 1 else -1) + n) 0 us.

Lemma wrap64_add a b : wrap64 (wrap64 a + b) = wrap64 (a + b).
Proof.
  unfold wrap64. f_equal.
  replace ((a + 2 ^ 63) `mod` 2 ^ 64 - 2 ^ 63 + b + 2 ^ 63) with ((a + 2 ^ 63) `mod` 2 ^ 64 + b) by lia.
  rewrite Zplus_mod_idemp_l. f_equal. lia.
Qed.

Lemma users_snoc us u : us ≠ [] → users (us ++ [u]) = users us + (if up u then 1 else -1).
Proof.
  intros Hne. unfold users. rewrite foldr_app. simpl.
  assert (∀ z, foldr (λ u n, (if up u then 1 else -1) + n) z us
               = foldr (λ u n, (if up u then 1 else -1) + n) 0 us + z) as Hz.
  { intros z. clear. induction us as [|x us IH]; simpl; [lia|]. rewrite IH. lia. }
  rewrite Hz. destruct us; [done|]. simpl. lia.
Qed.

Lemma foldl_count us path :
  foldl apply_use NewRefCounter us !! path =
    match uses_of path us with [] => None | l => Some (mkMinfo true (wrap64 (users l))) end.
Proof.
  induction us as [|u us IH] using rev_ind; [done|]. rewrite foldl_app. simpl. unfold uses_of in *.
  rewrite filter_app, filter_cons, filter_nil. destruct (decide (use_path u = path)) as [Hu|Hu].
  - assert (apply_use (foldl apply_use NewRefCounter us) u !! path =
            Some (let m := checked path (mounted_then u) (foldl apply_use NewRefCounter us) in
                  mkMinfo (mi_check m) (wrap64 (mi_count m + (if up u then 1 else -1))))) as ->.
    { unfold apply_use, Increment_locked, Decrement_locked. rewrite Hu. destruct (up u); apply lookup_insert_eq. }
    unfold checked. rewrite IH. destruct (filter _ us) as [|x l]; simpl.
    + unfold users. simpl. by destruct (mounted_then u), (up u).
    + f_equal. f_equal. rewrite wrap64_add. change (x :: l ++ [u]) with ((x :: l) ++ [u]). by rewrite users_snoc.
  - rewrite app_nil_r, <-IH. unfold apply_use, Increment_locked, Decrement_locked.
    destruct (up u); by apply lookup_insert_ne.
Qed.

(** After any sequence of calls the count of a path is the number of its users
    (modulo the width of [int]): the calls of [Increment] less those of
    [Decrement], and one for a mount that was there at the first call.  The
    calls for other paths do not matter. *)
Theorem RefCounter_exact us path :
  read_count path (foldl apply_use NewRefCounter us) = wrap64 (users (uses_of path us)).
Proof.
  unfold read_count. rewrite foldl_count. by destruct (uses_of path us).
Qed.

(** The count is read after the mutex was given up: when [n] callers increment
    a fresh path before any of them reads, all of them are told [n]; for
    [n > 1] none of them is told that it is the first, and none mounts. *)
Theorem RefCounter_race path (n : nat) :
  Z.of_nat n < 2 ^ 63 →
  read_count path (foldl apply_use NewRefCounter (replicate n (mkUse true path false))) = Z.of_nat n.
Proof.
  intros Hn. rewrite RefCounter_exact.
  assert (uses_of path (replicate n (mkUse true path false)) = replicate n (mkUse true path false)) as ->.
  { unfold uses_of. clear. induction n as [|n IH]; [done|]. simpl. rewrite filter_cons_True by done. by rewrite IH. }
  assert (users (replicate n (mkUse true path false)) = Z.of_nat n) as ->.
  { unfold users. clear. assert (∀ k, foldr (λ u m, (if up u then 1 else -1) + m) 0 (replicate k (mkUse true path false)) = Z.of_nat k)
      as H by (induction k as [|k IH]; simpl; lia).
    rewrite H. by destruct n. }
  apply wrap64_id. unfold in_int64. lia.
Qed.
End RefCounter.
