(* ===== verification/FileStore.v ===== *)
(** * layer: the metadata files

    Models [src/layer/filestore.go]: the files in which the layer store keeps
    what it knows about layers and mounts, as an instance of the interface
    [MetadataStore] that the layer store is written against.  The directory of
    the store is three tables: the layers by the two parts of their chain ID,
    the mounts by name, and the directories of open transactions.

    The script [io] says what becomes of the next write, rename or removal: it
    succeeds, fails without effect, or fails half-way (a file truncated, a
    directory with some of its files left).  A read fails when the file is not
    there.  The digest library and the encoding of descriptors are parameters. *)

From S2P Require Import Prelude.
From S2P Require Import GoStrings.
From S2P Require Import Reference.
From S2P Require Import LayerStore.
From S2P Require Import LayerInv.
From S2P Require Import LayerSafety.
Local Open Scope string_scope.

(** ** Decimal numbers *)

(** [fmt.Sprintf("%d", n)]. *)
Definition digit_char (d : Z) : ascii := byte_of (Z.to_N (d + 48)).

Fixpoint decimal_go (fuel : nat) (n : Z) (acc : string) : string :=
  match fuel with
  | O => acc
  | S fuel =>
      let acc := String (digit_char (n `mod` 10)) acc in
      if bool_decide (n `div` 10 = 0)%Z then acc else decimal_go fuel (n `div` 10) acc
  end.

Definition decimal (n : Z) : string :=
  if bool_decide (n < 0)%Z then String "-" (decimal_go 20 (- n) "") else decimal_go 20 n "".

(** ** The directory *)

Abbreviation dir := (gmap string string).

Inductive fault :=
| Succeeds
| FailsBefore
| FailsPartly (content : string) (kept : gset string).

Record fileMetadataStore := mkFms {
  layer_dirs : gmap (string * string) dir;   (* <root>/<algorithm>/<hex> *)
  mount_dirs : gmap string dir;              (* <root>/mounts/<name> *)
  tmp_dirs : gmap nat dir;                   (* <root>/tmp/layer-* *)
  next_tmp : nat;
  io : list fault;
}.

Definition set_layer_dirs (l : gmap (string * string) dir) (s : fileMetadataStore) : fileMetadataStore :=
  mkFms l (mount_dirs s) (tmp_dirs s) (next_tmp s) (io s).
Definition set_mount_dirs (l : gmap string dir) (s : fileMetadataStore) : fileMetadataStore :=
  mkFms (layer_dirs s) l (tmp_dirs s) (next_tmp s) (io s).
Definition set_tmp_dirs (l : gmap nat dir) (s : fileMetadataStore) : fileMetadataStore :=
  mkFms (layer_dirs s) (mount_dirs s) l (next_tmp s) (io s).

(** The fate of the next system call. *)
Definition next_fault (s : fileMetadataStore) : fault * fileMetadataStore :=
  match io s with
  | f :: l => (f, mkFms (layer_dirs s) (mount_dirs s) (tmp_dirs s) (next_tmp s) l)
  | [] => (Succeeds, s)
  end.

Definition eio : string := "input/output error".
Definition enoent : string := "no such file or directory".
Definition enotempty : string := "directory not empty".

(** [os.MkdirAll] of a directory that holds others. *)
Definition MkdirAll (s : fileMetadataStore) : option string * fileMetadataStore :=
  let '(f, s) := next_fault s in
  (match f with Succeeds => None | _ => Some eio end, s).

(** [ioutil.WriteFile]: the directory after it, with the error. *)
Definition WriteFile (f : fault) (name content : string) (d : dir) : option string * dir :=
  match f with
  | Succeeds => (None, <[name := content]> d)
  | FailsBefore => (Some eio, d)
  | FailsPartly c _ => (Some eio, <[name := c]> d)
  end.

(** [os.RemoveAll] of a directory of files, [None] when it is gone. *)
Definition RemoveAll (f : fault) (d : option dir) : option string * option dir :=
  match f with
  | Succeeds => (None, None)
  | FailsBefore => (Some eio, d)
  | FailsPartly _ kept => (Some eio, filter (λ kv, kv.1 ∈ kept) <$> d)
  end.

Section filestore.
Context {Desc : Type} (emptyDesc : Desc).
(** github.com/docker/distribution/digest and encoding/json. *)
Context (Algorithm Hex : string → string) (NewDigestFromHex : string → string → string).
Context (ParseDigest Validate : string → bool).
Context (Marshal : Desc → option string) (Unmarshal : string → option Desc).

Definition getLayerDirectory (c : string) : string * string := (Algorithm c, Hex c).

(** ** Transactions: the number of the temporary directory *)

Definition fms_StartTransaction (s : fileMetadataStore) : outcome string nat * fileMetadataStore :=
  let '(e, s) := MkdirAll s in
  match e with
  | Some e => (Err e, s)
  | None =>
      let '(f, s) := next_fault s in
      match f with
      | Succeeds =>
          let n := next_tmp s in
          (Ok n, mkFms (layer_dirs s) (mount_dirs s) (<[n := ∅]> (tmp_dirs s)) (S n) (io s))
      | _ => (Err eio, s)
      end
  end.

Definition tx_write (tx : nat) (name content : string) (s : fileMetadataStore) : option string * fileMetadataStore :=
  match tmp_dirs s !! tx with
  | None => (Some enoent, s)
  | Some d =>
      let '(f, s) := next_fault s in
      let '(e, d) := WriteFile f name content d in
      (e, set_tmp_dirs (<[tx := d]> (tmp_dirs s)) s)
  end.

Definition SetSize (tx : nat) (size : Z) := tx_write tx "size" (decimal size).
Definition SetParent (tx : nat) (parent : string) := tx_write tx "parent" parent.
Definition SetDiffID (tx : nat) (diff : string) := tx_write tx "diff" diff.
Definition SetCacheID (tx : nat) (cacheID : string) := tx_write tx "cache-id" cacheID.
Definition SetDescriptor (tx : nat) (ref : Desc) (s : fileMetadataStore) : option string * fileMetadataStore :=
  match Marshal ref with
  | None => (Some "json", s)
  | Some j => tx_write tx "descriptor.json" j s
  end.

(** The file is opened; what the caller writes to it later is not looked at. *)
Definition TarSplitWriter (tx : nat) := tx_write tx "tar-split.json.gz" "".

(** [os.Rename] onto a directory works when there is none or it is empty. *)
Definition Commit (tx : nat) (layer : string) (s : fileMetadataStore) : option string * fileMetadataStore :=
  let finalDir := getLayerDirectory layer in
  let '(e, s) := MkdirAll s in
  match e with
  | Some e => (Some e, s)
  | None =>
      let '(f, s) := next_fault s in
      match f, tmp_dirs s !! tx with
      | Succeeds, Some d =>
          if bool_decide (default ∅ (layer_dirs s !! finalDir) = ∅)
          then (None, set_tmp_dirs (delete tx (tmp_dirs s)) (set_layer_dirs (<[finalDir := d]> (layer_dirs s)) s))
          else (Some enotempty, s)
      | Succeeds, None => (Some enoent, s)
      | _, _ => (Some eio, s)
      end
  end.

Definition Cancel (tx : nat) (s : fileMetadataStore) : option string * fileMetadataStore :=
  let '(f, s) := next_fault s in
  let '(e, d) := RemoveAll f (tmp_dirs s !! tx) in
  (e, set_tmp_dirs (partial_alter (λ _, d) tx (tmp_dirs s)) s).

(** ** Reading layers *)

Definition layer_file (c name : string) (s : fileMetadataStore) : option string :=
  layer_dirs s !! getLayerDirectory c ≫= λ d, d !! name.

Definition GetSize (c : string) (s : fileMetadataStore) : outcome string Z :=
  match layer_file c "size" s with
  | None => Err enoent
  | Some content => match Atoi content with Some n => Ok n | None => Err "invalid syntax" end
  end.

(** The digest in a file, "" when the file may be missing and is. *)
Definition read_digest (optional : bool) (content : option string) : outcome string string :=
  match content with
  | None => if optional then Ok "" else Err enoent
  | Some content =>
      let dgst := TrimSpace content in
      if ParseDigest dgst then Ok dgst else Err "invalid digest"
  end.

Definition GetParent (c : string) (s : fileMetadataStore) := read_digest true (layer_file c "parent" s).
Definition GetDiffID (c : string) (s : fileMetadataStore) := read_digest false (layer_file c "diff" s).

(** [stringIDRegexp]: 64 hexadecimal digits, with or without "-init". *)
Definition stringIDRegexp (s : string) : bool :=
  ValidateID s ||
  (ValidateID (String.substring 0 64 s) && bool_decide (String.substring 64 (String.length s) s = "-init")).

Definition read_id (optional : bool) (msg : string) (content : option string) : outcome string string :=
  match content with
  | None => if optional then Ok "" else Err enoent
  | Some content =>
      let content := TrimSpace content in
      if stringIDRegexp content then Ok content else Err msg
  end.

Definition GetCacheID (c : string) (s : fileMetadataStore) :=
  read_id false "invalid cache id value" (layer_file c "cache-id" s).

Definition GetDescriptor (c : string) (s : fileMetadataStore) : outcome string Desc :=
  match layer_file c "descriptor.json" s with
  | None => Ok emptyDesc
  | Some content => match Unmarshal content with Some d => Ok d | None => Err "json" end
  end.

(** ** Mounts *)

Definition mount_write (mount name content : string) (s : fileMetadataStore) : option string * fileMetadataStore :=
  let '(e, s) := MkdirAll s in
  match e with
  | Some e => (Some e, s)
  | None =>
      let d := default ∅ (mount_dirs s !! mount) in
      let '(f, s) := next_fault s in
      let '(e, d) := WriteFile f name content d in
      (e, set_mount_dirs (<[mount := d]> (mount_dirs s)) s)
  end.

Definition SetMountID (mount mountID : string) := mount_write mount "mount-id" mountID.
Definition SetInitID (mount init : string) := mount_write mount "init-id" init.
Definition SetMountParent (mount parent : string) := mount_write mount "parent" parent.

Definition mount_file (mount name : string) (s : fileMetadataStore) : option string :=
  mount_dirs s !! mount ≫= λ d, d !! name.

Definition fms_GetMountID (mount : string) (s : fileMetadataStore) :=
  read_id false "invalid mount id value" (mount_file mount "mount-id" s).
Definition GetInitID (mount : string) (s : fileMetadataStore) :=
  read_id true "invalid init id value" (mount_file mount "init-id" s).
Definition GetMountParent (mount : string) (s : fileMetadataStore) :=
  read_digest true (mount_file mount "parent" s).

(** ** Listing and removal *)

(** [ioutil.ReadDir] sorts by name; SHA-256 is the one supported algorithm. *)
Definition List (s : fileMetadataStore) : outcome string (list string * list string) :=
  let names := merge_sort String.le
    (omap (λ k : string * string, if bool_decide (k.1 = "sha256") then Some k.2 else None) (map_to_list (layer_dirs s)).*1) in
  let ids := omap (λ name,
    if bool_decide (name = "mounts") then None
    else let dgst := NewDigestFromHex "sha256" name in
         if Validate dgst then Some dgst else None) names in
  Ok (ids, merge_sort String.le (map_to_list (mount_dirs s)).*1).

Definition fms_Remove (layer : string) (s : fileMetadataStore) : option string * fileMetadataStore :=
  let '(f, s) := next_fault s in
  let '(e, d) := RemoveAll f (layer_dirs s !! getLayerDirectory layer) in
  (e, set_layer_dirs (partial_alter (λ _, d) (getLayerDirectory layer) (layer_dirs s)) s).

Definition RemoveMount (mount : string) (s : fileMetadataStore) : option string * fileMetadataStore :=
  let '(f, s) := next_fault s in
  let '(e, d) := RemoveAll f (mount_dirs s !! mount) in
  (e, set_mount_dirs (partial_alter (λ _, d) mount (mount_dirs s)) s).

(** ** The instance *)

#[local] Instance file_store : MetadataStore fileMetadataStore nat Desc := {|
  StartTransaction := fms_StartTransaction;
  tx_SetSize := SetSize; tx_SetParent := SetParent; tx_SetDiffID := SetDiffID; tx_SetCacheID := SetCacheID;
  tx_SetDescriptor := SetDescriptor; tx_TarSplitWriter := TarSplitWriter; tx_Commit := Commit; tx_Cancel := Cancel;
  md_GetSize := GetSize; md_GetParent := GetParent; md_GetDiffID := GetDiffID; md_GetCacheID := GetCacheID;
  md_GetDescriptor := GetDescriptor;
  md_SetMountID := SetMountID; md_SetInitID := SetInitID; md_SetMountParent := SetMountParent;
  md_GetMountID := fms_GetMountID; md_GetInitID := GetInitID; md_GetMountParent := GetMountParent;
  md_List := List; md_Remove := fms_Remove; md_RemoveMount := RemoveMount |}.
End filestore.

(** ** What is printed is parsed back *)

Lemma digit_val_char d : (0 ≤ d < 10)%Z → digit_val (digit_char d) = Some d.
Proof.
  intros Hd. assert (d = 0 ∨ d = 1 ∨ d = 2 ∨ d = 3 ∨ d = 4 ∨ d = 5 ∨ d = 6 ∨ d = 7 ∨ d = 8 ∨ d = 9)%Z as Hc by lia.
  by repeat destruct Hc as [->|Hc]; [reflexivity..|subst].
Qed.

Lemma parse_decimal_go fuel n acc :
  (0 ≤ n < 10 ^ Z.of_nat (S fuel))%Z →
  ∃ k, ∀ a, parse_digits a (decimal_go (S fuel) n acc) = parse_digits (a * 10 ^ k + n)%Z acc.
Proof.
  revert n acc. induction fuel as [|fuel IH]; intros n acc Hn.
  - exists 1%Z. intros a. change (10 ^ Z.of_nat 1)%Z with 10%Z in Hn. cbn [decimal_go].
    rewrite (Z.mod_small n 10), (Z.div_small n 10) by lia. simpl. by rewrite digit_val_char.
  - change (decimal_go (S (S fuel)) n acc) with
      (let acc := String (digit_char (n `mod` 10)) acc in
       if bool_decide (n `div` 10 = 0)%Z then acc else decimal_go (S fuel) (n `div` 10) acc).
    pose proof (Z.mod_pos_bound n 10). pose proof (Z.div_mod n 10). cbv zeta. case_bool_decide as Hz.
    + exists 1%Z. intros a. simpl. rewrite digit_val_char by lia. f_equal. change (10 ^ 1)%Z with 10%Z. lia.
    + assert (0 ≤ n `div` 10 < 10 ^ Z.of_nat (S fuel))%Z as Hq.
      { split; [apply Z.div_pos; lia|]. apply Z.div_lt_upper_bound; [lia|].
        replace (Z.of_nat (S (S fuel))) with (Z.succ (Z.of_nat (S fuel))) in Hn by lia.
        rewrite Z.pow_succ_r in Hn; lia. }
      destruct (IH _ (String (digit_char (n `mod` 10)) acc) Hq) as [k Hk].
      destruct (decide (0 ≤ k)%Z) as [Hk0|Hk0].
      * exists (Z.succ k). intros a. rewrite Hk. simpl. rewrite digit_val_char by lia. f_equal.
        rewrite Z.pow_succ_r by done. lia.
      * exists k. intros a. rewrite Hk. simpl. rewrite digit_val_char by lia. f_equal.
        rewrite Z.pow_neg_r by lia. lia.
Qed.

Lemma decimal_go_head fuel n acc :
  (0 ≤ n)%Z → ∃ d t, (0 ≤ d < 10)%Z ∧ decimal_go (S fuel) n acc = String (digit_char d) t.
Proof.
  revert n acc. induction fuel as [|fuel IH]; intros n acc Hn.
  - exists (n `mod` 10)%Z, acc. split; [apply Z.mod_pos_bound; lia|]. cbn. by case_bool_decide.
  - change (decimal_go (S (S fuel)) n acc) with
      (let acc := String (digit_char (n `mod` 10)) acc in
       if bool_decide (n `div` 10 = 0)%Z then acc else decimal_go (S fuel) (n `div` 10) acc). cbv zeta.
    case_bool_decide; [|apply IH, Z.div_pos; lia]. exists (n `mod` 10)%Z, acc. split; [apply Z.mod_pos_bound; lia|done].
Qed.

Lemma Atoi_decimal n : in_int64 n → Atoi (decimal n) = Some n.
Proof.
  intros Hn. assert (∀ m, (0 ≤ m ≤ 2 ^ 63)%Z → ∃ d t, decimal_go 20 m "" = String (digit_char d) t ∧
    (0 ≤ d < 10)%Z ∧ parse_digits 0 (String (digit_char d) t) = Some m) as H.
  { intros m Hm. destruct (decimal_go_head 19 m "") as (d & t & Hd & E); [lia|].
    destruct (parse_decimal_go 19 m "") as [k Hk]; [change (Z.of_nat 20) with 20%Z; lia|].
    exists d, t. do 2 (split; [done|]). rewrite <-E, (Hk 0%Z). by rewrite Z.mul_0_l. }
  unfold in_int64 in Hn. unfold decimal. case_bool_decide.
  - destruct (H (- n)%Z) as (d & t & -> & Hd & Hp); [lia|]. unfold Atoi. rewrite Hp.
    rewrite Z.opp_involutive, decide_True by done. done.
  - destruct (H n) as (d & t & -> & Hd & Hp); [lia|].
    assert (Atoi (String (digit_char d) t) =
            match parse_digits 0 (String (digit_char d) t) with
            | None => None | Some v => if decide (in_int64 v) then Some v else None end) as ->.
    { assert (d = 0 ∨ d = 1 ∨ d = 2 ∨ d = 3 ∨ d = 4 ∨ d = 5 ∨ d = 6 ∨ d = 7 ∨ d = 8 ∨ d = 9)%Z as Hc by lia.
      by repeat destruct Hc as [->|Hc]; [reflexivity..|subst]. }
    rewrite Hp, decide_True by done. done.
Qed.

(** Printable ASCII has no white space to trim. *)
Definition graphic (a : ascii) : bool := in_range 33 126 (byte_val a).

Lemma graphic_step a s : graphic a = true → DecodeRune (String a s) = Some (byte_val a, s) ∧ IsSpace (byte_val a) = false.
Proof.
  unfold graphic, in_range. rewrite andb_true_iff, !N.leb_le. intros [H1 H2].
  split; [apply DecodeRune_ascii; lia|]. unfold IsSpace. rewrite (proj2 (N.leb_le _ _)) by lia.
  repeat rewrite (proj2 (N.eqb_neq _ _)) by lia. done.
Qed.

Lemma TrimSpace_graphic s : all_bytes graphic s = true → TrimSpace s = s.
Proof.
  intros Hs. assert (TrimLeftSpace s = s) as Hl.
  { unfold TrimLeftSpace. destruct s as [|a s]; [done|]. simpl in Hs. apply andb_true_iff in Hs as [Ha _].
    destruct (graphic_step a s Ha) as [Hd Hp]. cbn [String.length trim_left_go]. by rewrite Hd, Hp. }
  unfold TrimSpace. rewrite Hl. unfold TrimRightSpace. clear Hl.
  induction s as [|a s IH]; [done|]. simpl in Hs. apply andb_true_iff in Hs as [Ha Hs].
  destruct (graphic_step a s Ha) as [Hd Hp]. cbn [String.length trim_right_go]. rewrite Hd, (IH Hs).
  assert (String.substring 0 (S (String.length s) - String.length s) (String a s) = String a "") as Hsub.
  { replace (S (String.length s) - String.length s)%nat with 1%nat by lia. cbn. by destruct s. }
  destruct s as [|b s]; [by rewrite Hp|]. by rewrite Hsub.
Qed.

Lemma all_bytes_mono f g s : (∀ a, f a = true → g a = true) → all_bytes f s = true → all_bytes g s = true.
Proof.
  intros H. induction s as [|a s IH]; simpl; [done|]. rewrite !andb_true_iff. intros [? ?]. auto.
Qed.

Lemma all_bytes_app f s t : all_bytes f (s +:+ t) = all_bytes f s && all_bytes f t.
Proof. induction s as [|a s IH]; [done|]. rewrite app_cons_str. simpl. by rewrite IH, andb_assoc. Qed.

Lemma substring_split n s :
  String.substring 0 n s +:+ String.substring n (String.length s) s = s.
Proof.
  assert (∀ s m, (String.length s ≤ m)%nat → String.substring 0 m s = s) as Hall.
  { intros t. induction t as [|a t IH]; intros [|m] Hm; simpl in *; try done; [lia|]. f_equal. apply IH. lia. }
  revert n. induction s as [|a s IH]; intros [|n]; simpl; [done..| |].
  - rewrite app_empty_str. f_equal. by apply Hall.
  - rewrite app_cons_str. f_equal.
    assert (∀ t k m m', (String.length t - k ≤ m)%nat → (String.length t - k ≤ m')%nat →
              String.substring k m t = String.substring k m' t) as Hk.
    { intros t. induction t as [|b t IHt]; intros [|k] m m' Hm Hm'; simpl in *; [by destruct m, m'..| |].
      - destruct m, m'; try lia. f_equal. rewrite !Hall; [done|lia..].
      - apply IHt; lia. }
    rewrite (Hk s n (S (String.length s)) (String.length s)) by lia. apply IH.
Qed.

Lemma hex_graphic a : is_hex a = true → graphic a = true.
Proof.
  unfold is_hex, graphic, in_range. rewrite orb_true_iff, !andb_true_iff, !N.leb_le. lia.
Qed.

Lemma stringID_graphic s : stringIDRegexp s = true → all_bytes graphic s = true.
Proof.
  assert (∀ t, ValidateID t = true → all_bytes graphic t = true) as Hv.
  { intros t. unfold ValidateID. rewrite andb_true_iff. intros [_ ?]. by eapply all_bytes_mono; [apply hex_graphic|]. }
  unfold stringIDRegexp. rewrite orb_true_iff, andb_true_iff, bool_decide_eq_true. intros [?|[H1 H2]]; [by apply Hv|].
  rewrite <-(substring_split 64 s), all_bytes_app, H2. by rewrite (Hv _ H1).
Qed.

(** ** Layers on files *)

Section files.
Context {D Desc : Type} `{!GraphDriver D} (emptyDesc : Desc) (desc_Digest : Desc → string).
Context (Algorithm Hex : string → string) (NewDigestFromHex : string → string → string).
Context (ParseDigest Validate : string → bool).
Context (Marshal : Desc → option string) (Unmarshal : string → option Desc).

#[local] Instance fs_store : MetadataStore fileMetadataStore nat Desc :=
  file_store emptyDesc Algorithm Hex NewDigestFromHex ParseDigest Validate Marshal Unmarshal.

Abbreviation lstore := (@layerStore D fileMetadataStore Desc).
Implicit Types (s : lstore).

Definition dir_of (c : string) : string * string := getLayerDirectory Algorithm Hex c.

(** A write to the directory of a transaction, when nothing fails. *)
Lemma md_tx_write tx name content d s :
  io (store s) = [] → tmp_dirs (store s) !! tx = Some d →
  md (tx_write tx name content) s
    = (Ok tt, with_store (set_tmp_dirs (<[tx := <[name := content]> d]> (tmp_dirs (store s))) (store s)) s).
Proof. intros Hio Hd. unfold md, tx_write, next_fault. by rewrite Hd, Hio. Qed.

(** The files of a layer. *)
Definition layer_files (x : roLayer) (parent : option string) (d : dir) : dir :=
  let d := <["cache-id" := cacheID x]> (<["size" := decimal (ro_size x)]> (<["diff" := diffID x]> d)) in
  let d := if bool_decide (desc_Digest (descriptor x) ≠ "")
           then <["descriptor.json" := default "" (Marshal (descriptor x))]> d else d in
  match parent with Some c => <["parent" := c]> d | None => d end.

Definition with_tmp (tx : nat) (d : dir) (s : lstore) : lstore :=
  with_store (set_tmp_dirs (<[tx := d]> (tmp_dirs (store s))) (store s)) s.

Lemma md_with_tmp tx name content d d0 s :
  io (store s) = [] → md (tx_write tx name content) (with_tmp tx d (with_tmp tx d0 s)) =
    (Ok tt, with_tmp tx (<[name := content]> d) (with_tmp tx d0 s)).
Proof.
  intros Hio. rewrite (md_tx_write tx name content d); [|done|by simpl; rewrite lookup_insert_eq].
  unfold with_tmp. simpl. by rewrite !insert_insert_eq.
Qed.

Lemma storeLayer_ok tx x pc d s :
  io (store s) = [] → tmp_dirs (store s) !! tx = Some d →
  (desc_Digest (descriptor x) ≠ "" → is_Some (Marshal (descriptor x))) →
  storeLayer desc_Digest tx x pc s = (Ok tt, with_tmp tx (layer_files x pc d) (with_tmp tx d s)).
Proof.
  intros Hio Hd Hm. assert (s = with_tmp tx d (with_tmp tx d s)) as Hs.
  { unfold with_tmp. simpl. rewrite insert_insert_eq, insert_id by done. by destruct s as [[]]. }
  rewrite Hs at 1. unfold storeLayer. simpl. unfold mbind, ST_bind.
  unfold SetDiffID. rewrite md_with_tmp by done. unfold SetSize. rewrite md_with_tmp by done.
  unfold SetCacheID. rewrite md_with_tmp by done. unfold layer_files.
  case_bool_decide as Hdesc.
  - destruct (Hm Hdesc) as [j Hj]. rewrite Hj. simpl.
    assert (∀ s, md (SetDescriptor Marshal tx (descriptor x)) s = md (tx_write tx "descriptor.json" j) s) as He
      by (intros s'; unfold md, SetDescriptor; by rewrite Hj).
    rewrite He, md_with_tmp by done. destruct pc; [|done]. unfold SetParent. by rewrite md_with_tmp.
  - unfold mret, ST_ret. destruct pc; [|done]. unfold SetParent. by rewrite md_with_tmp.
Qed.

Lemma md_Commit_ok tx c d s :
  io (store s) = [] → tmp_dirs (store s) !! tx = Some d → layer_dirs (store s) !! dir_of c = None →
  md (tx_Commit tx c) s =
    (Ok tt, with_store (set_tmp_dirs (delete tx (tmp_dirs (store s)))
              (set_layer_dirs (<[dir_of c := d]> (layer_dirs (store s))) (store s))) s).
Proof.
  intros Hio Hd Hn. unfold md. simpl. unfold Commit, MkdirAll, next_fault. rewrite Hio. simpl. rewrite Hio.
  fold (dir_of c). rewrite Hd, Hn. simpl. by rewrite bool_decide_eq_true_2.
Qed.

Section laws.
(** A digest is printable ASCII; decoding undoes encoding. *)
Context (digest_graphic : ∀ d, ParseDigest d = true → all_bytes graphic d = true).
Context (Unmarshal_Marshal : ∀ d j, Marshal d = Some j → Unmarshal j = Some d).

(** The values a layer can have. *)
Definition storable (x : roLayer) (pc : option string) : Prop :=
  ParseDigest (diffID x) = true ∧ in_int64 (ro_size x) ∧ stringIDRegexp (cacheID x) = true ∧
  (desc_Digest (descriptor x) ≠ "" → is_Some (Marshal (descriptor x))) ∧
  (∀ c, pc = Some c → ParseDigest c = true).

(** What is stored is loaded.  When no file operation fails, storing a
    layer and committing the transaction succeeds, and afterwards the store
    reads back, under the chain ID of the layer, the digest of its contents,
    its size, the identifier of its directory, its parent and its descriptor;
    the files of every other layer are as before. *)
Theorem stored_layer_loads tx x pc d s :
  io (store s) = [] → tmp_dirs (store s) !! tx = Some d → d !! "descriptor.json" = None → d !! "parent" = None →
  layer_dirs (store s) !! dir_of (chainID x) = None → storable x pc →
  ∃ s', (storeLayer desc_Digest tx x pc ≫= λ _, md (tx_Commit tx (chainID x))) s = (Ok tt, s') ∧
    md_GetDiffID (chainID x) (store s') = Ok (diffID x) ∧
    md_GetSize (chainID x) (store s') = Ok (ro_size x) ∧
    md_GetCacheID (chainID x) (store s') = Ok (cacheID x) ∧
    md_GetParent (chainID x) (store s') = Ok (default "" pc) ∧
    md_GetDescriptor (chainID x) (store s') =
      Ok (if bool_decide (desc_Digest (descriptor x) ≠ "") then descriptor x else emptyDesc) ∧
    ∀ c name, dir_of c ≠ dir_of (chainID x) →
      layer_file Algorithm Hex c name (store s') = layer_file Algorithm Hex c name (store s).
Proof.
  intros Hio Hd Hnd Hnp Hn (Vd & Vs & Vc & Vm & Vp).
  unfold mbind, ST_bind. rewrite (storeLayer_ok tx x pc d s Hio Hd Vm).
  set (s1 := with_tmp tx (layer_files x pc d) (with_tmp tx d s)).
  rewrite (md_Commit_ok tx (chainID x) (layer_files x pc d) s1); [|done|unfold s1; simpl; by rewrite lookup_insert_eq|done].
  eexists. split; [reflexivity|].
  set (st' := store _). assert (∀ name, layer_file Algorithm Hex (chainID x) name st' = layer_files x pc d !! name) as Hf.
  { intros name. unfold layer_file, st'. simpl. fold (dir_of (chainID x)). by rewrite lookup_insert_eq. }
  assert (∀ name, name ≠ "descriptor.json" → name ≠ "parent" →
    layer_files x pc d !! name =
      (<["cache-id" := cacheID x]> (<["size" := decimal (ro_size x)]> (<["diff" := diffID x]> d))) !! name) as Hlf.
  { intros name N1 N2. unfold layer_files. destruct pc; rewrite ?(lookup_insert_ne _ "parent") by done;
      case_bool_decide; rewrite ?(lookup_insert_ne _ "descriptor.json") by done; done. }
  simpl. unfold GetDiffID, GetSize, GetCacheID, GetParent, GetDescriptor. rewrite !Hf, !Hlf by done.
  rewrite !(lookup_insert_ne _ "cache-id") by done. rewrite !(lookup_insert_ne _ "size" "diff") by done.
  rewrite !lookup_insert_eq. split_and!.
  - simpl. rewrite TrimSpace_graphic by auto. by rewrite Vd.
  - by rewrite Atoi_decimal.
  - simpl. rewrite TrimSpace_graphic by (by apply stringID_graphic). by rewrite Vc.
  - unfold layer_files. destruct pc as [c|].
    + rewrite lookup_insert_eq. simpl. rewrite TrimSpace_graphic by auto. by rewrite (Vp c).
    + case_bool_decide; rewrite ?(lookup_insert_ne _ "descriptor.json") by done;
        rewrite !lookup_insert_ne, Hnp by done; done.
  - unfold layer_files. case_bool_decide as Hdesc.
    + destruct (Vm Hdesc) as [j Hj]. assert (Unmarshal j = Some (descriptor x)) as Hu by eauto.
      destruct pc; rewrite ?(lookup_insert_ne _ "parent") by done; rewrite lookup_insert_eq, Hj; simpl; by rewrite Hu.
    + destruct pc; rewrite ?(lookup_insert_ne _ "parent") by done; rewrite !lookup_insert_ne, Hnd by done; done.
  - intros c name Hc. unfold layer_file, st'. simpl. fold (dir_of c). fold (dir_of (chainID x)).
    by rewrite lookup_insert_ne.
Qed.
End laws.

(** ** Transactions are atomic *)

(** What can be done with open transactions. *)
Inductive txop :=
| TStart | TSize (tx : nat) (n : Z) | TParent (tx : nat) (c : string) | TDiff (tx : nat) (d : string)
| TCache (tx : nat) (c : string) | TDesc (tx : nat) (r : Desc) | TTar (tx : nat) | TCancel (tx : nat).

Definition tx_exec (m : fileMetadataStore) (o : txop) : fileMetadataStore :=
  match o with
  | TStart => (StartTransaction m).2
  | TSize tx n => (tx_SetSize tx n m).2
  | TParent tx c => (tx_SetParent tx c m).2
  | TDiff tx d => (tx_SetDiffID tx d m).2
  | TCache tx c => (tx_SetCacheID tx c m).2
  | TDesc tx r => (tx_SetDescriptor tx r m).2
  | TTar tx => (tx_TarSplitWriter tx m).2
  | TCancel tx => (tx_Cancel tx m).2
  end.

Lemma next_fault_dirs (m : fileMetadataStore) :
  layer_dirs (next_fault m).2 = layer_dirs m ∧ mount_dirs (next_fault m).2 = mount_dirs m ∧
  tmp_dirs (next_fault m).2 = tmp_dirs m.
Proof. unfold next_fault. by destruct (io m). Qed.

Lemma tx_write_dirs tx name content m :
  layer_dirs (tx_write tx name content m).2 = layer_dirs m ∧ mount_dirs (tx_write tx name content m).2 = mount_dirs m.
Proof.
  unfold tx_write. destruct (tmp_dirs m !! tx) as [d|]; [|done].
  destruct (next_fault_dirs m) as (H1 & H2 & _). destruct (next_fault m) as [f m']. by destruct (WriteFile f name content d).
Qed.

Lemma tx_exec_dirs m o : layer_dirs (tx_exec m o) = layer_dirs m ∧ mount_dirs (tx_exec m o) = mount_dirs m.
Proof.
  destruct o; simpl; try apply tx_write_dirs.
  - unfold fms_StartTransaction, MkdirAll. destruct (next_fault_dirs m) as (H1 & H2 & _).
    destruct (next_fault m) as [f m']. simpl in *. destruct f; [|done..].
    destruct (next_fault_dirs m') as (H3 & H4 & _). destruct (next_fault m') as [f' m'']. simpl in *.
    destruct f'; simpl; by rewrite ?H3, ?H4.
  - unfold SetDescriptor. destruct (Marshal r); [apply tx_write_dirs|done].
  - unfold Cancel. destruct (next_fault_dirs m) as (H1 & H2 & _). destruct (next_fault m) as [f m'].
    by destruct (RemoveAll f _).
Qed.

(** C33: a layer is on disk completely or not at all.  Whatever is done in
    transactions, in any order and with any failures, no layer or mount that
    is read changes; [Commit] either puts the whole directory of the
    transaction in place or changes nothing that is read. *)
Theorem Commit_atomic ops tx c m0 e m' :
  let m := foldl tx_exec m0 ops in
  tx_Commit tx c m = (e, m') →
  mount_dirs m' = mount_dirs m0 ∧
  match e with
  | None => ∃ d, tmp_dirs m !! tx = Some d ∧ layer_dirs m' = <[dir_of c := d]> (layer_dirs m0) ∧
                 tmp_dirs m' !! tx = None
  | Some _ => layer_dirs m' = layer_dirs m0
  end.
Proof.
  intros m. assert (layer_dirs m = layer_dirs m0 ∧ mount_dirs m = mount_dirs m0) as [Hl Hm].
  { unfold m. clear. revert m0. induction ops as [|o ops IH]; intros m0; simpl; [done|].
    destruct (IH (tx_exec m0 o)) as [-> ->]. apply tx_exec_dirs. }
  clearbody m. simpl. unfold Commit, MkdirAll. destruct (next_fault_dirs m) as (H1 & H2 & H3).
  destruct (next_fault m) as [f m1]. simpl in *. destruct f; [|intros [= <- <-]; split; simpl; congruence..].
  destruct (next_fault_dirs m1) as (H4 & H5 & H6). destruct (next_fault m1) as [f m2]. simpl in *.
  destruct f; [|intros [= <- <-]; split; simpl; congruence..].
  destruct (tmp_dirs m2 !! tx) as [d|] eqn:Hd; [|intros [= <- <-]; split; simpl; congruence].
  case_bool_decide; intros [= <- <-]; simpl; [|split; simpl; congruence].
  split; [congruence|]. exists d. rewrite <-H3, <-H6, Hd, H4, H1, Hl. split_and!; [done..|apply lookup_delete_eq].
Qed.

(** ** A removal that stops half-way *)

(** [Remove] may leave a directory behind that has lost some of its files
    (an error or a crash during the removal).  Such a layer is not loaded when
    the store is opened again, but its directory is never replaced: every
    attempt to register a layer with this chain ID fails when it commits. *)
Theorem half_removed_layer_stuck tx x fuel d s :
  layerMap s !! chainID x = None →
  layer_dirs (store s) !! dir_of (chainID x) = Some d → d ≠ ∅ → d !! "diff" = None →
  is_ok (loadLayer (S fuel) (chainID x) s).1 = false ∧ is_ok (register_finish tx x s).1 = false.
Proof.
  intros Hmap Hd Hne Hdiff. split.
  - cbn [loadLayer]. unfold mbind, ST_bind, st_gets. rewrite Hmap. unfold md_read. simpl.
    unfold GetDiffID, layer_file. fold (dir_of (chainID x)). rewrite Hd. simpl. by rewrite Hdiff.
  - unfold register_finish, getWithoutLock, mbind, ST_bind, st_gets, mret, ST_ret. rewrite Hmap.
    unfold md. simpl. unfold Commit, MkdirAll. destruct (next_fault_dirs (store s)) as (H1 & _ & _).
    destruct (next_fault (store s)) as [f m1]. simpl in *. destruct f; [|done..].
    destruct (next_fault_dirs m1) as (H4 & _ & _). destruct (next_fault m1) as [f m2]. simpl in *.
    destruct f; [|done..]. destruct (tmp_dirs m2 !! tx); [|done].
    fold (dir_of (chainID x)). rewrite H4, H1, Hd. simpl. by rewrite bool_decide_eq_false_2.
Qed.
End files.

(** ** Witnesses *)

#[local] Existing Instance script_driver.

Fixpoint repeat_byte (n : nat) (a : ascii) : string :=
  match n with O => "" | S n => String a (repeat_byte n a) end.
Definition hex64 (a : ascii) : string := repeat_byte 64 a.
Definition sha (a : ascii) : string := "sha256:" +:+ hex64 a.

Definition ex_Algorithm (d : string) : string := (Cut ":" d).1.
Definition ex_Hex (d : string) : string := default "" (Cut ":" d).2.
Definition ex_Digest (d : string) : bool :=
  bool_decide (ex_Algorithm d = "sha256") && ValidateID (ex_Hex d).

(** Descriptors are their text. *)
Abbreviation ex_lstore := (@layerStore (list bool) fileMetadataStore string).
#[local] Instance ex_files : MetadataStore fileMetadataStore nat string :=
  file_store "" ex_Algorithm ex_Hex (λ a h, a +:+ ":" +:+ h) ex_Digest ex_Digest Some Some.

Lemma Cut_join c s p t : Cut c s = (p, Some t) → s = p +:+ String c t.
Proof.
  revert p. induction s as [|a s IH]; intros p; simpl; [done|]. destruct (ascii_dec a c) as [->|].
  - by intros [= <- <-].
  - destruct (Cut c s) as [q [u|]]; intros [= <- <-]. rewrite app_cons_str. f_equal. by apply IH.
Qed.

Lemma ex_Digest_graphic d : ex_Digest d = true → all_bytes graphic d = true.
Proof.
  unfold ex_Digest, ex_Algorithm, ex_Hex. rewrite andb_true_iff, bool_decide_eq_true. intros [Ha Hv].
  destruct (Cut ":" d) as [p [t|]] eqn:E; simpl in *; [|done]. rewrite (Cut_join _ _ _ _ E), Ha, all_bytes_app.
  simpl. unfold ValidateID in Hv. apply andb_true_iff in Hv as [_ Hv]. by eapply all_bytes_mono; [apply hex_graphic|].
Qed.

Definition ex_layer : @roLayer string := mkRo (sha "a") (sha "a") None (hex64 "1") 4 "" 1 ∅.
Definition ex_store : ex_lstore := mkLS (mkFms ∅ ∅ {[ 0 := ∅ ]} 1 []) [] ∅ 0 ∅ ∅ 0.

Lemma stored_layer_loads_witness :
  ∃ s', (storeLayer (λ d, d) 0 ex_layer None ≫= λ _, md (tx_Commit 0 (chainID ex_layer))) ex_store = (Ok tt, s') ∧
    md_GetDiffID (chainID ex_layer) (store s') = Ok (diffID ex_layer) ∧
    md_GetSize (chainID ex_layer) (store s') = Ok (ro_size ex_layer).
Proof.
  destruct (stored_layer_loads "" (λ d, d) ex_Algorithm ex_Hex (λ a h, a +:+ ":" +:+ h) ex_Digest ex_Digest Some Some
              ex_Digest_graphic (λ d j (H : Some d = Some j), eq_sym H) 0 ex_layer None ∅ ex_store) as (s' & E & H1 & H2 & _).
  - reflexivity.
  - reflexivity.
  - reflexivity.
  - reflexivity.
  - reflexivity.
  - split_and!; [vm_compute; reflexivity|vm_compute; split; congruence|vm_compute; reflexivity|by eexists|done].
  - exists s'. split; [exact E|]. split; [exact H1|exact H2].
Defined.

(** A write fails half-way, then the transaction is committed all the same. *)
Lemma Commit_atomic_witness :
  let m0 := mkFms ∅ ∅ {[ 0 := ∅ ]} 1 [FailsPartly "half" ∅] in
  let r := tx_Commit 0 (sha "a") (foldl (tx_exec "" ex_Algorithm ex_Hex (λ a h, a +:+ ":" +:+ h) ex_Digest ex_Digest Some Some)
                                   m0 [TDiff 0 (sha "a")]) in
  mount_dirs r.2 = mount_dirs m0 ∧ r.1 = None.
Proof.
  intros m0 r. split; [|reflexivity].
  apply (Commit_atomic "" ex_Algorithm ex_Hex (λ a h, a +:+ ":" +:+ h) ex_Digest ex_Digest Some Some
           [TDiff 0 (sha "a")] 0 (sha "a") m0 r.1 r.2). apply surjective_pairing.
Defined.

Lemma half_removed_layer_stuck_witness :
  let s : ex_lstore := mkLS (mkFms {[ ("sha256", hex64 "a") := {[ "size" := "4" ]} ]} ∅ {[ 0 := ∅ ]} 1 []) [] ∅ 0 ∅ ∅ 0 in
  is_ok (loadLayer 2 (chainID ex_layer) s).1 = false ∧ is_ok (register_finish 0 ex_layer s).1 = false.
Proof.
  intros s. apply (half_removed_layer_stuck "" ex_Algorithm ex_Hex (λ a h, a +:+ ":" +:+ h) ex_Digest ex_Digest Some Some
                     0 ex_layer 1 {[ "size" := "4" ]} s).
  - reflexivity.
  - reflexivity.
  - apply insert_non_empty.
  - reflexivity.
Defined.

(** A store with two layers, opened again: the same layers, and the reference
    count of the base is that of its child. *)
Definition ex_FromBytes (b : string) : string :=
  if bool_decide (b = "base") then sha "a" else if bool_decide (b = "app") then sha "b" else sha "c".

Definition summary (s : ex_lstore) : list (string * string * string * nat) :=
  (λ '(c, l), match layers s !! l with
              | Some x => (c, diffID x, cacheID x, referenceCount x)
              | None => (c, "", "", 0)
              end) <$> map_to_list (layerMap s).

Example reopened :
  let reg ts parent id := Register ex_FromBytes (λ d, d) "" (λ _, None) ts parent id in
  let s0 : ex_lstore := mkLS (mkFms ∅ ∅ ∅ 0 []) [] ∅ 0 ∅ ∅ 0 in
  let s1 := (reg "base" "" (hex64 "1") s0).2 in
  let s2 := (reg "app" (sha "a") (hex64 "2") s1).2 in
  let r := NewStoreFromGraphDriver 10 (store s2) (driver s2) in
  r.1 = Ok tt ∧
  merge_sort String.le ((λ x, x.1.1.1 +:+ x.1.1.2 +:+ x.1.2) <$> summary r.2) =
  merge_sort String.le ((λ x, x.1.1.1 +:+ x.1.1.2 +:+ x.1.2) <$> summary s2) ∧
  (layerMap r.2 !! sha "a" ≫= λ l, referenceCount <$> layers r.2 !! l) = Some 1.
Proof. vm_compute. done. Qed.
