(* ===== verification/Filepath.v ===== *)
(** * Slash-separated paths: Go's [path/filepath] on Unix

    The lexical functions of [path/filepath] that the modelled code calls, as
    the documentation of the package defines them, and the algebra they obey:
    a clean absolute path is a list of plain names ([abs_path]), and [Clean] of
    a rooted string is a walk over its elements with a stack ([walk]). *)

From S2P Require Import Prelude GoStrings.

(** ** The functions *)

Definition sep : ascii := "/"%char.

(** One element of a path: empty elements and [.] are dropped, [..] removes the
    last name, and is kept at the front of a relative path only.  The stack has
    the last name first. *)
Definition clean_step (rooted : bool) (st : list string) (c : string) : list string :=
  if decide (c = "" ∨ c = ".") then st
  else if decide (c = "..") then
    match st with
    | [] => if rooted then [] else [".."]
    | x :: st' => if decide (x = "..") then ".." :: st else st'
    end
  else c :: st.

Definition clean_stack (rooted : bool) (s : string) : list string :=
  foldl (clean_step rooted) [] (Split sep s).

(** [filepath.IsAbs]. *)
Definition IsAbs (s : string) : bool := HasPrefix s "/".

(** [filepath.Clean]. *)
Definition Clean (s : string) : string :=
  match s with
  | EmptyString => "."
  | String a s' =>
      if decide (a = sep) then String sep (Join "/" (rev (clean_stack true s')))
      else match clean_stack false s with
           | [] => "."
           | st => Join "/" (rev st)
           end
  end.

(** [filepath.Join]. *)
Fixpoint PathJoin (elem : list string) : string :=
  match elem with
  | [] => ""
  | e :: elem' => if decide (e = "") then PathJoin elem' else Clean (Join "/" elem)
  end.

(** [filepath.Split]: the directory, with its separator, and the file. *)
Fixpoint PathSplit (s : string) : string * string :=
  match s with
  | EmptyString => ("", "")
  | String a s' =>
      if ContainsByte sep s' then let '(d, f) := PathSplit s' in (String a d, f)
      else if decide (a = sep) then ("/", s')
      else ("", s)
  end.

(** [filepath.Dir]. *)
Definition Dir (s : string) : string := Clean (PathSplit s).1.

Fixpoint strip_slashes (s : string) : string :=
  match s with
  | EmptyString => ""
  | String a s' =>
      match strip_slashes s' with
      | EmptyString => if decide (a = sep) then "" else String a ""
      | t => String a t
      end
  end.

(** [filepath.Base]. *)
Definition Base (s : string) : string :=
  match s with
  | EmptyString => "."
  | _ => match (PathSplit (strip_slashes s)).2 with EmptyString => "/" | f => f end
  end.

(** [os.IsPathSeparator] of the last byte of a path that is not empty. *)
Fixpoint ends_with (c : ascii) (s : string) : bool :=
  match s with
  | EmptyString => false
  | String a EmptyString => bool_decide (a = c)
  | String _ s' => ends_with c s'
  end.

(** The part of the two lists after their common prefix. *)
Fixpoint drop_common (l k : list string) : list string * list string :=
  match l, k with
  | x :: l', y :: k' => if decide (x = y) then drop_common l' k' else (l, k)
  | _, _ => (l, k)
  end.

(** The elements of a clean path. *)
Definition elements (s : string) : list string :=
  if IsAbs s then rev (clean_stack true s)
  else rev (clean_stack false s).

(** [filepath.Rel], [None] for its error. *)
Definition Rel (basepath targpath : string) : option string :=
  let base := Clean basepath in
  let targ := Clean targpath in
  if decide (targ = base) then Some "."
  else if decide (IsAbs base = IsAbs targ) then
    let '(b, t) := drop_common (elements base) (elements targ) in
    match b with
    | ".." :: _ => None
    | _ => Some (Join "/" (replicate (length b) ".." ++ t))
    end
  else None.

(** [filepath.Abs] with the current directory [wd]. *)
Definition Abs (wd path : string) : string :=
  if IsAbs path then Clean path else PathJoin [wd; path].

(** ** Names and absolute paths *)

(** A plain name: the element of a path that stands for a directory entry. *)
Definition name_ok (c : string) : Prop :=
  c ≠ "" ∧ c ≠ "." ∧ c ≠ ".." ∧ ContainsByte sep c = false.

#[global] Instance name_ok_dec c : Decision (name_ok c).
Proof. unfold name_ok. apply _. Defined.

(** The absolute path with the given names, root first. *)
Definition abs_path (l : list string) : string := String sep (Join "/" l).

(** The walk of a rooted path over elements, from the names on the stack. *)
Definition walk (st l : list string) : list string := foldl (clean_step true) st l.

(** ** Facts *)

Lemma Join_cons c x y l : Join c (x :: y :: l) = x +:+ c +:+ Join c (y :: l).
Proof.
  simpl. assert (H : ∀ a b, foldl (λ acc z, acc +:+ c +:+ z) (a +:+ b) l
                           = a +:+ foldl (λ acc z, acc +:+ c +:+ z) b l).
  { induction l as [|z l IH]; intros a b; simpl; [done|].
    rewrite <-IH. by rewrite app_assoc_str. }
  rewrite <-(app_assoc_str x c y). rewrite H. by rewrite app_assoc_str.
Qed.

Lemma Split_not_nil c s : Split c s ≠ [].
Proof. destruct s as [|a s]; simpl; [done|]. case_match; [done|]. by destruct (Split c s). Qed.

Lemma Split_concat c s t : Split c (s +:+ String c t) = Split c s ++ Split c t.
Proof.
  induction s as [|a s IH]; simpl.
  - by destruct (ascii_dec c c).
  - destruct (ascii_dec a c); [by rewrite IH|]. rewrite IH.
    pose proof (Split_not_nil c s). by destruct (Split c s).
Qed.

Lemma Split_names c s : Forall (λ x, ContainsByte c x = false) (Split c s).
Proof.
  induction s as [|a s IH]; simpl; [by repeat constructor|].
  destruct (ascii_dec a c); [by constructor|].
  destruct (Split c s) as [|x xs]; [by repeat constructor; simpl; destruct (ascii_dec a c)|].
  inversion IH; subst. constructor; [|done]. simpl. by destruct (ascii_dec a c).
Qed.

Lemma Split_Join l :
  Forall (λ x, ContainsByte sep x = false) l → l ≠ [] → Split sep (Join "/" l) = l.
Proof.
  induction 1 as [|x l Hx Hl IH]; [done|]. intros _.
  destruct l as [|y l]; [by apply Split_none|].
  rewrite Join_cons. change ("/" +:+ ?t) with (String sep t).
  rewrite Split_app by done. by rewrite IH.
Qed.

Lemma name_ok_nosep l : Forall name_ok l → Forall (λ x, ContainsByte sep x = false) l.
Proof. intros Hl. eapply Forall_impl; [exact Hl|]. intros x (_&_&_&H). done. Qed.

(** *** The walk *)

Lemma clean_step_names st c :
  Forall name_ok st → ContainsByte sep c = false → Forall name_ok (clean_step true st c).
Proof.
  intros Hst Hc. unfold clean_step. case_decide; [done|]. case_decide.
  - destruct Hst as [|x st Hx Hst]; [done|].
    destruct Hx as (?&?&?&?). by rewrite decide_False.
  - constructor; [|done]. unfold name_ok. naive_solver.
Qed.

Lemma walk_names st l :
  Forall name_ok st → Forall (λ x, ContainsByte sep x = false) l → Forall name_ok (walk st l).
Proof.
  intros Hst Hl. revert st Hst. induction Hl as [|x l Hx Hl IH]; intros st Hst; [done|].
  simpl. apply IH. by apply clean_step_names.
Qed.

Lemma walk_plain st l : Forall name_ok l → walk st l = rev l ++ st.
Proof.
  intros Hl. revert st. induction Hl as [|x l Hx Hl IH]; intros st; [done|].
  simpl. rewrite IH. destruct Hx as (?&?&?&?). unfold clean_step.
  rewrite decide_False, decide_False by naive_solver. by rewrite <-app_assoc.
Qed.

Lemma walk_app st l k : walk st (l ++ k) = walk (walk st l) k.
Proof. apply foldl_app. Qed.

(** *** Clean absolute paths *)

Lemma clean_stack_walk s : clean_stack true s = walk [] (Split sep s).
Proof. done. Qed.

Lemma Clean_rooted s : Clean (String sep s) = abs_path (rev (walk [] (Split sep s))).
Proof. done. Qed.

Lemma rooted_names s : Forall name_ok (rev (walk [] (Split sep s))).
Proof. apply Forall_rev, walk_names; [done|]. apply Split_names. Qed.

Lemma walk_abs l t : Forall name_ok l → walk [] (Split sep (Join "/" l +:+ String sep t)) = walk (rev l) (Split sep t).
Proof.
  intros Hl. rewrite Split_concat, walk_app. f_equal.
  destruct l as [|x l]; [done|]. rewrite Split_Join by eauto using name_ok_nosep.
  rewrite walk_plain by done. by rewrite app_nil_r.
Qed.

(** [Clean] is the identity on absolute paths of plain names, ... *)
Lemma Clean_abs_path l : Forall name_ok l → Clean (abs_path l) = abs_path l.
Proof.
  intros Hl. unfold abs_path at 1. rewrite Clean_rooted. f_equal.
  destruct l as [|x l]; [done|]. rewrite Split_Join by eauto using name_ok_nosep.
  rewrite walk_plain by done. by rewrite app_nil_r, rev_involutive.
Qed.

(** ... and what it gives is one. *)
Lemma Clean_abs s : IsAbs s = true → ∃ l, Forall name_ok l ∧ Clean s = abs_path l.
Proof.
  destruct s as [|a s]; [done|]. unfold IsAbs, HasPrefix.
  destruct (ascii_dec "/" a) as [<-|]; [|done]. intros _.
  exists (rev (walk [] (Split sep s))). split; [apply rooted_names|done].
Qed.

Lemma abs_path_inj l k : Forall name_ok l → Forall name_ok k → abs_path l = abs_path k → l = k.
Proof.
  intros Hl Hk [= E].
  destruct l as [|x l], k as [|y k]; [done| | |].
  - apply (f_equal (Split sep)) in E. rewrite (Split_Join (y :: k)) in E by eauto using name_ok_nosep.
    simpl in E. injection E as <- <-. by apply Forall_cons in Hk as [(?&_) _].
  - apply (f_equal (Split sep)) in E. rewrite (Split_Join (x :: l)) in E by eauto using name_ok_nosep.
    simpl in E. injection E as -> ->. by apply Forall_cons in Hl as [(?&_) _].
  - apply (f_equal (Split sep)) in E. rewrite !Split_Join in E by eauto using name_ok_nosep. done.
Qed.

(** A clean absolute path followed by a rooted string. *)
Lemma Clean_under l t :
  Forall name_ok l → Clean (abs_path l +:+ String sep t) = abs_path (rev (walk (rev l) (Split sep t))).
Proof.
  intros Hl. unfold abs_path at 1. rewrite app_cons_str, Clean_rooted. by rewrite walk_abs.
Qed.

Lemma Clean_abs_app l k :
  Forall name_ok l → Forall name_ok k → Clean (abs_path l +:+ abs_path k) = abs_path (l ++ k).
Proof.
  intros Hl Hk. unfold abs_path at 2. rewrite Clean_under by done. f_equal.
  destruct k as [|x k].
  - change (walk (rev l) (Split sep (Join "/" []))) with (rev l). by rewrite rev_involutive, app_nil_r.
  - rewrite Split_Join by eauto using name_ok_nosep. rewrite walk_plain by done.
    by rewrite rev_app_distr, !rev_involutive.
Qed.

Lemma IsAbs_cons s : IsAbs (String sep s) = true.
Proof. by destruct s. Qed.

Lemma IsAbs_abs_path l : IsAbs (abs_path l) = true.
Proof. apply IsAbs_cons. Qed.

Lemma PathJoin_abs l t :
  Forall name_ok l → PathJoin [abs_path l; t] = abs_path (rev (walk (rev l) (Split sep t))).
Proof.
  intros Hl. change (PathJoin [abs_path l; t]) with (Clean (abs_path l +:+ String sep t)).
  by rewrite Clean_under.
Qed.

Lemma PathJoin_root t : PathJoin ["/"; t] = abs_path (rev (walk [] (Split sep t))).
Proof. apply (PathJoin_abs [] t). constructor. Qed.

(** *** The elements of an absolute path *)

Lemma elements_abs l : Forall name_ok l → elements (abs_path l) = l.
Proof.
  intros Hl. unfold elements. rewrite IsAbs_abs_path.
  change (abs_path l) with ("" +:+ String sep (Join "/" l)). rewrite clean_stack_walk, Split_concat.
  destruct l as [|x l]; [done|]. rewrite Split_Join by eauto using name_ok_nosep.
  rewrite walk_app, walk_plain by done. change (walk [] (Split sep "")) with (@nil string).
  by rewrite app_nil_r, rev_involutive.
Qed.

(** [Abs] gives a clean absolute path. *)
Lemma Abs_abs wd p :
  IsAbs wd = true → Forall name_ok (elements (Abs wd p)) ∧ Abs wd p = abs_path (elements (Abs wd p)).
Proof.
  intros Hwd. assert (∃ l, Forall name_ok l ∧ Abs wd p = abs_path l) as (l & Hl & ->).
  { unfold Abs. destruct (IsAbs p) eqn:Hp; [by apply Clean_abs|].
    destruct wd as [|a wd]; [done|]. change (PathJoin [String a wd; p]) with (Clean (String a (wd +:+ "/" +:+ p))). apply Clean_abs.
    unfold IsAbs, HasPrefix in Hwd |- *.
    destruct (ascii_dec "/" a) as [<-|]; [by destruct (wd +:+ _)|done]. }
  by rewrite elements_abs.
Qed.
