(* ===== verification/Symlink.v ===== *)
(** * Symbolic links inside a root directory

    The package pkg/symlink (fs.go), which evaluates the symbolic links of a
    path as a process confined to a root directory would, and its callers in
    the container: [GetResourcePath], [GetRootResourcePath]
    (container/container.go).

    The file system is what [os.Lstat] and [os.Readlink] answer at the time of
    the call ([FS]); the loop works on strings, as the code does.  The
    specification is a relation ([resolves]) on lists of names: the resolution
    of a path in a process whose root directory is [root]. *)

From S2P Require Import Prelude GoStrings Filepath.

(** ** Data *)

(** Errors of the [os] functions: [os.IsNotExist] or another one. *)
Inductive oserr := NotExist | OSError (msg : string).
#[global] Instance oserr_dec : EqDecision oserr.
Proof. solve_decision. Defined.

(** The part of [os.FileMode] that the code looks at. *)
Inductive mode := ModeDir | ModeSymlink | ModeOther.
#[global] Instance mode_dec : EqDecision mode.
Proof. solve_decision. Defined.

(** The file system at the time of a call. *)
Record FS := mkFS {
  Lstat : string → outcome oserr mode;
  Readlink : string → outcome oserr string
}.

Inductive symlinkError :=
| NotInScope (path root : string)
| TooManyLinks (path : string)
| FSError (e : oserr).

(** ** The code *)

Definition maxIter : nat := 255.

(** The next path component and the rest: [strings.IndexRune(path, '/')]. *)
Definition next_component (path : string) : string * string :=
  match Cut sep path with
  | (p, None) => (p, "")
  | (p, Some rest) => (p, rest)
  end.

(** The loop, with the number of iterations that are left. *)
Fixpoint eval_loop (fs : FS) (originalPath root : string) (left : nat) (path b : string) :
    outcome symlinkError string :=
  if decide (path = "") then Ok b
  else match left with
  | O => Err (TooManyLinks originalPath)
  | S left' =>
      let '(p, path') := next_component path in
      let continue := eval_loop fs originalPath root left' path' in
      if decide (p = "") then continue b
      else
        let cleanP := Clean ("/" +:+ b +:+ p) in
        if decide (cleanP = "/") then continue ""
        else
          let fullP := Clean (root +:+ cleanP) in
          match Lstat fs fullP with
          | Err NotExist => continue (b +:+ p +:+ "/")
          | Err e => Err (FSError e)
          | Panic m => Panic m
          | Ok fi =>
              if decide (fi = ModeSymlink) then
                match Readlink fs fullP with
                | Err e => Err (FSError e)
                | Panic m => Panic m
                | Ok dest =>
                    let b' := if IsAbs dest then "" else b in
                    eval_loop fs originalPath root left' (dest +:+ "/" +:+ path') b'
                end
              else continue (b +:+ p +:+ "/")
          end
  end.

(** [path[len(root):]]. *)
Definition drop_bytes (n : nat) (s : string) : string := String.substring n (String.length s - n) s.

Definition evalSymlinksInScope (fs : FS) (path root0 : string) : outcome symlinkError string :=
  let root := Clean root0 in
  if decide (path = root) then Ok path
  else if negb (HasPrefix path root) then Err (NotInScope path root)
  else
    let path1 := drop_bytes (String.length root) path in
    let path2 := if decide (root = "/") then "/" +:+ path1 else path1 in
    if negb (HasPrefix path2 "/") then Err (NotInScope path2 root)
    else match eval_loop fs path root (S maxIter) (Clean path2) "" with
         | Ok b => Ok (Clean (root +:+ Clean ("/" +:+ b)))
         | Err e => Err e
         | Panic m => Panic m
         end.

(** The current directory [wd] is what [os.Getwd] returns. *)
Definition FollowSymlinkInScope (fs : FS) (wd path root : string) : outcome symlinkError string :=
  evalSymlinksInScope fs (Abs wd path) (Abs wd root).

(** container/container_unix.go and container/container.go. *)
Definition cleanResourcePath (path : string) : string := PathJoin ["/"; path].

Definition GetResourcePath (fs : FS) (wd BaseFS path : string) : outcome symlinkError string :=
  FollowSymlinkInScope fs wd (PathJoin [BaseFS; cleanResourcePath path]) BaseFS.

Definition GetRootResourcePath (fs : FS) (wd Root path : string) : outcome symlinkError string :=
  let cleanPath := PathJoin ["/"; path] in
  FollowSymlinkInScope fs wd (PathJoin [Root; cleanPath]) Root.

(** ** The specification *)

(** The host path of the directory or file [cur] (last name first) below the
    root directory with the names [rl]. *)
Definition host (rl cur : list string) : string := abs_path (rl ++ rev cur).

(** What the directory entry is for a walk. *)
Definition plain (fs : FS) (p : string) : Prop :=
  Lstat fs p = Err NotExist ∨ ∃ m, Lstat fs p = Ok m ∧ m ≠ ModeSymlink.

Definition links_to (fs : FS) (p dest : string) : Prop :=
  Lstat fs p = Ok ModeSymlink ∧ Readlink fs p = Ok dest.

(** [resolves fs rl n cur todo cur']: a process whose root directory is
    [abs_path rl] and whose current directory is [cur] resolves the elements
    [todo] to [cur'] after looking at [n] elements.  A parent directory of the
    root is the root, an absolute link starts from the root. *)
Inductive resolves (fs : FS) (rl : list string) : nat → list string → list string → list string → Prop :=
| resolves_done cur : resolves fs rl 0 cur [] cur
| resolves_stay n cur c todo cur' :
    c = "" ∨ c = "." →
    resolves fs rl n cur todo cur' → resolves fs rl (S n) cur (c :: todo) cur'
| resolves_up n cur todo cur' :
    resolves fs rl n (tail cur) todo cur' → resolves fs rl (S n) cur (".." :: todo) cur'
| resolves_name n cur c todo cur' :
    name_ok c → plain fs (host rl (c :: cur)) →
    resolves fs rl n (c :: cur) todo cur' → resolves fs rl (S n) cur (c :: todo) cur'
| resolves_link n cur c dest todo cur' :
    name_ok c → links_to fs (host rl (c :: cur)) dest →
    resolves fs rl n (if IsAbs dest then [] else cur) (Split sep dest ++ todo) cur' →
    resolves fs rl (S n) cur (c :: todo) cur'.

(** ** From strings to names *)

(** The elements that the loop reads from [path]: those of [Split] without the
    empty one after the last separator. *)
Definition tokens (path : string) : list string :=
  let l := Split sep path in
  match rev l with
  | "" :: r => rev r
  | _ => l
  end.

(** The names of the current directory that the buffer [b] stands for. *)
Definition stack (b : string) : list string := walk [] (Split sep b).

Lemma tokens_concat s t : tokens (s +:+ String sep t) = Split sep s ++ tokens t.
Proof.
  unfold tokens. rewrite Split_concat, rev_app_distr.
  destruct (rev (Split sep t)) as [|x r] eqn:E.
  - apply (f_equal (@rev string)) in E. rewrite rev_involutive in E. by apply Split_not_nil in E.
  - apply (f_equal (@rev string)) in E. rewrite rev_involutive in E. simpl in E.
    simpl. destruct x; [|done]. by rewrite rev_app_distr, rev_involutive.
Qed.

Lemma tokens_empty : tokens "" = [].
Proof. done. Qed.

Lemma Cut_Some_nosep c s h rest :
  Cut c s = (h, Some rest) → s = h +:+ String c rest ∧ ContainsByte c h = false.
Proof.
  revert h. induction s as [|a s IH]; intros h; simpl; [done|].
  destruct (ascii_dec a c) as [->|Hne]; [by intros [= <- <-]|].
  destruct (Cut c s) as [x [y|]]; [|done]. intros [= <- <-].
  destruct (IH x eq_refl) as [-> Hx]. split; [done|]. simpl. by destruct (ascii_dec a c).
Qed.

Lemma Cut_None_nosep c s h : Cut c s = (h, None) → s = h ∧ ContainsByte c h = false.
Proof.
  revert h. induction s as [|a s IH]; intros h; simpl; [by intros [= <-]|].
  destruct (ascii_dec a c) as [->|Hne]; [done|].
  destruct (Cut c s) as [x [y|]]; [done|]. intros [= <-].
  destruct (IH x eq_refl) as [-> Hx]. split; [done|]. simpl. by destruct (ascii_dec a c).
Qed.

(** One turn of the loop takes the first element. *)
Lemma next_component_tokens path p path' :
  path ≠ "" → next_component path = (p, path') →
  tokens path = p :: tokens path' ∧ ContainsByte sep p = false.
Proof.
  intros Hne. unfold next_component. destruct (Cut sep path) as [h [rest|]] eqn:E; intros [= <- <-].
  - apply Cut_Some_nosep in E as [-> Hh]. rewrite tokens_concat. by rewrite Split_none.
  - apply Cut_None_nosep in E as [<- Hh]. unfold tokens. rewrite Split_none by done.
    simpl. by destruct path.
Qed.

(** The buffer is empty or ends with a separator. *)
Definition closed (b : string) : Prop := b = "" ∨ ∃ x, b = x +:+ "/".

Lemma stack_push b p :
  closed b → ContainsByte sep p = false → stack (b +:+ p) = clean_step true (stack b) p.
Proof.
  intros Hb Hp. unfold stack. destruct Hb as [->|[x ->]].
  - rewrite app_empty_str. by rewrite Split_none.
  - rewrite app_assoc_str. change ("/" +:+ p) with (String sep p).
    change "/" with (String sep ""). rewrite !Split_concat, !walk_app. by rewrite (Split_none _ p).
Qed.

Lemma stack_close b : stack (b +:+ "/") = stack b.
Proof. unfold stack. change "/" with (String sep ""). rewrite Split_concat, walk_app. done. Qed.

Lemma closed_push b p : closed (b +:+ p +:+ "/").
Proof. right. exists (b +:+ p). by rewrite app_assoc_str. Qed.

Lemma stack_names b : Forall name_ok (stack b).
Proof. apply walk_names; [done|]. apply Split_names. Qed.

Lemma Clean_stack b : Clean ("/" +:+ b) = abs_path (rev (stack b)).
Proof. apply Clean_rooted. Qed.

Lemma abs_path_root l : abs_path l = "/" → Forall name_ok l → l = [].
Proof. intros E Hl. apply (abs_path_inj l []); [done|constructor|exact E]. Qed.

Lemma full_path rl b : Forall name_ok rl → Clean (abs_path rl +:+ Clean ("/" +:+ b)) = host rl (stack b).
Proof. intros Hl. rewrite Clean_stack. apply Clean_abs_app; [done|]. apply Forall_rev, stack_names. Qed.

(** ** Resolution *)

Section resolution.
Context (fs : FS) (rl : list string).
Hypothesis rl_ok : Forall name_ok rl.

(** Every directory on the way to [cur] has been looked at and is no link. *)
Definition visited (cur : list string) : Prop :=
  ∀ c up low, cur = low ++ c :: up → plain fs (host rl (c :: up)).

Lemma visited_nil : visited [].
Proof. intros c up [|??]; done. Qed.

Lemma visited_cons c cur : plain fs (host rl (c :: cur)) → visited cur → visited (c :: cur).
Proof. intros Hc Hcur d up [|x low] [= -> ->]; [done|]. by eapply Hcur. Qed.

Lemma visited_tail cur : visited cur → visited (tail cur).
Proof. destruct cur as [|c cur]; [done|]. simpl. intros H d up low ->. by apply (H d up (c :: low)). Qed.

Lemma visited_head c cur : visited (c :: cur) → plain fs (host rl (c :: cur)).
Proof. intros H. by apply (H c cur []). Qed.

(** The loop on elements. *)
Fixpoint token_loop (left : nat) (cur todo : list string) : outcome oserr (option (list string)) :=
  match todo with
  | [] => Ok (Some cur)
  | p :: todo' =>
      match left with
      | O => Ok None
      | S left' =>
          let cur' := clean_step true cur p in
          if decide (p = "") then token_loop left' cur todo'
          else if decide (cur' = []) then token_loop left' [] todo'
          else match Lstat fs (host rl cur') with
               | Err NotExist => token_loop left' cur' todo'
               | Err e => Err e
               | Panic m => Panic m
               | Ok fi =>
                   if decide (fi = ModeSymlink) then
                     match Readlink fs (host rl cur') with
                     | Err e => Err e
                     | Panic m => Panic m
                     | Ok dest => token_loop left' (if IsAbs dest then [] else cur) (Split sep dest ++ todo')
                     end
                   else token_loop left' cur' todo'
               end
      end
  end.

Definition as_result (orig : string) (o : outcome symlinkError string) (t : outcome oserr (option (list string))) : Prop :=
  match t with
  | Ok (Some cur) => ∃ b, o = Ok b ∧ stack b = cur
  | Ok None => o = Err (TooManyLinks orig)
  | Err e => o = Err (FSError e)
  | Panic m => o = Panic m
  end.

(** The loop on strings computes the loop on elements. *)
Lemma eval_loop_tokens orig left path b :
  closed b → as_result orig (eval_loop fs orig (abs_path rl) left path b) (token_loop left (stack b) (tokens path)).
Proof.
  revert path b. induction left as [|left IH]; intros path b Hb.
  - destruct (decide (path = "")) as [->|Hne]; [rewrite tokens_empty; simpl; eauto|].
    destruct (next_component path) as [p path'] eqn:E.
    destruct (next_component_tokens _ _ _ Hne E) as [-> _]. simpl. by rewrite decide_False.
  - destruct (decide (path = "")) as [->|Hne]; [rewrite tokens_empty; simpl; eauto|].
    destruct (next_component path) as [p path'] eqn:E.
    destruct (next_component_tokens _ _ _ Hne E) as [-> Hp].
    cbn [eval_loop token_loop]. rewrite decide_False by done. rewrite E.
    destruct (decide (p = "")) as [->|Hp0]; [by apply IH|].
    rewrite (full_path rl (b +:+ p)), (Clean_stack (b +:+ p)) by done.
    rewrite <-(stack_push b p) by done.
    destruct (decide (stack (b +:+ p) = [])) as [Hs|Hs].
    { rewrite Hs. rewrite decide_True by done. apply (IH path' ""). by left. }
    rewrite decide_False by (intros E0%abs_path_root; [|apply Forall_rev, stack_names];
      by apply Hs; rewrite <-(rev_involutive (stack _)), E0).
    pose proof (closed_push b p) as Hc.
    pose proof (IH path' (b +:+ p +:+ "/") Hc) as IHc. rewrite <-app_assoc_str, stack_close in IHc.
    rewrite <-app_assoc_str.
    destruct (Lstat fs (host rl (stack (b +:+ p)))) as [fi|[|e]|m]; [|done..].
    destruct (decide (fi = ModeSymlink)); [|done].
    destruct (Readlink fs (host rl (stack (b +:+ p)))) as [dest|e'|m']; [|done..].
    change ("/" +:+ path') with (String sep path'). rewrite <-tokens_concat.
    destruct (IsAbs dest); [apply (IH _ ""); by left|by apply IH].
Qed.

(** What a turn of the loop does on an element that is no name: it moves to a
    directory that was visited, where there is no link. *)
Lemma token_loop_back left cur p todo :
  Forall name_ok cur → visited cur → p = "." ∨ p = ".." ∨ p = "" →
  let cur' := if decide (p = "..") then tail cur else cur in
  token_loop (S left) cur (p :: todo) = token_loop left cur' todo ∧ visited cur' ∧ Forall name_ok cur'.
Proof.
  intros Hok Hv Hp cur'.
  assert (Hstep : clean_step true cur p = cur').
  { unfold clean_step, cur'. destruct Hp as [->|[->| ->]]; [done| |done].
    destruct Hok as [|x cur (?&?&?&?) ?]; [done|]. simpl. by rewrite decide_False. }
  assert (Hv' : visited cur' ∧ Forall name_ok cur').
  { unfold cur'. case_decide; [|done]. split; [by apply visited_tail|]. by destruct Hok. }
  split; [|done]. cbn [token_loop]. rewrite Hstep.
  destruct (decide (p = "")) as [->|_]; [done|].
  destruct (decide (cur' = [])) as [->|Hne]; [done|].
  destruct cur' as [|c up]; [done|].
  destruct (visited_head _ _ (proj1 Hv')) as [->|(m&->&Hm)]; [done|]. by rewrite decide_False.
Qed.

Lemma name_cases p : ContainsByte sep p = false → (p = "." ∨ p = ".." ∨ p = "") ∨ name_ok p.
Proof. intros. destruct (decide (name_ok p)) as [|Hn]; [by right|]. left. unfold name_ok in Hn.
  destruct (decide (p = ".")), (decide (p = "..")), (decide (p = "")); naive_solver. Qed.

Lemma clean_step_name cur p : name_ok p → clean_step true cur p = p :: cur ∧ p ≠ "".
Proof. intros (?&?&?&?). unfold clean_step. rewrite !decide_False by naive_solver. done. Qed.

Lemma token_loop_sound left cur todo cur' :
  Forall name_ok cur → visited cur → Forall (λ x, ContainsByte sep x = false) todo →
  token_loop left cur todo = Ok (Some cur') →
  ∃ n, n ≤ left ∧ resolves fs rl n cur todo cur' ∧ visited cur' ∧ Forall name_ok cur'.
Proof.
  revert cur todo. induction left as [|left IH]; intros cur todo Hok Hv Ht.
  { destruct todo; [|done]. intros [= <-]. exists 0. split_and!; [done|constructor|done..]. }
  destruct Ht as [|p todo Hp Ht].
  { intros [= <-]. exists 0. split_and!; [lia|constructor|done..]. }
  destruct (name_cases p Hp) as [Hback|Hname].
  - destruct (token_loop_back left cur p todo Hok Hv Hback) as (->&Hv'&Hok').
    intros H. destruct (IH _ _ Hok' Hv' Ht H) as (n&?&Hr&?&?).
    exists (S n). split_and!; [lia| |done..]. case_decide as Hd.
    + subst p. by constructor.
    + apply resolves_stay; [naive_solver|done].
  - cbn [token_loop]. destruct (clean_step_name cur p Hname) as [-> Hne]. rewrite (decide_False (P := p = "")) by done.
    rewrite decide_False by done.
    assert (Hgo : plain fs (host rl (p :: cur)) → token_loop left (p :: cur) todo = Ok (Some cur') →
      ∃ n, n ≤ S left ∧ resolves fs rl n cur (p :: todo) cur' ∧ visited cur' ∧ Forall name_ok cur').
    { intros Hpl H. destruct (IH _ _ (Forall_cons_2 _ _ _ Hname Hok) (visited_cons _ _ Hpl Hv) Ht H)
        as (n&?&?&?&?). exists (S n). split_and!; [lia|by apply resolves_name|done..]. }
    destruct (Lstat fs (host rl (p :: cur))) as [fi|[|e]|m] eqn:El; [|by apply Hgo; left|done..].
    case_decide as Hfi; [|apply Hgo; right; eauto].
    destruct (Readlink fs (host rl (p :: cur))) as [dest|e|m] eqn:Er; [|done..].
    intros H. apply IH in H as (n&?&?&?&?).
    + exists (S n). split_and!; [lia| |done..]. eapply resolves_link; [done| |done]. by subst fi.
    + by destruct (IsAbs dest).
    + destruct (IsAbs dest); [apply visited_nil|done].
    + apply Forall_app. split; [apply Split_names|done].
Qed.

Lemma token_loop_complete n cur todo cur' left :
  Forall name_ok cur → visited cur → resolves fs rl n cur todo cur' → n ≤ left →
  token_loop left cur todo = Ok (Some cur').
Proof.
  intros Hok Hv Hr. revert left. induction Hr as [cur|n cur c todo cur' Hc Hr IH|n cur todo cur' Hr IH
    |n cur c todo cur' Hc Hp Hr IH|n cur c dest todo cur' Hc [Hl Hd] Hr IH];
    intros left Hle; [by destruct left|destruct left as [|left]; [lia|]..].
  - assert (Hc' : c = "." ∨ c = ".." ∨ c = "") by naive_solver.
    destruct (token_loop_back left cur c todo Hok Hv Hc') as (->&Hv'&Hok').
    rewrite decide_False by naive_solver. apply IH; [done..|lia].
  - assert (Hc' : ".." = "." ∨ ".." = ".." ∨ ".." = "") by naive_solver.
    destruct (token_loop_back left cur ".." todo Hok Hv Hc') as (->&Hv'&Hok').
    apply IH; [done..|lia].
  - cbn [token_loop]. destruct (clean_step_name cur c Hc) as [-> Hne]. rewrite (decide_False (P := c = "")) by done.
    rewrite decide_False by done.
    assert (H : token_loop left (c :: cur) todo = Ok (Some cur')).
    { apply IH; [by constructor|by apply visited_cons|lia]. }
    destruct Hp as [->|(m&->&Hm)]; [done|]. by rewrite decide_False.
  - cbn [token_loop]. destruct (clean_step_name cur c Hc) as [-> Hne]. rewrite (decide_False (P := c = "")) by done.
    rewrite decide_False by done. rewrite Hl, Hd. rewrite decide_True by done.
    apply IH; [| |lia]; destruct (IsAbs dest); auto using visited_nil.
Qed.
End resolution.

(** ** The functions on clean absolute paths *)

Lemma HasPrefix_app p t : HasPrefix (p +:+ t) p = true.
Proof.
  induction p as [|a p IH]; [by destruct t|]. rewrite app_cons_str. simpl.
  by destruct (ascii_dec a a).
Qed.

Lemma HasPrefix_inv s p : HasPrefix s p = true → ∃ t, s = p +:+ t.
Proof.
  revert s. induction p as [|a p IH]; intros s H; [by exists s|].
  destruct s as [|b s]; [done|]. cbn [HasPrefix] in H.
  destruct (ascii_dec a b) as [<-|]; [|done]. destruct (IH s H) as [t ->]. by exists t.
Qed.

Lemma substring_whole s : String.substring 0 (String.length s) s = s.
Proof. induction s as [|a s IH]; [done|]. simpl. by rewrite IH. Qed.

Lemma drop_bytes_app p t : drop_bytes (String.length p) (p +:+ t) = t.
Proof.
  unfold drop_bytes. rewrite length_app_str.
  replace (String.length p + String.length t - String.length p) with (String.length t) by lia.
  induction p as [|a p IH]; [apply substring_whole|]. rewrite app_cons_str. simpl. apply IH.
Qed.

Lemma abs_path_app rl l : rl ≠ [] → l ≠ [] → abs_path (rl ++ l) = abs_path rl +:+ abs_path l.
Proof.
  intros Hr Hl. unfold abs_path. rewrite app_cons_str. f_equal.
  induction rl as [|x rl IH]; [done|]. destruct rl as [|y rl].
  - destruct l as [|z l]; [done|]. simpl app. by rewrite Join_cons.
  - simpl app in *. rewrite !Join_cons. rewrite IH by done. by rewrite !app_assoc_str.
Qed.

Lemma tokens_abs l : Forall name_ok l → tokens (abs_path l) = "" :: l.
Proof.
  intros Hl. change (abs_path l) with ("" +:+ String sep (Join "/" l)).
  rewrite tokens_concat. simpl. f_equal.
  destruct l as [|x l]; [done|]. unfold tokens. rewrite Split_Join by eauto using name_ok_nosep.
  destruct (rev (x :: l)) as [|[|a s] r] eqn:E; [done| |done].
  apply Forall_rev in Hl. rewrite E in Hl. by apply Forall_cons in Hl as [(?&_) _].
Qed.

Section scope.
Context (fs : FS) (rl : list string).
Hypothesis rl_ok : Forall name_ok rl.

(** A path below the root. *)
Lemma eval_below l :
  Forall name_ok l → l ≠ [] →
  evalSymlinksInScope fs (abs_path (rl ++ l)) (abs_path rl) =
  match eval_loop fs (abs_path (rl ++ l)) (abs_path rl) (S maxIter) (abs_path l) "" with
  | Ok b => Ok (host rl (stack b))
  | Err e => Err e
  | Panic m => Panic m
  end.
Proof.
  intros Hl Hne. unfold evalSymlinksInScope. rewrite Clean_abs_path by done.
  rewrite decide_False.
  2:{ intros E. apply abs_path_inj in E; [|by apply Forall_app|done].
      destruct l; [done|]. apply (f_equal length) in E. rewrite length_app in E. simpl in E. lia. }
  assert (∃ t, abs_path (rl ++ l) = abs_path rl +:+ t ∧
    (if decide (abs_path rl = "/") then "/" +:+ t else t) = abs_path l) as (t & Et & Ht).
  { destruct (decide (rl = [])) as [->|Hrl].
    - exists (Join "/" l). done.
    - exists (abs_path l). rewrite abs_path_app by done. split; [done|].
      rewrite decide_False; [done|]. by intros ?%abs_path_root. }
  rewrite Et, HasPrefix_app. cbn [negb]. rewrite drop_bytes_app, Ht.
  change (HasPrefix (abs_path l) "/") with (IsAbs (abs_path l)). rewrite IsAbs_abs_path. cbn [negb].
  rewrite Clean_abs_path by done. rewrite <-Et.
  destruct (eval_loop fs _ _ _ _ _) as [b|e|m]; [|done..].
  by rewrite full_path.
Qed.

End scope.

(** A path that is not below the root is refused, whatever the file system. *)
Lemma eval_outside rl pl :
  Forall name_ok rl → Forall name_ok pl →
  (∃ l, pl = rl ++ l) ∨
  ∃ p, ∀ fs, evalSymlinksInScope fs (abs_path pl) (abs_path rl) = Err (NotInScope p (abs_path rl)).
Proof.
  intros Hrl Hpl. unfold evalSymlinksInScope. rewrite Clean_abs_path by done.
  destruct (decide (abs_path pl = abs_path rl)) as [E|Hne].
  { left. exists []. rewrite app_nil_r. by apply abs_path_inj. }
  destruct (HasPrefix (abs_path pl) (abs_path rl)) eqn:Hp; [|eauto]. cbn [negb].
  apply HasPrefix_inv in Hp as [t Et]. rewrite Et, drop_bytes_app.
  destruct (decide (rl = [])) as [->|Hrl0]; [left; by exists pl|].
  rewrite decide_False by (by intros ?%abs_path_root).
  destruct (HasPrefix t "/") eqn:Ht; [|eauto]. left.
  apply HasPrefix_inv in Ht as [u ->]. exists (Split sep u).
  change (?s +:+ "/" +:+ u) with (s +:+ String sep u) in Et.
  apply (f_equal (Split sep)) in Et. rewrite Split_concat in Et.
  assert (Hs : ∀ k, Forall name_ok k → k ≠ [] → Split sep (abs_path k) = "" :: k).
  { intros k Hk Hk0. change (abs_path k) with ("" +:+ String sep (Join "/" k)).
    rewrite Split_concat. simpl. rewrite Split_Join by eauto using name_ok_nosep. done. }
  rewrite (Hs rl) in Et by done. destruct pl as [|x pl].
  { exfalso. destruct rl; [done|]. apply (f_equal length) in Et. simpl in Et.
    rewrite length_app in Et. pose proof (Split_not_nil sep u). destruct (Split sep u); [done|].
    simpl in Et. lia. }
  rewrite (Hs (x :: pl)) in Et by done. by injection Et.
Qed.

#[local] Opaque maxIter.

(** The loop started on a path below the root; the first element is the empty
    one before the separator. *)
Lemma eval_loop_start fs rl l orig k :
  Forall name_ok rl → Forall name_ok l →
  as_result orig (eval_loop fs orig (abs_path rl) (S k) (abs_path l) "") (token_loop fs rl k [] l).
Proof.
  intros Hrl Hl.
  pose proof (eval_loop_tokens fs rl Hrl orig (S k) (abs_path l) "" (or_introl eq_refl)) as H.
  rewrite tokens_abs in H by done. exact H.
Qed.

Lemma eval_tokens fs rl l :
  Forall name_ok rl → Forall name_ok l →
  evalSymlinksInScope fs (abs_path (rl ++ l)) (abs_path rl) =
  match token_loop fs rl maxIter [] l with
  | Ok (Some cur) => Ok (host rl cur)
  | Ok None => Err (TooManyLinks (abs_path (rl ++ l)))
  | Err e => Err (FSError e)
  | Panic m => Panic m
  end.
Proof.
  intros Hrl Hl. destruct (decide (l = [])) as [->|Hne].
  { rewrite app_nil_r. unfold evalSymlinksInScope. rewrite Clean_abs_path, decide_True by done.
    change (token_loop fs rl maxIter [] []) with (Ok (E := oserr) (Some (@nil string))).
    unfold host. by rewrite app_nil_r. }
  rewrite eval_below by done.
  pose proof (eval_loop_start fs rl l (abs_path (rl ++ l)) maxIter Hrl Hl) as Hlp.
  unfold as_result in Hlp. destruct (token_loop fs rl maxIter [] l) as [[cur|]|e|m];
    [destruct Hlp as (b&->&<-)|rewrite Hlp..]; done.
Qed.

(** ** The properties *)

Lemma FollowSymlinkInScope_follows fs wd path root r :
  IsAbs wd = true →
  let rl := elements (Abs wd root) in
  FollowSymlinkInScope fs wd path root = Ok r ↔
  ∃ l n cur, elements (Abs wd path) = rl ++ l ∧ n ≤ maxIter ∧ resolves fs rl n [] l cur ∧ r = host rl cur.
Proof.
  intros Hwd rl. destruct (Abs_abs wd path Hwd) as [Hp Ep]. destruct (Abs_abs wd root Hwd) as [Hr Er].
  unfold FollowSymlinkInScope. rewrite Ep, Er. fold rl in Hr |- *.
  rewrite (elements_abs _ Hp). generalize dependent (elements (Abs wd path)). intros pl Hp _.
  clearbody rl. clear Er. split.
  - intros H. destruct (eval_outside rl pl Hr Hp) as [[l ->]|[p E]]; [|by rewrite E in H].
    pose proof Hp as [_ Hl]%Forall_app. rewrite eval_tokens in H by done.
    destruct (token_loop fs rl maxIter [] l) as [[cur|]|e|m] eqn:E; simplify_eq.
    apply token_loop_sound in E as (n & ? & ? & _); [|done|apply visited_nil|by apply name_ok_nosep].
    eauto 10.
  - intros (l & n & cur & -> & Hn & H & ->). pose proof Hp as [_ Hl]%Forall_app.
    rewrite eval_tokens by done.
    erewrite token_loop_complete; [done| |apply visited_nil|done..]. done.
Qed.

(** C12: [FollowSymlinkInScope] gives exactly the path that a process confined
    to the root directory reaches: it succeeds with [r] if and only if the path
    is below the root, and resolving its elements, links included, looks at no
    more than 255 elements and ends at [r]. *)
Theorem FollowSymlinkInScope_chroot fs wd path root r :
  IsAbs wd = true →
  let rl := elements (Abs wd root) in
  FollowSymlinkInScope fs wd path root = Ok r ↔
  ∃ l n cur, elements (Abs wd path) = rl ++ l ∧ n ≤ maxIter ∧ resolves fs rl n [] l cur ∧ r = host rl cur.
Proof. apply FollowSymlinkInScope_follows. Qed.

(** Resolution ends in a visited directory. *)
Lemma resolves_visited fs rl n cur todo cur' :
  Forall name_ok cur → visited fs rl cur → resolves fs rl n cur todo cur' →
  visited fs rl cur' ∧ Forall name_ok cur'.
Proof.
  intros Hok Hv Hr.
  induction Hr as [cur|n cur c todo cur' Hc Hr IH|n cur todo cur' Hr IH
    |n cur c todo cur' Hc Hp Hr IH|n cur c dest todo cur' Hc [Hl Hd] Hr IH]; [done|auto| | |].
  - apply IH; [by destruct Hok|by apply visited_tail].
  - apply IH; [by constructor|by apply visited_cons].
  - destruct (IsAbs dest); apply IH; auto using visited_nil.
Qed.

Lemma visited_prefix fs rl cur l1 l2 :
  visited fs rl cur → rev cur = l1 ++ l2 → l1 ≠ [] → plain fs (abs_path (rl ++ l1)).
Proof.
  intros Hv E Hne. destruct (rev l1) as [|c up] eqn:E1.
  { by rewrite <-(rev_involutive l1), E1 in Hne. }
  rewrite <-(rev_involutive l1), E1. apply (Hv c up (rev l2)).
  apply (f_equal (@rev string)) in E. rewrite rev_involutive, rev_app_distr, E1 in E. done.
Qed.

(** The part of the file system below the root that is looked at. *)
Definition same_below (rl : list string) (fs1 fs2 : FS) : Prop :=
  ∀ l, l ≠ [] → Forall name_ok l →
    Lstat fs1 (abs_path (rl ++ l)) = Lstat fs2 (abs_path (rl ++ l)) ∧
    Readlink fs1 (abs_path (rl ++ l)) = Readlink fs2 (abs_path (rl ++ l)).

Lemma token_loop_same rl fs1 fs2 left cur todo :
  same_below rl fs1 fs2 → Forall name_ok cur → Forall (λ x, ContainsByte sep x = false) todo →
  token_loop fs1 rl left cur todo = token_loop fs2 rl left cur todo.
Proof.
  intros Hfs. revert cur todo. induction left as [|left IH]; intros cur todo Hcur Ht; [by destruct todo|].
  destruct Ht as [|p todo Hp Ht]; [done|]. cbn [token_loop].
  pose proof (clean_step_names cur p Hcur Hp) as Hok.
  destruct (decide (p = "")); [by apply IH|].
  destruct (decide (clean_step true cur p = [])) as [|Hne]; [by apply IH|].
  destruct (Hfs (rev (clean_step true cur p))) as [El Er].
  { intros E. apply Hne. by rewrite <-(rev_involutive (clean_step _ _ _)), E. }
  { by apply Forall_rev. }
  unfold host. rewrite El, Er. repeat case_match; try done; apply IH; try done.
  all: apply Forall_app; split; [apply Split_names|done].
Qed.

Lemma follow_confined fs wd path root r :
  IsAbs wd = true → FollowSymlinkInScope fs wd path root = Ok r →
  ∃ l, r = abs_path (elements (Abs wd root) ++ l) ∧ Forall name_ok l ∧
    ∀ l1 l2, l = l1 ++ l2 → l1 ≠ [] → plain fs (abs_path (elements (Abs wd root) ++ l1)).
Proof.
  intros Hwd H. apply FollowSymlinkInScope_follows in H as (l & n & cur & _ & _ & Hr & ->); [|done].
  apply resolves_visited in Hr as [Hv Hok]; [|done|apply visited_nil].
  exists (rev cur). split_and!; [done|by apply Forall_rev|].
  intros l1 l2 E Hne. by eapply visited_prefix.
Qed.

(** C15: A path that is followed stays in its root directory: the path returned
    is the root, or names below it with no dot, dot-dot or separator, and no
    directory on the way from the root to it is a symbolic link that the host
    could follow elsewhere. *)
Theorem FollowSymlinkInScope_confined fs wd path root r :
  IsAbs wd = true → FollowSymlinkInScope fs wd path root = Ok r →
  ∃ l, r = abs_path (elements (Abs wd root) ++ l) ∧ Forall name_ok l ∧
    ∀ l1 l2, l = l1 ++ l2 → l1 ≠ [] → plain fs (abs_path (elements (Abs wd root) ++ l1)).
Proof. apply follow_confined. Qed.

(** What is outside the root directory, or the root directory itself, has no
    influence on the answer. *)
Theorem FollowSymlinkInScope_isolated fs1 fs2 wd path root :
  IsAbs wd = true → same_below (elements (Abs wd root)) fs1 fs2 →
  FollowSymlinkInScope fs1 wd path root = FollowSymlinkInScope fs2 wd path root.
Proof.
  intros Hwd Hfs. destruct (Abs_abs wd path Hwd) as [Hp Ep]. destruct (Abs_abs wd root Hwd) as [Hr Er].
  unfold FollowSymlinkInScope. rewrite Ep, Er.
  destruct (eval_outside _ _ Hr Hp) as [[l E]|[p E]]; [|by rewrite !E].
  rewrite E in Hp |- *. pose proof Hp as [_ Hl]%Forall_app. rewrite !eval_tokens by done.
  by rewrite (token_loop_same _ fs1 fs2) by auto using name_ok_nosep.
Qed.

(** Plain names, one turn each. *)
Lemma token_loop_plain fs rl left cur l :
  Forall name_ok l → (∀ l1 l2, l = l1 ++ l2 → l1 ≠ [] → plain fs (host rl (rev l1 ++ cur))) →
  token_loop fs rl left cur l = Ok (if decide (length l ≤ left) then Some (rev l ++ cur) else None).
Proof.
  intros Hl. revert left cur. induction Hl as [|p l Hp Hl IH]; intros left cur Hpl; [by destruct left|].
  destruct left as [|left]; [by rewrite decide_False by (simpl; lia)|].
  cbn [token_loop]. destruct (clean_step_name cur p Hp) as [-> Hne].
  rewrite (decide_False (P := p = "")) by done. rewrite decide_False by done.
  assert (E : token_loop fs rl left (p :: cur) l =
    Ok (if decide (length (p :: l) ≤ S left) then Some (rev (p :: l) ++ cur) else None)).
  { rewrite IH.
    - simpl. rewrite <-app_assoc. by repeat case_decide; try lia.
    - intros l1 l2 -> Hn. specialize (Hpl (p :: l1) l2 eq_refl ltac:(done)).
      simpl in Hpl. by rewrite <-app_assoc in Hpl. }
  destruct (Hpl [p] l eq_refl ltac:(done)) as [Ep|(m&Ep&Hm)]; simpl in Ep; rewrite Ep; [done|].
  by rewrite decide_False.
Qed.

Lemma Abs_clean wd l : Forall name_ok l → Abs wd (abs_path l) = abs_path l.
Proof. intros Hl. unfold Abs. rewrite IsAbs_abs_path. by apply Clean_abs_path. Qed.

Lemma follow_plain fs wd rl l :
  Forall name_ok rl → Forall name_ok l → (∀ l1 l2, l = l1 ++ l2 → l1 ≠ [] → plain fs (abs_path (rl ++ l1))) →
  FollowSymlinkInScope fs wd (abs_path (rl ++ l)) (abs_path rl) =
  if decide (length l ≤ maxIter) then Ok (abs_path (rl ++ l)) else Err (TooManyLinks (abs_path (rl ++ l))).
Proof.
  intros Hrl Hl Hpl. unfold FollowSymlinkInScope. rewrite !Abs_clean by (try apply Forall_app; done).
  rewrite eval_tokens by done. rewrite token_loop_plain by (try done;
    intros l1 l2 E Hn; rewrite app_nil_r; unfold host; rewrite rev_involutive; eauto).
  case_decide; [|done]. unfold host. by rewrite app_nil_r, rev_involutive.
Qed.

(** The number of turns bounds the elements of the path, not only the links:
    a path of more than 255 names is refused as having too many links where
    there is no link at all. *)
Theorem long_path_refused fs wd rl l :
  Forall name_ok (rl ++ l) → (∀ p, plain fs p) → maxIter < length l →
  FollowSymlinkInScope fs wd (abs_path (rl ++ l)) (abs_path rl) = Err (TooManyLinks (abs_path (rl ++ l))).
Proof.
  intros [Hrl Hl]%Forall_app Hpl Hlen. rewrite follow_plain by auto.
  rewrite decide_False by lia. done.
Qed.

(** Following a path that was followed changes nothing: the answer, if it
    has at most 255 names below the root, is its own answer. *)
Theorem FollowSymlinkInScope_idempotent fs wd path root r :
  IsAbs wd = true → FollowSymlinkInScope fs wd path root = Ok r →
  length (elements r) ≤ length (elements (Abs wd root)) + maxIter →
  FollowSymlinkInScope fs wd r (Abs wd root) = Ok r.
Proof.
  intros Hwd H Hlen. destruct (Abs_abs wd root Hwd) as [Hr Er].
  destruct (follow_confined _ _ _ _ _ Hwd H) as (l & -> & Hl & Hpl).
  set (rl := elements (Abs wd root)) in *. clearbody rl. rewrite Er.
  rewrite elements_abs in Hlen by (by apply Forall_app).
  rewrite follow_plain by done. rewrite length_app in Hlen. by rewrite decide_True by lia.
Qed.

(** ** The resources of a container *)

(** The path of a resource is the walk of its elements from the root. *)
Lemma resource_elements BaseFS path :
  IsAbs BaseFS = true →
  Abs "" BaseFS = Clean BaseFS ∧
  ∃ rl k, Forall name_ok rl ∧ Forall name_ok k ∧ Clean BaseFS = abs_path rl ∧
    k = rev (walk [] (Split sep path)) ∧
    PathJoin [BaseFS; cleanResourcePath path] = abs_path (rl ++ k).
Proof.
  intros HB. split; [unfold Abs; by rewrite HB|].
  destruct BaseFS as [|a s]; [done|]. unfold IsAbs, HasPrefix in HB.
  destruct (ascii_dec "/" a) as [<-|]; [|done].
  exists (rev (walk [] (Split sep s))), (rev (walk [] (Split sep path))).
  split_and!; [apply rooted_names|apply rooted_names|done|done|].
  unfold cleanResourcePath. rewrite PathJoin_root.
  set (k := rev (walk [] (Split sep path))).
  assert (Hk : Forall name_ok k) by apply rooted_names.
  change (PathJoin [String "/" s; abs_path k]) with (Clean (String sep (s +:+ String sep (abs_path k)))).
  rewrite Clean_rooted, Split_concat, walk_app. f_equal.
  set (st := walk [] (Split sep s)).
  change (abs_path k) with ("" +:+ String sep (Join "/" k)). rewrite Split_concat, walk_app.
  change (walk st (Split sep "")) with st. destruct k as [|x k].
  - change (walk st (Split sep (Join "/" []))) with st. by rewrite app_nil_r.
  - rewrite Split_Join by eauto using name_ok_nosep. rewrite walk_plain by done.
    by rewrite rev_app_distr, rev_involutive.
Qed.

Lemma GetResourcePath_resolves fs wd BaseFS path :
  IsAbs BaseFS = true →
  ∃ rl, Clean BaseFS = abs_path rl ∧ Forall name_ok rl ∧
  (∀ r, GetResourcePath fs wd BaseFS path = Ok r ↔
    ∃ n cur, n ≤ maxIter ∧ resolves fs rl n [] (rev (walk [] (Split sep path))) cur ∧ r = host rl cur) ∧
  ∀ p q, GetResourcePath fs wd BaseFS path ≠ Err (NotInScope p q).
Proof.
  intros HB. destruct (resource_elements BaseFS path HB) as (_ & rl & k & Hrl & Hk & EB & Ek & EJ).
  exists rl. split; [done|]. split; [done|]. rewrite <-Ek. unfold GetResourcePath, FollowSymlinkInScope.
  rewrite EJ, Abs_clean by (by apply Forall_app).
  replace (Abs wd BaseFS) with (abs_path rl) by (unfold Abs; by rewrite HB, EB).
  rewrite eval_tokens by done. split.
  - intros r. split.
    + intros H. destruct (token_loop fs rl maxIter [] k) as [[cur|]|e|m] eqn:E; simplify_eq.
      apply token_loop_sound in E as (n & ? & ? & _); [|done|apply visited_nil|by apply name_ok_nosep].
      eauto.
    + intros (n & cur & Hn & H & ->).
      erewrite token_loop_complete; [done| |apply visited_nil|done..]. done.
  - intros p q. by repeat case_match.
Qed.

(** A resource of a container is looked up as a process of the container
    would look up its cleaned path: for every path given, dot-dot and links
    included, the answer is the confined resolution below the container's file
    system, and no path is refused as being outside. *)
Theorem GetResourcePath_confined fs wd BaseFS path :
  IsAbs BaseFS = true →
  ∃ rl, Clean BaseFS = abs_path rl ∧ Forall name_ok rl ∧
  (∀ r, GetResourcePath fs wd BaseFS path = Ok r ↔
    ∃ n cur, n ≤ maxIter ∧ resolves fs rl n [] (rev (walk [] (Split sep path))) cur ∧ r = host rl cur) ∧
  ∀ p q, GetResourcePath fs wd BaseFS path ≠ Err (NotInScope p q).
Proof. apply GetResourcePath_resolves. Qed.

(** ** Witnesses *)

(** Below /r: the link /r/a leads to /b/../c, seen from /r. *)
Definition link_fs : FS := {|
  Lstat p := if decide (p = "/r/a") then Ok ModeSymlink
             else if decide (p = "/r/c" ∨ p = "/r/b") then Ok ModeDir else Err NotExist;
  Readlink p := if decide (p = "/r/a") then Ok "/b/../c" else Err (OSError "EINVAL")
|}.

Lemma FollowSymlinkInScope_chroot_witness :
  FollowSymlinkInScope link_fs "/" "/r/a/x" "/r" = Ok "/r/c/x" ∧
  (FollowSymlinkInScope link_fs "/" "/r/a/x" "/r" = Ok "/r/c/x" ↔
   ∃ l n cur, elements (Abs "/" "/r/a/x") = elements (Abs "/" "/r") ++ l ∧ n ≤ maxIter ∧
     resolves link_fs (elements (Abs "/" "/r")) n [] l cur ∧ "/r/c/x" = host (elements (Abs "/" "/r")) cur).
Proof.
  split; [vm_compute; reflexivity|].
  apply (FollowSymlinkInScope_chroot link_fs "/" "/r/a/x" "/r" "/r/c/x"). vm_compute. reflexivity.
Defined.

Lemma FollowSymlinkInScope_confined_witness :
  ∃ l, "/r/c/x" = abs_path (elements (Abs "/" "/r") ++ l) ∧ Forall name_ok l ∧
    ∀ l1 l2, l = l1 ++ l2 → l1 ≠ [] → plain link_fs (abs_path (elements (Abs "/" "/r") ++ l1)).
Proof.
  apply (FollowSymlinkInScope_confined link_fs "/" "/r/a/x" "/r" "/r/c/x"); vm_compute; reflexivity.
Defined.

(** The same file system with a link at /etc, outside of /r. *)
Definition link_fs_etc : FS := {|
  Lstat p := if decide (p = "/etc") then Ok ModeSymlink else Lstat link_fs p;
  Readlink := Readlink link_fs
|}.

Lemma FollowSymlinkInScope_isolated_witness :
  FollowSymlinkInScope link_fs "/" "/r/a/x" "/r" = FollowSymlinkInScope link_fs_etc "/" "/r/a/x" "/r".
Proof.
  apply (FollowSymlinkInScope_isolated link_fs link_fs_etc "/" "/r/a/x" "/r"); [reflexivity|].
  intros l Hl _. split; [|reflexivity]. cbn [Lstat link_fs_etc].
  rewrite decide_False; [reflexivity|].
  change (elements (Abs "/" "/r")) with ["r"]. destruct l; [done|]. simpl app. unfold abs_path. by rewrite Join_cons.
Defined.

Lemma FollowSymlinkInScope_idempotent_witness :
  FollowSymlinkInScope link_fs "/" "/r/c/x" "/r" = Ok "/r/c/x".
Proof.
  apply (FollowSymlinkInScope_idempotent link_fs "/" "/r/a/x" "/r" "/r/c/x").
  - reflexivity.
  - vm_compute. reflexivity.
  - apply Nat.leb_le. vm_compute. reflexivity.
Defined.

Lemma long_path_refused_witness :
  FollowSymlinkInScope {| Lstat _ := Ok ModeDir; Readlink _ := Err NotExist |} "/"
    (abs_path (["r"] ++ replicate 256 "d")) (abs_path ["r"])
  = Err (TooManyLinks (abs_path (["r"] ++ replicate 256 "d"))).
Proof.
  apply (long_path_refused _ "/" ["r"] (replicate 256 "d")).
  - apply Forall_app. split; [constructor; [|constructor]|apply Forall_replicate]; apply (bool_decide_unpack _); vm_compute; exact I.
  - intros p. right. by exists ModeDir.
  - apply Nat.ltb_lt. vm_compute. reflexivity.
Defined.

Lemma GetResourcePath_confined_witness :
  GetResourcePath link_fs "/" "/r" "../../a" = Ok "/r/c" ∧
  ∃ rl, Clean "/r" = abs_path rl ∧ Forall name_ok rl ∧
  (∀ r, GetResourcePath link_fs "/" "/r" "../../a" = Ok r ↔
    ∃ n cur, n ≤ maxIter ∧ resolves link_fs rl n [] (rev (walk [] (Split sep "../../a"))) cur ∧ r = host rl cur) ∧
  ∀ p q, GetResourcePath link_fs "/" "/r" "../../a" ≠ Err (NotInScope p q).
Proof.
  split; [vm_compute; reflexivity|]. apply (GetResourcePath_confined link_fs "/" "/r" "../../a"). reflexivity.
Defined.

(** The path is cleaned before its links are followed: a/.. is the root for the
    code, where a process of the container would be in the directory that the
    link a leads to. *)
Example dotdot_before_links :
  let fs := {| Lstat p := if decide (p = "/r/a") then Ok ModeSymlink else Ok ModeDir;
               Readlink _ := Ok "b/d" |} in
  GetResourcePath fs "/" "/r" "a/../x" = Ok "/r/x" ∧
  resolves fs ["r"] 5 [] (Split sep "a/../x") ["x"; "b"].
Proof.
  split; [vm_compute; reflexivity|].
  assert (H : ∀ s, bool_decide (name_ok s) = true → name_ok s) by (intros s; apply bool_decide_eq_true_1).
  change (Split sep "a/../x") with ["a"; ".."; "x"].
  eapply (resolves_link _ _ 4 [] "a" "b/d"); [by apply H|by split|].
  change (Split sep "b/d" ++ [".."; "x"]) with ["b"; "d"; ".."; "x"].
  apply resolves_name; [by apply H|right; by exists ModeDir|].
  apply resolves_name; [by apply H|right; by exists ModeDir|].
  apply resolves_up. apply resolves_name; [by apply H|right; by exists ModeDir|]. constructor.
Qed.
