(* ===== verification/CopyPaths.v ===== *)
(** * The paths of a copy into or out of a container

    pkg/archive/copy.go, the decisions that the copy command makes on paths
    before and after it moves an archive, and container/archive.go, the paths
    inside a container.  The content of an archive is the list of the names of
    its entries with what they hold; reading and writing tar streams is an
    argument. *)

From S2P Require Import Prelude GoStrings Filepath Symlink.

(** ** pkg/archive/copy.go *)

(** copy_unix.go: [filepath.ToSlash] changes nothing on Unix. *)
Definition normalizePath (path : string) : string := path.

Definition hasTrailingPathSeparator (path : string) : bool := ends_with sep path.

Definition specifiesCurrentDir (path : string) : bool := bool_decide (Base path = ".").

Definition assertsDirectory (path : string) : bool :=
  hasTrailingPathSeparator path || specifiesCurrentDir path.

Definition PreserveTrailingDotOrSeparator (cleanedPath0 originalPath0 : string) : string :=
  let cleanedPath := normalizePath cleanedPath0 in
  let originalPath := normalizePath originalPath0 in
  let cleanedPath :=
    if negb (specifiesCurrentDir cleanedPath) && specifiesCurrentDir originalPath then
      (if negb (hasTrailingPathSeparator cleanedPath) then cleanedPath +:+ "/" else cleanedPath) +:+ "."
    else cleanedPath in
  if negb (hasTrailingPathSeparator cleanedPath) && hasTrailingPathSeparator originalPath
  then cleanedPath +:+ "/" else cleanedPath.

Definition SplitPathDirEntry (path : string) : string * string :=
  let cleanedPath := Clean (normalizePath path) in
  let cleanedPath := if specifiesCurrentDir path then cleanedPath +:+ "/" +:+ "." else cleanedPath in
  (Dir cleanedPath, Base cleanedPath).

Record CopyInfo := mkCopyInfo {
  ci_Path : string; ci_Exists : bool; ci_IsDir : bool; ci_RebaseName : string
}.

Inductive copyError :=
| ErrNotDirectory | ErrDirNotExists | ErrCannotCopyDir
| TooManySymlinks (path : string)
| CopyFS (e : oserr)
| CopyScope (e : symlinkError).

(** [filepath.EvalSymlinks] is the function [es] of the standard library; the
    model only says when it fails. *)
Definition GetRebaseName (path resolvedPath0 : string) : string * string :=
  let r := resolvedPath0 in
  let r := if specifiesCurrentDir path && negb (specifiesCurrentDir r) then r +:+ "/" +:+ "." else r in
  let r := if hasTrailingPathSeparator path && negb (hasTrailingPathSeparator r) then r +:+ "/" else r in
  (r, if decide (Base path = Base r) then "" else Base path).

Definition ResolveHostSourcePath (es : string → outcome oserr string) (path : string) (followLink : bool) :
    outcome copyError (string * string) :=
  if followLink then
    match es path with
    | Ok r => Ok (GetRebaseName path r)
    | Err e => Err (CopyFS e)
    | Panic m => Panic m
    end
  else
    let '(dirPath, basePath) := PathSplit path in
    match es dirPath with
    | Ok d =>
        let resolvedPath := d +:+ "/" +:+ basePath in
        Ok (resolvedPath,
            if hasTrailingPathSeparator path && negb (bool_decide (Base path = Base resolvedPath))
            then Base path else "")
    | Err e => Err (CopyFS e)
    | Panic m => Panic m
    end.

Definition CopyInfoSourcePath (fs : FS) (es : string → outcome oserr string) (path0 : string) (followLink : bool) :
    outcome copyError CopyInfo :=
  let path := normalizePath path0 in
  match ResolveHostSourcePath es path followLink with
  | Ok (resolvedPath, rebaseName) =>
      match Lstat fs resolvedPath with
      | Ok stat => Ok (mkCopyInfo resolvedPath true (bool_decide (stat = ModeDir)) rebaseName)
      | Err e => Err (CopyFS e)
      | Panic m => Panic m
      end
  | Err e => Err e
  | Panic m => Panic m
  end.

Definition maxSymlinkIter : nat := 10.

(** The loop over the links, with the number of turns left; it ends with the
    last path and what [Lstat] says of it. *)
Fixpoint dest_loop (fs : FS) (originalPath : string) (left : nat) (path : string) (stat : outcome oserr mode) :
    outcome copyError (string * outcome oserr mode) :=
  match stat with
  | Ok ModeSymlink =>
      match left with
      | O => Err (TooManySymlinks originalPath)
      | S left' =>
          match Readlink fs path with
          | Err e => Err (CopyFS e)
          | Panic m => Panic m
          | Ok linkTarget0 =>
              let linkTarget :=
                if IsAbs linkTarget0 then linkTarget0
                else PathJoin [(SplitPathDirEntry path).1; linkTarget0] in
              dest_loop fs originalPath left' linkTarget (Lstat fs linkTarget)
          end
      end
  | _ => Ok (path, stat)
  end.

Definition CopyInfoDestinationPath (fs : FS) (path0 : string) : outcome copyError CopyInfo :=
  let path := normalizePath path0 in
  let originalPath := path in
  match dest_loop fs originalPath (S maxSymlinkIter) path (Lstat fs path) with
  | Err e => Err e
  | Panic m => Panic m
  | Ok (path, Err NotExist) =>
      let dstParent := (SplitPathDirEntry path).1 in
      match Lstat fs dstParent with
      | Err e => Err (CopyFS e)
      | Panic m => Panic m
      | Ok parentDirStat =>
          if decide (parentDirStat = ModeDir) then Ok (mkCopyInfo path false false "")
          else Err ErrNotDirectory
      end
  | Ok (path, Err e) => Err (CopyFS e)
  | Ok (path, Panic m) => Panic m
  | Ok (path, Ok stat) => Ok (mkCopyInfo path true (bool_decide (stat = ModeDir)) "")
  end.

(** [strings.Replace(s, old, new, 1)]. *)
Fixpoint Replace1 (s old new : string) : string :=
  if HasPrefix s old then new +:+ drop_bytes (String.length old) s
  else match s with
       | EmptyString => ""
       | String a s' => String a (Replace1 s' old new)
       end.

(** The entries of an archive: the names in their headers and the contents. *)
Definition archive (C : Type) : Type := list (string * C).

Definition RebaseArchiveEntries {C} (srcContent : archive C) (oldBase0 newBase : string) : archive C :=
  let oldBase := if decide (oldBase0 = "/") then "" else oldBase0 in
  map (λ e, (Replace1 e.1 oldBase newBase, e.2)) srcContent.

Definition PrepareArchiveCopy {C} (srcContent : archive C) (srcInfo dstInfo : CopyInfo) :
    outcome copyError (string * archive C) :=
  let srcPath := normalizePath (ci_Path srcInfo) in
  let dstPath := normalizePath (ci_Path dstInfo) in
  let '(dstDir, dstBase) := SplitPathDirEntry dstPath in
  let srcBase := (SplitPathDirEntry srcPath).2 in
  let srcBase' := if decide (ci_RebaseName srcInfo = "") then srcBase else ci_RebaseName srcInfo in
  if ci_Exists dstInfo && ci_IsDir dstInfo then Ok (dstPath, srcContent)
  else if ci_Exists dstInfo && ci_IsDir srcInfo then Err ErrCannotCopyDir
  else if ci_Exists dstInfo then Ok (dstDir, RebaseArchiveEntries srcContent srcBase' dstBase)
  else if ci_IsDir srcInfo then Ok (dstDir, RebaseArchiveEntries srcContent srcBase' dstBase)
  else if assertsDirectory dstPath then Err ErrDirNotExists
  else Ok (dstDir, RebaseArchiveEntries srcContent srcBase' dstBase).

(** [CopyTo] up to the call of [Untar], which gets the directory and the
    entries. *)
Definition CopyTo {C} (fs : FS) (content : archive C) (srcInfo : CopyInfo) (dstPath : string) :
    outcome copyError (string * archive C) :=
  match CopyInfoDestinationPath fs (normalizePath dstPath) with
  | Ok dstInfo => PrepareArchiveCopy content srcInfo dstInfo
  | Err e => Err e
  | Panic m => Panic m
  end.

(** ** container/archive.go *)

Definition ResolvePath (fs : FS) (wd BaseFS path : string) : outcome symlinkError (string * string) :=
  let absPath := PreserveTrailingDotOrSeparator (PathJoin ["/"; path]) path in
  let '(dirPath, basePath) := PathSplit absPath in
  match GetResourcePath fs wd BaseFS dirPath with
  | Ok resolvedDirPath => Ok (resolvedDirPath +:+ "/" +:+ basePath, absPath)
  | Err e => Err e
  | Panic m => Panic m
  end.

(** The name, the mode and the link target of [types.ContainerPathStat]; size
    and time are copied from [Lstat]. *)
Record PathStat := mkStat { ps_Name : string; ps_Mode : mode; ps_LinkTarget : string }.

Definition StatPath (fs : FS) (wd BaseFS resolvedPath absPath : string) : outcome copyError PathStat :=
  match Lstat fs resolvedPath with
  | Err e => Err (CopyFS e)
  | Panic m => Panic m
  | Ok lstat =>
      if decide (lstat = ModeSymlink) then
        match GetResourcePath fs wd BaseFS absPath with
        | Err e => Err (CopyScope e)
        | Panic m => Panic m
        | Ok hostPath =>
            match Rel BaseFS hostPath with
            | None => Err (CopyFS (OSError "Rel: can't make relative"))
            | Some linkTarget => Ok (mkStat (Base absPath) lstat (PathJoin ["/"; linkTarget]))
            end
        end
      else Ok (mkStat (Base absPath) lstat "")
  end.

(** ** Facts on the last element of a path *)

Lemma ContainsByte_ends c s : ContainsByte c s = false → ends_with c s = false.
Proof.
  induction s as [|a s IH]; [done|]. simpl. destruct (ascii_dec a c); [done|]. intros H.
  destruct s; [by apply bool_decide_eq_false|]. by apply IH.
Qed.

Lemma ends_with_app c s t : t ≠ "" → ends_with c (s +:+ t) = ends_with c t.
Proof.
  intros Ht. induction s as [|a s IH]; [done|]. rewrite app_cons_str. simpl. rewrite IH.
  destruct (s +:+ t) eqn:E; [|done]. destruct s; by destruct t.
Qed.

Lemma strip_slashes_id s : ends_with sep s = false → strip_slashes s = s.
Proof.
  induction s as [|a s IH]; [done|]. destruct s as [|b s].
  - simpl. intros H%bool_decide_eq_false. by rewrite decide_False.
  - intros H. cbn [strip_slashes]. cbn [strip_slashes] in IH. by rewrite IH.
Qed.

Lemma PathSplit_app d f :
  ContainsByte sep f = false → PathSplit (d +:+ String sep f) = (d +:+ "/", f).
Proof.
  intros Hf. induction d as [|a d IH].
  - simpl. by rewrite Hf.
  - rewrite app_cons_str. cbn [PathSplit]. rewrite IH, ContainsByte_app.
    replace (ContainsByte sep (String sep f)) with true by done. by rewrite orb_true_r.
Qed.

Lemma Base_app d f : ContainsByte sep f = false → f ≠ "" → Base (d +:+ String sep f) = f.
Proof.
  intros Hf Hne. unfold Base. rewrite strip_slashes_id.
  2:{ rewrite ends_with_app by done. change (String sep f) with ("/" +:+ f). rewrite ends_with_app by done.
      by apply ContainsByte_ends. }
  rewrite PathSplit_app by done. destruct f; [done|]. destruct d; done.
Qed.

(** The directory of the file [x] below the directory with the names [k], as
    [filepath.Split] writes it. *)
Definition dir_string (k : list string) : string :=
  match k with [] => "/" | _ => abs_path k +:+ "/" end.

Lemma abs_path_snoc k x : abs_path (k ++ [x]) = match k with [] => "" | _ => abs_path k end +:+ String sep x.
Proof. destruct k as [|y k]; [done|]. by rewrite abs_path_app. Qed.

Lemma PathSplit_snoc k x : ContainsByte sep x = false → PathSplit (abs_path (k ++ [x])) = (dir_string k, x).
Proof. intros Hx. rewrite abs_path_snoc, PathSplit_app by done. by destruct k. Qed.

Lemma Base_snoc k x : name_ok x → Base (abs_path (k ++ [x])) = x.
Proof. intros (?&_&_&?). rewrite abs_path_snoc. by apply Base_app. Qed.

Lemma ends_snoc k x : name_ok x → ends_with sep (abs_path (k ++ [x])) = false.
Proof.
  intros (?&_&_&?). rewrite abs_path_snoc. change (String sep x) with ("/" +:+ x).
  rewrite <-app_assoc_str, ends_with_app by done. by apply ContainsByte_ends.
Qed.

Lemma walk_dir k : Forall name_ok k → walk [] (Split sep (dir_string k)) = rev k.
Proof.
  intros Hk. destruct k as [|x k]; [done|]. unfold dir_string.
  change (abs_path (x :: k) +:+ "/") with ("" +:+ String sep (Join "/" (x :: k) +:+ String sep "")).
  rewrite !Split_concat, !walk_app. rewrite Split_Join by eauto using name_ok_nosep.
  rewrite (walk_plain _ (x :: k)) by done. change (walk [] (Split sep "")) with (@nil string).
  by rewrite app_nil_r.
Qed.

Lemma Clean_dir_file k f : Forall name_ok k → f = "" ∨ f = "." →
  Clean (abs_path k +:+ "/" +:+ f) = abs_path k.
Proof.
  intros Hk Hf. change ("/" +:+ f) with (String sep f). rewrite Clean_under by done.
  by destruct Hf as [->| ->]; (change (walk (rev k) (Split sep _)) with (rev k); rewrite rev_involutive).
Qed.

(** What [PreserveTrailingDotOrSeparator] makes of a clean absolute path. *)
Lemma Preserve_split k orig dir base :
  Forall name_ok k → PathSplit (PreserveTrailingDotOrSeparator (abs_path k) orig) = (dir, base) →
  (∃ k' x, k = k' ++ [x] ∧ dir = dir_string k' ∧ base = x) ∨
  (walk [] (Split sep dir) = rev k ∧ (base = "" ∨ base = ".")).
Proof.
  intros Hk. unfold PreserveTrailingDotOrSeparator, normalizePath.
  destruct k as [|x k _] using rev_ind.
  { change (specifiesCurrentDir (abs_path [])) with false.
    change (hasTrailingPathSeparator (abs_path [])) with true.
    destruct (specifiesCurrentDir orig), (hasTrailingPathSeparator orig); intros [= <- <-]; right; auto. }
  pose proof Hk as [Hk' [Hx _]%Forall_cons]%Forall_app.
  replace (specifiesCurrentDir (abs_path (k ++ [x]))) with false.
  2:{ symmetry. unfold specifiesCurrentDir. rewrite Base_snoc by done. apply bool_decide_eq_false. apply Hx. }
  unfold hasTrailingPathSeparator. rewrite (ends_snoc k x Hx). cbn [negb andb].
  assert (Hw : ∀ t, Forall (λ e, e = "" ∨ e = ".") (Split sep t) →
    walk [] (Split sep (abs_path (k ++ [x]) +:+ "/" +:+ t)) = rev (k ++ [x])).
  { intros t Ht. change ("/" +:+ t) with (String sep t). rewrite Split_concat, walk_app.
    rewrite <-(walk_dir (k ++ [x])) by done. unfold dir_string. destruct (k ++ [x]) eqn:E; [by destruct k|].
    change "/" with (String sep ""). rewrite Split_concat, walk_app. cbn [Split].
    generalize (walk [] (Split sep (abs_path (s :: l)))). intros st.
    assert (Hs : walk st (Split sep t) = st); [|by rewrite Hs].
    induction Ht as [|e es He _ IH]; [done|]. simpl. unfold clean_step. by rewrite decide_True. }
  assert (Hnil : ∀ d, PathSplit (d +:+ "/") = (d +:+ "/", "")) by (intros d; by apply PathSplit_app).
  destruct (specifiesCurrentDir orig); cbn [negb andb].
  - rewrite app_assoc_str, ends_with_app by done. change (ends_with sep ("/" +:+ ".")) with false.
    destruct (ends_with sep orig); cbn [negb andb].
    + rewrite Hnil. intros [= <- <-]. right. split; [|by left]. rewrite !app_assoc_str.
      apply (Hw ("." +:+ "/")). change (Split sep ("." +:+ "/")) with ["."; ""]. rewrite !Forall_cons. auto.
    + change ("/" +:+ ".") with (String sep "."). rewrite PathSplit_app by done. intros [= <- <-]. right. split; [|by right].
      apply (Hw ""). by repeat constructor.
  - rewrite (ends_snoc k x Hx). destruct (ends_with sep orig); cbn [negb andb].
    + rewrite Hnil. intros [= <- <-]. right. split; [|by left]. apply (Hw ""). by repeat constructor.
    + rewrite PathSplit_snoc by apply Hx. intros [= <- <-]. left. eauto.
Qed.

(** ** The properties *)

(** A path given to a copy is resolved inside the container: the path on the
    host is below the container's file system, and every directory on the way
    to its last element is there and no link; only the last element itself may
    be a link, which is not followed. *)
Theorem ResolvePath_confined fs wd BaseFS path resolved absPath :
  IsAbs BaseFS = true → ResolvePath fs wd BaseFS path = Ok (resolved, absPath) →
  ∃ rl l, Clean BaseFS = abs_path rl ∧ Clean resolved = abs_path (rl ++ l) ∧ Forall name_ok (rl ++ l) ∧
    ∀ l1 l2, l = l1 ++ l2 → l1 ≠ [] → l2 ≠ [] → plain fs (abs_path (rl ++ l1)).
Proof.
  intros HB. unfold ResolvePath. rewrite PathJoin_root.
  set (k := rev (walk [] (Split sep path))). assert (Hk : Forall name_ok k) by apply rooted_names.
  destruct (PathSplit _) as [dir base] eqn:Es. apply Preserve_split in Es; [|done].
  destruct (GetResourcePath_resolves fs wd BaseFS dir HB) as (rl & HB' & Hrl & Hres & _).
  destruct (GetResourcePath fs wd BaseFS dir) as [d|e|m]; [|done..].
  intros [= <- <-]. destruct (proj1 (Hres d) eq_refl) as (n & cur & _ & Hr & ->).
  apply resolves_visited in Hr as [Hv Hok]; [|done|apply visited_nil].
  assert (Hall : Forall name_ok (rl ++ rev cur)) by (apply Forall_app; auto using Forall_rev).
  unfold host. exists rl. destruct Es as [(k' & x & Ek & _ & ->)|[_ Hb]].
  - assert (Hx : Forall name_ok [x]) by (rewrite Ek in Hk; by apply Forall_app in Hk as [_ ?]).
    exists (rev cur ++ [x]). split_and!; [done| |rewrite app_assoc; by apply Forall_app|].
    + rewrite app_assoc. apply (Clean_abs_app _ [x]); done.
    + intros l1 l2 E Hn1 Hn2. destruct l2 as [|y l2 _] using rev_ind; [done|].
      rewrite app_assoc in E. apply app_inj_tail in E as [E _]. by eapply visited_prefix.
  - exists (rev cur). split_and!; [done|by apply Clean_dir_file|done|].
    intros l1 l2 E Hn _. by eapply visited_prefix.
Qed.

(** The last element of a path, and the directory it is in: extracting the
    entry [base/rest] in the directory is writing [rest] at the path. *)
Lemma SplitPathDirEntry_join path rest :
  IsAbs path = true → rest = "" ∨ IsAbs rest = true →
  PathJoin [(SplitPathDirEntry path).1; (SplitPathDirEntry path).2 +:+ rest] = Clean (path +:+ rest).
Proof.
  intros Hp Hrest. destruct path as [|a s]; [done|]. unfold IsAbs, HasPrefix in Hp.
  destruct (ascii_dec "/" a) as [<-|]; [|done]. clear Hp.
  set (k := rev (walk [] (Split sep s))). assert (Hk : Forall name_ok k) by apply rooted_names.
  assert (Hr : ∀ t, Clean (String "/" s +:+ String sep t) = abs_path (rev (walk (rev k) (Split sep t)))).
  { intros t. rewrite app_cons_str. change "/"%char with sep. rewrite Clean_rooted, Split_concat, walk_app.
    unfold k. by rewrite rev_involutive. }
  assert (Hs : ∃ d b, Forall name_ok d ∧ SplitPathDirEntry (String "/" s) = (abs_path d, b) ∧
    walk (rev d) (Split sep b) = rev k ∧ (ContainsByte sep b = false ∨ b = "/")).
  { unfold SplitPathDirEntry, normalizePath.
    change (Clean (String "/" s)) with (abs_path k).
    destruct (specifiesCurrentDir (String "/" s)).
    - exists k, ".". unfold Dir. change ("/" +:+ ".") with (String sep "."). rewrite PathSplit_app, Base_app by done.
      split_and!; [done| |done|by left]. f_equal. by apply (Clean_dir_file k "" Hk); left.
    - destruct k as [|x d _] using rev_ind.
      + exists [], "/". split_and!; [constructor|done|done|by right].
      + apply Forall_app in Hk as [Hd [Hx _]%Forall_cons].
        exists d, x. unfold Dir. rewrite Base_snoc, PathSplit_snoc by (try apply Hx; done).
        split_and!; [done| | |left; apply Hx].
        * f_equal. unfold dir_string. destruct d; [done|]. by apply (Clean_dir_file _ ""); [|left].
        * rewrite Split_none by apply Hx. rewrite walk_plain by (by constructor).
          by rewrite rev_app_distr. }
  destruct Hs as (d & b & Hd & -> & Hb & Hbs). cbn [fst snd]. rewrite PathJoin_abs by done.
  destruct Hrest as [->|Hrest].
  - rewrite !app_nil_str. rewrite Hb, rev_involutive. done.
  - destruct rest as [|c rest]; [done|]. unfold IsAbs, HasPrefix in Hrest.
    destruct (ascii_dec "/" c) as [<-|]; [|done].
    change "/"%char with sep at 1 3. rewrite Hr, Split_concat, walk_app, Hb. done.
Qed.

(** The prefix of the names of the entries of a copied resource. *)
Definition entry_base (srcInfo : CopyInfo) : string :=
  let b := if decide (ci_RebaseName srcInfo = "") then (SplitPathDirEntry (ci_Path srcInfo)).2
           else ci_RebaseName srcInfo in
  if decide (b = "/") then "" else b.

Lemma Replace1_prefix old new rest : Replace1 (old +:+ rest) old new = new +:+ rest.
Proof.
  assert (Heq : ∀ s, Replace1 s old new =
    if HasPrefix s old then new +:+ drop_bytes (String.length old) s
    else match s with EmptyString => "" | String a s' => String a (Replace1 s' old new) end) by (by intros []).
  by rewrite Heq, HasPrefix_app, drop_bytes_app.
Qed.

Lemma PrepareArchiveCopy_rebases {C} (content : archive C) src dst dir entries :
  PrepareArchiveCopy content src dst = Ok (dir, entries) → ci_Exists dst && ci_IsDir dst = false →
  dir = (SplitPathDirEntry (ci_Path dst)).1 ∧
  entries = map (λ e, (Replace1 e.1 (entry_base src) (SplitPathDirEntry (ci_Path dst)).2, e.2)) content.
Proof.
  unfold PrepareArchiveCopy, normalizePath, RebaseArchiveEntries, entry_base.
  destruct (SplitPathDirEntry (ci_Path dst)) as [d b]. intros H E. rewrite E in H.
  destruct (ci_Exists dst && ci_IsDir src), (ci_Exists dst), (ci_IsDir src), (assertsDirectory (ci_Path dst));
    simplify_eq; done.
Qed.

(** Where a copy lands.  The entries of an archive are extracted where the
    destination path says: below it, under their own names, when it is an
    existing directory; otherwise the entry that is the resource itself becomes
    the destination path and the entries below the resource go below it.  The
    copy is refused exactly when a directory would replace a file or a file
    would have to become a directory that does not exist. *)
Lemma prepare_lands {C} (content : archive C) src dst :
  IsAbs (ci_Path dst) = true →
  match PrepareArchiveCopy content src dst with
  | Ok (dir, entries) =>
      if ci_Exists dst && ci_IsDir dst then dir = ci_Path dst ∧ entries = content
      else Forall2 (λ e e', e'.2 = e.2 ∧ ∀ rest, e.1 = entry_base src +:+ rest → rest = "" ∨ IsAbs rest = true →
             PathJoin [dir; e'.1] = Clean (ci_Path dst +:+ rest)) content entries
  | Err ErrCannotCopyDir => ci_Exists dst = true ∧ ci_IsDir dst = false ∧ ci_IsDir src = true
  | Err ErrDirNotExists => ci_Exists dst = false ∧ ci_IsDir src = false ∧ assertsDirectory (ci_Path dst) = true
  | _ => False
  end.
Proof.
  intros Habs. destruct (PrepareArchiveCopy content src dst) as [[dir entries]|e|m] eqn:E.
  - destruct (ci_Exists dst && ci_IsDir dst) eqn:Ed.
    + unfold PrepareArchiveCopy in E. destruct (SplitPathDirEntry _). rewrite Ed in E. by simplify_eq.
    + apply PrepareArchiveCopy_rebases in E as [-> ->]; [|done].
      apply Forall2_fmap_r. apply Forall_Forall2_diag, Forall_forall. intros [name c] _.
      split; [done|]. cbn [fst]. intros rest -> Hrest. rewrite Replace1_prefix.
      by apply SplitPathDirEntry_join.
  - unfold PrepareArchiveCopy, normalizePath in E. destruct (SplitPathDirEntry (ci_Path dst)) as [d b].
    destruct (ci_Exists dst), (ci_IsDir dst), (ci_IsDir src), (assertsDirectory (ci_Path dst)); by simplify_eq/=.
  - unfold PrepareArchiveCopy, normalizePath in E. destruct (SplitPathDirEntry (ci_Path dst)) as [d b].
    destruct (ci_Exists dst), (ci_IsDir dst), (ci_IsDir src), (assertsDirectory (ci_Path dst)); by simplify_eq/=.
Qed.

(** The target of a link, as the copy command reads it. *)
Definition link_target (path dest : string) : string :=
  if IsAbs dest then dest else PathJoin [(SplitPathDirEntry path).1; dest].

(** [chain fs n p q]: following [n] links from [p] ends in [q]. *)
Inductive chain (fs : FS) : nat → string → string → Prop :=
| chain_here p : chain fs 0 p p
| chain_link n p dest q : links_to fs p dest → chain fs n (link_target p dest) q → chain fs (S n) p q.

Lemma dest_loop_chain fs orig left p q st :
  dest_loop fs orig left p (Lstat fs p) = Ok (q, st) ↔
  ∃ n, n ≤ left ∧ chain fs n p q ∧ st = Lstat fs q ∧ Lstat fs q ≠ Ok ModeSymlink.
Proof.
  revert p. induction left as [|left IH]; intros p; split.
  - cbn [dest_loop]. intros H. exists 0. destruct (Lstat fs p) as [[]|e|m] eqn:E; simplify_eq;
      (split_and!; [lia|constructor|by rewrite E|by rewrite E]).
  - intros (n & Hn & Hc & -> & Hq). assert (n = 0) as -> by lia. inversion Hc; subst.
    cbn [dest_loop]. by destruct (Lstat fs q) as [[]|e|m].
  - cbn [dest_loop]. intros H. destruct (Lstat fs p) as [[]|e|m] eqn:E;
      [|destruct (Readlink fs p) as [dest|e|m] eqn:Er; [|done..];
        apply IH in H as (n & Hn & Hc & -> & Hq); exists (S n); split_and!; [lia|by eapply chain_link|done..]|..];
      simplify_eq; exists 0; (split_and!; [lia|constructor|by rewrite E|by rewrite E]).
  - intros (n & Hn & Hc & -> & Hq). inversion Hc as [|n' ? dest ? [El Er] Hc']; subst.
    + cbn [dest_loop]. by destruct (Lstat fs q) as [[]|e|m].
    + cbn [dest_loop]. rewrite El, Er. apply IH. exists n'. split_and!; [lia|done..].
Qed.

(** The answer of [CopyInfoDestinationPath]: the path at the end of the links,
    which exists and is no link, or is missing in an existing directory. *)
Lemma CopyInfoDestinationPath_final fs path info :
  CopyInfoDestinationPath fs path = Ok info ↔
  ∃ n q, n ≤ S maxSymlinkIter ∧ chain fs n path q ∧
    ((∃ m, Lstat fs q = Ok m ∧ m ≠ ModeSymlink ∧ info = mkCopyInfo q true (bool_decide (m = ModeDir)) "") ∨
     (Lstat fs q = Err NotExist ∧ Lstat fs (SplitPathDirEntry q).1 = Ok ModeDir ∧
      info = mkCopyInfo q false false "")).
Proof.
  unfold CopyInfoDestinationPath, normalizePath. split.
  - destruct (dest_loop _ _ _ _ _) as [[q st]|e|m] eqn:E; [|done..].
    apply dest_loop_chain in E as (n & Hn & Hc & -> & Hq). intros H. exists n, q. split_and!; [done..|].
    destruct (Lstat fs q) as [m|[|e]|m] eqn:El; simplify_eq.
    + left. exists m. split_and!; [done|congruence|done].
    + right. destruct (Lstat fs (SplitPathDirEntry q).1) as [m|e|m]; [|done..].
      case_decide; by simplify_eq.
  - intros (n & q & Hn & Hc & H).
    assert (E : dest_loop fs path (S maxSymlinkIter) path (Lstat fs path) = Ok (q, Lstat fs q)).
    { apply dest_loop_chain. exists n. split_and!; [done..|].
      destruct H as [(m & -> & ? & _)|(-> & _)]; congruence. }
    rewrite E. destruct H as [(m & -> & ? & ->)|(-> & -> & ->)]; [done|]. by rewrite decide_True.
Qed.

Lemma chain_abs fs n p q : IsAbs p = true → chain fs n p q → IsAbs q = true.
Proof.
  intros Hp Hc. induction Hc as [p|n p dest q Hl Hc IH]; [done|]. apply IH. unfold link_target.
  destruct (IsAbs dest) eqn:E; [done|].
  assert (∃ k, SplitPathDirEntry p = (abs_path k, (SplitPathDirEntry p).2) ∧ Forall name_ok k) as (k & -> & Hk).
  { clear IH Hc Hl. destruct p as [|a s]; [done|]. unfold IsAbs, HasPrefix in Hp.
    destruct (ascii_dec "/" a) as [<-|]; [|done]. unfold SplitPathDirEntry, normalizePath.
    change (Clean (String "/" s)) with (Clean (String sep s)). rewrite Clean_rooted.
    set (k := rev (walk [] (Split sep s))). assert (Hk : Forall name_ok k) by apply rooted_names.
    destruct (specifiesCurrentDir _).
    - exists k. split; [|done]. f_equal. unfold Dir. change ("/" +:+ ".") with (String sep ".").
      rewrite PathSplit_app by done. by apply (Clean_dir_file k "" Hk); left.
    - clearbody k. destruct k as [|x k _] using rev_ind; [by exists []|].
      pose proof Hk as [Hk' [Hx _]%Forall_cons]%Forall_app. exists k. split; [|done]. f_equal.
      unfold Dir. rewrite PathSplit_snoc by apply Hx. cbn [fst]. unfold dir_string.
      destruct k; [done|]. by apply (Clean_dir_file _ ""); [|left]. }
  cbn [fst]. rewrite PathJoin_abs by done. apply IsAbs_abs_path.
Qed.

(** A copy to a path writes where the links of the path lead, as long as
    there are no more than eleven of them: below the directory found there,
    or, when there is a file or nothing there, the copied resource takes that
    very path and its contents go below it; nothing is written when a directory
    meets a file. *)
Theorem CopyTo_lands {C} fs (content : archive C) src path dir entries :
  IsAbs path = true → CopyTo fs content src path = Ok (dir, entries) →
  ∃ n q, n ≤ S maxSymlinkIter ∧ chain fs n path q ∧ plain fs q ∧
  ((Lstat fs q = Ok ModeDir ∧ dir = q ∧ entries = content) ∨
   (Lstat fs q ≠ Ok ModeDir ∧ (Lstat fs q ≠ Err NotExist → ci_IsDir src = false) ∧
    Forall2 (λ e e', e'.2 = e.2 ∧ ∀ rest, e.1 = entry_base src +:+ rest → rest = "" ∨ IsAbs rest = true →
      PathJoin [dir; e'.1] = Clean (q +:+ rest)) content entries)).
Proof.
  intros Habs H. unfold CopyTo, normalizePath in H.
  destruct (CopyInfoDestinationPath fs path) as [dst|e|m] eqn:E; [|done..].
  apply CopyInfoDestinationPath_final in E as (n & q & Hn & Hc & Hdst).
  pose proof (chain_abs fs n path q Habs Hc) as Hq. exists n, q. split_and!; [done..| |].
  { destruct Hdst as [(m & ? & ? & _)|(? & _)]; [right; eauto|by left]. }
  assert (Hp : ci_Path dst = q) by (by destruct Hdst as [(m & _ & _ & ->)|(_ & _ & ->)]).
  pose proof (prepare_lands content src dst) as HL. rewrite Hp, H in HL. specialize (HL Hq).
  destruct Hdst as [(m & El & Hm & ->)|(El & Ep & ->)]; cbn [ci_Exists ci_IsDir andb] in HL.
  - destruct m; [left; naive_solver|done|right]. rewrite El. split_and!; [done| |done].
    intros _. unfold PrepareArchiveCopy in H. destruct (SplitPathDirEntry _).
    cbn [ci_Exists ci_IsDir andb bool_decide] in H. by destruct (ci_IsDir src).
  - right. rewrite El. split_and!; [done|done|exact HL].
Qed.

Lemma drop_common_app l k : drop_common l (l ++ k) = ([], k).
Proof. induction l as [|x l IH]; [by destruct k|]. simpl. by rewrite decide_True. Qed.

Lemma Rel_below BaseFS rl k :
  Clean BaseFS = abs_path rl → Forall name_ok rl → Forall name_ok k →
  ∃ t, Rel BaseFS (abs_path (rl ++ k)) = Some t ∧ PathJoin ["/"; t] = abs_path k.
Proof.
  intros HB Hrl Hk. unfold Rel. rewrite HB, Clean_abs_path by (by apply Forall_app).
  case_decide as E.
  { apply abs_path_inj in E; [|by apply Forall_app|done]. destruct k as [|x k]; [by exists "."|].
    apply (f_equal length) in E. rewrite length_app in E. simpl in E. lia. }
  rewrite !IsAbs_abs_path, decide_True by done. rewrite !elements_abs by (try apply Forall_app; done).
  rewrite drop_common_app. eexists. split; [done|]. simpl app.
  rewrite PathJoin_root. destruct k as [|x k]; [done|].
  rewrite Split_Join by eauto using name_ok_nosep. rewrite walk_plain by done.
  by rewrite app_nil_r, rev_involutive.
Qed.

(** The link target that a copy reports is the absolute path, as seen in the
    container, of where the link leads when a process of the container follows
    it. *)
Theorem StatPath_link fs wd BaseFS resolved absPath st :
  IsAbs BaseFS = true → StatPath fs wd BaseFS resolved absPath = Ok st → ps_Mode st = ModeSymlink →
  ∃ rl n cur, Clean BaseFS = abs_path rl ∧
    resolves fs rl n [] (rev (walk [] (Split sep absPath))) cur ∧ ps_LinkTarget st = abs_path (rev cur).
Proof.
  intros HB H Hm. unfold StatPath in H. destruct (Lstat fs resolved) as [m|e|?]; [|done..].
  case_decide as Em; [|by simplify_eq/=].
  destruct (GetResourcePath_resolves fs wd BaseFS absPath HB) as (rl & HB' & Hrl & Hres & _).
  destruct (GetResourcePath fs wd BaseFS absPath) as [p|e|?]; [|done..].
  destruct (proj1 (Hres p) eq_refl) as (n & cur & _ & Hr & ->).
  exists rl, n, cur. split_and!; [done..|].
  apply resolves_visited in Hr as [_ Hok]; [|done|apply visited_nil].
  destruct (Rel_below BaseFS rl (rev cur) HB' Hrl (Forall_rev Hok)) as (t & Et & Ej).
  unfold host in H. rewrite Et in H. by simplify_eq/=.
Qed.

(** ** Witnesses *)

(** A container's file system below /r: /r/a is a link to ../../../c, that
    is /r/c, a directory with a file f. *)
Definition demo_fs : FS := {|
  Lstat p := if decide (p = "/r/a") then Ok ModeSymlink
             else if decide (p = "/r/c" ∨ p = "/r") then Ok ModeDir
             else if decide (p = "/r/c/f") then Ok ModeOther
             else Err NotExist;
  Readlink p := if decide (p = "/r/a") then Ok "../../../c" else Err (OSError "EINVAL")
|}.

Lemma ResolvePath_confined_witness :
  ResolvePath demo_fs "/" "/r" "a/f" = Ok ("/r/c/f", "/a/f") ∧
  ∃ rl l, Clean "/r" = abs_path rl ∧ Clean "/r/c/f" = abs_path (rl ++ l) ∧ Forall name_ok (rl ++ l) ∧
    ∀ l1 l2, l = l1 ++ l2 → l1 ≠ [] → l2 ≠ [] → plain demo_fs (abs_path (rl ++ l1)).
Proof.
  split; [vm_compute; reflexivity|].
  apply (ResolvePath_confined demo_fs "/" "/r" "a/f" "/r/c/f" "/a/f"); vm_compute; reflexivity.
Defined.

Lemma CopyTo_lands_witness :
  CopyTo demo_fs [("s", 1); ("s/x", 2)] (mkCopyInfo "/tmp/s" true true "") "/r/c/new"
    = Ok ("/r/c", [("new", 1); ("new/x", 2)]) ∧
  ∃ n q, n ≤ S maxSymlinkIter ∧ chain demo_fs n "/r/c/new" q ∧ plain demo_fs q ∧
  ((Lstat demo_fs q = Ok ModeDir ∧ "/r/c" = q ∧ [("new", 1); ("new/x", 2)] = [("s", 1); ("s/x", 2)]) ∨
   (Lstat demo_fs q ≠ Ok ModeDir ∧ (Lstat demo_fs q ≠ Err NotExist → ci_IsDir (mkCopyInfo "/tmp/s" true true "") = false) ∧
    Forall2 (λ e e', e'.2 = e.2 ∧ ∀ rest, e.1 = entry_base (mkCopyInfo "/tmp/s" true true "") +:+ rest →
      rest = "" ∨ IsAbs rest = true → PathJoin ["/r/c"; e'.1] = Clean (q +:+ rest))
      [("s", 1); ("s/x", 2)] [("new", 1); ("new/x", 2)])).
Proof.
  split; [vm_compute; reflexivity|].
  apply (CopyTo_lands demo_fs); vm_compute; reflexivity.
Defined.

Lemma StatPath_link_witness :
  StatPath demo_fs "/" "/r" "/r/a" "/a" = Ok (mkStat "a" ModeSymlink "/c") ∧
  ∃ rl n cur, Clean "/r" = abs_path rl ∧
    resolves demo_fs rl n [] (rev (walk [] (Split sep "/a"))) cur ∧ "/c" = abs_path (rev cur).
Proof.
  split; [vm_compute; reflexivity|].
  apply (StatPath_link demo_fs "/" "/r" "/r/a" "/a" (mkStat "a" ModeSymlink "/c")); vm_compute; reflexivity.
Defined.

(** The name replaced in an entry is its first occurrence, which is not always
    at the beginning. *)
Example Rebase_not_a_prefix :
  RebaseArchiveEntries [("dir/src", tt)] "src" "new" = [("dir/new", tt)].
Proof. reflexivity. Qed.
