(* ===== verification/Changes.v ===== *)
(** * The difference between two file trees

    pkg/archive/changes.go and changes_linux.go: the comparison of two directory
    trees ([addChanges]), and the walk that collects them and leaves out what
    both share ([walk_trees]).

    A tree is what [Lstat], [Lgetxattr] and the directory entries show of a
    directory: a [node] has its status, its capability, its contents (of a file)
    or target (of a link), and its children.  A Go map of children is a list of
    names and nodes, in the order in which it happens to be iterated: the
    theorems hold for every order.  The field [added] of a node, which is only
    set before or while its own children are compared, is an argument. *)

From S2P Require Import Prelude GoStrings Filepath.
Local Open Scope N_scope.

(** ** Nodes *)

(** [syscall.Stat_t] as far as it is looked at. *)
Record Stat := mkStatT {
  Mode : N; UID : Z; GID : Z; Rdev : N; Mtim : Z * Z; Size : Z;
  Dev : N; Ino : N; Nlink : N
}.

#[local] Unset Elimination Schemes.
Inductive node := mkNode {
  stat : Stat;
  capability : option string;
  data : string;
  children : list (string * node)
}.
#[local] Set Elimination Schemes.

Definition S_IFMT : N := 0xF000.
Definition S_IFDIR : N := 0x4000.
Definition S_IFREG : N := 0x8000.
Definition S_IFLNK : N := 0xA000.
Definition S_IFBLK : N := 0x6000.
Definition S_IFCHR : N := 0x2000.
Definition S_IFIFO : N := 0x1000.
Definition S_IFSOCK : N := 0xC000.

(** ** Comparing *)

Inductive ChangeType := ChangeModify | ChangeAdd | ChangeDelete.
#[global] Instance ChangeType_dec : EqDecision ChangeType.
Proof. solve_decision. Defined.

Record Change := mkChange { Path : string; Kind : ChangeType }.
#[global] Instance Change_dec : EqDecision Change.
Proof. solve_decision. Defined.

Definition sameFsTimeSpec (a b : Z * Z) : bool :=
  bool_decide (a.1 = b.1) && (bool_decide (a.2 = b.2) || bool_decide (a.2 = 0%Z) || bool_decide (b.2 = 0%Z)).

Definition statDifferent (oldStat newStat : Stat) : bool :=
  negb (Mode oldStat =? Mode newStat) || negb (bool_decide (UID oldStat = UID newStat)) ||
  negb (bool_decide (GID oldStat = GID newStat)) || negb (Rdev oldStat =? Rdev newStat) ||
  (negb (N.land (Mode oldStat) S_IFDIR =? S_IFDIR) &&
   (negb (sameFsTimeSpec (Mtim oldStat) (Mtim newStat)) || negb (bool_decide (Size oldStat = Size newStat)))).

(** [isDir] for a node that is not the root. *)
Definition mode_isDir (s : Stat) : bool := negb (N.land (Mode s) S_IFDIR =? 0).

(** The test of [addChanges] on a child that both trees have. *)
Definition childDifferent (oldChild newChild : node) : bool :=
  statDifferent (stat oldChild) (stat newChild) ||
  negb (bool_decide (default "" (capability oldChild) = default "" (capability newChild))).

(** [m[name]]. *)
Fixpoint assoc {A} (name : string) (l : list (string * A)) : option A :=
  match l with
  | [] => None
  | (x, a) :: l' => if decide (x = name) then Some a else assoc name l'
  end.

Definition is_nil {A} (l : list A) : bool := match l with [] => true | _ => false end.

(** The changes that [addChanges] appends.  [path] is [info.path()], which is
    also the path of [oldInfo]; [root] says that [info] has no parent. *)
Fixpoint addChanges (path : string) (root added : bool) (info : node) (oldInfo : option node) : list Change :=
  let own := match oldInfo with None => [mkChange path ChangeAdd] | Some _ => [] end in
  let added := match oldInfo with None => true | Some _ => added end in
  let isDir := root || mode_isDir (stat info) in
  let oldChildren := match oldInfo with
                     | Some o => if isDir then children o else []
                     | None => [] end in
  let kids :=
    (fix go (l : list (string * node)) : list Change :=
       match l with
       | [] => []
       | (name, newChild) :: l' =>
           let cpath := PathJoin [path; name] in
           match assoc name oldChildren with
           | Some oldChild =>
               let d := childDifferent oldChild newChild in
               (if d then [mkChange cpath ChangeModify] else []) ++
               addChanges cpath false d newChild (Some oldChild) ++ go l'
           | None => addChanges cpath false false newChild None ++ go l'
           end
       end) (children info) in
  let deleted := filter (λ p, p.1 ∉ map fst (children info)) oldChildren in
  let dels := map (λ p, mkChange (PathJoin [path; p.1]) ChangeDelete) deleted in
  let cs := own ++ kids ++ dels in
  if negb (is_nil cs) && isDir && negb added && negb (bool_decide (path = "/"))
  then mkChange path ChangeModify :: cs else cs.

(** [newRoot.Changes(oldRoot)]. *)
Definition Changes (newRoot oldRoot : node) : list Change := addChanges "/" true false newRoot (Some oldRoot).

(** ** Collecting the trees (changes_linux.go) *)

(** The lists of names and inodes of two directories, merged: a name that both
    have with the same inode on the same device is left out. *)
Fixpoint merge_names (sameDevice : bool) (names1 : list (string * N)) : list (string * N) → list string :=
  fix go (names2 : list (string * N)) : list string :=
    match names1, names2 with
    | [], _ => map fst names2
    | _, [] => map fst names1
    | (n1, i1) :: l1, (n2, i2) :: l2 =>
        match String.compare n1 n2 with
        | Lt => n1 :: merge_names sameDevice l1 names2
        | Eq => (if negb (i1 =? i2) || negb sameDevice then [n1] else []) ++ merge_names sameDevice l1 l2
        | Gt => n2 :: go l2
        end
    end.

Definition name_le (a b : string * N) : Prop := String.le a.1 b.1.
#[global] Instance name_le_dec a b : Decision (name_le a b).
Proof. unfold name_le. apply _. Defined.

(** [readdirnames]: the entries of a directory, sorted by name. *)
Definition readdirnames (n : node) : list (string * N) :=
  merge_sort name_le (map (λ p, (p.1, Ino (stat p.2))) (children n)).

(** [i.IsDir()] of a node that may be missing. *)
Definition IsDir (t : option node) : bool :=
  match t with Some n => N.land (Mode (stat n)) S_IFMT =? S_IFDIR | None => false end.

Definition sameDev (t1 t2 : option node) : bool :=
  match t1, t2 with Some n1, Some n2 => Dev (stat n1) =? Dev (stat n2) | _, _ => false end.

(** [walkchunk]: the node is registered, its children as they are walked. *)
Definition register (t : option node) (kids : list (string * node)) : option node :=
  match t with Some n => Some (mkNode (stat n) (capability n) (data n) kids) | None => None end.

(** The child that [Lstat] finds below a directory. *)
Definition lstat_child (t : option node) (name : string) : option node :=
  match t with Some n => if IsDir t then assoc name (children n) else None | None => None end.

Definition dir_names (t : option node) : list (string * N) :=
  match t with Some n => if IsDir t then readdirnames n else [] | None => [] end.

(** The two trees that the walk registers, from the trees on disk. *)
Fixpoint walk_trees (fuel : nat) (t1 t2 : option node) : option node * option node :=
  match fuel with
  | O => (None, None)
  | S fuel' =>
      if negb (IsDir t1) && negb (IsDir t2) then (register t1 [], register t2 [])
      else
        let names := merge_names (sameDev t1 t2) (dir_names t1) (dir_names t2) in
        let sub name := walk_trees fuel' (lstat_child t1 name) (lstat_child t2 name) in
        (register t1 (omap (λ name, pair name <$> (sub name).1) names),
         register t2 (omap (λ name, pair name <$> (sub name).2) names))
  end.

Fixpoint height (n : node) : nat :=
  S ((fix go (l : list (string * node)) : nat :=
        match l with [] => O | (_, c) :: l' => Nat.max (height c) (go l') end) (children n)).

(** [collectFileInfoForChanges]: the old and the new tree. *)
Definition collectFileInfoForChanges (dir1 dir2 : node) : option node * option node :=
  walk_trees (S (Nat.max (height dir1) (height dir2))) (Some dir1) (Some dir2).

(** [ChangesDirs], of the trees in two directories; the old directory is an
    empty one when none is given. *)
Definition ChangesDirs (newDir oldDir : node) : list Change :=
  match collectFileInfoForChanges oldDir newDir with
  | (Some oldRoot, Some newRoot) => Changes newRoot oldRoot
  | _ => []
  end.

(** [LookUp]. *)
Fixpoint LookUp_elements (parent : node) (pathElements : list string) : option node :=
  match pathElements with
  | [] => Some parent
  | elem :: rest =>
      if decide (elem = "") then LookUp_elements parent rest
      else match assoc elem (children parent) with
           | Some child => LookUp_elements child rest
           | None => None
           end
  end.

Definition LookUp (info : node) (path : string) : option node :=
  if decide (path = "/") then Some info else LookUp_elements info (Split sep path).

(** [ChangesSize]: the sizes of the files that are added or modified, a file
    with several links once. *)
Definition int64_add (a b : Z) : Z := wrap64 (a + b).

Fixpoint ChangesSize_loop (newDir : node) (changes : list Change) (size : Z) (sf : gset N) : Z :=
  match changes with
  | [] => size
  | change :: rest =>
      if decide (Kind change = ChangeDelete) then ChangesSize_loop newDir rest size sf
      else match LookUp newDir (Path change) with
           | None => ChangesSize_loop newDir rest size sf
           | Some n =>
               if N.land (Mode (stat n)) S_IFMT =? S_IFDIR then ChangesSize_loop newDir rest size sf
               else if 1 <? Nlink (stat n) then
                 if decide (Ino (stat n) ∈ sf) then ChangesSize_loop newDir rest size sf
                 else ChangesSize_loop newDir rest (int64_add size (Size (stat n))) ({[Ino (stat n)]} ∪ sf)
               else ChangesSize_loop newDir rest (int64_add size (Size (stat n))) sf
           end
  end.

Definition ChangesSize (newDir : node) (changes : list Change) : Z := ChangesSize_loop newDir changes 0 ∅.

(** ** Trees *)

Definition is_directory (s : Stat) : Prop := N.land (Mode s) S_IFMT = S_IFDIR.

#[global] Instance is_directory_dec s : Decision (is_directory s).
Proof. unfold is_directory. apply _. Defined.

(** A tree that can be on disk: different plain names, in directories. *)
Inductive wf_tree : node → Prop :=
| wf_tree_intro n :
    NoDup (map fst (children n)) → Forall name_ok (map fst (children n)) →
    (children n ≠ [] → is_directory (stat n)) →
    (∀ x c, (x, c) ∈ children n → wf_tree c) → wf_tree n.

(** The node at a path, as [LookUp] finds it. *)
Fixpoint tree_at (n : node) (p : list string) : option node :=
  match p with
  | [] => Some n
  | x :: p' => match assoc x (children n) with Some c => tree_at c p' | None => None end
  end.

Lemma assoc_Some {A} x (l : list (string * A)) a : assoc x l = Some a → (x, a) ∈ l.
Proof.
  induction l as [|[y b] l IH]; simpl; [done|]. case_decide; [intros [= ->]; subst; left|].
  intros Hx. right. auto.
Qed.

Lemma assoc_None {A} x (l : list (string * A)) : assoc x l = None ↔ x ∉ map fst l.
Proof.
  induction l as [|[y b] l IH]; simpl; [set_solver|]. case_decide; [set_solver|]. set_solver.
Qed.

Lemma assoc_elem {A} x (l : list (string * A)) a : NoDup (map fst l) → (x, a) ∈ l → assoc x l = Some a.
Proof.
  induction l as [|[y b] l IH]; simpl; [set_solver|]. intros [Hy Hl]%NoDup_cons Hx.
  apply elem_of_cons in Hx as [[= -> ->]|Hx]; [by rewrite decide_True|].
  rewrite decide_False; [auto|]. intros ->. apply Hy. by apply (list_elem_of_fmap_2 fst) in Hx.
Qed.

Lemma elem_names {A} x (a : A) (l : list (string * A)) : (x, a) ∈ l → x ∈ map fst l.
Proof. apply (list_elem_of_fmap_2 fst). Qed.

Lemma is_directory_mode s : is_directory s → mode_isDir s = true ∧ N.land (Mode s) S_IFDIR = S_IFDIR.
Proof.
  unfold is_directory, mode_isDir. intros H.
  assert (E : N.land (Mode s) S_IFDIR = S_IFDIR).
  { change S_IFDIR with (N.land S_IFMT S_IFDIR) at 1. by rewrite N.land_assoc, H. }
  by rewrite E.
Qed.

Lemma tree_at_app n p q : tree_at n (p ++ q) = tree_at n p ≫= λ c, tree_at c q.
Proof.
  revert n. induction p as [|x p IH]; intros n; [done|]. simpl.
  destruct (assoc x (children n)); [apply IH|done].
Qed.

Lemma wf_tree_at n p c : wf_tree n → tree_at n p = Some c → wf_tree c ∧ Forall name_ok p.
Proof.
  revert n. induction p as [|x p IH]; intros n Hn; simpl; [intros [= <-]; split; [done|constructor]|].
  destruct (assoc x (children n)) as [d|] eqn:E; [|done]. intros H.
  inversion Hn as [? Hnd Hok _ Hc]; subst. apply assoc_Some in E.
  destruct (IH d (Hc _ _ E) H) as [? ?]. split; [done|]. constructor; [|done].
  rewrite Forall_forall in Hok. eapply Hok, elem_names, E.
Qed.

(** ** Which changes there are *)

Definition child_changes (pre : list string) (c : node) (old : option node) : list Change :=
  match old with
  | Some o =>
      let d := childDifferent o c in
      (if d then [mkChange (abs_path pre) ChangeModify] else []) ++ addChanges (abs_path pre) false d c (Some o)
  | None => addChanges (abs_path pre) false false c None
  end.

(** The children of the old node that are compared. *)
Definition old_children (root : bool) (info : node) (old : option node) : list (string * node) :=
  match old with
  | Some o => if root || mode_isDir (stat info) then children o else []
  | None => []
  end.

Definition inner_changes (pre : list string) (root : bool) (info : node) (old : option node) : list Change :=
  (children info ≫= λ p, child_changes (pre ++ [p.1]) p.2 (assoc p.1 (old_children root info old))) ++
  map (λ p, mkChange (abs_path (pre ++ [p.1])) ChangeDelete)
    (filter (λ p, p.1 ∉ map fst (children info)) (old_children root info old)).

Lemma PathJoin_name pre x : Forall name_ok pre → name_ok x → PathJoin [abs_path pre; x] = abs_path (pre ++ [x]).
Proof.
  intros Hpre Hx. rewrite PathJoin_abs by done. rewrite Split_none by apply Hx.
  rewrite walk_plain by (by constructor). simpl. by rewrite rev_involutive.
Qed.

(** The equation of [addChanges] on paths of names. *)
Lemma addChanges_eq pre root added info old :
  Forall name_ok pre → Forall name_ok (map fst (children info)) →
  (∀ o, old = Some o → Forall name_ok (map fst (children o))) →
  addChanges (abs_path pre) root added info old =
  let inner := inner_changes pre root info old in
  match old with
  | None => mkChange (abs_path pre) ChangeAdd :: inner
  | Some _ =>
      if negb (is_nil inner) && (root || mode_isDir (stat info)) && negb added && negb (is_nil pre)
      then mkChange (abs_path pre) ChangeModify :: inner else inner
  end.
Proof.
  intros Hpre Hok Hold. destruct info as [st cap dat kids]. cbn [addChanges].
  assert (Hkids : ∀ oc l, Forall name_ok (map fst l) →
    (fix go (l : list (string * node)) : list Change :=
       match l with
       | [] => []
       | (name, newChild) :: l' =>
           let cpath := PathJoin [abs_path pre; name] in
           match assoc name oc with
           | Some oldChild =>
               let d := childDifferent oldChild newChild in
               (if d then [mkChange cpath ChangeModify] else []) ++
               addChanges cpath false d newChild (Some oldChild) ++ go l'
           | None => addChanges cpath false false newChild None ++ go l'
           end
       end) l = l ≫= λ p, child_changes (pre ++ [p.1]) p.2 (assoc p.1 oc)).
  { intros oc. induction l as [|[x c] l IH]; [done|]. intros [Hx Hl]%Forall_cons. cbn [fst] in Hx.
    rewrite IH by done. rewrite bind_cons. cbn [fst snd]. rewrite PathJoin_name by done.
    unfold child_changes. destruct (assoc x oc); [by rewrite app_assoc|done]. }
  assert (Hdels : ∀ oc, Forall name_ok (map fst oc) →
    map (λ p, mkChange (PathJoin [abs_path pre; p.1]) ChangeDelete)
      (filter (λ p : string * node, p.1 ∉ map fst kids) oc) =
    map (λ p, mkChange (abs_path (pre ++ [p.1])) ChangeDelete)
      (filter (λ p : string * node, p.1 ∉ map fst kids) oc)).
  { intros oc Hoc. apply map_ext_in. intros [x c] Hx. f_equal. apply PathJoin_name; [done|].
    rewrite Forall_forall in Hoc. apply Hoc. apply list_elem_of_In in Hx.
    apply list_elem_of_filter in Hx as [_ Hx]. eapply elem_names, Hx. }
  assert (Hoc : Forall name_ok (map fst (old_children root (mkNode st cap dat kids) old))).
  { unfold old_children. destruct old as [o|]; [|constructor]. destruct (_ || _); [by apply Hold|constructor]. }
  cbn [children stat] in *. rewrite (Hkids _ kids Hok).
  change (match old with Some o => if root || mode_isDir st then children o else [] | None => [] end)
    with (old_children root (mkNode st cap dat kids) old).
  rewrite (Hdels _ Hoc).
  assert (Hroot : bool_decide (abs_path pre = "/") = is_nil pre).
  { destruct pre as [|x pre]; [done|]. apply bool_decide_eq_false. intros E.
    apply (abs_path_inj (x :: pre) []) in E; [done|done|constructor]. }
  rewrite Hroot. unfold inner_changes. cbn [children]. destruct old as [o|]; [done|].
  cbn [negb andb]. by rewrite andb_false_r.
Qed.

Definition wf_old (old : option node) : Prop := ∀ o, old = Some o → wf_tree o.

Lemma wf_tree_names n : wf_tree n → NoDup (map fst (children n)) ∧ Forall name_ok (map fst (children n)).
Proof. by intros []. Qed.

Lemma wf_old_names old : wf_old old → ∀ o, old = Some o → Forall name_ok (map fst (children o)).
Proof. intros H o Ho. by apply wf_tree_names, H. Qed.

Lemma wf_child n x c : wf_tree n → assoc x (children n) = Some c →
  wf_tree c ∧ name_ok x ∧ is_directory (stat n).
Proof.
  intros Hn E%assoc_Some. inversion Hn as [? Hnd Hok Hdir Hc]; subst. split_and!; [by eapply Hc| |].
  - rewrite Forall_forall in Hok. eapply Hok, elem_names, E.
  - apply Hdir. intros E0. rewrite E0 in E. by apply elem_of_nil in E.
Qed.

Lemma old_children_wf root info old :
  wf_old old → NoDup (map fst (old_children root info old)) ∧
    Forall name_ok (map fst (old_children root info old)) ∧
    ∀ x, wf_old (assoc x (old_children root info old)).
Proof.
  intros Hold. unfold old_children. destruct old as [o|]; [|split_and!; [constructor|constructor|done]].
  destruct (_ || _); [|split_and!; [constructor|constructor|done]].
  pose proof (Hold o eq_refl) as Ho. destruct (wf_tree_names o Ho) as [? ?]. split_and!; [done..|].
  intros x c Hc. by eapply wf_child.
Qed.

Lemma elem_inner pre root info old c :
  wf_tree info → wf_old old →
  c ∈ inner_changes pre root info old ↔
  (∃ x n, assoc x (children info) = Some n ∧
     c ∈ child_changes (pre ++ [x]) n (assoc x (old_children root info old))) ∨
  (∃ x o, assoc x (old_children root info old) = Some o ∧ assoc x (children info) = None ∧
     c = mkChange (abs_path (pre ++ [x])) ChangeDelete).
Proof.
  intros Hi Hold. destruct (wf_tree_names _ Hi) as [Hnd _].
  destruct (old_children_wf root info old Hold) as (Hnd' & _).
  unfold inner_changes. rewrite elem_of_app, list_elem_of_bind, list_elem_of_fmap. split.
  - intros [([x n] & Hc & Hx)|([x o] & -> & [Hx Ho]%list_elem_of_filter)].
    + left. exists x, n. split; [by apply assoc_elem|done].
    + right. exists x, o. split_and!; [by apply assoc_elem|by apply assoc_None|done].
  - intros [(x & n & Hx & Hc)|(x & o & Ho & Hx & ->)].
    + left. exists (x, n). split; [done|by apply assoc_Some].
    + right. exists (x, o). split; [done|]. apply list_elem_of_filter.
      split; [by apply assoc_None|by apply assoc_Some].
Qed.

Lemma elem_addChanges pre root added info old c :
  Forall name_ok pre → wf_tree info → wf_old old →
  c ∈ addChanges (abs_path pre) root added info old ↔
  c ∈ inner_changes pre root info old ∨
  match old with
  | None => c = mkChange (abs_path pre) ChangeAdd
  | Some _ => c = mkChange (abs_path pre) ChangeModify ∧ inner_changes pre root info old ≠ [] ∧
              root || mode_isDir (stat info) = true ∧ added = false ∧ pre ≠ []
  end.
Proof.
  intros Hpre Hi Hold. rewrite addChanges_eq by (try apply wf_old_names; try apply wf_tree_names; done).
  cbv zeta. destruct old as [o|]; [|rewrite elem_of_cons; tauto].
  destruct (inner_changes _ _ _ _) as [|c0 cs] eqn:E; cbn [is_nil negb andb]; [naive_solver|].
  destruct (root || mode_isDir (stat info)); [|naive_solver].
  destruct added; [naive_solver|]. destruct pre; [naive_solver|]. cbn [is_nil negb andb].
  rewrite elem_of_cons. naive_solver.
Qed.

(** Every change is below the node it was found at. *)
Lemma addChanges_below info :
  wf_tree info → ∀ pre root added old c, Forall name_ok pre → wf_old old →
  c ∈ addChanges (abs_path pre) root added info old →
  ∃ q, Path c = abs_path (pre ++ q) ∧ Forall name_ok q.
Proof.
  induction 1 as [info Hnd Hok Hdir Hc IH]. intros pre root added old c Hpre Hold.
  assert (Hi : wf_tree info) by (by constructor).
  rewrite elem_addChanges by done. intros [Hin|Hself].
  - apply elem_inner in Hin as [(x & n & Hx & Hin)|(x & o & Ho & Hx & ->)]; [| |done..].
    + destruct (wf_child _ _ _ Hi Hx) as (_ & Hxok & _). pose proof (assoc_Some _ _ _ Hx) as Hx'.
      destruct (old_children_wf root info old Hold) as (_ & _ & Hold').
      assert (Hpre' : Forall name_ok (pre ++ [x])) by (apply Forall_app; auto).
      assert (∃ q, Path c = abs_path ((pre ++ [x]) ++ q) ∧ Forall name_ok q) as (q & -> & Hq).
      { unfold child_changes in Hin. destruct (assoc x (old_children root info old)) as [o|] eqn:Eo.
        - apply elem_of_app in Hin as [Hin|Hin]; [|eapply IH; [done..| |done]; by rewrite <-Eo].
          destruct (childDifferent _ _); [|by apply elem_of_nil in Hin]. apply list_elem_of_singleton in Hin as ->.
          exists []. by rewrite app_nil_r.
        - eapply IH; [done..| |done]. done. }
      exists (x :: q). rewrite <-app_assoc. split; [done|by constructor].
    + exists [x]. split; [done|]. constructor; [|constructor].
      destruct (old_children_wf root info old Hold) as (_ & Hok' & _).
      rewrite Forall_forall in Hok'. eapply Hok', elem_names, assoc_Some, Ho.
  - exists []. rewrite app_nil_r. split; [|constructor]. destruct old; [by destruct Hself as [-> _]|by subst c].
Qed.

Lemma abs_path_app_inj pre q q' :
  Forall name_ok pre → Forall name_ok q → Forall name_ok q' →
  abs_path (pre ++ q) = abs_path (pre ++ q') → q = q'.
Proof.
  intros Hp Hq Hq' E. apply abs_path_inj in E; [|by apply Forall_app..]. by apply (inj (pre ++.)) in E.
Qed.

Lemma child_changes_below pre c old ch :
  Forall name_ok pre → wf_tree c → wf_old old → ch ∈ child_changes pre c old →
  ∃ q, Path ch = abs_path (pre ++ q) ∧ Forall name_ok q.
Proof.
  intros Hpre Hc Hold. unfold child_changes. destruct old as [o|].
  - rewrite elem_of_app. intros [Hin|Hin].
    + destruct (childDifferent o c); [|by apply elem_of_nil in Hin]. apply list_elem_of_singleton in Hin as ->.
      exists []. rewrite app_nil_r. by split.
    + by eapply addChanges_below.
  - by apply addChanges_below.
Qed.

(** A change below the child [x] is one that was found at the child, or its
    deletion. *)
Lemma inner_step pre root info old x q k :
  Forall name_ok (pre ++ x :: q) → wf_tree info → wf_old old →
  mkChange (abs_path (pre ++ x :: q)) k ∈ inner_changes pre root info old ↔
  (∃ n, assoc x (children info) = Some n ∧
     mkChange (abs_path ((pre ++ [x]) ++ q)) k ∈ child_changes (pre ++ [x]) n (assoc x (old_children root info old))) ∨
  (q = [] ∧ k = ChangeDelete ∧ assoc x (children info) = None ∧ assoc x (old_children root info old) ≠ None).
Proof.
  intros [Hpre [Hx Hq]%Forall_cons]%Forall_app Hi Hold. rewrite elem_inner by done.
  destruct (old_children_wf root info old Hold) as (_ & Hok' & Hold').
  split.
  - intros [(y & n & Hy & Hin)|(y & o & Ho & Hy & Heq)].
    + destruct (wf_child _ _ _ Hi Hy) as (Hn & Hyok & _).
      destruct (child_changes_below (pre ++ [y]) n _ _ ltac:(apply Forall_app; auto) Hn (Hold' y) Hin) as (q' & E & Hq').
      cbn [Path] in E. rewrite <-(app_assoc pre [y]) in E.
      apply abs_path_app_inj in E; [|done|by constructor..]. injection E as -> ->.
      left. exists n. rewrite <-app_assoc. by split.
    + assert (name_ok y) by (rewrite Forall_forall in Hok'; eapply Hok', elem_names, assoc_Some, Ho).
      pose proof (f_equal Path Heq) as E. pose proof (f_equal Kind Heq) as Ek. cbn [Path Kind] in E, Ek. subst k.
      assert (E' : x :: q = [y]).
      { apply (abs_path_inj (pre ++ x :: q) (pre ++ [y])) in E;
          [by apply (inj (pre ++.)) in E|apply Forall_app; auto..]. }
      injection E' as -> ->. right. split_and!; [done..|congruence].
  - intros [(n & Hn & Hin)|(-> & -> & Hn & Ho)].
    + left. exists x, n. rewrite <-app_assoc in Hin. by split.
    + right. destruct (assoc x (old_children root info old)) as [o|] eqn:E; [|done]. by exists x, o.
Qed.

Definition old_at (old : option node) (q : list string) : option node :=
  match old with Some o => tree_at o q | None => None end.

(** The children of the old node are those that are compared, as soon as the
    new node has a child. *)
Lemma old_children_child root info old x n :
  wf_tree info → assoc x (children info) = Some n →
  old_children root info old = match old with Some o => children o | None => [] end.
Proof.
  intros Hi Hx. destruct (wf_child _ _ _ Hi Hx) as (_ & _ & Hdir).
  apply is_directory_mode in Hdir as [E _]. unfold old_children. by rewrite E, orb_true_r.
Qed.

Lemma old_at_cons root info old x n q :
  wf_tree info → assoc x (children info) = Some n →
  old_at old (x :: q) = old_at (assoc x (old_children root info old)) q.
Proof.
  intros Hi Hx. rewrite (old_children_child root info old x n) by done. unfold old_at at 1.
  destruct old as [o|]; [|done]. simpl. by destruct (assoc x (children o)).
Qed.

Lemma self_change pre root added info old k :
  Forall name_ok pre → wf_tree info → wf_old old →
  mkChange (abs_path pre) k ∈ addChanges (abs_path pre) root added info old ↔
  match old with
  | None => k = ChangeAdd
  | Some _ => k = ChangeModify ∧ inner_changes pre root info old ≠ [] ∧
              root || mode_isDir (stat info) = true ∧ added = false ∧ pre ≠ []
  end.
Proof.
  intros Hpre Hi Hold. rewrite elem_addChanges by done. split.
  - intros [Hin|H]; [|by destruct old; naive_solver]. exfalso.
    apply elem_inner in Hin as [(x & n & Hx & Hin)|(x & o & Ho & Hx & Heq)]; [| |done..].
    + destruct (wf_child _ _ _ Hi Hx) as (Hn & Hxok & _).
      destruct (old_children_wf root info old Hold) as (_ & _ & Hold').
      apply child_changes_below in Hin as (q & E & Hq); [|apply Forall_app; auto|done|done].
      cbn [Path] in E. rewrite <-app_assoc in E. apply abs_path_inj in E; [|done|rewrite !Forall_app; auto].
      apply (f_equal length) in E. rewrite length_app in E. simpl in E. lia.
    + destruct (old_children_wf root info old Hold) as (_ & Hok' & _).
      assert (name_ok x) by (rewrite Forall_forall in Hok'; eapply Hok', elem_names, assoc_Some, Ho).
      pose proof (f_equal Path Heq) as E. cbn [Path] in E. apply (abs_path_inj pre (pre ++ [x])) in E; [|done|apply Forall_app; auto].
      apply (f_equal length) in E. rewrite length_app in E. simpl in E. lia.
  - intros H. right. destruct old; naive_solver.
Qed.

Lemma addChanges_cons pre root added info old x q k :
  Forall name_ok (pre ++ x :: q) → wf_tree info → wf_old old →
  mkChange (abs_path (pre ++ x :: q)) k ∈ addChanges (abs_path pre) root added info old ↔
  mkChange (abs_path (pre ++ x :: q)) k ∈ inner_changes pre root info old.
Proof.
  intros Hok Hi Hold. pose proof Hok as [Hpre _]%Forall_app. rewrite elem_addChanges by done.
  split; [|by left]. intros [?|H]; [done|]. exfalso.
  assert (E : abs_path (pre ++ x :: q) = abs_path pre).
  { destruct old; [destruct H as [H _]|]; by apply (f_equal Path) in H. }
  apply abs_path_inj in E; [|done..]. apply (f_equal length) in E. rewrite length_app in E. simpl in E. lia.
Qed.

Definition child_flag (old : option node) (n : node) : bool :=
  match old with Some o => childDifferent o n | None => false end.

Lemma child_change pre n old q k :
  Forall name_ok (pre ++ q) →
  mkChange (abs_path (pre ++ q)) k ∈ child_changes pre n old ↔
  (child_flag old n = true ∧ q = [] ∧ k = ChangeModify) ∨
  mkChange (abs_path (pre ++ q)) k ∈ addChanges (abs_path pre) false (child_flag old n) n old.
Proof.
  intros Hok. pose proof Hok as [Hpre _]%Forall_app.
  unfold child_changes, child_flag. destruct old as [o|]; [|naive_solver].
  rewrite elem_of_app. destruct (childDifferent o n); [|rewrite elem_of_nil; naive_solver].
  rewrite list_elem_of_singleton. split; [|intros [(_ & -> & ->)|?]; [left; by rewrite app_nil_r|by right]].
  intros [E|?]; [|by right]. left.
  pose proof (f_equal Path E) as E1. pose proof (f_equal Kind E) as E2. cbn [Path Kind] in E1, E2.
  split_and!; [done| |done]. apply abs_path_inj in E1; [|done..].
  apply (f_equal length) in E1. rewrite length_app in E1. destruct q; [done|]. simpl in E1. lia.
Qed.

(** The step to a child, for a change that is no deletion of the child. *)
Lemma addChanges_step pre root added info old x q k :
  Forall name_ok (pre ++ x :: q) → wf_tree info → wf_old old → q ≠ [] ∨ k ≠ ChangeDelete →
  mkChange (abs_path (pre ++ x :: q)) k ∈ addChanges (abs_path pre) root added info old ↔
  ∃ n, assoc x (children info) = Some n ∧
    let oc := assoc x (old_children root info old) in
    ((child_flag oc n = true ∧ q = [] ∧ k = ChangeModify) ∨
     mkChange (abs_path ((pre ++ [x]) ++ q)) k ∈ addChanges (abs_path (pre ++ [x])) false (child_flag oc n) n oc).
Proof.
  intros Hok Hi Hold Hk. rewrite addChanges_cons, inner_step by done.
  assert (Hok' : Forall name_ok ((pre ++ [x]) ++ q)) by (by rewrite <-app_assoc).
  split.
  - intros [(n & Hn & H)|(-> & -> & _)]; [|naive_solver]. exists n. split; [done|]. by apply child_change.
  - intros (n & Hn & H). left. exists n. split; [done|]. by apply child_change.
Qed.

Section spec_cases.
Context (info : node) (Hi : wf_tree info).

Lemma Add_spec q : ∀ pre root added old,
  Forall name_ok (pre ++ q) → wf_old old →
  mkChange (abs_path (pre ++ q)) ChangeAdd ∈ addChanges (abs_path pre) root added info old ↔
  is_Some (tree_at info q) ∧ old_at old q = None.
Proof using Hi.
  revert info Hi. induction q as [|x q IH]; intros info Hi pre root added old Hok Hold.
  - rewrite app_nil_r in Hok |- *. rewrite self_change by done. destruct old; simpl; naive_solver.
  - rewrite addChanges_step by (try done; by right). cbn [tree_at].
    assert (Hok' : Forall name_ok ((pre ++ [x]) ++ q)) by (by rewrite <-app_assoc).
    destruct (old_children_wf root info old Hold) as (_ & _ & Hold').
    destruct (assoc x (children info)) as [n|] eqn:Hn; [|split; [naive_solver|intros [[? ?] _]; done]].
    destruct (wf_child _ _ _ Hi Hn) as (Hwn & _ & _).
    rewrite (old_at_cons root info old x n) by done. rewrite <-IH by eauto. naive_solver.
Qed.

Lemma Delete_spec q : ∀ pre root added old,
  Forall name_ok (pre ++ q) → wf_old old →
  mkChange (abs_path (pre ++ q)) ChangeDelete ∈ addChanges (abs_path pre) root added info old ↔
  ∃ q' x n, q = q' ++ [x] ∧ tree_at info q' = Some n ∧ (q' = [] ∧ root = true ∨ mode_isDir (stat n) = true) ∧
    tree_at info q = None ∧ is_Some (old_at old q).
Proof using Hi.
  revert info Hi. induction q as [|x q IH]; intros info Hi pre root added old Hok Hold.
  - rewrite app_nil_r in Hok |- *. rewrite self_change by done. split; [destruct old; naive_solver|].
    intros (q' & x & n & E & _). by destruct q'.
  - rewrite addChanges_cons, inner_step by done. cbn [tree_at].
    assert (Hok' : Forall name_ok ((pre ++ [x]) ++ q)) by (by rewrite <-app_assoc).
    destruct (old_children_wf root info old Hold) as (_ & _ & Hold').
    destruct (assoc x (children info)) as [n|] eqn:Hn.
    + destruct (wf_child _ _ _ Hi Hn) as (Hwn & _ & _).
      rewrite (old_at_cons root info old x n) by done.
      transitivity (mkChange (abs_path ((pre ++ [x]) ++ q)) ChangeDelete ∈
        addChanges (abs_path (pre ++ [x])) false (child_flag (assoc x (old_children root info old)) n) n
          (assoc x (old_children root info old))).
      { split; [intros [(? & [= <-] & H)|?]; [|naive_solver]; apply child_change in H; naive_solver|].
        intros H. left. exists n. split; [done|]. apply child_change; auto. }
      rewrite IH by eauto. split.
      * intros (q' & y & m & -> & Hm & Hd & Hq & Ho). exists (x :: q'), y, m. split_and!; [done| |naive_solver|done|done].
        cbn [tree_at]. by rewrite Hn.
      * intros (q' & y & m & E & Hm & Hd & Hq & Ho). destruct q' as [|x' q']; [simplify_eq/=|].
        injection E as <- ->. cbn [tree_at] in Hm. rewrite Hn in Hm. exists q', y, m. naive_solver.
    + split.
      * intros [(? & ? & _)|(-> & _ & _ & Ho)]; [done|]. exists [], x, info.
        unfold old_children in Ho. destruct old as [o|]; [|done].
        destruct (root || mode_isDir (stat info)) eqn:Ed; [|done].
        split_and!; [done|done|destruct root; auto|done|]. simpl. by destruct (assoc x (children o)).
      * intros (q' & y & m & E & Hm & Hd & _ & Ho). right. destruct q' as [|x' q'].
        -- injection E as <- ->. cbn [tree_at] in Hm. injection Hm as <-. split_and!; [done..|].
           unfold old_children. destruct old as [o|]; [|by destruct Ho].
           replace (root || mode_isDir (stat info)) with true
             by (destruct Hd as [[_ ->]| ->]; by rewrite ?orb_true_r).
           cbn [old_at tree_at] in Ho. destruct (assoc x (children o)); [done|by destruct Ho].
        -- injection E as <- ->. cbn [tree_at] in Hm. by rewrite Hn in Hm.
Qed.

(** Modified nodes below the root of the comparison. *)
Lemma Modify_spec q : ∀ x pre root added old,
  Forall name_ok (pre ++ x :: q) → wf_old old →
  mkChange (abs_path (pre ++ x :: q)) ChangeModify ∈ addChanges (abs_path pre) root added info old ↔
  ∃ n o, tree_at info (x :: q) = Some n ∧ old_at old (x :: q) = Some o ∧
    (childDifferent o n = true ∨
     (mode_isDir (stat n) = true ∧ inner_changes (pre ++ x :: q) false n (Some o) ≠ [])).
Proof using Hi.
  revert info Hi. induction q as [|y q IH]; intros info Hi x pre root added old Hok Hold.
  - rewrite addChanges_step by (try done; by right).
    pose proof Hok as [Hpre [Hx _]%Forall_cons]%Forall_app.
    destruct (old_children_wf root info old Hold) as (_ & _ & Hold').
    cbn [tree_at]. destruct (assoc x (children info)) as [n|] eqn:Hn;
      [|split; [by intros (? & ? & _)|by intros (? & ? & ? & _)]].
    destruct (wf_child _ _ _ Hi Hn) as (Hwn & _ & _).
    rewrite (old_at_cons root info old x n) by done. rewrite app_nil_r.
    specialize (Hold' x). destruct (assoc x (old_children root info old)) as [o|] eqn:Eo; cbn [old_at tree_at child_flag].
    2:{ split; [|by intros (? & ? & _ & ? & _)]. intros (? & [= <-] & [[? _]|H]); [done|].
        apply self_change in H; [done|apply Forall_app; auto|done|done]. }
    split.
    + intros (? & [= <-] & [(? & _)|H]); [naive_solver|].
      apply self_change in H as (_ & Hin & Hd & Hf & _); [|apply Forall_app; auto|done|done].
      exists n, o. cbn [orb] in Hd. auto.
    + intros (? & ? & [= <-] & [= <-] & H). exists n. split; [done|].
      destruct (childDifferent o n) eqn:Ef; [by left|]. right. destruct H as [?|[Hd Hin]]; [done|].
      apply self_change; [apply Forall_app; auto|done|done|]. split_and!; [done..|]. by destruct pre.
  - rewrite addChanges_step by (try done; by left).
    assert (Hok' : Forall name_ok ((pre ++ [x]) ++ y :: q)) by (by rewrite <-app_assoc).
    destruct (old_children_wf root info old Hold) as (_ & _ & Hold').
    cbn [tree_at]. destruct (assoc x (children info)) as [n|] eqn:Hn;
      [|split; [by intros (? & ? & _)|by intros (? & ? & ? & _)]].
    destruct (wf_child _ _ _ Hi Hn) as (Hwn & _ & _).
    rewrite (old_at_cons root info old x n (y :: q)) by done.
    replace (pre ++ x :: y :: q) with ((pre ++ [x]) ++ y :: q) by (by rewrite <-app_assoc).
    change (match assoc y (children n) with Some c => tree_at c q | None => None end) with (tree_at n (y :: q)).
    rewrite <-(IH n Hwn y (pre ++ [x]) false (child_flag (assoc x (old_children root info old)) n)) by eauto.
    naive_solver.
Qed.
End spec_cases.

(** The changes inside a node that both trees have, at some place below the
    root of the comparison. *)
Lemma inner_below p : ∀ x info pre root added old n o q k,
  wf_tree info → wf_old old → Forall name_ok (pre ++ (x :: p) ++ q) → q ≠ [] →
  tree_at info (x :: p) = Some n → old_at old (x :: p) = Some o →
  mkChange (abs_path (pre ++ (x :: p) ++ q)) k ∈ addChanges (abs_path pre) root added info old ↔
  mkChange (abs_path (pre ++ (x :: p) ++ q)) k ∈ inner_changes (pre ++ x :: p) false n (Some o).
Proof.
  induction p as [|y p IH]; intros x info pre root added old n o q k Hi Hold Hok Hq Hn Ho.
  - simpl app in Hok |- *. rewrite addChanges_step by (try done; destruct q; naive_solver).
    cbn [tree_at] in Hn. destruct (assoc x (children info)) as [c|] eqn:Hc; [|done]. injection Hn as ->.
    destruct (wf_child _ _ _ Hi Hc) as (Hwn & _ & _).
    rewrite (old_at_cons root info old x n) in Ho by done. cbv zeta.
    destruct (old_children_wf root info old Hold) as (_ & _ & Hold'). specialize (Hold' x).
    destruct (assoc x (old_children root info old)) as [o'|]; [|done]. injection Ho as ->.
    destruct q as [|z q]; [done|].
    replace (pre ++ x :: z :: q) with ((pre ++ [x]) ++ z :: q) in * by (by rewrite <-app_assoc).
    rewrite <-(addChanges_cons (pre ++ [x]) false (child_flag (Some o) n) n (Some o)) by done. naive_solver.
  - change ((x :: y :: p) ++ q) with (x :: (y :: p) ++ q) in *.
    rewrite addChanges_step by (try done; naive_solver).
    cbn [tree_at] in Hn. destruct (assoc x (children info)) as [c|] eqn:Hc; [|done].
    destruct (wf_child _ _ _ Hi Hc) as (Hwn & _ & _).
    rewrite (old_at_cons root info old x c) in Ho by done. cbv zeta.
    destruct (old_children_wf root info old Hold) as (_ & _ & Hold'). specialize (Hold' x).
    replace (pre ++ x :: (y :: p) ++ q) with ((pre ++ [x]) ++ (y :: p) ++ q) in * by (by rewrite <-app_assoc).
    replace (pre ++ x :: y :: p) with ((pre ++ [x]) ++ y :: p) in * by (by rewrite <-app_assoc).
    rewrite <-(IH y c (pre ++ [x]) false (child_flag (assoc x (old_children root info old)) c)) by done.
    naive_solver.
Qed.

(** A change inside a node has a longer path. *)
Lemma inner_path pre root info old c :
  Forall name_ok pre → wf_tree info → wf_old old → c ∈ inner_changes pre root info old →
  ∃ q, q ≠ [] ∧ Forall name_ok q ∧ Path c = abs_path (pre ++ q).
Proof.
  intros Hpre Hi Hold H. destruct (old_children_wf root info old Hold) as (_ & Hok' & Hold').
  apply elem_inner in H as [(x & n & Hx & Hin)|(x & o & Ho & Hx & ->)]; [| |done..].
  - destruct (wf_child _ _ _ Hi Hx) as (Hn & Hxok & _).
    apply child_changes_below in Hin as (q & E & Hq); [|apply Forall_app; auto|done|done].
    exists (x :: q). rewrite <-app_assoc in E. split_and!; [done|by constructor|done].
  - exists [x]. split_and!; [done| |done]. constructor; [|constructor].
    rewrite Forall_forall in Hok'. eapply Hok', elem_names, assoc_Some, Ho.
Qed.

Lemma not_nil_elem {A} (l : list A) : l ≠ [] → ∃ x, x ∈ l.
Proof. destruct l as [|x l]; [done|]. intros _. exists x. left. Qed.

Section changes.
Context (new old : node) (Hnew : wf_tree new) (Hold : wf_tree old).

Lemma wf_old_Some : wf_old (Some old).
Proof using Hold. by intros ? [= <-]. Qed.

Lemma Changes_path c : c ∈ Changes new old → ∃ q, q ≠ [] ∧ Forall name_ok q ∧ Path c = abs_path q.
Proof using Hnew Hold.
  unfold Changes. intros H. apply (elem_addChanges []) in H; [|constructor|done|apply wf_old_Some].
  destruct H as [H|(_ & _ & _ & _ & ?)]; [|done].
  by apply inner_path in H; [|constructor|done|apply wf_old_Some].
Qed.

(** A modified path, in terms of the changes themselves. *)
Lemma Changes_Modify p :
  p ≠ [] → Forall name_ok p →
  mkChange (abs_path p) ChangeModify ∈ Changes new old ↔
  ∃ n o, tree_at new p = Some n ∧ tree_at old p = Some o ∧
    (childDifferent o n = true ∨
     (mode_isDir (stat n) = true ∧
      ∃ q k, q ≠ [] ∧ Forall name_ok q ∧ mkChange (abs_path (p ++ q)) k ∈ Changes new old)).
Proof using Hnew Hold.
  intros Hp Hok. destruct p as [|x p]; [done|]. unfold Changes at 1.
  pose proof (Modify_spec new Hnew p x [] true false (Some old) Hok wf_old_Some) as E. simpl app in E.
  change (abs_path []) with "/" in E. rewrite E. clear E.
  change (old_at (Some old) (x :: p)) with (tree_at old (x :: p)).
  assert (Hiff : ∀ n o, tree_at new (x :: p) = Some n → tree_at old (x :: p) = Some o →
    inner_changes (x :: p) false n (Some o) ≠ [] ↔
    ∃ q k, q ≠ [] ∧ Forall name_ok q ∧ mkChange (abs_path ((x :: p) ++ q)) k ∈ Changes new old).
  { intros n o Hn Ho. pose proof (proj1 (wf_tree_at _ _ _ Hnew Hn)) as Hwn.
    pose proof (proj1 (wf_tree_at _ _ _ Hold Ho)) as Hwo.
    assert (Hwo' : wf_old (Some o)) by (by intros ? [= <-]).
    assert (Hb : ∀ q k, q ≠ [] → Forall name_ok q →
      mkChange (abs_path ((x :: p) ++ q)) k ∈ Changes new old ↔
      mkChange (abs_path ((x :: p) ++ q)) k ∈ inner_changes (x :: p) false n (Some o)).
    { intros q k Hq Hqok. assert (Hpq : Forall name_ok ([] ++ (x :: p) ++ q)) by (by apply (Forall_app name_ok (x :: p) q)).
      exact (inner_below p x new [] true false (Some old) n o q k Hnew wf_old_Some Hpq Hq Hn Ho). }
    split.
    - intros [[P k] Hin]%not_nil_elem.
      pose proof Hin as Hin'. apply inner_path in Hin' as (q & Hq & Hqok & HP); [|done..].
      cbn [Path] in HP. subst P. exists q, k. split_and!; [done..|]. by apply Hb.
    - intros (q & k & Hq & Hqok & Hin). apply Hb in Hin; [|done..]. intros E0. rewrite E0 in Hin.
      by apply elem_of_nil in Hin. }
  split; intros (n & o & Hn & Ho & H); exists n, o; (split_and!; [done..|]);
    destruct H as [?|[Hd H]]; auto; right; (split; [done|]); by apply (Hiff n o Hn Ho).
Qed.
End changes.

(** No change is listed twice. *)
Lemma child_changes_NoDup pre n old :
  Forall name_ok pre → wf_tree n → wf_old old →
  (∀ added, NoDup (addChanges (abs_path pre) false added n old)) → NoDup (child_changes pre n old).
Proof.
  intros Hpre Hn Hold IH. unfold child_changes. destruct old as [o|]; [|done].
  apply NoDup_app. split_and!; [destruct (childDifferent o n); repeat constructor; set_solver| |done].
  intros c Hc Hc'. destruct (childDifferent o n); [|by apply elem_of_nil in Hc].
  apply list_elem_of_singleton in Hc as ->. apply self_change in Hc'; [naive_solver|done..].
Qed.

Lemma addChanges_NoDup info :
  wf_tree info → ∀ pre root added old, Forall name_ok pre → wf_old old →
  NoDup (addChanges (abs_path pre) root added info old).
Proof.
  induction 1 as [info Hnd Hok Hdir Hc IH]. intros pre root added old Hpre Hold.
  assert (Hi : wf_tree info) by (by constructor).
  destruct (old_children_wf root info old Hold) as (Hnd' & Hok' & Hold').
  assert (Hpx : ∀ x, name_ok x → Forall name_ok (pre ++ [x])) by (intros; apply Forall_app; auto).
  assert (Hkid : ∀ x n c, (x, n) ∈ children info →
    c ∈ child_changes (pre ++ [x]) n (assoc x (old_children root info old)) →
    ∃ q, Path c = abs_path (pre ++ x :: q) ∧ Forall name_ok (x :: q)).
  { intros x n c Hx Hin. assert (Hxok : name_ok x) by (rewrite Forall_forall in Hok; eapply Hok, elem_names, Hx).
    apply child_changes_below in Hin as (q & E & Hq); [|by auto|by eapply Hc|done].
    exists q. rewrite <-app_assoc in E. split; [done|by constructor]. }
  assert (Hoy : ∀ y o, (y, o) ∈ old_children root info old → name_ok y).
  { intros y o Hy. rewrite Forall_forall in Hok'. eapply Hok', elem_names, Hy. }
  assert (Hin : NoDup (inner_changes pre root info old)).
  { unfold inner_changes. apply NoDup_app. split_and!.
    - apply NoDup_bind; [| |by eapply NoDup_fmap_1].
      + intros [x n] [y m] c Hx Hy Hcx Hcy. destruct (Hkid _ _ _ Hx Hcx) as (q & E & Hq).
        destruct (Hkid _ _ _ Hy Hcy) as (q' & E' & Hq'). rewrite E in E'.
        apply abs_path_app_inj in E'; [|done..]. injection E' as <- _.
        apply (assoc_elem _ _ _ Hnd) in Hx, Hy. congruence.
      + intros [x n] Hx. assert (Hxok : name_ok x) by (rewrite Forall_forall in Hok; eapply Hok, elem_names, Hx).
        apply child_changes_NoDup; [by auto|by eapply Hc|done|]. intros a. eapply IH; [done|by auto|done].
    - intros c [[x n] [Hcx Hx]]%list_elem_of_bind [[y o] [-> [Hy Ho]%list_elem_of_filter]]%list_elem_of_fmap.
      destruct (Hkid _ _ _ Hx Hcx) as (q & E & Hq). cbn [Path fst] in E, Hy.
      apply (abs_path_app_inj pre [y] (x :: q)) in E; [|done|constructor; [by eapply Hoy|constructor]|done].
      injection E as -> _. apply Hy. by eapply elem_names.
    - apply NoDup_fmap_2_strong; [|by apply NoDup_filter; eapply NoDup_fmap_1].
      intros [x n] [y m] [_ Hx]%list_elem_of_filter [_ Hy]%list_elem_of_filter E.
      apply (f_equal Path) in E. cbn [Path fst] in E.
      apply (abs_path_app_inj pre [x] [y]) in E; [|done|constructor; [by eapply Hoy|constructor]..].
      injection E as ->. apply (assoc_elem _ _ _ Hnd') in Hx, Hy. congruence. }
  rewrite addChanges_eq by (try apply wf_old_names; done). cbv zeta.
  assert (Hself : ∀ k, mkChange (abs_path pre) k ∉ inner_changes pre root info old).
  { intros k (q & Hq & Hqok & E)%inner_path; [|done..]. cbn [Path] in E.
    apply abs_path_inj in E; [|done|by apply Forall_app]. apply (f_equal length) in E.
    rewrite length_app in E. destruct q; [done|]. simpl in E. lia. }
  destruct old as [o|]; [|by constructor]. case_match; [by constructor|done].
Qed.

Section changes.
Context (new old : node) (Hnew : wf_tree new) (Hold : wf_tree old).

Lemma Changes_Add p :
  Forall name_ok p →
  mkChange (abs_path p) ChangeAdd ∈ Changes new old ↔ is_Some (tree_at new p) ∧ tree_at old p = None.
Proof using Hnew Hold.
  intros Hok. exact (Add_spec new Hnew p [] true false (Some old) Hok (wf_old_Some _ Hold)).
Qed.

Lemma Changes_Delete p :
  Forall name_ok p →
  mkChange (abs_path p) ChangeDelete ∈ Changes new old ↔
  tree_at new p = None ∧ is_Some (tree_at old p) ∧
  ∃ q x d, p = q ++ [x] ∧ tree_at new q = Some d ∧ (q = [] ∨ mode_isDir (stat d) = true).
Proof using Hnew Hold.
  intros Hok.
  pose proof (Delete_spec new Hnew p [] true false (Some old) Hok (wf_old_Some _ Hold)) as E.
  etransitivity; [exact E|]. cbn [old_at]. clear E. split.
  - intros (q & x & n & -> & Hn & Hd & ? & ?). split_and!; [done..|]. exists q, x, n. naive_solver.
  - intros (? & ? & q & x & n & -> & Hn & Hd). exists q, x, n. naive_solver.
Qed.

Lemma Changes_NoDup : NoDup (map Path (Changes new old)).
Proof using Hnew Hold.
  apply NoDup_fmap_2_strong; [|apply (addChanges_NoDup new Hnew []); [constructor|by apply wf_old_Some]].
  intros [P k] [P' k'] H H' E. cbn [Path] in E. subst P'. f_equal.
  destruct (Changes_path _ _ Hnew Hold _ H) as (q & Hq & Hqok & EP). cbn [Path] in EP. subst P.
  destruct k, k'; try done; exfalso;
    repeat match goal with
    | H : mkChange _ ChangeAdd ∈ _ |- _ => apply Changes_Add in H; [|done]
    | H : mkChange _ ChangeDelete ∈ _ |- _ => apply Changes_Delete in H; [|done]
    | H : mkChange _ ChangeModify ∈ _ |- _ => apply Changes_Modify in H; [|done..]
    end; unfold is_Some in *; naive_solver.
Qed.
End changes.

(** ** The properties *)

(** C26: The comparison of two trees lists exactly their differences, whatever
    order the maps are iterated in: a path is added when only the new tree has
    it, deleted when only the old one has it and its directory is still there (a
    directory that is gone is listed once, not its contents), modified when the
    two nodes differ or when something inside it is listed; no path is listed
    twice. *)
Theorem Changes_spec new old p :
  wf_tree new → wf_tree old → p ≠ [] → Forall name_ok p →
  let cs := Changes new old in
  (mkChange (abs_path p) ChangeAdd ∈ cs ↔ is_Some (tree_at new p) ∧ tree_at old p = None) ∧
  (mkChange (abs_path p) ChangeDelete ∈ cs ↔
     tree_at new p = None ∧ is_Some (tree_at old p) ∧
     ∃ q x d, p = q ++ [x] ∧ tree_at new q = Some d ∧ (q = [] ∨ mode_isDir (stat d) = true)) ∧
  (mkChange (abs_path p) ChangeModify ∈ cs ↔
     ∃ n o, tree_at new p = Some n ∧ tree_at old p = Some o ∧
       (childDifferent o n = true ∨
        (mode_isDir (stat n) = true ∧
         ∃ q k, q ≠ [] ∧ Forall name_ok q ∧ mkChange (abs_path (p ++ q)) k ∈ cs))) ∧
  NoDup (map Path cs).
Proof.
  intros Hnew Hold Hp Hok cs. split_and!.
  - by apply (Changes_Add new old).
  - by apply (Changes_Delete new old).
  - by apply Changes_Modify.
  - by apply Changes_NoDup.
Qed.

(** ** Leaving out what two trees share *)

Lemma compare_cases s t :
  match String.compare s t with
  | Lt => String.le s t ∧ s ≠ t
  | Eq => s = t
  | Gt => String.le t s ∧ s ≠ t
  end.
Proof.
  destruct (String.compare s t) eqn:E.
  - by apply String.compare_eq_iff.
  - split; [unfold String.le, String.leb; by rewrite E|]. intros ->.
    pose proof (reflexivity (R := String.le) t) as H. unfold String.le, String.leb in H. rewrite E in H.
    assert (E' := String.compare_antisym t t). by rewrite E in E'.
  - split; [unfold String.le, String.leb; by rewrite String.compare_antisym, E|]. intros ->.
    assert (E' := String.compare_antisym t t). by rewrite E in E'.
Qed.

(** A sorted list of names has no name below its first. *)
Lemma sorted_below x (l : list (string * N)) a :
  StronglySorted name_le (a :: l) → String.le x a.1 → x ≠ a.1 → x ∉ map fst (a :: l).
Proof.
  intros [_ Hle]%StronglySorted_inv Hx Hne. intros [->|([y i] & -> & Hy)%list_elem_of_fmap]%elem_of_cons; [done|].
  rewrite Forall_forall in Hle. specialize (Hle _ Hy). unfold name_le in Hle. cbn [fst] in *.
  apply Hne. by apply (anti_symm String.le).
Qed.

Lemma elem_skip {A} (x n : string) (i j : A) l : x ≠ n → (x, i) ∈ (n, j) :: l ↔ (x, i) ∈ l.
Proof. intros Hx. rewrite elem_of_cons. split; [by intros [[= -> _]|?]|by right]. Qed.

Lemma merge_names_elem same l1 l2 x :
  StronglySorted name_le l1 → StronglySorted name_le l2 → NoDup (map fst l1) → NoDup (map fst l2) →
  x ∈ merge_names same l1 l2 ↔
  (x ∈ map fst l1 ∨ x ∈ map fst l2) ∧ ¬ (same = true ∧ ∃ i, (x, i) ∈ l1 ∧ (x, i) ∈ l2).
Proof.
  intros H1 H2. revert l2 H2. induction l1 as [|[n1 i1] l1 IH1]; intros l2 H2 N1 N2.
  { destruct l2; cbn [merge_names map]; set_solver. }
  induction l2 as [|[n2 i2] l2 IH2]; [cbn [merge_names map]; set_solver|].
  pose proof H1 as [H1' F1]%StronglySorted_inv. pose proof H2 as [H2' F2]%StronglySorted_inv.
  cbn [map fst] in N1, N2. pose proof N1 as [N1x N1']%NoDup_cons. pose proof N2 as [N2x N2']%NoDup_cons.
  cbn [merge_names]. pose proof (compare_cases n1 n2) as Hc. destruct (String.compare n1 n2) eqn:Ec.
  - subst n2. rewrite elem_of_app, IH1 by done. cbn [map fst].
    assert (Hn : ∀ i, (n1, i) ∈ l1 ∨ (n1, i) ∈ l2 → False).
    { intros i [?%elem_names|?%elem_names]; done. }
    destruct (N.eqb_spec i1 i2) as [<-|Hi]; cbn [negb orb].
    + destruct same; cbn [negb].
      * rewrite elem_of_nil, !elem_of_cons. destruct (decide (x = n1)) as [->|Hx].
        -- split; [intros [?|[[?|?] _]]; done|]. intros [_ H]. exfalso. apply H. split; [done|]. exists i1.
           split; left.
        -- setoid_rewrite elem_skip; [|done..]. tauto.
      * rewrite list_elem_of_singleton, !elem_of_cons. split; [intros H; split; [tauto|by intros [? _]]|].
        intros [[[?|?]|[?|?]] _]; [by left|right|by left|right]; (split; [tauto|by intros [? _]]).
    + rewrite list_elem_of_singleton, !elem_of_cons. destruct (decide (x = n1)) as [->|Hx].
      * split; [|by left]. intros _. split; [by left; left|]. intros (_ & i & Ha & Hb).
        apply elem_of_cons in Ha as [[= ->]|?%elem_names]; [|done].
        apply elem_of_cons in Hb as [[= ->]|?%elem_names]; done.
      * setoid_rewrite elem_skip; [|done..]. tauto.
  - destruct Hc as [Hle Hne].
    pose proof (sorted_below n1 l2 (n2, i2) H2 Hle Hne) as Hn1.
    rewrite elem_of_cons, IH1 by done. cbn [map fst]. rewrite (elem_of_cons (map fst l1)).
    destruct (decide (x = n1)) as [->|Hx].
    + split; [|by left]. intros _. split; [by left; left|]. intros (_ & i & _ & Hb%elem_names). done.
    + setoid_rewrite (elem_skip x n1 _ i1 l1); [|done]. tauto.
  - destruct Hc as [Hle Hne].
    pose proof (sorted_below n2 l1 (n1, i1) H1 Hle (not_eq_sym Hne)) as Hn2.
    rewrite elem_of_cons.
    change (x = n2 ∨ x ∈ merge_names same ((n1, i1) :: l1) l2 ↔
      (x ∈ map fst ((n1, i1) :: l1) ∨ x ∈ map fst ((n2, i2) :: l2)) ∧
      ¬ (same = true ∧ ∃ i, (x, i) ∈ (n1, i1) :: l1 ∧ (x, i) ∈ (n2, i2) :: l2)).
    rewrite IH2 by done. cbn [map fst]. rewrite (elem_of_cons (map fst l2)).
    destruct (decide (x = n2)) as [->|Hx].
    + split; [|by left]. intros _. split; [by right; left|]. intros (_ & i & Ha%elem_names & _). done.
    + setoid_rewrite (elem_skip x n2 _ i2 l2); [|done]. tauto.
Qed.

Lemma merge_names_NoDup same l1 l2 :
  StronglySorted name_le l1 → StronglySorted name_le l2 → NoDup (map fst l1) → NoDup (map fst l2) →
  NoDup (merge_names same l1 l2).
Proof.
  intros H1 H2. revert l2 H2. induction l1 as [|[n1 i1] l1 IH1]; intros l2 H2 N1 N2.
  { by destruct l2. }
  induction l2 as [|[n2 i2] l2 IH2]; [done|].
  pose proof H1 as [H1' F1]%StronglySorted_inv. pose proof H2 as [H2' F2]%StronglySorted_inv.
  cbn [map fst] in N1, N2. pose proof N1 as [N1x N1']%NoDup_cons. pose proof N2 as [N2x N2']%NoDup_cons.
  cbn [merge_names]. pose proof (compare_cases n1 n2) as Hc. destruct (String.compare n1 n2) eqn:Ec.
  - subst n2. assert (NoDup (merge_names same l1 l2)) by auto. destruct (_ || _); [|done].
    constructor; [|done]. rewrite merge_names_elem by done. tauto.
  - destruct Hc as [Hle Hne]. constructor; [|by apply IH1]. rewrite merge_names_elem by done.
    pose proof (sorted_below n1 l2 (n2, i2) H2 Hle Hne). tauto.
  - destruct Hc as [Hle Hne]. constructor; [|by apply IH2].
    change (n2 ∉ merge_names same ((n1, i1) :: l1) l2). rewrite merge_names_elem by done.
    pose proof (sorted_below n2 l1 (n1, i1) H1 Hle (not_eq_sym Hne)). tauto.
Qed.

Lemma childDifferent_refl n : childDifferent n n = false.
Proof.
  unfold childDifferent, statDifferent, sameFsTimeSpec. rewrite !N.eqb_refl.
  assert (H : ∀ A `{EqDecision A} (a : A), bool_decide (a = a) = true) by (intros; by apply bool_decide_eq_true_2).
  rewrite !H.
  by destruct (N.land (Mode (stat n)) S_IFDIR =? S_IFDIR).
Qed.

(** A tree has no changes against itself. *)
Lemma inner_same n : wf_tree n → ∀ pre root, Forall name_ok pre → inner_changes pre root n (Some n) = [].
Proof.
  induction 1 as [n Hnd Hok Hdir Hc IH]. intros pre root Hpre.
  assert (Hn : wf_tree n) by (by constructor). assert (Hold : wf_old (Some n)) by (by intros ? [= <-]).
  destruct (inner_changes pre root n (Some n)) as [|c cs] eqn:E; [done|]. exfalso.
  assert (Hin : c ∈ inner_changes pre root n (Some n)) by (rewrite E; left). clear E.
  apply elem_inner in Hin as [(x & m & Hx & Hin)|(x & o & Ho & Hx & ->)]; [| |done..].
  - rewrite (old_children_child root n (Some n) x m), Hx in Hin by done.
    destruct (wf_child _ _ _ Hn Hx) as (Hm & Hxok & _).
    unfold child_changes in Hin. rewrite childDifferent_refl in Hin. cbn [app] in Hin.
    apply elem_addChanges in Hin; [|apply Forall_app; auto|done|by intros ? [= <-]].
    rewrite (IH x m (assoc_Some _ _ _ Hx)) in Hin by (apply Forall_app; auto).
    destruct Hin as [Hin%elem_of_nil|(_ & ? & _)]; done.
  - unfold old_children in Ho. destruct (_ || _); [by rewrite Hx in Ho|done].
Qed.

Lemma child_same pre n : wf_tree n → Forall name_ok pre → child_changes pre n (Some n) = [].
Proof.
  intros Hn Hpre. unfold child_changes. rewrite childDifferent_refl. cbn [app].
  rewrite addChanges_eq; [|done|by apply wf_tree_names|intros ? [= <-]; by apply wf_tree_names].
  cbv zeta. by rewrite inner_same.
Qed.

Lemma lstat_child_wf n x : wf_tree n → lstat_child (Some n) x = assoc x (children n).
Proof.
  intros Hn. unfold lstat_child, IsDir. destruct (assoc x (children n)) as [c|] eqn:E; [|by case_match].
  destruct (wf_child _ _ _ Hn E) as (_ & _ & ->). done.
Qed.

Definition names_of (t : option node) : list string :=
  match t with Some n => map fst (children n) | None => [] end.

Lemma dir_names_spec t :
  wf_old t →
  StronglySorted name_le (dir_names t) ∧ NoDup (map fst (dir_names t)) ∧
  ∀ x i, (x, i) ∈ dir_names t ↔ ∃ c, lstat_child t x = Some c ∧ i = Ino (stat c).
Proof.
  intros Ht. unfold dir_names, lstat_child. destruct t as [n|].
  2:{ split_and!; [constructor|constructor|]. intros x i. rewrite elem_of_nil. naive_solver. }
  destruct (IsDir (Some n)).
  2:{ split_and!; [constructor|constructor|]. intros x i. rewrite elem_of_nil. naive_solver. }
  destruct (wf_tree_names n (Ht n eq_refl)) as [Hnd _]. unfold readdirnames. split_and!.
  - apply StronglySorted_merge_sort.
    + intros [a ?] [b ?] [c ?]. unfold name_le. cbn [fst]. by transitivity b.
    + intros [a ?] [b ?]. unfold name_le. cbn [fst]. apply (total String.le).
  - assert (map fst (merge_sort name_le (map (λ p, (p.1, Ino (stat p.2))) (children n))) ≡ₚ map fst (children n)) as ->.
    { rewrite merge_sort_Permutation. by rewrite map_map. }
    done.
  - intros x i. rewrite merge_sort_Permutation, list_elem_of_fmap. split.
    + intros ([y c] & [= -> ->] & Hy). exists c. split; [by apply assoc_elem|done].
    + intros (c & Hx & ->). exists (x, c). split; [done|by apply assoc_Some].
Qed.

(** The names that are walked: those of both directories, but for the shared
    ones. *)
Definition shared (t1 t2 : option node) (x : string) : Prop :=
  sameDev t1 t2 = true ∧ ∃ c d, lstat_child t1 x = Some c ∧ lstat_child t2 x = Some d ∧ Ino (stat c) = Ino (stat d).

Lemma shared_dec t1 t2 x : Decision (shared t1 t2 x).
Proof.
  unfold shared. destruct (sameDev t1 t2); [|right; naive_solver].
  destruct (lstat_child t1 x) as [c|]; [|right; naive_solver].
  destruct (lstat_child t2 x) as [d|]; [|right; naive_solver].
  destruct (decide (Ino (stat c) = Ino (stat d))); [left; eauto 10|right; naive_solver].
Qed.

Lemma walked_names t1 t2 x :
  wf_old t1 → wf_old t2 →
  NoDup (merge_names (sameDev t1 t2) (dir_names t1) (dir_names t2)) ∧
  (x ∈ merge_names (sameDev t1 t2) (dir_names t1) (dir_names t2) ↔
   (is_Some (lstat_child t1 x) ∨ is_Some (lstat_child t2 x)) ∧ ¬ shared t1 t2 x).
Proof.
  intros H1 H2. destruct (dir_names_spec t1 H1) as (S1 & N1 & E1). destruct (dir_names_spec t2 H2) as (S2 & N2 & E2).
  split; [by apply merge_names_NoDup|]. rewrite merge_names_elem by done.
  assert (Hn : ∀ t, (∀ x i, (x, i) ∈ dir_names t ↔ ∃ c, lstat_child t x = Some c ∧ i = Ino (stat c)) →
    x ∈ map fst (dir_names t) ↔ is_Some (lstat_child t x)).
  { intros t Et. rewrite list_elem_of_fmap. split.
    - intros ([y i] & -> & (c & Hc & _)%Et). eauto.
    - intros [c Hc]. exists (x, Ino (stat c)). split; [done|]. apply Et. eauto. }
  rewrite (Hn t1 E1), (Hn t2 E2). unfold shared. apply and_iff_compat_l, not_iff_compat, and_iff_compat_l.
  split.
  - intros (i & (c & Hc & ->)%E1 & (d & Hd & Hi)%E2). by exists c, d.
  - intros (c & d & Hc & Hd & Hi). exists (Ino (stat c)). split; [apply E1|apply E2]; [by exists c|by exists d].
Qed.

Lemma assoc_omap {A} (f : string → option A) names x :
  NoDup names → assoc x (omap (λ y, pair y <$> f y) names) = if decide (x ∈ names) then f x else None.
Proof.
  induction 1 as [|y names Hy Hn IH]; [done|]. csimpl. destruct (f y) as [a|] eqn:Ef; csimpl.
  - destruct (decide (y = x)) as [->|Hne].
    + rewrite decide_True by left. done.
    + rewrite IH. repeat case_decide; set_solver.
  - rewrite IH. repeat case_decide; set_solver.
Qed.

Lemma height_child n x c : assoc x (children n) = Some c → (height c < height n)%nat.
Proof.
  intros E%assoc_Some. destruct n as [st cap d kids]. cbn [children] in E. cbn [height children].
  apply Nat.lt_succ_r. induction kids as [|[y e] kids IH]; [by apply elem_of_nil in E|].
  apply elem_of_cons in E as [[= <- <-]|E]; [lia|]. specialize (IH E). lia.
Qed.

(** What is below both trees of a pair is the same as soon as it has the same
    inode on the same device. *)
Definition same_inode_same_tree (t1 t2 : option node) : Prop :=
  ∀ p a b x c d, old_at t1 p = Some a → old_at t2 p = Some b →
    Dev (stat a) = Dev (stat b) → assoc x (children a) = Some c → assoc x (children b) = Some d →
    Ino (stat c) = Ino (stat d) → c = d.

Definition opt_height (t : option node) : nat := match t with Some n => height n | None => O end.

Lemma lstat_child_height t x : (opt_height (lstat_child t x) ≤ pred (opt_height t))%nat.
Proof.
  unfold lstat_child. destruct t as [n|]; [|done]. destruct (IsDir _); [|simpl; lia].
  destruct (assoc x (children n)) eqn:E; [|simpl; lia]. apply height_child in E. simpl. lia.
Qed.

Lemma lstat_child_wf_old t x : wf_old t → wf_old (lstat_child t x).
Proof.
  intros Ht c. unfold lstat_child. destruct t as [n|]; [|done]. destruct (IsDir _); [|done].
  intros E. eapply wf_child; [by apply Ht|done].
Qed.

Lemma lstat_child_shared t1 t2 x :
  same_inode_same_tree t1 t2 → same_inode_same_tree (lstat_child t1 x) (lstat_child t2 x).
Proof.
  intros H p a b y c d Ha Hb. unfold lstat_child in Ha, Hb.
  destruct t1 as [n1|], t2 as [n2|]; try (by repeat case_match).
  destruct (IsDir (Some n1)), (IsDir (Some n2)); try (by repeat case_match).
  apply (H (x :: p)); cbn [old_at tree_at] in *; by repeat case_match.
Qed.

(** What the walk registers: the same node with the walked children. *)
Lemma walk_shape fuel t1 t2 :
  (0 < fuel)%nat → ∃ k1 k2, walk_trees fuel t1 t2 = (register t1 k1, register t2 k2).
Proof. destruct fuel; [lia|]. intros _. cbn [walk_trees]. destruct (_ && _); eauto. Qed.

Definition walked (t1 t2 : option node) : list string :=
  merge_names (sameDev t1 t2) (dir_names t1) (dir_names t2).

Lemma walk_children fuel t1 t2 o' n' x :
  wf_old t1 → wf_old t2 → walk_trees (S fuel) t1 t2 = (o', n') →
  let sub := walk_trees fuel (lstat_child t1 x) (lstat_child t2 x) in
  (∀ o, o' = Some o → assoc x (children o) = if decide (x ∈ walked t1 t2) then sub.1 else None) ∧
  (∀ n, n' = Some n → assoc x (children n) = if decide (x ∈ walked t1 t2) then sub.2 else None) ∧
  (∀ o, o' = Some o → NoDup (map fst (children o)) ∧ ∀ y, y ∈ map fst (children o) → y ∈ walked t1 t2) ∧
  (∀ n, n' = Some n → NoDup (map fst (children n)) ∧ ∀ y, y ∈ map fst (children n) → y ∈ walked t1 t2).
Proof.
  intros H1 H2 Hw sub. destruct (walked_names t1 t2 x H1 H2) as [Hnd _].
  assert (Hnames : ∀ (f : string → option node) l, NoDup l →
    NoDup (map fst (omap (λ y, pair y <$> f y) l)) ∧ ∀ y, y ∈ map fst (omap (λ y, pair y <$> f y) l) → y ∈ l).
  { intros f l Hl. induction Hl as [|y l Hy Hl [IH1 IH2]]; [split; [constructor|set_solver]|].
    csimpl. destruct (f y); csimpl; [|split; [done|set_solver]]. split; [constructor; [by intros ?%IH2|done]|].
    intros z [->|?]%elem_of_cons; [left|right; auto]. }
  cbn [walk_trees] in Hw. destruct (negb (IsDir t1) && negb (IsDir t2)) eqn:Ed.
  - apply andb_true_iff in Ed as [E1%negb_true_iff E2%negb_true_iff].
    assert (Hnil : walked t1 t2 = []).
    { unfold walked, dir_names. rewrite E1, E2. by destruct t1, t2. }
    injection Hw as <- <-. rewrite Hnil.
    split_and!; intros m; [destruct t1|destruct t2|destruct t1|destruct t2]; simpl; intros [= <-]; try done;
      (split; [constructor|set_solver]).
  - injection Hw as <- <-. fold (walked t1 t2) in Hnd |- *.
    split_and!; intros m; [destruct t1|destruct t2|destruct t1|destruct t2]; simpl; intros [= <-]; cbn [children];
      [by rewrite assoc_omap|by rewrite assoc_omap|by apply Hnames|by apply Hnames].
Qed.

Lemma lstat_child_ok t x : wf_old t → is_Some (lstat_child t x) → name_ok x ∧ IsDir t = true.
Proof.
  intros Ht [c Hc]. unfold lstat_child in Hc. destruct t as [n|]; [|done].
  destruct (IsDir (Some n)) eqn:Ed; [|done]. split; [|done]. eapply wf_child; [by apply Ht|done].
Qed.

Lemma walk_some_1 fuel t1 t2 c : (walk_trees fuel t1 t2).1 = Some c → is_Some t1 ∧ ∃ k, register t1 k = Some c.
Proof.
  destruct fuel; [done|]. destruct (walk_shape (S fuel) t1 t2 ltac:(lia)) as (k1 & k2 & ->). simpl.
  intros E. destruct t1; [eauto|done].
Qed.

Lemma walk_some_2 fuel t1 t2 c : (walk_trees fuel t1 t2).2 = Some c → is_Some t2 ∧ ∃ k, register t2 k = Some c.
Proof.
  destruct fuel; [done|]. destruct (walk_shape (S fuel) t1 t2 ltac:(lia)) as (k1 & k2 & ->). simpl.
  intros E. destruct t2; [eauto|done].
Qed.

Lemma walk_wf fuel : ∀ t1 t2 o' n',
  wf_old t1 → wf_old t2 → walk_trees fuel t1 t2 = (o', n') → wf_old o' ∧ wf_old n'.
Proof.
  induction fuel as [|fuel IH]; intros t1 t2 o' n' H1 H2 Hw; [by injection Hw as <- <-|].
  assert (Hsub : ∀ x, wf_old (walk_trees fuel (lstat_child t1 x) (lstat_child t2 x)).1 ∧
                      wf_old (walk_trees fuel (lstat_child t1 x) (lstat_child t2 x)).2).
  { intros x. destruct (walk_trees fuel _ _) as [a b] eqn:E.
    eapply IH; [..|exact E]; by apply lstat_child_wf_old. }
  assert (Hok : ∀ y, y ∈ walked t1 t2 → name_ok y).
  { intros y Hy. apply (walked_names t1 t2 y H1 H2) in Hy as [[Hy|Hy] _];
      [by apply (lstat_child_ok t1)|by apply (lstat_child_ok t2)]. }
  destruct (walk_shape (S fuel) t1 t2 ltac:(lia)) as (k1 & k2 & Hs). rewrite Hs in Hw. injection Hw as <- <-.
  pose proof (λ x, walk_children fuel t1 t2 _ _ x H1 H2 Hs) as HC. clear Hs. split.
  - intros o Ho. destruct (HC "") as (_ & _ & HN & _). destruct (HN o Ho) as [Hnd Hin].
    assert (Hch : ∀ x c, (x, c) ∈ children o → (walk_trees fuel (lstat_child t1 x) (lstat_child t2 x)).1 = Some c).
    { intros x c Hc%(assoc_elem _ _ _ Hnd). destruct (HC x) as (E & _). rewrite (E o Ho) in Hc. by case_decide. }
    constructor; [done|by apply Forall_forall; auto| |].
    + intros [[x c] Hc]%not_nil_elem. apply Hch, walk_some_1 in Hc as [Hx _].
      apply (lstat_child_ok t1) in Hx as [_ Hd]; [|done]. destruct t1 as [n1|]; [|done].
      injection Ho as <-. by apply N.eqb_eq.
    + intros x c Hc%Hch. by apply (proj1 (Hsub x)).
  - intros o Ho. destruct (HC "") as (_ & _ & _ & HN). destruct (HN o Ho) as [Hnd Hin].
    assert (Hch : ∀ x c, (x, c) ∈ children o → (walk_trees fuel (lstat_child t1 x) (lstat_child t2 x)).2 = Some c).
    { intros x c Hc%(assoc_elem _ _ _ Hnd). destruct (HC x) as (_ & E & _). rewrite (E o Ho) in Hc. by case_decide. }
    constructor; [done|by apply Forall_forall; auto| |].
    + intros [[x c] Hc]%not_nil_elem. apply Hch, walk_some_2 in Hc as [Hx _].
      apply (lstat_child_ok t2) in Hx as [_ Hd]; [|done]. destruct t2 as [n2|]; [|done].
      injection Ho as <-. by apply N.eqb_eq.
    + intros x c Hc%Hch. by apply (proj2 (Hsub x)).
Qed.

Lemma child_changes_iff pre n n' old old' c :
  child_flag old' n' = child_flag old n → is_Some old' ↔ is_Some old →
  (∀ added, c ∈ addChanges (abs_path pre) false added n' old' ↔ c ∈ addChanges (abs_path pre) false added n old) →
  c ∈ child_changes pre n' old' ↔ c ∈ child_changes pre n old.
Proof.
  intros Hf Hs Hadd. unfold child_changes. destruct old as [o|], old' as [o'|].
  - cbn [child_flag] in Hf. cbv zeta. by rewrite Hf, !elem_of_app, Hadd.
  - destruct (proj2 Hs); eauto; done.
  - destruct (proj1 Hs); eauto; done.
  - apply Hadd.
Qed.

Lemma register_flag old k n j n' :
  register (Some n) j = Some n' → child_flag (register old k) n' = child_flag old n.
Proof. intros [= <-]. by destruct old. Qed.

Lemma register_Some t k : is_Some (register t k) ↔ is_Some t.
Proof. destruct t; split; intros [? ?]; eauto; done. Qed.

(** Comparing the walked trees finds what comparing the full trees finds. *)
Lemma walk_changes fuel : ∀ old n o' n' pre root added c,
  wf_old old → wf_tree n → same_inode_same_tree old (Some n) → Forall name_ok pre →
  (Nat.max (opt_height old) (height n) < fuel)%nat →
  walk_trees fuel old (Some n) = (o', Some n') →
  c ∈ addChanges (abs_path pre) root added n' o' ↔ c ∈ addChanges (abs_path pre) root added n old.
Proof.
  induction fuel as [|fuel IH]; intros old n o' n' pre root added c Hold Hn Hsh Hpre Hf Hw; [lia|].
  assert (Hn2 : wf_old (Some n)) by (by intros ? [= <-]).
  destruct (walk_wf _ _ _ _ _ Hold Hn2 Hw) as [Ho' Hn'].
  specialize (Hn' n' eq_refl).
  pose proof (λ x, walk_children fuel old (Some n) _ _ x Hold Hn2 Hw) as HC.
  destruct (walk_shape (S fuel) old (Some n) ltac:(lia)) as (k1 & k2 & Hs). rewrite Hw in Hs.
  injection Hs as -> En'.
  assert (Hst : stat n' = stat n) by (by simplify_eq/=).
  (* the children of the two new nodes, and of the two old nodes *)
  set (L1 x := lstat_child old x). set (L2 x := lstat_child (Some n) x).
  set (sub x := walk_trees fuel (L1 x) (L2 x)).
  assert (Hshape : ∀ x, ∃ j1 j2, sub x = (register (L1 x) j1, register (L2 x) j2) ∨ (L1 x = None ∧ L2 x = None)).
  { intros x. destruct fuel as [|fuel'].
    - exists [], []. right. pose proof (lstat_child_height old x) as A. pose proof (lstat_child_height (Some n) x) as B.
      unfold L1, L2. assert (height n = 0%nat) by lia. destruct n; done.
    - destruct (walk_shape (S fuel') (L1 x) (L2 x) ltac:(lia)) as (j1 & j2 & E). exists j1, j2. by left. }
  assert (HL2 : ∀ x, L2 x = assoc x (children n)) by (intros x; by apply lstat_child_wf).
  assert (HLold : ∀ x, assoc x (old_children root n old) = if root || mode_isDir (stat n) then L1 x else None).
  { intros x. unfold old_children, L1. destruct old as [o|]; [|by destruct (_ || _)].
    destruct (_ || _); [|done]. symmetry. by apply lstat_child_wf, Hold. }
  assert (Hwalked : ∀ x, x ∈ walked old (Some n) ↔ (is_Some (L1 x) ∨ is_Some (L2 x)) ∧ ¬ shared old (Some n) x).
  { intros x. by apply walked_names. }
  assert (HN' : ∀ x, assoc x (children n') = if decide (x ∈ walked old (Some n)) then (sub x).2 else None).
  { intros x. by apply (HC x). }
  assert (HO' : ∀ x, assoc x (old_children root n' (register old k1)) =
    if root || mode_isDir (stat n) then if decide (x ∈ walked old (Some n)) then (sub x).1 else None else None).
  { intros x. unfold old_children. rewrite Hst. destruct (HC x) as (E & _).
    destruct (register old k1) as [o|] eqn:Eo.
    - destruct (_ || _); [|done]. by apply E.
    - destruct old; [done|]. destruct (_ || _); [|done]. case_decide; [|done].
      destruct (Hshape x) as (j1 & j2 & [->|[_ E2]]); [done|].
      apply Hwalked in H as [[[? ?]|[? ?]] _]; [done|congruence]. }
  assert (Hkid : ∀ c x m, L2 x = Some m → x ∈ walked old (Some n) → ∃ m', assoc x (children n') = Some m' ∧
    (c ∈ child_changes (pre ++ [x]) m' (assoc x (old_children root n' (register old k1))) ↔
     c ∈ child_changes (pre ++ [x]) m (assoc x (old_children root n old)))).
  { clear c. intros c x m Hm Hx. rewrite HN', HO', HLold, !decide_True by done.
    rewrite HL2 in Hm. destruct (wf_child _ _ _ Hn Hm) as (Hwm & Hxok & Hdir). rewrite <-HL2 in Hm.
    apply is_directory_mode in Hdir as [-> _]. rewrite orb_true_r.
    destruct (Hshape x) as (j1 & j2 & [Es|[_ ?]]); [|congruence]. rewrite Hm in Es.
    exists (mkNode (stat m) (capability m) (data m) j2). rewrite Es. split; [done|]. cbn [fst].
    apply child_changes_iff; [by eapply register_flag|apply register_Some|]. intros a.
    apply (IH (L1 x) m); [by apply lstat_child_wf_old|done| |apply Forall_app; auto| |].
    - rewrite <-Hm. by apply lstat_child_shared.
    - pose proof (lstat_child_height old x) as A. pose proof (lstat_child_height (Some n) x) as B.
      fold (L1 x) in A. fold (L2 x) in B. rewrite Hm in B. cbn [opt_height] in B.
      destruct n as [? ? ? kids]. cbn [height] in *. lia.
    - rewrite <-Hm. exact Es. }
  assert (Hsome : ∀ x, x ∈ walked old (Some n) →
    (is_Some (sub x).1 ↔ is_Some (L1 x)) ∧ (is_Some (sub x).2 ↔ is_Some (L2 x))).
  { intros x Hx. destruct (Hshape x) as (j1 & j2 & [->|[E1 E2]]); [split; apply register_Some|].
    apply Hwalked in Hx as [[[? ?]|[? ?]] _]; congruence. }
  assert (Hinner : ∀ c, c ∈ inner_changes pre root n' (register old k1) ↔ c ∈ inner_changes pre root n old).
  { clear c. intros c. rewrite !elem_inner by done. split.
    - intros [(x & m' & Hm' & Hin)|(x & o & Ho & Hx & ->)].
      + left. pose proof Hm' as E. rewrite HN' in E. case_decide as Hw'; [|done].
        assert (is_Some (L2 x)) as [m Hm] by (apply (Hsome x Hw'); eauto).
        destruct (Hkid c x m Hm Hw') as (m'' & Em & Hiff). rewrite Hm' in Em. injection Em as <-.
        exists x, m. rewrite <-HL2. split; [done|]. by apply Hiff.
      + right. rewrite HO' in Ho. rewrite HN' in Hx. destruct (root || mode_isDir (stat n)) eqn:Ed; [|done].
        case_decide as Hw'; [|done]. destruct (Hsome x Hw') as [H1 H2].
        assert (is_Some (L1 x)) as [o1 Ho1] by (apply H1; eauto).
        exists x, o1. rewrite HLold, ?Ed, <-HL2. split_and!; [done| |done].
        destruct (L2 x); [|done]. destruct (proj2 H2) as [? E]; [eauto|]. by rewrite Hx in E.
    - intros [(x & m & Hm & Hin)|(x & o & Ho & Hx & ->)].
      + left. rewrite <-HL2 in Hm. destruct (decide (x ∈ walked old (Some n))) as [Hw'|Hw'].
        * destruct (Hkid c x m Hm Hw') as (m' & Em & Hiff). exists x, m'. split; [done|]. by apply Hiff.
        * exfalso. destruct (wf_child _ _ _ Hn (eq_trans (eq_sym (HL2 x)) Hm)) as (Hwm & Hxok & Hdir).
          apply is_directory_mode in Hdir as [Ed _].
          assert (Hshared : ∃ d, L1 x = Some d ∧ d = m).
          { destruct (shared_dec old (Some n) x) as [(Hdev & d & e & Hd & He & Hi)|Hns].
            - exists d. split; [done|]. fold (L2 x) in He. rewrite Hm in He. injection He as <-.
              unfold sameDev in Hdev. destruct old as [o|]; [|done].
              eapply (Hsh [] o n x d m); [done|done|by apply N.eqb_eq| | |done].
              + by rewrite <-lstat_child_wf by (by apply Hold).
              + by rewrite <-HL2.
            - destruct Hw'. apply Hwalked. split; [right; eauto|done]. }
          destruct Hshared as (d & Hd & ->). rewrite HLold, Ed, orb_true_r, Hd in Hin.
          rewrite child_same in Hin; [by apply elem_of_nil in Hin|done|apply Forall_app; auto].
      + right. rewrite HLold in Ho. rewrite <-HL2 in Hx. destruct (root || mode_isDir (stat n)) eqn:Ed; [|done].
        assert (Hw' : x ∈ walked old (Some n)).
        { apply Hwalked. split; [left; eauto|]. intros (_ & a & b & _ & Hb & _). unfold L2 in Hx. congruence. }
        destruct (Hsome x Hw') as [H1 H2]. destruct (proj2 H1) as [o1 Ho1]; [eauto|].
        exists x, o1. rewrite HO', HN', ?Ed, !decide_True by done. split_and!; [done| |done].
        destruct (sub x).2; [|done]. destruct (proj1 H2) as [? E]; [eauto|]. by rewrite Hx in E. }
  rewrite !elem_addChanges by done. rewrite Hinner, Hst.
  assert (Hnil : inner_changes pre root n' (register old k1) ≠ [] ↔ inner_changes pre root n old ≠ []).
  { split; intros [d Hd]%not_nil_elem E; apply Hinner in Hd; rewrite E in Hd; by apply elem_of_nil in Hd. }
  destruct old as [o|]; cbn [register]; [|done]. cbn [register] in Hnil. by rewrite Hnil.
Qed.

Lemma prunes_perm new old :
  wf_tree new → wf_tree old → same_inode_same_tree (Some old) (Some new) →
  ChangesDirs new old ≡ₚ Changes new old.
Proof.
  intros Hnew Hold Hsh. unfold ChangesDirs, collectFileInfoForChanges.
  set (fuel := S (Nat.max (height old) (height new))).
  destruct (walk_shape fuel (Some old) (Some new) ltac:(unfold fuel; lia)) as (k1 & k2 & Hw).
  destruct (walk_wf _ _ _ _ _ (wf_old_Some _ Hold) (wf_old_Some _ Hnew) Hw) as [Ho Hn].
  rewrite Hw. cbn [register] in *.
  apply NoDup_Permutation.
  - apply (addChanges_NoDup _ (Hn _ eq_refl) []); [constructor|done].
  - apply (addChanges_NoDup _ Hnew []); [constructor|by apply wf_old_Some].
  - intros c. eapply (walk_changes fuel (Some old) new _ _ [] true false c (wf_old_Some _ Hold) Hnew Hsh);
      [constructor| |exact Hw]. unfold fuel. cbn [opt_height]. lia.
Qed.

(** C31: The walk that leaves out the subtrees that two directories share, by
    device and inode, finds the same changes as the comparison of the full
    trees, as long as the same inode on the same device is the same tree. *)
Theorem ChangesDirs_prunes new old :
  wf_tree new → wf_tree old → same_inode_same_tree (Some old) (Some new) →
  ChangesDirs new old ≡ₚ Changes new old.
Proof. apply prunes_perm. Qed.

Lemma LookUp_elements_names n p : Forall name_ok p → LookUp_elements n p = tree_at n p.
Proof.
  intros Hp. revert n. induction Hp as [|x p (Hx & _) Hp IH]; intros n; [done|].
  cbn [LookUp_elements tree_at]. rewrite decide_False by done. by destruct (assoc x (children n)).
Qed.

(** [LookUp] finds what is at a path. *)
Lemma LookUp_tree_at n p : Forall name_ok p → LookUp n (abs_path p) = tree_at n p.
Proof.
  intros Hp. unfold LookUp. case_decide as E.
  { apply (abs_path_inj p []) in E as ->; [done|done|constructor]. }
  change (abs_path p) with ("" +:+ String sep (Join "/" p)). rewrite Split_concat.
  destruct p as [|x p]; [done|]. rewrite Split_Join by eauto using name_ok_nosep.
  rewrite <-LookUp_elements_names by done. done.
Qed.
