(* ===== verification/Tar.v ===== *)
(** * Archives of file trees

    The headers of a tar archive, the disk they are written to and read from,
    and the functions of pkg/archive/archive.go and archive_unix.go that turn a
    file into a header ([addTarFile]) and a header into a file
    ([createTarFile]); the export of a list of changes (changes.go,
    [ExportChanges]).

    A disk maps the absolute path of every file to its entry.  How the kernel
    finds the place that a path names is a parameter ([Kernel]): the model of
    the functions says which system calls are made on which paths, and the
    theorems only use the laws [KernelLaws], that a path through directories is
    the place it says, that a path through a file is refused, and that the file
    system keeps extended attributes.  Opening and
    creating files does not fail for want of space or permission.  The
    modification times that the kernel gives to directories when their contents
    change are not kept. *)

From S2P Require Import Prelude GoStrings IdTools Filepath Symlink Changes.
Local Open Scope N_scope.

(** ** The disk *)

Record entry := mkEntry { e_stat : Stat; e_cap : option string; e_opaque : bool; e_data : string }.

Abbreviation Disk := (gmap (list string) entry).

Definition file_type (s : Stat) : N := N.land (Mode s) S_IFMT.
Definition entry_dir (e : entry) : bool := file_type (e_stat e) =? S_IFDIR.
Definition entry_symlink (e : entry) : bool := file_type (e_stat e) =? S_IFLNK.

Definition ENOTDIR : oserr := OSError "ENOTDIR".
Definition EEXIST : oserr := OSError "EEXIST".
Definition ENOTSUP : oserr := OSError "ENOTSUP".

(** [namei d p]: the place that the path [p] names, its last element not
    followed when it is a link; an error when a directory on the way is
    missing or no directory.  [follow] follows the last element too.  [cwd] is
    the current directory of the daemon, [alloc] the device and inode of the
    next new file, [setxattr] the error of setting an extended attribute at a
    place, if any. *)
Record Kernel := mkKernel {
  namei : Disk → list string → outcome oserr (list string);
  follow : Disk → list string → outcome oserr (list string);
  cwd : string;
  alloc : Disk → N * N;
  setxattr : Disk → list string → option oserr
}.

(** The directories that a path goes through. *)
Definition through_dirs (d : Disk) (p : list string) : Prop :=
  ∀ q x r, p = q ++ x :: r → ∃ e, d !! q = Some e ∧ entry_dir e = true.

(** The path goes through directories down to [q], which is there and is
    neither a directory nor a link. *)
Definition through_file (d : Disk) (p : list string) : Prop :=
  ∃ q x r e, p = q ++ x :: r ∧ through_dirs d q ∧ d !! q = Some e ∧
    entry_dir e = false ∧ entry_symlink e = false.

Class KernelLaws (K : Kernel) := {
  namei_dirs d p : through_dirs d p → namei K d p = Ok p;
  namei_file d p : through_file d p → namei K d p = Err ENOTDIR;
  follow_plain_file d p q e :
    namei K d p = Ok q → d !! q = Some e → entry_symlink e = false → follow K d p = Ok q;
  setxattr_works d p : setxattr K d p = None
}.

(** A kernel that satisfies the laws: it follows no link at all (as openat2 with
    RESOLVE_NO_SYMLINKS does). *)
Fixpoint walk_dirs (d : Disk) (at_ rest : list string) : outcome oserr unit :=
  match rest with
  | [] => Ok tt
  | x :: rest' =>
      match d !! at_ with
      | None => Err NotExist
      | Some e => if entry_dir e then walk_dirs d (at_ ++ [x]) rest'
                  else Err (if entry_symlink e then OSError "ELOOP" else ENOTDIR)
      end
  end.

Definition flat_namei (d : Disk) (p : list string) : outcome oserr (list string) :=
  match walk_dirs d [] p with Ok _ => Ok p | Err e => Err e | Panic m => Panic m end.

Definition flat_kernel (dir : string) : Kernel :=
  mkKernel flat_namei
    (λ d p, match flat_namei d p with
            | Ok q => match d !! q with
                      | Some e => if entry_symlink e then Err (OSError "ELOOP") else Ok q
                      | None => Ok q
                      end
            | r => r
            end)
    dir (λ d, (0, N.of_nat (size d))) (λ _ _, None).

Lemma walk_dirs_through d rest : ∀ at_,
  (∀ q x r, rest = q ++ x :: r → ∃ e, d !! (at_ ++ q) = Some e ∧ entry_dir e = true) →
  walk_dirs d at_ rest = Ok tt.
Proof.
  induction rest as [|x rest IH]; intros at_ H; [done|]. cbn [walk_dirs].
  destruct (H [] x rest eq_refl) as (e & He & Hd). rewrite app_nil_r in He. rewrite He, Hd.
  apply IH. intros q y r ->. rewrite <-app_assoc. by apply (H (x :: q) y r).
Qed.

Lemma walk_dirs_stops d q : ∀ at_ x r e,
  (∀ q1 y q2, q = q1 ++ y :: q2 → ∃ e, d !! (at_ ++ q1) = Some e ∧ entry_dir e = true) →
  d !! (at_ ++ q) = Some e → entry_dir e = false → entry_symlink e = false →
  walk_dirs d at_ (q ++ x :: r) = Err ENOTDIR.
Proof.
  induction q as [|y q IH]; intros at_ x r e H He Hd Hs; cbn [walk_dirs app].
  - rewrite app_nil_r in He. by rewrite He, Hd, Hs.
  - destruct (H [] y q eq_refl) as (e' & He' & Hd'). rewrite app_nil_r in He'. rewrite He', Hd'.
    apply (IH _ x r e); [|by rewrite <-app_assoc|done|done].
    intros q1 z q2 ->. rewrite <-app_assoc. by apply (H (y :: q1) z q2).
Qed.

#[global] Instance flat_kernel_laws dir : KernelLaws (flat_kernel dir).
Proof.
  split; cbn [namei follow flat_kernel].
  - intros d p H. unfold flat_namei. by rewrite (walk_dirs_through d p []) by exact H.
  - intros d p (q & x & r & e & -> & H & He & Hd & Hs). unfold flat_namei.
    by rewrite (walk_dirs_stops d q [] x r e) by done.
  - intros d p q e -> -> Hs. by rewrite Hs.
  - done.
Qed.

(** ** System calls *)

Inductive unpackError :=
| Breakout (what : string)
| UnhandledType
| InvalidAufsHardlink
| CannotOverwrite (path : string)
| RelFailed
| UnpackOS (e : oserr)
| UnpackId (e : IdTools.error).

Section calls.
Context (K : Kernel).

(** Calls are given absolute paths as strings. *)
Definition sys_lstat (d : Disk) (path : string) : outcome oserr entry :=
  match namei K d (elements path) with
  | Ok q => match d !! q with Some e => Ok e | None => Err NotExist end
  | Err e => Err e
  | Panic m => Panic m
  end.

Abbreviation IO := (ST Disk unpackError).

Definition os_fail {A} (e : oserr) : IO A := st_fail (UnpackOS e).

Definition place (path : string) : IO (list string) := λ d,
  match namei K d (elements path) with
  | Ok q => (Ok q, d)
  | Err e => (Err (UnpackOS e), d)
  | Panic m => (Panic m, d)
  end.

(** A new entry at a path where there is none: mkdir, mknod, symlink, link. *)
Definition create (path : string) (e : Disk → entry) : IO unit :=
  q ← place path;
  d ← st_get;
  match d !! q with
  | Some _ => os_fail EEXIST
  | None => st_put (<[q := e d]> d)
  end.

Definition new_stat (own : Z * Z) (d : Disk) (mode rdev : N) (size : Z) : Stat :=
  mkStatT mode own.1 own.2 rdev (0, 0)%Z size (alloc K d).1 (alloc K d).2 1.

(** The daemon runs as root. *)
Definition root_owner : Z * Z := (0, 0)%Z.

(** A directory that belongs to [own]. *)
Definition mkdir_as (own : Z * Z) (path : string) (perm : N) : IO unit :=
  create path (λ d, mkEntry (new_stat own d (N.lor S_IFDIR perm) 0 0) None false "").

Definition Mkdir (path : string) (perm : N) : IO unit := mkdir_as root_owner path perm.

Definition Mknod (path : string) (mode dev : N) : IO unit :=
  create path (λ d, mkEntry (new_stat root_owner d mode dev 0) None false "").

Definition os_Symlink (linkname path : string) : IO unit :=
  create path (λ d, mkEntry (new_stat root_owner d (N.lor S_IFLNK 0x1FF) 0 (Z.of_nat (String.length linkname))) None false linkname).

(** The new name has the entry of the file it is linked to. *)
Definition Link (target path : string) : IO unit :=
  t ← place target;
  d ← st_get;
  match d !! t with
  | None => os_fail NotExist
  | Some e => create path (λ _, e)
  end.

(** [os.OpenFile(path, O_CREATE|O_WRONLY, perm)] and a copy of the content: the
    content replaces the beginning of an existing file. *)
Definition WriteFile (path : string) (perm : N) (content : string) : IO unit :=
  q ← place path;
  d ← st_get;
  match d !! q with
  | None => st_put (<[q := mkEntry (new_stat root_owner d (N.lor S_IFREG perm) 0 (Z.of_nat (String.length content)))
                             None false content]> d)
  | Some e =>
      if entry_dir e then os_fail (OSError "EISDIR")
      else
        let data' := content +:+ drop_bytes (String.length content) (e_data e) in
        let s := e_stat e in
        st_put (<[q := mkEntry (mkStatT (Mode s) (UID s) (GID s) (Rdev s) (Mtim s) (Z.of_nat (String.length data'))
                                  (Dev s) (Ino s) (Nlink s)) (e_cap e) (e_opaque e) data']> d)
  end.

(** [os.RemoveAll]: nothing to do when there is nothing, or no directory on the
    way. *)
Definition below (q k : list string) : bool := bool_decide (take (length q) k = q).

Definition RemoveAll (path : string) : IO unit := λ d,
  match namei K d (elements path) with
  | Ok q => (Ok tt, filter (λ kv, below q kv.1 = false) d)
  | Err NotExist => (Ok tt, d)
  | Err (OSError m) => if decide (m = "ENOTDIR") then (Ok tt, d) else (Err (UnpackOS (OSError m)), d)
  | Panic m => (Panic m, d)
  end.

(** Changes of the status of an entry, at the place [q]. *)
Definition update_at (q : outcome oserr (list string)) (f : entry → entry) : IO unit := λ d,
  match q with
  | Ok q => match d !! q with
            | Some e => (Ok tt, <[q := f e]> d)
            | None => (Err (UnpackOS NotExist), d)
            end
  | Err e => (Err (UnpackOS e), d)
  | Panic m => (Panic m, d)
  end.

Definition set_owner (uid gid : Z) (e : entry) : entry :=
  let s := e_stat e in
  mkEntry (mkStatT (Mode s) uid gid (Rdev s) (Mtim s) (Size s) (Dev s) (Ino s) (Nlink s)) (e_cap e) (e_opaque e) (e_data e).

Definition set_perm (perm : N) (e : entry) : entry :=
  let s := e_stat e in
  mkEntry (mkStatT (N.lor (file_type s) perm) (UID s) (GID s) (Rdev s) (Mtim s) (Size s) (Dev s) (Ino s) (Nlink s))
    (e_cap e) (e_opaque e) (e_data e).

Definition set_mtime (t : Z * Z) (e : entry) : entry :=
  let s := e_stat e in
  mkEntry (mkStatT (Mode s) (UID s) (GID s) (Rdev s) t (Size s) (Dev s) (Ino s) (Nlink s)) (e_cap e) (e_opaque e) (e_data e).

Definition set_cap (c : string) (e : entry) : entry :=
  mkEntry (e_stat e) (Some c) (e_opaque e) (e_data e).

Definition set_opaque (e : entry) : entry := mkEntry (e_stat e) (e_cap e) true (e_data e).

(** [os.MkdirAll]: the missing directories of the path, from the root on. *)
Fixpoint mkdir_prefixes (own : Z * Z) (perm : N) (done rest : list string) : IO unit :=
  match rest with
  | [] => mret tt
  | x :: rest' =>
      let p := done ++ [x] in
      d ← st_get;
      match follow K d p with
      | Ok q =>
          match d !! q with
          | Some e => if entry_dir e then mkdir_prefixes own perm p rest' else os_fail ENOTDIR
          | None => mkdir_as own (abs_path p) perm;; mkdir_prefixes own perm p rest'
          end
      | Err NotExist => mkdir_as own (abs_path p) perm;; mkdir_prefixes own perm p rest'
      | Err e => os_fail e
      | Panic m => st_panic m
      end
  end.

Definition MkdirAll (path : string) (perm : N) : IO unit := mkdir_prefixes root_owner perm [] (elements path).

(** [idtools.MkdirAllNewAs]: the directories that are new get the owner. *)
Definition MkdirAllNewAs (path : string) (perm : N) (uid gid : Z) : IO unit :=
  mkdir_prefixes (uid, gid) perm [] (elements path).

Definition os_Lchown (path : string) (uid gid : Z) : IO unit := λ d,
  update_at (namei K d (elements path)) (set_owner uid gid) d.

Definition Lsetxattr_capability (path value : string) : IO unit := λ d,
  match namei K d (elements path) with
  | Ok q => match setxattr K d q with
            | Some e => (Err (UnpackOS e), d)
            | None => update_at (Ok q) (set_cap value) d
            end
  | r => update_at r (set_cap value) d
  end.

Definition LUtimes (path : string) (t : Z * Z) : IO unit := λ d,
  update_at (namei K d (elements path)) (set_mtime t) d.

Definition os_Chmod (path : string) (perm : N) : IO unit := λ d,
  update_at (follow K d (elements path)) (set_perm perm) d.

(** pkg/system/chtimes.go: the largest time of a 64-bit timespec, and a time
    before the epoch or after that one replaced by the epoch. *)
Definition unixMinTime : Z * Z := (0, 0)%Z.
Definition maxTime : Z * Z := (9223372036, 854775807)%Z.

Definition Before (t u : Z * Z) : bool := ((t.1 <? u.1) || ((t.1 =? u.1) && (t.2 <? u.2)))%Z.

Definition clampTime (t : Z * Z) : Z * Z := if Before t unixMinTime || Before maxTime t then unixMinTime else t.

Definition Chtimes (path : string) (t : Z * Z) : IO unit := λ d,
  update_at (follow K d (elements path)) (set_mtime (clampTime t)) d.

Definition Setxattr_opaque (path : string) : IO unit := λ d,
  update_at (follow K d (elements path)) set_opaque d.

Definition os_Chown (path : string) (uid gid : Z) : IO unit := λ d,
  update_at (follow K d (elements path)) (set_owner uid gid) d.

(** ** Headers *)

Inductive Typeflag :=
| TypeReg | TypeRegA | TypeLink | TypeSymlink | TypeChar | TypeBlock | TypeDir | TypeFifo
| TypeXGlobalHeader | TypeUnknown.
#[global] Instance Typeflag_dec : EqDecision Typeflag.
Proof. solve_decision. Defined.

(** [tar.Header]; the only extended attribute the code reads and writes is
    security.capability. *)
Record Header := mkHeader {
  Name : string; Flag : Typeflag; HMode : N; Uid : Z; Gid : Z; HSize : Z; ModTime : Z;
  Linkname : string; Devmajor : N; Devminor : N; Xattr : option string
}.

(** [hdrInfo.Mode()] as permission bits. *)
Definition header_perm (hdr : Header) : N := N.land (HMode hdr) 0xFFF.

(** archive_unix.go and pkg/system/mknod.go. *)
Definition major (device : N) : N := N.land (N.shiftr device 8) 0xFFF.
Definition minor (device : N) : N := N.lor (N.land device 0xFF) (N.land (N.shiftr device 12) 0xFFF00).
Definition Mkdev (maj min : N) : N :=
  N.land (N.lor (N.lor (N.shiftl (N.land min 0xFFF00) 12) (N.shiftl (N.land maj 0xFFF) 8)) (N.land min 0xFF)) 0xFFFFFFFF.

Definition handleTarTypeBlockCharFifo (hdr : Header) (path : string) : IO unit :=
  let mode := N.land (HMode hdr) 0xFFF in
  let mode := match Flag hdr with
              | TypeBlock => N.lor mode S_IFBLK
              | TypeChar => N.lor mode S_IFCHR
              | TypeFifo => N.lor mode S_IFIFO
              | _ => mode
              end in
  Mknod path mode (Mkdev (Devmajor hdr) (Devminor hdr)).

(** The test on the target of a hard link: [os.Lstat(hdr.Linkname)], a path
    that is relative to the current directory. *)
Definition linkname_plain (d : Disk) (hdr : Header) : bool :=
  match sys_lstat d (Abs (cwd K) (Linkname hdr)) with
  | Ok e => negb (entry_symlink e)
  | _ => false
  end.

Definition handleLChmod (hdr : Header) (path : string) : IO unit :=
  match Flag hdr with
  | TypeLink => d ← st_get; if linkname_plain d hdr then os_Chmod path (header_perm hdr) else mret tt
  | TypeSymlink => mret tt
  | _ => os_Chmod path (header_perm hdr)
  end.

(** The file itself. *)
Definition createNode (path extractDir : string) (hdr : Header) (content : string) : IO unit :=
  match Flag hdr with
  | TypeDir =>
      d ← st_get;
      match sys_lstat d path with
      | Ok e => if entry_dir e then mret tt else Mkdir path (header_perm hdr)
      | _ => Mkdir path (header_perm hdr)
      end
  | TypeReg | TypeRegA => WriteFile path (header_perm hdr) content
  | TypeBlock | TypeChar | TypeFifo => handleTarTypeBlockCharFifo hdr path
  | TypeLink =>
      let targetPath := PathJoin [extractDir; Linkname hdr] in
      if HasPrefix targetPath extractDir then Link targetPath path else st_fail (Breakout targetPath)
  | TypeSymlink =>
      let targetPath := PathJoin [Dir path; Linkname hdr] in
      if HasPrefix targetPath extractDir then os_Symlink (Linkname hdr) path else st_fail (Breakout path)
  | _ => st_fail UnhandledType
  end.

(** The attributes: a file system without them is not an error. *)
Definition setXattrs (path : string) (hdr : Header) : IO unit :=
  match Xattr hdr with
  | Some c => λ d, match Lsetxattr_capability path c d with
                   | (Err (UnpackOS e), d') => if decide (e = ENOTSUP) then (Ok tt, d') else (Err (UnpackOS e), d')
                   | r => r
                   end
  | None => mret tt
  end.

(** Its owner, its attributes, its mode and its times, in this order. *)
Definition setMetadata (path : string) (hdr : Header) (Lchown : bool) (chownOpts : option (Z * Z)) : IO unit :=
  (if Lchown then
     let own := default (Uid hdr, Gid hdr) chownOpts in os_Lchown path own.1 own.2
   else mret tt);;
  setXattrs path hdr;;
  handleLChmod hdr path;;
  match Flag hdr with
  | TypeLink => d ← st_get; if linkname_plain d hdr then Chtimes path (ModTime hdr, 0%Z) else mret tt
  | TypeSymlink => LUtimes path (ModTime hdr, 0%Z)
  | _ => Chtimes path (ModTime hdr, 0%Z)
  end.

Definition createTarFile (path extractDir : string) (hdr : Header) (content : string) (Lchown : bool)
    (chownOpts : option (Z * Z)) : IO unit :=
  if decide (Flag hdr = TypeXGlobalHeader) then mret tt
  else createNode path extractDir hdr content;; setMetadata path hdr Lchown chownOpts.

End calls.

(** ** Writing an archive *)

(** [tar.FileInfoHeader]: a socket has no header.  Times lose their fraction of
    a second in the archive. *)
Definition FileInfoHeader (n : node) : option Header :=
  let s := stat n in
  let hdr flag size link := Some (mkHeader "" flag (Mode s) (UID s) (GID s) size (Mtim s).1 link 0 0 None) in
  let t := file_type s in
  if t =? S_IFREG then hdr TypeReg (Size s) ""
  else if t =? S_IFDIR then hdr TypeDir 0%Z ""
  else if t =? S_IFLNK then hdr TypeSymlink 0%Z (data n)
  else if t =? S_IFBLK then hdr TypeBlock 0%Z ""
  else if t =? S_IFCHR then hdr TypeChar 0%Z ""
  else if t =? S_IFIFO then hdr TypeFifo 0%Z ""
  else None.

Definition canonicalTarName (name : string) (isDir : bool) : string :=
  if isDir && negb (ends_with sep name) then name +:+ "/" else name.

(** [tarAppender]: the names of the files with several links by inode, and the
    maps of identifiers. *)
Record tarAppender := mkAppender {
  SeenFiles : gmap N string; UIDMaps : option (list IDMap); GIDMaps : option (list IDMap)
}.

Definition WhiteoutPrefix : string := ".wh.".
Definition WhiteoutMetaPrefix : string := WhiteoutPrefix +:+ WhiteoutPrefix.
Definition WhiteoutLinkDir : string := WhiteoutMetaPrefix +:+ "plnk".
Definition WhiteoutOpaqueDir : string := WhiteoutMetaPrefix +:+ ".opq".

(** [addTarFile] of the file [n]: the header and the content that are written,
    [None] for an error, and the appender with the files seen. *)
Definition addTarFile (ta : tarAppender) (n : node) (name0 : string) : option (Header * string) * tarAppender :=
  let s := stat n in
  let isDir := file_type s =? S_IFDIR in
  match FileInfoHeader n with
  | None => (None, ta)
  | Some h =>
      let name := canonicalTarName name0 isDir in
      let special := negb (N.land (Mode s) S_IFBLK =? 0) || negb (N.land (Mode s) S_IFCHR =? 0) in
      let maj := if special then major (Rdev s) else 0 in
      let min := if special then minor (Rdev s) else 0 in
      let linked := negb isDir && (1 <? Nlink s) in
      let '(flag, link, size, seen) :=
        if linked then
          match SeenFiles ta !! Ino s with
          | Some oldpath => (TypeLink, oldpath, 0%Z, SeenFiles ta)
          | None => (Flag h, Linkname h, HSize h, <[Ino s := name]> (SeenFiles ta))
          end
        else (Flag h, Linkname h, HSize h, SeenFiles ta) in
      let ids :=
        if negb (HasPrefix (Base name) WhiteoutPrefix) &&
           (bool_decide (is_Some (UIDMaps ta)) || bool_decide (is_Some (GIDMaps ta)))
        then match ToContainer (UID s) (UIDMaps ta), ToContainer (GID s) (GIDMaps ta) with
             | Ok u, Ok g => Some (u, g)
             | _, _ => None
             end
        else Some (Uid h, Gid h) in
      let content := if decide (flag = TypeReg) then if (0 <? size)%Z then data n else "" else "" in
      (match ids with
       | None => None
       | Some (u, g) =>
           Some (mkHeader name flag (HMode h) u g size (ModTime h) link maj min (capability n), content)
       end, mkAppender seen (UIDMaps ta) (GIDMaps ta))
  end.

Definition change_le (a b : Change) : Prop := String.le (Path a) (Path b).
#[global] Instance change_le_dec a b : Decision (change_le a b).
Proof. unfold change_le. apply _. Defined.

(** The name of the whiteout of a deleted path. *)
Definition whiteout_name (path : string) : string :=
  drop_bytes 1 (PathJoin [Dir path; WhiteoutPrefix +:+ Base path]).

(** The loop of [ExportChanges]; [now] is the time of the whiteouts.  A file
    that cannot be added is skipped. *)
Fixpoint export_loop (dir : node) (now : Z) (ta : tarAppender) (changes : list Change) : list (Header * string) :=
  match changes with
  | [] => []
  | change :: rest =>
      if decide (Kind change = ChangeDelete) then
        (mkHeader (whiteout_name (Path change)) TypeRegA 0 0 0 0 now "" 0 0 None, "") :: export_loop dir now ta rest
      else
        match LookUp dir (Path change) with
        | Some n =>
            match addTarFile ta n (drop_bytes 1 (Path change)) with
            | (Some hc, ta') => hc :: export_loop dir now ta' rest
            | (None, ta') => export_loop dir now ta' rest
            end
        | None => export_loop dir now ta rest
        end
  end.

Definition ExportChanges (dir : node) (changes : list Change) (now : Z) (uidMaps gidMaps : option (list IDMap)) :
    list (Header * string) :=
  export_loop dir now (mkAppender ∅ uidMaps gidMaps) (merge_sort change_le changes).
