(* ===== verification/Unpack.v ===== *)
(** * Unpacking archives and layers

    pkg/archive/diff.go ([UnpackLayer]) and the unpacking of archive.go
    ([Unpack]), with the whiteouts of the layer format and their conversion to
    those of an overlay (archive_linux.go), on the disk of [Tar]. *)

From S2P Require Import Prelude GoStrings IdTools Filepath Symlink Changes Tar.

(** ** State and options *)

Record TarOptions := mkOptions {
  ExcludePatterns : list string;
  o_UIDMaps : option (list IDMap);
  o_GIDMaps : option (list IDMap);
  NoLchown : bool;
  ChownOpts : option (Z * Z);
  OverlayWhiteoutFormat : bool;
  NoOverwriteDirNonDir : bool
}.

(** The variables of [UnpackLayer] and the disk.  The files below
    WhiteoutLinkDir are kept in a temporary directory until the end: their
    headers and contents, by base name. *)
Record layer_state := mkLayer {
  l_disk : Disk;
  l_size : Z;
  l_dirs : list Header;
  l_unpacked : gset string;
  l_aufs : gmap string (Header * string)
}.

Abbreviation LIO := (ST layer_state unpackError).

(** A call on the disk. *)
Definition on_disk {A} (m : ST Disk unpackError A) : LIO A := λ s,
  let '(r, d) := m (l_disk s) in
  (r, mkLayer d (l_size s) (l_dirs s) (l_unpacked s) (l_aufs s)).

Definition set_size (f : Z → Z) (s : layer_state) : layer_state :=
  mkLayer (l_disk s) (f (l_size s)) (l_dirs s) (l_unpacked s) (l_aufs s).
Definition add_dir (h : Header) (s : layer_state) : layer_state :=
  mkLayer (l_disk s) (l_size s) (l_dirs s ++ [h]) (l_unpacked s) (l_aufs s).
Definition add_unpacked (p : string) (s : layer_state) : layer_state :=
  mkLayer (l_disk s) (l_size s) (l_dirs s) ({[p]} ∪ l_unpacked s) (l_aufs s).
Definition set_aufs (b : string) (hc : Header * string) (s : layer_state) : layer_state :=
  mkLayer (l_disk s) (l_size s) (l_dirs s) (l_unpacked s) (<[b := hc]> (l_aufs s)).

Definition with_name (h : Header) (name : string) : Header :=
  mkHeader name (Flag h) (HMode h) (Uid h) (Gid h) (HSize h) (ModTime h) (Linkname h) (Devmajor h) (Devminor h) (Xattr h).
Definition with_ids (h : Header) (uid gid : Z) : Header :=
  mkHeader (Name h) (Flag h) (HMode h) uid gid (HSize h) (ModTime h) (Linkname h) (Devmajor h) (Devminor h) (Xattr h).

Section unpack.
Context (K : Kernel).

(** The conversion of the identifiers of a header. *)
Definition map_id (id root : Z) (maps : option (list IDMap)) : outcome IdTools.error Z :=
  if decide (id = root) then Ok id else ToHost id maps.

Definition map_ids {S} (h : Header) (rootUID rootGID : Z) (uidMaps gidMaps : option (list IDMap)) :
    ST S unpackError Header :=
  match map_id (Uid h) rootUID uidMaps with
  | Ok u =>
      match map_id (Gid h) rootGID gidMaps with
      | Ok g => mret (with_ids h u g)
      | Err e => st_fail (UnpackId e)
      | Panic m => st_panic m
      end
  | Err e => st_fail (UnpackId e)
  | Panic m => st_panic m
  end.

(** Removing what an opaque directory hides: the files below [dir] that are not
    below a path unpacked before, as the walk finds them. *)
Definition keeps (dir : string) (unpacked : gset string) (rel : list string) : bool :=
  forallb (λ r, bool_decide (PathJoin (dir :: r) ∈ unpacked))
    (map (λ n, take n rel) (seq 1 (length rel))).

Definition remove_hidden (dir : string) : LIO unit := λ s,
  match namei K (l_disk s) (elements dir) with
  | Ok q =>
      match l_disk s !! q with
      | None => (Err (UnpackOS NotExist), s)
      | Some e =>
          if entry_dir e then
            (Ok tt, mkLayer (filter (λ kv, below q kv.1 = false ∨ keeps dir (l_unpacked s) (drop (length q) kv.1) = true)
                               (l_disk s))
                      (l_size s) (l_dirs s) (l_unpacked s) (l_aufs s))
          else (Ok tt, s)
      end
  | Err e => (Err (UnpackOS e), s)
  | Panic m => (Panic m, s)
  end.

(** The parent directory is made when it is missing. *)
Definition ensure_parent (mkdirAll : string → ST Disk unpackError unit) (dest name : string) : ST Disk unpackError unit :=
  if ends_with sep name then mret tt
  else
    let parentPath := PathJoin [dest; Dir name] in
    d ← st_get;
    match sys_lstat K d parentPath with
    | Err NotExist => mkdirAll parentPath
    | _ => mret tt
    end.

(** The path of an entry and the check that it does not leave [dest]. *)
Definition entry_path {S} (dest name : string) : ST S unpackError string :=
  let path := PathJoin [dest; name] in
  match Rel dest path with
  | None => st_fail RelFailed
  | Some rel => if HasPrefix rel "../" then st_fail (Breakout name) else mret path
  end.

(** A whiteout, given the path of its entry. *)
Definition apply_whiteout (path base : string) : LIO unit :=
  let dir := Dir path in
  if decide (base = WhiteoutOpaqueDir) then remove_hidden dir
  else on_disk (RemoveAll K (PathJoin [dir; drop_bytes (String.length WhiteoutPrefix) base])).

(** What is at the path goes, unless two directories are merged. *)
Definition clear_path (path : string) (flag : Typeflag) : ST Disk unpackError unit :=
  d ← st_get;
  match sys_lstat K d path with
  | Ok fi => if entry_dir fi && bool_decide (flag = TypeDir) then mret tt else RemoveAll K path
  | _ => mret tt
  end.

(** The header and the content of an entry: those kept for an AUFS hard link
    when it is one. *)
Definition layer_source (hdr : Header) (content : string) : LIO (option string * Header * string) :=
  if decide (Flag hdr = TypeLink ∧ HasPrefix (Clean (Linkname hdr)) WhiteoutLinkDir = true) then
    let linkBasename := Base (Linkname hdr) in
    s ← st_get;
    match l_aufs s !! linkBasename with
    | None => st_fail InvalidAufsHardlink
    | Some (h, c) => mret (Some linkBasename, h, c)
    end
  else mret (None, hdr, content).

(** One entry of a layer. *)
Definition unpack_entry (dest : string) (rootUID rootGID : Z) (options : TarOptions)
    (e : Header * string) : LIO unit :=
  let '(hdr0, content) := e in
  st_modify (set_size (λ z, wrap64 (z + HSize hdr0)));;
  let hdr := with_name hdr0 (Clean (Name hdr0)) in
  on_disk (ensure_parent (λ p, MkdirAll K p 0x180) dest (Name hdr));;
  (if HasPrefix (Name hdr) WhiteoutMetaPrefix then
     if HasPrefix (Name hdr) WhiteoutLinkDir && bool_decide (Flag hdr = TypeReg)
     then st_modify (set_aufs (Base (Name hdr)) (hdr, content)) else mret tt
   else mret tt);;
  if HasPrefix (Name hdr) WhiteoutMetaPrefix && negb (bool_decide (Name hdr = WhiteoutOpaqueDir)) then mret tt
  else
    path ← entry_path dest (Name hdr);
    let base := Base path in
    if HasPrefix base WhiteoutPrefix then apply_whiteout path base
    else
      on_disk (clear_path path (Flag hdr));;
      '(aufs, srcHdr, srcData) ← layer_source hdr content;
      srcHdr' ← map_ids srcHdr rootUID rootGID (o_UIDMaps options) (o_GIDMaps options);
      (* the header of an AUFS hard link is shared: it keeps the converted identifiers *)
      match aufs with Some b => st_modify (set_aufs b (srcHdr', srcData)) | None => mret tt end;;
      on_disk (createTarFile K path dest srcHdr' srcData true None);;
      (if decide (Flag hdr = TypeDir) then
         st_modify (add_dir (match aufs with None => srcHdr' | Some _ => hdr end)) else mret tt);;
      st_modify (add_unpacked path).

Fixpoint unpack_entries (dest : string) (rootUID rootGID : Z) (options : TarOptions)
    (l : list (Header * string)) : LIO unit :=
  match l with
  | [] => mret tt
  | e :: l' => unpack_entry dest rootUID rootGID options e;; unpack_entries dest rootUID rootGID options l'
  end.

(** The times of the directories, at the end. *)
Fixpoint dir_times (dest : string) (dirs : list Header) : ST Disk unpackError unit :=
  match dirs with
  | [] => mret tt
  | h :: dirs' => Chtimes K (PathJoin [dest; Name h]) (ModTime h, 0%Z);; dir_times dest dirs'
  end.

(** [UnpackLayer]: the size of the layer, with the disk it leaves; a size of
    zero comes with an error. *)
Definition UnpackLayer (dest : string) (layer : list (Header * string)) (options : TarOptions) (d : Disk) :
    outcome unpackError Z * Disk :=
  match GetRootUIDGID (o_UIDMaps options) (o_GIDMaps options) with
  | Err e => (Err (UnpackId e), d)
  | Panic m => (Panic m, d)
  | Ok (rootUID, rootGID) =>
      let m := unpack_entries dest rootUID rootGID options layer;;
               s ← st_get;
               on_disk (dir_times dest (l_dirs s));;
               mret (l_size s) in
      let '(r, s) := m (mkLayer d 0 [] ∅ ∅) in (r, l_disk s)
  end.

(** ** [Unpack] *)

(** [overlayWhiteoutConverter.ConvertRead]: whether the entry is written. *)
Definition ConvertRead (hdr : Header) (path : string) : ST Disk unpackError bool :=
  let base := Base path in
  let dir := Dir path in
  if decide (base = WhiteoutOpaqueDir) then Setxattr_opaque K dir;; mret false
  else if HasPrefix base WhiteoutPrefix then
    let originalPath := PathJoin [dir; drop_bytes (String.length WhiteoutPrefix) base] in
    Mknod K originalPath S_IFCHR 0;;
    os_Chown K originalPath (Uid hdr) (Gid hdr);;
    mret false
  else mret true.

(** What is at the path of an entry: [true] to go on with the entry. *)
Definition prepare_path (path : string) (hdr : Header) (options : TarOptions) : ST Disk unpackError bool :=
  d ← st_get;
  match sys_lstat K d path with
  | Ok fi =>
      if NoOverwriteDirNonDir options && entry_dir fi && negb (bool_decide (Flag hdr = TypeDir))
      then st_fail (CannotOverwrite path)
      else if NoOverwriteDirNonDir options && negb (entry_dir fi) && bool_decide (Flag hdr = TypeDir)
      then st_fail (CannotOverwrite path)
      else if entry_dir fi && bool_decide (Name hdr = ".") then mret false
      else if entry_dir fi && bool_decide (Flag hdr = TypeDir) then mret true
      else RemoveAll K path;; mret true
  | _ => mret true
  end.

(** One entry of an archive: the header of a directory, whose times are set at
    the end. *)
Definition unpack_file (dest : string) (rootUID rootGID : Z) (options : TarOptions) (e : Header * string) :
    ST Disk unpackError (list Header) :=
  let '(hdr0, content) := e in
  let hdr := with_name hdr0 (Clean (Name hdr0)) in
  if existsb (λ exclude, HasPrefix (Name hdr) exclude) (ExcludePatterns options) then mret []
  else
    ensure_parent (λ p, MkdirAllNewAs K p 0x1FF rootUID rootGID) dest (Name hdr);;
    path ← entry_path dest (Name hdr);
    go ← prepare_path path hdr options;
    if go : bool then
      hdr' ← map_ids hdr rootUID rootGID (o_UIDMaps options) (o_GIDMaps options);
      write ← (if OverlayWhiteoutFormat options then ConvertRead hdr' path else mret true);
      if write : bool then
        createTarFile K path dest hdr' content (negb (NoLchown options)) (ChownOpts options);;
        mret (if decide (Flag hdr' = TypeDir) then [hdr'] else [])
      else mret []
    else mret [].

Fixpoint unpack_files (dest : string) (rootUID rootGID : Z) (options : TarOptions) (l : list (Header * string)) :
    ST Disk unpackError (list Header) :=
  match l with
  | [] => mret []
  | e :: l' =>
      ds ← unpack_file dest rootUID rootGID options e;
      ds' ← unpack_files dest rootUID rootGID options l';
      mret (ds ++ ds')
  end.

Definition Unpack (dest : string) (archive : list (Header * string)) (options : TarOptions) : ST Disk unpackError unit :=
  match GetRootUIDGID (o_UIDMaps options) (o_GIDMaps options) with
  | Err e => st_fail (UnpackId e)
  | Panic m => st_panic m
  | Ok (rootUID, rootGID) =>
      dirs ← unpack_files dest rootUID rootGID options archive;
      dir_times dest dirs
  end.

End unpack.
