(* ===== verification/LayerDiff.v ===== *)
(** * A layer applied to its parent gives the tree it was taken from

    The theorems on [Changes], [Tar] and [Unpack] together: the changes between
    two trees, exported as an archive and unpacked over the old tree, give the
    new tree ([layer_roundtrip]). *)

From S2P Require Import Prelude GoStrings IdTools Filepath Symlink CopyPaths Changes Tar Unpack.
Local Open Scope N_scope.

(** ** System calls on a path through directories *)

Section calls.
Context (K : Kernel) `{!KernelLaws K}.

Lemma below_spec q k : below q k = true ↔ ∃ r, k = q ++ r.
Proof.
  unfold below. rewrite bool_decide_eq_true. split.
  - intros E. exists (drop (length q) k). by rewrite <-E at 1; rewrite take_drop.
  - intros [r ->]. by rewrite take_app_length.
Qed.

Lemma below_false q k : below q k = false ↔ ¬ ∃ r, k = q ++ r.
Proof. rewrite <-below_spec. by destruct (below q k). Qed.

Lemma lookup_remove (d : Disk) q k :
  filter (λ kv, below q kv.1 = false) d !! k = if below q k then None else d !! k.
Proof.
  destruct (below q k) eqn:E.
  - apply map_lookup_filter_None_2. right. intros e _. cbn [fst]. by rewrite E.
  - destruct (d !! k) as [e|] eqn:Ek.
    + by apply map_lookup_filter_Some_2.
    + apply map_lookup_filter_None_2. by left.
Qed.

(** A path through directories stays one when the disk changes elsewhere. *)
Lemma through_dirs_ext d d' p :
  through_dirs d p → (∀ q x r, p = q ++ x :: r → d' !! q = d !! q) → through_dirs d' p.
Proof. intros H E q x r Hp. rewrite (E _ _ _ Hp). eauto. Qed.

Lemma through_dirs_insert d p e : through_dirs d p → through_dirs (<[p := e]> d) p.
Proof.
  intros H. eapply through_dirs_ext; [done|]. intros q x r Hp. apply lookup_insert_ne. intros ->.
  apply (f_equal length) in Hp. rewrite length_app in Hp. simpl in Hp. lia.
Qed.

Lemma through_dirs_remove d p q :
  through_dirs d p → (∀ s, p ≠ q ++ s ∨ s = []) → through_dirs (filter (λ kv, below q kv.1 = false) d) p.
Proof.
  intros H Hne. eapply through_dirs_ext; [done|]. intros r x t Hp. rewrite lookup_remove.
  assert (E : below q r = false); [|by rewrite E]. apply below_false. intros [u ->]. subst p. rewrite <-app_assoc in Hne.
  destruct (Hne (u ++ x :: t)) as [?|E]; [done|]. by apply (f_equal length) in E; rewrite length_app in E; simpl in E; lia.
Qed.

Section at_path.
Context (p : list string) (Hp : Forall name_ok p) (d : Disk) (Hd : through_dirs d p).

Lemma lstat_at : sys_lstat K d (abs_path p) = match d !! p with Some e => Ok e | None => Err NotExist end.
Proof using Type*. unfold sys_lstat. rewrite elements_abs by done. by rewrite namei_dirs. Qed.

Lemma place_at : place K (abs_path p) d = (Ok p, d).
Proof using Type*. unfold place. rewrite elements_abs by done. by rewrite namei_dirs. Qed.

Lemma create_at f : d !! p = None → create K (abs_path p) f d = (Ok tt, <[p := f d]> d).
Proof using Type*.
  intros Hn. unfold create, mbind, ST_bind. rewrite place_at. unfold st_get, st_put. by rewrite Hn.
Qed.

Lemma RemoveAll_at : RemoveAll K (abs_path p) d = (Ok tt, filter (λ kv, below p kv.1 = false) d).
Proof using Type*. unfold RemoveAll. rewrite elements_abs by done. by rewrite namei_dirs. Qed.

(** A change of the entry at the path. *)
Lemma namei_update f e :
  d !! p = Some e → update_at (namei K d (elements (abs_path p))) f d = (Ok tt, <[p := f e]> d).
Proof using Type*. intros He. rewrite elements_abs, namei_dirs by done. simpl. by rewrite He. Qed.

Lemma follow_update f e :
  d !! p = Some e → entry_symlink e = false →
  update_at (follow K d (elements (abs_path p))) f d = (Ok tt, <[p := f e]> d).
Proof using Type*.
  intros He Hs. rewrite elements_abs by done.
  rewrite (follow_plain_file d p p e) by (try done; by apply namei_dirs). simpl. by rewrite He.
Qed.
End at_path.
End calls.

(** ** Modes and devices *)

Definition is_type (t : N) : Prop := N.land t S_IFMT = t.

Lemma perm_type t m : is_type t → N.land (N.lor t (N.land m 0xFFF)) S_IFMT = t.
Proof.
  intros Ht. rewrite N.land_lor_distr_l, Ht, <-N.land_assoc.
  change (N.land 0xFFF S_IFMT) with 0. by rewrite N.land_0_r, N.lor_0_r.
Qed.

Lemma mode_split m : m < 2 ^ 16 → N.lor (N.land m S_IFMT) (N.land m 0xFFF) = m.
Proof.
  intros Hm. rewrite <-N.land_lor_distr_r. change (N.lor S_IFMT 0xFFF) with (N.ones 16).
  rewrite N.land_ones. by apply N.mod_small.
Qed.

(** The device number of a node survives its header. *)
Lemma Mkdev_split dev : dev < 2 ^ 32 → Mkdev (major dev) (minor dev) = dev.
Proof.
  intros Hd. apply N.bits_inj. intros i. unfold Mkdev, major, minor.
  destruct (N.lt_ge_cases i 32) as [Hi|Hi].
  2:{ change 0xFFFFFFFF with (N.ones 32). rewrite N.land_ones, N.mod_pow2_bits_high by done.
      symmetry. destruct (N.eq_dec dev 0) as [->|Hz]; [apply N.bits_0|]. apply N.bits_above_log2.
      apply N.log2_lt_pow2; [lia|]. eapply N.lt_le_trans; [exact Hd|]. apply N.pow_le_mono_r; lia. }
  assert (Hcases : ∃ k, (k < 32)%nat ∧ i = N.of_nat k) by (exists (N.to_nat i); lia).
  destruct Hcases as (k & Hk & ->).
  do 32 (destruct k as [|k];
    [rewrite ?N.land_spec, ?N.lor_spec;
     repeat (rewrite ?N.shiftl_spec_low by done; rewrite ?N.shiftl_spec_high' by done;
             rewrite ?N.land_spec, ?N.lor_spec, ?N.shiftr_spec');
     vm_compute (N.testbit (Npos _) _); simpl; rewrite ?andb_true_r, ?andb_false_r, ?orb_false_r; done|]).
  lia.
Qed.

(** ** Files that an archive can hold *)

Definition type_of (n : node) : N := file_type (stat n).

(** A node as the kernel shows it: 16 bits of mode, the size of its contents, a
    device number for devices only.  Sockets cannot be archived, and a
    directory has no capability. *)
Definition node_ok (n : node) : Prop :=
  Mode (stat n) < 2 ^ 16 ∧
  ((type_of n = S_IFREG ∧ Rdev (stat n) = 0 ∧ Size (stat n) = Z.of_nat (String.length (data n))) ∨
   (type_of n = S_IFDIR ∧ Rdev (stat n) = 0 ∧ capability n = None ∧ data n = "") ∨
   (type_of n = S_IFLNK ∧ Rdev (stat n) = 0 ∧ Mode (stat n) = N.lor S_IFLNK 0x1FF ∧
    Size (stat n) = Z.of_nat (String.length (data n))) ∨
   ((type_of n = S_IFBLK ∨ type_of n = S_IFCHR) ∧ Rdev (stat n) < 2 ^ 32 ∧ Size (stat n) = 0%Z ∧ data n = "") ∨
   (type_of n = S_IFIFO ∧ Rdev (stat n) = 0 ∧ Size (stat n) = 0%Z ∧ data n = "")).

(** Times that can be set: from the epoch to the last second of a 64-bit count
    of nanoseconds (the year 2262).  The time of a symbolic link is set in
    another way, and that of a directory is not compared. *)
Definition time_ok (n : node) : Prop :=
  type_of n = S_IFDIR ∨ type_of n = S_IFLNK ∨ (0 ≤ (Mtim (stat n)).1 ≤ 9223372036)%Z.

Lemma clampTime_ok t : (0 ≤ t ≤ 9223372036)%Z → clampTime (t, 0%Z) = (t, 0%Z).
Proof.
  intros Ht. unfold clampTime, Before, unixMinTime, maxTime. cbn [fst snd].
  destruct (Z.ltb_spec t 0); [lia|]. destruct (Z.ltb_spec 9223372036 t); [lia|]. cbn [orb].
  by rewrite !andb_false_r.
Qed.

(** The entry of a node on disk. *)
Definition entry_of (n : node) : entry := mkEntry (stat n) (capability n) false (data n).

(** An entry that was written from an archive of the node: the fraction of a
    second of its time is lost, and the size and time of a directory are the
    file system's. *)
Definition written (e : entry) (n : node) : Prop :=
  Mode (e_stat e) = Mode (stat n) ∧ UID (e_stat e) = UID (stat n) ∧ GID (e_stat e) = GID (stat n) ∧
  Rdev (e_stat e) = Rdev (stat n) ∧ e_cap e = capability n ∧ e_data e = data n ∧
  (type_of n = S_IFDIR ∨ (Mtim (e_stat e) = ((Mtim (stat n)).1, 0%Z) ∧ Size (e_stat e) = Size (stat n))).

(** The comparison sees no difference between an entry and a node. *)
Definition same_file (e : entry) (n : node) : Prop :=
  statDifferent (e_stat e) (stat n) = false ∧ default "" (e_cap e) = default "" (capability n) ∧ e_data e = data n.

Lemma sameFsTimeSpec_truncated t : sameFsTimeSpec (t.1, 0%Z) t = true.
Proof.
  unfold sameFsTimeSpec. cbn [fst snd]. rewrite (bool_decide_eq_true_2 (t.1 = t.1)) by done.
  rewrite (bool_decide_eq_true_2 (0%Z = 0%Z)) by done. by rewrite orb_true_r.
Qed.

Lemma written_same e n : written e n → same_file e n.
Proof.
  intros (Hm & Hu & Hg & Hr & Hc & Hd & Ht). split; [|by rewrite Hc].
  unfold statDifferent. rewrite Hm, Hu, Hg, Hr, !N.eqb_refl.
  rewrite !(bool_decide_eq_true_2 (_ = _)) by done. cbn [negb orb].
  destruct Ht as [Ht|[-> ->]].
  - unfold type_of, file_type in Ht. destruct (is_directory_mode (stat n) Ht) as [_ E]. by rewrite E.
  - rewrite sameFsTimeSpec_truncated, (bool_decide_eq_true_2 (Size _ = _)) by done. cbn [negb orb].
    by rewrite andb_false_r.
Qed.

(** The header that [addTarFile] makes without maps of identifiers. *)
Definition plain_flag (n : node) : Typeflag :=
  let t := type_of n in
  if t =? S_IFREG then TypeReg else if t =? S_IFDIR then TypeDir else if t =? S_IFLNK then TypeSymlink
  else if t =? S_IFBLK then TypeBlock else if t =? S_IFCHR then TypeChar else TypeFifo.

Record header_of (h : Header) (n : node) : Prop := {
  ho_mode : HMode h = Mode (stat n);
  ho_uid : Uid h = UID (stat n);
  ho_gid : Gid h = GID (stat n);
  ho_time : ModTime h = (Mtim (stat n)).1;
  ho_cap : Xattr h = capability n;
  ho_dev : type_of n = S_IFBLK ∨ type_of n = S_IFCHR → Mkdev (Devmajor h) (Devminor h) = Rdev (stat n);
  ho_fifo : type_of n = S_IFIFO → Mkdev (Devmajor h) (Devminor h) = 0
}.

Definition mapped_nothing (seen : gmap N string) : tarAppender := mkAppender seen None None.

Lemma node_type_cases n : node_ok n →
  type_of n = S_IFREG ∨ type_of n = S_IFDIR ∨ type_of n = S_IFLNK ∨ type_of n = S_IFBLK ∨ type_of n = S_IFCHR ∨
  type_of n = S_IFIFO.
Proof. intros (_ & Hok). naive_solver. Qed.

Lemma FileInfoHeader_ok n : node_ok n →
  ∃ size link, FileInfoHeader n = Some (mkHeader "" (plain_flag n) (Mode (stat n)) (UID (stat n)) (GID (stat n))
    size (Mtim (stat n)).1 link 0 0 None) ∧
    (type_of n = S_IFREG → size = Size (stat n)) ∧ (type_of n = S_IFLNK → link = data n).
Proof.
  intros Hok%node_type_cases. unfold FileInfoHeader, plain_flag. fold (type_of n).
  destruct Hok as [E|[E|[E|[E|[E|E]]]]]; rewrite E; do 2 eexists; (split; [reflexivity|]); done.
Qed.

Lemma addTarFile_header seen n name :
  node_ok n →
  let linked := negb (type_of n =? S_IFDIR) && (1 <? Nlink (stat n)) in
  let name' := canonicalTarName name (type_of n =? S_IFDIR) in
  ∃ h content, header_of h n ∧ Name h = name' ∧
    match (if linked then seen !! Ino (stat n) else None) with
    | Some target =>
        addTarFile (mapped_nothing seen) n name = (Some (h, content), mapped_nothing seen) ∧
        Flag h = TypeLink ∧ Linkname h = target
    | None =>
        addTarFile (mapped_nothing seen) n name =
          (Some (h, content), mapped_nothing (if linked then <[Ino (stat n) := name']> seen else seen)) ∧
        Flag h = plain_flag n ∧
        (type_of n = S_IFLNK → Linkname h = data n) ∧ (type_of n = S_IFREG → content = data n)
    end.
Proof.
  intros Hnok linked name'. pose proof Hnok as (_ & Hok).
  assert (Hcontent : type_of n = S_IFREG → (if (0 <? Size (stat n))%Z then data n else "") = data n).
  { intros Ht. destruct Hok as [(_ & _ & ->)|Hok].
    - destruct (Z.ltb_spec 0 (Z.of_nat (String.length (data n)))); [done|]. destruct (data n); [done|simpl in *; lia].
    - rewrite Ht in Hok. naive_solver. }
  assert (Hdev : type_of n = S_IFBLK ∨ type_of n = S_IFCHR →
    negb (N.land (Mode (stat n)) S_IFBLK =? 0) || negb (N.land (Mode (stat n)) S_IFCHR =? 0) = true ∧
    Rdev (stat n) < 2 ^ 32).
  { intros Ht. split.
    - unfold type_of, file_type in Ht.
      assert (E : N.land (Mode (stat n)) S_IFBLK = N.land (N.land (Mode (stat n)) S_IFMT) S_IFBLK) by (by rewrite <-N.land_assoc).
      rewrite E. by destruct Ht as [-> | ->].
    - destruct Hok as [(E & _)|[(E & _)|[(E & _)|[(_ & ? & _)|(E & _)]]]]; [..|done|]; rewrite E in Ht; naive_solver. }
  destruct (FileInfoHeader_ok n) as (size & link & Eh & Hsize & Hlink); [done|].
  unfold addTarFile. rewrite Eh. fold (type_of n). cbn [SeenFiles UIDMaps GIDMaps mapped_nothing].
  rewrite !(bool_decide_eq_false_2 (is_Some None)) by apply is_Some_None. cbn [orb]. rewrite andb_false_r.
  cbn [Flag Linkname HSize Uid Gid HMode ModTime]. fold linked name'.
  set (special := negb (N.land (Mode (stat n)) S_IFBLK =? 0) || negb (N.land (Mode (stat n)) S_IFCHR =? 0)) in *.
  assert (HD : type_of n = S_IFBLK ∨ type_of n = S_IFCHR →
    Mkdev (if special then major (Rdev (stat n)) else 0) (if special then minor (Rdev (stat n)) else 0) = Rdev (stat n)).
  { intros Ht. destruct (Hdev Ht) as [-> ?]. by apply Mkdev_split. }
  assert (HF : type_of n = S_IFIFO →
    Mkdev (if special then major (Rdev (stat n)) else 0) (if special then minor (Rdev (stat n)) else 0) = 0).
  { intros Ht. unfold type_of, file_type in Ht.
    assert (E : ∀ t, N.land S_IFMT t = t → N.land (Mode (stat n)) t = N.land (N.land (Mode (stat n)) S_IFMT) t)
      by (intros t Et; by rewrite <-N.land_assoc, Et).
    unfold special. rewrite (E S_IFBLK), (E S_IFCHR) by done. by rewrite Ht. }
  destruct linked; [destruct (seen !! Ino (stat n)) as [target|] eqn:Es|];
    cbv zeta; cbn beta iota;
    (do 2 eexists; split; [|split; [|split; [reflexivity|]]]; [by constructor|done|]).
  - done.
  - split_and!; [done|done|]. intros Ht. rewrite decide_True by (unfold plain_flag; by rewrite Ht).
    rewrite Hsize by done. by apply Hcontent.
  - split_and!; [done|done|]. intros Ht. rewrite decide_True by (unfold plain_flag; by rewrite Ht).
    rewrite Hsize by done. by apply Hcontent.
Qed.

(** ** Creating a file *)

Lemma ST_step {S E A B} (m : ST S E A) (k : A → ST S E B) s a s' :
  m s = (Ok a, s') → (m ≫= k) s = k a s'.
Proof. intros E0. unfold mbind, ST_bind. by rewrite E0. Qed.

Definition owned (h : Header) (e : entry) : entry :=
  let e1 := set_owner (Uid h) (Gid h) e in
  match Xattr h with Some c => set_cap c e1 | None => e1 end.

Definition with_meta (h : Header) (e : entry) : entry :=
  set_mtime (clampTime (ModTime h, 0%Z)) (set_perm (header_perm h) (owned h e)).

Lemma owned_type h e : file_type (e_stat (owned h e)) = file_type (e_stat e).
Proof. unfold owned. by destruct (Xattr h). Qed.

Lemma set_perm_type perm e :
  N.land perm 0xFFF = perm → file_type (e_stat (set_perm perm e)) = file_type (e_stat e).
Proof.
  intros Hp. unfold set_perm, file_type. cbn. rewrite <-Hp. apply perm_type. unfold is_type.
  by rewrite <-N.land_assoc.
Qed.

Lemma header_perm_land h : N.land (header_perm h) 0xFFF = header_perm h.
Proof. unfold header_perm. by rewrite <-N.land_assoc. Qed.

Section create.
Context (K : Kernel) `{!KernelLaws K}.
Context (p : list string) (Hp : Forall name_ok p) (d : Disk) (Hd : through_dirs d p) (h : Header).

Lemma upd_namei f e : update_at (namei K (<[p := e]> d) (elements (abs_path p))) f (<[p := e]> d)
  = (Ok tt, <[p := f e]> d).
Proof using Hp Hd KernelLaws0.
  rewrite (namei_update K p Hp _ (through_dirs_insert d p e Hd) f e) by apply lookup_insert_eq.
  by rewrite insert_insert_eq.
Qed.

Lemma upd_follow f e : entry_symlink e = false →
  update_at (follow K (<[p := e]> d) (elements (abs_path p))) f (<[p := e]> d) = (Ok tt, <[p := f e]> d).
Proof using Hp Hd KernelLaws0.
  intros Hs. rewrite (follow_update K p Hp _ (through_dirs_insert d p e Hd) f e) by (done || apply lookup_insert_eq).
  by rewrite insert_insert_eq.
Qed.

Lemma upd_cap c e : Lsetxattr_capability K (abs_path p) c (<[p := e]> d) = (Ok tt, <[p := set_cap c e]> d).
Proof using Hp Hd KernelLaws0.
  unfold Lsetxattr_capability. pose proof (upd_namei (set_cap c) e) as Hu.
  destruct (namei K _ _) as [q| |]; [|done..]. by rewrite setxattr_works.
Qed.

(** Owner and attributes, then the rest of the body. *)
Lemma setMetadata_owned e :
  setMetadata K (abs_path p) h true None (<[p := e]> d) =
  (handleLChmod K h (abs_path p);;
   match Flag h with
   | TypeLink => d ← st_get; if linkname_plain K d h then Chtimes K (abs_path p) (ModTime h, 0%Z) else mret tt
   | TypeSymlink => LUtimes K (abs_path p) (ModTime h, 0%Z)
   | _ => Chtimes K (abs_path p) (ModTime h, 0%Z)
   end) (<[p := owned h e]> d).
Proof using Hp Hd KernelLaws0.
  unfold setMetadata. cbn [default from_option id fst snd].
  rewrite (ST_step _ _ _ tt (<[p := set_owner (Uid h) (Gid h) e]> d)) by (unfold os_Lchown; by rewrite upd_namei).
  unfold owned, setXattrs. destruct (Xattr h) as [c|]; [|done].
  by rewrite (ST_step _ _ _ tt (<[p := set_cap c (set_owner (Uid h) (Gid h) e)]> d)) by (by rewrite upd_cap).
Qed.

Lemma symlink_owned e : entry_symlink (owned h e) = entry_symlink e.
Proof. unfold entry_symlink. by rewrite owned_type. Qed.

Lemma symlink_perm e : entry_symlink (set_perm (header_perm h) e) = entry_symlink e.
Proof. unfold entry_symlink. by rewrite set_perm_type by apply header_perm_land. Qed.

Lemma setMetadata_plain e :
  Flag h ≠ TypeLink → Flag h ≠ TypeSymlink → entry_symlink e = false →
  setMetadata K (abs_path p) h true None (<[p := e]> d) = (Ok tt, <[p := with_meta h e]> d).
Proof using Hp Hd KernelLaws0.
  intros Hl Hs He. rewrite setMetadata_owned.
  rewrite (ST_step _ _ _ tt (<[p := set_perm (header_perm h) (owned h e)]> d)).
  2:{ unfold handleLChmod. destruct (Flag h); try done; unfold os_Chmod; apply upd_follow; by rewrite symlink_owned. }
  destruct (Flag h); try done; unfold Chtimes; rewrite upd_follow; by rewrite ?symlink_perm, ?symlink_owned.
Qed.

Lemma setMetadata_symlink e :
  Flag h = TypeSymlink →
  setMetadata K (abs_path p) h true None (<[p := e]> d) =
  (Ok tt, <[p := set_mtime (ModTime h, 0%Z) (owned h e)]> d).
Proof using Hp Hd KernelLaws0.
  intros Hs. rewrite setMetadata_owned. unfold handleLChmod. rewrite Hs. rewrite (ST_step _ _ _ tt (<[p := owned h e]> d)) by done.
  unfold LUtimes. apply upd_namei.
Qed.

(** A hard link: the mode and the time are set unless it is a link to a
    symbolic link. *)
Lemma setMetadata_link e :
  Flag h = TypeLink → (∀ e', linkname_plain K (<[p := e']> d) h = negb (entry_symlink e)) →
  setMetadata K (abs_path p) h true None (<[p := e]> d) =
  (Ok tt, <[p := if entry_symlink e then owned h e else with_meta h e]> d).
Proof using Hp Hd KernelLaws0.
  intros Hf Hl. rewrite setMetadata_owned. unfold handleLChmod. rewrite Hf. destruct (entry_symlink e) eqn:Es.
  - rewrite (ST_step _ _ _ tt (<[p := owned h e]> d)) by (unfold mbind, ST_bind, st_get; by rewrite Hl).
    unfold mbind, ST_bind, st_get. by rewrite Hl.
  - rewrite (ST_step _ _ _ tt (<[p := set_perm (header_perm h) (owned h e)]> d)).
    2:{ unfold mbind, ST_bind, st_get. rewrite Hl. unfold os_Chmod. cbn [negb]. apply upd_follow. by rewrite symlink_owned. }
    unfold mbind, ST_bind, st_get. rewrite Hl. cbn [negb]. unfold Chtimes. rewrite upd_follow;
      by rewrite ?symlink_perm, ?symlink_owned.
Qed.
End create.

Lemma Dir_abs k x : Forall name_ok (k ++ [x]) → Dir (abs_path (k ++ [x])) = abs_path k.
Proof.
  intros [Hk [Hx _]%Forall_cons]%Forall_app. unfold Dir. rewrite PathSplit_snoc by apply Hx. cbn [fst].
  unfold dir_string. destruct k; [done|]. by apply (Clean_dir_file _ ""); [|left].
Qed.

Lemma type_of_mode n t : node_ok n → type_of n = t → Mode (stat n) = N.lor t (N.land (Mode (stat n)) 0xFFF).
Proof. intros [Hm _] <-. unfold type_of, file_type. symmetry. by apply mode_split. Qed.

Lemma IsAbs_Join y t : name_ok y → IsAbs (Join "/" (y :: t)) = false.
Proof.
  intros (Hne & _ & _ & Hc). destruct y as [|a y]; [done|].
  assert (∃ s, Join "/" (String a y :: t) = String a s) as [s ->].
  { destruct t as [|z t]; [by exists y|]. rewrite Join_cons, app_cons_str. eauto. }
  cbn [ContainsByte] in Hc. destruct (ascii_dec a sep) as [|Hn]; [done|].
  unfold IsAbs, HasPrefix. destruct (ascii_dec "/" a) as [<-|]; [|done]. by destruct Hn.
Qed.

Section create_file.
Context (K : Kernel) `{!KernelLaws K}.
Context (k : list string) (x : string) (Hp : Forall name_ok (k ++ [x])) (d : Disk) (Hd : through_dirs d (k ++ [x])).
Context (h : Header) (n : node) (Hh : header_of h n) (Hn : node_ok n) (Htime : time_ok n).
Abbreviation p := (k ++ [x]) (only parsing).

(** The entry that is made from a new file with the type of the node. *)
Lemma with_meta_written e :
  file_type (e_stat e) = type_of n → Rdev (e_stat e) = Rdev (stat n) →
  e_cap e = None → e_data e = data n → type_of n ≠ S_IFLNK →
  (type_of n = S_IFDIR ∨ Size (e_stat e) = Size (stat n)) →
  written (with_meta h e) n.
Proof using Hh Hn Htime.
  intros Ht Hr Hc Hdat Hnl Hs.
  assert (type_of n = S_IFDIR ∨ clampTime ((Mtim (stat n)).1, 0%Z) = ((Mtim (stat n)).1, 0%Z)) as Hclamp.
  { destruct Htime as [?|[?|?]]; [by left|done|right; by apply clampTime_ok]. }
  assert (Hm : N.lor (file_type (e_stat e)) (N.land (Mode (stat n)) 0xFFF) = Mode (stat n)).
  { rewrite Ht. symmetry. by apply type_of_mode. }
  unfold with_meta, set_mtime, set_perm, header_perm, owned, written.
  rewrite (ho_cap h n Hh), (ho_mode h n Hh), (ho_uid h n Hh), (ho_gid h n Hh), (ho_time h n Hh).
  destruct (capability n) as [c|] eqn:Ec; cbn [set_cap set_owner e_stat e_cap e_opaque e_data Mode UID GID Rdev Mtim Size];
    (split_and!; [exact Hm|done..|naive_solver]).
Qed.

Lemma createTarFile_node content e :
  Flag h ≠ TypeXGlobalHeader → Flag h ≠ TypeLink → Flag h ≠ TypeSymlink → entry_symlink e = false →
  createNode K (abs_path p) "/" h content d = (Ok tt, <[p := e]> d) →
  createTarFile K (abs_path p) "/" h content true None d = (Ok tt, <[p := with_meta h e]> d).
Proof using Hp Hd KernelLaws0.
  intros Hx Hl Hs He Hc. unfold createTarFile. rewrite decide_False by done.
  rewrite (ST_step _ _ _ tt _ Hc). by apply setMetadata_plain.
Qed.

Lemma create_new content :
  d !! p = None → Flag h = plain_flag n → (type_of n = S_IFLNK → Linkname h = data n) →
  (type_of n = S_IFREG → content = data n) →
  ∃ e, createTarFile K (abs_path p) "/" h content true None d = (Ok tt, <[p := e]> d) ∧ written e n.
Proof using Hp Hd Hh Hn Htime KernelLaws0.
  intros Hnone Hf Hlink Hcont.
  assert (Hsimple : ∀ e, Flag h ≠ TypeXGlobalHeader → Flag h ≠ TypeLink → Flag h ≠ TypeSymlink →
    createNode K (abs_path p) "/" h content d = (Ok tt, <[p := e]> d) →
    file_type (e_stat e) = type_of n → type_of n ≠ S_IFLNK → Rdev (e_stat e) = Rdev (stat n) → e_cap e = None →
    e_data e = data n → (type_of n = S_IFDIR ∨ Size (e_stat e) = Size (stat n)) →
    ∃ e, createTarFile K (abs_path p) "/" h content true None d = (Ok tt, <[p := e]> d) ∧ written e n).
  { intros e ??? Hc Ht Hnl Hr Hcap Hdat Hs. exists (with_meta h e). split.
    - apply createTarFile_node; try done. unfold entry_symlink. rewrite Ht. by apply N.eqb_neq.
    - apply with_meta_written; auto. }
  unfold plain_flag in Hf. pose proof Hn as (_ & Hcases).
  destruct Hcases as [(Ht & Hr & Hs)|[(Ht & Hr & Hc & Hdat)|[(Ht & Hr & Hm & Hs)|[(Ht & Hr & Hs & Hdat)|(Ht & Hr & Hs & Hdat)]]]].
  - rewrite Ht in Hf. cbn in Hf.
    apply (Hsimple (mkEntry (new_stat K root_owner d (N.lor S_IFREG (header_perm h)) 0
             (Z.of_nat (String.length content))) None false content)); rewrite ?Hf, ?Ht; try done.
    + unfold createNode. rewrite Hf. unfold WriteFile. rewrite (ST_step _ _ _ p d) by (by apply place_at).
      unfold mbind, ST_bind, st_get, st_put. by rewrite Hnone.
    + by apply perm_type.
    + by apply Hcont.
    + right. cbn. by rewrite Hcont, Hs.
  - rewrite Ht in Hf. cbn in Hf.
    apply (Hsimple (mkEntry (new_stat K root_owner d (N.lor S_IFDIR (header_perm h)) 0 0) None false ""));
      rewrite ?Hf, ?Ht; try done.
    + unfold createNode. rewrite Hf. rewrite (ST_step _ _ _ d d) by done.
      rewrite lstat_at, Hnone by done. unfold Mkdir, mkdir_as. by rewrite create_at.
    + by apply perm_type.
    + by left.
  - rewrite Ht in Hf. cbn in Hf. set (e := mkEntry (new_stat K root_owner d (N.lor S_IFLNK 0x1FF) 0
      (Z.of_nat (String.length (Linkname h)))) None false (Linkname h)).
    exists (set_mtime (ModTime h, 0%Z) (owned h e)). split.
    + unfold createTarFile. rewrite decide_False by (by rewrite Hf).
      rewrite (ST_step _ _ _ tt (<[p := e]> d)); [by apply setMetadata_symlink|].
      unfold createNode. rewrite Hf. rewrite Dir_abs by done.
      pose proof Hp as [Hk _]%Forall_app. rewrite PathJoin_abs by done.
      change (HasPrefix (abs_path ?l) "/") with (IsAbs (abs_path l)). rewrite IsAbs_abs_path.
      unfold os_Symlink. by rewrite create_at.
    + unfold written, set_mtime, owned. rewrite (ho_cap h n Hh), (ho_uid h n Hh), (ho_gid h n Hh), (ho_time h n Hh).
      destruct (capability n); cbn; rewrite Hlink by done; (split_and!; [by rewrite Hm|done..|by rewrite Hs; right]).
  - assert (Hmk : createNode K (abs_path p) "/" h content d =
      (Ok tt, <[p := mkEntry (new_stat K root_owner d (N.lor (header_perm h) (type_of n)) (Rdev (stat n)) 0)
                       None false ""]> d)).
    { unfold createNode, handleTarTypeBlockCharFifo, Mknod, header_perm. rewrite <-(ho_dev h n Hh Ht).
      destruct Ht as [Ht|Ht]; rewrite Ht in Hf |- *; cbn in Hf; rewrite Hf; by rewrite create_at. }
    assert (Hfl : Flag h = TypeBlock ∨ Flag h = TypeChar).
    { destruct Ht as [Ht|Ht]; rewrite Ht in Hf; cbn in Hf; auto. }
    refine (Hsimple _ _ _ _ Hmk _ _ _ _ _ _);
      [by destruct Hfl as [-> | ->]|by destruct Hfl as [-> | ->]|by destruct Hfl as [-> | ->]| | |done|done|done|by right].
    + unfold file_type. cbn. rewrite N.lor_comm. apply perm_type. by destruct Ht as [-> | ->].
    + by destruct Ht as [-> | ->].
  - rewrite Ht in Hf. cbn in Hf.
    apply (Hsimple (mkEntry (new_stat K root_owner d (N.lor (header_perm h) S_IFIFO)
             (Mkdev (Devmajor h) (Devminor h)) 0) None false "")); rewrite ?Hf, ?Ht; try done.
    + unfold createNode, handleTarTypeBlockCharFifo, Mknod. rewrite Hf. by rewrite create_at.
    + unfold file_type. cbn. rewrite N.lor_comm. by apply perm_type.
    + cbn. rewrite (ho_fifo h n Hh Ht), Hr. done.
    + by right.
Qed.

(** Two directories are merged: the metadata of the new one. *)
Lemma create_merge content e :
  d !! p = Some e → entry_dir e = true → e_cap e = None → e_data e = "" → Rdev (e_stat e) = 0 →
  type_of n = S_IFDIR → Flag h = plain_flag n →
  createTarFile K (abs_path p) "/" h content true None d = (Ok tt, <[p := with_meta h e]> d) ∧
  written (with_meta h e) n.
Proof using Hp Hd Hh Hn Htime KernelLaws0.
  intros He Hed Hcap Hdat Hr Ht Hf. unfold plain_flag in Hf. rewrite Ht in Hf. cbn in Hf.
  assert (Hft : file_type (e_stat e) = S_IFDIR) by (by apply N.eqb_eq).
  pose proof Hn as (_ & Hcases).
  assert (Rdev (stat n) = 0 ∧ capability n = None ∧ data n = "") as (? & ? & ?) by (rewrite Ht in Hcases; naive_solver).
  split.
  - apply createTarFile_node; rewrite ?Hf; try done.
    + unfold entry_symlink. by rewrite Hft.
    + unfold createNode. rewrite Hf. rewrite (ST_step _ _ _ d d) by done. rewrite lstat_at, He by done.
      rewrite Hed. by rewrite insert_id.
  - apply with_meta_written; try congruence; [by rewrite Ht|by left].
Qed.

(** A hard link to a file that was written before, of the same inode. *)
Lemma create_link content t e m :
  d !! p = None → Flag h = TypeLink → cwd K = "/" → Forall name_ok t → t ≠ [] → t ≠ p →
  Linkname h = Join "/" t → through_dirs d t → d !! t = Some e → written e m → type_of m ≠ S_IFDIR →
  stat m = stat n → capability m = capability n → data m = data n →
  ∃ e', createTarFile K (abs_path p) "/" h content true None d = (Ok tt, <[p := e']> d) ∧ written e' n.
Proof using Hp Hd Hh Hn Htime KernelLaws0.
  intros Hnone Hf Hcwd Htok Ht0 Htp Hl Htd He Hw Hnd Hst Hcap Hdat.
  assert (Htarget : PathJoin ["/"; Linkname h] = abs_path t).
  { rewrite PathJoin_root, Hl, Split_Join by eauto using name_ok_nosep. rewrite walk_plain by done.
    by rewrite app_nil_r, rev_involutive. }
  assert (Hlp : ∀ e', linkname_plain K (<[p := e']> d) h = negb (entry_symlink e)).
  { intros e'. unfold linkname_plain. assert (Habs : IsAbs (Linkname h) = false).
    { rewrite Hl. destruct t as [|y t]; [done|]. apply Forall_cons in Htok as [Hy _]. by apply IsAbs_Join. }
    unfold Abs. rewrite Habs, Hcwd, Htarget. rewrite lstat_at; [|done|done|].
    - by rewrite lookup_insert_ne, He.
    - eapply through_dirs_ext; [exact Htd|]. intros q y r Eq. apply lookup_insert_ne. intros <-.
      destruct (Htd _ _ _ Eq) as (e0 & E0 & _). congruence. }
  exists (if entry_symlink e then owned h e else with_meta h e). split.
  - unfold createTarFile. rewrite decide_False by (by rewrite Hf).
    rewrite (ST_step _ _ _ tt (<[p := e]> d)); [by apply setMetadata_link|].
    unfold createNode. rewrite Hf, Htarget.
    change (HasPrefix (abs_path t) "/") with (IsAbs (abs_path t)). rewrite IsAbs_abs_path.
    unfold Link. rewrite (ST_step _ _ _ t d) by (by apply place_at). rewrite (ST_step _ _ _ d d) by done.
    rewrite He. by rewrite create_at.
  - destruct Hw as (Hm & Hu & Hg & Hr & Hc & Hda & Hts). unfold type_of in Hnd, Hts. rewrite Hst in *.
    destruct Hts as [?|[Hmt Hsz]]; [done|].
    assert (entry_symlink e = false → clampTime ((Mtim (stat n)).1, 0%Z) = ((Mtim (stat n)).1, 0%Z)) as Hclamp.
    { intros Hsym%N.eqb_neq. destruct Htime as [?|[Hl'|?]]; [done| |by apply clampTime_ok].
      destruct Hsym. unfold file_type. rewrite Hm. exact Hl'. }
    assert (Hmode : N.lor (file_type (e_stat e)) (N.land (Mode (stat n)) 0xFFF) = Mode (stat n)).
    { unfold file_type. rewrite Hm. symmetry. by apply type_of_mode. }
    unfold with_meta, set_mtime, set_perm, header_perm, owned, written.
    rewrite (ho_cap h n Hh), (ho_mode h n Hh), (ho_uid h n Hh), (ho_gid h n Hh), (ho_time h n Hh).
    destruct (entry_symlink e) eqn:Esy, (capability n) as [c|] eqn:Ec;
      cbn [set_cap set_owner e_stat e_cap e_opaque e_data Mode UID GID Rdev Mtim Size];
      (split_and!; [done|done|done|done|congruence|congruence|right; split; auto]).
Qed.
End create_file.

(** ** Names of entries *)

Lemma relative_stack st l : Forall name_ok l → foldl (clean_step false) st l = rev l ++ st.
Proof.
  intros Hl. revert st. induction Hl as [|x l (?&?&?&?) Hl IH]; intros st; [done|].
  simpl. rewrite IH. unfold clean_step. rewrite decide_False, decide_False by naive_solver. by rewrite <-app_assoc.
Qed.

Lemma Clean_relative l t :
  Forall name_ok l → l ≠ [] → t = "" ∨ t = "/" → Clean (Join "/" l +:+ t) = Join "/" l.
Proof.
  intros Hl Hne Ht. assert (Hs : clean_stack false (Join "/" l +:+ t) = rev l).
  { unfold clean_stack. destruct Ht as [->| ->].
    - rewrite app_nil_str, Split_Join by eauto using name_ok_nosep. rewrite relative_stack by done. by rewrite app_nil_r.
    - change "/" with (String sep "") at 2. rewrite Split_concat, Split_Join by eauto using name_ok_nosep.
      rewrite foldl_app, (relative_stack [] l) by done. by rewrite app_nil_r. }
  destruct l as [|[|a y] l]; [done|by apply Forall_cons in Hl as [(?&_) _]|].
  pose proof Hl as [Hy _]%Forall_cons. pose proof (IsAbs_Join _ l Hy) as Habs.
  assert (∃ u, Join "/" (String a y :: l) = String a u) as [u Eu].
  { destruct l as [|z l]; [by exists y|]. rewrite Join_cons, app_cons_str. eauto. }
  rewrite Eu in Hs, Habs |- *. rewrite app_cons_str in Hs |- *. unfold Clean.
  rewrite decide_False.
  2:{ intros ->. by rewrite IsAbs_cons in Habs. }
  rewrite Hs. destruct (rev (String a y :: l)) eqn:Er.
  { apply (f_equal length) in Er. by rewrite length_rev in Er. }
  rewrite <-Er, rev_involutive. exact Eu.
Qed.

Lemma Join_snoc k x : Join "/" (k ++ [x]) = match k with [] => x | _ => Join "/" k +:+ String sep x end.
Proof.
  pose proof (abs_path_snoc k x) as E. unfold abs_path in E. destruct k as [|y k]; [done|].
  rewrite app_cons_str in E. by injection E.
Qed.

Lemma Dir_relative k x : Forall name_ok (k ++ [x]) → PathJoin ["/"; Dir (Join "/" (k ++ [x]))] = abs_path k.
Proof.
  intros [Hk [Hx _]%Forall_cons]%Forall_app. unfold Dir. rewrite Join_snoc. destruct k as [|y k].
  - replace (PathSplit x) with ("", x); [done|]. destruct Hx as (_ & _ & _ & Hx). clear Hk.
    destruct x as [|a x]; [done|]. cbn [ContainsByte] in Hx. cbn [PathSplit].
    destruct (ascii_dec a sep) as [|Hn]; [done|]. rewrite Hx. by rewrite decide_False.
  - rewrite PathSplit_app by apply Hx. cbn [fst]. rewrite Clean_relative by (try done; by right).
    rewrite PathJoin_root, Split_Join by eauto using name_ok_nosep. rewrite walk_plain by done.
    by rewrite app_nil_r, rev_involutive.
Qed.

Lemma PathJoin_relative p : Forall name_ok p → p ≠ [] → PathJoin ["/"; Join "/" p] = abs_path p.
Proof.
  intros Hp Hne. rewrite PathJoin_root, Split_Join by eauto using name_ok_nosep. rewrite walk_plain by done.
  by rewrite app_nil_r, rev_involutive.
Qed.

Lemma Rel_root p : Forall name_ok p → p ≠ [] → Rel "/" (abs_path p) = Some (Join "/" p).
Proof.
  intros Hp Hne. unfold Rel. rewrite Clean_abs_path by done. change (Clean "/") with (abs_path []).
  rewrite decide_False.
  2:{ intros E. apply abs_path_inj in E; [done|done|constructor]. }
  rewrite !IsAbs_abs_path, decide_True by done. rewrite !elements_abs by (done || constructor).
  by destruct p.
Qed.

Lemma HasPrefix_nosep y s w : ContainsByte sep w = false → HasPrefix (y +:+ String sep s) w = true → HasPrefix y w = true.
Proof.
  revert y. induction w as [|a w IH]; intros y Hw H; [by destruct y|]. cbn [ContainsByte] in Hw.
  destruct (ascii_dec a sep) as [|Hn]; [done|]. destruct y as [|b y].
  - change ("" +:+ String sep s) with (String sep s) in H. cbn [HasPrefix] in H. by destruct (ascii_dec a sep).
  - rewrite app_cons_str in H. cbn [HasPrefix] in H |- *. destruct (ascii_dec a b); [by apply IH|done].
Qed.

Lemma HasPrefix_trans s v w : HasPrefix s (v +:+ w) = true → HasPrefix s v = true.
Proof. intros [t ->]%HasPrefix_inv. rewrite app_assoc_str. apply HasPrefix_app. Qed.

Lemma HasPrefix_first y t w : ContainsByte sep w = false → HasPrefix (Join "/" (y :: t)) w = true → HasPrefix y w = true.
Proof. intros Hw. destruct t as [|z t]; [done|]. rewrite Join_cons. by apply HasPrefix_nosep. Qed.

Lemma not_breakout p : Forall name_ok p → p ≠ [] → HasPrefix (Join "/" p) "../" = false.
Proof.
  intros Hp Hne. destruct p as [|y p]; [done|]. apply Forall_cons in Hp as [(_ & _ & Hdd & Hy) _].
  destruct (HasPrefix (Join "/" (y :: p)) "../") eqn:E; [exfalso|done]. apply HasPrefix_inv in E as [t E].
  apply (f_equal (Cut sep)) in E. change ("../" +:+ t) with (".." +:+ String sep t) in E.
  rewrite Cut_app in E by done. destruct p as [|z p].
  - cbn [Join foldl] in E. by rewrite Cut_none in E.
  - rewrite Join_cons in E. change ("/" +:+ ?u) with (String sep u) in E. rewrite Cut_app in E by done. by injection E.
Qed.

Lemma ends_relative k x : Forall name_ok (k ++ [x]) → ends_with sep (Join "/" (k ++ [x])) = false.
Proof.
  intros [_ [(Hne & _ & _ & Hx) _]%Forall_cons]%Forall_app. rewrite Join_snoc. apply ContainsByte_ends in Hx.
  destruct k; [done|]. change (String sep x) with ("/" +:+ x). by rewrite !ends_with_app.
Qed.

(** ** One entry of a layer *)

Lemma no_meta y t : HasPrefix y WhiteoutPrefix = false → HasPrefix (Join "/" (y :: t)) WhiteoutMetaPrefix = false.
Proof.
  intros Hy. destruct (HasPrefix (Join "/" (y :: t)) WhiteoutMetaPrefix) eqn:E; [|done].
  apply HasPrefix_first in E; [|done]. apply HasPrefix_trans in E. congruence.
Qed.

Lemma no_meta_whiteout x : HasPrefix x WhiteoutPrefix = false → HasPrefix (WhiteoutPrefix +:+ x) WhiteoutMetaPrefix = false.
Proof. intros Hx. exact Hx. Qed.

Lemma through_dirs_snoc d k x e0 :
  through_dirs d k → d !! k = Some e0 → entry_dir e0 = true → through_dirs d (k ++ [x]).
Proof.
  intros Hk He0 Hdir q y r E. destruct r as [|z r _] using rev_ind.
  - apply app_inj_tail in E as [<- _]. eauto.
  - rewrite app_comm_cons, app_assoc in E. apply app_inj_tail in E as [-> _]. eapply Hk. done.
Qed.

Section entry.
Context (K : Kernel) `{!KernelLaws K} (opts : TarOptions).
Hypothesis no_uid_maps : o_UIDMaps opts = None.
Hypothesis no_gid_maps : o_GIDMaps opts = None.
Context (k : list string) (x : string) (Hp : Forall name_ok (k ++ [x])).
Context (s : layer_state) (e0 : entry) (Hk : through_dirs (l_disk s) k) (He0 : l_disk s !! k = Some e0).
Context (h : Header) (content : string) (Hname : Clean (Name h) = Join "/" (k ++ [x])).
Context (Hmeta : HasPrefix (Join "/" (k ++ [x])) WhiteoutMetaPrefix = false).

Definition sized : layer_state := set_size (λ z, wrap64 (z + HSize h)) s.

(** The checks before an entry is written change nothing but the size. *)
Lemma unpack_entry_checked :
  unpack_entry K "/" 0 0 opts (h, content) s =
  (if HasPrefix x WhiteoutPrefix then apply_whiteout K (abs_path (k ++ [x])) x
   else
     on_disk (clear_path K (abs_path (k ++ [x])) (Flag h));;
     '(aufs, srcHdr, srcData) ← layer_source (with_name h (Join "/" (k ++ [x]))) content;
     srcHdr' ← map_ids srcHdr 0 0 (o_UIDMaps opts) (o_GIDMaps opts);
     match aufs with Some b => st_modify (set_aufs b (srcHdr', srcData)) | None => mret tt end;;
     on_disk (createTarFile K (abs_path (k ++ [x])) "/" srcHdr' srcData true None);;
     (if decide (Flag h = TypeDir) then
        st_modify (add_dir (match aufs with None => srcHdr' | Some _ => with_name h (Join "/" (k ++ [x])) end)) else mret tt);;
     st_modify (add_unpacked (abs_path (k ++ [x])))) sized.
Proof using Hp Hk He0 Hname Hmeta KernelLaws0.
  unfold unpack_entry. rewrite (ST_step _ _ _ tt sized) by done. rewrite Hname. cbn [Name with_name].
  rewrite (ST_step _ _ _ tt sized).
  2:{ unfold on_disk, ensure_parent. change (l_disk sized) with (l_disk s). rewrite ends_relative by done. cbv beta iota zeta.
      rewrite Dir_relative by done. unfold mbind, ST_bind, st_get.
      pose proof Hp as [Hk' _]%Forall_app. rewrite lstat_at by done. by rewrite He0. }
  rewrite Hmeta. rewrite (ST_step _ _ _ tt sized) by done. cbn [andb].
  assert (Hne : k ++ [x] ≠ []) by (by destruct k).
  unfold entry_path. rewrite PathJoin_relative, Rel_root, not_breakout by done.
  rewrite (ST_step _ _ _ (abs_path (k ++ [x])) sized) by done.
  rewrite Base_snoc by (apply Forall_app in Hp as [_ [? _]%Forall_cons]; done). done.
Qed.

(** The header that is written, with its clean name. *)
Definition written_header : Header := with_ids (with_name h (Join "/" (k ++ [x]))) (Uid h) (Gid h).

Lemma map_ids_id {S} (g : Header) (st : S) :
  map_ids g 0 0 (o_UIDMaps opts) (o_GIDMaps opts) st = (Ok (with_ids g (Uid g) (Gid g)), st).
Proof using no_uid_maps no_gid_maps.
  unfold map_ids, map_id. rewrite no_uid_maps, no_gid_maps. by repeat case_decide.
Qed.

(** What is left of the disk when the path is cleared. *)
Definition cleared : Disk :=
  match l_disk s !! (k ++ [x]) with
  | Some fi => if entry_dir fi && bool_decide (Flag h = TypeDir) then l_disk s
               else filter (λ kv, below (k ++ [x]) kv.1 = false) (l_disk s)
  | None => l_disk s
  end.

Lemma through_entry : entry_dir e0 = true → through_dirs (l_disk s) (k ++ [x]).
Proof using Hk He0. by apply through_dirs_snoc. Qed.

Lemma unpack_put e' :
  entry_dir e0 = true → HasPrefix x WhiteoutPrefix = false →
  ¬ (Flag h = TypeLink ∧ HasPrefix (Clean (Linkname h)) WhiteoutLinkDir = true) →
  createTarFile K (abs_path (k ++ [x])) "/" written_header content true None cleared =
    (Ok tt, <[k ++ [x] := e']> cleared) →
  ∃ s', unpack_entry K "/" 0 0 opts (h, content) s = (Ok tt, s') ∧
    l_disk s' = <[k ++ [x] := e']> cleared ∧
    l_dirs s' = l_dirs s ++ (if decide (Flag h = TypeDir) then [written_header] else []).
Proof using Hp Hk He0 Hname Hmeta KernelLaws0 no_uid_maps no_gid_maps.
  intros Hdir Hwh Hlink Hcreate. rewrite unpack_entry_checked, Hwh.
  set (s1 := mkLayer cleared (l_size sized) (l_dirs s) (l_unpacked s) (l_aufs s)).
  rewrite (ST_step _ _ _ tt s1).
  2:{ unfold on_disk, clear_path. change (l_disk sized) with (l_disk s). unfold mbind, ST_bind, st_get.
      rewrite lstat_at by (try apply through_entry; done). unfold s1, cleared.
      destruct (l_disk s !! (k ++ [x])) as [fi|] eqn:Efi; [|done].
      destruct (entry_dir fi && bool_decide (Flag h = TypeDir)); [done|].
      by rewrite RemoveAll_at by (try apply through_entry; done). }
  rewrite (ST_step _ _ _ (None, with_name h (Join "/" (k ++ [x])), content) s1).
  2:{ unfold layer_source. by rewrite decide_False. }
  rewrite (ST_step _ _ _ written_header s1) by apply map_ids_id.
  rewrite (ST_step _ _ _ tt s1) by done.
  set (s2 := mkLayer (<[k ++ [x] := e']> cleared) (l_size sized) (l_dirs s) (l_unpacked s) (l_aufs s)).
  rewrite (ST_step _ _ _ tt s2).
  2:{ unfold on_disk. change (l_disk s1) with cleared. by rewrite Hcreate. }
  case_decide; (eexists; split; [reflexivity|]); (split; [done|]); [done|]. cbn. by rewrite app_nil_r.
Qed.

Lemma unpack_whiteout y :
  x = WhiteoutPrefix +:+ y → HasPrefix y WhiteoutPrefix = false → name_ok y →
  (entry_dir e0 = true ∨ (entry_dir e0 = false ∧ entry_symlink e0 = false)) →
  ∃ s', unpack_entry K "/" 0 0 opts (h, content) s = (Ok tt, s') ∧ l_dirs s' = l_dirs s ∧
    l_disk s' = if entry_dir e0 then filter (λ kv, below (k ++ [y]) kv.1 = false) (l_disk s) else l_disk s.
Proof using Hp Hk He0 Hname Hmeta KernelLaws0.
  intros Hx Hy Hyok Hcase. rewrite unpack_entry_checked. pose proof Hp as [Hkok _]%Forall_app.
  replace (HasPrefix x WhiteoutPrefix) with true by (rewrite Hx; symmetry; apply HasPrefix_app).
  unfold apply_whiteout. rewrite decide_False.
  2:{ rewrite Hx. intros E. apply (inj (String.append WhiteoutPrefix)) in E. by subst y. }
  rewrite Dir_abs by done. rewrite Hx, drop_bytes_app, PathJoin_name by done.
  assert (Hky : Forall name_ok (k ++ [y])) by (apply Forall_app; auto).
  unfold on_disk. change (l_disk sized) with (l_disk s).
  destruct Hcase as [Hd|[Hd Hs]]; rewrite Hd.
  - assert (Ht : through_dirs (l_disk s) (k ++ [y])) by (by eapply through_dirs_snoc).
    rewrite RemoveAll_at by done. eexists. split; [reflexivity|]. done.
  - unfold RemoveAll. rewrite elements_abs by done. rewrite namei_file.
    + eexists. split; [reflexivity|]. done.
    + exists k, y, [], e0. by split_and!.
Qed.
End entry.

(** ** The order of the entries *)

Lemma String_le_prefix s t : String.le s (s +:+ t).
Proof.
  unfold String.le, String.leb.
  assert (H : String.compare s (s +:+ t) = Eq ∨ String.compare s (s +:+ t) = Lt); [|by destruct H as [-> | ->]].
  induction s as [|a s IH]; [destruct t; [by left|by right]|]. rewrite app_cons_str. simpl.
  unfold Ascii.compare. by rewrite N.compare_refl.
Qed.

Lemma abs_path_le q r : q ≠ [] → String.le (abs_path q) (abs_path (q ++ r)).
Proof.
  intros Hq. destruct r as [|x r]; [rewrite app_nil_r; apply String_le_prefix || reflexivity|].
  rewrite abs_path_app by done. apply String_le_prefix.
Qed.

Section order.
Context (new old : node) (Hnew : wf_tree new) (Hold : wf_tree old).
Context (past : list Change) (c : Change) (rest : list Change).
Context (HL : merge_sort change_le (Changes new old) = past ++ c :: rest).

Lemma sorted_elem c' : c' ∈ past ++ c :: rest ↔ c' ∈ Changes new old.
Proof using HL. by rewrite <-HL, merge_sort_Permutation. Qed.

Lemma sorted_NoDup : NoDup (map Path (past ++ c :: rest)).
Proof using HL Hnew Hold. rewrite <-HL, merge_sort_Permutation. by apply Changes_NoDup. Qed.

Lemma sorted_all : StronglySorted change_le (past ++ c :: rest).
Proof using HL.
  rewrite <-HL. apply StronglySorted_merge_sort.
  - intros a b e. unfold change_le. apply transitivity.
  - intros a b. unfold change_le. apply String.le_total.
Qed.

Lemma sorted_le c' : c' ∈ past → String.le (Path c') (Path c).
Proof using HL.
  pose proof sorted_all as (H & _ & _)%StronglySorted_app. intros Hc'. apply (H c' c); [done|left].
Qed.

Lemma sorted_ge c' : c' ∈ rest → String.le (Path c) (Path c').
Proof using HL.
  intros Hc'. pose proof sorted_all as (_ & _ & [_ Ha]%StronglySorted_inv)%StronglySorted_app.
  rewrite Forall_forall in Ha. by apply Ha.
Qed.

(** A directory comes before what is in it. *)
Lemma sorted_parent q r k :
  q ≠ [] → r ≠ [] → Forall name_ok (q ++ r) → Path c = abs_path (q ++ r) →
  mkChange (abs_path q) k ∈ Changes new old → mkChange (abs_path q) k ∈ past.
Proof using HL.
  intros Hq Hr Hok Hc Hk. apply sorted_elem in Hk. apply elem_of_app in Hk as [?|[Hk|Hk]%elem_of_cons]; [done| |].
  - apply (f_equal Path) in Hk. cbn [Path] in Hk. rewrite Hc in Hk. pose proof Hok as [? _]%Forall_app.
    apply abs_path_inj in Hk; [|done..]. apply (f_equal length) in Hk. rewrite length_app in Hk.
    destruct r; [done|]. simpl in Hk. lia.
  - apply sorted_ge in Hk. cbn [Path] in Hk. rewrite Hc in Hk. pose proof Hok as [? _]%Forall_app.
    assert (E : abs_path q = abs_path (q ++ r)) by (apply (anti_symm String.le); [by apply abs_path_le|done]).
    apply abs_path_inj in E; [|done..]. apply (f_equal length) in E. rewrite length_app in E.
    destruct r; [done|]. simpl in E. lia.
Qed.

(** What is in it is not before it, nor is it itself. *)
Lemma sorted_below_later q r k :
  q ≠ [] → Forall name_ok (q ++ r) → Path c = abs_path q → mkChange (abs_path (q ++ r)) k ∉ past.
Proof using HL Hnew Hold.
  intros Hq Hok Hc Hin. pose proof Hok as [Hqok _]%Forall_app. pose proof (sorted_le _ Hin) as Hle. cbn [Path] in Hle.
  rewrite Hc in Hle.
  assert (E : abs_path q = abs_path (q ++ r)) by (apply (anti_symm String.le); [by apply abs_path_le|done]).
  pose proof sorted_NoDup as Hnd. rewrite map_app in Hnd. apply NoDup_app in Hnd as (_ & Hnd & _).
  apply (Hnd (Path c)); [|left]. rewrite Hc, E. by apply (list_elem_of_fmap_2 Path _ (mkChange (abs_path (q ++ r)) k)).
Qed.
End order.

(** A change below a node that is still there comes with a change of the node. *)
Lemma changes_closed new old q r k :
  wf_tree new → wf_tree old → q ≠ [] → r ≠ [] → Forall name_ok (q ++ r) →
  mkChange (abs_path (q ++ r)) k ∈ Changes new old →
  ∃ n j, tree_at new q = Some n ∧ mkChange (abs_path q) j ∈ Changes new old ∧ j ≠ ChangeDelete ∧ mode_isDir (stat n) = true.
Proof.
  intros Hnew Hold Hq Hr Hok Hin. pose proof Hok as [Hqok Hrok]%Forall_app.
  assert (Hn : ∃ n, tree_at new q = Some n ∧ mode_isDir (stat n) = true).
  { assert (Hchild : ∀ m, tree_at new (q ++ r) = Some m → ∃ n, tree_at new q = Some n ∧ mode_isDir (stat n) = true).
    { intros m Hm. rewrite tree_at_app in Hm. destruct (tree_at new q) as [n|] eqn:En; [|done]. exists n. split; [done|].
      pose proof (proj1 (wf_tree_at _ _ _ Hnew En)) as Hwn. destruct r as [|x r]; [done|]. simpl in Hm.
      destruct (assoc x (children n)) eqn:Ex; [|done]. apply is_directory_mode. by eapply wf_child. }
    destruct k.
    - apply Changes_Modify in Hin as (n & _ & Hn & _); [by eapply Hchild|done..|by destruct q|done].
    - apply Changes_Add in Hin as [[n Hn] _]; [by eapply Hchild|done..].
    - apply Changes_Delete in Hin as (_ & _ & q' & x & d & E & Hd & Hdir); [|done..].
      destruct r as [|y r _] using rev_ind; [done|]. rewrite app_assoc in E. apply app_inj_tail in E as [<- <-].
      destruct r as [|z r].
      + rewrite app_nil_r in Hd, Hdir. exists d. split; [done|]. naive_solver.
      + rewrite tree_at_app in Hd. destruct (tree_at new q) as [n|] eqn:En; [|done]. exists n. split; [done|].
        pose proof (proj1 (wf_tree_at _ _ _ Hnew En)) as Hwn. simpl in Hd.
        destruct (assoc z (children n)) eqn:Ex; [|done]. apply is_directory_mode. by eapply wf_child. }
  destruct Hn as (n & Hn & Hdir). exists n. destruct (tree_at old q) as [o|] eqn:Eo.
  - exists ChangeModify. split_and!; [done| |done|done]. apply Changes_Modify; [done..|].
    exists n, o. split_and!; [done..|]. right. split; [done|]. eauto.
  - exists ChangeAdd. split_and!; [done| |done|done]. apply Changes_Add; [done..|]. eauto.
Qed.

(** ** The invariant *)

(** What is assumed of a tree on disk: its nodes can be archived, its root is a
    directory, and no file is named like a whiteout. *)
Record disk_tree (t : node) : Prop := {
  dt_wf : wf_tree t;
  dt_ok : ∀ p n, tree_at t p = Some n → node_ok n;
  dt_root : is_directory (stat t);
  dt_names : ∀ p x n, tree_at t (p ++ [x]) = Some n → HasPrefix x WhiteoutPrefix = false
}.

Definition times_ok (t : node) : Prop := ∀ p n, tree_at t p = Some n → time_ok n.

(** Hard links to the same inode show the same file. *)
Definition links_agree (t : node) : Prop :=
  ∀ p q n m, tree_at t p = Some n → tree_at t q = Some m → Ino (stat n) = Ino (stat m) →
    1 < Nlink (stat n) → 1 < Nlink (stat m) → type_of n ≠ S_IFDIR → type_of m ≠ S_IFDIR →
    stat n = stat m ∧ capability n = capability m ∧ data n = data m.

Section invariant.
Context (new old : node) (Hnew : disk_tree new) (Hold : disk_tree old).

Definition put (l : list Change) (p : list string) : Prop := ∃ k, mkChange (abs_path p) k ∈ l ∧ k ≠ ChangeDelete.
Definition del (l : list Change) (p : list string) : Prop := mkChange (abs_path p) ChangeDelete ∈ l.

(** Both trees have a directory at the path. *)
Definition merged (p : list string) : Prop :=
  ∃ n o, tree_at new p = Some n ∧ tree_at old p = Some o ∧ type_of n = S_IFDIR ∧ type_of o = S_IFDIR.

Lemma merged_dec p : Decision (merged p).
Proof.
  unfold merged. destruct (tree_at new p) as [n|]; [|right; naive_solver].
  destruct (tree_at old p) as [o|]; [|right; naive_solver].
  destruct (decide (type_of n = S_IFDIR ∧ type_of o = S_IFDIR)); [left; naive_solver|right; naive_solver].
Qed.

(** An entry that was processed removed what the old tree had at the path. *)
Definition killed (l : list Change) (p : list string) : Prop :=
  ∃ q r, p = q ++ r ∧ (del l q ∨ (put l q ∧ r ≠ [] ∧ ¬ merged q)).

Record Inv (past : list Change) (seen : gmap N string) (s : layer_state) : Prop := {
  i_put p : Forall name_ok p → put past p →
    ∃ e n, l_disk s !! p = Some e ∧ tree_at new p = Some n ∧ written e n;
  i_old p : Forall name_ok p → ¬ put past p → ¬ killed past p → l_disk s !! p = entry_of <$> tree_at old p;
  i_gone p : Forall name_ok p → ¬ put past p → killed past p → l_disk s !! p = None;
  i_seen ino name : seen !! ino = Some name →
    ∃ p n, name = Join "/" p ∧ p ≠ [] ∧ Forall name_ok p ∧ tree_at new p = Some n ∧ Ino (stat n) = ino ∧
      1 < Nlink (stat n) ∧ type_of n ≠ S_IFDIR ∧ put past p;
  i_dirs g : g ∈ l_dirs s →
    ∃ p n, Name g = Join "/" p ∧ p ≠ [] ∧ Forall name_ok p ∧ tree_at new p = Some n ∧ type_of n = S_IFDIR ∧ put past p
}.

Lemma written_type e n : written e n → file_type (e_stat e) = type_of n.
Proof. intros (E & _). unfold type_of, file_type. by rewrite E. Qed.

Lemma child_directory p r n m : r ≠ [] → tree_at new p = Some n → tree_at new (p ++ r) = Some m → type_of n = S_IFDIR.
Proof using Hnew.
  intros Hr Hn Hm. rewrite tree_at_app, Hn in Hm. simpl in Hm.
  pose proof (proj1 (wf_tree_at _ _ _ (dt_wf _ Hnew) Hn)) as Hw. destruct r as [|x r]; [done|]. simpl in Hm.
  destruct (assoc x (children n)) eqn:E; [|done]. by destruct (wf_child _ _ _ Hw E) as (_ & _ & ?).
Qed.

(** The nodes that the comparison takes for directories. *)
Lemma mode_isDir_type n : node_ok n → mode_isDir (stat n) = true → type_of n = S_IFDIR ∨ type_of n = S_IFBLK.
Proof.
  intros Hok%node_type_cases Hd. unfold mode_isDir in Hd. apply negb_true_iff, N.eqb_neq in Hd.
  assert (E : N.land (Mode (stat n)) S_IFDIR = N.land (type_of n) S_IFDIR) by (unfold type_of, file_type; by rewrite <-N.land_assoc).
  rewrite E in Hd. destruct Hok as [Ht|[Ht|[Ht|[Ht|[Ht|Ht]]]]]; rewrite Ht in Hd; auto; by destruct Hd.
Qed.

Section past.
Context (past : list Change) (c : Change) (rest : list Change).
Context (HL : merge_sort change_le (Changes new old) = past ++ c :: rest).
Context (seen : gmap N string) (s : layer_state) (HI : Inv past seen s).

Lemma past_sub c' : c' ∈ past → c' ∈ Changes new old.
Proof using HL. intros H. apply (sorted_elem new old past c rest HL). apply elem_of_app. by left. Qed.

Lemma not_change_root k : mkChange (abs_path []) k ∉ past.
Proof using HL Hnew Hold.
  intros Hk. apply past_sub in Hk.
  destruct (Changes_path _ _ (dt_wf _ Hnew) (dt_wf _ Hold) _ Hk) as (q & Hq & Hok & E). cbn [Path] in E.
  symmetry in E. by apply (abs_path_root q) in E.
Qed.

Lemma root_entry : l_disk s !! [] = Some (entry_of old).
Proof using HL HI Hnew Hold.
  rewrite (i_old _ _ _ HI); [done|constructor|by intros (k & ?%not_change_root & _)|].
  intros ([|??] & r & E & H); [|done]. destruct H as [?%not_change_root|((k & ?%not_change_root & _) & _)]; done.
Qed.

Lemma entry_dir_type e n : written e n → type_of n = S_IFDIR → entry_dir e = true.
Proof. intros Hw Ht. unfold entry_dir. rewrite (written_type e n Hw), Ht. done. Qed.

(** The way to a path whose directories were all put. *)
Lemma through_puts p :
  Forall name_ok p →
  (∀ q x r, p = q ++ x :: r → q ≠ [] → put past q ∧ ∃ n, tree_at new q = Some n ∧ type_of n = S_IFDIR) →
  through_dirs (l_disk s) p.
Proof using HL HI Hnew Hold.
  intros Hok H q x r E. destruct (decide (q = [])) as [->|Hq].
  - exists (entry_of old). split; [apply root_entry|]. unfold entry_dir. apply N.eqb_eq, (dt_root _ Hold).
  - destruct (H q x r E Hq) as (Hput & n & Hn & Ht). subst p. apply Forall_app in Hok as [Hqok _].
    destruct (i_put _ _ _ HI q Hqok Hput) as (e & n' & He & Hn' & Hw). exists e. split; [done|].
    eapply entry_dir_type; [done|]. congruence.
Qed.

(** The directories on the way to the change at hand. *)
Lemma prefix_put q r :
  q ≠ [] → r ≠ [] → Forall name_ok (q ++ r) → Path c = abs_path (q ++ r) →
  put past q ∧ ∃ n, tree_at new q = Some n ∧ mode_isDir (stat n) = true.
Proof using HL Hnew Hold.
  intros Hq Hr Hok Hc.
  assert (Hin : mkChange (abs_path (q ++ r)) (Kind c) ∈ Changes new old).
  { rewrite <-Hc. apply (sorted_elem new old past c rest HL). destruct c. apply elem_of_app. right. left. }
  destruct (changes_closed new old q r _ (dt_wf _ Hnew) (dt_wf _ Hold) Hq Hr Hok Hin) as (n & j & Hn & Hj & Hjd & Hd).
  split; [|eauto]. exists j. split; [|done]. by eapply sorted_parent.
Qed.

Lemma parent_ready k x :
  Forall name_ok (k ++ [x]) → Path c = abs_path (k ++ [x]) →
  through_dirs (l_disk s) k ∧ ∃ e0, l_disk s !! k = Some e0 ∧
    (is_Some (tree_at new (k ++ [x])) → entry_dir e0 = true) ∧
    (entry_dir e0 = true ∨ (entry_dir e0 = false ∧ entry_symlink e0 = false ∧ ¬ merged k ∧ put past k)).
Proof using HL HI Hnew Hold.
  intros Hok Hc. pose proof Hok as [Hk Hx]%Forall_app. split.
  - apply through_puts; [done|]. intros q y r -> Hq.
    destruct (prefix_put q ((y :: r) ++ [x])) as (Hput & n & Hn & _); [done|done|by rewrite app_assoc|by rewrite app_assoc|].
    split; [done|]. exists n. split; [done|].
    destruct (prefix_put (q ++ y :: r) [x]) as (_ & m & Hm & _); [by destruct q|done|done|done|].
    by eapply (child_directory q (y :: r)).
  - destruct (decide (k = [])) as [->|Hk0].
    { exists (entry_of old). assert (entry_dir (entry_of old) = true) by apply N.eqb_eq, (dt_root _ Hold).
      split_and!; [apply root_entry|done|by left]. }
    destruct (prefix_put k [x] Hk0 ltac:(done) Hok Hc) as (Hput & n & Hn & Hdir).
    destruct (i_put _ _ _ HI k Hk Hput) as (e & n' & He & Hn' & Hw). rewrite Hn in Hn'. injection Hn' as <-.
    exists e. split; [done|]. split.
    + intros [m Hm]. eapply entry_dir_type; [done|]. by eapply (child_directory k [x]).
    + destruct (mode_isDir_type n (dt_ok _ Hnew _ _ Hn) Hdir) as [Ht|Ht].
      * left. by eapply entry_dir_type.
      * right. unfold entry_dir, entry_symlink. rewrite (written_type _ _ Hw), Ht. split_and!; [done|done| |done].
        intros (n1 & o & Hn1 & _ & Ht1 & _). rewrite Hn in Hn1. injection Hn1 as <-. by rewrite Ht in Ht1.
Qed.

(** The way to a file that was put. *)
Lemma put_through t :
  Forall name_ok t → put past t → through_dirs (l_disk s) t.
Proof using HL HI Hnew Hold.
  intros Hok (k & Hk & Hkd). apply through_puts; [done|]. intros q y r -> Hq.
  pose proof Hok as [Hqok _]%Forall_app.
  destruct (i_put _ _ _ HI (q ++ y :: r) Hok ltac:(by exists k)) as (e & m & _ & Hm & _).
  destruct (changes_closed new old q (y :: r) k (dt_wf _ Hnew) (dt_wf _ Hold) Hq ltac:(done) Hok (past_sub _ Hk))
    as (n & j & Hn & Hj & Hjd & _).
  split; [|exists n; split; [done|by eapply (child_directory q (y :: r))]].
  exists j. split; [|done]. apply (sorted_elem new old past c rest HL) in Hj.
  apply elem_of_app in Hj as [?|Hj]; [done|]. exfalso.
  pose proof (sorted_le new old past c rest HL _ Hk) as Hle. cbn [Path] in Hle.
  assert (Hge : String.le (Path c) (abs_path q)).
  { apply elem_of_cons in Hj as [Hj|Hj]; [by rewrite <-Hj|]. by apply (sorted_ge new old past c rest HL) in Hj. }
  assert (E : abs_path q = abs_path (q ++ y :: r)).
  { apply (anti_symm String.le); [by apply abs_path_le|]. by transitivity (Path c). }
  apply abs_path_inj in E; [|done..]. apply (f_equal length) in E. rewrite length_app in E. simpl in E. lia.
Qed.

Lemma killed_prefix p r : killed past p → killed past (p ++ r).
Proof.
  intros (q & t & -> & H). exists q, (t ++ r). rewrite <-app_assoc. split; [done|].
  destruct H as [?|(? & ? & ?)]; [by left|right]. split_and!; [done|by destruct t|done].
Qed.

Lemma not_put_below p r : p ≠ [] → Forall name_ok (p ++ r) → Path c = abs_path p → ¬ put past (p ++ r).
Proof using HL Hnew Hold.
  intros Hp Hok Hc (k & Hk & _). by eapply (sorted_below_later new old); [apply dt_wf|apply dt_wf|..].
Qed.

(** What the disk has at a path that was not put, it has from the old tree. *)
Lemma disk_old p e :
  Forall name_ok p → ¬ put past p → l_disk s !! p = Some e →
  ∃ o, tree_at old p = Some o ∧ e = entry_of o ∧ ¬ killed past p.
Proof using HI.
  intros Hok Hput He. assert (Hk : ¬ killed past p) by (intros Hk; by rewrite (i_gone _ _ _ HI p Hok Hput Hk) in He).
  rewrite (i_old _ _ _ HI p Hok Hput Hk) in He. destruct (tree_at old p) as [o|]; [|done]. exists o. by simplify_eq/=.
Qed.

Lemma nothing_below p r :
  p ≠ [] → Forall name_ok (p ++ r) → Path c = abs_path p → l_disk s !! p = None → l_disk s !! (p ++ r) = None.
Proof using HL HI Hnew Hold.
  intros Hp Hok Hc Hn. pose proof Hok as [Hpok _]%Forall_app.
  destruct (l_disk s !! (p ++ r)) as [e|] eqn:E; [exfalso|done].
  apply disk_old in E as (o & Ho & _ & Hk); [|done|by apply not_put_below].
  assert (Hk' : ¬ killed past p) by (intros ?; apply Hk; by apply killed_prefix).
  assert (Hput : ¬ put past p) by (rewrite <-(app_nil_r p); apply not_put_below; rewrite ?app_nil_r; done).
  rewrite (i_old _ _ _ HI p Hpok Hput Hk') in Hn.
  rewrite tree_at_app in Ho. by destruct (tree_at old p).
Qed.

Lemma inv_put p k n e' d1 s' seen' :
  p ≠ [] → Forall name_ok p → c = mkChange (abs_path p) k → k ≠ ChangeDelete →
  tree_at new p = Some n → written e' n →
  (∀ q, below p q = false → d1 !! q = l_disk s !! q) →
  (∀ r, r ≠ [] → Forall name_ok (p ++ r) → (merged p → d1 !! (p ++ r) = l_disk s !! (p ++ r)) ∧ (¬ merged p → d1 !! (p ++ r) = None)) →
  l_disk s' = <[p := e']> d1 →
  (∀ ino name, seen' !! ino = Some name → seen !! ino = Some name ∨
     (name = Join "/" p ∧ Ino (stat n) = ino ∧ 1 < Nlink (stat n) ∧ type_of n ≠ S_IFDIR)) →
  (∀ g, g ∈ l_dirs s' → g ∈ l_dirs s ∨ (Name g = Join "/" p ∧ type_of n = S_IFDIR)) →
  Inv (past ++ [c]) seen' s'.
Proof using HL HI Hnew Hold.
  intros Hp Hok Hc Hk Hn Hw Hout Hin Hd Hseen Hdirs.
  assert (HPc : Path c = abs_path p) by (by rewrite Hc).
  assert (Hput : ∀ q, Forall name_ok q → put (past ++ [c]) q ↔ put past q ∨ q = p).
  { intros q Hq. unfold put. setoid_rewrite elem_of_app. setoid_rewrite list_elem_of_singleton. split.
    - intros (j & [?|E] & ?); [left; eauto|right]. rewrite Hc in E. apply (f_equal Path) in E. by apply abs_path_inj in E.
    - intros [(j & ? & ?)| ->]; [eauto|]. exists k. by rewrite Hc; auto. }
  assert (Hdel : ∀ q, del (past ++ [c]) q ↔ del past q).
  { intros q. unfold del. rewrite elem_of_app, list_elem_of_singleton. split; [|by left].
    intros [?|E]; [done|]. rewrite Hc in E. apply (f_equal Kind) in E. by cbn in E. }
  assert (Hkilled : ∀ q, Forall name_ok q → killed (past ++ [c]) q ↔ killed past q ∨ ∃ r, q = p ++ r ∧ r ≠ [] ∧ ¬ merged p).
  { intros q Hq. split.
    - intros (a & r & -> & H). pose proof Hq as [Ha _]%Forall_app. rewrite Hdel, Hput in H by done.
      destruct H as [H|([H| ->] & Hr & Hm)]; [left; exists a, r; auto|left; exists a, r; auto|right; eauto].
    - intros [(a & r & -> & H)|(r & -> & Hr & Hm)].
      + exists a, r. split; [done|]. pose proof Hq as [Ha _]%Forall_app. rewrite Hdel, Hput by done. naive_solver.
      + exists p, r. split; [done|]. right. rewrite Hput by done. auto. }
  constructor.
  - intros q Hq Hqp. apply Hput in Hqp as [Hqp| ->]; [|exists e', n; rewrite Hd, lookup_insert_eq; done|done].
    assert (Hb : below p q = false).
    { apply below_false. intros [r ->]. by eapply not_put_below. }
    rewrite Hd, lookup_insert_ne, Hout by (try done; intros ->; by rewrite (proj2 (below_spec q q)) in Hb by (exists []; by rewrite app_nil_r)).
    by apply (i_put _ _ _ HI).
  - intros q Hq Hqp Hqk. rewrite Hput in Hqp by done. rewrite Hkilled in Hqk by done.
    rewrite Hd, lookup_insert_ne by naive_solver. destruct (below p q) eqn:Eb.
    + apply below_spec in Eb as [r ->]. assert (Hr : r ≠ []) by (intros ->; rewrite app_nil_r in Hqp; naive_solver).
      destruct (merged_dec p) as [Hm|Hm]; [|destruct Hqk; right; eauto].
      rewrite (proj1 (Hin r Hr Hq)) by done. apply (i_old _ _ _ HI); [done|tauto|tauto].
    + rewrite Hout by done. apply (i_old _ _ _ HI); naive_solver.
  - intros q Hq Hqp Hqk. rewrite Hput in Hqp by done. rewrite Hkilled in Hqk by done.
    rewrite Hd, lookup_insert_ne by naive_solver. destruct (below p q) eqn:Eb.
    + apply below_spec in Eb as [r ->]. assert (Hr : r ≠ []) by (intros ->; rewrite app_nil_r in Hqp; naive_solver).
      destruct (Hin r Hr Hq) as [H1 H2]. destruct (merged_dec p) as [Hm|Hm]; [|by apply H2].
      rewrite H1 by done. apply (i_gone _ _ _ HI); [done|tauto|].
      destruct Hqk as [?|(r' & _ & _ & ?)]; done.
    + rewrite Hout by done. apply (i_gone _ _ _ HI); [done|tauto|].
      destruct Hqk as [?|(r & -> & _)]; [done|]. rewrite (proj2 (below_spec p (p ++ r))) in Eb by eauto. done.
  - intros ino name [Hs|(-> & Hi & Hl & Ht)]%Hseen.
    + destruct (i_seen _ _ _ HI _ _ Hs) as (q & m & ? & ? & ? & ? & ? & ? & ? & Hq). exists q, m. split_and!; try done.
      apply Hput; auto.
    + exists p, n. split_and!; try done. apply Hput; auto.
  - intros g [Hg|(Hg & Ht)]%Hdirs.
    + destruct (i_dirs _ _ _ HI _ Hg) as (q & m & ? & ? & ? & ? & ? & Hq). exists q, m. split_and!; try done.
      apply Hput; auto.
    + exists p, n. split_and!; try done. apply Hput; auto.
Qed.

Lemma inv_del p s' :
  p ≠ [] → Forall name_ok p → c = mkChange (abs_path p) ChangeDelete →
  (∀ q, Forall name_ok q → l_disk s' !! q = if below p q then None else l_disk s !! q) → l_dirs s' = l_dirs s →
  Inv (past ++ [c]) seen s'.
Proof using HL HI Hnew Hold.
  intros Hp Hok Hc Hd Hdirs.
  assert (HPc : Path c = abs_path p) by (by rewrite Hc).
  assert (Hput : ∀ q, put (past ++ [c]) q ↔ put past q).
  { intros q. unfold put. setoid_rewrite elem_of_app. setoid_rewrite list_elem_of_singleton. split.
    - intros (j & [?|E] & ?); [eauto|]. rewrite Hc in E. apply (f_equal Kind) in E. by cbn in E.
    - intros (j & ? & ?). eauto. }
  assert (Hkilled : ∀ q, Forall name_ok q → killed (past ++ [c]) q ↔ killed past q ∨ ∃ r, q = p ++ r).
  { intros q Hq. unfold killed. setoid_rewrite Hput. unfold del. setoid_rewrite elem_of_app.
    setoid_rewrite list_elem_of_singleton. split.
    - intros (a & r & -> & [[?|E]|?]); [left; exists a, r; auto| |left; exists a, r; auto].
      right. exists r. rewrite Hc in E. apply (f_equal Path) in E. apply Forall_app in Hq as [Ha _].
      by apply abs_path_inj in E as ->.
    - intros [(a & r & -> & H)|(r & ->)]; [exists a, r; naive_solver|]. exists p, r. rewrite Hc. auto. }
  constructor.
  - intros q Hq Hqp%Hput. rewrite Hd by done. destruct (below p q) eqn:Eb; [|by apply (i_put _ _ _ HI)].
    apply below_spec in Eb as [r ->]. by apply not_put_below in Hqp.
  - intros q Hq Hqp Hqk. rewrite Hput in Hqp. rewrite Hkilled in Hqk by done. rewrite Hd by done.
    destruct (below p q) eqn:Eb; [apply below_spec in Eb; tauto|]. apply (i_old _ _ _ HI); tauto.
  - intros q Hq Hqp Hqk. rewrite Hput in Hqp. rewrite Hkilled in Hqk by done. rewrite Hd by done.
    destruct (below p q) eqn:Eb; [done|]. apply (i_gone _ _ _ HI); [done..|].
    destruct Hqk as [?|Hb]; [done|]. apply below_spec in Hb. congruence.
  - intros ino name Hs. destruct (i_seen _ _ _ HI _ _ Hs) as (q & m & ? & ? & ? & ? & ? & ? & ? & Hq). exists q, m.
    split_and!; try done. by apply Hput.
  - intros g Hg. rewrite Hdirs in Hg. destruct (i_dirs _ _ _ HI _ Hg) as (q & m & ? & ? & ? & ? & ? & Hq). exists q, m.
    split_and!; try done. by apply Hput.
Qed.

End past.
End invariant.

(** ** One change after the other *)

Lemma first_name t k x n :
  disk_tree t → tree_at t (k ++ [x]) = Some n → ∃ y r, k ++ [x] = y :: r ∧ HasPrefix y WhiteoutPrefix = false.
Proof.
  intros Ht Hn. destruct k as [|y k]; [exists x, []; split; [done|]; by eapply (dt_names t Ht [])|].
  exists y, (k ++ [x]). split; [done|]. simpl in Hn. destruct (assoc y (children t)) as [c|] eqn:E; [|done].
  apply (dt_names t Ht [] y c). simpl. by rewrite E.
Qed.

Lemma abs_path_drop p : drop_bytes 1 (abs_path p) = Join "/" p.
Proof. apply (drop_bytes_app "/" (Join "/" p)). Qed.

Lemma whiteout_name_of k x :
  Forall name_ok (k ++ [x]) → whiteout_name (abs_path (k ++ [x])) = Join "/" (k ++ [WhiteoutPrefix +:+ x]).
Proof.
  intros Hok. pose proof Hok as [Hk [Hx _]%Forall_cons]%Forall_app. unfold whiteout_name.
  rewrite Dir_abs, Base_snoc by done. rewrite PathJoin_name; [apply abs_path_drop|done|].
  destruct Hx as (? & ? & ? & Hx). split_and!; try done.
Qed.

Section layer.
Context (K : Kernel) `{!KernelLaws K} (opts : TarOptions).
Hypothesis no_uid_maps : o_UIDMaps opts = None.
Hypothesis no_gid_maps : o_GIDMaps opts = None.
Hypothesis at_root : cwd K = "/".
Context (new old : node) (Hnew : disk_tree new) (Hold : disk_tree old) (Hlinks : links_agree new) (Htimes : times_ok new)
  (now : Z).

Abbreviation Inv := (Inv new old).

Lemma step_delete past k x rest seen s :
  Forall name_ok (k ++ [x]) →
  merge_sort change_le (Changes new old) = past ++ mkChange (abs_path (k ++ [x])) ChangeDelete :: rest →
  Inv past seen s →
  ∃ h s', export_loop new now (mapped_nothing seen) (mkChange (abs_path (k ++ [x])) ChangeDelete :: rest)
       = (h, "") :: export_loop new now (mapped_nothing seen) rest ∧
    unpack_entry K "/" 0 0 opts (h, "") s = (Ok tt, s') ∧
    Inv (past ++ [mkChange (abs_path (k ++ [x])) ChangeDelete]) seen s'.
Proof using Hnew Hold KernelLaws0.
  intros Hok HL HI. set (c := mkChange (abs_path (k ++ [x])) ChangeDelete) in *.
  pose proof Hok as [Hk [Hx _]%Forall_cons]%Forall_app.
  assert (Hin : c ∈ Changes new old) by (apply (sorted_elem _ _ _ _ _ HL), elem_of_app; right; left).
  apply Changes_Delete in Hin as (Hnone & [o Ho] & q & y & dn & E & Hdn & _); [|apply Hnew|apply Hold|done].
  apply app_inj_tail in E as [<- <-].
  assert (Hxwh : HasPrefix x WhiteoutPrefix = false) by (by eapply (dt_names _ Hold)).
  destruct (parent_ready new old Hnew Hold past c rest HL seen s HI k x Hok eq_refl) as (Hth & e0 & He0 & _ & Hcase).
  set (h := mkHeader (whiteout_name (abs_path (k ++ [x]))) TypeRegA 0 0 0 0 now "" 0 0 None).
  assert (Hwok : Forall name_ok (k ++ [WhiteoutPrefix +:+ x])).
  { apply Forall_app. split; [done|]. constructor; [|constructor]. destruct Hx as (? & ? & ? & Hx). split_and!; try done. }
  assert (Hname : Clean (Name h) = Join "/" (k ++ [WhiteoutPrefix +:+ x])).
  { cbn [Name h]. rewrite whiteout_name_of by done. rewrite <-(app_nil_str (Join _ _)) at 1.
    apply Clean_relative; [done|by destruct k|by left]. }
  assert (Hmeta : HasPrefix (Join "/" (k ++ [WhiteoutPrefix +:+ x])) WhiteoutMetaPrefix = false).
  { destruct k as [|y k _] using rev_ind; [by apply no_meta_whiteout|].
    destruct (first_name new k y dn Hnew Hdn) as (z & r & E & Hz). rewrite E. simpl app. by apply no_meta. }
  destruct (unpack_whiteout K opts k (WhiteoutPrefix +:+ x) Hwok s e0 Hth He0 h "" Hname Hmeta x)
    as (s' & Hs & Hdirs & Hdisk); [done|done|done|tauto|].
  exists h, s'. split; [done|]. split; [done|].
  eapply (inv_del new old Hnew Hold past c rest HL seen s HI (k ++ [x]) s'); [by destruct k|done|done| |done].
  intros q Hq. rewrite Hdisk. destruct Hcase as [->|(-> & _ & Hnm & Hput)]; [apply lookup_remove|].
  destruct (below (k ++ [x]) q) eqn:Eb; [|done]. apply below_spec in Eb as [r ->].
  apply (i_gone _ _ _ _ _ HI); [done| |].
  - apply (not_put_below new old Hnew Hold past c rest HL); [by destruct k|done|done].
  - exists k, ([x] ++ r). rewrite app_assoc. split; [done|]. right. done.
Qed.

(** What clearing the path of a file leaves: nothing at the path or below it,
    unless two directories are merged. *)
Lemma cleared_disk past k x c rest seen s h n :
  let p := k ++ [x] in
  Forall name_ok p → merge_sort change_le (Changes new old) = past ++ c :: rest → Path c = abs_path p →
  Inv past seen s → through_dirs (l_disk s) p → tree_at new p = Some n → (Flag h = TypeDir ↔ type_of n = S_IFDIR) →
  let d1 := cleared k x s h in
  ((∃ o, l_disk s !! p = Some (entry_of o) ∧ tree_at old p = Some o ∧ type_of o = S_IFDIR ∧
      type_of n = S_IFDIR ∧ d1 = l_disk s) ∨
   (d1 !! p = None ∧ through_dirs d1 p)) ∧
  (∀ q, below p q = false → d1 !! q = l_disk s !! q) ∧
  (∀ r, r ≠ [] → Forall name_ok (p ++ r) →
    (merged new old p → d1 !! (p ++ r) = l_disk s !! (p ++ r)) ∧ (¬ merged new old p → d1 !! (p ++ r) = None)).
Proof using Hnew Hold.
  intros p Hok HL Hc HI Hthp Hn Hdirflag d1. assert (Hp0 : p ≠ []) by (unfold p; by destruct k).
  assert (Hput : ¬ put past p) by (rewrite <-(app_nil_r p); apply (not_put_below new old Hnew Hold past c rest HL);
    rewrite ?app_nil_r; done).
  unfold d1, cleared. fold p. destruct (l_disk s !! p) as [fi|] eqn:Efi.
  2:{ split_and!; [by right|done|]. intros r _ Hr. split; [done|]. intros _.
      by apply (nothing_below new old Hnew Hold past c rest HL seen s HI). }
  destruct (disk_old new old past seen s HI p fi Hok Hput Efi) as (o & Ho & -> & Hnk).
  destruct (entry_dir (entry_of o) && bool_decide (Flag h = TypeDir)) eqn:Eb.
  { apply andb_true_iff in Eb as [E1%N.eqb_eq E2%bool_decide_eq_true%Hdirflag]. split_and!; [left; eauto 10|done|].
    intros r _ _. split; [done|]. intros []. exists n, o. done. }
  assert (Hpp : below p p = true) by (apply below_spec; exists []; by rewrite app_nil_r). split_and!.
  - right. split; [by rewrite lookup_remove, Hpp|]. apply through_dirs_remove; [done|]. intros t.
    destruct t; [by right|left]. intros E. apply (f_equal length) in E. rewrite length_app in E. simpl in E. lia.
  - intros q Hq. by rewrite lookup_remove, Hq.
  - intros r _ Hr. rewrite lookup_remove. rewrite (proj2 (below_spec p (p ++ r))) by eauto. split; [|done].
    intros (n' & o' & Hn' & Ho' & Tn & To). rewrite Hn in Hn'. rewrite Ho in Ho'. simplify_eq.
    unfold entry_dir in Eb. cbn [entry_of e_stat] in Eb. unfold type_of in To. rewrite To in Eb. cbn in Eb.
    apply bool_decide_eq_false in Eb. by apply Hdirflag in Tn.
Qed.

(** The target of a hard link is on the disk that was cleared. *)
Lemma link_target_ready past p c rest seen s d1 target n :
  p ≠ [] → merge_sort change_le (Changes new old) = past ++ c :: rest → Path c = abs_path p →
  Inv past seen s → (∀ q, below p q = false → d1 !! q = l_disk s !! q) →
  tree_at new p = Some n → seen !! Ino (stat n) = Some target → 1 < Nlink (stat n) → type_of n ≠ S_IFDIR →
  ∃ t e m, target = Join "/" t ∧ t ≠ [] ∧ t ≠ p ∧ Forall name_ok t ∧ through_dirs d1 t ∧ d1 !! t = Some e ∧ written e m ∧
    type_of m ≠ S_IFDIR ∧ stat m = stat n ∧ capability m = capability n ∧ data m = data n ∧
    ∃ y r, t = y :: r ∧ HasPrefix y WhiteoutPrefix = false.
Proof using Hnew Hold Hlinks.
  intros Hp0 HL Hc HI Hout Hn Hseen Hl Hnd.
  destruct (i_seen _ _ _ _ _ HI _ _ Hseen) as (t & m & -> & Ht0 & Htok & Hm & Hino & Hml & Hmt & Hput).
  destruct (i_put _ _ _ _ _ HI t Htok Hput) as (e & m' & He & Hm' & Hw). rewrite Hm in Hm'. injection Hm' as <-.
  assert (Hb : ∀ q r, t = q ++ r → below p q = false).
  { intros q r ->. apply below_false. intros [u ->]. rewrite <-app_assoc in Hput, Htok.
    by apply (not_put_below new old Hnew Hold past c rest HL) in Hput. }
  destruct (Hlinks t p m n Hm Hn Hino Hml Hl Hmt Hnd) as (? & ? & ?).
  exists t, e, m. split_and!; try done.
  - intros ->. pose proof (Hb p [] (eq_sym (app_nil_r p))) as E.
    rewrite (proj2 (below_spec p p)) in E by (exists []; by rewrite app_nil_r). done.
  - eapply through_dirs_ext; [by apply (put_through new old Hnew Hold past c rest HL seen s HI)|].
    intros q y r E. apply Hout. by eapply Hb.
  - rewrite Hout; [done|]. apply (Hb t []). by rewrite app_nil_r.
  - destruct t as [|y t _] using rev_ind; [done|]. by apply (first_name new t y m).
Qed.

Lemma header_of_written k x h n : header_of h n → header_of (written_header k x h) n.
Proof. intros [? ? ? ? ? ? ?]. by constructor. Qed.

(** The file is made as its header says. *)
Lemma put_creates past k x c rest seen s h content n :
  let p := k ++ [x] in
  let linked := negb (type_of n =? S_IFDIR) && (1 <? Nlink (stat n)) in
  Forall name_ok p → merge_sort change_le (Changes new old) = past ++ c :: rest → Path c = abs_path p →
  Inv past seen s → through_dirs (l_disk s) p → tree_at new p = Some n → header_of h n →
  match (if linked then seen !! Ino (stat n) else None) with
  | Some target => Flag h = TypeLink ∧ Linkname h = target
  | None => Flag h = plain_flag n ∧ (type_of n = S_IFLNK → Linkname h = data n) ∧ (type_of n = S_IFREG → content = data n)
  end →
  let d1 := cleared k x s h in
  ∃ e', createTarFile K (abs_path p) "/" (written_header k x h) content true None d1 = (Ok tt, <[p := e']> d1) ∧
    written e' n ∧ ¬ (Flag h = TypeLink ∧ HasPrefix (Clean (Linkname h)) WhiteoutLinkDir = true) ∧
    (Flag h = TypeDir ↔ type_of n = S_IFDIR) ∧
    (∀ q, below p q = false → d1 !! q = l_disk s !! q) ∧
    (∀ r, r ≠ [] → Forall name_ok (p ++ r) →
      (merged new old p → d1 !! (p ++ r) = l_disk s !! (p ++ r)) ∧ (¬ merged new old p → d1 !! (p ++ r) = None)).
Proof using Hnew Hold Hlinks Htimes KernelLaws0 at_root.
  intros p linked Hok HL Hc HI Hth Hn Hh Hadd d1. assert (Hp0 : p ≠ []) by (unfold p; by destruct k).
  pose proof (dt_ok _ Hnew _ _ Hn) as Hnok. pose proof (header_of_written k x h n Hh) as Hh'.
  assert (Hpf : plain_flag n = TypeDir ↔ type_of n = S_IFDIR).
  { unfold plain_flag. destruct (node_type_cases n Hnok) as [E|[E|[E|[E|[E|E]]]]]; rewrite E; done. }
  assert (Hpl : plain_flag n ≠ TypeLink) by (unfold plain_flag; by repeat case_match).
  assert (Hdf : Flag h = TypeDir ↔ type_of n = S_IFDIR).
  { destruct linked eqn:El; [|by destruct Hadd as [-> _]]. apply andb_true_iff in El as [Ed%negb_true_iff%N.eqb_neq _].
    destruct (seen !! Ino (stat n)); destruct Hadd as [-> _]; [|done]. split; done. }
  destruct (cleared_disk past k x c rest seen s h n Hok HL Hc HI Hth Hn Hdf) as (Hd1 & Hout & Hbelow). fold p d1 in Hd1, Hout, Hbelow.
  enough (∃ e', (createTarFile K (abs_path p) "/" (written_header k x h) content true None d1 = (Ok tt, <[p := e']> d1) ∧
    written e' n) ∧ ¬ (Flag h = TypeLink ∧ HasPrefix (Clean (Linkname h)) WhiteoutLinkDir = true))
    as (e' & [H1 H2] & H3) by (exists e'; by split_and!).
  assert (Hplain : Flag h = plain_flag n → (type_of n = S_IFLNK → Linkname h = data n) →
    (type_of n = S_IFREG → content = data n) →
    ∃ e', (createTarFile K (abs_path p) "/" (written_header k x h) content true None d1 = (Ok tt, <[p := e']> d1) ∧
      written e' n) ∧ ¬ (Flag h = TypeLink ∧ HasPrefix (Clean (Linkname h)) WhiteoutLinkDir = true)).
  { intros Hf Hlk Hct. assert (Hnl : ¬ (Flag h = TypeLink ∧ HasPrefix (Clean (Linkname h)) WhiteoutLinkDir = true)).
    { intros [E _]. congruence. }
    destruct Hd1 as [(o & Ho & Hot & Hod & Hnd & E)|[Hnone Hth1]].
    - destruct (create_merge K k x Hok d1 ltac:(by rewrite E) (written_header k x h) n Hh' Hnok (Htimes _ _ Hn) content (entry_of o)) as [H1 H2];
        try done; [by rewrite E|unfold entry_dir; apply N.eqb_eq, Hod|..];
        try (pose proof (dt_ok _ Hold _ _ Hot) as (_ & Hcases); rewrite Hod in Hcases; naive_solver).
    - destruct (create_new K k x Hok d1 Hth1 (written_header k x h) n Hh' Hnok (Htimes _ _ Hn) content) as (e' & H1 & H2); try done.
      eauto. }
  destruct linked eqn:El; [destruct (seen !! Ino (stat n)) as [target|] eqn:Es|]; [|by apply Hplain; tauto..].
  destruct Hadd as [Hf Hl]. apply andb_true_iff in El as [Ed%negb_true_iff%N.eqb_neq Enl%N.ltb_lt].
  destruct Hd1 as [(o & _ & _ & _ & ? & _)|[Hnone Hth1]]; [done|].
  destruct (link_target_ready past p c rest seen s d1 target n Hp0 HL Hc HI Hout Hn Es Enl Ed)
    as (t & e & m & -> & Ht0 & Htp & Htok & Htt & Hte & Hw & Hmt & ? & ? & ? & y & r & -> & Hy).
  destruct (create_link K k x Hok d1 Hth1 (written_header k x h) n Hh' Hnok (Htimes _ _ Hn) content (y :: r) e m) as (e' & Hcr & Hw'); try done.
  exists e'. split; [done|].
  rewrite Hl, <-(app_nil_str (Join "/" (y :: r))). rewrite Clean_relative by auto. intros [_ HP].
  change WhiteoutLinkDir with (WhiteoutPrefix +:+ ".wh.plnk") in HP. apply HasPrefix_trans, HasPrefix_first in HP; [|done].
  congruence.
Qed.

Lemma step_put past k x j rest seen s :
  Forall name_ok (k ++ [x]) → j ≠ ChangeDelete →
  merge_sort change_le (Changes new old) = past ++ mkChange (abs_path (k ++ [x])) j :: rest →
  Inv past seen s →
  ∃ h content seen' s', export_loop new now (mapped_nothing seen) (mkChange (abs_path (k ++ [x])) j :: rest)
       = (h, content) :: export_loop new now (mapped_nothing seen') rest ∧
    unpack_entry K "/" 0 0 opts (h, content) s = (Ok tt, s') ∧
    Inv (past ++ [mkChange (abs_path (k ++ [x])) j]) seen' s'.
Proof using Hnew Hold Hlinks Htimes KernelLaws0 at_root no_uid_maps no_gid_maps.
  intros Hok Hj HL HI. set (c := mkChange (abs_path (k ++ [x])) j) in *. set (p := k ++ [x]) in *.
  assert (Hp0 : p ≠ []) by (unfold p; by destruct k).
  assert (Hin : c ∈ Changes new old) by (apply (sorted_elem _ _ _ _ _ HL), elem_of_app; right; left).
  assert (∃ n, tree_at new p = Some n) as [n Hn].
  { destruct j; [|apply Changes_Add in Hin as [? _]; [done|apply Hnew|apply Hold|done]|done].
    apply Changes_Modify in Hin as (n & _ & ? & _); [eauto|apply Hnew|apply Hold|done|done]. }
  pose proof (dt_ok _ Hnew _ _ Hn) as Hnok.
  assert (Hxwh : HasPrefix x WhiteoutPrefix = false) by (by eapply (dt_names _ Hnew)).
  destruct (parent_ready new old Hnew Hold past c rest HL seen s HI k x Hok eq_refl) as (Hth & e0 & He0 & Hdir0 & _).
  specialize (Hdir0 (mk_is_Some _ _ Hn)).
  destruct (addTarFile_header seen n (Join "/" p) Hnok) as (h & content & Hh & Hname & Hadd).
  assert (Hends : ends_with sep (Join "/" p) = false) by (by apply ends_relative).
  assert (Hclean : Clean (Name h) = Join "/" p).
  { rewrite Hname. unfold canonicalTarName. rewrite Hends. cbn [negb]. rewrite andb_true_r.
    destruct (type_of n =? S_IFDIR); [apply Clean_relative; auto|].
    rewrite <-(app_nil_str (Join "/" p)) at 1. apply Clean_relative; auto. }
  assert (Hmeta : HasPrefix (Join "/" p) WhiteoutMetaPrefix = false).
  { destruct (first_name new k x n Hnew Hn) as (z & r & E & Hz). unfold p. rewrite E. by apply no_meta. }
  assert (Hlooked : export_loop new now (mapped_nothing seen) (c :: rest) =
    match addTarFile (mapped_nothing seen) n (Join "/" p) with
    | (Some hc, ta') => hc :: export_loop new now ta' rest
    | (None, ta') => export_loop new now ta' rest
    end).
  { cbn [export_loop c Kind Path]. rewrite decide_False by done. rewrite LookUp_tree_at by done.
    by rewrite Hn, abs_path_drop. }
  destruct (put_creates past k x c rest seen s h content n) as (e' & Hcreate & Hw & Hsrc & Hdf & Hout & Hbelow); try done;
    [by eapply through_dirs_snoc|by repeat case_match; tauto|].
  destruct (unpack_put K opts no_uid_maps no_gid_maps k x Hok s e0 Hth He0 h content Hclean Hmeta e' Hdir0 Hxwh Hsrc Hcreate)
    as (s' & Hs & Hdisk & Hdirs).
  assert (Hinv : ∀ seen', (∀ ino name, seen' !! ino = Some name → seen !! ino = Some name ∨
     (name = Join "/" p ∧ Ino (stat n) = ino ∧ 1 < Nlink (stat n) ∧ type_of n ≠ S_IFDIR)) → Inv (past ++ [c]) seen' s').
  { intros seen' Hseen'. eapply (inv_put new old Hnew Hold past c rest HL seen s HI p j n e'); try done.
    intros g Hg. rewrite Hdirs in Hg. apply elem_of_app in Hg as [?|Hg]; [by left|right].
    case_decide as Hd; [|by apply elem_of_nil in Hg]. apply list_elem_of_singleton in Hg as ->. split; [done|by apply Hdf]. }
  exists h, content.
  destruct (negb (type_of n =? S_IFDIR) && (1 <? Nlink (stat n))) eqn:El; [destruct (seen !! Ino (stat n)) eqn:Es|];
    destruct Hadd as (Hadd & _); rewrite Hlooked, Hadd.
  - exists seen, s'. split_and!; [done|done|]. apply Hinv. auto.
  - eexists _, s'. split_and!; [reflexivity|done|]. apply Hinv. intros ino name Hi.
    apply andb_true_iff in El as [Ed%negb_true_iff Enl%N.ltb_lt].
    apply lookup_insert_Some in Hi as [[<- <-]|[_ ?]]; [right|by left]. rewrite Ed. apply N.eqb_neq in Ed. done.
  - exists seen, s'. split_and!; [done|done|]. apply Hinv. auto.
Qed.

Lemma layer_entries rest : ∀ past seen s,
  merge_sort change_le (Changes new old) = past ++ rest → Inv past seen s →
  ∃ seen' s', unpack_entries K "/" 0 0 opts (export_loop new now (mapped_nothing seen) rest) s = (Ok tt, s') ∧
    Inv (past ++ rest) seen' s'.
Proof using Hnew Hold Hlinks Htimes KernelLaws0 at_root no_uid_maps no_gid_maps.
  induction rest as [|[P j] rest IH]; intros past seen s HL HI; [exists seen, s; by rewrite app_nil_r|].
  assert (Hin : mkChange P j ∈ Changes new old) by (apply (sorted_elem _ _ _ _ _ HL), elem_of_app; right; left).
  destruct (Changes_path _ _ (dt_wf _ Hnew) (dt_wf _ Hold) _ Hin) as (q & Hq & Hok & E). cbn [Path] in E. subst P.
  destruct q as [|x k _] using rev_ind; [done|].
  assert (∃ h content seen' s', export_loop new now (mapped_nothing seen) (mkChange (abs_path (k ++ [x])) j :: rest)
      = (h, content) :: export_loop new now (mapped_nothing seen') rest ∧
    unpack_entry K "/" 0 0 opts (h, content) s = (Ok tt, s') ∧
    Inv (past ++ [mkChange (abs_path (k ++ [x])) j]) seen' s') as (h & content & seen1 & s1 & E1 & E2 & HI1).
  { destruct (decide (j = ChangeDelete)) as [->|Hj]; [|by apply step_put].
    destruct (step_delete past k x rest seen s Hok HL HI) as (h & s' & ? & ? & ?). by exists h, "", seen, s'. }
  destruct (IH (past ++ [mkChange (abs_path (k ++ [x])) j]) seen1 s1) as (seen2 & s2 & E3 & HI2);
    [by rewrite <-app_assoc|done|]. rewrite <-app_assoc in HI2.
  exists seen2, s2. split; [|done]. rewrite E1. cbn [unpack_entries]. by rewrite (ST_step _ _ _ tt s1).
Qed.

(** The first directory on the way to a path that the new tree does not have. *)
Lemma first_missing p : tree_at new p = None →
  ∃ q x r n, p = q ++ x :: r ∧ tree_at new q = Some n ∧ tree_at new (q ++ [x]) = None.
Proof.
  induction p as [|x p IH] using rev_ind; [done|]. intros Hn. destruct (tree_at new p) as [n|] eqn:E.
  - exists p, x, [], n. done.
  - destruct (IH eq_refl) as (q & y & r & n & -> & ? & ?). exists q, y, (r ++ [x]), n. by rewrite <-app_assoc.
Qed.

Lemma old_child_directory q x r n o :
  tree_at old q = Some n → tree_at old (q ++ x :: r) = Some o → type_of n = S_IFDIR.
Proof using Hold.
  intros Hn Ho. rewrite tree_at_app, Hn in Ho. simpl in Ho.
  pose proof (proj1 (wf_tree_at _ _ _ (dt_wf _ Hold) Hn)) as Hw.
  destruct (assoc x (children n)) eqn:E; [|done]. by destruct (wf_child _ _ _ Hw E) as (_ & _ & ?).
Qed.

Section final.
Context (seen : gmap N string) (s : layer_state) (L : list Change).
Context (HLin : ∀ c, c ∈ L ↔ c ∈ Changes new old) (HI : Inv L seen s).
Context (Hcontent : ∀ p n o, tree_at new p = Some n → tree_at old p = Some o → childDifferent o n = false → data o = data n).

Lemma missing_killed p o :
  Forall name_ok p → tree_at new p = None → tree_at old p = Some o → killed new old L p.
Proof using HLin Hnew Hold.
  intros Hok Hn Ho. destruct (first_missing p Hn) as (q & x & r & n & -> & Hq & Hqx).
  pose proof Hok as [Hqok [Hxok Hrok]%Forall_cons]%Forall_app.
  assert (Hqxok : Forall name_ok (q ++ [x])) by (apply Forall_app; auto).
  assert (∃ oq, tree_at old q = Some oq) as [oq Hoq].
  { rewrite tree_at_app in Ho. destruct (tree_at old q); [eauto|done]. }
  assert (Hox : is_Some (tree_at old (q ++ [x]))).
  { change (x :: r) with ([x] ++ r) in Ho. rewrite app_assoc, tree_at_app in Ho. destruct (tree_at old (q ++ [x])); [eauto|done]. }
  pose proof (old_child_directory q x r oq o Hoq Ho) as Hod.
  destruct (decide (q = [] ∨ mode_isDir (stat n) = true)) as [Hd|Hd].
  - exists (q ++ [x]), r. rewrite <-app_assoc. split; [done|]. left. apply HLin, Changes_Delete; [apply Hnew|apply Hold|done|].
    split_and!; [done..|]. by exists q, x, n.
  - exists q, (x :: r). split; [done|]. right. split_and!; [|done|].
    + exists ChangeModify. split; [|done]. apply HLin, Changes_Modify; [apply Hnew|apply Hold|tauto|done|].
      exists n, oq. split_and!; [done..|]. left. unfold childDifferent, statDifferent.
      assert (E : Mode (stat oq) ≠ Mode (stat n)).
      { intros E. apply Hd. right. unfold mode_isDir. rewrite <-E. by apply is_directory_mode. }
      apply N.eqb_neq in E. by rewrite E.
    + intros (n' & o' & Hn' & _ & Tn & _). rewrite Hq in Hn'. injection Hn' as <-. apply Hd. right.
      by apply is_directory_mode.
Qed.

Lemma final_disk p :
  p ≠ [] → Forall name_ok p →
  match l_disk s !! p, tree_at new p with
  | Some e, Some n => same_file e n
  | None, None => True
  | _, _ => False
  end.
Proof using HLin HI Hcontent Hnew Hold.
  intros Hp Hok. destruct (tree_at new p) as [n|] eqn:Hn.
  - destruct (decide (mkChange (abs_path p) ChangeAdd ∈ L)) as [Ha|Ha].
    { destruct (i_put _ _ _ _ _ HI p Hok) as (e & n' & -> & Hn' & Hw); [by exists ChangeAdd|].
      rewrite Hn in Hn'. injection Hn' as <-. by apply written_same. }
    destruct (decide (mkChange (abs_path p) ChangeModify ∈ L)) as [Hm|Hm].
    { destruct (i_put _ _ _ _ _ HI p Hok) as (e & n' & -> & Hn' & Hw); [by exists ChangeModify|].
      rewrite Hn in Hn'. injection Hn' as <-. by apply written_same. }
    assert (Hput : ¬ put L p) by (intros ([] & ? & ?); done).
    destruct (tree_at old p) as [o|] eqn:Ho.
    2:{ destruct Ha. apply HLin, Changes_Add; [apply Hnew|apply Hold|done|eauto]. }
    assert (Hdiff : childDifferent o n = false).
    { destruct (childDifferent o n) eqn:E; [|done]. destruct Hm. apply HLin, Changes_Modify; [apply Hnew|apply Hold|done|done|].
      exists n, o. auto. }
    rewrite (i_old _ _ _ _ _ HI p Hok Hput), Ho.
    + cbn [fmap option_fmap option_map]. unfold childDifferent in Hdiff. apply orb_false_iff in Hdiff as Hd.
      destruct Hd as [Hs Hc%negb_false_iff%bool_decide_eq_true]. split_and!; [done|done|by eapply Hcontent].
    + intros (q & r & -> & [Hd|((j & Hj & _) & Hr & Hnm)]).
      * apply HLin, Changes_Delete in Hd as (E & _); [|apply Hnew|apply Hold|by apply Forall_app in Hok as [? _]].
        by rewrite tree_at_app, E in Hn.
      * destruct r as [|x r]; [done|]. apply Hnm. rewrite tree_at_app in Hn, Ho.
        destruct (tree_at new q) as [nq|] eqn:Eq; [|done]. destruct (tree_at old q) as [oq|] eqn:Eo; [|done].
        exists nq, oq. split_and!; [done..| |].
        -- eapply (child_directory new Hnew q (x :: r)); [done|done|]. by rewrite tree_at_app, Eq.
        -- eapply (old_child_directory q x r); [done|]. by rewrite tree_at_app, Eo.
  - destruct (l_disk s !! p) as [e|] eqn:He; [exfalso|done].
    assert (Hput : ¬ put L p).
    { intros H. destruct (i_put _ _ _ _ _ HI p Hok H) as (? & ? & _ & E & _). congruence. }
    destruct (disk_old new old L seen s HI p e Hok Hput He) as (o & Ho & _ & Hk). apply Hk. by eapply missing_killed.
Qed.
End final.
End layer.

(** ** The times of directories, and the whole layer *)

(** The disk shows the tree, as far as the comparison looks. *)
Definition shows (d : Disk) (t : node) : Prop :=
  (∃ e, d !! [] = Some e ∧ entry_dir e = true) ∧
  ∀ p, p ≠ [] → Forall name_ok p →
    match d !! p, tree_at t p with
    | Some e, Some n => same_file e n
    | None, None => True
    | _, _ => False
    end.

Lemma same_file_type e n : same_file e n → file_type (e_stat e) = type_of n.
Proof.
  intros (Hs & _). unfold statDifferent in Hs. rewrite !orb_false_iff in Hs.
  destruct Hs as ((((Hm & _) & _) & _) & _). apply negb_false_iff, N.eqb_eq in Hm.
  unfold type_of, file_type. by rewrite Hm.
Qed.

Lemma same_file_mtime e n t : type_of n = S_IFDIR → same_file e n → same_file (set_mtime t e) n.
Proof.
  intros Ht Hsf. pose proof (same_file_type _ _ Hsf) as Hft. destruct Hsf as (Hs & Hc & Hd). split_and!; [|done|done].
  unfold statDifferent in *. cbn [set_mtime e_stat Mode UID GID Rdev]. rewrite !orb_false_iff in Hs |- *.
  destruct Hs as (((H1 & H2) & H3) & H4). split_and!; try tauto.
  rewrite Ht in Hft. destruct (is_directory_mode (e_stat e) Hft) as [_ E]. by rewrite E.
Qed.

Section times.
Context (K : Kernel) `{!KernelLaws K} (new : node) (Hnew : disk_tree new).

Lemma shows_through d p n : shows d new → Forall name_ok p → tree_at new p = Some n → through_dirs d p.
Proof using Hnew.
  intros [Hroot Hd] Hok Hn q x r ->. destruct (decide (q = [])) as [->|Hq]; [done|].
  apply Forall_app in Hok as [Hqok _]. specialize (Hd q Hq Hqok).
  assert (∃ m, tree_at new q = Some m) as [m Hm] by (rewrite tree_at_app in Hn; destruct (tree_at new q); eauto; done).
  rewrite Hm in Hd. destruct (d !! q) as [e|]; [|done]. exists e. split; [done|]. unfold entry_dir.
  rewrite (same_file_type _ _ Hd). apply N.eqb_eq. by eapply (child_directory new Hnew q (x :: r)).
Qed.

Lemma dir_times_shows dirs : ∀ d,
  shows d new →
  (∀ g, g ∈ dirs → ∃ p n, Name g = Join "/" p ∧ p ≠ [] ∧ Forall name_ok p ∧ tree_at new p = Some n ∧ type_of n = S_IFDIR) →
  ∃ d', dir_times K "/" dirs d = (Ok tt, d') ∧ shows d' new.
Proof using Hnew KernelLaws0.
  induction dirs as [|g dirs IH]; intros d Hd Hg; [by exists d|].
  destruct (Hg g ltac:(left)) as (p & n & Hname & Hp & Hok & Hn & Ht). cbn [dir_times].
  rewrite Hname, PathJoin_relative by done. pose proof Hd as [Hroot Hat].
  pose proof (Hat p Hp Hok) as Hpe. rewrite Hn in Hpe. destruct (d !! p) as [e|] eqn:He; [|done].
  rewrite (ST_step _ _ _ tt (<[p := set_mtime (clampTime (ModTime g, 0%Z)) e]> d)).
  2:{ unfold Chtimes. apply follow_update; [done|done|by eapply shows_through|done|].
      unfold entry_symlink. by rewrite (same_file_type _ _ Hpe), Ht. }
  apply IH; [|intros g' Hg'; apply Hg; by right]. split.
  - by rewrite lookup_insert_ne.
  - intros q Hq Hqok. destruct (decide (q = p)) as [->|Hne].
    + rewrite lookup_insert_eq, Hn. by apply same_file_mtime.
    + rewrite lookup_insert_ne by done. by apply Hat.
Qed.
End times.

(** The order of an archive does not depend on the order of the changes. *)
Lemma sorted_unique l1 : ∀ l2,
  l1 ≡ₚ l2 → StronglySorted change_le l1 → StronglySorted change_le l2 → NoDup (map Path l1) → l1 = l2.
Proof.
  induction l1 as [|a l1 IH]; intros l2 HP H1 H2 Hnd; [by apply Permutation_nil in HP as ->|].
  destruct l2 as [|b l2]; [by apply Permutation_sym, Permutation_nil in HP|].
  pose proof H1 as [H1' F1]%StronglySorted_inv. pose proof H2 as [H2' F2]%StronglySorted_inv.
  rewrite Forall_forall in F1, F2. simpl in Hnd. apply NoDup_cons in Hnd as [Ha Hnd].
  assert (a = b) as <-.
  { assert (Hb : b ∈ a :: l1) by (rewrite HP; left). apply elem_of_cons in Hb as [->|Hb]; [done|].
    assert (Hab : a ∈ b :: l2) by (rewrite <-HP; left). apply elem_of_cons in Hab as [->|Hab]; [done|].
    exfalso. apply Ha. pose proof (F1 _ Hb) as Hle1. pose proof (F2 _ Hab) as Hle2. unfold change_le in *.
    assert (E : Path a = Path b) by (by apply (anti_symm String.le)). rewrite E.
    by apply (list_elem_of_fmap_2 Path). }
  f_equal. apply IH; try done. by eapply Permutation_cons_inv.
Qed.

Lemma sort_changes cs cs' :
  cs ≡ₚ cs' → NoDup (map Path cs') → merge_sort change_le cs = merge_sort change_le cs'.
Proof.
  intros HP Hnd.
  assert (Hs : ∀ l, StronglySorted change_le (merge_sort change_le l)).
  { intros l. apply StronglySorted_merge_sort.
    - intros a b e. unfold change_le. apply transitivity.
    - intros a b. unfold change_le. apply String.le_total. }
  apply sorted_unique; [by rewrite !merge_sort_Permutation|apply Hs|apply Hs|].
  rewrite merge_sort_Permutation. by rewrite HP.
Qed.

(** A file that looks the same has the same contents: content changes change the
    time of modification. *)
Definition content_follows_time (new old : node) : Prop :=
  ∀ p n o, tree_at new p = Some n → tree_at old p = Some o → childDifferent o n = false → data o = data n.


(** ** A layer in the small *)

(** The nodes of a tree with their paths. *)
Fixpoint tree_nodes (pre : list string) (n : node) : list (list string * node) :=
  (pre, n) :: (fix go (l : list (string * node)) :=
                 match l with [] => [] | (x, c) :: l' => tree_nodes (pre ++ [x]) c ++ go l' end) (children n).

Lemma tree_nodes_child pre n x c e : (x, c) ∈ children n → e ∈ tree_nodes (pre ++ [x]) c → e ∈ tree_nodes pre n.
Proof.
  destruct n as [st cap da l]. cbn [tree_nodes children]. intros Hx He. right.
  induction l as [|[y b] l IH]; [by apply elem_of_nil in Hx|]. apply elem_of_app.
  apply elem_of_cons in Hx as [[= -> ->]|Hx]; [by left|right; by apply IH].
Qed.

Lemma tree_at_nodes p : ∀ t pre n, tree_at t p = Some n → (pre ++ p, n) ∈ tree_nodes pre t.
Proof.
  induction p as [|x p IH]; intros t pre n; cbn [tree_at].
  - intros [= ->]. rewrite app_nil_r. destruct n. left.
  - destruct (assoc x (children t)) as [c|] eqn:E; [|done]. intros H%(IH _ (pre ++ [x])).
    rewrite <-app_assoc in H. eapply tree_nodes_child; [by apply assoc_Some|done].
Qed.

Definition disk_of (t : node) : Disk := list_to_map (prod_map id entry_of <$> tree_nodes [] t).

Definition file_node (ino : N) (time : Z) (text : string) : node :=
  mkNode (mkStatT 0x81A4 0 0 0 (time, 0%Z) (Z.of_nat (String.length text)) 0 ino 1) None text [].
Definition dir_node (ino : N) (time : Z) (l : list (string * node)) : node :=
  mkNode (mkStatT 0x41ED 0 0 0 (time, 0%Z) 4096 0 ino 2) None "" l.

(** One of two names of a file. *)
Definition linked_node (ino : N) (time : Z) (text : string) : node :=
  mkNode (mkStatT 0x81A4 0 0 0 (time, 0%Z) (Z.of_nat (String.length text)) 0 ino 2) None text [].

(** A subtree that both trees have, with its inodes. *)
Definition shared_dir : node := dir_node 30 5 [("u", file_node 31 5 "u"); ("v", dir_node 32 5 [])].

(** A changed file, a directory removed with its contents, a file that takes the
    place of a directory, two hard links to a new file, a new directory, and a
    subtree that is shared. *)
Definition small_old : node :=
  dir_node 1 5 [("a", file_node 2 5 "one"); ("d", dir_node 3 5 [("x", file_node 4 5 "x")]);
                ("e", dir_node 6 5 [("y", file_node 7 5 "y")]); ("s", shared_dir)].
Definition small_new : node :=
  dir_node 11 5 [("a", file_node 12 6 "two"); ("e", file_node 13 6 "file");
                 ("l", linked_node 16 6 "linked"); ("m", linked_node 16 6 "linked");
                 ("n", dir_node 14 6 [("z", file_node 15 6 "z")]); ("s", shared_dir)].

(** Case analysis over the nodes of a concrete tree. *)
Ltac each_node H :=
  apply (tree_at_nodes _ _ []) in H; cbn [tree_nodes children small_old small_new file_node dir_node linked_node shared_dir app] in H;
  repeat (apply elem_of_cons in H as [H|H]);
  lazymatch type of H with _ ∈ _ => by apply elem_of_nil in H | _ => simplify_eq end.

Ltac small_wf :=
  repeat match goal with
  | H : (_, _) ∈ [] |- _ => by apply elem_of_nil in H
  | H : (_, _) ∈ children _ |- _ => cbn [children small_old small_new file_node dir_node linked_node shared_dir] in H
  | H : (_, _) ∈ _ :: _ |- _ => apply elem_of_cons in H as [[= -> ->]|H]
  | |- wf_tree _ => constructor; [by apply (bool_decide_unpack _)|by apply (bool_decide_unpack _)|by intros|intros ? ? ?]
  end.

Lemma small_old_tree : disk_tree small_old.
Proof.
  split; [by small_wf| | |].
  - intros p n H. each_node H; (split; [done|]); first [by (left; vm_compute)|by (right; left; vm_compute)].
  - done.
  - intros p x n H. each_node H;
      match goal with E : _ ++ [x] = _ |- _ => apply (f_equal last) in E; rewrite last_snoc in E; by simplify_eq/= end.
Qed.

Lemma small_new_tree : disk_tree small_new.
Proof.
  split; [by small_wf| | |].
  - intros p n H. each_node H; (split; [done|]); first [by (left; vm_compute)|by (right; left; vm_compute)].
  - done.
  - intros p x n H. each_node H;
      match goal with E : _ ++ [x] = _ |- _ => apply (f_equal last) in E; rewrite last_snoc in E; by simplify_eq/= end.
Qed.

Lemma small_links : links_agree small_new.
Proof. intros p q n m H1 H2. each_node H1; each_node H2; cbn; intros; (done || lia). Qed.

Lemma small_times : times_ok small_new.
Proof. intros p n H. each_node H; first [by left|by right; right]. Qed.

Lemma small_content : content_follows_time small_new small_old.
Proof.
  intros p n o H1 H2 H. each_node H1; each_node H2; simplify_eq/=; (done || (vm_compute in H; done)).
Qed.

Lemma small_inodes : same_inode_same_tree (Some small_old) (Some small_new).
Proof.
  intros p a b x c e Ha Hb _ Hc He Hi. cbn [old_at] in Ha, Hb. revert Hi.
  assert (H1 : tree_at small_old (p ++ [x]) = Some c) by (rewrite tree_at_app, Ha; simpl; by rewrite Hc).
  assert (H2 : tree_at small_new (p ++ [x]) = Some e) by (rewrite tree_at_app, Hb; simpl; by rewrite He).
  each_node H1; each_node H2; cbn; (done || lia).
Qed.

Lemma small_old_disk p : disk_of small_old !! p = entry_of <$> tree_at small_old p.
Proof.
  destruct (tree_at small_old p) as [n|] eqn:H.
  - each_node H; vm_compute; done.
  - apply not_elem_of_list_to_map_1. intros ([q e] & -> & Hq)%list_elem_of_fmap.
    apply list_elem_of_fmap in Hq as ([q' n] & [= -> ->] & Hq). cbn [fst id] in H.
    cbn [tree_nodes children small_old small_new file_node dir_node linked_node shared_dir app] in Hq.
    repeat (apply elem_of_cons in Hq as [[= ? ?]|Hq]); [subst; vm_compute in H; discriminate..|by apply elem_of_nil in Hq].
Qed.

Definition plain_options : TarOptions := mkOptions [] None None false None false false.


Lemma Changes_spec_witness :
  mkChange (abs_path ["n"; "z"]) ChangeAdd ∈ Changes small_new small_old ∧
  mkChange (abs_path ["d"]) ChangeDelete ∈ Changes small_new small_old ∧
  mkChange (abs_path ["d"; "x"]) ChangeDelete ∉ Changes small_new small_old ∧
  NoDup (map Path (Changes small_new small_old)).
Proof.
  pose proof (Changes_spec small_new small_old ["n"; "z"] (dt_wf _ small_new_tree) (dt_wf _ small_old_tree)
    ltac:(done) ltac:(by apply (bool_decide_unpack _))) as (Ha & _ & _ & Hnd).
  pose proof (Changes_spec small_new small_old ["d"] (dt_wf _ small_new_tree) (dt_wf _ small_old_tree)
    ltac:(done) ltac:(by apply (bool_decide_unpack _))) as (_ & Hd & _).
  pose proof (Changes_spec small_new small_old ["d"; "x"] (dt_wf _ small_new_tree) (dt_wf _ small_old_tree)
    ltac:(done) ltac:(by apply (bool_decide_unpack _))) as (_ & Hx & _).
  split_and!; [apply Ha; by vm_compute; eauto|apply Hd|intros H%Hx|done].
  - split_and!; [done|by vm_compute; eauto|]. exists [], "d", small_new. auto.
  - destruct H as (_ & _ & q & x & e & E & Hq & _). destruct q as [|y [|z q]]; simplify_eq/=.
Defined.

(** The walk of the witness leaves the shared subtree out: what it registers
    of the new tree has no such child. *)
Lemma ChangesDirs_prunes_witness :
  tree_at small_old ["s"] = Some shared_dir ∧ tree_at small_new ["s"] = Some shared_dir ∧
  (match collectFileInfoForChanges small_old small_new with
   | (_, Some n) => map fst (children n)
   | _ => []
   end = ["a"; "e"; "l"; "m"; "n"]) ∧
  ChangesDirs small_new small_old ≡ₚ Changes small_new small_old.
Proof.
  split; [reflexivity|]. split; [reflexivity|]. split; [vm_compute; reflexivity|].
  exact (ChangesDirs_prunes _ _ (dt_wf _ small_new_tree) (dt_wf _ small_old_tree) small_inodes).
Defined.

(** A file older than 1970 comes out of a layer with the time of the epoch. *)
Example early_time_lost :
  let old := dir_node 1 5 [] in
  let new := dir_node 11 5 [("a", file_node 12 (-3600) "two")] in
  let d' := (UnpackLayer (flat_kernel "/") "/" (ExportChanges new (ChangesDirs new old) 7 None None)
               plain_options (disk_of old)).2 in
  (λ e, Mtim (e_stat e)) <$> d' !! ["a"] = Some (0, 0)%Z.
Proof. vm_compute. reflexivity. Qed.
