(* ===== verification/Breakout.v ===== *)
(** * Entries of a layer that leave the directory it is unpacked into

    [UnpackLayer] refuses an entry whose path relative to the directory begins
    with "../".  The relative path ".." does not, and a whiteout is checked
    under the name of the whiteout file, not under that of the file it
    removes. *)

From S2P Require Import Prelude GoStrings IdTools Filepath Symlink CopyPaths Changes Tar Unpack LayerDiff.
Local Open Scope N_scope.

(** The disk without a path and what is below it. *)
Definition without (q : list string) (d : Disk) : Disk := filter (λ kv, below q kv.1 = false) d.

Lemma drop_common_parent l x : drop_common (l ++ [x]) l = ([x], []).
Proof. induction l as [|y l IH]; simpl; [done|]. by rewrite decide_True. Qed.

Lemma not_dotdot {A} (x : string) (u v : A) : x ≠ ".." → match [x] with ".." :: _ => u | _ => v end = v.
Proof. intros Hx. repeat (case_match; simplify_eq; try done). Qed.

Section breakout.
Context (K : Kernel) `{!KernelLaws K} (opts : TarOptions).
Hypothesis no_uid_maps : o_UIDMaps opts = None.
Hypothesis no_gid_maps : o_GIDMaps opts = None.
(** The directory [q/y/x] that the layer is unpacked into. *)
Context (q : list string) (y x : string) (Hok : Forall name_ok (q ++ [y; x])).
Context (d : Disk) (e : entry) (Hd : through_dirs d (q ++ [y; x])) (He : d !! (q ++ [y; x]) = Some e).
Context (h : Header) (content : string).

Abbreviation parent := (q ++ [y]) (only parsing).
Abbreviation dest := (abs_path (q ++ [y; x])) (only parsing).

Lemma dest_split : q ++ [y; x] = parent ++ [x].
Proof. by rewrite <-app_assoc. Qed.

Lemma parent_ok : Forall name_ok parent.
Proof using Hok. rewrite dest_split in Hok. by apply Forall_app in Hok as [? _]. Qed.

Lemma join_dot : PathJoin [dest; "."] = dest.
Proof using Hok. rewrite PathJoin_abs by done. change (walk ?l (Split sep ".")) with l. by rewrite rev_involutive. Qed.

Lemma join_dotdot : PathJoin [dest; ".."] = abs_path parent.
Proof using Hok.
  rewrite PathJoin_abs by done. f_equal. rewrite dest_split, rev_app_distr.
  rewrite dest_split in Hok. apply Forall_app in Hok as [_ [(_ & _ & Hx & _) _]%Forall_cons].
  change (walk (rev [x] ++ ?l) (Split sep "..")) with (if decide (x = "..") then ".." :: x :: l else l).
  rewrite decide_False by done. apply rev_involutive.
Qed.

Lemma parent_dir : ∃ e0, d !! parent = Some e0 ∧ entry_dir e0 = true.
Proof using Hd. apply (Hd parent x []). by rewrite <-app_assoc. Qed.

Lemma parent_through : through_dirs d parent.
Proof using Hd.
  intros r z t E. apply (Hd r z (t ++ [x])). rewrite dest_split, E, <-app_assoc. done.
Qed.

Lemma Rel_dotdot : Rel dest (abs_path parent) = Some "..".
Proof using Hok.
  unfold Rel. rewrite !Clean_abs_path by (done || apply parent_ok). rewrite decide_False.
  2:{ intros E. apply abs_path_inj in E; [|apply parent_ok|done]. apply (f_equal length) in E.
      rewrite !length_app in E. simpl in E. lia. }
  rewrite !IsAbs_abs_path, decide_True by done. rewrite !elements_abs by (done || apply parent_ok).
  rewrite dest_split, drop_common_parent. rewrite dest_split in Hok.
  apply Forall_app in Hok as [_ [(_ & _ & Hx & _) _]%Forall_cons].
  by apply (not_dotdot x).
Qed.

Lemma Rel_whiteout : Rel dest (abs_path ((q ++ [y; x]) ++ [".wh..."])) = Some ".wh...".
Proof using Hok.
  assert (Hw : Forall name_ok ((q ++ [y; x]) ++ [".wh..."])).
  { apply Forall_app. split; [done|]. by apply Forall_singleton. }
  unfold Rel. rewrite !Clean_abs_path by done. rewrite decide_False.
  2:{ intros E. apply abs_path_inj in E; [|done|done]. apply (f_equal length) in E.
      rewrite !length_app in E. simpl in E. lia. }
  rewrite !IsAbs_abs_path, decide_True by done. rewrite !elements_abs by done.
  by rewrite drop_common_app.
Qed.

Definition counted : layer_state := mkLayer d (wrap64 (0 + HSize h)) [] ∅ ∅.

(** The parent of an entry "name" is the directory itself, which is there. *)
Lemma parent_there name s :
  ends_with sep name = false → Dir name = "." → l_disk s = d →
  on_disk (ensure_parent K (λ p, MkdirAll K p 0x180) dest name) s = (Ok tt, s).
Proof using Hok Hd He KernelLaws0.
  intros Hs Hn Hl. unfold on_disk, ensure_parent. rewrite Hs, Hn, join_dot, Hl.
  unfold mbind, ST_bind, st_get. rewrite lstat_at by done. rewrite He. destruct s. simpl in Hl. by subst.
Qed.

Lemma whiteout_dotdot :
  Name h = ".wh..." →
  unpack_entry K dest 0 0 opts (h, content) (mkLayer d 0 [] ∅ ∅) =
  (Ok tt, mkLayer (without parent d) (wrap64 (0 + HSize h)) [] ∅ ∅).
Proof using Hok Hd He KernelLaws0.
  intros Hn. unfold unpack_entry. rewrite (ST_step _ _ _ tt counted) by done. rewrite Hn.
  change (Clean ".wh...") with ".wh...". cbn [Name with_name].
  rewrite (ST_step _ _ _ tt counted) by (by apply parent_there).
  change (HasPrefix ".wh..." WhiteoutMetaPrefix) with false. cbn [andb].
  rewrite (ST_step _ _ _ tt counted) by done. unfold entry_path.
  assert (PathJoin [dest; ".wh..."] = abs_path ((q ++ [y; x]) ++ [".wh..."])) as ->.
  { rewrite PathJoin_abs by done. change (walk ?l (Split sep ".wh...")) with (".wh..." :: l).
    cbn [rev]. by rewrite rev_involutive. }
  rewrite Rel_whiteout. change (HasPrefix ".wh..." "../") with false.
  rewrite (ST_step _ _ _ (abs_path ((q ++ [y; x]) ++ [".wh..."])) counted) by done.
  rewrite Base_snoc by done. change (HasPrefix ".wh..." WhiteoutPrefix) with true. cbn iota.
  unfold apply_whiteout. rewrite decide_False by done.
  rewrite Dir_abs by (apply Forall_app; split; [done|by apply Forall_singleton]).
  change (drop_bytes (String.length WhiteoutPrefix) ".wh...") with "..". rewrite join_dotdot.
  unfold on_disk. cbn [l_disk counted].
  by rewrite (RemoveAll_at K parent parent_ok d parent_through).
Qed.

(** The file that is made in place of the parent directory. *)
Definition intruder : entry :=
  with_meta h (mkEntry (new_stat K root_owner (without parent d) (N.lor S_IFREG (header_perm h)) 0
    (Z.of_nat (String.length content))) None false content).

Lemma intruder_file : file_type (e_stat intruder) = S_IFREG ∧ e_data intruder = content.
Proof.
  unfold intruder, with_meta. split.
  - change (file_type (e_stat (set_mtime ?t ?a))) with (file_type (e_stat a)).
    rewrite set_perm_type by apply header_perm_land. rewrite owned_type. by apply perm_type.
  - unfold owned. by destruct (Xattr h).
Qed.

Lemma without_through : through_dirs (without parent d) parent.
Proof using Hd.
  apply through_dirs_remove; [apply parent_through|]. intros [|z s]; [by right|left].
  intros E. apply (f_equal length) in E. rewrite !length_app in E. simpl in E. lia.
Qed.

Lemma without_none : without parent d !! parent = None.
Proof using Hd.
  unfold without. rewrite lookup_remove. assert (below parent parent = true) as ->; [|done].
  apply below_spec. exists []. by rewrite app_nil_r.
Qed.

Lemma file_dotdot :
  Name h = ".." → Flag h = TypeReg → HasPrefix y WhiteoutPrefix = false →
  ∃ s', unpack_entry K dest 0 0 opts (h, content) (mkLayer d 0 [] ∅ ∅) = (Ok tt, s') ∧
    l_disk s' = <[parent := intruder]> (without parent d) ∧ l_dirs s' = [] ∧ l_size s' = wrap64 (0 + HSize h).
Proof using Hok Hd He KernelLaws0 no_uid_maps no_gid_maps.
  intros Hn Hf Hy. unfold unpack_entry. rewrite (ST_step _ _ _ tt counted) by done. rewrite Hn.
  change (Clean "..") with "..". cbn [Name Flag with_name].
  rewrite (ST_step _ _ _ tt counted) by (by apply parent_there).
  change (HasPrefix ".." WhiteoutMetaPrefix) with false. cbn [andb].
  rewrite (ST_step _ _ _ tt counted) by done. unfold entry_path. rewrite join_dotdot, Rel_dotdot.
  change (HasPrefix ".." "../") with false. rewrite (ST_step _ _ _ (abs_path parent) counted) by done.
  pose proof parent_ok as [_ [Hyok _]%Forall_cons]%Forall_app. rewrite Base_snoc, Hy by done.
  destruct parent_dir as (e0 & He0 & _).
  set (s1 := mkLayer (without parent d) (wrap64 (0 + HSize h)) [] ∅ ∅).
  rewrite (ST_step _ _ _ tt s1).
  2:{ unfold on_disk, clear_path, mbind, ST_bind, st_get. cbn [l_disk counted].
      rewrite (lstat_at K parent parent_ok d parent_through), He0, Hf.
      rewrite (bool_decide_eq_false_2 (TypeReg = TypeDir)), andb_false_r by done.
      by rewrite (RemoveAll_at K parent parent_ok d parent_through). }
  rewrite (ST_step _ _ _ (None, with_name h "..", content) s1).
  2:{ unfold layer_source. rewrite decide_False; [done|]. cbn [Flag with_name]. rewrite Hf. by intros [? _]. }
  rewrite (ST_step _ _ _ (with_ids (with_name h "..") (Uid h) (Gid h)) s1) by (by rewrite map_ids_id).
  rewrite (ST_step _ _ _ tt s1) by done.
  rewrite (ST_step _ _ _ tt (mkLayer (<[parent := intruder]> (without parent d)) (wrap64 (0 + HSize h)) [] ∅ ∅)).
  2:{ unfold on_disk, createTarFile. cbn [l_disk s1 Flag with_name with_ids]. rewrite decide_False by (by rewrite Hf).
      erewrite ST_step.
      2:{ unfold createNode. cbn [Flag with_name with_ids]. rewrite Hf. unfold WriteFile.
          rewrite (ST_step _ _ _ parent (without parent d)) by (apply (place_at K parent parent_ok _ without_through)).
          unfold mbind, ST_bind, st_get, st_put. rewrite without_none. reflexivity. }
      rewrite (setMetadata_plain K parent parent_ok (without parent d) without_through
        (with_ids (with_name h "..") (Uid h) (Gid h))); [done|by cbn; rewrite Hf|by cbn; rewrite Hf|].
      unfold entry_symlink, file_type. cbn [e_stat new_stat Mode].
      unfold header_perm. by rewrite perm_type. }
  rewrite decide_False by (by rewrite Hf). eexists. split; [reflexivity|]. done.
Qed.
End breakout.

(** C34: The check that an entry does not leave the directory a layer is unpacked
    into can be passed: for every directory (that is not at the root), every
    disk on which it is there, and every kernel, a whiteout named ".wh..."
    removes the parent of that directory with all it holds, and a regular file
    named ".." takes the parent's place; both are reported as success.  (Layers
    are unpacked without maps of identifiers here, and for the second the parent
    is not itself named like a whiteout.) *)
Theorem breakout_dotdot (K : Kernel) `{!KernelLaws K} opts q y x d e h content :
  o_UIDMaps opts = None → o_GIDMaps opts = None →
  Forall name_ok (q ++ [y; x]) → through_dirs d (q ++ [y; x]) → d !! (q ++ [y; x]) = Some e →
  let unpacked := UnpackLayer K (abs_path (q ++ [y; x])) [(h, content)] opts d in
  (Name h = ".wh..." → unpacked = (Ok (wrap64 (HSize h)), without (q ++ [y]) d)) ∧
  (Name h = ".." → Flag h = TypeReg → HasPrefix y WhiteoutPrefix = false →
   ∃ e', unpacked = (Ok (wrap64 (HSize h)), <[q ++ [y] := e']> (without (q ++ [y]) d)) ∧
     file_type (e_stat e') = S_IFREG ∧ e_data e' = content).
Proof.
  intros Hu Hg Hok Hd He. cbv zeta. unfold UnpackLayer. rewrite Hu, Hg. cbn [GetRootUIDGID]. split.
  - intros Hn. pose proof (whiteout_dotdot K opts q y x Hok d e Hd He h content Hn) as Hw.
    cbn [unpack_entries]. unfold mbind, ST_bind, st_get, on_disk. by rewrite Hw.
  - intros Hn Hf Hy.
    destruct (file_dotdot K opts Hu Hg q y x Hok d e Hd He h content Hn Hf Hy) as (s' & Hs & Hl & Hdirs & Hsz).
    exists (intruder K q y d h content). cbn [unpack_entries]. unfold mbind, ST_bind, st_get, on_disk. rewrite Hs.
    cbn. rewrite Hdirs, Hl, Hsz. split; [done|]. apply intruder_file.
Qed.

(** ** Runs *)

(** A disk with two directories below "a": the one that archives are unpacked
    into and another one. *)
Definition root_dir : entry := mkEntry (mkStatT 0x41ED 0 0 0 (0%Z, 0%Z) 0 0 0 2) None false "".
Definition small_disk : Disk :=
  list_to_map [([], root_dir); (["a"], root_dir); (["a"; "dest"], root_dir); (["a"; "other"], root_dir)].

Definition small_header (name : string) (flag : Typeflag) : Header := mkHeader name flag 0x1A4 0 0 0 0 "" 0 0 None.
Definition no_options : TarOptions := mkOptions [] None None false None false false.

Definition unpack_one (name : string) (flag : Typeflag) : outcome unpackError Z * Disk :=
  UnpackLayer (flat_kernel "/") "/a/dest" [(small_header name flag, "")] no_options small_disk.

Lemma small_disk_dirs : through_dirs small_disk ["a"; "dest"].
Proof.
  intros q x r E. destruct q as [|z [|w [|? ?]]]; simplify_eq/=; exists root_dir; by vm_compute.
Qed.

Lemma breakout_dotdot_witness :
  unpack_one ".wh..." TypeReg = (Ok 0%Z, without ["a"] small_disk) ∧
  without ["a"] small_disk = {[ [] := root_dir ]} ∧
  ∃ e', unpack_one ".." TypeReg = (Ok 0%Z, <[["a"] := e']> (without ["a"] small_disk)) ∧
    file_type (e_stat e') = S_IFREG ∧ e_data e' = "".
Proof.
  assert (Forall name_ok ([] ++ ["a"; "dest"])) as Hok by (by apply (bool_decide_unpack _)).
  split; [|split; [by vm_compute|]].
  - apply (breakout_dotdot (flat_kernel "/") no_options [] "a" "dest" small_disk root_dir
      (small_header ".wh..." TypeReg) "" eq_refl eq_refl Hok small_disk_dirs eq_refl). reflexivity.
  - apply (breakout_dotdot (flat_kernel "/") no_options [] "a" "dest" small_disk root_dir
      (small_header ".." TypeReg) "" eq_refl eq_refl Hok small_disk_dirs eq_refl); reflexivity.
Defined.

(** An entry that is refused has had its parent directories made before, outside
    of the directory. *)
Example refused_entry_leaves_parent :
  (unpack_one "../new/x" TypeReg).1 = Err (Breakout "../new/x") ∧
  is_Some ((unpack_one "../new/x" TypeReg).2 !! ["a"; "new"]).
Proof. split; [by vm_compute|by vm_compute; eauto]. Qed.
