(* ===== verification/Libcontainerd.v ===== *)
(** * libcontainerd: one container and its process

    Models, for one container identifier, the client of
    [src/libcontainerd/client_linux.go], the container objects and the event
    handler of [src/libcontainerd/container_linux.go], the queue of
    [queue_linux.go] and the pause monitor of [pausemonitor_linux.go].

    A region under the lock of the identifier ([clnt.lock]) is one atomic
    function.  The daemon is an instance of [Backend], the interface of
    [types.go]; containerd is the environment: the processes it runs and the
    stream of events it has sent, with its answers given by an [oracle].
    [None] stands for a call that blocks. *)

From S2P Require Import Prelude GoStrings RestartManager ContainerState.
Local Open Scope Z_scope.

(** ** Answers of the environment *)

(** How [container.start] goes: where it fails, or the process that was made. *)
Inductive start_result :=
| SpecFails                              (* the bundle cannot be read *)
| FifosFail (e : string)
| CreateFails (e : string)               (* CreateContainer of containerd *)
| Started (pid : Z).                     (* the streams may then fail: o_err *)

Record oracle := mkOracle {
  o_now : Z;
  o_todisk : option string;              (* of container.ToDisk *)
  o_err : option string;                 (* of any other call that may fail *)
  o_expired : bool;                      (* a timer has fired *)
  o_start : start_result;
  o_bundle : option (bool * string);     (* Create fails before, or after, it made the container *)
  o_dur : Z                              (* time.Since(ctr.startedAt) *)
}.

(** ** The interface to the daemon (types.go) *)

Class Backend (D : Type) := {
  b_StateChanged : oracle → StateInfo → D → option (option string * D);
  b_AttachStreams : oracle → D → option string * D
}.

(** ** State *)

(** A [container] object; its manager is shared with the daemon's container. *)
Record ctr := mkCtr {
  c_rm : nat;
  c_restarting : bool;
  c_oom : bool;
  c_systemPid : Z;
  c_pausing : list nat;                  (* pauseMonitor.waiters["pause"] *)
  c_resuming : list nat                  (* pauseMonitor.waiters["resume"] *)
}.

(** The functions in the queue: the one that [handleEvent] appends, with the
    type of the event when it is a pause ([true]) or resume, and the waiting
    goroutine of the restart manager; and the one of a restart that failed. *)
Inductive qfn :=
| QEvent (k : nat) (pausing : option bool) (st : StateInfo) (wait : option nat)
| QExited (st : StateInfo).

(** The goroutine that waits for the restart manager. *)
Record goro := mkGoro { g_ctr : nat; g_wait : nat; g_st : StateInfo }.

Record Lib := mkLib {
  managers : list RestartManager.world;
  ctrs : list ctr;
  client : option nat;                   (* client.containers[id] *)
  queue : list qfn;
  goros : list goro;
  waits : nat;                           (* channels made by setState *)
  notified : gset nat                    (* those that are closed *)
}.

(** Events of containerd; a process is named by its friendly name. *)
Inductive cevent := CExit (process : string) (status : Z) | CPause | CResume | COOM.
Definition InitFriendlyName : string := "init".

Record Env := mkEnv { procs : list Z; stream : list cevent }.

Record World (D : Type) := mkW { backend : D; lib : Lib; env : Env }.
Arguments mkW {D}.
Arguments backend {D}.
Arguments lib {D}.
Arguments env {D}.

(** ** Setters *)

Definition set_restarting (b : bool) (c : ctr) : ctr :=
  mkCtr (c_rm c) b (c_oom c) (c_systemPid c) (c_pausing c) (c_resuming c).
Definition set_oom (c : ctr) : ctr :=
  mkCtr (c_rm c) (c_restarting c) true (c_systemPid c) (c_pausing c) (c_resuming c).
Definition set_pid (p : Z) (c : ctr) : ctr :=
  mkCtr (c_rm c) (c_restarting c) (c_oom c) p (c_pausing c) (c_resuming c).
Definition set_waiters (p r : list nat) (c : ctr) : ctr :=
  mkCtr (c_rm c) (c_restarting c) (c_oom c) (c_systemPid c) p r.

Definition upd_managers f (l : Lib) : Lib :=
  mkLib (f (managers l)) (ctrs l) (client l) (queue l) (goros l) (waits l) (notified l).
Definition upd_ctrs f (l : Lib) : Lib :=
  mkLib (managers l) (f (ctrs l)) (client l) (queue l) (goros l) (waits l) (notified l).
Definition set_client c (l : Lib) : Lib :=
  mkLib (managers l) (ctrs l) c (queue l) (goros l) (waits l) (notified l).
Definition upd_queue f (l : Lib) : Lib :=
  mkLib (managers l) (ctrs l) (client l) (f (queue l)) (goros l) (waits l) (notified l).
Definition upd_goros f (l : Lib) : Lib :=
  mkLib (managers l) (ctrs l) (client l) (queue l) (f (goros l)) (waits l) (notified l).

Definition on_ctr (k : nat) (f : ctr → ctr) : Lib → Lib := upd_ctrs (alter f k).

(** A call on a restart manager. *)
Definition on_manager (r : nat) (l : RestartManager.label) (L : Lib) : Lib :=
  upd_managers (alter (λ w, match RestartManager.step l w with Some (_, w') => w' | None => w end) r) L.

Definition upd_lib {D} (f : Lib → Lib) (w : World D) : World D := mkW (backend w) (f (lib w)) (env w).
Definition upd_env {D} (f : Env → Env) (w : World D) : World D := mkW (backend w) (lib w) (f (env w)).

Definition add_proc (p : Z) (e : Env) : Env := mkEnv (p :: procs e) (stream e).
Definition send (ev : cevent) (e : Env) : Env := mkEnv (procs e) (stream e ++ [ev]).

Definition start_info (pid : Z) : StateInfo := mkSI StateStart pid 0 "" false.
Definition set_kind (k : StateKind) (s : StateInfo) : StateInfo :=
  mkSI k (SI_Pid s) (SI_ExitCode s) (SI_ProcessID s) (SI_OOMKilled s).

Section client.
Context {D : Type} `{!Backend D}.
Abbreviation W := (World D).

(** [container.start].  The daemon's lock is not taken by [StateChanged] for
    the start of a container. *)
Definition start (k : nat) (o : oracle) (w : W) : option (option string * W) :=
  match o_start o with
  | SpecFails => Some (None, w)
  | FifosFail e => Some (Some e, w)
  | CreateFails e => Some (Some e, upd_lib (set_client (Some k)) w)
  | Started pid =>
      let w1 := upd_env (add_proc pid) (upd_lib (set_client (Some k)) w) in
      match b_AttachStreams o (backend w1) with
      | (Some e, d) => Some (Some e, mkW d (lib w1) (env w1))
      | (None, d) =>
          let l2 := on_ctr k (set_pid pid) (lib w1) in
          match b_StateChanged o (start_info pid) d with
          | None => None
          | Some (err, d') => Some (err, mkW d' l2 (env w1))
          end
      end
  end.

(** [client.Create], given the restart manager of the container: the part after
    the check for a container that is already there. *)
Definition create_container (rm : nat) (o : oracle) (w : W) : option (option string * W) :=
  match o_bundle o with
  | Some (true, e) => Some (Some e, w)
  | _ =>
      let k := length (ctrs (lib w)) in
      let w1 := upd_lib (upd_ctrs (λ l, l ++ [mkCtr rm false false 0 [] []])) w in
      let r := match o_bundle o with
               | Some (_, e) => Some (Some e, w1)
               | None => start k o w1
               end in
      match r with
      | Some (Some e, w2) => Some (Some e, upd_lib (set_client None) w2)
      | r => r
      end
  end.

Definition Create (rm : nat) (o : oracle) (w : W) : option (option string * W) :=
  match client (lib w) with
  | None => create_container rm o w
  | Some k =>
      match ctrs (lib w) !! k with
      | None => None
      | Some c =>
          if c_restarting c
          then create_container rm o (upd_lib (on_manager (c_rm c) RestartManager.LCancel) w)
          else Some (Some "already active", w)
      end
  end.

(** [setState]: a pause or resume request; the channel to wait for, or an
    error.  containerd answers with an event when there is a process. *)
Definition setState (pausing : bool) (o : oracle) (w : W) : option ((string + nat) * W) :=
  match client (lib w) with
  | None => Some (inl "invalid container", w)
  | Some k =>
      match ctrs (lib w) !! k with
      | None => None
      | Some c =>
          if decide (c_systemPid c = 0) then Some (inl "No active process", w)
          else match o_err o with
               | Some e => Some (inl e, w)
               | None =>
                   if decide (procs (env w) = []) then None
                   else
                     let n := waits (lib w) in
                     let l1 := mkLib (managers (lib w)) (ctrs (lib w)) (client (lib w)) (queue (lib w))
                                 (goros (lib w)) (S n) (notified (lib w)) in
                     let l2 := on_ctr k (λ c, if pausing then set_waiters (c_pausing c ++ [n]) (c_resuming c) c
                                              else set_waiters (c_pausing c) (c_resuming c ++ [n]) c) l1 in
                     Some (inr n, mkW (backend w) l2 (send (if pausing then CPause else CResume) (env w)))
               end
      end
  end.

(** ** Events *)

(** The state that [handleEvent] reports, before the restart manager is asked. *)
Definition event_state (c : ctr) (e : cevent) : StateInfo :=
  match e with
  | CExit p s => if decide (p = InitFriendlyName) then mkSI StateExit 0 s "" (c_oom c)
                 else mkSI StateExitProcess 0 s p (c_oom c)
  | CPause => mkSI StatePause 0 0 "" false
  | CResume => mkSI StateResume 0 0 "" false
  | COOM => mkSI StateOOM 0 0 "" false
  end.

Definition event_pausing (e : cevent) : option bool :=
  match e with CPause => Some true | CResume => Some false | _ => None end.

Definition handleEvent (k : nat) (e : cevent) (o : oracle) (L : Lib) : option Lib :=
  match ctrs L !! k with
  | None => None
  | Some c =>
      let st := event_state c e in
      let L1 := match e with COOM => on_ctr k set_oom L | _ => L end in
      match SI_State st with
      | StateExit =>
          match managers L1 !! c_rm c with
          | None => None
          | Some rw =>
              let '(v, rm') := RestartManager.ShouldRestart (SI_ExitCode st) false (o_dur o) (RestartManager.rm rw) in
              match v with
              | RestartManager.Restart d =>
                  let rw' := RestartManager.mkWorld rm' (RestartManager.waiters rw ++ [RestartManager.mkWaiter d RestartManager.Sleeping]) in
                  let L2 := upd_managers (λ l, <[c_rm c := rw']> l) L1 in
                  let L3 := set_client None (on_ctr k (set_restarting true) L2) in
                  Some (upd_queue (λ q, q ++ [QEvent k None (set_kind StateRestart st)
                                                (Some (length (RestartManager.waiters rw)))]) L3)
              | _ =>
                  let rw' := RestartManager.mkWorld rm' (RestartManager.waiters rw) in
                  let L2 := upd_managers (λ l, <[c_rm c := rw']> l) L1 in
                  Some (upd_queue (λ q, q ++ [QEvent k None st None]) (set_client None L2))
              end
          end
      | _ => Some (upd_queue (λ q, q ++ [QEvent k (event_pausing e) st None]) L1)
      end
  end.

(** [handleEventStream]: the next event of containerd; that of a container
    that the client does not have is dropped. *)
Definition receive (o : oracle) (w : W) : option W :=
  match stream (env w) with
  | [] => None
  | e :: s =>
      let w1 := upd_env (λ v, mkEnv (procs v) s) w in
      match client (lib w) with
      | None => Some w1
      | Some k => match handleEvent k e o (lib w) with
                  | Some L => Some (mkW (backend w1) L (env w1))
                  | None => None
                  end
      end
  end.

(** [pauseMonitor.handle]. *)
Definition pause_handle (k : nat) (pausing : bool) (L : Lib) : Lib :=
  match ctrs L !! k with
  | None => L
  | Some c =>
      match (if pausing then c_pausing c else c_resuming c) with
      | [] => L
      | n :: rest =>
          let L1 := on_ctr k (λ c, if pausing then set_waiters rest (c_resuming c) c
                                   else set_waiters (c_pausing c) rest c) L in
          mkLib (managers L1) (ctrs L1) (client L1) (queue L1) (goros L1) (waits L1) ({[n]} ∪ notified L1)
      end
  end.

(** The function at the head of the queue; errors of [StateChanged] are
    logged. *)
Definition run_queue (o : oracle) (w : W) : option W :=
  match queue (lib w) with
  | [] => None
  | QEvent k pausing st wait :: q =>
      match b_StateChanged o st (backend w) with
      | None => None
      | Some (_, d) =>
          let L1 := upd_queue (λ _, q) (lib w) in
          let L2 := match wait with
                    | Some i => upd_goros (λ g, g ++ [mkGoro k i st]) L1
                    | None => L1
                    end in
          let L3 := match pausing with Some b => pause_handle k b L2 | None => L2 end in
          Some (mkW d L3 (env w))
      end
  | QExited st :: q =>
      match b_StateChanged o st (backend w) with
      | None => None
      | Some (_, d) => Some (mkW d (upd_queue (λ _, q) (lib w)) (env w))
      end
  end.

(** The restart goroutine, once the restart manager has answered. *)
Definition run_goro (i : nat) (o : oracle) (w : W) : option W :=
  match goros (lib w) !! i with
  | None => None
  | Some g =>
      match ctrs (lib w) !! g_ctr g with
      | None => None
      | Some c =>
          match managers (lib w) !! c_rm c ≫= λ rw, RestartManager.waiters rw !! g_wait g with
          | None => None
          | Some wt =>
              let w1 := upd_lib (λ L, on_ctr (g_ctr g) (set_restarting false) (upd_goros (delete i) L)) w in
              let exit (w : W) : W :=
                upd_lib (upd_queue (λ q, q ++ [QExited (set_kind StateExit (g_st g))])) w in
              match RestartManager.status wt with
              | RestartManager.Sleeping => None
              | RestartManager.SentCanceled => Some (exit w1)
              | RestartManager.Fired =>
                  match start (g_ctr g) o w1 with
                  | None => None
                  | Some (None, w2) => Some w2
                  | Some (Some _, w2) => Some (exit w2)
                  end
              end
          end
      end
  end.

(** ** Steps of libcontainerd and of its environment *)

Inductive llabel :=
| LExit (p : Z) (status : Z)             (* the process of the container ends *)
| LExecExit (id : string) (status : Z)   (* another process of it ends *)
| LOOM
| LReceive (o : oracle)
| LQueue (o : oracle)
| LGoro (i : nat) (o : oracle)
| LTimer (r i : nat)                     (* the timer of a restart manager *)
| LCanceled (r i : nat).                 (* its goroutine sees the cancellation *)

Definition manager_step (r : nat) (l : RestartManager.label) (L : Lib) : option Lib :=
  match managers L !! r with
  | None => None
  | Some rw => match RestartManager.step l rw with
               | Some (_, rw') => Some (upd_managers (λ ms, <[r := rw']> ms) L)
               | None => None
               end
  end.

Definition lib_step (l : llabel) (w : W) : option W :=
  match l with
  | LExit p s =>
      if decide (p ∈ procs (env w))
      then Some (upd_env (λ v, mkEnv (remove_first p (procs v)) (stream v ++ [CExit InitFriendlyName s])) w)
      else None
  | LExecExit id s => if decide (id = InitFriendlyName) then None else Some (upd_env (send (CExit id s)) w)
  | LOOM => if decide (procs (env w) = []) then None else Some (upd_env (send COOM) w)
  | LReceive o => receive o w
  | LQueue o => run_queue o w
  | LGoro i o => run_goro i o w
  | LTimer r i => (λ L, mkW (backend w) L (env w)) <$> manager_step r (RestartManager.LTimer i) (lib w)
  | LCanceled r i => (λ L, mkW (backend w) L (env w)) <$> manager_step r (RestartManager.LCanceled i) (lib w)
  end.

End client.
