(* ===== verification/Lifecycle.v ===== *)
(** * The life of a container: start, stop, kill, restart, pause, remove

    Models [src/daemon/start.go], [stop.go], [kill.go], [restart.go],
    [pause.go], [unpause.go] and [delete.go] for one container, over
    libcontainerd ([Libcontainerd]) and the state of the container
    ([ContainerState]).

    An API call is a thread that runs a program ([prog]) of atomic actions
    ([act]): a region under the container's mutex is one action, and a call
    that waits is an action that is not enabled until it may go on.  The mutex
    is kept over several actions by [containerStart] and by the two pause
    calls ([locked]).  All threads, libcontainerd's goroutines and containerd
    take their steps in any order ([sys_step]). *)

From S2P Require Import Prelude GoStrings Filepath Registrar RestartManager ContainerState Libcontainerd.
Local Open Scope Z_scope.

(** ** The daemon's side *)

(** Calls into parts of the daemon that are not modelled here, in order. *)
Inductive effect :=
| EMount | EUnmount | EStopStats | ERemoveRoot | EReleaseRWLayer | ELinkDelete | EFreeLabel
| EUnlink (name : string) | ERemoveMountPoints (volumes : bool).

Inductive holder := HStart | HPause.

Record Daemon := mkDaemon {
  cont : Container;
  dchans : chans;
  locked : option holder;           (* who keeps container.Lock over several actions *)
  registered : bool;                (* daemon.containers has the container *)
  indexed : bool;                   (* daemon.idIndex has it *)
  nameIndex : Registrar;
  manager : option nat;             (* container.restartManager *)
  restartPolicy : RestartPolicy;    (* container.HostConfig.RestartPolicy *)
  cpath : string;                   (* container.Path *)
  stopSignal : Z;                   (* container.StopSignal() *)
  hasRWLayer : bool;
  shuttingDown : bool;
  effects : list effect;
  crashed : bool                    (* a run-time panic *)
}.

Definition upd_cont (f : Container → Container) (d : Daemon) : Daemon :=
  mkDaemon (f (cont d)) (dchans d) (locked d) (registered d) (indexed d) (nameIndex d) (manager d)
    (restartPolicy d) (cpath d) (stopSignal d) (hasRWLayer d) (shuttingDown d) (effects d) (crashed d).
Definition upd_state (f : State → State) : Daemon → Daemon := upd_cont (λ c, with_state (f (state c)) c).
Definition set_locked (l : option holder) (d : Daemon) : Daemon :=
  mkDaemon (cont d) (dchans d) l (registered d) (indexed d) (nameIndex d) (manager d)
    (restartPolicy d) (cpath d) (stopSignal d) (hasRWLayer d) (shuttingDown d) (effects d) (crashed d).
Definition set_manager (m : option nat) (d : Daemon) : Daemon :=
  mkDaemon (cont d) (dchans d) (locked d) (registered d) (indexed d) (nameIndex d) m
    (restartPolicy d) (cpath d) (stopSignal d) (hasRWLayer d) (shuttingDown d) (effects d) (crashed d).
Definition set_indexes (r i : bool) (n : Registrar) (d : Daemon) : Daemon :=
  mkDaemon (cont d) (dchans d) (locked d) r i n (manager d)
    (restartPolicy d) (cpath d) (stopSignal d) (hasRWLayer d) (shuttingDown d) (effects d) (crashed d).
Definition add_effect (e : effect) (d : Daemon) : Daemon :=
  mkDaemon (cont d) (dchans d) (locked d) (registered d) (indexed d) (nameIndex d) (manager d)
    (restartPolicy d) (cpath d) (stopSignal d) (hasRWLayer d) (shuttingDown d) (effects d ++ [e]) (crashed d).
Definition set_cont_chans (c : Container) (ch : chans) (d : Daemon) : Daemon :=
  mkDaemon c ch (locked d) (registered d) (indexed d) (nameIndex d) (manager d)
    (restartPolicy d) (cpath d) (stopSignal d) (hasRWLayer d) (shuttingDown d) (effects d) (crashed d).
Definition crash (d : Daemon) : Daemon :=
  mkDaemon (cont d) (dchans d) (locked d) (registered d) (indexed d) (nameIndex d) (manager d)
    (restartPolicy d) (cpath d) (stopSignal d) (hasRWLayer d) (shuttingDown d) (effects d) true.

(** [StateChanged] takes the mutex for these. *)
Definition takes_lock (k : StateKind) : bool :=
  match k with StateExit | StateRestart | StateExitProcess => true | _ => false end.

Definition daemon_StateChanged (o : oracle) (st : StateInfo) (d : Daemon) : option (option string * Daemon) :=
  if negb (registered d) then Some (Some "no such container", d)
  else if takes_lock (SI_State st) && bool_decide (locked d ≠ None) then None
  else match StateChanged (o_now o) (o_todisk o) st (cont d) (dchans d) with
       | (Ok (err, c), ch) => Some (err, set_cont_chans c ch d)
       | (Err e, ch) => Some (Some e, set_cont_chans (cont d) ch d)
       | (Panic _, _) => Some (None, crash d)
       end.

(** [StartLogging] of a container that is there; the streams are not
    modelled. *)
Definition daemon_AttachStreams (o : oracle) (d : Daemon) : option string * Daemon :=
  if negb (registered d) then (Some "no such exec/container", d) else (o_err o, d).

#[global] Instance daemon_backend : Backend Daemon := {
  b_StateChanged := daemon_StateChanged;
  b_AttachStreams := daemon_AttachStreams
}.

Abbreviation DW := (World Daemon).
Definition upd_daemon (f : Daemon → Daemon) (w : DW) : DW := mkW (f (backend w)) (lib w) (env w).

(** ** Errors *)

Inductive lerr :=
| ErrPausedStart | ErrAlreadyStarted | ErrMarkedForRemoval
| NotRunning | ErrIsPaused
| ESRCH                                   (* syscall.ESRCH *)
| NoSuchProcess (pid sig : Z)             (* errNoSuchProcess *)
| ErrAlreadyStopped
| ErrBadSignal
| ErrConflictRunning
| ErrPauseGuard (e : pause_error)
| ErrDefaultName | ErrNoParent
| ErrWrapped (what : string) (e : lerr)
| ErrString (e : string).

Definition isErrNoSuchProcess (e : lerr) : bool := match e with NoSuchProcess _ _ => true | _ => false end.

Definition fails {B} (r : option B) : bool := match r with Some _ => true | None => false end.

(** ** Actions *)

Inductive act : Type → Type :=
| IsRunning : act bool
| IsPaused : act bool
| GetPID : act Z
| StopHealthchecks : act unit
| GetStopSignal : act Z
| KillWithSignal (sig : Z) : act (option lerr)
| WaitBegin : act (Z + nat)
| WaitEnd (waited : nat) (timeout : Z) : act (outcome string Z)
| SyscallKill (pid sig : Z) : act (option lerr)
| LogEvent (e : string) : act unit
| External (what : option effect) : act (option string)   (* a call that may fail *)
| Effect (e : effect) : act unit
| StartLock : act (option (option lerr))                  (* [None]: goes on, with the mutex *)
| ResetManager : act unit
| ContainerdCreate : act (option string)
| CreateFailed (desc : string) : act unit
| StartFailed (err : string) : act unit
| StartUnlock : act unit
| PauseBegin (pausing : bool) : act (lerr + nat)
| PauseEnd (n : nat) : act unit
| SetRemoval : act bool
| ResetRemoval : act unit
| ContainersGet : act bool
| MarkDead : act unit
| ToDiskLocking : act unit
| HasRWLayer : act bool
| NameDelete : act unit
| IdDelete : act unit
| ContainersDelete : act unit
| RmLink (name : string) : act (option lerr).

Definition free (w : DW) : bool := bool_decide (locked (backend w) = None).
Definition st (w : DW) : State := state (cont (backend w)).

(** An action that takes the mutex for itself. *)
Definition region {B} (w : DW) (r : B * DW) : option (B * DW) := if free w then Some r else None.

(** [strings.Contains]. *)
Fixpoint Contains (s sub : string) : bool :=
  HasPrefix s sub || match s with EmptyString => false | String _ s' => Contains s' sub end.

Definition ExitOnNext (w : DW) : DW :=
  match manager (backend w) with
  | Some r => upd_lib (on_manager r RestartManager.LCancel) w
  | None => w
  end.

Definition set_manually_stopped (c : Container) : Container :=
  mkContainer (ID c) (state c) (RestartCount c) true (Healthcheck c) (ExecCommands c) (monitors c) (events c).

(** [killWithSignal]; [o_err] is the answer of containerd. *)
Definition killWithSignal (sig : Z) (o : oracle) (w : DW) : option lerr * DW :=
  if Paused (st w) then (Some ErrIsPaused, w)
  else if negb (Running (st w)) then (Some NotRunning, w)
  else
    let w1 := ExitOnNext w in
    let w2 := if shuttingDown (backend w1) then w1 else upd_daemon (upd_cont set_manually_stopped) w1 in
    if Restarting (st w2) then (None, w2)
    else
      let logged := (None, upd_daemon (upd_cont (LogContainerEvent "kill")) w2) in
      match o_err o with
      | None => logged
      | Some e =>
          let msg := "Cannot kill container " +:+ ID (cont (backend w)) +:+ ": " +:+ e in
          if Contains msg "container not found" || Contains msg "no such process" then logged
          else (Some (ErrString msg), w2)
      end.

(** The first region of [containerStart]. *)
Definition start_check (s : State) : option (option lerr) :=
  if Running s then Some None
  else if RemovalInProgress s || Dead s then Some (Some ErrMarkedForRemoval)
  else None.

(** [container.RestartManager(true)]. *)
Definition reset_manager (w : DW) : DW :=
  let r := length (managers (lib w)) in
  let w1 := upd_daemon (λ d, set_manager (Some r)
              (upd_cont (λ c, mkContainer (ID c) (state c) 0 (HasBeenManuallyStopped c) (Healthcheck c)
                                (ExecCommands c) (monitors c) (events c)) d)) w in
  upd_lib (upd_managers (λ l, l ++ [RestartManager.init (restartPolicy (backend w)) 0])) w1.

(** The exit code of a container that could not be created. *)
Definition create_exit_code (path desc : string) (s : State) : State :=
  let s1 := if Contains desc path &&
               (Contains desc "executable file not found" || Contains desc "no such file or directory" ||
                Contains desc "system cannot find the file specified")
            then SetExitCode 127 s else s in
  if Contains desc "permission denied" then SetExitCode 126 s1 else s1.

(** The deferred function of [containerStart]. *)
Definition start_failed (err : string) (c : Container) : Container :=
  let s1 := SetError err (state c) in
  let s2 := if decide (exitCode s1 = 0) then SetExitCode 128 s1 else s1 in
  Cleanup (with_state s2 c).

(** [rmLink]: the name of a link is released; [parent_found] says whether the
    container that the parent name is reserved to is there. *)
Definition rmLink (name0 : string) (parent_found : bool) (d : Daemon) : option lerr * Daemon :=
  let name := if HasPrefix name0 "/" then name0 else "/" +:+ name0 in
  let '(parent0, n) := PathSplit name in
  if decide (parent0 = "/") then (Some ErrDefaultName, d)
  else
    let parent := String.substring 0 (String.length parent0 - 1) parent0 in
    match Registrar.Get parent (nameIndex d) with
    | Ok _ =>
        let d1 := set_indexes (registered d) (indexed d) (Registrar.Release name (nameIndex d)) d in
        (None, if parent_found then add_effect (EUnlink name) d1 else d1)
    | _ => (Some ErrNoParent, d)
    end.

Definition pause_guard (pausing : bool) (s : State) : option pause_error :=
  if pausing then containerPause_guard s else containerUnpause_guard s.

(** ** What an action does *)

Definition exec {B} (a : act B) (o : oracle) (w : DW) : option (B * DW) :=
  match a in act B return option (B * DW) with
  | IsRunning => region w (Running (st w), w)
  | IsPaused => region w (Paused (st w), w)
  | GetPID => region w (Pid (st w), w)
  | StopHealthchecks => Some (tt, upd_daemon (upd_cont stopHealthchecks) w)
  | GetStopSignal => Some (stopSignal (backend w), w)
  | KillWithSignal sig => region w (killWithSignal sig o w)
  | WaitBegin => region w (WaitStop_begin (st w), w)
  | WaitEnd c timeout =>
      (* a ready channel and an expired timer: either may be taken *)
      let rs := WaitStop_end c timeout (o_expired o) (st w) (dchans (backend w)) in
      match (if o_expired o then last rs else head rs) with
      | None => None
      | Some (Err e) => Some (Err e, w)
      | Some r => region w (r, w)
      end
  | SyscallKill pid sig =>
      Some ((λ e, if decide (e = "no such process") then ESRCH else ErrString e) <$> o_err o, w)
  | LogEvent e => Some (tt, upd_daemon (upd_cont (LogContainerEvent e)) w)
  | External None => Some (o_err o, w)
  | External (Some e) => Some (o_err o, upd_daemon (add_effect e) w)
  | Effect e => Some (tt, upd_daemon (add_effect e) w)
  | StartLock =>
      region w match start_check (st w) with
               | Some r => (Some r, w)
               | None => (None, upd_daemon (set_locked (Some HStart)) w)
               end
  | ResetManager => Some (tt, reset_manager w)
  | ContainerdCreate =>
      match manager (backend w) with
      | Some r => Create r o w
      | None => None
      end
  | CreateFailed desc => Some (tt, upd_daemon (upd_state (create_exit_code (cpath (backend w)) desc)) w)
  | StartFailed err => Some (tt, upd_daemon (upd_cont (start_failed err)) w)
  | StartUnlock => Some (tt, upd_daemon (set_locked None) w)
  | PauseBegin pausing =>
      if free w then
        match pause_guard pausing (st w) with
        | Some e => Some (inl (ErrPauseGuard e), w)
        | None =>
            match setState pausing o w with
            | None => None
            | Some (inl e, w') => Some (inl (ErrWrapped "Cannot pause container" (ErrString e)), w')
            | Some (inr n, w') => Some (inr n, upd_daemon (set_locked (Some HPause)) w')
            end
        end
      else None
  | PauseEnd n =>
      if decide (n ∈ notified (lib w)) then Some (tt, upd_daemon (set_locked None) w) else None
  | SetRemoval => region w (let '(b, s) := SetRemovalInProgress (st w) in (b, upd_daemon (upd_state (λ _, s)) w))
  | ResetRemoval => region w (tt, upd_daemon (upd_state ResetRemovalInProgress) w)
  | ContainersGet => Some (registered (backend w), w)
  | MarkDead => region w (tt, upd_daemon (upd_state SetDead) w)
  | ToDiskLocking => region w (tt, w)
  | HasRWLayer => Some (hasRWLayer (backend w), w)
  | NameDelete =>
      Some (tt, upd_daemon (λ d, set_indexes (registered d) (indexed d) (Registrar.Delete (ID (cont d)) (nameIndex d)) d) w)
  | IdDelete => Some (tt, upd_daemon (λ d, set_indexes (registered d) false (nameIndex d) d) w)
  | ContainersDelete => Some (tt, upd_daemon (λ d, set_indexes false (indexed d) (nameIndex d) d) w)
  | RmLink name => let '(r, d) := rmLink name (negb (fails (o_err o))) (backend w) in Some (r, mkW d (lib w) (env w))
  end.

(** ** Programs *)

Inductive prog (A : Type) : Type :=
| Ret (a : A)
| Do {B : Type} (x : act B) (k : B → prog A).
Arguments Ret {A} a.
Arguments Do {A B} x k.

Fixpoint prog_bind {A C} (k : A → prog C) (p : prog A) : prog C :=
  match p with
  | Ret a => k a
  | Do x h => Do x (λ b, prog_bind k (h b))
  end.
#[global] Instance prog_mbind : MBind prog := λ A C k p, prog_bind k p.
#[global] Instance prog_mret : MRet prog := λ A a, Ret a.

Definition call {B} (x : act B) : prog B := Do x Ret.

Definition WaitStop (timeout : Z) : prog (outcome string Z) :=
  r ← call WaitBegin;
  match r with
  | inl ec => mret (Ok ec)
  | inr c => call (WaitEnd c timeout)
  end.

Definition seconds (n : Z) : Z := wrap64 (n * 10 ^ 9).

(** [err == syscall.ESRCH] compares the error with the number itself. *)
Definition killPossiblyDeadProcess (sig : Z) : prog (option lerr) :=
  err ← call (KillWithSignal sig);
  match err with
  | Some ESRCH => pid ← call GetPID; mret (Some (NoSuchProcess pid sig))
  | _ => mret err
  end.

Definition killProcessDirectly : prog (option lerr) :=
  r ← WaitStop (seconds 10);
  match r with
  | Err _ =>
      pid ← call GetPID;
      if decide (pid = 0) then mret None
      else
        err ← call (SyscallKill pid 9);
        match err with
        | Some ESRCH => mret (Some (NoSuchProcess pid 9))
        | _ => mret err
        end
  | _ => mret None
  end.

Definition Kill : prog (option lerr) :=
  running ← call IsRunning;
  if negb running then mret (Some NotRunning)
  else
    err ← killPossiblyDeadProcess 9;
    early ← match err with
            | None => mret None
            | Some e =>
                if isErrNoSuchProcess e then mret (Some None)
                else
                  running ← call IsRunning;
                  if (running : bool) then
                    _ ← WaitStop (seconds 2);
                    running ← call IsRunning;
                    mret (if (running : bool) then Some (Some e) else None)
                  else mret None
            end;
    match early with
    | Some r => mret r
    | None =>
        err ← killProcessDirectly;
        match err with
        | Some e => mret (if isErrNoSuchProcess e then None else Some e)
        | None => _ ← WaitStop (seconds (-1)); mret None
        end
    end.

Definition containerStop (secs : Z) : prog (option lerr) :=
  running ← call IsRunning;
  if negb running then mret None
  else
    _ ← call StopHealthchecks;
    sig ← call GetStopSignal;
    err ← killPossiblyDeadProcess sig;
    err ← match err with
          | Some _ => killPossiblyDeadProcess 9
          | None => mret None
          end;
    match err with
    | Some e => mret (Some e)
    | None =>
        r ← WaitStop (seconds secs);
        _ ← match r with
            | Err _ =>
                err ← Kill;
                match err with
                | Some _ => _ ← WaitStop (seconds (-1)); mret tt
                | None => mret tt
                end
            | _ => mret tt
            end;
        _ ← call (LogEvent "stop");
        mret None
    end.

(** The calls of [containerStart] under the mutex, up to an error. *)
Definition start_body : prog (option string) :=
  e ← call (External (Some EMount));
  match e with
  | Some e => mret (Some e)
  | None =>
      e ← call (External None);                     (* initializeNetworking *)
      match e with
      | Some e => mret (Some e)
      | None =>
          e ← call (External None);                 (* createSpec *)
          match e with
          | Some e => mret (Some e)
          | None =>
              _ ← call ResetManager;
              e ← call (External None);             (* getLibcontainerdCreateOptions *)
              match e with
              | Some e => mret (Some e)
              | None =>
                  e ← call ContainerdCreate;
                  match e with
                  | Some desc => _ ← call (CreateFailed desc); mret (Some desc)
                  | None => mret None
                  end
              end
          end
      end
  end.

Definition containerStart : prog (option lerr) :=
  r ← call StartLock;
  match r with
  | Some r => mret r
  | None =>
      err ← start_body;
      _ ← match err with Some e => call (StartFailed e) | None => mret tt end;
      _ ← call StartUnlock;
      mret (option_map ErrString err)
  end.

(** [ContainerStart] without the deprecated host configuration. *)
Definition ContainerStart : prog (option lerr) :=
  paused ← call IsPaused;
  if (paused : bool) then mret (Some ErrPausedStart)
  else
    running ← call IsRunning;
    if (running : bool) then mret (Some ErrAlreadyStarted)
    else
      e ← call (External None);                     (* verifyContainerSettings, adaptContainerSettings *)
      match e with
      | Some e => mret (Some (ErrString e))
      | None => containerStart
      end.

Definition ContainerStop (secs : Z) : prog (option lerr) :=
  running ← call IsRunning;
  if negb running then mret (Some ErrAlreadyStopped)
  else
    err ← containerStop secs;
    mret (option_map (ErrWrapped "Cannot stop container") err).

(** [valid] is [signal.ValidSignalForPlatform]. *)
Definition ContainerKill (valid : Z → bool) (sig : Z) : prog (option lerr) :=
  if negb (bool_decide (sig = 0)) && negb (valid sig) then mret (Some ErrBadSignal)
  else if bool_decide (sig = 0) || bool_decide (sig = 9) then Kill
  else call (KillWithSignal sig).

Definition containerRestart (secs : Z) : prog (option lerr) :=
  mounted ← call (External (Some EMount));
  err ← (err ← containerStop secs;
         match err with
         | Some e => mret (Some e)
         | None =>
             err ← containerStart;
             match err with
             | Some e => mret (Some e)
             | None => _ ← call (LogEvent "restart"); mret None
             end
         end);
  _ ← match mounted with None => call (Effect EUnmount) | Some _ => mret tt end;
  mret err.

Definition ContainerRestart (secs : Z) : prog (option lerr) :=
  err ← containerRestart secs;
  mret (option_map (ErrWrapped "Cannot restart container") err).

Definition pause_call (pausing : bool) : prog (option lerr) :=
  r ← call (PauseBegin pausing);
  match r with
  | inl e => mret (Some e)
  | inr n => _ ← call (PauseEnd n); mret None
  end.

(** The part of [cleanupContainer] after the container is marked dead; the
    deferred function takes it out of the indexes. *)
Definition remove_files (forceRemove : bool) : prog (option lerr) :=
  err ← (e ← call (External (Some ERemoveRoot));
         match e with
         | Some e => mret (Some (ErrWrapped "Unable to remove filesystem" (ErrString e)))
         | None =>
             rw ← call HasRWLayer;
             if (rw : bool) then
               e ← call (External (Some EReleaseRWLayer));
               mret ((λ e, ErrWrapped "Driver failed to remove root filesystem" (ErrString e)) <$> e)
             else mret None
         end);
  _ ← (if negb (fails err) || forceRemove then
         _ ← call NameDelete;
         _ ← call (Effect ELinkDelete);
         _ ← call (Effect EFreeLabel);
         _ ← call IdDelete;
         _ ← call ContainersDelete;
         call (LogEvent "destroy")
       else mret tt);
  mret err.

Definition cleanupContainer (forceRemove : bool) : prog (option lerr) :=
  running ← call IsRunning;
  stop ← (if (running : bool) then
            if negb forceRemove then mret (Some ErrConflictRunning)
            else
              err ← Kill;
              mret (option_map (ErrWrapped "Could not kill running container") err)
          else mret None);
  match stop with
  | Some e => mret (Some e)
  | None =>
      _ ← call (Effect EStopStats);
      err ← containerStop 3;
      match err with
      | Some e => mret (Some e)
      | None =>
          _ ← call MarkDead;
          _ ← call ToDiskLocking;
          remove_files forceRemove
      end
  end.

(** [types.ContainerRmConfig]. *)
Record RmConfig := mkRm { ForceRemove : bool; RemoveVolume : bool; RemoveLink : bool }.

Definition ContainerRm (name : string) (config : RmConfig) : prog (option lerr) :=
  inProgress ← call SetRemoval;
  if (inProgress : bool) then mret None
  else
    err ← (there ← call ContainersGet;
           if negb there then mret None
           else if RemoveLink config then call (RmLink name)
           else
             err ← cleanupContainer (ForceRemove config);
             _ ← (if negb (fails err) || ForceRemove config
                  then call (Effect (ERemoveMountPoints (RemoveVolume config))) else mret tt);
             mret err);
    _ ← call ResetRemoval;
    mret err.

(** ** The system *)

Inductive request :=
| RStart | RStop (secs : Z) | RKill (sig : Z) | RRestart (secs : Z)
| RPause | RUnpause | RRm (name : string) (config : RmConfig).

Definition handler (valid : Z → bool) (r : request) : prog (option lerr) :=
  match r with
  | RStart => ContainerStart
  | RStop secs => ContainerStop secs
  | RKill sig => ContainerKill valid sig
  | RRestart secs => ContainerRestart secs
  | RPause => pause_call true
  | RUnpause => pause_call false
  | RRm name config => ContainerRm name config
  end.

Record Sys := mkSys { world : DW; threads : list (prog (option lerr)) }.

Inductive slabel :=
| SCall (r : request)
| SThread (i : nat) (o : oracle)
| SLib (l : llabel).

Definition sys_step (valid : Z → bool) (l : slabel) (s : Sys) : option Sys :=
  match l with
  | SCall r => Some (mkSys (world s) (threads s ++ [handler valid r]))
  | SThread i o =>
      match threads s !! i with
      | Some (Do x k) =>
          match exec x o (world s) with
          | Some (b, w') => Some (mkSys w' (<[i := k b]> (threads s)))
          | None => None
          end
      | _ => None
      end
  | SLib l => (λ w, mkSys w (threads s)) <$> lib_step l (world s)
  end.

Fixpoint run (valid : Z → bool) (ls : list slabel) (s : Sys) : option Sys :=
  match ls with
  | [] => Some s
  | l :: ls' => sys_step valid l s ≫= run valid ls'
  end.

(** A container that was created and never started. *)
Definition created (id : string) (hc : option HealthConfig) (p : RestartPolicy) (names : Registrar)
    (path : string) (sig : Z) (rw down : bool) : Sys :=
  let '(s, ch) := NewState (mkChans 0 ∅) in
  mkSys (mkW (mkDaemon (mkContainer id s 0 false hc ∅ 0 []) ch None true true names None p path sig rw down [] false)
             (mkLib [] [] None [] [] 0 ∅) (mkEnv [] []))
        [].
