(* ===== verification/LifecycleInv.v ===== *)
(** * What holds in every interleaving of the lifecycle calls

    Invariants of [Lifecycle]: the flags of the daemon agree with the processes
    that libcontainerd and containerd have; the mutex and the removal flag have
    one owner; a container is removed once. *)

From S2P Require Import Prelude GoStrings Filepath Registrar RestartManager ContainerState Libcontainerd Lifecycle.
Local Open Scope nat_scope.

(** ** Processes and what is on the way *)

Definition init_exit (e : cevent) : nat :=
  match e with CExit p _ => if decide (p = InitFriendlyName) then 1 else 0 | _ => 0 end.
Definition q_restart (f : qfn) : nat := match f with QEvent _ _ _ (Some _) => 1 | _ => 0 end.
Definition is_exit (k : StateKind) : bool := match k with StateExit => true | _ => false end.
Definition q_exit (f : qfn) : nat :=
  match f with
  | QEvent _ _ st None => if is_exit (SI_State st) then 1 else 0
  | QEvent _ _ _ (Some _) => 0
  | QExited _ => 1
  end.

(** The process, its exit event, its restart. *)
Definition alive (w : DW) : nat := length (procs (env w)) + sum_list_with init_exit (stream (env w)).
Definition tokens (w : DW) : nat :=
  alive w + sum_list_with q_restart (queue (lib w)) + length (goros (lib w)).
(** The exits that the daemon has not seen yet. *)
Definition exits (w : DW) : nat := sum_list_with q_exit (queue (lib w)).

Definition q_ok (f : qfn) : Prop :=
  match f with
  | QEvent _ _ st wait =>
      match wait with Some _ => SI_State st = StateRestart | None => SI_State st ≠ StateRestart end ∧
      SI_State st ≠ StateStart ∧ SI_State st ≠ StateRestore
  | QExited st => SI_State st = StateExit
  end.

Lemma sum_app {A} (f : A → nat) l1 l2 : sum_list_with f (l1 ++ l2) = sum_list_with f l1 + sum_list_with f l2.
Proof. induction l1 as [|x l IH]; simpl; [done|lia]. Qed.

(** ** What the daemon does with a state change *)

Definition running_after (k : StateKind) (b : bool) : bool :=
  match k with StateExit => false | StateRestart | StateStart | StateRestore => true | _ => b end.

Definition destroys (l : list string) : nat := length (filter (λ e, e = "destroy") l).

Lemma destroys_snoc l e : e ≠ "destroy" → destroys (l ++ [e]) = destroys l.
Proof. intros. unfold destroys. rewrite filter_app, filter_cons_False by done. by rewrite app_nil_r. Qed.

(** What the health functions and state changes leave alone. *)
Record quiet (c c' : Container) : Prop := {
  qu_id : ID c' = ID c;
  qu_dead : Dead (state c') = Dead (state c);
  qu_removal : RemovalInProgress (state c') = RemovalInProgress (state c);
  qu_destroys : destroys (events c') = destroys (events c)
}.

#[export] Instance quiet_refl : Reflexive quiet.
Proof. by split. Qed.
#[export] Instance quiet_trans : Transitive quiet.
Proof. intros c1 c2 c3 [] []. split; congruence. Qed.

Lemma quiet_log e c : e ≠ "destroy" → quiet c (LogContainerEvent e c).
Proof. intros. split; try done. by apply destroys_snoc. Qed.

Lemma quiet_closeMonitor h c : quiet c (closeMonitor h c).
Proof. by split. Qed.

Lemma quiet_updateHealthMonitor c : quiet c (updateHealthMonitor c).
Proof.
  unfold updateHealthMonitor. destruct (health (state c)); [|done].
  case_match; [|apply quiet_closeMonitor]. by destruct (OpenMonitorChannel h).
Qed.

Lemma quiet_stopHealthchecks c : quiet c (stopHealthchecks c).
Proof. unfold stopHealthchecks. by destruct (health (state c)). Qed.

Lemma quiet_initHealthMonitor c : quiet c (initHealthMonitor c).
Proof.
  unfold initHealthMonitor. destruct (negb (getProbe c)); [done|].
  etrans; [apply quiet_stopHealthchecks|]. set (c1 := stopHealthchecks c).
  etrans; [|apply quiet_updateHealthMonitor]. by split.
Qed.

(** The running flag and the channel through the same functions. *)
Record steady (c c' : Container) : Prop := {
  sd_running : Running (state c') = Running (state c);
  sd_chan : waitChan (state c') = waitChan (state c)
}.

#[export] Instance steady_refl : Reflexive steady.
Proof. by split. Qed.
#[export] Instance steady_trans : Transitive steady.
Proof. intros c1 c2 c3 [] []. split; congruence. Qed.

Lemma steady_updateHealthMonitor c : steady c (updateHealthMonitor c).
Proof.
  unfold updateHealthMonitor. destruct (health (state c)); [|done].
  case_match; [|by split]. by destruct (OpenMonitorChannel h).
Qed.

Lemma steady_stopHealthchecks c : steady c (stopHealthchecks c).
Proof. unfold stopHealthchecks. by destruct (health (state c)). Qed.

Lemma steady_initHealthMonitor c : steady c (initHealthMonitor c).
Proof.
  unfold initHealthMonitor. destruct (negb (getProbe c)); [done|].
  etrans; [apply steady_stopHealthchecks|]. set (c1 := stopHealthchecks c).
  etrans; [|apply steady_updateHealthMonitor]. by split.
Qed.

Lemma chan_ok_same s s' ch : waitChan s' = waitChan s → chan_ok s ch → chan_ok s' ch.
Proof. intros E [???]. split; by rewrite ?E. Qed.

Ltac same_chan := eapply chan_ok_same; [|eassumption]; (done || (simpl in *; congruence)).

Lemma StateChanged_effect now td e c ch :
  chan_ok (state c) ch →
  ∃ err c' ch', StateChanged now td e c ch = (Ok (err, c'), ch') ∧ chan_ok (state c') ch' ∧ quiet c c' ∧
    Running (state c') = running_after (SI_State e) (Running (state c)) ∧
    (td = None → err = None).
Proof.
  intros Hch. unfold StateChanged.
  assert (Hfire : ∀ s, chan_ok s ch → ∃ s' ch', fire_waiters (s, ch) = (Ok tt, (s', ch')) ∧ chan_ok s' ch' ∧
    Running s' = Running s ∧ Dead s' = Dead s ∧ RemovalInProgress s' = RemovalInProgress s).
  { intros s Hs. unfold fire_waiters. destruct Hs as [Hm Ho Hc]. rewrite decide_False by done.
    eexists _, _. split; [reflexivity|]. split_and!; try done. split; simpl.
    - lia.
    - intros [?%elem_of_singleton|?%Hc]%elem_of_union; lia.
    - intros n [->%elem_of_singleton|?%Hc]%elem_of_union; lia. }
  destruct (SI_State e) eqn:Ek; cbn [running_after].
  - eexists _, _, _. split; [reflexivity|]. pose proof (steady_updateHealthMonitor c) as [Hr Hw].
    split_and!; try done; [same_chan|].
    etrans; [apply quiet_updateHealthMonitor|by apply quiet_log].
  - unfold on_state, SetStopped.
    match goal with |- context [fire_waiters (?s, ch)] => destruct (Hfire s) as (s' & ch' & E & Hok & Hr & Hd & Hrm) end.
    { same_chan. }
    rewrite E. eexists _, _, _. split; [reflexivity|].
    set (c1 := with_state s' c). pose proof (steady_updateHealthMonitor c1) as [Hr1 Hw1].
    split_and!; [same_chan| |exact (eq_trans Hr1 Hr)|done].
    transitivity (LogContainerEvent "die" (updateHealthMonitor c1)); [|by split].
    etrans; [|by apply quiet_log]. etrans; [|apply quiet_updateHealthMonitor]. by split.
  - unfold on_state, SetRestarting.
    match goal with |- context [fire_waiters (?s, ch)] => destruct (Hfire s) as (s' & ch' & E & Hok & Hr & Hd & Hrm) end.
    { same_chan. }
    rewrite E. eexists _, _, _. split; [reflexivity|].
    match goal with |- context [updateHealthMonitor ?x] => set (c1 := x); pose proof (steady_updateHealthMonitor c1) as [Hr1 Hw1] end.
    split_and!; [same_chan| |exact (eq_trans Hr1 Hr)|done].
    etrans; [|apply quiet_updateHealthMonitor]. etrans; [|by apply quiet_log]. by split.
  - eexists _, _, _. by split_and!.
  - destruct td as [er|].
    + eexists _, _, _. split; [reflexivity|]. split_and!; try done. same_chan.
    + eexists _, _, _. split; [reflexivity|].
      match goal with |- context [initHealthMonitor ?x] => set (c1 := x); pose proof (steady_initHealthMonitor c1) as [Hr1 Hw1] end.
      split_and!; [same_chan| |exact Hr1|done].
      etrans; [|by apply quiet_log]. etrans; [|apply quiet_initHealthMonitor]. by split.
  - destruct td as [er|].
    + eexists _, _, _. split; [reflexivity|]. split_and!; try done. same_chan.
    + eexists _, _, _. split; [reflexivity|].
      match goal with |- context [initHealthMonitor ?x] => set (c1 := x); pose proof (steady_initHealthMonitor c1) as [Hr1 Hw1] end.
      split_and!; [same_chan| |exact Hr1|done].
      etrans; [|by apply quiet_log]. etrans; [|apply quiet_initHealthMonitor]. by split.
  - eexists _, _, _. split; [reflexivity|].
    match goal with |- context [updateHealthMonitor ?x] => set (c1 := x); pose proof (steady_updateHealthMonitor c1) as [Hr1 Hw1] end.
    split_and!; [same_chan| |exact Hr1|done].
    etrans; [|by apply quiet_log]. etrans; [|apply quiet_updateHealthMonitor]. by split.
  - eexists _, _, _. split; [reflexivity|].
    match goal with |- context [updateHealthMonitor ?x] => set (c1 := x); pose proof (steady_updateHealthMonitor c1) as [Hr1 Hw1] end.
    split_and!; [same_chan| |exact Hr1|done].
    etrans; [|by apply quiet_log]. etrans; [|apply quiet_updateHealthMonitor]. by split.
  - eexists _, _, _. by split_and!.
Qed.

(** What a state change leaves alone of the daemon. *)
Record keeps (d d' : Daemon) : Prop := {
  k_cont : quiet (cont d) (cont d');
  k_locked : locked d' = locked d;
  k_registered : registered d' = registered d;
  k_indexed : indexed d' = indexed d;
  k_names : nameIndex d' = nameIndex d;
  k_manager : manager d' = manager d
}.

#[export] Instance keeps_refl : Reflexive keeps.
Proof. by split. Qed.
#[export] Instance keeps_trans : Transitive keeps.
Proof. intros d1 d2 d3 [] []. split; [by etrans|congruence..]. Qed.

Definition d_running (d : Daemon) : bool := Running (state (cont d)).
Definition d_chan_ok (d : Daemon) : Prop := chan_ok (state (cont d)) (dchans d).

Lemma daemon_StateChanged_effect o e d r d' :
  d_chan_ok d → daemon_StateChanged o e d = Some (r, d') →
  keeps d d' ∧ d_chan_ok d' ∧ crashed d' = crashed d ∧
  if registered d then d_running d' = running_after (SI_State e) (d_running d) ∧ (o_todisk o = None → r = None) ∧
                       (takes_lock (SI_State e) = true → locked d = None)
  else d' = d.
Proof.
  intros Hch. unfold daemon_StateChanged. destruct (registered d) eqn:Er; cbn [negb]; [|by intros [= <- <-]].
  destruct (takes_lock (SI_State e) && bool_decide (locked d ≠ None)) eqn:El; [done|].
  destruct (StateChanged_effect (o_now o) (o_todisk o) e (cont d) (dchans d) Hch) as (err & c' & ch' & -> & Hok & Hq & Hr & Ht).
  intros [= <- <-]. split; [by split; rewrite ?Er|]. split; [done|]. split; [done|]. split_and!; [done..|].
  intros Hl. rewrite Hl in El. by destruct (locked d).
Qed.

(** ** The invariant of the world *)

Record WInv (w : DW) : Prop := {
  wi_crash : crashed (backend w) = false;
  wi_chan : d_chan_ok (backend w);
  wi_queue : Forall q_ok (queue (lib w));
  wi_tokens : tokens w ≤ 1;
  wi_running : registered (backend w) = true → tokens w + exits w = if d_running (backend w) then 1 else 0;
  wi_client : registered (backend w) = true → 0 < alive w → client (lib w) ≠ None
}.

(** A start that fails does so before the process is there. *)
Definition clean (o : oracle) : Prop :=
  o_start o ≠ SpecFails ∧ ∀ pid, o_start o = Started pid → o_err o = None ∧ o_todisk o = None.

(** A step of libcontainerd: the invariant, what the daemon keeps, and no new
    process or exit on the way. *)
Definition lib_ok (w w' : DW) : Prop :=
  WInv w' ∧ keeps (backend w) (backend w') ∧
  (registered (backend w) = true → tokens w' + exits w' ≤ tokens w + exits w).

Lemma lib_ok_same w w' :
  WInv w → backend w' = backend w → Forall q_ok (queue (lib w')) →
  tokens w' = tokens w → exits w' = exits w → alive w' ≤ alive w → (client (lib w') = None → client (lib w) = None) →
  lib_ok w w'.
Proof.
  intros [] Hb Hq Ht He Ha Hc. split; [|split; [by rewrite Hb|lia]]. split; rewrite ?Hb, ?Ht, ?He; try done.
  intros Hr Hal Hn. apply Hc in Hn. by apply wi_client0; [|lia|].
Qed.

Lemma alive_ctrs (w : DW) L : alive (mkW (backend w) L (env w)) = alive w.
Proof. done. Qed.

Lemma receive_ok o w w' : WInv w → receive o w = Some w' → lib_ok w w'.
Proof.
  intros HI. unfold receive. destruct (stream (env w)) as [|e s] eqn:Es; [done|].
  assert (Hal : alive w = length (procs (env w)) + (init_exit e + sum_list_with init_exit s)) by (unfold alive; by rewrite Es).
  destruct (client (lib w)) as [k|] eqn:Ec.
  - destruct (handleEvent k e o (lib w)) as [L|] eqn:Eh; [|done]. intros [= <-].
    unfold handleEvent in Eh. destruct (ctrs (lib w) !! k) as [c|]; [|done].
    destruct (decide (init_exit e = 1)) as [He|He].
    + destruct e as [p s'| | |]; try done. cbn [init_exit] in He. destruct (decide (p = InitFriendlyName)) as [->|]; [|done].
      unfold event_state in Eh. rewrite decide_True in Eh by done. cbn [SI_State] in Eh.
      destruct (managers (lib w) !! c_rm c) as [rw|]; [|done].
      destruct (RestartManager.ShouldRestart _ _ _ _) as [v rm'].
      assert (Hcase : ∃ f, queue L = queue (lib w) ++ [f] ∧ q_ok f ∧ q_restart f + q_exit f = 1 ∧
        goros L = goros (lib w) ∧ client L = None).
      { destruct v; simplify_eq/=; eexists; (split_and!; [done| |done..]); by split_and!. }
      destruct Hcase as (f & Hq & Hf & H1 & Hg & Hcl). destruct HI.
      assert (Ht : tokens (mkW (backend w) L (mkEnv (procs (env w)) s)) + 1 = tokens w + q_restart f).
      { unfold tokens, alive. cbn [backend lib env procs stream]. rewrite Hq, Hg, sum_app, Es. cbn [sum_list_with init_exit].
        rewrite decide_True by done. simpl. lia. }
      assert (Hx : exits (mkW (backend w) L (mkEnv (procs (env w)) s)) = exits w + q_exit f).
      { unfold exits. cbn [lib]. rewrite Hq, sum_app. simpl. lia. }
      assert (Ha : alive (mkW (backend w) L (mkEnv (procs (env w)) s)) + 1 = alive w).
      { unfold alive. cbn [env procs stream]. rewrite Es. cbn [sum_list_with init_exit]. rewrite decide_True by done. lia. }
      assert (alive w ≤ tokens w) by (unfold tokens; lia).
      split; [|split; [done|intros; lia]]. split; try done.
      * cbn [lib]. rewrite Hq. apply Forall_app. split; [done|by repeat constructor].
      * lia.
      * intros Hr. cbn [backend]. rewrite <-wi_running0 by done. lia.
      * intros Hr Hpos. lia.
    + assert (He0 : init_exit e = 0) by (destruct e; simpl in *; repeat case_decide; lia).
      assert (Hcase : ∃ f, queue L = queue (lib w) ++ [f] ∧ q_ok f ∧ q_restart f = 0 ∧ q_exit f = 0 ∧
        goros L = goros (lib w) ∧ client L = client (lib w)).
      { destruct e as [p s'| | |]; cbn [init_exit] in He0; unfold event_state in Eh; [|simplify_eq/=; eexists; split_and!; done..].
        destruct (decide (p = InitFriendlyName)); [done|]. simplify_eq/=. eexists. by split_and!. }
      destruct Hcase as (f & Hq & Hf & H1 & H2 & Hg & Hcl). apply lib_ok_same; try done.
      * cbn [lib]. rewrite Hq. apply Forall_app. split; [by destruct HI|by repeat constructor].
      * unfold tokens, alive. cbn [backend lib env procs stream]. rewrite Hq, Hg, sum_app, Es. simpl. lia.
      * unfold exits. cbn [lib]. rewrite Hq, sum_app. simpl. lia.
      * unfold alive. cbn [env procs stream]. rewrite Es. simpl. lia.
      * by rewrite <-Hcl.
  - intros [= <-]. assert (Hz : registered (backend w) = true → alive w = 0).
    { intros Hr. destruct (decide (0 < alive w)) as [Hp|]; [|lia]. by destruct (wi_client w HI Hr Hp). }
    assert (Ht : tokens (upd_env (λ v, mkEnv (procs v) s) w) + init_exit e = tokens w).
    { unfold tokens, alive. simpl. rewrite Es. simpl. lia. }
    assert (Ha : alive (upd_env (λ v, mkEnv (procs v) s) w) + init_exit e = alive w).
    { unfold alive. simpl. rewrite Es. simpl. lia. }
    destruct HI. split; [|split; [done|intros Hr; change (exits _) with (exits w); lia]]. split; try done.
    + lia.
    + intros Hr. change (exits (upd_env _ w)) with (exits w). change (backend (upd_env _ w)) with (backend w) in *.
      rewrite <-wi_running0 by done. specialize (Hz Hr). lia.
    + intros Hr Hp. specialize (Hz Hr). lia.
Qed.

Lemma run_queue_ok o w w' : WInv w → run_queue o w = Some w' → lib_ok w w'.
Proof.
  intros HI. unfold run_queue. destruct (queue (lib w)) as [|f q] eqn:Eq; [done|].
  pose proof (wi_queue w HI) as Hqs. rewrite Eq in Hqs. apply Forall_cons in Hqs as [Hf Hqs].
  assert (Hpause : ∀ k b L, queue (pause_handle k b L) = queue L ∧ goros (pause_handle k b L) = goros L ∧
    client (pause_handle k b L) = client L).
  { intros k b L. unfold pause_handle. by repeat case_match. }
  assert (Hgo : ∀ r d L, b_StateChanged o (match f with QEvent _ _ e _ | QExited e => e end) (backend w) = Some (r, d) →
    queue L = q → length (goros L) = length (goros (lib w)) + q_restart f → client L = client (lib w) →
    lib_ok w (mkW d L (env w))).
  { intros r d L Hd HqL HgL Hcl. apply daemon_StateChanged_effect in Hd as (Hk & Hch & Hcr & Hd); [|by destruct HI].
    pose proof Hk as [Hkc _ Hkr _ _ _].
    assert (Ha : alive (mkW d L (env w)) = alive w) by done.
    assert (Ht : tokens (mkW d L (env w)) = tokens w).
    { unfold tokens. rewrite Ha. cbn [lib]. rewrite HqL, Eq, HgL. simpl. lia. }
    assert (Hx : exits (mkW d L (env w)) + q_exit f = exits w).
    { unfold exits. cbn [lib]. rewrite HqL, Eq. simpl. lia. }
    destruct HI. split; [|split; [done|intros; lia]]. split; cbn [backend lib] in *.
    - by rewrite Hcr.
    - done.
    - by rewrite HqL.
    - lia.
    - rewrite Hkr. intros Hr. rewrite Hr in Hd. destruct Hd as (Hd & _). rewrite Hd. specialize (wi_running0 Hr).
      destruct f as [k p e [i|]|e]; cbn [q_exit q_ok] in *.
      + destruct Hf as [-> _]. simpl. assert (1 ≤ tokens w) by (unfold tokens; rewrite Eq; simpl; lia).
        destruct (d_running (backend w)); lia.
      + destruct Hf as (Hf1 & Hf2 & Hf3). destruct (SI_State e); cbn [is_exit running_after] in *; try done; try lia.
        destruct (d_running (backend w)); lia.
      + rewrite Hf. simpl. destruct (d_running (backend w)); lia.
    - rewrite Hkr, Hcl. intros Hr Hp. by apply wi_client0. }
  destruct f as [k p e wait|e].
  - destruct (b_StateChanged o e (backend w)) as [[r d]|] eqn:Hd; [|done]. intros [= <-].
    set (L2 := match wait with Some i => upd_goros (λ g, g ++ [mkGoro k i e]) (upd_queue (λ _, q) (lib w))
                             | None => upd_queue (λ _, q) (lib w) end).
    assert (H2 : queue L2 = q ∧ length (goros L2) = length (goros (lib w)) + q_restart (QEvent k p e wait) ∧
      client L2 = client (lib w)).
    { unfold L2. destruct wait; simpl; rewrite ?length_app; simpl; split_and!; done || lia. }
    destruct H2 as (H2q & H2g & H2c).
    destruct p as [b|]; [destruct (Hpause k b L2) as (Hp1 & Hp2 & Hp3)|]; (eapply Hgo; [done|congruence..]).
  - destruct (b_StateChanged o e (backend w)) as [[r d]|] eqn:Hd; [|done]. intros [= <-].
    eapply Hgo; [done|done| |done]. simpl. lia.
Qed.

(** What [container.start] does: it made a process that the daemon knows of, or
    it failed and changed neither the daemon nor (as long as the daemon has the
    container) the processes. *)
Lemma start_effect k o w r w' :
  clean o → d_chan_ok (backend w) → start k o w = Some (r, w') →
  queue (lib w') = queue (lib w) ∧ goros (lib w') = goros (lib w) ∧ managers (lib w') = managers (lib w) ∧
  stream (env w') = stream (env w) ∧ keeps (backend w) (backend w') ∧ d_chan_ok (backend w') ∧
  crashed (backend w') = crashed (backend w) ∧ (client (lib w') = None → client (lib w) = None) ∧
  ((r = None ∧ registered (backend w) = true ∧ d_running (backend w') = true ∧
    length (procs (env w')) = S (length (procs (env w))) ∧ client (lib w') = Some k) ∨
   (r ≠ None ∧ backend w' = backend w ∧
    if registered (backend w) then procs (env w') = procs (env w)
    else length (procs (env w')) ≤ S (length (procs (env w))))).
Proof.
  intros [Hs Ho] Hch. unfold start. destruct (o_start o) as [|e|e|pid] eqn:Es; [done|..].
  - intros [= <- <-]. split_and!; try done. right. split_and!; [done..|]. destruct (registered _); [done|lia].
  - intros [= <- <-]. split_and!; try done. right. split_and!; [done..|]. destruct (registered _); [done|simpl; lia].
  - destruct (Ho pid eq_refl) as [He Ht]. cbn [upd_env upd_lib backend b_AttachStreams daemon_backend].
    unfold daemon_AttachStreams. rewrite He. destruct (registered (backend w)) eqn:Er; cbn [negb].
    + destruct (b_StateChanged o (start_info pid) (backend w)) as [[err d']|] eqn:Hd; [|done]. intros [= <- <-].
      apply daemon_StateChanged_effect in Hd as (Hk & Hch' & Hcr & Hd); [|done]. rewrite Er in Hd.
      destruct Hd as (Hrun & Herr & _). split_and!; try done. left. split_and!; try done. by apply Herr.
    + intros [= <- <-]. split_and!; try done. right. split_and!; [done..|]. simpl. lia.
Qed.

Lemma run_goro_ok i o w w' : WInv w → clean o → run_goro i o w = Some w' → lib_ok w w'.
Proof.
  intros HI Hclean. unfold run_goro. destruct (goros (lib w) !! i) as [g|] eqn:Eg; [|done].
  destruct (ctrs (lib w) !! g_ctr g) as [c|]; [|done].
  destruct (managers (lib w) !! c_rm c ≫= _) as [wt|]; [|done].
  set (w1 := upd_lib _ w). set (fin := λ w : DW, upd_lib (upd_queue (λ q, q ++ [QExited (set_kind StateExit (g_st g))])) w).
  pose proof (lookup_lt_Some _ _ _ Eg) as Hi.
  assert (Hlen : length (goros (lib w1)) + 1 = length (goros (lib w))).
  { simpl. rewrite length_delete by eauto. lia. }
  assert (Ht1 : tokens w1 + 1 = tokens w) by (unfold tokens; change (alive w1) with (alive w); simpl in *; lia).
  (* the end of a restart that did not take place *)
  assert (Hfin : ∀ w2, backend w2 = backend w → queue (lib w2) = queue (lib w) → goros (lib w2) = goros (lib w1) →
    stream (env w2) = stream (env w) →
    (if registered (backend w) then procs (env w2) = procs (env w) else length (procs (env w2)) ≤ S (length (procs (env w)))) →
    (client (lib w2) = None → client (lib w) = None) → lib_ok w (fin w2)).
  { intros w2 Hb Hq Hg Hs Hp Hc.
    assert (Hal : alive (fin w2) ≤ alive w + (if registered (backend w) then 0 else 1)).
    { unfold alive. cbn [env fin upd_lib]. rewrite Hs. destruct (registered (backend w)); [rewrite Hp; lia|lia]. }
    assert (Ht : tokens (fin w2) + 1 ≤ tokens w + (if registered (backend w) then 0 else 1)).
    { unfold tokens. cbn [lib fin upd_lib upd_queue queue goros]. rewrite Hq, Hg, sum_app. simpl sum_list_with. lia. }
    assert (Hx : exits (fin w2) = exits w + 1).
    { unfold exits. cbn [lib fin upd_lib upd_queue queue]. rewrite Hq, sum_app. simpl. lia. }
    destruct HI. split; [|split].
    - assert (Hfb : backend (fin w2) = backend w) by done. split; rewrite ?Hfb; try done.
      + change (queue (lib (fin w2))) with (queue (lib w2) ++ [QExited (set_kind StateExit (g_st g))]).
        rewrite Hq. apply Forall_app. split; [done|by repeat constructor].
      + destruct (registered (backend w)); lia.
      + intros Hr. rewrite Hr in Ht, Hal, Hp. rewrite <-wi_running0 by done.
        assert (alive (fin w2) = alive w) by (unfold alive; cbn [env fin upd_lib]; by rewrite Hs, Hp).
        assert (tokens (fin w2) + 1 = tokens w).
        { unfold tokens. cbn [lib fin upd_lib upd_queue queue goros]. rewrite Hq, Hg, sum_app. simpl sum_list_with.
          cbn [lib fin upd_lib upd_queue queue goros] in *. lia. }
        lia.
      + intros Hr Hpos. rewrite Hr in Hal. change (client (lib (fin w2))) with (client (lib w2)). intros Hn. apply Hc in Hn.
        apply (wi_client0 Hr); [lia|done].
    - change (backend (fin w2)) with (backend w2). by rewrite Hb.
    - intros Hr. rewrite Hr in Ht. lia. }
  destruct (RestartManager.status wt); [done| |].
  - destruct (start (g_ctr g) o w1) as [[r w2]|] eqn:E; [|done].
    apply start_effect in E as (Hq & Hg & Hm & Hs & Hk & Hch & Hcr & Hc & Hcase); [|done|by destruct HI].
    destruct Hcase as [(-> & Hr & Hrun & Hp & Hcl)|(Hne & Hb & Hp)].
    + intros [= <-]. pose proof Hk as [_ _ Hkr _ _ _]. change (backend w1) with (backend w) in *.
      assert (Hal : alive w2 = alive w + 1) by (unfold alive; rewrite Hs, Hp; simpl; lia).
      assert (Ht : tokens w2 = tokens w).
      { unfold tokens. rewrite Hal, Hq, Hg. change (queue (lib w1)) with (queue (lib w)). lia. }
      assert (Hx : exits w2 = exits w) by (unfold exits; by rewrite Hq).
      destruct HI. split; [|split; [done|intros; lia]]. split; try done.
      * by rewrite Hcr.
      * by rewrite Hq.
      * lia.
      * intros _. rewrite Hrun. specialize (wi_running0 Hr). assert (1 ≤ tokens w) by (unfold tokens; lia).
        destruct (d_running (backend w)); lia.
      * intros _ _. by rewrite Hcl.
    + destruct r as [e|]; [|done]. intros [= <-]. by apply Hfin.
  - intros [= <-]. apply Hfin; try done. destruct (registered _); [done|simpl; lia].
Qed.

(** [Create], when the daemon does not think that the container runs. *)
Lemma Create_ok rm o w r w' :
  WInv w → clean o → registered (backend w) = true → d_running (backend w) = false →
  Create rm o w = Some (r, w') → WInv w' ∧ keeps (backend w) (backend w').
Proof.
  intros HI Hclean Hr Hrun. pose proof (wi_running w HI Hr) as H0. rewrite Hrun in H0.
  assert (Hal : alive w = 0) by (unfold tokens in H0; lia).
  (* a world that differs in the container objects and managers *)
  assert (Hsame : ∀ w1 : DW, backend w1 = backend w → env w1 = env w → queue (lib w1) = queue (lib w) →
    goros (lib w1) = goros (lib w) → WInv w1).
  { intros w1 Hb He Hq Hg. assert (Ha : alive w1 = alive w) by (unfold alive; by rewrite He).
    assert (Ht : tokens w1 = tokens w) by (unfold tokens; by rewrite Ha, Hq, Hg).
    assert (Hx : exits w1 = exits w) by (unfold exits; by rewrite Hq). destruct HI.
    split; rewrite ?Hb, ?Hq; try done; try lia. intros _. by rewrite Hrun, Ht, Hx. }
  assert (Hbody : ∀ w1 r w', backend w1 = backend w → env w1 = env w → queue (lib w1) = queue (lib w) →
    goros (lib w1) = goros (lib w) → create_container rm o w1 = Some (r, w') → WInv w' ∧ keeps (backend w) (backend w')).
  { clear r w'. intros w1 r w' Hb He Hq Hg. unfold create_container.
    assert (Hfail : ∀ w2 : DW, backend w2 = backend w → env w2 = env w → queue (lib w2) = queue (lib w) →
      goros (lib w2) = goros (lib w) → WInv w2 ∧ keeps (backend w) (backend w2)).
    { intros w2 Hb2 ???. split; [by apply Hsame|by rewrite Hb2]. }
    destruct (o_bundle o) as [[[] e]|].
    - intros [= <- <-]. by apply Hfail.
    - intros [= <- <-]. by apply Hfail.
    - set (w2 := upd_lib (upd_ctrs _) w1). destruct (start (length (ctrs (lib w1))) o w2) as [[r2 w3]|] eqn:E; [|done].
      apply start_effect in E as (Hq3 & Hg3 & _ & Hs3 & Hk & Hch & Hcr & _ & Hcase); [|done|].
      2:{ change (backend w2) with (backend w1). rewrite Hb. by destruct HI. }
      change (backend w2) with (backend w1) in *. change (queue (lib w2)) with (queue (lib w1)) in *.
      change (goros (lib w2)) with (goros (lib w1)) in *. change (env w2) with (env w1) in *.
      rewrite Hb in *. destruct Hcase as [(-> & _ & Hrun3 & Hp3 & Hcl3)|(Hne & Hb3 & Hp3)].
      + intros [= <- <-]. split; [|done].
        assert (Ha3 : alive w3 = 1) by (unfold alive in *; rewrite Hs3, Hp3, He; lia).
        assert (Ht3 : tokens w3 = 1) by (unfold tokens in *; rewrite Ha3, Hq3, Hg3, Hq, Hg; lia).
        assert (Hx3 : exits w3 = 0) by (unfold exits in *; rewrite Hq3, Hq; lia). destruct HI. split; try done.
        * by rewrite Hcr.
        * by rewrite Hq3, Hq.
        * lia.
        * intros _. rewrite Hrun3. lia.
        * intros _ _. by rewrite Hcl3.
      + rewrite Hr in Hp3. destruct r2 as [e|]; [|done]. intros [= <- <-].
        assert (He3 : env w3 = env w).
        { destruct (env w3) as [p3 s3] eqn:E3. cbn [procs stream] in *. rewrite Hp3, Hs3, He. by destruct (env w). }
        apply Hfail; simpl; congruence. }
  unfold Create. destruct (client (lib w)) as [k|]; [|by apply Hbody].
  destruct (ctrs (lib w) !! k) as [c|]; [|done]. destruct (c_restarting c); [by apply Hbody|].
  intros [= <- <-]. done.
Qed.

Definition clean_llabel (l : llabel) : Prop := match l with LGoro _ o => clean o | _ => True end.

Lemma sum_remove_first_length p (l : list Z) : p ∈ l → length (remove_first p l) + 1 = length l.
Proof.
  induction l as [|x l IH]; intros Hp; [by apply elem_of_nil in Hp|]. simpl. case_decide; [simpl; lia|].
  apply elem_of_cons in Hp as [->|Hp]; [done|]. simpl. specialize (IH Hp). lia.
Qed.

Lemma lib_step_ok l w w' : WInv w → clean_llabel l → lib_step l w = Some w' → lib_ok w w'.
Proof.
  intros HI Hl. destruct l as [p s|id s| |o|o|i o|r i|r i]; cbn [lib_step].
  - case_decide as Hp; [|done]. intros [= <-].
    assert (Ha : alive (upd_env (λ v, mkEnv (remove_first p (procs v)) (stream v ++ [CExit InitFriendlyName s])) w) = alive w).
    { unfold alive. simpl. rewrite sum_app. cbn [sum_list_with init_exit]. rewrite decide_True by done.
      pose proof (sum_remove_first_length p _ Hp). lia. }
    apply lib_ok_same; try done; [by destruct HI|by unfold tokens; rewrite Ha|lia].
  - case_decide as Hid; [done|]. intros [= <-].
    assert (Ha : alive (upd_env (send (CExit id s)) w) = alive w).
    { unfold alive. simpl. rewrite sum_app. cbn [sum_list_with init_exit]. rewrite decide_False by done. lia. }
    apply lib_ok_same; try done; [by destruct HI|by unfold tokens; rewrite Ha|lia].
  - case_decide as Hp; [done|]. intros [= <-].
    assert (Ha : alive (upd_env (send COOM) w) = alive w).
    { unfold alive. simpl. rewrite sum_app. simpl. lia. }
    apply lib_ok_same; try done; [by destruct HI|by unfold tokens; rewrite Ha|lia].
  - by apply receive_ok.
  - by apply run_queue_ok.
  - by apply run_goro_ok.
  - intros (L & HL & ->)%fmap_Some. unfold manager_step in HL. repeat case_match; simplify_eq.
    apply lib_ok_same; try done. by destruct HI.
  - intros (L & HL & ->)%fmap_Some. unfold manager_step in HL. repeat case_match; simplify_eq.
    apply lib_ok_same; try done. by destruct HI.
Qed.
