(* ===== verification/LifecycleSafety.v ===== *)
(** * Owners of the mutex and of the removal

    A logic for the programs of [Lifecycle]: the stage that a call is in, by the
    mutex it keeps and by how far a removal has got ([okp]); every handler
    obeys it.  With the invariant of the world it gives the safety of every
    interleaving. *)

From S2P Require Import Prelude GoStrings Filepath Registrar RestartManager ContainerState Libcontainerd Lifecycle LifecycleInv.
Local Open Scope nat_scope.

(** ** Stages *)

Inductive lstage := L0 | LHeld | LCreated | LPaused.
Inductive rstage := R0 | Removing | Checked | Marked | Nameless | Gone | Destroyed.
#[global] Instance lstage_dec : EqDecision lstage.
Proof. solve_decision. Defined.
#[global] Instance rstage_dec : EqDecision rstage.
Proof. solve_decision. Defined.

Record stage := mkStage { s_lock : lstage; s_rm : rstage }.
Definition stage0 : stage := mkStage L0 R0.

Definition with_lock (l : lstage) (s : stage) : stage := mkStage l (s_rm s).
Definition with_rm (r : rstage) (s : stage) : stage := mkStage (s_lock s) r.

(** When a call may do an action. *)
Definition pre {B} (a : act B) (s : stage) : Prop :=
  match a with
  | ResetManager | ContainerdCreate => s_lock s = LHeld
  | StartUnlock => s_lock s = LHeld ∨ s_lock s = LCreated
  | PauseEnd _ => s_lock s = LPaused
  | SetRemoval => s_rm s = R0
  | MarkDead => s_rm s = Checked
  | NameDelete => s_rm s = Marked
  | ContainersDelete => s_rm s = Nameless
  | LogEvent e => e = "destroy" → s_rm s = Gone
  | ResetRemoval => s_rm s ≠ R0 ∧ s_rm s ≠ Gone
  | _ => True
  end.

(** The stage after it. *)
Definition post {B} (a : act B) : B → stage → stage :=
  match a in act B return B → stage → stage with
  | StartLock => λ r s, match r with None => with_lock LHeld s | Some _ => s end
  | ContainerdCreate => λ _ s, with_lock LCreated s
  | StartUnlock => λ _ s, with_lock L0 s
  | PauseBegin _ => λ r s, match r with inr _ => with_lock LPaused s | inl _ => s end
  | PauseEnd _ => λ _ s, with_lock L0 s
  | SetRemoval => λ b s, if b : bool then s else with_rm Removing s
  | ContainersGet => λ b s, if (b : bool) && bool_decide (s_rm s = Removing) then with_rm Checked s else s
  | MarkDead => λ _ s, with_rm Marked s
  | NameDelete => λ _ s, with_rm Nameless s
  | ContainersDelete => λ _ s, with_rm Gone s
  | LogEvent e => λ _ s, if decide (e = "destroy") then with_rm Destroyed s else s
  | ResetRemoval => λ _ s, with_rm R0 s
  | _ => λ _ s, s
  end.

Fixpoint okp {A} (Q : A → stage → Prop) (s : stage) (p : prog A) : Prop :=
  match p with
  | Ret a => Q a s
  | Do x k => pre x s ∧ ∀ b, okp Q (post x b s) (k b)
  end.

Lemma okp_bind {A C} (Q : A → stage → Prop) (R : C → stage → Prop) (k : A → prog C) s p :
  okp Q s p → (∀ a s', Q a s' → okp R s' (k a)) → okp R s (p ≫= k).
Proof.
  intros Hp Hk. revert s Hp. unfold mbind, prog_mbind.
  induction p as [a|B x h IH]; intros s Hp; simpl in *; [by apply Hk|].
  destruct Hp as [Hx Hp]. split; [done|]. intros b. apply IH, Hp.
Qed.

Lemma okp_call {B} (x : act B) s : pre x s → okp (λ b s', s' = post x b s) s (call x).
Proof. done. Qed.

(** A program that does not change the stage. *)
Definition neutral {A} (p : prog A) : Prop := ∀ s, okp (λ _ s', s' = s) s p.

Lemma neutral_bind {A C} (p : prog A) (k : A → prog C) :
  neutral p → (∀ a, neutral (k a)) → neutral (p ≫= k).
Proof. intros Hp Hk s. eapply okp_bind; [apply Hp|]. intros a s' ->. apply Hk. Qed.

Lemma neutral_ret {A} (a : A) : neutral (mret a).
Proof. done. Qed.

Definition quiet_act {B} (a : act B) : Prop := ∀ s, pre a s ∧ ∀ b, post a b s = s.

Lemma neutral_call {B} (x : act B) : quiet_act x → neutral (call x).
Proof. intros Hx s. simpl. destruct (Hx s) as [? E]. split; [done|]. intros b. by rewrite E. Qed.

Lemma neutral_log e : e ≠ "destroy" → neutral (call (LogEvent e)).
Proof. intros He. apply neutral_call. intros s. simpl. split; [done|]. intros b. by rewrite decide_False. Qed.

Create HintDb progs.
#[export] Hint Resolve neutral_ret neutral_bind : progs.
#[export] Hint Extern 3 (neutral (call _)) => (apply neutral_call; intros ?; by split) : progs.
#[export] Hint Extern 2 (neutral (call (LogEvent _))) => (apply neutral_log; done) : progs.

(** Walk through a program of neutral calls. *)
Ltac neutral_prog :=
  repeat first
    [ apply neutral_ret
    | solve [eauto 1 with progs nocore]
    | apply neutral_bind; [|intros ?]
    | match goal with
      | |- neutral (match ?x with _ => _ end) => destruct x
      | |- neutral (if ?x then _ else _) => destruct x
      end ].

Lemma neutral_WaitStop t : neutral (WaitStop t).
Proof. unfold WaitStop. neutral_prog. Qed.
#[export] Hint Resolve neutral_WaitStop : progs.

Lemma neutral_killPossiblyDeadProcess sig : neutral (killPossiblyDeadProcess sig).
Proof. unfold killPossiblyDeadProcess. neutral_prog. Qed.
#[export] Hint Resolve neutral_killPossiblyDeadProcess : progs.

Lemma neutral_killProcessDirectly : neutral killProcessDirectly.
Proof. unfold killProcessDirectly. neutral_prog. Qed.
#[export] Hint Resolve neutral_killProcessDirectly : progs.

Lemma neutral_Kill : neutral Kill.
Proof. unfold Kill. neutral_prog. Qed.
#[export] Hint Resolve neutral_Kill : progs.

Lemma neutral_containerStop secs : neutral (containerStop secs).
Proof. unfold containerStop. neutral_prog. Qed.
#[export] Hint Resolve neutral_containerStop : progs.

(** ** The handlers *)

Lemma okp_neutral_bind {A C} (p : prog A) (k : A → prog C) Q s :
  neutral p → (∀ a, okp Q s (k a)) → okp Q s (p ≫= k).
Proof. intros Hp Hk. eapply okp_bind; [apply Hp|]. by intros a s' ->. Qed.

Lemma okp_call_bind {B C} (x : act B) (k : B → prog C) Q s :
  pre x s → (∀ b, okp Q (post x b s) (k b)) → okp Q s (call x ≫= k).
Proof. done. Qed.

Lemma okp_weaken {A} (Q R : A → stage → Prop) s p :
  okp Q s p → (∀ a s', Q a s' → R a s') → okp R s p.
Proof. intros Hp H. revert s Hp. induction p as [a|B x h IH]; intros s Hp; simpl in *; [by apply H|]. naive_solver. Qed.

Lemma okp_start_body s :
  s_lock s = LHeld →
  okp (λ _ s', (s_lock s' = LHeld ∨ s_lock s' = LCreated) ∧ s_rm s' = s_rm s) s start_body.
Proof.
  intros Hs. unfold start_body.
  apply okp_call_bind; [done|]. intros [e|]; [by split; [left|]|].
  apply okp_call_bind; [done|]. intros [e|]; [by split; [left|]|].
  apply okp_call_bind; [done|]. intros [e|]; [by split; [left|]|].
  apply okp_call_bind; [done|]. intros [].
  apply okp_call_bind; [done|]. intros [e|]; [by split; [left|]|].
  apply okp_call_bind; [done|]. intros [e|]; [|by split; [right|]].
  apply okp_call_bind; [done|]. intros []. by split; [right|].
Qed.

Lemma okp_containerStart s : s_lock s = L0 → okp (λ _ s', s' = s) s containerStart.
Proof.
  intros Hs. unfold containerStart. apply okp_call_bind; [done|]. intros [r|]; [done|]. cbn [post].
  eapply okp_bind; [by apply okp_start_body|]. intros err s' [Hl Hr].
  apply okp_neutral_bind; [destruct err; auto with progs|]. intros _.
  apply okp_call_bind; [done|]. intros []. destruct s as [sl sr]; simpl in *. unfold with_lock. by rewrite Hr, Hs.
Qed.

(** The removal, once it has the flag. *)
Definition removing (s : stage) : Prop := s_lock s = L0 ∧ s_rm s ≠ R0 ∧ s_rm s ≠ Gone.

Lemma okp_remove_files force s :
  s = mkStage L0 Marked → okp (λ _ s', removing s') s (remove_files force).
Proof.
  intros ->. unfold remove_files. eapply okp_neutral_bind; [neutral_prog|]. intros err.
  apply (okp_bind (λ _ s', removing s')); [|done].
  destruct (negb (fails err) || force); [|done].
  do 5 (apply okp_call_bind; [done|]; intros []). by split; [|intros []].
Qed.

Lemma okp_cleanupContainer force s :
  s = mkStage L0 Checked → okp (λ _ s', removing s') s (cleanupContainer force).
Proof.
  intros ->. unfold cleanupContainer. apply okp_neutral_bind; [auto with progs|]. intros running.
  apply okp_neutral_bind; [neutral_prog|]. intros [e|]; [done|].
  apply okp_neutral_bind; [auto with progs|]. intros [].
  apply okp_neutral_bind; [auto with progs|]. intros [e|]; [done|].
  apply okp_call_bind; [done|]. intros [].
  apply okp_neutral_bind; [auto with progs|]. intros []. by apply okp_remove_files.
Qed.

Lemma okp_ContainerRm name config : okp (λ _ s', s' = stage0) stage0 (ContainerRm name config).
Proof.
  unfold ContainerRm. apply okp_call_bind; [done|]. intros [|]; [done|]. cbn [post].
  apply (okp_bind (λ _ s', removing s')).
  - apply okp_call_bind; [done|]. intros [|]; [|done]. cbn [negb]. destruct (RemoveLink config); [by split|].
    eapply okp_bind; [by apply okp_cleanupContainer|]. intros err s' Hs'.
    apply okp_neutral_bind; [|done]. neutral_prog.
  - intros err [sl sr] [Hl Hr]. apply okp_call_bind; [by destruct Hr|]. intros []. simpl in *. by rewrite Hl.
Qed.

Lemma handler_ok valid r : okp (λ _ s', s' = stage0) stage0 (handler valid r).
Proof.
  destruct r as [|secs|sig|secs| | |name config]; cbn [handler].
  - unfold ContainerStart. apply okp_neutral_bind; [auto with progs|]. intros [|]; [done|].
    apply okp_neutral_bind; [auto with progs|]. intros [|]; [done|].
    apply okp_neutral_bind; [auto with progs|]. intros [e|]; [done|]. by apply okp_containerStart.
  - assert (H : neutral (ContainerStop secs)) by (unfold ContainerStop; neutral_prog). apply H.
  - assert (H : neutral (ContainerKill valid sig)) by (unfold ContainerKill; neutral_prog). apply H.
  - unfold ContainerRestart, containerRestart.
    apply (okp_bind (λ _ s', s' = stage0)); [|by intros err s' ->].
    apply okp_neutral_bind; [auto with progs|]. intros mounted.
    apply (okp_bind (λ _ s', s' = stage0)).
    + apply okp_neutral_bind; [auto with progs|]. intros [e|]; [done|].
      eapply okp_bind; [by apply okp_containerStart|]. intros [e|] s' ->; [done|].
      apply okp_neutral_bind; [auto with progs|]. done.
    + intros err s' ->. apply okp_neutral_bind; [neutral_prog|]. done.
  - by split; [|intros [|]].
  - by split; [|intros [|]].
  - apply okp_ContainerRm.
Qed.

(** ** The invariant of the system *)

Definition holds (s : stage) : nat := if decide (s_lock s = L0) then 0 else 1.
Definition removes (s : stage) : nat := if decide (s_rm s = R0) then 0 else 1.
Definition leaving (s : stage) : nat := if decide (s_rm s = Gone) then 1 else 0.

Definition nameless (d : Daemon) : Prop := ∀ name, names (nameIndex d) !! name ≠ Some (ID (cont d)).
Definition d_dead (d : Daemon) : bool := Dead (state (cont d)).
Definition d_removal (d : Daemon) : bool := RemovalInProgress (state (cont d)).

Definition stage_ok (d : Daemon) (s : stage) : Prop :=
  (s_lock s = LHeld → registered d = true ∧ d_running d = false ∧ d_dead d = false) ∧
  match s_rm s with
  | R0 | Removing => True
  | Checked => registered d = true
  | Marked => registered d = true ∧ d_dead d = true
  | Nameless => registered d = true ∧ d_dead d = true ∧ nameless d
  | Gone | Destroyed => registered d = false
  end.

Definition finished (s : stage) (p : prog (option lerr)) : Prop := okp (λ _ s', s' = stage0) s p.

Record TInv (d : Daemon) (ss : list stage) : Prop := {
  ti_lock : sum_list_with holds ss = match locked d with Some _ => 1 | None => 0 end;
  ti_removal : sum_list_with removes ss = if d_removal d then 1 else 0;
  ti_stages : Forall (stage_ok d) ss;
  ti_gone : registered d = false → d_dead d = true ∧ nameless d;
  ti_destroys : destroys (events (cont d)) + sum_list_with leaving ss = if registered d then 0 else 1
}.

Record SInv (s : Sys) : Prop := {
  si_world : WInv (world s);
  si_names : Registrar.Inv (nameIndex (backend (world s)));
  si_threads : ∃ ss, Forall2 finished ss (threads s) ∧ TInv (backend (world s)) ss
}.

Lemma sum_insert {A} (f : A → nat) (l : list A) i x y :
  l !! i = Some x → sum_list_with f (<[i := y]> l) + f x = sum_list_with f l + f y.
Proof.
  revert i. induction l as [|z l IH]; intros [|i] H; simplify_eq/=; [lia|]. specialize (IH i H). lia.
Qed.

Lemma sum_lookup {A} (f : A → nat) (l : list A) i x : l !! i = Some x → f x ≤ sum_list_with f l.
Proof.
  revert i. induction l as [|z l IH]; intros [|i] H; simplify_eq/=; [lia|]. specialize (IH i H). lia.
Qed.

Lemma sum_elem {A} (f : A → nat) (l : list A) x : x ∈ l → f x ≤ sum_list_with f l.
Proof. intros [i Hi]%list_elem_of_lookup. by eapply sum_lookup. Qed.

Lemma sum_two {A} (f : A → nat) (l : list A) i j x y :
  i ≠ j → l !! i = Some x → l !! j = Some y → f x + f y ≤ sum_list_with f l.
Proof.
  intros Hij Hi Hj. pose proof (sum_insert f l i x y Hi) as E1.
  assert (Hj' : (<[i := y]> l) !! j = Some y) by (by rewrite list_lookup_insert_ne).
  revert i j Hij Hi Hj E1 Hj'. induction l as [|z l IH]; intros [|i] [|j] Hij Hi Hj E1 Hj'; simplify_eq/=.
  - pose proof (sum_lookup f l j y Hj). lia.
  - pose proof (sum_lookup f l i x Hi). lia.
  - assert (f x + f y ≤ sum_list_with f l); [|lia]. eapply (IH i j); try done; [congruence|]. lia.
Qed.

(** What all threads rely on. *)
Record same_d (d d' : Daemon) : Prop := {
  sa_locked : locked d' = locked d;
  sa_registered : registered d' = registered d;
  sa_running : d_running d' = d_running d;
  sa_dead : d_dead d' = d_dead d;
  sa_removal : d_removal d' = d_removal d;
  sa_id : ID (cont d') = ID (cont d);
  sa_names : nameIndex d' = nameIndex d;
  sa_destroys : destroys (events (cont d')) = destroys (events (cont d))
}.

#[export] Instance same_d_refl : Reflexive same_d.
Proof. by split. Qed.

Lemma stage_ok_same d d' s : same_d d d' → stage_ok d s → stage_ok d' s.
Proof. intros [] [H1 H2]. unfold stage_ok, nameless in *. repeat case_match; split; intros; naive_solver congruence. Qed.

Lemma TInv_same d d' ss : same_d d d' → TInv d ss → TInv d' ss.
Proof.
  intros Hs []. pose proof Hs as []. split.
  - by rewrite sa_locked0.
  - by rewrite sa_removal0.
  - eapply Forall_impl; [done|]. intros s. by apply stage_ok_same.
  - rewrite sa_registered0, sa_dead0. unfold nameless. rewrite sa_names0, sa_id0. done.
  - by rewrite sa_destroys0, sa_registered0.
Qed.

(** A step of libcontainerd keeps what the threads rely on. *)
Lemma lib_ok_TInv w w' ss : WInv w → lib_ok w w' → TInv (backend w) ss → TInv (backend w') ss.
Proof.
  intros HI (HI' & Hk & Hle) HT. pose proof Hk as [[Hid Hdead Hrem Hdes] Hl Hr _ Hn _]. destruct HT. split.
  - by rewrite Hl.
  - unfold d_removal in *. by rewrite Hrem.
  - eapply Forall_impl; [done|]. intros s [H1 H2]. split.
    + intros Hs. destruct (H1 Hs) as (Hreg & Hrun & Hd). split_and!; [by rewrite Hr| |unfold d_dead in *; by rewrite Hdead].
      specialize (Hle Hreg). pose proof (wi_running w HI Hreg) as E. rewrite Hrun in E.
      rewrite <-Hr in Hreg. pose proof (wi_running w' HI' Hreg) as E'. destruct (d_running (backend w')); [lia|done].
    + unfold nameless, d_dead in *. rewrite Hr, Hn, Hid, Hdead. done.
  - unfold nameless, d_dead in *. by rewrite Hr, Hn, Hid, Hdead.
  - by rewrite Hdes, Hr.
Qed.

(** The world of an action that only touches what nobody relies on. *)
Lemma WInv_same w w' :
  WInv w → same_d (backend w) (backend w') → crashed (backend w') = crashed (backend w) →
  d_chan_ok (backend w') → queue (lib w') = queue (lib w) → goros (lib w') = goros (lib w) →
  client (lib w') = client (lib w) → alive w' = alive w → WInv w'.
Proof.
  intros [] [] Hc Hch Hq Hg Hcl Ha.
  assert (Ht : tokens w' = tokens w) by (unfold tokens; by rewrite Hq, Hg, Ha).
  assert (Hx : exits w' = exits w) by (unfold exits; by rewrite Hq).
  split; rewrite ?Hq, ?Hc, ?Ht, ?Hx, ?Ha, ?Hcl, ?sa_registered0, ?sa_running0; done.
Qed.

Definition nlocked (d : Daemon) : nat := match locked d with Some _ => 1 | None => 0 end.
Definition nremoval (d : Daemon) : nat := if d_removal d then 1 else 0.
Definition ngone (d : Daemon) : nat := if registered d then 0 else 1.

Lemma TInv_update d d' ss i s s' :
  TInv d ss → ss !! i = Some s → stage_ok d' s' →
  (∀ j t, j ≠ i → ss !! j = Some t → stage_ok d t → stage_ok d' t) →
  holds s' + nlocked d = holds s + nlocked d' →
  removes s' + nremoval d = removes s + nremoval d' →
  (registered d' = false → d_dead d' = true ∧ nameless d') →
  destroys (events (cont d')) + leaving s' + ngone d = destroys (events (cont d)) + leaving s + ngone d' →
  TInv d' (<[i := s']> ss).
Proof.
  intros [] Hi Hs' Hothers Hl Hr Hg Hd.
  pose proof (sum_insert holds ss i s s' Hi). pose proof (sum_insert removes ss i s s' Hi).
  pose proof (sum_insert leaving ss i s s' Hi). unfold nlocked, nremoval, ngone in *.
  split; [lia|lia| |done|lia].
  apply Forall_lookup. intros j t Hj. destruct (decide (j = i)) as [->|Hne].
  - rewrite list_lookup_insert_eq in Hj by (by eapply lookup_lt_Some). by simplify_eq.
  - rewrite list_lookup_insert_ne in Hj by done. apply (Hothers j t Hne Hj).
    rewrite Forall_lookup in ti_stages0. by eapply ti_stages0.
Qed.

(** A thread that keeps the mutex, or removes the container, is alone in this. *)
Lemma alone_locked d ss i s j t :
  TInv d ss → ss !! i = Some s → ss !! j = Some t → j ≠ i → s_lock s ≠ L0 → s_lock t = L0.
Proof.
  intros [] Hi Hj Hne Hs. destruct (decide (s_lock t = L0)) as [|Ht]; [done|].
  pose proof (sum_two holds ss j i t s Hne Hj Hi) as H. unfold holds in *.
  rewrite !decide_False in H by done. destruct (locked d); lia.
Qed.

Lemma alone_removing d ss i s j t :
  TInv d ss → ss !! i = Some s → ss !! j = Some t → j ≠ i → s_rm s ≠ R0 → s_rm t = R0.
Proof.
  intros [] Hi Hj Hne Hs. destruct (decide (s_rm t = R0)) as [|Ht]; [done|].
  pose proof (sum_two removes ss j i t s Hne Hj Hi) as H. unfold removes in *.
  rewrite !decide_False in H by done. destruct (d_removal d); lia.
Qed.

Lemma free_nobody d ss j t : TInv d ss → locked d = None → ss !! j = Some t → s_lock t = L0.
Proof.
  intros [] Hl Hj. destruct (decide (s_lock t = L0)) as [|Ht]; [done|].
  pose proof (sum_lookup holds ss j t Hj) as H.
  assert (E : holds t = 1) by (unfold holds; by rewrite decide_False). rewrite Hl in ti_lock0. lia.
Qed.

Lemma own_lock d ss i s : TInv d ss → ss !! i = Some s → s_lock s ≠ L0 → locked d ≠ None.
Proof. intros HT Hi Hs Hl. by apply Hs, (free_nobody d ss i). Qed.

Lemma own_removal d ss i s : TInv d ss → ss !! i = Some s → s_rm s ≠ R0 → d_removal d = true.
Proof.
  intros [] Hi Hs. pose proof (sum_lookup removes ss i s Hi) as H.
  assert (E : removes s = 1) by (unfold removes; by rewrite decide_False). destruct (d_removal d); [done|lia].
Qed.

Lemma stage_at d ss i s : TInv d ss → ss !! i = Some s → stage_ok d s.
Proof. intros [] Hi. rewrite Forall_lookup in ti_stages0. by eapply ti_stages0. Qed.

(** The daemons that [exec] makes. *)
Lemma same_cont d c : quiet (cont d) c → Running (state c) = d_running d → same_d d (upd_cont (λ _, c) d).
Proof. intros [] ?. by split. Qed.

Lemma same_effect d e : same_d d (add_effect e d).
Proof. by split. Qed.

Lemma region_Some {B} (w : DW) (r : B * DW) b w' :
  region w r = Some (b, w') → locked (backend w) = None ∧ r = (b, w').
Proof. unfold region, free. case_bool_decide; [|done]. by intros [= ->]. Qed.

(** Actions that leave the stage alone. *)
Definition plain_act {B} (a : act B) : bool :=
  match a with
  | IsRunning | IsPaused | GetPID | StopHealthchecks | GetStopSignal | KillWithSignal _ | WaitBegin | WaitEnd _ _
  | SyscallKill _ _ | External _ | Effect _ | ResetManager | CreateFailed _ | StartFailed _ | ToDiskLocking
  | HasRWLayer | IdDelete => true
  | LogEvent e => negb (bool_decide (e = "destroy"))
  | _ => false
  end.

Definition act_ok (w w' : DW) : Prop :=
  same_d (backend w) (backend w') ∧ crashed (backend w') = crashed (backend w) ∧ d_chan_ok (backend w') ∧
  queue (lib w') = queue (lib w) ∧ goros (lib w') = goros (lib w) ∧ client (lib w') = client (lib w) ∧ env w' = env w.

Lemma act_ok_refl w : WInv w → act_ok w w.
Proof. intros []. by split_and!. Qed.

Lemma act_ok_cont w f :
  WInv w → quiet (cont (backend w)) (f (cont (backend w))) → steady (cont (backend w)) (f (cont (backend w))) →
  act_ok w (upd_daemon (upd_cont f) w).
Proof.
  intros [] Hq [Hr Hw]. pose proof Hq as []. split; [by split|]. split; [done|]. split; [|done].
  by apply (chan_ok_same (state (cont (backend w)))).
Qed.

Lemma killWithSignal_ok sig o w b w' : WInv w → killWithSignal sig o w = (b, w') → act_ok w w'.
Proof.
  intros HI. unfold killWithSignal. destruct (Paused (st w)); [intros [= <- <-]; by apply act_ok_refl|].
  destruct (negb (Running (st w))); [intros [= <- <-]; by apply act_ok_refl|].
  set (w1 := ExitOnNext w). set (w2 := if shuttingDown (backend w1) then w1 else upd_daemon (upd_cont set_manually_stopped) w1).
  assert (Hb1 : backend w1 = backend w) by (unfold w1, ExitOnNext; by destruct (manager (backend w))).
  assert (Hl1 : queue (lib w1) = queue (lib w) ∧ goros (lib w1) = goros (lib w) ∧ client (lib w1) = client (lib w) ∧ env w1 = env w).
  { unfold w1, ExitOnNext. by destruct (manager (backend w)). }
  destruct HI. assert (H2 : act_ok w w2).
  { unfold w2. destruct (shuttingDown (backend w1)); split_and!; try (apply Hl1); simpl; rewrite ?Hb1; try done; try (by split). }
  destruct H2 as (Hs & Hc & Hch & Hrest).
  assert (Hlog : act_ok w (upd_daemon (upd_cont (LogContainerEvent "kill")) w2)).
  { split_and!; try (apply Hrest); try done. destruct Hs. split; try done. simpl. by rewrite destroys_snoc. }
  destruct (Restarting (st w2)); [by intros [= <- <-]|].
  destruct (o_err o); [|by intros [= <- <-]]. destruct (_ || _); by intros [= <- <-].
Qed.

Lemma create_exit_code_quiet path desc c : 
  let c' := with_state (create_exit_code path desc (state c)) c in quiet c c' ∧ steady c c'.
Proof. unfold create_exit_code. by repeat case_match. Qed.

Lemma start_failed_quiet err c : quiet c (start_failed err c) ∧ steady c (start_failed err c).
Proof. unfold start_failed. by repeat case_match. Qed.

Lemma exec_plain_act {B} (a : act B) o w b w' :
  plain_act a = true → WInv w → exec a o w = Some (b, w') → act_ok w w' ∧ ∀ s, post a b s = s.
Proof.
  intros Ha HI. pose proof (act_ok_refl w HI) as Hrefl.
  destruct a; cbn [plain_act exec] in *; try done; try (by intros (_ & [= <- <-])%region_Some);
    try (by intros [= <- <-]).
  - intros [= <- <-]. split; [|done]. apply act_ok_cont; [done|apply quiet_stopHealthchecks|apply steady_stopHealthchecks].
  - intros (_ & E)%region_Some. split; [|done]. by eapply killWithSignal_ok.
  - cbv zeta. match goal with |- context [match ?x with _ => _ end] => destruct x as [[ec|e|m]|] end; [..|done].
    + by intros (_ & [= <- <-])%region_Some.
    + by intros [= <- <-].
    + by intros (_ & [= <- <-])%region_Some.
  - apply negb_true_iff, bool_decide_eq_false in Ha. intros [= <- <-].
    split; [|intros s; cbn [post]; by rewrite decide_False]. apply act_ok_cont; [done|by apply quiet_log|by split].
  - destruct what; intros [= <- <-]; (split; [|done]); [|done]. destruct HI. by split_and!.
  - intros [= <- <-]. split; [|done]. destruct HI. by split_and!.
  - intros [= <- <-]. split; [|done]. destruct HI. by split_and!.
  - intros [= <- <-]. split; [|done].
    destruct (create_exit_code_quiet (cpath (backend w)) desc (cont (backend w))) as [Hq Hs].
    by apply (act_ok_cont w (λ c, with_state (create_exit_code (cpath (backend w)) desc (state c)) c)).
  - intros [= <- <-]. split; [|done]. destruct (start_failed_quiet err (cont (backend w))). by apply act_ok_cont.
  - intros [= <- <-]. split; [|done]. destruct HI. by split_and!.
Qed.

(** ** Steps of a thread *)

Section thread.
Context (w : DW) (ss : list stage) (i : nat) (s : stage).
Context (HI : WInv w) (HN : Registrar.Inv (nameIndex (backend w))) (HT : TInv (backend w) ss) (Hi : ss !! i = Some s).

Definition step_ok (w' : DW) (s' : stage) : Prop :=
  WInv w' ∧ Registrar.Inv (nameIndex (backend w')) ∧ TInv (backend w') (<[i := s']> ss).

Lemma step_act w' : act_ok w w' → step_ok w' s.
Proof using HI HN HT Hi.
  intros (Hs & Hc & Hch & Hq & Hg & Hcl & He). split; [|split].
  - apply (WInv_same w); try done. unfold alive. by rewrite He.
  - destruct Hs as [_ _ _ _ _ _ Hn _]. by rewrite Hn.
  - rewrite list_insert_id by done. by eapply TInv_same.
Qed.

(** The world of an action that only changes the daemon. *)
Lemma WInv_daemon (f : Daemon → Daemon) :
  (let d := backend w in let d' := f d in
   crashed d' = crashed d ∧ d_chan_ok d' ∧ d_running d' = d_running d ∧
   (registered d' = true → registered d = true)) →
  WInv (upd_daemon f w).
Proof using HI.
  intros (Hc & Hch & Hr & Hreg). destruct HI. split; cbn [upd_daemon backend lib]; try done.
  - by rewrite Hc.
  - rewrite Hr. auto.
  - auto.
Qed.

(** The lock changes hands: the flags are as before. *)
Lemma step_lock l s' :
  s_rm s' = s_rm s → (s_lock s = L0 → locked (backend w) = None) →
  (s_lock s' = L0 ↔ l = None) → (s_lock s' = LHeld → d_running (backend w) = false ∧ registered (backend w) = true ∧ d_dead (backend w) = false) →
  step_ok (upd_daemon (set_locked l) w) s'.
Proof using HI HN HT Hi.
  intros Hrm Hfree Hl Hheld. pose proof (stage_at _ _ _ _ HT Hi) as Hs. split; [|split; [done|]].
  - apply WInv_daemon. split_and!; try done. apply (wi_chan w HI).
  - apply (TInv_update (backend w) _ ss i s); try done.
    + split; [naive_solver|]. destruct Hs as [_ Hs]. rewrite Hrm. done.
    + unfold holds, nlocked. cbn [backend upd_daemon set_locked locked].
      pose proof (own_lock _ _ _ _ HT Hi). destruct l as [h|], (locked (backend w)); repeat case_decide; naive_solver lia.
    + unfold removes. by rewrite Hrm.
    + apply (ti_gone _ _ HT).
    + unfold leaving. by rewrite Hrm.
Qed.

Lemma step_StartLock o b w' : exec StartLock o w = Some (b, w') → step_ok w' (post StartLock b s).
Proof using HI HN HT Hi.
  cbn [exec]. intros (Hl & E)%region_Some. pose proof (free_nobody _ _ _ _ HT Hl Hi) as Hs.
  destruct (start_check (st w)) as [r|] eqn:Ec; injection E as <- <-.
  - apply step_act. by apply act_ok_refl.
  - unfold start_check in Ec. destruct (Running (st w)) eqn:Er; [done|].
    destruct (RemovalInProgress (st w) || Dead (st w)) eqn:Ed; [done|]. apply orb_false_iff in Ed as [_ Ed].
    cbn [post]. apply step_lock; try done. intros _. split_and!; try done.
    destruct (registered (backend w)) eqn:E; [done|]. destruct (ti_gone _ _ HT E) as [H _].
    unfold d_dead, st in *. congruence.
Qed.

Lemma step_release w' : upd_daemon (set_locked None) w = w' → s_lock s ≠ L0 → step_ok w' (with_lock L0 s).
Proof using HI HN HT Hi. intros <- Hs. by apply step_lock. Qed.

Lemma step_Create rm o b w' :
  clean o → s_lock s = LHeld → Create rm o w = Some (b, w') → step_ok w' (with_lock LCreated s).
Proof using HI HN HT Hi.
  intros Hclean Hs E. destruct (stage_at _ _ _ _ HT Hi) as [H1 H2]. destruct (H1 Hs) as (Hreg & Hrun & Hdead).
  destruct (Create_ok _ _ _ _ _ HI Hclean Hreg Hrun E) as [HI' Hk].
  pose proof Hk as [[Hid Hd Hrem Hdes] Hl Hr _ Hn _]. split; [done|]. split; [by rewrite Hn|].
  apply (TInv_update (backend w) _ ss i s); try done.
  - split; [done|]. cbn [with_lock s_rm]. unfold nameless, d_dead in *. by rewrite Hr, Hd, Hn, Hid.
  - intros j t Hne Hj [Ht1 Ht2]. assert (Ht : s_lock t = L0) by (eapply (alone_locked _ _ i s j t HT Hi Hj Hne); congruence).
    split; [congruence|]. unfold nameless, d_dead in *. by rewrite Hr, Hd, Hn, Hid.
  - unfold holds, nlocked. cbn [with_lock s_lock]. rewrite Hl, Hs. done.
  - unfold removes, nremoval, d_removal. by rewrite Hrem.
  - rewrite Hr. congruence.
  - unfold leaving, ngone. by rewrite Hdes, Hr.
Qed.

Lemma step_PauseBegin p o b w' : exec (PauseBegin p) o w = Some (b, w') → step_ok w' (post (PauseBegin p) b s).
Proof using HI HN HT Hi.
  cbn [exec]. unfold free. case_bool_decide as Hl; [|done].
  destruct (pause_guard p (st w)); [intros [= <- <-]; apply step_act; by apply act_ok_refl|].
  destruct (setState p o w) as [[[e|n] w1]|] eqn:E; [..|done].
  - intros [= <- <-]. apply step_act. unfold setState in E. repeat case_match; simplify_eq; by apply act_ok_refl.
  - intros [= <- <-]. cbn [post].
    assert (Hw1 : backend w1 = backend w ∧ queue (lib w1) = queue (lib w) ∧ goros (lib w1) = goros (lib w) ∧
      client (lib w1) = client (lib w) ∧ alive w1 = alive w).
    { unfold setState in E. repeat case_match; simplify_eq/=; split_and!; try done;
        unfold alive; simpl; rewrite sum_app; simpl; lia. }
    destruct Hw1 as (Hb & Hq & Hg & Hc & Ha).
    assert (HI1 : WInv w1).
    { apply (WInv_same w); try done; rewrite ?Hb; try done. apply (wi_chan w HI). }
    split; [|split].
    + destruct HI1. split; try done.
    + cbn. by rewrite Hb.
    + assert (HL : step_ok (upd_daemon (set_locked (Some HPause)) w) (with_lock LPaused s)).
      { apply step_lock; try done. }
      destruct HL as (_ & _ & HL). unfold upd_daemon in *. cbn [backend] in *. by rewrite Hb.
Qed.

(** A change of the flags of the removal, with the mutex free. *)
Lemma step_flag (f : State → State) s' :
  locked (backend w) = None → s_lock s' = s_lock s →
  (let c := state (cont (backend w)) in
   Running (f c) = Running c ∧ waitChan (f c) = waitChan c ∧ (Dead c = true → Dead (f c) = true)) →
  stage_ok (upd_state f (backend w)) s' →
  removes s' + nremoval (backend w) = removes s + nremoval (upd_state f (backend w)) → leaving s' = leaving s →
  step_ok (upd_daemon (upd_state f) w) s'.
Proof using HI HN HT Hi.
  intros Hl Hs (Hr & Hw & Hd) Hok Hrem Hlv. split; [|split; [done|]].
  - apply WInv_daemon. split_and!; try done.
    apply (chan_ok_same (state (cont (backend w)))); [done|apply (wi_chan w HI)].
  - apply (TInv_update (backend w) _ ss i s); try done.
    + intros j t Hne Hj [Ht1 Ht2]. pose proof (free_nobody _ _ _ _ HT Hl Hj) as Ht. split; [congruence|].
      unfold nameless, d_dead in *. cbn. destruct (s_rm t); naive_solver.
    + unfold holds. by rewrite Hs.
    + intros E. destruct (ti_gone _ _ HT E) as [H1 H2]. split; [by apply Hd|done].
    + cbn. rewrite Hlv. done.
Qed.

Lemma step_SetRemoval o b w' :
  s_rm s = R0 → exec SetRemoval o w = Some (b, w') → step_ok w' (post SetRemoval b s).
Proof using HI HN HT Hi.
  intros Hs. cbn [exec]. intros (Hl & E)%region_Some. unfold SetRemovalInProgress in E.
  destruct (RemovalInProgress (st w)) eqn:Er; injection E as <- <-; cbn [post].
  - apply step_act. apply (act_ok_cont w (λ c, with_state (st w) c)); [done|by split..].
  - apply step_flag; try done.
    + split; [|done]. intros Hh. pose proof (free_nobody _ _ _ _ HT Hl Hi). simpl in *. congruence.
    + unfold removes, nremoval, d_removal. cbn. unfold st in Er. rewrite Er, Hs. done.
    + unfold leaving. cbn. by rewrite Hs.
Qed.

Lemma step_ResetRemoval o b w' :
  s_rm s ≠ R0 ∧ s_rm s ≠ Gone → exec ResetRemoval o w = Some (b, w') → step_ok w' (post ResetRemoval b s).
Proof using HI HN HT Hi.
  intros [Hs Hg]. cbn [exec]. intros (Hl & E)%region_Some. injection E as <- <-. cbn [post].
  pose proof (own_removal _ _ _ _ HT Hi Hs) as Hr. apply step_flag; try done.
  - split; [|done]. intros Hh. pose proof (free_nobody _ _ _ _ HT Hl Hi). simpl in *. congruence.
  - unfold removes, nremoval, d_removal in *. cbn. rewrite Hr. by repeat case_decide.
  - unfold leaving. cbn. by repeat case_decide.
Qed.

Lemma step_MarkDead o b w' :
  s_rm s = Checked → exec MarkDead o w = Some (b, w') → step_ok w' (post MarkDead b s).
Proof using HI HN HT Hi.
  intros Hs. cbn [exec]. intros (Hl & E)%region_Some. injection E as <- <-. cbn [post].
  destruct (stage_at _ _ _ _ HT Hi) as [_ H2]. rewrite Hs in H2. apply step_flag; try done.
  - split; [|done]. intros Hh. pose proof (free_nobody _ _ _ _ HT Hl Hi). simpl in *. congruence.
  - unfold removes. cbn. by rewrite Hs.
  - unfold leaving. cbn. by rewrite Hs.
Qed.

Lemma step_ContainersGet o b w' : exec ContainersGet o w = Some (b, w') → step_ok w' (post ContainersGet b s).
Proof using HI HN HT Hi.
  cbn [exec]. intros [= <- <-]. cbn [post]. destruct (registered (backend w)) eqn:Er; cbn [andb].
  2:{ apply step_act. by apply act_ok_refl. }
  case_bool_decide as Hs; [|apply step_act; by apply act_ok_refl].
  destruct (stage_at _ _ _ _ HT Hi) as [H1 _]. split; [done|]. split; [done|].
  apply (TInv_update (backend w) _ ss i s); try done.
  - unfold removes. cbn. by rewrite Hs.
  - apply (ti_gone _ _ HT).
  - unfold leaving. cbn. by rewrite Hs.
Qed.

(** A change of the indexes by the remover. *)
Lemma step_index r n s' :
  s_rm s ≠ R0 → s_rm s' ≠ R0 → s_lock s' = s_lock s →
  (r = true → registered (backend w) = true) → Registrar.Inv n →
  (∀ name k, names n !! name = Some k → names (nameIndex (backend w)) !! name = Some k) →
  let d' := set_indexes r (indexed (backend w)) n (backend w) in
  stage_ok d' s' → (r = false → d_dead (backend w) = true ∧ nameless d') →
  leaving s' + ngone (backend w) = leaving s + ngone d' →
  step_ok (upd_daemon (λ _, d') w) s'.
Proof using HI HN HT Hi.
  intros Hs Hs' Hl Hr Hn Hsub d' Hok Hgone Hlv. split; [|split; [done|]].
  - apply (WInv_daemon (λ _, d')). split_and!; try done. apply (wi_chan w HI).
  - apply (TInv_update (backend w) _ ss i s); try done.
    + intros j t Hne Hj [Ht1 Ht2]. pose proof (alone_removing _ _ i s j t HT Hi Hj Hne Hs) as Ht0. split; [|by rewrite Ht0].
      intros Ht. destruct (Ht1 Ht) as (H1 & H2 & H3). split_and!; [|done|done]. destruct r eqn:E; [done|].
      destruct (Hgone eq_refl). congruence.
    + unfold holds. by rewrite Hl.
    + unfold removes. by rewrite !decide_False by done.
    + cbn. lia.
Qed.

Lemma step_NameDelete o b w' :
  s_rm s = Marked → exec NameDelete o w = Some (b, w') → step_ok w' (post NameDelete b s).
Proof using HI HN HT Hi.
  intros Hs. cbn [exec]. intros [= <- <-]. cbn [post].
  destruct (stage_at _ _ _ _ HT Hi) as [H1 H2]. rewrite Hs in H2. destruct H2 as [Hreg Hdead].
  assert (Hnames : ∀ name k, names (Registrar.Delete (ID (cont (backend w))) (nameIndex (backend w))) !! name = Some k →
    names (nameIndex (backend w)) !! name = Some k ∧ k ≠ ID (cont (backend w))).
  { intros name k. cbn. rewrite foldl_delete_lookup. case_decide as Hin; [done|]. intros E. split; [done|]. intros ->.
    by apply Hin, (inv_names _ HN). }
  unfold upd_daemon. apply (step_index (registered (backend w)) _ (with_rm Nameless s)); cbn; try done; try (by rewrite Hs).
  - by apply Inv_Delete.
  - by intros name k []%Hnames.
  - split; [done|]. cbn. split_and!; [done..|]. intros name E%Hnames. by destruct E.
  - rewrite Hreg. done.
  - unfold leaving, ngone. cbn. by rewrite Hs.
Qed.

Lemma step_ContainersDelete o b w' :
  s_rm s = Nameless → exec ContainersDelete o w = Some (b, w') → step_ok w' (post ContainersDelete b s).
Proof using HI HN HT Hi.
  intros Hs. cbn [exec]. intros [= <- <-]. cbn [post].
  destruct (stage_at _ _ _ _ HT Hi) as [H1 H2]. rewrite Hs in H2. destruct H2 as (Hreg & Hdead & Hnl).
  unfold upd_daemon. apply (step_index false (nameIndex (backend w)) (with_rm Gone s)); cbn; try done; try (by rewrite Hs).
  - split; [|done]. cbn. intros Hh. destruct (H1 Hh) as (_ & _ & ?). congruence.
  - unfold leaving, ngone. cbn. rewrite Hs, Hreg. done.
Qed.

Lemma step_destroy o b w' :
  s_rm s = Gone → exec (LogEvent "destroy") o w = Some (b, w') → step_ok w' (post (LogEvent "destroy") b s).
Proof using HI HN HT Hi.
  intros Hs. cbn [exec]. intros [= <- <-]. cbn [post]. rewrite decide_True by done.
  destruct (stage_at _ _ _ _ HT Hi) as [H1 H2]. rewrite Hs in H2. split; [|split; [done|]].
  - apply WInv_daemon. split_and!; try done. apply (wi_chan w HI).
  - apply (TInv_update (backend w) _ ss i s); try done.
    + unfold removes. cbn. by rewrite Hs.
    + apply (ti_gone _ _ HT).
    + unfold leaving, ngone. cbn. rewrite Hs. unfold destroys. rewrite filter_app, filter_cons_True by done.
      rewrite length_app. cbn. repeat case_decide; try done; lia.
Qed.

Lemma step_RmLink name o b w' : exec (RmLink name) o w = Some (b, w') → step_ok w' s.
Proof using HI HN HT Hi.
  cbn [exec]. destruct (rmLink _ _ _) as [r d] eqn:E. intros [= <- <-].
  assert (Hsame : d = backend w ∨ ∃ n e, d = mkDaemon (cont (backend w)) (dchans (backend w)) (locked (backend w))
    (registered (backend w)) (indexed (backend w)) (Registrar.Release n (nameIndex (backend w))) (manager (backend w))
    (restartPolicy (backend w)) (cpath (backend w)) (stopSignal (backend w)) (hasRWLayer (backend w))
    (shuttingDown (backend w)) e (crashed (backend w))).
  { unfold rmLink in E. destruct (PathSplit _). case_decide; [simplify_eq; by left|].
    destruct (Registrar.Get _ _); [|simplify_eq; by left..]. right. destruct (negb _); simplify_eq; eauto. }
  destruct Hsame as [->|(n & e & ->)].
  - assert (Ew : mkW (backend w) (lib w) (env w) = w) by (by destruct w). rewrite Ew. apply step_act. by apply act_ok_refl.
  - assert (Hsub : ∀ m k, names (Registrar.Release n (nameIndex (backend w))) !! m = Some k →
      names (nameIndex (backend w)) !! m = Some k).
    { intros m k. unfold Registrar.Release. destruct (names (nameIndex (backend w)) !! n); [|done]. cbn.
      rewrite lookup_delete. by case_decide. }
    split; [|split].
    + apply (WInv_daemon (λ _, mkDaemon (cont (backend w)) (dchans (backend w)) (locked (backend w))
        (registered (backend w)) (indexed (backend w)) (Registrar.Release n (nameIndex (backend w))) (manager (backend w))
        (restartPolicy (backend w)) (cpath (backend w)) (stopSignal (backend w)) (hasRWLayer (backend w))
        (shuttingDown (backend w)) e (crashed (backend w)))).
      split_and!; try done. apply (wi_chan w HI).
    + cbn. by apply Inv_Release.
    + rewrite list_insert_id by done. destruct HT. split; try done.
      * eapply Forall_impl; [done|]. intros t [Ht1 Ht2]. split; [done|]. cbn.
        unfold nameless in *. destruct (s_rm t); cbn; naive_solver.
      * intros Hr. destruct (ti_gone0 Hr) as [? Hn]. split; [done|]. intros m Hm%Hsub. by eapply Hn.
Qed.
End thread.

Lemma exec_ok {B} (a : act B) o w ss i s b w' :
  WInv w → Registrar.Inv (nameIndex (backend w)) → TInv (backend w) ss → ss !! i = Some s →
  clean o → pre a s → exec a o w = Some (b, w') → step_ok ss i w' (post a b s).
Proof.
  intros HI HN HT Hi Hclean Hpre E. destruct (plain_act a) eqn:Ha.
  { destruct (exec_plain_act a o w b w' Ha HI E) as [Hact ->]. by apply (step_act w). }
  destruct a; cbn [plain_act] in Ha; try done; cbn [pre] in Hpre.
  - apply negb_false_iff, bool_decide_eq_true in Ha as ->. eapply step_destroy; eauto.
  - eapply step_StartLock; eauto.
  - cbn [exec] in E. destruct (manager (backend w)); [|done]. eapply step_Create; eauto.
  - cbn [exec] in E. simplify_eq. eapply step_release; eauto. naive_solver congruence.
  - eapply step_PauseBegin; eauto.
  - cbn [exec] in E. case_decide; [|done]. simplify_eq. eapply step_release; eauto. congruence.
  - eapply step_SetRemoval; eauto.
  - eapply step_ResetRemoval; eauto.
  - eapply step_ContainersGet; eauto.
  - eapply step_MarkDead; eauto.
  - eapply step_NameDelete; eauto.
  - eapply step_ContainersDelete; eauto.
  - eapply step_RmLink; eauto.
Qed.

Definition clean_slabel (l : slabel) : Prop :=
  match l with SCall _ => True | SThread _ o => clean o | SLib l => clean_llabel l end.

Lemma sys_step_SInv valid l s s' : SInv s → clean_slabel l → sys_step valid l s = Some s' → SInv s'.
Proof.
  intros [HI HN (ss & Hss & HT)] Hl. destruct l as [r|i o|l]; cbn [sys_step].
  - intros [= <-]. split; [done|done|]. exists (ss ++ [stage0]). split.
    + apply Forall2_app; [done|]. constructor; [|constructor]. apply handler_ok.
    + destruct HT. split; rewrite ?sum_app; try (simpl; lia); try done.
      apply Forall_app. split; [done|]. constructor; [done|constructor].
  - destruct (threads s !! i) as [[a|B x k]|] eqn:Et; [done| |done].
    destruct (exec x o (world s)) as [[b w']|] eqn:E; [|done]. intros [= <-].
    destruct (Forall2_lookup_r _ _ _ _ _ Hss Et) as (st & Hst & [Hpre Hk]).
    destruct (exec_ok x o (world s) ss i st b w' HI HN HT Hst Hl Hpre E) as (HI' & HN' & HT').
    split; [done|done|]. exists (<[i := post x b st]> ss). split; [|done].
    apply Forall2_insert; [done|apply Hk].
  - intros (w' & E & ->)%fmap_Some. pose proof (lib_step_ok _ _ _ HI Hl E) as Hok. split; cbn [world threads].
    + by destruct Hok.
    + destruct Hok as (_ & [_ _ _ _ Hn _] & _). by rewrite Hn.
    + exists ss. split; [done|]. by eapply lib_ok_TInv.
Qed.

Lemma run_SInv valid ls : ∀ s s', SInv s → Forall clean_slabel ls → run valid ls s = Some s' → SInv s'.
Proof.
  induction ls as [|l ls IH]; intros s s' HI Hls; cbn [run]; [by intros [= <-]|].
  apply Forall_cons in Hls as [Hl Hls]. destruct (sys_step valid l s) as [s1|] eqn:E; [|done].
  apply IH; [by eapply sys_step_SInv|done].
Qed.

Lemma created_SInv id hc p n path sig rw down : Registrar.Inv n → SInv (created id hc p n path sig rw down).
Proof.
  intros Hn. unfold created. cbn. split; [|done|].
  - split; try done; try (by constructor); try (cbn; lia); try (intros; cbn in *; lia).
    split; cbn; [lia|set_solver|set_solver].
  - exists []. split; [constructor|]. split; try done.
Qed.

(** ** The properties *)


(** C13: Of any number of concurrent removals, forced or not, one at a time goes
    past the flag, and the container is taken out of the daemon at most once:
    the event "destroy" is logged once, after the container is dead and no name
    is reserved to it; a container that is being started is not dead, and stays
    in the daemon until it is. *)
Theorem removed_once valid id hc p n path sig rw down ls s :
  Registrar.Inv n → Forall clean_slabel ls → run valid ls (created id hc p n path sig rw down) = Some s →
  let d := backend (world s) in
  destroys (events (cont d)) ≤ 1 ∧
  (destroys (events (cont d)) = 1 → registered d = false) ∧
  (registered d = false → d_dead d = true ∧ nameless d) ∧
  ∃ ss, Forall2 finished ss (threads s) ∧ sum_list_with removes ss = (if d_removal d then 1 else 0) ∧
    Forall (λ t, s_lock t = LHeld → registered d = true ∧ d_dead d = false) ss.
Proof.
  intros Hn Hls Hrun. destruct (run_SInv _ _ _ _ (created_SInv id hc p n path sig rw down Hn) Hls Hrun) as [_ _ (ss & Hss & [])].
  split_and!.
  - destruct (registered _); lia.
  - destruct (registered _); [lia|done].
  - done.
  - exists ss. split_and!; [done..|]. eapply Forall_impl; [done|]. intros t [Ht _] Hh. naive_solver.
Qed.

(** C25: Every call obeys the discipline of the mutex and of the removal flag, on
    every path through its code and whatever its actions answer: containerd is
    only asked to create the container with the mutex kept from the check on,
    the mutex is given back once, a container is marked dead, taken out of the
    indexes and reported destroyed only by the call that holds the removal flag
    and in this order, and the call ends with neither of the two. *)
Theorem handler_discipline valid r : finished stage0 (handler valid r).
Proof. apply handler_ok. Qed.
