(* ===== verification/LifecycleStop.v ===== *)
(** * A stopped container stays stopped

    The restart manager that the daemon cancels is the one that libcontainerd
    asks: after a stop or kill was accepted, no restart is granted until the
    container is started again. *)

From S2P Require Import Prelude GoStrings Filepath Registrar RestartManager ContainerState Libcontainerd Lifecycle LifecycleInv LifecycleSafety.
Local Open Scope nat_scope.

(** The container object [k] has the restart manager of the daemon's container. *)
Definition owns (w : DW) (k : nat) : Prop :=
  ∃ c, ctrs (lib w) !! k = Some c ∧ manager (backend w) = Some (c_rm c).

Record MInv (w : DW) : Prop := {
  m_client : 0 < alive w → ∃ k, client (lib w) = Some k ∧ owns w k;
  m_queue : ∀ k p e i, QEvent k p e (Some i) ∈ queue (lib w) → owns w k;
  m_goros : ∀ g, g ∈ goros (lib w) → owns w (g_ctr g)
}.

(** Container objects keep their manager. *)
Definition ctrs_le (L L' : Lib) : Prop :=
  ∀ k c, ctrs L !! k = Some c → ∃ c', ctrs L' !! k = Some c' ∧ c_rm c' = c_rm c.

#[export] Instance ctrs_le_refl : Reflexive ctrs_le.
Proof. intros L k c H. eauto. Qed.
#[export] Instance ctrs_le_trans : Transitive ctrs_le.
Proof. intros L1 L2 L3 H1 H2 k c Hc. destruct (H1 k c Hc) as (c1 & Hc1 & <-). by apply H2. Qed.

Lemma ctrs_le_on k f L : (∀ c, c_rm (f c) = c_rm c) → ctrs_le L (on_ctr k f L).
Proof.
  intros Hf j c Hj. unfold on_ctr. cbn. destruct (decide (j = k)) as [->|Hne].
  - rewrite list_lookup_alter_eq, Hj. simpl. eauto.
  - rewrite list_lookup_alter_ne by done. eauto.
Qed.

Lemma ctrs_le_eq L L' : ctrs L' = ctrs L → ctrs_le L L'.
Proof. intros E k c Hc. rewrite E. eauto. Qed.

Lemma owns_le w w' k : ctrs_le (lib w) (lib w') → manager (backend w') = manager (backend w) → owns w k → owns w' k.
Proof. intros Hle Hm (c & Hc & Hr). destruct (Hle k c Hc) as (c' & Hc' & E). exists c'. by rewrite Hm, E. Qed.

Lemma MInv_le w w' :
  MInv w → ctrs_le (lib w) (lib w') → manager (backend w') = manager (backend w) →
  (0 < alive w' → 0 < alive w ∧ client (lib w') = client (lib w)) →
  (∀ k p e i, QEvent k p e (Some i) ∈ queue (lib w') → QEvent k p e (Some i) ∈ queue (lib w)) →
  (∀ g, g ∈ goros (lib w') → g ∈ goros (lib w)) → MInv w'.
Proof.
  intros [Hc Hq Hg] Hle Hm Ha Hqs Hgs. split.
  - intros Hp. destruct (Ha Hp) as [Hp' E]. destruct (Hc Hp') as (k & Hk & Ho). exists k. rewrite E. split; [done|by eapply owns_le].
  - intros k p e i H%Hqs. eapply owns_le; eauto.
  - intros g H%Hgs. eapply owns_le; eauto.
Qed.

(** ** Steps of libcontainerd *)

Lemma handleEvent_ctrs k e o L L' : handleEvent k e o L = Some L' → ctrs_le L L'.
Proof.
  unfold handleEvent. destruct (ctrs L !! k) as [c|]; [|done].
  set (L1 := match e with COOM => on_ctr k set_oom L | _ => L end).
  assert (H1 : ctrs_le L L1) by (unfold L1; destruct e; try done; by apply ctrs_le_on).
  destruct (SI_State _); try (intros [= <-]; by (etrans; [exact H1|by apply ctrs_le_eq])).
  destruct (managers L1 !! c_rm c) as [rw|]; [|done].
  destruct (RestartManager.ShouldRestart _ _ _ _) as [[] rm']; intros [= <-];
    try (by (etrans; [exact H1|by apply ctrs_le_eq])).
  etrans; [exact H1|]. etrans; [|by apply (ctrs_le_eq (on_ctr k (set_restarting true) L1))]. by apply ctrs_le_on.
Qed.

(** The queue and goroutines after an event, and the client while it is there. *)
Lemma handleEvent_items k e o L L' :
  handleEvent k e o L = Some L' →
  goros L' = goros L ∧ (∃ p st i, queue L' = queue L ++ [QEvent k p st i]) ∧ (init_exit e = 0 → client L' = client L).
Proof.
  unfold handleEvent. destruct (ctrs L !! k) as [c|]; [|done]. destruct e as [p s| | |]; cbn; try (intros [= <-]; by eauto 6).
  destruct (decide (p = InitFriendlyName)); cbn; [|intros [= <-]; by eauto 6].
  destruct (managers L !! c_rm c) as [rw|]; [|done].
  destruct (RestartManager.ShouldRestart _ _ _ _) as [[] rm']; intros [= <-]; split_and!; try done; eauto.
Qed.

Lemma receive_MInv o w w' :
  WInv w → registered (backend w) = true → MInv w → receive o w = Some w' → MInv w'.
Proof.
  intros HI Hr HM. unfold receive. destruct (stream (env w)) as [|e s] eqn:Es; [done|].
  assert (Hal : alive w = length (procs (env w)) + (init_exit e + sum_list_with init_exit s)) by (unfold alive; by rewrite Es).
  assert (Ha : ∀ b L, alive (mkW b L (mkEnv (procs (env w)) s)) = length (procs (env w)) + sum_list_with init_exit s) by done.
  destruct (client (lib w)) as [k|] eqn:Ec.
  2:{ intros [= <-]. apply (MInv_le w); try done. unfold upd_env. rewrite Ha. intros Hp. split; [lia|done]. }
  destruct (handleEvent k e o (lib w)) as [L|] eqn:Eh; [|done]. intros [= <-].
  destruct (handleEvent_items _ _ _ _ _ Eh) as (Hg & (p & st & i & Hq) & Hcl). pose proof (handleEvent_ctrs _ _ _ _ _ Eh) as Hle.
  pose proof (wi_tokens w HI) as Ht. unfold tokens in Ht.
  assert (Ho : 0 < init_exit e → owns w k).
  { intros Hp. destruct (m_client w HM) as (k' & Hk' & Hok); [lia|]. congruence. }
  split; cbn [lib backend env upd_env].
  - rewrite Ha. intros Hp. destruct (decide (init_exit e = 0)) as [E0|]; [|lia]. rewrite (Hcl E0), Ec.
    destruct (m_client w HM) as (k' & Hk' & Hok); [lia|]. exists k. split; [done|].
    assert (k' = k) as -> by congruence. by eapply (owns_le w).
  - intros k' p' e' i' Hin. rewrite Hq in Hin. apply elem_of_app in Hin as [Hin|Hin].
    + eapply (owns_le w); [done|done|]. by eapply m_queue.
    + apply list_elem_of_singleton in Hin. injection Hin as -> _ _ E. eapply (owns_le w); [done|done|]. apply Ho.
      (* only the exit of the process is queued with a restart *)
      destruct (decide (init_exit e = 0)) as [E0|]; [exfalso|lia].
      unfold handleEvent in Eh. destruct (ctrs (lib w) !! k) as [c|]; [|done].
      destruct e as [p0 s0| | |]; cbn in Eh, E0; try (injection Eh as <-; cbn in Hq; apply app_inj_tail in Hq as [_ Hq]; congruence).
      destruct (decide (p0 = InitFriendlyName)); [done|]. cbn in Eh. injection Eh as <-. cbn in Hq.
      apply app_inj_tail in Hq as [_ Hq]. congruence.
  - intros g Hin. rewrite Hg in Hin. eapply (owns_le w); [done|done|]. by apply (m_goros w HM).
Qed.

Lemma run_queue_MInv o w w' : WInv w → MInv w → run_queue o w = Some w' → MInv w'.
Proof.
  intros HI HM E. pose proof (run_queue_ok o w w' HI E) as (_ & [_ _ _ _ _ Hm] & _). unfold run_queue in E.
  assert (Hph : ∀ k b L, ctrs_le L (pause_handle k b L) ∧ queue (pause_handle k b L) = queue L ∧
    goros (pause_handle k b L) = goros L ∧ client (pause_handle k b L) = client L).
  { intros k b L. unfold pause_handle. destruct (ctrs L !! k) as [c|]; [|done].
    destruct (if b then _ else _) as [|n rest]; [done|]. split_and!; try done.
    etrans; [|by apply ctrs_le_eq]. apply ctrs_le_on. by destruct b. }
  destruct (queue (lib w)) as [|[k p e i|e] q] eqn:Eq; [done|..].
  - destruct (b_StateChanged o e (backend w)) as [[r d]|]; [|done]. injection E as <-. cbn [backend] in Hm.
    set (L2 := match i with Some i => upd_goros (λ g, g ++ [mkGoro k i e]) (upd_queue (λ _, q) (lib w))
                          | None => upd_queue (λ _, q) (lib w) end) in *.
    assert (HM2 : MInv (mkW d L2 (env w))).
    { split; cbn [lib backend env].
      - intros Hp. destruct (m_client w HM Hp) as (k' & Hk' & Ho). exists k'. split; [by destruct i|].
        by eapply (owns_le w); [destruct i; by apply ctrs_le_eq|..].
      - intros k' p' e' i' Hin. eapply (owns_le w); [destruct i; by apply ctrs_le_eq|done|].
        eapply (m_queue w HM). rewrite Eq. right. by destruct i.
      - intros g Hin. eapply (owns_le w); [destruct i; by apply ctrs_le_eq|done|].
        destruct i as [i|]; [|by apply (m_goros w HM)]. cbn in Hin. apply elem_of_app in Hin as [Hin|Hin]; [by apply (m_goros w HM)|].
        apply list_elem_of_singleton in Hin as ->. cbn. eapply (m_queue w HM). rewrite Eq. left. }
    destruct p as [b|]; [|done]. destruct (Hph k b L2) as (H1 & H2 & H3 & H4).
    apply (MInv_le (mkW d L2 (env w)) (mkW d (pause_handle k b L2) (env w)) HM2 H1 eq_refl).
    + intros Hp. split; [done|exact H4].
    + intros k' p' e' i'. cbn [lib]. by rewrite H2.
    + intros g. cbn [lib]. by rewrite H3.
  - destruct (b_StateChanged o e (backend w)) as [[r d]|]; [|done]. injection E as <-. cbn [backend] in Hm.
    apply (MInv_le w _ HM); [by apply ctrs_le_eq|done|done| |done]. intros k p e' i Hin. rewrite Eq. by right.
Qed.

Lemma start_ctrs k o (w : DW) r w' : start k o w = Some (r, w') → ctrs_le (lib w) (lib w').
Proof.
  unfold start. destruct (o_start o); try (intros [= <- <-]; by apply ctrs_le_eq). cbn.
  destruct (daemon_AttachStreams o (backend w)) as [[e|] d]; [intros [= <- <-]; by apply ctrs_le_eq|].
  destruct (daemon_StateChanged o (start_info pid) d) as [[err d']|]; [|done]. intros [= <- <-].
  etrans; [|by apply (ctrs_le_on k (set_pid pid) (set_client (Some k) (lib w)))]. by apply ctrs_le_eq.
Qed.

Lemma run_goro_MInv i o w w' :
  WInv w → registered (backend w) = true → clean o → MInv w → run_goro i o w = Some w' → MInv w'.
Proof.
  intros HI Hr Hclean HM E. pose proof (run_goro_ok i o w w' HI Hclean E) as (_ & [_ _ _ _ _ Hm] & _). unfold run_goro in E.
  destruct (goros (lib w) !! i) as [g|] eqn:Eg; [|done]. destruct (ctrs (lib w) !! g_ctr g) as [c|]; [|done].
  destruct (managers (lib w) !! c_rm c ≫= _) as [wt|]; [|done].
  set (w1 := upd_lib _ w) in E. pose proof (list_elem_of_lookup_2 _ _ _ Eg) as Hg.
  pose proof (m_goros w HM g Hg) as Ho.
  assert (Hle1 : ctrs_le (lib w) (lib w1)).
  { etrans; [|by apply (ctrs_le_on (g_ctr g) (set_restarting false) (upd_goros (delete i) (lib w)))]. by apply ctrs_le_eq. }
  (* no process is there while its restart is *)
  assert (Hal : alive w = 0).
  { pose proof (wi_tokens w HI) as Ht. unfold tokens in Ht. pose proof (lookup_lt_Some _ _ _ Eg). lia. }
  assert (Hgo : ∀ w2 : DW, ctrs_le (lib w1) (lib w2) → manager (backend w2) = manager (backend w) →
    goros (lib w2) = goros (lib w1) → (∀ k p e j, QEvent k p e (Some j) ∈ queue (lib w2) → QEvent k p e (Some j) ∈ queue (lib w)) →
    (0 < alive w2 → client (lib w2) = Some (g_ctr g)) → MInv w2).
  { intros w2 Hle Hm2 Hg2 Hq2 Hc2. assert (Hle2 : ctrs_le (lib w) (lib w2)) by (by etrans).
    split.
    - intros Hp. exists (g_ctr g). split; [by apply Hc2|by eapply (owns_le w)].
    - intros k p e j H%Hq2. eapply (owns_le w); [done|done|]. by eapply (m_queue w HM).
    - intros g' H. rewrite Hg2 in H. eapply (owns_le w); [done|done|]. apply (m_goros w HM).
      cbn in H. by eapply list_elem_of_delete_inv. }
  assert (Hq : ∀ (w2 : DW) f, queue (lib w2) = queue (lib w) → ∀ k p e j,
    QEvent k p e (Some j) ∈ queue (upd_queue (λ q, q ++ [QExited f]) (lib w2)) → QEvent k p e (Some j) ∈ queue (lib w)).
  { intros w2 f Eq k p e j Hin. cbn in Hin. rewrite Eq in Hin.
    apply elem_of_app in Hin as [?|Hin]; [done|]. apply list_elem_of_singleton in Hin. done. }
  destruct (RestartManager.status wt); [done| |].
  - destruct (start (g_ctr g) o w1) as [[r w2]|] eqn:Es; [|done]. pose proof (start_ctrs _ _ _ _ _ Es) as Hle2.
    apply start_effect in Es as (Hq2 & Hg2 & _ & Hs2 & Hk & _ & _ & _ & Hcase); [|done|by destruct HI].
    pose proof Hk as [_ _ _ _ _ Hm2]. change (backend w1) with (backend w) in *.
    destruct r as [er|]; injection E as <-.
    + destruct Hcase as [(? & _)|(_ & _ & Hp)]; [done|]. rewrite Hr in Hp.
      apply Hgo; [etrans; [exact Hle2|by apply ctrs_le_eq]|done|done|by apply (Hq w2)|].
      unfold alive in *. cbn. rewrite Hs2, Hp. intros. change (env w1) with (env w) in *. lia.
    + destruct Hcase as [(_ & _ & _ & _ & Hc)|(? & _)]; [|done]. apply Hgo; try done. by rewrite Hq2.
  - injection E as <-. apply Hgo; [by apply ctrs_le_eq|done|done|by apply (Hq w1)|].
    change (0 < alive w → client (lib w1) = Some (g_ctr g)). lia.
Qed.

Lemma lib_step_MInv l w w' :
  WInv w → registered (backend w) = true → clean_llabel l → MInv w → lib_step l w = Some w' → MInv w'.
Proof.
  intros HI Hr Hl HM E. pose proof (lib_step_ok l w w' HI Hl E) as (_ & [_ _ _ _ _ Hm] & _).
  destruct l as [p s|id s| |o|o|i o|r i|r i]; cbn [lib_step] in E.
  - case_decide as Hp; [|done]. injection E as <-. apply (MInv_le w); try done. intros _. split; [|done].
    unfold alive. destruct (procs (env w)); [by apply elem_of_nil in Hp|simpl; lia].
  - case_decide as Hid; [done|]. injection E as <-. apply (MInv_le w); try done. intros Hp. split; [|done].
    unfold alive in *. cbn in Hp. rewrite sum_app in Hp. cbn in Hp. rewrite decide_False in Hp by done. lia.
  - case_decide as Hp; [done|]. injection E as <-. apply (MInv_le w); try done. intros Ha. split; [|done].
    unfold alive in *. cbn in Ha. rewrite sum_app in Ha. cbn in Ha. lia.
  - by eapply receive_MInv.
  - by eapply run_queue_MInv.
  - by eapply run_goro_MInv.
  - apply fmap_Some in E as (L & HL & ->). unfold manager_step in HL. repeat case_match; simplify_eq.
    apply (MInv_le w); try done. by apply ctrs_le_eq.
  - apply fmap_Some in E as (L & HL & ->). unfold manager_step in HL. repeat case_match; simplify_eq.
    apply (MInv_le w); try done. by apply ctrs_le_eq.
Qed.

(** ** Steps of the calls *)

Lemma MInv_none w : tokens w = 0 → MInv w.
Proof.
  intros Ht. unfold tokens in Ht. split.
  - lia.
  - intros k p e i Hin. pose proof (sum_elem q_restart _ _ Hin) as H. simpl in H. lia.
  - intros g Hin. destruct (goros (lib w)); [by apply elem_of_nil in Hin|simpl in Ht; lia].
Qed.

Lemma create_container_MInv rm o w r w' :
  tokens w = 0 → registered (backend w) = true → manager (backend w) = Some rm → d_chan_ok (backend w) → clean o →
  create_container rm o w = Some (r, w') → MInv w'.
Proof.
  intros Ht Hr Hm Hch Hclean. unfold create_container.
  destruct (o_bundle o) as [[[] e]|]; [intros [= <- <-]; by apply MInv_none..|].
  set (w1 := upd_lib (upd_ctrs _) w). destruct (start (length (ctrs (lib w))) o w1) as [[r1 w2]|] eqn:E; [|done].
  pose proof (start_ctrs _ _ _ _ _ E) as Hle.
  apply start_effect in E as (Hq & Hg & _ & Hs & [_ _ _ _ _ Hm2] & _ & _ & _ & Hcase); [|done..].
  change (manager (backend w1)) with (manager (backend w)) in *. change (registered (backend w1)) with (registered (backend w)) in *.
  change (queue (lib w1)) with (queue (lib w)) in *. change (goros (lib w1)) with (goros (lib w)) in *.
  change (env w1) with (env w) in *. rewrite Hr in Hcase. unfold tokens, alive in Ht.
  destruct Hcase as [(-> & _ & _ & Hp & Hc)|(Hne & _ & Hp)].
  - intros [= <- <-]. split.
    + intros _. exists (length (ctrs (lib w))). split; [done|].
      destruct (Hle (length (ctrs (lib w))) (mkCtr rm false false 0 [] [])) as (c & Hk & E).
      { cbn. by rewrite lookup_app_r, Nat.sub_diag by done. }
      exists c. split; [done|]. rewrite Hm2, Hm, E. done.
    + rewrite Hq. intros k p e i Hin. pose proof (sum_elem q_restart _ _ Hin) as H. simpl in H. lia.
    + rewrite Hg. intros g Hin. destruct (goros (lib w)); [by apply elem_of_nil in Hin|simpl in Ht; lia].
  - destruct r1 as [e|]; [|done]. intros [= <- <-]. apply MInv_none. unfold tokens, alive. cbn. rewrite Hq, Hg, Hs, Hp. lia.
Qed.

Definition guarded (w : DW) : Prop := registered (backend w) = true → MInv w.

(** An action that leaves libcontainerd and the manager alone. *)
Lemma guarded_same w w' :
  guarded w → ctrs_le (lib w) (lib w') → queue (lib w') = queue (lib w) → goros (lib w') = goros (lib w) →
  client (lib w') = client (lib w) → alive w' = alive w → manager (backend w') = manager (backend w) →
  (registered (backend w') = true → registered (backend w) = true) → guarded w'.
Proof.
  intros HG Hle Hq Hg Hc Ha Hm Hr Hr'. apply (MInv_le w); try done; [by auto|by rewrite Ha, Hc|by rewrite Hq|by rewrite Hg].
Qed.

Lemma killWithSignal_lib sig o w b w' :
  killWithSignal sig o w = (b, w') →
  ctrs (lib w') = ctrs (lib w) ∧ queue (lib w') = queue (lib w) ∧ goros (lib w') = goros (lib w) ∧
  client (lib w') = client (lib w) ∧ env w' = env w ∧ manager (backend w') = manager (backend w) ∧
  registered (backend w') = registered (backend w).
Proof.
  unfold killWithSignal, ExitOnNext. destruct (Paused (st w)); [by intros [= <- <-]|].
  destruct (negb (Running (st w))); [by intros [= <- <-]|].
  destruct (manager (backend w)) as [r|] eqn:Em; destruct (shuttingDown _); destruct (Restarting _);
    try (intros [= <- <-]; by split_and!); destruct (o_err o); try (intros [= <- <-]; by split_and!);
    destruct (_ || _); intros [= <- <-]; by split_and!.
Qed.

Lemma setState_lib p o (w : DW) r w' :
  setState p o w = Some (r, w') →
  ctrs_le (lib w) (lib w') ∧ queue (lib w') = queue (lib w) ∧ goros (lib w') = goros (lib w) ∧
  client (lib w') = client (lib w) ∧ alive w' = alive w ∧ backend w' = backend w.
Proof.
  unfold setState. destruct (client (lib w)) as [k|] eqn:Ec; [|by intros [= <- <-]].
  destruct (ctrs (lib w) !! k) as [c|]; [|done]. case_decide; [by intros [= <- <-]|].
  destruct (o_err o); [by intros [= <- <-]|]. case_decide; [done|]. intros [= <- <-]. split_and!; try done.
  - etrans; [|by apply ctrs_le_on; destruct p]. by apply ctrs_le_eq.
  - unfold alive. cbn. rewrite sum_app. destruct p; cbn; lia.
Qed.

Lemma exec_guarded {B} (a : act B) o w ss i s b w' :
  WInv w → TInv (backend w) ss → ss !! i = Some s → clean o → pre a s → guarded w →
  exec a o w = Some (b, w') → guarded w'.
Proof.
  intros HI HT Hi Hclean Hpre HG E.
  assert (Hheld : s_lock s = LHeld → registered (backend w) = true ∧ tokens w = 0).
  { intros Hs. destruct (stage_at _ _ _ _ HT Hi) as [H1 _]. destruct (H1 Hs) as (Hr & Hrun & _). split; [done|].
    pose proof (wi_running w HI Hr) as H. rewrite Hrun in H. lia. }
  destruct a; cbn [exec pre] in E, Hpre; try (apply region_Some in E as [_ E]); cbv zeta in E;
    try (simplify_eq; exact HG); try (simplify_eq; by apply (guarded_same w)).
  - apply killWithSignal_lib in E as (H1 & H2 & H3 & H4 & H5 & H6 & H7).
    apply (guarded_same w); try done; [by apply ctrs_le_eq|unfold alive; by rewrite H5|by rewrite H7].
  - match type of E with context [match ?x with _ => _ end] => destruct x as [[ec|e|m]|] end; [..|done].
    + apply region_Some in E as [_ E]. by simplify_eq.
    + by simplify_eq.
    + apply region_Some in E as [_ E]. by simplify_eq.
  - destruct what; simplify_eq; [by apply (guarded_same w)|done].
  - destruct (start_check (st w)); simplify_eq; [done|by apply (guarded_same w)].
  - simplify_eq. intros _. destruct (Hheld Hpre) as [_ Ht]. by apply MInv_none.
  - destruct (manager (backend w)) as [rm|] eqn:Em; [|done]. destruct (Hheld Hpre) as [Hr Ht]. intros _.
    unfold Create in E. destruct (client (lib w)) as [k|] eqn:Ec.
    + destruct (ctrs (lib w) !! k) as [c|]; [|done]. destruct (c_restarting c); [|simplify_eq; by apply MInv_none].
      apply (create_container_MInv rm o (upd_lib (on_manager (c_rm c) RestartManager.LCancel) w) b w'); [exact Ht|exact Hr|exact Em|apply (wi_chan w HI)|done|exact E].
    + eapply (create_container_MInv rm o w); [exact Ht|exact Hr|exact Em|apply (wi_chan w HI)|done|exact E].
  - destruct (free w); [|done]. destruct (pause_guard _ _); [by simplify_eq|].
    destruct (setState _ _ _) as [[[er|n] w1]|] eqn:Es; [..|done]; apply setState_lib in Es as (H1 & H2 & H3 & H4 & H5 & H6);
      simplify_eq; apply (guarded_same w); try done; cbn; by rewrite H6.
  - case_decide; [|done]. simplify_eq. by apply (guarded_same w).
  - destruct (SetRemovalInProgress _). simplify_eq. by apply (guarded_same w).
  - destruct (rmLink _ _ _) as [r d] eqn:El. injection E as <- <-.
    assert (Hd : manager d = manager (backend w) ∧ registered d = registered (backend w)).
    { unfold rmLink in El. destruct (PathSplit _). case_decide; [by simplify_eq|].
      destruct (Registrar.Get _ _); [|by simplify_eq..]. destruct (negb _); by simplify_eq. }
    destruct Hd as [H1 H2]. apply (guarded_same w); try done. cbn. by rewrite H2.
Qed.

(** ** The property *)

Record GInv (s : Sys) : Prop := { gi_sys : SInv s; gi_guarded : guarded (world s) }.

Lemma sys_step_GInv valid l s s' : GInv s → clean_slabel l → sys_step valid l s = Some s' → GInv s'.
Proof.
  intros [HS HG] Hl E. split; [by eapply sys_step_SInv|]. destruct HS as [HI HN (ss & Hss & HT)].
  destruct l as [r|i o|l]; cbn [sys_step] in E.
  - by simplify_eq.
  - destruct (threads s !! i) as [[a|B x k]|] eqn:Et; [done| |done].
    destruct (exec x o (world s)) as [[b w']|] eqn:Ex; [|done]. simplify_eq.
    destruct (Forall2_lookup_r _ _ _ _ _ Hss Et) as (st & Hst & [Hpre Hk]). by eapply (exec_guarded x o (world s) ss i st).
  - apply fmap_Some in E as (w' & E & ->). intros Hr. pose proof (lib_step_ok _ _ _ HI Hl E) as (_ & [_ _ Hreg _ _ _] & _).
    cbn in Hr. rewrite Hreg in Hr. eapply lib_step_MInv; eauto.
Qed.

Lemma run_GInv valid ls : ∀ s s', GInv s → Forall clean_slabel ls → run valid ls s = Some s' → GInv s'.
Proof.
  induction ls as [|l ls IH]; intros s s' HI Hls; cbn [run]; [by intros [= <-]|].
  apply Forall_cons in Hls as [Hl Hls]. destruct (sys_step valid l s) as [s1|] eqn:E; [|done].
  apply IH; [by eapply sys_step_GInv|done].
Qed.

Lemma created_GInv id hc p n path sig rw down : Registrar.Inv n → GInv (created id hc p n path sig rw down).
Proof. intros Hn. split; [by apply created_SInv|]. intros _. by apply MInv_none. Qed.

(** The restart manager of the container is cancelled. *)
Definition stopped (w : DW) : Prop :=
  ∃ r rw, manager (backend w) = Some r ∧ managers (lib w) !! r = Some rw ∧
    RestartManager.canceled (RestartManager.rm rw) = true ∧ RestartManager.once (RestartManager.rm rw) = true.

(** Restarts that were granted and have not taken place. *)
Definition restarts (w : DW) : nat := sum_list_with q_restart (queue (lib w)) + length (goros (lib w)).

(** Managers that stay cancelled. *)
Definition managers_le (L L' : Lib) : Prop :=
  ∀ r rw, managers L !! r = Some rw → ∃ rw', managers L' !! r = Some rw' ∧
    (RestartManager.canceled (RestartManager.rm rw) = true → RestartManager.once (RestartManager.rm rw) = true →
     RestartManager.canceled (RestartManager.rm rw') = true ∧ RestartManager.once (RestartManager.rm rw') = true).

Lemma managers_le_eq L L' : managers L' = managers L → managers_le L L'.
Proof. intros E r rw H. rewrite E. eauto. Qed.
#[export] Instance managers_le_refl : Reflexive managers_le.
Proof. intros L. by apply managers_le_eq. Qed.

Lemma stopped_le w w' :
  managers_le (lib w) (lib w') → manager (backend w') = manager (backend w) → stopped w → stopped w'.
Proof.
  intros Hle Hm (r & rw & H1 & H2 & H3 & H4). destruct (Hle r rw H2) as (rw' & H & Hc). exists r, rw'.
  rewrite Hm. split_and!; naive_solver.
Qed.

Lemma canceled_step l rw ov rw' :
  RestartManager.step l rw = Some (ov, rw') → RestartManager.canceled (RestartManager.rm rw) = true →
  RestartManager.once (RestartManager.rm rw) = true →
  RestartManager.canceled (RestartManager.rm rw') = true ∧ RestartManager.once (RestartManager.rm rw') = true.
Proof.
  intros E Hc Ho. destruct l; cbn in E.
  - unfold RestartManager.ShouldRestart in E. rewrite Hc in E. destruct (RestartManager.IsNone _); by simplify_eq.
  - repeat case_match; by simplify_eq.
  - repeat case_match; by simplify_eq.
  - simplify_eq. cbn. unfold RestartManager.Cancel. by rewrite Ho.
  - by simplify_eq.
Qed.

(** A cancelled manager grants nothing. *)
Lemma handleEvent_stopped k c e o L L' rw :
  ctrs L !! k = Some c → managers L !! c_rm c = Some rw → RestartManager.canceled (RestartManager.rm rw) = true →
  handleEvent k e o L = Some L' → sum_list_with q_restart (queue L') = sum_list_with q_restart (queue L).
Proof.
  intros Hk Hm Hc. unfold handleEvent. rewrite Hk.
  destruct e as [p s| | |]; cbn; try (intros [= <-]; cbn; rewrite sum_app; cbn; lia).
  destruct (decide (p = InitFriendlyName)); cbn; [|intros [= <-]; cbn; rewrite sum_app; cbn; lia].
  rewrite Hm. unfold RestartManager.ShouldRestart. rewrite Hc.
  destruct (RestartManager.IsNone _); intros [= <-]; cbn; rewrite sum_app; cbn; lia.
Qed.

Lemma handleEvent_managers k e o L L' : handleEvent k e o L = Some L' → managers_le L L'.
Proof.
  unfold handleEvent. destruct (ctrs L !! k) as [c|]; [|done].
  destruct e as [p s| | |]; cbn; try (intros [= <-]; by apply managers_le_eq).
  destruct (decide (p = InitFriendlyName)); cbn; [|intros [= <-]; by apply managers_le_eq].
  destruct (managers L !! c_rm c) as [rw|] eqn:Em; [|done].
  destruct (RestartManager.ShouldRestart s false (o_dur o) (RestartManager.rm rw)) as [v rm'] eqn:Es.
  intros E r rw0 Hr. destruct (decide (r = c_rm c)) as [->|Hne].
  - rewrite Em in Hr. simplify_eq.
    destruct v; simplify_eq/=; (rewrite list_lookup_insert_eq by (by eapply lookup_lt_Some)); eexists; (split; [reflexivity|]);
      unfold RestartManager.ShouldRestart in Es; intros Hc Ho; rewrite Hc in Es; destruct (RestartManager.IsNone _); by simplify_eq/=.
  - destruct v; simplify_eq/=; (rewrite list_lookup_insert_ne by done); eauto.
Qed.

Lemma handleEvent_other k e o L L' :
  init_exit e = 0 → handleEvent k e o L = Some L' → sum_list_with q_restart (queue L') = sum_list_with q_restart (queue L).
Proof.
  intros He. unfold handleEvent. destruct (ctrs L !! k) as [c|]; [|done].
  destruct e as [p s| | |]; cbn in *; try (intros [= <-]; cbn; rewrite sum_app; cbn; lia).
  destruct (decide (p = InitFriendlyName)); [done|]. cbn. intros [= <-]. cbn. rewrite sum_app. cbn. lia.
Qed.

Lemma start_same k o (w : DW) r w' :
  start k o w = Some (r, w') → queue (lib w') = queue (lib w) ∧ goros (lib w') = goros (lib w) ∧ managers (lib w') = managers (lib w).
Proof.
  unfold start. destruct (o_start o); try (by intros [= <- <-]). cbn.
  destruct (daemon_AttachStreams o (backend w)) as [[e|] d]; [by intros [= <- <-]|].
  by destruct (daemon_StateChanged o (start_info pid) d) as [[err d']|]; [intros [= <- <-]|].
Qed.

Lemma on_manager_le r L : managers_le L (on_manager r RestartManager.LCancel L).
Proof.
  intros j rw Hj. unfold on_manager. cbn. destruct (decide (j = r)) as [->|Hne].
  - rewrite list_lookup_alter_eq, Hj. cbn. eexists. split; [reflexivity|]. intros Hc Ho. cbn.
    unfold RestartManager.Cancel. by rewrite Ho.
  - rewrite list_lookup_alter_ne by done. eauto.
Qed.

(** What a step of libcontainerd does to the restarts of a stopped container. *)
Lemma lib_step_stopped l w w' :
  WInv w → registered (backend w) = true → MInv w → stopped w → lib_step l w = Some w' →
  managers_le (lib w) (lib w') ∧ restarts w' ≤ restarts w.
Proof.
  intros HI Hr HM Hst E. destruct l as [p s|id s| |o|o|i o|r i|r i]; cbn [lib_step] in E.
  - case_decide; [|done]. by simplify_eq.
  - case_decide; [done|]. by simplify_eq.
  - case_decide; [done|]. by simplify_eq.
  - unfold receive in E. destruct (stream (env w)) as [|e s] eqn:Es; [done|].
    destruct (client (lib w)) as [k|] eqn:Ec; [|by simplify_eq].
    destruct (handleEvent k e o (lib w)) as [L|] eqn:Eh; [|done]. simplify_eq. split; [by eapply handleEvent_managers|].
    destruct (handleEvent_items _ _ _ _ _ Eh) as (Hg & _ & _). unfold restarts. cbn. rewrite Hg.
    destruct (decide (init_exit e = 0)) as [E0|Hne]; [rewrite (handleEvent_other _ _ _ _ _ E0 Eh); lia|].
    destruct (m_client w HM) as (k' & Hk' & c & Hc & Hm). { unfold alive. rewrite Es. simpl. lia. }
    assert (k' = k) as -> by congruence. destruct Hst as (r & rw & H1 & H2 & H3 & _).
    assert (r = c_rm c) as -> by congruence. rewrite (handleEvent_stopped _ _ _ _ _ _ _ Hc H2 H3 Eh). lia.
  - unfold run_queue in E. assert (Hph : ∀ k b L, managers (pause_handle k b L) = managers L ∧
      queue (pause_handle k b L) = queue L ∧ goros (pause_handle k b L) = goros L).
    { intros k b L. unfold pause_handle. by repeat case_match. }
    destruct (queue (lib w)) as [|[k p e i|e] q] eqn:Eq; [done|..].
    + destruct (b_StateChanged o e (backend w)) as [[r d]|]; [|done]. injection E as <-. unfold restarts. cbn [lib]. rewrite Eq.
      match goal with |- context [pause_handle k _ ?L] => set (L2 := L) end.
      assert (H2 : managers L2 = managers (lib w) ∧ queue L2 = q ∧ length (goros L2) = length (goros (lib w)) + q_restart (QEvent k p e i)).
      { unfold L2. destruct i; cbn; rewrite ?length_app; cbn; split_and!; done || lia. }
      destruct H2 as (H2m & H2q & H2g). destruct p as [b|]; [destruct (Hph k b L2) as (Hm & Hq & Hg); rewrite ?Hq, ?Hg|];
        (split; [apply managers_le_eq; congruence|rewrite H2q, H2g; cbn; lia]).
    + destruct (b_StateChanged o e (backend w)) as [[r d]|]; [|done]. injection E as <-. unfold restarts. cbn. rewrite Eq.
      split; [by apply managers_le_eq|cbn; lia].
  - unfold run_goro in E. destruct (goros (lib w) !! i) as [g|] eqn:Eg; [|done]. destruct (ctrs (lib w) !! g_ctr g) as [c|]; [|done].
    destruct (managers (lib w) !! c_rm c ≫= _) as [wt|]; [|done].
    assert (Hlen : length (delete i (goros (lib w))) ≤ length (goros (lib w))).
    { rewrite length_delete by eauto. lia. }
    destruct (RestartManager.status wt); [done| |].
    + set (w1 := upd_lib _ w) in E. destruct (start (g_ctr g) o w1) as [[[er|] w2]|] eqn:Es; [..|done];
        apply start_same in Es as (Hq & Hg & Hm); injection E as <-; unfold restarts; cbn;
        (split; [by apply managers_le_eq|]); rewrite ?sum_app, Hq, Hg; cbn; lia.
    + injection E as <-. unfold restarts. cbn. split; [by apply managers_le_eq|]. rewrite sum_app. cbn. lia.
  - apply fmap_Some in E as (L & HL & ->). unfold manager_step in HL. destruct (managers (lib w) !! r) as [rw|] eqn:Em; [|done].
    destruct (RestartManager.step _ rw) as [[ov rw']|] eqn:Es; [|done]. simplify_eq. split; [|done].
    intros j rw0 Hj. cbn. destruct (decide (j = r)) as [->|Hne].
    + rewrite Em in Hj. simplify_eq. rewrite list_lookup_insert_eq by (by eapply lookup_lt_Some). eexists. split; [reflexivity|].
      by eapply canceled_step.
    + rewrite list_lookup_insert_ne by done. eauto.
  - apply fmap_Some in E as (L & HL & ->). unfold manager_step in HL. destruct (managers (lib w) !! r) as [rw|] eqn:Em; [|done].
    destruct (RestartManager.step _ rw) as [[ov rw']|] eqn:Es; [|done]. simplify_eq. split; [|done].
    intros j rw0 Hj. cbn. destruct (decide (j = r)) as [->|Hne].
    + rewrite Em in Hj. simplify_eq. rewrite list_lookup_insert_eq by (by eapply lookup_lt_Some). eexists. split; [reflexivity|].
      by eapply canceled_step.
    + rewrite list_lookup_insert_ne by done. eauto.
Qed.

(** The same of a call, unless it makes a new manager. *)
Lemma exec_stopped {B} (a : act B) o w b w' :
  exec a o w = Some (b, w') → stopped w → manager (backend w') = manager (backend w) →
  managers_le (lib w) (lib w') ∧ restarts w' ≤ restarts w.
Proof.
  intros E Hst Hm.
  destruct a; cbn [exec] in E; try (apply region_Some in E as [_ E]); cbv zeta in E; try (by simplify_eq).
  - unfold killWithSignal, ExitOnNext in E. destruct Hst as (r & rw & H1 & _). rewrite H1 in E.
    pose proof (on_manager_le r (lib w)).
    repeat case_match; simplify_eq; (split; [done || by etrans|]); unfold restarts; cbn; lia.
  - match type of E with context [match ?x with _ => _ end] => destruct x as [[ec|e|m]|] end; [..|done].
    + apply region_Some in E as [_ E]. by simplify_eq.
    + by simplify_eq.
    + apply region_Some in E as [_ E]. by simplify_eq.
  - destruct what; by simplify_eq.
  - destruct (start_check (st w)); by simplify_eq.
  - simplify_eq. destruct Hst as (r & rw & H1 & H2 & _). cbn in Hm. rewrite H1 in Hm. apply lookup_lt_Some in H2.
    simplify_eq. lia.
  - destruct (manager (backend w)) as [rm|] eqn:Em; [|done].
    assert (Hcc : ∀ w1 : DW, create_container rm o w1 = Some (b, w') →
      managers (lib w') = managers (lib w1) ∧ queue (lib w') = queue (lib w1) ∧ goros (lib w') = goros (lib w1)).
    { intros w1 Hc. unfold create_container in Hc. destruct (o_bundle o) as [[[] e]|]; [by simplify_eq..|].
      destruct (start _ o _) as [[r1 w2]|] eqn:Es; [|done]. apply start_same in Es as (Hq & Hg & Hms).
      destruct r1; by simplify_eq. }
    unfold Create in E. destruct (client (lib w)) as [k|].
    + destruct (ctrs (lib w) !! k) as [c|]; [|done]. destruct (c_restarting c); [|by simplify_eq].
      apply Hcc in E as (H1 & H2 & H3). split; [|unfold restarts; rewrite H2, H3; cbn; lia].
      intros r rw Hr. rewrite H1. by apply on_manager_le.
    + apply Hcc in E as (H1 & H2 & H3). split; [by apply managers_le_eq|]. unfold restarts. rewrite H2, H3. lia.
  - destruct (free w); [|done]. destruct (pause_guard _ _); [by simplify_eq|].
    destruct (setState _ _ _) as [[[er|n] w1]|] eqn:Es; [..|done]; unfold setState in Es; repeat case_match; simplify_eq; by split; [apply managers_le_eq|].
  - case_decide; [|done]. by simplify_eq.
  - destruct (SetRemovalInProgress _). by simplify_eq.
  - destruct (rmLink _ _ _). by simplify_eq.
Qed.

(** A signal that is accepted cancels the restart manager. *)
Lemma killWithSignal_stops sig o w w' r :
  killWithSignal sig o w = (None, w') → manager (backend w) = Some r → is_Some (managers (lib w) !! r) →
  (∀ rw, managers (lib w) !! r = Some rw → RestartManager.Inv rw) → stopped w'.
Proof.
  intros E Hm [rw Hrw] Hinv. specialize (Hinv rw Hrw).
  assert (Hc : managers (on_manager r RestartManager.LCancel (lib w)) !! r =
    Some (RestartManager.mkWorld (RestartManager.Cancel (RestartManager.rm rw)) (RestartManager.waiters rw))).
  { unfold on_manager. cbn. by rewrite list_lookup_alter_eq, Hrw. }
  assert (Hcc : RestartManager.canceled (RestartManager.Cancel (RestartManager.rm rw)) = true ∧
    RestartManager.once (RestartManager.Cancel (RestartManager.rm rw)) = true).
  { destruct Hinv as [_ _ [H1 H2]]. unfold RestartManager.Cancel. destruct (RestartManager.once _) eqn:E1; [|done].
    rewrite E1. split; [congruence|done]. }
  exists r, (RestartManager.mkWorld (RestartManager.Cancel (RestartManager.rm rw)) (RestartManager.waiters rw)).
  unfold killWithSignal, ExitOnNext in E. rewrite Hm in E.
  repeat case_match; simplify_eq; (split_and!; [done|done|apply Hcc|apply Hcc]).
Qed.

(** ** Until the next start *)

(** Steps until the container gets a new restart manager, that is, until it is
    started. *)
Definition until_start (valid : Z → bool) (s s' : Sys) : Prop :=
  ∃ l, clean_slabel l ∧ sys_step valid l s = Some s' ∧ registered (backend (world s)) = true ∧
    manager (backend (world s')) = manager (backend (world s)).

Lemma until_start_stopped valid s s' :
  until_start valid s s' → GInv s → stopped (world s) → GInv s' ∧ stopped (world s') ∧ restarts (world s') ≤ restarts (world s).
Proof.
  intros (l & Hl & E & Hr & Hm) HG Hst. split; [by eapply sys_step_GInv|]. destruct HG as [[HI _ _] HM]. specialize (HM Hr).
  assert (H : managers_le (lib (world s)) (lib (world s')) ∧ restarts (world s') ≤ restarts (world s)).
  { destruct l as [q|i o|l]; cbn [sys_step] in E.
    - by simplify_eq.
    - destruct (threads s !! i) as [[a|B x k]|]; [done| |done].
      destruct (exec x o (world s)) as [[b w']|] eqn:Ex; [|done]. simplify_eq. by eapply exec_stopped.
    - apply fmap_Some in E as (w' & E & ->). by eapply lib_step_stopped. }
  destruct H as [H1 H2]. split; [by eapply stopped_le|done].
Qed.

