(* ===== verification/LifecycleFaults.v ===== *)
(** * Schedules on which the lifecycle calls go wrong

    Concrete runs of [Lifecycle], with the theorems that nothing that follows
    can repair them where that is so; and runs that witness the properties of
    [LifecycleSafety]. *)

From S2P Require Import Prelude GoStrings Filepath Registrar RestartManager ContainerState Libcontainerd Lifecycle LifecycleInv LifecycleSafety LifecycleStop.
Local Open Scope Z_scope.

Definition good : oracle := mkOracle 1 None None false (Started 42) None 0.
Definition no_start (e : option string) : oracle := mkOracle 1 None e false (CreateFails "refused") None 0.

Definition box (policy : string) : Sys :=
  created "c" None (mkPolicy policy 0) (Reserve "/box" "c" NewRegistrar).2 "/bin/sh" 15 true false.
Definition all_signals (z : Z) : bool := bool_decide (0 < z < 65).
Definition turns (i n : nat) : list slabel := replicate n (SThread i good).

(** The container is started. *)
Definition up : list slabel := SCall RStart :: turns 0 11.
(** Its process ends and the event is received. *)
Definition dies (status : Z) : list slabel := [SLib (LExit 42 status); SLib (LReceive good)].

Definition result (s : Sys) (i : nat) : option (option lerr) :=
  match threads s !! i with Some (Ret r) => Some r | _ => None end.

(** ** Pausing while another process of the container ends *)

(** The process of an exec ends; before the daemon handles its event, the
    container is paused. *)
Definition exec_then_pause : list slabel :=
  up ++ [SLib (LExecExit "exec" 0); SLib (LReceive good); SCall RPause; SThread 1 good; SLib (LReceive good)].

(** Programs that wait for the mutex, at once or after a call that does not
    matter. *)
Definition wants_lock {B} (a : act B) : bool :=
  match a with
  | IsRunning | IsPaused | GetPID | KillWithSignal _ | WaitBegin | StartLock | PauseBegin _ | SetRemoval
  | ResetRemoval | MarkDead | ToDiskLocking => true
  | _ => false
  end.

Definition is_external {B} (a : act B) : bool := match a with External _ => true | _ => false end.

Fixpoint waiting (p : prog (option lerr)) : Prop :=
  match p with
  | Ret _ => True
  | Do a k => wants_lock a = true ∨ (is_external a = true ∧ ∀ b, waiting (k b))
  end.

Lemma wants_lock_blocked {B} (a : act B) o w : wants_lock a = true → locked (backend w) ≠ None → exec a o w = None.
Proof.
  intros Ha Hl. assert (Hf : free w = false) by (by apply bool_decide_eq_false).
  destruct a; try done; cbn [exec]; unfold region; by rewrite ?Hf.
Qed.

Lemma handler_waiting valid r : waiting (handler valid r).
Proof.
  destruct r; cbn [handler]; try (by left).
  - unfold ContainerKill. destruct (_ && _); [done|]. destruct (_ || _); by left.
  - right. split; [done|]. intros b. by left.
Qed.

Lemma external_exec {B} (a : act B) o w b w' :
  is_external a = true → exec a o w = Some (b, w') →
  lib w' = lib w ∧ locked (backend w') = locked (backend w) ∧ registered (backend w') = registered (backend w).
Proof. destruct a as [| | | | | | | | | |what| | | | | | | | | | | | | | | | | | |]; try done. intros _. cbn. destruct what; by intros [= <- <-]. Qed.

(** The pauser keeps the mutex and waits for its event, which is in the queue
    behind one that needs the mutex. *)
Record deadlock (s : Sys) : Prop := {
  dl_locked : locked (backend (world s)) = Some HPause;
  dl_registered : registered (backend (world s)) = true;
  dl_queue : ∃ k st q, queue (lib (world s)) = QEvent k None st None :: q ∧ SI_State st = StateExitProcess;
  dl_notified : 0%nat ∉ notified (lib (world s));
  dl_pauser : ∃ k, threads s !! 1%nat = Some (Do (PauseEnd 0) k);
  dl_others : ∀ i p, threads s !! i = Some p → i ≠ 1%nat → waiting p
}.

Lemma start_keeps_lib k o (w : DW) r w' :
  start k o w = Some (r, w') → queue (lib w') = queue (lib w) ∧ notified (lib w') = notified (lib w) ∧
    locked (backend w') = locked (backend w) ∧ registered (backend w') = registered (backend w).
Proof.
  unfold start. destruct (o_start o); try (by intros [= <- <-]). cbn.
  unfold daemon_AttachStreams. destruct (negb _) eqn:Er; [by intros [= <- <-]|].
  destruct (o_err o); [by intros [= <- <-]|]. unfold daemon_StateChanged. rewrite Er.
  destruct (_ && _); [done|]. destruct (StateChanged _ _ _ _ _) as [[[??]|?|?] ?]; by intros [= <- <-].
Qed.

Lemma deadlock_lib s l w' : deadlock s → lib_step l (world s) = Some w' → deadlock (mkSys w' (threads s)).
Proof.
  intros [Hl Hr (k & e & q & Hq & He) Hn Hp Ho].
  assert (Hgo : ∀ w' : DW, locked (backend w') = Some HPause → registered (backend w') = true →
    (∃ q', queue (lib w') = QEvent k None e None :: q') → notified (lib w') = notified (lib (world s)) →
    deadlock (mkSys w' (threads s))).
  { intros w1 H1 H2 (q' & H3) H4. split; try done; [eauto 6|]. cbn. by rewrite H4. }
  destruct l as [p st|id st| |o|o|i o|r i|r i]; cbn [lib_step].
  - case_decide; [|done]. intros [= <-]. apply Hgo; try done. eauto.
  - case_decide; [done|]. intros [= <-]. apply Hgo; try done. eauto.
  - case_decide; [done|]. intros [= <-]. apply Hgo; try done. eauto.
  - unfold receive. destruct (stream _) as [|ev st]; [done|]. destruct (client _) as [k'|]; [|intros [= <-]; apply Hgo; try done; eauto].
    destruct (handleEvent _ _ _ _) as [L|] eqn:Eh; [|done]. intros [= <-].
    assert (HL : notified L = notified (lib (world s)) ∧ ∃ f, queue L = queue (lib (world s)) ++ [f]).
    { unfold handleEvent in Eh. destruct (ctrs _ !! k') as [c|]; [|done].
      destruct ev as [p s0| | |]; cbn in Eh; [|simplify_eq/=; eauto..]. destruct (decide (p = InitFriendlyName)); cbn in Eh; [|simplify_eq/=; eauto].
      destruct (managers _ !! _) as [rw|]; [|done].
      destruct (RestartManager.ShouldRestart _ _ _ _) as [[] rm']; simplify_eq/=; eauto. }
    destruct HL as (H1 & f & H2). apply Hgo; try done. cbn. rewrite H2, Hq. simpl. eauto.
  - unfold run_queue. rewrite Hq. cbn [b_StateChanged daemon_backend]. unfold daemon_StateChanged.
    rewrite Hr, He, Hl. done.
  - unfold run_goro. destruct (goros _ !! i) as [g|]; [|done]. destruct (ctrs _ !! _) as [c|]; [|done].
    destruct (_ ≫= _) as [wt|]; [|done]. set (w1 := upd_lib _ _).
    destruct (RestartManager.status wt); [done| |].
    + destruct (start _ o w1) as [[[er|] w2]|] eqn:E; [..|done]; intros [= <-];
        apply start_keeps_lib in E as (H1 & H2 & H3 & H4); apply Hgo; cbn; rewrite ?H1, ?H3, ?H4; cbn; rewrite ?Hq; eauto.
    + intros [= <-]. apply Hgo; cbn; rewrite ?Hq; cbn; eauto.
  - intros (L & HL & ->)%fmap_Some. unfold manager_step in HL. repeat case_match; simplify_eq. apply Hgo; try done. eauto.
  - intros (L & HL & ->)%fmap_Some. unfold manager_step in HL. repeat case_match; simplify_eq. apply Hgo; try done. eauto.
Qed.

Lemma deadlock_step valid l s s' : deadlock s → sys_step valid l s = Some s' → deadlock s'.
Proof.
  intros Hd. destruct l as [r|i o|l]; cbn [sys_step].
  - intros [= <-]. destruct Hd as [? ? ? ? [k Hp] Ho]. split; try done; cbn [threads].
    + exists k. apply lookup_app_l_Some, Hp.
    + intros i p. rewrite lookup_app. destruct (threads s !! i) eqn:E; [intros [= <-]; eauto|].
      intros Hi _. apply list_lookup_singleton_Some in Hi as [_ <-]. apply handler_waiting.
  - pose proof Hd as [Hl Hr Hq Hn [k1 Hp] Ho]. destruct (decide (i = 1%nat)) as [->|Hi].
    + rewrite Hp. cbn [exec]. by rewrite decide_False.
    + destruct (threads s !! i) as [[a|B x k]|] eqn:Et; [done| |done].
      destruct (exec x o (world s)) as [[b w']|] eqn:E; [|done]. intros [= <-].
      destruct (Ho i _ Et Hi) as [Ha|[Ha Hk]]; [by rewrite wants_lock_blocked in E by (done || by rewrite Hl)|].
      destruct (external_exec _ _ _ _ _ Ha E) as (H1 & H2 & H3). split; cbn [world threads]; rewrite ?H1, ?H2, ?H3; try done.
      * exists k1. by rewrite list_lookup_insert_ne.
      * intros j p Hj Hne. apply list_lookup_insert_Some in Hj as [(-> & <- & _)|(_ & Hj)]; [apply Hk|by eapply Ho].
  - intros (w' & E & ->)%fmap_Some. by eapply deadlock_lib.
Qed.

Lemma deadlock_run valid ls : ∀ s s', deadlock s → run valid ls s = Some s' → deadlock s'.
Proof.
  induction ls as [|l ls IH]; intros s s' Hd; cbn [run]; [by intros [= <-]|].
  destruct (sys_step valid l s) as [s1|] eqn:E; [|done]. apply IH. by eapply deadlock_step.
Qed.

(** C35: Pausing a container can block it for good.  [containerPause] keeps the
    mutex of the container until its event is handled; when the process of an
    exec (a health check, say) ends just before, the event of that exit is
    ahead in the queue and needs the mutex.  Whatever happens then, and
    whatever else is called: the mutex stays taken, the pause does not return,
    and no call that is made later gets past the mutex. *)
Theorem pause_exec_deadlock :
  ∃ s, run all_signals exec_then_pause (box "always") = Some s ∧
  ∀ ls s', run all_signals ls s = Some s' →
    locked (backend (world s')) = Some HPause ∧ result s' 1 = None ∧
    ∀ i, (2 ≤ i)%nat → (i < length (threads s'))%nat → ∃ p, threads s' !! i = Some p ∧ waiting p.
Proof.
  eexists. split; [vm_compute; reflexivity|]. intros ls s' Hrun.
  match type of Hrun with run _ _ ?s = _ => assert (Hd : deadlock s) end.
  { split; cbn; try done; [eauto 6|eauto|]. intros [|[|i]] p Hp Hne; simplify_eq/=; done. }
  apply (deadlock_run _ _ _ _ Hd) in Hrun as [Hl Hr Hq Hn [k Hk] Ho]. split_and!; [done| |].
  - unfold result. by rewrite Hk.
  - intros i Hi Hlt. apply lookup_lt_is_Some_2 in Hlt as [p Hp]. exists p. split; [done|]. eapply Ho; [done|lia].
Qed.

(** ** Restarting *)

(** The process has died and will be restarted, which the daemon does not know
    yet, when the restart is requested. *)
Definition restart_while_dying : list slabel :=
  up ++ dies 1 ++ SCall (RRestart 10) :: turns 1 6 ++ [SLib (LQueue good)] ++ turns 1 5 ++
  [SLib (LCanceled 0 0); SLib (LGoro 0 good); SLib (LQueue good)].

(** A restart can report success and leave the container stopped.  The
    channel that [containerStop] waits for is also closed when the container
    begins to restart on its own; [containerStop] then returns although the
    container counts as running, [containerStart] does nothing for that reason,
    and the automatic restart has been cancelled. *)
Example restart_leaves_stopped :
  ∃ s, run all_signals restart_while_dying (box "always") = Some s ∧
    result s 1 = Some None ∧ events (cont (backend (world s))) = ["start"; "kill"; "die"; "stop"; "restart"; "die"] ∧
    d_running (backend (world s)) = false ∧ procs (env (world s)) = [] ∧ tokens (world s) = 0%nat ∧
    exits (world s) = 0%nat.
Proof. eexists. split; [vm_compute; reflexivity|]. by vm_compute. Qed.

(** An automatic restart that containerd refuses, and a start afterwards. *)
Definition start_after_failed_restart : list slabel :=
  up ++ dies 1 ++ [SLib (LQueue good); SLib (LTimer 0 0); SLib (LGoro 0 (no_start None)); SLib (LQueue good); SCall RStart]
  ++ turns 1 13.

(** The client of libcontainerd keeps a container that it could not restart: it
    has no process, and no event and no goroutine that would start or forget it
    is on the way (exits of other processes may be). *)
Definition exec_exit (e : cevent) : Prop := ∃ id st, e = CExit id st ∧ id ≠ InitFriendlyName.
Definition exec_event (q : qfn) : Prop := ∃ k st, q = QEvent k None st None ∧ SI_State st = StateExitProcess.

Record stale (w : DW) : Prop := {
  sl_client : ∃ k c, client (lib w) = Some k ∧ ctrs (lib w) !! k = Some c ∧ c_restarting c = false;
  sl_procs : procs (env w) = [];
  sl_stream : Forall exec_exit (stream (env w));
  sl_queue : Forall exec_event (queue (lib w));
  sl_goros : goros (lib w) = [];
  sl_running : d_running (backend w) = false
}.

(** What a step has to leave alone. *)
Lemma stale_same (w w' : DW) :
  stale w → client (lib w') = client (lib w) → ctrs (lib w') = ctrs (lib w) → env w' = env w →
  queue (lib w') = queue (lib w) → goros (lib w') = goros (lib w) →
  d_running (backend w') = d_running (backend w) → stale w'.
Proof. intros [] E1 E2 E3 E4 E5 E6. split; by rewrite ?E1, ?E2, ?E3, ?E4, ?E5, ?E6. Qed.

Lemma stale_Create rm o w : stale w → Create rm o w = Some (Some "already active", w).
Proof. intros [(k & c & Hk & Hc & Hr) _ _ _ _ _]. unfold Create. by rewrite Hk, Hc, Hr. Qed.

Lemma stale_exec {B} (a : act B) o w b w' : stale w → exec a o w = Some (b, w') → stale w'.
Proof.
  intros HS. pose proof HS as [(k & c & Hk & Hc & Hr) Hp Hst Hq Hg Hrun].
  destruct a; cbn [exec]; try (by intros (_ & [= <- <-])%region_Some); try (by intros [= <- <-]; apply (stale_same w)).
  - intros [= <- <-]. apply (stale_same w); try done. apply steady_stopHealthchecks.
  - intros (_ & E)%region_Some. unfold killWithSignal in E. change (Running (st w)) with (d_running (backend w)) in E.
    rewrite Hrun in E. destruct (Paused (st w)); by injection E as <- <-.
  - cbv zeta. match goal with |- context [match ?x with _ => _ end] => destruct x as [[ec|e|m]|] end;
      [by intros (_ & [= <- <-])%region_Some|by intros [= <- <-]|by intros (_ & [= <- <-])%region_Some|done].
  - destruct what; intros [= <- <-]; by apply (stale_same w).
  - intros (_ & E)%region_Some. destruct (start_check (st w)); injection E as <- <-; by apply (stale_same w).
  - destruct (manager (backend w)) as [rm|]; [|done]. rewrite stale_Create by done. by intros [= <- <-].
  - intros [= <- <-]. apply (stale_same w); try done. apply (create_exit_code_quiet (cpath (backend w)) desc (cont (backend w))).
  - intros [= <- <-]. apply (stale_same w); try done. apply (start_failed_quiet err (cont (backend w))).
  - destruct (free w); [|done]. destruct (pause_guard _ _); [by intros [= <- <-]|].
    unfold setState. rewrite Hk, Hc, Hp. destruct (decide _); [by intros [= <- <-]|].
    destruct (o_err o); [by intros [= <- <-]|]. by rewrite decide_True.
  - destruct (decide _); [|done]. intros [= <- <-]. by apply (stale_same w).
  - intros (_ & E)%region_Some. unfold SetRemovalInProgress in E.
    destruct (RemovalInProgress (st w)); injection E as <- <-; by apply (stale_same w).
  - intros (_ & [= <- <-])%region_Some. by apply (stale_same w).
  - intros (_ & [= <- <-])%region_Some. by apply (stale_same w).
  - destruct (rmLink name _ (backend w)) as [r d] eqn:E. intros [= <- <-]. apply (stale_same w); try done.
    unfold rmLink in E. repeat case_match; by simplify_eq/=.
Qed.

Lemma exec_exit_StateChanged o e d r d' :
  SI_State e = StateExitProcess → daemon_StateChanged o e d = Some (r, d') → d_running d' = d_running d.
Proof.
  intros He. unfold daemon_StateChanged, StateChanged. rewrite He.
  destruct (negb (registered d)); [by intros [= <- <-]|]. destruct (_ && _); [done|].
  repeat case_match; intros; by simplify_eq/=.
Qed.

Lemma stale_lib l w w' : stale w → lib_step l w = Some w' → stale w'.
Proof.
  intros HS. pose proof HS as [(k & c & Hk & Hc & Hr) Hp Hst Hq Hg Hrun].
  destruct l as [p z|id z| |o|o|i o|r i|r i]; cbn [lib_step].
  - rewrite Hp, decide_False by apply not_elem_of_nil. done.
  - case_decide; [done|]. intros [= <-]. split; try done; [by exists k, c|].
    cbn. apply Forall_app. split; [done|]. apply Forall_singleton. by exists id, z.
  - by rewrite Hp.
  - unfold receive. destruct (stream (env w)) as [|ev s] eqn:Es; [done|].
    apply Forall_cons in Hst as [(id & z & -> & Hid) Hst]. rewrite Hk. unfold handleEvent. rewrite Hc.
    cbn [event_state]. rewrite decide_False by done. cbn [SI_State]. intros [= <-].
    split; try done; [by exists k, c|]. cbn. apply Forall_app. split; [done|]. apply Forall_singleton. by eexists _, _.
  - unfold run_queue. destruct (queue (lib w)) as [|q qs] eqn:Eq; [done|].
    apply Forall_cons in Hq as [(k' & e & -> & He) Hq]. cbn [b_StateChanged daemon_backend].
    destruct (daemon_StateChanged o e (backend w)) as [[r d]|] eqn:E; [|done]. intros [= <-].
    split; try done; [by exists k, c|]. cbn. by rewrite (exec_exit_StateChanged _ _ _ _ _ He E).
  - unfold run_goro. by rewrite Hg.
  - intros (L & HL & ->)%fmap_Some. unfold manager_step in HL. repeat case_match; simplify_eq. by apply (stale_same w).
  - intros (L & HL & ->)%fmap_Some. unfold manager_step in HL. repeat case_match; simplify_eq. by apply (stale_same w).
Qed.

Lemma stale_run valid ls : ∀ s s', stale (world s) → run valid ls s = Some s' → stale (world s').
Proof.
  induction ls as [|l ls IH]; intros s s' Hd; cbn [run]; [by intros [= <-]|].
  destruct (sys_step valid l s) as [s1|] eqn:E; [|done]. apply IH.
  destruct l as [r|i o|l]; cbn [sys_step] in E.
  - by injection E as <-.
  - destruct (threads s !! i) as [[a|B x k]|]; [done| |done].
    destruct (exec x o (world s)) as [[b w']|] eqn:Ex; [|done]. injection E as <-. by eapply stale_exec.
  - apply fmap_Some in E as (w' & E & ->). by eapply stale_lib.
Qed.

(** C36: A container whose automatic restart failed never runs again.  The failed
    restart leaves its object in the client of libcontainerd; from then on, in
    every interleaving of all calls and events, the container has no process
    and does not count as running, and every [Create] (which every start calls)
    is refused as already active. *)
Theorem failed_restart_blocks_start (valid : Z → bool) (s s' : Sys) (ls : list slabel) :
  stale (world s) → run valid ls s = Some s' →
  procs (env (world s')) = [] ∧ d_running (backend (world s')) = false ∧
  ∀ rm o, Create rm o (world s') = Some (Some "already active", world s').
Proof.
  intros Hs Hrun. pose proof (stale_run valid ls s s' Hs Hrun) as Hs'.
  split_and!; [apply Hs'|apply Hs'|]. intros rm o. by apply stale_Create.
Qed.

(** A run that ends there: the first start after the failed restart is refused,
    and so is the next one. *)
Lemma failed_restart_blocks_start_witness :
  ∃ s s', run all_signals start_after_failed_restart (box "always") = Some s ∧
    result s 1 = Some (Some (ErrString "already active")) ∧
    run all_signals (SCall RStart :: turns 2 13) s = Some s' ∧
    result s' 2 = Some (Some (ErrString "already active")) ∧ procs (env (world s')) = [] ∧
    d_running (backend (world s')) = false.
Proof.
  eexists _, _. split; [vm_compute; reflexivity|].
  match goal with |- _ ∧ run _ _ ?s = _ ∧ _ => set (s0 := s) end.
  assert (stale (world s0)) as Hs by (split; [by eexists _, _|reflexivity|constructor|constructor|reflexivity|reflexivity]).
  assert (run all_signals (SCall RStart :: turns 2 13) s0 = Some (default s0 (run all_signals (SCall RStart :: turns 2 13) s0))) as Hrun
    by (vm_compute; reflexivity).
  destruct (failed_restart_blocks_start all_signals s0 _ _ Hs Hrun) as (H1 & H2 & _).
  split; [vm_compute; reflexivity|]. split; [exact Hrun|]. split; [vm_compute; reflexivity|]. split; [exact H1|exact H2].
Defined.

(** ** Failures after the process was made *)

Definition log_fails : oracle := mkOracle 1 None (Some "log driver") false (Started 42) None 0.

(** A start whose log driver fails leaves the process running, unknown to the
    daemon and to the client; its exit is dropped. *)
Example log_failure_leaves_process :
  ∃ s, run all_signals (SCall RStart :: turns 0 9 ++ [SThread 0 log_fails] ++ turns 0 3) (box "no") = Some s ∧
    result s 0 = Some (Some (ErrString "log driver")) ∧ procs (env (world s)) = [42] ∧
    d_running (backend (world s)) = false ∧ client (lib (world s)) = None.
Proof. eexists. split; [vm_compute; reflexivity|]. by vm_compute. Qed.

(** A restart that cannot read the bundle reports no error: the container counts
    as restarting, and nothing is on the way that would change that. *)
Example unreadable_bundle_restarts_forever :
  ∃ s, run all_signals (up ++ dies 1 ++ [SLib (LQueue good); SLib (LTimer 0 0);
         SLib (LGoro 0 (mkOracle 1 None None false SpecFails None 0))]) (box "always") = Some s ∧
    Restarting (st (world s)) = true ∧ tokens (world s) = 0%nat ∧ exits (world s) = 0%nat ∧ client (lib (world s)) = None.
Proof. eexists. split; [vm_compute; reflexivity|]. by vm_compute. Qed.

(** The container object, with its note of an out-of-memory event, is used again
    for a restart: all later exits are reported as out of memory. *)
Example oom_is_remembered :
  ∃ s, run all_signals (up ++ [SLib LOOM; SLib (LReceive good); SLib (LQueue good)] ++ dies 137 ++
         [SLib (LQueue good); SLib (LTimer 0 0); SLib (LGoro 0 good)] ++ dies 0 ++ [SLib (LQueue good)]) (box "always") = Some s ∧
    OOMKilled (st (world s)) = true ∧ exitCode (st (world s)) = 0.
Proof. eexists. split; [vm_compute; reflexivity|]. by vm_compute. Qed.

(** [killPossiblyDeadProcess] compares the error with ESRCH, which
    [killWithSignal] never returns. *)
Lemma killWithSignal_not_ESRCH sig o w : (killWithSignal sig o w).1 ≠ Some ESRCH.
Proof. unfold killWithSignal. by repeat case_match. Qed.

(** ** Witnesses *)

Lemma good_clean : clean good.
Proof. by split; [|intros pid [= <-]]. Qed.

Lemma turns_clean i n : Forall clean_slabel (turns i n).
Proof. apply Forall_replicate, good_clean. Qed.

Definition remove_all : list slabel :=
  up ++ [SCall (RRm "box" (mkRm true false false)); SCall (RRm "box" (mkRm true false false))] ++ turns 1 5 ++ turns 2 1 ++
  dies 9 ++ [SLib (LQueue good)] ++ turns 1 17.

Lemma remove_all_clean : Forall clean_slabel remove_all.
Proof.
  unfold remove_all, up, dies. repeat (apply Forall_app; split); repeat (constructor; try done); try apply turns_clean; apply good_clean.
Qed.

Lemma box_names : Registrar.Inv (Reserve "/box" "c" NewRegistrar).2.
Proof. apply Inv_Reserve, Inv_New. Qed.


Lemma removed_once_witness :
  ∃ s, run all_signals remove_all (box "no") = Some s ∧ result s 1 = Some None ∧ result s 2 = Some None ∧
    destroys (events (cont (backend (world s)))) = 1%nat ∧
    (registered (backend (world s)) = false → d_dead (backend (world s)) = true ∧ nameless (backend (world s))).
Proof.
  eexists. split; [vm_compute; reflexivity|]. split_and!; [by vm_compute..|].
  apply (removed_once all_signals "c" None (mkPolicy "no" 0) (Reserve "/box" "c" NewRegistrar).2 "/bin/sh" 15 true false remove_all);
    [apply box_names|apply remove_all_clean|vm_compute; reflexivity].
Defined.

(** A container that is stopped while it runs, and the end of its process. *)
Definition stop_accepted : list slabel := up ++ SCall (RStop 10) :: turns 1 5.

