(* ===== verification/DeviceIds.v ===== *)
(** * Device identifiers of the thin pool

    daemon/graphdriver/devmapper/deviceset.go keeps the identifiers of thin
    devices in a bitmap of [deviceIDMapSz] bytes and hands them out in a circle.
    This file has the bitmap with its three operations, the search for the next
    free identifier, and their meaning: the bitmap stands for the set of
    identifiers whose bit is set, and the search gives the first free one after
    the last one given, when there is one. *)

From S2P Require Import Prelude.
Open Scope Z_scope.

(** ** Loops that stop early *)

(** [until n f s]: at most [n] turns of [f], which gives the next state or the
    result of the loop.  [until_pos] is the same loop with a binary count, so
    that it can be run for the 2^24 turns of the source. *)
Fixpoint until {S R} (n : nat) (f : S → S + R) (s : S) : S + R :=
  match n with
  | O => inl s
  | Datatypes.S n' => match f s with inl s' => until n' f s' | inr r => inr r end
  end.

Fixpoint until_pos {S R} (p : positive) (f : S → S + R) (s : S) : S + R :=
  match p with
  | xH => f s
  | xO q => match until_pos q f s with inl s' => until_pos q f s' | inr r => inr r end
  | xI q =>
      match f s with
      | inl s1 => match until_pos q f s1 with inl s2 => until_pos q f s2 | inr r => inr r end
      | inr r => inr r
      end
  end.

Section until.
Context {S R : Type} (f : S → S + R).

Lemma until_add n m s :
  until (n + m) f s = match until n f s with inl s' => until m f s' | inr r => inr r end.
Proof. revert s. induction n as [|n IH]; intros s; simpl; [done|]. destruct (f s); [apply IH|done]. Qed.

Lemma until_pos_spec p s : until_pos p f s = until (Pos.to_nat p) f s.
Proof.
  revert s. induction p as [p IH|p IH|]; intros s; simpl until_pos.
  - rewrite Pos2Nat.inj_xI. simpl. destruct (f s) as [s1|]; [|done].
    rewrite Nat.add_0_r, until_add, IH. destruct (until _ f s1); [apply IH|done].
  - rewrite Pos2Nat.inj_xO. simpl. rewrite Nat.add_0_r, until_add, IH.
    destruct (until _ f s); [apply IH|done].
  - simpl. by destruct (f s).
Qed.
End until.

(** ** The bitmap *)

Definition maxDeviceID : Z := 0xffffff.
Definition deviceIDMapSz : Z := (maxDeviceID + 1) `quot` 8.

(** The slice of bytes: a byte that was not written is 0; the accesses that
    would be out of the range of the slice are [None], a run-time panic. *)
Abbreviation idmap := (gmap Z Z).

Definition in_slice (i : Z) : bool := (0 <=? i) && (i <? deviceIDMapSz).

Definition get_byte (m : idmap) (i : Z) : option Z :=
  if in_slice i then Some (default 0 (m !! i)) else None.

Definition set_byte (m : idmap) (i : Z) (b : Z) : option idmap :=
  if in_slice i then Some (<[i := b]> m) else None.

(** [1 << uint(i)] in a byte, where [i := deviceID % 8]: a negative remainder
    converts to a shift of more than eight places. *)
Definition bit_mask (deviceID : Z) : Z :=
  let i := deviceID `rem` 8 in
  if i <? 0 then 0 else Z.land (Z.shiftl 1 i) 255.

Definition markDeviceIDUsed (m : idmap) (deviceID : Z) : option idmap :=
  b ← get_byte m (deviceID `quot` 8);
  set_byte m (deviceID `quot` 8) (Z.lor b (bit_mask deviceID)).

Definition markDeviceIDFree (m : idmap) (deviceID : Z) : option idmap :=
  b ← get_byte m (deviceID `quot` 8);
  set_byte m (deviceID `quot` 8) (Z.land b (Z.lxor 255 (bit_mask deviceID))).

Definition isDeviceIDFree (m : idmap) (deviceID : Z) : option bool :=
  b ← get_byte m (deviceID `quot` 8);
  Some (if Z.land b (bit_mask deviceID) =? 0 then true else false).

(** ** The search *)

Definition incNextDeviceID (next : Z) : Z := Z.land (next + 1) maxDeviceID.

(** One turn of the loop: [inr None] is a panic, [inr (Some (id, m))] the
    identifier found and the bitmap with its bit set. *)
Definition search_turn (m : idmap) (next : Z) : Z + option (Z * idmap) :=
  match isDeviceIDFree m next with
  | None => inr None
  | Some true => inr (m' ← markDeviceIDUsed m next; Some (next, m'))
  | Some false => inl (incNextDeviceID next)
  end.

(** [inl next]: no identifier was free, and [NextDeviceID] is [next]. *)
Definition getNextFreeDeviceID (m : idmap) (next : Z) : Z + option (Z * idmap) :=
  until_pos (Z.to_pos (maxDeviceID + 1)) (search_turn m) (incNextDeviceID next).

(** ** What the bitmap means *)

Definition valid_id (i : Z) : Prop := 0 ≤ i ≤ maxDeviceID.

#[global] Instance valid_id_dec i : Decision (valid_id i).
Proof. unfold valid_id. apply _. Defined.

(** The bit of an identifier. *)
Definition used (m : idmap) (i : Z) : Prop :=
  Z.testbit (default 0 (m !! (i `div` 8))) (i `mod` 8) = true.

#[global] Instance used_dec m i : Decision (used m i).
Proof. unfold used. apply _. Defined.

Section bitmap.
Implicit Types (m : idmap) (i j : Z).

Lemma valid_slice i : valid_id i → in_slice (i `quot` 8) = true.
Proof.
  intros [H0 H1]. unfold in_slice, deviceIDMapSz, maxDeviceID in *.
  rewrite (Z.quot_div_nonneg i 8) by lia. apply andb_true_iff.
  change ((16777215 + 1) `quot` 8) with 2097152.
  rewrite Z.leb_le, Z.ltb_lt. split; [by apply Z.div_pos|]. apply Z.div_lt_upper_bound; lia.
Qed.

Lemma valid_mask i : valid_id i → bit_mask i = 2 ^ (i `mod` 8).
Proof.
  intros [H0 _]. unfold bit_mask. rewrite Z.rem_mod_nonneg by lia.
  pose proof (Z.mod_pos_bound i 8). rewrite (proj2 (Z.ltb_ge _ _)) by lia.
  rewrite Z.shiftl_1_l. change 255 with (Z.ones 8). rewrite Z.land_ones by lia.
  apply Z.mod_small. split; [lia|]. change (2 ^ 8) with 256.
  change 256 with (2 ^ 8). apply Z.pow_lt_mono_r; lia.
Qed.

Lemma mask_bit k j : 0 ≤ k → 0 ≤ j → Z.testbit (2 ^ k) j = bool_decide (j = k).
Proof.
  intros Hk Hj. case_bool_decide as H.
  - subst. by apply Z.pow2_bits_true.
  - apply Z.pow2_bits_false. lia.
Qed.

Lemma mod8 i : 0 ≤ i `mod` 8 < 8.
Proof. apply Z.mod_pos_bound. lia. Qed.

(** An identifier is its byte and its bit. *)
Lemma same_bit i j : i `div` 8 = j `div` 8 → i `mod` 8 = j `mod` 8 → i = j.
Proof.
  intros Hd Hm. rewrite (Z.div_mod i 8), (Z.div_mod j 8) by lia. by rewrite Hd, Hm.
Qed.

Lemma isDeviceIDFree_spec m i :
  valid_id i → isDeviceIDFree m i = Some (negb (bool_decide (used m i))).
Proof.
  intros Hi. unfold isDeviceIDFree, get_byte. rewrite valid_slice by done. simpl.
  rewrite valid_mask by done. rewrite (Z.quot_div_nonneg i 8) by (unfold valid_id in Hi; lia).
  f_equal. unfold used. pose proof (mod8 i).
  set (b := default 0 (m !! (i `div` 8))).
  assert (Z.land b (2 ^ (i `mod` 8)) = 0 ↔ Z.testbit b (i `mod` 8) = false) as Hz.
  { split; intros Hb.
    - assert (Z.testbit (Z.land b (2 ^ (i `mod` 8))) (i `mod` 8) = false) as Ht
        by (rewrite Hb; apply Z.testbit_0_l).
      rewrite Z.land_spec, mask_bit, bool_decide_true in Ht by lia. by destruct (Z.testbit b _).
    - apply Z.bits_inj'. intros k Hk. rewrite Z.land_spec, Z.testbit_0_l, mask_bit by lia.
      case_bool_decide; [subst; rewrite Hb|]; by rewrite ?andb_false_r. }
  destruct (Z.eqb_spec (Z.land b (2 ^ (i `mod` 8))) 0) as [He|Hne]; case_bool_decide as Hd; try done.
  - apply Hz in He. congruence.
  - destruct Hne. apply Hz. by destruct (Z.testbit b _).
Qed.

(** What a write of the byte of [i] does to the bits. *)
Lemma used_insert m i j b :
  used (<[i `div` 8 := b]> m) j ↔
  if decide (j `div` 8 = i `div` 8) then Z.testbit b (j `mod` 8) = true else used m j.
Proof.
  unfold used. case_decide as Hd.
  - by rewrite Hd, lookup_insert_eq.
  - by rewrite lookup_insert_ne.
Qed.

Lemma markDeviceIDUsed_spec m i :
  valid_id i → ∃ m', markDeviceIDUsed m i = Some m' ∧ ∀ j, used m' j ↔ j = i ∨ used m j.
Proof.
  intros Hi. unfold markDeviceIDUsed, get_byte, set_byte. rewrite valid_slice by done. simpl.
  eexists. split; [done|]. intros j. rewrite valid_mask by done.
  rewrite (Z.quot_div_nonneg i 8) by (unfold valid_id in Hi; lia).
  rewrite used_insert. pose proof (mod8 i). pose proof (mod8 j). case_decide as Hd.
  - rewrite Z.lor_spec, mask_bit by lia. unfold used. rewrite Hd.
    case_bool_decide as Hm; rewrite ?orb_true_r, ?orb_false_r; [|naive_solver].
    split; [|done]. intros _. left. by apply same_bit.
  - naive_solver.
Qed.

Lemma markDeviceIDFree_spec m i :
  valid_id i → ∃ m', markDeviceIDFree m i = Some m' ∧ ∀ j, used m' j ↔ j ≠ i ∧ used m j.
Proof.
  intros Hi. unfold markDeviceIDFree, get_byte, set_byte. rewrite valid_slice by done. simpl.
  eexists. split; [done|]. intros j. rewrite valid_mask by done.
  rewrite (Z.quot_div_nonneg i 8) by (unfold valid_id in Hi; lia).
  rewrite used_insert. pose proof (mod8 i). pose proof (mod8 j). case_decide as Hd.
  - rewrite Z.land_spec, Z.lxor_spec, mask_bit by lia. unfold used. rewrite Hd.
    change 255 with (Z.ones 8). rewrite Z.ones_spec_low by lia.
    case_bool_decide as Hm; simpl; rewrite ?andb_false_r, ?andb_true_r.
    + split; [done|]. intros [Hne _]. destruct Hne. by apply same_bit.
    + naive_solver.
  - naive_solver.
Qed.
End bitmap.

(** ** The circle of identifiers *)

Definition ids : Z := maxDeviceID + 1.

Lemma incNextDeviceID_mod n : incNextDeviceID n = (n + 1) `mod` ids.
Proof. unfold incNextDeviceID. change maxDeviceID with (Z.ones 24). by rewrite Z.land_ones. Qed.

Lemma mod_valid n : valid_id (n `mod` ids).
Proof. pose proof (Z.mod_pos_bound n ids). unfold valid_id, ids, maxDeviceID in *. lia. Qed.

Lemma incNextDeviceID_valid n : valid_id (incNextDeviceID n).
Proof. rewrite incNextDeviceID_mod. apply mod_valid. Qed.

(** [k] turns from [n]: all [k] identifiers from [n] on are used, or the first
    free one is found. *)
Lemma until_search m k n :
  valid_id n →
  (∃ d m', 0 ≤ d < Z.of_nat k ∧ markDeviceIDUsed m ((n + d) `mod` ids) = Some m' ∧
     until k (search_turn m) n = inr (Some ((n + d) `mod` ids, m')) ∧
     ¬ used m ((n + d) `mod` ids) ∧ ∀ e, 0 ≤ e < d → used m ((n + e) `mod` ids)) ∨
  (until k (search_turn m) n = inl ((n + Z.of_nat k) `mod` ids) ∧
   ∀ e, 0 ≤ e < Z.of_nat k → used m ((n + e) `mod` ids)).
Proof.
  revert n. induction k as [|k IH]; intros n Hn.
  { right. split; [|lia]. simpl. f_equal. rewrite Z.add_0_r, Z.mod_small; [done|].
    unfold valid_id, ids in *. lia. }
  assert ((n + 0) `mod` ids = n) as H0.
  { rewrite Z.add_0_r, Z.mod_small; [done|]. unfold valid_id, ids in *. lia. }
  simpl. unfold search_turn at 1 3. rewrite isDeviceIDFree_spec by done. case_bool_decide as Hu; simpl.
  - rewrite incNextDeviceID_mod.
    assert (∀ e, ((n + 1) `mod` ids + e) `mod` ids = (n + (e + 1)) `mod` ids) as Hs.
    { intros e. rewrite Z.add_mod_idemp_l by done. f_equal. lia. }
    destruct (IH ((n + 1) `mod` ids)) as [(d & m' & Hd & Hm & Hr & Hf & Ha)|[Hr Ha]];
      [apply mod_valid| |].
    + left. exists (d + 1), m'. rewrite Hs in Hm, Hr, Hf. split_and!; [lia|lia|done|done|done|].
      intros e He. destruct (decide (e = 0)) as [->|]; [by rewrite H0|].
      replace e with (e - 1 + 1) by lia. rewrite <-Hs. apply Ha. lia.
    + right. rewrite Hr, Hs. split; [do 2 f_equal; lia|].
      intros e He. destruct (decide (e = 0)) as [->|]; [by rewrite H0|].
      replace e with (e - 1 + 1) by lia. rewrite <-Hs. apply Ha. lia.
  - left. destruct (markDeviceIDUsed_spec m n Hn) as (m' & Hm & _).
    exists 0, m'. rewrite H0, Hm. simpl. split_and!; try done; lia.
Qed.

(** Every identifier is on the circle. *)
Lemma circle n i : valid_id i → ∃ e, 0 ≤ e < ids ∧ (n + e) `mod` ids = i.
Proof.
  intros Hi. exists ((i - n) `mod` ids). split; [by apply Z.mod_pos_bound|].
  rewrite Z.add_mod_idemp_r by done. replace (n + (i - n)) with i by lia.
  apply Z.mod_small. unfold valid_id, ids in *. lia.
Qed.

(** The search: an identifier that was free and is now used, at the least
    distance from the last one given; or every identifier is used. *)
Lemma getNextFreeDeviceID_spec m next :
  (∃ d i m', getNextFreeDeviceID m next = inr (Some (i, m')) ∧
     i = (next + 1 + d) `mod` ids ∧ valid_id i ∧ ¬ used m i ∧
     (∀ j, used m' j ↔ j = i ∨ used m j) ∧
     0 ≤ d ∧ ∀ e, 0 ≤ e < d → used m ((next + 1 + e) `mod` ids)) ∨
  (getNextFreeDeviceID m next = inl (incNextDeviceID next) ∧ ∀ i, valid_id i → used m i).
Proof.
  unfold getNextFreeDeviceID. rewrite until_pos_spec.
  assert (Z.of_nat (Pos.to_nat (Z.to_pos (maxDeviceID + 1))) = ids) as Hk
    by (rewrite positive_nat_Z; done).
  set (k := Pos.to_nat _) in *. clearbody k. rewrite incNextDeviceID_mod.
  assert (∀ e, ((next + 1) `mod` ids + e) `mod` ids = (next + 1 + e) `mod` ids) as Hs
    by (intros e; by rewrite Z.add_mod_idemp_l).
  destruct (until_search m k ((next + 1) `mod` ids)) as [(d & m' & Hd & Hm & Hr & Hf & Ha)|[Hr Ha]];
    [apply mod_valid| |]; rewrite Hr.
  - left. rewrite Hs in *. exists d, ((next + 1 + d) `mod` ids), m'.
    destruct (markDeviceIDUsed_spec m _ (mod_valid (next + 1 + d))) as (m2 & Hm2 & Hu).
    assert (m2 = m') as -> by congruence.
    split_and!; [done|done|apply mod_valid|done|done|lia|]. intros e He. rewrite <-Hs. by apply Ha.
  - right. split.
    + f_equal. rewrite Hs, Hk. replace (next + 1 + ids) with (next + 1 + 1 * ids) by lia.
      by rewrite Z.mod_add.
    + intros i Hi. destruct (circle ((next + 1) `mod` ids) i Hi) as (e & He & <-). apply Ha. lia.
Qed.

(** ** How many identifiers are free *)

Definition free (m : idmap) : nat := length (filter (λ i, ¬ used m i) (seqZ 0 ids)).

Lemma free_bound m : (free m ≤ Z.to_nat ids)%nat.
Proof. unfold free. rewrite length_filter, length_seqZ. done. Qed.

Lemma filter_length_lt {A} (P Q : A → Prop) `{!∀ x, Decision (P x), !∀ x, Decision (Q x)} l a :
  (∀ x, Q x → P x) → a ∈ l → P a → ¬ Q a → (length (filter Q l) < length (filter P l))%nat.
Proof.
  intros HQP Ha HP HQ.
  assert (∀ l', (length (filter Q l') ≤ length (filter P l'))%nat) as Hle.
  { induction l' as [|x l' IH]; simpl; [done|]. rewrite !filter_cons.
    repeat case_decide; simpl; try lia. naive_solver. }
  induction Ha as [x l'|x y l' Ha IH]; rewrite !filter_cons.
  - rewrite (decide_True (P:=P _)), (decide_False (P:=Q _)) by done. simpl. specialize (Hle l'). lia.
  - specialize (IH HP HQ). repeat case_decide; simpl; try lia. naive_solver.
Qed.

Lemma free_decreases m m' i :
  valid_id i → ¬ used m i → (∀ j, used m' j ↔ j = i ∨ used m j) → (free m' < free m)%nat.
Proof.
  intros Hi Hn Hu. apply (filter_length_lt _ _ _ i).
  - intros x Hx Hm. apply Hx, Hu. by right.
  - apply elem_of_seqZ. unfold valid_id, ids in *. lia.
  - done.
  - intros H. apply H, Hu. by left.
Qed.
