(* ===== verification/DeviceSet.v ===== *)
(** * The device set of the device-mapper driver

    daemon/graphdriver/devmapper/deviceset.go: one thin device per layer, kept
    in three places that have to agree, the map of [devInfo] in memory, one
    metadata file per device, and the thin pool of the kernel.  A file that
    names the open transaction, together with the transaction number that the
    pool keeps, is what a restart uses to undo an operation that was cut short.

    A call to the file system or to the kernel goes through [ext]: an oracle
    says whether it succeeds, fails without an effect, or is never reached
    because the process dies.  [Panic crash] is that death: nothing that follows
    runs, deferred functions included, and what is left is the disk and the
    pool.  The operations are sequential: what one of them does between taking
    the locks is one transition (the source gives the lock of the set up while
    it sleeps in [removeDevice] and [cancelDeferredRemoval]).  The name of an
    activated device is the file name of its metadata: the prefix that the
    source puts before it is the same for all.  The transaction number counts
    operations on the pool and is unbounded. *)

From stdpp Require Import pretty.
From S2P Require Import Prelude GoStrings DeviceIds.
Open Scope Z_scope.

(** ** The disk and the pool *)

Record devInfo := mkInfo {
  DeviceID : Z;
  Size : Z;
  info_tid : Z;       (* [TransactionID] of the device *)
  Initialized : bool;
  Deleted : bool;
}.

Record transaction := mkTx { OpenTransactionID : Z; DeviceIDHash : string; tx_id : Z }.

(** What a file of the metadata directory holds: the JSON of a device, of the
    transaction, of the set, or an unfinished temporary file. *)
Inductive content :=
| FDev (i : devInfo)
| FTx (t : transaction)
| FSet (next : Z) (uuid fs : string)
| FTmp.

Record disk := mkDisk {
  files : gmap string content;
  tmps : N;                            (* temporary files made so far *)
  old : option (gmap string devInfo);  (* the metadata file of old versions *)
}.

(** What is on a thin device, as far as the source looks at it. *)
Record blk := mkBlk { b_uuid : string; b_fs : string; b_data : Z }.

Record actdev := mkAct { a_id : Z; a_open : nat; a_deferred : bool }.

Record pool := mkPool {
  thin : gmap Z blk;           (* the thin devices, by identifier *)
  ptid : Z;                    (* the transaction number of the pool *)
  active : gmap string actdev; (* the activated devices, by name *)
  data_used : Z; data_total : Z;
  meta_used : Z; meta_total : Z;
}.

#[global] Instance devInfo_eq_dec : EqDecision devInfo.
Proof. solve_decision. Defined.
#[global] Instance transaction_eq_dec : EqDecision transaction.
Proof. solve_decision. Defined.
#[global] Instance content_eq_dec : EqDecision content.
Proof. solve_decision. Defined.
#[global] Instance blk_eq_dec : EqDecision blk.
Proof. solve_decision. Defined.

(** ** Errors and calls *)

Inductive dmerr := ErrBusy | ErrEnxio | ErrDeviceIDExists | ErrNotExist | ErrOther.

Inductive derr :=
| ECall (e : dmerr)                       (* the error of a call, as it is *)
| EWrap (e : derr)                        (* fmt.Errorf around another error *)
| EUnknownDevice (hash : string)
| ENoFreeID
| ENoSpace
| EAlreadyExists (hash : string) (deleted : bool)
| EBaseDeleted (hash : string)
| EMarkedDeleted (hash : string)
| EOption (key : string)
| EBadSize
| ETooSmall
| EPoolUsed
| EPoolTransaction
| EUUID
| EFilesystem.

#[global] Instance dmerr_eq_dec : EqDecision dmerr.
Proof. solve_decision. Defined.
#[global] Instance derr_eq_dec : EqDecision derr.
Proof. solve_decision. Defined.

Inductive call :=
| CRead (f : string) | CReadDir | CLstat (f : string)
| CTempFile | CWrite | CSync | CClose | CRename (f : string) | CRemove (f : string)
| CStatus | CSetTransactionID
| CCreateThin (id : Z) | CCreateSnap (id : Z) | CDeleteThin (id : Z)
| CGetInfo (name : string) | CActivate (name : string)
| CRemoveDevice (name : string) | CRemoveDeferred (name : string) | CCancelDeferred (name : string)
| CSuspend (name : string) | CResume (name : string) | CDiscard (name : string)
| CExec (cmd : string) | CMkdir | CMount | CUnmount.

Inductive fate := Go | Fault (e : dmerr) | Crash.

(** ** The set *)

Record DeviceSet := mkSet {
  Devices : gmap string devInfo;
  TransactionID : Z;
  NextDeviceID : Z;
  deviceIDMap : idmap;
  txn : transaction;
  filesystem : string;
  BaseDeviceUUID : string;
  BaseDeviceFilesystem : string;
  nrDeletedDevices : Z;
}.

(** The options of the set and what the platform gives. *)
Record config := mkConfig {
  baseFsSize : Z;
  userBaseSize : bool;
  doBlkDiscard : bool;
  thinPoolDevice : string;
  deferredRemove : bool;
  deferredDelete : bool;
  minFreeSpacePercent : Z;
  default_fs : string;     (* [determineDefaultFS] *)
  new_uuid : string;       (* what mkfs writes on a device *)
}.

Record world := mkWorld { ds : DeviceSet; dk : disk; pl : pool; clk : nat }.

Abbreviation D := (ST world derr).

Definition crash : string := "crash".

Definition NewDeviceSet (fs : string) : DeviceSet :=
  mkSet ∅ 0 0 ∅ (mkTx 0 "" 0) fs "" "" 0.

Definition set_ds (f : DeviceSet → DeviceSet) : D unit :=
  st_modify (λ w, mkWorld (f (ds w)) (dk w) (pl w) (clk w)).

Definition set_Devices (f : gmap string devInfo → gmap string devInfo) : D unit := set_ds (λ d,
  mkSet (f (Devices d)) (TransactionID d) (NextDeviceID d) (deviceIDMap d) (txn d) (filesystem d)
    (BaseDeviceUUID d) (BaseDeviceFilesystem d) (nrDeletedDevices d)).
Definition set_TransactionID (t : Z) : D unit := set_ds (λ d,
  mkSet (Devices d) t (NextDeviceID d) (deviceIDMap d) (txn d) (filesystem d)
    (BaseDeviceUUID d) (BaseDeviceFilesystem d) (nrDeletedDevices d)).
Definition set_ids (n : Z) (m : idmap) : D unit := set_ds (λ d,
  mkSet (Devices d) (TransactionID d) n m (txn d) (filesystem d)
    (BaseDeviceUUID d) (BaseDeviceFilesystem d) (nrDeletedDevices d)).
Definition set_txn (f : transaction → transaction) : D unit := set_ds (λ d,
  mkSet (Devices d) (TransactionID d) (NextDeviceID d) (deviceIDMap d) (f (txn d)) (filesystem d)
    (BaseDeviceUUID d) (BaseDeviceFilesystem d) (nrDeletedDevices d)).
Definition set_filesystem (s : string) : D unit := set_ds (λ d,
  mkSet (Devices d) (TransactionID d) (NextDeviceID d) (deviceIDMap d) (txn d) s
    (BaseDeviceUUID d) (BaseDeviceFilesystem d) (nrDeletedDevices d)).
Definition set_base (uuid fs : string) : D unit := set_ds (λ d,
  mkSet (Devices d) (TransactionID d) (NextDeviceID d) (deviceIDMap d) (txn d) (filesystem d)
    uuid fs (nrDeletedDevices d)).
(** [nrDeletedDevices] is a [uint]. *)
Definition set_nrDeleted (f : Z → Z) : D unit := set_ds (λ d,
  mkSet (Devices d) (TransactionID d) (NextDeviceID d) (deviceIDMap d) (txn d) (filesystem d)
    (BaseDeviceUUID d) (BaseDeviceFilesystem d) (f (nrDeletedDevices d) `mod` 2 ^ 64)).

(** An unsigned 64-bit integer. *)
Definition u64 (z : Z) : Z := z `mod` 2 ^ 64.

(** [defer]: the deferred call runs when the body returns, with or without an
    error; its own error is dropped. *)
Definition deferred {A} (m : D A) (cleanup : D unit) : D A := λ w,
  match m w with
  | (Panic s, w') => (Panic s, w')
  | (r, w') => match cleanup w' with
               | (Panic s, w'') => (Panic s, w'')
               | (_, w'') => (r, w'')
               end
  end.

(** An error that is logged and dropped. *)
Definition ignore (m : D unit) : D unit := _ ← st_try m; mret tt.

(** The caller adds a message to the error. *)
Definition wrap {A} (m : D A) : D A := r ← st_try m;
  match r with inl a => mret a | inr e => st_fail (EWrap e) end.

Section ops.
Context (c : config) (orc : nat → call → fate).
Context (RAMInBytes : string → option Z) (unicode_lower : string → string).

(** A call outside the program. *)
Definition ext {A} (k : call) (act : disk → pool → (A + dmerr) * disk * pool) : D A := λ w,
  let w1 := mkWorld (ds w) (dk w) (pl w) (S (clk w)) in
  match orc (clk w) k with
  | Crash => (Panic crash, w1)
  | Fault e => (Err (ECall e), w1)
  | Go => let '(r, d, p) := act (dk w) (pl w) in
          let w2 := mkWorld (ds w) d p (S (clk w)) in
          match r with inl a => (Ok a, w2) | inr e => (Err (ECall e), w2) end
  end.

(** A call whose effect is not part of the model. *)
Definition ext_unit (k : call) : D unit := ext k (λ d p, (inl tt, d, p)).

(** ** Names *)

Definition deviceSetMetaFile : string := "deviceset-metadata".
Definition transactionMetaFile : string := "transaction-metadata".

Definition metadataFile (hash : string) : string := if bool_decide (hash = "") then "base" else hash.

(** [info.Name()] without the prefix of the set. *)
Definition Name (hash : string) : string := if bool_decide (hash = "") then "base" else hash.

(** ** The metadata directory *)

Definition set_files (f : gmap string content → gmap string content) (d : disk) : disk :=
  mkDisk (f (files d)) (tmps d) (old d).

Definition TempFile : D string := ext CTempFile (λ d p,
  let name := ".tmp" +:+ pretty (tmps d) in
  (inl name, mkDisk (<[name := FTmp]> (files d)) (tmps d + 1) (old d), p)).

Definition Rename (tmp : string) (data : content) (filePath : string) : D unit :=
  ext (CRename filePath) (λ d p, (inl tt, set_files (λ m, <[filePath := data]> (delete tmp m)) d, p)).

Definition writeMetaFile (data : content) (filePath : string) : D unit :=
  tmp ← wrap TempFile;
  wrap (ext_unit CWrite) ;;
  wrap (ext_unit CSync) ;;
  wrap (ext_unit CClose) ;;
  wrap (Rename tmp data filePath).

Definition ReadFile (f : string) : D content := ext (CRead f) (λ d p,
  (match files d !! f with Some x => inl x | None => inr ErrNotExist end, d, p)).

Definition RemoveAll (f : string) : D unit := ext (CRemove f) (λ d p,
  (inl tt, set_files (delete f) d, p)).

Definition removeMetadata (hash : string) : D unit := wrap (RemoveAll (metadataFile hash)).

Definition saveMetadata (hash : string) (info : devInfo) : D unit :=
  writeMetaFile (FDev info) (metadataFile hash).

(** [json.Unmarshal] into a [devInfo]: fields that are not in the file are
    zero, fields that are not in the structure are skipped. *)
Definition decode_info (x : content) : option devInfo :=
  match x with
  | FDev i => Some i
  | FTx t => Some (mkInfo (tx_id t) 0 0 false false)
  | FSet _ _ _ => Some (mkInfo 0 0 0 false false)
  | FTmp => None
  end.

Definition loadMetadata (hash : string) : D (option devInfo) :=
  r ← st_try (ReadFile (metadataFile hash));
  match r with
  | inr _ => mret None
  | inl x =>
      match decode_info x with
      | None => mret None
      | Some info => if maxDeviceID <? DeviceID info then mret None else mret (Some info)
      end
  end.

Definition lookupDevice (hash : string) : D devInfo :=
  m ← st_gets (λ w, Devices (ds w));
  match m !! hash with
  | Some info => mret info
  | None =>
      r ← loadMetadata hash;
      match r with
      | None => st_fail (EUnknownDevice hash)
      | Some info => set_Devices <[hash := info]> ;; mret info
      end
  end.

(** ** The bitmap *)

Definition on_ids (f : idmap → option idmap) : D unit :=
  d ← st_gets ds;
  match f (deviceIDMap d) with
  | Some m => set_ids (NextDeviceID d) m
  | None => st_panic "index out of range"
  end.

Definition markUsed (id : Z) : D unit := on_ids (λ m, markDeviceIDUsed m id).
Definition markFree (id : Z) : D unit := on_ids (λ m, markDeviceIDFree m id).

Definition nextFree : D Z :=
  d ← st_gets ds;
  match getNextFreeDeviceID (deviceIDMap d) (NextDeviceID d) with
  | inr (Some (id, m)) => set_ids id m ;; mret id
  | inr None => st_panic "index out of range"
  | inl next => set_ids next (deviceIDMap d) ;; st_fail ENoFreeID
  end.

Fixpoint each {A} (f : A → D unit) (l : list A) : D unit :=
  match l with [] => mret tt | x :: l' => f x ;; each f l' end.

Definition constructDeviceIDMap : D unit :=
  m ← st_gets (λ w, Devices (ds w));
  each (λ hi : string * devInfo, markUsed (DeviceID hi.2)) (map_to_list m).

Definition countDeletedDevices : D unit :=
  m ← st_gets (λ w, Devices (ds w));
  each (λ hi : string * devInfo, if Deleted hi.2 then set_nrDeleted (λ n, n + 1) else mret tt)
    (map_to_list m).

(** ** The pool *)

Definition set_thin (f : gmap Z blk → gmap Z blk) (p : pool) : pool :=
  mkPool (f (thin p)) (ptid p) (active p) (data_used p) (data_total p) (meta_used p) (meta_total p).
Definition set_active (f : gmap string actdev → gmap string actdev) (p : pool) : pool :=
  mkPool (thin p) (ptid p) (f (active p)) (data_used p) (data_total p) (meta_used p) (meta_total p).
Definition set_ptid (t : Z) (p : pool) : pool :=
  mkPool (thin p) t (active p) (data_used p) (data_total p) (meta_used p) (meta_total p).

(** A thin device is busy while it is activated under some name. *)
Definition thin_busy (id : Z) (p : pool) : bool :=
  existsb (λ na : string * actdev, a_id na.2 =? id) (map_to_list (active p)).

Definition CreateDevice (id : Z) : D unit := ext (CCreateThin id) (λ d p,
  match thin p !! id with
  | Some _ => (inr ErrDeviceIDExists, d, p)
  | None => (inl tt, d, set_thin <[id := mkBlk "" "" 0]> p)
  end).

Definition create_snap (id origin : Z) : D unit := ext (CCreateSnap id) (λ d p,
  match thin p !! id, thin p !! origin with
  | Some _, _ => (inr ErrDeviceIDExists, d, p)
  | None, None => (inr ErrOther, d, p)
  | None, Some b => (inl tt, d, set_thin <[id := b]> p)
  end).

Definition DeleteThin (id : Z) : D unit := ext (CDeleteThin id) (λ d p,
  match thin p !! id with
  | None => (inr ErrOther, d, p)
  | Some _ => if thin_busy id p then (inr ErrBusy, d, p) else (inl tt, d, set_thin (delete id) p)
  end).

Definition SetTransactionID (oldID newID : Z) : D unit := ext CSetTransactionID (λ d p,
  if ptid p =? oldID then (inl tt, d, set_ptid newID p) else (inr ErrOther, d, p)).

Definition poolStatus : D pool := ext CStatus (λ d p, (inl p, d, p)).

Definition GetInfo (name : string) : D (option actdev) := ext (CGetInfo name) (λ d p,
  (inl (active p !! name), d, p)).

Definition ActivateDevice (name : string) (id : Z) : D unit := ext (CActivate name) (λ d p,
  match active p !! name, thin p !! id with
  | None, Some _ => (inl tt, d, set_active <[name := mkAct id 0 false]> p)
  | _, _ => (inr ErrOther, d, p)
  end).

Definition RemoveDevice (name : string) : D unit := ext (CRemoveDevice name) (λ d p,
  match active p !! name with
  | None => (inr ErrOther, d, p)
  | Some a => if bool_decide (a_open a = 0%nat) then (inl tt, d, set_active (delete name) p)
              else (inr ErrBusy, d, p)
  end).

Definition RemoveDeviceDeferred (name : string) : D unit := ext (CRemoveDeferred name) (λ d p,
  match active p !! name with
  | None => (inr ErrOther, d, p)
  | Some a => if bool_decide (a_open a = 0%nat) then (inl tt, d, set_active (delete name) p)
              else (inl tt, d, set_active <[name := mkAct (a_id a) (a_open a) true]> p)
  end).

Definition CancelDeferredRemove (name : string) : D unit := ext (CCancelDeferred name) (λ d p,
  match active p !! name with
  | None => (inr ErrEnxio, d, p)
  | Some a => (inl tt, d, set_active <[name := mkAct (a_id a) (a_open a) false]> p)
  end).

(** pkg/devicemapper: a snapshot is taken with the origin suspended. *)
Definition CreateSnapDevice (id : Z) (baseName : string) (baseID : Z) : D unit :=
  r ← st_try (GetInfo baseName);
  let doSuspend := match r with inl (Some _) => true | _ => false end in
  (if doSuspend then ext_unit (CSuspend baseName) else mret tt) ;;
  r ← st_try (create_snap id baseID);
  match r with
  | inr e => (if doSuspend then ignore (ext_unit (CResume baseName)) else mret tt) ;; st_fail e
  | inl _ => if doSuspend then ext_unit (CResume baseName) else mret tt
  end.

(** ** Transactions *)

Definition allocateTransactionID : D unit :=
  t ← st_gets (λ w, TransactionID (ds w));
  set_txn (λ x, mkTx (t + 1) (DeviceIDHash x) (tx_id x)).

Definition updatePoolTransactionID : D unit :=
  d ← st_gets ds;
  wrap (SetTransactionID (TransactionID d) (OpenTransactionID (txn d))) ;;
  set_TransactionID (OpenTransactionID (txn d)).

Definition saveTransactionMetaData : D unit :=
  t ← st_gets (λ w, txn (ds w)); writeMetaFile (FTx t) transactionMetaFile.

Definition removeTransactionMetaData : D unit := RemoveAll transactionMetaFile.

Definition openTransaction (hash : string) (id : Z) : D unit :=
  allocateTransactionID ;;
  set_txn (λ x, mkTx (OpenTransactionID x) hash (tx_id x)) ;;
  set_txn (λ x, mkTx (OpenTransactionID x) (DeviceIDHash x) id) ;;
  wrap saveTransactionMetaData.

Definition refreshTransaction (id : Z) : D unit :=
  set_txn (λ x, mkTx (OpenTransactionID x) (DeviceIDHash x) id) ;;
  wrap saveTransactionMetaData.

Definition closeTransaction : D unit := updatePoolTransactionID.

(** [json.Unmarshal] into the transaction, whose error is not looked at. *)
Definition decode_tx (x : content) (t : transaction) : transaction :=
  match x with
  | FTx t' => t'
  | FDev i => mkTx (OpenTransactionID t) (DeviceIDHash t) (DeviceID i)
  | FSet _ _ _ | FTmp => t
  end.

Definition loadTransactionMetaData : D unit :=
  r ← st_try (ReadFile transactionMetaFile);
  match r with
  | inr (ECall ErrNotExist) =>
      t ← st_gets (λ w, TransactionID (ds w));
      set_txn (λ x, mkTx t (DeviceIDHash x) (tx_id x))
  | inr e => st_fail e
  | inl x => set_txn (decode_tx x)
  end.

Definition rollbackTransaction : D unit :=
  t ← st_gets (λ w, txn (ds w));
  ignore (DeleteThin (tx_id t)) ;;
  r ← st_try (removeMetadata (DeviceIDHash t));
  match r with
  | inr _ => mret tt
  | inl _ => markFree (tx_id t)
  end ;;
  ignore removeTransactionMetaData.

Definition processPendingTransaction : D unit :=
  loadTransactionMetaData ;;
  d ← st_gets ds;
  if TransactionID d =? OpenTransactionID (txn d) then mret tt
  else if OpenTransactionID (txn d) <? TransactionID d then mret tt
  else
    wrap rollbackTransaction ;;
    set_txn (λ x, mkTx (TransactionID d) (DeviceIDHash x) (tx_id x)).

Definition loadDeviceSetMetaData : D unit :=
  r ← st_try (ReadFile deviceSetMetaFile);
  match r with
  | inr (ECall ErrNotExist) => mret tt
  | inr e => st_fail e
  | inl (FSet next uuid fs) =>
      m ← st_gets (λ w, deviceIDMap (ds w));
      set_ids next m ;; set_base uuid fs
  | inl FTmp => st_fail (ECall ErrOther)
  | inl _ => mret tt
  end.

Definition saveDeviceSetMetaData : D unit :=
  d ← st_gets ds;
  writeMetaFile (FSet (NextDeviceID d) (BaseDeviceUUID d) (BaseDeviceFilesystem d)) deviceSetMetaFile.

(** ** Activation *)

(** The loops that sleep and try again while the device is busy. *)
Fixpoint retry_busy (n : nat) (m : D unit) (last : D unit) : D unit :=
  match n with
  | O => last
  | S n' =>
      r ← st_try m;
      match r with
      | inl _ => mret tt
      | inr (ECall ErrBusy) => retry_busy n' m (st_fail (ECall ErrBusy))
      | inr e => st_fail e
      end
  end.

Definition removeDevice (name : string) : D unit := retry_busy 200 (RemoveDevice name) (mret tt).

Definition cancelDeferredRemoval (hash : string) : D unit :=
  if negb (deferredRemove c) then mret tt
  else
    r ← st_try (GetInfo (Name hash));
    match r with
    | inl None => mret tt
    | inl (Some a) =>
        if negb (a_deferred a) then mret tt
        else r ← st_try (retry_busy 100 (CancelDeferredRemove (Name hash)) (mret tt));
             match r with
             | inl _ | inr (ECall ErrEnxio) => mret tt
             | inr e => st_fail e
             end
    | inr _ =>
        r ← st_try (retry_busy 100 (CancelDeferredRemove (Name hash)) (mret tt));
        match r with
        | inl _ | inr (ECall ErrEnxio) => mret tt
        | inr e => st_fail e
        end
    end.

Definition activateDeviceIfNeeded (hash : string) (info : devInfo) (ignoreDeleted : bool) : D unit :=
  if Deleted info && negb ignoreDeleted then st_fail (EMarkedDeleted hash)
  else
    wrap (cancelDeferredRemoval hash) ;;
    r ← st_try (GetInfo (Name hash));
    match r with
    | inl (Some _) => mret tt
    | _ => ActivateDevice (Name hash) (DeviceID info)
    end.

Definition deactivateDevice (hash : string) : D unit :=
  a ← GetInfo (Name hash);
  match a with
  | None => mret tt
  | Some _ => if deferredRemove c then RemoveDeviceDeferred (Name hash) else removeDevice (Name hash)
  end.

(** [mount] opens the device, [umount] closes it; a device that is closed and
    flagged for deferred removal goes away.  The options of a mount are not
    modelled. *)
Definition Mount (hash : string) : D unit := ext CMount (λ d p,
  match active p !! Name hash with
  | None => (inr ErrOther, d, p)
  | Some a => (inl tt, d, set_active <[Name hash := mkAct (a_id a) (S (a_open a)) (a_deferred a)]> p)
  end).

Definition Unmount (hash : string) : D unit := ext CUnmount (λ d p,
  match active p !! Name hash with
  | None => (inl tt, d, p)
  | Some a =>
      if a_deferred a && bool_decide (a_open a ≤ 1)%nat then (inl tt, d, set_active (delete (Name hash)) p)
      else (inl tt, d, set_active <[Name hash := mkAct (a_id a) (pred (a_open a)) (a_deferred a)]> p)
  end).

(** ** Registration *)

Definition unregisterDevice (id : Z) (hash : string) : D unit :=
  set_Devices (delete hash) ;; removeMetadata hash.

Definition registerDevice (id : Z) (hash : string) (size tid : Z) : D devInfo :=
  let info := mkInfo id size tid false false in
  set_Devices <[hash := info]> ;;
  r ← st_try (saveMetadata hash info);
  match r with
  | inl _ => mret info
  | inr e => set_Devices (delete hash) ;; st_fail e
  end.

(** The loop of [createRegisterDevice] and [createRegisterSnapDevice]: the
    identifier that the pool took, or the error.  A turn that ends the loop
    gives its outcome and its state. *)
Definition create_turn (mk : Z → D unit) (s : Z * world) :
    (Z * world) + (outcome derr Z * world) :=
  let '(id, w) := s in
  match mk id w with
  | (Ok _, w1) => inr (Ok id, w1)
  | (Panic e, w1) => inr (Panic e, w1)
  | (Err (ECall ErrDeviceIDExists), w1) =>
      match nextFree w1 with
      | (Ok id', w2) =>
          match ignore (refreshTransaction id') w2 with
          | (Ok _, w3) => inl (id', w3)
          | (Err e, w3) => inr (Err e, w3)
          | (Panic e, w3) => inr (Panic e, w3)
          end
      | (Err e, w2) => inr (Err e, w2)
      | (Panic e, w2) => inr (Panic e, w2)
      end
  | (Err e, w1) =>
      match markFree id w1 with
      | (Panic e', w2) => inr (Panic e', w2)
      | (_, w2) => inr (Err e, w2)
      end
  end.

Definition create_loop (mk : Z → D unit) (id : Z) : D Z := λ w,
  match until_pos (Z.to_pos (ids + 1)) (create_turn mk) (id, w) with
  | inr r => r
  | inl (_, w') => (Panic "out of turns", w')
  end.

(** What both functions do around the creation of the device. *)
Definition create_register (mk : Z → D unit) (hash : string) (size : Z) : D devInfo :=
  id0 ← nextFree;
  r ← st_try (openTransaction hash id0);
  match r with
  | inr e => markFree id0 ;; st_fail e
  | inl _ =>
      id ← create_loop mk id0;
      tid ← st_gets (λ w, OpenTransactionID (txn (ds w)));
      r ← st_try (registerDevice id hash size tid);
      match r with
      | inr e => ignore (DeleteThin id) ;; markFree id ;; st_fail e
      | inl info =>
          r ← st_try closeTransaction;
          match r with
          | inr e =>
              ignore (unregisterDevice id hash) ;;
              ignore (DeleteThin id) ;;
              markFree id ;;
              st_fail e
          | inl _ => mret info
          end
      end
  end.

Definition createRegisterDevice (hash : string) : D devInfo :=
  create_register CreateDevice hash (baseFsSize c).

(** Unsigned arithmetic, as in the source. *)
Definition too_full (used total : Z) : bool :=
  let minFree := u64 (total * minFreeSpacePercent c) `div` 100 in
  u64 (total - used) <? (if minFree <? 1 then 1 else minFree).

Definition poolHasFreeSpace : D unit :=
  if minFreeSpacePercent c =? 0 then mret tt
  else
    p ← poolStatus;
    if too_full (data_used p) (data_total p) then st_fail ENoSpace
    else if too_full (meta_used p) (meta_total p) then st_fail ENoSpace
    else mret tt.

Definition createRegisterSnapDevice (hash baseHash : string) (baseInfo : devInfo) (size : Z) : D unit :=
  poolHasFreeSpace ;;
  _ ← create_register (λ id, CreateSnapDevice id (Name baseHash) (DeviceID baseInfo)) hash size;
  mret tt.

(** ** Growing a file system *)

(** The device is mounted on a directory that is made first and removed last;
    [CMkdir] is the check for it and its making. *)

Definition growFS (hash : string) (info : devInfo) : D unit :=
  wrap (activateDeviceIfNeeded hash info false) ;;
  deferred
    (ext_unit CMkdir ;;
     wrap (Mount hash) ;;
     deferred
       (fs ← st_gets (λ w, BaseDeviceFilesystem (ds w));
        if bool_decide (fs = "ext4") then wrap (ext_unit (CExec "resize2fs"))
        else if bool_decide (fs = "xfs") then wrap (ext_unit (CExec "xfs_growfs"))
        else st_fail EFilesystem)
       (ignore (Unmount hash)))
    (ignore (deactivateDevice hash)).

(** ** Adding *)

(** The options come in the order in which the map is traversed. *)
Definition parseStorageOpt (storageOpt : list (string * string)) : D Z :=
  match storageOpt with
  | [] => mret 0
  | (key, val) :: _ =>
      if bool_decide (ToLower unicode_lower key = "size") then
        match RAMInBytes val with
        | Some n => mret (u64 n)
        | None => st_fail EBadSize
        end
      else st_fail (EOption key)
  end.

Definition AddDevice (hash baseHash : string) (storageOpt : list (string * string)) : D unit :=
  baseInfo ← lookupDevice baseHash;
  if Deleted baseInfo then st_fail (EBaseDeleted baseHash)
  else
    r ← st_try (lookupDevice hash);
    match r with
    | inl info => st_fail (EAlreadyExists hash (Deleted info))
    | inr _ =>
        size0 ← parseStorageOpt storageOpt;
        let size := if size0 =? 0 then Size baseInfo else size0 in
        if size <? Size baseInfo then st_fail ETooSmall
        else
          createRegisterSnapDevice hash baseHash baseInfo size ;;
          if Size baseInfo <? size then
            info ← lookupDevice hash;
            growFS hash info
          else mret tt
    end.

(** ** Deleting *)

Definition markForDeferredDeletion (hash : string) (info : devInfo) : D unit :=
  if Deleted info then mret tt
  else
    let info' := mkInfo (DeviceID info) (Size info) (info_tid info) (Initialized info) true in
    set_Devices (alter (λ _, info') hash) ;;
    r ← st_try (saveMetadata hash info');
    match r with
    | inl _ => set_nrDeleted (λ n, n + 1)
    | inr e => set_Devices (alter (λ _, info) hash) ;; st_fail e
    end.

Definition deleteTransaction (hash : string) (info : devInfo) (syncDelete : bool) : D unit :=
  openTransaction hash (DeviceID info) ;;
  deferred
    (r ← st_try (DeleteThin (DeviceID info));
     match r with
     | inl _ =>
         unregisterDevice (DeviceID info) hash ;;
         (if Deleted info then set_nrDeleted (λ n, n - 1) else mret tt) ;;
         markFree (DeviceID info)
     | inr e =>
         if syncDelete || negb (deferredDelete c) || negb (bool_decide (e = ECall ErrBusy))
         then st_fail e
         else markForDeferredDeletion hash info
     end)
    (ignore closeTransaction).

Definition issueDiscard (hash : string) (info : devInfo) : D unit :=
  activateDeviceIfNeeded hash info true ;;
  a ← GetInfo (Name hash);
  match a with
  | Some x => if bool_decide (a_open x ≠ 0%nat) then mret tt else ignore (ext_unit (CDiscard (Name hash)))
  | None => ignore (ext_unit (CDiscard (Name hash)))
  end.

Definition deleteDevice (hash : string) (info : devInfo) (syncDelete : bool) : D unit :=
  (if doBlkDiscard c then ignore (issueDiscard hash info) else mret tt) ;;
  deactivateDevice hash ;;
  deleteTransaction hash info syncDelete.

Definition DeleteDevice (hash : string) (syncDelete : bool) : D unit :=
  info ← lookupDevice hash;
  deleteDevice hash info syncDelete.

Definition cleanupDeletedDevices : D unit :=
  d ← st_gets ds;
  if nrDeletedDevices d =? 0 then mret tt
  else each (λ hi : string * devInfo, ignore (DeleteDevice hi.1 false))
         (filter (λ hi : string * devInfo, Deleted hi.2 = true) (map_to_list (Devices d))).

(** ** The base device *)

Definition saveBaseDeviceFilesystem (fs : string) : D unit :=
  u ← st_gets (λ w, BaseDeviceUUID (ds w));
  set_base u fs ;; saveDeviceSetMetaData.

(** mkfs on the device that is activated under the name of [hash]. *)
Definition mkfs (cmd hash fs : string) : D unit := ext (CExec cmd) (λ d p,
  match active p !! Name hash with
  | Some a => (inl tt, d, set_thin (alter (λ b, mkBlk (new_uuid c) fs (b_data b)) (a_id a)) p)
  | None => (inr ErrOther, d, p)
  end).

Definition createFilesystem (hash : string) : D unit :=
  fs0 ← st_gets (λ w, filesystem (ds w));
  (if bool_decide (fs0 = "") then set_filesystem (default_fs c) else mret tt) ;;
  fs ← st_gets (λ w, filesystem (ds w));
  saveBaseDeviceFilesystem fs ;;
  if bool_decide (fs = "xfs") then mkfs "mkfs.xfs" hash fs
  else if bool_decide (fs = "ext4") then
    r ← st_try (mkfs "mkfs.ext4" hash fs);
    (match r with inl _ => mret tt | inr _ => mkfs "mkfs.ext4" hash fs end) ;;
    ext_unit (CExec "tune2fs")
  else st_fail EFilesystem.

Definition getDeviceUUID (hash : string) : D string := ext (CExec "blkid") (λ d p,
  match active p !! Name hash ≫= λ a, thin p !! a_id a with
  | Some b => (inl (b_uuid b), d, p)
  | None => (inr ErrOther, d, p)
  end).

Definition ProbeFsType (hash : string) : D string := ext (CRead (Name hash)) (λ d p,
  match active p !! Name hash ≫= λ a, thin p !! a_id a with
  | Some b => (inl (b_fs b), d, p)
  | None => (inr ErrOther, d, p)
  end).

Definition saveBaseDeviceUUID (hash : string) (info : devInfo) : D unit :=
  activateDeviceIfNeeded hash info false ;;
  deferred
    (uuid ← getDeviceUUID hash;
     fs ← st_gets (λ w, BaseDeviceFilesystem (ds w));
     set_base uuid fs ;; saveDeviceSetMetaData)
    (ignore (deactivateDevice hash)).

Definition verifyBaseDeviceUUIDFS (hash : string) (info : devInfo) : D unit :=
  activateDeviceIfNeeded hash info false ;;
  deferred
    (uuid ← getDeviceUUID hash;
     d ← st_gets ds;
     if bool_decide (BaseDeviceUUID d ≠ uuid) then st_fail EUUID
     else
       (if bool_decide (BaseDeviceFilesystem d = "") then
          fsType ← ProbeFsType hash; saveBaseDeviceFilesystem fsType
        else mret tt) ;;
       d ← st_gets ds;
       if bool_decide (BaseDeviceFilesystem d ≠ filesystem d)
       then set_filesystem (BaseDeviceFilesystem d) else mret tt)
    (ignore (deactivateDevice hash)).

Definition createBaseImage : D unit :=
  info ← createRegisterDevice "";
  activateDeviceIfNeeded "" info false ;;
  createFilesystem "" ;;
  let info' := mkInfo (DeviceID info) (Size info) (info_tid info) true (Deleted info) in
  set_Devices (alter (λ _, info') "") ;;
  r ← st_try (saveMetadata "" info');
  match r with
  | inr e => set_Devices (alter (λ _, info) "") ;; st_fail e
  | inl _ => wrap (saveBaseDeviceUUID "" info')
  end.

Definition checkThinPool : D unit :=
  p ← poolStatus;
  if negb (data_used p =? 0) then st_fail EPoolUsed
  else if negb (ptid p =? 0) then st_fail EPoolTransaction
  else mret tt.

Definition setupVerifyBaseImageUUIDFS (info : devInfo) : D unit :=
  uuid ← st_gets (λ w, BaseDeviceUUID (ds w));
  if bool_decide (uuid = "") then wrap (saveBaseDeviceUUID "" info)
  else wrap (verifyBaseDeviceUUIDFS "" info).

Definition getBaseDeviceSize : D Z :=
  r ← st_try (lookupDevice "");
  mret (match r with inl i => Size i | inr _ => 0 end).

Definition checkGrowBaseDeviceFS (info : devInfo) : D unit :=
  if negb (userBaseSize c) then mret tt
  else
    n ← getBaseDeviceSize;
    if baseFsSize c <? n then st_fail ETooSmall
    else if baseFsSize c =? n then mret tt
    else
      let info' := mkInfo (DeviceID info) (baseFsSize c) (info_tid info) (Initialized info) (Deleted info) in
      set_Devices (alter (λ _, info') "") ;;
      r ← st_try (saveMetadata "" info');
      match r with
      | inr e => set_Devices (delete "") ;; st_fail e
      | inl _ => growFS "" info'
      end.

Definition setupBaseImage : D unit :=
  r ← st_try (lookupDevice "");
  match r with
  | inl oldInfo =>
      if Initialized oldInfo && negb (Deleted oldInfo) then
        setupVerifyBaseImageUUIDFS oldInfo ;; checkGrowBaseDeviceFS oldInfo
      else
        DeleteDevice "" true ;; createBaseImage
  | inr _ =>
      (if bool_decide (thinPoolDevice c ≠ "") then checkThinPool else mret tt) ;;
      createBaseImage
  end.

(** ** Starting *)

Definition HasSuffix (s p : string) : bool := HasPrefix (String.rev s) (String.rev p).

Definition deviceFileWalkFunction (name : string) : D unit :=
  if HasSuffix name ".migrated" then mret tt
  else if HasPrefix name "." then mret tt
  else if bool_decide (name = deviceSetMetaFile) then mret tt
  else if bool_decide (name = transactionMetaFile) then mret tt
  else
    let hash := if bool_decide (name = "base") then "" else name in
    _ ← wrap (lookupDevice hash); mret tt.

(** [filepath.Walk]: a directory or a file that cannot be read is skipped. *)
Definition loadDeviceFilesOnStart : D unit :=
  r ← st_try (ext CReadDir (λ d p, (inl (map_to_list (files d)).*1, d, p)));
  match r with
  | inr _ => mret tt
  | inl names => each (λ name,
      r ← st_try (ext_unit (CLstat name));
      match r with inl _ => deviceFileWalkFunction name | inr _ => mret tt end) names
  end.

Definition oldMetadataFile : string := "devicemapper/json".

Definition migrateOldMetaData : D unit :=
  r ← st_try (ext (CRead oldMetadataFile) (λ d p,
        (match old d with Some m => inl m | None => inr ErrNotExist end, d, p)));
  match r with
  | inr (ECall ErrNotExist) => mret tt
  | inr e => st_fail e
  | inl m =>
      each (λ hi : string * devInfo, ignore (saveMetadata hi.1 hi.2)) (map_to_list m) ;;
      ext (CRename (oldMetadataFile +:+ ".migrated")) (λ d p,
        (inl tt, mkDisk (files d) (tmps d) None, p))
  end.

Definition initMetaData : D unit :=
  migrateOldMetaData ;;
  p ← poolStatus;
  set_TransactionID (ptid p) ;;
  wrap loadDeviceFilesOnStart ;;
  constructDeviceIDMap ;;
  countDeletedDevices ;;
  processPendingTransaction.

(** [initDevmapper] from the point where the pool exists: [createdLoopback]
    says that its files were just made. *)
Definition initDevmapper (createdLoopback doInit : bool) : D unit :=
  (if createdLoopback then mret tt else initMetaData) ;;
  loadDeviceSetMetaData ;;
  if doInit then setupBaseImage else mret tt.

(** ** The other operations of the driver *)

Definition MountDevice (hash : string) : D unit :=
  info ← lookupDevice hash;
  if Deleted info then st_fail (EMarkedDeleted hash)
  else
    wrap (activateDeviceIfNeeded hash info false) ;;
    _ ← ProbeFsType hash;
    wrap (Mount hash).

Definition UnmountDevice (hash : string) : D unit :=
  _ ← lookupDevice hash;
  Unmount hash ;; deactivateDevice hash.

Definition HasDevice (hash : string) : D bool :=
  r ← st_try (lookupDevice hash);
  mret (match r with inl _ => true | inr _ => false end).

(** driver.go: removing a device that is not there is no error. *)
Definition Remove (hash : string) : D unit :=
  b ← HasDevice hash;
  if negb b then mret tt
  else DeleteDevice hash false ;; ext_unit (CRemove ("mnt/" +:+ hash)).

(** [names] are the directories that the walk below [mnt] meets, each with
    whether something is mounted on it. *)
Definition Shutdown (names : list (string * bool)) : D unit :=
  ignore saveDeviceSetMetaData ;;
  each (λ nb : string * bool,
    (if nb.2 then ignore (Unmount nb.1) else mret tt) ;;
    r ← st_try (lookupDevice nb.1);
    match r with inl _ => ignore (deactivateDevice nb.1) | inr _ => mret tt end) names ;;
  r ← st_try (lookupDevice "");
  (match r with inl _ => ignore (deactivateDevice "") | inr _ => mret tt end) ;;
  if bool_decide (thinPoolDevice c = "") then ignore (ext_unit (CRemoveDevice "pool")) else mret tt.

(** ** Runs *)

Inductive op :=
| OAdd (hash base : string) (opts : list (string * string))
| ORemove (hash : string)
| ODelete (hash : string) (sync : bool)
| OCleanup
| OMount (hash : string)
| OUnmount (hash : string)
| OShutdown (names : list (string * bool)).

Definition exec (o : op) : D unit :=
  match o with
  | OAdd h b opts => AddDevice h b opts
  | ORemove h => Remove h
  | ODelete h s => DeleteDevice h s
  | OCleanup => if deferredDelete c then cleanupDeletedDevices else mret tt
  | OMount h => MountDevice h
  | OUnmount h => UnmountDevice h
  | OShutdown ns => Shutdown ns
  end.

(** A start of the daemon: the memory is new, disk and pool are what they
    were.  A reboot of the machine also ends the activations. *)
Definition restart (reboot : bool) (fs : string) (w : world) : world :=
  mkWorld (NewDeviceSet fs) (dk w)
    (if reboot then set_active (λ _, ∅) (pl w) else pl w) (clk w).

End ops.
