(* ===== verification/DeviceSetLogic.v ===== *)
(** * A logic for code that can crash

    Weakest preconditions for the operations of [DeviceSet]: besides what holds
    when a call returns, with a value or an error, they state what holds of the
    disk and the pool wherever the process dies ([C], the crash condition).
    Assertions are over a [view] of the world that leaves out what no operation
    may depend on: the clock of the oracle and the temporary files. *)

From stdpp Require Import pretty.
From S2P Require Import Prelude GoStrings DeviceIds DeviceSet.
Open Scope Z_scope.

(** ** Views *)

Definition nondot (f : string) : bool := negb (HasPrefix f ".").

Record view := mkView {
  vds : DeviceSet;
  vf : gmap string content;
  vold : option (gmap string devInfo);
  vpl : pool;
}.

Definition visible (d : disk) : gmap string content := filter (λ fx, nondot fx.1 = true) (files d).

Definition view_of (w : world) : view := mkView (ds w) (visible (dk w)) (old (dk w)) (pl w).

Definition vset_ds (f : DeviceSet → DeviceSet) (v : view) : view :=
  mkView (f (vds v)) (vf v) (vold v) (vpl v).
Definition vset_pool (f : pool → pool) (v : view) : view :=
  mkView (vds v) (vf v) (vold v) (f (vpl v)).
Definition vset_files (f : gmap string content → gmap string content) (v : view) : view :=
  mkView (vds v) (f (vf v)) (vold v) (vpl v).

Definition with_Devices (f : gmap string devInfo → gmap string devInfo) (d : DeviceSet) : DeviceSet :=
  mkSet (f (Devices d)) (TransactionID d) (NextDeviceID d) (deviceIDMap d) (txn d) (filesystem d)
    (BaseDeviceUUID d) (BaseDeviceFilesystem d) (nrDeletedDevices d).
Definition with_TransactionID (t : Z) (d : DeviceSet) : DeviceSet :=
  mkSet (Devices d) t (NextDeviceID d) (deviceIDMap d) (txn d) (filesystem d)
    (BaseDeviceUUID d) (BaseDeviceFilesystem d) (nrDeletedDevices d).
Definition with_ids (n : Z) (m : idmap) (d : DeviceSet) : DeviceSet :=
  mkSet (Devices d) (TransactionID d) n m (txn d) (filesystem d)
    (BaseDeviceUUID d) (BaseDeviceFilesystem d) (nrDeletedDevices d).
Definition with_txn (t : transaction) (d : DeviceSet) : DeviceSet :=
  mkSet (Devices d) (TransactionID d) (NextDeviceID d) (deviceIDMap d) t (filesystem d)
    (BaseDeviceUUID d) (BaseDeviceFilesystem d) (nrDeletedDevices d).

(** ** Weakest preconditions *)

Section wp.
Context {A : Type}.

Definition wp (m : D A) (Q : A + derr → view → Prop) (C : view → Prop) (v : view) : Prop :=
  ∀ w, view_of w = v →
  match m w with
  | (Ok a, w') => Q (inl a) (view_of w')
  | (Err e, w') => Q (inr e) (view_of w')
  | (Panic s, w') => s = crash ∧ C (view_of w')
  end.

Lemma wp_conseq (m : D A) (Q Q' : A + derr → view → Prop) (C C' : view → Prop) v :
  wp m Q C v → (∀ r v', Q r v' → Q' r v') → (∀ v', C v' → C' v') → wp m Q' C' v.
Proof.
  intros H HQ HC w Hw. specialize (H w Hw).
  destruct (m w) as [[a|e|s] w']; [by apply HQ|by apply HQ|]. destruct H. auto.
Qed.

Lemma wp_ret a (Q : A + derr → view → Prop) C v : Q (inl a) v → wp (mret a) Q C v.
Proof. intros H w Hw. simpl. by rewrite Hw. Qed.

Lemma wp_fail e (Q : A + derr → view → Prop) C v : Q (inr e) v → wp (st_fail e) Q C v.
Proof. intros H w Hw. simpl. by rewrite Hw. Qed.
End wp.

Lemma wp_bind {A B} (m : D A) (k : A → D B) Q C v :
  wp m (λ r v', match r with inl a => wp (k a) Q C v' | inr e => Q (inr e) v' end) C v →
  wp (m ≫= k) Q C v.
Proof.
  intros H w Hw. specialize (H w Hw). unfold mbind, ST_bind.
  destruct (m w) as [[a|e|s] w']; [by apply H|done|done].
Qed.

Lemma wp_try {A} (m : D A) Q C v :
  wp m (λ r, Q (inl r)) C v → wp (st_try m) Q C v.
Proof. intros H w Hw. specialize (H w Hw). unfold st_try. by destruct (m w) as [[a|e|s] w']. Qed.

Lemma wp_wrap {A} (m : D A) Q C v :
  wp m (λ r, Q (match r with inl a => inl a | inr e => inr (EWrap e) end)) C v → wp (wrap m) Q C v.
Proof.
  intros H. apply wp_bind, wp_try. eapply wp_conseq; [exact H| |done].
  intros [a|e] v' HQ; simpl in *; [by apply wp_ret|by apply wp_fail].
Qed.

Lemma wp_ignore (m : D unit) Q C v :
  wp m (λ _, Q (inl tt)) C v → wp (ignore m) Q C v.
Proof.
  intros H. apply wp_bind, wp_try. eapply wp_conseq; [exact H| |done].
  intros r v' HQ. simpl. by apply wp_ret.
Qed.

Lemma wp_deferred {A} (m : D A) cl Q C v :
  wp m (λ r v', wp cl (λ _ v'', Q r v'') C v') C v → wp (deferred m cl) Q C v.
Proof.
  intros H w Hw. specialize (H w Hw). unfold deferred.
  destruct (m w) as [[a|e|s] w']; [| |done]; specialize (H w' eq_refl);
    by destruct (cl w') as [[?|?|?] w''].
Qed.

Lemma wp_gets {A} (g : world → A) (h : view → A) Q C v :
  (∀ w, g w = h (view_of w)) → Q (inl (h v)) v → wp (st_gets g) Q C v.
Proof. intros Hg H w Hw. simpl. by rewrite Hg, Hw. Qed.

Lemma wp_gets_ds {A} (g : DeviceSet → A) Q C v :
  Q (inl (g (vds v))) v → wp (st_gets (λ w, g (ds w))) Q C v.
Proof. apply (wp_gets _ (λ v, g (vds v))). done. Qed.

Lemma wp_gets_ds' Q C v : Q (inl (vds v)) v → wp (st_gets ds) Q C v.
Proof. apply (wp_gets _ vds). done. Qed.

Lemma wp_set_ds (f : DeviceSet → DeviceSet) Q C v :
  Q (inl tt) (vset_ds f v) → wp (set_ds f) Q C v.
Proof. intros H w Hw. simpl. rewrite <-Hw in H. exact H. Qed.

(** ** Calls *)

(** What the calls on the metadata directory may do: writing can fail, but
    reading and removing a file works. *)
Definition dir_call (k : call) : bool :=
  match k with CRead _ | CReadDir | CLstat _ | CRemove _ => true | _ => false end.

Definition meta_reliable (orc : nat → call → fate) : Prop :=
  ∀ n k e, dir_call k = true → orc n k ≠ Fault e.

Section calls.
Context (orc : nat → call → fate).

(** A call on the pool. *)
Lemma wp_ext_pool {A} k (r : pool → A + dmerr) (f : pool → pool) act Q C v :
  (∀ d p, act d p = (r p, d, f p)) →
  C v →
  (∀ e, Q (inr (ECall e)) v) →
  Q (match r (vpl v) with inl a => inl a | inr e => inr (ECall e) end) (vset_pool f v) →
  wp (ext orc k act) Q C v.
Proof.
  intros Ha HC HF HG w <-. unfold ext. destruct (orc (clk w) k) as [|e|].
  - rewrite Ha. by destruct (r (pl w)) eqn:E; simpl in *; rewrite E in HG.
  - apply HF.
  - by split.
Qed.

Lemma wp_ext_unit k Q C v :
  C v → (∀ e, Q (inr (ECall e)) v) → Q (inl tt) v → wp (ext_unit orc k) Q C v.
Proof.
  intros HC HF HG. apply (wp_ext_pool _ (λ _, inl tt) (λ p, p)); [done|done|done|]. by destruct v.
Qed.

Lemma wp_ext_unit_reliable k Q C v :
  meta_reliable orc → dir_call k = true → C v → Q (inl tt) v → wp (ext_unit orc k) Q C v.
Proof.
  intros HR Hk HC HG w <-. unfold ext_unit, ext. destruct (orc (clk w) k) as [|e|] eqn:E.
  - exact HG.
  - by destruct (HR (clk w) k e Hk).
  - by split.
Qed.

Lemma visible_lookup d f : nondot f = true → visible d !! f = files d !! f.
Proof.
  intros Hf. unfold visible. destruct (files d !! f) as [x|] eqn:E.
  - by apply map_lookup_filter_Some.
  - apply map_lookup_filter_None. by left.
Qed.

Lemma wp_ReadFile f Q C v :
  meta_reliable orc → nondot f = true → C v →
  Q (match vf v !! f with Some x => inl x | None => inr (ECall ErrNotExist) end) v →
  wp (ReadFile orc f) Q C v.
Proof.
  intros HR Hf HC HG w <-. unfold ReadFile, ext. destruct (orc (clk w) (CRead f)) as [|e|] eqn:E.
  - simpl in HG. rewrite visible_lookup in HG by done. by destruct (files (dk w) !! f).
  - by destruct (HR (clk w) (CRead f) e).
  - by split.
Qed.

Lemma visible_delete d f : visible (set_files (delete f) d) = delete f (visible d).
Proof. unfold visible, set_files. simpl. by rewrite map_filter_delete. Qed.

Lemma wp_RemoveAll f Q C v :
  meta_reliable orc → C v → Q (inl tt) (vset_files (delete f) v) → wp (RemoveAll orc f) Q C v.
Proof.
  intros HR HC HG w <-. unfold RemoveAll, ext. destruct (orc (clk w) (CRemove f)) as [|e|] eqn:E.
  - unfold view_of. simpl. by rewrite visible_delete.
  - by destruct (HR (clk w) (CRemove f) e).
  - by split.
Qed.

(** A write is a rename of a complete file, or nothing that can be seen. *)
Lemma wp_writeMetaFile x f Q C v :
  nondot f = true → C v → (∀ e, Q (inr e) v) → Q (inl tt) (vset_files <[f := x]> v) →
  wp (writeMetaFile orc x f) Q C v.
Proof.
  intros Hf HC HF HG. unfold writeMetaFile. apply wp_bind, wp_wrap.
  intros w Hw. unfold TempFile, ext. destruct (orc (clk w) CTempFile) as [|e|];
    [|by rewrite <-Hw in HF; apply HF|by rewrite <-Hw in HC].
  set (tmp := ".tmp" +:+ pretty (tmps (dk w))). set (w1 := mkWorld _ _ _ _).
  assert (nondot tmp = false) as Ht by done.
  assert (view_of w1 = v) as Hv.
  { subst v w1. unfold view_of, visible. simpl. f_equal.
    apply map_filter_insert_not. intros y. simpl. by rewrite Ht. }
  change (wp (wrap (ext_unit orc CWrite) ;; wrap (ext_unit orc CSync) ;; wrap (ext_unit orc CClose) ;;
    wrap (Rename orc tmp x f)) Q C (view_of w1)). rewrite Hv.
  apply wp_bind, wp_wrap, wp_ext_unit; [done|naive_solver|].
  apply wp_bind, wp_wrap, wp_ext_unit; [done|naive_solver|].
  apply wp_bind, wp_wrap, wp_ext_unit; [done|naive_solver|].
  apply wp_wrap. clearbody tmp. clear w w1 Hw Hv. intros w <-. unfold Rename, ext.
  destruct (orc (clk w) (CRename f)) as [|e|]; [|by apply HF|by split].
  unfold view_of, vset_files in *. simpl.
  replace (visible _) with (<[f:=x]> (visible (dk w))); [done|].
  unfold visible. simpl. rewrite map_filter_insert_True by done. f_equal.
  rewrite map_filter_delete. symmetry. apply delete_id.
  apply map_lookup_filter_None. right. intros y _. simpl. by rewrite Ht.
Qed.
End calls.

(** Loops over a list keep an invariant. *)
Lemma wp_each {A} (f : A → D unit) (J : view → Prop) C l v :
  (∀ x v', x ∈ l → J v' → wp (f x) (λ r v'', match r with inl _ => J v'' | inr _ => False end) C v') →
  J v → wp (each f l) (λ r v', match r with inl _ => J v' | inr _ => False end) C v.
Proof.
  revert v. induction l as [|x l IH]; intros v Hf HJ; simpl; [by apply wp_ret|].
  apply wp_bind. eapply wp_conseq; [apply Hf; [by left|done]| |done].
  intros [[]|e] v' H'; [|done]. apply IH; [|done]. intros y v'' Hy. apply Hf. by right.
Qed.
