(* ===== verification/DeviceSetInv.v ===== *)
(** * The device set agrees with its files and its pool

    The invariant of the set between two operations ([Inv]), what is left of it
    on disk and in the pool wherever the process dies ([Durable]), and that an
    operation on one device leaves all others as they were ([Frame]).  The
    lemmas follow the steps of the operations: a step of the file system or of
    the pool, and what it keeps. *)

From S2P Require Import Prelude GoStrings DeviceIds DeviceSet DeviceSetLogic.
Open Scope Z_scope.

(** ** Names *)

(** The files that [deviceFileWalkFunction] takes for devices. *)
Definition device_file (f : string) : bool :=
  negb (HasSuffix f ".migrated") && nondot f &&
  negb (bool_decide (f = deviceSetMetaFile)) && negb (bool_decide (f = transactionMetaFile)).

(** The names of devices that have a file of their own. *)
Definition good_hash (h : string) : bool :=
  negb (bool_decide (h = "base")) && device_file (metadataFile h).

Definition file_hash (f : string) : string := if bool_decide (f = "base") then "" else f.

Lemma metadataFile_inj h1 h2 :
  good_hash h1 = true → good_hash h2 = true → metadataFile h1 = metadataFile h2 → h1 = h2.
Proof.
  unfold good_hash, metadataFile. intros H1 H2. repeat case_bool_decide; naive_solver.
Qed.

Lemma good_file h : good_hash h = true → device_file (metadataFile h) = true.
Proof. unfold good_hash. intros [_ H]%andb_prop. done. Qed.

Lemma device_file_ne f :
  device_file f = true → f ≠ deviceSetMetaFile ∧ f ≠ transactionMetaFile ∧ nondot f = true.
Proof. unfold device_file. repeat case_bool_decide; simpl; intros; split_and!; try done; destruct (nondot f); rewrite ?andb_false_r in *; done. Qed.

Lemma good_file_ne h : good_hash h = true →
  metadataFile h ≠ deviceSetMetaFile ∧ metadataFile h ≠ transactionMetaFile ∧ nondot (metadataFile h) = true.
Proof. intros H. by apply device_file_ne, good_file. Qed.

Lemma metadataFile_file_hash f : f ≠ "" → metadataFile (file_hash f) = f.
Proof. intros H. unfold metadataFile, file_hash. repeat case_bool_decide; naive_solver. Qed.

Lemma good_file_hash f : f ≠ "" → device_file f = true → good_hash (file_hash f) = true.
Proof.
  intros Hf Hd. unfold good_hash. rewrite metadataFile_file_hash by done. rewrite Hd, andb_true_r.
  unfold file_hash. repeat case_bool_decide; done.
Qed.

(** ** The invariant *)

(** What the file of a device says. *)
Definition devfile (m : gmap string content) (h : string) : option devInfo :=
  match m !! metadataFile h with Some (FDev i) => Some i | _ => None end.

(** The transaction on disk was not closed. *)
Definition pending (m : gmap string content) (p : pool) (t : transaction) : Prop :=
  m !! transactionMetaFile = Some (FTx t) ∧ ptid p < OpenTransactionID t.

Definition file_ok (f : string) (x : content) : Prop :=
  match x with
  | FDev i => f ≠ "" ∧ device_file f = true ∧ valid_id (DeviceID i)
  | FTx _ => f = transactionMetaFile
  | FSet _ _ _ => f = deviceSetMetaFile
  | FTmp => False
  end.

(** Nobody but [h] has identifier [id]. *)
Definition owned (m : gmap string content) (id : Z) (h : string) : Prop :=
  ∀ h' i, good_hash h' = true → devfile m h' = Some i → DeviceID i = id → h' = h.

Definition unowned (m : gmap string content) (id : Z) : Prop :=
  ∀ h' i, good_hash h' = true → devfile m h' = Some i → DeviceID i ≠ id.

Definition live (m : gmap string content) (p : pool) (h : string) : Prop :=
  ∀ i, devfile m h = Some i → is_Some (thin p !! DeviceID i).

Record Durable (v : view) : Prop := {
  d_files : ∀ f x, vf v !! f = Some x → file_ok f x;
  d_old : vold v = None;
  d_ids : ∀ h i, good_hash h = true → devfile (vf v) h = Some i → owned (vf v) (DeviceID i) h;
  d_tx : ∀ t, vf v !! transactionMetaFile = Some (FTx t) → OpenTransactionID t ≤ ptid (vpl v) + 1;
  d_pending : ∀ t, pending (vf v) (vpl v) t →
    good_hash (DeviceIDHash t) = true ∧ valid_id (tx_id t) ∧ owned (vf v) (tx_id t) (DeviceIDHash t);
  d_live : ∀ h, good_hash h = true →
    live (vf v) (vpl v) h ∨ ∃ t, pending (vf v) (vpl v) t ∧ DeviceIDHash t = h;
}.

Record Inv (v : view) : Prop := {
  i_dur : Durable v;
  i_live : ∀ h, good_hash h = true → live (vf v) (vpl v) h;
  i_tid : TransactionID (vds v) = ptid (vpl v);
  i_mem : ∀ h i, Devices (vds v) !! h = Some i → good_hash h = true ∧ devfile (vf v) h = Some i;
  i_used : ∀ h i, good_hash h = true → devfile (vf v) h = Some i → used (deviceIDMap (vds v)) (DeviceID i);
}.

(** The devices other than [h] are as they were, on disk and in the pool; a
    transaction that is open and was not is about [h]. *)
Record Frame (v0 : view) (h : string) (v : view) : Prop := {
  f_devs : ∀ h', good_hash h' = true → h' ≠ h →
    devfile (vf v) h' = devfile (vf v0) h' ∧
    ∀ i, devfile (vf v0) h' = Some i → thin (vpl v) !! DeviceID i = thin (vpl v0) !! DeviceID i;
  f_mine : ∀ t, pending (vf v) (vpl v) t → DeviceIDHash t = h ∨ pending (vf v0) (vpl v0) t;
}.

Lemma Frame_refl v h : Frame v h v.
Proof. split; auto. Qed.

(** ** Files *)

Lemma devfile_insert_ne m f x h : metadataFile h ≠ f → devfile (<[f := x]> m) h = devfile m h.
Proof. intros H. unfold devfile. by rewrite lookup_insert_ne. Qed.

Lemma devfile_insert m h i : devfile (<[metadataFile h := FDev i]> m) h = Some i.
Proof. unfold devfile. by rewrite lookup_insert_eq. Qed.

Lemma devfile_delete m h : devfile (delete (metadataFile h) m) h = None.
Proof. unfold devfile. by rewrite lookup_delete_eq. Qed.

Lemma devfile_delete_ne m h h' :
  good_hash h = true → good_hash h' = true → h' ≠ h →
  devfile (delete (metadataFile h) m) h' = devfile m h'.
Proof.
  intros H H' Hne. unfold devfile. rewrite lookup_delete_ne; [done|].
  intros He. by destruct Hne, (metadataFile_inj h h' H H' He).
Qed.

Lemma devfile_put_ne m h h' x :
  good_hash h = true → good_hash h' = true → h' ≠ h →
  devfile (<[metadataFile h := x]> m) h' = devfile m h'.
Proof.
  intros H H' Hne. apply devfile_insert_ne. intros He. by destruct Hne, (metadataFile_inj h' h H' H He).
Qed.

Lemma devfile_valid v h i : Durable v → devfile (vf v) h = Some i → valid_id (DeviceID i).
Proof.
  intros HD. unfold devfile. destruct (vf v !! metadataFile h) as [[]|] eqn:E; try done.
  intros [= <-]. by destruct (d_files v HD _ _ E) as (_ & _ & ?).
Qed.

(** ** Steps that only change what the invariant does not look at *)

(** Same files, same thin devices, same transaction number, and a memory that
    agrees on what matters. *)
Definition same_durable (v v' : view) : Prop :=
  vf v' = vf v ∧ vold v' = vold v ∧ thin (vpl v') = thin (vpl v) ∧ ptid (vpl v') = ptid (vpl v).

Lemma Durable_same v v' : same_durable v v' → Durable v → Durable v'.
Proof.
  intros (Hf & Ho & Ht & Hp) [? ? ? ? Hpe Hl].
  assert (∀ t, pending (vf v') (vpl v') t ↔ pending (vf v) (vpl v) t) as Hpend
    by (intros t; unfold pending; by rewrite Hf, Hp).
  split; rewrite ?Hf, ?Ho, ?Hp; try done.
  - intros t H. apply Hpe, Hpend. by rewrite Hf.
  - intros h Hg. destruct (Hl h Hg) as [H'|(t & Ht' & He)]; [left|right].
    + intros i Hi. rewrite Ht. by apply H'.
    + exists t. split; [|done]. apply Hpend in Ht'. by rewrite Hf in Ht'.
Qed.

Lemma Frame_same v0 h v v' : same_durable v v' → Frame v0 h v → Frame v0 h v'.
Proof.
  intros (Hf & _ & Ht & Hp) [HF HM]. split; [by rewrite Hf, Ht|].
  intros t. unfold pending at 1. rewrite Hf, Hp. apply HM.
Qed.

Lemma Inv_same v v' :
  same_durable v v' → Devices (vds v') = Devices (vds v) →
  TransactionID (vds v') = TransactionID (vds v) →
  (∀ i, used (deviceIDMap (vds v)) i → used (deviceIDMap (vds v')) i) → Inv v → Inv v'.
Proof.
  intros Hs Hd Ht Hu [HD Hl Hti Hm Hus]. pose proof Hs as (Hf & _ & Hth & Hp). split.
  - by eapply Durable_same.
  - intros h Hg i. rewrite Hf, Hth. by apply Hl.
  - by rewrite Ht, Hp.
  - intros h i. rewrite Hd, Hf. apply Hm.
  - intros h i Hg. rewrite Hf. intros Hi. by eapply Hu, Hus.
Qed.

(** ** The steps *)

(** The file of the transaction is written: no other device has the identifier. *)
Lemma Inv_put_tx v h id :
  Inv v → good_hash h = true → valid_id id → owned (vf v) id h →
  Inv (vset_files <[transactionMetaFile := FTx (mkTx (ptid (vpl v) + 1) h id)]> v).
Proof.
  intros [[Hf Ho Hi Ht Hp Hl] Hli Hti Hm Hu] Hg Hid Hown.
  set (m := <[transactionMetaFile := FTx (mkTx (ptid (vpl v) + 1) h id)]> (vf v)).
  assert (∀ h', good_hash h' = true → devfile m h' = devfile (vf v) h') as Hdev.
  { intros h' Hg'. apply devfile_insert_ne. by apply good_file_ne. }
  assert (∀ h', good_hash h' = true → live m (vpl v) h') as Hlive.
  { intros h' Hg' i. rewrite Hdev by done. by apply Hli. }
  split; [split| | | |]; simpl; try done.
  - intros f x. rewrite lookup_insert_Some. intros [[<- <-]|[_ Hx]]; [done|by apply Hf].
  - intros h' i Hg'. rewrite Hdev by done. intros Hi' h2 i2 Hg2. rewrite Hdev by done. by apply Hi.
  - intros t. fold m. unfold m. rewrite lookup_insert_eq. intros [= <-]. simpl. lia.
  - intros t [Htx _]. simpl in Htx. rewrite lookup_insert_eq in Htx. injection Htx as <-. simpl.
    split_and!; [done|done|]. intros h2 i2 Hg2. fold m. rewrite Hdev by done. by apply Hown.
  - intros h' Hg'. left. by apply Hlive.
  - intros h' i Hin. destruct (Hm h' i Hin) as [Hg' Hd]. split; [done|]. by rewrite Hdev.
  - intros h' i Hg'. fold m. rewrite Hdev by done. by apply Hu.
Qed.

Lemma Frame_put_tx v0 h v t :
  Frame v0 h v → DeviceIDHash t = h → Frame v0 h (vset_files <[transactionMetaFile := FTx t]> v).
Proof.
  intros [HF HM] Ht. split; simpl.
  - intros h' Hg Hne. destruct (HF h' Hg Hne) as [H1 H2].
    rewrite devfile_insert_ne; [by split|by apply good_file_ne].
  - intros t' [Ht' _]. rewrite lookup_insert_eq in Ht'. injection Ht' as <-. by left.
Qed.

(** The file of the set. *)
Lemma put_set_devfile m n u s h :
  good_hash h = true → devfile (<[deviceSetMetaFile := FSet n u s]> m) h = devfile m h.
Proof. intros Hg. apply devfile_insert_ne. by apply good_file_ne. Qed.

Lemma Durable_put_set v n u s :
  Durable v → Durable (vset_files <[deviceSetMetaFile := FSet n u s]> v).
Proof.
  intros [Hf Ho Hi Ht Hp Hl].
  assert (∀ t, pending (<[deviceSetMetaFile := FSet n u s]> (vf v)) (vpl v) t ↔ pending (vf v) (vpl v) t) as Hpe.
  { intros t. unfold pending. by rewrite lookup_insert_ne. }
  split; simpl; try done.
  - intros f x. rewrite lookup_insert_Some. intros [[<- <-]|[_ Hx]]; [done|by apply Hf].
  - intros h' i Hg'. rewrite put_set_devfile by done. intros Hi' h2 i2 Hg2.
    rewrite put_set_devfile by done. by apply Hi.
  - intros t. rewrite lookup_insert_ne by done. apply Ht.
  - intros t H%Hpe. destruct (Hp t H) as (? & ? & Ho'). split_and!; [done|done|].
    intros h2 i2 Hg2. rewrite put_set_devfile by done. by apply Ho'.
  - intros h' Hg'. destruct (Hl h' Hg') as [Hx|(t & Hx & He)]; [left|right].
    + intros i. rewrite put_set_devfile by done. apply Hx.
    + exists t. by rewrite Hpe.
Qed.

Lemma Inv_put_set v n u s : Inv v → Inv (vset_files <[deviceSetMetaFile := FSet n u s]> v).
Proof.
  intros [HD Hli Hti Hm Hu]. split; simpl; try done.
  - by apply Durable_put_set.
  - intros h' Hg' i. rewrite put_set_devfile by done. by apply Hli.
  - intros h' i Hin. destruct (Hm h' i Hin). by rewrite put_set_devfile.
  - intros h' i Hg'. rewrite put_set_devfile by done. by apply Hu.
Qed.

Lemma Frame_put_set v0 h v n u s :
  Frame v0 h v → Frame v0 h (vset_files <[deviceSetMetaFile := FSet n u s]> v).
Proof.
  intros [HF HM]. split; simpl.
  - intros h' Hg Hne. destruct (HF h' Hg Hne). by rewrite put_set_devfile.
  - intros t [Ht Hlt]. rewrite lookup_insert_ne in Ht by done. by apply HM.
Qed.

(** A thin device is added. *)
Lemma Inv_thin_insert v id b :
  Inv v → Inv (vset_pool (set_thin <[id := b]>) v).
Proof.
  intros [[Hf Ho Hi Ht Hp Hl] Hli Hti Hm Hu].
  assert (∀ h', good_hash h' = true → live (vf v) (set_thin <[id := b]> (vpl v)) h') as Hlive.
  { intros h' Hg' i Hx. simpl. apply lookup_insert_is_Some'. right. by apply (Hli h'). }
  split; [split| | | |]; simpl; try done. intros h' Hg'. left. by apply Hlive.
Qed.

Lemma Frame_thin_insert v0 h v id b :
  Frame v0 h v → unowned (vf v) id → Frame v0 h (vset_pool (set_thin <[id := b]>) v).
Proof.
  intros [HF HM] Hun. split; [|done]. intros h' Hg Hne.
  destruct (HF h' Hg Hne) as [H1 H2]. simpl. split; [done|]. intros i Hi. rewrite lookup_insert_ne; [by apply H2|].
  intros ->. rewrite <-H1 in Hi. by apply (Hun h' i).
Qed.

(** A thin device that no file names is deleted. *)
Lemma Inv_thin_delete v id :
  Inv v → unowned (vf v) id → Inv (vset_pool (set_thin (delete id)) v).
Proof.
  intros [[Hf Ho Hi Ht Hp Hl] Hli Hti Hm Hu] Hun.
  assert (∀ h', good_hash h' = true → live (vf v) (set_thin (delete id) (vpl v)) h') as Hlive.
  { intros h' Hg' i Hx. simpl. rewrite lookup_delete_ne; [by apply (Hli h')|].
    intros ->. by apply (Hun h' i). }
  split; [split| | | |]; simpl; try done. intros h' Hg'. left. by apply Hlive.
Qed.

Lemma Frame_thin_delete v0 h v id :
  Frame v0 h v → owned (vf v) id h → Frame v0 h (vset_pool (set_thin (delete id)) v).
Proof.
  intros [HF HM] Hun. split; [|done]. intros h' Hg Hne.
  destruct (HF h' Hg Hne) as [H1 H2]. simpl. split; [done|]. intros i Hi. rewrite lookup_delete_ne; [by apply H2|].
  intros ->. rewrite <-H1 in Hi. by destruct Hne, (Hun h' i).
Qed.

(** The bit of an identifier that no file names is cleared. *)
Lemma Inv_free v m id n :
  Inv v → unowned (vf v) id → (∀ j, used m j ↔ j ≠ id ∧ used (deviceIDMap (vds v)) j) →
  Inv (vset_ds (with_ids n m) v).
Proof.
  intros [HD Hli Hti Hm Hu] Hun Hused. split; simpl; try done.
  - by apply (Durable_same v).
  - intros h i Hg Hi. apply Hused. split; [by eapply Hun|by eapply Hu].
Qed.

(** The file of a device is written, and the device is in memory. *)
Lemma Inv_put_file v h i :
  Inv v → good_hash h = true → valid_id (DeviceID i) → owned (vf v) (DeviceID i) h →
  is_Some (thin (vpl v) !! DeviceID i) → used (deviceIDMap (vds v)) (DeviceID i) →
  (∀ t, pending (vf v) (vpl v) t → tx_id t = DeviceID i → DeviceIDHash t = h) →
  Inv (vset_files <[metadataFile h := FDev i]> (vset_ds (with_Devices <[h := i]>) v)).
Proof.
  intros [[Hf Ho Hi Ht Hp Hl] Hli Hti Hm Hu] Hg Hid Hown Hth Hus Hpt.
  pose proof (good_file_ne h Hg) as (Hn1 & Hn2 & Hn3).
  assert (∀ h', good_hash h' = true → devfile (<[metadataFile h := FDev i]> (vf v)) h' =
            if decide (h' = h) then Some i else devfile (vf v) h') as Hdev.
  { intros h' Hg'. case_decide as Hh; [subst; apply devfile_insert|by apply devfile_put_ne]. }
  assert (∀ t, pending (<[metadataFile h := FDev i]> (vf v)) (vpl v) t ↔ pending (vf v) (vpl v) t) as Hpe.
  { intros t. unfold pending. by rewrite lookup_insert_ne. }
  assert (∀ h', good_hash h' = true → live (<[metadataFile h := FDev i]> (vf v)) (vpl v) h') as Hlive.
  { intros h' Hg' j. rewrite Hdev by done. case_decide; [by intros [= <-]|by apply Hli]. }
  split; [split| | | |]; simpl; try done.
  - intros f x. rewrite lookup_insert_Some. intros [[<- <-]|[_ Hx]]; [|by apply Hf].
    split_and!; [|by apply good_file|done]. unfold metadataFile. by case_bool_decide.
  - intros h1 i1 Hg1. rewrite Hdev by done. intros H1 h2 i2 Hg2. rewrite Hdev by done.
    repeat case_decide; simplify_eq; try done.
    + intros H2 He. by apply (Hown h2 i2).
    + intros [= <-] He. symmetry. by apply (Hown h1 i1).
    + intros H2 He. by apply (Hi h1 i1 Hg1 H1 h2 i2).
  - intros t. rewrite lookup_insert_ne by done. apply Ht.
  - intros t Hpend%Hpe. destruct (Hp t Hpend) as (? & ? & Ho'). split_and!; [done|done|].
    intros h2 i2 Hg2. rewrite Hdev by done. case_decide; [|by apply Ho'].
    intros [= <-] He. subst. symmetry. by apply Hpt.
  - intros h' Hg'. left. by apply Hlive.
  - intros h' j. rewrite lookup_insert_Some. intros [[<- <-]|[Hne Hj]].
    + split; [done|]. apply devfile_insert.
    + destruct (Hm h' j Hj) as [Hg' Hd]. split; [done|]. rewrite Hdev by done. by rewrite decide_False.
  - intros h' j Hg'. rewrite Hdev by done. case_decide; [by intros [= <-]|by apply Hu].
Qed.

Lemma Frame_put_file v0 h v x :
  Frame v0 h v → good_hash h = true → Frame v0 h (vset_files <[metadataFile h := x]> v).
Proof.
  intros [HF HM] Hg. split; simpl.
  - intros h' Hg' Hne. destruct (HF h' Hg' Hne) as [H1 H2]. by rewrite devfile_put_ne.
  - intros t [Ht Hlt]. rewrite lookup_insert_ne in Ht by (by apply good_file_ne). by apply HM.
Qed.

(** Transactions close. *)
Lemma Inv_close v t :
  Inv v → ptid (vpl v) ≤ t →
  (∀ t', vf v !! transactionMetaFile = Some (FTx t') → OpenTransactionID t' ≤ t) →
  Inv (vset_ds (with_TransactionID t) (vset_pool (set_ptid t) v)).
Proof.
  intros [[Hf Ho Hi Ht Hp Hl] Hli Hti Hm Hu] Hle Htx. split; [split| | | |]; simpl; try done.
  - intros t' Ht'. specialize (Htx t' Ht'). lia.
  - intros t' [Ht' Hlt]. simpl in Hlt. specialize (Htx t' Ht'). lia.
  - intros h' Hg'. left. by apply Hli.
Qed.

Lemma Frame_close v0 h v t :
  Frame v0 h v → ptid (vpl v) ≤ t →
  Frame v0 h (vset_ds (with_TransactionID t) (vset_pool (set_ptid t) v)).
Proof.
  intros [HF HM] Hle. split; [done|]. intros t' [Ht Hlt]. simpl in *. apply HM. split; [done|lia].
Qed.

(** ** A device whose thin device is gone and whose file is not *)

Record InvBut (h : string) (v : view) : Prop := {
  b_dur : Durable v;
  b_live : ∀ h', good_hash h' = true → h' ≠ h → live (vf v) (vpl v) h';
  b_tid : TransactionID (vds v) = ptid (vpl v);
  b_mem : ∀ h' i, h' ≠ h → Devices (vds v) !! h' = Some i → good_hash h' = true ∧ devfile (vf v) h' = Some i;
  b_used : ∀ h' i, good_hash h' = true → devfile (vf v) h' = Some i → used (deviceIDMap (vds v)) (DeviceID i);
}.

Lemma Inv_But h v : Inv v → InvBut h v.
Proof. intros [? ? ? ? ?]. split; auto. Qed.

Lemma InvBut_thin_delete v h id t :
  InvBut h v → pending (vf v) (vpl v) t → DeviceIDHash t = h → owned (vf v) id h →
  InvBut h (vset_pool (set_thin (delete id)) v).
Proof.
  intros [[Hf Ho Hi Ht Hp Hl] Hli Hti Hm Hu] Hpe Hth Hown.
  assert (∀ h', good_hash h' = true → h' ≠ h → live (vf v) (set_thin (delete id) (vpl v)) h') as Hlive.
  { intros h' Hg' Hne i Hx. simpl. rewrite lookup_delete_ne; [by apply (Hli h')|].
    intros ->. by destruct Hne, (Hown h' i). }
  split; [split| | | |]; simpl; try done.
  intros h' Hg'. destruct (decide (h' = h)) as [->|]; [right; by exists t|left; by apply Hlive].
Qed.

Lemma InvBut_forget v h : InvBut h v → InvBut h (vset_ds (with_Devices (delete h)) v).
Proof.
  intros [HD Hli Hti Hm Hu]. split; simpl; try done.
  - by apply (Durable_same v).
  - intros h' i Hne. rewrite lookup_delete_ne by done. by apply Hm.
Qed.

(** The file of the device is removed. *)
Lemma InvBut_remove v h :
  InvBut h v → good_hash h = true → Devices (vds v) !! h = None →
  Inv (vset_files (delete (metadataFile h)) v).
Proof.
  intros [[Hf Ho Hi Ht Hp Hl] Hli Hti Hm Hu] Hg HN.
  pose proof (good_file_ne h Hg) as (Hn1 & Hn2 & Hn3).
  set (m := delete (metadataFile h) (vf v)).
  assert (∀ h' i, good_hash h' = true → devfile m h' = Some i → h' ≠ h ∧ devfile (vf v) h' = Some i) as Hdev.
  { intros h' i Hg'. destruct (decide (h' = h)) as [->|Hne]; unfold m.
    - by rewrite devfile_delete.
    - by rewrite devfile_delete_ne. }
  assert (∀ t, pending m (vpl v) t ↔ pending (vf v) (vpl v) t) as Hpe.
  { intros t. unfold pending, m. by rewrite lookup_delete_ne. }
  assert (∀ h', good_hash h' = true → live m (vpl v) h') as Hlive.
  { intros h' Hg' i Hx%Hdev; [|done]. destruct Hx. by apply (Hli h'). }
  split; [split| | | |]; simpl; fold m; try done.
  - intros f x. unfold m. rewrite lookup_delete_Some. intros [_ Hx]. by apply Hf.
  - intros h1 i1 Hg1 [Hne1 H1]%Hdev; [|done]. intros h2 i2 Hg2 [Hne2 H2]%Hdev; [|done].
    by apply (Hi h1 i1).
  - intros t. unfold m. rewrite lookup_delete_ne by done. apply Ht.
  - intros t Hpend%Hpe. destruct (Hp t Hpend) as (? & ? & Ho'). split_and!; [done|done|].
    intros h2 i2 Hg2 [_ H2]%Hdev; [|done]. by apply Ho'.
  - intros h' Hg'. left. by apply Hlive.
  - intros h' i Hin. destruct (decide (h' = h)) as [->|Hne]; [congruence|].
    destruct (Hm h' i Hne Hin). split; [done|]. unfold m. by rewrite devfile_delete_ne.
  - intros h' i Hg' [_ Hd]%Hdev; [|done]. by apply (Hu h').
Qed.

Lemma Frame_remove v0 h v :
  Frame v0 h v → good_hash h = true → Frame v0 h (vset_files (delete (metadataFile h)) v).
Proof.
  intros [HF HM] Hg. split; simpl.
  - intros h' Hg' Hne. destruct (HF h' Hg' Hne) as [H1 H2]. by rewrite devfile_delete_ne.
  - intros t [Ht Hlt]. rewrite lookup_delete_ne in Ht by (by apply good_file_ne). by apply HM.
Qed.

(** ** The operations *)

(** [IF v0 h]: the invariant, with the devices other than [h] as in [v0];
    [CF v0 h]: the same of what a crash leaves. *)
Definition IF (v0 : view) (h : string) (v : view) : Prop := Inv v ∧ Frame v0 h v.
Definition CF (v0 : view) (h : string) (v : view) : Prop := Durable v ∧ Frame v0 h v.

Lemma IF_CF v0 h v : IF v0 h v → CF v0 h v.
Proof. intros [H ?]. split; [apply H|done]. Qed.
#[export] Hint Resolve IF_CF : dao.

(** Activations change neither. *)
Definition Act (v v' : view) : Prop := ∃ g, v' = vset_pool (set_active g) v.

Lemma Act_refl v : Act v v.
Proof. exists (λ x, x). by destruct v as [? ? ? []]. Qed.
Lemma Act_trans v1 v2 v3 : Act v1 v2 → Act v2 v3 → Act v1 v3.
Proof. intros [g ->] [g' ->]. by exists (λ x, g' (g x)). Qed.
#[export] Hint Resolve Act_refl : dao.

Lemma Act_IF v0 h v v' : Act v v' → IF v0 h v → IF v0 h v'.
Proof.
  intros [g ->] [HI HF]. split; [by apply (Inv_same v)|by apply (Frame_same _ _ v)].
Qed.
Lemma Act_CF v0 h v v' : Act v v' → CF v0 h v → CF v0 h v'.
Proof.
  intros [g ->] [HI HF]. split; [by apply (Durable_same v)|by apply (Frame_same _ _ v)].
Qed.

Section ops.
Context (c : config) (orc : nat → call → fate).
Context (RAMInBytes : string → option Z) (unicode_lower : string → string).

(** *** Activation *)

(** [acts m]: the only trace of [m] is in the activations. *)
Definition acts {A} (m : D A) : Prop := ∀ v, wp m (λ _, Act v) (Act v) v.

Lemma acts_ret {A} (a : A) : acts (mret a).
Proof. intros v. apply wp_ret, Act_refl. Qed.
Lemma acts_fail {A} e : acts (A:=A) (st_fail e).
Proof. intros v. apply wp_fail, Act_refl. Qed.
Lemma acts_bind {A B} (m : D A) (k : A → D B) : acts m → (∀ a, acts (k a)) → acts (m ≫= k).
Proof.
  intros Hm Hk v. apply wp_bind. eapply wp_conseq; [apply Hm| |done].
  intros [a|e] v' Ha; [|done]. eapply wp_conseq; [apply Hk| |]; intros; by eapply Act_trans.
Qed.
Lemma acts_try {A} (m : D A) : acts m → acts (st_try m).
Proof. intros Hm v. apply wp_try. eapply wp_conseq; [apply Hm| |]; done. Qed.
Lemma acts_wrap {A} (m : D A) : acts m → acts (wrap m).
Proof. intros Hm v. apply wp_wrap. eapply wp_conseq; [apply Hm| |]; done. Qed.
Lemma acts_ignore (m : D unit) : acts m → acts (ignore m).
Proof. intros Hm v. apply wp_ignore. eapply wp_conseq; [apply Hm| |]; done. Qed.
Lemma acts_deferred {A} (m : D A) cl : acts m → acts cl → acts (deferred m cl).
Proof.
  intros Hm Hc v. apply wp_deferred. eapply wp_conseq; [apply Hm| |done].
  intros r v' Ha. simpl in Ha. eapply wp_conseq; [apply Hc| |]; cbn; intros; by eapply Act_trans.
Qed.
Lemma acts_gets {A} (g : DeviceSet → A) : acts (st_gets (λ w, g (ds w))).
Proof. intros v. apply wp_gets_ds, Act_refl. Qed.
Lemma acts_ext {A} k (act : disk → pool → (A + dmerr) * disk * pool) :
  (∀ d p, ∃ r g, act d p = (r, d, set_active g p)) → acts (ext orc k act).
Proof.
  intros Ha v w <-. unfold ext. destruct (orc (clk w) k); [|apply Act_refl|split; [done|apply Act_refl]].
  destruct (Ha (dk w) (pl w)) as (r & g & ->). destruct r; by exists g.
Qed.
Lemma acts_unit k : acts (ext_unit orc k).
Proof. apply acts_ext. intros d p. exists (inl tt), (λ x, x). by destruct p. Qed.
Lemma acts_retry n m last : acts m → acts last → acts (retry_busy n m last).
Proof.
  intros Hm. revert last. induction n as [|n IH]; intros last Hl; simpl; [done|].
  apply acts_bind; [by apply acts_try|]. intros [?|[[]| | | | | | | | | | | | | |]]; try apply acts_fail.
  - apply acts_ret.
  - apply IH, acts_fail.
Qed.
End ops.

(** The specifications of the calls, and the walk over a program that uses
    them. *)
Create HintDb acts discriminated.

Ltac acts := repeat
  lazymatch goal with
  | |- ∀ _, _ => intros ?
  | |- acts (mret _) => apply acts_ret
  | |- acts (st_fail _) => apply acts_fail
  | |- acts (st_try _) => apply acts_try
  | |- acts (wrap _) => apply acts_wrap
  | |- acts (ignore _) => apply acts_ignore
  | |- acts (deferred _ _) => apply acts_deferred
  | |- acts (retry_busy _ _ _) => apply acts_retry
  | |- acts (st_gets ds) => apply (acts_gets (λ d, d))
  | |- acts (st_gets _) => apply acts_gets
  | |- acts (ext_unit _ _) => apply acts_unit
  | |- acts (match ?x with _ => _ end) => destruct x
  | |- acts (_ ≫= _) => apply acts_bind
  | |- acts _ => solve [ auto with acts nocore ]
  end.
