(* ===== verification/DeviceSetOps.v ===== *)
(** * What the operations of the device set keep

    The specifications of the operations of [DeviceSet], from the calls up to
    adding and deleting a device, in the logic of [DeviceSetLogic] and with the
    invariant of [DeviceSetInv]. *)

From S2P Require Import Prelude GoStrings DeviceIds DeviceSet DeviceSetLogic DeviceSetInv.
Open Scope Z_scope.

(** Calls on the pool that change activations at most. *)
Ltac solve_acts_ext :=
  apply acts_ext; intros d p; repeat case_match;
  first [ by eexists _, _ | by eexists _, (λ x, x); destruct p ].

Section ops.
Context (c : config) (orc : nat → call → fate).
Context (RAMInBytes : string → option Z) (unicode_lower : string → string).

Lemma acts_GetInfo n : acts (GetInfo orc n).
Proof. solve_acts_ext. Qed.
Lemma acts_ActivateDevice n id : acts (ActivateDevice orc n id).
Proof. solve_acts_ext. Qed.
Lemma acts_RemoveDevice n : acts (RemoveDevice orc n).
Proof. solve_acts_ext. Qed.
Lemma acts_RemoveDeviceDeferred n : acts (RemoveDeviceDeferred orc n).
Proof. solve_acts_ext. Qed.
Lemma acts_CancelDeferredRemove n : acts (CancelDeferredRemove orc n).
Proof. solve_acts_ext. Qed.
Lemma acts_Mount h : acts (Mount orc h).
Proof. solve_acts_ext. Qed.
Lemma acts_Unmount h : acts (Unmount orc h).
Proof. solve_acts_ext. Qed.
Lemma acts_getDeviceUUID h : acts (getDeviceUUID orc h).
Proof. solve_acts_ext. Qed.
Lemma acts_ProbeFsType h : acts (ProbeFsType orc h).
Proof. solve_acts_ext. Qed.
Lemma acts_poolStatus : acts (poolStatus orc).
Proof. solve_acts_ext. Qed.

Hint Resolve acts_GetInfo acts_ActivateDevice acts_RemoveDevice acts_RemoveDeviceDeferred
  acts_CancelDeferredRemove acts_Mount acts_Unmount acts_getDeviceUUID acts_ProbeFsType acts_poolStatus : acts.

Lemma acts_cancelDeferredRemoval h : acts (cancelDeferredRemoval c orc h).
Proof. unfold cancelDeferredRemoval. acts. Qed.
Hint Resolve acts_cancelDeferredRemoval : acts.

Lemma acts_activateDeviceIfNeeded h i b : acts (activateDeviceIfNeeded c orc h i b).
Proof. unfold activateDeviceIfNeeded. acts. Qed.

Lemma acts_deactivateDevice h : acts (deactivateDevice c orc h).
Proof. unfold deactivateDevice, removeDevice. acts. Qed.
Hint Resolve acts_activateDeviceIfNeeded acts_deactivateDevice : acts.

Lemma acts_issueDiscard h i : acts (issueDiscard c orc h i).
Proof. unfold issueDiscard. acts. Qed.

Lemma acts_growFS h i : acts (growFS c orc h i).
Proof. unfold growFS. acts. Qed.

Lemma acts_poolHasFreeSpace : acts (poolHasFreeSpace c orc).
Proof. unfold poolHasFreeSpace. acts. Qed.
End ops.

#[export] Hint Resolve acts_issueDiscard acts_growFS acts_poolHasFreeSpace acts_GetInfo
  acts_cancelDeferredRemoval acts_activateDeviceIfNeeded acts_deactivateDevice acts_Mount acts_Unmount
  acts_ProbeFsType acts_getDeviceUUID acts_poolStatus : acts.

(** A step that only activates keeps what the activations do not matter to. *)
Lemma wp_acts {A} (m : D A) (P : view → Prop) Q (C : view → Prop) v :
  acts m → (∀ v v', Act v v' → P v → P v') → (∀ v, P v → C v) → P v →
  (∀ r v', Act v v' → P v' → Q r v') → wp m Q C v.
Proof.
  intros Hm HP HC Hv HQ. eapply wp_conseq; [apply Hm| |]; simpl.
  - intros r v' Ha. apply HQ; [done|]. by eapply HP.
  - intros v' Ha. by eapply HC, HP.
Qed.

Section meta.
Context (c : config) (orc : nat → call → fate) (HR : meta_reliable orc).

(** ** Looking up *)

Lemma Inv_lookup v h i :
  Inv v → good_hash h = true → devfile (vf v) h = Some i →
  Inv (vset_ds (with_Devices <[h := i]>) v).
Proof.
  intros [HD Hl Ht Hm Hu] Hg Hi. split; simpl; try done.
  - by apply (Durable_same v).
  - intros h' j. rewrite lookup_insert_Some. intros [[<- <-]|[_ ?]]; [done|by apply Hm].
Qed.

(** The result of a look-up, and that it changes the memory only. *)
Definition looked (h : string) (v : view) (r : devInfo + derr) (v' : view) : Prop :=
  vf v' = vf v ∧ vold v' = vold v ∧ vpl v' = vpl v ∧ Inv v' ∧
  match r with
  | inl i => devfile (vf v') h = Some i ∧ Devices (vds v') !! h = Some i
  | inr _ => devfile (vf v') h = None ∧ Devices (vds v') !! h = None
  end.

Lemma wp_lookupDevice_exact h (C : view → Prop) v Q :
  (∀ f x, vf v !! f = Some x → file_ok f x) → good_hash h = true → C v →
  (∀ i, Devices (vds v) !! h = Some i → Q (inl i) v) →
  (∀ i, Devices (vds v) !! h = None → devfile (vf v) h = Some i →
        Q (inl i) (vset_ds (with_Devices <[h := i]>) v)) →
  (Devices (vds v) !! h = None → devfile (vf v) h = None → Q (inr (EUnknownDevice h)) v) →
  wp (lookupDevice orc h) Q C v.
Proof.
  intros Hok Hg HC H1 H2 H3. unfold lookupDevice. apply wp_bind, wp_gets_ds; simpl.
  destruct (Devices (vds v) !! h) as [i|] eqn:E; [apply wp_ret; by apply H1|].
  apply wp_bind. unfold loadMetadata. apply wp_bind, wp_try.
  apply wp_ReadFile; [done|by apply good_file_ne|done|]; simpl.
  pose proof (good_file_ne h Hg) as (Hn1 & Hn2 & _). specialize (Hok (metadataFile h)).
  unfold devfile in *. destruct (vf v !! metadataFile h) as [x|] eqn:Ef; simpl.
  - specialize (Hok x eq_refl). destruct x as [i| | |]; try done. destruct Hok as (_ & _ & Hv).
    simpl. rewrite (proj2 (Z.ltb_ge _ _)) by apply Hv. apply wp_ret; simpl.
    apply wp_bind, wp_set_ds, wp_ret. by apply H2.
  - apply wp_ret; simpl. apply wp_fail. by apply H3.
Qed.

Lemma wp_lookupDevice h (C : view → Prop) v :
  Inv v → good_hash h = true → C v →
  wp (lookupDevice orc h) (looked h v) C v.
Proof.
  intros HI Hg HC. apply wp_lookupDevice_exact; [apply (i_dur v HI)|done|done| | |].
  - intros i E. split_and!; [done|done|done|done| |done]. by destruct (i_mem v HI h i E).
  - intros i E Hd. split_and!; [done|done|done|by apply Inv_lookup|done|apply lookup_insert_eq].
  - intros E Hd. by split_and!.
Qed.

Lemma looked_Frame v0 t h v r v' : looked h v r v' → Frame v0 t v → Frame v0 t v'.
Proof. intros (Hf & Ho & Hp & _) HF. apply (Frame_same v0 t v); [|done]. split_and!; [done|done|by rewrite Hp..]. Qed.

(** ** Identifiers *)

Lemma wp_nextFree (C : view → Prop) v Q :
  (∀ id m, valid_id id → ¬ used (deviceIDMap (vds v)) id →
     (∀ j, used m j ↔ j = id ∨ used (deviceIDMap (vds v)) j) →
     Q (inl id) (vset_ds (with_ids id m) v)) →
  (∀ n, Q (inr ENoFreeID) (vset_ds (with_ids n (deviceIDMap (vds v))) v)) →
  wp nextFree Q C v.
Proof.
  intros HQ HE. unfold nextFree. apply wp_bind, wp_gets_ds'; simpl.
  destruct (getNextFreeDeviceID_spec (deviceIDMap (vds v)) (NextDeviceID (vds v)))
    as [(d & id & m & -> & _ & Hv & Hn & Hu & _)|[-> _]].
  - apply wp_bind, wp_set_ds, wp_ret. by apply HQ.
  - apply wp_bind, wp_set_ds, wp_fail. apply HE.
Qed.

Lemma wp_markFree id (C : view → Prop) v Q :
  valid_id id →
  (∀ m, (∀ j, used m j ↔ j ≠ id ∧ used (deviceIDMap (vds v)) j) →
     Q (inl tt) (vset_ds (with_ids (NextDeviceID (vds v)) m) v)) →
  wp (markFree id) Q C v.
Proof.
  intros Hv HQ. unfold markFree, on_ids. apply wp_bind, wp_gets_ds'; simpl.
  destruct (markDeviceIDFree_spec (deviceIDMap (vds v)) id Hv) as (m & -> & Hm).
  apply wp_set_ds. by apply HQ.
Qed.

(** ** The pool *)

Lemma wp_DeleteThin id (C : view → Prop) v Q :
  C v → (∀ e, Q (inr e) v) → Q (inl tt) (vset_pool (set_thin (delete id)) v) →
  wp (DeleteThin orc id) Q C v.
Proof.
  intros HC HE HQ w <-. unfold DeleteThin, ext. destruct (orc (clk w) _); [|by apply HE|by split].
  destruct (thin (pl w) !! id); [|by apply HE]. destruct (thin_busy id (pl w)); [by apply HE|exact HQ].
Qed.

Lemma wp_CreateDevice id (C : view → Prop) v Q :
  C v → (∀ e, Q (inr e) v) →
  (∀ b, Q (inl tt) (vset_pool (set_thin <[id := b]>) v)) →
  wp (CreateDevice orc id) Q C v.
Proof.
  intros HC HE HQ w <-. unfold CreateDevice, ext. destruct (orc (clk w) _); [|by apply HE|by split].
  destruct (thin (pl w) !! id); [by apply HE|]. by apply (HQ (mkBlk "" "" 0)).
Qed.

Lemma wp_create_snap id o (C : view → Prop) v Q :
  C v → (∀ e, Q (inr e) v) →
  (∀ b, thin (vpl v) !! o = Some b → Q (inl tt) (vset_pool (set_thin <[id := b]>) v)) →
  wp (create_snap orc id o) Q C v.
Proof.
  intros HC HE HQ w <-. unfold create_snap, ext. destruct (orc (clk w) _); [|by apply HE|by split].
  destruct (thin (pl w) !! id); [by apply HE|].
  destruct (thin (pl w) !! o) as [b|] eqn:E; [|by apply HE]. by apply HQ.
Qed.

(** ** Transactions *)

Lemma wp_openTransaction h id (C : view → Prop) v Q :
  let v1 := vset_ds (with_txn (mkTx (TransactionID (vds v) + 1) h id)) v in
  C v1 → (∀ e, Q (inr e) v1) →
  Q (inl tt) (vset_files <[transactionMetaFile := FTx (mkTx (TransactionID (vds v) + 1) h id)]> v1) →
  wp (openTransaction orc h id) Q C v.
Proof.
  intros v1 HC HE HQ. unfold openTransaction, allocateTransactionID.
  apply wp_bind, wp_bind, wp_gets_ds, wp_set_ds, wp_bind, wp_set_ds, wp_bind, wp_set_ds, wp_wrap.
  unfold saveTransactionMetaData. apply wp_bind, (wp_gets_ds txn). cbn beta iota.
  apply wp_writeMetaFile; [done|exact HC|intros e; apply HE|exact HQ].
Qed.

Lemma wp_refreshTransaction id (C : view → Prop) v Q :
  let t := mkTx (OpenTransactionID (txn (vds v))) (DeviceIDHash (txn (vds v))) id in
  let v1 := vset_ds (with_txn t) v in
  C v1 → (∀ e, Q (inr e) v1) → Q (inl tt) (vset_files <[transactionMetaFile := FTx t]> v1) →
  wp (refreshTransaction orc id) Q C v.
Proof.
  intros t v1 HC HE HQ. unfold refreshTransaction. apply wp_bind, wp_set_ds, wp_wrap.
  unfold saveTransactionMetaData. apply wp_bind, (wp_gets_ds txn). cbn beta iota.
  apply wp_writeMetaFile; [done|exact HC|intros e; apply HE|exact HQ].
Qed.

Lemma wp_closeTransaction (C : view → Prop) v Q :
  let t := OpenTransactionID (txn (vds v)) in
  C v → (∀ e, Q (inr e) v) →
  (TransactionID (vds v) = ptid (vpl v) →
   Q (inl tt) (vset_ds (with_TransactionID t) (vset_pool (set_ptid t) v))) →
  wp (closeTransaction orc) Q C v.
Proof.
  intros t HC HE HQ. unfold closeTransaction, updatePoolTransactionID.
  apply wp_bind, wp_gets_ds'; simpl. apply wp_bind, wp_wrap.
  intros w <-. unfold SetTransactionID, ext. destruct (orc (clk w) _); [|by apply HE|by split].
  simpl. destruct (Z.eqb_spec (ptid (pl w)) (TransactionID (ds w))) as [Heq|]; [|by apply HE].
  apply wp_set_ds. by apply HQ.
Qed.

Lemma wp_registerDevice id h size tid (C : view → Prop) v Q :
  let i := mkInfo id size tid false false in
  let v1 := vset_ds (with_Devices <[h := i]>) v in
  good_hash h = true → C v1 →
  (∀ e, Q (inr e) (vset_ds (with_Devices (delete h)) v1)) →
  Q (inl i) (vset_files <[metadataFile h := FDev i]> v1) →
  wp (registerDevice orc id h size tid) Q C v.
Proof.
  intros i v1 Hg HC HE HQ. unfold registerDevice. apply wp_bind, wp_set_ds, wp_bind, wp_try.
  apply wp_writeMetaFile; [by apply good_file_ne|exact HC| |].
  - intros e. apply wp_bind, wp_set_ds, wp_fail. apply HE.
  - by apply wp_ret.
Qed.

Lemma wp_unregisterDevice id h (C : view → Prop) v Q :
  let v1 := vset_ds (with_Devices (delete h)) v in
  C v1 → Q (inl tt) (vset_files (delete (metadataFile h)) v1) →
  wp (unregisterDevice orc id h) Q C v.
Proof.
  intros v1 HC HQ. unfold unregisterDevice, removeMetadata. apply wp_bind, wp_set_ds, wp_wrap.
  by apply wp_RemoveAll.
Qed.

(** ** Creating a thin device *)

(** The transaction in memory and on disk is for [h]. *)
Definition TxMem (h : string) (id : Z) (v : view) : Prop :=
  txn (vds v) = mkTx (ptid (vpl v) + 1) h id.
Definition TxDisk (h : string) (v : view) : Prop :=
  ∃ t, vf v !! transactionMetaFile = Some (FTx t) ∧ DeviceIDHash t = h ∧
       OpenTransactionID t = ptid (vpl v) + 1.

(** What a call that creates a thin device does: the new device has contents
    in [R]. *)
Definition made (v0 : view) (h : string) (R : view → blk → Prop) (id : Z) (v : view) : Prop :=
  ∃ b v1, thin (vpl v) !! id = Some b ∧ IF v0 h v1 ∧ R v1 b.

Definition makes (R : view → blk → Prop) (mk : Z → D unit) : Prop := ∀ v0 h id v,
  IF v0 h v → unowned (vf v) id →
  wp (mk id) (λ r v', vds v' = vds v ∧ vf v' = vf v ∧ ptid (vpl v') = ptid (vpl v) ∧ IF v0 h v' ∧
      match r with inl _ => made v0 h R id v' | inr _ => True end) (CF v0 h) v.

Lemma made_some v0 h R id v : made v0 h R id v → is_Some (thin (vpl v) !! id).
Proof. intros (b & _ & -> & _). eauto. Qed.

Lemma makes_CreateDevice : makes (λ _ _, True) (CreateDevice orc).
Proof.
  intros v0 h id v [HI HF] Hun. apply wp_CreateDevice.
  - by apply IF_CF.
  - intros e. split_and!; done.
  - intros b. split_and!; try done.
    + split; [by apply Inv_thin_insert|by apply Frame_thin_insert].
    + exists b, v. simpl. by rewrite lookup_insert_eq.
Qed.

(** After the activations of [Act], the same holds. *)
Lemma Act_facts v v' : Act v v' →
  vds v' = vds v ∧ vf v' = vf v ∧ ptid (vpl v') = ptid (vpl v) ∧ thin (vpl v') = thin (vpl v).
Proof. by intros [g ->]. Qed.

Definition snapshot (base : Z) (v : view) (b : blk) : Prop := thin (vpl v) !! base = Some b.

Lemma makes_CreateSnapDevice name base :
  makes (snapshot base) (λ id, CreateSnapDevice orc id name base).
Proof.
  intros v0 h id v HIF Hun. unfold CreateSnapDevice. apply wp_bind.
  eapply (wp_acts _ (IF v0 h)); [acts|apply Act_IF|apply IF_CF|done|].
  intros r v1 Ha1 H1. destruct r as [r|e]; [|by destruct (Act_facts _ _ Ha1) as (? & ? & ? & ?)].
  set (b := match r with inl (Some _) => true | _ => false end). simpl.
  apply wp_bind.
  eapply (wp_acts _ (IF v0 h)); [acts|apply Act_IF|apply IF_CF|done|].
  intros r2 v2 Ha2 H2. pose proof (Act_trans _ _ _ Ha1 Ha2) as Ha.
  destruct (Act_facts _ _ Ha) as (Hd & Hf & Hp & Ht).
  destruct r2 as [[]|e]; [|by split_and!]. simpl.
  apply wp_bind, wp_try. destruct H2 as [HI2 HF2].
  apply wp_create_snap.
  - by apply IF_CF.
  - intros e. apply wp_bind.
    eapply (wp_acts _ (IF v0 h)); [acts|apply Act_IF|apply IF_CF|done|].
    intros r3 v3 Ha3 H3. destruct (Act_facts _ _ (Act_trans _ _ _ Ha Ha3)) as (? & ? & ? & ?).
    destruct r3; [apply wp_fail|]; by split_and!.
  - intros blk Hb. set (v3 := vset_pool _ v2).
    assert (IF v0 h v3) as H3.
    { split; [by apply Inv_thin_insert|apply Frame_thin_insert; [done|by rewrite Hf]]. }
    eapply (wp_acts _ (IF v0 h)); [acts|apply Act_IF|apply IF_CF|done|].
    intros r4 v4 Ha4 H4. destruct (Act_facts _ _ Ha4) as (E1 & E2 & E3 & E4).
    unfold made. rewrite E1, E2, E3, E4. simpl. split_and!; try done. destruct r4; [|done].
    exists blk, v2. by rewrite lookup_insert_eq.
Qed.

(** ** The loop that creates *)

Record Creating (v0 : view) (h : string) (id : Z) (v : view) : Prop := {
  cr_if : IF v0 h v;
  cr_mem : TxMem h id v;
  cr_disk : TxDisk h v;
  cr_valid : valid_id id;
  cr_used : used (deviceIDMap (vds v)) id;
  cr_unowned : unowned (vf v) id;
  cr_new : devfile (vf v) h = None ∧ Devices (vds v) !! h = None;
}.

Lemma Creating_if v0 h id v : Creating v0 h id v → IF v0 h v.
Proof. by intros []. Qed.

(** An identifier that is not used has no owner. *)
Lemma unused_unowned v id : Inv v → ¬ used (deviceIDMap (vds v)) id → unowned (vf v) id.
Proof. intros HI Hn h i Hg Hd <-. by apply Hn, (i_used v HI h). Qed.

Lemma unowned_owned m id h : unowned m id → owned m id h.
Proof. intros Hu h' i Hg Hd He. by destruct (Hu h' i Hg Hd). Qed.

(** The steps between two tries. *)
Lemma Creating_next v0 h id v id' m :
  good_hash h = true → Creating v0 h id v → valid_id id' → ¬ used (deviceIDMap (vds v)) id' →
  (∀ j, used m j ↔ j = id' ∨ used (deviceIDMap (vds v)) j) →
  let v1 := vset_ds (with_txn (mkTx (OpenTransactionID (txn (vds v))) (DeviceIDHash (txn (vds v))) id'))
              (vset_ds (with_ids id' m) v) in
  Creating v0 h id' v1 ∧
  Creating v0 h id' (vset_files <[transactionMetaFile :=
     FTx (mkTx (OpenTransactionID (txn (vds v))) (DeviceIDHash (txn (vds v))) id')]> v1).
Proof.
  intros Hg [[HI HF] Hme Hdi Hv Hu Hun [Hn1 Hn2]] Hv' Hnu Hm v1.
  assert (Inv v1) as HI1.
  { apply (Inv_same v); [done|done|done| |done]. intros j Hj. apply Hm. by right. }
  assert (Frame v0 h v1) as HF1 by by apply (Frame_same _ _ v).
  assert (unowned (vf v) id') as Hun' by by apply unused_unowned.
  assert (used (deviceIDMap (vds v1)) id') as Hu1 by (apply Hm; by left).
  unfold v1. unfold TxMem in Hme. rewrite Hme. simpl. split.
  { split; try done. split; [apply (Inv_same v1)|apply (Frame_same _ _ v1)]; done. }
  split; try done; simpl.
  - split.
    + apply (Inv_put_tx (vset_ds (with_txn (mkTx (ptid (vpl v) + 1) h id')) (vset_ds (with_ids id' m) v))).
      * by apply (Inv_same v1).
      * done.
      * done.
      * by apply unowned_owned.
    + apply Frame_put_tx; [by apply (Frame_same _ _ v1)|done].
  - exists (mkTx (ptid (vpl v) + 1) h id'). split; [apply lookup_insert_eq|done].
  - intros h' i Hg' Hd. rewrite devfile_insert_ne in Hd by (by apply good_file_ne). by eapply Hun'.
  - split; [|done]. rewrite devfile_insert_ne; [done|by apply good_file_ne].
Qed.

(** One turn: done, or an error, or another identifier and fewer free ones. *)
Lemma create_turn_spec R mk v0 h id w :
  makes R mk → good_hash h = true → Creating v0 h id (view_of w) →
  match create_turn orc mk (id, w) with
  | inl (id', w') => Creating v0 h id' (view_of w') ∧
      (free (deviceIDMap (ds w')) < free (deviceIDMap (ds w)))%nat
  | inr (Ok id', w') => Creating v0 h id' (view_of w') ∧ made v0 h R id' (view_of w')
  | inr (Err _, w') => IF v0 h (view_of w')
  | inr (Panic s, w') => s = crash ∧ CF v0 h (view_of w')
  end.
Proof.
  intros Hmk Hg HC. pose proof HC as [HIF Hme Hdi Hv Hu Hun Hn]. unfold create_turn.
  pose proof (Hmk v0 h id (view_of w) HIF Hun w eq_refl) as H.
  destruct (mk id w) as [[[]|e|s] w1]; [| |done]; destruct H as (E1 & E2 & E3 & HIF1 & Hth).
  { split; [|done]. split; [done| | |done| | |]; unfold TxMem, TxDisk; by rewrite ?E1, ?E2, ?E3. }
  assert (Creating v0 h id (view_of w1)) as HC1
    by (split; [done| | |done| | |]; unfold TxMem, TxDisk; by rewrite ?E1, ?E2, ?E3).
  assert (match markFree id w1 with
          | (Panic s, w2) => s = crash ∧ CF v0 h (view_of w2)
          | (_, w2) => IF v0 h (view_of w2)
          end) as Hfree.
  { pose proof (wp_markFree id (CF v0 h) (view_of w1) (λ _, IF v0 h) Hv) as Hw.
    assert (wp (markFree id) (λ _ : () + derr, IF v0 h) (CF v0 h) (view_of w1)) as Hw'.
    { apply Hw. intros m Hm. destruct HC1 as [[HI1 HF1] _ _ _ _ Hun1 _].
      split; [by eapply Inv_free|by apply (Frame_same _ _ (view_of w1))]. }
    specialize (Hw' w1 eq_refl). by destruct (markFree id w1) as [[?|?|?] w2]. }
  destruct e as [[]| | | | | | | | | | | | | |];
    try (by destruct (markFree id w1) as [[?|?|?] w2]).
  assert (wp nextFree (λ r v, match r with
      | inl id' => wp (ignore (refreshTransaction orc id')) (λ r v', match r with
          | inl _ => Creating v0 h id' v' ∧ (free (deviceIDMap (vds v')) < free (deviceIDMap (ds w)))%nat
          | inr _ => False end) (CF v0 h) v
      | inr _ => IF v0 h v end) (CF v0 h) (view_of w1)) as Hnf.
  { apply wp_nextFree.
    - intros id' m Hv' Hnu Hm. destruct (Creating_next v0 h id (view_of w1) id' m) as [Hc1 Hc2]; try done.
      assert (free m < free (deviceIDMap (ds w)))%nat as Hfr.
      { simpl in E1. rewrite <-E1. by eapply (free_decreases _ _ id'). }
      apply wp_ignore, wp_refreshTransaction; [by apply IF_CF; destruct Hc1|done|done].
    - intros n. destruct HIF1 as [HI1 HF1].
      split; [by apply (Inv_same (view_of w1))|by apply (Frame_same _ _ (view_of w1))]. }
  specialize (Hnf w1 eq_refl). destruct (nextFree w1) as [[id'|e|s] w2]; [|done|done].
  specialize (Hnf w2 eq_refl). by destruct (ignore _ w2) as [[?|?|?] w3].
Qed.

Lemma create_loop_spec R mk v0 h id v :
  makes R mk → good_hash h = true → Creating v0 h id v →
  wp (create_loop orc mk id) (λ r v', match r with
      | inl id' => Creating v0 h id' v' ∧ made v0 h R id' v'
      | inr _ => IF v0 h v' end) (CF v0 h) v.
Proof.
  intros Hmk Hg HC w <-. unfold create_loop. rewrite until_pos_spec.
  pose proof (free_bound (deviceIDMap (ds w))) as Hb.
  assert (free (deviceIDMap (ds w)) < Pos.to_nat (Z.to_pos (ids + 1)))%nat as Hlt.
  { assert (Z.to_nat ids < Pos.to_nat (Z.to_pos (ids + 1)))%nat; [|lia].
    apply Nat2Z.inj_lt. rewrite positive_nat_Z, Z2Nat.id by done. done. }
  clear Hb. set (n := Pos.to_nat _) in *. clearbody n. revert id w HC Hlt.
  induction n as [|n IH]; intros id w HC Hlt; [lia|].
  cbn [until]. pose proof (create_turn_spec R mk v0 h id w Hmk Hg HC) as Ht.
  destruct (create_turn orc mk (id, w)) as [[id' w']|[[?|?|?] w']]; try done.
  destruct Ht as [HC' Hf]. apply IH; [done|lia].
Qed.

(** ** Registering what was created *)

Lemma IF_open v0 h v id t :
  IF v0 h v → good_hash h = true → valid_id id → owned (vf v) id h →
  t = TransactionID (vds v) + 1 →
  IF v0 h (vset_files <[transactionMetaFile := FTx (mkTx t h id)]> (vset_ds (with_txn (mkTx t h id)) v)).
Proof.
  intros [HI HF] Hg Hv Ho ->. rewrite (i_tid v HI). set (v1 := vset_ds _ v). split.
  - apply (Inv_put_tx v1); [by apply (Inv_same v)|done..].
  - apply Frame_put_tx; [by apply (Frame_same _ _ v)|done].
Qed.

Lemma IF_memory v0 h v v' :
  IF v0 h v → same_durable v v' → Devices (vds v') = Devices (vds v) →
  TransactionID (vds v') = TransactionID (vds v) →
  (∀ i, used (deviceIDMap (vds v)) i → used (deviceIDMap (vds v')) i) → IF v0 h v'.
Proof. intros [HI HF] Hs Hd Ht Hu. split; [by apply (Inv_same v)|by apply (Frame_same _ _ v)]. Qed.

(** The identifier is given back, after the thin device was deleted or not. *)
Lemma wp_give_back {A} v0 h id e v (Q : A + derr → view → Prop) :
  IF v0 h v → valid_id id → unowned (vf v) id →
  (∀ v', IF v0 h v' → vf v' = vf v → Devices (vds v') = Devices (vds v) → Q (inr e) v') →
  wp (ignore (DeleteThin orc id) ;; markFree id ;; st_fail e) Q (CF v0 h) v.
Proof.
  intros [HI HF] Hv Hun HQ. apply wp_bind, wp_ignore.
  assert (∀ v1, IF v0 h v1 → vf v1 = vf v → Devices (vds v1) = Devices (vds v) →
            wp (markFree id ;; st_fail e) Q (CF v0 h) v1) as Hk.
  { intros v1 [HI1 HF1] Hf Hd. apply wp_bind, wp_markFree; [done|]. intros m Hm.
    apply wp_fail, HQ; [|done|done]. split; [eapply Inv_free; [done|by rewrite Hf|done]|by apply (Frame_same _ _ v1)]. }
  apply wp_DeleteThin; [by apply IF_CF|by intros _; apply Hk|]. apply Hk; [|done|done].
  split; [by apply Inv_thin_delete|by apply Frame_thin_delete; [|apply unowned_owned]].
Qed.

Lemma Creating_register v0 h id v i :
  Creating v0 h id v → good_hash h = true → is_Some (thin (vpl v) !! id) → DeviceID i = id →
  IF v0 h (vset_files <[metadataFile h := FDev i]> (vset_ds (with_Devices <[h := i]>) v)).
Proof.
  intros [[HI HF] _ (t & Ht & Hth & _) Hv Hu Hun _] Hg Hsome He. subst id. split.
  - apply Inv_put_file; try done; [by apply unowned_owned|].
    intros t' [Ht' _] _. congruence.
  - apply (Frame_put_file _ _ (vset_ds (with_Devices <[h := i]>) v)); [by apply (Frame_same _ _ v)|done].
Qed.

Lemma create_register_spec R mk v0 h size v :
  makes R mk → good_hash h = true → IF v0 h v →
  devfile (vf v) h = None → Devices (vds v) !! h = None →
  wp (create_register orc mk h size) (λ r v', IF v0 h v' ∧
      match r with
      | inl i => Devices (vds v') !! h = Some i ∧ Size i = size ∧ made v0 h R (DeviceID i) v'
      | inr _ => True end) (CF v0 h) v.
Proof.
  intros Hmk Hg HIF Hn1 Hn2. unfold create_register. apply wp_bind, wp_nextFree.
  2:{ intros n. split; [by apply (IF_memory v0 h v)|done]. }
  intros id0 m Hv Hnu Hm. set (v1 := vset_ds (with_ids id0 m) v).
  assert (unowned (vf v) id0) as Hun by (apply unused_unowned; [apply HIF|done]).
  assert (IF v0 h v1) as HIF1.
  { apply (IF_memory v0 h v); try done. intros j Hj. apply Hm. by right. }
  apply wp_bind, wp_try, wp_openTransaction.
  { apply IF_CF. by apply (IF_memory v0 h v1). }
  { intros e. apply wp_bind, wp_markFree; [done|]. intros m' Hm'. apply wp_fail. split; [|done].
    split; [eapply (Inv_free (vset_ds (with_txn _) v1)); [by apply (Inv_same v1); [..|apply HIF1]|done|done]|].
    apply (Frame_same _ _ v1); [done|apply HIF1]. }
  assert (IF v0 h (vset_files <[transactionMetaFile := FTx (mkTx (TransactionID (vds v1) + 1) h id0)]>
            (vset_ds (with_txn (mkTx (TransactionID (vds v1) + 1) h id0)) v1))) as HIF2.
  { apply IF_open; try done. by apply unowned_owned. }
  assert (TransactionID (vds v) = ptid (vpl v)) as Htid by apply HIF.
  apply wp_bind. eapply wp_conseq; [apply (create_loop_spec R mk v0 h id0)|..|done]; try done.
  { split; [done| | |done| | |].
    - unfold TxMem. simpl. by rewrite Htid.
    - exists (mkTx (TransactionID (vds v1) + 1) h id0). split; [apply lookup_insert_eq|].
      simpl. by rewrite Htid.
    - simpl. apply Hm. by left.
    - intros h' i Hg'. simpl. rewrite devfile_insert_ne by (by apply good_file_ne). by apply Hun.
    - simpl. rewrite devfile_insert_ne by (by apply good_file_ne). done. }
  intros [id|e] v2; [|done]. intros [HC Hth].
  apply wp_bind, (wp_gets_ds (λ d, OpenTransactionID (txn d))). cbn beta iota.
  apply wp_bind, wp_try, wp_registerDevice; [done| | |].
  - destruct HC as [[HI2 HF2] _ _ _ _ _ _].
    split; [apply (Durable_same v2); [done|apply HI2]|by apply (Frame_same _ _ v2)].
  - intros e. destruct HC as [HIF3 _ _ Hv3 _ Hun3 [_ HN]].
    apply wp_give_back; [|done|done|done].
    apply (IF_memory v0 h v2); try done. simpl. by apply delete_insert_id.
  - set (i := mkInfo id size _ false false).
    pose proof (Creating_register v0 h id v2 i HC Hg (made_some _ _ _ _ _ Hth) eq_refl) as HIF4.
    set (v4 := vset_files <[metadataFile h := FDev i]> (vset_ds (with_Devices <[h := i]>) v2)) in *.
    pose proof (cr_mem _ _ _ _ HC) as Hme. unfold TxMem in Hme.
    assert (OpenTransactionID (txn (vds v4)) = ptid (vpl v4) + 1) as Hopen
      by (simpl; by rewrite Hme).
    apply wp_bind, wp_try, wp_closeTransaction; [by apply IF_CF| |].
    + intros e. apply wp_bind, wp_ignore, wp_unregisterDevice.
      { destruct HIF4. split; [apply (Durable_same v4); [done|apply i_dur; done]|by apply (Frame_same _ _ v4)]. }
      assert (IF v0 h (vset_files (delete (metadataFile h)) (vset_ds (with_Devices (delete h)) v4))) as HIF5.
      { destruct HIF4 as [HI4 HF4]. split.
        - apply InvBut_remove; [by apply InvBut_forget, Inv_But|done|apply lookup_delete_eq].
        - apply Frame_remove; [by apply (Frame_same _ _ v4)|done]. }
      apply wp_give_back; [done|by destruct HC| |done].
      intros h' j Hg' Hd. destruct (decide (h' = h)) as [->|Hne].
      { simpl in Hd. by rewrite devfile_delete in Hd. }
      simpl in Hd. rewrite devfile_delete_ne in Hd by done. rewrite devfile_put_ne in Hd by done.
      by apply (cr_unowned _ _ _ _ HC h').
    + intros _. apply wp_ret. split; [|split_and!; [apply lookup_insert_eq|done|done]].
      destruct HIF4 as [HI4 HF4]. split.
      * apply Inv_close; [done|lia|]. intros t' Ht'. rewrite Hopen. by apply (d_tx v4 (i_dur v4 HI4)).
      * apply Frame_close; [done|lia].
Qed.

(** ** Deleting *)

(** In the middle of a transaction on [h]. *)
Definition Within (v0 : view) (h : string) (v : view) : Prop :=
  IF v0 h v ∧ OpenTransactionID (txn (vds v)) = ptid (vpl v) + 1.

Lemma Within_memory v0 h v v' :
  Within v0 h v → same_durable v v' → Devices (vds v') = Devices (vds v) →
  TransactionID (vds v') = TransactionID (vds v) → txn (vds v') = txn (vds v) →
  (∀ i, used (deviceIDMap (vds v)) i → used (deviceIDMap (vds v')) i) → Within v0 h v'.
Proof.
  intros [HIF Ho] Hs Hd Ht Hx Hu. split; [by apply (IF_memory v0 h v)|].
  destruct Hs as (_ & _ & _ & Hp). by rewrite Hx, Hp.
Qed.

(** Nothing is left of a device. *)
Definition gone (h : string) (v : view) : Prop :=
  devfile (vf v) h = None ∧ Devices (vds v) !! h = None.

Lemma wp_close_within v0 h v :
  Within v0 h v →
  wp (ignore (closeTransaction orc)) (λ _ v', IF v0 h v' ∧ (gone h v → gone h v')) (CF v0 h) v.
Proof.
  intros [HIF Ho]. apply wp_ignore, wp_closeTransaction; [by apply IF_CF|done|].
  intros _. split; [|done]. destruct HIF as [HI HF]. split; [|apply Frame_close; [done|lia]].
  apply Inv_close; [done|lia|]. intros t Ht. rewrite Ho. by apply (d_tx v (i_dur v HI)).
Qed.

Lemma wp_markForDeferredDeletion v0 h v i :
  Within v0 h v → TxDisk h v → good_hash h = true →
  Devices (vds v) !! h = Some i → devfile (vf v) h = Some i →
  wp (markForDeferredDeletion orc h i) (λ _, Within v0 h) (CF v0 h) v.
Proof.
  intros HW (t & Ht & Hth & _) Hg HD Hd. pose proof HW as [[HI HF] Ho].
  unfold markForDeferredDeletion. destruct (Deleted i); [by apply wp_ret|].
  set (i' := mkInfo _ _ _ _ true). apply wp_bind, wp_set_ds, wp_bind, wp_try.
  apply wp_writeMetaFile; [by apply good_file_ne| | |].
  - split; [apply (Durable_same v); [done|apply HI]|by apply (Frame_same _ _ v)].
  - intros e. apply wp_bind, wp_set_ds, wp_fail. apply (Within_memory v0 h v); try done. simpl.
    apply map_eq. intros k. destruct (decide (k = h)) as [->|].
    + rewrite !lookup_alter_eq, HD. done.
    + by rewrite !lookup_alter_ne.
  - apply wp_set_ds.
    assert (alter (λ _, i') h (Devices (vds v)) = <[h := i']> (Devices (vds v))) as Ha.
    { apply map_eq. intros k. destruct (decide (k = h)) as [->|].
      - by rewrite lookup_alter_eq, lookup_insert_eq, HD.
      - by rewrite lookup_alter_ne, lookup_insert_ne. }
    set (v1 := vset_files <[metadataFile h := FDev i']> (vset_ds (with_Devices <[h := i']>) v)).
    apply (Within_memory v0 h v1); try done. split; [split|done].
    + apply Inv_put_file; try done.
      * by apply (devfile_valid v h i); [apply HI|].
      * by apply (d_ids v (i_dur v HI) h i).
      * by apply (i_live v HI h Hg i).
      * by apply (i_used v HI h i).
      * intros t' [Ht' _] _. congruence.
    + apply (Frame_put_file _ _ (vset_ds (with_Devices <[h := i']>) v)); [by apply (Frame_same _ _ v)|done].
Qed.

(** The thin device is gone: so are the file, the entry and the bit. *)
Lemma wp_after_delete v0 h v t i :
  Within v0 h v → pending (vf v) (vpl v) t → DeviceIDHash t = h → good_hash h = true →
  devfile (vf v) h = Some i →
  wp (unregisterDevice orc (DeviceID i) h ;;
      (if Deleted i then set_nrDeleted (λ n, n - 1) else mret tt) ;;
      markFree (DeviceID i)) (λ _ v', Within v0 h v' ∧ gone h v') (CF v0 h)
     (vset_pool (set_thin (delete (DeviceID i))) v).
Proof.
  intros [[HI HF] Ho] Hp Ht Hg Hd.
  assert (owned (vf v) (DeviceID i) h) as Hown by by apply (d_ids v (i_dur v HI)).
  set (v1 := vset_pool _ v).
  assert (InvBut h v1) as Hb by (eapply InvBut_thin_delete; [by apply Inv_But|done..]).
  assert (Frame v0 h v1) as HF1 by by apply Frame_thin_delete.
  apply wp_bind, wp_unregisterDevice.
  { split; [apply (Durable_same v1); [done|apply Hb]|by apply (Frame_same _ _ v1)]. }
  set (v2 := vset_files _ _).
  assert (Inv v2) as HI2.
  { apply InvBut_remove; [by apply InvBut_forget|done|apply lookup_delete_eq]. }
  assert (Frame v0 h v2) as HF2.
  { apply Frame_remove; [by apply (Frame_same _ _ v1)|done]. }
  assert (unowned (vf v2) (DeviceID i)) as Hun.
  { intros h' j Hg' Hj He. destruct (decide (h' = h)) as [->|Hne].
    - unfold v2 in Hj. simpl in Hj. by rewrite devfile_delete in Hj.
    - unfold v2 in Hj. simpl in Hj. rewrite devfile_delete_ne in Hj by done.
      by destruct Hne, (Hown h' j Hg' Hj He). }
  assert (gone h v2) as Hgone by (split; [apply devfile_delete|apply lookup_delete_eq]).
  assert (∀ v3, Within v0 h v3 → vf v3 = vf v2 → Devices (vds v3) = Devices (vds v2) →
            wp (markFree (DeviceID i)) (λ (_ : () + derr) v', Within v0 h v' ∧ gone h v') (CF v0 h) v3) as Hk.
  { intros v3 [[HI3 HF3] Ho3] Hf3 Hd3. apply wp_markFree; [by apply (devfile_valid v h); [apply HI|]|].
    intros m Hm. split; [split; [split|done]|unfold gone; simpl; by rewrite Hf3, Hd3].
    - eapply Inv_free; [done|by rewrite Hf3|done].
    - by apply (Frame_same _ _ v3). }
  apply wp_bind. destruct (Deleted i).
  - apply wp_set_ds, Hk; [|done|done]. by apply (Within_memory v0 h v2).
  - apply wp_ret. by apply Hk.
Qed.

(** The outcome of a deletion: one that has to be immediate leaves nothing. *)
Definition deleted (v0 : view) (h : string) (sync : bool) (r : unit + derr) (v : view) : Prop :=
  IF v0 h v ∧ match r with inl _ => sync = true → gone h v | inr _ => True end.

Lemma deleteTransaction_spec v0 h v i b :
  IF v0 h v → good_hash h = true → Devices (vds v) !! h = Some i → devfile (vf v) h = Some i →
  wp (deleteTransaction c orc h i b) (deleted v0 h b) (CF v0 h) v.
Proof.
  intros HIF Hg HD Hd. unfold deleteTransaction.
  assert (Inv v) as HI by apply HIF.
  assert (owned (vf v) (DeviceID i) h) as Hown by by apply (d_ids v (i_dur v HI)).
  apply wp_bind, wp_openTransaction.
  { apply IF_CF. by apply (IF_memory v0 h v). }
  { intros e. split; [by apply (IF_memory v0 h v)|done]. }
  set (t := mkTx (TransactionID (vds v) + 1) h (DeviceID i)).
  set (v1 := vset_files _ _).
  assert (Within v0 h v1) as HW.
  { split; [apply IF_open; try done; by apply (devfile_valid v h); [apply HI|]|].
    simpl. by rewrite (i_tid v HI). }
  assert (vf v1 !! transactionMetaFile = Some (FTx t)) as Htx by apply lookup_insert_eq.
  assert (devfile (vf v1) h = Some i) as Hd1.
  { unfold v1. simpl. rewrite devfile_insert_ne; [done|by apply good_file_ne]. }
  apply wp_deferred.
  eapply (wp_conseq _ (λ r v', Within v0 h v' ∧
    match r with inl _ => b = true → gone h v' | inr _ => True end) _ (CF v0 h)); [| |done].
  2:{ intros r v' [Hv' Hr]. eapply wp_conseq; [by apply wp_close_within| |done].
      intros _ v2 [H2 Hgo]. split; [done|]. destruct r; auto. }
  apply wp_bind, wp_try, wp_DeleteThin.
  - by apply IF_CF; destruct HW.
  - intros e. destruct b; [by apply wp_fail|]. destruct (_ || _); [by apply wp_fail|].
    eapply wp_conseq; [apply wp_markForDeferredDeletion| |]; try done.
    + exists t. split_and!; [done|done|]. simpl. by rewrite (i_tid v HI).
    + intros r v' H'. split; [done|]. by destruct r.
  - eapply wp_conseq; [apply (wp_after_delete v0 h v1 t)| |]; try done.
    + split; [done|]. simpl. rewrite (i_tid v HI). lia.
    + intros r v' [H' Hgo]. split; [done|]. by destruct r.
Qed.

Lemma wp_acts_IF {A B} (m : D A) (k : A → D B) v0 h v Q :
  acts m → IF v0 h v → (∀ e v', IF v0 h v' → Q (inr e) v') →
  (∀ a v', Act v v' → IF v0 h v' → wp (k a) Q (CF v0 h) v') → wp (m ≫= k) Q (CF v0 h) v.
Proof.
  intros Hm HIF HE HK. apply wp_bind. eapply (wp_acts _ (IF v0 h)); [done|apply Act_IF|apply IF_CF|done|].
  intros [a|e] v' Ha H'; [by apply HK|by apply HE].
Qed.

Lemma deleteDevice_spec v0 h v i b :
  IF v0 h v → good_hash h = true → Devices (vds v) !! h = Some i → devfile (vf v) h = Some i →
  wp (deleteDevice c orc h i b) (deleted v0 h b) (CF v0 h) v.
Proof.
  intros HIF Hg HD Hd. unfold deleteDevice.
  apply wp_acts_IF; [acts|done|by split|]. intros _ v1 Ha1 H1.
  apply wp_acts_IF; [acts|done|by split|]. intros _ v2 Ha2 H2.
  destruct (Act_facts _ _ (Act_trans _ _ _ Ha1 Ha2)) as (E1 & E2 & _ & _).
  apply deleteTransaction_spec; by rewrite ?E1, ?E2.
Qed.

Lemma DeleteDevice_spec v0 h v b :
  IF v0 h v → good_hash h = true → wp (DeleteDevice c orc h b) (deleted v0 h b) (CF v0 h) v.
Proof.
  intros HIF Hg. unfold DeleteDevice. apply wp_bind.
  eapply wp_conseq; [apply wp_lookupDevice; [apply HIF|done|by apply IF_CF]| |done].
  intros r v1 Hl. assert (IF v0 h v1) as H1.
  { split; [apply Hl|]. eapply looked_Frame; [done|apply HIF]. }
  destruct Hl as (_ & _ & _ & _ & Hr). destruct r as [i|e]; [|by split]. destruct Hr.
  by apply deleteDevice_spec.
Qed.

(** ** Adding *)

Lemma wp_looked {B} h h' (k : devInfo + derr → D B) v0 v Q :
  IF v0 h' v → good_hash h = true →
  (∀ r v', looked h v r v' → IF v0 h' v' → wp (k r) Q (CF v0 h') v') →
  wp (st_try (lookupDevice orc h) ≫= k) Q (CF v0 h') v.
Proof.
  intros HIF Hg HK. apply wp_bind, wp_try.
  eapply wp_conseq; [apply wp_lookupDevice; [apply HIF|done|by apply IF_CF]| |done].
  intros r v1 Hl. apply HK; [done|]. split; [apply Hl|]. eapply looked_Frame; [done|apply HIF].
Qed.

Lemma wp_looked' {B} h h' (k : devInfo → D B) v0 v (Q : B + derr → view → Prop) :
  IF v0 h' v → good_hash h = true →
  (∀ e v', looked h v (inr e) v' → IF v0 h' v' → Q (inr e) v') →
  (∀ i v', looked h v (inl i) v' → IF v0 h' v' → wp (k i) Q (CF v0 h') v') →
  wp (lookupDevice orc h ≫= k) Q (CF v0 h') v.
Proof.
  intros HIF Hg HE HK. apply wp_bind.
  eapply wp_conseq; [apply wp_lookupDevice; [apply HIF|done|by apply IF_CF]| |done].
  intros r v1 Hl. assert (IF v0 h' v1) by (split; [apply Hl|]; eapply looked_Frame; [done|apply HIF]).
  destruct r as [i|e]; [by apply HK|by apply HE].
Qed.

Lemma createRegisterSnapDevice_spec v0 h b bi size v :
  good_hash h = true → IF v0 h v → devfile (vf v) h = None → Devices (vds v) !! h = None →
  wp (createRegisterSnapDevice c orc h b bi size) (λ r v', IF v0 h v' ∧
      match r with
      | inl _ => ∃ i, Devices (vds v') !! h = Some i ∧ Size i = size ∧
                      made v0 h (snapshot (DeviceID bi)) (DeviceID i) v'
      | inr _ => True end) (CF v0 h) v.
Proof.
  intros Hg HIF Hn1 Hn2. unfold createRegisterSnapDevice.
  apply wp_acts_IF; [acts|done|done|]. intros _ v1 Ha H1.
  destruct (Act_facts _ _ Ha) as (E1 & E2 & _ & _). apply wp_bind.
  eapply wp_conseq; [apply (create_register_spec (snapshot (DeviceID bi)) _ v0 h); [apply makes_CreateSnapDevice|done|done|..]| |done].
  - by rewrite E2.
  - by rewrite E1.
  - intros [i|e] v2 [H2 Hr]; [apply wp_ret; eauto|done].
Qed.

(** The outcome of adding a device: it is registered, and what is on it is
    what is on its base. *)
Definition added (v0 : view) (h b : string) (r : unit + derr) (v : view) : Prop :=
  IF v0 h v ∧
  match r with
  | inl _ => ∃ i bi, Devices (vds v) !! h = Some i ∧ devfile (vf v0) b = Some bi ∧ Size bi ≤ Size i ∧
               is_Some (thin (vpl v0) !! DeviceID bi) ∧
               thin (vpl v) !! DeviceID i = thin (vpl v0) !! DeviceID bi
  | inr _ => True
  end.

Lemma added_acts v0 h b v v' r :
  added v0 h b (inl ()) v → Act v v' → added v0 h b r v'.
Proof.
  intros [HIF (i & bi & H1 & H2 & H3 & H4 & H5)] Ha. split; [by eapply Act_IF|].
  destruct (Act_facts _ _ Ha) as (E1 & _ & _ & E4). destruct r; [|done].
  exists i, bi. by rewrite E1, E4.
Qed.

Lemma AddDevice_spec ram low h b opts v :
  Inv v → good_hash h = true → good_hash b = true →
  wp (AddDevice c orc ram low h b opts) (added v h b) (CF v h) v.
Proof.
  intros HI Hg Hb. assert (IF v h v) as HIF by (split; [done|apply Frame_refl]).
  unfold AddDevice. apply (wp_looked' b h); [done|done|by split|].
  intros bi v1 Hl1 H1. destruct (Deleted bi); [by apply wp_fail|].
  apply (wp_looked h h); [done|done|]. intros [i|e] v2 Hl H2; [by apply wp_fail|].
  apply wp_bind.
  assert (wp (parseStorageOpt ram low opts) (λ r v', v' = v2) (CF v h) v2) as Hp.
  { unfold parseStorageOpt. destruct opts as [|[k x] ?]; [by apply wp_ret|].
    case_bool_decide; [|by apply wp_fail]. destruct (ram x); [by apply wp_ret|by apply wp_fail]. }
  eapply wp_conseq; [exact Hp| |done]. intros [size|e'] ? ->; [|by split].
  destruct (Z.ltb_spec (if size =? 0 then Size bi else size) (Size bi)) as [|Hle]; [by apply wp_fail|].
  destruct Hl as (Hf & _ & _ & _ & Hn1 & Hn2).
  apply wp_bind. eapply wp_conseq; [by apply createRegisterSnapDevice_spec| |done].
  intros [[]|e''] v3 [H3 Hr]; [|by split].
  assert (added v h b (inl tt) v3) as Hadd.
  { split; [done|]. destruct Hr as (i & Hi & Hsz & b' & v' & Hth & Hv' & Hsn).
    destruct Hl1 as (Hf1 & _ & _ & _ & Hd & _). rewrite Hf1 in Hd.
    exists i, bi. unfold snapshot in Hsn.
    assert (b ≠ h) as Hbh. { intros ->. rewrite Hf, Hf1 in Hn1. congruence. }
    destruct H3 as [_ HF3], Hv' as [_ HF'].
    pose proof (proj2 (f_devs _ _ _ HF' b Hb Hbh) bi Hd) as Hb'. rewrite Hb' in Hsn.
    split_and!; [done|done|by rewrite Hsz|by rewrite Hsn|by rewrite Hth, Hsn]. }
  destruct (Size bi <? _); [|by apply wp_ret].
  apply wp_bind, wp_lookupDevice_exact; [apply H3|done|by apply IF_CF| | |];
    [|destruct Hadd as [_ (i & _ & Hi & _)]; congruence..].
  intros i Hi.
  eapply (wp_acts _ (λ v', added v h b (inl tt) v')); [acts| | |done|].
  - intros v4 v5 Ha H4. by eapply added_acts.
  - intros v4 [H4 _]. by apply IF_CF.
  - intros r v4 _ H4. eapply added_acts; [done|apply Act_refl].
Qed.

(** ** The other operations *)

Lemma cleanupDeletedDevices_spec v :
  Inv v → wp (cleanupDeletedDevices c orc) (λ _, Inv) Durable v.
Proof.
  intros HI. unfold cleanupDeletedDevices. apply wp_bind, wp_gets_ds'; simpl.
  destruct (nrDeletedDevices (vds v) =? 0); [by apply wp_ret|].
  eapply wp_conseq; [apply (wp_each _ Inv); [|done]| |done]; [|by intros [] ?].
  intros [h i] v1 Hin H1. apply wp_ignore. simpl.
  eapply wp_conseq; [apply (DeleteDevice_spec v1 h v1)|..].
  - split; [done|apply Frame_refl].
  - apply list_elem_of_filter in Hin as [_ Hin%elem_of_map_to_list].
    by destruct (i_mem v HI h i Hin).
  - by intros r v' [[] _].
  - by intros v' [].
Qed.

Lemma Remove_spec v0 h v :
  IF v0 h v → good_hash h = true → wp (Remove c orc h) (λ _, IF v0 h) (CF v0 h) v.
Proof.
  intros HIF Hg. unfold Remove, HasDevice. apply wp_bind. apply (wp_looked h h); [done|done|].
  intros r v1 _ H1. apply wp_ret. destruct r; simpl; [|by apply wp_ret].
  apply wp_bind. eapply wp_conseq; [by apply DeleteDevice_spec| |done].
  intros [[]|e] v2 [H2 _]; [|done].
  apply wp_ext_unit; [by apply IF_CF|done|done].
Qed.

(** An operation that only looks up and activates. *)
Lemma wp_lookup_acts {B} h v (k : devInfo → D B) :
  Inv v → good_hash h = true → (∀ i, acts (k i)) →
  wp (lookupDevice orc h ≫= k) (λ _ v', ∀ t, IF v t v') (λ v', ∀ t, CF v t v') v.
Proof.
  intros HI Hg Hk. apply wp_bind.
  eapply wp_conseq; [apply (wp_lookupDevice h (λ v', ∀ t, CF v t v')); [done|done|]| |done].
  { intros t. split; [apply HI|apply Frame_refl]. }
  intros r v1 Hl. assert (∀ t, IF v t v1) as H1.
  { intros t. split; [apply Hl|]. eapply looked_Frame; [done|apply Frame_refl]. }
  destruct r as [i|e]; [|done].
  eapply (wp_acts _ (λ v', ∀ t, IF v t v')); [apply Hk| | |done|done].
  - intros v2 v3 Ha H2 t. by eapply Act_IF.
  - intros v2 H2 t. by apply IF_CF.
Qed.

Lemma MountDevice_spec h v :
  Inv v → good_hash h = true →
  wp (MountDevice c orc h) (λ _ v', ∀ t, IF v t v') (λ v', ∀ t, CF v t v') v.
Proof. intros HI Hg. apply wp_lookup_acts; [done|done|]. intros i. acts. Qed.

Lemma UnmountDevice_spec h v :
  Inv v → good_hash h = true →
  wp (UnmountDevice c orc h) (λ _ v', ∀ t, IF v t v') (λ v', ∀ t, CF v t v') v.
Proof. intros HI Hg. apply wp_lookup_acts; [done|done|]. intros i. acts. Qed.

Lemma wp_saveDeviceSetMetaData (C : view → Prop) v Q :
  C v → (∀ e, Q (inr e) v) →
  Q (inl tt) (vset_files <[deviceSetMetaFile := FSet (NextDeviceID (vds v)) (BaseDeviceUUID (vds v))
                (BaseDeviceFilesystem (vds v))]> v) →
  wp (saveDeviceSetMetaData orc) Q C v.
Proof.
  intros HC HE HQ. unfold saveDeviceSetMetaData. apply wp_bind, wp_gets_ds'; simpl.
  by apply wp_writeMetaFile.
Qed.

Lemma wp_try_deactivate h v :
  Inv v → good_hash h = true →
  wp (r ← st_try (lookupDevice orc h);
      match r with inl _ => ignore (deactivateDevice c orc h) | inr _ => mret tt end)
    (λ r v', match r with inl _ => ∀ t, IF v t v' | inr _ => False end) (λ v', ∀ t, CF v t v') v.
Proof.
  intros HI Hg. apply wp_bind, wp_try.
  eapply wp_conseq; [apply (wp_lookupDevice h (λ v', ∀ t, CF v t v')); [done|done|]| |done].
  { intros t. split; [apply HI|apply Frame_refl]. }
  intros r v1 Hl. assert (∀ t, IF v t v1) as H1.
  { intros t. split; [apply Hl|]. eapply looked_Frame; [done|apply Frame_refl]. }
  destruct r as [i|e]; [|by apply wp_ret]. apply wp_ignore.
  eapply (wp_acts _ (λ v', ∀ t, IF v t v')); [acts| | |done|done].
  - intros v2 v3 Ha H2 t. by eapply Act_IF.
  - intros v2 H2 t. by apply IF_CF.
Qed.
End meta.
