(* ===== verification/DeviceSetBoot.v ===== *)
(** * Starting the device set

    What a start of the daemon makes of the files and the pool it finds: the
    devices are loaded, an open transaction is rolled back and the base device
    is set up. *)

From S2P Require Import Prelude GoStrings DeviceIds DeviceSet DeviceSetLogic DeviceSetInv DeviceSetOps.
Open Scope Z_scope.

(** ** Programs that keep the invariant *)

Definition keeps {A} (m : D A) : Prop := ∀ v, Inv v → wp m (λ _, Inv) Durable v.

Lemma keeps_ret {A} (a : A) : keeps (mret a).
Proof. intros v HI. by apply wp_ret. Qed.
Lemma keeps_fail {A} e : keeps (A:=A) (st_fail e).
Proof. intros v HI. by apply wp_fail. Qed.
Lemma dkeeps_bind {A B} (m : D A) (k : A → D B) : keeps m → (∀ a, keeps (k a)) → keeps (m ≫= k).
Proof.
  intros Hm Hk v HI. apply wp_bind. eapply wp_conseq; [by apply Hm| |done].
  intros [a|e] v' H'; [by apply Hk|done].
Qed.
Lemma dkeeps_try {A} (m : D A) : keeps m → keeps (st_try m).
Proof. intros Hm v HI. apply wp_try. eapply wp_conseq; [by apply Hm| |]; done. Qed.
Lemma keeps_wrap {A} (m : D A) : keeps m → keeps (wrap m).
Proof. intros Hm v HI. apply wp_wrap. eapply wp_conseq; [by apply Hm| |]; done. Qed.
Lemma keeps_ignore (m : D unit) : keeps m → keeps (ignore m).
Proof. intros Hm v HI. apply wp_ignore. eapply wp_conseq; [by apply Hm| |]; done. Qed.
Lemma keeps_deferred {A} (m : D A) cl : keeps m → keeps cl → keeps (deferred m cl).
Proof.
  intros Hm Hc v HI. apply wp_deferred. eapply wp_conseq; [by apply Hm| |done].
  intros r v' H'. simpl in H'. eapply wp_conseq; [by apply Hc| |]; done.
Qed.
Lemma keeps_gets {A} (g : DeviceSet → A) : keeps (st_gets (λ w, g (ds w))).
Proof. intros v HI. by apply wp_gets_ds. Qed.
Lemma keeps_each {A} (f : A → D unit) l : (∀ x, x ∈ l → keeps (f x)) → keeps (each f l).
Proof.
  intros Hf. induction l as [|x l IH]; simpl; [apply keeps_ret|].
  apply dkeeps_bind; [apply Hf; by left|]. intros _. apply IH. intros y Hy. apply Hf. by right.
Qed.
Lemma keeps_acts {A} (m : D A) : acts m → keeps m.
Proof.
  intros Hm v HI. eapply (wp_acts _ Inv); [done| |apply i_dur|done|done].
  intros v1 v2 [g ->] H1. by apply (Inv_same v1).
Qed.
(** An assignment to a field that the invariant does not read. *)
Lemma keeps_set_ds f :
  (∀ d, Devices (f d) = Devices d ∧ TransactionID (f d) = TransactionID d ∧ deviceIDMap (f d) = deviceIDMap d) →
  keeps (set_ds f).
Proof.
  intros Hf v HI. apply wp_set_ds. destruct (Hf (vds v)) as (E1 & E2 & E3).
  apply (Inv_same v); [done|done|done|by rewrite <-E3|done].
Qed.

Create HintDb keeps discriminated.

Ltac keeps := repeat
  lazymatch goal with
  | |- ∀ _, _ => intros ?
  | |- keeps (mret _) => apply keeps_ret
  | |- keeps (st_fail _) => apply keeps_fail
  | |- keeps (st_try _) => apply dkeeps_try
  | |- keeps (wrap _) => apply keeps_wrap
  | |- keeps (ignore _) => apply keeps_ignore
  | |- keeps (deferred _ _) => apply keeps_deferred
  | |- keeps (st_gets ds) => apply (keeps_gets (λ d, d))
  | |- keeps (st_gets _) => apply keeps_gets
  | |- keeps (ext_unit _ _) => apply keeps_acts, acts_unit
  | |- keeps (set_base _ _) => by apply keeps_set_ds
  | |- keeps (set_filesystem _) => by apply keeps_set_ds
  | |- keeps (match ?x with _ => _ end) => destruct x
  | |- keeps (_ ≫= _) => apply dkeeps_bind
  | |- keeps _ => first [ solve [ auto with keeps nocore ] | apply keeps_acts; solve [ acts ] ]
  end.

Section boot.
Context (c : config) (orc : nat → call → fate) (HR : meta_reliable orc).

Lemma keeps_lookupDevice h : good_hash h = true → keeps (lookupDevice orc h).
Proof.
  intros Hg v HI. eapply wp_conseq; [apply wp_lookupDevice; [done|done|done|by apply i_dur]| |done].
  intros r v' Hl. apply Hl.
Qed.

Lemma keeps_DeleteDevice h b : good_hash h = true → keeps (DeleteDevice c orc h b).
Proof.
  intros Hg v HI. eapply wp_conseq; [apply (DeleteDevice_spec c orc HR v h v)|..].
  - split; [done|apply Frame_refl].
  - done.
  - by intros r v' [[] _].
  - by intros v' [].
Qed.

Lemma keeps_saveDeviceSetMetaData : keeps (saveDeviceSetMetaData orc).
Proof.
  intros v HI. apply wp_saveDeviceSetMetaData; [by apply i_dur|done|by apply Inv_put_set].
Qed.

(** mkfs overwrites a thin device that exists. *)
Lemma keeps_mkfs cmd h fs : keeps (mkfs c orc cmd h fs).
Proof.
  intros v HI w <-. unfold mkfs, ext. destruct (orc (clk w) _); [|done|split; [done|apply i_dur, HI]].
  destruct (active (pl w) !! Name h) as [a|]; [|done].
  destruct HI as [[Hf Ho Hi Ht Hp Hl] Hli Hti Hm Hu].
  assert (∀ h', good_hash h' = true → live (visible (dk w))
      (set_thin (alter (λ b, mkBlk (new_uuid c) fs (b_data b)) (a_id a)) (pl w)) h') as Hlive.
  { intros h' Hg' i Hx. simpl. destruct (Hli h' Hg' i Hx) as [b Hb]. simpl in Hb.
    destruct (decide (DeviceID i = a_id a)) as [E|].
    - rewrite <-E, lookup_alter_eq, Hb. eauto.
    - rewrite lookup_alter_ne by done. eauto. }
  split; [split| | | |]; simpl; try done. intros h' Hg'. left. by apply Hlive.
Qed.
Hint Resolve keeps_lookupDevice keeps_DeleteDevice keeps_saveDeviceSetMetaData keeps_mkfs : keeps.

Lemma keeps_createFilesystem h : keeps (createFilesystem c orc h).
Proof. unfold createFilesystem, saveBaseDeviceFilesystem. keeps. Qed.

Lemma keeps_saveBaseDeviceUUID h i : keeps (saveBaseDeviceUUID c orc h i).
Proof. unfold saveBaseDeviceUUID. keeps. Qed.

Lemma keeps_verifyBaseDeviceUUIDFS h i : keeps (verifyBaseDeviceUUIDFS c orc h i).
Proof. unfold verifyBaseDeviceUUIDFS, saveBaseDeviceFilesystem. keeps. Qed.
Hint Resolve keeps_createFilesystem keeps_saveBaseDeviceUUID keeps_verifyBaseDeviceUUIDFS : keeps.

(** ** The base device *)

Lemma good_base : good_hash "" = true.
Proof. done. Qed.

(** Programs that leave the devices in memory as they are. *)
Definition still {A} (m : D A) : Prop :=
  ∀ v, wp m (λ _ v', Devices (vds v') = Devices (vds v)) (λ _, True) v.

Lemma still_bind {A B} (m : D A) (k : A → D B) : still m → (∀ a, still (k a)) → still (m ≫= k).
Proof.
  intros Hm Hk v. apply wp_bind. eapply wp_conseq; [by apply Hm| |done].
  intros [a|e] v' H'; [|done]. eapply wp_conseq; [apply Hk| |done]. simpl. congruence.
Qed.
Lemma still_try {A} (m : D A) : still m → still (st_try m).
Proof. intros Hm v. apply wp_try. eapply wp_conseq; [by apply Hm| |]; done. Qed.
Lemma still_acts {A} (m : D A) : acts m → still m.
Proof. intros Hm v. eapply wp_conseq; [by apply Hm| |done]. by intros r v' [g ->]. Qed.
Lemma still_mkfs cmd h fs : still (mkfs c orc cmd h fs).
Proof.
  intros v w <-. unfold mkfs, ext. destruct (orc (clk w) _); [|done|done].
  by destruct (active (pl w) !! Name h).
Qed.
Lemma still_set_base u fs : still (set_base u fs).
Proof. intros v. by apply wp_set_ds. Qed.
Lemma still_set_filesystem fs : still (set_filesystem fs).
Proof. intros v. by apply wp_set_ds. Qed.
Lemma still_saveDeviceSetMetaData : still (saveDeviceSetMetaData orc).
Proof. intros v. by apply wp_saveDeviceSetMetaData. Qed.

Lemma still_deferred {A} (m : D A) cl : still m → still cl → still (deferred m cl).
Proof.
  intros Hm Hc v. apply wp_deferred. eapply wp_conseq; [by apply Hm| |done].
  intros r v' H'. simpl in H'. eapply wp_conseq; [by apply Hc| |done]. simpl. congruence.
Qed.
Lemma still_wrap {A} (m : D A) : still m → still (wrap m).
Proof. intros Hm v. apply wp_wrap. eapply wp_conseq; [by apply Hm| |]; done. Qed.

Local Ltac still_step := first
  [ apply still_saveDeviceSetMetaData | apply still_mkfs | apply still_set_base | apply still_set_filesystem
  | apply still_try | apply still_deferred | apply still_wrap | apply still_acts; solve [ acts ]
  | apply still_bind; [|intros ?] | progress case_match ].

Lemma still_createFilesystem h : still (createFilesystem c orc h).
Proof.
  unfold createFilesystem, saveBaseDeviceFilesystem.
  repeat still_step.
Qed.

Lemma still_setupVerify i : still (setupVerifyBaseImageUUIDFS c orc i).
Proof.
  unfold setupVerifyBaseImageUUIDFS, saveBaseDeviceUUID, verifyBaseDeviceUUIDFS, saveBaseDeviceFilesystem.
  repeat still_step.
Qed.

Lemma wp_and {A} (m : D A) Q1 Q2 (C1 C2 : view → Prop) v :
  wp m Q1 C1 v → wp m Q2 C2 v → wp m (λ r v', Q1 r v' ∧ Q2 r v') C1 v.
Proof.
  intros H1 H2 w Hw. specialize (H1 w Hw). specialize (H2 w Hw).
  by destruct (m w) as [[a|e|x] w'].
Qed.

(** The record of a device in memory is replaced and saved, with the same
    identifier; when the file cannot be written, [undo] is run. *)
Lemma wp_resave {A} h i i' (undo : derr → D A) (k : D A) v :
  Inv v → good_hash h = true → Devices (vds v) !! h = Some i → DeviceID i' = DeviceID i →
  keeps k →
  (∀ e, wp (undo e) (λ _, Inv) Durable (vset_ds (with_Devices (alter (λ _, i') h)) v)) →
  wp (set_Devices (alter (λ _, i') h) ;;
      r ← st_try (saveMetadata orc h i');
      match r with inl _ => k | inr e => undo e end) (λ _, Inv) Durable v.
Proof.
  intros HI Hg HD He Hk Hundo. destruct (i_mem v HI h i HD) as [_ Hd].
  assert (alter (λ _, i') h (Devices (vds v)) = <[h := i']> (Devices (vds v))) as Ha.
  { apply map_eq. intros j. destruct (decide (j = h)) as [->|].
    - by rewrite lookup_alter_eq, lookup_insert_eq, HD.
    - by rewrite lookup_alter_ne, lookup_insert_ne. }
  apply wp_bind, wp_set_ds, wp_bind, wp_try.
  apply wp_writeMetaFile; [by apply good_file_ne| |by intros e|].
  { apply (Durable_same v); [done|by apply i_dur]. }
  apply Hk. pose proof (i_dur v HI) as Hdur.
  assert (Inv (vset_files <[metadataFile h := FDev i']> (vset_ds (with_Devices <[h := i']>) v))) as H'.
  { apply Inv_put_file; rewrite ?He; try done.
    - by apply (devfile_valid v h i).
    - by apply (d_ids v Hdur h i).
    - by apply (i_live v HI h Hg i).
    - by apply (i_used v HI h i).
    - intros t Hp Ht. destruct (d_pending v Hdur t Hp) as (_ & _ & Hown). symmetry. by apply (Hown h i). }
  eapply (Inv_same _ _); [| | | |exact H']; try done.
Qed.

Lemma createBaseImage_keeps v :
  Inv v → gone "" v → wp (createBaseImage c orc) (λ _, Inv) Durable v.
Proof.
  intros HI [Hn1 Hn2]. unfold createBaseImage. apply wp_bind.
  eapply wp_conseq; [apply (create_register_spec orc HR (λ _ _, True) _ v "");
    [apply makes_CreateDevice|done|split; [done|apply Frame_refl]|done|done]| |by intros v' []].
  intros [i|e] v1 [[H1 _] HD]; [destruct HD as (HD & _)|done].
  (* activation and mkfs leave the map of devices alone *)
  apply wp_bind. eapply (wp_acts _ (λ v', Inv v' ∧ Devices (vds v') !! "" = Some i)); [acts| | |done|].
  { intros v2 v3 [g ->] [H2 H3]. split; [by apply (Inv_same v2)|done]. }
  { intros v2 [H2 _]. by apply i_dur. }
  intros [[]|e] v2 _ [H2 HD2]; [|done].
  apply wp_bind.
  assert (wp (createFilesystem c orc "") (λ _ v', Inv v' ∧ Devices (vds v') = Devices (vds v2)) Durable v2) as Hfs.
  { eapply wp_and; [by apply keeps_createFilesystem|apply still_createFilesystem]. }
  eapply wp_conseq; [exact Hfs| |done]. intros [[]|e] v3 [H3 HE]; [|done].
  apply (wp_resave "" i); [done|done|by rewrite HE|done|keeps|]. intros e.
  apply wp_bind, wp_set_ds, wp_fail. apply (Inv_same v3); [done| |done|done|done]. simpl.
  apply map_eq. intros k. destruct (decide (k = "")) as [->|].
  - by rewrite !lookup_alter_eq, HE, HD2.
  - by rewrite !lookup_alter_ne.
Qed.

Lemma keeps_checkGrowBaseDeviceFS i v :
  Inv v → Devices (vds v) !! "" = Some i → wp (checkGrowBaseDeviceFS c orc i) (λ _, Inv) Durable v.
Proof.
  intros HI HD. unfold checkGrowBaseDeviceFS, getBaseDeviceSize.
  destruct (negb (userBaseSize c)); [by apply wp_ret|].
  apply wp_bind, wp_bind, wp_try.
  apply wp_lookupDevice_exact; [done|apply (i_dur v HI)|done|by apply i_dur| | |]; try congruence.
  intros i' Hi'. apply wp_ret. destruct (_ <? _); [by apply wp_fail|].
  destruct (_ =? _); [by apply wp_ret|].
  apply (wp_resave "" i); [done|done|done|done|keeps|]. intros e.
  apply wp_bind, wp_set_ds, wp_fail.
  split; simpl; [apply (Durable_same v); [done|by apply i_dur]|apply HI|apply HI| |apply HI].
  intros h j [Hne Hj]%lookup_delete_Some. rewrite lookup_alter_ne in Hj by done. by apply (i_mem v HI).
Qed.

Lemma setupBaseImage_keeps : keeps (setupBaseImage c orc).
Proof.
  intros v HI. unfold setupBaseImage. apply wp_bind, wp_try.
  eapply wp_conseq; [apply wp_lookupDevice; [done|done|done|by apply i_dur]| |done].
  intros r v1 (_ & _ & _ & H1 & Hr). destruct r as [i|e]; destruct Hr as [Hr1 Hr2].
  - destruct (Initialized i && negb (Deleted i)).
    + apply wp_bind.
      assert (wp (setupVerifyBaseImageUUIDFS c orc i) (λ _ v', Inv v' ∧ Devices (vds v') = Devices (vds v1))
                Durable v1) as Hs.
      { eapply wp_and.
        - assert (keeps (setupVerifyBaseImageUUIDFS c orc i)) as Hk
            by (unfold setupVerifyBaseImageUUIDFS; keeps). by apply Hk.
        - apply still_setupVerify. }
      eapply wp_conseq; [exact Hs| |done]. intros [[]|e] v2 [H2 HE]; [|done].
      apply keeps_checkGrowBaseDeviceFS; [done|by rewrite HE].
    + apply wp_bind. eapply wp_conseq; [apply (DeleteDevice_spec c orc HR v1 "" v1)|..].
      * split; [done|apply Frame_refl].
      * done.
      * intros [[]|e] v2 [[H2 _] Hg]; [|done]. apply createBaseImage_keeps; [done|by apply Hg].
      * by intros v' [].
  - apply wp_bind. eapply (wp_acts _ (λ v', Inv v' ∧ gone "" v')); [unfold checkThinPool; acts| | |done|].
    { intros v2 v3 [g ->] [H2 H3]. split; [by apply (Inv_same v2)|done]. }
    { intros v2 [H2 _]. by apply i_dur. }
    intros [[]|e'] v2 _ [H2 Hg]; [|done]. by apply createBaseImage_keeps.
Qed.
End boot.
