(* ===== verification/DeviceSetCrash.v ===== *)
(** * Crashes of the device set and what a restart makes of them *)

From S2P Require Import Prelude GoStrings DeviceIds DeviceSet DeviceSetLogic DeviceSetInv DeviceSetOps.
From S2P Require Import DeviceSetBoot.
Open Scope Z_scope.

(** Loops, with the part of the list that was done. *)
Lemma wp_each_done {A} (f : A → D unit) (J : list A → view → Prop) C E l v :
  (∀ done x rest v', l = done ++ x :: rest → J done v' →
     wp (f x) (λ r v'', match r with inl _ => J (done ++ [x]) v'' | inr e => E e v'' end) C v') →
  J [] v → wp (each f l) (λ r v', match r with inl _ => J l v' | inr e => E e v' end) C v.
Proof.
  intros Hf HJ.
  assert (∀ rest done v', l = done ++ rest → J done v' →
    wp (each f rest) (λ r v', match r with inl _ => J l v' | inr e => E e v' end) C v') as Hk.
  { induction rest as [|x rest IH]; intros done v' Hl HJ'; simpl.
    { apply wp_ret. by rewrite Hl, app_nil_r. }
    apply wp_bind. eapply wp_conseq; [by eapply Hf| |by intros].
    intros [[]|e] v'' H''; [|done]. apply (IH (done ++ [x])); [|done].
    rewrite <-app_assoc. apply Hl. }
  by apply (Hk l []).
Qed.

Section boot.
Context (c : config) (orc : nat → call → fate) (HR : meta_reliable orc).

(** ** Loading the files *)

Lemma wp_ReadDir (C : view → Prop) v Q :
  C v →
  (∀ names, (∀ f, f ∈ names → nondot f = true → is_Some (vf v !! f)) →
            (∀ f, is_Some (vf v !! f) → f ∈ names) → Q (inl names) v) →
  wp (ext orc CReadDir (λ d p, (inl (map_to_list (files d)).*1, d, p))) Q C v.
Proof.
  intros HC HQ w <-. unfold ext. destruct (orc (clk w) CReadDir) as [|e|] eqn:E.
  - apply HQ.
    + intros f Hin Hf. simpl. rewrite visible_lookup by done.
      apply list_elem_of_fmap in Hin as ([? x] & -> & Hx%elem_of_map_to_list). simpl. eauto.
    + intros f [x [Hx _]%map_lookup_filter_Some]. apply list_elem_of_fmap.
      exists (f, x). split; [done|by apply elem_of_map_to_list].
  - by destruct (HR (clk w) CReadDir e).
  - by split.
Qed.

(** Nothing but the memory changed, and the memory agrees with the files. *)
Record Loading (v0 v : view) : Prop := {
  l_dur : same_durable v0 v;
  l_tid : TransactionID (vds v) = ptid (vpl v);
  l_mem : ∀ h i, Devices (vds v) !! h = Some i → good_hash h = true ∧ devfile (vf v) h = Some i;
}.

Lemma Loading_Durable v0 v : Durable v0 → Loading v0 v → Durable v.
Proof. intros HD [Hs _ _]. by apply (Durable_same v0). Qed.

(** One file of the directory. *)
Lemma wp_walk v0 v f :
  Durable v0 → Loading v0 v → (nondot f = true → is_Some (vf v !! f)) →
  wp (r ← st_try (ext_unit orc (CLstat f));
      match r with inl _ => deviceFileWalkFunction orc f | inr _ => mret tt end)
    (λ r v', match r with
             | inl _ => Loading v0 v' ∧ (∀ h i, Devices (vds v) !! h = Some i → Devices (vds v') !! h = Some i) ∧
                        ∀ i, vf v' !! f = Some (FDev i) → Devices (vds v') !! file_hash f = Some i
             | inr _ => False end) (λ v', same_durable v0 v') v.
Proof.
  intros HD HL Hf. pose proof (Loading_Durable _ _ HD HL) as HDv. pose proof HL as [Hs Ht Hm].
  apply wp_bind, wp_try, wp_ext_unit_reliable; [done|done|done|].
  unfold deviceFileWalkFunction.
  assert (∀ b : bool, device_file f = false → b = true →
    wp (mret tt : D unit) (λ r v', match r with
             | inl _ => Loading v0 v' ∧ (∀ h i, Devices (vds v) !! h = Some i → Devices (vds v') !! h = Some i) ∧
                        ∀ i, vf v' !! f = Some (FDev i) → Devices (vds v') !! file_hash f = Some i
             | inr _ => False end) (λ v', same_durable v0 v') v) as Hskip.
  { intros _ Hd _. apply wp_ret. split_and!; [done|done|]. intros i Hi.
    destruct (d_files v HDv _ _ Hi) as (_ & Hx & _). congruence. }
  unfold device_file in Hskip.
  destruct (HasSuffix f ".migrated"); [by apply (Hskip true)|].
  unfold nondot in *. destruct (HasPrefix f "."); [by apply (Hskip true)|].
  case_bool_decide as E1; [by apply (Hskip true)|]. case_bool_decide as E2; [by apply (Hskip true)|].
  clear Hskip. destruct (Hf eq_refl) as [x Hx]. pose proof (d_files v HDv f x Hx) as Hok.
  destruct x as [i| | |]; try done. destruct Hok as (Hne & Hdf & Hv).
  fold (file_hash f). apply wp_bind, wp_wrap.
  assert (devfile (vf v) (file_hash f) = Some i) as Hd.
  { unfold devfile. by rewrite metadataFile_file_hash, Hx. }
  apply wp_lookupDevice_exact; [done|apply HDv|by apply good_file_hash|done| | |congruence].
  - intros i' Hi'. apply wp_ret. split_and!; [done|done|]. intros j Hj.
    assert (j = i) as -> by congruence. destruct (Hm _ _ Hi') as [_ Hd']. congruence.
  - intros i' HN Hd'. apply wp_ret. assert (i' = i) as -> by congruence. split_and!.
    + split; [done|done|]. simpl. intros h j. rewrite lookup_insert_Some.
      intros [[<- <-]|[_ ?]]; [split; [by apply good_file_hash|done]|by apply Hm].
    + simpl. intros h j Hj. rewrite lookup_insert_ne; [done|congruence].
    + simpl. intros j Hj. rewrite lookup_insert_eq. congruence.
Qed.

Definition All_loaded (v : view) : Prop :=
  ∀ h i, good_hash h = true → devfile (vf v) h = Some i → Devices (vds v) !! h = Some i.

Lemma wp_loadDeviceFilesOnStart v0 v :
  Durable v0 → Loading v0 v →
  wp (loadDeviceFilesOnStart orc)
    (λ r v', match r with inl _ => Loading v0 v' ∧ All_loaded v' | inr _ => False end)
    (λ v', same_durable v0 v') v.
Proof.
  intros HD HL. unfold loadDeviceFilesOnStart. apply wp_bind, wp_try.
  apply wp_ReadDir; [apply HL|]. intros names Hn1 Hn2.
  pose proof (wp_each_done (λ name, r ← st_try (ext_unit orc (CLstat name));
      match r with inl _ => deviceFileWalkFunction orc name | inr _ => mret tt end)
    (λ done v', Loading v0 v' ∧ ∀ f i, f ∈ done → vf v' !! f = Some (FDev i) →
                                        Devices (vds v') !! file_hash f = Some i)
    (λ v', same_durable v0 v') (λ _ _, False) names v) as Hloop.
  eapply wp_conseq; [apply Hloop| |by intros].
  - intros done f rest v1 Hl [H1 Hdone].
    assert (vf v1 = vf v) as Ef.
    { destruct HL as [(E & _) _ _], H1 as [(E' & _) _ _]. congruence. }
    eapply wp_conseq; [apply wp_walk; [done|exact H1|]| |by intros].
    { rewrite Ef. apply Hn1. rewrite Hl. set_solver. }
    intros [[]|e] v2; [|done]. intros (H2 & Hmono & Hnew). split; [done|].
    intros g i [Hg| ->%list_elem_of_singleton]%elem_of_app Hi; [|by apply Hnew].
    apply Hmono, Hdone; [done|]. destruct H2 as [(E & _) _ _], H1 as [(E' & _) _ _]. congruence.
  - split; [done|]. intros f i Hf. by apply elem_of_nil in Hf.
  - intros [[]|e] v1; [|done]. intros [H1 Hdone]. split; [done|].
    intros h i Hg Hd.
    assert (vf v1 !! metadataFile h = Some (FDev i)) as Hf.
    { unfold devfile in Hd. destruct (vf v1 !! metadataFile h) as [[]|]; naive_solver. }
    assert (file_hash (metadataFile h) = h) as Eh.
    { unfold good_hash, file_hash, metadataFile in *. repeat case_bool_decide; naive_solver. }
    rewrite <-Eh. apply Hdone; [|done]. apply Hn2.
    destruct HL as [(E & _) _ _], H1 as [(E' & _) _ _]. rewrite E, <-E'. eauto.
Qed.

(** ** The bitmap *)

Definition marked (v : view) : Prop :=
  ∀ h i, good_hash h = true → devfile (vf v) h = Some i → used (deviceIDMap (vds v)) (DeviceID i).

Lemma wp_markUsed id (C : view → Prop) v Q :
  valid_id id →
  (∀ m, (∀ j, used m j ↔ j = id ∨ used (deviceIDMap (vds v)) j) →
     Q (inl tt) (vset_ds (with_ids (NextDeviceID (vds v)) m) v)) →
  wp (markUsed id) Q C v.
Proof.
  intros Hv HQ. unfold markUsed, on_ids. apply wp_bind, wp_gets_ds'; simpl.
  destruct (markDeviceIDUsed_spec (deviceIDMap (vds v)) id Hv) as (m & -> & Hm).
  apply wp_set_ds. by apply HQ.
Qed.

Lemma wp_constructDeviceIDMap v0 v :
  Durable v0 → Loading v0 v → All_loaded v →
  wp constructDeviceIDMap
    (λ r v', match r with inl _ => Loading v0 v' ∧ All_loaded v' ∧ marked v' | inr _ => False end)
    (λ v', same_durable v0 v') v.
Proof.
  intros HD HL Hall. pose proof (Loading_Durable _ _ HD HL) as HDv.
  unfold constructDeviceIDMap. apply wp_bind, wp_gets_ds; simpl.
  pose proof (wp_each_done (λ hi : string * devInfo, markUsed (DeviceID hi.2))
    (λ done v', Loading v0 v' ∧ vf v' = vf v ∧ Devices (vds v') = Devices (vds v) ∧
       ∀ hi, hi ∈ done → used (deviceIDMap (vds v')) (DeviceID hi.2))
    (λ v', same_durable v0 v') (λ _ _, False) (map_to_list (Devices (vds v))) v) as Hloop.
  eapply wp_conseq; [apply Hloop| |by intros].
  - intros done [h i] rest v1 Hl (H1 & Ef & Ed & Hdone). simpl.
    assert ((h, i) ∈ map_to_list (Devices (vds v))) as Hin by (rewrite Hl; set_solver).
    apply elem_of_map_to_list in Hin. destruct (l_mem _ _ HL _ _ Hin) as [Hg Hd].
    apply wp_markUsed; [by apply (devfile_valid v h)|]. intros m Hm.
    split_and!; [|done|done|].
    + destruct H1 as [Hs Ht Hmem]. by split.
    + intros hi [Hi| ->%list_elem_of_singleton]%elem_of_app; simpl; apply Hm; [right|by left].
      by apply Hdone.
  - split_and!; [done|done|done|]. intros hi Hi. by apply elem_of_nil in Hi.
  - intros [[]|e] v1; [|done]. intros (H1 & Ef & Ed & Hdone). split_and!; [done| |].
    + intros h i. rewrite Ef, Ed. apply Hall.
    + intros h i Hg Hd. apply (Hdone (h, i)), elem_of_map_to_list, Hall; [done|]. by rewrite <-Ef.
Qed.

Lemma wp_countDeletedDevices v0 v :
  Loading v0 v → All_loaded v → marked v →
  wp countDeletedDevices
    (λ r v', match r with inl _ => Loading v0 v' ∧ All_loaded v' ∧ marked v' | inr _ => False end)
    (λ v', same_durable v0 v') v.
Proof.
  intros HL Hall Hmk. unfold countDeletedDevices. apply wp_bind, wp_gets_ds; simpl.
  apply (wp_each _ (λ v', Loading v0 v' ∧ All_loaded v' ∧ marked v')); [|done].
  intros [h i] v1 _ ([Hs Ht Hm] & Ha1 & Hk1). simpl. destruct (Deleted i); [|by apply wp_ret].
  apply wp_set_ds. split_and!; [by split|done|done].
Qed.

(** ** Rolling back *)

Lemma pending_eq m p t t' : pending m p t → pending m p t' → t = t'.
Proof. intros [H1 _] [H2 _]. congruence. Qed.

Lemma InvBut_pending v t :
  Durable v → pending (vf v) (vpl v) t → TransactionID (vds v) = ptid (vpl v) →
  (∀ h i, Devices (vds v) !! h = Some i → good_hash h = true ∧ devfile (vf v) h = Some i) →
  marked v → InvBut (DeviceIDHash t) v.
Proof.
  intros HD Hp Ht Hm Hmk. split; [done| |done|by intros; apply Hm|done].
  intros h Hg Hne. destruct (d_live v HD h Hg) as [?|(t' & Hp' & He)]; [done|].
  destruct Hne. by rewrite (pending_eq _ _ _ _ Hp Hp').
Qed.

(** The file of the device is removed, whatever is in memory. *)
Lemma InvBut_drop_file v h :
  InvBut h v → good_hash h = true → InvBut h (vset_files (delete (metadataFile h)) v).
Proof.
  intros Hb Hg.
  pose proof (InvBut_remove _ h (InvBut_forget v h Hb) Hg (lookup_delete_eq _ _)) as [HD Hl Ht Hm Hu].
  split; [by apply (Durable_same (vset_files (delete (metadataFile h)) (vset_ds (with_Devices (delete h)) v)))
         |by intros h' Hg' _; apply Hl|done| |done].
  intros h' i Hne Hi. apply Hm. simpl. by rewrite lookup_delete_ne.
Qed.

Lemma InvBut_free v h m id n :
  InvBut h v → unowned (vf v) id → (∀ j, used m j ↔ j ≠ id ∧ used (deviceIDMap (vds v)) j) →
  InvBut h (vset_ds (with_ids n m) v).
Proof.
  intros [HD Hl Ht Hm Hu] Hun Hused. split; simpl; try done.
  - by apply (Durable_same v).
  - intros h' i Hg' Hi. apply Hused. split; [by eapply Hun|by eapply Hu].
Qed.

(** The file of the transaction is removed at last. *)
Lemma InvBut_drop_tx v h :
  InvBut h v → devfile (vf v) h = None →
  let v' := vset_files (delete transactionMetaFile) v in
  InvBut h v' ∧ (∀ h', good_hash h' = true → live (vf v') (vpl v') h').
Proof.
  intros [[Hf Ho Hi Ht Hp Hl] Hli Hti Hm Hu] Hn v'.
  assert (∀ h', good_hash h' = true → devfile (vf v') h' = devfile (vf v) h') as Hdev.
  { intros h' Hg'. unfold v', devfile. simpl. rewrite lookup_delete_ne; [done|].
    intros E. by apply (good_file_ne h' Hg'). }
  assert (∀ t, ¬ pending (vf v') (vpl v') t) as Hnp.
  { intros t [Hx _]. unfold v' in Hx. simpl in Hx. by rewrite lookup_delete_eq in Hx. }
  assert (∀ h', good_hash h' = true → live (vf v') (vpl v') h') as Hlive.
  { intros h' Hg' i. rewrite Hdev by done. destruct (decide (h' = h)) as [->|]; [congruence|]. by apply Hli. }
  split; [|done]. split; [split| | | |]; try done.
  - intros f x. unfold v'. simpl. rewrite lookup_delete_Some. intros [_ Hx]. by apply Hf.
  - intros h1 i1 Hg1. rewrite Hdev by done. intros H1 h2 i2 Hg2. rewrite Hdev by done. by apply (Hi h1 i1).
  - intros t Hx. unfold v' in Hx. simpl in Hx. by rewrite lookup_delete_eq in Hx.
  - intros t Hx. by destruct (Hnp t).
  - intros h' Hg'. left. by apply Hlive.
  - intros h' Hg' _. by apply Hlive.
  - intros h' i Hne Hin. destruct (Hm h' i Hne Hin). by rewrite Hdev.
  - intros h' i Hg'. rewrite Hdev by done. by apply Hu.
Qed.

Lemma Frame_drop_tx v0 h v :
  Frame v0 h v → Frame v0 h (vset_files (delete transactionMetaFile) v).
Proof.
  intros [HF HM]. split; simpl.
  - intros h' Hg' Hne. destruct (HF h' Hg' Hne) as [H1 H2]. unfold devfile.
    rewrite lookup_delete_ne; [done|]. intros E. by apply (good_file_ne h' Hg').
  - intros t [Hx _]. by rewrite lookup_delete_eq in Hx.
Qed.

(** What a start leaves of the state [v0] it found: nothing is pending, every
    file has its thin device, and only the device of the transaction that was
    open may have changed. *)
Record Recovered (v0 v : view) : Prop := {
  r_dur : Durable v;
  r_tx : ∀ t, ¬ pending (vf v) (vpl v) t;
  r_live : ∀ h, good_hash h = true → live (vf v) (vpl v) h;
  r_frame : ∀ h, (∀ t, pending (vf v0) (vpl v0) t → DeviceIDHash t = h) → Frame v0 h v;
  r_ptid : ptid (vpl v) = ptid (vpl v0);
}.

(** No file was made or left by the transaction that is open. *)
Definition clean (v : view) : Prop :=
  ∀ t, pending (vf v) (vpl v) t → devfile (vf v) (DeviceIDHash t) = None.

(** What a rollback does to the device of the transaction: its file is gone
    and its identifier is free, and it is still in memory if it had a file. *)
Definition rolled (v0 : view) (v : view) : Prop :=
  ∀ t, pending (vf v0) (vpl v0) t →
  devfile (vf v) (DeviceIDHash t) = None ∧ ¬ used (deviceIDMap (vds v)) (tx_id t) ∧
  ∀ i, devfile (vf v0) (DeviceIDHash t) = Some i → Devices (vds v) !! DeviceIDHash t = Some i.

(** The state in the middle of a rollback. *)
Definition Rolling (v0 : view) (t : transaction) (v : view) : Prop :=
  InvBut (DeviceIDHash t) v ∧ Frame v0 (DeviceIDHash t) v ∧ pending (vf v) (vpl v) t ∧
  ptid (vpl v) = ptid (vpl v0) ∧
  (clean v0 → Devices (vds v) !! DeviceIDHash t = None) ∧
  (∀ i, devfile (vf v0) (DeviceIDHash t) = Some i → Devices (vds v) !! DeviceIDHash t = Some i).

Definition RollC (v0 : view) (v : view) : Prop :=
  Durable v ∧ ptid (vpl v) = ptid (vpl v0) ∧
  ∀ h, (∀ t, pending (vf v0) (vpl v0) t → DeviceIDHash t = h) → Frame v0 h v.

Lemma Rolling_C v0 t v : pending (vf v0) (vpl v0) t → Rolling v0 t v → RollC v0 v.
Proof. intros Hp (Hb & HF & _ & Hpt & _). split_and!; [apply Hb|done|]. intros h Hh. by rewrite <-(Hh t Hp). Qed.

Lemma wp_rollbackTransaction v0 t v :
  Durable v0 → pending (vf v0) (vpl v0) t → Rolling v0 t v → txn (vds v) = t →
  wp (rollbackTransaction orc) (λ r v', match r with
      | inl _ => Recovered v0 v' ∧ (clean v0 → Inv v') ∧ rolled v0 v'
      | inr _ => False end) (RollC v0) v.
Proof.
  intros HD0 Hp0 HRo Htx. unfold rollbackTransaction. apply wp_bind, wp_gets_ds; simpl. rewrite Htx.
  pose proof HRo as (Hb & HF & Hp & Hpt & Hcl & Hst).
  destruct (d_pending v (b_dur _ _ Hb) t Hp) as (Hg & Hv & Hown).
  apply wp_bind, wp_ignore.
  assert (∀ v1, Rolling v0 t v1 → vf v1 = vf v →
    wp (r ← st_try (removeMetadata orc (DeviceIDHash t));
        match r with inr _ => mret tt | inl _ => markFree (tx_id t) end ;;
        ignore (removeTransactionMetaData orc))
      (λ r v', match r with inl _ => Recovered v0 v' ∧ (clean v0 → Inv v') ∧ rolled v0 v' | inr _ => False end)
      (RollC v0) v1) as Hk.
  { intros v1 HRo1 Ef. pose proof HRo1 as (Hb1 & HF1 & Hp1 & Hpt1 & Hcl1 & Hst1).
    apply wp_bind, wp_try. unfold removeMetadata. apply wp_wrap, wp_RemoveAll; [done|by eapply Rolling_C|].
    set (v2 := vset_files _ v1).
    assert (InvBut (DeviceIDHash t) v2) as Hb2 by by apply InvBut_drop_file.
    assert (Frame v0 (DeviceIDHash t) v2) as HF2 by by apply Frame_remove.
    assert (devfile (vf v2) (DeviceIDHash t) = None) as Hn2 by apply devfile_delete.
    assert (unowned (vf v2) (tx_id t)) as Hun.
    { intros h' i Hg' Hi He. destruct (decide (h' = DeviceIDHash t)) as [->|Hne]; [congruence|].
      unfold v2 in Hi. simpl in Hi. rewrite devfile_delete_ne in Hi by done.
      rewrite Ef in Hi. by destruct Hne, (Hown h' i Hg' Hi He). }
    apply wp_bind, wp_markFree; [done|]. intros m Hm. set (v3 := vset_ds _ v2).
    assert (InvBut (DeviceIDHash t) v3) as Hb3 by by apply InvBut_free with (id := tx_id t).
    assert (Frame v0 (DeviceIDHash t) v3) as HF3 by by apply (Frame_same _ _ v2).
    apply wp_ignore. unfold removeTransactionMetaData. apply wp_RemoveAll; [done| |].
    { split_and!; [apply Hb3|done|]. intros h Hh. by rewrite <-(Hh t Hp0). }
    destruct (InvBut_drop_tx v3 _ Hb3 Hn2) as [Hb4 Hl4].
    set (v4 := vset_files _ v3) in *. split_and!.
    - split; [apply Hb4| |done| |done].
      + intros t' [Hx _]. simpl in Hx. by rewrite lookup_delete_eq in Hx.
      + intros h Hh. rewrite <-(Hh t Hp0). by apply Frame_drop_tx.
    - intros Hc. specialize (Hcl1 Hc). destruct Hb4 as [HD4 _ Ht4 Hm4 Hu4].
      split; [done|done|done| |done]. intros h i Hi. apply Hm4; [|done].
      intros ->. simpl in Hi. congruence.
    - intros t' Hp'. rewrite <-(pending_eq _ _ _ _ Hp0 Hp'). split_and!; [|intros Hx; simpl in Hx; apply Hm in Hx; by destruct Hx|done].
      unfold v4, devfile. simpl. rewrite lookup_delete_ne; [done|].
      intros E. by apply (good_file_ne _ Hg). }
  apply wp_DeleteThin; [by eapply Rolling_C|by intros _; apply Hk|]. apply Hk; [|done].
  split_and!; [by eapply InvBut_thin_delete|by apply Frame_thin_delete|done..].
Qed.

(** ** A start *)

Lemma Recovered_none v0 v :
  Durable v0 → same_durable v0 v → (∀ t, ¬ pending (vf v) (vpl v) t) → Recovered v0 v.
Proof.
  intros HD Hs Hnp. pose proof (Durable_same _ _ Hs HD) as HDv. split; [done|done| | |apply Hs].
  - intros h Hg. destruct (d_live v HDv h Hg) as [?|(t & Ht & _)]; [done|by destruct (Hnp t)].
  - intros h _. apply (Frame_same v0 h v0); [done|apply Frame_refl].
Qed.

Lemma Recovered_Inv v0 v :
  Recovered v0 v → Loading v0 v → marked v → Inv v.
Proof. intros [HD _ Hl _ _] [_ Ht Hm] Hk. by split. Qed.

Lemma wp_processPendingTransaction v0 v :
  Durable v0 → Loading v0 v → All_loaded v → marked v →
  wp (processPendingTransaction orc) (λ r v', match r with
      | inl _ => Recovered v0 v' ∧ (clean v0 → Inv v') ∧ rolled v0 v'
      | inr _ => False end) (RollC v0) v.
Proof.
  intros HD HL Hall Hmk. pose proof (Loading_Durable _ _ HD HL) as HDv. pose proof HL as [Hs Ht Hm].
  assert (RollC v0 v) as HC.
  { split_and!; [done|apply Hs|]. intros h _. apply (Frame_same v0 h v0); [done|apply Frame_refl]. }
  unfold processPendingTransaction, loadTransactionMetaData.
  apply wp_bind, wp_bind, wp_try, wp_ReadFile; [done|done|done|].
  assert (∀ tx, (∀ t, pending (vf v) (vpl v) t → False) →
            Recovered v0 (vset_ds (with_txn tx) v) ∧ (clean v0 → Inv (vset_ds (with_txn tx) v)) ∧
            rolled v0 (vset_ds (with_txn tx) v)) as Hnone.
  { intros tx Hnp. assert (Recovered v0 (vset_ds (with_txn tx) v)) as Hrec by by apply Recovered_none.
    split_and!; [done|intros _; by apply (Recovered_Inv v0); [|split|]|].
    intros t Hp. destruct (Hnp t). destruct Hs as (E1 & _ & _ & E4). unfold pending in *. by rewrite E1, E4. }
  destruct (vf v !! transactionMetaFile) as [x|] eqn:Ex; simpl.
  - pose proof (d_files v HDv _ _ Ex) as Hok. destruct x as [i|t| |]; try done.
    { by destruct Hok as (_ & Hx & _). }
    apply wp_set_ds, wp_bind, wp_gets_ds'; simpl.
    destruct (Z.eqb_spec (TransactionID (vds v)) (OpenTransactionID t)) as [E|Hne].
    { apply wp_ret, Hnone. intros t' [Hx Hlt]. rewrite Ex in Hx. injection Hx as <-. rewrite Ht in E. lia. }
    destruct (Z.ltb_spec (OpenTransactionID t) (TransactionID (vds v))) as [Hlt|Hge].
    { apply wp_ret, Hnone. intros t' [Hx Hl']. rewrite Ex in Hx. injection Hx as <-. rewrite Ht in Hlt. lia. }
    assert (pending (vf v) (vpl v) t) as Hp by (split; [done|rewrite Ht in *; lia]).
    assert (pending (vf v0) (vpl v0) t) as Hp0.
    { destruct Hs as (E1 & _ & _ & E4). unfold pending in *. by rewrite <-E1, <-E4. }
    set (v1 := vset_ds _ v).
    apply wp_bind, wp_wrap. eapply wp_conseq; [apply (wp_rollbackTransaction v0 t v1)|..]; try done.
    + split_and!; [|apply (Frame_same _ _ v0); [done|apply Frame_refl]|done|apply Hs| |].
      * apply InvBut_pending; try done. by apply (Durable_same v).
      * intros Hc. simpl. destruct (Devices (vds v) !! DeviceIDHash t) as [i|] eqn:Ei; [|done].
        destruct (Hm _ _ Ei) as [_ Hd]. specialize (Hc t Hp0). destruct Hs as (E1 & _). congruence.
      * intros i Hi. simpl. destruct (d_pending v HDv t Hp) as (Hg & _). apply Hall; [done|].
        destruct Hs as (E1 & _). by rewrite E1.
    + intros [[]|e] v2; [|done]. intros ([HD2 Hnp2 Hl2 HF2 Hpt2] & Hi2 & Hro2). apply wp_set_ds.
      split_and!; [split; [by apply (Durable_same v2)|done|done| |done]| |done].
      * intros h Hh. apply (Frame_same _ _ v2); [done|by apply HF2].
      * intros Hc. apply (Inv_same v2); [done|done|done|done|by apply Hi2].
  - apply wp_bind, wp_gets_ds. simpl. apply wp_set_ds, wp_bind, wp_gets_ds'; simpl.
    rewrite Z.eqb_refl. apply wp_ret, Hnone. intros t [Hx _]. congruence.
Qed.

Lemma wp_migrateOldMetaData (C : view → Prop) v Q :
  vold v = None → C v → Q (inl tt) v → wp (migrateOldMetaData orc) Q C v.
Proof.
  intros Ho HC HQ. unfold migrateOldMetaData. apply wp_bind, wp_try. intros w <-.
  unfold ext. destruct (orc (clk w) (CRead oldMetadataFile)) as [|e|] eqn:E.
  - simpl in Ho. rewrite Ho. by apply wp_ret.
  - by destruct (HR (clk w) (CRead oldMetadataFile) e).
  - by split.
Qed.

(** The only error is that of reading the status of the pool. *)
Lemma wp_initMetaData v0 :
  Durable v0 → Devices (vds v0) = ∅ →
  wp (initMetaData orc) (λ r v', match r with
      | inl _ => Recovered v0 v' ∧ (clean v0 → Inv v') ∧ rolled v0 v'
      | inr _ => same_durable v0 v' ∧ ∃ n e, orc n CStatus = Fault e end) (RollC v0) v0.
Proof.
  intros HD HN. unfold initMetaData.
  assert (∀ v, same_durable v0 v → RollC v0 v) as HC.
  { intros v Hs. split_and!; [by apply (Durable_same v0)|apply Hs|]. intros h _.
    apply (Frame_same v0 h v0); [done|apply Frame_refl]. }
  apply wp_bind, wp_migrateOldMetaData; [apply HD|by apply HC|].
  apply wp_bind.
  assert (wp (poolStatus orc) (λ r v', v' = v0 ∧
      match r with inl p => p = vpl v0 | inr _ => ∃ n e, orc n CStatus = Fault e end) (RollC v0) v0) as Hst.
  { intros w <-. unfold poolStatus, ext. destruct (orc (clk w) CStatus) as [|e|] eqn:E; [done| |split; [done|by apply HC]].
    split; [done|]. eauto. }
  eapply wp_conseq; [exact Hst| |done]. intros [p|e] v [-> Hr]; [subst p|done].
  apply wp_bind, wp_set_ds. set (v1 := vset_ds _ v0).
  assert (Loading v0 v1) as HL.
  { split; [done|done|]. simpl. rewrite HN. intros h i Hi. by rewrite lookup_empty in Hi. }
  apply wp_bind, wp_wrap. eapply wp_conseq; [by apply wp_loadDeviceFilesOnStart| |done].
  intros [[]|e] v2; [|done]. intros [HL2 Ha2].
  apply wp_bind. eapply wp_conseq; [by apply (wp_constructDeviceIDMap v0)| |done].
  intros [[]|e] v3; [|done]. intros (HL3 & Ha3 & Hk3).
  apply wp_bind. eapply wp_conseq; [by apply (wp_countDeletedDevices v0)| |done].
  intros [[]|e] v4; [|done]. intros (HL4 & Ha4 & Hk4).
  eapply wp_conseq; [by apply (wp_processPendingTransaction v0)| |done].
  by intros [[]|e] v5.
Qed.

Lemma keeps_loadDeviceSetMetaData : keeps (loadDeviceSetMetaData orc).
Proof.
  intros v HI. unfold loadDeviceSetMetaData. apply wp_bind, wp_try.
  apply wp_ReadFile; [done|done|by apply i_dur|].
  destruct (vf v !! deviceSetMetaFile) as [x|] eqn:E; simpl; [|by apply wp_ret].
  pose proof (d_files v (i_dur v HI) _ _ E) as Hok. destruct x as [i|t|n u fs|]; try done.
  { by destruct Hok as (_ & Hx & _). }
  apply wp_bind, wp_gets_ds, wp_bind, wp_set_ds. simpl. apply wp_set_ds. by apply (Inv_same v).
Qed.
End boot.
