(* ===== verification/DeviceSetSafety.v ===== *)
(** * Safety of the device set across operations, crashes and restarts

    The runs of the daemon on one metadata directory and one thin pool: starts,
    operations, deaths at any call and between operations, with every failure
    of a call to the pool or of a write to the directory.  Reading and removing
    metadata files is assumed to work ([meta_reliable]); the starts of a run
    find no half-made device ([clean]), since a start that does leaves it in
    memory (see [DeviceSetFaults]). *)

From S2P Require Import Prelude GoStrings DeviceIds DeviceSet DeviceSetLogic DeviceSetInv DeviceSetOps.
From S2P Require Import DeviceSetBoot DeviceSetCrash.
Open Scope Z_scope.

Section safety.
Context (c : config) (orc : nat → call → fate).
Context (RAMInBytes : string → option Z) (unicode_lower : string → string).

(** The names that clients use are not those of other metadata files. *)
Definition op_ok (o : op) : bool :=
  match o with
  | OAdd h b _ => good_hash h && good_hash b
  | ORemove h | ODelete h _ | OMount h | OUnmount h => good_hash h
  | OCleanup => true
  | OShutdown names => forallb (λ nb, good_hash nb.1) names
  end.

Definition do_op (o : op) : D unit := exec c orc RAMInBytes unicode_lower o.

(** [reach up w]: the runs whose starts find no half-made device ([clean]); [up]
    says whether the daemon is running.  A start that does find one is left
    out: it leaves in memory a record of a device that is gone, and what comes
    of that is in [DeviceSetFaults]. *)
Inductive reach : bool → world → Prop :=
| reach_blank w : files (dk w) = ∅ → old (dk w) = None → reach false w
| reach_boot w created reboot fs r w' :
    reach false w → clean (view_of w) →
    (created = true → files (dk w) = ∅ ∧ ptid (pl w) = 0) →
    initDevmapper c orc created true (restart reboot fs w) = (r, w') →
    reach (is_ok r) w'
| reach_op w o r w' :
    reach true w → op_ok o = true → do_op o w = (r, w') → reach (negb (panics r)) w'
| reach_kill w : reach true w → reach false w.

(** ** Operations *)

Lemma keeps_exec o : meta_reliable orc → op_ok o = true → keeps (do_op o).
Proof.
  intros HR. unfold do_op. destruct o as [h b opts|h|h s| |h|h|names]; simpl; intros Hok.
  - apply andb_prop in Hok as [Hh Hb]. intros v HI.
    eapply wp_conseq; [by apply AddDevice_spec| |]; [by intros r v' [[] _]|by intros v' []].
  - intros v HI. eapply wp_conseq; [apply (Remove_spec c orc HR v h v); [split; [done|apply Frame_refl]|done]| |];
      [by intros r v' []|by intros v' []].
  - by apply keeps_DeleteDevice.
  - destruct (deferredDelete c); [|apply keeps_ret]. intros v HI. by apply cleanupDeletedDevices_spec.
  - intros v HI. eapply wp_conseq; [by apply MountDevice_spec| |];
      [by intros r v' H; destruct (H h)|by intros v' H; destruct (H h)].
  - intros v HI. eapply wp_conseq; [by apply UnmountDevice_spec| |];
      [by intros r v' H; destruct (H h)|by intros v' H; destruct (H h)].
  - rewrite forallb_forall in Hok.
    unfold Shutdown. apply dkeeps_bind; [apply keeps_ignore, keeps_saveDeviceSetMetaData|intros _].
    apply dkeeps_bind; [|intros _].
    { apply keeps_each. intros nb Hin. apply dkeeps_bind; [keeps|intros _].
      apply dkeeps_bind; [apply dkeeps_try, keeps_lookupDevice; [done|by apply Hok, list_elem_of_In]|].
      intros r. keeps. }
    apply dkeeps_bind; [by apply dkeeps_try, keeps_lookupDevice|]. intros r. keeps.
Qed.

Lemma Durable_restart reboot fs w :
  Durable (view_of w) → Durable (view_of (restart reboot fs w)) ∧
  (clean (view_of w) → clean (view_of (restart reboot fs w))).
Proof.
  intros HD. assert (same_durable (view_of w) (view_of (restart reboot fs w))) as Hs by by destruct reboot.
  split; [by apply (Durable_same (view_of w))|].
  intros Hc t Hp. destruct Hs as (E1 & _ & _ & E4). rewrite E1. apply Hc.
  unfold pending in *. by rewrite <-E1, <-E4.
Qed.

Lemma boot_spec w created reboot fs :
  meta_reliable orc → Durable (view_of w) → clean (view_of w) →
  (created = true → files (dk w) = ∅ ∧ ptid (pl w) = 0) →
  match initDevmapper c orc created true (restart reboot fs w) with
  | (Ok _, w') => Inv (view_of w')
  | (Err _, w') => Durable (view_of w')
  | (Panic s, w') => s = crash ∧ Durable (view_of w')
  end.
Proof.
  intros HR HD Hc Hcr. destruct (Durable_restart reboot fs w HD) as [HD' Hc']. specialize (Hc' Hc).
  set (v0 := view_of (restart reboot fs w)) in *.
  assert (wp (initDevmapper c orc created true)
    (λ r v', match r with inl _ => Inv v' | inr _ => Durable v' end) Durable v0) as Hw.
  { unfold initDevmapper. apply wp_bind.
    assert (wp (if created then mret tt else initMetaData orc)
      (λ r v', match r with inl _ => Inv v' | inr _ => Durable v' end) Durable v0) as H0.
    { destruct created.
      - apply wp_ret. destruct (Hcr eq_refl) as [Hf Hp].
        assert (vf v0 = ∅) as Ef. { unfold v0, view_of, visible. simpl. rewrite Hf. apply map_filter_empty. }
        assert (∀ h, devfile (vf v0) h = None) as Hd by (intros h; unfold devfile; by rewrite Ef, lookup_empty).
        split; [done| | | |].
        + intros h _ i. by rewrite Hd.
        + simpl. by destruct reboot.
        + intros h i Hi. unfold v0 in Hi. simpl in Hi. by rewrite lookup_empty in Hi.
        + intros h i _. by rewrite Hd.
      - eapply wp_conseq; [by apply wp_initMetaData|..].
        + intros [[]|e] v'; [intros (_ & Hi & _); by apply Hi|]. intros [Hs _]. by apply (Durable_same v0).
        + by intros v' []. }
    eapply wp_conseq; [exact H0| |done]. intros [[]|e] v1 H1; [|done].
    assert (keeps (loadDeviceSetMetaData orc ;; setupBaseImage c orc)) as Hk.
    { apply dkeeps_bind; [by apply keeps_loadDeviceSetMetaData|intros _; by apply setupBaseImage_keeps]. }
    eapply wp_conseq; [by apply Hk| |done]. intros [[]|e] v2 H2; [done|by apply i_dur]. }
  specialize (Hw (restart reboot fs w) eq_refl).
  by destruct (initDevmapper c orc created true (restart reboot fs w)) as [[[]|e|s] w'].
Qed.

Lemma reach_inv up w :
  meta_reliable orc → reach up w → if up then Inv (view_of w) else Durable (view_of w).
Proof.
  intros HR. induction 1 as [w Hf Ho|w created reboot fs r w' _ IH Hc Hcr Hrun|w o r w' _ IH Hok Hrun|w _ IH].
  - assert (vf (view_of w) = ∅) as Ef by (simpl; unfold visible; rewrite Hf; apply map_filter_empty).
    assert (∀ h, devfile (vf (view_of w)) h = None) as Hd
      by (intros h; unfold devfile; by rewrite Ef, lookup_empty).
    split; [|done|..].
    + intros f x. by rewrite Ef, lookup_empty.
    + intros h i _. by rewrite Hd.
    + intros t. by rewrite Ef, lookup_empty.
    + intros t [Ht _]. by rewrite Ef, lookup_empty in Ht.
    + intros h _. left. intros i. by rewrite Hd.
  - pose proof (boot_spec w created reboot fs HR IH Hc Hcr) as Hb. rewrite Hrun in Hb.
    destruct r; simpl; [done|done|by destruct Hb].
  - pose proof (keeps_exec o HR Hok _ IH w eq_refl) as Hw. rewrite Hrun in Hw.
    destruct r; simpl; [done|done|by destruct Hw].
  - by apply i_dur.
Qed.
End safety.

(** ** What clients rely on *)

(** A device as it is on disk and in the pool: the record in its file and the
    contents of its thin device. *)
Definition device (w : world) (h : string) : option (devInfo * option blk) :=
  i ← devfile (visible (dk w)) h; Some (i, thin (pl w) !! DeviceID i).

(** The transaction that a restart would roll back. *)
Definition open_tx (w : world) : Prop := ∃ t, pending (visible (dk w)) (pl w) t.

Lemma Frame_device w h w' h' :
  Frame (view_of w) h (view_of w') → good_hash h' = true → h' ≠ h → device w' h' = device w h'.
Proof.
  intros HF Hg Hne. destruct (f_devs _ _ _ HF h' Hg Hne) as [E1 E2]. simpl in E1, E2.
  unfold device. rewrite E1. destruct (devfile (visible (dk w)) h') as [i|]; [|done].
  simpl. by rewrite (E2 i).
Qed.

(** C4: In every run of the device-mapper driver on a new directory whose starts
    find no half-made device, with operations, deaths at any call and between
    operations, and failures of every call of the pool, of the kernel and of
    every write of a file, two devices never have the same thin device: neither
    on disk nor in memory; while the daemon runs, every device in memory is the
    one of its metadata file, has an identifier of 24 bits that is marked as
    used, and its thin device exists; and no operation panics.  The conditions:
    reading and removing metadata files does not fail ([meta_reliable]); and no
    start finds an open transaction whose device already has its metadata file
    ([clean] in [reach]; see [rollback_leaves_device] and
    [stale_device_destroys] for a start that does); names are not those of the
    other files in the directory ([op_ok]). *)
Theorem device_ids_unique (c : config) (orc : nat → call → fate)
    (ram : string → option Z) (low : string → string) (up : bool) (w : world) :
  meta_reliable orc → reach c orc ram low up w →
  (∀ h1 h2 i1 i2, good_hash h1 = true → good_hash h2 = true →
     devfile (files (dk w)) h1 = Some i1 → devfile (files (dk w)) h2 = Some i2 →
     DeviceID i1 = DeviceID i2 → h1 = h2) ∧
  (up = true →
   (∀ h i, Devices (ds w) !! h = Some i →
      devfile (files (dk w)) h = Some i ∧ valid_id (DeviceID i) ∧
      used (deviceIDMap (ds w)) (DeviceID i) ∧ is_Some (thin (pl w) !! DeviceID i)) ∧
   ∀ o s w', op_ok o = true → do_op c orc ram low o w = (Panic s, w') → s = crash).
Proof.
  intros HR Hr. pose proof (reach_inv c orc ram low up w HR Hr) as HI.
  assert (∀ h, good_hash h = true → devfile (files (dk w)) h = devfile (visible (dk w)) h) as Hv.
  { intros h Hg. unfold devfile. by rewrite visible_lookup by (by apply good_file_ne). }
  split.
  - intros h1 h2 i1 i2 Hg1 Hg2. rewrite !Hv by done. intros H1 H2 He.
    assert (Durable (view_of w)) as HD by (destruct up; [by apply i_dur|done]).
    symmetry. by apply (d_ids _ HD h1 i1 Hg1 H1 h2 i2).
  - intros ->. split.
    + intros h i Hi. destruct (i_mem _ HI h i Hi) as [Hg Hd]. rewrite Hv by done. split_and!; [done|..].
      * by apply (devfile_valid (view_of w) h); [apply i_dur|].
      * by apply (i_used _ HI h).
      * by apply (i_live _ HI h).
    + intros o s w' Hok Hrun. pose proof (keeps_exec c orc ram low o HR Hok _ HI w eq_refl) as Hw.
      rewrite Hrun in Hw. by destruct Hw.
Qed.

(** The operations on one device. *)
Definition target (o : op) : option string :=
  match o with OAdd h _ _ | ORemove h | ODelete h _ => Some h | _ => None end.

Lemma target_frame c orc ram low o h w :
  meta_reliable orc → Inv (view_of w) → op_ok o = true → target o = Some h →
  match do_op c orc ram low o w with
  | (Panic s, w') => s = crash ∧ CF (view_of w) h (view_of w')
  | (_, w') => IF (view_of w) h (view_of w')
  end.
Proof.
  intros HR HI Hok Ht. assert (IF (view_of w) h (view_of w)) as HIF by (split; [done|apply Frame_refl]).
  assert (wp (do_op c orc ram low o) (λ _, IF (view_of w) h) (CF (view_of w) h) (view_of w)) as Hw.
  { destruct o as [h' b opts|h'|h' s| |h'|h'|names]; simpl in Ht; try done; injection Ht as ->; simpl in Hok.
    - apply andb_prop in Hok as [Hh Hb].
      eapply wp_conseq; [by apply AddDevice_spec| |done]. by intros r v' [].
    - by apply Remove_spec.
    - eapply wp_conseq; [by apply DeleteDevice_spec| |done]. by intros r v' []. }
  specialize (Hw w eq_refl). by destruct (do_op c orc ram low o w) as [[[]|e|s] w'].
Qed.

(** C5: An operation that adds or removes a device, begun when no transaction is
    open, is atomic under crashes: when the process dies at any of its calls,
    the next start (on the same machine or after a reboot, and unless the status
    of the pool cannot be read, which leaves the state as it was) rolls the
    transaction back to a state in which no transaction is open and every device
    on disk has its thin device; and all other devices are as they were before
    the operation, in their records and their contents, whatever fails or dies
    on the way.  The conditions: no transaction was left open by an earlier
    operation ([open_tx]; one is when the operation and then the closing of its
    transaction failed, and the rollback may then be that of another device);
    the state was reached as in [reach], by starts that found no half-made
    device; and reading and removing metadata files does not fail, before and
    after the death ([meta_reliable]). *)
Theorem crash_recovery (c : config) (orc orc' : nat → call → fate)
    (ram : string → option Z) (low : string → string) (w w1 : world) (o : op) (h s fs : string) (reboot : bool) :
  meta_reliable orc → meta_reliable orc' → reach c orc ram low true w → ¬ open_tx w →
  op_ok o = true → target o = Some h →
  do_op c orc ram low o w = (Panic s, w1) →
  s = crash ∧
  let '(r, w2) := initMetaData orc' (restart reboot fs w1) in
  (∀ h', good_hash h' = true → h' ≠ h → device w2 h' = device w h') ∧
  match r with
  | Ok _ => ¬ open_tx w2 ∧
            ∀ h' i b, good_hash h' = true → device w2 h' = Some (i, b) → b ≠ None
  | Err _ => ∃ n e, orc' n CStatus = Fault e
  | Panic s' => s' = crash
  end.
Proof.
  intros HR HR' Hr Hno Hok Ht Hrun.
  pose proof (reach_inv c orc ram low true w HR Hr) as HI.
  pose proof (target_frame c orc ram low o h w HR HI Hok Ht) as Hf. rewrite Hrun in Hf.
  destruct Hf as [-> [HD1 HF1]]. split; [done|].
  destruct (Durable_restart reboot fs w1 HD1) as [HD2 _].
  pose proof (wp_initMetaData orc' HR' _ HD2 eq_refl (restart reboot fs w1) eq_refl) as Hw.
  assert (same_durable (view_of w1) (view_of (restart reboot fs w1))) as Hs by by destruct reboot.
  pose proof (Frame_same _ _ _ _ Hs HF1) as HF2.
  assert (∀ t, pending (vf (view_of (restart reboot fs w1))) (vpl (view_of (restart reboot fs w1))) t →
            DeviceIDHash t = h) as Hmine.
  { intros t Hp. destruct (f_mine _ _ _ HF2 t Hp) as [?|Hp']; [done|]. destruct Hno. by exists t. }
  destruct (initMetaData orc' (restart reboot fs w1)) as [r w2].
  assert (∀ h', good_hash h' = true → h' ≠ h → device (restart reboot fs w1) h' = device w h') as Hdev1
    by (intros h' Hg Hne; by apply (Frame_device w h)).
  destruct r as [[]|e|s'].
  - destruct Hw as [[HD3 Hnp Hl HF3 _] _]. specialize (HF3 h Hmine). split_and!.
    + intros h' Hg Hne. rewrite <-Hdev1 by done. by apply (Frame_device _ h).
    + intros [t Hp]. by apply (Hnp t).
    + intros h' i b Hg. unfold device. destruct (devfile (visible (dk w2)) h') as [j|] eqn:Ej; [|done].
      simpl. intros [= <- <-]. destruct (Hl h' Hg j Ej) as [x Hx]. simpl in Hx. by rewrite Hx.
  - destruct Hw as [Hs3 Hex]. split; [|done]. intros h' Hg Hne. rewrite <-Hdev1 by done.
    apply (Frame_device _ h); [|done|done].
    apply (Frame_same _ _ (view_of (restart reboot fs w1))); [done|apply Frame_refl].
  - destruct Hw as [-> (_ & _ & HF3)]. split; [|done]. intros h' Hg Hne. rewrite <-Hdev1 by done.
    apply (Frame_device _ h); [|done|done]. by apply HF3.
Qed.

(** C27: A device that is added is a snapshot: in every state that is reached by
    starts that found no half-made device, when the call succeeds, the new
    device was not there before and is registered with a size that is at least
    that of its base, its contents are those that the base had, and no other
    device changed.  The conditions are those of [reach] and [meta_reliable]:
    after a start that rolled back a device with a metadata file, that device is
    still in memory, and a snapshot of it can be one of another device that was
    given its identifier. *)
Theorem AddDevice_snapshot (c : config) (orc : nat → call → fate)
    (ram : string → option Z) (low : string → string) (w w' : world) (h b : string) opts :
  meta_reliable orc → reach c orc ram low true w →
  good_hash h = true → good_hash b = true →
  do_op c orc ram low (OAdd h b opts) w = (Ok tt, w') →
  (∃ i bi data, device w h = None ∧ device w b = Some (bi, Some data) ∧
     device w' h = Some (i, Some data) ∧ Devices (ds w') !! h = Some i ∧ Size bi ≤ Size i) ∧
  ∀ h', good_hash h' = true → h' ≠ h → device w' h' = device w h'.
Proof.
  intros HR Hr Hg Hb Hrun. pose proof (reach_inv c orc ram low true w HR Hr) as HI.
  pose proof (AddDevice_spec c orc HR ram low h b opts _ HI Hg Hb w eq_refl) as Hw.
  unfold do_op in Hrun. simpl in Hrun. rewrite Hrun in Hw.
  destruct Hw as [[HI' HF] (i & bi & H1 & H2 & H3 & [data H4] & H5)].
  split; [|by intros; apply (Frame_device w h)].
  exists i, bi, data. destruct (i_mem _ HI' h i H1) as [_ Hd']. simpl in *.
  unfold device. rewrite Hd', H2. simpl. rewrite H5, H4. split_and!; [|done|done|done|done].
  destruct (devfile (visible (dk w)) h) as [j|] eqn:Ej; [|done]. exfalso.
  (* the call fails on a device that has a file *)
  assert (wp (AddDevice c orc ram low h b opts) (λ r _, match r with inl _ => False | inr _ => True end)
            (λ _, True) (view_of w)) as Hbad.
  { unfold AddDevice. apply wp_bind.
    eapply wp_conseq; [apply (wp_lookupDevice orc HR b (λ _, True)); [done|done|done]| |done].
    intros [bi'|e] v1 (Ef & _ & _ & Hi1 & _); [|done]. destruct (Deleted bi'); [by apply wp_fail|].
    apply wp_bind, wp_try.
    eapply wp_conseq; [apply (wp_lookupDevice orc HR h (λ _, True)); [done|done|done]| |done].
    intros [i'|e] v2 (Ef2 & _ & _ & _ & Hx); [by apply wp_fail|]. destruct Hx as [Hx _].
    rewrite Ef2, Ef in Hx. simpl in Hx. congruence. }
  specialize (Hbad w eq_refl). by rewrite Hrun in Hbad.
Qed.
