(* ===== verification/DeviceSetFaults.v ===== *)
(** * Runs of the device set, and what a rollback leaves in memory

    A start rolls an open transaction back after it has loaded all metadata
    files, and forgets the file and the identifier of the device but not its
    entry in memory.  The theorems follow what comes of it. *)

From S2P Require Import Prelude GoStrings DeviceIds DeviceSet DeviceSetLogic DeviceSetInv DeviceSetOps.
From S2P Require Import DeviceSetBoot DeviceSetCrash DeviceSetSafety.
Open Scope Z_scope.


(** ** A run *)

(** Deferred removal and deletion; all calls succeed, and the process dies at
    call [n]. *)
Definition ex_config : config := mkConfig 10737418240 false false "" true true 10 "ext4" "uuid".
Definition dies_at (n : nat) : nat → call → fate := λ k _, if Nat.eqb k n then Crash else Go.
Definition no_ram (_ : string) : option Z := None.
Definition same_string (s : string) : string := s.

Lemma dies_at_reliable n : meta_reliable (dies_at n).
Proof. intros k x e _. unfold dies_at. by destruct (Nat.eqb k n). Qed.

Definition blank (total : Z) : world :=
  mkWorld (NewDeviceSet "") (mkDisk ∅ 0 None) (mkPool ∅ 0 ∅ 0 total 0 total) 0.

Section run.
Context (c : config) (n : nat).
Definition boot (w : world) : outcome derr unit * world :=
  initDevmapper c (dies_at n) false true (restart false "" w).
Definition run_op (o : op) (w : world) : outcome derr unit * world :=
  do_op c (dies_at n) no_ram same_string o w.
End run.

(** The set is started, a device is added, mounted, deleted while it is busy
    and unmounted; the worker that deletes it dies at call 86, after the thin
    device is gone and before its file is. *)
Definition s1 : world := (boot ex_config 86 (blank 1000)).2.
Definition s2 : world := (run_op ex_config 86 (OAdd "h1" "" []) s1).2.
Definition s3 : world := (run_op ex_config 86 (OMount "h1") s2).2.
Definition s4 : world := (run_op ex_config 86 (ODelete "h1" false) s3).2.
Definition s5 : world := (run_op ex_config 86 (OUnmount "h1") s4).2.
Definition s6 : world := (run_op ex_config 86 OCleanup s5).2.
(** The daemon is started again, a device is added, and the worker runs. *)
Definition s7 : world := (boot ex_config 86 s6).2.
Definition s8 : world := (run_op ex_config 86 (OAdd "h2" "" []) s7).2.
Definition s9 : world := (run_op ex_config 86 OCleanup s8).2.

Lemma reach_next n w o :
  op_ok o = true → reach ex_config (dies_at n) no_ram same_string true w →
  panics (run_op ex_config n o w).1 = false →
  reach ex_config (dies_at n) no_ram same_string true (run_op ex_config n o w).2.
Proof.
  intros Hok Hr Hp.
  pose proof (reach_op ex_config (dies_at n) no_ram same_string w o _ _ Hr Hok (surjective_pairing _)) as H.
  unfold run_op in Hp. by rewrite Hp in H.
Qed.

Lemma reach_s1 n :
  is_ok (boot ex_config n (blank 1000)).1 = true →
  reach ex_config (dies_at n) no_ram same_string true (boot ex_config n (blank 1000)).2.
Proof.
  intros Hok. rewrite <-Hok. eapply (reach_boot _ _ _ _ (blank 1000) false false "").
  - by apply reach_blank.
  - intros t [Ht _]. done.
  - done.
  - apply surjective_pairing.
Qed.

Lemma reach_s5 : reach ex_config (dies_at 86) no_ram same_string true s5.
Proof.
  unfold s5, s4, s3, s2, s1.
  do 4 (apply reach_next; [reflexivity| |vm_compute; reflexivity]).
  apply reach_s1. vm_compute. reflexivity.
Qed.

Lemma device_ids_unique_witness :
  reach ex_config (dies_at 86) no_ram same_string true s5 ∧
  is_Some (Devices (ds s5) !! "h1") ∧
  ∀ i, Devices (ds s5) !! "h1" = Some i → is_Some (thin (pl s5) !! DeviceID i).
Proof.
  pose proof (device_ids_unique ex_config (dies_at 86) no_ram same_string true s5
    (dies_at_reliable 86) reach_s5) as [_ H].
  split; [exact reach_s5|]. split; [vm_compute; eauto|].
  intros i Hi. by destruct (proj1 (H eq_refl) "h1" i Hi) as (_ & _ & _ & ?).
Defined.

(** The same set with two devices, dying when the transaction of the second
    is to be closed. *)
Definition t1 : world := (boot ex_config 72 (blank 1000)).2.
Definition t2 : world := (run_op ex_config 72 (OAdd "h1" "" []) t1).2.
Definition t3 : world := (run_op ex_config 72 (OAdd "h2" "h1" []) t2).2.

Lemma reach_t2 : reach ex_config (dies_at 72) no_ram same_string true t2.
Proof.
  unfold t2, t1. apply reach_next; [reflexivity| |vm_compute; reflexivity].
  apply reach_s1. vm_compute. reflexivity.
Qed.

Lemma not_open_t2 : ¬ open_tx t2.
Proof.
  intros (t & Ht & Hlt). vm_compute in Ht. injection Ht as <-. vm_compute in Hlt. discriminate.
Qed.

(** ** A pool that no start accepts *)

(** No base device, no open transaction, and a pool that transactions were
    made on. *)
Record Taken (v : view) : Prop := {
  k_dur : Durable v;
  k_base : devfile (vf v) "" = None;
  k_tx : ∀ t, ¬ pending (vf v) (vpl v) t;
  k_ptid : ptid (vpl v) ≠ 0;
}.

Lemma Taken_keeps v0 v :
  Taken v0 → Durable v → ptid (vpl v) = ptid (vpl v0) → Frame v0 "base" v → Taken v.
Proof.
  intros [HD Hb Hn Hp] HD' Hpt [Hf Hm]. split; [done| | |by rewrite Hpt].
  - destruct (Hf "" good_base ltac:(done)) as [-> _]. done.
  - intros t Ht. destruct (Hm t Ht) as [He|Hp']; [|by destruct (Hn t)].
    destruct (d_pending v HD' t Ht) as (Hg & _). by rewrite He in Hg.
Qed.

Lemma Taken_same v0 v : Taken v0 → same_durable v0 v → Taken v.
Proof.
  intros HT Hs. apply (Taken_keeps v0); [done| |apply Hs|].
  - apply (Durable_same v0); [done|apply HT].
  - apply (Frame_same _ _ v0); [done|apply Frame_refl].
Qed.

(** Every start fails, and leaves the state as bad as it was. *)
Lemma Taken_boot c orc v0 :
  meta_reliable orc → thinPoolDevice c ≠ "" → Taken v0 → Devices (vds v0) = ∅ →
  wp (initDevmapper c orc false true)
    (λ r v', match r with inl _ => False | inr _ => Taken v' end) Taken v0.
Proof.
  intros HR Hc HT HN. unfold initDevmapper. apply wp_bind.
  eapply wp_conseq; [apply wp_initMetaData; [done|apply HT|done]|..].
  2:{ intros v' (HD & Hpt & HF). apply (Taken_keeps v0); [done|done|done|].
      apply HF. intros t Hp. by destruct (k_tx v0 HT t). }
  intros [[]|e] v1; [|by intros [Hs _]; apply (Taken_same v0)].
  intros ([HD1 Hn1 Hl1 HF1 Hp1] & HI1 & _).
  assert (Taken v1) as HT1.
  { apply (Taken_keeps v0); [done|done|done|]. apply HF1. intros t Hp. by destruct (k_tx v0 HT t). }
  assert (Inv v1) as HI. { apply HI1. intros t Hp. by destruct (k_tx v0 HT t). }
  apply wp_bind. unfold loadDeviceSetMetaData. apply wp_bind, wp_try.
  apply wp_ReadFile; [done|done|done|].
  assert (∀ v2, Taken v2 → Inv v2 → wp (setupBaseImage c orc)
    (λ r v', match r with inl _ => False | inr _ => Taken v' end) Taken v2) as Hset.
  { intros v2 HT2 HI2. unfold setupBaseImage. apply wp_bind, wp_try.
    apply wp_lookupDevice_exact; [done|apply HT2|done|done| | |].
    - intros i Hi. destruct (i_mem _ HI2 "" i Hi) as [_ Hd]. destruct HT2. congruence.
    - intros i _ Hd. destruct HT2. congruence.
    - intros _ _. rewrite bool_decide_true by done. apply wp_bind.
      unfold checkThinPool. apply wp_bind.
      apply (wp_ext_pool _ _ (λ p, inl p) (λ p, p)); [done|done|done|].
      destruct (negb _); [by apply wp_fail; apply (Taken_same v2)|].
      destruct (Z.eqb_spec (ptid (vpl v2)) 0) as [E|]; [by destruct (k_ptid v2 HT2)|].
      by apply wp_fail; apply (Taken_same v2). }
  destruct (vf v1 !! deviceSetMetaFile) as [x|] eqn:E; simpl; [|by apply wp_ret, Hset].
  pose proof (d_files v1 HD1 _ _ E) as Hok. destruct x as [i|t|n u fs|]; try done.
  { by destruct Hok as (_ & Hx & _). }
  apply wp_bind, wp_gets_ds, wp_bind, wp_set_ds. simpl. apply wp_set_ds, Hset; [by apply (Taken_same v1)|].
  by apply (Inv_same v1).
Qed.

(** One more start of the daemon, whatever happens to it. *)
Definition boot_step (c : config) (w w' : world) : Prop :=
  ∃ orc reboot fs, meta_reliable orc ∧ w' = (initDevmapper c orc false true (restart reboot fs w)).2.

Lemma Taken_step c w w' :
  thinPoolDevice c ≠ "" → Taken (view_of w) → boot_step c w w' → Taken (view_of w').
Proof.
  intros Hc HT (orc & reboot & fs & HR & ->).
  assert (Taken (view_of (restart reboot fs w))) as HT' by (apply (Taken_same (view_of w)); by destruct reboot).
  pose proof (Taken_boot c orc _ HR Hc HT' eq_refl (restart reboot fs w) eq_refl) as Hw.
  destruct (initDevmapper c orc false true (restart reboot fs w)) as [[[]|e|s] w']; [done|done|apply Hw].
Qed.

(** C39: A thin pool given to the daemon on which a transaction was closed, but on which there is no base device, is refused by every start from then on, however often the daemon is started and whatever else happens. *)
Theorem pool_never_accepted (c : config) (w w' : world) (orc : nat → call → fate) (reboot : bool) (fs : string) :
  thinPoolDevice c ≠ "" → Taken (view_of w) → rtc (boot_step c) w w' → meta_reliable orc →
  is_ok (initDevmapper c orc false true (restart reboot fs w')).1 = false.
Proof.
  intros Hc HT Hrtc HR.
  assert (Taken (view_of w')) as HT2.
  { clear HR. induction Hrtc as [w|w w1 w2 Hs _ IH]; [done|]. by eapply IH, Taken_step. }
  assert (Taken (view_of (restart reboot fs w'))) as HT3 by (apply (Taken_same (view_of w')); by destruct reboot).
  pose proof (Taken_boot c orc _ HR Hc HT3 eq_refl (restart reboot fs w') eq_refl) as Hw.
  by destruct (initDevmapper c orc false true (restart reboot fs w')) as [[[]|e|s] w2].
Qed.

(** The way there: the first start on a new pool dies when it is to close the
    transaction of the base device; the second one rolls it back, finds the
    base device in memory, fails to delete it again, and closes a transaction. *)
Definition pool_config : config := mkConfig 10737418240 false false "vg-pool" false false 10 "ext4" "uuid".
Definition p1 : world := (boot pool_config 18 (blank 1000)).2.
Definition p2 : world := (boot pool_config 18 p1).2.

Lemma p2_files : visible (dk p2) = {[ transactionMetaFile := FTx (mkTx 1 "" 1) ]}.
Proof. vm_compute. reflexivity. Qed.

Lemma only_tx_taken w :
  visible (dk w) = {[ transactionMetaFile := FTx (mkTx 1 "" 1) ]} → old (dk w) = None → ptid (pl w) = 1 →
  Taken (view_of w).
Proof.
  intros Hf Ho Hp.
  assert (∀ h, good_hash h = true → devfile (visible (dk w)) h = None) as Hd.
  { intros h Hg. unfold devfile. rewrite Hf, lookup_singleton_ne; [done|].
    intros E. by apply (good_file_ne h Hg). }
  assert (∀ t, ¬ pending (visible (dk w)) (pl w) t) as Hn.
  { intros t [Ht Hlt]. rewrite Hf, lookup_singleton_eq in Ht. injection Ht as <-.
    rewrite Hp in Hlt. simpl in Hlt. lia. }
  split; [split| | |]; simpl; try done.
  - intros f x. rewrite Hf. by intros [<- <-]%lookup_singleton_Some.
  - intros h i Hg. by rewrite Hd.
  - intros t. rewrite Hf, lookup_singleton_eq, Hp. intros [= <-]. simpl. lia.
  - intros t Ht. by destruct (Hn t).
  - intros h Hg. left. intros i. by rewrite Hd.
  - by apply Hd.
  - by rewrite Hp.
Qed.

Lemma p2_taken : Taken (view_of p2).
Proof. apply only_tx_taken; [exact p2_files|vm_compute; reflexivity|vm_compute; reflexivity]. Qed.

Lemma pool_never_accepted_witness :
  (boot pool_config 18 (blank 1000)).1 = Panic crash ∧ is_ok (boot pool_config 18 p1).1 = false ∧
  is_ok (boot pool_config 18 p2).1 = false.
Proof.
  split; [vm_compute; reflexivity|]. split; [vm_compute; reflexivity|].
  exact (pool_never_accepted pool_config p2 p2 (dies_at 18) false "" ltac:(discriminate) p2_taken
    (rtc_refl _ _) (dies_at_reliable 18)).
Defined.


(** The record that a rollback leaves in memory can destroy another device: in a run in which no call fails and the process dies once, while the worker removes a device marked for deletion, the device that is added after the restart gets the identifier that was freed, and the next turn of the worker deletes its thin device, although that device was never asked to be removed. *)
Example stale_device_destroys :
  (run_op ex_config 86 OCleanup s5).1 = Panic crash ∧
  (boot ex_config 86 s6).1 = Ok tt ∧
  (run_op ex_config 86 (OAdd "h2" "" []) s7).1 = Ok tt ∧
  (∃ i data, device s8 "h2" = Some (i, Some data) ∧
     (run_op ex_config 86 OCleanup s8).1 = Ok tt ∧ device s9 "h2" = Some (i, None)).
Proof.
  split; [vm_compute; reflexivity|]. split; [vm_compute; reflexivity|]. split; [vm_compute; reflexivity|].
  eexists _, _. split; [vm_compute; reflexivity|]. split; vm_compute; reflexivity.
Qed.

Lemma crash_recovery_witness :
  (run_op ex_config 72 (OAdd "h2" "h1" []) t2).1 = Panic crash ∧
  is_Some (devfile (visible (dk t3)) "h2") ∧
  device (initMetaData (dies_at 72) (restart true "" t3)).2 "h1" = device t2 "h1" ∧
  device (initMetaData (dies_at 72) (restart true "" t3)).2 "h2" = None.
Proof.
  split; [vm_compute; reflexivity|]. split; [vm_compute; eauto|]. split; [|vm_compute; reflexivity].
  pose proof (crash_recovery ex_config (dies_at 72) (dies_at 72) no_ram same_string t2 t3
    (OAdd "h2" "h1" []) "h2" crash "" true (dies_at_reliable 72) (dies_at_reliable 72) reach_t2 not_open_t2
    eq_refl eq_refl) as [_ H].
  { vm_compute. reflexivity. }
  destruct (initMetaData (dies_at 72) (restart true "" t3)) as [r w2]. destruct H as [H _].
  by apply H.
Defined.

Definition t3' : world := (run_op ex_config 200 (OAdd "h2" "h1" [])
  (run_op ex_config 200 (OAdd "h1" "" []) (boot ex_config 200 (blank 1000)).2).2).2.

Lemma AddDevice_snapshot_witness :
  ∃ i bi data, device (run_op ex_config 200 (OAdd "h1" "" []) (boot ex_config 200 (blank 1000)).2).2 "h1" =
                 Some (bi, Some data) ∧ device t3' "h2" = Some (i, Some data).
Proof.
  pose proof (AddDevice_snapshot ex_config (dies_at 200) no_ram same_string
    (run_op ex_config 200 (OAdd "h1" "" []) (boot ex_config 200 (blank 1000)).2).2 t3' "h2" "h1" []
    (dies_at_reliable 200)) as H.
  destruct H as [(i & bi & data & _ & H1 & H2 & _) _].
  - apply reach_next; [reflexivity|apply reach_s1; vm_compute; reflexivity|vm_compute; reflexivity].
  - reflexivity.
  - reflexivity.
  - vm_compute. reflexivity.
  - exists i, bi, data. split; [exact H1|exact H2].
Defined.
