(* ===== verification/BytesPipe.v ===== *)
(** * Buffered pipes

    pkg/ioutils/bytespipe.go and buffer.go: a pipe is a list of buffers of fixed
    capacity, taken from pools that all pipes share.  The buffers are objects on
    a heap, so that a buffer that is given back to a pool while a pipe still
    uses it would show.  A method runs under the mutex of its pipe: the region
    up to a wait, or up to the return, is one step.  A thread that waits is
    woken by a broadcast and goes on when it is scheduled. *)

From S2P Require Import Prelude.
Open Scope Z_scope.

Abbreviation bytes := (list Ascii.ascii).

Definition len {A} (l : list A) : Z := Z.of_nat (length l).

(** ** Buffers of fixed capacity *)

(** [arr] is the array behind the slice, of length [cap]. *)
Record fixedBuffer := mkBuffer { arr : bytes; pos : Z; lastRead : Z }.

Inductive perr := ErrClosed | errBufferFull | ErrShortWrite | EOF | Custom (e : string).

#[global] Instance perr_eq_dec : EqDecision perr.
Proof. solve_decision. Defined.

Definition Cap (b : fixedBuffer) : Z := len (arr b).
Definition Len (b : fixedBuffer) : Z := pos b - lastRead b.

(** [copy(b.buf[b.pos:cap(b.buf)], p)]. *)
Definition buffer_Write (b : fixedBuffer) (p : bytes) : Z * option perr * fixedBuffer :=
  let n := Z.min (Cap b - pos b) (len p) in
  let b' := mkBuffer (take (Z.to_nat (pos b)) (arr b) ++ take (Z.to_nat n) p ++
                      drop (Z.to_nat (pos b + n)) (arr b)) (pos b + n) (lastRead b) in
  (n, (if n <? len p then if pos b' =? Cap b then Some errBufferFull else Some ErrShortWrite else None), b').

(** [copy(p, b.buf[b.lastRead:b.pos])], where [k] is the length of [p]: the
    bytes that are copied. *)
Definition buffer_Read (b : fixedBuffer) (k : Z) : bytes * fixedBuffer :=
  let n := Z.min k (pos b - lastRead b) in
  (take (Z.to_nat n) (drop (Z.to_nat (lastRead b)) (arr b)), mkBuffer (arr b) (pos b) (lastRead b + n)).

Definition Reset (b : fixedBuffer) : fixedBuffer := mkBuffer (arr b) 0 0.

Definition new_buffer (size : Z) : fixedBuffer := mkBuffer (replicate (Z.to_nat size) Ascii.zero) 0 0.

(** ** Pipes *)

Definition maxCap : Z := 1000000.
Definition minCap : Z := 64.
Definition blockThreshold : Z := 1000000.

Record pipe := mkPipe { buf : list nat; bufLen : Z; closeErr : option perr }.

(** A call that waits, with what it has done so far. *)
Inductive waiting :=
| WWrite (b : nat) (p : bytes) (written : Z)
| WRead (k : Z).

Record thread := mkThread { on : nat; wait : waiting; woken : bool }.

Record world := mkWorld {
  heap : list fixedBuffer;           (* the buffers that were made, by address *)
  bufPools : gmap Z (list nat);      (* the pools, by size *)
  pipes : list pipe;
  threads : gmap nat thread;
}.

Definition err := Empty_set.
Abbreviation M := (ST world err).

Definition set_heap (f : list fixedBuffer → list fixedBuffer) : M unit :=
  st_modify (λ w, mkWorld (f (heap w)) (bufPools w) (pipes w) (threads w)).
Definition set_pools (f : gmap Z (list nat) → gmap Z (list nat)) : M unit :=
  st_modify (λ w, mkWorld (heap w) (f (bufPools w)) (pipes w) (threads w)).
Definition set_pipe (i : nat) (p : pipe) : M unit :=
  st_modify (λ w, mkWorld (heap w) (bufPools w) (<[i := p]> (pipes w)) (threads w)).
Definition set_threads (f : gmap nat thread → gmap nat thread) : M unit :=
  st_modify (λ w, mkWorld (heap w) (bufPools w) (pipes w) (f (threads w))).

Definition get_pipe (i : nat) : M pipe :=
  ps ← st_gets pipes; match ps !! i with Some p => mret p | None => st_panic "no such pipe" end.
Definition load (l : nat) : M fixedBuffer :=
  h ← st_gets heap; match h !! l with Some b => mret b | None => st_panic "nil pointer" end.

(** [bp.wait.Broadcast()]. *)
Definition Broadcast (i : nat) : M unit := set_threads (fmap (λ t,
  if bool_decide (on t = i) then mkThread (on t) (wait t) true else t)).

(** [pool.Get]: an object of the pool, or a new one. *)
Definition getBuffer (size : Z) : M nat :=
  ps ← st_gets bufPools;
  match ps !! size with
  | Some (l :: rest) => set_pools <[size := rest]> ;; mret l
  | Some [] => h ← st_gets heap; set_heap (λ h, h ++ [new_buffer size]) ;; mret (length h)
  | None =>
      set_pools <[size := []]> ;;
      h ← st_gets heap; set_heap (λ h, h ++ [new_buffer size]) ;; mret (length h)
  end.

Definition returnBuffer (l : nat) : M unit :=
  b ← load l;
  set_heap <[l := Reset b]> ;;
  ps ← st_gets bufPools;
  match ps !! Cap b with
  | Some ls => set_pools <[Cap b := l :: ls]>
  | None => mret tt
  end.

(** ** Writing *)

(** The end of a region: the call returned, or it waits. *)
Inductive result (A : Type) := Done (a : A) | Wait (k : waiting).
Arguments Done {A} a.
Arguments Wait {A} k.

Definition append_buffer (i : nat) (size : Z) : M unit :=
  l ← getBuffer size;
  bp ← get_pipe i;
  set_pipe i (mkPipe (buf bp ++ [l]) (bufLen bp) (closeErr bp)).

Definition nextCap (b : fixedBuffer) : Z := if maxCap <? Cap b * 2 then maxCap else Cap b * 2.

(** The loop from its head.  Every turn but the first writes at least a byte:
    the fuel is two more than the bytes. *)
Fixpoint Write_loop (fuel : nat) (i : nat) (p : bytes) (written : Z) : M (result (Z * option perr)) :=
  match fuel with
  | O => st_panic "out of fuel"
  | S fuel' =>
      bp ← get_pipe i;
      if bool_decide (is_Some (closeErr bp)) then mret (Done (written, Some ErrClosed))
      else
        (if bool_decide (buf bp = []) then append_buffer i 64 else mret tt) ;;
        bp ← get_pipe i;
        match last (buf bp) with
        | None => st_panic "index out of range"
        | Some l =>
            b ← load l;
            let '(n, e, b') := buffer_Write b p in
            set_heap <[l := b']> ;;
            set_pipe i (mkPipe (buf bp) (bufLen bp + n) (closeErr bp)) ;;
            if bool_decide (e ≠ None) && bool_decide (e ≠ Some errBufferFull)
            then Broadcast i ;; mret (Done (written + n, e))
            else if len p =? n then Broadcast i ;; mret (Done (written + n, None))
            else if blockThreshold <=? bufLen bp + n
                 then mret (Wait (WWrite l (drop (Z.to_nat n) p) (written + n)))
                 else append_buffer i (nextCap b') ;;
                      Write_loop fuel' i (drop (Z.to_nat n) p) (written + n)
        end
  end.

Definition write_fuel (p : bytes) : nat := S (S (length p)).

Definition Write (i : nat) (p : bytes) : M (result (Z * option perr)) := Write_loop (write_fuel p) i p 0.

(** A writer that was woken: the test of the inner loop again. *)
Definition Write_resume (i l : nat) (p : bytes) (written : Z) : M (result (Z * option perr)) :=
  bp ← get_pipe i;
  if bool_decide (is_Some (closeErr bp)) then Write_loop (write_fuel p) i p written
  else if blockThreshold <=? bufLen bp then mret (Wait (WWrite l p written))
  else b ← load l;
       append_buffer i (nextCap b) ;;
       Write_loop (write_fuel p) i p written.

(** ** Reading *)

(** The loop that takes bytes out: a turn empties a buffer or fills the rest of
    the slice, and the fuel is the number of buffers. *)
Fixpoint Read_loop (fuel : nat) (i : nat) (k : Z) (acc : bytes) : M bytes :=
  bp ← get_pipe i;
  if negb (0 <? bufLen bp) then mret acc
  else
    match fuel with
    | O => st_panic "out of fuel"
    | S fuel' =>
        match buf bp with
        | [] => st_panic "index out of range"
        | l :: rest =>
            b ← load l;
            let '(d, b') := buffer_Read b k in
            set_heap <[l := b']> ;;
            set_pipe i (mkPipe (buf bp) (bufLen bp - len d) (closeErr bp)) ;;
            (if Len b' =? 0 then
               returnBuffer l ;; set_pipe i (mkPipe rest (bufLen bp - len d) (closeErr bp))
             else mret tt) ;;
            if k =? len d then mret (acc ++ d)
            else Read_loop fuel' i (k - len d) (acc ++ d)
        end
    end.

Definition Read_rest (i : nat) (k : Z) : M (result (bytes * option perr)) :=
  bp ← get_pipe i;
  d ← Read_loop (length (buf bp)) i k [];
  Broadcast i ;;
  mret (Done (d, None)).

Definition Read (i : nat) (k : Z) : M (result (bytes * option perr)) :=
  bp ← get_pipe i;
  if bufLen bp =? 0 then
    match closeErr bp with
    | Some e => mret (Done ([], Some e))
    | None => mret (Wait (WRead k))
    end
  else Read_rest i k.

Definition Read_resume (i : nat) (k : Z) : M (result (bytes * option perr)) :=
  bp ← get_pipe i;
  match closeErr bp with
  | Some e => if bufLen bp =? 0 then mret (Done ([], Some e)) else Read_rest i k
  | None => Read_rest i k
  end.

Definition CloseWithError (i : nat) (e : option perr) : M unit :=
  bp ← get_pipe i;
  set_pipe i (mkPipe (buf bp) (bufLen bp) (Some (default EOF e))) ;;
  Broadcast i.

Definition NewBytesPipe : M nat :=
  ps ← st_gets pipes;
  st_modify (λ w, mkWorld (heap w) (bufPools w) (pipes w ++ [mkPipe [] 0 None]) (threads w)) ;;
  append_buffer (length ps) minCap ;;
  mret (length ps).

(** ** Runs *)

Inductive event :=
| ENew
| EWrite (t i : nat) (p : bytes)
| ERead (t i : nat) (k : Z)
| EClose (i : nat) (e : option perr)
| EResume (t : nat)
| EGC (size : Z).            (* a pool may drop what it holds *)

(** What a step did to a pipe: the bytes that were accepted and those that
    were delivered. *)
Record effect := mkEffect { e_pipe : nat; e_in : bytes; e_out : bytes }.

(** The bytes of [p] that a region accepted. *)
Definition accepted (p : bytes) (written : Z) (r : result (Z * option perr)) : bytes :=
  match r with
  | Done (n, _) => take (Z.to_nat (n - written)) p
  | Wait (WWrite _ p' _) => take (length p - length p') p
  | Wait (WRead _) => []
  end.

Definition delivered (r : result (bytes * option perr)) : bytes :=
  match r with Done (d, _) => d | Wait _ => [] end.

Definition park {A} (t i : nat) (r : result A) : M unit :=
  match r with
  | Done _ => set_threads (delete t)
  | Wait k => set_threads <[t := mkThread i k false]>
  end.

Definition exec (e : event) : M (option effect) :=
  match e with
  | ENew => _ ← NewBytesPipe; mret None
  | EWrite t i p => r ← Write i p; park t i r ;; mret (Some (mkEffect i (accepted p 0 r) []))
  | ERead t i k => r ← Read i k; park t i r ;; mret (Some (mkEffect i [] (delivered r)))
  | EClose i x => CloseWithError i x ;; mret None
  | EResume t =>
      ts ← st_gets threads;
      match ts !! t with
      | Some (mkThread i (WWrite l p n) _) =>
          r ← Write_resume i l p n; park t i r ;; mret (Some (mkEffect i (accepted p n r) []))
      | Some (mkThread i (WRead k) _) =>
          r ← Read_resume i k; park t i r ;; mret (Some (mkEffect i [] (delivered r)))
      | None => mret None
      end
  | EGC size => set_pools (alter (λ _, []) size) ;; mret None
  end.

(** Calls are made on pipes that exist, by threads that are not in a call, and
    a waiting thread goes on when it was woken. *)
Definition enabled (e : event) (w : world) : bool :=
  match e with
  | ENew | EGC _ => true
  | EWrite t i _ => bool_decide (i < length (pipes w))%nat && bool_decide (threads w !! t = None)
  | ERead t i k => bool_decide (i < length (pipes w))%nat && bool_decide (threads w !! t = None) && (0 <=? k)
  | EClose i _ => bool_decide (i < length (pipes w))%nat
  | EResume t => match threads w !! t with Some th => woken th | None => false end
  end.

Definition init : world := mkWorld [] ∅ [] ∅.

(** [steps es w w' log]: the events happen, with their effects. *)
Inductive steps : world → list effect → world → Prop :=
| steps_nil w : steps w [] w
| steps_cons w log w1 e o w2 :
    steps w log w1 → enabled e w1 = true → exec e w1 = (Ok o, w2) →
    steps w (log ++ option_list o) w2.

(** What went into a pipe and what came out of it. *)
Definition came_in (i : nat) (log : list effect) : bytes :=
  concat (map (λ x, if bool_decide (e_pipe x = i) then e_in x else []) log).
Definition came_out (i : nat) (log : list effect) : bytes :=
  concat (map (λ x, if bool_decide (e_pipe x = i) then e_out x else []) log).

(** What is in a pipe. *)
Definition unread (h : list fixedBuffer) (l : nat) : bytes :=
  match h !! l with
  | Some b => take (Z.to_nat (pos b - lastRead b)) (drop (Z.to_nat (lastRead b)) (arr b))
  | None => []
  end.

Definition contents (h : list fixedBuffer) (bp : pipe) : bytes := concat (map (unread h) (buf bp)).
