(* ===== verification/BytesPipeSpec.v ===== *)
(** * Pipes are queues

    The invariant of pipes, pools and buffers, the specification of each
    region, and the theorems: what comes out of a pipe is what went in, in the
    same order; a pipe holds a bounded number of bytes; and a write that is
    larger than that never ends when a reader is already waiting. *)

From S2P Require Import Prelude BytesPipe.
Open Scope Z_scope.

(** Running the operations of the state. *)
Lemma gets_bind {A B} (f : world → A) (k : A → M B) w : (st_gets f ≫= k) w = k (f w) w.
Proof. done. Qed.
Lemma pipe_bind {A B} (m : M A) (k : A → M B) w a w' : m w = (Ok a, w') → (m ≫= k) w = k a w'.
Proof. intros E. unfold mbind, ST_bind. by rewrite E. Qed.
Lemma get_pipe_ok i w bp : pipes w !! i = Some bp → get_pipe i w = (Ok bp, w).
Proof. intros E. unfold get_pipe. rewrite gets_bind, E. done. Qed.
Lemma load_ok l w b : heap w !! l = Some b → load l w = (Ok b, w).
Proof. intros E. unfold load. rewrite gets_bind, E. done. Qed.

(** ** The invariant *)

Definition buf_ok (b : fixedBuffer) : Prop :=
  0 ≤ lastRead b ≤ pos b ∧ pos b ≤ Cap b ∧ 0 < Cap b ≤ maxCap.

(** The room left in the last buffer. *)
Definition room (h : list fixedBuffer) (bp : pipe) : Z :=
  match last (buf bp) ≫= (h !!.) with Some b => Cap b - pos b | None => 0 end.

Record PipeOK (h : list fixedBuffer) (bp : pipe) : Prop := {
  p_nodup : NoDup (buf bp);
  p_bufs : ∀ l, l ∈ buf bp → ∃ b, h !! l = Some b ∧ buf_ok b;
  p_len : bufLen bp = len (contents h bp);
  p_bound : bufLen bp + room h bp < blockThreshold + maxCap;
}.

Record WF (w : world) : Prop := {
  wf_pipes : ∀ i bp, pipes w !! i = Some bp → PipeOK (heap w) bp;
  wf_apart : ∀ i j bp bp' l, pipes w !! i = Some bp → pipes w !! j = Some bp' →
    l ∈ buf bp → l ∈ buf bp' → i = j;
  wf_pools : ∀ size ls l, bufPools w !! size = Some ls → l ∈ ls →
    ∃ b, heap w !! l = Some b ∧ b = Reset b ∧ Cap b = size ∧ 0 < size ≤ maxCap;
  wf_pools_nodup : ∀ size ls, bufPools w !! size = Some ls → NoDup ls;
  wf_free : ∀ i bp size ls l, pipes w !! i = Some bp → bufPools w !! size = Some ls →
    l ∈ buf bp → l ∈ ls → False;
}.

(** A thread that waits holds a buffer that exists. *)
Definition threads_ok (w : world) : Prop :=
  ∀ t th, threads w !! t = Some th →
  (on th < length (pipes w))%nat ∧
  match wait th with
  | WWrite l p n => p ≠ [] ∧ 0 ≤ n ∧ ∃ b, heap w !! l = Some b ∧ 0 < Cap b
  | WRead k => 0 ≤ k
  end.

(** ** Bytes of a buffer *)

Lemma len_app {A} (l1 l2 : list A) : len (l1 ++ l2) = len l1 + len l2.
Proof. unfold len. rewrite length_app. lia. Qed.
Lemma len_nonneg {A} (l : list A) : 0 ≤ len l.
Proof. unfold len. lia. Qed.
Lemma len_nil_iff {A} (l : list A) : len l = 0 ↔ l = [].
Proof. unfold len. destruct l; simpl; [done|]. split; [lia|done]. Qed.

Definition unread_of (b : fixedBuffer) : bytes :=
  take (Z.to_nat (pos b - lastRead b)) (drop (Z.to_nat (lastRead b)) (arr b)).

Lemma unread_some h l b : h !! l = Some b → unread h l = unread_of b.
Proof. unfold unread. by intros ->. Qed.

Lemma len_unread_of b : buf_ok b → len (unread_of b) = Len b.
Proof.
  intros (H1 & H2 & _). unfold len, unread_of, Len, Cap, len in *. rewrite length_take, length_drop. lia.
Qed.

Lemma buffer_Write_spec b p n e b' :
  buf_ok b → buffer_Write b p = (n, e, b') →
  n = Z.min (Cap b - pos b) (len p) ∧ 0 ≤ n ∧ buf_ok b' ∧ Cap b' = Cap b ∧ pos b' = pos b + n ∧
  unread_of b' = unread_of b ++ take (Z.to_nat n) p ∧
  e = (if n <? len p then Some errBufferFull else None).
Proof.
  intros Hb [= <- <- <-]. pose proof Hb as (H1 & H2 & H3). pose proof (len_nonneg p).
  set (n := Z.min _ _). assert (0 ≤ n) as Hn by lia. assert (n ≤ len p) as Hnp by lia.
  assert (pos b + n ≤ Cap b) as Hpn by lia. unfold Cap, len in *.
  set (arr' := take _ _ ++ _). assert (length arr' = length (arr b)) as Ha.
  { unfold arr'. rewrite !length_app, !length_take, length_drop. lia. }
  assert (buf_ok (mkBuffer arr' (pos b + n) (lastRead b))) as Hok.
  { unfold buf_ok, Cap, len. simpl. rewrite Ha. lia. }
  split_and!; [done|done|done|simpl; by rewrite Ha|done| |].
  - unfold unread_of. simpl. unfold arr'.
    rewrite skipn_app, length_take, skipn_firstn_comm.
    replace (Z.to_nat (lastRead b) - Z.to_nat (pos b) `min` length (arr b))%nat with 0%nat by lia.
    rewrite drop_0, firstn_app, length_take, length_drop.
    rewrite take_take.
    replace (Z.to_nat (pos b + n - lastRead b) `min` (Z.to_nat (pos b) - Z.to_nat (lastRead b)))%nat
      with (Z.to_nat (pos b - lastRead b)) by lia.
    f_equal.
    replace (Z.to_nat (pos b + n - lastRead b) -
       (Z.to_nat (pos b) - Z.to_nat (lastRead b)) `min` (length (arr b) - Z.to_nat (lastRead b)))%nat
      with (Z.to_nat n) by lia.
    rewrite take_app_le by (rewrite length_take; lia). rewrite take_take. f_equal. lia.
  - simpl. destruct (Z.ltb_spec n (Z.of_nat (length p))); [|done].
    replace (pos b + n) with (Z.of_nat (length (arr b))) by lia. by rewrite Z.eqb_refl.
Qed.

Lemma buffer_Read_spec b k d b' :
  buf_ok b → 0 ≤ k → buffer_Read b k = (d, b') →
  unread_of b = d ++ unread_of b' ∧ len d = Z.min k (Len b) ∧ buf_ok b' ∧ Cap b' = Cap b ∧ pos b' = pos b.
Proof.
  intros Hb Hk [= <- <-]. pose proof Hb as (H1 & H2 & H3). unfold Len, Cap, len in *.
  set (n := Z.min k (pos b - lastRead b)). assert (0 ≤ n ≤ pos b - lastRead b) as Hn by lia.
  split_and!; [|rewrite length_take, length_drop; lia| |done|done].
  - unfold unread_of. simpl. rewrite <-(take_drop (Z.to_nat n) (take (Z.to_nat (pos b - lastRead b)) _)).
    rewrite take_take. f_equal; [f_equal; lia|].
    rewrite skipn_firstn_comm, drop_drop. f_equal; [lia|]. f_equal. lia.
  - unfold buf_ok, Cap, len. simpl. lia.
Qed.

(** ** Buffers that a pipe does not hold do not matter to it *)

Definition agree (h h' : list fixedBuffer) (ls : list nat) : Prop := ∀ l, l ∈ ls → h' !! l = h !! l.

Lemma agree_contents h h' bp : agree h h' (buf bp) → contents h' bp = contents h bp.
Proof.
  intros Ha. unfold contents. f_equal. apply map_ext_in. intros l Hl%list_elem_of_In.
  unfold unread. by rewrite Ha.
Qed.

Lemma agree_room h h' bp : agree h h' (buf bp) → room h' bp = room h bp.
Proof.
  intros Ha. unfold room. destruct (last (buf bp)) as [l|] eqn:E; [|done]. simpl.
  rewrite Ha; [done|]. apply last_Some in E as [l' ->]. set_solver.
Qed.

Lemma agree_PipeOK h h' bp : agree h h' (buf bp) → PipeOK h bp → PipeOK h' bp.
Proof.
  intros Ha [Hn Hb Hl Hr]. split; [done| |by rewrite (agree_contents h)|by rewrite (agree_room h)].
  intros l Hin. rewrite Ha by done. by apply Hb.
Qed.

Lemma agree_insert h l b ls : l ∉ ls → agree h (<[l := b]> h) ls.
Proof. intros Hn l' Hl'. apply list_lookup_insert_ne. set_solver. Qed.

Lemma agree_app h x ls : (∀ l, l ∈ ls → is_Some (h !! l)) → agree h (h ++ x) ls.
Proof. intros Hs l Hl. by apply lookup_app_l, lookup_lt_is_Some_1, Hs. Qed.

Lemma pipe_some w i bp l : WF w → pipes w !! i = Some bp → l ∈ buf bp → is_Some (heap w !! l).
Proof. intros HW Hi Hl. destruct (p_bufs _ _ (wf_pipes w HW i bp Hi) l Hl) as (b & -> & _). eauto. Qed.

Lemma pool_some w size ls l : WF w → bufPools w !! size = Some ls → l ∈ ls → is_Some (heap w !! l).
Proof. intros HW Hi Hl. destruct (wf_pools w HW size ls l Hi Hl) as (b & -> & _). eauto. Qed.

(** ** What a step on pipe [i] does to the rest *)

Record region (i : nat) (w w' : world) (bp bp' : pipe) : Prop := {
  rg_wf : WF w';
  rg_pipe : pipes w' !! i = Some bp';
  rg_len : length (pipes w') = length (pipes w);
  rg_others : ∀ j bpj, j ≠ i → pipes w !! j = Some bpj →
    pipes w' !! j = Some bpj ∧ contents (heap w') bpj = contents (heap w) bpj;
  rg_heap : ∀ l b, heap w !! l = Some b → ∃ b', heap w' !! l = Some b' ∧ Cap b' = Cap b;
  rg_closed : closeErr bp' = closeErr bp;
}.

Lemma region_trans i w1 w2 w3 b1 b2 b3 :
  region i w1 w2 b1 b2 → region i w2 w3 b2 b3 → region i w1 w3 b1 b3.
Proof.
  intros [_ _ L1 O1 H1 C1] [W2 P2 L2 O2 H2 C2]. split; [done|done|congruence| | |congruence].
  - intros j bpj Hj Hp. destruct (O1 j bpj Hj Hp) as [Hp' Hc]. destruct (O2 j bpj Hj Hp') as [Hp'' Hc'].
    split; [done|congruence].
  - intros l b Hl. destruct (H1 l b Hl) as (b' & Hl' & Hc). destruct (H2 l b' Hl') as (b'' & Hl'' & Hc').
    exists b''. split; [done|congruence].
Qed.

Lemma region_refl i w bp : WF w → pipes w !! i = Some bp → region i w w bp bp.
Proof. intros HW Hp. split; try done. eauto. Qed.

(** The threads do not matter to the invariant. *)
Lemma WF_threads w ts : WF w → WF (mkWorld (heap w) (bufPools w) (pipes w) ts).
Proof. intros [? ? ? ? ?]. by split. Qed.

Lemma region_threads i w w' bp bp' ts :
  region i w w' bp bp' → region i w (mkWorld (heap w') (bufPools w') (pipes w') ts) bp bp'.
Proof. intros [W P L O H C]. split; try done. by apply WF_threads. Qed.

(** ** Taking a buffer from a pool *)

(** [l] is a buffer that nobody holds. *)
Record fresh_buffer (w : world) (l : nat) (size : Z) : Prop := {
  fb_buf : ∃ b, heap w !! l = Some b ∧ b = Reset b ∧ Cap b = size;
  fb_pipes : ∀ i bp, pipes w !! i = Some bp → l ∉ buf bp;
  fb_pools : ∀ s ls, bufPools w !! s = Some ls → l ∉ ls;
}.

Lemma new_buffer_ok size : 0 < size → Cap (new_buffer size) = size ∧ new_buffer size = Reset (new_buffer size).
Proof. intros H. split; [|done]. unfold Cap, len, new_buffer. simpl. rewrite length_replicate. lia. Qed.

Lemma getBuffer_spec size w :
  WF w → 0 < size ≤ maxCap →
  ∃ l w', getBuffer size w = (Ok l, w') ∧ WF w' ∧ fresh_buffer w' l size ∧
    pipes w' = pipes w ∧ threads w' = threads w ∧
    ∀ l' b, heap w !! l' = Some b → heap w' !! l' = Some b.
Proof.
  intros HW Hs. pose proof HW as [Hp Ha Hl Hn Hf]. unfold getBuffer. rewrite gets_bind.
  (* a new buffer, after the pool was made if there was none *)
  assert (∀ pools, (∀ s ls, pools !! s = Some ls → ls = [] ∨ bufPools w !! s = Some ls) →
    let w' := mkWorld (heap w ++ [new_buffer size]) pools (pipes w) (threads w) in
    WF w' ∧ fresh_buffer w' (length (heap w)) size) as Hnew.
  { intros pools Hpools w'.
    assert (∀ i bp l, pipes w !! i = Some bp → l ∈ buf bp → (l < length (heap w))%nat) as Hlt.
    { intros i bp l Hi Hin. by apply lookup_lt_is_Some_1, (pipe_some w i bp l). }
    assert (∀ s ls l, pools !! s = Some ls → l ∈ ls → (l < length (heap w))%nat ∧ bufPools w !! s = Some ls) as Hlt2.
    { intros s ls l Hi Hin. destruct (Hpools s ls Hi) as [->|Hi']; [by apply elem_of_nil in Hin|].
      split; [|done]. by apply lookup_lt_is_Some_1, (pool_some w s ls l). }
    split; [split; simpl|split; simpl].
    - intros i bp Hi. apply (agree_PipeOK (heap w)); [|by apply (Hp i)].
      apply agree_app. intros l Hin. by apply (pipe_some w i bp).
    - done.
    - intros s ls l Hi Hin. destruct (Hlt2 s ls l Hi Hin) as [Hlt' Hi'].
      destruct (Hl s ls l Hi' Hin) as (b & Hb & Hr). exists b. split; [by apply lookup_app_l_Some|done].
    - intros s ls Hi. destruct (Hpools s ls Hi) as [->|Hi']; [constructor|by apply (Hn s)].
    - intros i bp s ls l Hi Hs' Hin1 Hin2. destruct (Hlt2 s ls l Hs' Hin2) as [_ Hi']. by apply (Hf i bp s ls l).
    - exists (new_buffer size). destruct (new_buffer_ok size) as [H1 H2]; [lia|].
      split_and!; [|done|done]. by rewrite lookup_app_r, Nat.sub_diag by lia.
    - intros i bp Hi Hin. specialize (Hlt i bp _ Hi Hin). lia.
    - intros s ls Hi Hin. destruct (Hlt2 s ls _ Hi Hin). lia. }
  destruct (bufPools w !! size) as [[|l rest]|] eqn:E.
  - exists (length (heap w)). eexists. split; [reflexivity|]. destruct (Hnew (bufPools w)) as [H1 H2]; [by right|].
    split_and!; [done|done|done|done|]. intros l' b Hb. by apply lookup_app_l_Some.
  - exists l. eexists. split; [reflexivity|].
    destruct (Hl size (l :: rest) l E) as (b & Hb & Hr & Hc & _); [by left|].
    pose proof (Hn size _ E) as Hnd. apply NoDup_cons in Hnd as [Hnl Hnr].
    assert (∀ s ls, <[size:=rest]> (bufPools w) !! s = Some ls →
      ∃ ls', bufPools w !! s = Some ls' ∧ (∀ x, x ∈ ls → x ∈ ls') ∧ l ∉ ls ∧ NoDup ls) as Hpools.
    { intros s ls. rewrite lookup_insert_Some. intros [[<- <-]|[Hne Hx]].
      - exists (l :: rest). split_and!; [done| |done|done]. intros x Hin. by right.
      - exists ls. split_and!; [done|done| |by apply (Hn s)]. intros Hin.
        destruct (Hl s ls l Hx Hin) as (b' & Hb' & _ & Hc' & _). congruence. }
    split_and!; [split; simpl|split; simpl|done|done|done].
    + done.
    + done.
    + intros s ls x Hx Hin. destruct (Hpools s ls Hx) as (ls' & Hx' & Hsub & _). by apply (Hl s ls'), Hsub.
    + intros s ls Hx. by destruct (Hpools s ls Hx) as (ls' & _ & _ & _ & ?).
    + intros i bp s ls x Hi Hx H1 H2. destruct (Hpools s ls Hx) as (ls' & Hx' & Hsub & _).
      by apply (Hf i bp s ls' x Hi Hx' H1), Hsub.
    + by exists b.
    + intros i bp Hi Hin. apply (Hf i bp size _ l Hi E Hin). by left.
    + intros s ls Hx. by destruct (Hpools s ls Hx) as (ls' & _ & _ & ? & _).
  - exists (length (heap w)). eexists. split; [reflexivity|].
    destruct (Hnew (<[size:=[]]> (bufPools w))) as [H1 H2].
    { intros s ls. rewrite lookup_insert_Some. intros [[<- <-]|[_ Hx]]; [by left|by right]. }
    split_and!; [done|done|done|done|]. intros l' b Hb. by apply lookup_app_l_Some.
Qed.

(** ** Changing one pipe *)

Lemma WF_set_pipe w i bp' h' ts :
  WF w → (i < length (pipes w))%nat → PipeOK h' bp' →
  (∀ j bpj, j ≠ i → pipes w !! j = Some bpj →
     agree (heap w) h' (buf bpj) ∧ ∀ l, l ∈ buf bp' → l ∉ buf bpj) →
  (∀ s ls, bufPools w !! s = Some ls → agree (heap w) h' ls ∧ ∀ l, l ∈ buf bp' → l ∉ ls) →
  WF (mkWorld h' (bufPools w) (<[i := bp']> (pipes w)) ts).
Proof.
  intros [Hp Ha Hl Hn Hf] Hi Hok Ho Hpo.
  assert (∀ j bpj, <[i := bp']> (pipes w) !! j = Some bpj →
    (j = i ∧ bpj = bp') ∨ (j ≠ i ∧ pipes w !! j = Some bpj)) as Hcase.
  { intros j bpj. rewrite list_lookup_insert_Some. naive_solver. }
  split; simpl.
  - intros j bpj [[-> ->]|[Hne Hj]]%Hcase; [done|].
    apply (agree_PipeOK (heap w)); [by apply (Ho j)|by apply (Hp j)].
  - intros j k bpj bpk l [[-> ->]|[Hne Hj]]%Hcase [[-> ->]|[Hne' Hk]]%Hcase H1 H2.
    + done.
    + by destruct (proj2 (Ho k bpk Hne' Hk) l).
    + by destruct (proj2 (Ho j bpj Hne Hj) l).
    + by eapply (Ha j k).
  - intros s ls l Hs Hin. rewrite (proj1 (Hpo s ls Hs)) by done. by apply (Hl s ls).
  - done.
  - intros j bpj s ls l [[-> ->]|[Hne Hj]]%Hcase Hs H1 H2.
    + by destruct (proj2 (Hpo s ls Hs) l).
    + by apply (Hf j bpj s ls l).
Qed.

Lemma lookup_pipe_lt w i bp : pipes w !! i = Some bp → (i < length (pipes w))%nat.
Proof. apply lookup_lt_Some. Qed.

(** A write to a buffer that pipe [i] holds, and a new record of the pipe with
    at most the same buffers. *)
Lemma region_update w i bp bp' l b b' ts :
  WF w → pipes w !! i = Some bp → heap w !! l = Some b → l ∈ buf bp → Cap b' = Cap b →
  (∀ x, x ∈ buf bp' → x ∈ buf bp) → closeErr bp' = closeErr bp →
  PipeOK (<[l := b']> (heap w)) bp' →
  region i w (mkWorld (<[l := b']> (heap w)) (bufPools w) (<[i := bp']> (pipes w)) ts) bp bp'.
Proof.
  intros HW Hi Hl Hin Hc Hsub Hcl Hok. pose proof (lookup_pipe_lt _ _ _ Hi) as Hlt.
  assert (∀ j bpj x, j ≠ i → pipes w !! j = Some bpj → x ∈ buf bp → x ∉ buf bpj) as Hapart.
  { intros j bpj x Hne Hj H1 H2. by apply Hne, (wf_apart w HW j i bpj bp x). }
  split; simpl.
  - apply WF_set_pipe; try done.
    + intros j bpj Hne Hj. split; [apply agree_insert; by eapply Hapart|].
      intros x Hx. eapply Hapart; [done|done|by apply Hsub].
    + intros s ls Hs. split.
      * apply agree_insert. intros Hx. by apply (wf_free w HW i bp s ls l).
      * intros x Hx1 Hx2. apply (wf_free w HW i bp s ls x); auto.
  - by apply list_lookup_insert_eq.
  - by rewrite length_insert.
  - intros j bpj Hne Hj. split; [by rewrite list_lookup_insert_ne|].
    apply agree_contents, agree_insert. by eapply Hapart.
  - intros l' x Hx. destruct (decide (l' = l)) as [->|Hne].
    + exists b'. rewrite list_lookup_insert_eq by (by eapply lookup_lt_Some). split; [done|congruence].
    + exists x. by rewrite list_lookup_insert_ne.
  - done.
Qed.

(** A buffer is added at the end of a pipe. *)
Lemma append_buffer_spec i size w bp :
  WF w → pipes w !! i = Some bp → 0 < size ≤ maxCap → bufLen bp < blockThreshold →
  ∃ l w' b, append_buffer i size w = (Ok tt, w') ∧
    region i w w' bp (mkPipe (buf bp ++ [l]) (bufLen bp) (closeErr bp)) ∧
    contents (heap w') (mkPipe (buf bp ++ [l]) (bufLen bp) (closeErr bp)) = contents (heap w) bp ∧
    heap w' !! l = Some b ∧ pos b = 0 ∧ lastRead b = 0 ∧ Cap b = size ∧ threads w' = threads w.
Proof.
  intros HW Hi Hs Hlt. destruct (getBuffer_spec size w HW Hs) as (l & w1 & E & HW1 & [Hb Hfp Hfo] & Hp1 & Ht1 & Hh).
  destruct Hb as (b & Hb & Hr & Hc).
  unfold append_buffer. rewrite (pipe_bind _ _ _ _ _ E), (pipe_bind _ _ _ _ _ (get_pipe_ok i w1 bp ltac:(by rewrite Hp1))).
  set (bp' := mkPipe (buf bp ++ [l]) (bufLen bp) (closeErr bp)).
  assert (unread_of b = []) as Hu.
  { rewrite Hr. unfold unread_of, Reset. simpl. done. }
  assert (agree (heap w) (heap w1) (buf bp)) as Hag.
  { intros x Hx. destruct (pipe_some w i bp x HW Hi Hx) as [y Hy]. rewrite Hy. by apply Hh. }
  assert (contents (heap w1) bp' = contents (heap w) bp) as Hcont.
  { unfold contents, bp'. simpl. rewrite map_app, concat_app. simpl.
    rewrite (unread_some _ _ _ Hb), Hu, !app_nil_r. apply (agree_contents (heap w)), Hag. }
  exists l, (mkWorld (heap w1) (bufPools w1) (<[i := bp']> (pipes w1)) (threads w1)), b.
  split; [done|]. split_and!; [|done|done|by rewrite Hr|by rewrite Hr|done|done].
  pose proof (wf_pipes w HW i bp Hi) as Hok.
  split; simpl.
  - apply WF_set_pipe; [done|rewrite Hp1; by eapply lookup_lt_Some| | |].
    + split.
      * apply NoDup_app. split_and!; [apply Hok| |apply NoDup_singleton].
        intros x Hx ->%list_elem_of_singleton. apply (Hfp i bp); [by rewrite Hp1|done].
      * simpl. intros x [Hx| ->%list_elem_of_singleton]%elem_of_app.
        -- rewrite Hag by done. by apply (p_bufs _ _ Hok).
        -- exists b. split; [done|]. rewrite Hr. unfold buf_ok. simpl. unfold Cap in *. simpl. lia.
      * rewrite Hcont. apply (p_len _ _ Hok).
      * unfold room. simpl. rewrite last_snoc. simpl. rewrite Hb, Hr. simpl. unfold Cap in *. simpl.
        rewrite Hc. unfold blockThreshold, maxCap in *. lia.
    + intros j bpj Hne Hj. split; [by intros x Hx|]. simpl.
      intros x [Hx| ->%list_elem_of_singleton]%elem_of_app H2; [|by apply (Hfp j bpj)].
      rewrite Hp1 in Hj. by apply Hne, (wf_apart w HW j i bpj bp x).
    + intros s ls Hs'. split; [by intros x Hx|]. simpl.
      intros x [Hx| ->%list_elem_of_singleton]%elem_of_app H2; [|by apply (Hfo s ls)].
      apply (wf_free w1 HW1 i bp s ls x); [by rewrite Hp1|done|done|done].
  - rewrite Hp1. apply list_lookup_insert_eq. by eapply lookup_lt_Some.
  - by rewrite length_insert, Hp1.
  - intros j bpj Hne Hj. rewrite Hp1. split; [by rewrite list_lookup_insert_ne|].
    apply agree_contents. intros x Hx. destruct (pipe_some w j bpj x HW Hj Hx) as [y Hy].
    rewrite Hy. by apply Hh.
  - intros x y Hy. exists y. split; [by apply Hh|done].
  - done.
Qed.

(** ** Writing *)

Definition wake (i : nat) (ts : gmap nat thread) : gmap nat thread :=
  (λ t, if bool_decide (on t = i) then mkThread (on t) (wait t) true else t) <$> ts.

(** The contents of a pipe whose last buffer changes. *)
Lemma contents_last h front l b n ce :
  l ∉ front → (l < length h)%nat →
  contents (<[l := b]> h) (mkPipe (front ++ [l]) n ce) = concat (map (unread h) front) ++ unread_of b.
Proof.
  intros Hn Hl. unfold contents. simpl. rewrite map_app, concat_app. simpl.
  rewrite (unread_some _ l b) by (by apply list_lookup_insert_eq). rewrite app_nil_r. f_equal. f_equal.
  apply map_ext_in. intros x Hx%list_elem_of_In. unfold unread. rewrite list_lookup_insert_ne; [done|]. set_solver.
Qed.

(** What one turn does to the last buffer of the pipe. *)
Lemma write_last_spec w i bp l b p n e b' :
  WF w → pipes w !! i = Some bp → last (buf bp) = Some l → heap w !! l = Some b →
  buffer_Write b p = (n, e, b') →
  let bp' := mkPipe (buf bp) (bufLen bp + n) (closeErr bp) in
  let w' := mkWorld (<[l := b']> (heap w)) (bufPools w) (<[i := bp']> (pipes w)) (threads w) in
  region i w w' bp bp' ∧ contents (heap w') bp' = contents (heap w) bp ++ take (Z.to_nat n) p ∧
  n = Z.min (room (heap w) bp) (len p) ∧ 0 ≤ n ∧ Cap b' = Cap b ∧ 0 < Cap b ≤ maxCap ∧
  e = (if n <? len p then Some errBufferFull else None).
Proof.
  intros HW Hi Hlast Hb HE bp' w'. pose proof (wf_pipes w HW i bp Hi) as Hok.
  pose proof Hlast as Hlast'. apply last_Some in Hlast as [front Hbuf].
  assert (l ∈ buf bp) as Hin by (rewrite Hbuf; set_solver).
  assert (buf_ok b) as Hbok. { destruct (p_bufs _ _ Hok l Hin) as (b2 & Hb2 & ?). congruence. }
  destruct (buffer_Write_spec b p n e b' Hbok HE) as (Hn & Hn0 & Hok' & Hcap & Hpos & Hun & He).
  assert (room (heap w) bp = Cap b - pos b) as Hroom. { unfold room. rewrite Hlast'. simpl. by rewrite Hb. }
  assert (l ∉ front) as Hnf.
  { pose proof (p_nodup _ _ Hok) as Hnd. rewrite Hbuf in Hnd. apply NoDup_app in Hnd as (_ & Hd & _).
    intros Hx. apply (Hd l Hx). set_solver. }
  assert ((l < length (heap w))%nat) as Hlt by (by eapply lookup_lt_Some).
  assert (contents (heap w) bp = concat (map (unread (heap w)) front) ++ unread_of b) as Hc0.
  { unfold contents. rewrite Hbuf, map_app, concat_app. simpl. by rewrite (unread_some _ _ _ Hb), app_nil_r. }
  assert (contents (heap w') bp' = contents (heap w) bp ++ take (Z.to_nat n) p) as Hcont.
  { unfold bp', w'. simpl. rewrite Hbuf, contents_last, Hun, Hc0, app_assoc by done. done. }
  split_and!; [|done|by rewrite Hroom|done|done|apply Hbok|apply Hbok|done].
  apply (region_update w i bp bp' l b); try done. split; simpl.
  - apply Hok.
  - intros x Hx. destruct (decide (x = l)) as [->|Hne].
    + exists b'. by rewrite list_lookup_insert_eq.
    + rewrite list_lookup_insert_ne by done. by apply (p_bufs _ _ Hok).
  - change (<[l:=b']> (heap w)) with (heap w'). rewrite Hcont, len_app, (p_len _ _ Hok). f_equal.
    unfold len in *. rewrite length_take. lia.
  - pose proof (p_bound _ _ Hok) as Hbd. rewrite Hroom in Hbd. unfold room. simpl. rewrite Hlast'. simpl.
    rewrite list_lookup_insert_eq by done. simpl. lia.
Qed.

Lemma nextCap_ok b : 0 < Cap b → 0 < nextCap b ≤ maxCap.
Proof. intros H. unfold nextCap. destruct (Z.ltb_spec maxCap (Cap b * 2)); unfold maxCap in *; lia. Qed.

(** The outcome of a region of a write that had [p] to write. *)
Definition wrote (i : nat) (p : bytes) (wr : Z) (w : world) (bp : pipe)
    (r : result (Z * option perr)) (w' : world) : Prop :=
  ∃ bp' m, region i w w' bp bp' ∧ 0 ≤ m ≤ len p ∧
  contents (heap w') bp' = contents (heap w) bp ++ take (Z.to_nat m) p ∧
  match r with
  | Done (n, e) => n = wr + m ∧
      match closeErr bp with
      | Some _ => e = Some ErrClosed ∧ m = 0 ∧ threads w' = threads w
      | None => e = None ∧ m = len p ∧ threads w' = wake i (threads w)
      end
  | Wait (WWrite l p' n) => n = wr + m ∧ p' = drop (Z.to_nat m) p ∧ p' ≠ [] ∧ closeErr bp = None ∧
      threads w' = threads w ∧ blockThreshold ≤ bufLen bp' ∧
      ∃ b, heap w' !! l = Some b ∧ 0 < Cap b
  | Wait (WRead _) => False
  end.

(** A region that goes on after [m1] bytes. *)
Lemma wrote_later i p wr w bp w1 bp1 m1 r w' :
  region i w w1 bp bp1 → 0 ≤ m1 ≤ len p →
  contents (heap w1) bp1 = contents (heap w) bp ++ take (Z.to_nat m1) p →
  threads w1 = threads w → closeErr bp = None →
  wrote i (drop (Z.to_nat m1) p) (wr + m1) w1 bp1 r w' → wrote i p wr w bp r w'.
Proof.
  intros Hr Hm Hc Ht Hcl (bp' & m & Hr' & Hm' & Hc' & Hres).
  assert (len (drop (Z.to_nat m1) p) = len p - m1) as Hl by (unfold len in *; rewrite length_drop; lia).
  exists bp', (m1 + m). split_and!; [by eapply region_trans|lia|lia| |].
  - rewrite Hc', Hc, <-app_assoc. f_equal. rewrite Z2Nat.inj_add, <-take_take_drop by lia. done.
  - assert (closeErr bp1 = None) as Hcl1 by (rewrite (rg_closed _ _ _ _ _ Hr); done).
    rewrite Hcl. destruct r as [[n e]|[l p' n|k]]; [|..|done].
    + rewrite Hcl1 in Hres. rewrite Ht in Hres. destruct Hres as (-> & -> & -> & ->). split_and!; [lia|done|lia|done].
    + destruct Hres as (-> & -> & Hne & _ & Ht' & Hb & Hx). rewrite drop_drop in Hne |- *.
      rewrite <-Z2Nat.inj_add in Hne |- * by lia. split_and!; [lia|done|done|done|congruence|done|done].
Qed.

(** The turns that the loop takes besides one per byte. *)
Definition write_turns (h : list fixedBuffer) (bp : pipe) : nat := if 0 <? room h bp then 1 else 2.

(** A pipe without buffers gets one. *)
Lemma ensure_buffer i w bp :
  WF w → pipes w !! i = Some bp →
  ∃ w1 bp1 l b, (if bool_decide (buf bp = []) then append_buffer i 64 else mret tt) w = (Ok tt, w1) ∧
    region i w w1 bp bp1 ∧ contents (heap w1) bp1 = contents (heap w) bp ∧ threads w1 = threads w ∧
    last (buf bp1) = Some l ∧ heap w1 !! l = Some b ∧
    (write_turns (heap w1) bp1 ≤ write_turns (heap w) bp)%nat.
Proof.
  intros HW Hi. unfold write_turns. case_bool_decide as Hnil.
  - assert (bufLen bp < blockThreshold) as Hlt.
    { rewrite (p_len _ _ (wf_pipes w HW i bp Hi)). unfold contents. by rewrite Hnil. }
    destruct (append_buffer_spec i 64 w bp HW Hi) as (l & w1 & b & E & Hr & Hc & Hb & Hp0 & _ & Hcap & Ht);
      [unfold maxCap; lia|done|].
    exists w1, (mkPipe (buf bp ++ [l]) (bufLen bp) (closeErr bp)), l, b.
    split_and!; [done|done|done|done|simpl; apply last_snoc|done|].
    assert (room (heap w1) (mkPipe (buf bp ++ [l]) (bufLen bp) (closeErr bp)) = 64) as ->.
    { unfold room. simpl. rewrite last_snoc. simpl. rewrite Hb. lia. }
    destruct (0 <? room (heap w) bp); simpl; lia.
  - destruct (last (buf bp)) as [l|] eqn:El; [|by apply last_None in El].
    destruct (p_bufs _ _ (wf_pipes w HW i bp Hi) l) as (b & Hb & _).
    { apply last_Some in El as [? ->]. set_solver. }
    exists w, bp, l, b. split_and!; try done. by apply region_refl.
Qed.

Lemma Write_loop_spec fuel i p wr w bp :
  WF w → pipes w !! i = Some bp →
  (length p + write_turns (heap w) bp ≤ fuel)%nat →
  ∃ r w', Write_loop fuel i p wr w = (Ok r, w') ∧ wrote i p wr w bp r w'.
Proof.
  revert p wr w bp. induction fuel as [|fuel IH]; intros p wr w bp HW Hi Hfuel.
  { unfold write_turns in Hfuel. destruct (0 <? room (heap w) bp); lia. }
  cbn [Write_loop]. rewrite (pipe_bind _ _ _ _ _ (get_pipe_ok i w bp Hi)).
  destruct (closeErr bp) as [ce|] eqn:Ecl.
  { rewrite bool_decide_true by eauto. exists (Done (wr, Some ErrClosed)), w. split; [done|].
    exists bp, 0. pose proof (len_nonneg p). split_and!; [by apply region_refl|done|done|by rewrite app_nil_r|lia|].
    by rewrite Ecl. }
  rewrite bool_decide_false by (by intros [? ?]).
  destruct (ensure_buffer i w bp HW Hi) as (w1 & bp1 & l & b & E1 & Hr1 & Hc1 & Ht1 & Hlast & Hb & Hturns).
  assert (length p + write_turns (heap w1) bp1 ≤ S fuel)%nat as Hfuel1 by lia. clear Hturns Hfuel.
  rewrite (pipe_bind _ _ _ _ _ E1). clear E1.
  pose proof (rg_wf _ _ _ _ _ Hr1) as HW1. pose proof (rg_pipe _ _ _ _ _ Hr1) as Hi1.
  assert (closeErr bp1 = None) as Ecl1 by (by rewrite (rg_closed _ _ _ _ _ Hr1)).
  rewrite (pipe_bind _ _ _ _ _ (get_pipe_ok i w1 bp1 Hi1)), Hlast.
  rewrite (pipe_bind _ _ _ _ _ (load_ok l w1 b Hb)).
  destruct (buffer_Write b p) as [[n e] b'] eqn:EW.
  destruct (write_last_spec w1 i bp1 l b p n e b' HW1 Hi1 Hlast Hb EW) as (Hr2 & Hc2 & Hn & Hn0 & Hcap & Hcb & He).
  set (bp2 := mkPipe _ _ _) in *. set (w2 := mkWorld _ _ _ _) in *.
  assert (region i w w2 bp bp2) as Hr02 by (by eapply region_trans).
  assert (contents (heap w2) bp2 = contents (heap w) bp ++ take (Z.to_nat n) p) as Hc02 by (by rewrite Hc2, Hc1).
  assert (0 ≤ n ≤ len p) as Hnp by lia.
  (* the two assignments *)
  rewrite (pipe_bind (set_heap _) _ w1 tt (mkWorld (<[l := b']> (heap w1)) (bufPools w1) (pipes w1) (threads w1))) by done.
  rewrite (pipe_bind (set_pipe i bp2) _ _ tt w2) by done.
  assert (bool_decide (e ≠ None) && bool_decide (e ≠ Some errBufferFull) = false) as ->.
  { rewrite He. by destruct (n <? len p). }
  destruct (Z.eqb_spec (len p) n) as [Heq|Hne].
  - rewrite (pipe_bind (Broadcast i) _ w2 tt
      (mkWorld (heap w2) (bufPools w2) (pipes w2) (wake i (threads w2)))) by done.
    exists (Done (wr + n, None)). eexists. split; [done|]. exists bp2, n.
    split_and!; [by apply region_threads|lia|lia|done|done|]. rewrite Ecl. split_and!; [done|done|].
    simpl. by rewrite Ht1.
  - assert (n < len p) as Hlt by lia.
    assert (drop (Z.to_nat n) p ≠ []) as Hrest.
    { intros H0. apply (f_equal length) in H0. rewrite length_drop in H0. simpl in H0. unfold len in *. lia. }
    destruct (Z.leb_spec blockThreshold (bufLen bp1 + n)) as [Hfull|Hroom].
    + exists (Wait (WWrite l (drop (Z.to_nat n) p) (wr + n))), w2. split; [done|]. exists bp2, n.
      split_and!; try done; try lia; try (simpl; congruence). exists b'. split; [|lia]. simpl.
      apply list_lookup_insert_eq. by eapply lookup_lt_Some.
    + destruct (append_buffer_spec i (nextCap b') w2 bp2) as
        (l3 & w3 & b3 & E3 & Hr3 & Hc3 & Hb3 & Hp3 & _ & Hcap3 & Ht3).
      * apply Hr2.
      * apply Hr2.
      * apply nextCap_ok. lia.
      * done.
      * rewrite (pipe_bind _ _ _ _ _ E3). set (bp3 := mkPipe (buf bp2 ++ [l3]) (bufLen bp2) (closeErr bp2)) in *.
        assert (0 < nextCap b') as Hnc by (apply nextCap_ok; lia).
        destruct (IH (drop (Z.to_nat n) p) (wr + n) w3 bp3) as (r & w' & E & Hwr).
        -- apply (rg_wf _ _ _ _ _ Hr3).
        -- apply (rg_pipe _ _ _ _ _ Hr3).
        -- unfold write_turns in *. assert (room (heap w3) bp3 = nextCap b') as ->.
           { unfold room, bp3. simpl. rewrite last_snoc. simpl. rewrite Hb3. lia. }
           rewrite (proj2 (Z.ltb_lt _ _)) by done. rewrite length_drop.
           unfold len in *. destruct (Z.ltb_spec 0 (room (heap w1) bp1)); lia.
        -- exists r, w'. split; [done|]. eapply (wrote_later i p wr w bp w3 bp3 n); try done.
           ++ by eapply region_trans.
           ++ by rewrite Hc3.
           ++ by rewrite Ht3.
Qed.

Lemma Write_spec i p w bp :
  WF w → pipes w !! i = Some bp →
  ∃ r w', Write i p w = (Ok r, w') ∧ wrote i p 0 w bp r w'.
Proof.
  intros HW Hi. apply Write_loop_spec; [done|done|]. unfold write_fuel, write_turns.
  destruct (0 <? room (heap w) bp); lia.
Qed.

Lemma Write_resume_spec i l p wr w bp b :
  WF w → pipes w !! i = Some bp → heap w !! l = Some b → 0 < Cap b → p ≠ [] →
  ∃ r w', Write_resume i l p wr w = (Ok r, w') ∧ wrote i p wr w bp r w'.
Proof.
  intros HW Hi Hl Hc Hp. unfold Write_resume. rewrite (pipe_bind _ _ _ _ _ (get_pipe_ok i w bp Hi)).
  assert (∀ w bp, write_turns (heap w) bp ≤ 2)%nat as Hturns.
  { intros w0 bp0. unfold write_turns. destruct (0 <? room (heap w0) bp0); lia. }
  case_bool_decide as Hcl.
  { apply Write_loop_spec; [done|done|]. unfold write_fuel. specialize (Hturns w bp). lia. }
  apply eq_None_not_Some in Hcl. pose proof (len_nonneg p).
  destruct (Z.leb_spec blockThreshold (bufLen bp)) as [Hfull|Hroom].
  { exists (Wait (WWrite l p wr)), w. split; [done|]. exists bp, 0.
    split_and!; [by apply region_refl|done|done|by rewrite app_nil_r|lia|done|done|done|done|done|eauto]. }
  rewrite (pipe_bind _ _ _ _ _ (load_ok l w b Hl)).
  destruct (append_buffer_spec i (nextCap b) w bp HW Hi) as
    (l1 & w1 & b1 & E1 & Hr1 & Hc1 & _ & _ & _ & _ & Ht1); [by apply nextCap_ok|done|].
  rewrite (pipe_bind _ _ _ _ _ E1).
  destruct (Write_loop_spec (write_fuel p) i p wr w1 _ (rg_wf _ _ _ _ _ Hr1) (rg_pipe _ _ _ _ _ Hr1))
    as (r & w' & E & Hwr).
  { unfold write_fuel. specialize (Hturns w1 (mkPipe (buf bp ++ [l1]) (bufLen bp) (closeErr bp))). lia. }
  exists r, w'. split; [done|]. eapply (wrote_later i p wr w bp w1 _ 0); try done.
  - by rewrite app_nil_r.
  - by rewrite Z.add_0_r.
Qed.

(** ** Reading *)

(** A buffer that nobody holds may go to its pool. *)
Lemma WF_put w l size ls :
  WF w → fresh_buffer w l size → 0 < size ≤ maxCap → bufPools w !! size = Some ls →
  WF (mkWorld (heap w) (<[size := l :: ls]> (bufPools w)) (pipes w) (threads w)).
Proof.
  intros [Hp Ha Hl Hn Hf] [Hb Hfp Hfo] Hs Hls.
  assert (∀ s xs x, <[size := l :: ls]> (bufPools w) !! s = Some xs → x ∈ xs →
    (x = l ∧ s = size) ∨ ∃ ys, bufPools w !! s = Some ys ∧ x ∈ ys) as Hcase.
  { intros s xs x. rewrite lookup_insert_Some. intros [[<- <-]|[_ Hx]] Hin; [|eauto].
    apply elem_of_cons in Hin as [->|Hin]; eauto. }
  split; simpl; [done|done| | |].
  - intros s xs x Hx Hin. destruct (Hcase s xs x Hx Hin) as [[-> ->]|(ys & Hys & Hy)]; [|by apply (Hl s ys)].
    destruct Hb as (b & ? & ? & ?). eauto.
  - intros s xs. rewrite lookup_insert_Some. intros [[<- <-]|[_ Hx]]; [|by apply (Hn s)].
    apply NoDup_cons. split; [by apply (Hfo size)|by apply (Hn size)].
  - intros i bp s xs x Hi Hx H1 H2. destruct (Hcase s xs x Hx H2) as [[-> ->]|(ys & Hys & Hy)].
    + by apply (Hfp i bp).
    + by apply (Hf i bp s ys x).
Qed.

Lemma contents_cons h l rest n ce : contents h (mkPipe (l :: rest) n ce) = unread h l ++ concat (map (unread h) rest).
Proof. done. Qed.

(** The first buffer of the pipe has been read to its end. *)
Lemma returnBuffer_spec i w l rest n ce b :
  WF w → pipes w !! i = Some (mkPipe (l :: rest) n ce) → heap w !! l = Some b → Len b = 0 →
  ∃ w', (returnBuffer l ;; set_pipe i (mkPipe rest n ce)) w = (Ok tt, w') ∧
    region i w w' (mkPipe (l :: rest) n ce) (mkPipe rest n ce) ∧
    contents (heap w') (mkPipe rest n ce) = contents (heap w) (mkPipe (l :: rest) n ce) ∧
    threads w' = threads w.
Proof.
  intros HW Hi Hl Hlen. set (bp := mkPipe (l :: rest) n ce) in *. set (bp' := mkPipe rest n ce).
  pose proof (wf_pipes w HW i bp Hi) as Hok. pose proof (p_nodup _ _ Hok) as Hnd.
  unfold bp in Hnd. simpl in Hnd. apply NoDup_cons in Hnd as [Hnl Hnr].
  destruct (p_bufs _ _ Hok l) as (b0 & Hl0 & Hbok); [by left|]. rewrite Hl in Hl0. simplify_eq.
  set (h' := <[l := Reset b0]> (heap w)).
  assert (agree (heap w) h' rest) as Hag by (by apply agree_insert).
  assert (contents h' bp' = contents (heap w) bp) as Hc.
  { unfold bp. rewrite contents_cons. unfold contents, bp'. simpl.
    rewrite (unread_some _ _ _ Hl). assert (unread_of b0 = []) as ->.
    { apply len_nil_iff. by rewrite len_unread_of. }
    simpl. f_equal. apply map_ext_in. intros x Hx%list_elem_of_In. unfold unread. by rewrite Hag. }
  assert (PipeOK h' bp') as Hok'.
  { split; [done| | |].
    - intros x Hx. rewrite (Hag x Hx). apply (p_bufs _ _ Hok). by right.
    - rewrite Hc. apply (p_len _ _ Hok).
    - rewrite (agree_room (heap w)) by done. pose proof (p_bound _ _ Hok) as Hbd.
      unfold room in *. unfold bp, bp' in *. simpl in *. destruct rest as [|x rest]; [|done].
      simpl. pose proof (p_len _ _ Hok) as Hpl. simpl in Hpl. rewrite contents_cons in Hpl. simpl in Hpl.
      rewrite (unread_some _ _ _ Hl), app_nil_r, len_unread_of, Hlen in Hpl by done.
      unfold blockThreshold, maxCap. lia. }
  set (w1 := mkWorld h' (bufPools w) (<[i := bp']> (pipes w)) (threads w)).
  assert (region i w w1 bp bp') as Hr1.
  { apply (region_update w i bp bp' l b0); try done; [by left|]. intros x Hx. by right. }
  assert (fresh_buffer w1 l (Cap b0)) as Hfresh.
  { split; simpl.
    - exists (Reset b0). split_and!; [|done|done]. apply list_lookup_insert_eq. by eapply lookup_lt_Some.
    - intros j bpj. rewrite list_lookup_insert_Some. intros [(<- & <- & _)|[Hne Hj]]; [done|].
      intros Hin. apply Hne, (wf_apart w HW i j bp bpj l); [done|done|by left|done].
    - intros s ls Hs Hin. apply (wf_free w HW i bp s ls l); [done|done|by left|done]. }
  unfold returnBuffer. 
  destruct (bufPools w !! Cap b0) as [ls|] eqn:Epool.
  - exists (mkWorld h' (<[Cap b0 := l :: ls]> (bufPools w)) (<[i := bp']> (pipes w)) (threads w)).
    split_and!; [|split; try apply Hr1|done|done].
    + unfold load. unfold mbind, ST_bind, st_gets. rewrite Hl. simpl. rewrite Epool. done.
    + apply (WF_put w1); [apply (rg_wf _ _ _ _ _ Hr1)|done|apply Hbok|done].
  - exists w1. split_and!; [|done|done|done].
    unfold load. unfold mbind, ST_bind, st_gets. rewrite Hl. simpl. rewrite Epool. done.
Qed.

(** What one turn takes out of the first buffer. *)
Lemma read_first_spec w i bp l rest b k d b' :
  WF w → pipes w !! i = Some bp → buf bp = l :: rest → heap w !! l = Some b → 0 ≤ k →
  buffer_Read b k = (d, b') →
  let bp' := mkPipe (buf bp) (bufLen bp - len d) (closeErr bp) in
  let w' := mkWorld (<[l := b']> (heap w)) (bufPools w) (<[i := bp']> (pipes w)) (threads w) in
  region i w w' bp bp' ∧ contents (heap w) bp = d ++ contents (heap w') bp' ∧
  len d = Z.min k (Len b) ∧ (0 ≤ Len b ≤ bufLen bp) ∧ Len b' = Len b - len d.
Proof.
  intros HW Hi Hbuf Hb Hk HE bp' w'. pose proof (wf_pipes w HW i bp Hi) as Hok.
  assert (l ∈ buf bp) as Hin by (rewrite Hbuf; by left).
  assert (buf_ok b) as Hbok. { destruct (p_bufs _ _ Hok l Hin) as (b2 & Hb2 & ?). congruence. }
  destruct (buffer_Read_spec b k d b' Hbok Hk HE) as (Hu & Hd & Hok' & Hcap & Hpos).
  pose proof (p_nodup _ _ Hok) as Hnd. rewrite Hbuf in Hnd. apply NoDup_cons in Hnd as [Hnl _].
  assert ((l < length (heap w))%nat) as Hlt by (by eapply lookup_lt_Some).
  assert (contents (heap w) bp = unread_of b ++ concat (map (unread (heap w)) rest)) as Hc0.
  { unfold contents. rewrite Hbuf. simpl. by rewrite (unread_some _ _ _ Hb). }
  assert (contents (heap w) bp = d ++ contents (heap w') bp') as Hcont.
  { rewrite Hc0, Hu, <-app_assoc. f_equal. unfold contents, bp', w'. simpl. rewrite Hbuf. simpl.
    rewrite (unread_some _ l b') by (by apply list_lookup_insert_eq). f_equal. f_equal.
    apply map_ext_in. intros x Hx%list_elem_of_In. unfold unread. rewrite list_lookup_insert_ne; [done|]. set_solver. }
  assert (Len b' = Len b - len d) as Hlen'.
  { apply (f_equal len) in Hu. rewrite len_app, !len_unread_of in Hu by done. lia. }
  assert (0 ≤ Len b) by (unfold Len; destruct Hbok; lia).
  split_and!; [|done|done|done| |done].
  2:{ rewrite (p_len _ _ Hok), Hc0, len_app, len_unread_of by done.
      pose proof (len_nonneg (concat (map (unread (heap w)) rest))). lia. }
  apply (region_update w i bp bp' l b); try done. split; simpl.
  - apply Hok.
  - intros x Hx. destruct (decide (x = l)) as [->|Hne].
    + exists b'. by rewrite list_lookup_insert_eq.
    + rewrite list_lookup_insert_ne by done. by apply (p_bufs _ _ Hok).
  - change (<[l:=b']> (heap w)) with (heap w'). rewrite (p_len _ _ Hok), Hcont, len_app. lia.
  - assert (room (heap w') bp' = room (heap w) bp) as Hroom.
    { unfold room, bp', w'. simpl. destruct (last (buf bp)) as [x|] eqn:Ex; [|done]. simpl.
      destruct (decide (x = l)) as [->|Hne]; [|by rewrite list_lookup_insert_ne].
      rewrite list_lookup_insert_eq, Hb by done. lia. }
    change (<[l:=b']> (heap w)) with (heap w'). rewrite Hroom. pose proof (p_bound _ _ Hok).
    pose proof (len_nonneg d). lia.
Qed.

(** The outcome of a region of a read that had room for [k] bytes. *)
Definition took (i : nat) (k : Z) (w : world) (bp : pipe) (d : bytes) (w' : world) : Prop :=
  ∃ bp', region i w w' bp bp' ∧ contents (heap w) bp = d ++ contents (heap w') bp' ∧
  len d = Z.min k (bufLen bp) ∧ threads w' = threads w.

Lemma took_bufLen i k w bp d w' : WF w → pipes w !! i = Some bp → took i k w bp d w' →
  ∃ bp', pipes w' !! i = Some bp' ∧ bufLen bp' = bufLen bp - len d.
Proof.
  intros HW Hi (bp' & Hr & Hc & _ & _). exists bp'. split; [apply (rg_pipe _ _ _ _ _ Hr)|].
  rewrite (p_len _ _ (wf_pipes w' (rg_wf _ _ _ _ _ Hr) i bp' (rg_pipe _ _ _ _ _ Hr))).
  rewrite (p_len _ _ (wf_pipes w HW i bp Hi)), Hc, len_app. lia.
Qed.

Lemma took_trans i k w bp w1 bp1 d1 d2 w' :
  WF w → pipes w !! i = Some bp →
  region i w w1 bp bp1 → contents (heap w) bp = d1 ++ contents (heap w1) bp1 → threads w1 = threads w →
  len d1 ≤ k → len d1 ≤ bufLen bp → took i (k - len d1) w1 bp1 d2 w' → took i k w bp (d1 ++ d2) w'.
Proof.
  intros HW Hi Hr1 Hc1 Ht1 Hk Hb (bp' & Hr & Hc & Hl & Ht). exists bp'. split_and!.
  - by eapply region_trans.
  - by rewrite Hc1, Hc, app_assoc.
  - assert (bufLen bp1 = bufLen bp - len d1) as Hb1.
    { rewrite (p_len _ _ (wf_pipes w1 (rg_wf _ _ _ _ _ Hr1) i bp1 (rg_pipe _ _ _ _ _ Hr1))).
      rewrite (p_len _ _ (wf_pipes w HW i bp Hi)), Hc1, len_app. lia. }
    rewrite len_app, Hl, Hb1. lia.
  - congruence.
Qed.

Lemma took_nothing i k w bp : WF w → pipes w !! i = Some bp → Z.min k (bufLen bp) = 0 → took i k w bp [] w.
Proof. intros HW Hi H0. exists bp. split_and!; [by apply region_refl|done|done|done]. Qed.

Lemma Read_loop_spec fuel i k acc w bp :
  WF w → pipes w !! i = Some bp → 0 ≤ k → (length (buf bp) ≤ fuel)%nat →
  ∃ d w', Read_loop fuel i k acc w = (Ok (acc ++ d), w') ∧ took i k w bp d w'.
Proof.
  revert k acc w bp. induction fuel as [|fuel IH]; intros k acc w bp HW Hi Hk Hfuel;
    cbn [Read_loop]; rewrite (pipe_bind _ _ _ _ _ (get_pipe_ok i w bp Hi));
    pose proof (p_len _ _ (wf_pipes w HW i bp Hi)) as Hlen;
    (destruct (Z.ltb_spec 0 (bufLen bp)) as [Hpos|Hz]; cbn [negb];
     [|exists [], w; rewrite app_nil_r; split; [done|apply took_nothing; [done|done|];
       pose proof (len_nonneg (contents (heap w) bp)); lia]]).
  { exfalso. destruct (buf bp) as [|x xs] eqn:Eb; [|simpl in Hfuel; lia].
    unfold contents in Hlen. rewrite Eb in Hlen. simpl in Hlen. unfold len in Hlen. simpl in Hlen. lia. }
  destruct (buf bp) as [|l rest] eqn:Ebuf.
  { exfalso. unfold contents in Hlen. rewrite Ebuf in Hlen. unfold len in Hlen. simpl in Hlen. lia. }
  destruct (p_bufs _ _ (wf_pipes w HW i bp Hi) l) as (b & Hb & _); [rewrite Ebuf; by left|].
  rewrite (pipe_bind _ _ _ _ _ (load_ok l w b Hb)). destruct (buffer_Read b k) as [d b'] eqn:ER.
  destruct (read_first_spec w i bp l rest b k d b' HW Hi Ebuf Hb Hk ER) as (Hr1 & Hc1 & Hd & Hlb & Hlb').
  rewrite Ebuf in Hr1, Hc1. set (bp1 := mkPipe (l :: rest) (bufLen bp - len d) (closeErr bp)) in *.
  set (w1 := mkWorld (<[l := b']> (heap w)) (bufPools w) (<[i := bp1]> (pipes w)) (threads w)) in *.
  rewrite (pipe_bind (set_heap <[l := b']>) _ w tt (mkWorld (<[l := b']> (heap w)) (bufPools w) (pipes w) (threads w))) by done.
  rewrite (pipe_bind (set_pipe i bp1) _ _ tt w1) by done.
  (* the buffer goes back when it is empty *)
  assert (∃ w2 bp2, (if Len b' =? 0 then
      returnBuffer l ;; set_pipe i (mkPipe rest (bufLen bp - len d) (closeErr bp)) else mret tt) w1 = (Ok tt, w2) ∧
    region i w w2 bp bp2 ∧ contents (heap w) bp = d ++ contents (heap w2) bp2 ∧ threads w2 = threads w ∧
    (Len b' = 0 → buf bp2 = rest)) as (w2 & bp2 & E2 & Hr2 & Hc2 & Ht2 & Hrest).
  { destruct (Z.eqb_spec (Len b') 0) as [H0|H0].
    - destruct (returnBuffer_spec i w1 l rest (bufLen bp - len d) (closeErr bp) b') as (w2 & E2 & Hr2 & Hc2 & Ht2).
      + apply (rg_wf _ _ _ _ _ Hr1).
      + apply (rg_pipe _ _ _ _ _ Hr1).
      + simpl. apply list_lookup_insert_eq. by eapply lookup_lt_Some.
      + done.
      + exists w2, (mkPipe rest (bufLen bp - len d) (closeErr bp)).
        split_and!; [done|by eapply region_trans|by rewrite Hc1, Hc2|by rewrite Ht2|done].
    - exists w1, bp1. split_and!; [done|done|done|done|]. intros H1. by destruct H0. }
  rewrite (pipe_bind _ _ _ _ _ E2). destruct (Z.eqb_spec k (len d)) as [Hkd|Hkd].
  - exists d, w2. split; [done|]. exists bp2. split_and!; [done|done|lia|done].
  - destruct (IH (k - len d) (acc ++ d) w2 bp2) as (d2 & w' & E & Ht).
    + apply (rg_wf _ _ _ _ _ Hr2).
    + apply (rg_pipe _ _ _ _ _ Hr2).
    + lia.
    + rewrite Hrest by lia. simpl in Hfuel. lia.
    + exists (d ++ d2), w'. rewrite app_assoc. split; [done|]. eapply took_trans; try done; lia.
Qed.

(** The outcome of a region of a read. *)
Definition read (i : nat) (k : Z) (w : world) (bp : pipe) (r : result (bytes * option perr)) (w' : world) : Prop :=
  match r with
  | Done (d, e) => ∃ w1, took i k w bp d w1 ∧
      match e with
      | Some x => closeErr bp = Some x ∧ bufLen bp = 0 ∧ d = [] ∧ w' = w
      | None => w' = mkWorld (heap w1) (bufPools w1) (pipes w1) (wake i (threads w1))
      end
  | Wait (WRead k') => k' = k ∧ w' = w ∧ bufLen bp = 0 ∧ closeErr bp = None
  | Wait (WWrite _ _ _) => False
  end.

Lemma Read_rest_spec i k w bp :
  WF w → pipes w !! i = Some bp → 0 ≤ k →
  ∃ d w', Read_rest i k w = (Ok (Done (d, None)), w') ∧ read i k w bp (Done (d, None)) w'.
Proof.
  intros HW Hi Hk. unfold Read_rest. rewrite (pipe_bind _ _ _ _ _ (get_pipe_ok i w bp Hi)).
  destruct (Read_loop_spec (length (buf bp)) i k [] w bp HW Hi Hk) as (d & w1 & E & Ht); [lia|].
  rewrite (pipe_bind _ _ _ _ _ E). exists d. eexists. split; [done|]. by exists w1.
Qed.

Lemma pipe_Read_spec i k w bp :
  WF w → pipes w !! i = Some bp → 0 ≤ k → ∃ r w', Read i k w = (Ok r, w') ∧ read i k w bp r w'.
Proof.
  intros HW Hi Hk. unfold Read. rewrite (pipe_bind _ _ _ _ _ (get_pipe_ok i w bp Hi)).
  destruct (Z.eqb_spec (bufLen bp) 0) as [H0|H0].
  - destruct (closeErr bp) as [x|] eqn:Ec.
    + exists (Done ([], Some x)), w. split; [done|]. exists w. split; [apply took_nothing; [done|done|lia]|done].
    + by exists (Wait (WRead k)), w.
  - destruct (Read_rest_spec i k w bp HW Hi Hk) as (d & w' & E & Hr). by exists (Done (d, None)), w'.
Qed.

Lemma Read_resume_spec i k w bp :
  WF w → pipes w !! i = Some bp → 0 ≤ k → ∃ r w', Read_resume i k w = (Ok r, w') ∧ read i k w bp r w'.
Proof.
  intros HW Hi Hk. unfold Read_resume. rewrite (pipe_bind _ _ _ _ _ (get_pipe_ok i w bp Hi)).
  destruct (Read_rest_spec i k w bp HW Hi Hk) as (d & w' & E & Hr).
  destruct (closeErr bp) as [x|] eqn:Ec; [|by exists (Done (d, None)), w'].
  destruct (Z.eqb_spec (bufLen bp) 0) as [H0|H0]; [|by exists (Done (d, None)), w'].
  exists (Done ([], Some x)), w. split; [done|]. exists w. split; [apply took_nothing; [done|done|lia]|done].
Qed.
