(* ===== verification/BytesPipeSafety.v ===== *)
(** * Runs of buffered pipes

    Every region that is started from a well-formed state ends, without a
    panic, in one; over all runs, and over all interleavings of the threads,
    what came out of a pipe followed by what it holds is what went in, and a
    pipe never holds two million bytes.  The bound is also a trap: a call that
    writes as much to an empty pipe waits before it has woken the reader. *)

From S2P Require Import Prelude BytesPipe BytesPipeSpec.
Open Scope Z_scope.

(** What pipe [i] holds. *)
Definition contents_at (w : world) (i : nat) : bytes :=
  match pipes w !! i with Some bp => contents (heap w) bp | None => [] end.

(** What a step put into a pipe and took out of it. *)
Definition ins (i : nat) (o : option effect) : bytes :=
  match o with Some x => if bool_decide (e_pipe x = i) then e_in x else [] | None => [] end.
Definition outs (i : nat) (o : option effect) : bytes :=
  match o with Some x => if bool_decide (e_pipe x = i) then e_out x else [] | None => [] end.

Definition Inv (w : world) : Prop := WF w ∧ threads_ok w.

(** A step that ends well. *)
Definition good_step (o : option effect) (w w' : world) : Prop :=
  Inv w' ∧ (length (pipes w) ≤ length (pipes w'))%nat ∧
  ∀ i, contents_at w i ++ ins i o = outs i o ++ contents_at w' i.

(** ** The threads that wait *)

Definition thread_ok (w : world) (th : thread) : Prop :=
  (on th < length (pipes w))%nat ∧
  match wait th with
  | WWrite l p n => p ≠ [] ∧ 0 ≤ n ∧ ∃ b, heap w !! l = Some b ∧ 0 < Cap b
  | WRead k => 0 ≤ k
  end.

(** The buffers and pipes of [w] are there in [w']. *)
Definition keeps (w w' : world) : Prop :=
  (length (pipes w) ≤ length (pipes w'))%nat ∧
  ∀ l b, heap w !! l = Some b → ∃ b', heap w' !! l = Some b' ∧ Cap b' = Cap b.

Lemma thread_ok_keeps w w' th : keeps w w' → thread_ok w th → thread_ok w' th.
Proof.
  intros [Hl Hh] [Ho Hw]. split; [lia|]. destruct (wait th) as [l p n|k]; [|done].
  destruct Hw as (Hp & Hn & b & Hb & Hc). destruct (Hh l b Hb) as (b' & Hb' & Hc').
  split_and!; [done|done|]. exists b'. split; [done|lia].
Qed.

Lemma region_keeps i w w' bp bp' : region i w w' bp bp' → keeps w w'.
Proof. intros [_ _ L _ H _]. split; [by rewrite L|done]. Qed.

Lemma keeps_refl w : keeps w w.
Proof. split; [done|]. eauto. Qed.

(** The threads of [w'] are those of [w], some of them woken. *)
Definition same_threads (w w' : world) : Prop :=
  ∀ t th, threads w' !! t = Some th → ∃ th0, threads w !! t = Some th0 ∧ on th = on th0 ∧ wait th = wait th0.

Lemma threads_ok_same w w' : threads_ok w → keeps w w' → same_threads w w' → threads_ok w'.
Proof.
  intros Hok Hk Hs t th Ht. destruct (Hs t th Ht) as (th0 & Ht0 & Ho & Hw).
  pose proof (thread_ok_keeps w w' th0 Hk (Hok t th0 Ht0)) as H. unfold thread_ok in H. by rewrite Ho, Hw.
Qed.

Lemma same_threads_eq w w' : threads w' = threads w → same_threads w w'.
Proof. intros E t th Ht. exists th. by rewrite <-E. Qed.

Lemma same_threads_wake i w w' : threads w' = wake i (threads w) → same_threads w w'.
Proof.
  intros E t th. rewrite E. unfold wake. rewrite lookup_fmap_Some. intros (th0 & <- & Ht).
  exists th0. split; [done|]. by case_bool_decide.
Qed.

(** The world after the thread [t] returned or began to wait. *)
Definition parked {A} (t i : nat) (r : result A) (w : world) : world :=
  mkWorld (heap w) (bufPools w) (pipes w)
    match r with Done _ => delete t (threads w) | Wait k => <[t := mkThread i k false]> (threads w) end.

Lemma park_ok {A} t i (r : result A) w : park t i r w = (Ok tt, parked t i r w).
Proof. by destruct r. Qed.

Lemma parked_ok {A} t i (r : result A) w :
  WF w → threads_ok w → (∀ k, r = Wait k → thread_ok w (mkThread i k false)) → Inv (parked t i r w).
Proof.
  intros HW Ht Hk. split; [by apply WF_threads|]. intros t' th Hth.
  change (thread_ok w th). destruct r as [a|k]; simpl in Hth.
  - apply lookup_delete_Some in Hth as [_ Hth]. by apply (Ht t').
  - apply lookup_insert_Some in Hth as [[<- <-]|[_ Hth]]; [by apply Hk|by apply (Ht t')].
Qed.

(** ** What a region means for a run *)

Lemma lookup_pipe_of w i bp : pipes w !! i = Some bp → contents_at w i = contents (heap w) bp.
Proof. unfold contents_at. by intros ->. Qed.

Lemma region_contents i w w' bp bp' j : region i w w' bp bp' → j ≠ i → contents_at w' j = contents_at w j.
Proof.
  intros Hr Hne. unfold contents_at. destruct (pipes w !! j) as [bpj|] eqn:Ej.
  - destruct (rg_others _ _ _ _ _ Hr j bpj Hne Ej) as [-> ?]. done.
  - replace (pipes w' !! j) with (@None pipe); [done|]. symmetry.
    apply lookup_ge_None. rewrite (rg_len _ _ _ _ _ Hr). by apply lookup_ge_None.
Qed.

(** The effect of a region of pipe [i] on all pipes. *)
Lemma region_flow i w w' bp bp' win wout :
  pipes w !! i = Some bp → region i w w' bp bp' →
  contents (heap w) bp ++ win = wout ++ contents (heap w') bp' →
  ∀ j, contents_at w j ++ ins j (Some (mkEffect i win wout)) = outs j (Some (mkEffect i win wout)) ++ contents_at w' j.
Proof.
  intros Hi Hr E j. simpl. case_bool_decide as Hj.
  - subst j. by rewrite (lookup_pipe_of w i bp Hi), (lookup_pipe_of w' i bp' (rg_pipe _ _ _ _ _ Hr)).
  - rewrite (region_contents i w w' bp bp' j Hr) by congruence. by rewrite app_nil_r.
Qed.

Lemma accepted_wrote i p wr w bp r w' :
  wrote i p wr w bp r w' → ∃ bp', region i w w' bp bp' ∧
    contents (heap w) bp ++ accepted p wr r = contents (heap w') bp' ∧
    same_threads w w' ∧ (0 ≤ wr → (i < length (pipes w))%nat → ∀ k, r = Wait k → thread_ok w' (mkThread i k false)).
Proof.
  intros (bp' & m & Hr & Hm & Hc & Hres). exists bp'. split; [done|]. rewrite Hc.
  destruct r as [[n e]|[l p' n|k]]; [| |done]; simpl.
  - destruct Hres as [-> Hres]. split_and!; [|destruct (closeErr bp)|done].
    + do 3 f_equal. lia.
    + apply same_threads_eq. by destruct Hres as (_ & _ & ?).
    + eapply same_threads_wake. by destruct Hres as (_ & _ & ?).
  - destruct Hres as (-> & -> & Hne & _ & Ht & _ & Hb). split_and!; [|by apply same_threads_eq|].
    + do 2 f_equal. rewrite length_drop. unfold len in Hm. lia.
    + intros H0 Hi k [= <-]. split; [simpl; by rewrite (rg_len _ _ _ _ _ Hr)|]. simpl. split_and!; [done|lia|done].
Qed.

(** A region of a write, with what follows it. *)
Lemma write_good_step t i p wr w bp r w' :
  Inv w → pipes w !! i = Some bp → 0 ≤ wr → wrote i p wr w bp r w' →
  good_step (Some (mkEffect i (accepted p wr r) [])) w (parked t i r w').
Proof.
  intros [HW Ht] Hi H0 Hw. destruct (accepted_wrote i p wr w bp r w' Hw) as (bp' & Hr & Hc & Hs & Hk).
  split_and!.
  - apply parked_ok; [apply (rg_wf _ _ _ _ _ Hr)| |apply Hk; [done|by eapply lookup_lt_Some]].
    eapply threads_ok_same; [done|by eapply region_keeps|done].
  - simpl. by rewrite (rg_len _ _ _ _ _ Hr).
  - intros j. rewrite (region_flow i w w' bp bp' _ [] Hi Hr Hc j). done.
Qed.

Lemma delivered_read i k w bp r w' :
  WF w → pipes w !! i = Some bp → read i k w bp r w' → ∃ bp', region i w w' bp bp' ∧
    contents (heap w) bp = delivered r ++ contents (heap w') bp' ∧ same_threads w w' ∧
    (0 ≤ k → ∀ x, r = Wait x → thread_ok w' (mkThread i x false)).
Proof.
  intros HW Hi Hr. destruct r as [[d e]|[l p' n|k']]; [| |]; simpl in Hr; [|done|].
  - destruct Hr as (w1 & (bp' & Hr & Hc & _ & Ht) & He). destruct e as [x|].
    + destruct He as (_ & _ & -> & ->). exists bp. split_and!; [by apply region_refl|done|by apply same_threads_eq|done].
    + subst w'. exists bp'. split_and!; [by apply region_threads|done| |done].
      eapply same_threads_wake. simpl. by rewrite Ht.
  - destruct Hr as (-> & -> & _). exists bp. split_and!; [by apply region_refl|done|by apply same_threads_eq|].
    intros H0 x [= <-]. split; [by eapply lookup_lt_Some|done].
Qed.

Lemma read_good_step t i k w bp r w' :
  Inv w → pipes w !! i = Some bp → 0 ≤ k → read i k w bp r w' →
  good_step (Some (mkEffect i [] (delivered r))) w (parked t i r w').
Proof.
  intros [HW Ht] Hi H0 Hw. destruct (delivered_read i k w bp r w' HW Hi Hw) as (bp' & Hr & Hc & Hs & Hk).
  split_and!.
  - apply parked_ok; [apply (rg_wf _ _ _ _ _ Hr)| |by apply Hk].
    eapply threads_ok_same; [done|by eapply region_keeps|done].
  - simpl. by rewrite (rg_len _ _ _ _ _ Hr).
  - intros j. rewrite (region_flow i w w' bp bp' [] (delivered r) Hi Hr); [done|]. by rewrite app_nil_r.
Qed.

(** ** The other operations *)

Lemma set_closed_WF w i bp e ts :
  WF w → pipes w !! i = Some bp →
  WF (mkWorld (heap w) (bufPools w) (<[i := mkPipe (buf bp) (bufLen bp) e]> (pipes w)) ts).
Proof.
  intros HW Hi. pose proof (wf_pipes w HW i bp Hi) as [Hn Hb Hl Hr].
  apply WF_set_pipe; [done|by eapply lookup_lt_Some|by split| |].
  - intros j bpj Hne Hj. split; [by intros l Hl'|]. simpl. intros l H1 H2.
    by apply Hne, (wf_apart w HW j i bpj bp l).
  - intros s ls Hs. split; [by intros l Hl'|]. simpl. intros l H1 H2. by apply (wf_free w HW i bp s ls l).
Qed.

Lemma good_step_quiet w w' :
  Inv w → WF w' → keeps w w' → same_threads w w' → (∀ i, contents_at w' i = contents_at w i) → good_step None w w'.
Proof.
  intros [HW Ht] HW' Hk Hs Hc. split_and!; [split; [done|]|apply Hk|].
  - by eapply threads_ok_same.
  - intros i. simpl. by rewrite Hc, app_nil_r.
Qed.

Lemma close_good_step i e w bp :
  Inv w → pipes w !! i = Some bp →
  ∃ w', CloseWithError i e w = (Ok tt, w') ∧ good_step None w w' ∧ threads w' = wake i (threads w).
Proof.
  intros HI Hi. unfold CloseWithError. rewrite (pipe_bind _ _ _ _ _ (get_pipe_ok i w bp Hi)).
  eexists. split; [done|]. split; [|done]. apply good_step_quiet; [done| | | |]; simpl.
  - apply (set_closed_WF w i bp); [apply HI|done].
  - split; [simpl; by rewrite length_insert|]. simpl. eauto.
  - by eapply same_threads_wake.
  - intros j. unfold contents_at. simpl. destruct (decide (j = i)) as [->|Hne].
    + by rewrite list_lookup_insert_eq, Hi by (by eapply lookup_lt_Some).
    + by rewrite list_lookup_insert_ne.
Qed.

Lemma WF_new w : WF w → WF (mkWorld (heap w) (bufPools w) (pipes w ++ [mkPipe [] 0 None]) (threads w)).
Proof.
  intros [Hp Ha Hl Hn Hf].
  assert (∀ i bp, (pipes w ++ [mkPipe [] 0 None]) !! i = Some bp →
    pipes w !! i = Some bp ∨ bp = mkPipe [] 0 None) as Hcase.
  { intros i bp [Hi|[_ Hi]]%lookup_app_Some; [by left|right].
    apply list_lookup_singleton_Some in Hi as [_ <-]. done. }
  split; simpl; [|intros i j bp bp' l Hi Hj H1 H2|done|done|intros i bp s ls l Hi Hs H1 H2].
  - intros i bp [Hi| ->]%Hcase; [by apply (Hp i)|]. split; [constructor| |done|done].
    simpl. intros l Hx. by apply elem_of_nil in Hx.
  - destruct (Hcase i bp Hi) as [Hi'| ->]; [|by apply elem_of_nil in H1].
    destruct (Hcase j bp' Hj) as [Hj'| ->]; [by eapply (Ha i j)|by apply elem_of_nil in H2].
  - destruct (Hcase i bp Hi) as [Hi'| ->]; [by apply (Hf i bp s ls l)|by apply elem_of_nil in H1].
Qed.

Lemma new_good_step w :
  Inv w → ∃ w', NewBytesPipe w = (Ok (length (pipes w)), w') ∧ good_step None w w' ∧
    pipes w' !! length (pipes w) = Some (mkPipe (match pipes w' !! length (pipes w) with Some bp => buf bp | None => [] end) 0 None) ∧
    threads w' = threads w.
Proof.
  intros HI. pose proof (WF_new w (proj1 HI)) as HW1.
  set (w1 := mkWorld (heap w) (bufPools w) (pipes w ++ [mkPipe [] 0 None]) (threads w)) in *.
  assert (pipes w1 !! length (pipes w) = Some (mkPipe [] 0 None)) as Hi.
  { simpl. by rewrite lookup_app_r, Nat.sub_diag by lia. }
  destruct (append_buffer_spec (length (pipes w)) minCap w1 _ HW1 Hi) as (l & w2 & b & E & Hr & Hc & _ & _ & _ & _ & Ht);
    [unfold minCap, maxCap; lia|done|].
  exists w2. split_and!.
  - unfold NewBytesPipe. rewrite gets_bind. rewrite (pipe_bind _ _ w tt w1) by done. by rewrite (pipe_bind _ _ _ _ _ E).
  - apply good_step_quiet; [done|apply (rg_wf _ _ _ _ _ Hr)| |by apply same_threads_eq|].
    + destruct (region_keeps _ _ _ _ _ Hr) as [Hl Hh]. split; [|done]. simpl in Hl. rewrite length_app in Hl. lia.
    + intros j. destruct (decide (j = length (pipes w))) as [->|Hne].
      * rewrite (lookup_pipe_of _ _ _ (rg_pipe _ _ _ _ _ Hr)), Hc. unfold contents_at.
        by rewrite (proj2 (lookup_ge_None _ _)) by lia.
      * rewrite (region_contents _ _ _ _ _ j Hr Hne). unfold contents_at. simpl.
        destruct (decide (j < length (pipes w))%nat); [by rewrite lookup_app_l by lia|].
        rewrite lookup_app_r by lia. rewrite (proj2 (lookup_ge_None (pipes w) j)) by lia.
        by rewrite (proj2 (lookup_ge_None [_] _)) by (simpl; lia).
  - by rewrite (rg_pipe _ _ _ _ _ Hr).
  - done.
Qed.

Lemma gc_good_step size w :
  Inv w → good_step None w (mkWorld (heap w) (alter (λ _, []) size (bufPools w)) (pipes w) (threads w)).
Proof.
  intros HI. pose proof HI as [[Hp Ha Hl Hn Hf] _].
  assert (∀ s ls, alter (λ _, []) size (bufPools w) !! s = Some ls → ls = [] ∨ bufPools w !! s = Some ls) as Hcase.
  { intros s ls. rewrite lookup_alter_Some. intros [(-> & ? & _ & ->)|[_ Hs]]; [by left|by right]. }
  apply good_step_quiet; [done| |by split; eauto|by apply same_threads_eq|done].
  split; simpl; [done|done| | |].
  - intros s ls l Hs Hin. destruct (Hcase s ls Hs) as [->|Hs']; [by apply elem_of_nil in Hin|by apply (Hl s ls)].
  - intros s ls Hs. destruct (Hcase s ls Hs) as [->|Hs']; [constructor|by apply (Hn s)].
  - intros i bp s ls l Hi Hs H1 H2. destruct (Hcase s ls Hs) as [->|Hs']; [by apply elem_of_nil in H2|].
    by apply (Hf i bp s ls l).
Qed.

(** ** Every step *)

(** The threads of other pipes are left alone. *)
Definition elsewhere (i : nat) (w w' : world) : Prop :=
  ∀ t th, on th = i → threads w !! t = Some th ↔ threads w' !! t = Some th.

(** The pipe that an event is about, in a state. *)
Definition acts_on (w : world) (e : event) : option nat :=
  match e with
  | ENew | EGC _ => None
  | EWrite _ i _ | ERead _ i _ | EClose i _ => Some i
  | EResume t => on <$> threads w !! t
  end.

Lemma wake_elsewhere i j (ts : gmap nat thread) t th :
  j ≠ i → on th = i → ts !! t = Some th ↔ wake j ts !! t = Some th.
Proof.
  intros Hne Ho. unfold wake. rewrite lookup_fmap. destruct (ts !! t) as [th'|]; [|done]. simpl.
  case_bool_decide as Hj; [|done]. split; intros [= <-]; simpl in *; congruence.
Qed.

Lemma parked_elsewhere {A} i j t (r : result A) w w1 :
  j ≠ i → (∀ th, threads w !! t = Some th → on th ≠ i) → elsewhere i w w1 → elsewhere i w (parked t j r w1).
Proof.
  intros Hj Hfree He t' th Ho. destruct (decide (t = t')) as [<-|Hne].
  - split; [intros Ht; by destruct (Hfree th Ht)|].
    destruct r; simpl; [by rewrite lookup_delete_eq|]. rewrite lookup_insert_eq. intros [= <-]. by destruct Hj.
  - destruct r; simpl; [rewrite lookup_delete_ne by done|rewrite lookup_insert_ne by done]; by apply He.
Qed.

Lemma wrote_elsewhere i j p wr w bp r w' :
  j ≠ i → wrote j p wr w bp r w' → elsewhere i w w'.
Proof.
  intros Hne (bp' & m & _ & _ & _ & Hres) t th Ho. destruct r as [[n e]|[l p' n|k]]; [| |done].
  - destruct Hres as [_ Hres]. destruct (closeErr bp); destruct Hres as (_ & _ & ->); [done|by eapply wake_elsewhere].
  - by destruct Hres as (_ & _ & _ & _ & -> & _).
Qed.

Lemma read_elsewhere i j k w bp r w' :
  j ≠ i → read j k w bp r w' → elsewhere i w w'.
Proof.
  intros Hne Hr t th Ho. destruct r as [[d e]|[l p' n|k']]; simpl in Hr; [|done|].
  - destruct Hr as (w1 & (_ & _ & _ & _ & Hth) & He). destruct e as [x|]; [by destruct He as (_ & _ & _ & ->)|].
    subst w'. simpl. rewrite Hth. by eapply wake_elsewhere.
  - by destruct Hr as (_ & -> & _).
Qed.

Lemma pipe_exec_ok e w :
  Inv w → enabled e w = true →
  ∃ o w', exec e w = (Ok o, w') ∧ good_step o w w' ∧ ∀ i, acts_on w e ≠ Some i → elsewhere i w w'.
Proof.
  intros HI He. assert (∀ i, (i < length (pipes w))%nat → ∃ bp, pipes w !! i = Some bp) as Hlook.
  { intros i Hi. by apply lookup_lt_is_Some_2 in Hi. }
  pose proof HI as [HW Ht]. destruct e as [|t i p|t i k|i x|t|size]; simpl in He.
  - destruct (new_good_step w HI) as (w' & E & Hg & _ & Hth). exists None, w'. split_and!; [|done|].
    + unfold exec. by rewrite (pipe_bind _ _ _ _ _ E).
    + intros i _ t th _. by rewrite Hth.
  - apply andb_true_iff in He as [Hi%bool_decide_eq_true Hfree%bool_decide_eq_true].
    destruct (Hlook i Hi) as [bp Hbp]. destruct (Write_spec i p w bp HW Hbp) as (r & w' & E & Hw).
    exists (Some (mkEffect i (accepted p 0 r) [])), (parked t i r w'). split_and!.
    + unfold exec. rewrite (pipe_bind _ _ _ _ _ E). by rewrite (pipe_bind _ _ _ _ _ (park_ok t i r w')).
    + by eapply write_good_step.
    + simpl. intros j Hj. apply parked_elsewhere; [congruence|by rewrite Hfree|]. eapply wrote_elsewhere; [|done]. congruence.
  - apply andb_true_iff in He as [[Hi%bool_decide_eq_true Hfree%bool_decide_eq_true]%andb_true_iff Hk%Z.leb_le].
    destruct (Hlook i Hi) as [bp Hbp]. destruct (pipe_Read_spec i k w bp HW Hbp Hk) as (r & w' & E & Hw).
    exists (Some (mkEffect i [] (delivered r))), (parked t i r w'). split_and!.
    + unfold exec. rewrite (pipe_bind _ _ _ _ _ E). by rewrite (pipe_bind _ _ _ _ _ (park_ok t i r w')).
    + by eapply read_good_step.
    + simpl. intros j Hj. apply parked_elsewhere; [congruence|by rewrite Hfree|]. eapply read_elsewhere; [|done]. congruence.
  - apply bool_decide_eq_true in He. destruct (Hlook i He) as [bp Hbp].
    destruct (close_good_step i x w bp HI Hbp) as (w' & E & Hg & Hth). exists None, w'. split_and!; [|done|].
    + unfold exec. by rewrite (pipe_bind _ _ _ _ _ E).
    + simpl. intros j Hj t th Ho. rewrite Hth. apply (wake_elsewhere j); [congruence|done].
  - destruct (threads w !! t) as [[i wt wk]|] eqn:Eth; [|done].
    destruct (Ht t _ Eth) as [Hi Hwt]. simpl in Hi, Hwt. destruct (Hlook i Hi) as [bp Hbp].
    unfold exec. rewrite gets_bind, Eth. simpl. rewrite Eth.
    assert (∀ j, Some i ≠ Some j → ∀ th, threads w !! t = Some th → on th ≠ j) as Hoth.
    { intros j Hj th. rewrite Eth. intros [= <-]. simpl. congruence. }
    destruct wt as [l p n|k].
    + destruct Hwt as (Hp & Hn & b & Hb & Hc).
      destruct (Write_resume_spec i l p n w bp b HW Hbp Hb Hc Hp) as (r & w' & E & Hw).
      exists (Some (mkEffect i (accepted p n r) [])), (parked t i r w'). split_and!.
      * rewrite (pipe_bind _ _ _ _ _ E). by rewrite (pipe_bind _ _ _ _ _ (park_ok t i r w')).
      * by eapply write_good_step.
      * intros j Hj. simpl in Hj. apply parked_elsewhere; [congruence|by apply Hoth|]. eapply wrote_elsewhere; [|done]. congruence.
    + destruct (Read_resume_spec i k w bp HW Hbp Hwt) as (r & w' & E & Hw).
      exists (Some (mkEffect i [] (delivered r))), (parked t i r w'). split_and!.
      * rewrite (pipe_bind _ _ _ _ _ E). by rewrite (pipe_bind _ _ _ _ _ (park_ok t i r w')).
      * by eapply read_good_step.
      * intros j Hj. simpl in Hj. apply parked_elsewhere; [congruence|by apply Hoth|]. eapply read_elsewhere; [|done]. congruence.
  - exists None. eexists. split; [done|]. split; [by apply gc_good_step|]. by intros i _ t th _.
Qed.

(** ** Runs *)

Lemma WF_init : Inv init.
Proof.
  split; [split; simpl|].
  - intros i bp. by rewrite lookup_nil.
  - intros i j bp bp' l. by rewrite lookup_nil.
  - intros s ls l. by rewrite lookup_empty.
  - intros s ls. by rewrite lookup_empty.
  - intros i bp s ls l. by rewrite lookup_nil.
  - intros t th. simpl. by rewrite lookup_empty.
Qed.

Lemma exec_good e w o w' : Inv w → enabled e w = true → exec e w = (Ok o, w') → good_step o w w'.
Proof. intros HI He E. destruct (pipe_exec_ok e w HI He) as (o1 & w1 & E1 & Hg & _).
  rewrite E in E1. by injection E1 as -> ->. Qed.

Lemma steps_inv log w : steps init log w → Inv w.
Proof.
  intros Hs. remember init as w0 eqn:E. induction Hs as [w|w log w1 e o w2 _ IH He Hx]; subst.
  - apply WF_init.
  - by apply (exec_good e w1 o w2 (IH eq_refl) He Hx).
Qed.

Lemma came_in_app i log o : came_in i (log ++ option_list o) = came_in i log ++ ins i o.
Proof. unfold came_in. rewrite map_app, concat_app. f_equal. destruct o; simpl; [apply app_nil_r|done]. Qed.
Lemma came_out_app i log o : came_out i (log ++ option_list o) = came_out i log ++ outs i o.
Proof. unfold came_out. rewrite map_app, concat_app. f_equal. destruct o; simpl; [apply app_nil_r|done]. Qed.

Lemma steps_fifo log w : steps init log w → ∀ i, came_in i log = came_out i log ++ contents_at w i.
Proof.
  intros Hs i. pose proof Hs as Hs'. remember init as w0 eqn:E. revert i Hs'.
  induction Hs as [w|w log w1 e o w2 Hs IH He Hx]; intros i Hs'; subst; [done|].
  pose proof (steps_inv log w1 Hs) as HI. destruct (exec_good e w1 o w2 HI He Hx) as (_ & _ & Hf).
  by rewrite came_in_app, came_out_app, (IH eq_refl i Hs), <-!app_assoc, (Hf i).
Qed.

Lemma room_nonneg h bp : PipeOK h bp → 0 ≤ room h bp.
Proof.
  intros Hok. unfold room. destruct (last (buf bp)) as [l|] eqn:E; [|done]. simpl.
  destruct (p_bufs _ _ Hok l) as (b & -> & Hb); [apply last_Some in E as [? ->]; set_solver|].
  destruct Hb as (_ & ? & _). lia.
Qed.

Lemma PipeOK_bound h bp : PipeOK h bp → bufLen bp < 2000000.
Proof.
  intros Hok. pose proof (room_nonneg h bp Hok). pose proof (p_bound h bp Hok).
  unfold blockThreshold, maxCap in *. lia.
Qed.

(** C11: a BytesPipe is a queue.  In every run of any number of pipes, writers,
    readers and closers, in every interleaving of their critical regions and
    whatever the shared pools of buffers drop, the bytes that the writes on a
    pipe accepted are those that its reads delivered followed by those that it
    holds; [bufLen] counts the latter; and no call that may be made from there
    panics or runs out of turns. *)
Theorem pipe_fifo log w :
  steps init log w →
  (∀ i, came_in i log = came_out i log ++ contents_at w i) ∧
  (∀ i bp, pipes w !! i = Some bp → bufLen bp = len (contents_at w i)) ∧
  (∀ e, enabled e w = true → ∃ o w', exec e w = (Ok o, w')).
Proof.
  intros Hs. pose proof (steps_inv log w Hs) as HI. split_and!.
  - by apply steps_fifo.
  - intros i bp Hi. rewrite (lookup_pipe_of w i bp Hi). apply (p_len _ _ (wf_pipes w (proj1 HI) i bp Hi)).
  - intros e He. destruct (pipe_exec_ok e w HI He) as (o & w' & E & _). eauto.
Qed.

(** C30: a BytesPipe is bounded: it never holds two million bytes
    ([blockThreshold] and the largest buffer), however much is written and
    whoever writes, so that the bytes that were written and not yet read are
    less than that. *)
Theorem pipe_bounded log w i :
  steps init log w → len (came_in i log) - len (came_out i log) < blockThreshold + maxCap ∧
  len (contents_at w i) < blockThreshold + maxCap.
Proof.
  intros Hs. pose proof (steps_inv log w Hs) as [HW _].
  assert (len (contents_at w i) < blockThreshold + maxCap) as Hlt.
  { unfold contents_at. destruct (pipes w !! i) as [bp|] eqn:Hi; [|done].
    pose proof (wf_pipes w HW i bp Hi) as Hok. rewrite <-(p_len _ _ Hok).
    pose proof (PipeOK_bound _ _ Hok). unfold blockThreshold, maxCap in *. lia. }
  split; [|done]. rewrite (steps_fifo log w Hs i), len_app. lia.
Qed.

(** ** A write that waits for ever *)

(** The thread waits on pipe [i], and nobody has woken it. *)
Definition asleep (w : world) (t i : nat) : Prop :=
  ∃ k, threads w !! t = Some (mkThread i k false).

(** [quiet i w w']: steps of the threads that are in a call, and of all the
    others as long as they make no new call on pipe [i]. *)
Inductive quiet (i : nat) (w : world) : world → Prop :=
| quiet_nil : quiet i w w
| quiet_step w1 e o w2 :
    quiet i w w1 → enabled e w1 = true → exec e w1 = (Ok o, w2) →
    match e with EWrite _ j _ | ERead _ j _ | EClose j _ => j ≠ i | ENew | EResume _ | EGC _ => True end →
    quiet i w w2.

Definition all_asleep (i : nat) (w : world) : Prop :=
  ∀ t th, threads w !! t = Some th → on th = i → woken th = false.

(** While all threads of [i] are asleep, a quiet step is elsewhere. *)
Lemma quiet_elsewhere i w e :
  all_asleep i w → enabled e w = true →
  match e with EWrite _ j _ | ERead _ j _ | EClose j _ => j ≠ i | ENew | EResume _ | EGC _ => True end →
  acts_on w e ≠ Some i.
Proof.
  intros Ha He Hq. destruct e as [|t j p|t j k|j x|t|size]; simpl in *; try congruence.
  destruct (threads w !! t) as [th|] eqn:Et; [|done]. simpl. intros [= Ho]. by rewrite (Ha t th Et Ho) in He.
Qed.

(** A quiet run leaves the threads of [i] as they are. *)
Lemma quiet_keeps i w w' : Inv w → all_asleep i w → quiet i w w' → Inv w' ∧ elsewhere i w w'.
Proof.
  intros HI Ha Hq. induction Hq as [|w1 e o w2 _ [HI1 Hs1] He E Hcall]; [by split|].
  assert (all_asleep i w1) as Ha1. { intros t th Ht Ho. by apply (Ha t th), Ho; apply Hs1. }
  destruct (pipe_exec_ok e w1 HI1 He) as (o' & w2' & E' & Hg & Helse).
  rewrite E in E'. injection E' as -> ->. split; [apply Hg|].
  intros t th Ho. rewrite (Hs1 t th Ho). apply (Helse i); [by apply quiet_elsewhere|done].
Qed.

(** C37: a large write and a waiting reader lock each other out.  In every
    reachable state with an open and empty pipe on which a reader waits and no
    thread has been woken, a Write of two million bytes or more stops at
    [blockThreshold] and waits without having told the reader that there are
    bytes: the writer and the reader then wait, neither of them woken, for as
    long as no other thread makes a call on that pipe. *)
Theorem large_write_deadlock log w i bp t r k p :
  steps init log w → pipes w !! i = Some bp → bufLen bp = 0 → closeErr bp = None →
  threads w !! r = Some (mkThread i (WRead k) false) → all_asleep i w →
  threads w !! t = None → blockThreshold + maxCap ≤ len p →
  ∃ o w', exec (EWrite t i p) w = (Ok o, w') ∧
    blockThreshold ≤ len (contents_at w' i) ∧
    ∀ w2, quiet i w' w2 → asleep w2 t i ∧ threads w2 !! r = Some (mkThread i (WRead k) false).
Proof.
  intros Hs Hi H0 Hcl Hr Ha Ht Hp. pose proof (steps_inv log w Hs) as HI. pose proof HI as [HW _].
  destruct (Write_spec i p w bp HW Hi) as (res & w1 & E & Hw).
  pose proof (write_good_step t i p 0 w bp res w1 HI Hi ltac:(lia) Hw) as Hg.
  destruct Hw as (bp1 & m & Hreg & Hm & Hc & Hres).
  pose proof (wf_pipes w1 (rg_wf _ _ _ _ _ Hreg) i bp1 (rg_pipe _ _ _ _ _ Hreg)) as Hok1.
  destruct res as [[n e]|[l p' n|?]]; [| |done].
  { rewrite Hcl in Hres. destruct Hres as (_ & _ & -> & _). pose proof (PipeOK_bound _ _ Hok1) as Hb.
    rewrite (p_len _ _ Hok1), Hc, len_app in Hb. unfold blockThreshold, maxCap, len in *.
    rewrite length_take in Hb. lia. }
  destruct Hres as (_ & _ & _ & _ & Hth & Hfull & _).
  exists (Some (mkEffect i (accepted p 0 (Wait (WWrite l p' n))) [])), (parked t i (Wait (A := Z * option perr) (WWrite l p' n)) w1).
  assert (t ≠ r) as Hne by (intros ->; congruence). split_and!.
  - unfold exec. rewrite (pipe_bind _ _ _ _ _ E). by rewrite (pipe_bind _ _ _ _ _ (park_ok t i _ w1)).
  - unfold contents_at. simpl. rewrite (rg_pipe _ _ _ _ _ Hreg). by rewrite <-(p_len _ _ Hok1).
  - intros w2 Hq. apply quiet_keeps in Hq as [_ Hk]; [|apply Hg|].
    + split; [exists (WWrite l p' n)|]; apply Hk; try done; simpl.
      * apply lookup_insert_eq.
      * by rewrite lookup_insert_ne, Hth.
    + intros t' th. simpl. rewrite Hth, lookup_insert_Some. intros [[<- <-]|[_ Ht']] Ho; [done|by apply (Ha t')].
Qed.

(** ** Witnesses *)

(** Runs by evaluation. *)
Fixpoint run_events (es : list event) (w : world) : option (list effect * world) :=
  match es with
  | [] => Some ([], w)
  | e :: es =>
      if enabled e w then
        match exec e w with
        | (Ok o, w') => '(log, w2) ← run_events es w'; Some (option_list o ++ log, w2)
        | _ => None
        end
      else None
  end.

Lemma steps_left w e o w1 log w2 :
  enabled e w = true → exec e w = (Ok o, w1) → steps w1 log w2 → steps w (option_list o ++ log) w2.
Proof.
  intros He Ex Hs. induction Hs as [w1|w1 log w3 e' o' w4 _ IH He' Ex'].
  - rewrite app_nil_r. by apply (steps_cons w [] w e o w1); [constructor| |].
  - rewrite app_assoc. by apply (steps_cons w _ w3 e' o' w4); [apply IH| |].
Qed.

Lemma run_events_steps es w log w' : run_events es w = Some (log, w') → steps w log w'.
Proof.
  revert w log. induction es as [|e es IH]; simpl; intros w log H; [simplify_eq; constructor|].
  destruct (enabled e w) eqn:He; [|done]. destruct (exec e w) as [[o|x|x] w1] eqn:Ex; [|done|done].
  destruct (run_events es w1) as [[log1 w2]|] eqn:Er; [|done]. simpl in H. simplify_eq.
  by eapply steps_left; [| |apply IH].
Qed.

Definition hello : bytes := String.list_ascii_of_string "hello, world".

(** A reader waits, a writer writes, the reader goes on and takes a part. *)
Definition demo : list event := [ENew; ERead 1 0 5; EWrite 2 0 hello; EResume 1].

Lemma pipe_fifo_witness :
  ∃ log w, run_events demo init = Some (log, w) ∧
    came_out 0 log = String.list_ascii_of_string "hello" ∧
    contents_at w 0 = String.list_ascii_of_string ", world" ∧
    came_in 0 log = came_out 0 log ++ contents_at w 0.
Proof.
  destruct (run_events demo init) as [[log w]|] eqn:E; [|exfalso; revert E; vm_compute; discriminate].
  exists log, w. split; [done|]. split_and!.
  - revert E. vm_compute. intros [= <- <-]. reflexivity.
  - revert E. vm_compute. intros [= <- <-]. reflexivity.
  - apply (proj1 (pipe_fifo log w (run_events_steps _ _ _ _ E)) 0%nat).
Defined.

Lemma pipe_bounded_witness :
  ∃ log w, run_events demo init = Some (log, w) ∧ len (contents_at w 0) = 7 ∧
    len (contents_at w 0) < blockThreshold + maxCap.
Proof.
  destruct (run_events demo init) as [[log w]|] eqn:E; [|exfalso; revert E; vm_compute; discriminate].
  exists log, w. split; [done|]. split.
  - revert E. vm_compute. intros [= <- <-]. reflexivity.
  - apply (pipe_bounded log w 0%nat (run_events_steps _ _ _ _ E)).
Defined.

(** The state in which a reader waits on a new pipe. *)
Definition reader_waits : world := Eval vm_compute in
  match run_events [ENew; ERead 1 0 4096] init with Some (_, w) => w | None => init end.

Definition two_million_bytes : bytes := replicate (Z.to_nat 2000000) Ascii.zero.

Lemma large_write_deadlock_witness :
  ∃ o w', exec (EWrite 2 0 two_million_bytes) reader_waits = (Ok o, w') ∧
    asleep w' 2 0 ∧ asleep w' 1 0.
Proof.
  destruct (large_write_deadlock [mkEffect 0 [] []] reader_waits 0 (mkPipe [0%nat] 0 None) 2 1 4096 two_million_bytes)
    as (o & w' & E & _ & Hq).
  - apply (run_events_steps [ENew; ERead 1 0 4096]). vm_compute. reflexivity.
  - reflexivity.
  - reflexivity.
  - reflexivity.
  - vm_compute. reflexivity.
  - intros t th Ht _. unfold reader_waits in Ht. simpl in Ht.
    change (({[1%nat := mkThread 0 (WRead 4096) false]} : gmap nat thread) !! t = Some th) in Ht.
    apply lookup_singleton_Some in Ht as [_ <-]. reflexivity.
  - vm_compute. reflexivity.
  - unfold two_million_bytes, len, blockThreshold, maxCap. rewrite length_replicate. lia.
  - exists o, w'. split; [exact E|]. destruct (Hq w' (quiet_nil 0 w')) as [H1 H2]. split; [exact H1|].
    exists (WRead 4096). exact H2.
Defined.
