(* ===== verification/TailFile.v ===== *)
(** * Reading the end of a sequence of files

    pkg/ioutils/multireader.go and pkg/tailfile/tailfile.go: a reader over the
    concatenation of several files, and the last lines of what a reader has.
    A file is opened for reading: its bytes, and the offset of the handle. *)

From S2P Require Import Prelude BytesPipe BytesPipeSpec.
Open Scope Z_scope.

Record file := mkFile { data : bytes; offset : Z }.

Definition size (f : file) : Z := len (data f).

Inductive ferr := EINVAL | ErrEOF | ErrWhence (w : Z) | ErrSeek | ErrNonPositiveLinesNumber.

#[global] Instance ferr_eq_dec : EqDecision ferr.
Proof. solve_decision. Defined.

(** The values of whence. *)
Definition SEEK_SET : Z := 0.
Definition SEEK_CUR : Z := 1.
Definition SEEK_END : Z := 2.

(** [os.File.Seek]: an offset before the start is refused. *)
Definition file_Seek (off whence : Z) (f : file) : outcome ferr Z * file :=
  let to := if whence =? SEEK_SET then off else if whence =? SEEK_CUR then offset f + off else size f + off in
  if to <? 0 then (Err EINVAL, f) else (Ok to, mkFile (data f) to).

(** What is between the offset and [n] bytes after it. *)
Definition upto (n : Z) (f : file) : bytes := take (Z.to_nat n) (drop (Z.to_nat (offset f)) (data f)).

Definition advance (n : Z) (f : file) : file := mkFile (data f) (offset f + len (upto n f)).

(** [os.File.Read] with a slice of [n] bytes: those that were read. *)
Definition file_Read (n : Z) (f : file) : outcome ferr bytes * file :=
  if (len (upto n f) =? 0) && (0 <? n) then (Err ErrEOF, f) else (Ok (upto n f), advance n f).

(** ** A reader over several files *)

(** [pos] is [None] before the first call. *)
Record multi := mkMulti { readers : list file; mpos : option (nat * Z) }.

Definition rewound (f : file) : file := mkFile (data f) 0.
Definition at_end (f : file) : file := mkFile (data f) (size f).

(** The loop of [Seek] for SEEK_SET: [pre] are the readers that were passed,
    all of them left at their ends, and [tmp] is the sum of their sizes. *)
Fixpoint seek_set (pre todo : list file) (off tmp : Z) : outcome ferr Z * multi :=
  match todo with
  | [] => (Err ErrSeek, mkMulti pre None)
  | f :: rest =>
      let s := size f in
      if tmp + s <? off then
        match rest with
        | [] => let o := s + (off - tmp) in
                (Ok off, mkMulti (pre ++ [(file_Seek o SEEK_SET (at_end f)).2]) (Some (length pre, o)))
        | _ => seek_set (pre ++ [at_end f]) rest off (tmp + s)
        end
      else
        let o := off - tmp in
        (Ok off, mkMulti (pre ++ (file_Seek o SEEK_SET (at_end f)).2 :: map rewound rest)
                         (Some (if (o =? s) && bool_decide (rest ≠ []) then (S (length pre), 0) else (length pre, o))))
  end.

Definition total (fs : list file) : Z := foldr (λ f n, size f + n) 0 fs.

Definition getCurOffset (m : multi) (p : nat * Z) : Z := total (take p.1 (readers m)) + p.2.

(** [getOffsetToReader] adds the size of the reader it is asked about once for
    every reader before it. *)
Definition getOffsetToReader (m : multi) (i : nat) : Z :=
  match readers m !! i with Some f => Z.of_nat i * size f | None => 0 end.

(** [getReaderForOffset]: the variable that is returned is shadowed in the
    loop, and stays nil: only the offset is of interest.  [None] is the panic
    of an index below zero. *)
Fixpoint offset_in_reader (m : multi) (i left : nat) (off : Z) : option Z :=
  match left with
  | O => Some 0
  | S left' =>
      let to := getOffsetToReader m i in
      if off <? to then (if bool_decide (i = 0)%nat then None else Some (to - off))
      else if bool_decide (S i = length (readers m)) then Some (to + off)
      else offset_in_reader m (S i) left' off
  end.

Definition getReaderForOffset (m : multi) (off : Z) : option Z := offset_in_reader m 0 (length (readers m)) off.

Definition multi_Seek (off whence : Z) (m : multi) : outcome ferr Z * multi :=
  let set o := let '(r, m') := seek_set [] (readers m) o 0 in
               (r, match mpos m' with Some _ => m' | None => mkMulti (readers m') (mpos m) end) in
  if whence =? SEEK_SET then set off
  else if whence =? SEEK_END then
    let t := total (readers m) in
    let m1 := mkMulti (map at_end (readers m)) (mpos m) in
    let '(_, m') := seek_set [] (readers m1) (t + off) 0 in
    (Ok (t + off), match mpos m' with Some _ => m' | None => mkMulti (readers m') (mpos m) end)
  else if whence =? SEEK_CUR then
    match mpos m with
    | None => set off
    | Some p =>
        let cur := getCurOffset m p in
        if off =? 0 then (Ok cur, m)
        else match getReaderForOffset m (cur + off) with
             | Some o => (Ok (cur + off), mkMulti (readers m) (Some (0%nat, o)))   (* posIdx[nil] is 0 *)
             | None => (Panic "index out of range", m)
             end
    end
  else (Err (ErrWhence whence), m).

(** The loop of [Read]: the bytes, the readers after it, and how many of them
    were used. *)
Fixpoint copy_readers (fs : list file) (n : Z) : bytes * list file * nat :=
  match fs with
  | [] => ([], [], O)
  | f :: rest =>
      let d := upto n f in
      let f' := advance n f in
      if n - len d =? 0 then (d, f' :: rest, 1%nat)
      else let '(ds, rest', k) := copy_readers rest (n - len d) in (d ++ ds, f' :: rest', S k)
  end.

(** [Read] with a slice of length [n] and capacity [c].  What was copied
    beyond the length is dropped with the buffer. *)
Definition multi_Read (n c : Z) (m : multi) : outcome ferr bytes * multi :=
  let '(i, _) := default (0%nat, 0) (mpos m) in
  let '(ds, after, k) := copy_readers (drop i (readers m)) c in
  match last (take k after) with
  | None => (Panic "nil pointer", m)
  | Some f =>
      let m' := mkMulti (take i (readers m) ++ after) (Some (pred (i + k), offset f)) in
      if (len ds =? 0) && (0 <? n) then (Err ErrEOF, m') else (Ok (take (Z.to_nat n) ds), m')
  end.

(** [io.ReadSeeker]: a file, or several. *)
Inductive ReadSeeker := File (f : file) | Multi (m : multi).

Definition MultiReadSeeker (fs : list file) : ReadSeeker :=
  match fs with [f] => File f | _ => Multi (mkMulti fs None) end.

Definition Seek (off whence : Z) : ST ReadSeeker ferr Z := λ r,
  match r with
  | File f => let '(x, f') := file_Seek off whence f in (x, File f')
  | Multi m => let '(x, m') := multi_Seek off whence m in (x, Multi m')
  end.

(** [Read] of a slice that is as long as its capacity. *)
Definition Read (n : Z) : ST ReadSeeker ferr bytes := λ r,
  match r with
  | File f => let '(x, f') := file_Read n f in (x, File f')
  | Multi m => let '(x, m') := multi_Read n n m in (x, Multi m')
  end.

(** ** The last lines *)

Definition blockSize : Z := 1024.
Definition eol : Ascii.ascii := Ascii.ascii_of_nat 10.

(** [bytes.Count(b, eol)] and [bytes.Split(b, eol)]. *)
Definition Count (b : bytes) : Z := len (filter (λ a, a = eol) b).

Fixpoint Split (b : bytes) : list bytes :=
  match b with
  | [] => [[]]
  | a :: b' =>
      if decide (a = eol) then [] :: Split b'
      else match Split b' with l :: ls => (a :: l) :: ls | [] => [[a]] end
  end.

(** A slice of [n] bytes of which [d] were read. *)
Definition padded (n : Z) (d : bytes) : bytes := d ++ replicate (Z.to_nat n - length d) Ascii.zero.

Fixpoint tail_loop (fuel : nat) (n sz block : Z) (acc : bytes) (cnt : Z) : ST ReadSeeker ferr bytes :=
  match fuel with
  | O => st_panic "out of fuel"
  | S fuel' =>
      let step := block * blockSize in
      let left := sz + step in
      if left <? 0 then
        Seek 0 SEEK_SET ;;
        d ← Read (blockSize + left);
        mret (padded (blockSize + left) d ++ acc)
      else
        Seek step SEEK_END ;;
        d ← Read blockSize;
        let b := padded blockSize d in
        let cnt := cnt + Count b in
        if n <? cnt then mret (b ++ acc)
        else tail_loop fuel' n sz (block - 1) (b ++ acc) cnt
  end.

(** A turn for every block, and one for the rest. *)
Definition tail_fuel (sz : Z) : nat := S (S (Z.to_nat (sz / blockSize))).

Definition TailFile (n : Z) : ST ReadSeeker ferr (list bytes) :=
  if n <=? 0 then st_fail ErrNonPositiveLinesNumber
  else
    sz ← Seek 0 SEEK_END;
    d ← tail_loop (tail_fuel sz) n sz (-1) [] 0;
    let lines := Split d in
    let k := len lines in
    mret (if n <? k then take (Z.to_nat n) (drop (Z.to_nat (k - n - 1)) lines)
          else take (Z.to_nat (k - 1)) lines).

(** ** A reader over several files is a file *)

Definition content (r : ReadSeeker) : bytes :=
  match r with File f => data f | Multi m => concat (map data (readers m)) end.

(** [view r D p]: the reader has the bytes [D] and is at offset [p].  Of
    several readers, those after the current one are at their starts. *)
Definition view (r : ReadSeeker) (D : bytes) (p : Z) : Prop :=
  content r = D ∧ 0 ≤ p ≤ len D ∧
  match r with
  | File f => offset f = p
  | Multi m =>
      let '(i, o) := default (0%nat, 0) (mpos m) in
      ∃ f, readers m !! i = Some f ∧ offset f = o ∧ 0 ≤ o ≤ size f ∧
           p = total (take i (readers m)) + o ∧
           Forall (λ g, offset g = 0) (drop (S i) (readers m))
  end.

Lemma total_len fs : total fs = len (concat (map data fs)).
Proof. induction fs as [|f fs IH]; simpl; [done|]. by rewrite len_app, IH. Qed.

Lemma total_app fs gs : total (fs ++ gs) = total fs + total gs.
Proof. rewrite !total_len, map_app, concat_app, len_app. done. Qed.

Lemma total_ge_0 fs : 0 ≤ total fs.
Proof. rewrite total_len. apply len_nonneg. Qed.

Lemma map_data_rewound fs : map data (map rewound fs) = map data fs.
Proof. rewrite map_map. by apply map_ext. Qed.

Lemma view_new fs : fs ≠ [] → Forall (λ f, offset f = 0) fs → view (MultiReadSeeker fs) (concat (map data fs)) 0.
Proof.
  intros Hne Hall. unfold MultiReadSeeker. destruct fs as [|f [|g fs]]; [done| |].
  - split_and!; simpl; [by rewrite app_nil_r|done|apply len_nonneg|by apply Forall_cons in Hall as [? _]].
  - split_and!; [done|done|apply len_nonneg|]. simpl. apply Forall_cons in Hall as [Hf Hall].
    exists f. split_and!; [done|done|done|apply len_nonneg|done|done].
Qed.

(** SEEK_SET inside the files. *)
Lemma seek_set_view pre todo off tmp :
  todo ≠ [] → tmp = total pre → tmp ≤ off ≤ tmp + total todo →
  ∃ m, seek_set pre todo off tmp = (Ok off, m) ∧ is_Some (mpos m) ∧
    view (Multi m) (concat (map data (pre ++ todo))) off.
Proof.
  revert pre tmp. induction todo as [|f rest IH]; intros pre tmp Hne Htmp Hoff; [done|].
  cbn [seek_set]. simpl in Hoff. destruct (Z.ltb_spec (tmp + size f) off) as [Hlt|Hge].
  - destruct rest as [|g rest]; [simpl in Hoff; lia|].
    destruct (IH (pre ++ [at_end f]) (tmp + size f)) as (m & E & Hs & Hv); [done| |lia|].
    { rewrite total_app. simpl. unfold size at 2. simpl. unfold size. lia. }
    exists m. split_and!; [done|done|]. rewrite map_app in *. simpl in *. rewrite map_app in Hv. simpl in Hv.
    by rewrite <-app_assoc in Hv.
  - eexists. split; [reflexivity|]. split; [eauto|].
    assert ((file_Seek (off - tmp) SEEK_SET (at_end f)).2 = mkFile (data f) (off - tmp)) as ->.
    { unfold file_Seek. simpl. by rewrite (proj2 (Z.ltb_ge _ _)) by lia. }
    split_and!.
    + simpl. rewrite !map_app. simpl. by rewrite map_data_rewound.
    + pose proof (total_ge_0 pre). lia.
    + rewrite <-total_len, total_app. simpl. lia.
    + cbn [mpos readers default]. destruct (bool_decide_reflect (rest ≠ [])) as [Hr|Hr];
        [destruct (Z.eqb_spec (off - tmp) (size f)) as [He|He]|]; simpl.
      * destruct rest as [|g rest]; [done|]. exists (rewound g).
        rewrite lookup_app_r by lia. replace (S (length pre) - length pre)%nat with 1%nat by lia.
        split_and!; [done|done|done|apply len_nonneg| |].
        -- rewrite firstn_app, take_ge by lia. replace (S (length pre) - length pre)%nat with 1%nat by lia.
           rewrite total_app. simpl. unfold size in *. simpl. lia.
        -- rewrite skipn_app, drop_ge by lia. replace (S (S (length pre)) - length pre)%nat with 2%nat by lia.
           simpl. apply Forall_map, Forall_true. done.
      * exists (mkFile (data f) (off - tmp)). rewrite lookup_app_r, Nat.sub_diag by lia.
        split_and!; [done|done|lia|unfold size in *; simpl; lia| |].
        -- rewrite take_app_length. lia.
        -- rewrite skipn_app, drop_ge by lia. replace (S (length pre) - length pre)%nat with 1%nat by lia.
           simpl. apply Forall_map, Forall_true. done.
      * rewrite andb_false_r. exists (mkFile (data f) (off - tmp)). rewrite lookup_app_r, Nat.sub_diag by lia.
        split_and!; [done|done|lia|unfold size in *; simpl; lia| |].
        -- rewrite take_app_length. lia.
        -- rewrite skipn_app, drop_ge by lia. replace (S (length pre) - length pre)%nat with 1%nat by lia.
           simpl. apply Forall_map, Forall_true. done.
Qed.

Lemma view_readers m D p : view (Multi m) D p → readers m ≠ [].
Proof.
  intros (_ & _ & H) E. destruct (default _ _) as [i o]. destruct H as (f & Hf & _). by rewrite E, lookup_nil in Hf.
Qed.

Lemma Seek_set_view r D p off :
  view r D p → 0 ≤ off ≤ len D → ∃ r', Seek off SEEK_SET r = (Ok off, r') ∧ view r' D off.
Proof.
  intros Hv Hoff. destruct r as [f|m].
  - unfold Seek, file_Seek. simpl. rewrite (proj2 (Z.ltb_ge _ _)) by lia. eexists. split; [done|].
    destruct Hv as (? & _ & _). split_and!; [done|lia|lia|done].
  - pose proof Hv as (Hc & _ & _). simpl in Hc.
    destruct (seek_set_view [] (readers m) off 0) as (m' & E & [q Hs] & Hv'); [by eapply view_readers| |
      rewrite total_len, Hc; lia|]; [done|].
    unfold Seek, multi_Seek. simpl. rewrite E, Hs. exists (Multi m'). split; [done|]. by rewrite <-Hc.
Qed.

Lemma Seek_end_view r D p off :
  view r D p → - len D ≤ off ≤ 0 → ∃ r', Seek off SEEK_END r = (Ok (len D + off), r') ∧ view r' D (len D + off).
Proof.
  intros Hv Hoff. destruct r as [f|m].
  - destruct Hv as (Hc & _ & _). simpl in Hc. unfold Seek, file_Seek. simpl. unfold size. rewrite Hc.
    rewrite (proj2 (Z.ltb_ge _ _)) by lia. eexists. split; [done|]. by split_and!; simpl; [|lia|lia|].
  - pose proof Hv as (Hc & _ & _). simpl in Hc.
    assert (map data (map at_end (readers m)) = map data (readers m)) as Hm by (rewrite map_map; by apply map_ext).
    assert (total (readers m) = len D) as Ht by (by rewrite total_len, Hc).
    destruct (seek_set_view [] (map at_end (readers m)) (len D + off) 0) as (m' & E & [q Hs] & Hv'); [| |
      rewrite total_len, Hm, Hc; lia|]; [|done|].
    { intros H0. apply (view_readers m D p Hv). by destruct (readers m). }
    unfold Seek, multi_Seek. simpl. rewrite Ht, E, Hs. exists (Multi m'). split; [done|].
    simpl in Hv'. by rewrite Hm, Hc in Hv'.
Qed.

Lemma upto_len n f : 0 ≤ n → 0 ≤ offset f ≤ size f → len (upto n f) = Z.min n (size f - offset f).
Proof. intros Hn Ho. unfold upto, size, len in *. rewrite length_take, length_drop. lia. Qed.

(** The loop over the readers copies what their concatenation has. *)
Lemma copy_readers_spec rest : ∀ f n,
  0 ≤ n → 0 ≤ offset f ≤ size f → Forall (λ g, offset g = 0) rest →
  let D := drop (Z.to_nat (offset f)) (data f) ++ concat (map data rest) in
  ∃ after k g, copy_readers (f :: rest) n = (take (Z.to_nat n) D, after, S k) ∧
    map data after = map data (f :: rest) ∧ after !! k = Some g ∧ 0 ≤ offset g ≤ size g ∧
    total (take k (f :: rest)) + offset g = offset f + len (take (Z.to_nat n) D) ∧
    Forall (λ g, offset g = 0) (drop (S k) after).
Proof.
  induction rest as [|g rest IH]; intros f n Hn Ho Hall D; cbn [copy_readers];
    pose proof (upto_len n f Hn Ho) as Hlen.
  - assert (take (Z.to_nat n) D = upto n f) as HD by (unfold D; simpl; by rewrite app_nil_r).
    assert (0 ≤ offset (advance n f) ≤ size (advance n f)) as Hadv.
    { simpl. rewrite Hlen. unfold size. simpl. fold (size f). lia. }
    exists [advance n f], 0%nat, (advance n f). rewrite HD.
    split_and!; [|done|done|apply Hadv|apply Hadv|simpl; lia|done].
    destruct (n - len (upto n f) =? 0); [done|]. by rewrite app_nil_r.
  - assert (drop (Z.to_nat (offset f)) (data f) = upto (size f - offset f) f) as Hd.
    { unfold upto. rewrite take_ge; [done|]. rewrite length_drop. unfold size, len. lia. }
    assert (length (upto (size f - offset f) f) = Z.to_nat (size f - offset f)) as Hl.
    { pose proof (upto_len (size f - offset f) f ltac:(lia) Ho) as H. unfold len in H. lia. }
    destruct (Z.eqb_spec (n - len (upto n f)) 0) as [E|E].
    + exists (advance n f :: g :: rest), 0%nat, (advance n f).
      assert (take (Z.to_nat n) D = upto n f) as HD.
      { unfold D. rewrite take_app_le; [done|]. rewrite Hd, Hl. lia. }
      rewrite HD. split_and!; [done|done|done|simpl; lia| |simpl; lia|done].
      simpl. unfold size at 1. simpl. fold (size f). lia.
    + apply Forall_cons in Hall as [Hg Hall].
      destruct (IH g (n - len (upto n f))) as (after & k & x & E2 & Hm & Hx & Hox & Ht & Hf);
        [lia|rewrite Hg; split; [lia|apply len_nonneg]|done|].
      cbn [copy_readers] in E2. rewrite E2. exists (advance n f :: after), (S k), x.
      assert (upto n f = drop (Z.to_nat (offset f)) (data f)) as Hall'.
      { unfold upto. apply take_ge. rewrite Hd, Hl. lia. }
      assert (take (Z.to_nat n) D = upto n f ++ take (Z.to_nat (n - len (upto n f)))
                (drop (Z.to_nat (offset g)) (data g) ++ concat (map data rest))) as HD.
      { unfold D. rewrite <-Hall', Hg, drop_0. simpl. rewrite take_app_ge by (unfold len in Hlen; lia).
        f_equal. f_equal. unfold len. lia. }
      rewrite HD. split_and!; [done| |done|lia|lia| |done].
      * simpl. by rewrite Hm.
      * simpl. rewrite len_app. simpl in Ht. rewrite Hlen in Ht |- *. rewrite Hg in Ht |- *. lia.
Qed.

Lemma last_take_S {A} (l : list A) k x : l !! k = Some x → last (take (S k) l) = Some x.
Proof. intros H. rewrite (take_S_r l k x H). apply last_snoc. Qed.

(** What a read of [n] bytes gives. *)
Definition chunk (D : bytes) (p n : Z) : bytes := take (Z.to_nat n) (drop (Z.to_nat p) D).

Lemma Read_view r D p n :
  view r D p → 0 ≤ n → let d := chunk D p n in
  ∃ r', Read n r = ((if (len d =? 0) && (0 <? n) then Err ErrEOF else Ok d), r') ∧ view r' D (p + len d).
Proof.
  intros Hv Hn d. destruct r as [f|m].
  - destruct Hv as (Hc & Hp & Ho). simpl in Hc. subst p. unfold Read, file_Read.
    assert (upto n f = d) as -> by (unfold d, chunk, upto; by rewrite <-Hc).
    assert (0 ≤ len d ≤ len D - offset f) as Hd.
    { unfold d, chunk, len. rewrite length_take, length_drop. unfold len in Hp. lia. }
    destruct ((len d =? 0) && (0 <? n)) eqn:Eb; (eexists; split; [done|]).
    + apply andb_prop in Eb as [E%Z.eqb_eq _]. rewrite E, Z.add_0_r. split_and!; [done|lia|lia|done].
    + split_and!; [done|lia|lia|]. simpl. f_equal. f_equal. unfold d, chunk, upto. by rewrite <-Hc.
  - destruct Hv as (Hc & Hp & Hpos). simpl in Hc. unfold Read, multi_Read.
    destruct (default (0%nat, 0) (mpos m)) as [i o]. destruct Hpos as (f & Hf & Ho & Hos & Hpt & Hall).
    pose proof (drop_S _ _ _ Hf) as Hdrop. rewrite Hdrop.
    destruct (copy_readers_spec (drop (S i) (readers m)) f n Hn) as (after & k & g & E & Hm & Hg & Hog & Ht & Hrest);
      [by rewrite Ho|done|].
    rewrite E. rewrite (last_take_S after k g Hg).
    set (D' := drop (Z.to_nat (offset f)) (data f) ++ _) in *.
    assert (D = concat (map data (take i (readers m))) ++ take (Z.to_nat o) (data f) ++ D') as HD.
    { rewrite <-Hc, <-(take_drop i (readers m)) at 1. rewrite map_app, concat_app, Hdrop. f_equal.
      unfold D'. rewrite app_assoc, Ho, take_drop. done. }
    assert (drop (Z.to_nat p) D = D') as Hdp.
    { rewrite HD, app_assoc, drop_app_length'; [done|]. rewrite length_app, length_take.
      pose proof (total_ge_0 (take i (readers m))) as Hnn. rewrite total_len in Hpt, Hnn.
      unfold size, len in *. lia. }
    assert (take (Z.to_nat n) D' = d) as Hd' by (unfold d, chunk; by rewrite Hdp). rewrite Hd' in Ht |- *.
    rewrite (take_ge d) by (unfold d, chunk; rewrite length_take; lia).
    assert (view (Multi (mkMulti (take i (readers m) ++ after) (Some (pred (i + S k), offset g)))) D (p + len d)) as Hv.
    { assert (0 ≤ len d ≤ len D - p) as Hd.
      { unfold d, chunk, len. rewrite length_take, length_drop. unfold len in Hp. lia. }
      assert (length (take i (readers m)) = i) as Hli.
      { rewrite length_take. apply lookup_lt_Some in Hf. lia. }
      split_and!; [|lia|lia|].
      - simpl. rewrite map_app, Hm, <-Hdrop, <-map_app, take_drop. done.
      - cbn [mpos default readers]. exists g. replace (pred (i + S k)) with (i + k)%nat by lia.
        split_and!; [|done|lia|lia| |].
        + rewrite lookup_app_r by lia. by replace (i + k - length (take i (readers m)))%nat with k by lia.
        + rewrite firstn_app, Hli, take_ge by lia. replace (i + k - i)%nat with k by lia.
          rewrite total_app. assert (total (take k after) = total (take k (f :: drop (S i) (readers m)))) as ->.
          { rewrite !total_len, <-!firstn_map. by rewrite Hm. }
          lia.
        + rewrite skipn_app, Hli, drop_ge by lia. replace (S (i + k) - i)%nat with (S k) by lia. done. }
    destruct ((len d =? 0) && (0 <? n)); eauto.
Qed.

(** ** Lines *)

Definition last_n {A} (n : nat) (l : list A) : list A := drop (length l - n) l.

(** The complete lines of a text: what is after the last line feed is none. *)
Definition complete_lines (D : bytes) : list bytes := take (length (Split D) - 1) (Split D).

Lemma Split_nonempty D : Split D ≠ [].
Proof. destruct D as [|a D]; simpl; [done|]. destruct (decide (a = eol)); [done|]. by destruct (Split D). Qed.

Lemma Count_app x y : Count (x ++ y) = Count x + Count y.
Proof. unfold Count. by rewrite filter_app, len_app. Qed.

Lemma Count_cons a D : Count (a :: D) = (if decide (a = eol) then 1 else 0) + Count D.
Proof.
  unfold Count, len. rewrite filter_cons. destruct (decide (a = eol)); simpl; lia.
Qed.

Lemma Split_length D : len (Split D) = Count D + 1.
Proof.
  induction D as [|a D IH]; [done|]. rewrite Count_cons. simpl.
  destruct (decide (a = eol)); unfold len in *; simpl; [lia|].
  pose proof (Split_nonempty D). destruct (Split D); [done|]. simpl in *. lia.
Qed.

Lemma Split_pieces x y : ∃ pre, Split (x ++ y) = pre ++ tail (Split y) ∧ (0 < length pre)%nat.
Proof.
  induction x as [|a x (pre & E & Hp)].
  - simpl. pose proof (Split_nonempty y). destruct (Split y) as [|l ls]; [done|]. exists [l]. split; [done|simpl; lia].
  - simpl. rewrite E. destruct (decide (a = eol)).
    + exists ([] :: pre). split; [done|simpl; lia].
    + destruct pre as [|l pre]; [simpl in Hp; lia|]. exists ((a :: l) :: pre). split; [done|simpl; lia].
Qed.

Lemma last_n_app {A} n (l1 l2 : list A) : (n ≤ length l2)%nat → last_n n (l1 ++ l2) = last_n n l2.
Proof.
  intros Hn. unfold last_n. rewrite length_app, skipn_app, drop_ge by lia. simpl. f_equal. lia.
Qed.

(** A suffix with enough line feeds has the last lines. *)
Lemma last_n_Split n x y : Z.of_nat n ≤ Count y → last_n n (Split (x ++ y)) = last_n n (Split y).
Proof.
  intros Hn. destruct (Split_pieces x y) as (pre & -> & _). pose proof (Split_length y) as Hl.
  pose proof (Split_nonempty y) as Hne. destruct (Split y) as [|l ls]; [done|]. unfold len in Hl. simpl in *.
  rewrite last_n_app by lia. symmetry. apply (last_n_app n [l] ls). lia.
Qed.

Lemma take_last_n {A} n (l : list A) :
  take n (last_n (S n) l) = last_n n (take (length l - 1) l) ∨ (length l < S n)%nat.
Proof.
  destruct (decide (length l < S n)%nat) as [|Hge]; [by right|left]. unfold last_n.
  rewrite length_take, skipn_firstn_comm. f_equal; [lia|]. f_equal. lia.
Qed.

(** What the loop reads is the end of the file, with more line feeds than
    lines are asked for unless it is all of it. *)
Definition enough (n : Z) (D d : bytes) : Prop := ∃ x, D = x ++ d ∧ (x = [] ∨ n < Count d).

Lemma chunk_padded D p n : 0 ≤ p → 0 ≤ n → p + n ≤ len D → padded n (chunk D p n) = chunk D p n ∧ len (chunk D p n) = n.
Proof.
  intros Hp Hn Hl. assert (length (chunk D p n) = Z.to_nat n) as E.
  { unfold chunk. rewrite length_take, length_drop. unfold len in Hl. lia. }
  unfold padded, len. rewrite E, Nat.sub_diag. simpl. rewrite app_nil_r. split; [done|lia].
Qed.

Lemma chunk_drop D p n : 0 ≤ p → 0 ≤ n → p + n ≤ len D →
  chunk D p n ++ drop (Z.to_nat (p + n)) D = drop (Z.to_nat p) D.
Proof.
  intros Hp Hn Hl. unfold chunk. rewrite Z2Nat.inj_add by lia. rewrite <-drop_drop. apply take_drop.
Qed.

Lemma tail_loop_spec fuel n D k : ∀ acc cnt r p,
  view r D p → 0 ≤ n → 0 ≤ k →
  0 ≤ len D - k * blockSize → acc = drop (Z.to_nat (len D - k * blockSize)) D → cnt = Count acc →
  len D / blockSize - k < Z.of_nat fuel - 1 →
  ∃ d r' p', tail_loop fuel n (len D) (- (k + 1)) acc cnt r = (Ok d, r') ∧ view r' D p' ∧ enough n D d.
Proof.
  revert k. induction fuel as [|fuel IH]; intros k acc cnt r p Hv Hn Hk Hpos Hacc Hcnt Hfuel.
  { pose proof (Z.div_mod (len D) blockSize ltac:(done)). pose proof (Z.mod_pos_bound (len D) blockSize ltac:(done)).
    unfold blockSize in *. lia. }
  cbn [tail_loop]. set (left := len D + - (k + 1) * blockSize).
  destruct (Z.ltb_spec left 0) as [Hneg|Hnn].
  - destruct (Seek_set_view r D p 0 Hv) as (r1 & E1 & Hv1); [split; [done|apply len_nonneg]|].
    assert (blockSize + left = len D - k * blockSize) as Hbl by (unfold left; lia).
    destruct (Read_view r1 D 0 (blockSize + left) Hv1) as (r2 & E2 & Hv2); [lia|].
    destruct (chunk_padded D 0 (blockSize + left)) as [Hpad Hlen]; [lia|lia|unfold blockSize in *; lia|].
    assert ((len (chunk D 0 (blockSize + left)) =? 0) && (0 <? blockSize + left) = false) as Hb.
    { rewrite Hlen. destruct (Z.eqb_spec (blockSize + left) 0) as [->|]; done. }
    rewrite Hb in E2. exists (chunk D 0 (blockSize + left) ++ acc), r2. eexists. split_and!.
    + unfold mbind, ST_bind. rewrite E1, E2. by rewrite Hpad.
    + done.
    + exists []. split; [|by left]. simpl. rewrite Hacc, Hbl. symmetry.
      apply (chunk_drop D 0 (len D - k * blockSize)); unfold blockSize in *; lia.
  - assert (0 ≤ left ∧ left + blockSize ≤ len D) as [Hl1 Hl2] by (unfold left, blockSize in *; lia).
    destruct (Seek_end_view r D p (- (k + 1) * blockSize) Hv) as (r1 & E1 & Hv1); [unfold left, blockSize in *; lia|].
    fold left in E1, Hv1. destruct (Read_view r1 D left blockSize Hv1) as (r2 & E2 & Hv2); [done|].
    destruct (chunk_padded D left blockSize) as [Hpad Hlen]; [lia|done|lia|].
    rewrite Hlen in E2, Hv2. simpl in E2.
    assert (chunk D left blockSize ++ acc = drop (Z.to_nat left) D) as Hnew.
    { rewrite Hacc. rewrite <-(chunk_drop D left blockSize) by (done || lia). f_equal. f_equal. unfold left. lia. }
    assert (∀ c : bytes → ST ReadSeeker ferr bytes, (Seek (- (k + 1) * blockSize) SEEK_END ≫= λ _, Read blockSize ≫= c) r = c (chunk D left blockSize) r2) as Hrun.
    { intros c. unfold mbind, ST_bind. by rewrite E1, E2. }
    rewrite Hrun, Hpad, Hnew. rewrite Hcnt, Z.add_comm, <-Count_app, Hnew.
    destruct (Z.ltb_spec n (Count (drop (Z.to_nat left) D))) as [Hdone|Hmore].
    + exists (drop (Z.to_nat left) D), r2. eexists. split_and!; [done|done|].
      exists (take (Z.to_nat left) D). split; [by rewrite take_drop|by right].
    + replace (- (k + 1) - 1) with (- ((k + 1) + 1)) by lia.
      eapply (IH (k + 1)); [done|done|lia|unfold left in *; lia| |done|lia].
      f_equal. f_equal. unfold left. lia.
Qed.

Lemma TailFile_lines r D p n :
  view r D p → 0 < n →
  ∃ r' p', TailFile n r = (Ok (last_n (Z.to_nat n) (complete_lines D)), r') ∧ view r' D p'.
Proof.
  intros Hv Hn. unfold TailFile. rewrite (proj2 (Z.leb_gt _ _)) by done.
  destruct (Seek_end_view r D p 0 Hv) as (r1 & E1 & Hv1); [pose proof (len_nonneg D); lia|].
  rewrite Z.add_0_r in E1, Hv1.
  destruct (tail_loop_spec (tail_fuel (len D)) n D 0 [] 0 r1 _ Hv1) as (d & r2 & p2 & E2 & Hv2 & x & HD & Hx);
    [lia|done|pose proof (len_nonneg D); lia| |done| |].
  { rewrite Z.mul_0_l, Z.sub_0_r. symmetry. apply drop_ge. unfold len. lia. }
  { unfold tail_fuel. pose proof (Z.div_pos (len D) blockSize (len_nonneg D) ltac:(done)). lia. }
  exists r2, p2. split; [|done]. unfold mbind, ST_bind. change (- (0 + 1)) with (-1) in E2. rewrite E1, E2. cbn [mret ST_ret]. f_equal. f_equal.
  pose proof (Split_length d) as Hk. pose proof (Split_length D) as HK.
  assert (take (Z.to_nat n) (last_n (S (Z.to_nat n)) (Split d)) = last_n (Z.to_nat n) (complete_lines D) ∨
          (length (Split d) < S (Z.to_nat n))%nat ∧ d = D) as Hmain.
  { destruct Hx as [->|Hx].
    - simpl in HD. subst d. destruct (take_last_n (Z.to_nat n) (Split D)) as [E|E]; [by left|by right].
    - left. rewrite <-(last_n_Split (S (Z.to_nat n)) x d) by lia. rewrite <-HD.
      destruct (take_last_n (Z.to_nat n) (Split D)) as [E|E]; [done|].
      assert (Count D = Count x + Count d) by (by rewrite HD, Count_app). assert (0 ≤ Count x) by apply len_nonneg. unfold len in *. lia. }
  destruct (Z.ltb_spec n (len (Split d))) as [Hlt|Hge].
  - destruct Hmain as [E|[Hs _]]; [|unfold len in *; lia]. rewrite <-E. unfold last_n. f_equal.
    replace (Z.to_nat (len (Split d) - n - 1)) with (length (Split d) - S (Z.to_nat n))%nat by (unfold len in *; lia).
    done.
  - assert (d = D) as ->.
    { destruct Hx as [->|Hx]; [done|]. unfold len in *. lia. }
    unfold complete_lines, last_n. rewrite length_take.
    replace (_ - Z.to_nat n)%nat with 0%nat by (unfold len in *; lia). rewrite drop_0.
    by replace (Z.to_nat (len (Split D) - 1)) with (length (Split D) - 1)%nat by (unfold len; lia).
Qed.

(** ** Theorems *)

(** Calls on a reader. *)
Inductive rs_call := CSeek (off whence : Z) | CRead (n : Z).

(** The answer of a call: an offset or bytes. *)
Definition answer (c : rs_call) : ST ReadSeeker ferr (Z + bytes) :=
  match c with CSeek o w => x ← Seek o w; mret (inl x) | CRead n => x ← Read n; mret (inr x) end.

Fixpoint answers (cs : list rs_call) (r : ReadSeeker) : list (outcome ferr (Z + bytes)) :=
  match cs with [] => [] | c :: cs => let '(x, r') := answer c r in x :: answers cs r' end.

(** Seeks from the start or the end to an offset inside the files. *)
Definition in_bounds (D : bytes) (c : rs_call) : Prop :=
  match c with
  | CSeek o w => w = SEEK_SET ∧ 0 ≤ o ≤ len D ∨ w = SEEK_END ∧ - len D ≤ o ≤ 0
  | CRead n => 0 ≤ n
  end.

Lemma answer_view c r r' D p :
  view r D p → view r' D p → in_bounds D c →
  ∃ x r1 r1' p1, answer c r = (x, r1) ∧ answer c r' = (x, r1') ∧ view r1 D p1 ∧ view r1' D p1.
Proof.
  intros Hv Hv' Hb. destruct c as [o w|n]; simpl in *.
  - destruct Hb as [[-> Hb]|[-> Hb]].
    + destruct (Seek_set_view r D p o Hv Hb) as (r1 & E & H1). destruct (Seek_set_view r' D p o Hv' Hb) as (r2 & E' & H2).
      exists (Ok (inl o)), r1, r2, o. unfold mbind, ST_bind. by rewrite E, E'.
    + destruct (Seek_end_view r D p o Hv Hb) as (r1 & E & H1). destruct (Seek_end_view r' D p o Hv' Hb) as (r2 & E' & H2).
      exists (Ok (inl (len D + o))), r1, r2, (len D + o). unfold mbind, ST_bind. by rewrite E, E'.
  - destruct (Read_view r D p n Hv Hb) as (r1 & E & H1). destruct (Read_view r' D p n Hv' Hb) as (r2 & E' & H2).
    unfold mbind, ST_bind. rewrite E, E'. destruct (_ && _).
    + by exists (Err ErrEOF), r1, r2, (p + len (chunk D p n)).
    + by exists (Ok (inr (chunk D p n))), r1, r2, (p + len (chunk D p n)).
Qed.

Lemma answers_view cs : ∀ r r' D p, view r D p → view r' D p → Forall (in_bounds D) cs → answers cs r = answers cs r'.
Proof.
  induction cs as [|c cs IH]; intros r r' D p Hv Hv' Hb; [done|]. apply Forall_cons in Hb as [Hc Hb].
  destruct (answer_view c r r' D p Hv Hv' Hc) as (x & r1 & r1' & p1 & E & E' & H1 & H2).
  simpl. rewrite E, E'. f_equal. by eapply IH.
Qed.

(** The files as they are opened. *)
Definition opened (ds : list bytes) : list file := map (λ d, mkFile d 0) ds.

Lemma opened_view ds : ds ≠ [] → view (MultiReadSeeker (opened ds)) (concat ds) 0.
Proof.
  intros Hne. assert (map data (opened ds) = ds) as Hm.
  { unfold opened. rewrite map_map. simpl. apply map_id. }
  rewrite <-Hm at 2. apply view_new; [by destruct ds|]. unfold opened. apply Forall_map, Forall_true. done.
Qed.

(** A MultiReadSeeker over any files answers every sequence of reads and
    of seeks from the start or the end, as long as they stay inside the files,
    as one file with the concatenation of their contents does. *)
Theorem multi_refines_file (ds : list bytes) (cs : list rs_call) :
  ds ≠ [] → Forall (in_bounds (concat ds)) cs →
  answers cs (MultiReadSeeker (opened ds)) = answers cs (File (mkFile (concat ds) 0)).
Proof.
  intros Hne Hb. apply (answers_view cs _ _ (concat ds) 0); [by apply opened_view| |done].
  split_and!; [done|done|apply len_nonneg|done].
Qed.

(** C29: TailFile, which reads blocks of 1024 bytes backwards until it has seen
    enough line feeds, returns the last [n] complete lines of the
    concatenation of the files, whatever their sizes, and nothing of a line
    that is not yet complete; a count that is not positive is refused. *)
Theorem TailFile_spec (ds : list bytes) (n : Z) :
  ds ≠ [] →
  (TailFile n (MultiReadSeeker (opened ds))).1 =
  if n <=? 0 then Err ErrNonPositiveLinesNumber
  else Ok (last_n (Z.to_nat n) (complete_lines (concat ds))).
Proof.
  intros Hne. destruct (Z.leb_spec n 0) as [Hn|Hn].
  - unfold TailFile. by rewrite (proj2 (Z.leb_le _ _)).
  - destruct (TailFile_lines _ _ _ n (opened_view ds Hne) Hn) as (r' & p' & E & _). by rewrite E.
Qed.

Definition text (s : string) : bytes := String.list_ascii_of_string s.
Definition nl : string := String eol "".

(** A seek from the current offset goes wrong: it answers as if it had moved,
    and the next read goes on where the last one stopped; and a seek back over
    the start panics instead of returning an error. *)
Example seek_cur_wrong :
  let r := MultiReadSeeker (opened [text "abc"; text "def"]) in
  answers [CRead 2; CSeek 2 SEEK_CUR; CRead 1] r = [Ok (inr (text "ab")); Ok (inl 4); Ok (inr (text "c"))] ∧
  answers [CRead 2; CSeek 2 SEEK_CUR; CRead 1] (File (mkFile (text "abcdef") 0)) =
    [Ok (inr (text "ab")); Ok (inl 4); Ok (inr (text "e"))] ∧
  answers [CRead 2; CSeek (-3) SEEK_CUR] r = [Ok (inr (text "ab")); Panic "index out of range"].
Proof. split_and!; vm_compute; reflexivity. Qed.

(** A slice with more capacity than length loses bytes. *)
Example read_beyond_length :
  let m := mkMulti (opened [text "abc"; text "def"]) None in
  let '(x, m1) := multi_Read 2 4 m in
  x = Ok (text "ab") ∧ (multi_Read 2 2 m1).1 = Ok (text "ef").
Proof. split; vm_compute; reflexivity. Qed.

Lemma multi_refines_file_witness :
  answers [CSeek (-4) SEEK_END; CRead 3; CSeek 0 SEEK_SET; CRead 9; CRead 1]
    (MultiReadSeeker (opened [text "abc"; []; text "def"])) =
  [Ok (inl 2); Ok (inr (text "cde")); Ok (inl 0); Ok (inr (text "abcdef")); Err ErrEOF].
Proof.
  rewrite multi_refines_file; [vm_compute; reflexivity|discriminate|].
  change (concat _) with (text "abcdef"). repeat constructor; unfold SEEK_END, SEEK_SET, len; simpl; lia.
Defined.

Lemma TailFile_spec_witness :
  (TailFile 2 (MultiReadSeeker (opened [text ("one" +:+ nl +:+ "tw"); text ("o" +:+ nl +:+ "three" +:+ nl +:+ "fo")]))).1 =
  Ok [text "two"; text "three"].
Proof. rewrite TailFile_spec; [vm_compute; reflexivity|discriminate]. Defined.
