(* ===== verification/JsonLog.v ===== *)
(** * Log records as JSON

    pkg/jsonlog: a record of a log is written by hand, with its own escaping of
    strings, and read with the decoder of the standard library ([Json]).
    Times are those of a calendar, with a zone; the part of the time package
    that is used formats and parses RFC 3339. *)

From S2P Require Import Prelude GoStrings Json.
Local Open Scope Z_scope.

(** ** Times *)

(** [zone] is in seconds east of UTC. *)
Record time := mkTime {
  year : Z; month : Z; day : Z; hour : Z; minute : Z; second : Z; nsec : Z; zone : Z;
}.

Definition leap (y : Z) : bool := (y mod 4 =? 0) && (negb (y mod 100 =? 0) || (y mod 400 =? 0)).

Definition daysIn (m y : Z) : Z :=
  if m =? 2 then (if leap y then 29 else 28)
  else if (m =? 4) || (m =? 6) || (m =? 9) || (m =? 11) then 30 else 31.

(** Days since the first of January 1970. *)
Definition days (y m d : Z) : Z :=
  let y' := if m <=? 2 then y - 1 else y in
  let era := y' / 400 in
  let yoe := y' - era * 400 in
  let doy := (153 * (if m <=? 2 then m + 9 else m - 3) + 2) / 5 + d - 1 in
  era * 146097 + (yoe * 365 + yoe / 4 - yoe / 100 + doy) - 719468.

(** Nanoseconds since then. *)
Definition instant (t : time) : Z :=
  (((days (year t) (month t) (day t) * 24 + hour t) * 60 + minute t) * 60 + second t - zone t) * 1000000000 + nsec t.

Definition Before (t u : time) : bool := instant t <? instant u.

(** January 1, year 1. *)
Definition zero_time : time := mkTime 1 1 1 0 0 0 0 0.
Definition IsZero (t : time) : bool := instant t =? instant zero_time.

(** [w] digits of a number. *)
Fixpoint pad (w : nat) (n : Z) : string :=
  match w with
  | O => ""
  | S w' => pad w' (n / 10) +:+ String (byte_of (Z.to_N (48 + n mod 10))) ""
  end.

(** Without the zeros at the end. *)
Fixpoint trim_zeros (s : string) : string :=
  match s with
  | "" => ""
  | String a s' =>
      match trim_zeros s' with
      | "" => if ascii_dec a "0" then "" else String a ""
      | t => String a t
      end
  end.

Definition format_nano (n : Z) : string :=
  match trim_zeros (pad 9 n) with "" => "" | f => String "." f end.

Definition format_zone (z : Z) : string :=
  if z =? 0 then "Z"
  else let m := Z.abs z / 60 in
       String (if z <? 0 then "-"%char else "+"%char) (pad 2 (m / 60) +:+ ":" +:+ pad 2 (m mod 60)).

(** The layout RFC3339Nano, for a year of four digits. *)
Definition format_time (t : time) : string :=
  pad 4 (year t) +:+ "-" +:+ pad 2 (month t) +:+ "-" +:+ pad 2 (day t) +:+ "T" +:+
  pad 2 (hour t) +:+ ":" +:+ pad 2 (minute t) +:+ ":" +:+ pad 2 (second t) +:+
  format_nano (nsec t) +:+ format_zone (zone t).

Definition quoted (s : string) : string := String quote (s +:+ String quote "").

(** [None] for a year that has no four digits. *)
Definition FastTimeMarshalJSON (t : time) : option string :=
  if (year t <? 0) || (10000 <=? year t) then None else Some (quoted (format_time t)).

(** *** Parsing *)

Definition isDigit (s : string) : bool :=
  match s with String a _ => bool_decide (is_Some (digit_val a)) | "" => false end.

(** [w] digits. *)
Fixpoint fixed_digits (w : nat) (acc : Z) (s : string) : option (Z * string) :=
  match w with
  | O => Some (acc, s)
  | S w' =>
      match s with
      | String a s' => d ← digit_val a; fixed_digits w' (acc * 10 + d) s'
      | "" => None
      end
  end.

(** Two digits, or one where [fixed] is not set. *)
Definition getnum (s : string) (fixed : bool) : option (Z * string) :=
  match fixed_digits 2 0 s with
  | Some r => Some r
  | None => if fixed then None else fixed_digits 1 0 s
  end.

Definition in_bounds (lo hi : Z) (r : option (Z * string)) : option (Z * string) :=
  '(n, s) ← r; if (lo <=? n) && (n <=? hi) then Some (n, s) else None.

Fixpoint scan_digits (acc : Z) (k : nat) (s : string) : Z * nat * string :=
  match s with
  | String a s' => match digit_val a with Some d => scan_digits (acc * 10 + d) (S k) s' | None => (acc, k, s) end
  | "" => (acc, k, "")
  end.

(** A fraction may follow the seconds. *)
Definition parse_frac (s : string) : option (Z * string) :=
  match s with
  | String "." s' =>
      if isDigit s' then
        let '(n, k, r) := scan_digits 0 0 s' in
        if 1000000000 <=? n then None else Some (n * 10 ^ (Z.of_nat (9 - k)), r)
      else Some (0, s)
  | _ => Some (0, s)
  end.

Definition parse_zone (s : string) : option (Z * string) :=
  match s with
  | String "Z" s' => Some (0, s')
  | String sg s' =>
      if bool_decide (sg = "+"%char) || bool_decide (sg = "-"%char) then
        '(h, s1) ← fixed_digits 2 0 s';
        match s1 with
        | String ":" s2 =>
            '(m, s3) ← fixed_digits 2 0 s2;
            let z := (h * 60 + m) * 60 in
            Some (if bool_decide (sg = "-"%char) then - z else z, s3)
        | _ => None
        end
      else None
  | "" => None
  end.

(** The layout RFC3339. *)
Definition parse_time (s : string) : option time :=
  '(y, s) ← fixed_digits 4 0 s;
  s ← strip_prefix "-" s;
  '(mo, s) ← in_bounds 1 12 (getnum s true);
  s ← strip_prefix "-" s;
  '(d, s) ← getnum s true;
  s ← strip_prefix "T" s;
  '(h, s) ← in_bounds 0 23 (getnum s false);
  s ← strip_prefix ":" s;
  '(mi, s) ← in_bounds 0 59 (getnum s true);
  s ← strip_prefix ":" s;
  '(sec, s) ← in_bounds 0 59 (getnum s true);
  '(ns, s) ← parse_frac s;
  '(z, s) ← parse_zone s;
  if bool_decide (s = "") && (d <=? daysIn mo y) then Some (mkTime y mo d h mi sec ns z) else None.

(** ** Writing a record *)

Fixpoint sdrop (n : nat) (s : string) : string :=
  match n, s with S n, String _ s => sdrop n s | O, s => s | _, "" => "" end.
Fixpoint stake (n : nat) (s : string) : string :=
  match n, s with S n, String a s => String a (stake n s) | _, _ => "" end.

(** [s[i:j]]. *)
Definition slice (s : string) (i j : nat) : string := stake (j - i) (sdrop i s).

(** A byte below [utf8.RuneSelf] that is written as it is. *)
Definition plain (b : N) : bool :=
  (32 <=? b)%N && negb ((b =? 92) || (b =? 34) || (b =? 60) || (b =? 62) || (b =? 38))%N.

Definition escape_byte (b : N) : string :=
  if ((b =? 92) || (b =? 34))%N then String backslash (String (byte_of b) "")
  else if (b =? 10)%N then String backslash "n"
  else if (b =? 13)%N then String backslash "r"
  else String backslash ("u00" +:+ String (hex_digit (b / 16)) (String (hex_digit (b mod 16)) "")).

(** [buf.Write(s[start:i])] where that is not empty. *)
Definition flush (s : string) (start i : nat) (buf : string) : string :=
  if bool_decide (start < i)%nat then buf +:+ slice s start i else buf.

(** The loop over the string: what is between [start] and [i] is still to be
    written.  Every turn takes a byte at least. *)
Fixpoint write_loop (fuel : nat) (s : string) (start i : nat) (buf : string) : string :=
  match fuel with
  | O => buf
  | S fuel' =>
      match sdrop i s with
      | "" => if bool_decide (start < String.length s)%nat then buf +:+ sdrop start s else buf
      | String a _ as t =>
          let b := byte_val a in
          if (b <? 0x80)%N then
            if plain b then write_loop fuel' s start (S i) buf
            else write_loop fuel' s (S i) (S i) (flush s start i buf +:+ escape_byte b)
          else
            match DecodeRune t with
            | None => buf
            | Some (c, rest) =>
                let size := (String.length t - String.length rest)%nat in
                if ((c =? RuneError)%N && bool_decide (size = 1%nat)) then
                  write_loop fuel' s (i + size) (i + size) (flush s start i buf +:+ String backslash "ufffd")
                else if ((c =? 0x2028) || (c =? 0x2029))%N then
                  write_loop fuel' s (i + size) (i + size)
                    (flush s start i buf +:+ String backslash ("u202" +:+ String (hex_digit (N.land c 15)) ""))
                else write_loop fuel' s start (i + size) buf
            end
      end
  end.

(** [ffjsonWriteJSONString], and [ffjsonWriteJSONBytesAsString], which is the
    same for a slice of bytes. *)
Definition ffjsonWriteJSONString (buf s : string) : string :=
  write_loop (S (String.length s)) s 0 0 (buf +:+ String quote "") +:+ String quote "".

Record JSONLogs := mkLogs { Log : string; Stream : string; Created : string; RawAttrs : string }.

Definition key (k : string) : string := String quote (k +:+ String quote ":").

Definition nonempty (s : string) : bool := negb (bool_decide (s = "")).

(** [buf] and the flag [first]. *)
Definition write_log (mj : JSONLogs) (st : string * bool) : string * bool :=
  let '(buf, first) := st in
  if nonempty (Log mj) then (ffjsonWriteJSONString (buf +:+ key "log") (Log mj), false) else (buf, first).

Definition comma (st : string * bool) : string :=
  let '(buf, first) := st in if first then buf else buf +:+ ",".

Definition write_stream (mj : JSONLogs) (st : string * bool) : string * bool :=
  if nonempty (Stream mj) then (ffjsonWriteJSONString (comma st +:+ key "stream") (Stream mj), false) else st.

Definition write_attrs (mj : JSONLogs) (st : string * bool) : string * bool :=
  if nonempty (RawAttrs mj) then (comma st +:+ key "attrs" +:+ RawAttrs mj, false) else st.

Definition MarshalJSONBuf (mj : JSONLogs) (buf : string) : string :=
  let st := write_attrs mj (write_stream mj (write_log mj (buf +:+ "{", true))) in
  comma st +:+ key "time" +:+ Created mj +:+ "}".

(** ** Reading a record *)

Record JSONLog := mkLog { log : string; stream : string; created : time; attrs : gmap string string }.

(** [Reset] leaves the attributes as they are. *)
Definition Reset (l : JSONLog) : JSONLog := mkLog "" "" zero_time (attrs l).

(** The decoder matches keys without regard to case; the long s and the
    Kelvin sign are letters too. *)
Definition fold_rune (r : N) : N :=
  if in_range 65 90 r then r + 32 else if (r =? 0x17F)%N then 115 else if (r =? 0x212A)%N then 107 else r.
Definition same_key (k name : string) : bool := bool_decide (map fold_rune (runes k) = map fold_rune (runes name)).

Definition decode_string (v : value) (old : string) : option string :=
  match v with JString s => Some s | JNull => Some old | _ => None end.

Fixpoint decode_attrs (l : list (string * value)) (m : gmap string string) : option (gmap string string) :=
  match l with
  | [] => Some m
  | (k, v) :: l' => s ← decode_string v ""; decode_attrs l' (<[k := s]> m)
  end.

(** One member of the object.  [None] is an error of the decoder. *)
Definition decode_member (kv : string * value) (l : JSONLog) : option JSONLog :=
  let '(k, v) := kv in
  if same_key k "log" then s ← decode_string v (log l); Some (mkLog s (stream l) (created l) (attrs l))
  else if same_key k "stream" then s ← decode_string v (stream l); Some (mkLog (log l) s (created l) (attrs l))
  else if same_key k "time" then
    match v with JString s => t ← parse_time s; Some (mkLog (log l) (stream l) t (attrs l)) | _ => None end
  else if same_key k "attrs" then
    match v with
    | JObject ms => m ← decode_attrs ms (attrs l); Some (mkLog (log l) (stream l) (created l) m)
    | JNull => Some (mkLog (log l) (stream l) (created l) ∅)
    | _ => None
    end
  else Some l.

Fixpoint decode_members (ms : list (string * value)) (l : JSONLog) : option JSONLog :=
  match ms with [] => Some l | kv :: ms' => l' ← decode_member kv l; decode_members ms' l' end.

(** [dec.Decode(l)] on what is left of the input. *)
Inductive decoded := DEOF | DError | DRecord (l : JSONLog) (rest : string).

Definition Decode_log (float_ok : string → bool) (l : JSONLog) (s : string) : decoded :=
  if bool_decide (skip_space s = "") then DEOF
  else match parse_value float_ok (2 * String.length s + 2) s with
       | Some (JObject ms, rest) => match decode_members ms l with Some l' => DRecord l' rest | None => DError end
       | Some (JNull, rest) => DRecord l rest
       | _ => DError
       end.

(** ** Times survive *)

Definition valid_time (t : time) : Prop :=
  0 ≤ year t < 10000 ∧ 1 ≤ month t ≤ 12 ∧ 1 ≤ day t ≤ daysIn (month t) (year t) ∧ 0 ≤ hour t < 24 ∧
  0 ≤ minute t < 60 ∧ 0 ≤ second t < 60 ∧ 0 ≤ nsec t < 1000000000 ∧ zone t = 0.

Definition digit (n : Z) : ascii := byte_of (Z.to_N (48 + n mod 10)).

Lemma digit_val_digit n : digit_val (digit n) = Some (n mod 10).
Proof.
  pose proof (Z.mod_pos_bound n 10 ltac:(lia)). unfold digit_val, digit. rewrite byte_val_of by lia.
  unfold in_range. rewrite (proj2 (N.leb_le _ _)), (proj2 (N.leb_le _ _)) by lia. simpl. f_equal. lia.
Qed.

Lemma fixed_digits_pad w : ∀ n acc rest, 0 ≤ n < 10 ^ Z.of_nat w →
  fixed_digits w acc (pad w n +:+ rest) = Some (acc * 10 ^ Z.of_nat w + n, rest).
Proof.
  assert (∀ v u acc s, fixed_digits (v + u) acc s = '(a, r) ← fixed_digits v acc s; fixed_digits u a r) as Hsplit.
  { induction v as [|v IH]; intros u acc s; [done|]. simpl. destruct s as [|a s]; [done|].
    destruct (digit_val a) as [d|]; [|done]. simpl. apply IH. }
  induction w as [|w IH]; intros n acc rest Hn.
  - simpl in *. f_equal. f_equal. lia.
  - rewrite Nat2Z.inj_succ, Z.pow_succ_r in * by lia.
    replace (S w) with (w + 1)%nat at 1 by lia. rewrite Hsplit. cbn [pad].
    rewrite app_assoc_str. fold (digit n). rewrite IH.
    + cbn [mbind option_bind]. simpl. rewrite digit_val_digit. simpl. f_equal. f_equal.
      pose proof (Z.div_mod n 10 ltac:(lia)). lia.
    + split; [apply Z.div_pos; lia|]. apply Z.div_lt_upper_bound; lia.
Qed.

Lemma getnum_pad n b rest : 0 ≤ n < 100 → getnum (pad 2 n +:+ rest) b = Some (n, rest).
Proof. intros Hn. unfold getnum. by rewrite fixed_digits_pad by (simpl; lia). Qed.

Lemma in_bounds_some lo hi n s : lo ≤ n ≤ hi → in_bounds lo hi (Some (n, s)) = Some (n, s).
Proof. intros H. unfold in_bounds. simpl. by rewrite (proj2 (Z.leb_le _ _)), (proj2 (Z.leb_le _ _)) by lia. Qed.

Lemma strip_prefix_app p s : strip_prefix p (p +:+ s) = Some s.
Proof. induction p as [|a p IH]; [done|]. rewrite app_cons_str. simpl. by destruct (ascii_dec a a). Qed.

(** The digits of a fraction: trailing zeros are dropped and come back. *)
Lemma trim_zeros_app s : trim_zeros (s +:+ "0") = trim_zeros s.
Proof. induction s as [|a s IH]; [done|]. rewrite app_cons_str. simpl. by rewrite IH. Qed.

Lemma trim_zeros_keep s a : a ≠ "0"%char → trim_zeros (s +:+ String a "") = s +:+ String a "".
Proof.
  intros Ha. induction s as [|b s IH].
  - simpl. by destruct (ascii_dec a "0").
  - rewrite app_cons_str. simpl. rewrite IH. by destruct (s +:+ String a "") as [|] eqn:E; [destruct s|].
Qed.

Lemma digit_zero n : digit n = "0"%char ↔ n mod 10 = 0.
Proof.
  split; [|unfold digit; by intros ->]. intros E. pose proof (digit_val_digit n) as H. rewrite E in H.
  change (digit_val "0") with (Some 0) in H. congruence.
Qed.

Lemma trim_pad w : ∀ n, 0 ≤ n < 10 ^ Z.of_nat w →
  (n = 0 ∧ trim_zeros (pad w n) = "") ∨
  ∃ k m, (k < w)%nat ∧ 0 < m < 10 ^ Z.of_nat (S k) ∧ trim_zeros (pad w n) = pad (S k) m ∧
         n = m * 10 ^ Z.of_nat (w - S k).
Proof.
  induction w as [|w IH]; intros n Hn; [left; simpl in *; split; [lia|done]|].
  pose proof (Z.div_mod n 10 ltac:(lia)) as Hdm. rewrite Nat2Z.inj_succ, Z.pow_succ_r in Hn by lia.
  assert (0 ≤ n / 10 < 10 ^ Z.of_nat w) as Hq.
  { split; [apply Z.div_pos; lia|]. apply Z.div_lt_upper_bound; lia. }
  cbn [pad]. fold (digit n). destruct (decide (n mod 10 = 0)) as [H0|H0].
  - rewrite (proj2 (digit_zero n) H0), trim_zeros_app.
    destruct (IH (n / 10) Hq) as [[Hz ->]|(k & m & Hk & Hm & -> & Hn')]; [left; split; [lia|done]|].
    right. exists k, m. split_and!; [lia|lia|lia|done|].
    replace (S w - S k)%nat with (S (w - S k)) by lia. rewrite Nat2Z.inj_succ, Z.pow_succ_r by lia. lia.
  - right. exists w, n. rewrite trim_zeros_keep by (by rewrite digit_zero).
    split_and!; [lia| |rewrite Nat2Z.inj_succ, Z.pow_succ_r; lia|done|rewrite Nat.sub_diag; simpl; lia].
    assert (n ≠ 0) by (intros ->; done). lia.
Qed.

Lemma scan_digits_pad w : ∀ n acc k rest, 0 ≤ n < 10 ^ Z.of_nat w → isDigit rest = false →
  scan_digits acc k (pad w n +:+ rest) = (acc * 10 ^ Z.of_nat w + n, (k + w)%nat, rest).
Proof.
  assert (∀ v n acc k rest, 0 ≤ n < 10 ^ Z.of_nat v →
    scan_digits acc k (pad v n +:+ rest) = scan_digits (acc * 10 ^ Z.of_nat v + n) (k + v) rest) as Hgen.
  { induction v as [|v IH]; intros n acc k rest Hn.
    - change (10 ^ Z.of_nat 0) with 1 in *. change (pad 0 n +:+ rest) with rest. rewrite Nat.add_0_r.
      by replace (acc * 1 + n) with acc by lia.
    - rewrite Nat2Z.inj_succ, Z.pow_succ_r in * by lia. cbn [pad]. rewrite app_assoc_str. fold (digit n).
      rewrite IH.
      + rewrite app_cons_str, app_empty_str. cbn [scan_digits]. rewrite digit_val_digit.
        pose proof (Z.div_mod n 10 ltac:(lia)).
        replace (k + S v)%nat with (S (k + v)) by lia. f_equal. lia.
      + split; [apply Z.div_pos; lia|]. apply Z.div_lt_upper_bound; lia. }
  intros n acc k rest Hn Hr. rewrite Hgen by done. destruct rest as [|a rest]; [done|]. simpl in *.
  apply bool_decide_eq_false in Hr. destruct (digit_val a); [|done]. destruct Hr. eauto.
Qed.

Lemma parse_frac_format n rest :
  0 ≤ n < 1000000000 → isDigit rest = false → (∀ s, rest ≠ String "." s) →
  parse_frac (format_nano n +:+ rest) = Some (n, rest).
Proof.
  intros Hn Hr Hdot. unfold format_nano.
  destruct (trim_pad 9 n) as [[-> ->]|(k & m & Hk & Hm & -> & Hnm)]; [simpl; lia| |].
  - rewrite app_empty_str. unfold parse_frac. destruct rest as [|a rest]; [done|].
    destruct (decide (a = "."%char)) as [->|Hne]; [by destruct (Hdot rest)|].
    destruct a as [[] [] [] [] [] [] [] []]; done.
  - assert (∃ a s, pad (S k) m = String a s ∧ is_Some (digit_val a)) as (a & s & E & Hd).
    { clear. revert m. induction k as [|k IH]; intros m.
      - exists (digit m), "". split; [done|]. rewrite digit_val_digit. eauto.
      - destruct (IH (m / 10)) as (a & s & E & Hd). cbn [pad] in *. rewrite E. exists a. eexists.
        rewrite app_cons_str. by split. }
    pose proof (scan_digits_pad (S k) m 0 0 rest ltac:(lia) Hr) as Hscan.
    rewrite E in *. rewrite app_cons_str. unfold parse_frac. rewrite app_cons_str in Hscan |- *. cbn [isDigit].
    rewrite bool_decide_true by done. rewrite Hscan.
    replace (0 * 10 ^ Z.of_nat (S k) + m) with m by lia. change (0 + S k)%nat with (S k).
    assert (m < 1000000000).
    { assert (0 < 10 ^ Z.of_nat (9 - S k)) by (apply Z.pow_pos_nonneg; lia). nia. }
    rewrite (proj2 (Z.leb_gt _ _)) by done. by rewrite Hnm.
Qed.

Lemma parse_format_time t : valid_time t → parse_time (format_time t) = Some t.
Proof.
  intros (Hy & Hmo & Hd & Hh & Hmi & Hs & Hn & Hz). unfold parse_time, format_time.
  assert (daysIn (month t) (year t) ≤ 31) as H31 by (unfold daysIn; repeat case_match; lia).
  rewrite fixed_digits_pad by (simpl; lia). replace (0 * 10 ^ Z.of_nat 4 + year t) with (year t) by lia.
  cbn [mbind option_bind]. rewrite strip_prefix_app. cbn [mbind option_bind].
  rewrite getnum_pad, in_bounds_some by lia. cbn [mbind option_bind]. rewrite strip_prefix_app. cbn [mbind option_bind].
  rewrite getnum_pad by lia. cbn [mbind option_bind]. rewrite strip_prefix_app. cbn [mbind option_bind].
  rewrite getnum_pad, in_bounds_some by lia. cbn [mbind option_bind]. rewrite strip_prefix_app. cbn [mbind option_bind].
  rewrite getnum_pad, in_bounds_some by lia. cbn [mbind option_bind]. rewrite strip_prefix_app. cbn [mbind option_bind].
  rewrite getnum_pad, in_bounds_some by lia. cbn [mbind option_bind].
  rewrite Hz. change (format_zone 0) with "Z". rewrite parse_frac_format by done. cbn [mbind option_bind parse_zone].
  rewrite bool_decide_true, (proj2 (Z.leb_le _ _)) by (done || lia). simpl. destruct t; simpl in *. by subst.
Qed.

(** ** Strings survive *)

Lemma byte_of_val a : byte_of (byte_val a) = a.
Proof. unfold byte_of, byte_val. apply ascii_N_embedding. Qed.
Lemma byte_val_lt a : (byte_val a < 256)%N.
Proof. unfold byte_val. apply N_ascii_bounded. Qed.

Lemma in_range_spec lo hi n : in_range lo hi n = true ↔ (lo ≤ n ≤ hi)%N.
Proof. unfold in_range. rewrite andb_true_iff, !N.leb_le. done. Qed.

(** A rune is decoded from its own encoding, or from one invalid byte. *)
Lemma DecodeRune_cases s r s' :
  DecodeRune s = Some (r, s') →
  (r = RuneError ∧ String.length s = S (String.length s')) ∨ (s = EncodeRune r +:+ s' ∧ valid_rune r = true).
Proof.
  destruct s as [|a0 s1]; [done|]. unfold DecodeRune.
  destruct (N.ltb_spec (byte_val a0) 0x80) as [H|H].
  { intros [= <- <-]. right. rewrite Encode_byte by done. split; [done|].
    unfold valid_rune. rewrite (proj2 (N.ltb_lt _ _)) by lia. done. }
  destruct (in_range 0xC2 0xDF (byte_val a0)) eqn:E2; [apply in_range_spec in E2|
  destruct (in_range 0xE0 0xEF (byte_val a0)) eqn:E3; [apply in_range_spec in E3|
  destruct (in_range 0xF0 0xF4 (byte_val a0)) eqn:E4; [apply in_range_spec in E4|]]];
    [destruct s1 as [|a1 s2]|destruct s1 as [|a1 [|a2 s3]]|destruct s1 as [|a1 [|a2 [|a3 s4]]]|];
    try (intros [= <- <-]; by left).
  - destruct (in_range 0x80 0xBF (byte_val a1)) eqn:E; [|intros [= <- <-]; by left].
    apply in_range_spec in E. intros [= <- <-]. right. set (r := (_ + _)%N).
    assert (0x80 ≤ r < 0x800)%N as Hr by (unfold r; lia).
    assert (valid_rune r = true) as Hv. { unfold valid_rune. by rewrite (proj2 (N.ltb_lt _ _)) by lia. }
    split; [|done]. unfold EncodeRune. rewrite Hv.
    rewrite (proj2 (N.ltb_ge _ _)), (proj2 (N.ltb_lt _ _)) by lia.
    assert (r / 64 = byte_val a0 - 0xC0 ∧ r mod 64 = byte_val a1 - 0x80)%N as [-> ->].
    { split; symmetry; [apply (N.div_unique r 64 _ (byte_val a1 - 0x80))|apply (N.mod_unique r 64 (byte_val a0 - 0xC0))];
        unfold r; lia. }
    rewrite !app_cons_str, app_empty_str.
    replace (0xC0 + (byte_val a0 - 0xC0))%N with (byte_val a0) by lia.
    replace (0x80 + (byte_val a1 - 0x80))%N with (byte_val a1) by lia. by rewrite !byte_of_val.
  - destruct (in_range (accept_lo _) _ _ && _) eqn:E; [|intros [= <- <-]; by left].
    apply andb_prop in E as [Ea Eb]. apply in_range_spec in Ea, Eb. intros [= <- <-]. right. set (r := (_ + _)%N).
    assert (0x80 ≤ byte_val a1 ≤ 0xBF)%N as Hb1.
    { unfold accept_lo, accept_hi in Ea. repeat case_match; lia. }
    assert (0x800 ≤ r < 0xD800 ∨ 0xDFFF < r < 0x10000)%N as Hr.
    { unfold accept_lo, accept_hi in Ea. unfold r.
      destruct (N.eqb_spec (byte_val a0) 0xE0), (N.eqb_spec (byte_val a0) 0xF0),
        (N.eqb_spec (byte_val a0) 0xED), (N.eqb_spec (byte_val a0) 0xF4); try lia. }
    assert (valid_rune r = true) as Hv.
    { unfold valid_rune. rewrite orb_true_iff, andb_true_iff, !N.ltb_lt, N.leb_le. lia. }
    split; [|done]. unfold EncodeRune. rewrite Hv.
    rewrite (proj2 (N.ltb_ge _ _)), (proj2 (N.ltb_ge _ _)), (proj2 (N.ltb_lt _ _)) by lia.
    set (x := (byte_val a0 - 0xE0)%N) in *. set (y := (byte_val a1 - 0x80)%N) in *. set (z := (byte_val a2 - 0x80)%N) in *.
    assert (y < 64 ∧ z < 64)%N as [Hy Hz] by lia.
    assert (r / 64 = x * 64 + y)%N as H64 by (symmetry; apply (N.div_unique r 64 _ z); unfold r; lia).
    assert (r / 4096 = x)%N as ->. { symmetry. apply (N.div_unique r 4096 _ (y * 64 + z)); unfold r; lia. }
    assert (r mod 64 = z)%N as -> by (symmetry; apply (N.mod_unique r 64 (x * 64 + y)); unfold r; lia).
    rewrite H64. assert ((x * 64 + y) mod 64 = y)%N as -> by (symmetry; apply (N.mod_unique _ 64 x); lia).
    rewrite !app_cons_str, app_empty_str.
    replace (0xE0 + x)%N with (byte_val a0) by lia. replace (0x80 + y)%N with (byte_val a1) by lia.
    replace (0x80 + z)%N with (byte_val a2) by lia. by rewrite !byte_of_val.
  - destruct (in_range (accept_lo _) _ _ && _ && _) eqn:E; [|intros [= <- <-]; by left].
    apply andb_prop in E as [[Ea Eb]%andb_prop Ec]. apply in_range_spec in Ea, Eb, Ec.
    intros [= <- <-]. right. set (r := (_ + _)%N).
    assert (0x80 ≤ byte_val a1 ≤ 0xBF)%N as Hb1.
    { unfold accept_lo, accept_hi in Ea. repeat case_match; lia. }
    assert (0x10000 ≤ r ≤ 0x10FFFF)%N as Hr.
    { unfold accept_lo, accept_hi in Ea. unfold r.
      destruct (N.eqb_spec (byte_val a0) 0xE0), (N.eqb_spec (byte_val a0) 0xF0),
        (N.eqb_spec (byte_val a0) 0xED), (N.eqb_spec (byte_val a0) 0xF4); try lia. }
    assert (valid_rune r = true) as Hv.
    { unfold valid_rune. rewrite orb_true_iff, andb_true_iff, !N.ltb_lt, N.leb_le. lia. }
    split; [|done]. unfold EncodeRune. rewrite Hv.
    rewrite (proj2 (N.ltb_ge _ _)), (proj2 (N.ltb_ge _ _)), (proj2 (N.ltb_ge _ _)) by lia.
    set (x := (byte_val a0 - 0xF0)%N) in *. set (y := (byte_val a1 - 0x80)%N) in *.
    set (z := (byte_val a2 - 0x80)%N) in *. set (u := (byte_val a3 - 0x80)%N) in *.
    assert (y < 64 ∧ z < 64 ∧ u < 64)%N as (Hy & Hz & Hu) by lia.
    assert (r / 64 = (x * 64 + y) * 64 + z)%N as H64 by (symmetry; apply (N.div_unique r 64 _ u); unfold r; lia).
    assert (r / 4096 = x * 64 + y)%N as H4 by (symmetry; apply (N.div_unique r 4096 _ (z * 64 + u)); unfold r; lia).
    assert (r / 262144 = x)%N as ->
      by (symmetry; apply (N.div_unique r 262144 _ ((y * 64 + z) * 64 + u)); unfold r; lia).
    assert (r mod 64 = u)%N as -> by (symmetry; apply (N.mod_unique r 64 ((x * 64 + y) * 64 + z)); unfold r; lia).
    rewrite H64, H4. assert ((x * 64 + y) mod 64 = y)%N as -> by (symmetry; apply (N.mod_unique _ 64 x); lia).
    assert (((x * 64 + y) * 64 + z) mod 64 = z)%N as -> by (symmetry; apply (N.mod_unique _ 64 (x * 64 + y)); lia).
    rewrite !app_cons_str, app_empty_str.
    replace (0xF0 + x)%N with (byte_val a0) by lia. replace (0x80 + y)%N with (byte_val a1) by lia.
    replace (0x80 + z)%N with (byte_val a2) by lia. replace (0x80 + u)%N with (byte_val a3) by lia. by rewrite !byte_of_val.
Qed.

(** What the loop writes, rune by rune: [bad] for a byte that is no rune. *)
Definition escape_rune (c : N) (bad : bool) : string :=
  if (c <? 0x80)%N then if plain c then String (byte_of c) "" else escape_byte c
  else if bad then String backslash "ufffd"
  else if ((c =? 0x2028) || (c =? 0x2029))%N then String backslash ("u202" +:+ String (hex_digit (N.land c 15)) "")
  else EncodeRune c.

Definition is_bad (s s' : string) (c : N) : bool :=
  (c =? RuneError)%N && bool_decide (String.length s - String.length s' = 1)%nat.

Fixpoint escape (fuel : nat) (s : string) : string :=
  match fuel with
  | O => ""
  | S fuel' =>
      match DecodeRune s with
      | None => ""
      | Some (c, s') => escape_rune c (is_bad s s' c) +:+ escape fuel' s'
      end
  end.

Lemma sdrop_length n s : String.length (sdrop n s) = (String.length s - n)%nat.
Proof. revert s. induction n as [|n IH]; intros [|a s]; simpl; [done|done|done|apply IH]. Qed.

Lemma sdrop_sdrop n m s : sdrop n (sdrop m s) = sdrop (m + n) s.
Proof. revert s. induction m as [|m IH]; intros [|a s]; simpl; [done|done|by destruct n|apply IH]. Qed.

Lemma sdrop_app s t : sdrop (String.length s) (s +:+ t) = t.
Proof. induction s as [|a s IH]; simpl; [by destruct t|apply IH]. Qed.

Lemma stake_sdrop n s : stake n s +:+ sdrop n s = s.
Proof.
  revert s. induction n as [|n IH]; intros [|a s]; simpl; [done|done|done|]. by rewrite app_cons_str, IH.
Qed.

Lemma stake_app s t : stake (String.length s) (s +:+ t) = s.
Proof. induction s as [|a s IH]; simpl; [by destruct t|]. by rewrite IH. Qed.

Lemma slice_more s i j k : (i ≤ j)%nat → (j ≤ k)%nat → slice s i j +:+ slice s j k = slice s i k.
Proof.
  intros H1 H2. unfold slice. revert i j k H1 H2. induction s as [|a s IH]; intros i j k H1 H2.
  { assert (∀ n m, stake m (sdrop n "") = "") as E by (intros [] []; done). by rewrite !E. }
  destruct i as [|i].
  - destruct j as [|j].
    + by rewrite !Nat.sub_0_r.
    + destruct k as [|k]; [lia|]. simpl. rewrite app_cons_str. f_equal. specialize (IH 0%nat j k). simpl in IH.
      rewrite !Nat.sub_0_r in IH. apply IH; lia.
  - destruct j as [|j]; [lia|]. destruct k as [|k]; [lia|]. simpl. apply IH; lia.
Qed.

Lemma flush_slice s start i buf : (start ≤ i)%nat → flush s start i buf = buf +:+ slice s start i.
Proof.
  intros H. unfold flush. case_bool_decide; [done|]. replace i with start by lia. unfold slice.
  rewrite Nat.sub_diag. simpl. by rewrite app_nil_str.
Qed.

Lemma slice_one s i a t : sdrop i s = String a t → slice s i (S i) = String a "".
Proof. intros E. unfold slice. rewrite E. replace (S i - i)%nat with 1%nat by lia. done. Qed.

Lemma slice_prefix s i x t : sdrop i s = x +:+ t → slice s i (i + String.length x) = x.
Proof. intros E. unfold slice. rewrite E. replace (i + String.length x - i)%nat with (String.length x) by lia. apply stake_app. Qed.

Lemma escape_more n : ∀ m s, (String.length s ≤ n)%nat → (String.length s ≤ m)%nat → escape n s = escape m s.
Proof.
  induction n as [|n IH]; intros m s Hn Hm.
  - destruct s; [by destruct m|simpl in *; lia].
  - destruct m as [|m]; [destruct s; [done|simpl in *; lia]|]. simpl.
    destruct (DecodeRune s) as [[c s']|] eqn:E; [|done]. f_equal.
    pose proof (DecodeRune_shorter s c s' E). apply IH; lia.
Qed.

(** The loop keeps behind what it may write at once. *)
Lemma write_loop_escape s : ∀ fuel start i buf,
  (start ≤ i)%nat → (String.length (sdrop i s) < fuel)%nat → (i ≤ String.length s)%nat →
  write_loop fuel s start i buf = buf +:+ slice s start i +:+ escape (String.length (sdrop i s)) (sdrop i s).
Proof.
  induction fuel as [|fuel IH]; intros start i buf Hle Hfuel Hi; [lia|]. cbn [write_loop].
  destruct (sdrop i s) as [|a t] eqn:Et.
  { assert (i = String.length s) as Hend. { pose proof (sdrop_length i s) as H. rewrite Et in H. simpl in H. lia. }
    simpl. rewrite app_nil_str. case_bool_decide as Hs.
    - f_equal. unfold slice. rewrite Hend. pose proof (stake_app (sdrop start s) "") as H.
      by rewrite app_nil_str, sdrop_length in H.
    - replace i with start by lia. unfold slice. rewrite Nat.sub_diag. simpl. by rewrite app_nil_str. }
  (* what comes after one rune of [size] bytes *)
  assert (∀ x s', String a t = x +:+ s' → (0 < String.length x)%nat →
    sdrop (i + String.length x) s = s' ∧ (i + String.length x ≤ String.length s)%nat ∧
    (String.length s' < fuel)%nat ∧ slice s i (i + String.length x) = x) as Hnext.
  { intros x s' Ex Hx. pose proof (sdrop_length i s) as HL. rewrite Et in HL. rewrite Ex, length_app_str in HL.
    assert (String.length (String a t) = (String.length x + String.length s')%nat) as HL2 by (by rewrite Ex, length_app_str).
    split_and!; [|lia|lia|apply (slice_prefix s i x s'); by rewrite Et].
    rewrite <-sdrop_sdrop, Et, Ex. apply sdrop_app. }
  destruct (N.ltb_spec (byte_val a) 0x80) as [Ha|Ha].
  - pose proof (DecodeRune_ascii a t Ha) as Hdec. destruct (Hnext (String a "") t) as (Hd & Hl & Hf & Hsl); [done|simpl; lia|].
    simpl String.length in Hd, Hl, Hsl. rewrite Nat.add_1_r in Hd, Hl, Hsl.
    assert (escape (String.length (String a t)) (String a t) =
      (if plain (byte_val a) then String a "" else escape_byte (byte_val a)) +:+ escape (String.length t) t) as ->.
    { cbn [String.length escape]. rewrite Hdec. unfold escape_rune. rewrite (proj2 (N.ltb_lt _ _)) by done.
      by rewrite byte_of_val. }
    destruct (plain (byte_val a)).
    + rewrite IH by (rewrite ?Hd; lia). rewrite Hd, <-(slice_more s start i (S i)), Hsl by lia.
      by rewrite !app_assoc_str.
    + rewrite IH by (rewrite ?Hd; lia). rewrite Hd, flush_slice by lia.
      unfold slice at 2. rewrite Nat.sub_diag. simpl stake. by rewrite !app_assoc_str, app_empty_str.
  - destruct (DecodeRune_nonempty (String a t)) as (c & s' & E); [done|]. rewrite E.
    pose proof (DecodeRune_shorter _ _ _ E) as Hsh.
    assert (∃ x, String a t = x +:+ s' ∧ (String.length (String a t) - String.length s')%nat = String.length x) as (x & Ex & Hx).
    { destruct (DecodeRune_cases _ _ _ E) as [[_ Hlen]|[Hs _]].
      - exists (String a ""). simpl in Hlen. injection Hlen as Hlen.
        unfold DecodeRune in E. rewrite (proj2 (N.ltb_ge _ _)) in E by done.
        assert (s' = t) as ->.
        { repeat case_match; simplify_eq; try done; simpl in Hlen; lia. }
        split; [done|]. simpl. lia.
      - exists (EncodeRune c). rewrite Hs at 2. rewrite length_app_str. split; [done|lia]. }
    destruct (Hnext x s' Ex) as (Hd & Hl & Hf & Hsl); [lia|]. rewrite Hx.
    assert (¬ (c < 0x80)%N) as Hc.
    { intros Hc. destruct (DecodeRune_cases _ _ _ E) as [[-> _]|[Hs _]]; [done|].
      rewrite <-(byte_val_of c) in Hs by lia. rewrite Encode_byte in Hs by (rewrite byte_val_of; lia).
      rewrite app_cons_str in Hs. injection Hs as -> _. rewrite byte_val_of in Ha by lia. lia. }
    assert (escape (String.length (String a t)) (String a t) =
      escape_rune c (is_bad (String a t) s' c) +:+ escape (String.length s') s') as ->.
    { cbn [String.length escape]. rewrite E. f_equal. apply escape_more; simpl in Hsh; lia. }
    unfold escape_rune, is_bad. rewrite (proj2 (N.ltb_ge _ _)), Hx by lia.
    destruct ((c =? RuneError)%N && bool_decide (String.length x = 1%nat)) eqn:Eb; [|destruct ((c =? 0x2028) || (c =? 0x2029))%N].
    + rewrite IH by (rewrite ?Hd; lia). rewrite Hd, flush_slice by lia.
      unfold slice at 2. rewrite Nat.sub_diag. simpl stake. by rewrite !app_assoc_str, app_empty_str.
    + rewrite IH by (rewrite ?Hd; lia). rewrite Hd, flush_slice by lia.
      unfold slice at 2. rewrite Nat.sub_diag. simpl stake. by rewrite !app_assoc_str, app_empty_str.
    + rewrite IH by (rewrite ?Hd; lia). rewrite Hd, <-(slice_more s start i (i + String.length x)), Hsl by lia.
      assert (x = EncodeRune c) as ->; [|by rewrite !app_assoc_str].
      destruct (DecodeRune_cases _ _ _ E) as [[-> Hlen]|[Hs _]].
      * rewrite N.eqb_refl in Eb. simpl in Eb. apply bool_decide_eq_false in Eb. simpl in *. lia.
      * rewrite Ex in Hs. clear -Hs Hx Ex. revert Hs. generalize (EncodeRune c). intros y Hs.
        assert (String.length x = String.length y) as Hlen.
        { apply (f_equal String.length) in Hs. rewrite !length_app_str in Hs. lia. }
        rewrite <-(stake_app x s'), <-(stake_app y s'), Hs, Hlen. done.
Qed.

(** What a reader gets of a string: bytes that are no rune become U+FFFD. *)
Definition sanitize (s : string) : string := of_runes (runes s).

Lemma sanitize_valid rs : Forall (λ r, valid_rune r = true) rs → sanitize (of_runes rs) = of_runes rs.
Proof. intros H. unfold sanitize. rewrite <-(app_nil_str (of_runes rs)) at 1. by rewrite runes_of_runes, app_nil_r. Qed.

Lemma sanitize_ascii s : is_ascii s = true → sanitize s = s.
Proof.
  intros H. unfold sanitize. rewrite <-(app_nil_str s) at 1. rewrite runes_ascii by done.
  rewrite runes_empty, app_nil_r. by apply of_runes_ascii.
Qed.

Lemma control_escape_more c rest :
  (c = 60 ∨ c = 62 ∨ c = 38)%N →
  unicode_escape ("u00" +:+ String (hex_digit (c / 16)) (String (hex_digit (c mod 16)) rest)) = Some (c, rest).
Proof. by intros [->|[->| ->]]. Qed.

(** One rune is read back. *)
Lemma parse_escape_rune c bad fuel acc t :
  valid_rune c = true → (bad = true → c = RuneError) →
  parse_string (S fuel) acc (escape_rune c bad +:+ t) = parse_string fuel (acc +:+ EncodeRune c) t.
Proof.
  intros Hv Hbad. unfold escape_rune. destruct (N.ltb_spec c 0x80) as [Hc|Hc].
  - assert (EncodeRune c = String (byte_of c) "") as HE.
    { rewrite <-(byte_val_of c) at 1 by lia. apply Encode_byte. rewrite byte_val_of; lia. }
    destruct (plain c) eqn:Hp.
    + unfold plain in Hp. rewrite andb_true_iff, negb_true_iff, !orb_false_iff, N.leb_le, !N.eqb_neq in Hp.
      destruct Hp as (H32 & (((H92 & H34) & _) & _) & _). rewrite app_cons_str, app_empty_str. cbn [parse_string].
      rewrite byte_val_of by lia. rewrite (proj2 (N.eqb_neq _ _) H34), (proj2 (N.eqb_neq _ _) H92), (proj2 (N.ltb_ge _ _) H32).
      rewrite DecodeRune_ascii by (rewrite byte_val_of; lia). by rewrite byte_val_of by lia.
    + rewrite HE. unfold escape_byte.
      destruct (N.eqb_spec c 92) as [->|H92]; [done|]. destruct (N.eqb_spec c 34) as [->|H34]; [done|]. simpl orb. cbv iota.
      destruct (N.eqb_spec c 10) as [->|H10]; [done|]. destruct (N.eqb_spec c 13) as [->|H13]; [done|].
      assert (unicode_escape ("u00" +:+ String (hex_digit (c / 16)) (String (hex_digit (c mod 16)) t)) = Some (c, t)) as Hu.
      { destruct (N.ltb_spec c 32) as [H32|H32]; [by apply control_escape|]. apply control_escape_more.
        unfold plain in Hp. rewrite (proj2 (N.leb_le _ _) H32), (proj2 (N.eqb_neq _ _) H92), (proj2 (N.eqb_neq _ _) H34) in Hp.
        simpl in Hp. apply negb_false_iff in Hp.
        rewrite !orb_true_iff, !N.eqb_eq in Hp. tauto. }
      transitivity (match unicode_escape ("u00" +:+ String (hex_digit (c / 16)) (String (hex_digit (c mod 16)) t)) with
                    | Some (r, s3) => parse_string fuel (acc +:+ EncodeRune r) s3 | None => None end); [done|].
      by rewrite Hu, HE.
  - destruct bad; [by rewrite (Hbad eq_refl)|].
    destruct (N.eqb_spec c 0x2028) as [->|H1]; [done|]. destruct (N.eqb_spec c 0x2029) as [->|H2]; [done|]. simpl orb. cbv iota.
    destruct (EncodeRune_first c Hv) as (a & x & Ea & H32 & H34 & H92); [lia|lia|lia|].
    pose proof (DecodeRune_Encode c t Hv) as Hd. rewrite Ea in Hd |- *. rewrite app_cons_str in Hd |- *. cbn [parse_string].
    rewrite (proj2 (N.eqb_neq _ _) H34), (proj2 (N.eqb_neq _ _) H92), (proj2 (N.ltb_ge _ _) H32). by rewrite Hd, Ea.
Qed.

Lemma escape_unfold s c s' :
  DecodeRune s = Some (c, s') →
  escape (String.length s) s = escape_rune c (is_bad s s' c) +:+ escape (String.length s') s'.
Proof.
  intros E. pose proof (DecodeRune_shorter s c s' E). destruct s as [|a t]; [done|]. cbn [String.length escape].
  rewrite E. f_equal. apply escape_more; simpl in *; lia.
Qed.

Lemma DecodeRune_valid s c s' : DecodeRune s = Some (c, s') → valid_rune c = true.
Proof. intros E. destruct (DecodeRune_cases s c s' E) as [[-> _]|[_ ?]]; done. Qed.

Lemma parse_string_escape n : ∀ s fuel acc rest,
  (String.length s ≤ n)%nat → (length (runes s) < fuel)%nat →
  parse_string fuel acc (escape (String.length s) s +:+ String quote rest) = Some (acc +:+ sanitize s, rest).
Proof.
  induction n as [|n IH]; intros s fuel acc rest Hn Hf; (destruct fuel as [|fuel]; [lia|]);
    (destruct (DecodeRune s) as [[c s']|] eqn:E; [|destruct s as [|a s]; [|destruct (DecodeRune_nonempty (String a s)) as (?&?&?); [done|congruence]];
     by rewrite app_nil_str]).
  - pose proof (DecodeRune_shorter s c s' E). lia.
  - pose proof (DecodeRune_shorter s c s' E) as Hsh. rewrite (escape_unfold s c s' E), app_assoc_str.
    rewrite (runes_decode s c s' E) in Hf. simpl in Hf. rewrite parse_escape_rune.
    + rewrite IH by lia. unfold sanitize. rewrite (runes_decode s c s' E). simpl. by rewrite app_assoc_str.
    + by eapply DecodeRune_valid.
    + unfold is_bad. intros [H%N.eqb_eq _]%andb_prop. done.
Qed.

Lemma escape_rune_nonempty c bad : (0 < String.length (escape_rune c bad))%nat.
Proof. unfold escape_rune, escape_byte, EncodeRune. repeat case_match; simpl; lia. Qed.

Lemma runes_escape_length n : ∀ s, (String.length s ≤ n)%nat → (length (runes s) ≤ String.length (escape (String.length s) s))%nat.
Proof.
  induction n as [|n IH]; intros s Hn;
    (destruct (DecodeRune s) as [[c s']|] eqn:E; [|destruct s as [|a s]; [done|destruct (DecodeRune_nonempty (String a s)) as (?&?&?); [done|congruence]]]).
  - pose proof (DecodeRune_shorter s c s' E). lia.
  - pose proof (DecodeRune_shorter s c s' E). rewrite (escape_unfold s c s' E), (runes_decode s c s' E), length_app_str.
    simpl. pose proof (escape_rune_nonempty c (is_bad s s' c)). specialize (IH s' ltac:(lia)). lia.
Qed.

Definition json_text (s : string) : string := quoted (escape (String.length s) s).

Lemma ffjsonWriteJSONString_text buf s : ffjsonWriteJSONString buf s = buf +:+ json_text s.
Proof.
  unfold ffjsonWriteJSONString, json_text, quoted. rewrite write_loop_escape; [|lia|simpl; destruct s; simpl; lia|lia].
  unfold slice. simpl stake. replace (sdrop 0 s) with s by (by destruct s).
  by rewrite !app_assoc_str, app_cons_str, !app_empty_str.
Qed.

Section texts.
Context (float_ok : string → bool).

(** [t] is a text for the value [v], whatever follows it. *)
Definition text_ok (v : value) (t : string) : Prop :=
  ∀ fuel rest, (String.length t < fuel)%nat → parse_value float_ok fuel (t +:+ rest) = Some (v, rest).

Lemma string_text s : text_ok (JString (sanitize s)) (json_text s).
Proof.
  intros fuel rest Hf. destruct fuel as [|fuel]; [lia|]. unfold json_text, quoted in *.
  rewrite app_cons_str, app_assoc_str, app_cons_str, app_empty_str.
  assert (∀ t, parse_value float_ok (S fuel) (String quote t) =
    ('(x, r) ← parse_string fuel "" t; Some (JString x, r))) as -> by done.
  rewrite (parse_string_escape (String.length s)); [done|lia|].
  pose proof (runes_escape_length _ s (le_n _)). simpl in Hf. rewrite length_app_str in Hf. lia.
Qed.

(** The members of an object. *)
Fixpoint members_text (ms : list (string * string)) : string :=
  match ms with
  | [] => ""
  | [(k, t)] => json_text k +:+ ":" +:+ t
  | (k, t) :: ms' => json_text k +:+ ":" +:+ t +:+ "," +:+ members_text ms'
  end.

Definition member_ok (m : string * string) (kv : string * value) : Prop :=
  kv.1 = sanitize m.1 ∧ text_ok kv.2 m.2.

Lemma parse_member fuel first k t v rest :
  text_ok v t → (String.length (json_text k) + String.length t < fuel)%nat →
  parse_members float_ok (S fuel) first (json_text k +:+ ":" +:+ t +:+ rest) =
  match skip_space rest with
  | String "}" r' => Some ([(sanitize k, v)], r')
  | String "," r' => '(l, r'') ← parse_members float_ok fuel false r'; Some ((sanitize k, v) :: l, r'')
  | _ => None
  end.
Proof.
  intros Hv Hf. unfold json_text, quoted. rewrite app_cons_str, app_assoc_str, app_cons_str, app_empty_str.
  transitivity ('(k, r) ← parse_string fuel "" (escape (String.length k) k +:+ String quote (":" +:+ t +:+ rest));
            match skip_space r with
            | String ":" r1 =>
                '(v, r2) ← parse_value float_ok fuel r1;
                match skip_space r2 with
                | String "}" r' => Some ([(k, v)], r')
                | String "," r' => '(l, r'') ← parse_members float_ok fuel false r'; Some ((k, v) :: l, r'')
                | _ => None
                end
            | _ => None
            end); [done|].
  rewrite (parse_string_escape (String.length k)); [|lia|].
  - cbn [mbind option_bind]. rewrite app_cons_str, !app_empty_str. cbn [skip_space].
    change (json_space ":"%char) with false. cbv iota. rewrite Hv by lia. done.
  - pose proof (runes_escape_length _ k (le_n _)). unfold json_text, quoted in Hf. simpl in Hf.
    rewrite length_app_str in Hf. lia.
Qed.

Lemma parse_members_text ms : ∀ kvs first fuel rest,
  ms ≠ [] → Forall2 member_ok ms kvs → (String.length (members_text ms) < fuel)%nat →
  parse_members float_ok fuel first (members_text ms +:+ "}" +:+ rest) = Some (kvs, rest).
Proof.
  induction ms as [|[k t] ms IH]; intros kvs first fuel rest Hne Hall Hf; [done|].
  inversion Hall as [|? [k' v] ? kvs' [Hk Hv] Hall']; subst. simpl in Hk, Hv. subst k'.
  destruct fuel as [|fuel]; [lia|]. destruct ms as [|m ms].
  - inversion Hall'; subst. cbn [members_text] in *. rewrite !length_app_str in Hf. cbn [String.length] in Hf.
    rewrite !app_assoc_str, (parse_member fuel first k t v) by (done || lia). done.
  - assert (members_text ((k, t) :: m :: ms) = json_text k +:+ ":" +:+ t +:+ "," +:+ members_text (m :: ms)) as HE by done.
    rewrite HE in *. rewrite !length_app_str in Hf. cbn [String.length] in Hf.
    rewrite !app_assoc_str, (parse_member fuel first k t v) by (done || lia).
    rewrite app_cons_str, app_empty_str. cbn [skip_space]. change (json_space ","%char) with false. cbv iota.
    rewrite (IH kvs') by (done || lia). done.
Qed.

Lemma object_text ms kvs : ms ≠ [] → Forall2 member_ok ms kvs → text_ok (JObject kvs) ("{" +:+ members_text ms +:+ "}").
Proof.
  intros Hne Hall fuel rest Hf. destruct fuel as [|fuel]; [lia|].
  rewrite !app_assoc_str, app_cons_str, app_empty_str.
  assert (∀ t, parse_value float_ok (S fuel) (String "{" t) =
    ('(l, r) ← parse_members float_ok fuel true t; Some (JObject l, r))) as -> by done.
  rewrite (parse_members_text ms kvs); [done|done|done|]. rewrite !length_app_str in Hf. cbn [String.length] in Hf. lia.
Qed.
End texts.

(** Strings that are written as they are. *)
Fixpoint all_plain (s : string) : bool :=
  match s with "" => true | String a s' => (byte_val a <? 0x80)%N && plain (byte_val a) && all_plain s' end.

Lemma all_plain_app s t : all_plain (s +:+ t) = all_plain s && all_plain t.
Proof. induction s as [|a s IH]; [done|]. rewrite app_cons_str. simpl. by rewrite IH, <-!andb_assoc. Qed.

Lemma all_plain_ascii s : all_plain s = true → is_ascii s = true.
Proof.
  induction s as [|a s IH]; [done|]. simpl. intros [[H _]%andb_prop Hs]%andb_prop. by rewrite H, IH.
Qed.

Lemma escape_plain s : all_plain s = true → escape (String.length s) s = s.
Proof.
  induction s as [|a s IH]; [done|]. simpl. intros [[Ha Hp]%andb_prop Hs]%andb_prop. apply N.ltb_lt in Ha.
  rewrite (proj2 (N.ltb_lt _ _) Ha). unfold escape_rune. rewrite (proj2 (N.ltb_lt _ _) Ha), Hp, byte_of_val.
  by rewrite app_cons_str, app_empty_str, IH.
Qed.

Lemma pad_plain w n : all_plain (pad w n) = true.
Proof.
  revert n. induction w as [|w IH]; intros n; [done|]. cbn [pad]. rewrite all_plain_app, IH. simpl.
  pose proof (Z.mod_pos_bound n 10 ltac:(lia)). rewrite byte_val_of by lia. unfold plain.
  rewrite (proj2 (N.ltb_lt _ _)), (proj2 (N.leb_le _ _)) by lia.
  by rewrite !(proj2 (N.eqb_neq _ _)) by lia.
Qed.

Lemma trim_zeros_plain s : all_plain s = true → all_plain (trim_zeros s) = true.
Proof.
  induction s as [|a s IH]; [done|]. simpl. intros [Ha Hs]%andb_prop. specialize (IH Hs).
  destruct (trim_zeros s) as [|b t]; [destruct (ascii_dec a "0"); simpl; [done|by rewrite Ha]|].
  simpl in *. by rewrite Ha.
Qed.

Lemma format_time_plain t : zone t = 0 → all_plain (format_time t) = true.
Proof.
  intros Hz. unfold format_time. rewrite !all_plain_app, !pad_plain, Hz. simpl. rewrite andb_true_r. unfold format_nano.
  pose proof (trim_zeros_plain _ (pad_plain 9 (nsec t))) as H. by destruct (trim_zeros (pad 9 (nsec t))).
Qed.

Lemma time_text fo t : zone t = 0 → text_ok fo (JString (format_time t)) (quoted (format_time t)).
Proof.
  intros Hz. pose proof (format_time_plain t Hz) as Hp. pose proof (string_text fo (format_time t)) as H.
  rewrite sanitize_ascii in H by (by apply all_plain_ascii). unfold json_text in H. by rewrite escape_plain in H.
Qed.

(** ** Records survive *)

Definition opt_field (k s : string) (t : string) : list (string * string) := if nonempty s then [(k, t)] else [].

Definition fields (mj : JSONLogs) : list (string * string) :=
  opt_field "log" (Log mj) (json_text (Log mj)) ++ opt_field "stream" (Stream mj) (json_text (Stream mj)) ++
  opt_field "attrs" (RawAttrs mj) (RawAttrs mj) ++ [("time", Created mj)].

Lemma MarshalJSONBuf_text mj buf : MarshalJSONBuf mj buf = buf +:+ "{" +:+ members_text (fields mj) +:+ "}".
Proof.
  assert (key "log" = json_text "log" +:+ ":") as K1 by reflexivity.
  assert (key "stream" = json_text "stream" +:+ ":") as K2 by reflexivity.
  assert (key "attrs" = json_text "attrs" +:+ ":") as K3 by reflexivity.
  assert (key "time" = json_text "time" +:+ ":") as K4 by reflexivity.
  unfold MarshalJSONBuf, write_attrs, write_stream, write_log, fields, opt_field.
  destruct (nonempty (Log mj)), (nonempty (Stream mj)), (nonempty (RawAttrs mj));
    cbn [comma app members_text]; rewrite ?ffjsonWriteJSONString_text, ?K1, ?K2, ?K3, ?K4, ?app_assoc_str; done.
Qed.

(** The attributes of a logger: none, or the text of an object that adds the
    pairs of [extra] to the map. *)
Definition attrs_text (fo : string → bool) (raw : string) (extra : gmap string string) : Prop :=
  raw = "" ∧ extra = ∅ ∨
  raw ≠ "" ∧ ∃ kvs, text_ok fo (JObject kvs) raw ∧ ∀ m, decode_attrs kvs m = Some (extra ∪ m).

(** A line feed that is left from the record before does not matter. *)
Definition separator (sp : string) : Prop := sp = "" ∨ sp = String (byte_of 10) "".

Lemma separator_skip sp s : separator sp → skip_space (sp +:+ s) = skip_space s.
Proof. by intros [->| ->]. Qed.

Lemma separator_parse fo fuel sp s : separator sp → parse_value fo fuel (sp +:+ s) = parse_value fo fuel s.
Proof. intros [->| ->]; by destruct fuel. Qed.

Lemma Decode_MarshalJSONBuf fo sp lg st t raw extra l rest :
  separator sp → valid_time t → attrs_text fo raw extra →
  Decode_log fo (Reset l) (sp +:+ MarshalJSONBuf (mkLogs lg st (quoted (format_time t)) raw) "" +:+ rest) =
  DRecord (mkLog (sanitize lg) (sanitize st) t (extra ∪ attrs l)) rest.
Proof.
  intros Hsp Ht Hraw. assert (zone t = 0) as Hz by (by destruct Ht as (_ & _ & _ & _ & _ & _ & _ & ?)).
  set (mj := mkLogs lg st (quoted (format_time t)) raw).
  rewrite MarshalJSONBuf_text, app_empty_str. set (obj := "{" +:+ members_text (fields mj) +:+ "}").
  assert (∃ kvs, Forall2 (member_ok fo) (fields mj) kvs ∧
    decode_members kvs (Reset l) = Some (mkLog (sanitize lg) (sanitize st) t (extra ∪ attrs l))) as (kvs & Hall & Hdec).
  { assert (∃ kv3, Forall2 (member_ok fo) (opt_field "attrs" raw raw ++ [("time", quoted (format_time t))]) kv3 ∧
      ∀ a b, decode_members kv3 (mkLog a b zero_time (attrs l)) = Some (mkLog a b t (extra ∪ attrs l))) as (kv3 & H3 & D3).
    { destruct Hraw as [[-> ->]|(Hne & ks & Hks & Hd)].
      - exists [("time", JString (format_time t))]. split; [repeat constructor; by apply time_text|].
        intros a b. simpl. rewrite parse_format_time by done. simpl. by rewrite map_empty_union.
      - exists [("attrs", JObject ks); ("time", JString (format_time t))]. unfold opt_field, nonempty.
        rewrite bool_decide_false by done. split; [constructor; [by split|]; repeat constructor; by apply time_text|].
        intros a b. simpl. rewrite Hd. simpl. by rewrite parse_format_time. }
    assert (∃ kv2, Forall2 (member_ok fo) (opt_field "stream" st (json_text st)) kv2 ∧
      ∀ a c m, decode_members (kv2 ++ kv3) (mkLog a "" c m) = decode_members kv3 (mkLog a (sanitize st) c m)) as (kv2 & H2 & D2).
    { unfold opt_field, nonempty. case_bool_decide as E; simpl; [subst; by exists []; split; [constructor|]|].
      exists [("stream", JString (sanitize st))]. split; [|done]. repeat constructor. apply string_text. }
    assert (∃ kv1, Forall2 (member_ok fo) (opt_field "log" lg (json_text lg)) kv1 ∧
      ∀ ks b c m, decode_members (kv1 ++ ks) (mkLog "" b c m) = decode_members ks (mkLog (sanitize lg) b c m)) as (kv1 & H1 & D1).
    { unfold opt_field, nonempty. case_bool_decide as E; simpl; [subst; by exists []; split; [constructor|]|].
      exists [("log", JString (sanitize lg))]. split; [|done]. repeat constructor. apply string_text. }
    exists (kv1 ++ kv2 ++ kv3). split; [unfold fields; by repeat apply Forall2_app|].
    unfold Reset. by rewrite D1, D2, D3. }
  assert (fields mj ≠ []) as Hne.
  { unfold fields. intros H%(f_equal length). rewrite !length_app in H. simpl in H. lia. }
  unfold Decode_log. rewrite (separator_skip sp), (separator_parse fo _ sp) by done. rewrite bool_decide_false.
  - rewrite (object_text fo (fields mj) kvs Hne Hall) by (fold obj; rewrite !length_app_str; lia). by rewrite Hdec.
  - unfold obj. rewrite app_assoc_str, app_cons_str. done.
Qed.
