(* ===== verification/LogFile.v ===== *)
(** * The json-file log driver

    daemon/logger/copier.go, jsonfilelog (jsonfilelog.go and read.go up to the
    following of a log), loggerutils/rotatefilewriter.go and the extra
    attributes of daemon/logger/context.go: what a container prints is cut into
    lines, each line becomes a JSON record of a file that is rotated, and the
    files are read from the end.  The file of a log is number 0 and the one
    with the suffix [i] is number [i]; names lead to inodes, so that a handle
    keeps its file when the name is given away.  Every call of the file system
    may fail. *)

From S2P Require Import Prelude BytesPipe GoStrings Json JsonLog TailFile.
Open Scope Z_scope.

Abbreviation raw := (list Ascii.ascii).

Definition to_raw (s : string) : raw := String.list_ascii_of_string s.
Definition of_raw (b : raw) : string := String.string_of_list_ascii b.

(** ** The file system *)

Record disk := mkDisk { files : gmap Z nat; inodes : list raw }.

(** A handle for writing. *)
Record handle := mkHandle { h_inode : nat; h_append : bool; h_off : Z; h_closed : bool }.

Record RotateFileWriter := mkWriter {
  wf : handle; capacity : Z; currentSize : Z; maxFiles : Z; rotations : nat;
}.

Record world := mkWorld { dk : disk; calls : nat; wr : RotateFileWriter }.

Inductive lerr := EIO | EClosed | EConfig.

Abbreviation M := (ST world lerr).

Definition set_dk (f : disk → disk) : M unit := st_modify (λ w, mkWorld (f (dk w)) (calls w) (wr w)).
Definition set_wr (f : RotateFileWriter → RotateFileWriter) : M unit :=
  st_modify (λ w, mkWorld (dk w) (calls w) (f (wr w))).

Section calls.
(** The fate of every call: it works, or it fails, a write after some bytes. *)
Context (fate : nat → option nat).

Definition next : M (option nat) :=
  n ← st_gets calls;
  st_modify (λ w, mkWorld (dk w) (S (calls w)) (wr w)) ;;
  mret (fate n).

Definition Rename (from to : Z) : M unit :=
  r ← next;
  match r with
  | Some _ => st_fail EIO
  | None =>
      d ← st_gets dk;
      match files d !! from with
      | Some i => set_dk (λ d, mkDisk (<[to := i]> (delete from (files d))) (inodes d))
      | None => mret tt                            (* os.IsNotExist: the callers go on *)
      end
  end.

(** [os.OpenFile] with O_CREATE, and with O_TRUNC or O_APPEND. *)
Definition OpenFile (name : Z) (trunc : bool) : M handle :=
  r ← next;
  match r with
  | Some _ => st_fail EIO
  | None =>
      d ← st_gets dk;
      match files d !! name with
      | Some i =>
          (if trunc then set_dk (λ d, mkDisk (files d) (<[i := []]> (inodes d))) else mret tt) ;;
          mret (mkHandle i (negb trunc) 0 false)
      | None =>
          let i := length (inodes d) in
          set_dk (λ d, mkDisk (<[name := i]> (files d)) (inodes d ++ [[]])) ;;
          mret (mkHandle i (negb trunc) 0 false)
      end
  end.

(** The bytes of a file after [d] was written at [at_]. *)
Definition write_at (c : raw) (at_ : Z) (d : raw) : raw :=
  let k := Z.to_nat at_ in
  take k c ++ replicate (k - length c) Ascii.zero ++ d ++ drop (k + length d) c.

Definition content_of (d : disk) (i : nat) : raw := default [] (inodes d !! i).

(** [f.Write]: the bytes written, and whether it failed. *)
Definition file_Write (m : raw) : M (Z * bool) :=
  w ← st_gets wr;
  let h := wf w in
  if h_closed h then mret (0, true)
  else
    r ← next;
    d ← st_gets dk;
    let m' := match r with Some k => take k m | None => m end in
    let at_ := if h_append h then len (content_of d (h_inode h)) else h_off h in
    set_dk (λ d, mkDisk (files d) (<[h_inode h := write_at (content_of d (h_inode h)) at_ m']> (inodes d))) ;;
    set_wr (λ w, mkWriter (mkHandle (h_inode h) (h_append h) (at_ + len m') false)
                          (capacity w) (currentSize w) (maxFiles w) (rotations w)) ;;
    mret (len m', bool_decide (is_Some r)).

(** [f.Close]: the handle is closed even when the call fails. *)
Definition file_Close : M unit :=
  w ← st_gets wr;
  if h_closed (wf w) then st_fail EClosed
  else
    r ← next;
    set_wr (λ w, mkWriter (mkHandle (h_inode (wf w)) (h_append (wf w)) (h_off (wf w)) true)
                          (capacity w) (currentSize w) (maxFiles w) (rotations w)) ;;
    match r with Some _ => st_fail EIO | None => mret tt end.

(** ** Rotation *)

(** The loop from [i = n + 1] down to 2. *)
Fixpoint rotate_loop (n : nat) : M unit :=
  match n with
  | O => mret tt
  | S n' => Rename (Z.of_nat n) (Z.of_nat (S n)) ;; rotate_loop n'
  end.

Definition rotate (max : Z) : M unit :=
  if max <? 2 then mret tt
  else rotate_loop (Z.to_nat (max - 2)) ;; Rename 0 1.

Definition checkCapacityAndRotate : M unit :=
  w ← st_gets wr;
  if capacity w =? -1 then mret tt
  else if capacity w <=? currentSize w then
    file_Close ;;
    rotate (maxFiles w) ;;
    h ← OpenFile 0 true;
    set_wr (λ w, mkWriter h (capacity w) 0 (maxFiles w) (S (rotations w)))
  else mret tt.

(** [Write]: what was written, and the error. *)
Definition Write (m : raw) : M (Z * bool) :=
  r ← st_try checkCapacityAndRotate;
  match r with
  | inr _ => mret (-1, true)
  | inl _ =>
      ne ← file_Write m;
      (if (snd ne : bool) then mret tt
       else set_wr (λ w, mkWriter (wf w) (capacity w) (currentSize w + (fst ne : Z)) (maxFiles w) (rotations w))) ;;
      mret ne
  end.

Definition NewRotateFileWriter (cap max : Z) : M unit :=
  h ← OpenFile 0 false;
  d ← st_gets dk;
  set_wr (λ _, mkWriter h cap (len (content_of d (h_inode h))) max 0).

(** ** The logger *)

Record Message := mkMessage { Line : string; Source : string; Timestamp : time }.

Definition newline : string := String eol "".

(** The text of a message, [None] for a time that has none. *)
Definition record_text (extra : string) (msg : Message) : option string :=
  ts ← FastTimeMarshalJSON (Timestamp msg);
  Some (MarshalJSONBuf (mkLogs (Line msg +:+ newline) (Source msg) ts extra) "" +:+ newline).

(** [Log]: whether it failed. *)
Definition Log (extra : string) (msg : Message) : M bool :=
  match record_text extra msg with
  | None => mret true
  | Some t => ne ← Write (to_raw t); mret (snd ne)
  end.

Record Context := mkContext {
  Config : gmap string string; ContainerLabels : gmap string string; ContainerEnv : list string;
}.

(** The keys of an option that are in a map. *)
Definition pick (opt : option string) (m : gmap string string) (acc : gmap string string) : gmap string string :=
  match opt with
  | Some ls =>
      if nonempty ls then
        fold_left (λ acc l, match m !! l with Some v => <[l := v]> acc | None => acc end) (GoStrings.Split "," ls) acc
      else acc
  | None => acc
  end.

Definition env_mapping (env : list string) : gmap string string :=
  fold_left (λ m e, match Cut "=" e with (k, Some v) => <[k := v]> m | _ => m end) env ∅.

Definition ExtraAttributes (ctx : Context) : gmap string string :=
  pick (Config ctx !! "env") (env_mapping (ContainerEnv ctx))
       (pick (Config ctx !! "labels") (ContainerLabels ctx) ∅).

(** [json.Marshal] of a map: the keys are sorted. *)
Definition sorted_pairs (m : gmap string string) : list (string * string) :=
  merge_sort (λ p q, String.le p.1 q.1) (map_to_list m).
Definition Marshal (m : gmap string string) : string :=
  "{" +:+ members_text (map (λ p, (p.1, json_text p.2)) (sorted_pairs m)) +:+ "}".

Definition extra_text (ctx : Context) : string :=
  let m := ExtraAttributes ctx in if bool_decide (m = ∅) then "" else Marshal m.

(** [New]: sizes are parsed by a library. *)
Definition New (FromHumanSize : string → option Z) (ctx : Context) : M string :=
  match (match Config ctx !! "max-size" with Some c => FromHumanSize c | None => Some (-1) end) with
  | None => st_fail EConfig
  | Some capval =>
      match (match Config ctx !! "max-file" with Some f => Atoi f | None => Some 1 end) with
      | None => st_fail EConfig
      | Some maxf =>
          if maxf <? 1 then st_fail EConfig
          else NewRotateFileWriter capval maxf ;; mret (extra_text ctx)
      end
  end.

Definition ValidateLogOpt (cfg : gmap string string) : bool :=
  forallb (λ kv : string * string, bool_decide (kv.1 ∈ ["max-file"; "max-size"; "labels"; "env"])) (map_to_list cfg).

(** ** Copying what a container prints *)

(** A stream: what is left to read, and whether it ends with an error. *)
Record src := mkSrc { name : string; unread_ : string; broken : bool }.

(** [reader.ReadBytes] up to a line feed, without it: the line, whether the
    stream ended, and the rest. *)
Definition ReadBytes (s : string) : string * bool * string :=
  match Cut eol s with (l, Some r) => (l, false, r) | (l, None) => (l, true, "") end.

(** One turn of the loop: the stream after it, [None] when the copy is done.
    What the logger returns is only printed. *)
Definition copy_turn (extra : string) (now : time) (s : src) : M (option src) :=
  let '(line, ended, rest) := ReadBytes (unread_ s) in
  (if negb ended || nonempty line then Log extra (mkMessage line (name s) now) else mret false) ;;
  mret (if ended then None else Some (mkSrc (name s) rest (broken s))).
End calls.

(** ** Reading *)

Record ReadConfig := mkConfig { Since : time; Tail : Z }.

(** The files that are opened, oldest first; [at_open k] is the file system at
    the time of the [k]-th call, and [fails k] a failure other than a missing
    file.  [false] says that an error was sent. *)
Fixpoint open_rotated (at_open : nat → disk) (fails : nat → bool) (i k : nat) : list nat * nat * bool :=
  match i with
  | O => ([], k, true)
  | S i' =>
      if fails k then ([], S k, false)
      else match files (at_open k) !! Z.of_nat i with
           | Some n => let '(ns, k', ok) := open_rotated at_open fails i' (S k) in (n :: ns, k', ok)
           | None => open_rotated at_open fails i' (S k)
           end
  end.

(** The messages of a text, those before [since] left out, and whether it
    ended without an error.  The map of attributes is the same for all. *)
Fixpoint read_loop (fo : string → bool) (fuel : nat) (l : JSONLog) (s : string) (since : time)
    : list Message * gmap string string * bool :=
  match fuel with
  | O => ([], attrs l, false)
  | S fuel' =>
      match Decode_log fo (JsonLog.Reset l) s with
      | DEOF => ([], attrs l, true)
      | DError => ([], attrs l, false)
      | DRecord l' rest =>
          let '(ms, a, ok) := read_loop fo fuel' l' rest since in
          if negb (IsZero since) && Before (created l') since then (ms, a, ok)
          else (mkMessage (log l') (stream l') (created l') :: ms, a, ok)
      end
  end.

Definition Join (ls : list raw) : raw :=
  match ls with [] => [] | l :: ls' => l ++ concat (map (λ x, eol :: x) ls') end.

(** All that a reader has, as a decoder reads it. *)
Definition read_all (r : ReadSeeker) : raw :=
  match Read (len (content r) + 1) r with (Ok d, _) => d | _ => [] end.

Definition tailFile (fo : string → bool) (r : ReadSeeker) (tail : Z) (since : time)
    : list Message * gmap string string * bool :=
  let text := if 0 <? tail then match TailFile tail r with (Ok ls, _) => Some (Join ls) | _ => None end
              else Some (read_all r) in
  match text with
  | None => ([], ∅, false)
  | Some t => read_loop fo (S (length t)) (mkLog "" "" zero_time ∅) (of_raw t) since
  end.

(** [readLogs] without following: the messages, the attributes they share, and
    whether no error was sent.  [d] is the file system while the opened files
    are read. *)
Definition readLogs (fo : string → bool) (at_open : nat → disk) (fails : nat → bool) (d : disk) (max : Z)
    (config : ReadConfig) : list Message * gmap string string * bool :=
  let '(ns, k, ok) := open_rotated at_open fails (Z.to_nat (max - 1)) 0 in
  if fails k then ([], ∅, false)
  else match files (at_open k) !! 0 with
       | None => ([], ∅, false)
       | Some n0 =>
           if Tail config =? 0 then ([], ∅, ok)
           else let '(ms, a, ok') := tailFile fo (MultiReadSeeker (opened (map (content_of d) (ns ++ [n0]))))
                                       (Tail config) (Since config) in
                (ms, a, ok && ok')
       end.
