(* ===== verification/LogFileSpec.v ===== *)
(** * What is printed is what is logged

    The invariant of the rotated files, the reading of them, and the theorems:
    docker logs shows the lines that a container printed, in the order they
    were logged, up to whole files that were rotated away; and a rotation that
    failed once makes every later write fail. *)

From S2P Require Import Prelude BytesPipe BytesPipeSpec GoStrings Json JsonLog TailFile LogFile.
Open Scope Z_scope.

(** No call fails. *)
Definition clean : nat → option nat := λ _, None.

(** ** Renaming *)

Lemma lbind_ok {A B} (m : LogFile.M A) (k : A → LogFile.M B) w a w' : m w = (Ok a, w') → (m ≫= k) w = k a w'.
Proof. intros E. unfold mbind, ST_bind. by rewrite E. Qed.

Definition with_files (w : LogFile.world) (fs : gmap Z nat) (n : nat) : LogFile.world :=
  LogFile.mkWorld (mkDisk fs (inodes (dk w))) n (wr w).

Definition renamed (from to : Z) (fs : gmap Z nat) : gmap Z nat :=
  match fs !! from with Some i => <[to := i]> (delete from fs) | None => fs end.

Lemma Rename_clean from to w :
  Rename clean from to w = (Ok tt, with_files w (renamed from to (files (dk w))) (S (calls w))).
Proof.
  unfold Rename, renamed, with_files. unfold mbind, ST_bind. simpl. destruct w as [[fs ins] n h]. simpl.
  by destruct (fs !! from).
Qed.

(** The files from 1 to [n] move up by one. *)
Lemma rotate_loop_clean n : ∀ w,
  (∀ i : nat, (1 ≤ i ≤ n)%nat → files (dk w) !! Z.of_nat i = None → files (dk w) !! Z.of_nat (S i) = None) →
  ∃ fs k, rotate_loop clean n w = (Ok tt, with_files w fs k) ∧
    (∀ i : nat, fs !! Z.of_nat i =
      if decide (2 ≤ i ≤ S n)%nat then files (dk w) !! Z.of_nat (i - 1)
      else if decide (i = 1 ∧ 1 ≤ n)%nat then None else files (dk w) !! Z.of_nat i).
Proof.
  induction n as [|n IH]; intros w Hc.
  - exists (files (dk w)), (calls w). split; [by destruct w as [[]]|]. intros i.
    rewrite decide_False, decide_False by lia. done.
  - cbn [rotate_loop]. rewrite (lbind_ok _ _ _ _ _ (Rename_clean _ _ _)).
    set (w1 := with_files w (renamed (Z.of_nat (S n)) (Z.of_nat (S (S n))) (files (dk w))) (S (calls w))).
    assert (∀ i : nat, files (dk w1) !! Z.of_nat i =
      if decide (i = S (S n)) then files (dk w) !! Z.of_nat (S n)
      else if decide (i = S n) then None else files (dk w) !! Z.of_nat i) as H1.
    { intros i. simpl. unfold renamed. destruct (files (dk w) !! Z.of_nat (S n)) as [x|] eqn:E.
      - destruct (decide (i = S (S n))) as [->|]; [by rewrite lookup_insert_eq|].
        rewrite lookup_insert_ne by lia.
        destruct (decide (i = S n)) as [->|]; [by rewrite lookup_delete_eq|by rewrite lookup_delete_ne by lia].
      - destruct (decide (i = S (S n))) as [->|]; [by apply (Hc (S n)); [lia|]|].
        by destruct (decide (i = S n)) as [->|]. }
    destruct (IH w1) as (fs & k & E & Hfs).
    { intros i Hi. rewrite !H1. rewrite !(decide_False (P := i = _)) by lia.
      destruct (decide (S i = S (S n))); [lia|]. destruct (decide (S i = S n)); [done|]. apply Hc. lia. }
    exists fs, k. split; [by rewrite E|]. intros i. rewrite Hfs.
    repeat (case_decide; try lia); rewrite ?H1; repeat (case_decide; try lia); try done; f_equal; f_equal; try lia.
Qed.

(** ** The texts *)

Section logger.
Context (extra : string).

Definition text_of (m : Message) : raw := to_raw (default "" (record_text extra m)).
Definition group_text (g : list Message) : raw := concat (map text_of g).

Lemma group_text_app g1 g2 : group_text (g1 ++ g2) = group_text g1 ++ group_text g2.
Proof. unfold group_text. by rewrite map_app, concat_app. Qed.

(** The files hold the groups [gs], the newest first; the messages [gone]
    before them were rotated away. *)
Record LInv (cap max : Z) (w : LogFile.world) (ns : list nat) (gs : list (list Message)) (gone : list Message) : Prop := {
  l_cap : capacity (wr w) = cap ∧ maxFiles (wr w) = max ∧ 1 ≤ max;
  l_files : ∀ i : nat, files (dk w) !! Z.of_nat i = ns !! i;
  l_nodup : NoDup ns;
  l_text : Forall2 (λ n g, inodes (dk w) !! n = Some (group_text g)) ns gs;
  l_len : len gs ≤ max ∧ (gone ≠ [] → cap ≠ -1 ∧ len gs = max);
  l_handle : ∃ n g, head ns = Some n ∧ head gs = Some g ∧ h_inode (wf (wr w)) = n ∧ h_closed (wf (wr w)) = false ∧
    (h_append (wf (wr w)) = false → h_off (wf (wr w)) = len (group_text g)) ∧
    currentSize (wr w) = len (group_text g);
  l_full : cap ≠ -1 → Forall (λ g, cap ≤ len (group_text g)) (tail gs);
  l_over : 0 < cap → Forall (λ g, ∀ g' m, g = g' ++ [m] → len (group_text g') < cap) gs;
  l_one : cap = -1 → len gs = 1;
}.

Definition logged (gs : list (list Message)) (gone : list Message) : list Message := gone ++ concat (rev gs).

(** ** Rotation *)

Lemma LInv_lengths cap max w ns gs gone : LInv cap max w ns gs gone → length ns = length gs ∧ (0 < length gs)%nat.
Proof.
  intros HI. split; [by eapply Forall2_length, l_text|].
  destruct (l_handle _ _ _ _ _ _ HI) as (n & g & _ & Hg & _). destruct gs; [done|simpl; lia].
Qed.

Lemma LInv_inode cap max w ns gs gone n : LInv cap max w ns gs gone → n ∈ ns → (n < length (inodes (dk w)))%nat.
Proof.
  intros HI Hn. apply list_elem_of_lookup in Hn as [i Hi].
  destruct (Forall2_lookup_l _ _ _ _ _ (l_text _ _ _ _ _ _ HI) Hi) as (g & _ & Hg). by eapply lookup_lt_Some.
Qed.

(** The files after the names were moved. *)
Lemma rotate_clean max w ns :
  (∀ i : nat, files (dk w) !! Z.of_nat i = ns !! i) → (0 < length ns ≤ Z.to_nat max)%nat → 2 ≤ max →
  ∃ fs k, rotate clean max w = (Ok tt, with_files w fs k) ∧ fs !! 0 = None ∧
    ∀ i : nat, fs !! Z.of_nat (S i) = take (Z.to_nat (max - 1)) ns !! i.
Proof.
  intros Hf Hlen Hmax.
  unfold rotate. rewrite (proj2 (Z.ltb_ge _ _)) by lia.
  destruct (rotate_loop_clean (Z.to_nat (max - 2)) w) as (fs & k & E & Hfs).
  { intros i _. rewrite !Hf, !lookup_ge_None. lia. }
  rewrite (lbind_ok _ _ _ _ _ E), Rename_clean. eexists _, _. split; [done|].
  pose proof (Hfs 0%nat) as H0. rewrite decide_False, decide_False in H0 by lia. rewrite Hf in H0.
  destruct (lookup_lt_is_Some_2 ns 0) as [n0 Hn0]; [lia|]. rewrite Hn0 in H0. change (Z.of_nat 0) with 0 in H0.
  unfold renamed. simpl. rewrite H0. split; [by rewrite lookup_insert_ne, lookup_delete_eq by lia|].
  intros i. destruct (decide (i = 0)%nat) as [->|Hi].
  - rewrite lookup_insert_eq. rewrite lookup_take. by rewrite decide_True by lia.
  - rewrite lookup_insert_ne, lookup_delete_ne by lia. rewrite Hfs, lookup_take.
    rewrite !Hf. repeat (case_decide; try lia).
    + f_equal. lia.
    + apply lookup_ge_None. lia.
    + apply lookup_ge_None. lia.
Qed.

Lemma Forall2_head {A B} (P : A → B → Prop) l k x : Forall2 P l k → head l = Some x → ∃ y, head k = Some y ∧ P x y.
Proof. intros [|a b l' k' Hp _]; [done|]. intros [= <-]. eauto. Qed.

Definition kept_after (max : Z) (gs : list (list Message)) : list (list Message) := take (Z.to_nat (max - 1)) gs.
Definition gone_after (max : Z) (gs : list (list Message)) (gone : list Message) : list Message :=
  gone ++ concat (rev (drop (Z.to_nat (max - 1)) gs)).

Lemma logged_rotate max gs gone : logged ([] :: kept_after max gs) (gone_after max gs gone) = logged gs gone.
Proof.
  unfold logged, kept_after, gone_after. simpl. rewrite concat_app. simpl. rewrite app_nil_r, <-app_assoc. f_equal.
  rewrite <-concat_app, <-rev_app_distr, take_drop. done.
Qed.

(** A rotation, when the file is full. *)
Lemma rotate_spec cap max w ns gs gone :
  LInv cap max w ns gs gone → cap ≠ -1 → cap ≤ currentSize (wr w) →
  ∃ w' ns', checkCapacityAndRotate clean w = (Ok tt, w') ∧
    LInv cap max w' ns' ([] :: kept_after max gs) (gone_after max gs gone) ∧ currentSize (wr w') = 0.
Proof.
  intros HI Hcap Hfull. destruct (l_cap _ _ _ _ _ _ HI) as (Ec & Em & Hmax).
  destruct (LInv_lengths _ _ _ _ _ _ HI) as [Hln Hpos]. destruct (l_len _ _ _ _ _ _ HI) as [Hlen Hgone].
  destruct (l_handle _ _ _ _ _ _ HI) as (n0 & g0 & Hn0 & Hg0 & Hin & Hop & _ & Hsize).
  pose proof (l_text _ _ _ _ _ _ HI) as Htext. pose proof (l_nodup _ _ _ _ _ _ HI) as Hnd.
  assert (len ([] :: kept_after max gs) ≤ max ∧
    (gone_after max gs gone ≠ [] → cap ≠ -1 ∧ len ([] :: kept_after max gs) = max)) as Hlen'.
  { unfold kept_after, gone_after, len in *. simpl. rewrite length_take. split; [lia|]. intros Hne. split; [done|].
    destruct (decide (length gs < Z.to_nat max)%nat) as [Hlt|]; [|lia]. destruct Hne.
    rewrite drop_ge by lia. simpl. rewrite app_nil_r. destruct (decide (gone = [])) as [|Hg]; [done|]. specialize (Hgone Hg). lia. }
  assert (Forall (λ g, cap ≤ len (group_text g)) (kept_after max gs)) as Hful.
  { apply Forall_take. destruct gs as [|g gs]; [done|]. simpl in Hg0. injection Hg0 as ->.
    constructor; [lia|]. by apply (l_full _ _ _ _ _ _ HI). }
  assert (0 < cap → Forall (λ g, ∀ g' m, g = g' ++ [m] → len (group_text g') < cap) ([] :: kept_after max gs)) as Hover.
  { intros H. constructor; [intros [|] ?; done|]. by apply Forall_take, (l_over _ _ _ _ _ _ HI). }
  unfold checkCapacityAndRotate. unfold mbind at 1, ST_bind at 1. cbn [st_gets]. rewrite Ec, Em.
  rewrite (proj2 (Z.eqb_neq _ _)) by done. rewrite (proj2 (Z.leb_le _ _)) by lia.
  set (w1 := LogFile.mkWorld (dk w) (S (calls w)) (mkWriter (mkHandle (h_inode (wf (wr w))) (h_append (wf (wr w)))
    (h_off (wf (wr w))) true) (capacity (wr w)) (currentSize (wr w)) (maxFiles (wr w)) (rotations (wr w)))).
  assert (file_Close clean w = (Ok tt, w1)) as E1.
  { unfold file_Close, mbind, ST_bind. simpl. by rewrite Hop. }
  rewrite (lbind_ok _ _ _ _ _ E1). destruct (Z.ltb_spec max 2) as [Hm|Hm].
  - (* one file only: it is truncated *)
    assert (gs = [g0]) as ->. { destruct gs as [|g [|]]; simpl in *; [lia|congruence|unfold len in Hlen; simpl in Hlen; lia]. }
    assert (ns = [n0]) as ->. { destruct ns as [|n [|]]; simpl in *; [lia|congruence|lia]. }
    assert (files (dk w) !! 0 = Some n0) as Hf0 by (apply (l_files _ _ _ _ _ _ HI 0%nat)).
    unfold rotate. rewrite (proj2 (Z.ltb_lt _ _)) by done.
    eexists _, [n0]. split; [|split; [split|]].
    + unfold OpenFile, mbind, ST_bind. simpl. rewrite Hf0. simpl. reflexivity.
    + done.
    + simpl. apply (l_files _ _ _ _ _ _ HI).
    + apply NoDup_singleton.
    + replace (kept_after max [g0]) with (@nil (list Message)) by (unfold kept_after; by replace (Z.to_nat (max - 1)) with 0%nat by lia).
      constructor; [|constructor]. simpl. apply list_lookup_insert_eq.
      apply (LInv_inode cap max w [n0] [g0] gone); [done|by left].
    + done.
    + exists n0, []. split_and!; done.
    + done.
    + done.
    + done.
    + done.
  - destruct (rotate_clean max w1 ns) as (fs & k & E2 & Hz & Hfs);
      [apply (l_files _ _ _ _ _ _ HI)|unfold len in Hlen; lia|lia|].
    rewrite (lbind_ok _ _ _ _ _ E2). eexists _, (length (inodes (dk w)) :: take (Z.to_nat (max - 1)) ns).
    split; [|split; [split|]].
    + unfold OpenFile, mbind, ST_bind. simpl. rewrite Hz. simpl. reflexivity.
    + done.
    + simpl. intros [|i]; [by rewrite lookup_insert_eq|]. rewrite lookup_insert_ne by lia. apply Hfs.
    + apply NoDup_cons. split; [|by rewrite <-(take_drop (Z.to_nat (max - 1)) ns), NoDup_app in Hnd; destruct Hnd].
      intros Hx%elem_of_take. destruct Hx as (i & Hi & _). apply list_elem_of_lookup_2 in Hi.
      pose proof (LInv_inode _ _ _ _ _ _ _ HI Hi). lia.
    + simpl. constructor; [by rewrite lookup_app_r, Nat.sub_diag by lia|].
      apply Forall2_take. eapply Forall2_impl; [exact Htext|]. simpl. intros n g H. by apply lookup_app_l_Some.
    + done.
    + eexists _, []. split_and!; done.
    + done.
    + done.
    + done.
    + done.
Qed.

(** ** Writing *)

Lemma write_at_end c d : write_at c (len c) d = c ++ d.
Proof.
  unfold write_at, len. rewrite Nat2Z.id, take_ge, Nat.sub_diag, drop_ge by lia. simpl. by rewrite app_nil_r.
Qed.

(** Bytes at the end of the newest file. *)
Lemma file_Write_spec cap max w ns g gs gone m :
  LInv cap max w ns (g :: gs) gone → (0 < cap → len (group_text g) < cap) →
  ∃ w', file_Write clean (text_of m) w = (Ok (len (text_of m), false), w') ∧
    capacity (wr w') = cap ∧ maxFiles (wr w') = max ∧
    (∀ w2, dk w2 = dk w' → wr w2 = mkWriter (wf (wr w')) cap (currentSize (wr w') + len (text_of m)) max (rotations (wr w')) →
       LInv cap max w2 ns ((g ++ [m]) :: gs) gone).
Proof.
  intros HI Hroom. destruct (l_handle _ _ _ _ _ _ HI) as (n & g' & Hn & Hg' & Hin & Hop & Hoff & Hsize).
  simpl in Hg'. injection Hg' as <-. destruct ns as [|n' ns]; [done|]. simpl in Hn. injection Hn as ->.
  pose proof (l_text _ _ _ _ _ _ HI) as Htext. inversion Htext as [|? ? ? ? Hc Hrest]; subst.
  pose proof (l_nodup _ _ _ _ _ _ HI) as Hnd. apply NoDup_cons in Hnd as [Hnn Hnd].
  set (i := h_inode (wf (wr w))) in *.
  assert (content_of (dk w) i = group_text g) as Hcont by (unfold content_of; by rewrite Hc).
  assert ((if h_append (wf (wr w)) then len (content_of (dk w) i) else h_off (wf (wr w))) = len (group_text g)) as Hat.
  { rewrite Hcont. destruct (h_append (wf (wr w))); [done|by apply Hoff]. }
  eexists. split.
  - unfold file_Write, mbind, ST_bind. simpl. rewrite Hop. simpl. fold i. rewrite Hat. reflexivity.
  - destruct (l_cap _ _ _ _ _ _ HI) as (Ec & Em & _). split; [done|]. split; [done|].
    intros w2 Hdk Hwr. simpl in Hdk, Hwr. rewrite Hcont, write_at_end in Hdk.
    assert (group_text (g ++ [m]) = group_text g ++ text_of m) as Hgt.
    { rewrite group_text_app. f_equal. unfold group_text. simpl. by rewrite app_nil_r. }
    rewrite <-Hgt in Hdk. split; rewrite ?Hdk, ?Hwr; simpl.
    + split; [done|]. split; [done|apply HI].
    + apply (l_files _ _ _ _ _ _ HI).
    + by constructor.
    + constructor; [apply list_lookup_insert_eq; by eapply lookup_lt_Some|].
      clear -Hrest Hnn. induction Hrest as [|x y xs ys Hxy Hr IH]; [constructor|]. constructor.
      * rewrite list_lookup_insert_ne; [done|]. intros <-. apply Hnn. by left.
      * apply IH. intros H. apply Hnn. by right.
    + apply (l_len _ _ _ _ _ _ HI).
    + exists i, (g ++ [m]). rewrite Hgt, len_app. split_and!; try done.
      simpl in Hsize. lia.
    + apply (l_full _ _ _ _ _ _ HI).
    + intros H. pose proof (l_over _ _ _ _ _ _ HI H) as Ho. apply Forall_cons in Ho as [_ Ho]. constructor; [|done].
      intros g' m' [-> _]%app_inj_tail. by apply Hroom.
    + apply (l_one _ _ _ _ _ _ HI).
Qed.

Lemma logged_append g gs gone m : logged ((g ++ [m]) :: gs) gone = logged (g :: gs) gone ++ [m].
Proof. unfold logged. simpl. rewrite !concat_app. simpl. rewrite !app_nil_r, !app_assoc. done. Qed.

(** A write, with the rotation before it. *)
Lemma rotating_Write_spec cap max w ns gs gone m :
  LInv cap max w ns gs gone →
  ∃ w' ns' gs' gone', Write clean (text_of m) w = (Ok (len (text_of m), false), w') ∧
    LInv cap max w' ns' gs' gone' ∧ logged gs' gone' = logged gs gone ++ [m].
Proof.
  intros HI. destruct (l_cap _ _ _ _ _ _ HI) as (Ec & Em & Hmax).
  assert (∃ w1 ns1 g1 gs1 gone1, checkCapacityAndRotate clean w = (Ok tt, w1) ∧
    LInv cap max w1 ns1 (g1 :: gs1) gone1 ∧ logged (g1 :: gs1) gone1 = logged gs gone ∧
    (0 < cap → len (group_text g1) < cap)) as (w1 & ns1 & g1 & gs1 & gone1 & E1 & HI1 & Hlog & Hroom).
  { destruct (l_handle _ _ _ _ _ _ HI) as (n & g & Hn & Hg & _ & _ & _ & Hsize).
    destruct gs as [|g0 gs]; [done|]. simpl in Hg. injection Hg as ->.
    destruct (decide (cap ≠ -1 ∧ cap ≤ currentSize (wr w))) as [[Hc Hf]|Hno].
    - destruct (rotate_spec cap max w ns _ gone HI Hc Hf) as (w1 & ns1 & E1 & HI1 & _).
      exists w1, ns1. eexists _, _, _. split_and!; [done|done|apply logged_rotate|done].
    - exists w, ns, g, gs, gone. split_and!; [|done|done|].
      + unfold checkCapacityAndRotate, mbind, ST_bind. simpl. rewrite Ec. destruct (Z.eqb_spec cap (-1)); [done|].
        destruct (Z.leb_spec cap (currentSize (wr w))); [|done]. destruct Hno. done.
      + intros Hc. rewrite <-Hsize. destruct (Z.le_gt_cases cap (currentSize (wr w))); [|lia]. destruct Hno. split; [lia|done]. }
  destruct (file_Write_spec cap max w1 ns1 g1 gs1 gone1 m HI1 Hroom) as (w2 & E2 & Hc2 & Hm2 & HI2).
  eexists _, ns1, ((g1 ++ [m]) :: gs1), gone1. split_and!.
  - unfold Write, mbind at 1, ST_bind at 1, st_try. rewrite E1. rewrite (lbind_ok _ _ _ _ _ E2). reflexivity.
  - apply HI2; [done|]. simpl. by rewrite Hc2, Hm2.
  - by rewrite logged_append, Hlog.
Qed.

Lemma text_of_some m t : record_text extra m = Some t → text_of m = to_raw t.
Proof. unfold text_of. by intros ->. Qed.

Lemma Log_spec cap max w ns gs gone m t :
  LInv cap max w ns gs gone → record_text extra m = Some t →
  ∃ w' ns' gs' gone', Log clean extra m w = (Ok false, w') ∧
    LInv cap max w' ns' gs' gone' ∧ logged gs' gone' = logged gs gone ++ [m].
Proof.
  intros HI Ht. destruct (rotating_Write_spec cap max w ns gs gone m HI) as (w' & ns' & gs' & gone' & E & HI' & Hl).
  exists w', ns', gs', gone'. split_and!; [|done|done]. unfold Log. rewrite Ht, <-(text_of_some m t Ht).
  by rewrite (lbind_ok _ _ _ _ _ E).
Qed.

(** ** Opening *)

(** The log is opened again, by the next start of the container. *)
Lemma reopen_spec cap max w ns gs gone :
  LInv cap max w ns gs gone →
  ∃ w', NewRotateFileWriter clean cap max w = (Ok tt, w') ∧ LInv cap max w' ns gs gone.
Proof.
  intros HI. destruct (l_handle _ _ _ _ _ _ HI) as (n & g & Hn & Hg & Hin & Hop & Hoff & Hsize).
  destruct ns as [|n' ns]; [done|]. simpl in Hn. injection Hn as ->. destruct gs as [|g' gs]; [done|]. simpl in Hg. injection Hg as ->.
  pose proof (l_files _ _ _ _ _ _ HI 0%nat) as H0. change (Z.of_nat 0) with 0 in H0.
  pose proof (l_text _ _ _ _ _ _ HI) as Htext. inversion Htext as [|? ? ? ? Hc Hrest]; subst.
  eexists. split.
  - unfold NewRotateFileWriter, OpenFile, mbind, ST_bind. simpl. rewrite H0. simpl. reflexivity.
  - split; simpl; try apply HI.
    + split; [done|]. split; [done|]. by destruct (l_cap _ _ _ _ _ _ HI) as (_ & _ & ?).
    + eexists _, g. split_and!; try done. unfold content_of. by rewrite Hc.
Qed.

Definition empty_disk : disk := mkDisk ∅ [].

(** The first start. *)
Lemma first_open_spec cap max w :
  dk w = empty_disk → 1 ≤ max →
  ∃ w', NewRotateFileWriter clean cap max w = (Ok tt, w') ∧ LInv cap max w' [0%nat] [[]] [].
Proof.
  intros Hd Hm. destruct w as [d c h]. simpl in Hd. subst d. eexists. split; [reflexivity|]. split; simpl.
  - done.
  - intros [|i]; [done|]. rewrite lookup_insert_ne by lia. rewrite lookup_empty. by destruct i.
  - apply NoDup_singleton.
  - by repeat constructor.
  - split; [done|]. by intros [].
  - by exists 0%nat, [].
  - by intros _.
  - intros _. constructor; [|done]. by intros [|].
  - done.
Qed.

(** ** What is on disk *)

Lemma open_rotated_spec (d : disk) ns k : ∀ i,
  (∀ j : nat, files d !! Z.of_nat j = ns !! j) →
  ∃ k', open_rotated (λ _, d) (λ _, false) i k = (rev (take i (tail ns)), k', true).
Proof.
  revert k. intros k i Hf. revert k. induction i as [|i IH]; intros k; [by exists k|]. cbn [open_rotated].
  rewrite Hf. destruct (IH (S k)) as (k' & E). rewrite E. exists k'.
  destruct (ns !! S i) as [n|] eqn:En.
  - assert (tail ns !! i = Some n) as Ht by (by destruct ns). rewrite (take_S_r _ _ _ Ht), rev_app_distr. done.
  - assert (tail ns !! i = None) as Ht by (by destruct ns).
    apply lookup_ge_None in Ht. by rewrite !take_ge by lia.
Qed.

(** All files, oldest first, hold what is left of the log. *)
Lemma disk_text cap max w ns gs gone :
  LInv cap max w ns gs gone →
  concat (map (content_of (dk w)) (rev ns)) = group_text (concat (rev gs)).
Proof.
  intros HI. pose proof (l_text _ _ _ _ _ _ HI) as Htext. clear HI.
  induction Htext as [|n g ns gs Hn _ IH]; [done|]. simpl. rewrite map_app, !concat_app, IH, group_text_app. simpl.
  f_equal. rewrite !app_nil_r. unfold content_of. by rewrite Hn.
Qed.

(** ** Records are lines *)

Definition no_nl (s : string) : Prop := ContainsByte eol s = false.

Lemma no_nl_app s t : no_nl (s +:+ t) ↔ no_nl s ∧ no_nl t.
Proof. unfold no_nl. rewrite ContainsByte_app, orb_false_iff. done. Qed.

Lemma no_nl_cons a s : a ≠ eol → no_nl s → no_nl (String a s).
Proof. intros Ha Hs. unfold no_nl in *. simpl. by destruct (ascii_dec a eol). Qed.

Lemma high_byte n : (0x80 ≤ n < 256)%N → byte_of n ≠ eol.
Proof. intros H E. apply (f_equal byte_val) in E. rewrite byte_val_of in E by lia. change (byte_val eol) with 10%N in E. lia. Qed.

Lemma EncodeRune_no_nl c : (0x80 ≤ c)%N → valid_rune c = true → no_nl (EncodeRune c).
Proof.
  intros Hc Hv. assert (c ≤ 0x10FFFF)%N as Hmax.
  { unfold valid_rune in Hv. rewrite orb_true_iff, andb_true_iff, !N.ltb_lt, N.leb_le in Hv. lia. }
  unfold EncodeRune. rewrite Hv, (proj2 (N.ltb_ge _ _)) by done.
  assert (∀ x, (x mod 64 < 64)%N) as Hmod by (intros; apply N.mod_lt; lia).
  assert (c / 262144 < 8)%N by (apply N.Div0.div_lt_upper_bound; lia).
  assert (∀ h b x, 0x80 ≤ h → h + b ≤ 256 → x < b → 0x80 ≤ h + x < 256)%N as Hsum by (intros; lia).
  destruct (N.ltb_spec c 0x800); [|destruct (N.ltb_spec c 0x10000)]; repeat apply no_nl_cons; try done; apply high_byte;
    first [apply (Hsum _ 64%N); [done|done|apply Hmod]
          |apply (Hsum _ 32%N); [done|done|apply N.Div0.div_lt_upper_bound; lia]
          |apply (Hsum _ 16%N); [done|done|apply N.Div0.div_lt_upper_bound; lia]
          |apply (Hsum _ 8%N); done].
Qed.

Lemma hex_digit_no_nl n rest : (n < 16)%N → no_nl rest → no_nl (String (hex_digit n) rest).
Proof.
  intros Hn Hr. apply no_nl_cons; [|done]. unfold hex_digit. intros E%(f_equal byte_val).
  destruct (N.ltb_spec n 10); rewrite byte_val_of in E by lia; change (byte_val eol) with 10%N in E; lia.
Qed.

Lemma escape_rune_no_nl c bad : valid_rune c = true → no_nl (escape_rune c bad).
Proof.
  intros Hv. unfold escape_rune. destruct (N.ltb_spec c 0x80) as [Hc|Hc].
  - destruct (plain c) eqn:Hp.
    + apply no_nl_cons; [|done]. intros E%(f_equal byte_val). rewrite byte_val_of in E by lia.
      change (byte_val eol) with 10%N in E. by subst c.
    + unfold escape_byte. assert (c / 16 < 16)%N by (apply N.Div0.div_lt_upper_bound; lia).
      assert (c mod 16 < 16)%N by (apply N.mod_lt; lia).
      destruct (N.eqb_spec c 92) as [->|]; [done|]. destruct (N.eqb_spec c 34) as [->|]; [done|]. simpl orb. cbv iota.
      destruct (c =? 10)%N; [done|]. destruct (c =? 13)%N; [done|].
      apply no_nl_cons; [done|]. apply no_nl_app. split; [done|]. by repeat apply hex_digit_no_nl.
  - destruct bad; [done|]. destruct (N.eqb_spec c 0x2028) as [->|]; [done|]. destruct (N.eqb_spec c 0x2029) as [->|]; [done|].
    simpl. by apply EncodeRune_no_nl.
Qed.

Lemma escape_no_nl n : ∀ s, no_nl (escape n s).
Proof.
  induction n as [|n IH]; intros s; [done|]. simpl. destruct (DecodeRune s) as [[c s']|] eqn:E; [|done].
  apply no_nl_app. split; [|apply IH]. apply escape_rune_no_nl. by eapply DecodeRune_valid.
Qed.

Lemma json_text_no_nl s : no_nl (json_text s).
Proof. unfold json_text, quoted. apply no_nl_cons; [done|]. apply no_nl_app. split; [apply escape_no_nl|done]. Qed.

Lemma members_no_nl ms : Forall (λ m : string * string, no_nl m.2) ms → no_nl (members_text ms).
Proof.
  induction ms as [|[k t] ms IH]; intros Hall; [done|]. apply Forall_cons in Hall as [Ht Hall]. simpl in Ht.
  pose proof (json_text_no_nl k). cbn [members_text]. destruct ms; rewrite !no_nl_app; split_and!; try done.
  by apply IH.
Qed.

Lemma all_plain_no_nl s : all_plain s = true → no_nl s.
Proof.
  induction s as [|a s IH]; [done|]. simpl. intros [[_ Hp]%andb_prop Hs]%andb_prop. apply no_nl_cons; [|by apply IH].
  intros ->. by vm_compute in Hp.
Qed.

(** The line of a message. *)
Definition line_of (m : Message) : string :=
  MarshalJSONBuf (mkLogs (Line m +:+ newline) (Source m) (quoted (format_time (Timestamp m))) extra) "".

Lemma text_of_line m : valid_time (Timestamp m) → record_text extra m = Some (line_of m +:+ newline).
Proof.
  intros (Hy & _). unfold record_text, FastTimeMarshalJSON.
  rewrite (proj2 (Z.ltb_ge _ _)), (proj2 (Z.leb_gt _ _)) by lia. done.
Qed.

Context (Hextra : no_nl extra).

Lemma line_no_nl m : valid_time (Timestamp m) → no_nl (line_of m).
Proof.
  intros Ht. assert (zone (Timestamp m) = 0) as Hz by (by destruct Ht as (_ & _ & _ & _ & _ & _ & _ & ?)).
  unfold line_of. rewrite MarshalJSONBuf_text. rewrite !no_nl_app. split_and!; try done.
  apply members_no_nl. unfold fields, opt_field.
  assert (no_nl (quoted (format_time (Timestamp m)))) as Hq.
  { unfold quoted. apply no_nl_cons; [done|]. apply no_nl_app. split; [|done]. by apply all_plain_no_nl, format_time_plain. }
  repeat apply Forall_app_2; repeat case_match; repeat constructor; simpl; auto using json_text_no_nl.
Qed.

(** ** Bytes and strings *)

Lemma to_raw_app s t : to_raw (s +:+ t) = to_raw s ++ to_raw t.
Proof. unfold to_raw. induction s as [|a s IH]; [done|]. rewrite app_cons_str. simpl. by rewrite IH. Qed.
Lemma of_raw_app a b : of_raw (a ++ b) = of_raw a +:+ of_raw b.
Proof. unfold of_raw. induction a as [|x a IH]; [done|]. simpl. by rewrite app_cons_str, IH. Qed.
Lemma of_to_raw s : of_raw (to_raw s) = s.
Proof. apply String.string_of_list_ascii_of_string. Qed.

Lemma Split_line l rest : no_nl l → Split (to_raw l ++ eol :: rest) = to_raw l :: Split rest.
Proof.
  intros Hl. induction l as [|a l IH]; simpl; [done|]. unfold no_nl in Hl. simpl in Hl.
  destruct (ascii_dec a eol) as [|Hne]; [done|]. destruct (decide (a = eol)); [done|]. by rewrite IH.
Qed.

Definition valid_msgs (ms : list Message) : Prop := Forall (λ m, valid_time (Timestamp m)) ms.

Lemma text_of_valid m : valid_time (Timestamp m) → text_of m = to_raw (line_of m) ++ [eol].
Proof. intros Ht. rewrite (text_of_some m _ (text_of_line m Ht)). by rewrite to_raw_app. Qed.

Lemma Split_group ms : valid_msgs ms → Split (group_text ms) = map (to_raw ∘ line_of) ms ++ [[]].
Proof.
  induction 1 as [|m ms Hm _ IH]; [done|]. unfold group_text in *. simpl. rewrite (text_of_valid m Hm), <-app_assoc. simpl.
  by rewrite Split_line, IH by (by apply line_no_nl).
Qed.

Lemma complete_lines_group ms : valid_msgs ms → complete_lines (group_text ms) = map (to_raw ∘ line_of) ms.
Proof.
  intros H. unfold complete_lines. rewrite (Split_group ms H), length_app. simpl.
  rewrite Nat.add_sub, take_app_length'; [done|]. by rewrite length_map.
Qed.

(** ** Decoding *)

(** A text of the records of [ms], with line feeds between them. *)
Inductive log_text : list Message → string → Prop :=
| log_text_nil sp : separator sp → log_text [] sp
| log_text_cons sp m ms s : separator sp → log_text ms s → log_text (m :: ms) (sp +:+ line_of m +:+ s).

Lemma log_text_group ms sp : valid_msgs ms → separator sp → log_text ms (of_raw (to_raw sp ++ group_text ms)) ∨ ms = [].
Proof.
  intros Hv. revert sp. induction Hv as [|m ms Hm _ IH]; intros sp Hsp; [by right|left].
  unfold group_text. simpl. rewrite (text_of_valid m Hm), !of_raw_app, !of_to_raw, app_assoc_str. constructor; [done|].
  destruct ms as [|m' ms].
  - constructor. by right.
  - destruct (IH newline) as [H|H]; [by right| |done]. by rewrite of_raw_app in H.
Qed.

Lemma log_text_Join ms : log_text ms (of_raw (Join (map (to_raw ∘ line_of) ms))).
Proof.
  destruct ms as [|m ms]; [constructor; by left|]. simpl. rewrite of_raw_app, of_to_raw.
  apply (log_text_cons ""); [by left|]. induction ms as [|m' ms IH]; [constructor; by left|]. simpl.
  change (of_raw (eol :: ?x)) with (newline +:+ of_raw x). rewrite of_raw_app, of_to_raw.
  by apply (log_text_cons newline); [right|].
Qed.

Context (fo : string → bool) (shown_extra : gmap string string) (Hattrs : attrs_text fo extra shown_extra).

(** What a reader sees of a message. *)
Definition shown (m : Message) : Message :=
  mkMessage (sanitize (Line m +:+ newline)) (sanitize (Source m)) (Timestamp m).

Definition wanted (since : time) (m : Message) : bool := IsZero since || negb (Before (Timestamp m) since).

Lemma Decode_line sp m l rest :
  separator sp → valid_time (Timestamp m) →
  Decode_log fo (JsonLog.Reset l) (sp +:+ line_of m +:+ rest) =
  DRecord (mkLog (sanitize (Line m +:+ newline)) (sanitize (Source m)) (Timestamp m) (shown_extra ∪ attrs l)) rest.
Proof. intros Hsp Hm. by apply Decode_MarshalJSONBuf. Qed.

Lemma read_loop_spec ms s : log_text ms s → valid_msgs ms → ∀ since fuel l,
  (length ms < fuel)%nat →
  read_loop fo fuel l s since =
  (map shown (List.filter (wanted since) ms), (if decide (ms = []) then ∅ else shown_extra) ∪ attrs l, true).
Proof.
  induction 1 as [sp Hsp|sp m ms s Hsp _ IH]; intros Hv since fuel l Hf; (destruct fuel as [|fuel]; [simpl in Hf; lia|]);
    cbn [read_loop].
  - assert (Decode_log fo (JsonLog.Reset l) sp = DEOF) as -> by (by destruct Hsp as [->| ->]).
    simpl. by rewrite map_empty_union.
  - apply Forall_cons in Hv as [Hm Hv]. rewrite Decode_line by done. rewrite IH by (done || simpl in Hf; lia). cbn [attrs created log stream].
    assert ((if decide (ms = []) then ∅ else shown_extra) ∪ (shown_extra ∪ attrs l) = shown_extra ∪ attrs l) as ->.
    { destruct (decide (ms = [])); [apply map_empty_union|]. by rewrite (assoc_L (∪)), (idemp_L (∪)). }
    assert (wanted since m = negb (negb (IsZero since) && Before (Timestamp m) since)) as Hw.
    { unfold wanted. by destruct (IsZero since), (Before (Timestamp m) since). }
    simpl. rewrite Hw. by destruct (negb (IsZero since) && Before (Timestamp m) since).
Qed.

(** ** Reading *)

Lemma log_text_length ms s : log_text ms s → (length ms ≤ String.length s)%nat.
Proof.
  induction 1 as [|sp m ms s _ _ IH]; simpl; [lia|]. rewrite !length_app_str.
  assert (1 ≤ String.length (line_of m))%nat; [|lia]. unfold line_of. rewrite MarshalJSONBuf_text, !length_app_str. simpl. lia.
Qed.

Lemma of_raw_length b : String.length (of_raw b) = length b.
Proof. unfold of_raw. induction b as [|a b IH]; [done|]. simpl. by rewrite IH. Qed.

Lemma read_all_view r D : view r D 0 → read_all r = D.
Proof.
  intros Hv. pose proof Hv as (Hc & _ & _). unfold read_all. rewrite Hc.
  destruct (Read_view r D 0 (len D + 1) Hv) as (r' & E & _); [pose proof (len_nonneg D); lia|].
  assert (chunk D 0 (len D + 1) = D) as HD by (unfold chunk, len; rewrite drop_0; apply take_ge; lia).
  rewrite E, HD. destruct (Z.eqb_spec (len D) 0) as [H0|]; [|done]. apply len_nil_iff in H0. by rewrite H0.
Qed.

(** The messages that are asked for. *)
Definition selected (config : ReadConfig) (ms : list Message) : list Message :=
  if Tail config =? 0 then []
  else List.filter (wanted (Since config)) (if 0 <? Tail config then last_n (Z.to_nat (Tail config)) ms else ms).

Lemma last_n_map {A B} (f : A → B) n l : last_n n (map f l) = map f (last_n n l).
Proof. unfold last_n. by rewrite length_map, skipn_map. Qed.

Lemma last_n_valid n ms : valid_msgs ms → valid_msgs (last_n n ms).
Proof. apply Forall_drop. Qed.

Lemma tailFile_spec ds ms tail since :
  ds ≠ [] → concat ds = group_text ms → valid_msgs ms →
  ∃ a, tailFile fo (MultiReadSeeker (opened ds)) tail since =
    (map shown (List.filter (wanted since) (if 0 <? tail then last_n (Z.to_nat tail) ms else ms)), a, true).
Proof.
  intros Hne Hd Hv. pose proof (opened_view ds Hne) as Hview. rewrite Hd in Hview. unfold tailFile.
  destruct (Z.ltb_spec 0 tail) as [Ht|Ht].
  - destruct (TailFile_lines _ _ _ tail Hview Ht) as (r' & p' & E & _). rewrite E.
    rewrite (complete_lines_group ms Hv), last_n_map.
    pose proof (log_text_Join (last_n (Z.to_nat tail) ms)) as Htext. pose proof (log_text_length _ _ Htext) as Hlen.
    rewrite of_raw_length in Hlen. eexists. apply read_loop_spec; [done|by apply last_n_valid|lia].
  - rewrite (read_all_view _ _ Hview). destruct (log_text_group ms "" Hv) as [Htext| ->]; [by left| |by eexists].
    change (to_raw "" ++ group_text ms) with (group_text ms) in Htext. pose proof (log_text_length _ _ Htext) as Hlen.
    rewrite of_raw_length in Hlen. eexists. apply read_loop_spec; [done|done|lia].
Qed.

(** Reading while nothing is written shows what is on disk. *)
Lemma readLogs_spec cap max w ns gs gone config :
  LInv cap max w ns gs gone → valid_msgs (concat (rev gs)) →
  ∃ a, readLogs fo (λ _, dk w) (λ _, false) (dk w) max config = (map shown (selected config (concat (rev gs))), a, true).
Proof.
  intros HI Hv. destruct (l_cap _ _ _ _ _ _ HI) as (_ & _ & Hmax). destruct (LInv_lengths _ _ _ _ _ _ HI) as [Hln Hpos].
  destruct (l_len _ _ _ _ _ _ HI) as [Hlen _]. pose proof (l_files _ _ _ _ _ _ HI) as Hf.
  destruct (open_rotated_spec (dk w) ns 0 (Z.to_nat (max - 1)) Hf) as (k & E). unfold readLogs. rewrite E.
  pose proof (Hf 0%nat) as H0. change (Z.of_nat 0) with 0 in H0. rewrite H0.
  destruct ns as [|n0 ns]; [simpl in *; lia|]. simpl lookup. cbv iota. cbn [tail]. unfold selected.
  rewrite take_ge by (unfold len in Hlen; simpl in Hln; lia).
  destruct (Z.eqb_spec (Tail config) 0); [by eexists|].
  destruct (tailFile_spec (map (content_of (dk w)) (rev ns ++ [n0])) (concat (rev gs)) (Tail config) (Since config)) as (a & Et);
    [by destruct (rev ns)|by apply (disk_text cap max w (n0 :: ns) gs gone)|done|].
  rewrite Et. by eexists.
Qed.
End logger.

(** ** The attributes *)

Lemma decode_attrs_union kvs : ∀ m m', decode_attrs kvs ∅ = Some m → decode_attrs kvs m' = Some (m ∪ m').
Proof.
  assert (∀ kvs m1 m', match decode_attrs kvs m1 with Some m => decode_attrs kvs (m1 ∪ m') = Some (m ∪ m') | None => True end) as Hgen.
  { induction kvs0 as [|[k v] kvs0 IH]; intros m1 m'; simpl; [done|]. destruct (decode_string v "") as [s|]; simpl; [|done].
    specialize (IH (<[k:=s]> m1) m'). by rewrite <-insert_union_l in IH. }
  intros m m' E. specialize (Hgen kvs ∅ m'). rewrite E, map_empty_union in Hgen. done.
Qed.

Definition shown_pairs (m : gmap string string) : list (string * value) :=
  map (λ p, (sanitize p.1, JString (sanitize p.2))) (sorted_pairs m).

Definition shown_attrs (m : gmap string string) : gmap string string := default ∅ (decode_attrs (shown_pairs m) ∅).

Lemma decode_strings l : ∀ m, is_Some (decode_attrs (map (λ p : string * string, (sanitize p.1, JString (sanitize p.2))) l) m).
Proof. induction l as [|p l IH]; intros m; simpl; eauto. Qed.

Lemma sorted_pairs_nil m : sorted_pairs m = [] → m = ∅.
Proof.
  unfold sorted_pairs. intros E. apply map_to_list_empty_iff, Permutation_nil.
  rewrite <-E. apply merge_sort_Permutation.
Qed.

Lemma extra_text_ok fo ctx : attrs_text fo (extra_text ctx) (shown_attrs (ExtraAttributes ctx)).
Proof.
  unfold extra_text. case_bool_decide as Hm; [left; by rewrite Hm|right].
  split; [done|]. exists (shown_pairs (ExtraAttributes ctx)). split.
  - apply object_text.
    + intros E%map_eq_nil%sorted_pairs_nil. done.
    + unfold shown_pairs. apply Forall2_fmap, Forall_Forall2_diag, Forall_true. intros p. split; [done|apply string_text].
  - intros m. apply decode_attrs_union. unfold shown_attrs.
    destruct (decode_strings (sorted_pairs (ExtraAttributes ctx)) ∅) as [x Hx]. unfold shown_pairs. by rewrite Hx.
Qed.

Lemma extra_text_no_nl ctx : no_nl (extra_text ctx).
Proof.
  unfold extra_text. case_bool_decide; [done|]. unfold Marshal. rewrite !no_nl_app. split_and!; [done| |done].
  apply members_no_nl, Forall_map, Forall_true. intros p. apply json_text_no_nl.
Qed.
