(* ===== verification/LogSafety.v ===== *)
(** * From what a container prints to docker logs

    The copies of the streams of a container, in any interleaving, into a log;
    and the theorems about the log driver as a whole. *)

From S2P Require Import Prelude BytesPipe BytesPipeSpec GoStrings Json JsonLog TailFile LogFile LogFileSpec.
Open Scope Z_scope.

(** ** Lines *)

Lemma Cut_some c s l r : Cut c s = (l, Some r) → s = l +:+ String c r ∧ ContainsByte c l = false.
Proof.
  revert l. induction s as [|a s IH]; intros l; simpl; [done|]. destruct (ascii_dec a c) as [->|Hne].
  - by intros [= <- <-].
  - destruct (Cut c s) as [l' o] eqn:E. intros [= <- ->]. destruct (IH l' eq_refl) as [-> Hl].
    split; [done|]. simpl. by destruct (ascii_dec a c).
Qed.

(** The lines that are logged of a stream: a last one without a line feed
    counts unless it is empty. *)
Fixpoint lines_of (ps : list string) : list string :=
  match ps with
  | [] => []
  | [l] => if nonempty l then [l] else []
  | l :: ps' => l :: lines_of ps'
  end.
Definition printed (s : string) : list string := lines_of (GoStrings.Split eol s).

Lemma Split_some c s : GoStrings.Split c s ≠ [].
Proof. destruct s as [|a s]; simpl; [done|]. by repeat case_match. Qed.

(** The messages of a turn. *)
Definition turn_msgs (now : time) (s : src) : list Message :=
  let '(line, ended, _) := ReadBytes (unread_ s) in
  if negb ended || nonempty line then [mkMessage line (name s) now] else [].

Definition turn_rest (s : src) : option src :=
  let '(_, ended, rest) := ReadBytes (unread_ s) in if ended then None else Some (mkSrc (name s) rest (broken s)).

Definition left_of (o : option src) : list string := match o with Some s => printed (unread_ s) | None => [] end.

Lemma turn_printed now s : printed (unread_ s) = map Line (turn_msgs now s) ++ left_of (turn_rest s).
Proof.
  unfold turn_msgs, turn_rest, ReadBytes. destruct (Cut eol (unread_ s)) as [l [r|]] eqn:E.
  - destruct (Cut_some _ _ _ _ E) as [-> Hl]. simpl. unfold printed. rewrite Split_app by done. simpl.
    pose proof (Split_some eol r). by destruct (GoStrings.Split eol r).
  - pose proof (Cut_none_inv _ _ _ E) as ->. unfold printed. rewrite Split_none.
    + simpl. by destruct (nonempty (unread_ s)).
    + destruct (ContainsByte eol (unread_ s)) eqn:Ec; [|done]. exfalso. clear -E Ec. revert E Ec.
      generalize (unread_ s). intros u. induction u as [|a u IH]; simpl; [done|]. destruct (ascii_dec a eol); [done|].
      destruct (Cut eol u) as [l [|]] eqn:Eu; [done|]. intros [= ->]. by apply IH.
Qed.

(** Line feeds are never part of another character. *)
Lemma DecodeRune_newline a r a' b :
  DecodeRune a = Some (r, a') → DecodeRune (a +:+ String eol b) = Some (r, a' +:+ String eol b).
Proof.
  assert (∀ lo hi, (0x80 ≤ lo)%N → in_range lo hi (byte_val eol) = false) as Hnl.
  { intros lo hi H. unfold in_range. change (byte_val eol) with 10%N. by rewrite (proj2 (N.leb_gt _ _)) by lia. }
  assert (∀ x, 0x80 ≤ accept_lo x)%N as Hacc by (intros x; unfold accept_lo; repeat case_match; lia).
  destruct a as [|a0 s1]; [done|]. rewrite app_cons_str. unfold DecodeRune.
  destruct (byte_val a0 <? 0x80)%N; [by intros [= <- <-]|].
  destruct (in_range 0xC2 0xDF (byte_val a0)); [|destruct (in_range 0xE0 0xEF (byte_val a0)); [|
    destruct (in_range 0xF0 0xF4 (byte_val a0)); [|by intros [= <- <-]]]].
  - destruct s1 as [|a1 s2]; [|rewrite app_cons_str; case_match; by intros [= <- <-]].
    intros [= <- <-]. rewrite app_empty_str. by rewrite Hnl by lia.
  - destruct s1 as [|a1 [|a2 s3]].
    + intros [= <- <-]. rewrite app_empty_str. destruct b as [|b0 b]; [done|]. by rewrite Hnl by apply Hacc.
    + intros [= <- <-]. rewrite app_cons_str, app_empty_str. by rewrite (Hnl 0x80 0xBF)%N, andb_false_r by lia.
    + rewrite !app_cons_str. case_match; by intros [= <- <-].
  - destruct s1 as [|a1 [|a2 [|a3 s4]]].
    + intros [= <- <-]. rewrite app_empty_str. destruct b as [|b0 [|b1 b]]; [done|done|]. by rewrite Hnl by apply Hacc.
    + intros [= <- <-]. rewrite app_cons_str, app_empty_str. destruct b as [|b0 b]; [done|].
      by rewrite (Hnl 0x80 0xBF)%N, andb_false_r by lia.
    + intros [= <- <-]. rewrite !app_cons_str, app_empty_str. by rewrite (Hnl 0x80 0xBF)%N, andb_false_r by lia.
    + rewrite !app_cons_str. case_match; by intros [= <- <-].
Qed.

Lemma sanitize_newline n : ∀ a b, (String.length a ≤ n)%nat →
  sanitize (a +:+ String eol b) = sanitize a +:+ String eol (sanitize b).
Proof.
  induction n as [|n IH]; intros a b Hn;
    (destruct (DecodeRune a) as [[r a']|] eqn:E; [|destruct a as [|x a]; [|destruct (DecodeRune_nonempty (String x a)) as (?&?&?); [done|congruence]]]).
  - pose proof (DecodeRune_shorter a r a' E). lia.
  - done.
  - pose proof (DecodeRune_shorter a r a' E). unfold sanitize in *.
    rewrite (runes_decode _ _ _ (DecodeRune_newline a r a' b E)), (runes_decode a r a' E). simpl.
    rewrite IH by lia. by rewrite app_assoc_str.
  - done.
Qed.

(** A text that ends with a line feed, unless it is empty. *)
Fixpoint terminated (s : string) : string :=
  match s with
  | "" => ""
  | String a "" => if ascii_dec a eol then s else String a newline
  | String a s' => String a (terminated s')
  end.

Lemma terminated_app l r : r ≠ "" → terminated (l +:+ r) = l +:+ terminated r.
Proof.
  intros Hr. induction l as [|a l IH]; [done|]. rewrite !app_cons_str, <-IH. simpl.
  destruct (l +:+ r) eqn:E; [|done]. by destruct l.
Qed.

Lemma terminated_newline l r : terminated (l +:+ String eol r) = l +:+ String eol (terminated r).
Proof. rewrite terminated_app by done. f_equal. simpl. by destruct r. Qed.

Lemma terminated_last l : ContainsByte eol l = false → l ≠ "" → terminated l = l +:+ newline.
Proof.
  induction l as [|a l IH]; [done|]. simpl. destruct (ascii_dec a eol); [done|]. intros Hl _.
  destruct l as [|b l]; [done|]. rewrite IH by done. done.
Qed.

Definition concat_str (l : list string) : string := foldr (λ a b, a +:+ b) "" l.

(** The lines as they are shown make up the text. *)
Lemma printed_text n : ∀ s, (String.length s ≤ n)%nat →
  concat_str (map (λ l, sanitize (l +:+ newline)) (printed s)) = sanitize (terminated s).
Proof.
  induction n as [|n IH]; intros s Hn; [by destruct s; [|simpl in Hn; lia]|].
  assert (∀ l, sanitize (l +:+ newline) = sanitize l +:+ newline) as Hline.
  { intros l. by apply (sanitize_newline (String.length l) l ""). }
  destruct (Cut eol s) as [l [r|]] eqn:E.
  - destruct (Cut_some _ _ _ _ E) as [-> Hl]. unfold printed. rewrite Split_app by done.
    assert (lines_of (l :: GoStrings.Split eol r) = l :: printed r) as ->.
    { unfold printed. simpl. pose proof (Split_some eol r). by destruct (GoStrings.Split eol r). }
    rewrite terminated_newline, (sanitize_newline (String.length l)) by done. simpl. rewrite Hline.
    rewrite length_app_str in Hn. simpl in Hn. rewrite IH by lia. by rewrite app_assoc_str.
  - assert (ContainsByte eol s = false) as Hs.
    { destruct (ContainsByte eol s) eqn:Ec; [|done]. exfalso. clear -E Ec. revert l E Ec.
      induction s as [|a s IH]; simpl; [done|]. intros l. destruct (ascii_dec a eol); [done|].
      destruct (Cut eol s) as [l' [|]] eqn:Eu; [done|]. intros _. by apply (IH l'). }
    unfold printed. rewrite Split_none by done. simpl. unfold nonempty. case_bool_decide as Hz; simpl; [by subst|].
    rewrite app_nil_str. by rewrite terminated_last.
Qed.

(** ** Runs of a copier *)

Section copier.
Context (extra : string).

(** [copies w js ms w' js']: the turns of the copies [js], one after the other
    in some order, at some times, as long as the copier is not closed. *)
Inductive copies (w : LogFile.world) (js : list (option src)) :
    list Message → LogFile.world → list (option src) → Prop :=
| copies_nil : copies w js [] w js
| copies_turn ms w1 js1 i s now o w2 :
    copies w js ms w1 js1 → js1 !! i = Some (Some s) → valid_time now →
    copy_turn clean extra now s w1 = (Ok o, w2) →
    copies w js (ms ++ turn_msgs now s) w2 (<[i := o]> js1).

(** The messages of one stream. *)
Definition from (n : string) (ms : list Message) : list Message := List.filter (λ m, bool_decide (Source m = n)) ms.

Lemma from_app n ms1 ms2 : from n (ms1 ++ ms2) = from n ms1 ++ from n ms2.
Proof. apply List.filter_app. Qed.

Lemma turn_msgs_name now s : Forall (λ m, Source m = name s ∧ Timestamp m = now) (turn_msgs now s).
Proof. unfold turn_msgs. repeat case_match; repeat constructor. Qed.

Lemma from_turn now s n : from n (turn_msgs now s) = if bool_decide (name s = n) then turn_msgs now s else [].
Proof.
  pose proof (turn_msgs_name now s) as H. unfold from. case_bool_decide as Hn.
  - induction H as [|m ms [Hm _] _ IH]; simpl; [done|]. rewrite bool_decide_true by congruence. by rewrite IH.
  - induction H as [|m ms [Hm _] _ IH]; simpl; [done|]. by rewrite bool_decide_false by congruence.
Qed.

Lemma copy_turn_clean cap max w ns gs gone now s :
  LInv extra cap max w ns gs gone → valid_time now →
  ∃ w' ns' gs' gone', copy_turn clean extra now s w = (Ok (turn_rest s), w') ∧
    LInv extra cap max w' ns' gs' gone' ∧ logged gs' gone' = logged gs gone ++ turn_msgs now s.
Proof.
  intros HI Hnow. unfold copy_turn, turn_rest, turn_msgs. destruct (ReadBytes (unread_ s)) as [[line ended] rest].
  destruct (negb ended || nonempty line).
  - destruct (Log_spec extra cap max w ns gs gone (mkMessage line (name s) now) _ HI
      (text_of_line extra (mkMessage line (name s) now) Hnow))
      as (w' & ns' & gs' & gone' & E & HI' & Hl).
    exists w', ns', gs', gone'. split_and!; [|done|done]. by rewrite (lbind_ok _ _ _ _ _ E).
  - exists w, ns, gs, gone. split_and!; [done|done|by rewrite app_nil_r].
Qed.

(** The streams that are being copied: names do not change. *)
Definition job_name (s0 : src) (o : option src) : Prop := match o with Some s => name s = name s0 | None => True end.

Lemma copies_inv cap max w js ms w' js' gone ns gs (srcs : list src) :
  LInv extra cap max w ns gs gone → js = map Some srcs → NoDup (map name srcs) →
  copies w js ms w' js' →
  (∃ ns' gs' gone', LInv extra cap max w' ns' gs' gone' ∧ logged gs' gone' = logged gs gone ++ ms) ∧
  valid_msgs ms ∧ Forall2 job_name srcs js' ∧
  ∀ i s0, srcs !! i = Some s0 → ∃ o, js' !! i = Some o ∧
    printed (unread_ s0) = map Line (from (name s0) ms) ++ left_of o.
Proof.
  intros HI -> Hnd Hc. induction Hc as [|ms w1 js1 i s now o w2 _ IH Hi Hnow Ht].
  - split_and!; [exists ns, gs, gone; split; [done|by rewrite app_nil_r]|constructor| |].
    + clear. induction srcs as [|s srcs IH]; [constructor|]. simpl. by constructor.
    + intros i s0 Hi. exists (Some s0). rewrite list_lookup_fmap, Hi. done.
  - destruct IH as ((ns1 & gs1 & gone1 & HI1 & Hl1) & Hv & Hnames & Hp).
    destruct (copy_turn_clean cap max w1 ns1 gs1 gone1 now s HI1 Hnow) as (w3 & ns2 & gs2 & gone2 & E & HI2 & Hl2).
    rewrite Ht in E. injection E as -> ->. destruct (Forall2_lookup_r _ _ _ _ _ Hnames Hi) as (si & Hsi & Hname). simpl in Hname.
    split_and!.
    + exists ns2, gs2, gone2. split; [done|]. by rewrite Hl2, Hl1, app_assoc.
    + apply Forall_app_2; [done|]. eapply Forall_impl; [apply turn_msgs_name|]. simpl. by intros m [_ ->].
    + rewrite <-(list_insert_id srcs i si Hsi). apply Forall2_insert; [done|]. unfold turn_rest.
      destruct (ReadBytes (unread_ s)) as [[? []] ?]; done.
    + intros j s0 Hj. destruct (Hp j s0 Hj) as (oj & Hoj & Hpj). rewrite from_app, from_turn, map_app.
      destruct (decide (j = i)) as [->|Hne].
      * assert (s0 = si) as -> by congruence. exists (turn_rest s).
        rewrite list_lookup_insert_eq by (by eapply lookup_lt_Some). split; [done|]. rewrite bool_decide_true by done.
        assert (oj = Some s) as -> by congruence. rewrite Hpj, <-app_assoc. f_equal. apply turn_printed.
      * exists oj. rewrite list_lookup_insert_ne by congruence. split; [done|]. rewrite bool_decide_false, app_nil_r; [done|].
        intros Heq. apply Hne. apply (NoDup_lookup _ _ _ (name s0) Hnd); rewrite list_lookup_fmap; [by rewrite Hj|].
        rewrite Hsi. simpl. congruence.
Qed.
End copier.

(** ** Theorems *)

Inductive lev := LMsg (m : Message) | LRestart.

Definition msgs_of (es : list lev) : list Message :=
  concat (map (λ e, match e with LMsg m => [m] | LRestart => [] end) es).

(** The log is written to, and opened again at every start of the container. *)
Fixpoint run_log (FromHumanSize : string → option Z) (ctx : Context) (es : list lev) : LogFile.M unit :=
  match es with
  | [] => mret tt
  | LMsg m :: es' => _ ← Log clean (extra_text ctx) m; run_log FromHumanSize ctx es'
  | LRestart :: es' => _ ← New clean FromHumanSize ctx; run_log FromHumanSize ctx es'
  end.

Definition blank_world : LogFile.world :=
  LogFile.mkWorld empty_disk 0 (mkWriter (mkHandle 0 false 0 true) (-1) 0 1 0).

(** The sizes of a configuration. *)
Definition config_sizes (FromHumanSize : string → option Z) (ctx : Context) : option (Z * Z) :=
  cap ← match Config ctx !! "max-size" with Some c => FromHumanSize c | None => Some (-1) end;
  max ← match Config ctx !! "max-file" with Some f => Atoi f | None => Some 1 end;
  if max <? 1 then None else Some (cap, max).

Lemma New_sizes fate FHS ctx w cap max :
  config_sizes FHS ctx = Some (cap, max) →
  1 ≤ max ∧ New fate FHS ctx w = (NewRotateFileWriter fate cap max ;; mret (extra_text ctx)) w.
Proof.
  unfold config_sizes, New. destruct (match Config ctx !! "max-size" with Some _ => _ | None => _ end) as [c|]; [|done].
  simpl. destruct (match Config ctx !! "max-file" with Some _ => _ | None => _ end) as [x|]; [|done]. simpl.
  destruct (Z.ltb_spec x 1); [done|]. by intros [= -> ->].
Qed.

Lemma run_log_inv FHS ctx cap max es : ∀ w ns gs gone,
  config_sizes FHS ctx = Some (cap, max) → LInv (extra_text ctx) cap max w ns gs gone → valid_msgs (msgs_of es) →
  ∃ w' ns' gs' gone', run_log FHS ctx es w = (Ok tt, w') ∧ LInv (extra_text ctx) cap max w' ns' gs' gone' ∧
    logged gs' gone' = logged gs gone ++ msgs_of es.
Proof.
  induction es as [|[m|] es IH]; intros w ns gs gone Hc HI Hv.
  - exists w, ns, gs, gone. by rewrite app_nil_r.
  - unfold msgs_of in Hv. simpl in Hv. apply Forall_cons in Hv as [Hm Hv].
    destruct (Log_spec _ _ _ _ _ _ _ m _ HI (text_of_line (extra_text ctx) m Hm)) as (w1 & ns1 & gs1 & gone1 & E & HI1 & Hl1).
    destruct (IH w1 ns1 gs1 gone1 Hc HI1 Hv) as (w2 & ns2 & gs2 & gone2 & E2 & HI2 & Hl2).
    exists w2, ns2, gs2, gone2. cbn [run_log]. rewrite (lbind_ok _ _ _ _ _ E), E2. split_and!; [done|done|].
    rewrite Hl2, Hl1, <-app_assoc. done.
  - destruct (reopen_spec _ _ _ _ _ _ _ HI) as (w1 & E & HI1). destruct (New_sizes clean FHS ctx w cap max Hc) as [_ HN].
    destruct (IH w1 ns gs gone Hc HI1 Hv) as (w2 & ns2 & gs2 & gone2 & E2 & HI2 & Hl2).
    exists w2, ns2, gs2, gone2. split_and!; [|done|done]. cbn [run_log].
    assert (New clean FHS ctx w = (Ok (extra_text ctx), w1)) as HN'. { rewrite HN. by rewrite (lbind_ok _ _ _ _ _ E). }
    by rewrite (lbind_ok _ _ _ _ _ HN'), E2.
Qed.

Lemma start_inv FHS ctx cap max :
  config_sizes FHS ctx = Some (cap, max) →
  ∃ w, New clean FHS ctx blank_world = (Ok (extra_text ctx), w) ∧ LInv (extra_text ctx) cap max w [0%nat] [[]] [].
Proof.
  intros Hc. destruct (New_sizes clean FHS ctx blank_world cap max Hc) as [Hmax HN].
  destruct (first_open_spec (extra_text ctx) cap max blank_world eq_refl Hmax) as (w & E & HI).
  exists w. split; [|done]. rewrite HN. by rewrite (lbind_ok _ _ _ _ _ E).
Qed.

Lemma full_groups extra cap gs :
  Forall (λ g, cap ≤ len (group_text extra g)) gs → len gs * cap ≤ len (group_text extra (concat (rev gs))).
Proof.
  induction 1 as [|g gs Hg _ IH]; [done|]. simpl. rewrite concat_app, group_text_app, len_app. simpl. rewrite app_nil_r.
  unfold len in *. simpl. lia.
Qed.

(** Without max-size nothing is rotated away. *)
Lemma unlimited_keeps_all FHS ctx cap max w ns gs gone :
  config_sizes FHS ctx = Some (cap, max) → Config ctx !! "max-size" = None →
  LInv (extra_text ctx) cap max w ns gs gone → gone = [].
Proof.
  intros Hc Hno HI. destruct (decide (gone = [])) as [|Hg]; [done|]. destruct (l_len _ _ _ _ _ _ _ HI) as [_ H].
  destruct (H Hg) as [Hcap _]. unfold config_sizes in Hc. rewrite Hno in Hc. simpl in Hc.
  destruct (match Config ctx !! "max-file" with Some _ => _ | None => _ end) as [x|]; [|done]. simpl in Hc.
  destruct (x <? 1); [done|]. congruence.
Qed.

(** C28: docker logs shows what was logged.  For every configuration of the
    json-file driver, after any sequence of messages and restarts of the
    container, the log files hold the last messages, in order and complete
    (all of them without max-size, and with it at least (max-file - 1) times
    max-size bytes of them); and reading the log gives exactly those of them
    that were asked for (the last ones, since a time): each with the bytes
    that were logged and a line feed, up to bytes that are not UTF-8, with its
    stream and its time, and without an error. *)
Theorem docker_logs FHS ctx cap max es fo :
  config_sizes FHS ctx = Some (cap, max) → valid_msgs (msgs_of es) →
  ∃ w gone kept, (_ ← New clean FHS ctx; run_log FHS ctx es) blank_world = (Ok tt, w) ∧
    msgs_of es = gone ++ kept ∧
    (Config ctx !! "max-size" = None → gone = []) ∧
    (gone ≠ [] → (max - 1) * cap ≤ len (group_text (extra_text ctx) kept)) ∧
    ∀ config, ∃ a, readLogs fo (λ _, dk w) (λ _, false) (dk w) max config = (map shown (selected config kept), a, true).
Proof.
  intros Hc Hv. destruct (start_inv FHS ctx cap max Hc) as (w0 & E0 & HI0).
  destruct (run_log_inv FHS ctx cap max es w0 _ _ _ Hc HI0 Hv) as (w & ns & gs & gone & E & HI & Hl).
  assert (msgs_of es = gone ++ concat (rev gs)) as Hall by (symmetry; exact Hl).
  assert (valid_msgs (concat (rev gs))) as Hk by (rewrite Hall in Hv; by apply Forall_app in Hv as [_ ?]).
  exists w, gone, (concat (rev gs)). split_and!; [|done| | |].
  - by rewrite (lbind_ok _ _ _ _ _ E0).
  - intros Hno. by eapply unlimited_keeps_all.
  - intros Hg. destruct (l_len _ _ _ _ _ _ _ HI) as [_ H]. destruct (H Hg) as [Hcap Hlen].
    pose proof (full_groups _ _ _ (l_full _ _ _ _ _ _ _ HI Hcap)) as Hfull.
    destruct gs as [|g gs]; [unfold len in Hlen; simpl in Hlen; destruct (New_sizes clean FHS ctx blank_world cap max Hc); lia|].
    simpl in *. rewrite concat_app, group_text_app, len_app. pose proof (len_nonneg (group_text (extra_text ctx) (concat [g]))).
    assert (len gs = max - 1) as Hm by (unfold len in *; simpl in Hlen; lia). rewrite Hm in Hfull. lia.
  - intros config. eapply readLogs_spec; [apply extra_text_no_nl|apply extra_text_ok|done|done].
Qed.

Lemma shown_from n ms :
  (∀ m, m ∈ ms → sanitize (Source m) = Source m) →
  map Line (from n (map shown ms)) = map (λ l, sanitize (l +:+ newline)) (map Line (from n ms)).
Proof.
  induction ms as [|m ms IH]; intros Hs; [done|]. unfold from in *. simpl. rewrite (Hs m) by (by left).
  assert (∀ m, m ∈ ms → sanitize (Source m) = Source m) as Hs' by (intros x Hx; apply Hs; by right).
  case_bool_decide; simpl; by rewrite (IH Hs').
Qed.

Lemma copies_sources extra w srcs ms w' js' :
  copies extra w (map Some srcs) ms w' js' → Forall2 job_name srcs js' → ∀ m, m ∈ ms → Source m ∈ map name srcs.
Proof.
  intros Hc Hn m Hm. revert Hn. remember (map Some srcs) as js eqn:Ejs. induction Hc as [|ms w1 js1 i s now o w2 Hc IH Hi Hnow Ht]; intros Hn.
  - by apply elem_of_nil in Hm.
  - assert (Forall2 job_name srcs js1) as Hn1.
    { clear -Hc Ejs. subst. induction Hc as [|ms w1 js1 i s now o w2 _ IH Hi _ Ht].
      - clear. induction srcs as [|s srcs IH]; [constructor|]. simpl. by constructor.
      - destruct (Forall2_lookup_r _ _ _ _ _ IH Hi) as (si & Hsi & Hname). rewrite <-(list_insert_id srcs i si Hsi).
        apply Forall2_insert; [done|]. unfold copy_turn in Ht. destruct (ReadBytes (unread_ s)) as [[line ended] rest].
        unfold mbind, ST_bind in Ht. case_match. case_match; try done. simpl in Ht. injection Ht as <- _. by destruct ended. }
    apply elem_of_app in Hm as [Hm|Hm]; [by apply IH|].
    destruct (Forall2_lookup_r _ _ _ _ _ Hn1 Hi) as (si & Hsi & Hname). simpl in Hname.
    pose proof (turn_msgs_name now s) as Hf. rewrite Forall_forall in Hf. destruct (Hf m Hm) as [-> _].
    rewrite Hname. apply list_elem_of_In, in_map, list_elem_of_In. by eapply list_elem_of_lookup_2.
Qed.

(** C10: what a container prints is what docker logs shows, when its log has no
    maximal size (option max-size), so that no file is rotated, and no call of
    the file system fails.  However the copies of its streams take turns, once
    they have come to the end of the streams the log shows, for every stream,
    its bytes, a line feed being added at the end where it is missing and bytes
    that are not UTF-8 being replaced.  (The streams have different names in
    ASCII; with a maximal size, what is left after rotation is shown:
    [docker_logs].) *)
Theorem output_is_shown FHS ctx cap max fo srcs w ms w' :
  config_sizes FHS ctx = Some (cap, max) → Config ctx !! "max-size" = None →
  New clean FHS ctx blank_world = (Ok (extra_text ctx), w) →
  NoDup (map name srcs) → Forall (λ s, is_ascii (name s) = true) srcs →
  copies (extra_text ctx) w (map Some srcs) ms w' (map (λ _, None) srcs) →
  ∃ out a, readLogs fo (λ _, dk w') (λ _, false) (dk w') max (mkConfig zero_time (-1)) = (out, a, true) ∧
    ∀ s, s ∈ srcs → concat_str (map Line (from (name s) out)) = sanitize (terminated (unread_ s)).
Proof.
  intros Hc Hno HN Hnd Hascii Hrun. destruct (start_inv FHS ctx cap max Hc) as (w0 & E0 & HI0).
  rewrite E0 in HN. injection HN as ->.
  destruct (copies_inv _ _ _ _ _ _ _ _ _ _ _ srcs HI0 eq_refl Hnd Hrun) as ((ns & gs & gone & HI & Hl) & Hv & Hnames & Hp).
  assert (gone = []) as -> by (by eapply unlimited_keeps_all).
  unfold logged in Hl. simpl in Hl.
  destruct (readLogs_spec _ (extra_text_no_nl ctx) fo _ (extra_text_ok fo ctx) _ _ _ _ _ _ (mkConfig zero_time (-1)) HI) as [a Er];
    [by rewrite Hl|].
  assert (selected (mkConfig zero_time (-1)) ms = ms) as Hsel.
  { unfold selected. simpl. clear. induction ms as [|m ms IH]; [done|]. simpl. rewrite IH. done. }
  rewrite Hl, Hsel in Er. exists (map shown ms), a. split; [done|]. intros s Hs.
  apply list_elem_of_lookup in Hs as [i Hi]. destruct (Hp i s Hi) as (o & Ho & Hpr).
  rewrite list_lookup_fmap, Hi in Ho. simpl in Ho. injection Ho as <-. simpl in Hpr. rewrite app_nil_r in Hpr.
  rewrite shown_from, <-Hpr; [by apply (printed_text (String.length (unread_ s)))|].
  intros m Hm. pose proof (copies_sources _ _ _ _ _ _ Hrun Hnames m Hm) as Hn.
  apply list_elem_of_In, in_map_iff in Hn as (s' & <- & Hs'). apply sanitize_ascii.
  rewrite Forall_forall in Hascii. by apply Hascii, list_elem_of_In.
Qed.

(** ** A rotation that fails *)

(** The file is closed and full. *)
Definition stuck (w : LogFile.world) : Prop :=
  h_closed (wf (wr w)) = true ∧ capacity (wr w) ≠ -1 ∧ capacity (wr w) ≤ currentSize (wr w).

Lemma stuck_Write fate m w : stuck w → Write fate m w = (Ok (-1, true), w).
Proof.
  intros (Hc & Hcap & Hfull). unfold Write, st_try, checkCapacityAndRotate, file_Close, mbind, ST_bind. simpl.
  rewrite (proj2 (Z.eqb_neq _ _)), (proj2 (Z.leb_le _ _)) by done. by rewrite Hc.
Qed.

Lemma Rename_wr fate a b w : wr (Rename fate a b w).2 = wr w.
Proof.
  unfold Rename, mbind, ST_bind. simpl. destruct (fate (calls w)); simpl; [done|]. by destruct (files (dk w) !! a).
Qed.

Lemma rotate_loop_wr fate n : ∀ w, wr (rotate_loop fate n w).2 = wr w.
Proof.
  induction n as [|n IH]; intros w; [done|]. cbn [rotate_loop]. unfold mbind, ST_bind.
  pose proof (Rename_wr fate (Z.of_nat (S n)) (Z.of_nat (S (S n))) w) as H.
  destruct (Rename fate (Z.of_nat (S n)) (Z.of_nat (S (S n))) w) as [[[]|e|x] w1]; simpl in *; [by rewrite IH|done|done].
Qed.

Lemma rotate_wr fate max w : wr (rotate fate max w).2 = wr w.
Proof.
  unfold rotate. destruct (max <? 2); [done|]. unfold mbind, ST_bind.
  pose proof (rotate_loop_wr fate (Z.to_nat (max - 2)) w) as H.
  destruct (rotate_loop fate (Z.to_nat (max - 2)) w) as [[[]|e|x] w1]; simpl in *; [by rewrite Rename_wr|done|done].
Qed.

Lemma OpenFile_fails fate n t w e w' : OpenFile fate n t w = (Err e, w') → wr w' = wr w.
Proof.
  unfold OpenFile, mbind, ST_bind. simpl. destruct (fate (calls w)); simpl; [by intros [= _ <-]|].
  destruct (files (dk w) !! n), t; done.
Qed.

Lemma rotation_fails_stuck fate w e w' : checkCapacityAndRotate fate w = (Err e, w') → stuck w'.
Proof.
  unfold checkCapacityAndRotate. unfold mbind at 1, ST_bind at 1. cbn [st_gets].
  destruct (Z.eqb_spec (capacity (wr w)) (-1)) as [|Hcap]; [done|].
  destruct (Z.leb_spec (capacity (wr w)) (currentSize (wr w))) as [Hfull|]; [|done].
  unfold mbind at 1, ST_bind at 1. destruct (file_Close fate w) as [r w1] eqn:Ec.
  assert (stuck w1) as H1.
  { unfold file_Close, mbind, ST_bind in Ec. simpl in Ec. destruct (h_closed (wf (wr w))) eqn:Hc.
    - injection Ec as <- <-. done.
    - simpl in Ec. by destruct (fate (calls w)); injection Ec as <- <-. }
  assert (∀ w2, wr w2 = wr w1 → stuck w2) as Hsame by (intros w2 E; unfold stuck in *; by rewrite E).
  destruct r as [[]|e1|x]; [|by intros [= _ <-]|done].
  unfold mbind at 1, ST_bind at 1. pose proof (rotate_wr fate (maxFiles (wr w)) w1) as Hr.
  destruct (rotate fate (maxFiles (wr w)) w1) as [[[]|e2|x] w2]; simpl in Hr; [|intros [= _ <-]; by apply Hsame|done].
  unfold mbind, ST_bind. destruct (OpenFile fate 0 true w2) as [[h|e3|x] w3] eqn:Eo; [done| |done].
  intros [= _ <-]. apply Hsame. by rewrite (OpenFile_fails _ _ _ _ _ _ Eo).
Qed.

(** C40: a rotation that failed once is final.  When a write could not rotate
    the log, for whatever reason, every later write fails as well and changes
    nothing, also when the file system works again: the file was closed, its
    size stays above the limit, and closing it once more is an error. *)
Theorem rotation_failure_final fate m w w' :
  Write fate m w = (Ok (-1, true), w') → ∀ fate' m', Write fate' m' w' = (Ok (-1, true), w').
Proof.
  intros E fate' m'. apply stuck_Write. revert E. unfold Write, st_try. unfold mbind at 1, ST_bind at 1.
  destruct (checkCapacityAndRotate fate w) as [[[]|e|x] w1] eqn:Ec; [| |done].
  - unfold file_Write, mbind, ST_bind. simpl. destruct (h_closed (wf (wr w1))); simpl; [by intros [= ?]|].
    set (d := match fate (calls w1) with Some k => take k m | None => m end).
    pose proof (len_nonneg d). case_bool_decide; simpl; intros [= Hl]; lia.
  - intros [= <-]. by eapply rotation_fails_stuck.
Qed.

(** ** Witnesses *)

Definition noon (s : Z) : time := mkTime 2016 8 10 12 0 s 0 0.

Lemma noon_valid s : 0 ≤ s < 60 → valid_time (noon s).
Proof. intros H. unfold valid_time, noon. simpl. split_and!; try lia; done. Qed.

Definition no_sizes : string → option Z := λ _, None.
Definition plain_ctx : Context := mkContext ∅ ∅ [].

(** Three messages a second each; a limit of one byte and three files. *)
Definition small_ctx : Context := mkContext {["max-size" := "1"; "max-file" := "3"]} {["team" := "a<b"]} [].
Definition labelled_ctx : Context := mkContext {["max-size" := "1"; "max-file" := "3"; "labels" := "team"]} {["team" := "a<b"]} [].
Definition one_byte : string → option Z := λ _, Some 1.

Definition demo_events : list lev :=
  [LMsg (mkMessage "one" "stdout" (noon 1)); LRestart; LMsg (mkMessage "two" "stderr" (noon 2));
   LMsg (mkMessage "three" "stdout" (noon 3)); LMsg (mkMessage "four" "stdout" (noon 4))].

Lemma docker_logs_witness :
  ∃ w gone kept, (_ ← New clean one_byte labelled_ctx; run_log one_byte labelled_ctx demo_events) blank_world = (Ok tt, w) ∧
    msgs_of demo_events = gone ++ kept ∧
    ∀ config, ∃ a, readLogs (λ _, true) (λ _, dk w) (λ _, false) (dk w) 3 config = (map shown (selected config kept), a, true).
Proof.
  destruct (docker_logs one_byte labelled_ctx 1 3 demo_events (λ _, true)) as (w & gone & kept & H1 & H2 & _ & _ & H3).
  - vm_compute. reflexivity.
  - unfold valid_msgs, msgs_of. simpl. repeat (apply Forall_cons; split; [apply noon_valid; lia|]). apply Forall_nil. exact I.
  - exists w, gone, kept. split; [exact H1|]. split; [exact H2|exact H3].
Defined.

(** What the run leaves to be seen: the first message was rotated away. *)
Example docker_logs_demo :
  match (_ ← New clean one_byte labelled_ctx; run_log one_byte labelled_ctx demo_events) blank_world with
  | (Ok _, w) => readLogs (λ _, true) (λ _, dk w) (λ _, false) (dk w) 3 (mkConfig (noon 3) (-1)) =
      ([mkMessage ("three" +:+ newline) "stdout" (noon 3); mkMessage ("four" +:+ newline) "stdout" (noon 4)],
       {["team" := "a<b"]}, true)
  | _ => False
  end.
Proof. vm_compute. reflexivity. Qed.

(** The reader opens the oldest file, then the log is rotated, then it opens
    the others: a message in the middle is missed. *)
Example rotation_race :
  let run es := ((_ ← New clean one_byte small_ctx; run_log one_byte small_ctx es) blank_world).2 in
  let before := dk (run (firstn 4 demo_events)) in
  let after := dk (run demo_events) in
  (readLogs (λ _, true) (λ k, if bool_decide (k = 0)%nat then before else after) (λ _, false) after 3 (mkConfig zero_time (-1))).1.1 =
  [mkMessage ("one" +:+ newline) "stdout" (noon 1); mkMessage ("three" +:+ newline) "stdout" (noon 3);
   mkMessage ("four" +:+ newline) "stdout" (noon 4)].
Proof. vm_compute. reflexivity. Qed.

(** A write that fails in the middle of a record hides the records after it. *)
Example torn_record :
  let fate n := if bool_decide (n = 2)%nat then Some 5%nat else None in
  let run := (_ ← New clean no_sizes plain_ctx; _ ← Log fate "" (mkMessage "one" "stdout" (noon 1));
              _ ← Log fate "" (mkMessage "two" "stdout" (noon 2)); Log fate "" (mkMessage "three" "stdout" (noon 3))) in
  (readLogs (λ _, true) (λ _, dk (run blank_world).2) (λ _, false) (dk (run blank_world).2) 1 (mkConfig zero_time (-1))) =
  ([mkMessage ("one" +:+ newline) "stdout" (noon 1)], ∅, false).
Proof. vm_compute. reflexivity. Qed.

(** Two streams, one of which does not end with a line feed. *)
Definition demo_srcs : list src :=
  [mkSrc "stdout" ("one" +:+ newline +:+ newline +:+ "two") false; mkSrc "stderr" ("oops" +:+ newline) false].

Lemma copies_more extra w js ms w1 js1 i s now o w2 :
  copies extra w js ms w1 js1 → js1 !! i = Some (Some s) → valid_time now →
  copy_turn clean extra now s w1 = (Ok o, w2) → copies extra w js (ms ++ turn_msgs now s) w2 (<[i := o]> js1).
Proof. intros H1 H2 H3 H4. by eapply copies_turn. Qed.

(** The world after some turns. *)
Fixpoint turns (extra : string) (sched : list nat) (t : Z) (js : list (option src)) (w : LogFile.world)
    : list Message * LogFile.world * list (option src) :=
  match sched with
  | [] => ([], w, js)
  | i :: sched' =>
      match js !! i with
      | Some (Some s) =>
          match copy_turn clean extra (noon t) s w with
          | (Ok o, w') => let '(ms, w2, js2) := turns extra sched' (t + 1) (<[i := o]> js) w' in (turn_msgs (noon t) s ++ ms, w2, js2)
          | _ => ([], w, js)
          end
      | _ => ([], w, js)
      end
  end.

Lemma turns_copies extra sched : ∀ t js w w0 js0 ms0,
  copies extra w0 js0 ms0 w js → 0 ≤ t → t + Z.of_nat (length sched) < 60 →
  let '(ms, w', js') := turns extra sched t js w in copies extra w0 js0 (ms0 ++ ms) w' js'.
Proof.
  induction sched as [|i sched IH]; intros t js w w0 js0 ms0 Hc Ht Hb; simpl; [by rewrite app_nil_r|].
  destruct (js !! i) as [[s|]|] eqn:Ei; [|by rewrite app_nil_r|by rewrite app_nil_r].
  destruct (copy_turn clean extra (noon t) s w) as [[o|e|x] w1] eqn:Et; [|by rewrite app_nil_r|by rewrite app_nil_r].
  simpl in Hb. assert (copies extra w0 js0 (ms0 ++ turn_msgs (noon t) s) w1 (<[i := o]> js)) as Hc'.
  { eapply copies_more; [done|done|apply noon_valid; lia|done]. }
  specialize (IH (t + 1) (<[i := o]> js) w1 w0 js0 _ Hc' ltac:(lia) ltac:(lia)).
  destruct (turns extra sched (t + 1) (<[i:=o]> js) w1) as [[ms2 w2] js2]. by rewrite app_assoc.
Qed.

Lemma output_is_shown_witness :
  ∃ w', ∃ out a, readLogs (λ _, true) (λ _, dk w') (λ _, false) (dk w') 1 (mkConfig zero_time (-1)) = (out, a, true) ∧
    concat_str (map Line (from "stdout" out)) = "one" +:+ newline +:+ newline +:+ "two" +:+ newline ∧
    concat_str (map Line (from "stderr" out)) = "oops" +:+ newline.
Proof.
  pose (w := (New clean no_sizes plain_ctx blank_world).2).
  assert (New clean no_sizes plain_ctx blank_world = (Ok (extra_text plain_ctx), w)) as E by (vm_compute; reflexivity).
  pose (r := turns (extra_text plain_ctx) [0; 1; 0; 0; 1]%nat 0 (map Some demo_srcs) w).
  pose proof (turns_copies (extra_text plain_ctx) [0; 1; 0; 0; 1]%nat 0 (map Some demo_srcs) w w (map Some demo_srcs) []
    (copies_nil _ _ _) ltac:(lia) ltac:(simpl; lia)) as Hc. fold r in Hc.
  assert (r.2 = map (λ _, None) demo_srcs) as Hj by (vm_compute; reflexivity).
  destruct r as [[ms w'] js']. simpl in Hj. subst js'. clearbody w.
  destruct (output_is_shown no_sizes plain_ctx (-1) 1 (λ _, true) demo_srcs w ms w') as (out & a & Hr & Hs).
  - vm_compute. reflexivity.
  - vm_compute. reflexivity.
  - exact E.
  - apply (bool_decide_unpack _). vm_compute. exact I.
  - apply (bool_decide_unpack _). vm_compute. exact I.
  - exact Hc.
  - exists w', out, a. split; [exact Hr|]. split.
    + assert (mkSrc "stdout" ("one" +:+ newline +:+ newline +:+ "two") false ∈ demo_srcs) as Hin by (by left).
      pose proof (Hs _ Hin) as H. cbn [name unread_] in H. rewrite H. vm_compute. reflexivity.
    + assert (mkSrc "stderr" ("oops" +:+ newline) false ∈ demo_srcs) as Hin by (by right; left).
      pose proof (Hs _ Hin) as H. cbn [name unread_] in H. rewrite H. vm_compute. reflexivity.
Defined.

(** The renaming of a full log fails once; the log takes nothing more. *)
Definition full_world : LogFile.world :=
  ((_ ← New clean one_byte small_ctx; run_log one_byte small_ctx [LMsg (mkMessage "one" "stdout" (noon 1))]) blank_world).2.

Lemma rotation_failure_final_witness :
  ∃ w', Write (λ n, if bool_decide (n = 3)%nat then Some 0%nat else None) (to_raw "x") full_world = (Ok (-1, true), w') ∧
    Write clean (to_raw "y") w' = (Ok (-1, true), w').
Proof.
  eexists. split; [vm_compute; reflexivity|].
  apply (rotation_failure_final (λ n, if bool_decide (n = 3)%nat then Some 0%nat else None) (to_raw "x") full_world).
  vm_compute. reflexivity.
Defined.
